(* ===== verification/_CoqProject ===== *)
-Q . S2P
Prelude.v
Radix.v
Base58.v
Bytes.v
Base64.v
Decimal.v
Vec.v
Map.v
PtrMap.v
Ring.v
Gaps.v
GapSet.v
Types.v
Json.v
Arena.v
Wire.v
Block.v
Walk.v
VoteFilter.v
SlotCursor.v
Operands.v
SystemProgram.v
TokenProgram.v
Balance.v
Token2022.v
Transfer.v
VenueTypes.v
VenuePump.v
VenueJupiter.v
VenueRaydium.v
Venue.v
Token.v
Swap.v
Pool.v
Double.v
DoubleText.v
Price.v
Bar.v
Store.v
ChRows.v
ChSchema.v
Ch.v
ChStore.v
Rpc.v
RpcCalls.v
Config.v
Pg.v
PgSchema.v
PgStore.v
Fetcher.v
Processor.v
Pipeline.v
Consumer.v
Main.v
Diagnostics.v
Ws.v
Pubsub.v
PubsubRun.v
Live.v
