(* ===== verification/Prelude.v ===== *)
(** * A verification development for solana_c_indexer

    solana_c_indexer follows the Solana chain and turns its blocks into rows.  This
    library models its C code, function by function, and proves what makes it right.
    Every definition that translates code says in the comment before it which lines
    of which file it translates; the names are the code's.

    ** The program and its files here

    Foundations.  [Prelude] (error.h: statuses, [IDX_TRY], [IDX_FAIL]; the allocator),
    [Bytes] (bytes.c), [Vec] (vec.c), [Map] (map.c), [Ring] (ring.c), [Gaps] (gaps.c),
    [Arena] (arena.c), [SlotCursor] (slot_cursor.c), [Config] (config.c, the level
    names of log.c), [Diagnostics] (error.c and log.c).  Text and numbers: [Radix], [Decimal], [Base58] (base58.c),
    [Base64] (base64.c), [Types] (types.c), [Double] (IEEE doubles), [DoubleText] (their
    bits and their text).

    Reading a block.  [Json] (json.c over the tree yyjson gives), [Block] (block.c),
    [VoteFilter] (vote_filter.c), [Wire] and [Operands] (what the binary decoders
    share), [SystemProgram], [TokenProgram], [Token2022] (the decoders of the native
    programs), [VenueTypes], [VenuePump], [VenueJupiter], [VenueRaydium], [Venue] (the
    decoders of the exchanges).

    Deriving rows.  [Walk] (the order instructions are visited in), [Balance]
    (balance.c), [Transfer] (transfer.c), [Swap] (swap.c), [Price] (price.c), [Bar]
    (bar.c), [Token] (token.c), [Pool] (pool.c).

    Following the chain.  [Fetcher] (fetcher.c), [Processor] (the processing thread of
    pipeline.c) and [Pipeline] (the rest of pipeline.c).  The command: [Consumer] (the
    block handler of main.c) and [Main] (the rest of main.c).

    Talking to the outside.  [Rpc] (rpc.c: the client, retries, calls) and [RpcCalls]
    (what getBlocks and batches amount to), [Ws] (ws.c: the WebSocket client), [Pubsub]
    (pubsub.c: subscriptions over it) and [PubsubRun] (what any run of its calls keeps), [Live]
    (pipeline.c following the tip with that client), [Store] (store.c: the two storage tiers and
    the in-memory backends that are their executable specification), [ChRows]
    (ch_rows.c: rows in ClickHouse's formats), [ChSchema] (the tables of ch_store.c),
    [Ch] (ch.c: the connection) and [ChStore] (ch_store.c: the finalized tier on it), [Pg]
    (pg.c: the PostgreSQL connection), [PgSchema] (the tables and statements of
    pg_store.c) and [PgStore] (pg_store.c: the confirmed tier on it).

    ** How the parts interact

    Six interfaces stand between a component and its clients, as type classes whose
    laws the clients' theorems use and the implementations' theorems discharge:
    [Arena.ArenaOps] and [ArenaSpec] (block.c, balance.c, transfer.c and swap.c allocate
    from an arena), [PtrMap.PtrMapOps] and [PtrMapSpec] (token.c, pool.c and bar.c keep
    their records behind a table of addresses, of which map.c is one),
    [GapSet.GapOps] and [GapSpec] (the threads of the pipeline share a set of missing
    slots, of which gaps.c is one), [Ch.ChOps] and [ChSpec] (the finalized tier sends
    inserts over a connection, of which ch.c is one), [Pg.PgOps] and [PgSpec] (the
    confirmed tier executes statements over a connection, of which pg.c is one), and
    [PgStore.PgServer] and [PgServerSpec] (the transactions of the server, which is not
    code of this program).

    A run: [Main.start] loads the configuration, opens the cursor and makes the tally;
    [Pipeline.idx_pipeline_open] builds the rings, the gap set and the processing
    thread's state; [queue_backfill] adds the slots from the cursor to the tip; the
    receive loop ([receive] over [subscription_turn] or [fallback_turn]) turns
    notifications into ring entries; [Processor.run_processor] takes them, calls the
    consumer (in the command, [Consumer.count_block]), keeps the gap set, the cursor and its file; the fetchers
    ([Fetcher.worker_turn]) claim ranges of the gap set and publish what they recover.
    [Processor.world] holds what these threads share; before each lock the processing
    thread takes, the schedule says what the fetchers do, one lock at a time, so a theorem
    about all schedules is one about all interleavings at the locks, those inside
    [idx_gaps_release], which takes its lock three times, included.

    ** What the theorems show

    Position (SlotCursor, Gaps, Fetcher, Processor, Pipeline): resolving, adding and
    claiming, and releasing undisturbed, change the set of missing slots by exactly the
    slots they name; the watermark is below all of them; a fetcher accounts for every
    slot of a claim, each once; and so [last_indexed] passes no slot that was neither
    accepted by the consumer nor given up on, but for those of a release that was between
    its two last locks when the position was computed; a save is atomic across crashes,
    and a restart resumes at or before whatever is missing, with the same exception.
    Three theorems state where the code falls short: [Processor.release_window_passes]
    (the exception happens: a position computed inside a release passes its slots and is
    saved), [Fetcher.fetcher_stop_forgets] (a stop resolves what was not fetched) and
    [Pipeline.pipeline_tip_hole] (slots between the tip and the first notification).

    Containers (Ring, Map, Vec, Arena): the ring is a queue that drops its oldest entry
    or blocks, and every document entering it is freed once or handed out; the table is
    a finite map under every pattern of tombstones, growth and allocation failure;
    arena blocks are aligned and disjoint, and a reset replays.

    Codecs and decoders (Base58, Base64, Types, Json, Block, SystemProgram,
    TokenProgram, Token2022, the Venue files): decoding inverts encoding; a decoder accepts
    exactly the layouts of its program and reads exactly their fields; decoded indices
    are in range; errors are the documented ones.

    Rows (Balance, Transfer, Swap, Price, Bar, Token, Pool): the rows are the
    comprehension over the executed instructions they are meant to be, in execution
    order; a route nets to what was paid and got; a price is in the best quote; a bar
    is the fold of its swaps, whatever the order for all but the volumes, and is
    recomputed exactly after a reorg; a registry is the fold of what it observed, with
    one live record for each key.

    Recovery over RPC (Rpc, RpcCalls): for any network, a request is tried exactly as
    long as it should be and where it should be; a call means by its status what the
    header says; a range of slots is asked for in pieces that cover it, and the answers
    of a batch find their calls.

    Live notifications (Ws, Pubsub, PubsubRun, Live): whatever way messages are cut into frames and
    pieces, those handed over are the ones sent, whole and in order; through any calls,
    reconnects and failures, a notification is handed over for the subscription whose
    own request, sent on the same connection, the server granted under the id it
    carries; the reconnection delays double within their bounds; and every block the pipeline
    publishes from its socket came that way, for the configured subscription.

    The command (Consumer, Main): after any run of blocks, through any failure, every
    counter of the tally is the sum over what the blocks gave and every registry the fold
    of it; start-up stops exactly where it should, the tear-down frees every record.

    Diagnostics: an error record holds the status and a message that fits it; a line is written exactly when its level is at or above the threshold.

    Storage (Store): through any run of calls the confirmed tier holds what the accepted
    writes, reorgs and prunes leave, a refused call changing nothing; promotion moves
    exactly a closed range of slots; the finalized tier only grows.

    ClickHouse (ChRows, ChSchema, Ch, ChStore): a body is exactly the rows accepted since it
    was emptied, through every allocation failure, and reads back as them; every encoder
    writes the columns its table declares; an insert is one request with that body; and
    over any run of appends and flushes what the server acknowledged and what is still
    pending make up the rows the store took.  [ChStore.ch_store_wedges] and
    [ChStore.swap_key_collision] state where the code falls short.

    PostgreSQL (Pg, PgSchema, PgStore): the statements a client registered are those of the
    server's session after every reconnect that succeeds; every row is one execution of
    its table's insert with values of the columns' types; a write or a reorg is one
    transaction, so that on a server with PostgreSQL's transactions it is applied whole
    or not at all.

    Configuration (Config): each setting has the value of the last source that names
    it, and whatever is read the fields are in range.

    ** Conventions

    Machine integers are [Z] with their wrap-around written out ([u8] to [u64]);
    bytes are [Z]s, strings the bytes before their NUL; a field valid under a flag is
    an option; a fallible function returns [result].  Null-pointer guards are options
    or are excluded by the types, as each file says.

    Allocation is a list of outcomes ([heap]), so a theorem about all heaps is one
    about every pattern of failures; [[]] never fails.  A disk maps paths to bytes that
    are or are not on the medium; a crash keeps those that are and scrambles the rest.
    Doubles are the Standard Library's [spec_float] at 53 bits.  The answers of the
    network, the clock and the scheduler are arguments.  The theorems about [Rpc] are for
    a client with memory; those about [Store] for every heap.

    Fuel: recursions that are not structural carry as fuel a bound of their own
    input, and a lemma that it suffices: the doublings of a capacity (64 for a 64-bit
    size), the digits of a 64-bit number (20), the ranges of a gap set when it
    coarsens, the bytes of a file or a text when it is read line by line or token by
    token, the slots of a table when it is scanned (its capacity, and one more to
    close the cycle of an iteration), the queue's length when a ring is freed, the
    seven-bit groups of a 64-bit length (10), the doublings of a response buffer (64),
    the decimal exponents a double can have (400), the bytes of a body when it is read
    back.  The
    loops that wait on the outside (receiving, processing, draining) are given one
    turn of the world's answers after another and return [None] while they have not
    ended.

    Assumptions, each a named hypothesis where it is used: an allocator returns
    disjoint, aligned blocks ([ArenaSpec]); the pipeline's threads have memory, and
    the gap set is not full (4096 ranges) when a range is put in ([crowded]): a full set
    coarsens, over slots a release has yet to return too; slots are below 2^59
    ([SLOT_BOUND]); [getBlocks] lists slots in strictly ascending order, which the code
    does not check ([ascending]); the socket's slots are at or past the tip the backfill was sized by.

    ** Not modelled

    What is printed for people: the messages of errors, idx_config_usage
    and the summary of main.c.  The signal handlers of main.c and the
    thread and clock of its progress line.  Sleeping and the wake-ups of condition
    variables: whoever may run next does.  The outcomes of the socket are arguments of
    [Pipeline], whose theorems are about any sequence of them, and come from the client in
    [Live]; the answers
    [Fetcher] works with are those of [Rpc], whose network is a list of transfers.
    libcurl, libpq, the servers and the vendored yyjson are not code of this program:
    their answers, and the tree yyjson parses, are arguments.  The tools and the tests
    are developer programs over the same functions. *)

From Stdlib Require Export ZArith Lia Ascii String.
From stdpp Require Export base option list numbers gmap.
#[local] Open Scope Z_scope.

(** ** Status codes and fallible computations *)

(** src/include/error.h:14-32 [idx_status] *)
Inductive idx_status :=
  | IDX_OK
  | IDX_ERR_INVALID_ARG
  | IDX_ERR_NO_MEMORY
  | IDX_ERR_IO
  | IDX_ERR_PARSE
  | IDX_ERR_NOT_FOUND
  | IDX_ERR_RANGE
  | IDX_ERR_INTERNAL
  | IDX_ERR_NETWORK
  | IDX_ERR_TIMEOUT
  | IDX_ERR_CLOSED
  | IDX_ERR_REMOTE.

#[export] Instance idx_status_eq_dec : EqDecision idx_status.
Proof. solve_decision. Defined.

(** A function that returns [IDX_OK] and fills its output parameters, or
    returns another status and fills nothing the caller may read. *)
Inductive result (A : Type) :=
  | Ok (a : A)
  | Err (s : idx_status).
Arguments Ok {A} a.
Arguments Err {A} s.

#[export] Instance result_eq_dec {A} `{EqDecision A} : EqDecision (result A).
Proof. solve_decision. Defined.

#[export] Instance result_ret : MRet result := @Ok.

(** src/include/error.h:65-71 [IDX_TRY]: propagate a failure unchanged, go on
    with the value otherwise. *)
#[export] Instance IDX_TRY : MBind result := fun A B f r =>
  match r with Ok a => f a | Err s => Err s end.

(** src/src/error.c:47-71 [idx_error_setf]: the status a failure reports.
    [IDX_OK] is not a failure and becomes [IDX_ERR_INTERNAL]; the message text
    is not modelled. *)
Definition idx_error_setf {A} (status : idx_status) : result A :=
  Err (match status with IDX_OK => IDX_ERR_INTERNAL | s => s end).

Abbreviation IDX_FAIL := idx_error_setf.

(** ** Machine integers: the wrap-around of the unsigned C types *)

Definition u8 (z : Z) : Z := z mod 2 ^ 8.
Definition u16 (z : Z) : Z := z mod 2 ^ 16.
Definition u32 (z : Z) : Z := z mod 2 ^ 32.
Definition u64 (z : Z) : Z := z mod 2 ^ 64.
Definition SIZE_MAX : Z := 2 ^ 64 - 1.

Definition is_byte (b : Z) : Prop := 0 <= b < 256.
Definition is_u64 (z : Z) : Prop := 0 <= z < 2 ^ 64.

#[export] Instance is_byte_dec b : Decision (is_byte b).
Proof. unfold is_byte. apply _. Defined.
#[export] Instance is_u64_dec b : Decision (is_u64 b).
Proof. unfold is_u64. apply _. Defined.

Lemma u64_small z : is_u64 z -> u64 z = z.
Proof. apply Z.mod_small. Qed.

Lemma u64_range z : is_u64 (u64 z).
Proof. by apply Z.mod_pos_bound. Qed.

Lemma u64_add_l a b : u64 (u64 a + b) = u64 (a + b).
Proof. apply Zplus_mod_idemp_l. Qed.

(** Memory: a C byte array of known length. *)
Abbreviation bytes := (list Z).

Definition bytes_ok (l : bytes) : Prop := Forall is_byte l.

#[export] Instance bytes_ok_dec l : Decision (bytes_ok l).
Proof. unfold bytes_ok. apply _. Defined.

(** The length of an array as a [size_t]. *)
Definition size {A} (l : list A) : Z := Z.of_nat (length l).

(** A string literal of the source as the bytes it compiles to. *)
Fixpoint lit (s : string) : bytes :=
  match s with
  | EmptyString => []
  | String c s' => Z.of_N (N_of_ascii c) :: lit s'
  end.

(** A double quote, and a text between two. *)
Definition quoted (l : bytes) : bytes := [34] ++ l ++ [34].

(** [snprintf] into [n] bytes: what fits before the NUL. *)
Definition printed (n : Z) (l : bytes) : bytes := take (Z.to_nat (n - 1)) l.

(** ** The allocator

    [malloc], [calloc] and [realloc] succeed or fail.  A run is given the
    outcomes of its next allocations; when the list is exhausted every later
    allocation succeeds, so [[]] is the machine that never runs out and any
    finite pattern of failures is a list. *)
Abbreviation heap := (list bool).

Definition malloc (h : heap) : bool * heap :=
  match h with
  | [] => (true, [])
  | b :: h' => (b, h')
  end.

(** [calloc(n, sz)] also refuses a product that is not a [size_t]. *)
Definition calloc (n sz : Z) (h : heap) : bool * heap :=
  if SIZE_MAX <? n * sz then (false, h) else malloc h.

(** ** Shared arithmetic tactics *)

(** Comparisons of the source, in the hypotheses, as propositions. *)
Ltac zbool :=
  repeat match goal with
  | H : (_ <? _) = true |- _ => apply Z.ltb_lt in H
  | H : (_ <? _) = false |- _ => apply Z.ltb_ge in H
  | H : (_ <=? _) = true |- _ => apply Z.leb_le in H
  | H : (_ <=? _) = false |- _ => apply Z.leb_gt in H
  | H : (_ =? _) = true |- _ => apply Z.eqb_eq in H
  | H : (_ =? _) = false |- _ => apply Z.eqb_neq in H
  end.

Ltac zlia := zbool; lia.

Ltac zdiv := Z.to_euclidean_division_equations; nia.

(** ** Finite case analysis by evaluation *)

(** A closed decidable proposition, by running its decision procedure. *)
Ltac decide_now :=
  match goal with |- ?P => refine (@bool_decide_eq_true_1 P _ _) end; vm_compute; reflexivity.

(** A decidable property of the integers below [n], by deciding each case. *)
Lemma decide_below (n : nat) (P : Z -> Prop) {Pdec : forall z, Decision (P z)} z :
  forallb (fun i => bool_decide (P (Z.of_nat i))) (seq 0 n) = true ->
  0 <= z < Z.of_nat n -> P z.
Proof.
  intros Hall Hz. rewrite forallb_forall in Hall.
  specialize (Hall (Z.to_nat z) ltac:(apply in_seq; lia)).
  apply bool_decide_eq_true_1 in Hall. by rewrite Z2Nat.id in Hall by lia.
Qed.

(** A boolean property of the integers below [n], by running it on each. *)
Lemma forall_below (n : nat) (P : Z -> bool) z :
  forallb (fun i => P (Z.of_nat i)) (seq 0 n) = true ->
  0 <= z < Z.of_nat n -> P z = true.
Proof.
  intros H Hz. rewrite forallb_forall in H.
  rewrite <- (Z2Nat.id z) by lia. apply H. apply in_seq. lia.
Qed.

(** ** Bit fields *)

(** Or-ing a field above the bits in use is an addition. *)
Lemma lor_shiftl_add a b k :
  0 <= k -> 0 <= a < 2 ^ k -> Z.lor a (Z.shiftl b k) = a + b * 2 ^ k.
Proof.
  intros Hk Ha. rewrite <- (Z.shiftl_mul_pow2 b k Hk).
  assert (Z.land a (Z.shiftl b k) = 0) as Hland.
  { apply Z.bits_inj'. intros n Hn. rewrite Z.land_spec, Z.bits_0.
    destruct (Z.lt_ge_cases n k).
    - rewrite Z.shiftl_spec_low by lia. apply andb_false_r.
    - assert (Z.testbit a n = false) as ->; [|done].
      destruct (decide (a = 0)) as [->|]; [apply Z.bits_0|].
      apply Z.bits_above_log2; [lia|]. apply Z.log2_lt_pow2; [lia|].
      eapply Z.lt_le_trans; [apply Ha|]. apply Z.pow_le_mono_r; lia. }
  pose proof (Z.add_lor_land a (Z.shiftl b k)). lia.
Qed.

(** A shifted byte still fits. *)
Lemma byte_shiftl_small w b k :
  is_byte b -> 0 <= k <= w - 8 -> Z.shiftl b k mod 2 ^ w = Z.shiftl b k.
Proof.
  unfold is_byte. intros Hb Hk. apply Z.mod_small. rewrite Z.shiftl_mul_pow2 by lia.
  assert (2 ^ w = 2 ^ (w - 8 - k) * 2 ^ 8 * 2 ^ k) as ->.
  { rewrite <- !Z.pow_add_r by lia. f_equal. lia. }
  assert (0 < 2 ^ k) by (apply Z.pow_pos_nonneg; lia).
  assert (0 < 2 ^ (w - 8 - k)) by (apply Z.pow_pos_nonneg; lia). nia.
Qed.

(** Turns the or of disjoint bit fields into a sum, innermost field first. *)
Ltac bit_fields :=
  repeat match goal with
  | |- context [Z.lor ?a (Z.shiftl ?b ?k)] =>
      lazymatch a with
      | context [Z.lor _ _] => fail
      | _ => rewrite (lor_shiftl_add a b k) by lia
      end
  end.
