(* ===== verification/Radix.v ===== *)
(** * Positional numerals

    The arithmetic behind the base58 codec and the little- and big-endian
    integers of the decoders: the value of a digit list, the digit list of a
    value, and the carry loop that multiplies a fixed-size digit buffer in
    place.  Nothing here is a translation of one C function; the codecs prove
    their loops equal to [mul_add] and inherit its correctness. *)

From S2P Require Import Prelude.
#[local] Open Scope Z_scope.

(** The value of a digit list, most significant digit first. *)
Definition be_val (B : Z) (l : list Z) : Z := foldl (fun acc d => acc * B + d) 0 l.

(** The value of a digit list, least significant digit first. *)
Fixpoint le_val (B : Z) (l : list Z) : Z :=
  match l with
  | [] => 0
  | d :: l' => d + B * le_val B l'
  end.

(** The [n] low digits of [v], least significant first. *)
Fixpoint le_digits (B : Z) (n : nat) (v : Z) : list Z :=
  match n with
  | O => []
  | S n' => v mod B :: le_digits B n' (v / B)
  end.

Definition digits_ok (B : Z) (l : list Z) : Prop := Forall (fun d => 0 <= d < B) l.

(** No leading zero digit, stated on the value. *)
Definition minimal (B : Z) (l : list Z) : Prop :=
  l = [] \/ B ^ (size l - 1) <= be_val B l.

(** [data := A * data + carry] on a base-[B] buffer, from position [j] down,
    until the carry is spent and the [used] low digits have been visited. *)
Fixpoint mul_add (A B : Z) (j : nat) (carry : Z) (consumed used : nat)
    (data : list Z) : list Z * Z * nat :=
  match j with
  | O => (data, carry, consumed)
  | S j' =>
      if negb (carry =? 0) || (consumed <? used)%nat then
        let c := carry + A * (data !!! j') in
        mul_add A B j' (c / B) (S consumed) used (<[j' := c mod B]> data)
      else (data, carry, consumed)
  end.

(** ** Values *)

Lemma digit_split B a1 a2 d1 d2 :
  0 <= d1 < B -> 0 <= d2 < B -> a1 * B + d1 = a2 * B + d2 -> a1 = a2 /\ d1 = d2.
Proof. intros H1 H2 H. apply (Z.div_mod_unique B); lia. Qed.

Lemma be_val_snoc B l d : be_val B (l ++ [d]) = be_val B l * B + d.
Proof. unfold be_val. by rewrite foldl_app. Qed.

Lemma be_val_app B l1 l2 :
  be_val B (l1 ++ l2) = be_val B l1 * B ^ size l2 + be_val B l2.
Proof.
  induction l2 as [|d l2 IH] using rev_ind.
  - unfold size. simpl. rewrite app_nil_r. change (be_val B []) with 0. lia.
  - rewrite app_assoc, !be_val_snoc, IH. unfold size.
    rewrite length_app. simpl length. rewrite Nat2Z.inj_add, Z.pow_add_r by lia.
    change (Z.of_nat 1) with 1. rewrite Z.pow_1_r. lia.
Qed.

Lemma be_val_cons B d l : be_val B (d :: l) = d * B ^ size l + be_val B l.
Proof.
  change (d :: l) with ([d] ++ l). rewrite be_val_app.
  unfold be_val at 1. simpl foldl. lia.
Qed.

Lemma be_val_zeros B n : be_val B (replicate n 0) = 0.
Proof.
  induction n; [done|]. simpl replicate. rewrite be_val_cons, IHn. lia.
Qed.

Lemma be_val_zeros_app B n l : be_val B (replicate n 0 ++ l) = be_val B l.
Proof. rewrite be_val_app, be_val_zeros. lia. Qed.

Lemma be_val_bound B l :
  1 < B -> digits_ok B l -> 0 <= be_val B l < B ^ size l.
Proof.
  intros HB. induction l as [|d l IH] using rev_ind; intros Hl.
  - unfold be_val, size. simpl. lia.
  - apply Forall_app in Hl as [Hl Hd]. apply Forall_cons in Hd as [Hd _].
    rewrite be_val_snoc. specialize (IH Hl). unfold size in *.
    rewrite length_app, Nat2Z.inj_add, Z.pow_add_r by lia.
    change (Z.of_nat (length [d])) with 1. rewrite Z.pow_1_r. nia.
Qed.

Lemma be_val_inj B l1 l2 :
  1 < B -> digits_ok B l1 -> digits_ok B l2 -> length l1 = length l2 ->
  be_val B l1 = be_val B l2 -> l1 = l2.
Proof.
  intros HB. revert l2. induction l1 as [|d1 l1 IH] using rev_ind; intros l2 H1 H2 Hlen Hv.
  - by destruct l2.
  - destruct l2 as [|d2 l2 _] using rev_ind.
    { rewrite length_app in Hlen. simpl in Hlen. lia. }
    rewrite !length_app in Hlen. simpl in Hlen.
    apply Forall_app in H1 as [H1 Hd1]. apply Forall_app in H2 as [H2 Hd2].
    apply Forall_cons in Hd1 as [Hd1 _]. apply Forall_cons in Hd2 as [Hd2 _].
    rewrite !be_val_snoc in Hv.
    apply digit_split in Hv as [Hv ->]; auto.
    f_equal. apply IH; auto; lia.
Qed.

(** Two numerals without leading zeros and with the same value are equal. *)
Lemma minimal_inj B l1 l2 :
  1 < B -> digits_ok B l1 -> digits_ok B l2 -> minimal B l1 -> minimal B l2 ->
  be_val B l1 = be_val B l2 -> l1 = l2.
Proof.
  intros HB H1 H2 M1 M2 Hv.
  pose proof (be_val_bound B l1 HB H1) as B1.
  pose proof (be_val_bound B l2 HB H2) as B2.
  apply be_val_inj with (B := B); auto.
  unfold minimal, size in *.
  destruct M1 as [-> | M1], M2 as [-> | M2]; simpl in *; auto.
  - assert (length l2 = 0%nat); [|lia].
    destruct l2 as [|d l2]; auto. exfalso.
    assert (0 < B ^ (Z.of_nat (length (d :: l2)) - 1)) by (apply Z.pow_pos_nonneg; simpl; lia).
    unfold be_val in Hv at 1. simpl in Hv. lia.
  - assert (length l1 = 0%nat); [|lia].
    destruct l1 as [|d l1]; auto. exfalso.
    assert (0 < B ^ (Z.of_nat (length (d :: l1)) - 1)) by (apply Z.pow_pos_nonneg; simpl; lia).
    unfold be_val in Hv at 2. simpl in Hv. lia.
  - assert (B ^ (Z.of_nat (length l1) - 1) < B ^ Z.of_nat (length l2)) as P1 by lia.
    assert (B ^ (Z.of_nat (length l2) - 1) < B ^ Z.of_nat (length l1)) as P2 by lia.
    apply Z.pow_lt_mono_r_iff in P1; [|lia..].
    apply Z.pow_lt_mono_r_iff in P2; [|lia..]. lia.
Qed.

Lemma minimal_cons B d l :
  1 < B -> digits_ok B (d :: l) -> d <> 0 -> minimal B (d :: l).
Proof.
  intros HB Hl Hd. right. apply Forall_cons in Hl as [Hd' Hl].
  pose proof (be_val_bound B l HB Hl). rewrite be_val_cons.
  unfold size in *. simpl length.
  replace (Z.of_nat (S (length l)) - 1) with (Z.of_nat (length l)) by lia.
  assert (0 < B ^ Z.of_nat (length l)) by (apply Z.pow_pos_nonneg; lia). nia.
Qed.

Lemma minimal_head B d l :
  1 < B -> digits_ok B (d :: l) -> minimal B (d :: l) -> d <> 0.
Proof.
  intros HB Hl [|Hm] ->; [done|]. apply Forall_cons in Hl as [_ Hl].
  pose proof (be_val_bound B l HB Hl). rewrite be_val_cons in Hm.
  unfold size in *. simpl length in Hm.
  replace (Z.of_nat (S (length l)) - 1) with (Z.of_nat (length l)) in Hm by lia. lia.
Qed.

(** ** Little-endian digits *)

Lemma length_le_digits B n v : length (le_digits B n v) = n.
Proof. revert v. induction n; simpl; auto. Qed.

Lemma le_digits_ok B n v : 0 < B -> digits_ok B (le_digits B n v).
Proof.
  intros HB. revert v. induction n; intros v; constructor; [|apply IHn].
  apply Z.mod_pos_bound. lia.
Qed.

Lemma le_val_digits B n v :
  0 < B -> 0 <= v < B ^ Z.of_nat n -> le_val B (le_digits B n v) = v.
Proof.
  intros HB. revert v. induction n as [|n IH]; intros v Hv; simpl le_digits; simpl le_val.
  - simpl in Hv. lia.
  - rewrite Nat2Z.inj_succ, Z.pow_succ_r in Hv by lia.
    rewrite IH; [pose proof (Z.div_mod v B); lia|].
    split; [apply Z.div_pos; lia | apply Z.div_lt_upper_bound; lia].
Qed.

Lemma le_val_bound B l : 0 < B -> digits_ok B l -> 0 <= le_val B l < B ^ size l.
Proof.
  intros HB. induction 1 as [|d l Hd Hl IH]; unfold size in *; simpl length; [simpl; lia|].
  rewrite Nat2Z.inj_succ, Z.pow_succ_r by lia. simpl. nia.
Qed.

Lemma le_val_inj B l1 l2 :
  0 < B -> digits_ok B l1 -> digits_ok B l2 -> length l1 = length l2 ->
  le_val B l1 = le_val B l2 -> l1 = l2.
Proof.
  intros HB H1. revert l2. induction H1 as [|d1 l1 Hd1 H1 IH]; intros l2 H2 Hlen Hv.
  - by destruct l2.
  - destruct H2 as [|d2 l2 Hd2 H2]; [done|]. simpl in *.
    destruct (digit_split B (le_val B l1) (le_val B l2) d1 d2) as [Hv' ->]; auto; [lia|].
    f_equal. apply IH; auto.
Qed.

Lemma le_digits_val B l : 0 < B -> digits_ok B l -> le_digits B (length l) (le_val B l) = l.
Proof.
  intros HB Hl. apply le_val_inj with (B := B); auto.
  - by apply le_digits_ok.
  - apply length_le_digits.
  - apply le_val_digits; [done|]. by apply le_val_bound.
Qed.

(** ** The carry loop *)

Lemma replicate_0_snoc m : replicate (S m) 0 = replicate m 0 ++ [0].
Proof. change (S m) with (1 + m)%nat. by rewrite Nat.add_comm, replicate_add. Qed.

(** What one run of the loop leaves: [m] untouched zero cells, then [act]. *)
Definition carry_post (A B : Z) (n : nat) (act : list Z) (carry : Z)
    (m' : nat) (act' : list Z) (carry' : Z) : Prop :=
  (m' + length act' = n)%nat /\ digits_ok B act' /\ 0 <= carry' /\
  be_val B act' + carry' * B ^ Z.of_nat n = A * be_val B act + carry /\
  (length act <= length act')%nat /\
  ((length act < length act')%nat -> carry' = 0 -> hd 0 act' <> 0).

(** A visited cell that was in use: it joins the active digits on both sides. *)
Lemma carry_post_used A B n act d carry m' act' carry' :
  1 < B -> carry_post A B n act ((carry + A * d) / B) m' act' carry' ->
  carry_post A B (S n) (act ++ [d]) carry m' (act' ++ [(carry + A * d) mod B]) carry'.
Proof.
  intros HB (Hm & Hok & Hc' & Hv & Hlen & Hhd). unfold carry_post.
  rewrite !length_app. simpl length. split_and!; try lia.
  - apply Forall_app; split; [done|]. apply Forall_cons; split; [|done].
    apply Z.mod_pos_bound. lia.
  - rewrite !be_val_snoc, Nat2Z.inj_succ, Z.pow_succ_r by lia.
    pose proof (Z.div_mod (carry + A * d) B). nia.
  - intros Hlt Hz. destruct act' as [|x act']; simpl; [simpl in Hlt; lia|].
    apply Hhd; [|done]. simpl in *. lia.
Qed.

(** A visited cell that was still zero: it is visited because the carry is not
    spent, and becomes a new leading digit. *)
Lemma carry_post_fresh A B n carry m' act' carry' :
  1 < B -> 0 <= carry -> carry <> 0 ->
  carry_post A B n [] ((carry + A * 0) / B) m' act' carry' ->
  carry_post A B (S n) [] carry m' (act' ++ [(carry + A * 0) mod B]) carry'.
Proof.
  intros HB Hc Hnz (Hm & Hok & Hc' & Hv & Hlen & Hhd). unfold carry_post.
  change (be_val B []) with 0 in *. pose proof (Z.div_mod (carry + A * 0) B).
  rewrite length_app. simpl length. split_and!; try lia.
  - apply Forall_app; split; [done|]. apply Forall_cons; split; [|done].
    apply Z.mod_pos_bound. lia.
  - rewrite be_val_snoc, Nat2Z.inj_succ, Z.pow_succ_r by lia. nia.
  - intros _ Hz. destruct act' as [|x act']; simpl; [|apply Hhd; simpl; auto; lia].
    change (be_val B []) with 0 in Hv. subst carry'. lia.
Qed.

Lemma mul_add_spec A B used pre suf carry consumed m act :
  1 < B -> 0 <= A -> 0 <= carry -> pre = replicate m 0 ++ act -> digits_ok B act ->
  length act = (used - consumed)%nat ->
  exists m' act' carry',
    mul_add A B (length pre) carry consumed used (pre ++ suf)
      = (replicate m' 0 ++ act' ++ suf, carry', (consumed + length act')%nat) /\
    carry_post A B (length pre) act carry m' act' carry'.
Proof.
  intros HB HA. revert suf carry consumed m act.
  induction pre as [|d pre IH] using rev_ind; intros suf carry consumed m act Hc Hpre Hok Hlen.
  { symmetry in Hpre. apply app_eq_nil in Hpre as [Hm ->]. simpl.
    exists 0%nat, [], carry. simpl. rewrite Nat.add_0_r. split; [done|].
    unfold carry_post. simpl. unfold be_val. simpl. split_and!; auto; lia. }
  rewrite length_app, Nat.add_comm. cbn [length Nat.add mul_add].
  destruct (negb (carry =? 0) || (consumed <? used)%nat) eqn:Hguard.
  - assert ((pre ++ [d]) ++ suf = pre ++ d :: suf) as -> by (by rewrite <- app_assoc).
    rewrite (list_lookup_total_middle pre suf d) by done.
    rewrite (insert_app_r_alt pre (d :: suf)) by lia.
    rewrite Nat.sub_diag. simpl (<[0%nat:=_]> (d :: suf)).
    destruct act as [|a0 act0 _] using rev_ind.
    + simpl in Hlen. rewrite app_nil_r in Hpre. destruct m as [|m]; [by destruct pre|].
      rewrite replicate_0_snoc in Hpre. apply app_inj_tail in Hpre as [-> ->].
      assert (carry <> 0) as Hnz.
      { intros ->. apply orb_prop in Hguard as [Hg|Hg]; [done|].
        apply Nat.ltb_lt in Hg. lia. }
      destruct (IH (((carry + A * 0) mod B) :: suf) ((carry + A * 0) / B) (S consumed) m [])
        as (m' & act' & carry' & -> & Hpost);
        [apply Z.div_pos; lia | by rewrite app_nil_r | done | simpl; lia |].
      exists m', (act' ++ [(carry + A * 0) mod B]), carry'.
      split; [|by apply carry_post_fresh].
      rewrite length_app, <- app_assoc. simpl. repeat f_equal; lia.
    + rewrite app_assoc in Hpre. apply app_inj_tail in Hpre as [-> ->].
      rewrite length_app in Hlen. simpl in Hlen.
      apply Forall_app in Hok as [Hok Hd]. apply Forall_cons in Hd as [Hd _].
      destruct (IH (((carry + A * a0) mod B) :: suf) ((carry + A * a0) / B) (S consumed) m act0)
        as (m' & act' & carry' & -> & Hpost); auto; [apply Z.div_pos; nia | lia |].
      exists m', (act' ++ [(carry + A * a0) mod B]), carry'.
      split; [|by apply carry_post_used].
      rewrite length_app, <- app_assoc. simpl. repeat f_equal; lia.
  - apply orb_false_elim in Hguard as [Hg1 Hg2].
    apply negb_false_iff, Z.eqb_eq in Hg1. apply Nat.ltb_ge in Hg2. subst carry.
    destruct act as [|a act]; [|simpl in Hlen; lia]. rewrite app_nil_r in Hpre.
    exists m, [], 0. rewrite Hpre. simpl. rewrite Nat.add_0_r. split; [done|].
    unfold carry_post. simpl. change (be_val B []) with 0.
    assert (length (pre ++ [d]) = m) as Hl by (by rewrite Hpre, length_replicate).
    rewrite length_app in Hl. simpl in Hl. split_and!; auto; lia.
Qed.

(** ** Converting a whole numeral *)

(** One multiply-and-add per digit of the source numeral, on a zeroed buffer of
    [n] cells: the low [used] cells are the digits so far. *)
Definition convert_step (A B : Z) (n : nat) (st : list Z * nat) (d : Z) : list Z * nat :=
  let '(data, used) := st in
  let '(data', _, consumed) := mul_add A B n d 0 used data in
  (data', consumed).

Definition convert (A B : Z) (n : nat) (input : list Z) : list Z * nat :=
  foldl (convert_step A B n) (replicate n 0, 0%nat) input.

(** The conversion invariant: the digits in use are the minimal base-[B]
    numeral of the part read so far. *)
Definition converted (A B : Z) (n : nat) (read : list Z) (st : list Z * nat) : Prop :=
  exists m act, st = (replicate m 0 ++ act, length act) /\ (m + length act = n)%nat /\
    digits_ok B act /\ be_val B act = be_val A read /\ minimal B act.

#[global] Arguments convert_step : simpl never.

Lemma convert_step_ok A B n read d st :
  1 < A -> 1 < B -> 0 <= d < A -> digits_ok A read ->
  be_val A (read ++ [d]) < B ^ Z.of_nat n ->
  converted A B n read st -> converted A B n (read ++ [d]) (convert_step A B n st d).
Proof.
  intros HA HB Hd Hread Hfit (m & act & -> & Hlen & Hok & Hv & Hmin).
  unfold convert_step.
  destruct (mul_add_spec A B (length act) (replicate m 0 ++ act) [] d 0 m act)
    as (m' & act' & carry' & Heq & Hm & Hok' & Hc' & Hv' & Hle & Hhd); try lia; auto.
  rewrite length_app, length_replicate, Hlen in *. rewrite !app_nil_r in Heq. rewrite Heq.
  rewrite be_val_snoc, <- Hv in Hfit.
  pose proof (be_val_bound B act HB Hok) as Hb.
  pose proof (be_val_bound B act' HB Hok') as Hb'.
  assert (0 < B ^ Z.of_nat n) by (apply Z.pow_pos_nonneg; lia).
  assert (carry' = 0) as -> by nia.
  exists m', act'. split_and!; auto; [rewrite be_val_snoc; lia|].
  destruct (decide (length act < length act')%nat) as [Hlt|Hge].
  - destruct act' as [|x act']; [by left|]. apply minimal_cons; auto.
  - unfold minimal, size in *.
    assert (length act' = length act) as Hl by lia. rewrite Hl.
    destruct Hmin as [-> | Hmin]; [left; by destruct act'|right; nia].
Qed.

Lemma convert_ok A B n input :
  1 < A -> 1 < B -> digits_ok A input -> A ^ size input <= B ^ Z.of_nat n ->
  converted A B n input (convert A B n input).
Proof.
  intros HA HB. unfold convert. induction input as [|d input IH] using rev_ind.
  - intros _ _. exists n, []. simpl. rewrite app_nil_r.
    split_and!; auto; [by constructor | by left].
  - intros Hin Hfit. rewrite foldl_app. cbn [foldl].
    pose proof (be_val_bound A _ HA Hin) as Hb.
    apply Forall_app in Hin as [Hin Hd]. apply Forall_cons in Hd as [Hd _].
    apply convert_step_ok; auto; [lia|]. apply IH; [done|].
    unfold size in *. rewrite length_app, Nat2Z.inj_add in Hfit. simpl in Hfit.
    rewrite Z.pow_add_r in Hfit by lia. nia.
Qed.

Lemma mul_add_digits_ok A B j carry consumed used data :
  0 < B -> digits_ok B data -> digits_ok B (mul_add A B j carry consumed used data).1.1.
Proof.
  intros HB. revert carry consumed data. induction j as [|j IH]; intros; cbn [mul_add]; [done|].
  destruct (_ || _); [|done]. apply IH. apply Forall_insert; [done|]. apply Z.mod_pos_bound. lia.
Qed.

Lemma mul_add_length A B j carry consumed used data :
  length (mul_add A B j carry consumed used data).1.1 = length data.
Proof.
  revert carry consumed data. induction j as [|j IH]; intros; cbn [mul_add]; [done|].
  destruct (_ || _); [|done]. by rewrite IH, length_insert.
Qed.
