(* ===== verification/Base58.v ===== *)
(** * base58.c: the base58 codec

    [idx_base58_encode], [idx_base58_decode] and [idx_base58_decode_exact] with
    their in-place carry loops at their machine widths.  The NUL that ends the C
    output is the end of the list.  The loops are proved equal to
    [Radix.mul_add], and from its correctness follow the round trips in both
    directions and the sizes the callers in types.c rely on. *)

From S2P Require Import Prelude Radix.
#[local] Open Scope Z_scope.

(** src/src/base58.c:6-7 [k_alphabet] *)
Definition k_alphabet : bytes :=
  lit "123456789ABCDEFGHJKLMNPQRSTUVWXYZabcdefghijkmnopqrstuvwxyz".

(** src/src/base58.c:17-26 [ensure_reverse_table]: the lazily built table and
    its ready flag. *)
Definition ensure_reverse_table (st : bytes * bool) : bytes * bool :=
  if st.2 then st
  else (foldl (fun t (i : nat) => <[Z.to_nat (k_alphabet !!! i) := Z.of_nat i]> t)
              (replicate 256 255) (seq 0 58), true).

(** The table every decode reads. *)
Definition g_reverse : bytes := (ensure_reverse_table (replicate 256 0, false)).1.

(** src/src/base58.c:33 [IDX_BASE58_STACK_SCRATCH] *)
Definition IDX_BASE58_STACK_SCRATCH : Z := 512.

(** src/src/base58.c:41-57 [scratch_acquire]: zeroed scratch, from the stack or
    from the allocator. *)
Definition scratch_acquire (sz : Z) (h : heap) : result (list Z) * heap :=
  if sz <=? IDX_BASE58_STACK_SCRATCH then (Ok (replicate (Z.to_nat sz) 0), h)
  else
    let '(ok, h') := malloc h in
    if ok then (Ok (replicate (Z.to_nat sz) 0), h') else (IDX_FAIL IDX_ERR_NO_MEMORY, h').

(** src/src/base58.c:68-70 [idx_base58_encoded_max] *)
Definition idx_base58_encoded_max (byte_count : Z) : Z :=
  u64 (u64 (byte_count * 138) / 100 + 1).

(** src/src/base58.c:79-81 [idx_base58_decoded_max] *)
Definition idx_base58_decoded_max (text_len : Z) : Z := text_len.

(** src/src/base58.c:89-93 [idx_base58_encode]: [leading_zeros], and likewise
    [leading_ones] of the decoder. *)
Fixpoint count_leading (x : Z) (l : bytes) : nat :=
  match l with
  | y :: l' => if y =? x then S (count_leading x l') else O
  | [] => O
  end.

(** src/src/base58.c:104-109 [idx_base58_encode]: the inner loop. *)
Fixpoint encode_carry (j : nat) (carry : Z) (consumed used : nat) (digits : list Z)
    : list Z * nat :=
  match j with
  | O => (digits, consumed)
  | S j' =>
      if negb (carry =? 0) || (consumed <? used)%nat then
        let carry := u32 (carry + u32 (256 * (digits !!! j'))) in
        encode_carry j' (carry / 58) (S consumed) used (<[j' := u8 (carry mod 58)]> digits)
      else (digits, consumed)
  end.

(** src/src/base58.c:99-111 [idx_base58_encode]: the outer loop over the bytes
    after the leading zeros. *)
Definition encode_digits (digits_size : nat) (digits : list Z) (input : bytes) : list Z * nat :=
  foldl (fun '(digits, used) byte => encode_carry digits_size byte 0 used digits)
        (digits, 0%nat) input.

(** src/src/base58.c:83-132 [idx_base58_encode]; [out] is [None] for a null
    pointer and otherwise the size of the output buffer. *)
Definition idx_base58_encode (input : bytes) (out : option Z) (h : heap)
    : result bytes * heap :=
  match out with
  | None => (IDX_FAIL IDX_ERR_INVALID_ARG, h)
  | Some out_size =>
      let leading_zeros := count_leading 0 input in
      let digits_size := idx_base58_encoded_max (size input) in
      let '(acquired, h') := scratch_acquire digits_size h in
      (match acquired with
       | Err s => Err s
       | Ok digits =>
           let '(digits, used) :=
             encode_digits (Z.to_nat digits_size) digits (drop leading_zeros input) in
           let total := (leading_zeros + used)%nat in
           if out_size <? Z.of_nat total + 1 then IDX_FAIL IDX_ERR_RANGE
           else Ok (replicate leading_zeros 49 ++
                    map (fun d => k_alphabet !!! Z.to_nat d)
                        (drop (Z.to_nat digits_size - used) digits))
       end, h')
  end.

(** src/src/base58.c:163-168 [idx_base58_decode]: the inner loop. *)
Fixpoint decode_carry (j : nat) (carry : Z) (consumed used : nat) (data : list Z)
    : list Z * nat :=
  match j with
  | O => (data, consumed)
  | S j' =>
      if negb (carry =? 0) || (consumed <? used)%nat then
        let carry := u32 (carry + u32 (58 * (data !!! j'))) in
        decode_carry j' (Z.shiftr carry 8) (S consumed) used
          (<[j' := u8 (Z.land carry 255)]> data)
      else (data, consumed)
  end.

(** src/src/base58.c:151-170 [idx_base58_decode]: the outer loop, stopping at
    the first character outside the alphabet. *)
Fixpoint decode_chars (bytes_size : nat) (data : list Z) (used : nat) (text : bytes)
    : result (list Z * nat) :=
  match text with
  | [] => Ok (data, used)
  | c :: text' =>
      let digit := g_reverse !!! Z.to_nat (u8 c) in
      if digit =? 255 then IDX_FAIL IDX_ERR_PARSE
      else
        let '(data, used) := decode_carry bytes_size digit 0 used data in
        decode_chars bytes_size data used text'
  end.

(** src/src/base58.c:134-190 [idx_base58_decode] *)
Definition idx_base58_decode (text : option bytes) (out : option Z) (h : heap)
    : result bytes * heap :=
  match text, out with
  | Some text, Some out_size =>
      let leading_ones := count_leading 49 text in
      let bytes_size := idx_base58_decoded_max (size text) in
      let '(acquired, h') := scratch_acquire bytes_size h in
      (data ← acquired;
       '(data, used) ← decode_chars (Z.to_nat bytes_size) data 0 (drop leading_ones text);
       let total := (leading_ones + used)%nat in
       if out_size <? Z.of_nat total then IDX_FAIL IDX_ERR_RANGE
       else Ok (replicate leading_ones 0 ++ drop (Z.to_nat bytes_size - used) data), h')
  | _, _ => (IDX_FAIL IDX_ERR_INVALID_ARG, h)
  end.

(** src/src/base58.c:192-203 [idx_base58_decode_exact]; [out_given] is false
    when the caller passes a null buffer. *)
Definition idx_base58_decode_exact (text : option bytes) (out_given : bool)
    (expected_len : Z) (h : heap) : result bytes * heap :=
  let out := if out_given then Some expected_len else None in
  let '(r, h') := idx_base58_decode text out h in
  (decoded ← r;
   if negb (size decoded =? expected_len) then IDX_FAIL IDX_ERR_PARSE else Ok decoded, h').

(** The digit a character stands for. *)
Definition digit_of (c : Z) : option Z :=
  let d := g_reverse !!! Z.to_nat (u8 c) in if d =? 255 then None else Some d.

(** The character of a digit. *)
Definition char_of (d : Z) : Z := k_alphabet !!! Z.to_nat d.

(** ** The loops compute [Radix.convert] *)

Lemma encode_carry_eq j carry consumed used digits :
  0 <= carry <= 256 -> digits_ok 58 digits -> (j <= length digits)%nat ->
  encode_carry j carry consumed used digits =
  let '(d, _, c) := mul_add 256 58 j carry consumed used digits in (d, c).
Proof.
  revert carry consumed digits. induction j as [|j IH]; intros carry consumed digits Hc Hok Hj; [done|].
  cbn [encode_carry mul_add]. destruct (_ || _); [|done].
  destruct (lookup_lt_is_Some_2 digits j ltac:(lia)) as [d Hd].
  rewrite (list_lookup_total_correct _ _ _ Hd).
  pose proof (Forall_lookup_1 _ _ _ _ Hok Hd) as Hd'. simpl in Hd'.
  unfold u32, u8. rewrite !(Z.mod_small _ (2 ^ 32)) by (rewrite ?Z.mod_small; lia).
  pose proof (Z.mod_pos_bound (carry + 256 * d) 58 ltac:(lia)).
  rewrite (Z.mod_small _ (2 ^ 8)) by lia.
  apply IH; [|by apply Forall_insert|rewrite length_insert; lia].
  split; [apply Z.div_pos; lia|]. apply Z.div_le_upper_bound; lia.
Qed.

Lemma decode_carry_eq j carry consumed used data :
  0 <= carry <= 58 -> digits_ok 256 data -> (j <= length data)%nat ->
  decode_carry j carry consumed used data =
  let '(d, _, c) := mul_add 58 256 j carry consumed used data in (d, c).
Proof.
  revert carry consumed data. induction j as [|j IH]; intros carry consumed data Hc Hok Hj; [done|].
  cbn [decode_carry mul_add]. destruct (_ || _); [|done].
  destruct (lookup_lt_is_Some_2 data j ltac:(lia)) as [d Hd].
  rewrite (list_lookup_total_correct _ _ _ Hd).
  pose proof (Forall_lookup_1 _ _ _ _ Hok Hd) as Hd'. simpl in Hd'.
  unfold u32, u8. rewrite !(Z.mod_small _ (2 ^ 32)) by (rewrite ?Z.mod_small; lia).
  change 255 with (Z.ones 8). rewrite Z.land_ones, Z.shiftr_div_pow2 by lia.
  change (2 ^ 8) with 256 in *.
  pose proof (Z.mod_pos_bound (carry + 58 * d) 256 ltac:(lia)).
  rewrite (Z.mod_small (_ mod 256)) by lia.
  apply IH; [|by apply Forall_insert|rewrite length_insert; lia].
  split; [apply Z.div_pos; lia|]. apply Z.div_le_upper_bound; lia.
Qed.

(** One conversion step keeps the buffer a digit buffer of the same size. *)
Lemma convert_step_inv A B n st d :
  0 < B -> digits_ok B st.1 -> length st.1 = n ->
  digits_ok B (convert_step A B n st d).1 /\ length (convert_step A B n st d).1 = n.
Proof.
  intros HB Hok Hlen. destruct st as [data used]. unfold convert_step. simpl in *.
  pose proof (mul_add_digits_ok A B n d 0 used data HB Hok) as H1.
  pose proof (mul_add_length A B n d 0 used data) as H2.
  destruct (mul_add A B n d 0 used data) as [[data' c] consumed]. simpl in *. by rewrite H2.
Qed.

Lemma encode_step n data used d :
  0 <= d <= 256 -> digits_ok 58 data -> length data = n ->
  encode_carry n d 0 used data = convert_step 256 58 n (data, used) d.
Proof.
  intros Hd Hok Hlen. unfold convert_step. rewrite encode_carry_eq by (auto; lia).
  by destruct (mul_add _ _ _ _ _ _ _) as [[? ?] ?].
Qed.

Lemma decode_step n data used d :
  0 <= d <= 58 -> digits_ok 256 data -> length data = n ->
  decode_carry n d 0 used data = convert_step 58 256 n (data, used) d.
Proof.
  intros Hd Hok Hlen. unfold convert_step. rewrite decode_carry_eq by (auto; lia).
  by destruct (mul_add _ _ _ _ _ _ _) as [[? ?] ?].
Qed.

Lemma replicate_digits_ok B n : 0 < B -> digits_ok B (replicate n 0).
Proof. intros HB. apply Forall_replicate. lia. Qed.

Lemma encode_foldl_eq n input data used :
  bytes_ok input -> digits_ok 58 data -> length data = n ->
  foldl (fun '(digits, used) byte => encode_carry n byte 0 used digits) (data, used) input =
  foldl (convert_step 256 58 n) (data, used) input.
Proof.
  intros Hin. revert data used.
  induction Hin as [|d input Hd Hin IH]; intros data used H1 H2; [done|]. cbn [foldl].
  cbn beta iota. rewrite encode_step by (unfold is_byte in *; auto; lia).
  destruct (convert_step_inv 256 58 n (data, used) d) as [H3 H4]; auto; [lia|].
  destruct (convert_step 256 58 n (data, used) d) as [data' used']. by apply IH.
Qed.

(** The table inverts the alphabet, and nothing else has an entry. *)
Lemma digit_of_char d : 0 <= d < 58 -> digit_of (char_of d) = Some d.
Proof.
  intros Hd. apply (decide_below 58 (fun d => digit_of (char_of d) = Some d)); [|lia].
  by vm_compute.
Qed.

Lemma digit_of_inv c d :
  is_byte c -> digit_of c = Some d -> 0 <= d < 58 /\ char_of d = c /\ (d = 0 <-> c = 49).
Proof.
  intros Hc Hd.
  assert (match digit_of c with
          | Some d => (0 <=? d) && (d <? 58) && (char_of d =? c) && Bool.eqb (d =? 0) (c =? 49)
          | None => true end = true) as H.
  { apply (forall_below 256 (fun c => match digit_of c with
      | Some d => (0 <=? d) && (d <? 58) && (char_of d =? c) && Bool.eqb (d =? 0) (c =? 49)
      | None => true end)); [by vm_compute | unfold is_byte in Hc; lia]. }
  rewrite Hd in H. rewrite !andb_true_iff, eqb_true_iff in H. lia.
Qed.

(** The decoder's loop: convert the digits, or stop with a parse error. *)
Lemma decode_chars_eq n data used text :
  bytes_ok text -> digits_ok 256 data -> length data = n ->
  decode_chars n data used text =
  match mapM digit_of text with
  | Some ds => Ok (foldl (convert_step 58 256 n) (data, used) ds)
  | None => Err IDX_ERR_PARSE
  end.
Proof.
  intros Ht. revert data used.
  induction Ht as [|c text Hc Ht IH]; intros data used Hok Hlen; [done|].
  assert (decode_chars n data used (c :: text) =
          match digit_of c with
          | None => Err IDX_ERR_PARSE
          | Some d => let '(data, used) := decode_carry n d 0 used data in
                      decode_chars n data used text
          end) as ->.
  { unfold digit_of. cbn [decode_chars]. by destruct (_ =? 255). }
  cbn [mapM]. destruct (digit_of c) as [d|] eqn:E; [|done].
  destruct (digit_of_inv _ _ Hc E) as [Hd _]. rewrite decode_step by (auto; lia).
  destruct (convert_step_inv 58 256 n (data, used) d) as [H3 H4]; auto; [lia|].
  destruct (convert_step 58 256 n (data, used) d) as [data' used'] eqn:E'.
  rewrite IH by auto. destruct (mapM digit_of text) as [ds|]; [|done]. simpl. by rewrite E'.
Qed.

(** ** What the two functions compute *)

Lemma encoded_max_bound k : 256 ^ Z.of_nat k <= 58 ^ (Z.of_nat k * 138 / 100 + 1).
Proof.
  set (n := Z.of_nat k). set (e := n * 138 / 100 + 1).
  assert (0 <= e) by (unfold e; assert (0 <= n * 138 / 100) by (apply Z.div_pos; lia); lia).
  destruct (Z.le_gt_cases (256 ^ n) (58 ^ e)) as [|Hgt]; [done|exfalso].
  assert (0 <= 58 ^ e) as Hpos by (apply Z.pow_nonneg; lia).
  pose proof (Z.pow_lt_mono_l (58 ^ e) (256 ^ n) 100 ltac:(lia) ltac:(lia)) as Hgt'.
  rewrite <- !Z.pow_mul_r in Hgt' by lia.
  assert (58 ^ (138 * n) <= 58 ^ (e * 100)) as H1.
  { apply Z.pow_le_mono_r; [lia|]. unfold e.
    pose proof (Z.div_mod (n * 138) 100 ltac:(lia)).
    pose proof (Z.mod_pos_bound (n * 138) 100 ltac:(lia)). lia. }
  assert (256 ^ (100 * n) <= 58 ^ (138 * n)) as H2.
  { rewrite !Z.pow_mul_r by lia. apply Z.pow_le_mono_l. split; [|].
    - apply Z.pow_nonneg; lia.
    - apply Z.leb_le. by vm_compute. }
  rewrite (Z.mul_comm n 100) in Hgt'. lia.
Qed.

Lemma count_leading_le x l : (count_leading x l <= length l)%nat.
Proof. induction l as [|y l IH]; simpl; [lia|]. destruct (y =? x); lia. Qed.

Lemma count_leading_split x l :
  l = replicate (count_leading x l) x ++ drop (count_leading x l) l.
Proof.
  induction l as [|y l IH]; simpl; [done|].
  destruct (y =? x) eqn:E; simpl; [|done]. apply Z.eqb_eq in E as ->. by f_equal.
Qed.

Lemma count_leading_app x n l :
  hd (x + 1) l <> x -> count_leading x (replicate n x ++ l) = n.
Proof.
  intros Hl. induction n as [|n IH]; simpl.
  - destruct l as [|y l]; simpl in *; [done|]. by apply Z.eqb_neq in Hl as ->.
  - by rewrite Z.eqb_refl, IH.
Qed.

Lemma drop_count_leading_hd x l : hd (x + 1) (drop (count_leading x l) l) <> x.
Proof.
  induction l as [|y l IH]; simpl; [lia|].
  destruct (y =? x) eqn:E; simpl; [done|]. by apply Z.eqb_neq.
Qed.

Lemma minimal_of_hd B l : 1 < B -> digits_ok B l -> hd 1 l <> 0 -> minimal B l.
Proof. intros HB Hl Hhd. destruct l; [by left|]. by apply minimal_cons. Qed.

Lemma scratch_acquire_nil sz : scratch_acquire sz [] = (Ok (replicate (Z.to_nat sz) 0), []).
Proof. unfold scratch_acquire. by destruct (sz <=? _). Qed.

(** The encoder: leading zero bytes as ['1'], then the minimal base-58 numeral
    of the rest, provided the buffer holds it. *)
Lemma encode_spec input os :
  bytes_ok input -> size input * 138 < 2 ^ 64 ->
  let z := count_leading 0 input in
  exists act, digits_ok 58 act /\ minimal 58 act /\
    be_val 58 act = be_val 256 (drop z input) /\
    idx_base58_encode input (Some os) [] =
      (if os <? Z.of_nat (z + length act) + 1 then Err IDX_ERR_RANGE
       else Ok (replicate z 49 ++ map char_of act), []).
Proof.
  intros Hin Hsz z. unfold idx_base58_encode. fold z. rewrite scratch_acquire_nil.
  assert (idx_base58_encoded_max (size input) = size input * 138 / 100 + 1) as ->.
  { unfold idx_base58_encoded_max, u64, size in *. rewrite !Z.mod_small; [done|..];
      zdiv. }
  set (n := Z.to_nat (size input * 138 / 100 + 1)).
  pose proof (count_leading_le 0 input) as Hz. fold z in Hz.
  destruct (convert_ok 256 58 n (drop z input)) as (m & act & Hconv & Hlen & Hok & Hv & Hmin);
    [lia|lia|by apply Forall_drop| |].
  { unfold n. rewrite Z2Nat.id by (unfold size; zdiv).
    etrans; [|apply encoded_max_bound]. apply Z.pow_le_mono_r; [lia|].
    unfold size. rewrite length_drop. lia. }
  exists act. split_and!; auto. unfold encode_digits.
  rewrite encode_foldl_eq;
    [|by apply Forall_drop|apply replicate_digits_ok; lia|apply length_replicate].
  unfold convert in Hconv. rewrite Hconv. cbn beta iota.
  rewrite drop_app_length' by (rewrite length_replicate; lia).
  by destruct (os <? _).
Qed.

(** A minimal base-58 numeral of a [k]-byte number. *)
Lemma minimal_length act k :
  digits_ok 58 act -> minimal 58 act -> be_val 58 act < 256 ^ Z.of_nat k ->
  size act <= Z.of_nat k * 138 / 100 + 1.
Proof.
  intros Hok [-> | Hm] Hv; [unfold size; simpl; zdiv|].
  pose proof (encoded_max_bound k).
  assert (58 ^ (size act - 1) < 58 ^ (Z.of_nat k * 138 / 100 + 1)) as Hlt by lia.
  apply Z.pow_lt_mono_r_iff in Hlt; [lia|lia|zdiv].
Qed.

Lemma be_val_256_bound l : bytes_ok l -> be_val 256 l < 256 ^ size l.
Proof. intros Hl. by apply (be_val_bound 256 l). Qed.

(** A buffer of [idx_base58_encoded_max] characters and a terminator is enough. *)
Lemma encode_fits input os :
  bytes_ok input -> size input * 138 < 2 ^ 64 ->
  idx_base58_encoded_max (size input) < os ->
  let z := count_leading 0 input in
  exists act, digits_ok 58 act /\ minimal 58 act /\
    be_val 58 act = be_val 256 (drop z input) /\
    idx_base58_encode input (Some os) [] = (Ok (replicate z 49 ++ map char_of act), []).
Proof.
  intros Hin Hsz Hos z. destruct (encode_spec input os Hin Hsz) as (act & Hok & Hmin & Hv & Heq).
  fold z in Hv, Heq. exists act. split_and!; auto. rewrite Heq.
  assert (idx_base58_encoded_max (size input) = size input * 138 / 100 + 1) as Hmax.
  { unfold idx_base58_encoded_max, u64, size in *. rewrite !Z.mod_small; [done|..]; zdiv. }
  pose proof (count_leading_le 0 input) as Hz. fold z in Hz.
  assert (size act <= Z.of_nat (length input - z) * 138 / 100 + 1) as Hlen.
  { apply minimal_length; auto. rewrite Hv.
    pose proof (be_val_256_bound (drop z input) ltac:(by apply Forall_drop)) as Hb.
    unfold size in Hb. by rewrite length_drop in Hb. }
  destruct (os <? Z.of_nat (z + length act) + 1) eqn:E; [|done].
  apply Z.ltb_lt in E. exfalso. unfold size in *.
  assert (Z.of_nat z + Z.of_nat (length input - z) * 138 / 100 <= Z.of_nat (length input) * 138 / 100).
  { rewrite Nat2Z.inj_sub by done. zdiv. }
  lia.
Qed.

Lemma mapM_digit_of_char ds : digits_ok 58 ds -> mapM digit_of (map char_of ds) = Some ds.
Proof.
  induction 1 as [|d ds Hd Hds IH]; simpl; [done|]. by rewrite digit_of_char, IH by done.
Qed.

Lemma mapM_digit_of_inv text ds :
  bytes_ok text -> mapM digit_of text = Some ds ->
  digits_ok 58 ds /\ map char_of ds = text /\ (hd 50 text <> 49 -> hd 1 ds <> 0).
Proof.
  intros Ht. revert ds. induction Ht as [|c text Hc Ht IH]; intros ds Hds; simpl in Hds.
  - injection Hds as <-. split_and!; [by constructor|done|done].
  - destruct (digit_of c) as [d|] eqn:E; simpl in Hds; [|done].
    destruct (mapM digit_of text) as [ds'|]; simpl in Hds; [|done]. injection Hds as <-.
    destruct (IH _ eq_refl) as (IH1 & IH2 & _).
    destruct (digit_of_inv c d Hc E) as (H1 & H2 & H3). simpl. split_and!.
    + by apply Forall_cons.
    + by rewrite H2, IH2.
    + tauto.
Qed.

(** The decoder: leading ['1']s as zero bytes, then the minimal base-256 numeral
    of the rest. *)
Lemma decode_spec text os :
  bytes_ok text ->
  let z := count_leading 49 text in
  match mapM digit_of (drop z text) with
  | None => idx_base58_decode (Some text) (Some os) [] = (Err IDX_ERR_PARSE, [])
  | Some ds =>
      exists act, digits_ok 256 act /\ minimal 256 act /\ be_val 256 act = be_val 58 ds /\
        (z + length act <= length text)%nat /\
        idx_base58_decode (Some text) (Some os) [] =
          (if os <? Z.of_nat (z + length act) then Err IDX_ERR_RANGE
           else Ok (replicate z 0 ++ act), [])
  end.
Proof.
  intros Ht z. unfold idx_base58_decode, idx_base58_decoded_max.
  rewrite scratch_acquire_nil. fold z. unfold size. rewrite Nat2Z.id.
  pose proof (count_leading_le 49 text) as Hz. fold z in Hz.
  cbn [mbind IDX_TRY].
  rewrite decode_chars_eq;
    [|by apply Forall_drop|apply replicate_digits_ok; lia|apply length_replicate].
  destruct (mapM digit_of (drop z text)) as [ds|] eqn:E; [|done].
  destruct (mapM_digit_of_inv _ _ ltac:(by apply Forall_drop) E) as (Hds & Hmap & _).
  assert (length ds = length text - z)%nat as Hlds.
  { rewrite <- length_drop, <- Hmap. by rewrite length_map. }
  destruct (convert_ok 58 256 (length text) ds) as (m & act & Hconv & Hlen & Hok & Hv & Hmin);
    [lia|lia|done| |].
  { unfold size. rewrite Hlds. etrans; [apply Z.pow_le_mono_l; split; [|]|]; [| |apply Z.pow_le_mono_r]; lia. }
  exists act. split_and!; auto.
  { assert (size act <= size ds); [|unfold size in *; lia].
    destruct Hmin as [-> | Hmin]; [unfold size; simpl; lia|].
    pose proof (be_val_bound 58 ds ltac:(lia) Hds) as Hb.
    assert (256 ^ (size act - 1) < 256 ^ size ds) as Hlt.
    { eapply Z.le_lt_trans; [apply Hmin|]. rewrite Hv. eapply Z.lt_le_trans; [apply Hb|].
      apply Z.pow_le_mono_l. lia. }
    apply Z.pow_lt_mono_r_iff in Hlt; unfold size in *; lia. }
  unfold convert in Hconv. rewrite Hconv. simpl.
  rewrite drop_app_length' by (rewrite length_replicate; lia).
  by destruct (os <? _).
Qed.

(** Reading back what the encoder wrote, for a byte string given as its leading
    zeros and the rest. *)
Lemma decode_encoded z act rest os :
  digits_ok 58 act -> minimal 58 act -> digits_ok 256 rest -> minimal 256 rest ->
  be_val 58 act = be_val 256 rest -> size rest + Z.of_nat z <= os ->
  idx_base58_decode (Some (replicate z 49 ++ map char_of act)) (Some os) []
    = (Ok (replicate z 0 ++ rest), []).
Proof.
  intros Hok Hmin Hrest Hminr Hv Hos.
  assert (Forall (fun d => is_byte (char_of d)) act) as Hchars.
  { eapply Forall_impl; [exact Hok|]. intros d Hd. simpl in Hd.
    apply (decide_below 58 (fun d => is_byte (char_of d))); [by vm_compute|lia]. }
  assert (count_leading 49 (replicate z 49 ++ map char_of act) = z) as Hz.
  { apply count_leading_app. destruct act as [|d act]; [done|]. simpl.
    assert (d <> 0) as Hd by (eapply (minimal_head 58); eauto; lia).
    apply Forall_cons in Hok as [Hd' _].
    assert (char_of d <> 49 \/ d = 0) as [|]; [|done|lia].
    apply (decide_below 58 (fun d => char_of d <> 49 \/ d = 0)); [by vm_compute|lia]. }
  pose proof (decode_spec (replicate z 49 ++ map char_of act) os) as Hspec.
  rewrite Hz in Hspec. cbn zeta in Hspec.
  rewrite drop_app_length' in Hspec by (by rewrite length_replicate).
  rewrite mapM_digit_of_char in Hspec by done.
  destruct Hspec as (act' & Hok' & Hmin' & Hv' & _ & ->).
  { apply Forall_app; split; [apply Forall_replicate; unfold is_byte; lia|].
    by apply Forall_map. }
  assert (act' = rest) as -> by (apply (minimal_inj 256); auto; lia).
  destruct (os <? _) eqn:E; [|done]. apply Z.ltb_lt in E. unfold size in Hos. lia.
Qed.

Lemma rest_minimal B x l :
  1 < B -> x = 0 -> digits_ok B l -> minimal B (drop (count_leading x l) l).
Proof.
  intros HB -> Hl. apply minimal_of_hd; [done|by apply Forall_drop|].
  pose proof (drop_count_leading_hd 0 l) as H.
  by destruct (drop (count_leading 0 l) l).
Qed.

Lemma digit_of_None c : is_byte c -> digit_of c = None <-> c ∉ k_alphabet.
Proof.
  intros Hc. refine (decide_below 256 (fun c => digit_of c = None <-> c ∉ k_alphabet) c _ _).
  - by vm_compute.
  - unfold is_byte in Hc; lia.
Qed.

(** A character outside the alphabet is one the digit loop meets and rejects. *)
Lemma alphabet_part text :
  bytes_ok text ->
  (exists c, c ∈ text /\ c ∉ k_alphabet) <->
  mapM digit_of (drop (count_leading 49 text) text) = None.
Proof.
  intros Ht. rewrite mapM_None, Exists_exists. set (z := count_leading 49 text).
  assert (forall c, c ∈ text -> is_byte c) as Hb by (by apply Forall_forall).
  split; intros (c & Hin & Hc); exists c.
  - assert (digit_of c = None) as Hnone by (apply digit_of_None; auto).
    split; [|done]. rewrite (count_leading_split 49 text) in Hin.
    apply elem_of_app in Hin as [Hin|]; [|done].
    apply elem_of_replicate in Hin as [-> _]. exfalso. apply Hc. by vm_compute; left.
  - rewrite <- (take_drop z text). split; [set_solver|]. apply digit_of_None; [|done].
    apply Hb. rewrite <- (take_drop z text). set_solver.
Qed.

(** Encoding what a text decoded to. *)
Lemma encode_decoded text out_size data back_size :
  bytes_ok text -> size text * 138 < 2 ^ 64 ->
  idx_base58_decode (Some text) (Some out_size) [] = (Ok data, []) ->
  idx_base58_encoded_max (size text) < back_size ->
  idx_base58_encode data (Some back_size) [] = (Ok text, []).
Proof.
  intros Ht Hsz Hdec Hback. pose proof (decode_spec text out_size Ht) as Hspec.
  set (z := count_leading 49 text) in *. cbn zeta in Hspec.
  destruct (mapM digit_of (drop z text)) as [ds|] eqn:E; [|congruence].
  destruct Hspec as (act & Hok & Hmin & Hv & Hlen & Heq). rewrite Heq in Hdec.
  destruct (out_size <? _); [done|]. injection Hdec as <-.
  destruct (mapM_digit_of_inv (drop z text) ds ltac:(by apply Forall_drop) E) as (Hds & Hmap & Hhd).
  assert (count_leading 0 (replicate z 0 ++ act) = z) as Hz.
  { apply count_leading_app. destruct act as [|d act]; [done|]. simpl.
    apply (minimal_head 256) in Hmin; auto; lia. }
  assert (size (replicate z 0 ++ act) <= size text) as Hle.
  { unfold size. rewrite length_app, length_replicate. lia. }
  destruct (encode_fits (replicate z 0 ++ act) back_size) as (act58 & Hok5 & Hmin5 & Hv5 & ->).
  - apply Forall_app; split; [apply Forall_replicate; unfold is_byte; lia|done].
  - lia.
  - eapply Z.le_lt_trans; [|exact Hback]. unfold idx_base58_encoded_max, u64, size in *.
    rewrite !Z.mod_small; zdiv.
  - rewrite Hz in *. rewrite drop_app_length' in Hv5 by (by rewrite length_replicate).
    assert (act58 = ds) as ->.
    { apply (minimal_inj 58); auto; [lia| |congruence]. apply minimal_of_hd; auto; [lia|].
      apply Hhd. pose proof (drop_count_leading_hd 49 text) as H. fold z in H.
      by destruct (drop z text). }
    rewrite Hmap. unfold z. by rewrite <- count_leading_split.
Qed.

(** A larger buffer changes nothing. *)
Lemma encode_larger input w w' text h h' :
  idx_base58_encode input (Some w) h = (Ok text, h') -> w <= w' ->
  idx_base58_encode input (Some w') h = (Ok text, h').
Proof.
  unfold idx_base58_encode. destruct (scratch_acquire _ h) as [[digits|s] h1]; [|done].
  destruct (encode_digits _ _ _) as [d used]. intros [= Hr <-] Hw.
  destruct (w <? _) eqn:E; [done|]. apply Z.ltb_ge in E. rewrite (proj2 (Z.ltb_ge _ _)) by lia. congruence.
Qed.

(** ** Properties *)

(** Round trip: whatever bytes are encoded, into a buffer of
    [idx_base58_encoded_max] characters plus the terminator, decoding the text
    gives the same bytes back; the encoder never fails for lack of room and the
    decoder needs no more room than the original had. *)
Theorem base58_decode_encode input out_size back_size :
  bytes_ok input -> size input * 138 < 2 ^ 64 ->
  idx_base58_encoded_max (size input) < out_size -> size input <= back_size ->
  exists text,
    idx_base58_encode input (Some out_size) [] = (Ok text, []) /\
    idx_base58_decode (Some text) (Some back_size) [] = (Ok input, []).
Proof.
  intros Hin Hsz Hos Hback.
  destruct (encode_fits input out_size Hin Hsz Hos) as (act & Hok & Hmin & Hv & ->).
  set (z := count_leading 0 input) in *. pose proof (count_leading_le 0 input) as Hz.
  eexists. split; [done|]. rewrite (count_leading_split 0 input) at 1. fold z in Hz |- *.
  apply decode_encoded; auto.
  - by apply Forall_drop.
  - by apply rest_minimal.
  - unfold size in *. rewrite length_drop. lia.
Qed.

Lemma base58_decode_encode_witness :
  exists text,
    idx_base58_encode [0; 0; 1; 255] (Some 7) [] = (Ok text, []) /\
    idx_base58_decode (Some text) (Some 4) [] = (Ok [0; 0; 1; 255], []).
Proof.
  apply (base58_decode_encode [0; 0; 1; 255] 7 4).
  - repeat (apply Forall_cons; split; [unfold is_byte; lia|]). by apply Forall_nil.
  - by vm_compute.
  - by vm_compute.
  - by vm_compute.
Defined.

(** The text of a key is unique: if a text decodes, encoding the result
    reproduces that very text, so two different texts never name one key. *)
Theorem base58_encode_decode text out_size data back_size :
  bytes_ok text -> size text * 138 < 2 ^ 64 ->
  idx_base58_decode (Some text) (Some out_size) [] = (Ok data, []) ->
  idx_base58_encoded_max (size text) < back_size ->
  idx_base58_encode data (Some back_size) [] = (Ok text, []).
Proof. apply encode_decoded. Qed.

Lemma base58_encode_decode_witness :
  idx_base58_encode [0; 0; 1; 255] (Some 100) [] = (Ok [49; 49; 57; 112], []).
Proof.
  apply (base58_encode_decode [49; 49; 57; 112] 4).
  - repeat (apply Forall_cons; split; [unfold is_byte; lia|]). by apply Forall_nil.
  - by vm_compute.
  - by vm_compute.
  - by vm_compute.
Defined.

(** With room for the result the decoder rejects exactly the texts that hold
    a character outside the alphabet, and always with [IDX_ERR_PARSE]. *)
Theorem base58_decode_rejects text out_size :
  bytes_ok text -> size text <= out_size ->
  (exists c, c ∈ text /\ c ∉ k_alphabet) <->
  idx_base58_decode (Some text) (Some out_size) [] = (Err IDX_ERR_PARSE, []).
Proof.
  intros Ht Hos. pose proof (decode_spec text out_size Ht) as Hspec.
  set (z := count_leading 49 text) in *. cbn zeta in Hspec.
  rewrite (alphabet_part text Ht). fold z.
  destruct (mapM digit_of (drop z text)) as [ds|] eqn:E; [|done].
  destruct Hspec as (act & _ & _ & _ & Hlen & ->). split; [done|].
  destruct (out_size <? _) eqn:E'; [|done]. apply Z.ltb_lt in E'. unfold size in Hos. lia.
Qed.

Lemma base58_decode_rejects_witness :
  idx_base58_decode (Some [49; 48]) (Some 2) [] = (Err IDX_ERR_PARSE, []).
Proof.
  apply (base58_decode_rejects [49; 48] 2).
  - repeat (apply Forall_cons; split; [unfold is_byte; lia|]). by apply Forall_nil.
  - by vm_compute.
  - exists 48. split; [set_solver|]. by vm_compute; intros H; repeat (apply elem_of_cons in H as [H|H]; [done|]); apply elem_of_nil in H.
Defined.
