(* ===== verification/Bytes.v ===== *)
(** * bytes.c: slices, the reading cursor, the growable buffer and hex

    A slice is a pointer and a length: [None] is the null slice (whose length is
    0) and [Some l] a non-null pointer to exactly the bytes [l].  The cursor
    functions form a small parser monad; the decoders of the venue and program
    modules are written in it. *)

From S2P Require Import Prelude Radix.
#[local] Open Scope Z_scope.

(** ** Slices *)

(** src/include/bytes.h:22-25 [idx_slice] *)
Definition idx_slice : Type := option bytes.

(** The bytes a slice denotes. *)
Definition slice_bytes (s : idx_slice) : bytes := default [] s.

(** [slice.len] *)
Definition slice_len (s : idx_slice) : Z := size (slice_bytes s).

(** src/src/bytes.c:10-15 [idx_slice_make]; [data] is the memory from the
    pointer on. *)
Definition idx_slice_make (data : option bytes) (len : Z) : idx_slice :=
  match data with
  | Some l => Some (take (Z.to_nat len) l)
  | None => None
  end.

(** [strlen]: the bytes before the first NUL. *)
Fixpoint strlen (l : bytes) : nat :=
  match l with
  | [] => O
  | c :: l' => if c =? 0 then O else S (strlen l')
  end.

(** src/src/bytes.c:17-19 [idx_slice_from_str] *)
Definition idx_slice_from_str (str : option bytes) : idx_slice :=
  idx_slice_make str (match str with Some l => Z.of_nat (strlen l) | None => 0 end).

(** src/src/bytes.c:21-21 [idx_slice_is_empty] *)
Definition idx_slice_is_empty (s : idx_slice) : bool := slice_len s =? 0.

(** src/src/bytes.c:23-31 [idx_slice_equal] *)
Definition idx_slice_equal (a b : idx_slice) : bool :=
  if negb (slice_len a =? slice_len b) then false
  else if slice_len a =? 0 then true
  else bool_decide (slice_bytes a = slice_bytes b).

(** src/src/bytes.c:33-40 [idx_slice_sub] *)
Definition idx_slice_sub (s : idx_slice) (offset len : Z) : idx_slice :=
  if slice_len s <=? offset then idx_slice_make None 0
  else
    let available := slice_len s - offset in
    idx_slice_make (drop (Z.to_nat offset) <$> s) (if len <? available then len else available).

(** ** The cursor *)

(** src/include/bytes.h:43-46 [idx_cursor] *)
Record idx_cursor := Cursor { input : idx_slice; offset : Z }.

(** A read: what it returns and the cursor it leaves.  A failed read returns no
    cursor because no caller goes on reading after one; [idx_cursor_take], the
    only function that moves the offset, fails before moving it.  The guards on
    null [cursor] and [out] pointers are excluded by the types. *)
Definition reader (A : Type) : Type := idx_cursor -> result (A * idx_cursor).

#[export] Instance reader_ret : MRet reader := fun A a c => Ok (a, c).
#[export] Instance reader_bind : MBind reader := fun A B f r c =>
  match r c with Ok (a, c') => f a c' | Err s => Err s end.

(** src/src/bytes.c:44-47 [idx_cursor_init] *)
Definition idx_cursor_init (input : idx_slice) : idx_cursor := Cursor input 0.

(** src/src/bytes.c:49-51 [idx_cursor_remaining] *)
Definition idx_cursor_remaining (c : idx_cursor) : Z := u64 (slice_len (input c) - offset c).

(** src/src/bytes.c:53-55 [idx_cursor_exhausted] *)
Definition idx_cursor_exhausted (c : idx_cursor) : bool := idx_cursor_remaining c =? 0.

(** src/src/bytes.c:57-71 [idx_cursor_take] *)
Definition idx_cursor_take (len : Z) : reader idx_slice := fun c =>
  if idx_cursor_remaining c <? len then IDX_FAIL IDX_ERR_RANGE
  else Ok (idx_slice_make (drop (Z.to_nat (offset c)) <$> input c) len,
           Cursor (input c) (u64 (offset c + len))).

(** src/src/bytes.c:73-83 [idx_cursor_copy] *)
Definition idx_cursor_copy (len : Z) : reader bytes :=
  taken ← idx_cursor_take len;
  mret (slice_bytes taken).

(** src/src/bytes.c:85-88 [idx_cursor_skip] *)
Definition idx_cursor_skip (len : Z) : reader unit :=
  _ ← idx_cursor_take len;
  mret tt.

(** src/src/bytes.c:90-92 [idx_cursor_u8] *)
Definition idx_cursor_u8 : reader Z :=
  raw ← idx_cursor_copy 1;
  mret (raw !!! 0%nat).

(** src/src/bytes.c:94-99 [idx_cursor_u16le] *)
Definition idx_cursor_u16le : reader Z :=
  raw ← idx_cursor_copy 2;
  mret (u16 (Z.lor (raw !!! 0%nat) (Z.shiftl (raw !!! 1%nat) 8))).

(** src/src/bytes.c:101-107 [idx_cursor_u32le] *)
Definition idx_cursor_u32le : reader Z :=
  raw ← idx_cursor_copy 4;
  mret (Z.lor (Z.lor (Z.lor (raw !!! 0%nat) (u32 (Z.shiftl (raw !!! 1%nat) 8)))
                     (u32 (Z.shiftl (raw !!! 2%nat) 16)))
              (u32 (Z.shiftl (raw !!! 3%nat) 24))).

(** src/src/bytes.c:109-118 [idx_cursor_u64le] *)
Definition idx_cursor_u64le : reader Z :=
  raw ← idx_cursor_copy 8;
  mret (foldl (fun value (i : nat) => Z.lor value (u64 (Z.shiftl (raw !!! i) (8 * Z.of_nat i))))
              0 (seq 0 8)).

(** ** The growable buffer *)

(** src/src/bytes.c:6-6 [IDX_BUFFER_MIN_CAPACITY] *)
Definition IDX_BUFFER_MIN_CAPACITY : Z := 64.

(** src/include/bytes.h:70-74 [idx_buffer]: the first [len] bytes and the
    capacity; what lies beyond [len] is uninitialised. *)
Record idx_buffer := Buffer { buf_data : bytes; buf_capacity : Z }.

(** src/src/bytes.c:122-129 [idx_buffer_init] *)
Definition idx_buffer_init : idx_buffer := Buffer [] 0.

(** The doubling loop of [idx_buffer_reserve] (src/src/bytes.c:147-153) and of
    [idx_vec_reserve]; [None] when [fuel] rounds do not end it. *)
Fixpoint grow_loop (fuel : nat) (capacity needed : Z) : option Z :=
  if capacity <? needed then
    match fuel with
    | O => None
    | S fuel' =>
        if SIZE_MAX / 2 <? capacity then Some needed
        else grow_loop fuel' (u64 (capacity * 2)) needed
    end
  else Some capacity.

(** 64 doublings reach past the width of [size_t]. *)
Definition grow_capacity (capacity needed : Z) : Z := default needed (grow_loop 64 capacity needed).

(** src/src/bytes.c:131-163 [idx_buffer_reserve] *)
Definition idx_buffer_reserve (b : option idx_buffer) (additional : Z) (h : heap)
    : result unit * option idx_buffer * heap :=
  match b with
  | None => (IDX_FAIL IDX_ERR_INVALID_ARG, None, h)
  | Some b =>
      let len := size (buf_data b) in
      if additional <=? u64 (buf_capacity b - len) then (Ok tt, Some b, h)
      else if SIZE_MAX - len <? additional then (IDX_FAIL IDX_ERR_RANGE, Some b, h)
      else
        let needed := u64 (len + additional) in
        let capacity := if 0 <? buf_capacity b then buf_capacity b else IDX_BUFFER_MIN_CAPACITY in
        let capacity := grow_capacity capacity needed in
        let '(ok, h') := malloc h in
        if ok then (Ok tt, Some (Buffer (buf_data b) capacity), h')
        else (IDX_FAIL IDX_ERR_NO_MEMORY, Some b, h')
  end.

(** src/src/bytes.c:165-178 [idx_buffer_append]; [data] is [None] for a null
    pointer of length [len]. *)
Definition idx_buffer_append (b : option idx_buffer) (data : option bytes) (len : Z) (h : heap)
    : result unit * option idx_buffer * heap :=
  if len =? 0 then (Ok tt, b, h)
  else
    match data with
    | None => (IDX_FAIL IDX_ERR_INVALID_ARG, b, h)
    | Some l =>
        match idx_buffer_reserve b len h with
        | (Ok _, Some b', h') =>
            (Ok tt, Some (Buffer (buf_data b' ++ take (Z.to_nat len) l) (buf_capacity b')), h')
        | r => r
        end
    end.

(** src/src/bytes.c:180-183 [idx_buffer_append_byte] *)
Definition idx_buffer_append_byte (b : option idx_buffer) (byte : Z) (h : heap) :=
  idx_buffer_append b (Some [byte]) 1 h.

(** src/src/bytes.c:185-189 [idx_buffer_clear] *)
Definition idx_buffer_clear (b : option idx_buffer) : option idx_buffer :=
  match b with Some b => Some (Buffer [] (buf_capacity b)) | None => None end.

(** src/src/bytes.c:191-197 [idx_buffer_free] *)
Definition idx_buffer_free (b : option idx_buffer) : option idx_buffer :=
  match b with Some _ => Some idx_buffer_init | None => None end.

(** src/src/bytes.c:199-204 [idx_buffer_slice]: the buffer's data pointer is
    null until the first reserve. *)
Definition idx_buffer_slice (b : option idx_buffer) : idx_slice :=
  match b with
  | None => idx_slice_make None 0
  | Some b => idx_slice_make (if buf_capacity b =? 0 then None else Some (buf_data b))
                             (size (buf_data b))
  end.

(** ** Hex *)

(** src/src/bytes.c:208-208 [k_hex_digits] *)
Definition k_hex_digits : bytes := lit "0123456789abcdef".

(** src/src/bytes.c:210-210 [idx_hex_encoded_size] *)
Definition idx_hex_encoded_size (byte_count : Z) : Z := u64 (byte_count * 2).

(** src/src/bytes.c:212-229 [idx_hex_encode] *)
Definition idx_hex_encode (input : bytes) (out : option Z) : result bytes :=
  match out with
  | None => IDX_FAIL IDX_ERR_INVALID_ARG
  | Some out_size =>
      let needed := u64 (idx_hex_encoded_size (size input) + 1) in
      if out_size <? needed then IDX_FAIL IDX_ERR_RANGE
      else Ok (b ← input;
               [k_hex_digits !!! Z.to_nat (Z.shiftr b 4);
                k_hex_digits !!! Z.to_nat (Z.land b 15)])
  end.

(** src/src/bytes.c:231-242 [hex_value] *)
Definition hex_value (c : Z) : Z :=
  if (48 <=? c) && (c <=? 57) then c - 48
  else if (97 <=? c) && (c <=? 102) then c - 97 + 10
  else if (65 <=? c) && (c <=? 70) then c - 65 + 10
  else -1.

(** src/src/bytes.c:262-270 [idx_hex_decode]: the loop, two characters a round. *)
Fixpoint hex_decode_loop (text : bytes) : result bytes :=
  match text with
  | c1 :: c2 :: text' =>
      let high := hex_value c1 in
      let low := hex_value c2 in
      if (high <? 0) || (low <? 0) then IDX_FAIL IDX_ERR_PARSE
      else rest ← hex_decode_loop text'; Ok (u8 (Z.lor (Z.shiftl high 4) low) :: rest)
  | _ => Ok []
  end.

(** src/src/bytes.c:244-276 [idx_hex_decode] *)
Definition idx_hex_decode (text : option bytes) (out : option Z) : result bytes :=
  match text, out with
  | Some text, Some out_size =>
      if negb (size text mod 2 =? 0) then IDX_FAIL IDX_ERR_PARSE
      else if out_size <? size text / 2 then IDX_FAIL IDX_ERR_RANGE
      else hex_decode_loop text
  | _, _ => IDX_FAIL IDX_ERR_INVALID_ARG
  end.

(** ** The cursor reads the bytes in front of it *)

(** A cursor inside its input, and what it has not read yet. *)
Definition cursor_ok (c : idx_cursor) : Prop :=
  0 <= offset c <= slice_len (input c) /\ slice_len (input c) < 2 ^ 64.

Definition rest (c : idx_cursor) : bytes := drop (Z.to_nat (offset c)) (slice_bytes (input c)).

Lemma cursor_init_ok s : slice_len s < 2 ^ 64 -> cursor_ok (idx_cursor_init s).
Proof. unfold cursor_ok, slice_len, size. simpl. lia. Qed.

Lemma rest_init s : rest (idx_cursor_init s) = slice_bytes s.
Proof. done. Qed.

Lemma cursor_remaining c : cursor_ok c -> idx_cursor_remaining c = size (rest c).
Proof.
  unfold cursor_ok, idx_cursor_remaining, rest, slice_len, size, u64. intros Hc.
  rewrite length_drop, Z.mod_small by lia. lia.
Qed.

Lemma slice_make_drop s n len :
  slice_bytes (idx_slice_make (drop n <$> s) len) = take (Z.to_nat len) (drop n (slice_bytes s)).
Proof. destruct s as [l|]; simpl; [done|]. by rewrite drop_nil, take_nil. Qed.

(** Taking [len] bytes: refused without moving when fewer remain, and otherwise
    exactly the next [len] bytes, the cursor standing after them. *)
Lemma cursor_take_spec c len :
  cursor_ok c -> 0 <= len ->
  if size (rest c) <? len then idx_cursor_take len c = Err IDX_ERR_RANGE
  else exists s c', idx_cursor_take len c = Ok (s, c') /\
    slice_bytes s = take (Z.to_nat len) (rest c) /\
    rest c' = drop (Z.to_nat len) (rest c) /\ cursor_ok c' /\ input c' = input c.
Proof.
  intros Hc Hlen. unfold idx_cursor_take. rewrite cursor_remaining by done.
  destruct (size (rest c) <? len) eqn:E; [done|]. apply Z.ltb_ge in E.
  eexists _, _. split; [done|]. rewrite slice_make_drop. split; [done|].
  unfold cursor_ok, rest, size, slice_len in *. rewrite length_drop in E. simpl.
  unfold u64. rewrite Z.mod_small by (unfold size in *; lia).
  split; [rewrite drop_drop; f_equal; lia|]. unfold size in *. split; [lia|done].
Qed.

Lemma cursor_copy_spec c len :
  cursor_ok c -> 0 <= len ->
  if size (rest c) <? len then idx_cursor_copy len c = Err IDX_ERR_RANGE
  else exists c', idx_cursor_copy len c = Ok (take (Z.to_nat len) (rest c), c') /\
    rest c' = drop (Z.to_nat len) (rest c) /\ cursor_ok c' /\ input c' = input c.
Proof.
  intros Hc Hlen. pose proof (cursor_take_spec c len Hc Hlen) as H.
  unfold idx_cursor_copy, mbind, reader_bind. destruct (_ <? len); [by rewrite H|].
  destruct H as (s & c' & -> & <- & H). by exists c'.
Qed.

(** Reading a field that is there. *)
Lemma cursor_copy_app c len a b :
  cursor_ok c -> rest c = a ++ b -> size a = len ->
  exists c', idx_cursor_copy len c = Ok (a, c') /\ rest c' = b /\ cursor_ok c'.
Proof.
  intros Hc Hr <-. pose proof (cursor_copy_spec c (size a) Hc ltac:(unfold size; lia)) as H.
  rewrite Hr in H. unfold size in *. rewrite length_app in H.
  destruct (_ <? _) eqn:E; [apply Z.ltb_lt in E; lia|].
  destruct H as (c' & -> & Hr' & Hc' & _). exists c'.
  rewrite Nat2Z.id, drop_app_length in Hr'. by rewrite Nat2Z.id, take_app_length.
Qed.

Lemma cursor_take_app c len a b :
  cursor_ok c -> rest c = a ++ b -> size a = len ->
  exists s c', idx_cursor_take len c = Ok (s, c') /\ slice_bytes s = a /\ rest c' = b /\ cursor_ok c'.
Proof.
  intros Hc Hr <-. pose proof (cursor_take_spec c (size a) Hc ltac:(unfold size; lia)) as H.
  rewrite Hr in H. unfold size in *. rewrite length_app in H.
  destruct (_ <? _) eqn:E; [apply Z.ltb_lt in E; lia|].
  destruct H as (s & c' & -> & Hs & Hr' & Hc' & _). exists s, c'.
  rewrite Nat2Z.id, drop_app_length in Hr'. by rewrite Nat2Z.id, take_app_length in Hs.
Qed.

Lemma cursor_copy_short c len :
  cursor_ok c -> size (rest c) < len -> idx_cursor_copy len c = Err IDX_ERR_RANGE.
Proof.
  intros Hc Hlt. pose proof (cursor_copy_spec c len Hc ltac:(unfold size in *; lia)) as H.
  destruct (_ <? len) eqn:E; [done|]. apply Z.ltb_ge in E. lia.
Qed.

(** Assembling the bytes of a little-endian integer. *)
Lemma u64_bytes a :
  bytes_ok a -> length a = 8%nat ->
  foldl (fun value (i : nat) => Z.lor value (u64 (Z.shiftl (a !!! i) (8 * Z.of_nat i)))) 0 (seq 0 8)
    = le_val 256 a.
Proof.
  intros Ha Hl. do 8 (destruct a as [|? a]; [done|]). destruct a; [|done].
  unfold bytes_ok in Ha. rewrite !Forall_cons in Ha. destruct Ha as (? & ? & ? & ? & ? & ? & ? & ? & _).
  simpl. unfold u64. rewrite !byte_shiftl_small by (auto; lia).
  unfold is_byte in *.
  rewrite ?Z.shiftl_0_r, ?Z.lor_0_l. bit_fields. lia.
Qed.

Lemma u32_bytes a :
  bytes_ok a -> length a = 4%nat ->
  Z.lor (Z.lor (Z.lor (a !!! 0%nat) (u32 (Z.shiftl (a !!! 1%nat) 8)))
               (u32 (Z.shiftl (a !!! 2%nat) 16))) (u32 (Z.shiftl (a !!! 3%nat) 24))
    = le_val 256 a.
Proof.
  intros Ha Hl. do 4 (destruct a as [|? a]; [done|]). destruct a; [|done].
  unfold bytes_ok in Ha. rewrite !Forall_cons in Ha. destruct Ha as (? & ? & ? & ? & _).
  simpl. unfold u32. rewrite !byte_shiftl_small by (auto; lia).
  unfold is_byte in *.
  rewrite ?Z.shiftl_0_r, ?Z.lor_0_l. bit_fields. lia.
Qed.

Lemma take_size_exact (l : bytes) n : Z.of_nat n <= size l -> length (take n l) = n.
Proof. unfold size. intros H. rewrite length_take. lia. Qed.

Lemma cursor_u8_app c x b :
  cursor_ok c -> rest c = x :: b ->
  exists c', idx_cursor_u8 c = Ok (x, c') /\ rest c' = b /\ cursor_ok c'.
Proof.
  intros Hc Hr. destruct (cursor_copy_app c 1 [x] b Hc Hr eq_refl) as (c' & E & H).
  exists c'. unfold idx_cursor_u8, mbind, reader_bind. by rewrite E.
Qed.

Lemma cursor_u64_app c a b :
  cursor_ok c -> rest c = a ++ b -> bytes_ok a -> length a = 8%nat ->
  exists c', idx_cursor_u64le c = Ok (le_val 256 a, c') /\ rest c' = b /\ cursor_ok c'.
Proof.
  intros Hc Hr Ha Hl. destruct (cursor_copy_app c 8 a b Hc Hr) as (c' & E & H).
  { unfold size. by rewrite Hl. }
  exists c'. unfold idx_cursor_u64le, mbind, reader_bind. rewrite E. unfold mret, reader_ret.
  by rewrite u64_bytes.
Qed.

Lemma cursor_u32_app c a b :
  cursor_ok c -> rest c = a ++ b -> bytes_ok a -> length a = 4%nat ->
  exists c', idx_cursor_u32le c = Ok (le_val 256 a, c') /\ rest c' = b /\ cursor_ok c'.
Proof.
  intros Hc Hr Ha Hl. destruct (cursor_copy_app c 4 a b Hc Hr) as (c' & E & H).
  { unfold size. by rewrite Hl. }
  exists c'. unfold idx_cursor_u32le, mbind, reader_bind. rewrite E. unfold mret, reader_ret.
  by rewrite u32_bytes.
Qed.

(** The wire form of an integer, and reading it back. *)
Abbreviation le64 := (le_digits 256 8).
Abbreviation le32 := (le_digits 256 4).

Lemma cursor_u64_le64 c v b :
  cursor_ok c -> rest c = le64 v ++ b -> is_u64 v ->
  exists c', idx_cursor_u64le c = Ok (v, c') /\ rest c' = b /\ cursor_ok c'.
Proof.
  intros Hc Hr Hv. destruct (cursor_u64_app c (le64 v) b Hc Hr) as (c' & E & H).
  { apply (le_digits_ok 256). lia. } { apply length_le_digits. }
  exists c'. rewrite E, le_val_digits; auto; lia.
Qed.

Lemma cursor_u32_le32 c v b :
  cursor_ok c -> rest c = le32 v ++ b -> 0 <= v < 2 ^ 32 ->
  exists c', idx_cursor_u32le c = Ok (v, c') /\ rest c' = b /\ cursor_ok c'.
Proof.
  intros Hc Hr Hv. destruct (cursor_u32_app c (le32 v) b Hc Hr) as (c' & E & H).
  { apply (le_digits_ok 256). lia. } { apply length_le_digits. }
  exists c'. rewrite E, le_val_digits; auto; lia.
Qed.

(** ** Growth *)

Lemma grow_loop_spec fuel capacity needed :
  0 < capacity <= SIZE_MAX -> needed <= SIZE_MAX -> needed <= capacity * 2 ^ Z.of_nat fuel ->
  exists c, grow_loop fuel capacity needed = Some c /\ needed <= c <= SIZE_MAX /\
    capacity <= c /\ (c <= Z.max capacity (2 * needed)).
Proof.
  revert capacity. induction fuel as [|fuel IH]; intros capacity Hc Hn Hf; cbn [grow_loop].
  - destruct (capacity <? needed) eqn:E.
    + apply Z.ltb_lt in E. simpl in Hf. lia.
    + apply Z.ltb_ge in E. exists capacity. split_and!; auto; lia.
  - destruct (capacity <? needed) eqn:E.
    + apply Z.ltb_lt in E. destruct (SIZE_MAX / 2 <? capacity) eqn:E2.
      { exists needed. split_and!; auto; lia. }
      apply Z.ltb_ge in E2.
      assert (capacity * 2 < 2 ^ 64) as Hw by (unfold SIZE_MAX in *; zdiv).
      unfold u64. rewrite Z.mod_small by lia.
      rewrite Nat2Z.inj_succ, Z.pow_succ_r in Hf by lia.
      destruct (IH (capacity * 2)) as (c & -> & H); [unfold SIZE_MAX; lia|lia|lia|].
      exists c. split_and!; try lia. done.
    + apply Z.ltb_ge in E. exists capacity. split_and!; auto; lia.
Qed.

(** The doubling loop ends within 64 rounds, whatever is asked for. *)
Lemma grow_capacity_spec capacity needed :
  0 < capacity <= SIZE_MAX -> needed <= SIZE_MAX ->
  is_Some (grow_loop 64 capacity needed) /\ needed <= grow_capacity capacity needed <= SIZE_MAX /\
  capacity <= grow_capacity capacity needed /\
  grow_capacity capacity needed <= Z.max capacity (2 * needed).
Proof.
  intros Hc Hn. destruct (grow_loop_spec 64 capacity needed) as (c & E & H); auto.
  { unfold SIZE_MAX in Hn. change (Z.of_nat 64) with 64. nia. }
  unfold grow_capacity. rewrite E. simpl. split; [by eexists|lia].
Qed.

(** A buffer holds at most its capacity. *)
Definition buffer_ok (b : idx_buffer) : Prop :=
  size (buf_data b) <= buf_capacity b <= SIZE_MAX.

(** ** Hex *)

(** The two characters of a byte are digits and give the byte back. *)
Lemma hex_pair x :
  is_byte x ->
  let high := hex_value (k_hex_digits !!! Z.to_nat (Z.shiftr x 4)) in
  let low := hex_value (k_hex_digits !!! Z.to_nat (Z.land x 15)) in
  (high <? 0) || (low <? 0) = false /\ u8 (Z.lor (Z.shiftl high 4) low) = x.
Proof.
  intros Hx. refine (decide_below 256 (fun x =>
    let high := hex_value (k_hex_digits !!! Z.to_nat (Z.shiftr x 4)) in
    let low := hex_value (k_hex_digits !!! Z.to_nat (Z.land x 15)) in
    (high <? 0) || (low <? 0) = false /\ u8 (Z.lor (Z.shiftl high 4) low) = x) x _ _).
  - by vm_compute.
  - unfold is_byte in Hx. lia.
Qed.

Lemma hex_decode_loop_encoded l :
  bytes_ok l ->
  hex_decode_loop (b ← l; [k_hex_digits !!! Z.to_nat (Z.shiftr b 4);
                           k_hex_digits !!! Z.to_nat (Z.land b 15)]) = Ok l.
Proof.
  induction 1 as [|x l Hx Hl IH]; [done|]. cbn [mbind list_bind app hex_decode_loop].
  destruct (hex_pair x Hx) as [-> ->]. cbn [mbind list_bind app] in IH. rewrite IH. done.
Qed.

Lemma hex_encoded_length l :
  length (b ← l; [k_hex_digits !!! Z.to_nat (Z.shiftr b 4);
                  k_hex_digits !!! Z.to_nat (Z.land b 15)]) = (2 * length l)%nat.
Proof. induction l as [|x l IH]; cbn [mbind list_bind app length] in *; lia. Qed.

(** What [idx_buffer_reserve] does to a well-formed buffer. *)
Lemma buffer_reserve_spec b additional h :
  buffer_ok b -> 0 < additional ->
  let '(r, b', h') := idx_buffer_reserve (Some b) additional h in
  exists b1, b' = Some b1 /\ buf_data b1 = buf_data b /\ buffer_ok b1 /\
    match r with
    | Ok _ => size (buf_data b) + additional <= buf_capacity b1 /\
              buf_capacity b1 <= Z.max (Z.max 64 (buf_capacity b))
                                       (2 * (size (buf_data b) + additional))
    | Err s => b1 = b /\
               (s = IDX_ERR_RANGE /\ SIZE_MAX < size (buf_data b) + additional \/
                s = IDX_ERR_NO_MEMORY /\ h = false :: h')
    end.
Proof.
  intros Hb Hadd. pose proof Hb as [Hlen Hcap]. unfold idx_buffer_reserve. unfold u64.
  assert (0 <= size (buf_data b)) by (unfold size; lia).
  rewrite (Z.mod_small (buf_capacity b - _)) by (unfold SIZE_MAX in *; lia).
  destruct (additional <=? _) eqn:E1.
  { apply Z.leb_le in E1. exists b. split_and!; auto; lia. }
  apply Z.leb_gt in E1. destruct (SIZE_MAX - _ <? _) eqn:E2.
  { apply Z.ltb_lt in E2. exists b. split_and!; auto. split; [done|]. left. split; [done|lia]. }
  apply Z.ltb_ge in E2. rewrite Z.mod_small by (unfold SIZE_MAX in *; lia).
  set (c0 := if 0 <? buf_capacity b then buf_capacity b else IDX_BUFFER_MIN_CAPACITY).
  assert (0 < c0 <= Z.max 64 (buf_capacity b)) as Hc0.
  { unfold c0, IDX_BUFFER_MIN_CAPACITY. destruct (0 <? buf_capacity b) eqn:E3; lia. }
  destruct (grow_capacity_spec c0 (size (buf_data b) + additional)) as (_ & G1 & G2 & G3);
    [unfold SIZE_MAX in *; lia|lia|].
  destruct h as [|[] h']; cbn [malloc].
  - eexists. split; [done|]. unfold buffer_ok. simpl. split_and!; auto; lia.
  - eexists. split; [done|]. unfold buffer_ok. simpl. split_and!; auto; lia.
  - exists b. split_and!; auto. split; [done|]. by right.
Qed.

(** Appending [data], all of it or none. *)
Lemma buffer_append_ok b data h :
  buffer_ok b ->
  let '(r, b', h') := idx_buffer_append (Some b) (Some data) (size data) h in
  exists b1, b' = Some b1 /\ buffer_ok b1 /\
    match r with
    | Ok _ => buf_data b1 = buf_data b ++ data /\
              buf_capacity b1 <= Z.max (Z.max 64 (buf_capacity b)) (2 * size (buf_data b1))
    | Err s => b1 = b /\
               (s = IDX_ERR_RANGE /\ SIZE_MAX < size (buf_data b) + size data \/
                s = IDX_ERR_NO_MEMORY /\ h = false :: h')
    end.
Proof.
  intros Hb. unfold idx_buffer_append. destruct (size data =? 0) eqn:E0.
  { assert (data = []) as -> by (unfold size in E0; destruct data; [done|simpl in E0; lia]).
    exists b. rewrite app_nil_r. destruct Hb. split_and!; auto; unfold buffer_ok; lia. }
  apply Z.eqb_neq in E0. assert (0 < size data) as Hpos by (unfold size in *; lia).
  assert (take (Z.to_nat (size data)) data = data) as ->.
  { unfold size. rewrite Nat2Z.id. apply take_ge. lia. }
  pose proof (buffer_reserve_spec b (size data) h Hb Hpos) as H.
  destruct (idx_buffer_reserve _ _ _) as [[[[]|s] b'] h'].
  - destruct H as (b1 & -> & Hd & [Hl Hc] & Hcap & Hmax). eexists. split; [done|].
    unfold buffer_ok, size in *. simpl. rewrite Hd, length_app in *. split_and!; auto; lia.
  - destruct H as (b1 & -> & Hd & Hb1 & -> & H). by exists b.
Qed.

(** ** Properties *)

(** Appending to a buffer is list append: either the bytes are added at the
    end and the capacity covers them, or the buffer is exactly what it was and
    the status says why (the length does not fit in a [size_t], or the allocator
    refused).  The capacity never exceeds twice what was needed. *)
Theorem buffer_append_spec b data h :
  buffer_ok b ->
  let '(r, b', h') := idx_buffer_append (Some b) (Some data) (size data) h in
  exists b1, b' = Some b1 /\ buffer_ok b1 /\
    match r with
    | Ok _ => buf_data b1 = buf_data b ++ data /\
              buf_capacity b1 <= Z.max (Z.max 64 (buf_capacity b)) (2 * size (buf_data b1))
    | Err s => b1 = b /\
               (s = IDX_ERR_RANGE /\ SIZE_MAX < size (buf_data b) + size data \/
                s = IDX_ERR_NO_MEMORY /\ h = false :: h')
    end.
Proof. apply buffer_append_ok. Qed.

Lemma buffer_append_spec_witness :
  exists b1, (idx_buffer_append (Some (Buffer [1; 2] 64)) (Some [3]) 1 []).1.2 = Some b1 /\
    buffer_ok b1 /\ buf_data b1 = [1; 2; 3] /\ buf_capacity b1 <= 64.
Proof.
  destruct (buffer_append_spec (Buffer [1; 2] 64) [3] []) as (b1 & E & H1 & H2 & H3).
  - by vm_compute.
  - exists b1. by injection E as <-.
Defined.

(** Hex round trip: the encoder succeeds whenever the buffer has room for two
    characters a byte and the terminator, and the decoder, given room for the
    bytes, returns exactly them. *)
Theorem hex_decode_encode input out_size back_size :
  bytes_ok input -> size input < 2 ^ 62 ->
  2 * size input < out_size -> size input <= back_size ->
  exists text, idx_hex_encode input (Some out_size) = Ok text /\
    idx_hex_decode (Some text) (Some back_size) = Ok input.
Proof.
  intros Hin Hsz Hos Hback. unfold idx_hex_encode, idx_hex_encoded_size, u64.
  assert (0 <= size input) by (unfold size; lia).
  rewrite !Z.mod_small by (rewrite ?Z.mod_small; lia).
  destruct (out_size <? _) eqn:E; [apply Z.ltb_lt in E; lia|].
  eexists. split; [done|]. unfold idx_hex_decode.
  assert (size (b ← input; [k_hex_digits !!! Z.to_nat (Z.shiftr b 4);
                            k_hex_digits !!! Z.to_nat (Z.land b 15)]) = size input * 2) as ->.
  { unfold size. rewrite hex_encoded_length. lia. }
  rewrite Z.mod_mul, Z.div_mul by lia. simpl negb. cbn iota.
  destruct (back_size <? _) eqn:E'; [apply Z.ltb_lt in E'; lia|].
  by apply hex_decode_loop_encoded.
Qed.

Lemma hex_decode_encode_witness :
  exists text, idx_hex_encode [0; 171; 255] (Some 7) = Ok text /\
    idx_hex_decode (Some text) (Some 3) = Ok [0; 171; 255].
Proof.
  apply (hex_decode_encode [0; 171; 255] 7 3); [|done..].
  repeat (apply Forall_cons; split; [unfold is_byte; lia|]). by apply Forall_nil.
Defined.
