(* ===== verification/Base64.v ===== *)
(** * base64.c: the RFC 4648 codec with padding

    Three bytes a group when encoding, four characters a group when decoding;
    [Base64] is what Solana carries account data and program logs in. *)

From S2P Require Import Prelude Bytes.
#[local] Open Scope Z_scope.

(** src/src/base64.c:5-6 [k_alphabet] *)
Definition k_alphabet : bytes :=
  lit "ABCDEFGHIJKLMNOPQRSTUVWXYZabcdefghijklmnopqrstuvwxyz0123456789+/".

(** src/src/base64.c:11-20 [ensure_reverse_table]: the table and its ready
    flag. *)
Definition ensure_reverse_table (st : bytes * bool) : bytes * bool :=
  if st.2 then st
  else (foldl (fun t (i : nat) => <[Z.to_nat (k_alphabet !!! i) := Z.of_nat i]> t)
              (replicate 256 255) (seq 0 64), true).

(** The table every decode reads. *)
Definition g_reverse : bytes := (ensure_reverse_table (replicate 256 0, false)).1.

(** src/src/base64.c:22-24 [idx_base64_encoded_size] *)
Definition idx_base64_encoded_size (byte_count : Z) : Z := u64 (u64 (byte_count + 2) / 3 * 4).

(** src/src/base64.c:26-26 [idx_base64_decoded_max] *)
Definition idx_base64_decoded_max (text_len : Z) : Z := text_len / 4 * 3.

(** [k_alphabet[(triple >> k) & 0x3F]] *)
Definition sextet_char (triple k : Z) : Z := k_alphabet !!! Z.to_nat (Z.land (Z.shiftr triple k) 63).

(** src/src/base64.c:41-69 [idx_base64_encode]: the whole groups and the
    leftover. *)
Fixpoint encode_groups (input : bytes) : bytes :=
  match input with
  | a :: b :: c :: rest =>
      let triple := Z.lor (Z.lor (Z.shiftl a 16) (Z.shiftl b 8)) c in
      sextet_char triple 18 :: sextet_char triple 12 :: sextet_char triple 6 ::
      sextet_char triple 0 :: encode_groups rest
  | [a; b] =>
      let triple := Z.lor (Z.shiftl a 16) (Z.shiftl b 8) in
      [sextet_char triple 18; sextet_char triple 12; sextet_char triple 6; 61]
  | [a] =>
      let triple := Z.shiftl a 16 in
      [sextet_char triple 18; sextet_char triple 12; 61; 61]
  | [] => []
  end.

(** src/src/base64.c:28-76 [idx_base64_encode]; [out] is [None] for a null
    buffer and otherwise its size. *)
Definition idx_base64_encode (input : idx_slice) (out : option Z) : result bytes :=
  match out with
  | None => IDX_FAIL IDX_ERR_INVALID_ARG
  | Some out_size =>
      let needed := idx_base64_encoded_size (slice_len input) in
      if out_size <? u64 (needed + 1) then IDX_FAIL IDX_ERR_RANGE
      else Ok (encode_groups (slice_bytes input))
  end.

(** src/src/base64.c:120-137 [idx_base64_decode]: one character of a group.
    [last] is the fourth character of its group. *)
Definition decode_char (is_last : bool) (j : nat) (last c quad : Z) : result Z :=
  if c =? 61 then
    if negb is_last || (j <? 2)%nat || ((j =? 2)%nat && negb (last =? 61)) then IDX_FAIL IDX_ERR_PARSE
    else Ok (u32 (Z.shiftl quad 6))
  else
    let value := g_reverse !!! Z.to_nat (u8 c) in
    if value =? 255 then IDX_FAIL IDX_ERR_PARSE
    else Ok (Z.lor (u32 (Z.shiftl quad 6)) value).

(** src/src/base64.c:115-153 [idx_base64_decode]: the loop over the groups. *)
Fixpoint decode_groups (padding : nat) (text : bytes) : result bytes :=
  match text with
  | c0 :: c1 :: c2 :: c3 :: rest =>
      let is_last := match rest with [] => true | _ => false end in
      quad ← decode_char is_last 0 c3 c0 0;
      quad ← decode_char is_last 1 c3 c1 quad;
      quad ← decode_char is_last 2 c3 c2 quad;
      quad ← decode_char is_last 3 c3 c3 quad;
      let emit := if is_last then (3 - padding)%nat else 3%nat in
      out ← decode_groups padding rest;
      Ok (take emit [u8 (Z.land (Z.shiftr quad 16) 255); u8 (Z.land (Z.shiftr quad 8) 255);
                     u8 (Z.land quad 255)] ++ out)
  | _ => Ok []
  end.

(** src/src/base64.c:99-105 [idx_base64_decode]: the padding at the end. *)
Definition padding_of (text : bytes) : nat :=
  if text !!! (length text - 1)%nat =? 61 then
    if text !!! (length text - 2)%nat =? 61 then 2 else 1
  else 0.

(** src/src/base64.c:78-159 [idx_base64_decode] *)
Definition idx_base64_decode (text : option bytes) (out : option Z) : result bytes :=
  match text, out with
  | Some text, Some out_size =>
      if negb (size text mod 4 =? 0) then IDX_FAIL IDX_ERR_PARSE
      else if size text =? 0 then Ok []
      else
        let padding := padding_of text in
        let needed := size text / 4 * 3 - Z.of_nat padding in
        if out_size <? needed then IDX_FAIL IDX_ERR_RANGE
        else decode_groups padding text
  | _, _ => IDX_FAIL IDX_ERR_INVALID_ARG
  end.

(** ** One group *)

Lemma group_ind (P : bytes -> Prop) :
  P [] -> (forall a, P [a]) -> (forall a b, P [a; b]) ->
  (forall a b c l, P l -> P (a :: b :: c :: l)) -> forall l, P l.
Proof.
  intros H0 H1 H2 H3. assert (forall n l, (length l < n)%nat -> P l) as H.
  { induction n as [|n IH]; intros l Hl; [lia|].
    destruct l as [|a [|b [|c l]]]; auto. apply H3, IH. simpl in Hl. lia. }
  intros l. apply (H (S (length l))). lia.
Qed.

Lemma quad_ind (P : bytes -> Prop) :
  P [] -> (forall a b c d l, P l -> P (a :: b :: c :: d :: l)) ->
  forall l, (length l mod 4 = 0)%nat -> P l.
Proof.
  intros H0 H1. assert (forall n l, (length l < n)%nat -> (length l mod 4 = 0)%nat -> P l) as H.
  { induction n as [|n IH]; intros l Hl Hm; [lia|].
    destruct l as [|a [|b [|c [|d l]]]]; try done. apply H1, IH; [simpl in Hl; lia|].
    change (length (a :: b :: c :: d :: l)) with (4 + length l)%nat in Hm.
    replace (4 + length l)%nat with (length l + 1 * 4)%nat in Hm by lia.
    by rewrite Nat.Div0.mod_add in Hm. }
  intros l. apply (H (S (length l))). lia.
Qed.

Lemma alphabet_reverse d :
  0 <= d < 64 ->
  g_reverse !!! Z.to_nat (u8 (k_alphabet !!! Z.to_nat d)) = d /\ k_alphabet !!! Z.to_nat d <> 61.
Proof.
  intros Hd. apply (decide_below 64 (fun d =>
    g_reverse !!! Z.to_nat (u8 (k_alphabet !!! Z.to_nat d)) = d /\ k_alphabet !!! Z.to_nat d <> 61));
    [by vm_compute|lia].
Qed.

(** The sextet at bit [k], and appending one to the bits read so far. *)
Lemma land_63 z : 0 <= z -> Z.land z 63 = z mod 64.
Proof. intros Hz. change 63 with (Z.ones 6). by rewrite Z.land_ones. Qed.

Lemma land_255 z : 0 <= z -> Z.land z 255 = z mod 256.
Proof. intros Hz. change 255 with (Z.ones 8). by rewrite Z.land_ones. Qed.

Lemma decode_sextet is_last j last t k quad :
  0 <= t -> 0 <= k -> 0 <= quad < 2 ^ 26 ->
  decode_char is_last j last (sextet_char t k) quad = Ok (quad * 64 + (t / 2 ^ k) mod 64).
Proof.
  intros Ht Hk Hq. unfold sextet_char. rewrite land_63 by (by apply Z.shiftr_nonneg).
  rewrite Z.shiftr_div_pow2 by done. set (d := (t / 2 ^ k) mod 64).
  assert (0 <= d < 64) as Hd by (apply Z.mod_pos_bound; lia).
  destruct (alphabet_reverse d Hd) as [Hrev Hne]. unfold decode_char.
  rewrite (proj2 (Z.eqb_neq _ _)) by done. rewrite Hrev, (proj2 (Z.eqb_neq _ _)) by lia.
  f_equal. unfold u32. rewrite Z.shiftl_mul_pow2 by lia. rewrite Z.mod_small by lia.
  rewrite Z.lor_comm, <- Z.shiftl_mul_pow2, lor_shiftl_add by lia. lia.
Qed.

(** The four sextets of 24 bits. *)
Lemma sextets t : 0 <= t < 2 ^ 24 ->
  (((t / 2 ^ 18) mod 64 * 64 + (t / 2 ^ 12) mod 64) * 64 + (t / 2 ^ 6) mod 64) * 64 + (t / 2 ^ 0) mod 64 = t.
Proof.
  intros Ht. change (2 ^ 0) with 1. rewrite Z.div_1_r.
  replace (t / 2 ^ 18) with (t / 64 / 64 / 64) by (rewrite !Z.div_div by lia; done).
  replace (t / 2 ^ 12) with (t / 64 / 64) by (rewrite !Z.div_div by lia; done).
  change (2 ^ 6) with 64.
  assert (t / 64 / 64 / 64 < 64) by (rewrite !Z.div_div by lia; apply Z.div_lt_upper_bound; lia).
  assert (0 <= t / 64 / 64 / 64) by (rewrite !Z.div_div by lia; apply Z.div_pos; lia).
  rewrite (Z.mod_small (t / 64 / 64 / 64)) by lia.
  pose proof (Z.div_mod t 64 ltac:(lia)). pose proof (Z.div_mod (t / 64) 64 ltac:(lia)).
  pose proof (Z.div_mod (t / 64 / 64) 64 ltac:(lia)). lia.
Qed.

(** The three bytes of 24 bits. *)
Lemma triple_sum a b c :
  is_byte a -> is_byte b -> is_byte c ->
  Z.lor (Z.lor (Z.shiftl a 16) (Z.shiftl b 8)) c = a * 65536 + b * 256 + c.
Proof.
  unfold is_byte. intros Ha Hb Hc.
  rewrite (Z.lor_comm (Z.lor _ _) c), (Z.lor_comm (Z.shiftl a 16)), Z.lor_assoc.
  rewrite (lor_shiftl_add c b 8) by lia. rewrite lor_shiftl_add by lia. lia.
Qed.

Lemma triple_bytes a b c :
  is_byte a -> is_byte b -> is_byte c ->
  let t := a * 65536 + b * 256 + c in
  u8 (Z.land (Z.shiftr t 16) 255) = a /\ u8 (Z.land (Z.shiftr t 8) 255) = b /\ u8 (Z.land t 255) = c.
Proof.
  intros Ha Hb Hc t. unfold is_byte, u8 in *. rewrite !Z.shiftr_div_pow2 by lia.
  rewrite !land_255 by (try apply Z.div_pos; unfold t; lia). change (2 ^ 8) with 256. rewrite !Z.mod_mod by lia.
  replace (t / 2 ^ 16) with a; [|apply (Z.div_unique t (2 ^ 16) a (b * 256 + c)); unfold t; lia].
  replace (t / 256) with (a * 256 + b);
    [|apply (Z.div_unique t 256 (a * 256 + b) c); unfold t; lia].
  replace ((a * 256 + b) mod 256) with b by (apply (Z.mod_unique _ _ a); lia).
  replace (t mod 256) with c by (apply (Z.mod_unique _ _ (a * 256 + b)); unfold t; lia).
  rewrite Z.mod_small by lia. auto.
Qed.

(** Decoding the four characters of a group of 24 bits. *)
Lemma decode_full_group padding t a b c rest :
  is_byte a -> is_byte b -> is_byte c -> t = a * 65536 + b * 256 + c ->
  rest <> [] \/ padding = 0%nat ->
  decode_groups padding (sextet_char t 18 :: sextet_char t 12 :: sextet_char t 6 :: sextet_char t 0 :: rest) =
  (out ← decode_groups padding rest; Ok (a :: b :: c :: out)).
Proof.
  intros Ha Hb Hc Ht Hlast. unfold is_byte in *.
  assert (0 <= t < 2 ^ 24) as Ht' by lia.
  pose proof (Z.mod_pos_bound (t / 2 ^ 18) 64 ltac:(lia)). pose proof (Z.mod_pos_bound (t / 2 ^ 12) 64 ltac:(lia)).
  pose proof (Z.mod_pos_bound (t / 2 ^ 6) 64 ltac:(lia)).
  cbn [decode_groups]. rewrite decode_sextet by lia. cbn [mbind IDX_TRY].
  rewrite decode_sextet by lia. cbn [mbind IDX_TRY]. rewrite decode_sextet by lia. cbn [mbind IDX_TRY].
  rewrite decode_sextet by lia. cbn [mbind IDX_TRY]. rewrite Z.mul_0_l, Z.add_0_l, sextets by done.
  destruct (triple_bytes a b c) as (Ea & Eb & Ec); [done..|]. rewrite <- Ht in Ea, Eb, Ec.
  rewrite Ea, Eb, Ec.
  replace (if match rest with [] => true | _ => false end then (3 - padding)%nat else 3%nat) with 3%nat; [done|].
  destruct rest; [destruct Hlast as [?| ->]; done|done].
Qed.

Lemma encode_groups_length l :
  length (encode_groups l) = (4 * ((length l + 2) / 3))%nat.
Proof.
  induction l as [|a|a b|a b c l IH] using group_ind; [done..|].
  cbn [encode_groups length]. rewrite IH.
  replace (S (S (S (length l))) + 2)%nat with (length l + 2 + 1 * 3)%nat by lia.
  rewrite Nat.div_add by lia. lia.
Qed.

(** The characters at the end. *)
Definition pad_of_length (n : nat) : nat :=
  match (n mod 3)%nat with O => 0 | 1 => 2 | _ => 1 end%nat.

Lemma sextet_char_not_pad t k : 0 <= t -> sextet_char t k <> 61.
Proof.
  intros Ht. unfold sextet_char. rewrite land_63 by (by apply Z.shiftr_nonneg).
  apply alphabet_reverse. apply Z.mod_pos_bound. lia.
Qed.

Lemma padding_of_cons4 a b c d l : l <> [] -> (4 <= length l)%nat -> padding_of (a :: b :: c :: d :: l) = padding_of l.
Proof.
  intros Hl Hlen. unfold padding_of. cbn [length].
  replace (S (S (S (S (length l)))) - 1)%nat with (S (S (S (S (length l - 1))))) by lia.
  replace (S (S (S (S (length l)))) - 2)%nat with (S (S (S (S (length l - 2))))) by lia. done.
Qed.

Lemma encode_groups_nil l : encode_groups l = [] -> l = [].
Proof. destruct l as [|a [|b [|c l]]]; done. Qed.

Lemma padding_encode l : bytes_ok l -> l <> [] -> padding_of (encode_groups l) = pad_of_length (length l).
Proof.
  induction l as [|a|a b|a b c l IH] using group_ind; intros Hok Hne; [done| | |].
  - done.
  - unfold padding_of. simpl. apply Forall_cons in Hok as [Ha (Hb & _)%Forall_cons].
    rewrite (proj2 (Z.eqb_neq _ _)); [done|]. apply sextet_char_not_pad.
    rewrite Z.lor_comm, lor_shiftl_add; unfold is_byte in *; rewrite ?Z.shiftl_mul_pow2 by lia; nia.
  - apply Forall_cons in Hok as [Ha (Hb & (Hc & Hl)%Forall_cons)%Forall_cons].
    cbn [encode_groups]. rewrite triple_sum by done. unfold pad_of_length. cbn [length].
    replace (S (S (S (length l)))) with (length l + 1 * 3)%nat by lia. rewrite Nat.Div0.mod_add.
    destruct (decide (l = [])) as [->|Hl'].
    + unfold padding_of. simpl. rewrite (proj2 (Z.eqb_neq _ _)); [done|].
      apply sextet_char_not_pad. unfold is_byte in *. lia.
    + rewrite padding_of_cons4; [by apply IH| |].
      * intros H. by apply encode_groups_nil in H.
      * rewrite encode_groups_length. destruct l as [|x [|y [|z l]]]; simpl; try lia; [done|].
        pose proof (Nat.Div0.div_le_mono 3 (S (S (S (length l + 2)))) 3 ltac:(lia)) as H. simpl in H. lia.
Qed.

Lemma decode_pad j quad last :
  (2 <= j)%nat -> (j = 2%nat -> last = 61) -> 0 <= quad < 2 ^ 26 ->
  decode_char true j last 61 quad = Ok (quad * 64).
Proof.
  intros Hj Hlast Hq. unfold decode_char. rewrite Z.eqb_refl.
  rewrite (proj2 (Nat.ltb_ge j 2)) by done.
  replace (_ || _ || _) with false.
  - f_equal. unfold u32. rewrite Z.shiftl_mul_pow2 by lia. by rewrite Z.mod_small by lia.
  - destruct (j =? 2)%nat eqn:E; [|done]. apply Nat.eqb_eq in E. by rewrite Hlast.
Qed.

Lemma sextet_low t k m : 0 <= t -> 0 <= k -> t = m * 2 ^ (k + 6) -> (t / 2 ^ k) mod 64 = 0.
Proof.
  intros Ht Hk ->. replace (m * 2 ^ (k + 6)) with ((m * 64) * 2 ^ k) by (rewrite Z.pow_add_r by lia; lia).
  rewrite Z.div_mul by (apply Z.pow_nonzero; lia). apply Z.mod_mul. lia.
Qed.

(** The short groups at the end. *)
Lemma decode_one a : is_byte a -> decode_groups 2 (encode_groups [a]) = Ok [a].
Proof.
  intros Ha. pose proof (triple_bytes a 0 0 Ha ltac:(done) ltac:(done)) as (Ea & _ & _). unfold is_byte in Ha.
  cbn [encode_groups decode_groups]. rewrite Z.shiftl_mul_pow2 by lia. set (t := a * 2 ^ 16).
  assert (t = a * 65536 + 0 * 256 + 0) as Ht by (unfold t; lia). rewrite <- Ht in Ea.
  pose proof (Z.mod_pos_bound (t / 2 ^ 18) 64 ltac:(lia)). pose proof (Z.mod_pos_bound (t / 2 ^ 12) 64 ltac:(lia)).
  rewrite decode_sextet by lia. cbn [mbind IDX_TRY]. rewrite decode_sextet by lia. cbn [mbind IDX_TRY].
  rewrite decode_pad by (auto; lia). cbn [mbind IDX_TRY]. rewrite decode_pad by (auto; lia). cbn [mbind IDX_TRY].
  pose proof (sextets t ltac:(lia)) as Hs.
  rewrite (sextet_low t 6 (a * 16)), (sextet_low t 0 (a * 1024)) in Hs by (unfold t; lia).
  rewrite Z.mul_0_l, Z.add_0_l. rewrite !Z.add_0_r in Hs. rewrite Hs. cbn [take app]. by rewrite Ea.
Qed.

Lemma decode_two a b : is_byte a -> is_byte b -> decode_groups 1 (encode_groups [a; b]) = Ok [a; b].
Proof.
  intros Ha Hb. pose proof (triple_bytes a b 0 Ha Hb ltac:(done)) as (Ea & Eb & _).
  pose proof (triple_sum a b 0 Ha Hb ltac:(done)) as Hsum. rewrite Z.lor_0_r in Hsum. unfold is_byte in *.
  cbn [encode_groups decode_groups]. rewrite Hsum. set (t := a * 65536 + b * 256 + 0) in *.
  pose proof (Z.mod_pos_bound (t / 2 ^ 18) 64 ltac:(lia)). pose proof (Z.mod_pos_bound (t / 2 ^ 12) 64 ltac:(lia)).
  pose proof (Z.mod_pos_bound (t / 2 ^ 6) 64 ltac:(lia)).
  rewrite decode_sextet by lia. cbn [mbind IDX_TRY]. rewrite decode_sextet by lia. cbn [mbind IDX_TRY].
  rewrite decode_sextet by lia. cbn [mbind IDX_TRY]. rewrite decode_pad by (auto; lia). cbn [mbind IDX_TRY].
  pose proof (sextets t ltac:(lia)) as Hs. rewrite (sextet_low t 0 (a * 1024 + b * 4)) in Hs by (unfold t; lia).
  rewrite Z.mul_0_l, Z.add_0_l. rewrite !Z.add_0_r in Hs. rewrite Hs. cbn [take app]. by rewrite Ea, Eb.
Qed.

Lemma decode_encode_groups l :
  bytes_ok l -> decode_groups (pad_of_length (length l)) (encode_groups l) = Ok l.
Proof.
  induction l as [|a|a b|a b c l IH] using group_ind; intros Hok; [done| | |].
  - apply Forall_cons in Hok as [Ha _]. by apply decode_one.
  - apply Forall_cons in Hok as [Ha (Hb & _)%Forall_cons]. by apply decode_two.
  - apply Forall_cons in Hok as [Ha (Hb & (Hc & Hl)%Forall_cons)%Forall_cons].
    assert (pad_of_length (length (a :: b :: c :: l)) = pad_of_length (length l)) as ->.
    { unfold pad_of_length. cbn [length]. replace (S (S (S (length l)))) with (length l + 1 * 3)%nat by lia.
      by rewrite Nat.Div0.mod_add. }
    cbn [encode_groups]. rewrite (decode_full_group _ _ a b c) by
      (first [done | by apply triple_sum | destruct l; [by right|left; intros H; by apply encode_groups_nil in H]]).
    by rewrite IH.
Qed.

Lemma encoded_size_exact n : 0 <= n -> n < 2 ^ 62 -> idx_base64_encoded_size n = (n + 2) / 3 * 4.
Proof.
  intros Hn Hb. unfold idx_base64_encoded_size. rewrite (u64_small (n + 2)) by (unfold is_u64; lia).
  apply u64_small. unfold is_u64. zdiv.
Qed.

(** ** What a successful decode wrote *)

Lemma decode_groups_size padding l out :
  (length l mod 4 = 0)%nat -> l <> [] -> (padding <= 2)%nat -> decode_groups padding l = Ok out ->
  bytes_ok out /\ (length out + padding = length l / 4 * 3)%nat.
Proof.
  intros Hm. revert out. pattern l. revert l Hm. apply quad_ind; [done|].
  intros c0 c1 c2 c3 l IH out _ Hp. cbn [decode_groups].
  destruct (decode_char _ 0 _ _ _) as [q0|]; [|done]. cbn [mbind IDX_TRY].
  destruct (decode_char _ 1 _ _ _) as [q1|]; [|done]. cbn [mbind IDX_TRY].
  destruct (decode_char _ 2 _ _ _) as [q2|]; [|done]. cbn [mbind IDX_TRY].
  destruct (decode_char _ 3 _ _ _) as [q|]; [|done]. cbn [mbind IDX_TRY].
  assert (forall z, is_byte (u8 z)) as Hu by (intros z; apply Z.mod_pos_bound; lia).
  change (length (c0 :: c1 :: c2 :: c3 :: l)) with (4 + length l)%nat.
  replace (4 + length l)%nat with (length l + 1 * 4)%nat by lia. rewrite Nat.div_add by lia.
  destruct (decode_groups padding l) as [rest|] eqn:Hrest; [|done]. cbn [mbind IDX_TRY]. intros [= <-].
  assert (forall n, bytes_ok (take n [u8 (Z.land (Z.shiftr q 16) 255); u8 (Z.land (Z.shiftr q 8) 255);
                     u8 (Z.land q 255)])) as Htake.
  { intros n. apply Forall_take. rewrite !Forall_cons. auto. }
  unfold bytes_ok. rewrite Forall_app, length_app, length_take. cbn [length].
  destruct l as [|x l].
  - injection Hrest as <-. split; [split; [apply Htake|by apply Forall_nil]|]. simpl. lia.
  - destruct (IH rest ltac:(done) Hp eq_refl) as [H1 H2]. split; [split; [apply Htake|done]|]. lia.
Qed.

Lemma padding_of_le text : (padding_of text <= 2)%nat.
Proof. unfold padding_of. repeat destruct (_ =? _); lia. Qed.

(** ** Properties *)

(** Round trip: any bytes encode into a buffer of [idx_base64_encoded_size]
    characters plus the terminator, the text has exactly that length, and decoding
    it into a buffer of the original size gives the bytes back. *)
Theorem base64_decode_encode input out_size back_size :
  bytes_ok input -> size input < 2 ^ 62 ->
  idx_base64_encoded_size (size input) < out_size -> size input <= back_size ->
  exists text, idx_base64_encode (Some input) (Some out_size) = Ok text /\
    size text = idx_base64_encoded_size (size input) /\
    idx_base64_decode (Some text) (Some back_size) = Ok input.
Proof.
  intros Hok Hsz Hos Hback. pose proof (encoded_size_exact (size input) ltac:(unfold size; lia) Hsz) as He.
  exists (encode_groups input). unfold idx_base64_encode.
  change (slice_len (Some input)) with (size input). change (slice_bytes (Some input)) with input.
  assert (size (encode_groups input) = (size input + 2) / 3 * 4) as Hlen.
  { unfold size. rewrite encode_groups_length, Nat2Z.inj_mul, Nat2Z.inj_div, Nat2Z.inj_add. lia. }
  split_and!; [|congruence|].
  { rewrite He in Hos |- *.
    assert (0 <= (size input + 2) / 3 * 4 < 2 ^ 63) by (unfold size in *; zdiv).
    rewrite u64_small by (unfold is_u64; lia). by rewrite (proj2 (Z.ltb_ge _ _)) by lia. }
  unfold idx_base64_decode. rewrite Hlen, Z.mod_mul by lia. simpl.
  destruct (decide (input = [])) as [->|Hne]; [done|].
  assert (0 < size input) as Hpos by (destruct input; [done|unfold size; simpl; lia]).
  rewrite (proj2 (Z.eqb_neq _ _)) by zdiv. rewrite padding_encode by done.
  rewrite Z.div_mul by lia. rewrite (proj2 (Z.ltb_ge _ _)); [by apply decode_encode_groups|].
  etrans; [|exact Hback]. unfold pad_of_length, size in *.
  pose proof (Nat.div_mod_eq (length input) 3). pose proof (Nat.mod_upper_bound (length input) 3 ltac:(lia)).
  destruct (length input mod 3)%nat as [|[|[|?]]]; zdiv.
Qed.

(** The decoder writes exactly the bytes it checked the room for: whatever
    the text, a success fills [text_len / 4 * 3 - padding] bytes, at most the
    size of the buffer and at most [idx_base64_decoded_max]. *)
Theorem base64_decode_bounds text out_size out :
  idx_base64_decode (Some text) (Some out_size) = Ok out -> 0 <= out_size ->
  bytes_ok out /\ size out <= out_size /\ size out <= idx_base64_decoded_max (size text) /\
  (text <> [] -> size out = size text / 4 * 3 - Z.of_nat (padding_of text)).
Proof.
  unfold idx_base64_decode, idx_base64_decoded_max. intros H Hos.
  destruct (negb (size text mod 4 =? 0)) eqn:Hm; [done|].
  destruct (size text =? 0) eqn:Hz.
  { injection H as <-. destruct text; [|unfold size in Hz; simpl in Hz; lia].
    split_and!; [by apply Forall_nil|exact Hos|done|done]. }
  destruct (out_size <? _) eqn:Hroom; [done|].
  assert (text <> []) as Hne by (intros ->; discriminate Hz).
  assert (length text mod 4 = 0)%nat as Hm'.
  { unfold size in Hm. apply Nat2Z.inj. rewrite Nat2Z.inj_mod. simpl. lia. }
  destruct (decode_groups_size _ _ _ Hm' Hne (padding_of_le text) H) as [H1 H2].
  apply (f_equal Z.of_nat) in H2. rewrite Nat2Z.inj_add, Nat2Z.inj_mul, Nat2Z.inj_div in H2.
  unfold size in *. change (Z.of_nat 4) with 4 in *. change (Z.of_nat 3) with 3 in *.
  split_and!; [done|lia..].
Qed.

(** ** Witnesses *)

Lemma base64_decode_encode_witness :
  exists text, idx_base64_encode (Some (lit "any carnal pleas")) (Some 25) = Ok text /\
    idx_base64_decode (Some text) (Some 16) = Ok (lit "any carnal pleas") /\
    text = lit "YW55IGNhcm5hbCBwbGVhcw==".
Proof.
  destruct (base64_decode_encode (lit "any carnal pleas") 25 16) as (text & H1 & _ & H2);
    [decide_now|done|done|done|].
  exists text. split_and!; [exact H1|exact H2|]. vm_compute in H1. injection H1 as <-. reflexivity.
Defined.

Lemma base64_decode_bounds_witness :
  idx_base64_decode (Some (lit "YW55IGNhcm5hbCBwbGVhcw==")) (Some 16) = Ok (lit "any carnal pleas") /\
  size (lit "any carnal pleas") <= idx_base64_decoded_max 24.
Proof.
  split; [reflexivity|].
  refine (proj1 (proj2 (proj2 (base64_decode_bounds (lit "YW55IGNhcm5hbCBwbGVhcw==") 16
    (lit "any carnal pleas") _ _)))); [reflexivity|lia].
Defined.
