(* ===== verification/Decimal.v ===== *)
(** * Decimal text

    What [printf("%llu")] writes, and the digit loop that reads it back with the
    overflow test of block.c. *)

From S2P Require Import Prelude.
#[local] Open Scope Z_scope.

(** [%llu]: the decimal digits of [n]; 20 of them hold any 64-bit value. *)
Fixpoint dec_loop (fuel : nat) (n : Z) (acc : bytes) : bytes :=
  match fuel with
  | O => acc
  | S fuel' =>
      let acc := 48 + n mod 10 :: acc in
      if n <? 10 then acc else dec_loop fuel' (n / 10) acc
  end.

Definition dec (n : Z) : bytes := dec_loop 20 n [].

(** The number a digit string denotes. *)
Definition dec_val (l : bytes) : Z := foldl (fun v c => v * 10 + (c - 48)) 0 l.

Definition is_digit (c : Z) : Prop := 48 <= c <= 57.

#[export] Instance is_digit_dec c : Decision (is_digit c).
Proof. unfold is_digit. apply _. Defined.

Lemma dec_foldl_app v l1 l2 :
  foldl (fun v c => v * 10 + (c - 48)) v (l1 ++ l2) =
  foldl (fun v c => v * 10 + (c - 48)) (foldl (fun v c => v * 10 + (c - 48)) v l1) l2.
Proof. apply foldl_app. Qed.

Lemma dec_foldl_shift v l :
  foldl (fun v c => v * 10 + (c - 48)) v l = v * 10 ^ size l + dec_val l.
Proof.
  unfold dec_val. revert v. induction l as [|c l IH]; intros v.
  - unfold size. simpl. lia.
  - cbn [foldl]. rewrite IH, (IH (0 * 10 + (c - 48))).
    assert (size (c :: l) = size l + 1) as -> by (unfold size; simpl length; lia).
    rewrite Z.pow_add_r by (unfold size; lia). lia.
Qed.

Lemma dec_val_cons c l : dec_val (c :: l) = (c - 48) * 10 ^ size l + dec_val l.
Proof. unfold dec_val at 1. cbn [foldl]. rewrite dec_foldl_shift. lia. Qed.

Lemma dec_loop_spec fuel n acc :
  0 <= n < 10 ^ Z.of_nat fuel -> fuel <> O ->
  exists l, dec_loop fuel n acc = l ++ acc /\ Forall is_digit l /\ dec_val l = n /\
    l <> [] /\ (length l <= fuel)%nat /\ (hd 0 l = 48 -> l = [48]).
Proof.
  revert n acc. induction fuel as [|fuel IH]; intros n acc Hn Hf; [done|]. cbn [dec_loop].
  pose proof (Z.mod_pos_bound n 10 ltac:(lia)) as Hm. pose proof (Z.div_mod n 10 ltac:(lia)).
  destruct (n <? 10) eqn:E.
  - exists [48 + n mod 10]. rewrite Z.mod_small in * by lia. split_and!; try done.
    + repeat constructor; lia.
    + unfold dec_val. simpl. lia.
    + simpl. lia.
    + simpl. intros ->. done.
  - rewrite Nat2Z.inj_succ, Z.pow_succ_r in Hn by lia.
    destruct fuel as [|fuel]; [simpl in Hn; lia|].
    assert (0 <= n / 10 < 10 ^ Z.of_nat (S fuel)) as Hn' by zdiv.
    destruct (IH (n / 10) (48 + n mod 10 :: acc) Hn' ltac:(done)) as (l & -> & Hd & Hv & Hne & Hl & Hz).
    exists (l ++ [48 + n mod 10]). split_and!.
    + by rewrite <- app_assoc.
    + apply Forall_app. split; [done|]. repeat constructor; lia.
    + unfold dec_val in *. rewrite dec_foldl_app, Hv. simpl. lia.
    + by destruct l.
    + rewrite length_app. simpl. lia.
    + destruct l as [|c l]; [done|]. simpl. intros ->. specialize (Hz eq_refl).
      injection Hz as ->. unfold dec_val in Hv. simpl in Hv. lia.
Qed.

Lemma dec_ok n : is_u64 n -> Forall is_digit (dec n) /\ dec_val (dec n) = n /\ dec n <> [] /\ size (dec n) <= 20.
Proof.
  unfold is_u64. intros Hn. destruct (dec_loop_spec 20 n []) as (l & Hl & H1 & H2 & H3 & H4 & _); [|done|].
  - change (Z.of_nat 20) with 20. lia.
  - unfold dec. rewrite Hl, app_nil_r. split_and!; auto. unfold size. lia.
Qed.

Lemma dec_val_nonneg l : Forall is_digit l -> 0 <= dec_val l.
Proof.
  induction 1 as [|c l Hc Hl IH]; [done|]. rewrite dec_val_cons. unfold is_digit in Hc.
  assert (0 <= 10 ^ size l) by (apply Z.pow_nonneg; lia). nia.
Qed.
