(* ===== verification/Vec.v ===== *)
(** * vec.c: the growable array

    Polymorphic in what an element is; [elem_size] is kept because the growth
    checks it for overflow.  The growth loop is the one of bytes.c
    ([Bytes.grow_capacity]). *)

From S2P Require Import Prelude Radix Bytes.
#[local] Open Scope Z_scope.

(** src/src/vec.c:7-7 [IDX_VEC_MIN_CAPACITY] *)
Definition IDX_VEC_MIN_CAPACITY : Z := 8.

(** src/include/vec.h:16-21 [idx_vec]: the first [len] elements, the capacity in
    elements and the size of one. *)
Record idx_vec (V : Type) := Vec { vec_data : list V; vec_capacity : Z; elem_size : Z }.
Arguments Vec {V} _ _ _.
Arguments vec_data {V} _.
Arguments vec_capacity {V} _.
Arguments elem_size {V} _.

Section vec.
Context {V : Type}.
Implicit Types (v : idx_vec V) (x : V) (h : heap).

(** src/src/vec.c:9-17 [idx_vec_init] *)
Definition idx_vec_init (esize : Z) : idx_vec V := Vec [] 0 esize.

(** src/src/vec.c:23-60 [idx_vec_reserve] *)
Definition idx_vec_reserve (vec : option (idx_vec V)) (additional : Z) h
    : result unit * option (idx_vec V) * heap :=
  match vec with
  | None => (IDX_FAIL IDX_ERR_INVALID_ARG, None, h)
  | Some v =>
      let len := size (vec_data v) in
      if elem_size v =? 0 then (IDX_FAIL IDX_ERR_INVALID_ARG, Some v, h)
      else if additional <=? u64 (vec_capacity v - len) then (Ok tt, Some v, h)
      else if SIZE_MAX - len <? additional then (IDX_FAIL IDX_ERR_RANGE, Some v, h)
      else
        let needed := u64 (len + additional) in
        let capacity := if 0 <? vec_capacity v then vec_capacity v else IDX_VEC_MIN_CAPACITY in
        let capacity := grow_capacity capacity needed in
        if SIZE_MAX / elem_size v <? capacity then (IDX_FAIL IDX_ERR_RANGE, Some v, h)
        else
          let '(ok, h') := malloc h in
          if ok then (Ok tt, Some (Vec (vec_data v) capacity (elem_size v)), h')
          else (IDX_FAIL IDX_ERR_NO_MEMORY, Some v, h')
  end.

(** src/src/vec.c:62-70 [idx_vec_push_uninit]: returns the position of the new
    element, whose content is what the memory held, [garbage]. *)
Definition idx_vec_push_uninit (garbage : V) (vec : option (idx_vec V)) h
    : result nat * option (idx_vec V) * heap :=
  match idx_vec_reserve vec 1 h with
  | (Ok _, Some v, h') =>
      (Ok (length (vec_data v)),
       Some (Vec (vec_data v ++ [garbage]) (vec_capacity v) (elem_size v)), h')
  | (Ok _, None, h') => (IDX_FAIL IDX_ERR_INVALID_ARG, None, h')
  | (Err s, v, h') => (Err s, v, h')
  end.

(** src/src/vec.c:72-80 [idx_vec_push]: the copy overwrites the new element. *)
Definition idx_vec_push (garbage : V) (vec : option (idx_vec V)) (elem : option V) h
    : result unit * option (idx_vec V) * heap :=
  match elem with
  | None => (IDX_FAIL IDX_ERR_INVALID_ARG, vec, h)
  | Some x =>
      match idx_vec_push_uninit garbage vec h with
      | (Ok i, Some v, h') =>
          (Ok tt, Some (Vec (<[i := x]> (vec_data v)) (vec_capacity v) (elem_size v)), h')
      | (Ok _, None, h') => (Ok tt, None, h')
      | (Err s, v, h') => (Err s, v, h')
      end
  end.

(** src/src/vec.c:82-87 [idx_vec_at] *)
Definition idx_vec_at (vec : option (idx_vec V)) (index : nat) : option V :=
  match vec with
  | None => None
  | Some v => if (length (vec_data v) <=? index)%nat then None else vec_data v !! index
  end.

(** src/src/vec.c:89-98 [idx_vec_pop]: the element copied out, if any, and
    the vector. *)
Definition idx_vec_pop (vec : option (idx_vec V)) : option V * option (idx_vec V) :=
  match vec with
  | None => (None, None)
  | Some v =>
      if (length (vec_data v) =? 0)%nat then (None, Some v)
      else
        let len := (length (vec_data v) - 1)%nat in
        (vec_data v !! len, Some (Vec (take len (vec_data v)) (vec_capacity v) (elem_size v)))
  end.

(** src/src/vec.c:102-102 [idx_vec_len] *)
Definition idx_vec_len (vec : option (idx_vec V)) : nat :=
  match vec with Some v => length (vec_data v) | None => 0 end.

(** src/src/vec.c:104-104 [idx_vec_is_empty] *)
Definition idx_vec_is_empty (vec : option (idx_vec V)) : bool := (idx_vec_len vec =? 0)%nat.

(** src/src/vec.c:106-110 [idx_vec_clear] *)
Definition idx_vec_clear (vec : option (idx_vec V)) : option (idx_vec V) :=
  (fun v => Vec [] (vec_capacity v) (elem_size v)) <$> vec.

(** src/src/vec.c:112-117 [idx_vec_free] *)
Definition idx_vec_free (vec : option (idx_vec V)) : option (idx_vec V) :=
  (fun v => idx_vec_init (elem_size v)) <$> vec.

(** The elements are within the capacity, and the capacity is a number of bytes
    an allocation can have. *)
Definition vec_ok v : Prop :=
  0 < elem_size v /\ size (vec_data v) <= vec_capacity v /\
  vec_capacity v * elem_size v <= SIZE_MAX.

(** Why a reserve of one more can fail. *)
Definition push_failure v h (h' : heap) (s : idx_status) : Prop :=
  s = IDX_ERR_NO_MEMORY /\ h = false :: h' \/
  s = IDX_ERR_RANGE /\ SIZE_MAX < 2 * (vec_capacity v + 8) * elem_size v.

(** Room that is there already. *)
Lemma vec_reserve_room v n h :
  vec_ok v -> 0 <= n <= vec_capacity v - size (vec_data v) -> idx_vec_reserve (Some v) n h = (Ok tt, Some v, h).
Proof.
  intros (He & Hl & Hc) Hn. unfold idx_vec_reserve. rewrite (proj2 (Z.eqb_neq _ _)) by lia.
  assert (0 <= size (vec_data v)) by (unfold size; lia). assert (vec_capacity v <= SIZE_MAX) by nia.
  rewrite u64_small by (unfold is_u64, SIZE_MAX in *; lia). by rewrite (proj2 (Z.leb_le _ _)) by lia.
Qed.

(** Why a reserve can fail. *)
Definition reserve_failure v (n : Z) h (s : idx_status) : Prop :=
  s = IDX_ERR_NO_MEMORY /\ false ∈ h \/
  s = IDX_ERR_RANGE /\ SIZE_MAX < Z.max 8 (2 * (size (vec_data v) + n)) * elem_size v.

(** Room for any number of elements: the elements stay, and there is room or there is
    none for want of memory or of numbers. *)
Lemma vec_reserve_spec v n h :
  vec_ok v -> 0 <= n ->
  let '(r, vec', h') := idx_vec_reserve (Some v) n h in
  exists v', vec' = Some v' /\ vec_ok v' /\ vec_data v' = vec_data v /\ elem_size v' = elem_size v /\
    vec_capacity v <= vec_capacity v' /\
    match r with
    | Ok _ => size (vec_data v) + n <= vec_capacity v' /\ exists used, h = used ++ h'
    | Err s => v' = v /\ reserve_failure v n h s
    end.
Proof.
  intros Hv Hn. pose proof Hv as (He & Hl & Hc). unfold idx_vec_reserve.
  assert (0 <= size (vec_data v)) by (unfold size; lia). assert (vec_capacity v <= SIZE_MAX) by nia.
  rewrite (proj2 (Z.eqb_neq _ _)) by lia.
  rewrite (u64_small (vec_capacity v - size (vec_data v))) by (unfold is_u64, SIZE_MAX in *; lia).
  destruct (n <=? _) eqn:E1; [exists v; split_and!; auto; [zlia|zlia|by exists []]|].
  destruct (SIZE_MAX - _ <? n) eqn:E2.
  { exists v. split_and!; auto; [lia|]. split; [done|]. right. split; [done|]. zbool.
    apply Z.lt_le_trans with (Z.max 8 (2 * (size (vec_data v) + n)) * 1); [lia|].
    apply Z.mul_le_mono_nonneg_l; lia. }
  rewrite (u64_small (size (vec_data v) + n)) by (unfold is_u64, SIZE_MAX in *; zlia).
  set (c0 := if 0 <? vec_capacity v then vec_capacity v else IDX_VEC_MIN_CAPACITY).
  assert (vec_capacity v <= c0 <= Z.max 8 (vec_capacity v) /\ 0 < c0 <= SIZE_MAX) as [Hcap Hc0]
    by (unfold c0, IDX_VEC_MIN_CAPACITY, SIZE_MAX in *; destruct (0 <? vec_capacity v) eqn:?; zlia).
  destruct (grow_capacity_spec c0 (size (vec_data v) + n)) as (_ & G1 & G2 & G3); [lia|zlia|].
  set (c := grow_capacity _ _) in *.
  destruct (SIZE_MAX / elem_size v <? c) eqn:E3.
  { exists v. split_and!; auto; [lia|]. split; [done|]. right. split; [done|].
    pose proof (Z.mul_succ_div_gt SIZE_MAX (elem_size v) He). zbool.
    assert (SIZE_MAX < c * elem_size v) by nia.
    assert (vec_capacity v < c) by (apply Z.nle_gt; intros ?; nia).
    apply Z.lt_le_trans with (c * elem_size v); [done|]. apply Z.mul_le_mono_nonneg_r; lia. }
  assert (c * elem_size v <= SIZE_MAX) as Hbytes by (pose proof (Z.mul_div_le SIZE_MAX (elem_size v) He); zbool; nia).
  destruct h as [|[] h']; cbn [malloc].
  - eexists. split; [done|]. unfold vec_ok. simpl. split_and!; auto; try lia. by exists [].
  - eexists. split; [done|]. unfold vec_ok. simpl. split_and!; auto; try lia. by exists [true].
  - exists v. split_and!; auto; [lia|]. split; [done|]. left. split; [done|]. apply list_elem_of_here.
Qed.

Lemma vec_reserve_one_spec v h :
  vec_ok v ->
  let '(r, vec', h') := idx_vec_reserve (Some v) 1 h in
  exists v', vec' = Some v' /\ vec_ok v' /\ vec_data v' = vec_data v /\ elem_size v' = elem_size v /\
    match r with
    | Ok _ => size (vec_data v) + 1 <= vec_capacity v' /\ vec_capacity v' <= 2 * (vec_capacity v + 8)
    | Err s => v' = v /\ push_failure v h h' s
    end.
Proof.
  intros Hv. pose proof Hv as (He & Hl & Hc). unfold idx_vec_reserve.
  assert (0 <= size (vec_data v)) by (unfold size; lia).
  assert (vec_capacity v <= SIZE_MAX) by nia.
  rewrite (proj2 (Z.eqb_neq _ _)) by lia.
  rewrite (u64_small (vec_capacity v - size (vec_data v))) by (unfold is_u64, SIZE_MAX in *; lia).
  destruct (1 <=? _) eqn:E1; [exists v; split_and!; auto; lia|].
  destruct (SIZE_MAX - _ <? 1) eqn:E2.
  { exists v. split_and!; auto. split; [done|]. right. split; [done|].
    assert (SIZE_MAX <= vec_capacity v) by lia. nia. }
  rewrite (u64_small (size (vec_data v) + 1)) by (unfold is_u64, SIZE_MAX in *; lia).
  set (c0 := if 0 <? vec_capacity v then vec_capacity v else IDX_VEC_MIN_CAPACITY).
  assert (0 < c0 <= Z.max 8 (vec_capacity v)) as Hc0
    by (unfold c0, IDX_VEC_MIN_CAPACITY; destruct (0 <? vec_capacity v) eqn:?; lia).
  destruct (grow_capacity_spec c0 (size (vec_data v) + 1)) as (_ & G1 & G2 & G3);
    [unfold SIZE_MAX in *; lia|unfold SIZE_MAX in *; lia|].
  set (c := grow_capacity _ _) in *.
  assert (c <= 2 * (vec_capacity v + 8)) as Hcb by lia.
  destruct (SIZE_MAX / elem_size v <? c) eqn:E3.
  { exists v. split_and!; auto. split; [done|]. right. split; [done|].
    assert (SIZE_MAX < c * elem_size v); [|nia].
    pose proof (Z.mul_succ_div_gt SIZE_MAX (elem_size v) He). nia. }
  assert (c * elem_size v <= SIZE_MAX) as Hbytes.
  { pose proof (Z.mul_div_le SIZE_MAX (elem_size v) He). nia. }
  destruct h as [|[] h']; cbn [malloc].
  - eexists. split; [done|]. unfold vec_ok. simpl. split_and!; auto; lia.
  - eexists. split; [done|]. unfold vec_ok. simpl. split_and!; auto; lia.
  - exists v. split_and!; auto. split; [done|]. by left.
Qed.

Lemma vec_push_ok garbage v x h :
  vec_ok v ->
  let '(r, vec', h') := idx_vec_push garbage (Some v) (Some x) h in
  exists v', vec' = Some v' /\ vec_ok v' /\
    match r with
    | Ok _ => vec_data v' = vec_data v ++ [x]
    | Err s => v' = v /\ push_failure v h h' s
    end.
Proof.
  intros Hv. pose proof (vec_reserve_one_spec v h Hv) as H. unfold idx_vec_push, idx_vec_push_uninit.
  destruct (idx_vec_reserve _ _ _) as [[[[]|s] vec'] h']; destruct H as (v' & -> & Hv' & Hd & He & H).
  - destruct H as [H1 H2]. eexists. split; [done|]. unfold vec_ok, size in *. simpl.
    rewrite Hd in *. rewrite insert_app_r_alt, Nat.sub_diag by lia. simpl. rewrite length_app. simpl.
    split_and!; try lia. done.
  - destruct H as [-> H]. by exists v.
Qed.
End vec.

(** ** Properties *)

(** Pushing is list append, and popping undoes it: a push either adds the
    element at the end, where [idx_vec_at] finds it and [idx_vec_pop] takes it
    off again leaving the elements there were, or it changes nothing and says
    why; the elements stay within an allocation whose size in bytes is a
    [size_t]. *)
Theorem vec_push_pop {V} (garbage : V) v x h :
  vec_ok v ->
  let '(r, vec', h') := idx_vec_push garbage (Some v) (Some x) h in
  exists v', vec' = Some v' /\ vec_ok v' /\
    match r with
    | Ok _ =>
        vec_data v' = vec_data v ++ [x] /\
        idx_vec_at vec' (length (vec_data v)) = Some x /\
        (forall i, (i < length (vec_data v))%nat -> idx_vec_at vec' i = vec_data v !! i) /\
        (forall i, (length (vec_data v) < i)%nat -> idx_vec_at vec' i = None) /\
        exists v'', idx_vec_pop vec' = (Some x, Some v'') /\ vec_data v'' = vec_data v /\ vec_ok v''
    | Err s => v' = v /\ push_failure v h h' s
    end.
Proof.
  intros Hv. pose proof (vec_push_ok garbage v x h Hv) as H.
  destruct (idx_vec_push _ _ _ _) as [[[[]|s] vec'] h']; destruct H as (v' & -> & Hv' & H); exists v';
    (split; [done|]); (split; [done|]); [|done].
  assert (length (vec_data v') = S (length (vec_data v))) as Hlen by (rewrite H, length_app; simpl; lia).
  split; [done|]. unfold idx_vec_at, idx_vec_pop. rewrite Hlen, H. split_and!.
  - rewrite (proj2 (Nat.leb_gt _ _)) by lia. rewrite lookup_app_r, Nat.sub_diag by lia. done.
  - intros i Hi. rewrite (proj2 (Nat.leb_gt _ _)) by lia. by rewrite lookup_app_l.
  - intros i Hi. by rewrite (proj2 (Nat.leb_le _ _)) by lia.
  - simpl. rewrite Nat.sub_0_r. eexists. rewrite lookup_app_r, Nat.sub_diag by lia. split; [done|].
    rewrite take_app_length. split; [done|]. destruct Hv' as (He & Hs & Hc). unfold vec_ok, size in *. simpl.
    split_and!; auto; lia.
Qed.

(** ** Witnesses *)

Lemma vec_push_pop_witness :
  exists v', (idx_vec_push 0 (Some (Vec [5; 6] 2 8)) (Some 7) []).1.2 = Some v' /\ vec_ok v' /\
    vec_data v' = [5; 6; 7] /\ vec_capacity v' = 4.
Proof.
  destruct (vec_push_pop 0 (Vec [5; 6] 2 8) 7 []) as (v' & E & H1 & H2 & _).
  - by vm_compute.
  - exists v'. split_and!; [exact E|exact H1|exact H2|]. injection E as <-. reflexivity.
Defined.
