(* ===== verification/Map.v ===== *)
(** * map.c: the open-addressing hash map

    Linear probing with tombstones over a power-of-two table, as the source
    writes it: entries with an inline or a heap key, FNV-1a hashes, a load limit
    of three quarters, rebuilds that double only on genuine occupancy.

    [contents] abstracts a table to a finite map.  [map_core] is the invariant
    that makes lookups right; every operation keeps it, whatever the allocator
    does.  [map_ok] adds that the tombstone counter is exact and the load limit
    holds, which is what makes insertion succeed; it survives everything but a
    failed copy of a long key. *)

From S2P Require Import Prelude Bytes.
#[local] Open Scope Z_scope.

(** src/src/map.c:12-16 [SLOT_EMPTY] *)
Inductive slot_state := SLOT_EMPTY | SLOT_OCCUPIED | SLOT_TOMBSTONE.

#[export] Instance slot_state_eq_dec : EqDecision slot_state.
Proof. solve_decision. Defined.

(** src/include/map.h:20-20 [IDX_MAP_INLINE_KEY] *)
Definition IDX_MAP_INLINE_KEY : Z := 32.

(** src/src/map.c:6-6 [IDX_MAP_MIN_CAPACITY] *)
Definition IDX_MAP_MIN_CAPACITY : Z := 16.

(** src/src/map.c:9-9 [IDX_MAP_LOAD_NUMERATOR] *)
Definition IDX_MAP_LOAD_NUMERATOR : Z := 3.

(** src/src/map.c:10-10 [IDX_MAP_LOAD_DENOMINATOR] *)
Definition IDX_MAP_LOAD_DENOMINATOR : Z := 4.

(** [sizeof(idx_map_entry)] on a 64-bit target. *)
Definition sizeof_entry : Z := 72.

(** src/src/map.c:19-26 [hash_bytes]: FNV-1a, 64 bits. *)
Definition hash_bytes (key : bytes) : Z :=
  foldl (fun hash b => u64 (Z.lxor hash b * 1099511628211)) 1469598103934665603 key.

Section map.
Context {V : Type}.

(** src/include/map.h:22-29 [idx_map_entry]; a [void *] is [option V], [None]
    being the null pointer. *)
Record idx_map_entry := Entry {
  state : slot_state;
  hash : Z;
  key_len : Z;
  inline_key : bytes;
  heap_key : option bytes;
  value : option V
}.

(** An entry of a zeroed table. *)
Definition zero_entry : idx_map_entry := Entry SLOT_EMPTY 0 0 (replicate 32 0) None None.

#[global] Instance idx_map_entry_inhabited : Inhabited idx_map_entry := populate zero_entry.

(** src/include/map.h:31-36 [idx_map] *)
Record idx_map := Map {
  entries : list idx_map_entry;
  capacity : Z;
  count : Z;
  tombstones : Z
}.

(** src/src/map.c:28-31 [entry_key]: the memory the key is in. *)
Definition entry_key (e : idx_map_entry) : bytes :=
  if IDX_MAP_INLINE_KEY <? key_len e then default [] (heap_key e) else inline_key e.

(** src/src/map.c:33-43 [entry_matches] *)
Definition entry_matches (e : idx_map_entry) (key : bytes) (h : Z) : bool :=
  if negb (bool_decide (state e = SLOT_OCCUPIED)) || negb (hash e =? h)
     || negb (key_len e =? size key) then false
  else if size key =? 0 then true
  else bool_decide (take (length key) (entry_key e) = key).

(** src/src/map.c:45-50 [entry_release_key] *)
Definition entry_release_key (e : idx_map_entry) : idx_map_entry :=
  Entry (state e) (hash e) (key_len e) (inline_key e) None (value e).

(** src/src/map.c:52-68 [entry_store_key] *)
Definition entry_store_key (e : idx_map_entry) (key : bytes) (h : heap)
    : result unit * idx_map_entry * heap :=
  if IDX_MAP_INLINE_KEY <? size key then
    let '(ok, h') := malloc h in
    if ok then
      (Ok tt, Entry (state e) (hash e) (size key) (inline_key e) (Some key) (value e), h')
    else
      (IDX_FAIL IDX_ERR_NO_MEMORY,
       Entry (state e) (hash e) (size key) (inline_key e) None (value e), h')
  else
    (Ok tt, Entry (state e) (hash e) (size key)
              (key ++ drop (length key) (inline_key e)) None (value e), h).

(** src/src/map.c:70-78 [idx_map_init] *)
Definition idx_map_init : idx_map := Map [] 0 0 0.

(** src/src/map.c:91-115 [find_slot]: the probe loop, at most [capacity]
    rounds. *)
Fixpoint probe (rounds : nat) (ents : list idx_map_entry) (mask : Z) (key : bytes) (h : Z)
    (for_insert : bool) (index : Z) (first_tombstone : option Z) : option Z :=
  match rounds with
  | O => if for_insert then first_tombstone else None
  | S rounds' =>
      let entry := ents !!! Z.to_nat index in
      let next := Z.land (index + 1) mask in
      match state entry with
      | SLOT_EMPTY =>
          if for_insert then Some (default index first_tombstone) else None
      | SLOT_TOMBSTONE =>
          probe rounds' ents mask key h for_insert next
            (match first_tombstone with None => Some index | t => t end)
      | SLOT_OCCUPIED =>
          if entry_matches entry key h then Some index
          else probe rounds' ents mask key h for_insert next first_tombstone
      end
  end.

(** src/src/map.c:85-116 [find_slot]: a slot is the index of its entry. *)
Definition find_slot (m : idx_map) (key : bytes) (h : Z) (for_insert : bool) : option Z :=
  if capacity m =? 0 then None
  else
    let mask := capacity m - 1 in
    probe (Z.to_nat (capacity m)) (entries m) mask key h for_insert (Z.land h mask) None.

(** src/src/map.c:135-144 [rehash]: one old entry moved into the new table.  The
    source dereferences the slot it finds; [rehash_slot_found] proves there is
    always one. *)
Definition rehash_entry (rebuilt : idx_map) (old : idx_map_entry) : idx_map :=
  if bool_decide (state old = SLOT_OCCUPIED) then
    let key := take (Z.to_nat (key_len old)) (entry_key old) in
    match find_slot rebuilt key (hash old) true with
    | Some slot =>
        Map (<[Z.to_nat slot := old]> (entries rebuilt)) (capacity rebuilt)
            (u64 (count rebuilt + 1)) (tombstones rebuilt)
    | None => rebuilt
    end
  else rebuilt.

(** src/src/map.c:118-152 [rehash] *)
Definition rehash (m : idx_map) (new_capacity : Z) (h : heap) : result unit * idx_map * heap :=
  let '(ok, h') := calloc new_capacity sizeof_entry h in
  if ok then
    let empty := Map (replicate (Z.to_nat new_capacity) zero_entry) new_capacity 0 0 in
    let rebuilt := foldl rehash_entry empty (entries m) in
    (Ok tt, Map (entries rebuilt) (capacity rebuilt) (count rebuilt) 0, h')
  else (IDX_FAIL IDX_ERR_NO_MEMORY, m, h').

(** src/src/map.c:154-176 [ensure_room] *)
Definition ensure_room (m : idx_map) (h : heap) : result unit * idx_map * heap :=
  if capacity m =? 0 then rehash m IDX_MAP_MIN_CAPACITY h
  else
    let used := u64 (count m + tombstones m) in
    if u64 (used * IDX_MAP_LOAD_DENOMINATOR) <? u64 (capacity m * IDX_MAP_LOAD_NUMERATOR)
    then (Ok tt, m, h)
    else
      let target := capacity m in
      if u64 (capacity m * IDX_MAP_LOAD_NUMERATOR) <=? u64 (count m * IDX_MAP_LOAD_DENOMINATOR)
      then
        if SIZE_MAX / 2 <? target then (IDX_FAIL IDX_ERR_RANGE, m, h)
        else rehash m (target * 2) h
      else rehash m target h.

(** [slot->value = value] and the like: one entry of the table replaced. *)
Definition set_entry (m : idx_map) (slot : Z) (e : idx_map_entry) : idx_map :=
  Map (<[Z.to_nat slot := e]> (entries m)) (capacity m) (count m) (tombstones m).

(** src/src/map.c:178-206 [idx_map_put] *)
Definition idx_map_put (map : option idx_map) (key : bytes) (v : option V) (h : heap)
    : result unit * option idx_map * heap :=
  match map with
  | None => (IDX_FAIL IDX_ERR_INVALID_ARG, None, h)
  | Some m0 =>
      match ensure_room m0 h with
      | (Err s, m, h) => (Err s, Some m, h)
      | (Ok _, m, h) =>
          let hsh := hash_bytes key in
          match find_slot m key hsh true with
          | None => (IDX_FAIL IDX_ERR_INTERNAL, Some m, h)
          | Some slot =>
              let e := entries m !!! Z.to_nat slot in
              if bool_decide (state e = SLOT_OCCUPIED) then
                (Ok tt, Some (set_entry m slot (Entry (state e) (hash e) (key_len e)
                                                  (inline_key e) (heap_key e) v)), h)
              else
                let tombs := if bool_decide (state e = SLOT_TOMBSTONE)
                             then u64 (tombstones m - 1) else tombstones m in
                let m := Map (entries m) (capacity m) (count m) tombs in
                match entry_store_key e key h with
                | (Err s, e', h) => (Err s, Some (set_entry m slot e'), h)
                | (Ok _, e', h) =>
                    let m := set_entry m slot (Entry SLOT_OCCUPIED hsh (key_len e')
                                                 (inline_key e') (heap_key e') v) in
                    (Ok tt, Some (Map (entries m) (capacity m) (u64 (count m + 1)) (tombstones m)), h)
                end
          end
      end
  end.

(** src/src/map.c:208-220 [idx_map_get]: [None] when the key is absent, and
    otherwise what [*out_value] receives. *)
Definition idx_map_get (map : option idx_map) (key : bytes) : option (option V) :=
  match map with
  | None => None
  | Some m =>
      slot ← find_slot m key (hash_bytes key) false;
      Some (value (entries m !!! Z.to_nat slot))
  end.

(** src/src/map.c:222-224 [idx_map_contains] *)
Definition idx_map_contains (map : option idx_map) (key : bytes) : bool :=
  bool_decide (is_Some (idx_map_get map key)).

(** src/src/map.c:226-242 [idx_map_remove] *)
Definition idx_map_remove (map : option idx_map) (key : bytes) : bool * option idx_map :=
  match map with
  | None => (false, None)
  | Some m =>
      match find_slot m key (hash_bytes key) false with
      | None => (false, Some m)
      | Some slot =>
          let e := entry_release_key (entries m !!! Z.to_nat slot) in
          let m := set_entry m slot
                     (Entry SLOT_TOMBSTONE (hash e) 0 (inline_key e) (heap_key e) None) in
          (true, Some (Map (entries m) (capacity m) (u64 (count m - 1)) (u64 (tombstones m + 1))))
      end
  end.

(** src/src/map.c:244-246 [idx_map_count] *)
Definition idx_map_count (map : option idx_map) : Z :=
  match map with Some m => count m | None => 0 end.

(** src/src/map.c:248-260 [idx_map_clear]: the table before the first insert has
    null [entries] and is left alone. *)
Definition idx_map_clear (map : option idx_map) : option idx_map :=
  match map with
  | None => None
  | Some m =>
      if bool_decide (entries m = []) then Some m
      else Some (Map (replicate (Z.to_nat (capacity m)) zero_entry) (capacity m) 0 0)
  end.

(** src/src/map.c:262-269 [idx_map_free] *)
Definition idx_map_free (map : option idx_map) : option idx_map :=
  match map with None => None | Some _ => Some idx_map_init end.

(** src/src/map.c:276-290 [idx_map_next]: the scan from [*cursor]. *)
Fixpoint next_loop (rounds : nat) (ents : list idx_map_entry) (i : nat)
    : option (nat * bytes * option V) :=
  match rounds with
  | O => None
  | S rounds' =>
      let e := ents !!! i in
      if bool_decide (state e = SLOT_OCCUPIED)
      then Some (S i, take (Z.to_nat (key_len e)) (entry_key e), value e)
      else next_loop rounds' ents (S i)
  end.

(** src/src/map.c:271-291 [idx_map_next]: the new cursor, the key and the
    value, or [None] when the scan is over. *)
Definition idx_map_next (map : option idx_map) (cursor : nat) : option (nat * bytes * option V) :=
  match map with
  | None => None
  | Some m => next_loop (Z.to_nat (capacity m) - cursor) (entries m) cursor
  end.

(** The documented loop [while (idx_map_next(&map, &cursor, &key, &value))],
    collecting what it is given; [None] when [fuel] rounds do not end it. *)
Fixpoint map_iterate (fuel : nat) (map : option idx_map) (cursor : nat)
    : option (list (bytes * option V)) :=
  match fuel with
  | O => None
  | S fuel' =>
      match idx_map_next map cursor with
      | None => Some []
      | Some (cursor', k, v) => cons (k, v) <$> map_iterate fuel' map cursor'
      end
  end.

(** ** The abstraction and the invariants *)

Definition occupied (e : idx_map_entry) : Prop := state e = SLOT_OCCUPIED.

#[global] Instance occupied_dec e : Decision (occupied e).
Proof. unfold occupied. apply _. Defined.

(** The key of an entry. *)
Definition ekey (e : idx_map_entry) : bytes := take (Z.to_nat (key_len e)) (entry_key e).

(** The entries in use, as key/value pairs in table order. *)
Definition bindings (ents : list idx_map_entry) : list (bytes * option V) :=
  omap (fun e => if decide (occupied e) then Some (ekey e, value e) else None) ents.

(** The finite map a table stands for. *)
Definition table_map (ents : list idx_map_entry) : gmap bytes (option V) :=
  list_to_map (bindings ents).

Definition contents (m : idx_map) : gmap bytes (option V) := table_map (entries m).

(** How many entries are in a given state. *)
Definition n_state (s : slot_state) (ents : list idx_map_entry) : Z :=
  size (filter (fun e => state e = s) ents).

(** The [d]-th slot of the probe sequence of a hash. *)
Definition slot_at (ents : list idx_map_entry) (h d : Z) : idx_map_entry :=
  ents !!! Z.to_nat ((h + d) mod size ents).

(** The first [d] slots of a probe sequence do not stop a search. *)
Definition reach (ents : list idx_map_entry) (h d : Z) : Prop :=
  forall d', 0 <= d' < d -> state (slot_at ents h d') <> SLOT_EMPTY.

Definition entry_ok (e : idx_map_entry) : Prop :=
  length (inline_key e) = 32%nat /\
  (occupied e -> key_len e = size (ekey e) /\ hash e = hash_bytes (ekey e)).

(** Every entry in use is where a search for its key finds it. *)
Definition findable (ents : list idx_map_entry) : Prop :=
  forall i e, ents !! i = Some e -> occupied e ->
  exists d, 0 <= d < size ents /\ Z.of_nat i = (hash e + d) mod size ents /\
            reach ents (hash e) d.

(** No key is stored twice. *)
Definition unique_keys (ents : list idx_map_entry) : Prop :=
  forall i j e1 e2, ents !! i = Some e1 -> ents !! j = Some e2 ->
  occupied e1 -> occupied e2 -> ekey e1 = ekey e2 -> i = j.

Definition table_ok (ents : list idx_map_entry) : Prop :=
  Forall entry_ok ents /\ findable ents /\ unique_keys ents.

(** A table size: a power of two of at least 16 entries that fits in memory. *)
Definition capacity_ok (n : Z) : Prop :=
  (exists k, 4 <= k /\ n = 2 ^ k) /\ n * sizeof_entry <= SIZE_MAX.

Definition map_core (m : idx_map) : Prop :=
  table_ok (entries m) /\ capacity m = size (entries m) /\
  (capacity m = 0 \/ capacity_ok (capacity m)) /\
  count m = n_state SLOT_OCCUPIED (entries m) /\ is_u64 (tombstones m).

Definition map_ok (m : idx_map) : Prop :=
  map_core m /\ tombstones m = n_state SLOT_TOMBSTONE (entries m) /\
  4 * (count m + tombstones m) < 3 * capacity m + 4.

End map.
Arguments idx_map_entry : clear implicits.
Arguments idx_map : clear implicits.

Section proofs.
Context {V : Type}.
Implicit Types (m : idx_map V) (e : idx_map_entry V) (ents : list (idx_map_entry V)).

(** ** Counting *)

Lemma n_state_insert s ents i old e :
  ents !! i = Some old ->
  n_state s (<[i := e]> ents) + (if decide (state old = s) then 1 else 0)
    = n_state s ents + (if decide (state e = s) then 1 else 0).
Proof.
  intros Hi. unfold n_state, size.
  rewrite (insert_take_drop _ _ _ (lookup_lt_Some _ _ _ Hi)).
  assert (filter (fun e => state e = s) ents =
          filter (fun e => state e = s) (take i ents ++ old :: drop (S i) ents)) as ->
    by (by rewrite (take_drop_middle _ _ _ Hi)).
  rewrite !filter_app, !filter_cons, !length_app.
  repeat case_decide; simpl length in *; lia.
Qed.

Lemma n_state_nonneg s ents : 0 <= n_state s ents.
Proof. unfold n_state, size. lia. Qed.

Lemma n_state_sum ents :
  n_state SLOT_EMPTY ents + n_state SLOT_OCCUPIED ents + n_state SLOT_TOMBSTONE ents = size ents.
Proof.
  unfold n_state, size. induction ents as [|e ents IH]; [done|].
  rewrite !filter_cons. destruct (state e); simpl; lia.
Qed.

Lemma n_state_pos s ents i e :
  ents !! i = Some e -> state e = s -> 0 < n_state s ents.
Proof.
  intros Hi He. assert (e ∈ filter (fun e => state e = s) ents) as Hin.
  { apply list_elem_of_filter. split; [done|]. by eapply list_elem_of_lookup_2. }
  unfold n_state, size. destruct (filter _ ents); [by apply not_elem_of_nil in Hin|].
  simpl. lia.
Qed.

Lemma n_state_insert_none s ents i old e :
  ents !! i = Some old -> n_state s ents = 0 -> state e <> s ->
  n_state s (<[i := e]> ents) = 0.
Proof.
  intros Hi H0 He. pose proof (n_state_insert s ents i old e Hi) as Hn.
  rewrite (decide_False (P := state e = s)) in Hn by done. pose proof (n_state_nonneg s (<[i:=e]> ents)).
  case_decide; lia.
Qed.

Lemma n_state_exists s ents : 0 < n_state s ents -> exists i e, ents !! i = Some e /\ state e = s.
Proof.
  unfold n_state, size. destruct (filter _ ents) as [|e l] eqn:E; [simpl; lia|]. intros _.
  assert (e ∈ filter (fun e => state e = s) ents) as Hin by (rewrite E; left).
  apply list_elem_of_filter in Hin as [He Hin]. apply list_elem_of_lookup in Hin as [i Hi].
  by exists i, e.
Qed.

Lemma n_state_replicate s k :
  n_state s (replicate k (zero_entry (V:=V))) = if decide (s = SLOT_EMPTY) then Z.of_nat k else 0.
Proof.
  unfold n_state, size. induction k as [|k IH]; [by destruct s|].
  simpl replicate. rewrite filter_cons. destruct s; simpl in *; lia.
Qed.

(** ** Entries *)

Lemma entry_matches_iff e key :
  entry_ok e -> entry_matches e key (hash_bytes key) = true <-> occupied e /\ ekey e = key.
Proof.
  intros [_ Hok]. unfold entry_matches.
  case_bool_decide as Hocc; simpl; [|split; [done|intros [? _]; done]].
  destruct (Hok Hocc) as [Hlen Hh].
  destruct (hash e =? hash_bytes key) eqn:E1; simpl.
  2: { split; [done|]. intros [_ <-]. apply Z.eqb_neq in E1. congruence. }
  destruct (key_len e =? size key) eqn:E2; simpl.
  2: { split; [done|]. intros [_ <-]. apply Z.eqb_neq in E2. congruence. }
  apply Z.eqb_eq in E2. unfold ekey in *. rewrite E2 in *.
  assert (Z.to_nat (size key) = length key) as Hn by (unfold size; lia). rewrite Hn in *.
  destruct (size key =? 0) eqn:E3.
  - apply Z.eqb_eq in E3. unfold size in E3. destruct key; [by rewrite take_0|simpl in E3; lia].
  - rewrite bool_decide_eq_true. tauto.
Qed.

(** ** Probe sequences *)

Lemma mask_mod n x : capacity_ok n -> Z.land x (n - 1) = x mod n.
Proof.
  intros [(k & Hk & ->) _]. rewrite <- Z.land_ones by lia. by rewrite Z.ones_equiv.
Qed.

Lemma capacity_pos n : capacity_ok n -> 16 <= n < 2 ^ 58.
Proof.
  intros [(k & Hk & ->) Hm]. unfold sizeof_entry, SIZE_MAX in Hm.
  assert (2 ^ 4 <= 2 ^ k) by (apply Z.pow_le_mono_r; lia). lia.
Qed.

Lemma slot_at_lookup ents h d :
  0 < size ents -> ents !! Z.to_nat ((h + d) mod size ents) = Some (slot_at ents h d).
Proof.
  intros Hn. unfold slot_at. apply list_lookup_lookup_total_lt.
  pose proof (Z.mod_pos_bound (h + d) (size ents) Hn). unfold size in *. lia.
Qed.

(** Every slot is on every probe sequence. *)
Lemma slot_index ents h i :
  0 <= i < size ents -> exists d, 0 <= d < size ents /\ i = (h + d) mod size ents.
Proof.
  intros Hi. exists ((i - h) mod size ents). split; [apply Z.mod_pos_bound; lia|].
  rewrite Z.add_mod_idemp_r by lia. rewrite Z.mod_small; lia.
Qed.

(** An entry of the table holds the key. *)
Definition holds e (key : bytes) : Prop := occupied e /\ ekey e = key.

(** The key is not met before the first empty slot of its probe sequence. *)
Definition unreachable ents (key : bytes) (h : Z) : Prop :=
  forall d, 0 <= d < size ents -> reach ents h d -> ~ holds (slot_at ents h d) key.

(** A remembered tombstone was met within the first [d] probes. *)
Definition tombstone_seen ents (h d : Z) (ft : option Z) : Prop :=
  match ft with
  | None => True
  | Some t => exists d', 0 <= d' < d /\ t = (h + d') mod size ents /\
                         state (slot_at ents h d') = SLOT_TOMBSTONE
  end.

(** What a search returns. *)
Definition probe_post ents (key : bytes) (h : Z) (for_insert : bool) (r : option Z) : Prop :=
  match r with
  | Some i =>
      exists d, 0 <= d < size ents /\ i = (h + d) mod size ents /\ reach ents h d /\
        (holds (slot_at ents h d) key \/
         for_insert = true /\ unreachable ents key h /\ ~ occupied (slot_at ents h d))
  | None =>
      unreachable ents key h /\ (for_insert = true -> n_state SLOT_EMPTY ents = 0)
  end.

Lemma reach_step ents h d :
  reach ents h d -> state (slot_at ents h d) <> SLOT_EMPTY -> reach ents h (d + 1).
Proof.
  intros Hr Hs d' Hd'. destruct (decide (d' = d)) as [->|]; [done|]. apply Hr. lia.
Qed.

Lemma reach_mono ents h d1 d2 : d1 <= d2 -> reach ents h d2 -> reach ents h d1.
Proof. intros Hle Hr d' Hd'. apply Hr. lia. Qed.

Lemma reach_all_no_empty ents h :
  0 < size ents -> reach ents h (size ents) -> n_state SLOT_EMPTY ents = 0.
Proof.
  intros Hn Hr. pose proof (n_state_nonneg SLOT_EMPTY ents).
  destruct (decide (n_state SLOT_EMPTY ents = 0)) as [|Hne]; [done|exfalso].
  destruct (n_state_exists SLOT_EMPTY ents) as (i & e & Hi & He); [lia|].
  pose proof (lookup_lt_Some _ _ _ Hi) as Hlt.
  destruct (slot_index ents h (Z.of_nat i)) as (d & Hd & Hid); [unfold size; lia|].
  apply (Hr d Hd). unfold slot_at. rewrite <- Hid, Nat2Z.id.
  by rewrite (list_lookup_total_correct _ _ _ Hi).
Qed.

(** A remembered tombstone is a right answer once the key is known absent. *)
Lemma tombstone_post ents key h d t :
  d <= size ents -> reach ents h d -> unreachable ents key h ->
  tombstone_seen ents h d (Some t) -> probe_post ents key h true (Some t).
Proof.
  intros Hd Hr Hun (d' & Hd' & -> & Hs). exists d'. split_and!; [lia|lia|done| |].
  { by eapply reach_mono; [|exact Hr]; lia. }
  right. split_and!; auto. unfold occupied. congruence.
Qed.

Lemma not_holds_step ents h d key :
  (forall d', 0 <= d' < d -> ~ holds (slot_at ents h d') key) ->
  ~ holds (slot_at ents h d) key ->
  forall d', 0 <= d' < d + 1 -> ~ holds (slot_at ents h d') key.
Proof.
  intros Hno Hn d' Hd'. destruct (decide (d' = d)) as [->|]; [done|]. apply Hno. lia.
Qed.

Lemma tombstone_seen_step ents h d ft :
  tombstone_seen ents h d ft -> tombstone_seen ents h (d + 1) ft.
Proof.
  destruct ft as [t|]; [|done]. intros (d' & ? & ?). exists d'. split; [lia|done].
Qed.

Lemma not_occupied_not_holds e key : state e <> SLOT_OCCUPIED -> ~ holds e key.
Proof. intros Hs [Ho _]. done. Qed.

Lemma unreachable_at_empty ents key h d :
  0 <= d -> state (slot_at ents h d) = SLOT_EMPTY ->
  (forall d', 0 <= d' < d -> ~ holds (slot_at ents h d') key) -> unreachable ents key h.
Proof.
  intros Hd Hs Hno d' Hd' Hr'. destruct (decide (d' < d)) as [|Hge]; [by apply Hno; lia|].
  destruct (decide (d' = d)) as [->|]; [apply not_occupied_not_holds; congruence|].
  exfalso. apply (Hr' d); [lia|done].
Qed.

Lemma slot_at_ok ents h d : Forall entry_ok ents -> 0 < size ents -> entry_ok (slot_at ents h d).
Proof.
  intros Hok Hn. rewrite Forall_forall in Hok. apply Hok.
  eapply list_elem_of_lookup_2. by apply slot_at_lookup.
Qed.

Lemma probe_correct rounds ents key fi d ft :
  let h := hash_bytes key in
  Forall entry_ok ents -> capacity_ok (size ents) ->
  0 <= d -> Z.of_nat rounds + d = size ents -> reach ents h d ->
  (forall d', 0 <= d' < d -> ~ holds (slot_at ents h d') key) ->
  tombstone_seen ents h d ft ->
  probe_post ents key h fi
    (probe rounds ents (size ents - 1) key h fi ((h + d) mod size ents) ft).
Proof.
  intros h Hok Hcap. pose proof (capacity_pos _ Hcap) as Hn.
  revert d ft. induction rounds as [|rounds IH]; intros d ft Hd Hrd Hr Hno Hft; cbn [probe].
  { assert (d = size ents) as -> by lia.
    pose proof (reach_all_no_empty ents h ltac:(lia) Hr) as Hempty.
    assert (unreachable ents key h) as Hun by (intros d' Hd' _; by apply Hno).
    destruct fi, ft as [t|]; try by split.
    by apply (tombstone_post ents key h (size ents) t). }
  change (ents !!! Z.to_nat ((h + d) mod size ents)) with (slot_at ents h d).
  assert (Z.land ((h + d) mod size ents + 1) (size ents - 1) = (h + (d + 1)) mod size ents) as ->.
  { rewrite mask_mod by done. rewrite Z.add_mod_idemp_l by lia. f_equal. lia. }
  pose proof (slot_at_ok ents h d Hok ltac:(lia)) as Hent.
  destruct (state (slot_at ents h d)) eqn:Hs.
  - pose proof (unreachable_at_empty ents key h d Hd Hs Hno) as Hun.
    destruct fi; [|by split]. destruct ft as [t|]; simpl default.
    + eapply tombstone_post; eauto. lia.
    + exists d. split_and!; [lia|lia|done|done|]. right. split_and!; auto.
      unfold occupied. congruence.
  - destruct (entry_matches (slot_at ents h d) key h) eqn:Hm.
    + apply entry_matches_iff in Hm; [|done]. exists d. split_and!; [lia|lia|done|done|].
      by left.
    + apply IH; [lia|lia|apply reach_step; [done|by rewrite Hs]| |by apply tombstone_seen_step].
      apply not_holds_step; [done|]. intros Hh. apply entry_matches_iff in Hh; [|done].
      fold h in Hh. congruence.
  - apply IH; [lia|lia|apply reach_step; [done|by rewrite Hs]| |].
    + apply not_holds_step; [done|]. apply not_occupied_not_holds. by rewrite Hs.
    + destruct ft as [t|]; [by apply (tombstone_seen_step ents h d (Some t))|].
      exists d. split; [lia|done].
Qed.

(** A search of a well-formed table. *)
Lemma find_slot_correct m key fi :
  map_core m -> capacity m <> 0 ->
  probe_post (entries m) key (hash_bytes key) fi (find_slot m key (hash_bytes key) fi).
Proof.
  intros ((Hok & _ & _) & Hcap & Hc & _) Hne. destruct Hc as [|Hc]; [done|].
  unfold find_slot. destruct (capacity m =? 0) eqn:E; [apply Z.eqb_eq in E; done|].
  rewrite Hcap in *. rewrite mask_mod by done.
  pose proof (capacity_pos _ Hc) as Hn.
  assert (hash_bytes key mod size (entries m) = (hash_bytes key + 0) mod size (entries m)) as ->
    by (f_equal; lia).
  apply probe_correct; auto.
  - lia.
  - unfold size. lia.
  - intros d' Hd'. lia.
  - intros d' Hd'. lia.
  - done.
Qed.

(** A key that is in the table is reachable. *)
Lemma findable_reachable ents i e :
  table_ok ents -> ents !! i = Some e -> occupied e ->
  ~ unreachable ents (ekey e) (hash_bytes (ekey e)).
Proof.
  intros (Hok & Hfind & _) Hi Ho Hun.
  destruct (Hfind i e Hi Ho) as (d & Hd & Hid & Hr).
  pose proof (Forall_lookup_1 _ _ _ _ Hok Hi) as [_ He]. destruct (He Ho) as [_ Hh].
  rewrite Hh in *. apply (Hun d Hd Hr). unfold slot_at. rewrite <- Hid, Nat2Z.id.
  by rewrite (list_lookup_total_correct _ _ _ Hi).
Qed.

(** ** Bindings *)

Lemma elem_of_bindings ents k v :
  (k, v) ∈ bindings ents <-> exists i e, ents !! i = Some e /\ holds e k /\ value e = v.
Proof.
  unfold bindings. rewrite list_elem_of_omap. split.
  - intros (e & Hin & He). apply list_elem_of_lookup in Hin as [i Hi].
    case_decide; [|done]. injection He as <- <-. by exists i, e.
  - intros (i & e & Hi & [Ho <-] & <-). exists e. split; [by eapply list_elem_of_lookup_2|].
    by rewrite decide_True.
Qed.

Lemma bindings_nodup ents : unique_keys ents -> NoDup (bindings ents).*1.
Proof.
  induction ents as [|e ents IH]; intros Hu; [by constructor|].
  assert (unique_keys ents) as Hu'.
  { intros i j e1 e2 H1 H2 Ho1 Ho2 Hk.
    assert (S i = S j) as Heq by (by eapply (Hu (S i) (S j))). lia. }
  unfold bindings in *. simpl. case_decide as Ho; simpl; [|by apply IH].
  constructor; [|by apply IH]. intros Hin. apply list_elem_of_fmap in Hin as ([k v] & Hk & Hin).
  simpl in Hk. apply elem_of_bindings in Hin as (i & e' & Hi & [Ho' Hk'] & _).
  assert (0%nat = S i) as Heq by (eapply (Hu 0%nat (S i) e e'); auto; congruence). lia.
Qed.

Lemma table_map_lookup ents k v :
  unique_keys ents ->
  table_map ents !! k = Some v <-> exists i e, ents !! i = Some e /\ holds e k /\ value e = v.
Proof.
  intros Hu. unfold table_map. rewrite <- elem_of_list_to_map by (by apply bindings_nodup).
  apply elem_of_bindings.
Qed.

Lemma table_map_eq ents g :
  unique_keys ents ->
  (forall k v, (exists i e, ents !! i = Some e /\ holds e k /\ value e = v) <-> g !! k = Some v) ->
  table_map ents = g.
Proof.
  intros Hu H. apply map_eq. intros k. apply option_eq. intros v.
  rewrite table_map_lookup by done. apply H.
Qed.

(** ** Replacing one entry *)

(** No other entry holds the key. *)
Definition alone ents (i : nat) (key : bytes) : Prop :=
  forall j e, j <> i -> ents !! j = Some e -> ~ holds e key.

Lemma reach_insert ents i old e h d :
  ents !! i = Some old -> (state e = SLOT_EMPTY -> state old = SLOT_EMPTY) ->
  reach ents h d -> reach (<[i := e]> ents) h d.
Proof.
  intros Hi He Hr d' Hd'. specialize (Hr d' Hd').
  pose proof (lookup_lt_Some _ _ _ Hi) as Hlt. revert Hr. unfold slot_at, size.
  rewrite length_insert. set (j := Z.to_nat _).
  destruct (decide (i = j)) as [<-|Hne].
  - rewrite list_lookup_total_insert_eq by done.
    rewrite (list_lookup_total_correct _ _ _ Hi). tauto.
  - by rewrite list_lookup_total_insert_ne.
Qed.

Lemma table_set_ok ents i old e :
  table_ok ents -> ents !! i = Some old -> entry_ok e ->
  (state e = SLOT_EMPTY -> state old = SLOT_EMPTY) ->
  (occupied e -> alone ents i (ekey e) /\
     exists d, 0 <= d < size ents /\ Z.of_nat i = (hash e + d) mod size ents /\
               reach ents (hash e) d) ->
  table_ok (<[i := e]> ents).
Proof.
  intros (Hok & Hfind & Hu) Hi He Hemp Hocc.
  pose proof (lookup_lt_Some _ _ _ Hi) as Hlt. split_and!.
  - by apply Forall_insert.
  - intros j e' Hj Ho. unfold size. rewrite length_insert. fold (size ents).
    apply list_lookup_insert_Some in Hj as [(<- & -> & _)|[Hne Hj]].
    + destruct (Hocc Ho) as [_ (d & Hd & Hid & Hr)]. exists d. split_and!; [lia..|done|].
      by eapply reach_insert.
    + destruct (Hfind j e' Hj Ho) as (d & Hd & Hid & Hr). exists d. split_and!; [lia..|done|].
      by eapply reach_insert.
  - intros j1 j2 e1 e2 H1 H2 Ho1 Ho2 Hk.
    apply list_lookup_insert_Some in H1 as [(<- & <- & _)|[Hne1 H1]];
      apply list_lookup_insert_Some in H2 as [(<- & <- & _)|[Hne2 H2]];
      [done| | |by eapply Hu].
    + exfalso. destruct (Hocc Ho1) as [Ha _]. apply (Ha j2 e2); [congruence|done|]. by split.
    + exfalso. destruct (Hocc Ho2) as [Ha _]. apply (Ha j1 e1); [congruence|done|]. by split.
Qed.

Lemma table_map_set_occupied ents i old e k :
  unique_keys ents -> unique_keys (<[i := e]> ents) -> ents !! i = Some old -> holds e k ->
  alone ents i k -> (occupied old -> ekey old = k) ->
  table_map (<[i := e]> ents) = <[k := value e]> (table_map ents).
Proof.
  intros Hu Hu' Hi [Ho Hk] Ha Hold. pose proof (lookup_lt_Some _ _ _ Hi) as Hlt.
  apply table_map_eq; [done|]. intros k' v. rewrite lookup_insert_Some, table_map_lookup by done.
  split.
  - intros (j & e' & Hj & [Ho' <-] & <-).
    apply list_lookup_insert_Some in Hj as [(<- & <- & _)|[Hne Hj]]; [by left|].
    right. split; [intros ->; by apply (Ha j e')|]. by exists j, e'.
  - intros [[<- <-] | (Hne & j & e' & Hj & [Ho' <-] & <-)].
    + exists i, e. split_and!; [by apply list_lookup_insert_eq|by split|done].
    + exists j, e'. split_and!; [|by split|done].
      rewrite list_lookup_insert_ne; [done|]. intros <-. rewrite Hi in Hj.
      injection Hj as <-. rewrite Hold in Hne; done.
Qed.

Lemma table_map_set_free ents i old e :
  unique_keys ents -> unique_keys (<[i := e]> ents) -> ents !! i = Some old -> ~ occupied e ->
  table_map (<[i := e]> ents) =
    (if decide (occupied old) then delete (ekey old) (table_map ents) else table_map ents).
Proof.
  intros Hu Hu' Hi Ho. pose proof (lookup_lt_Some _ _ _ Hi) as Hlt.
  apply table_map_eq; [done|]. intros k' v. split.
  - intros (j & e' & Hj & [Ho' <-] & <-).
    apply list_lookup_insert_Some in Hj as [(<- & <- & _)|[Hne Hj]]; [done|].
    assert (table_map ents !! ekey e' = Some (value e')) as Hl
      by (rewrite table_map_lookup by done; by exists j, e').
    case_decide as Hold; [|done]. rewrite lookup_delete_ne; [done|].
    intros Hk. apply Hne. by eapply Hu.
  - intros Hl.
    assert (table_map ents !! k' = Some v /\ (occupied old -> ekey old <> k')) as [Hl' Hk'].
    { case_decide; [|done]. apply lookup_delete_Some in Hl as [??]. done. }
    rewrite table_map_lookup in Hl' by done. destruct Hl' as (j & e' & Hj & [Ho' <-] & <-).
    exists j, e'. split_and!; [|by split|done]. rewrite list_lookup_insert_ne; [done|].
    intros <-. rewrite Hi in Hj. injection Hj as <-. by apply Hk'.
Qed.

(** A search that ends on a slot with no binding certifies the key is alone there. *)
Lemma unreachable_alone ents i key :
  table_ok ents -> unreachable ents key (hash_bytes key) -> alone ents i key.
Proof.
  intros Hok Hun j e _ Hj [Ho <-]. by eapply findable_reachable.
Qed.

Lemma holds_alone ents i e key :
  unique_keys ents -> ents !! i = Some e -> holds e key -> alone ents i key.
Proof. intros Hu Hi [Ho <-] j e' Hne Hj [Ho' Hk]. apply Hne. by eapply Hu. Qed.

(** ** Lookup *)

Lemma find_slot_get m key :
  map_core m ->
  match find_slot m key (hash_bytes key) false with
  | Some slot => exists e, entries m !! Z.to_nat slot = Some e /\ holds e key /\
                   0 <= slot < size (entries m) /\ contents m !! key = Some (value e)
  | None => contents m !! key = None
  end.
Proof.
  intros Hcore. pose proof Hcore as (Hok & Hcap & Hc & _).
  destruct (decide (capacity m = 0)) as [E|E].
  { unfold find_slot. rewrite E. simpl. unfold contents.
    destruct (entries m); [done|]. rewrite Hcap in E. unfold size in E. simpl in E. lia. }
  pose proof (find_slot_correct m key false Hcore E) as Hpost.
  assert (unique_keys (entries m)) as Hu by apply Hok.
  destruct (find_slot m key (hash_bytes key) false) as [i|]; simpl in Hpost.
  - destruct Hpost as (d & Hd & -> & _ & [Hh|[? _]]); [|done].
    exists (slot_at (entries m) (hash_bytes key) d).
    rewrite slot_at_lookup by lia. split_and!; auto; [apply Z.mod_pos_bound; lia..|].
    unfold contents. rewrite table_map_lookup by done.
    eexists _, _. split; [apply slot_at_lookup; lia|done].
  - apply eq_None_not_Some. intros [v Hv]. unfold contents in Hv.
    rewrite table_map_lookup in Hv by done. destruct Hv as (i & e & Hi & [Ho <-] & _).
    destruct Hpost as [Hun _]. by eapply findable_reachable.
Qed.

(** ** Rebuilding *)

Lemma bindings_app l1 l2 : bindings (l1 ++ l2) = bindings (V:=V) l1 ++ bindings l2.
Proof. apply omap_app. Qed.

Lemma unique_keys_prefix l1 l2 : unique_keys (V:=V) (l1 ++ l2) -> unique_keys l1.
Proof.
  intros Hu i j e1 e2 H1 H2. apply Hu; by apply lookup_app_l_Some.
Qed.

Lemma table_map_snoc l e :
  unique_keys (l ++ [e]) ->
  (occupied e -> table_map l !! ekey e = None) /\
  table_map (l ++ [e]) =
    (if decide (occupied e) then <[ekey e := value e]> (table_map l) else table_map l).
Proof.
  intros Hu. pose proof (bindings_nodup _ Hu) as Hnd. unfold table_map.
  rewrite bindings_app in *. unfold bindings at 2 in Hnd. unfold bindings at 3. simpl in *.
  case_decide as Ho; simpl in *; [|rewrite app_nil_r; by split].
  rewrite fmap_app in Hnd. simpl in Hnd.
  assert (ekey e ∉ (bindings l).*1) as Hni.
  { intros Hin. apply NoDup_app in Hnd as (_ & Hd & _). apply (Hd _ Hin). by left. }
  split; [intros _; by apply not_elem_of_list_to_map_1|]. by apply list_to_map_snoc.
Qed.

Lemma n_state_snoc s l e :
  n_state s (l ++ [e]) = n_state s l + (if decide (state e = s) then 1 else 0).
Proof.
  unfold n_state, size. rewrite filter_app, filter_cons, length_app.
  repeat case_decide; simpl; lia.
Qed.

Lemma n_state_app_le s l1 l2 : n_state (V:=V) s l1 <= n_state s (l1 ++ l2).
Proof. unfold n_state, size. rewrite filter_app, length_app. lia. Qed.

(** The state of the rebuild after the entries [seen]. *)
Definition rehash_inv (n : Z) (seen : list (idx_map_entry V)) m : Prop :=
  map_core m /\ capacity m = n /\ tombstones m = 0 /\ n_state SLOT_TOMBSTONE (entries m) = 0 /\
  count m = n_state SLOT_OCCUPIED seen /\ contents m = table_map seen.

Lemma replicate_table_ok k : table_ok (replicate k (zero_entry (V:=V))).
Proof.
  assert (forall i e, replicate k (zero_entry (V:=V)) !! i = Some e -> ~ occupied e) as Hno.
  { intros i e Hi. by apply lookup_replicate in Hi as [-> _]. }
  split_and!.
  - apply Forall_replicate. split; [done|]. intros Ho. done.
  - intros i e Hi Ho. by apply Hno in Hi.
  - intros i j e1 e2 H1 _ Ho. by apply Hno in H1.
Qed.

Lemma table_map_replicate k : table_map (replicate k (zero_entry (V:=V))) = ∅.
Proof. induction k as [|k IH]; [done|]. exact IH. Qed.

Lemma rehash_inv_empty n :
  capacity_ok n -> rehash_inv n [] (Map (replicate (Z.to_nat n) zero_entry) n 0 0).
Proof.
  intros Hn. pose proof (capacity_pos n Hn). unfold rehash_inv, map_core, contents. simpl.
  rewrite !n_state_replicate, !table_map_replicate. simpl.
  split_and!; try done; try (unfold is_u64, size; rewrite ?length_replicate; lia).
  - apply replicate_table_ok.
  - by right.
Qed.

(** In a table with room, a search for insertion always finds a slot. *)
Lemma find_slot_room m key :
  map_core m -> capacity m <> 0 -> 0 < n_state SLOT_EMPTY (entries m) ->
  is_Some (find_slot m key (hash_bytes key) true).
Proof.
  intros Hcore Hc He. pose proof (find_slot_correct m key true Hcore Hc) as Hpost.
  destruct (find_slot _ _ _ _); [by eexists|]. destruct Hpost as [_ H]. specialize (H eq_refl). lia.
Qed.

(** A new binding written on the slot a search for insertion returned. *)
Lemma insert_fresh_ok m d key e :
  map_core m -> 0 <= d < size (entries m) ->
  reach (entries m) (hash_bytes key) d ->
  ~ occupied (slot_at (entries m) (hash_bytes key) d) ->
  unreachable (entries m) key (hash_bytes key) ->
  entry_ok e -> occupied e -> ekey e = key ->
  let i := Z.to_nat ((hash_bytes key + d) mod size (entries m)) in
  table_ok (<[i := e]> (entries m)) /\
  table_map (<[i := e]> (entries m)) = <[key := value e]> (contents m) /\
  n_state SLOT_OCCUPIED (<[i := e]> (entries m)) = count m + 1.
Proof.
  intros (Hok & Hcap & Hc & Hcnt & _) Hd Hr Hno Hun He Ho Hk i.
  pose proof (slot_at_lookup (entries m) (hash_bytes key) d ltac:(lia)) as Hi.
  fold i in Hi. pose proof (unreachable_alone _ i _ Hok Hun) as Halone.
  assert (table_ok (<[i := e]> (entries m))) as Hok'.
  { apply table_set_ok with (old := slot_at (entries m) (hash_bytes key) d); auto.
    - intros Hs. unfold occupied in Ho. congruence.
    - intros _. rewrite Hk. split; [done|]. exists d. destruct He as [_ He].
      destruct (He Ho) as [_ ->]. rewrite Hk. split_and!; [lia..| |done]. unfold i.
      pose proof (Z.mod_pos_bound (hash_bytes key + d) (size (entries m)) ltac:(lia)). lia. }
  split_and!; [done| |].
  - unfold contents. eapply table_map_set_occupied; eauto; [apply Hok|apply Hok'|by split|done].
  - pose proof (n_state_insert SLOT_OCCUPIED (entries m) i _ e Hi) as Hn.
    unfold occupied in *. rewrite decide_False in Hn by done.
    rewrite decide_True in Hn by done. lia.
Qed.

Lemma rehash_step n seen m e :
  rehash_inv n seen m -> capacity_ok n -> entry_ok e -> unique_keys (seen ++ [e]) ->
  n_state SLOT_OCCUPIED (seen ++ [e]) <= n ->
  rehash_inv n (seen ++ [e]) (rehash_entry m e).
Proof.
  intros (Hcore & Hcap & Ht0 & Htn & Hcnt & Hcont) Hn He Hu Hfit.
  destruct (table_map_snoc seen e Hu) as [Hnew Hmap]. rewrite n_state_snoc in Hfit.
  unfold rehash_entry. fold (ekey e).
  case_bool_decide as Ho; fold (occupied e) in Ho.
  2: { unfold rehash_inv. rewrite n_state_snoc, Hmap. rewrite !decide_False by done.
       split_and!; auto; lia. }
  rewrite decide_True in Hfit by done. rewrite decide_True in Hmap by done.
  pose proof He as [Hinl He']. destruct (He' Ho) as [Hlen Hh]. rewrite Hh.
  pose proof (capacity_pos n Hn) as Hpos. pose proof Hcore as (Hok & Hsz & Hcok & Hcnt' & Htu).
  pose proof (n_state_sum (entries m)) as Hsum.
  pose proof (find_slot_correct m (ekey e) true Hcore ltac:(lia)) as Hpost.
  destruct (find_slot_room m (ekey e) Hcore ltac:(lia) ltac:(lia)) as [i Hi]. rewrite Hi in *.
  destruct Hpost as (d & Hd & -> & Hr & [Hh'|(_ & Hun & Hno)]).
  { exfalso. specialize (Hnew Ho). rewrite <- Hcont in Hnew.
    apply eq_None_not_Some in Hnew. apply Hnew. eexists. unfold contents.
    apply table_map_lookup; [apply Hok|]. eexists _, _. split; [apply slot_at_lookup; lia|done]. }
  destruct (insert_fresh_ok m d (ekey e) e) as (Hok' & Hmap' & Hcnt''); auto.
  unfold rehash_inv, map_core, contents. simpl. rewrite n_state_snoc, Hmap, Hmap', Hcont.
  rewrite decide_True by done. pose proof (n_state_nonneg SLOT_OCCUPIED seen).
  unfold u64. rewrite (Z.mod_small (count m + 1)) by lia.
  rewrite (n_state_insert_none SLOT_TOMBSTONE _ _ _ _ (slot_at_lookup (entries m) (hash_bytes (ekey e)) d ltac:(lia)) Htn)
    by (unfold occupied in Ho; congruence).
  assert (size (<[Z.to_nat ((hash_bytes (ekey e) + d) mod size (entries m)):=e]> (entries m))
          = size (entries m)) as -> by (unfold size; by rewrite length_insert).
  split_and!; auto; lia.
Qed.

Lemma rehash_all n seen rest m :
  rehash_inv n seen m -> capacity_ok n -> table_ok (seen ++ rest) ->
  n_state SLOT_OCCUPIED (seen ++ rest) <= n ->
  rehash_inv n (seen ++ rest) (foldl rehash_entry m rest).
Proof.
  revert seen m. induction rest as [|e rest IH]; intros seen m Hinv Hn Hok Hfit.
  - by rewrite app_nil_r.
  - assert (seen ++ e :: rest = (seen ++ [e]) ++ rest) as Heq by (by rewrite <- app_assoc).
    rewrite Heq in *. simpl. apply IH; auto. destruct Hok as (Hents & _ & Hu).
    apply rehash_step; auto.
    + apply Forall_app in Hents as [Hents _]. apply Forall_app in Hents as [_ Hents].
      by apply Forall_cons in Hents as [? _].
    + by eapply unique_keys_prefix.
    + pose proof (n_state_app_le SLOT_OCCUPIED (seen ++ [e]) rest). lia.
Qed.

(** A rebuild keeps the map, empties the tombstones and sets the capacity, or
    fails without touching anything. *)
Lemma rehash_spec m n h :
  map_core m -> (exists k, 4 <= k /\ n = 2 ^ k) -> count m <= n ->
  let '(r, m', h') := rehash m n h in
  match r with
  | Ok _ => map_core m' /\ contents m' = contents m /\ capacity m' = n /\ capacity_ok n /\
            count m' = count m /\ tombstones m' = 0 /\
            n_state SLOT_TOMBSTONE (entries m') = 0
  | Err s => s = IDX_ERR_NO_MEMORY /\ m' = m /\
             (h = false :: h' \/ SIZE_MAX < n * sizeof_entry)
  end.
Proof.
  intros (Hok & Hcap & Hc & Hcnt & Ht) Hpow Hfit. unfold rehash, calloc.
  destruct (SIZE_MAX <? n * sizeof_entry) eqn:E.
  { apply Z.ltb_lt in E. split_and!; auto. }
  apply Z.ltb_ge in E. assert (capacity_ok n) as Hn by (by split).
  assert (forall h0 : heap,
    let '(r, m', h') := (Ok tt, foldl rehash_entry (Map (replicate (Z.to_nat n) zero_entry) n 0 0)
                           (entries m), h0) in
    map_core m' /\ contents m' = contents m /\ capacity m' = n /\ capacity_ok n /\
    count m' = count m /\ tombstones m' = 0 /\ n_state SLOT_TOMBSTONE (entries m') = 0) as Hall.
  { intros h0. destruct (rehash_all n [] (entries m) _ (rehash_inv_empty n Hn) Hn Hok ltac:(simpl; lia))
      as (Hcore & Hcap' & Ht' & Htn & Hcnt' & Hcont). simpl in *. split_and!; auto. lia. }
  specialize (Hall h). simpl in Hall. destruct Hall as (H1 & H2 & H3 & H4 & H5 & H6 & H7).
  set (m1 := foldl _ _ _) in *.
  assert (Map (entries m1) (capacity m1) (count m1) 0 = m1) as Heq by (destruct m1; simpl in *; congruence).
  destruct h as [|[] h]; simpl; rewrite ?Heq; auto 10.
Qed.

(** Room for one more binding below the load limit. *)
Definition roomy m : Prop := 4 * (count m + tombstones m) < 3 * capacity m.

Lemma map_core_counts m :
  map_core m -> 0 <= count m <= capacity m /\ (capacity m <> 0 -> 16 <= capacity m < 2 ^ 58).
Proof.
  intros (_ & Hcap & Hc & Hcnt & _). pose proof (n_state_sum (entries m)).
  pose proof (n_state_nonneg SLOT_OCCUPIED (entries m)).
  pose proof (n_state_nonneg SLOT_TOMBSTONE (entries m)).
  pose proof (n_state_nonneg SLOT_EMPTY (entries m)). split; [lia|]. intros Hne.
  destruct Hc as [|Hc]; [done|]. by apply capacity_pos.
Qed.

(** What making room does: nothing to the map, and room if the counters can be
    believed; or nothing at all, for want of memory. *)
Definition room_post m (h : heap) (out : result unit * idx_map V * heap) : Prop :=
  let '(r, m', h') := out in
  match r with
  | Ok _ => map_core m' /\ contents m' = contents m /\ capacity m' <> 0 /\
            (map_ok m -> map_ok m' /\ roomy m') /\ (In false h' -> In false h)
  | Err s => m' = m /\ (s = IDX_ERR_NO_MEMORY \/ s = IDX_ERR_RANGE) /\
             (In false h \/ SIZE_MAX < (2 * capacity m) * sizeof_entry)
  end.

Lemma rehash_room m n h :
  map_core m -> (exists k, 4 <= k /\ n = 2 ^ k) -> count m <= n -> 4 * count m < 3 * n ->
  (SIZE_MAX < n * sizeof_entry -> SIZE_MAX < (2 * capacity m) * sizeof_entry) ->
  room_post m h (rehash m n h).
Proof.
  intros Hcore Hpow Hfit Hroom Hbig. pose proof (rehash_spec m n h Hcore Hpow Hfit) as H.
  destruct (rehash m n h) as [[[|s] m'] h'] eqn:Eh; simpl.
  - destruct H as (H1 & H2 & H3 & H4 & H5 & H6 & H7). pose proof (capacity_pos n H4).
    unfold map_ok, roomy. rewrite H3, H5, H6, H7. split_and!; auto; try lia.
    { intros _. split_and!; auto; lia. }
    unfold rehash, calloc in Eh. destruct (SIZE_MAX <? _); [done|].
    destruct h as [|[] h]; simpl in Eh; simplify_eq; simpl; auto.
  - destruct H as (-> & -> & H). split_and!; auto. destruct H as [->|H]; auto. by left; left.
Qed.

Lemma ensure_room_spec m h : map_core m -> room_post m h (ensure_room m h).
Proof.
  intros Hcore. pose proof (map_core_counts m Hcore) as [Hcnt Hcap].
  unfold ensure_room. destruct (capacity m =? 0) eqn:E0.
  { apply Z.eqb_eq in E0. unfold IDX_MAP_MIN_CAPACITY. apply rehash_room; try lia; [done| |].
    - exists 4. split; [lia|done].
    - unfold SIZE_MAX, sizeof_entry. lia. }
  apply Z.eqb_neq in E0. specialize (Hcap E0).
  unfold IDX_MAP_LOAD_DENOMINATOR, IDX_MAP_LOAD_NUMERATOR.
  assert (exists k, 4 <= k /\ capacity m = 2 ^ k) as Hpow.
  { destruct Hcore as (_ & _ & [|[Hp _]] & _); [done|exact Hp]. }
  assert (u64 (capacity m * 3) = capacity m * 3) as -> by (apply Z.mod_small; lia).
  assert (u64 (count m * 4) = count m * 4) as -> by (apply Z.mod_small; lia).
  destruct (u64 (u64 (count m + tombstones m) * 4) <? capacity m * 3) eqn:E1.
  { split_and!; auto. intros Hm. pose proof Hm as (_ & Htn & Hload). split; [done|].
    apply Z.ltb_lt in E1. unfold roomy, u64, is_u64 in *.
    pose proof (n_state_nonneg SLOT_TOMBSTONE (entries m)).
    rewrite (Z.mod_small (count m + tombstones m)) in E1 by lia.
    rewrite Z.mod_small in E1 by lia. lia. }
  destruct (capacity m * 3 <=? count m * 4) eqn:E2.
  - destruct (SIZE_MAX / 2 <? capacity m) eqn:E3.
    { apply Z.ltb_lt in E3. change (SIZE_MAX / 2) with (2 ^ 63 - 1) in E3. lia. }
    apply rehash_room; try lia; [done|]. destruct Hpow as (k & Hk & ->). exists (k + 1).
    split; [lia|]. rewrite Z.pow_add_r by lia. lia.
  - apply Z.leb_gt in E2. apply rehash_room; auto; unfold sizeof_entry; lia.
Qed.

(** ** Insertion *)

Lemma store_key_spec e key h :
  entry_ok e -> let '(r, e', h') := entry_store_key e key h in
  length (inline_key e') = 32%nat /\ state e' = state e /\
  match r with
  | Ok _ => ekey e' = key /\ key_len e' = size key /\ (h = [] -> h' = [])
  | Err s => s = IDX_ERR_NO_MEMORY /\ In false h /\ IDX_MAP_INLINE_KEY < size key
  end.
Proof.
  intros [Hinl _]. unfold entry_store_key.
  destruct (IDX_MAP_INLINE_KEY <? size key) eqn:E.
  - assert (take (Z.to_nat (size key)) key = key) as Htake
      by (unfold size; rewrite Nat2Z.id; by apply take_ge).
    destruct h as [|[] h]; simpl; unfold ekey, entry_key; simpl; rewrite ?E; simpl;
      rewrite ?Htake; split_and!; auto; try done; by apply Z.ltb_lt.
  - unfold ekey, entry_key. simpl. rewrite E. apply Z.ltb_ge in E.
    unfold IDX_MAP_INLINE_KEY, size in *. rewrite Nat2Z.id, length_app, length_drop.
    split_and!; auto; [lia|by rewrite take_app_length].
Qed.

(** Writing a value over the entry that already holds the key. *)
Lemma put_update m slot e key v :
  map_core m -> entries m !! Z.to_nat slot = Some e -> holds e key ->
  let m' := set_entry m slot (Entry (state e) (hash e) (key_len e) (inline_key e)
                                (heap_key e) v) in
  map_core m' /\ contents m' = <[key := v]> (contents m) /\ (map_ok m -> map_ok m').
Proof.
  intros Hcore Hi Hh m'. pose proof Hcore as (Hok & Hcap & Hc & Hcnt & Ht).
  set (e' := Entry _ _ _ _ _ v) in *. pose proof Hok as (Hents & Hfind & Hu).
  assert (entry_ok e') as He' by exact (Forall_lookup_1 _ _ _ _ Hents Hi).
  assert (table_ok (<[Z.to_nat slot := e']> (entries m))) as Hok'.
  { apply table_set_ok with (old := e); auto. intros Ho.
    split; [apply (holds_alone _ _ e); by try split|exact (Hfind _ e Hi Ho)]. }
  assert (forall s, n_state s (<[Z.to_nat slot := e']> (entries m)) = n_state s (entries m)) as Hn.
  { intros s. pose proof (n_state_insert s _ _ _ e' Hi) as Hn. simpl in Hn. lia. }
  assert (map_core m') as Hcore'.
  { unfold map_core. simpl. unfold size. rewrite length_insert, Hn. by split_and!. }
  split_and!; [done| |].
  - unfold contents. simpl. change v with (value e').
    apply table_map_set_occupied with (old := e); auto;
      [apply Hok'|by apply (holds_alone _ _ e)|by destruct Hh].
  - intros (_ & Htn & Hl). split; [done|]. simpl. by rewrite Hn.
Qed.

(** The tombstone counter once a slot is about to be reused. *)
Definition tombs_after m e : Z :=
  if bool_decide (state e = SLOT_TOMBSTONE) then u64 (tombstones m - 1) else tombstones m.

Lemma tombs_after_u64 m e : is_u64 (tombstones m) -> is_u64 (tombs_after m e).
Proof.
  unfold tombs_after, is_u64, u64. case_bool_decide; [|done]. intros _.
  by apply Z.mod_pos_bound.
Qed.

Lemma tombs_after_exact m i e e' :
  map_ok m -> entries m !! i = Some e -> state e' <> SLOT_TOMBSTONE ->
  tombs_after m e = n_state SLOT_TOMBSTONE (<[i := e']> (entries m)).
Proof.
  intros ((_ & _ & _ & _ & Hu) & Htn & _) Hi He'.
  pose proof (n_state_insert SLOT_TOMBSTONE _ _ _ e' Hi) as Hn.
  rewrite (decide_False (P := state e' = SLOT_TOMBSTONE)) in Hn by done.
  unfold tombs_after, u64, is_u64 in *. case_bool_decide as Hs.
  - rewrite decide_True in Hn by done. pose proof (n_state_pos _ _ _ _ Hi Hs).
    rewrite Z.mod_small; lia.
  - rewrite decide_False in Hn by done. lia.
Qed.

(** Writing a new binding on the slot the search returned. *)
Lemma put_fresh m d key e' v :
  let e := slot_at (entries m) (hash_bytes key) d in
  let i := Z.to_nat ((hash_bytes key + d) mod size (entries m)) in
  let new := Entry SLOT_OCCUPIED (hash_bytes key) (key_len e') (inline_key e') (heap_key e') v in
  let m' := Map (<[i := new]> (entries m)) (capacity m) (u64 (count m + 1)) (tombs_after m e) in
  map_core m -> capacity m <> 0 -> 0 <= d < size (entries m) ->
  reach (entries m) (hash_bytes key) d -> ~ occupied e ->
  unreachable (entries m) key (hash_bytes key) ->
  length (inline_key e') = 32%nat -> ekey e' = key -> key_len e' = size key ->
  map_core m' /\ contents m' = <[key := v]> (contents m) /\
  (map_ok m -> roomy m -> map_ok m').
Proof.
  intros e i new m' Hcore Hne Hd Hr Hno Hun Hinl Hkey Hlen.
  pose proof Hcore as (Hok & Hcap & Hc & Hcnt & Ht).
  pose proof (map_core_counts m Hcore) as [Hcount Hcapr]. specialize (Hcapr Hne).
  assert (ekey new = key) as Hk by exact Hkey.
  assert (entry_ok new) as He by (split; [done|intros _; by rewrite Hk]).
  destruct (insert_fresh_ok m d key new) as (Hok' & Hmap & Hn); auto; [done|].
  fold i in Hok', Hmap, Hn.
  assert (entries m !! i = Some e) as Hi by (apply slot_at_lookup; lia).
  assert (u64 (count m + 1) = count m + 1) as Hcnt1 by (apply Z.mod_small; lia).
  assert (map_core m') as Hcore'.
  { unfold map_core, m'. simpl. unfold size. rewrite length_insert.
    split_and!; auto; [by rewrite Hcnt1|by apply tombs_after_u64]. }
  split_and!; [done|exact Hmap|]. intros Hm Hroom. split; [done|].
  unfold m'. simpl. pose proof (tombs_after_exact m i e new Hm Hi ltac:(done)) as Htomb.
  split; [done|]. rewrite Hcnt1. destruct Hm as (_ & Htn & _).
  pose proof (n_state_insert SLOT_TOMBSTONE _ _ _ new Hi) as Hn'.
  rewrite (decide_False (P := state new = _)) in Hn' by done.
  unfold roomy in Hroom. case_decide; lia.
Qed.

(** The key copy failed: the slot stays free. *)
Lemma put_failed m i e e' tombs :
  map_core m -> entries m !! i = Some e -> ~ occupied e -> state e' = state e ->
  length (inline_key e') = 32%nat -> is_u64 tombs ->
  let m' := Map (<[i := e']> (entries m)) (capacity m) (count m) tombs in
  map_core m' /\ contents m' = contents m.
Proof.
  intros Hcore Hi Hno Hs Hinl Ht m'. pose proof Hcore as (Hok & Hcap & Hc & Hcnt & _).
  assert (~ occupied e') as Hno' by (unfold occupied in *; congruence).
  assert (table_ok (<[i := e']> (entries m))) as Hok'.
  { apply table_set_ok with (old := e); auto; [by split|congruence|done]. }
  assert (n_state SLOT_OCCUPIED (<[i := e']> (entries m)) = count m) as Hn.
  { pose proof (n_state_insert SLOT_OCCUPIED _ _ _ e' Hi) as Hn. unfold occupied in *.
    rewrite !decide_False in Hn by done. lia. }
  split.
  - unfold map_core, m'. simpl. unfold size. rewrite length_insert, Hn. by split_and!.
  - unfold contents, m'. simpl.
    rewrite (table_map_set_free _ _ e); [|apply Hok|apply Hok'|done|done].
    by rewrite decide_False.
Qed.

(** Everything [idx_map_put] can do to a well-formed table. *)
Definition put_post m (key : bytes) (v : option V) (h : heap)
    (out : result unit * option (idx_map V) * heap) : Prop :=
  let '(r, m', h') := out in
  exists m1, m' = Some m1 /\ map_core m1 /\
  match r with
  | Ok _ => contents m1 = <[key := v]> (contents m) /\ (map_ok m -> map_ok m1)
  | Err s => contents m1 = contents m /\
      (s = IDX_ERR_NO_MEMORY \/ s = IDX_ERR_RANGE \/ s = IDX_ERR_INTERNAL) /\
      (map_ok m -> In false h \/ SIZE_MAX < (2 * capacity m) * sizeof_entry) /\
      (map_ok m -> size key <= IDX_MAP_INLINE_KEY -> map_ok m1)
  end.

Lemma put_correct m key v h : map_core m -> put_post m key v h (idx_map_put (Some m) key v h).
Proof.
  intros Hcore. unfold put_post, idx_map_put. pose proof (ensure_room_spec m h Hcore) as Hroom.
  destruct (ensure_room m h) as [[[[]|s] m1] h1]; simpl in Hroom.
  2: { destruct Hroom as (-> & Hs & Hh). exists m. split_and!; auto. tauto. }
  destruct Hroom as (Hcore1 & Hcont & Hne & Hok & Hheap). rewrite <- Hcont.
  pose proof (find_slot_correct m1 key true Hcore1 Hne) as Hpost.
  destruct (find_slot m1 key (hash_bytes key) true) as [slot|]; simpl in Hpost.
  2: { exists m1. simpl. split_and!; [done|done|done|by right; right| |by intros Hm _; apply Hok].
       intros Hm. destruct Hpost as [_ Hempty]. specialize (Hempty eq_refl). exfalso.
       destruct (Hok Hm) as [((_ & Hcap & _ & Hcnt & _) & Htn & _) Hroom].
       pose proof (n_state_sum (entries m1)). unfold roomy in Hroom.
       pose proof (map_core_counts m1 Hcore1). lia. }
  destruct Hpost as (d & Hd & -> & Hr & Hcase).
  pose proof (slot_at_lookup (entries m1) (hash_bytes key) d ltac:(lia)) as Hi.
  rewrite (list_lookup_total_correct _ _ _ Hi).
  set (e := slot_at (entries m1) (hash_bytes key) d) in *.
  case_bool_decide as Ho; fold (occupied e) in Ho.
  { assert (holds e key) as Hh by (by destruct Hcase as [|(_ & _ & ?)]).
    destruct (put_update m1 _ e key v Hcore1 Hi Hh) as (H1 & H2 & H3).
    eexists. split_and!; [done|exact H1|exact H2|]. intros Hm. apply H3. by apply Hok. }
  destruct Hcase as [[? _]|(_ & Hun & _)]; [done|].
  assert (entry_ok e) as He by (apply slot_at_ok; [apply Hcore1|lia]).
  fold (tombs_after m1 e). pose proof (store_key_spec e key h1 He) as Hst.
  destruct (entry_store_key e key h1) as [[[[]|s] e'] h2]; destruct Hst as (Hinl & Hs & Hst).
  - destruct Hst as (Hkey & Hlen & _).
    destruct (put_fresh m1 d key e' v) as (H1 & H2 & H3); auto.
    eexists. split_and!; [done|exact H1|exact H2|]. intros Hm. by apply H3; apply Hok.
  - destruct Hst as (-> & Hin & Hbig).
    destruct (put_failed m1 _ e e' (tombs_after m1 e) Hcore1 Hi Ho Hs Hinl) as (H1 & H2).
    { apply tombs_after_u64, Hcore1. }
    eexists. split_and!; [done|exact H1|exact H2|by left| |lia].
    intros _. left. by apply Hheap.
Qed.

(** ** Removal *)

Lemma remove_correct m key :
  map_core m ->
  exists m1, idx_map_remove (Some m) key =
               (bool_decide (is_Some (contents m !! key)), Some m1) /\
    map_core m1 /\ contents m1 = delete key (contents m) /\ (map_ok m -> map_ok m1).
Proof.
  intros Hcore. unfold idx_map_remove. pose proof (find_slot_get m key Hcore) as Hget.
  destruct (find_slot m key (hash_bytes key) false) as [slot|].
  2: { exists m. rewrite Hget. rewrite bool_decide_false by (intros [? ?]; done).
       by rewrite delete_id. }
  destruct Hget as (e & Hi & Hh & Hslot & Hv). rewrite Hv.
  rewrite bool_decide_true by (by eexists). rewrite (list_lookup_total_correct _ _ _ Hi).
  pose proof Hcore as (Hok & Hcap & Hc & Hcnt & Ht). destruct Hh as [Ho Hk].
  set (e' := Entry SLOT_TOMBSTONE _ _ _ _ _). eexists. split; [done|].
  assert (~ occupied e') as Hno by done.
  pose proof Hok as (Hents & _ & Hu).
  assert (table_ok (<[Z.to_nat slot := e']> (entries m))) as Hok'.
  { apply table_set_ok with (old := e); auto; [|done|done]. split; [|done].
    apply (Forall_lookup_1 _ _ _ _ Hents Hi). }
  pose proof (n_state_insert SLOT_OCCUPIED _ _ _ e' Hi) as Hn1.
  pose proof (n_state_insert SLOT_TOMBSTONE _ _ _ e' Hi) as Hn2.
  unfold occupied in *. rewrite decide_True in Hn1 by done. rewrite Ho in Hn2. simpl in Hn1, Hn2.
  pose proof (n_state_pos SLOT_OCCUPIED _ _ _ Hi Ho).
  pose proof (map_core_counts m Hcore) as [Hcount Hcapr].
  assert (capacity m <> 0) as Hne by lia. specialize (Hcapr Hne).
  assert (u64 (count m - 1) = count m - 1) as Hcnt1 by (apply Z.mod_small; lia).
  match goal with |- map_core ?m1 /\ _ => assert (map_core m1) as Hcore1 end.
  { unfold map_core, size, set_entry. simpl. rewrite length_insert. fold (size (entries m)) e'.
    split_and!; auto; [lia|apply Z.mod_pos_bound; lia]. }
  split_and!; [done| |].
  - unfold contents. simpl. fold e'.
    rewrite (table_map_set_free _ _ e); [|done|apply Hok'|done|done].
    rewrite decide_True by done. by rewrite Hk.
  - intros (_ & Htn & Hload). split; [done|]. simpl. fold e'. rewrite Hcnt1.
    pose proof (n_state_sum (entries m)). pose proof (n_state_nonneg SLOT_EMPTY (entries m)).
    pose proof (n_state_nonneg SLOT_TOMBSTONE (entries m)).
    assert (u64 (tombstones m + 1) = tombstones m + 1) as -> by (apply Z.mod_small; lia). lia.
Qed.

(** ** Iteration *)

Lemma bindings_drop_step ents i e :
  ents !! i = Some e ->
  bindings (drop i ents) =
    (if decide (occupied e) then [(ekey e, value e)] else []) ++ bindings (drop (S i) ents).
Proof.
  intros Hi. rewrite (drop_S _ _ _ Hi). unfold bindings. simpl. by case_decide.
Qed.

Lemma next_loop_spec rounds ents i :
  (i + rounds = length ents)%nat ->
  match next_loop rounds ents i with
  | None => bindings (drop i ents) = []
  | Some (j, k, v) => (i < j <= length ents)%nat /\
                      bindings (drop i ents) = (k, v) :: bindings (drop j ents)
  end.
Proof.
  revert i. induction rounds as [|rounds IH]; intros i Hlen; cbn [next_loop].
  { by rewrite drop_ge by lia. }
  destruct (lookup_lt_is_Some_2 ents i ltac:(lia)) as [e Hi].
  rewrite (list_lookup_total_correct _ _ _ Hi), (bindings_drop_step _ _ _ Hi).
  case_bool_decide as Ho; fold (occupied e) in Ho.
  - rewrite decide_True by done. split; [lia|done].
  - rewrite decide_False by done. simpl. specialize (IH (S i) ltac:(lia)).
    destruct (next_loop rounds ents (S i)) as [[[j k] v]|]; [|done].
    destruct IH as [Hj IH]. split; [lia|done].
Qed.

Lemma map_iterate_spec fuel m cursor :
  capacity m = size (entries m) -> (cursor <= length (entries m))%nat ->
  (length (entries m) - cursor < fuel)%nat ->
  map_iterate fuel (Some m) cursor = Some (bindings (drop cursor (entries m))).
Proof.
  intros Hcap. revert cursor. induction fuel as [|fuel IH]; intros cursor Hc Hf; [lia|].
  cbn [map_iterate]. unfold idx_map_next. rewrite Hcap. unfold size. rewrite Nat2Z.id.
  pose proof (next_loop_spec (length (entries m) - cursor) (entries m) cursor ltac:(lia)) as H.
  destruct (next_loop _ _ _) as [[[j k] v]|]; [|by rewrite H].
  destruct H as [Hj ->]. by rewrite IH by lia.
Qed.

Lemma bindings_permutation m :
  map_core m -> bindings (entries m) ≡ₚ map_to_list (contents m).
Proof.
  intros ((_ & _ & Hu) & _). unfold contents, table_map.
  rewrite map_to_list_to_map; [done|]. by apply bindings_nodup.
Qed.

Lemma init_ok : map_ok (idx_map_init (V:=V)).
Proof.
  unfold map_ok, map_core, idx_map_init. simpl. split_and!; auto; try done.
Qed.

Lemma clear_ok m :
  map_core m ->
  exists m1, idx_map_clear (Some m) = Some m1 /\ map_core m1 /\ contents m1 = ∅ /\
    capacity m1 = capacity m /\ (entries m <> [] -> map_ok m1).
Proof.
  intros Hcore. pose proof Hcore as (_ & Hcap & Hc & _). unfold idx_map_clear.
  case_bool_decide as He.
  - exists m. split_and!; auto; [unfold contents; by rewrite He|by intros].
  - assert (capacity m <> 0) as Hne.
    { rewrite Hcap. destruct (entries m); [done|]. unfold size. simpl. lia. }
    destruct Hc as [|Hc]; [done|].
    destruct (rehash_inv_empty (capacity m) Hc) as (H1 & H2 & H3 & H4 & H5 & H6).
    pose proof (capacity_pos _ Hc). eexists. split_and!; [done|done|exact H6|done|].
    intros _. split; [done|]. rewrite H4. simpl. split; [done|lia].
Qed.

End proofs.

(** A map of one integer, for the witnesses. *)
Definition one_map : idx_map Z :=
  default idx_map_init (idx_map_put (Some idx_map_init) [1; 2; 3] (Some 7) []).1.2.

Lemma one_map_ok : map_ok one_map.
Proof.
  pose proof (put_correct idx_map_init [1; 2; 3] (Some 7) [] (proj1 init_ok)) as H.
  unfold put_post, one_map in *.
  destruct (idx_map_put _ _ _ _) as [[r m'] h'] eqn:E. destruct H as (m1 & -> & Hc & H).
  destruct r as [[]|s]; simpl.
  - apply H, init_ok.
  - vm_compute in E. discriminate E.
Qed.

Lemma n_state_bindings {V} (ents : list (idx_map_entry V)) :
  n_state SLOT_OCCUPIED ents = Z.of_nat (length (bindings ents)).
Proof.
  induction ents as [|e ents IH]; [done|].
  change (e :: ents) with ([e] ++ ents). rewrite bindings_app, length_app.
  assert (n_state SLOT_OCCUPIED ([e] ++ ents) =
          (if decide (occupied e) then 1 else 0) + n_state SLOT_OCCUPIED ents) as ->.
  { unfold n_state, size. rewrite filter_app, length_app, filter_cons.
    unfold occupied. repeat case_decide; simpl; lia || congruence. }
  unfold bindings at 1. simpl. case_decide; simpl; lia.
Qed.

(** With room, [ensure_room] does nothing. *)
Lemma ensure_room_roomy {V} (m : idx_map V) h :
  map_ok m -> roomy m -> ensure_room m h = (Ok tt, m, h).
Proof.
  intros (Hcore & Htn & _) Hroom. unfold roomy in Hroom.
  pose proof (map_core_counts m Hcore) as [Hcnt Hcap].
  pose proof (n_state_nonneg SLOT_TOMBSTONE (entries m)).
  assert (capacity m <> 0) as Hne by lia. specialize (Hcap Hne). unfold ensure_room.
  destruct (capacity m =? 0) eqn:E; [by apply Z.eqb_eq in E|].
  unfold u64, IDX_MAP_LOAD_DENOMINATOR, IDX_MAP_LOAD_NUMERATOR.
  rewrite (Z.mod_small (count m + _)) by lia. rewrite !Z.mod_small by lia.
  destruct (_ <? _) eqn:E2; [done|]. apply Z.ltb_ge in E2. lia.
Qed.

(** ** Properties *)

(** C12. Insertion refines the finite map: on a well-formed table, whatever the
    allocator does, [idx_map_put] either binds the key and changes no other
    binding, or fails and changes no binding at all; the table stays searchable
    in every case. *)
Theorem map_put_refines {V} (m : idx_map V) key v h :
  map_core m ->
  let '(r, m', _) := idx_map_put (Some m) key v h in
  exists m1, m' = Some m1 /\ map_core m1 /\
    contents m1 = match r with Ok _ => <[key := v]> (contents m) | Err _ => contents m end.
Proof.
  intros Hcore. pose proof (put_correct m key v h Hcore) as H. unfold put_post in H.
  destruct (idx_map_put _ _ _ _) as [[r m'] h']. destruct H as (m1 & -> & Hc & H).
  exists m1. split_and!; auto. destruct r; apply H.
Qed.

Lemma map_put_refines_witness :
  exists m1, (idx_map_put (Some one_map) [9] (Some 8) []).1.2 = Some m1 /\ map_core m1 /\
    contents m1 = <[[9] := Some 8]> (contents one_map).
Proof.
  pose proof (map_put_refines one_map [9] (Some 8) [] (proj1 one_map_ok)) as H.
  destruct (idx_map_put (Some one_map) [9] (Some 8) []) as [[r m'] h'] eqn:E.
  destruct H as (m1 & -> & Hc & Hm). exists m1. split; [done|]. split; [done|].
  vm_compute in E. injection E as <- _ _. exact Hm.
Defined.

(** C39. Insertion succeeds: with exact counters, memory to allocate and a table
    whose doubling is addressable, [idx_map_put] never reports a full table or
    any other failure, and the counters stay exact and below the load limit. *)
Theorem map_put_succeeds {V} (m : idx_map V) key v :
  map_ok m -> 2 * capacity m * sizeof_entry <= SIZE_MAX ->
  exists m1, (idx_map_put (Some m) key v []).1 = (Ok tt, Some m1) /\ map_ok m1.
Proof.
  intros Hok Hbig. pose proof (put_correct m key v [] (proj1 Hok)) as H. unfold put_post in H.
  destruct (idx_map_put _ _ _ _) as [[r m'] h'] eqn:E. destruct H as (m1 & -> & Hc & H).
  destruct r as [[]|s].
  - exists m1. split; [done|by apply H].
  - destruct H as (_ & _ & H & _). destruct (H Hok) as [[]|]; lia.
Qed.

Lemma map_put_succeeds_witness :
  exists m1, (idx_map_put (Some one_map) [9] (Some 8) []).1 = (Ok tt, Some m1) /\ map_ok m1.
Proof.
  apply (map_put_succeeds one_map [9] (Some 8) one_map_ok). by vm_compute.
Defined.

Lemma get_correct {V} (m : idx_map V) key : map_core m -> idx_map_get (Some m) key = contents m !! key.
Proof.
  intros Hcore. unfold idx_map_get. pose proof (find_slot_get m key Hcore) as H.
  destruct (find_slot _ _ _ _) as [slot|]; [|by rewrite H].
  destruct H as (e & Hi & _ & _ & ->). simpl. by rewrite (list_lookup_total_correct _ _ _ Hi).
Qed.

Lemma count_correct {V} (m : idx_map V) : map_core m -> idx_map_count (Some m) = Z.of_nat (base.size (contents m)).
Proof.
  intros Hcore. unfold idx_map_count. rewrite <- length_map_to_list, <- (bindings_permutation m Hcore).
  destruct Hcore as (_ & _ & _ & -> & _). apply n_state_bindings.
Qed.

(** Lookup refines the finite map: [idx_map_get] finds exactly the keys that
    are bound and returns their value, [idx_map_contains] agrees, and
    [idx_map_count] is the number of bindings. *)
Theorem map_get_refines {V} (m : idx_map V) key :
  map_core m ->
  idx_map_get (Some m) key = contents m !! key /\
  idx_map_contains (Some m) key = bool_decide (key ∈ dom (contents m)) /\
  idx_map_count (Some m) = Z.of_nat (base.size (contents m)).
Proof.
  intros Hcore. pose proof (get_correct m key Hcore) as Hget. split_and!; [done| |by apply count_correct].
  unfold idx_map_contains. rewrite Hget. apply bool_decide_ext. by rewrite elem_of_dom.
Qed.

Lemma map_get_refines_witness :
  idx_map_get (Some one_map) [1; 2; 3] = Some (Some 7) /\
  idx_map_get (Some one_map) [1; 2] = None.
Proof.
  destruct (map_get_refines one_map [1; 2; 3] (proj1 one_map_ok)) as [-> _].
  destruct (map_get_refines one_map [1; 2] (proj1 one_map_ok)) as [-> _].
  split; by vm_compute.
Defined.

(** Removal refines the finite map: [idx_map_remove] reports whether the key
    was bound, unbinds it, and leaves every other binding findable behind the
    tombstone; exact counters stay exact. *)
Theorem map_remove_refines {V} (m : idx_map V) key :
  map_core m ->
  exists m1, idx_map_remove (Some m) key =
      (bool_decide (is_Some (contents m !! key)), Some m1) /\
    map_core m1 /\ contents m1 = delete key (contents m) /\ (map_ok m -> map_ok m1).
Proof. apply remove_correct. Qed.

Lemma map_remove_refines_witness :
  exists m1, idx_map_remove (Some one_map) [1; 2; 3] = (true, Some m1) /\
    map_core m1 /\ contents m1 = ∅ /\ (map_ok one_map -> map_ok m1).
Proof.
  destruct (map_remove_refines one_map [1; 2; 3] (proj1 one_map_ok)) as (m1 & E & H1 & H2 & H3).
  exists m1. split; [exact E|]. split; [done|]. split; [|done]. rewrite H2. by vm_compute.
Defined.

(** Iteration is complete and terminates: the documented loop over
    [idx_map_next] ends within [capacity + 1] calls and yields every binding of
    the map exactly once. *)
Theorem map_iterate_complete {V} (m : idx_map V) fuel :
  map_core m -> capacity m < Z.of_nat fuel ->
  exists l, map_iterate fuel (Some m) 0 = Some l /\ l ≡ₚ map_to_list (contents m) /\
            NoDup l.*1.
Proof.
  intros Hcore Hf. exists (bindings (entries m)).
  pose proof Hcore as ((_ & _ & Hu) & Hcap & _). split_and!.
  - rewrite map_iterate_spec; [by rewrite drop_0|done|lia|]. unfold size in Hcap. lia.
  - by apply bindings_permutation.
  - by apply bindings_nodup.
Qed.

Lemma map_iterate_complete_witness :
  exists l, map_iterate 17 (Some one_map) 0 = Some l /\
    l ≡ₚ map_to_list (contents one_map) /\ NoDup l.*1.
Proof.
  apply (map_iterate_complete one_map 17 (proj1 one_map_ok)). by vm_compute.
Defined.

(** The tombstone counter is decremented before the key is copied, and a
    failed copy does not put it back: when the copy of a long key onto a reused
    tombstone runs out of memory, the table has as many tombstones as before and
    the counter one less, so it no longer counts them. *)
Theorem map_put_oom_miscounts {V} (m : idx_map V) key v h slot :
  map_ok m -> roomy m -> IDX_MAP_INLINE_KEY < size key ->
  find_slot m key (hash_bytes key) true = Some slot ->
  state (entries m !!! Z.to_nat slot) = SLOT_TOMBSTONE ->
  exists m1, idx_map_put (Some m) key v (false :: h) = (Err IDX_ERR_NO_MEMORY, Some m1, h) /\
    n_state SLOT_TOMBSTONE (entries m1) = n_state SLOT_TOMBSTONE (entries m) /\
    tombstones m1 = tombstones m - 1 /\ ~ map_ok m1.
Proof.
  intros Hok Hroom Hbig Hslot Hs. unfold idx_map_put.
  rewrite ensure_room_roomy by done. rewrite Hslot, Hs.
  rewrite bool_decide_false by done. rewrite bool_decide_true by done.
  pose proof Hok as (Hcore & Htn & _). pose proof (map_core_counts m Hcore) as [Hcnt _].
  assert (capacity m <> 0) as Hne by (unfold roomy in Hroom;
    pose proof (n_state_nonneg SLOT_TOMBSTONE (entries m)); lia).
  pose proof (find_slot_correct m key true Hcore Hne) as Hpost. rewrite Hslot in Hpost.
  destruct Hpost as (d & Hd & -> & _).
  pose proof (slot_at_lookup (entries m) (hash_bytes key) d ltac:(lia)) as Hi.
  rewrite (list_lookup_total_correct _ _ _ Hi) in *.
  set (e := slot_at (entries m) (hash_bytes key) d) in *. unfold entry_store_key.
  apply Z.ltb_lt in Hbig. rewrite Hbig. simpl. eexists. split; [done|]. unfold set_entry. simpl.
  set (e' := Entry (state e) _ _ _ _ _).
  pose proof (n_state_insert SLOT_TOMBSTONE _ _ _ e' Hi) as Hn. simpl in Hn.
  assert (n_state SLOT_TOMBSTONE (<[Z.to_nat ((hash_bytes key + d) mod size (entries m)) := e']>
    (entries m)) = n_state SLOT_TOMBSTONE (entries m)) as Hsame by lia.
  pose proof (n_state_pos _ _ _ _ Hi Hs) as Hpos.
  assert (u64 (tombstones m - 1) = tombstones m - 1) as Ht.
  { destruct Hcore as (_ & _ & _ & _ & Hu). unfold is_u64 in Hu. apply Z.mod_small. lia. }
  split_and!; [done|done|]. intros (_ & Htn' & _). simpl in Htn'. lia.
Qed.

(** A map whose first slot on the probe path of a long key is a tombstone. *)
Definition tomb_map : idx_map Z :=
  default idx_map_init (idx_map_remove (Some one_map) [1; 2; 3]).2.

Lemma tomb_map_ok : map_ok tomb_map.
Proof.
  destruct (remove_correct one_map [1; 2; 3] (proj1 one_map_ok)) as (m1 & E & _ & _ & H).
  unfold tomb_map. rewrite E. apply H, one_map_ok.
Qed.

Lemma map_put_oom_miscounts_witness :
  exists m1, idx_map_put (Some tomb_map) (12 :: replicate 32 0) (Some 1) [false]
      = (Err IDX_ERR_NO_MEMORY, Some m1, []) /\
    n_state SLOT_TOMBSTONE (entries m1) = 1 /\ tombstones m1 = 0 /\ ~ map_ok m1.
Proof.
  destruct (map_put_oom_miscounts tomb_map (12 :: replicate 32 0) (Some 1) [] 13)
    as (m1 & E & H1 & H2 & H3).
  - exact tomb_map_ok.
  - by vm_compute.
  - by vm_compute.
  - by vm_compute.
  - by vm_compute.
  - exists m1. split; [exact E|]. split; [rewrite H1; by vm_compute|].
    split; [rewrite H2; by vm_compute|done].
Defined.

(** Clearing keeps the table and empties the map; freeing returns the map to
    its initial state; both can be used again. *)
Theorem map_clear_empties {V} (m : idx_map V) :
  map_core m ->
  (exists m1, idx_map_clear (Some m) = Some m1 /\ map_core m1 /\ contents m1 = ∅ /\
     capacity m1 = capacity m) /\
  (exists m2, idx_map_free (Some m) = Some m2 /\ map_ok m2 /\ contents m2 = ∅).
Proof.
  intros Hcore. split.
  - destruct (clear_ok m Hcore) as (m1 & H1 & H2 & H3 & H4 & _). by exists m1.
  - exists idx_map_init. split_and!; [done|apply init_ok|done].
Qed.

Lemma map_clear_empties_witness :
  exists m1, idx_map_clear (Some one_map) = Some m1 /\ contents m1 = ∅.
Proof.
  destruct (map_clear_empties one_map (proj1 one_map_ok)) as [(m1 & H1 & _ & H2 & _) _].
  by exists m1.
Defined.
