(* ===== verification/PtrMap.v ===== *)
(** * What the registries use of the hash table

    The registries keep one heap record for each key and give the table its address.
    [PtrMapOps] is the part of map.h they call, [PtrMapSpec] what it promises them:
    that the table is a finite map of the addresses, whatever allocation does.  The
    registries are written and proved against the class; the instances at the end
    are the table of map.c, its theorems discharging the laws.

    An address is the number of the allocation that returned it. *)

From S2P Require Import Prelude Map.
#[local] Open Scope Z_scope.

(** The address of a heap record. *)
Abbreviation ptr := nat.

Class PtrMapOps (M : Type) := {
  m_init : M;
  m_put : bytes -> ptr -> heap -> M -> result unit * M * heap;
  m_get : M -> bytes -> option (option ptr);
  m_remove : bytes -> M -> M;
  m_count : M -> Z;
  (** what [while (idx_map_next(...))] visits, in its order *)
  m_entries : M -> list (bytes * option ptr);
  m_free : M -> M
}.

Definition m_values {M} `{PtrMapOps M} (m : M) : list (option ptr) := (m_entries m).*2.

Class PtrMapSpec (M : Type) `{PtrMapOps M} := {
  m_ok : M -> Prop;
  m_view : M -> gmap bytes (option ptr);
  m_init_ok : m_ok m_init /\ m_view m_init = ∅;
  (** a put binds the key, or fails and changes nothing *)
  m_put_ok m key p h :
    m_ok m ->
    let '(r, m', _) := m_put key p h m in
    m_ok m' /\
    match r with
    | Ok _ => m_view m' = <[key := Some p]> (m_view m)
    | Err e => m_view m' = m_view m /\ (e = IDX_ERR_NO_MEMORY \/ e = IDX_ERR_RANGE \/ e = IDX_ERR_INTERNAL)
    end;
  m_get_ok m key : m_ok m -> m_get m key = m_view m !! key;
  m_remove_ok m key : m_ok m -> m_ok (m_remove key m) /\ m_view (m_remove key m) = delete key (m_view m);
  m_count_ok m : m_ok m -> m_count m = Z.of_nat (base.size (m_view m));
  m_entries_ok m : m_ok m -> m_entries m ≡ₚ map_to_list (m_view m);
  m_free_ok m : m_ok m -> m_ok (m_free m) /\ m_view (m_free m) = ∅
}.

(** ** The table of map.c *)

(** The operations on a table that is not null. *)
Definition table_put (key : bytes) (p : ptr) (h : heap) (m : idx_map ptr) : result unit * idx_map ptr * heap :=
  let '(r, m', h') := idx_map_put (Some m) key (Some p) h in (r, default m m', h').

Definition table_entries (m : idx_map ptr) : list (bytes * option ptr) :=
  default [] (map_iterate (S (Z.to_nat (capacity m))) (Some m) 0).

#[export] Instance table_ops : PtrMapOps (idx_map ptr) := {
  m_init := idx_map_init;
  m_put := table_put;
  m_get m key := idx_map_get (Some m) key;
  m_remove key m := default m (idx_map_remove (Some m) key).2;
  m_count m := idx_map_count (Some m);
  m_entries := table_entries;
  m_free m := default m (idx_map_free (Some m))
}.

#[export] Instance table_spec : PtrMapSpec (idx_map ptr).
Proof.
  refine {| m_ok := map_core; m_view := contents |}.
  - split; [apply init_ok|done].
  - intros m key p h Hok. cbn [m_put table_ops]. unfold table_put.
    pose proof (put_correct m key (Some p) h Hok) as H. unfold put_post in H.
    destruct (idx_map_put _ _ _ _) as [[r m'] h']. destruct H as (m1 & -> & Hc & H). cbn [default].
    split; [done|]. destruct r; [apply H|]. by destruct H as (H1 & H2 & _).
  - intros m key Hcore. by apply get_correct.
  - intros m key Hcore. cbn [m_remove table_ops].
    by destruct (remove_correct m key Hcore) as (m1 & -> & H1 & H2 & _).
  - intros m Hcore. by apply count_correct.
  - intros m Hcore. cbn [m_entries table_ops]. unfold table_entries.
    pose proof Hcore as (_ & Hcap & _). rewrite map_iterate_spec; [|done|lia|].
    + cbn [default]. rewrite drop_0. apply (bindings_permutation m Hcore).
    + rewrite Hcap. unfold size. lia.
  - intros m _. split; [apply init_ok|done].
Defined.

Lemma filter_true {A} (P : A -> Prop) `{forall x, Decision (P x)} (l : list A) : Forall P l -> filter P l = l.
Proof. induction 1 as [|x l Hx _ IH]; [done|]. by rewrite filter_cons_True, IH. Qed.

(** ** Records behind the table

    The records of a registry by address, the address being where in the list; the
    table holds one address for each key.  [freed] are the addresses given back. *)

Section records.
Context {M : Type} `{PtrMapSpec M} {R : Type} (key : R -> bytes).

(** What the registry knows: the record behind each key. *)
Definition reg_view (m : M) (recs : list R) : gmap bytes R :=
  omap (fun v => v ≫= fun p => recs !! p) (m_view m).

(** Every key leads to its own live record, and no live record is lost. *)
Record reg_inv (m : M) (recs : list R) (freed : list ptr) : Prop := {
  inv_ok : m_ok m;
  inv_bound k v : m_view m !! k = Some v ->
    exists p t, v = Some p /\ (p ∉ freed) /\ recs !! p = Some t /\ key t = k;
  inv_kept p t : recs !! p = Some t -> p ∉ freed -> m_view m !! key t = Some (Some p);
  inv_freed p : p ∈ freed -> (p < length recs)%nat
}.

Lemma view_lookup m recs freed k t :
  reg_inv m recs freed -> reg_view m recs !! k = Some t <-> exists p, recs !! p = Some t /\ (p ∉ freed) /\ key t = k.
Proof.
  intros I. unfold reg_view. rewrite lookup_omap. split.
  - destruct (m_view m !! k) as [v|] eqn:E; [|done]. destruct (inv_bound _ _ _ I k v E) as (p & t' & -> & Hf & Hp & Hk).
    cbn. rewrite Hp. intros [= <-]. by exists p.
  - intros (p & Hp & Hf & <-). rewrite (inv_kept _ _ _ I p t Hp Hf). cbn. done.
Qed.

Lemma view_none m recs freed k : reg_inv m recs freed -> reg_view m recs !! k = None <-> m_view m !! k = None.
Proof.
  intros I. unfold reg_view. rewrite lookup_omap. destruct (m_view m !! k) as [v|] eqn:E; [|done].
  destruct (inv_bound _ _ _ I k v E) as (p & t & -> & _ & Hp & _). cbn. rewrite Hp. done.
Qed.

Lemma init_reg_inv : reg_inv m_init [] [] /\ reg_view m_init [] = ∅.
Proof.
  pose proof m_init_ok as [Hok Hv]. unfold reg_view. rewrite Hv. split; [|apply omap_empty].
  split; [done|..].
  - intros k v. by rewrite Hv, lookup_empty.
  - intros p t. by rewrite lookup_nil.
  - by intros p ?%elem_of_nil.
Qed.

(** A search gives the record's address. *)
Lemma reg_find m recs freed k :
  reg_inv m recs freed ->
  match m_get m k with
  | None => reg_view m recs !! k = None
  | Some v => exists p t, v = Some p /\ recs !! p = Some t /\ key t = k /\ (p ∉ freed) /\ reg_view m recs !! k = Some t
  end.
Proof.
  intros I. rewrite (m_get_ok m k (inv_ok _ _ _ I)). destruct (m_view m !! k) as [v|] eqn:E.
  - destruct (inv_bound _ _ _ I k v E) as (p & t & -> & Hf & Hp & Hk). exists p, t. split_and!; try done.
    apply (view_lookup _ _ _ _ _ I). eauto.
  - by apply (view_none _ _ _ _ I).
Qed.

(** A new record, or none when the table could not take it. *)
Lemma reg_add m recs freed t h :
  reg_inv m recs freed -> m_get m (key t) = None ->
  let '(r, m', _) := m_put (key t) (length recs) h m in
  match r with
  | Ok _ => reg_inv m' (recs ++ [t]) freed /\ reg_view m' (recs ++ [t]) = <[key t := t]> (reg_view m recs)
  | Err e => reg_inv m' recs freed /\ reg_view m' recs = reg_view m recs /\
      (e = IDX_ERR_NO_MEMORY \/ e = IDX_ERR_RANGE \/ e = IDX_ERR_INTERNAL)
  end.
Proof.
  intros I Hn. pose proof (m_put_ok m (key t) (length recs) h (inv_ok _ _ _ I)) as Hput.
  rewrite (m_get_ok m (key t) (inv_ok _ _ _ I)) in Hn.
  destruct (m_put _ _ _ _) as [[[[]|e] m'] h']; destruct Hput as [Hok Hv].
  - assert (reg_inv m' (recs ++ [t]) freed) as I'.
    { split; [done|..].
      - intros k v. rewrite Hv. intros [[<- <-]|[Hne Hl]]%lookup_insert_Some.
        + exists (length recs), t. split_and!; [done| |by rewrite list_lookup_middle|done].
          intros Hf%(inv_freed _ _ _ I). lia.
        + destruct (inv_bound _ _ _ I k v Hl) as (p & t' & -> & Hf & Hp & <-). exists p, t'. split_and!; [done|done| |done].
          by apply lookup_app_l_Some.
      - intros p t' Hp Hf. rewrite Hv. apply lookup_snoc_Some in Hp as [[Hlt Hp]|[-> <-]]; [|apply lookup_insert_eq].
        pose proof (inv_kept _ _ _ I p t' Hp Hf) as Hl. rewrite lookup_insert_ne; [done|]. intros E. rewrite <- E in Hl.
        congruence.
      - intros p Hf%(inv_freed _ _ _ I). rewrite length_app. simpl. lia. }
    split; [done|]. apply map_eq. intros k. unfold reg_view. rewrite Hv, lookup_omap.
    destruct (decide (key t = k)) as [<-|Hne].
    + rewrite !lookup_insert_eq. cbn. by apply list_lookup_middle.
    + rewrite !lookup_insert_ne by done. rewrite lookup_omap. destruct (m_view m !! k) as [v|] eqn:E; [|done].
      destruct (inv_bound _ _ _ I k v E) as (p & t' & -> & _ & Hp & _). cbn. rewrite Hp. by apply lookup_app_l_Some.
  - destruct Hv as [Hv He]. unfold reg_view. rewrite Hv. split_and!; [|done|done]. split; [done|..].
    + intros k v. rewrite Hv. apply (inv_bound _ _ _ I).
    + intros p t' Hp. rewrite Hv. by apply (inv_kept _ _ _ I).
    + apply (inv_freed _ _ _ I).
Qed.

(** A record changed in place, through its address. *)
Lemma reg_update m recs freed p t t' :
  reg_inv m recs freed -> recs !! p = Some t -> p ∉ freed -> key t' = key t ->
  reg_inv m (<[p := t']> recs) freed /\ reg_view m (<[p := t']> recs) = <[key t := t']> (reg_view m recs).
Proof.
  intros I Hp Hf Hk. pose proof (lookup_lt_Some _ _ _ Hp) as Hlt.
  assert (reg_inv m (<[p := t']> recs) freed) as I'.
  { split; [apply (inv_ok _ _ _ I)|..].
    - intros k v Hv. destruct (inv_bound _ _ _ I k v Hv) as (q & u & -> & Hfq & Hq & <-). destruct (decide (p = q)) as [<-|Hne].
      + exists p, t'. split_and!; [done|done|by apply list_lookup_insert_eq|]. congruence.
      + exists q, u. split_and!; [done|done|by rewrite list_lookup_insert_ne|done].
    - intros q u Hq Hfq. destruct (decide (p = q)) as [<-|Hne].
      + rewrite list_lookup_insert_eq in Hq by done. injection Hq as <-. rewrite Hk. by apply (inv_kept _ _ _ I).
      + rewrite list_lookup_insert_ne in Hq by done. by apply (inv_kept _ _ _ I).
    - intros q Hq. rewrite length_insert. by apply (inv_freed _ _ _ I). }
  split; [done|]. apply map_eq. intros k. apply option_eq. intros u.
  rewrite (view_lookup _ _ _ _ _ I'), lookup_insert_Some, (view_lookup _ _ _ _ _ I). split.
  - intros (q & Hq & Hfq & <-). destruct (decide (p = q)) as [<-|Hne].
    + rewrite list_lookup_insert_eq in Hq by done. injection Hq as <-. by left.
    + rewrite list_lookup_insert_ne in Hq by done. right. split; [|eauto]. intros E. apply Hne.
      pose proof (inv_kept _ _ _ I p t Hp Hf) as H1. pose proof (inv_kept _ _ _ I q u Hq Hfq) as H2.
      rewrite E in H1. congruence.
  - intros [[<- <-]|[Hne (q & Hq & Hfq & <-)]].
    + exists p. split_and!; [by apply list_lookup_insert_eq|done|done].
    + exists q. split_and!; [|done|done]. rewrite list_lookup_insert_ne; [done|]. intros ->. congruence.
Qed.

(** A record taken out of the table and freed. *)
Lemma reg_remove m recs freed p t :
  reg_inv m recs freed -> recs !! p = Some t -> p ∉ freed ->
  reg_inv (m_remove (key t) m) recs (p :: freed) /\
  reg_view (m_remove (key t) m) recs = delete (key t) (reg_view m recs).
Proof.
  intros I Hp Hf. destruct (m_remove_ok m (key t) (inv_ok _ _ _ I)) as [Hok Hv].
  pose proof (inv_kept _ _ _ I p t Hp Hf) as Hkt. split.
  - split; [done|..].
    + intros k v. rewrite Hv. intros [Hne Hl]%lookup_delete_Some.
      destruct (inv_bound _ _ _ I k v Hl) as (q & u & -> & Hfq & Hq & <-). exists q, u. split_and!; [done| |done|done].
      intros [->|Hin]%elem_of_cons; [|done]. congruence.
    + intros q u Hq Hfq. apply not_elem_of_cons in Hfq as [Hne Hfq]. pose proof (inv_kept _ _ _ I q u Hq Hfq) as Hku.
      rewrite Hv, lookup_delete_ne; [done|]. intros E. rewrite E in Hkt. congruence.
    + intros q [->|Hq]%elem_of_cons; [by eapply lookup_lt_Some|by apply (inv_freed _ _ _ I)].
  - unfold reg_view. rewrite Hv. apply map_eq. intros k. rewrite lookup_omap. destruct (decide (key t = k)) as [<-|Hne].
    + by rewrite !lookup_delete_eq.
    + by rewrite !lookup_delete_ne, lookup_omap.
Qed.

Lemma reg_count m recs freed : reg_inv m recs freed -> m_count m = Z.of_nat (base.size (reg_view m recs)).
Proof.
  intros I. rewrite (m_count_ok m (inv_ok _ _ _ I)). f_equal. rewrite <- !size_dom. f_equal.
  apply set_eq. intros k. rewrite !elem_of_dom. rewrite <- !not_eq_None_Some. by rewrite (view_none _ _ _ _ I).
Qed.

(** The loop over the table visits every live record once. *)
Lemma reg_values m recs freed :
  reg_inv m recs freed -> m_values m ≡ₚ map Some (filter (fun p => p ∉ freed) (seq 0 (length recs))).
Proof.
  intros I. unfold m_values. rewrite (m_entries_ok m (inv_ok _ _ _ I)). apply NoDup_Permutation.
  - apply NoDup_fmap_2_strong; [|apply NoDup_map_to_list].
    intros [k1 v1] [k2 v2] H1%elem_of_map_to_list H2%elem_of_map_to_list. simpl. intros <-.
    destruct (inv_bound _ _ _ I _ _ H1) as (p & t & -> & _ & Hp & <-).
    destruct (inv_bound _ _ _ I _ _ H2) as (p' & t' & [= <-] & _ & Hp' & <-). congruence.
  - apply (NoDup_fmap_2 Some), NoDup_filter, NoDup_seq.
  - intros v. rewrite list_elem_of_fmap. setoid_rewrite (list_elem_of_fmap Some).
    setoid_rewrite list_elem_of_filter. split.
    + intros ((k & v') & -> & Hin%elem_of_map_to_list). destruct (inv_bound _ _ _ I _ _ Hin) as (p & t & -> & Hf & Hp & _).
      exists p. split_and!; [done|done|]. apply elem_of_seq. apply lookup_lt_Some in Hp. lia.
    + intros (p & -> & Hf & Hp%elem_of_seq). destruct (lookup_lt_is_Some_2 recs p ltac:(lia)) as [t Ht].
      exists (key t, Some p). split; [done|]. apply elem_of_map_to_list. by apply (inv_kept _ _ _ I).
Qed.

Lemma reg_values_all m recs : reg_inv m recs [] -> m_values m ≡ₚ map Some (seq 0 (length recs)).
Proof.
  intros I. rewrite (reg_values _ _ _ I), filter_true; [done|]. apply Forall_forall. intros p _. apply not_elem_of_nil.
Qed.
End records.
