(* ===== verification/Ring.v ===== *)
(** * ring.c: the bounded queue between two threads

    The state under the lock and the critical sections of each call.  A call
    that waits on a condition variable gives the lock up, so [publish_step] and
    [consume_step] are what one hold of the lock does: they finish with a status
    or wait, and a woken thread runs the same step again (the source tests
    [closed] first and then the room, on entry and after every wait alike).
    [world_step] interleaves the calls of any number of producers and consumers.

    Documents are identified by their address; [idx_json_free] is recorded as
    the list of documents a step frees. *)

From S2P Require Import Prelude.
#[local] Open Scope Z_scope.

(** src/include/ring.h:62-89 [idx_ring_entry]; [doc] is [None] for null, and
    [node] is the address of the node inside the document, which the ring only
    carries. *)
Record idx_ring_entry := RingEntry {
  seq : Z;
  slot : Z;
  doc : option Z;
  node : Z;
  tag : Z;
  payload_bytes : Z
}.

(** src/include/ring.h:91-99 [idx_ring_stats] *)
Record idx_ring_stats := RingStats {
  published : Z;
  consumed : Z;
  dropped : Z;
  stat_bytes : Z;
  stat_depth : Z;
  stat_queued : Z;
  high_water : Z
}.

(** src/src/ring.c:14-29 [idx_ring]: what the lock protects.  A cell of the
    zeroed queue no entry was stored in yet is [None]. *)
Record idx_ring := Ring {
  queue : list (option idx_ring_entry);
  depth : Z;
  head : Z;
  tail : Z;
  next_seq : Z;
  closed : bool;
  block_when_full : bool;
  stats : idx_ring_stats
}.

(** src/include/ring.h:34-34 [IDX_RING_DEFAULT_DEPTH] *)
Definition IDX_RING_DEFAULT_DEPTH : Z := 8.

(** src/src/ring.c:31-37 [idx_ring_options_init]: the depth and the blocking
    flag. *)
Definition idx_ring_options_init : Z * bool := (IDX_RING_DEFAULT_DEPTH, false).

(** [(size_t)(ring->head - ring->tail)] *)
Definition queued_now (r : idx_ring) : Z := u64 (head r - tail r).

(** src/src/ring.c:40-46 [note_queued] *)
Definition note_queued (r : idx_ring) : idx_ring :=
  let queued := queued_now r in
  let s := stats r in
  Ring (queue r) (depth r) (head r) (tail r) (next_seq r) (closed r) (block_when_full r)
    (RingStats (published s) (consumed s) (dropped s) (stat_bytes s) (stat_depth s) queued
       (if high_water s <? queued then queued else high_water s)).

(** src/src/ring.c:48-96 [idx_ring_new] *)
Definition idx_ring_new (options : option (Z * bool)) (h : heap) : result idx_ring * heap :=
  let '(d, block) :=
    match options with
    | None => (IDX_RING_DEFAULT_DEPTH, false)
    | Some (d, b) => (if negb (d =? 0) then d else IDX_RING_DEFAULT_DEPTH, b)
    end in
  if d <? 2 then (IDX_FAIL IDX_ERR_RANGE, h)
  else
    let '(ok1, h1) := malloc h in
    if negb ok1 then (IDX_FAIL IDX_ERR_NO_MEMORY, h1)
    else
      let '(ok2, h2) := calloc d 48 h1 in
      if negb ok2 then (IDX_FAIL IDX_ERR_NO_MEMORY, h2)
      else (Ok (Ring (replicate (Z.to_nat d) None) d 0 0 0 false block
                  (RingStats 0 0 0 0 d 0 0)), h2).

(** The cell of a queue position. *)
Definition cell (r : idx_ring) (pos : Z) : nat := Z.to_nat (pos mod depth r).

(** The documents a cell owns. *)
Definition docs_in (c : option idx_ring_entry) : list Z :=
  match c with Some e => option_list (doc e) | None => [] end.

(** The cell after its document was freed or handed over. *)
Definition clear_doc (c : option idx_ring_entry) : option idx_ring_entry :=
  match c with
  | Some e => Some (RingEntry (seq e) (slot e) None (node e) (tag e) (payload_bytes e))
  | None => None
  end.

(** src/src/ring.c:114-125 [drop_oldest]; returns the documents it frees. *)
Definition drop_oldest (r : idx_ring) : idx_ring * list Z :=
  let i := cell r (tail r) in
  let oldest := queue r !!! i in
  let s := stats r in
  (Ring (<[i := clear_doc oldest]> (queue r)) (depth r) (head r) (u64 (tail r + 1)) (next_seq r)
     (closed r) (block_when_full r)
     (RingStats (published s) (consumed s) (u64 (dropped s + 1)) (stat_bytes s) (stat_depth s)
        (stat_queued s) (high_water s)),
   docs_in oldest).

(** src/src/ring.c:163-170 [idx_ring_publish]: storing the entry. *)
Definition enqueue (r : idx_ring) (entry : idx_ring_entry) : idx_ring :=
  let desc := RingEntry (next_seq r) (slot entry) (doc entry) (node entry) (tag entry)
                (payload_bytes entry) in
  let s := stats r in
  note_queued
    (Ring (<[cell r (head r) := Some desc]> (queue r)) (depth r) (u64 (head r + 1)) (tail r)
       (u64 (next_seq r + 1)) (closed r) (block_when_full r)
       (RingStats (u64 (published s + 1)) (consumed s) (dropped s)
          (u64 (stat_bytes s + payload_bytes entry))
          (stat_depth s) (stat_queued s) (high_water s))).

(** What one hold of the lock ends with: a status, or waiting on a condition. *)
Inductive outcome := Done (s : idx_status) | Wait.

(** src/src/ring.c:127-175 [idx_ring_publish]: one hold of the lock, with the
    documents it frees. *)
Definition publish_step (r : idx_ring) (entry : idx_ring_entry) : outcome * idx_ring * list Z :=
  if closed r then (Done IDX_ERR_CLOSED, r, option_list (doc entry))
  else if depth r <=? queued_now r then
    if negb (block_when_full r) then
      let '(r', freed) := drop_oldest r in (Done IDX_OK, enqueue r' entry, freed)
    else (Wait, r, [])
  else (Done IDX_OK, enqueue r entry, []).

(** src/src/ring.c:127-134 [idx_ring_publish]: the null arguments. *)
Definition idx_ring_publish (ring : option idx_ring) (entry : option idx_ring_entry)
    : outcome * option idx_ring * list Z :=
  match ring, entry with
  | Some r, Some e => let '(o, r', freed) := publish_step r e in (o, Some r', freed)
  | _, _ => (Done IDX_ERR_INVALID_ARG, ring,
             match entry with Some e => option_list (doc e) | None => [] end)
  end.

(** src/src/ring.c:188-229 [idx_ring_consume]: one hold of the lock; a wait that
    ends in [ETIMEDOUT] returns [IDX_ERR_TIMEOUT] and changes nothing. *)
Definition consume_step (r : idx_ring) (timeout_ms : Z) : outcome * idx_ring * option idx_ring_entry :=
  if head r =? tail r then
    if closed r then (Done IDX_ERR_CLOSED, r, None)
    else if timeout_ms <=? 0 then (Done IDX_ERR_TIMEOUT, r, None)
    else (Wait, r, None)
  else
    let i := cell r (tail r) in
    let desc := queue r !!! i in
    let s := stats r in
    (Done IDX_OK,
     note_queued
       (Ring (<[i := clear_doc desc]> (queue r)) (depth r) (head r) (u64 (tail r + 1)) (next_seq r)
          (closed r) (block_when_full r)
          (RingStats (published s) (u64 (consumed s + 1)) (dropped s) (stat_bytes s) (stat_depth s)
             (stat_queued s) (high_water s))),
     desc).

(** src/src/ring.c:231-238 [idx_ring_release]: frees the entry's document. *)
Definition idx_ring_release (entry : option idx_ring_entry) : option idx_ring_entry * list Z :=
  (clear_doc entry, docs_in entry).

(** src/src/ring.c:240-249 [idx_ring_close] *)
Definition idx_ring_close (r : idx_ring) : idx_ring :=
  Ring (queue r) (depth r) (head r) (tail r) (next_seq r) true (block_when_full r) (stats r).

(** src/src/ring.c:251-259 [idx_ring_get_stats] *)
Definition idx_ring_get_stats (r : idx_ring) : idx_ring_stats := stats r.

(** src/src/ring.c:98-111 [idx_ring_free]: the documents the loop frees. *)
Fixpoint free_loop (rounds : nat) (r : idx_ring) : list Z :=
  match rounds with
  | O => []
  | S rounds' =>
      if tail r =? head r then []
      else
        docs_in (queue r !!! cell r (tail r)) ++
        free_loop rounds' (Ring (queue r) (depth r) (head r) (u64 (tail r + 1)) (next_seq r)
                             (closed r) (block_when_full r) (stats r))
  end.

(** src/src/ring.c:98-111 [idx_ring_free] *)
Definition idx_ring_free (ring : option idx_ring) : list Z :=
  match ring with None => [] | Some r => free_loop (Z.to_nat (queued_now r)) r end.

(** ** Threads *)

(** The ring, the entries blocked producers hold, the entries consumers hold,
    and the documents freed so far. *)
Record world := World {
  ring : idx_ring;
  blocked : list idx_ring_entry;
  held : list idx_ring_entry;
  freed : list Z
}.

(** One hold of the lock by some thread.  The label is the documents that enter
    the system with it. *)
Inductive world_step : world -> list Z -> world -> Prop :=
  | step_publish w entry o r' fr :
      publish_step (ring w) entry = (o, r', fr) ->
      head (ring w) + 1 < 2 ^ 64 ->
      world_step w (option_list (doc entry))
        (World r' (match o with Wait => entry :: blocked w | Done _ => blocked w end)
           (held w) (fr ++ freed w))
  | step_wake w l1 entry l2 o r' fr :
      blocked w = l1 ++ entry :: l2 ->
      publish_step (ring w) entry = (o, r', fr) ->
      head (ring w) + 1 < 2 ^ 64 ->
      world_step w []
        (World r' (match o with Wait => blocked w | Done _ => l1 ++ l2 end)
           (held w) (fr ++ freed w))
  | step_consume w timeout_ms o r' e :
      consume_step (ring w) timeout_ms = (o, r', e) ->
      world_step w [] (World r' (blocked w) (option_list e ++ held w) (freed w))
  | step_release w l1 entry l2 :
      held w = l1 ++ entry :: l2 ->
      world_step w []
        (World (ring w) (blocked w) (l1 ++ l2) ((idx_ring_release (Some entry)).2 ++ freed w))
  | step_close w :
      world_step w [] (World (idx_ring_close (ring w)) (blocked w) (held w) (freed w)).

(** A run from a fresh ring, with every document handed in so far. *)
Inductive reachable (r0 : idx_ring) : list Z -> world -> Prop :=
  | reach_init : reachable r0 [] (World r0 [] [] [])
  | reach_step docs w entered w' :
      reachable r0 docs w -> world_step w entered w' -> reachable r0 (entered ++ docs) w'.

(** ** The abstract queue *)

(** The entries waiting in the ring, oldest first. *)
Definition pending (r : idx_ring) : list idx_ring_entry :=
  omap (fun p => queue r !!! cell r p) (seqZ (tail r) (head r - tail r)).

(** An entry as it is stored: the ring assigns the sequence number. *)
Definition stamped (n : Z) (e : idx_ring_entry) : idx_ring_entry :=
  RingEntry n (slot e) (doc e) (node e) (tag e) (payload_bytes e).

(** The specification: a bounded FIFO that loses its head, or makes the producer
    wait, when it is full. *)
Definition spec_publish (r : idx_ring) (e : idx_ring_entry)
    : outcome * list idx_ring_entry * list Z :=
  let q := pending r in
  if closed r then (Done IDX_ERR_CLOSED, q, option_list (doc e))
  else if size q <? depth r then (Done IDX_OK, q ++ [stamped (head r) e], [])
  else if block_when_full r then (Wait, q, [])
  else (Done IDX_OK, tl q ++ [stamped (head r) e], docs_in (hd_error q)).

Definition spec_consume (r : idx_ring) (timeout_ms : Z)
    : outcome * list idx_ring_entry * option idx_ring_entry :=
  match pending r with
  | e :: q => (Done IDX_OK, q, Some e)
  | [] => (if closed r then Done IDX_ERR_CLOSED
           else if timeout_ms <=? 0 then Done IDX_ERR_TIMEOUT else Wait, [], None)
  end.

(** The ring invariant: positions in range, every position between [tail] and
    [head] holding the entry with that sequence number, and the counters telling
    the positions apart. *)
Definition ring_ok (r : idx_ring) : Prop :=
  2 <= depth r /\ size (queue r) = depth r /\
  0 <= tail r <= head r /\ head r < 2 ^ 64 /\ head r - tail r <= depth r /\
  next_seq r = head r /\
  (forall p, tail r <= p < head r ->
     exists e, queue r !! cell r p = Some (Some e) /\ seq e = p) /\
  published (stats r) = head r /\
  consumed (stats r) + dropped (stats r) = tail r /\
  0 <= consumed (stats r) /\ 0 <= dropped (stats r).

(** A consumer that takes until the ring reports closed; [None] when [fuel]
    rounds do not end it. *)
Fixpoint drain (fuel : nat) (r : idx_ring) : option (list idx_ring_entry) :=
  match fuel with
  | O => None
  | S fuel' =>
      match consume_step r 0 with
      | (Done IDX_OK, r', Some e) => cons e <$> drain fuel' r'
      | (Done IDX_ERR_CLOSED, _, _) => Some []
      | _ => None
      end
  end.

(** ** The queue representation *)

Lemma cell_inj d p q :
  0 < d -> p mod d = q mod d -> Z.abs (p - q) < d -> p = q.
Proof.
  intros Hd Hm Ha. pose proof (Z.div_mod p d ltac:(lia)). pose proof (Z.div_mod q d ltac:(lia)).
  assert (p - q = d * (p / d - q / d)) as Heq by lia.
  assert (p / d - q / d = 0) by nia. lia.
Qed.

Lemma cell_ne r p q :
  0 < depth r -> p <> q -> Z.abs (p - q) < depth r -> cell r p <> cell r q.
Proof.
  intros Hd Hne Ha Heq. unfold cell in Heq. apply Hne. apply (cell_inj (depth r)); auto.
  pose proof (Z.mod_pos_bound p (depth r) Hd). pose proof (Z.mod_pos_bound q (depth r) Hd). lia.
Qed.

Lemma cell_lt r p : ring_ok r -> (cell r p < length (queue r))%nat.
Proof.
  intros (Hd & Hq & _). unfold cell, size in *.
  pose proof (Z.mod_pos_bound p (depth r) ltac:(lia)). lia.
Qed.

Lemma omap_some_length {A B} (f : A -> option B) (l : list A) :
  (forall x, x ∈ l -> is_Some (f x)) -> length (omap f l) = length l.
Proof.
  induction l as [|x l IH]; intros H; [done|]. simpl.
  destruct (H x ltac:(left)) as [y ->]. simpl. f_equal. apply IH. intros z Hz. apply H. by right.
Qed.

Lemma omap_ext_in {A B} (f g : A -> option B) (l : list A) :
  (forall x, x ∈ l -> f x = g x) -> omap f l = omap g l.
Proof.
  induction l as [|x l IH]; intros H; [done|]. simpl. rewrite (H x ltac:(left)).
  assert (omap f l = omap g l) as Heq by (apply IH; intros y Hy; apply H; by right).
  destruct (g x); [by f_equal|done].
Qed.

Lemma pending_size r : ring_ok r -> size (pending r) = head r - tail r.
Proof.
  intros (Hd & Hq & Ht & Hh & Hdep & _ & Hcells & _). unfold pending, size.
  rewrite omap_some_length; [rewrite length_seqZ; lia|].
  intros p Hp. apply elem_of_seqZ in Hp. destruct (Hcells p ltac:(lia)) as (e & He & _).
  rewrite (list_lookup_total_correct _ _ _ He). by eexists.
Qed.

Lemma queued_now_pending r : ring_ok r -> queued_now r = size (pending r).
Proof.
  intros Hok. rewrite pending_size by done. destruct Hok as (_ & _ & Ht & Hh & _).
  apply Z.mod_small. lia.
Qed.

Lemma pending_cons r :
  ring_ok r -> head r <> tail r ->
  exists e, queue r !!! cell r (tail r) = Some e /\ seq e = tail r /\
    pending r = e :: omap (fun p => queue r !!! cell r p) (seqZ (tail r + 1) (head r - tail r - 1)).
Proof.
  intros Hok Hne. pose proof Hok as (Hd & Hq & Ht & Hh & Hdep & _ & Hcells & _).
  destruct (Hcells (tail r) ltac:(lia)) as (e & He & Hs). exists e.
  rewrite (list_lookup_total_correct _ _ _ He). split_and!; auto.
  unfold pending. rewrite seqZ_cons by lia. simpl.
  rewrite (list_lookup_total_correct _ _ _ He). simpl. repeat f_equal; lia.
Qed.

(** Writing a cell outside the live positions changes none of them. *)
Lemma cells_insert r i c p :
  cell r p <> i -> <[i := c]> (queue r) !!! cell r p = queue r !!! cell r p.
Proof. intros Hne. by rewrite list_lookup_total_insert_ne. Qed.

(** The ring after its oldest entry left, by consumption or by a drop: any ring
    that differs only in the first cell, the tail and the counters. *)
Lemma pop_ok r r' c :
  ring_ok r -> head r <> tail r ->
  queue r' = <[cell r (tail r) := c]> (queue r) -> depth r' = depth r -> head r' = head r ->
  tail r' = tail r + 1 -> next_seq r' = next_seq r -> published (stats r') = published (stats r) ->
  consumed (stats r') + dropped (stats r') = consumed (stats r) + dropped (stats r) + 1 ->
  0 <= consumed (stats r') -> 0 <= dropped (stats r') ->
  ring_ok r' /\ pending r' = tl (pending r).
Proof.
  intros Hok Hne Eq Ed Eh Et En Ep Ec Hc1 Hc2.
  pose proof Hok as (Hd & Hq & Ht & Hh & Hdep & Hn & Hcells & Hp & Hcd & _).
  assert (forall p, tail r < p < head r -> cell r' p = cell r p /\ cell r (tail r) <> cell r p) as Hcell.
  { intros p Hp'. split; [unfold cell; by rewrite Ed|]. apply cell_ne; lia. }
  split.
  - unfold ring_ok. rewrite Eq, Ed, Eh, Et, En, Ep, Ec. unfold size in *. rewrite length_insert.
    split_and!; auto; try lia. intros p Hp'. destruct (Hcell p ltac:(lia)) as [-> Hne'].
    rewrite list_lookup_insert_ne by done. apply Hcells. lia.
  - destruct (pending_cons r Hok Hne) as (e & _ & _ & ->). unfold pending. simpl.
    rewrite Eh, Et. replace (head r - (tail r + 1)) with (head r - tail r - 1) by lia.
    apply omap_ext_in. intros p Hp'. apply elem_of_seqZ in Hp'.
    destruct (Hcell p ltac:(lia)) as [-> Hne']. rewrite Eq. by apply cells_insert.
Qed.

Lemma enqueue_ok r e :
  ring_ok r -> head r - tail r < depth r -> head r + 1 < 2 ^ 64 ->
  ring_ok (enqueue r e) /\ pending (enqueue r e) = pending r ++ [stamped (head r) e].
Proof.
  intros Hok Hroom Hw. pose proof Hok as (Hd & Hq & Ht & Hh & Hdep & Hn & Hcells & Hp & Hcd & Hc & Hdr).
  pose proof (cell_lt r (head r) Hok) as Hlt.
  assert (u64 (head r + 1) = head r + 1) as Hu by (apply Z.mod_small; lia).
  assert (forall p, tail r <= p < head r -> cell r (head r) <> cell r p) as Hcell
    by (intros p Hp'; apply cell_ne; lia).
  unfold enqueue, note_queued. rewrite Hn. fold (stamped (head r) e). split.
  - unfold ring_ok. simpl. unfold size in *. rewrite length_insert, Hu, Hp, Hu.
    split_and!; auto; try lia. intros p Hp'. unfold cell at 2. simpl. fold (cell r p).
    destruct (decide (p = head r)) as [->|Hne].
    + rewrite list_lookup_insert_eq by done. by eexists.
    + rewrite list_lookup_insert_ne by (apply Hcell; lia). apply Hcells. lia.
  - unfold pending. simpl. rewrite Hu.
    replace (head r + 1 - tail r) with ((head r - tail r) + 1) by lia.
    rewrite seqZ_app, omap_app by lia. f_equal.
    + apply omap_ext_in. intros p Hp'. apply elem_of_seqZ in Hp'.
      exact (cells_insert r (cell r (head r)) _ p (not_eq_sym (Hcell p ltac:(lia)))).
    + replace (tail r + (head r - tail r)) with (head r) by lia. unfold seqZ. simpl.
      unfold cell at 2. simpl. fold (cell r (head r)).
      replace (head r + 0) with (head r) by lia.
      by rewrite list_lookup_total_insert_eq.
Qed.

Lemma drop_oldest_ok r :
  ring_ok r -> head r <> tail r ->
  ring_ok (drop_oldest r).1 /\ pending (drop_oldest r).1 = tl (pending r) /\
  (drop_oldest r).2 = docs_in (hd_error (pending r)).
Proof.
  intros Hok Hne. pose proof Hok as (Hd & Hq & Ht & Hh & Hdep & Hn & Hcells & Hp & Hcd & Hc & Hdr).
  assert (u64 (tail r + 1) = tail r + 1) as Hu by (apply Z.mod_small; lia).
  assert (u64 (dropped (stats r) + 1) = dropped (stats r) + 1) as Hu2 by (apply Z.mod_small; lia).
  destruct (pop_ok r (drop_oldest r).1 (clear_doc (queue r !!! cell r (tail r))))
    as [H1 H2]; auto; try (simpl; rewrite ?Hu2; lia).
  split_and!; [done|done|]. destruct (pending_cons r Hok Hne) as (e & He & _ & ->).
  simpl. by rewrite He.
Qed.


(** ** One hold of the lock against the specification *)

Lemma pending_nil r : ring_ok r -> head r = tail r -> pending r = [].
Proof.
  intros Hok He. pose proof (pending_size r Hok) as Hs. unfold size in Hs.
  destruct (pending r); [done|]. simpl in Hs. lia.
Qed.

(** The flags and the depth, which no queue operation changes. *)
Definition same_flags (r r' : idx_ring) : Prop :=
  depth r' = depth r /\ closed r' = closed r /\ block_when_full r' = block_when_full r.

Lemma publish_step_ok r e o r' fr :
  ring_ok r -> head r + 1 < 2 ^ 64 -> publish_step r e = (o, r', fr) ->
  ring_ok r' /\ same_flags r r' /\ (o, pending r', fr) = spec_publish r e.
Proof.
  intros Hok Hw. pose proof (pending_size r Hok) as Hsz. pose proof Hok as (Hd & _).
  unfold publish_step, spec_publish. rewrite (queued_now_pending r Hok), Hsz.
  destruct (closed r) eqn:Hc; [intros [= <- <- <-]; by unfold same_flags|].
  destruct (depth r <=? head r - tail r) eqn:Hfull.
  - rewrite (proj2 (Z.ltb_ge _ _)) by lia. destruct (block_when_full r) eqn:Hb; cbn [negb].
    { intros [= <- <- <-]. by unfold same_flags. }
    destruct (drop_oldest_ok r Hok ltac:(lia)) as (Hok1 & Hp1 & Hf1).
    assert (u64 (tail r + 1) = tail r + 1) as Hu.
    { apply Z.mod_small. destruct Hok as (_ & _ & ? & ? & _). lia. }
    destruct (enqueue_ok (drop_oldest r).1 e Hok1) as [Hok2 Hp2].
    { simpl. rewrite Hu. destruct Hok as (_ & _ & ? & ? & ? & _). lia. }
    { simpl. lia. }
    assert (same_flags r (enqueue (drop_oldest r).1 e)) as Hsf by done.
    assert (head (drop_oldest r).1 = head r) as Hh1 by done.
    destruct (drop_oldest r) as [r1 f1]. cbn [fst snd] in *. intros [= <- <- <-].
    split_and!; [done|done|]. by rewrite Hp2, Hp1, Hf1, Hh1.
  - rewrite (proj2 (Z.ltb_lt _ _)) by lia. intros [= <- <- <-].
    destruct (enqueue_ok r e Hok ltac:(lia) Hw) as [Hok2 Hp2].
    split_and!; [done|by unfold same_flags|]. by rewrite Hp2.
Qed.

Lemma consume_step_ok r t o r' e :
  ring_ok r -> consume_step r t = (o, r', e) ->
  ring_ok r' /\ same_flags r r' /\ head r' = head r /\ (o, pending r', e) = spec_consume r t.
Proof.
  intros Hok. unfold consume_step, spec_consume.
  destruct (head r =? tail r) eqn:He.
  - rewrite (pending_nil r Hok) by lia. destruct (closed r); [|destruct (t <=? 0)];
      intros [= <- <- <-]; rewrite (pending_nil r Hok) by lia; by unfold same_flags.
  - destruct (pending_cons r Hok ltac:(lia)) as (x & Hx & Hs & Hpend).
    rewrite Hpend, Hx. intros [= <- <- <-].
    pose proof Hok as (Hd & Hq & Ht & Hh & Hdep & Hn & Hcells & Hp & Hcd & Hc & Hdr).
    assert (u64 (tail r + 1) = tail r + 1) as Hu by (apply Z.mod_small; lia).
    assert (u64 (consumed (stats r) + 1) = consumed (stats r) + 1) as Hu2 by (apply Z.mod_small; lia).
    match goal with |- ring_ok ?r' /\ _ => destruct (pop_ok r r' (clear_doc (Some x))) as [H1 H2] end;
      auto; try (simpl; rewrite ?Hu2; lia).
    split_and!; [done|by unfold same_flags|done|]. by rewrite H2, Hpend.
Qed.

Lemma pending_close r : pending (idx_ring_close r) = pending r.
Proof. done. Qed.

Lemma close_ok r : ring_ok r -> ring_ok (idx_ring_close r).
Proof. done. Qed.

Lemma new_ok options h r h' :
  idx_ring_new options h = (Ok r, h') ->
  ring_ok r /\ pending r = [] /\ closed r = false /\
  depth r = match options with
            | Some (d, _) => if d =? 0 then IDX_RING_DEFAULT_DEPTH else d
            | None => IDX_RING_DEFAULT_DEPTH
            end /\
  block_when_full r = match options with Some (_, b) => b | None => false end.
Proof.
  unfold idx_ring_new.
  destruct (match options with None => _ | Some _ => _ end) as [d b] eqn:Ho.
  destruct (d <? 2) eqn:Hd; [done|]. destruct (malloc h) as [[] h1]; [|done]. simpl.
  destruct (calloc d 48 h1) as [[] h2]; [|done]. simpl. intros [= <- <-].
  assert (d = match options with
            | Some (d, _) => if d =? 0 then IDX_RING_DEFAULT_DEPTH else d
            | None => IDX_RING_DEFAULT_DEPTH end /\
          b = match options with Some (_, b) => b | None => false end) as [-> ->].
  { destruct options as [[d' b']|]; [|by simplify_eq].
    injection Ho as <- <-. by destruct (d' =? 0). }
  split_and!; try done. unfold ring_ok, size. simpl. rewrite length_replicate.
  split_and!; try done; lia.
Qed.

(** ** Ownership *)

(** The documents a list of entries owns. *)
Definition docs (l : list idx_ring_entry) : list Z := l ≫= (fun e => option_list (doc e)).

Lemma docs_app l1 l2 : docs (l1 ++ l2) = docs l1 ++ docs l2.
Proof. apply bind_app. Qed.

Lemma docs_cons e l : docs (e :: l) = option_list (doc e) ++ docs l.
Proof. done. Qed.

Lemma docs_stamped n e : docs [stamped n e] = option_list (doc e).
Proof. unfold docs. simpl. apply app_nil_r. Qed.

Lemma docs_hd_tl q : docs q ≡ₚ docs (tl q) ++ docs_in (hd_error q).
Proof. destruct q as [|x q]; [done|]. rewrite docs_cons. simpl. apply Permutation_app_comm. Qed.

(** All a world accounts for. *)
Definition accounted (w : world) : list Z :=
  docs (pending (ring w)) ++ docs (blocked w) ++ docs (held w) ++ freed w.

(** What a publish takes in ends in the queue, with the waiting producer or
    freed. *)
Lemma publish_docs r e o r' fr :
  ring_ok r -> head r + 1 < 2 ^ 64 -> publish_step r e = (o, r', fr) ->
  docs (pending r) ++ option_list (doc e) ≡ₚ
  docs (pending r') ++ match o with Wait => option_list (doc e) | Done _ => [] end ++ fr.
Proof.
  intros Hok Hw H. destruct (publish_step_ok _ _ _ _ _ Hok Hw H) as (_ & _ & Hs).
  unfold spec_publish in Hs. destruct (closed r); [by injection Hs as -> -> ->|].
  destruct (size (pending r) <? depth r); [|destruct (block_when_full r)].
  - injection Hs as -> -> ->. by rewrite docs_app, docs_stamped, app_nil_r.
  - injection Hs as -> -> ->. by rewrite app_nil_r.
  - injection Hs as -> -> ->. rewrite docs_app, docs_stamped, (docs_hd_tl (pending r)). simpl.
    rewrite <- !app_assoc. f_equiv. apply Permutation_app_comm.
Qed.

Lemma consume_docs r t o r' e :
  ring_ok r -> consume_step r t = (o, r', e) -> docs (pending r) = docs (option_list e) ++ docs (pending r').
Proof.
  intros Hok H. destruct (consume_step_ok _ _ _ _ _ Hok H) as (_ & _ & _ & Hs).
  unfold spec_consume in Hs. destruct (pending r) as [|x q]; injection Hs as -> -> ->; [done|].
  rewrite docs_cons. f_equal. symmetry. apply app_nil_r.
Qed.

Lemma world_step_ok w entered w' :
  ring_ok (ring w) -> world_step w entered w' ->
  ring_ok (ring w') /\ depth (ring w') = depth (ring w) /\
  block_when_full (ring w') = block_when_full (ring w) /\
  accounted w' ≡ₚ entered ++ accounted w.
Proof.
  intros Hok Hs. destruct Hs as [w e o r' fr Hp Hw|w l1 e l2 o r' fr Hb Hp Hw|w t o r' e Hc
    |w l1 e l2 Hh|w]; unfold accounted; cbn [ring blocked held freed].
  - destruct (publish_step_ok _ _ _ _ _ Hok Hw Hp) as (? & (? & _ & ?) & _). split_and!; auto.
    pose proof (publish_docs _ _ _ _ _ Hok Hw Hp) as Hd.
    transitivity ((docs (pending (ring w)) ++ option_list (doc e)) ++
                  docs (blocked w) ++ docs (held w) ++ freed w); [|solve_Permutation].
    rewrite Hd. destruct o; rewrite ?docs_cons; solve_Permutation.
  - destruct (publish_step_ok _ _ _ _ _ Hok Hw Hp) as (? & (? & _ & ?) & _). split_and!; auto.
    pose proof (publish_docs _ _ _ _ _ Hok Hw Hp) as Hd. rewrite Hb, !docs_app, docs_cons.
    transitivity ((docs (pending (ring w)) ++ option_list (doc e)) ++
                  docs l1 ++ docs l2 ++ docs (held w) ++ freed w);
      [|rewrite ?app_nil_l; solve_Permutation].
    rewrite Hd. destruct o; rewrite ?docs_app, ?docs_cons; solve_Permutation.
  - destruct (consume_step_ok _ _ _ _ _ Hok Hc) as (? & (? & _ & ?) & _ & _). split_and!; auto.
    rewrite (consume_docs _ _ _ _ _ Hok Hc), docs_app. simpl. solve_Permutation.
  - split_and!; auto. rewrite Hh, !docs_app, docs_cons. simpl.
    unfold docs_in. solve_Permutation.
  - split_and!; auto. 
Qed.

Lemma reachable_ok r0 docs w :
  ring_ok r0 -> pending r0 = [] -> reachable r0 docs w ->
  ring_ok (ring w) /\ block_when_full (ring w) = block_when_full r0 /\ docs ≡ₚ accounted w.
Proof.
  intros Hok Hp Hr. induction Hr as [|ds w entered w' _ (Hw & Hb & Hd) Hs].
  - split_and!; auto. unfold accounted. simpl. by rewrite Hp.
  - destruct (world_step_ok _ _ _ Hw Hs) as (Hok' & _ & Hb' & Ha).
    split_and!; [done|congruence|]. by rewrite Ha, Hd.
Qed.

(** A ring that blocks when full drops nothing, whatever the threads do. *)
Lemma world_step_dropped w entered w' :
  ring_ok (ring w) -> block_when_full (ring w) = true -> world_step w entered w' ->
  dropped (stats (ring w')) = dropped (stats (ring w)).
Proof.
  assert (forall r e o r' fr, block_when_full r = true -> publish_step r e = (o, r', fr) ->
    dropped (stats r') = dropped (stats r)) as Hpub.
  { intros r e o r' fr Hb. unfold publish_step. rewrite Hb.
    destruct (closed r); [|destruct (depth r <=? queued_now r)]; by intros [= <- <- <-]. }
  intros Hok Hb Hs. destruct Hs as [w e o r' fr Hp Hw|w l1 e l2 o r' fr Hbl Hp Hw|w t o r' e Hc
    |w l1 e l2 Hh|w]; cbn [ring]; eauto.
  unfold consume_step in Hc. destruct (head (ring w) =? tail (ring w)).
  - destruct (closed (ring w)); [|destruct (t <=? 0)]; by injection Hc as <- <- <-.
  - by injection Hc as <- <- <-.
Qed.

Lemma seq_of_head_pending r :
  ring_ok r -> head r <> tail r ->
  exists e q, pending r = e :: q /\ seq e = consumed (stats r) + dropped (stats r).
Proof.
  intros Hok Hne. destruct (pending_cons r Hok Hne) as (e & _ & Hs & ->).
  eexists _, _. split; [done|]. rewrite Hs.
  by destruct Hok as (_ & _ & _ & _ & _ & _ & _ & _ & -> & _).
Qed.

(** The documents [idx_ring_free] frees are those still queued. *)
Lemma free_loop_ok n r :
  ring_ok r -> n = Z.to_nat (head r - tail r) -> free_loop n r = docs (pending r).
Proof.
  revert r. induction n as [|n IH]; intros r Hok Hn.
  - rewrite (pending_nil r Hok); [done|]. destruct Hok as (_ & _ & ? & _). lia.
  - simpl. rewrite (proj2 (Z.eqb_neq _ _)) by lia.
    destruct (pending_cons r Hok ltac:(lia)) as (e & He & Hs & Hp). rewrite Hp, He, docs_cons.
    simpl. f_equal.
    pose proof Hok as (Hd & Hq & Ht & Hh & Hdep & Hn' & Hcells & Hpu & Hcd & Hc & Hdr).
    assert (u64 (tail r + 1) = tail r + 1) as -> by (apply Z.mod_small; lia).
    set (s' := RingStats (published (stats r)) (consumed (stats r) + 1) (dropped (stats r))
                 (stat_bytes (stats r)) (stat_depth (stats r)) (stat_queued (stats r))
                 (high_water (stats r))).
    set (r' := Ring (queue r) (depth r) (head r) (tail r + 1) (next_seq r) (closed r)
                 (block_when_full r) s').
    destruct (pop_ok r r' (queue r !!! cell r (tail r)) Hok) as [Hok' Hp']; simpl; auto; try lia.
    { symmetry. apply list_insert_id. rewrite He.
      destruct (Hcells (tail r) ltac:(lia)) as (e' & He' & _).
      rewrite He'. rewrite (list_lookup_total_correct _ _ _ He') in He. congruence. }
    transitivity (free_loop n r'); [|rewrite IH; [by rewrite Hp', Hp|done|simpl; lia]].
    clear. subst r' s'. generalize (tail r + 1). induction n as [|n IH]; intros t; [done|].
    simpl. destruct (t =? head r); [done|]. f_equal. apply IH.
Qed.

Lemma idx_ring_free_docs r : ring_ok r -> idx_ring_free (Some r) = docs (pending r).
Proof.
  intros Hok. apply free_loop_ok; [done|]. rewrite queued_now_pending, pending_size by done. done.
Qed.

Lemma drain_closed fuel r :
  ring_ok r -> closed r = true -> (length (pending r) < fuel)%nat ->
  drain fuel r = Some (pending r).
Proof.
  revert r. induction fuel as [|fuel IH]; intros r Hok Hc Hf; [lia|]. simpl.
  destruct (consume_step r 0) as [[o r'] e] eqn:Hs.
  destruct (consume_step_ok _ _ _ _ _ Hok Hs) as (Hok' & (_ & Hc' & _) & _ & Hspec).
  unfold spec_consume in Hspec. destruct (pending r) as [|x q]; injection Hspec as -> Hp ->.
  - by rewrite Hc.
  - rewrite IH; [by rewrite Hp|done|congruence|]. rewrite Hp. simpl in Hf. lia.
Qed.

(** ** Properties *)

(** Publishing is the specified bounded queue: a closed ring refuses and
    frees the document, a ring with room appends the entry under the next
    sequence number, a full one either makes the producer wait or frees exactly
    the oldest document; the invariant holds afterwards. *)
Theorem ring_publish_refines r e o r' fr :
  ring_ok r -> head r + 1 < 2 ^ 64 -> publish_step r e = (o, r', fr) ->
  ring_ok r' /\ same_flags r r' /\ (o, pending r', fr) = spec_publish r e.
Proof. apply publish_step_ok. Qed.

(** Consuming is the specified queue: the oldest entry while there is one,
    even when the ring is closed; then CLOSED, TIMEOUT or a wait.  The sequence
    number handed out is the number of entries consumed and dropped before it,
    so a consumer that sees a jump of [k + 1] missed exactly [k] drops. *)
Theorem ring_consume_refines r t o r' e :
  ring_ok r -> consume_step r t = (o, r', e) ->
  ring_ok r' /\ same_flags r r' /\ (o, pending r', e) = spec_consume r t /\
  match e with
  | Some x => seq x = consumed (stats r) + dropped (stats r) /\
              consumed (stats r') = consumed (stats r) + 1 /\
              dropped (stats r') = dropped (stats r)
  | None => r' = r
  end.
Proof.
  intros Hok Hs. destruct (consume_step_ok _ _ _ _ _ Hok Hs) as (H1 & H2 & _ & H3).
  split_and!; [done..|]. revert Hs. unfold consume_step.
  destruct (head r =? tail r) eqn:He.
  - destruct (closed r); [|destruct (t <=? 0)]; by intros [= _ <- <-].
  - destruct (pending_cons r Hok ltac:(lia)) as (x & -> & Hx & _).
    pose proof Hok as (_ & _ & ? & ? & _ & _ & _ & _ & Hcd & ? & ?).
    intros [= _ <- <-]. simpl. split_and!; [lia| |done]. apply Z.mod_small. lia.
Qed.

(** C11. No document is leaked or freed twice, whatever any number of producers
    and consumers do: at every reachable moment, the documents handed in so far
    are exactly those [idx_ring_free] would free, those held by blocked
    producers and by consumers, and those freed already. *)
Theorem ring_ownership options h h' r0 entered w :
  idx_ring_new options h = (Ok r0, h') -> reachable r0 entered w ->
  entered ≡ₚ idx_ring_free (Some (ring w)) ++ docs (blocked w) ++ docs (held w) ++ freed w.
Proof.
  intros Hn Hr. destruct (new_ok _ _ _ _ Hn) as (Hok & Hp & _).
  destruct (reachable_ok _ _ _ Hok Hp Hr) as (Hw & _ & ->).
  by rewrite idx_ring_free_docs.
Qed.

(** A ring made to block when full never drops an entry, on any
    interleaving. *)
Theorem ring_blocking_never_drops d h h' r0 entered w :
  idx_ring_new (Some (d, true)) h = (Ok r0, h') -> reachable r0 entered w ->
  dropped (idx_ring_get_stats (ring w)) = 0.
Proof.
  intros Hn Hr. destruct (new_ok _ _ _ _ Hn) as (Hok & Hp & _ & _ & Hb).
  assert (dropped (stats r0) = 0) as H0.
  { revert Hn. unfold idx_ring_new. destruct (_ <? 2); [done|].
    destruct (malloc h) as [[] h1]; [|done]. simpl.
    by destruct (calloc _ 48 h1) as [[] h2]; [intros [= <- _]|]. }
  unfold idx_ring_get_stats. induction Hr as [|ds w entered w' Hr IH Hs]; [done|].
  destruct (reachable_ok _ _ _ Hok Hp Hr) as (Hw & Hbw & _).
  rewrite (world_step_dropped _ _ _ Hw ltac:(congruence) Hs). apply IH.
Qed.

(** C40. Closing loses nothing that was published: a consumer that takes until it
    is told CLOSED ends, and gets exactly the pending entries, in order; a
    producer is refused and its document freed. *)
Theorem ring_close_drains r e fuel :
  ring_ok r -> (length (pending r) < fuel)%nat ->
  drain fuel (idx_ring_close r) = Some (pending r) /\
  publish_step (idx_ring_close r) e =
    (Done IDX_ERR_CLOSED, idx_ring_close r, option_list (doc e)).
Proof.
  intros Hok Hf. split; [|done]. rewrite <- (pending_close r).
  apply drain_closed; [by apply close_ok|done|done].
Qed.

(** ** Witnesses *)

(** A ring of two cells with both in use. *)
Definition full_ring : idx_ring :=
  enqueue (enqueue (Ring [None; None] 2 0 0 0 false false (RingStats 0 0 0 0 2 0 0))
             (RingEntry 0 100 (Some 7) 70 1 500))
    (RingEntry 0 101 (Some 8) 80 1 600).

Lemma full_ring_ok : ring_ok full_ring.
Proof.
  unfold ring_ok. change (head full_ring) with 2. change (tail full_ring) with 0.
  split_and!; try done; try (vm_compute; congruence).
  intros p Hp. assert (p = 0 \/ p = 1) as [-> | ->] by lia; by eexists.
Qed.

Lemma ring_publish_refines_witness :
  exists r', publish_step full_ring (RingEntry 0 102 (Some 9) 90 1 10) = (Done IDX_OK, r', [7]) /\
    ring_ok r' /\ map slot (pending r') = [101; 102] /\ map seq (pending r') = [1; 2].
Proof.
  eexists. split; [reflexivity|].
  destruct (ring_publish_refines full_ring (RingEntry 0 102 (Some 9) 90 1 10) (Done IDX_OK) _ [7]
    full_ring_ok ltac:(done) eq_refl) as (Hok & _ & _).
  split_and!; [exact Hok|vm_compute; reflexivity..].
Defined.

Lemma ring_consume_refines_witness :
  exists r' x, consume_step full_ring 0 = (Done IDX_OK, r', Some x) /\
    ring_ok r' /\ slot x = 100 /\ doc x = Some 7.
Proof.
  eexists _, _. split; [reflexivity|].
  destruct (ring_consume_refines full_ring 0 (Done IDX_OK) _ _ full_ring_ok eq_refl) as (Hok & _).
  split_and!; [exact Hok|vm_compute; reflexivity..].
Defined.

Definition new_ring (block : bool) : idx_ring :=
  Ring [None; None] 2 0 0 0 false block (RingStats 0 0 0 0 2 0 0).

Lemma ring_ownership_witness :
  exists w, reachable (new_ring false) [9; 8; 7] w /\
    [9; 8; 7] ≡ₚ idx_ring_free (Some (ring w)) ++ docs (blocked w) ++ docs (held w) ++ freed w /\
    idx_ring_free (Some (ring w)) = [8; 9] /\ freed w = [7].
Proof.
  evar (w : world). exists w. assert (reachable (new_ring false) [9; 8; 7] w) as Hr; subst w.
  { eapply (reach_step _ [8; 7] _ [9]).
    - eapply (reach_step _ [7] _ [8]).
      + eapply (reach_step _ [] _ [7]); [apply reach_init|].
        by apply (step_publish _ (RingEntry 0 100 (Some 7) 70 1 500)).
      + by apply (step_publish _ (RingEntry 0 101 (Some 8) 80 1 600)).
    - by apply (step_publish _ (RingEntry 0 102 (Some 9) 90 1 10)). }
  split; [exact Hr|]. split; [|split; vm_compute; reflexivity].
  exact (ring_ownership (Some (2, false)) [] [] _ _ _ eq_refl Hr).
Defined.

Lemma ring_blocking_never_drops_witness :
  exists w, reachable (new_ring true) [9; 8; 7] w /\
    dropped (idx_ring_get_stats (ring w)) = 0 /\ length (blocked w) = 1%nat.
Proof.
  evar (w : world). exists w. assert (reachable (new_ring true) [9; 8; 7] w) as Hr; subst w.
  { eapply (reach_step _ [8; 7] _ [9]).
    - eapply (reach_step _ [7] _ [8]).
      + eapply (reach_step _ [] _ [7]); [apply reach_init|].
        by apply (step_publish _ (RingEntry 0 100 (Some 7) 70 1 500)).
      + by apply (step_publish _ (RingEntry 0 101 (Some 8) 80 1 600)).
    - by apply (step_publish _ (RingEntry 0 102 (Some 9) 90 1 10)). }
  split; [exact Hr|]. split; [|reflexivity].
  exact (ring_blocking_never_drops 2 [] [] _ _ _ eq_refl Hr).
Defined.

Lemma ring_close_drains_witness :
  map slot <$> drain 3 (idx_ring_close full_ring) = Some [100; 101].
Proof.
  destruct (ring_close_drains full_ring (RingEntry 0 0 None 0 0 0) 3 full_ring_ok) as [-> _];
    [vm_compute; lia|reflexivity].
Defined.
