(* ===== verification/Gaps.v ===== *)
(** * gaps.c: the set of slots known to be missing

    Every function of the file, one critical section each (the lock is held from
    end to end), but for [idx_gaps_release], which takes it three times: to read the
    count of resolved slots, to resolve the range and to put it back ([put_back]).
    [idx_gaps_release] here is the composition of the three sections when no other
    thread comes between them; Processor.v runs them one by one, with the other
    threads in between.  [ranges] is the array up to [count]; an index that only walks
    forward is a recursion over the rest of the array. *)

From stdpp Require Import sorting.
From S2P Require Import Prelude.
#[local] Open Scope Z_scope.

(** src/include/types.h:46-46 [IDX_SLOT_NONE] *)
Definition IDX_SLOT_NONE : Z := 2 ^ 64 - 1.

(** src/include/gaps.h:45-45 [IDX_GAPS_DEFAULT_MAX_RANGES] *)
Definition IDX_GAPS_DEFAULT_MAX_RANGES : Z := 4096.

(** src/src/gaps.c:9-13 [idx_gaps_entry] *)
Record idx_gaps_entry := GapsEntry { from : Z; to : Z; claimed : bool }.

(** src/include/gaps.h:52-59 [idx_gaps_stats] *)
Record idx_gaps_stats := GapsStats {
  added : Z;
  resolved : Z;
  coarsened : Z;
  range_count : Z;
  slot_count : Z;
  lowest : Z
}.

(** src/src/gaps.c:15-24 [idx_gaps]; [count] is the length of [ranges]. *)
Record idx_gaps := Gaps {
  ranges : list idx_gaps_entry;
  capacity : Z;
  max_ranges : Z;
  stats : idx_gaps_stats
}.

Definition count (g : idx_gaps) : Z := size (ranges g).

Definition set_ranges (g : idx_gaps) (l : list idx_gaps_entry) : idx_gaps :=
  Gaps l (capacity g) (max_ranges g) (stats g).

Definition set_resolved (g : idx_gaps) (n : Z) : idx_gaps :=
  let s := stats g in
  Gaps (ranges g) (capacity g) (max_ranges g)
    (GapsStats (added s) n (coarsened s) (range_count s) (slot_count s) (lowest s)).

(** src/src/gaps.c:27-33 [slots_in] *)
Definition slots_in (g : idx_gaps) : Z :=
  fold_left (fun total e => u64 (total + (to e - from e + 1))) (ranges g) 0.

(** src/src/gaps.c:36-41 [refresh_stats] *)
Definition refresh_stats (g : idx_gaps) : idx_gaps :=
  let s := stats g in
  Gaps (ranges g) (capacity g) (max_ranges g)
    (GapsStats (added s) (resolved s) (coarsened s) (count g) (slots_in g)
       (match ranges g with e :: _ => from e | [] => IDX_SLOT_NONE end)).

(** src/src/gaps.c:43-59 [idx_gaps_new] *)
Definition idx_gaps_new (limit : Z) (h : heap) : result idx_gaps * heap :=
  let '(ok, h') := malloc h in
  if negb ok then (IDX_FAIL IDX_ERR_NO_MEMORY, h')
  else
    (Ok (Gaps [] 0 (if negb (limit =? 0) then limit else IDX_GAPS_DEFAULT_MAX_RANGES)
           (GapsStats 0 0 0 0 0 IDX_SLOT_NONE)), h').

(** src/src/gaps.c:71-84 [reserve_one]: on success, the capacity afterwards. *)
Definition reserve_one (n capacity : Z) (h : heap) : result Z * heap :=
  if n <? capacity then (Ok capacity, h)
  else
    let '(ok, h') := malloc h in
    if negb ok then (IDX_FAIL IDX_ERR_NO_MEMORY, h')
    else (Ok (if capacity =? 0 then 16 else u64 (capacity * 2)), h').

(** src/src/gaps.c:87-91 [remove_at] *)
Definition remove_at (l : list idx_gaps_entry) (index : nat) : list idx_gaps_entry :=
  take index l ++ drop (S index) l.

(** src/src/gaps.c:97-112 [coalesce]: the loop from the range [a] on, whose
    right neighbours are [l]. *)
Fixpoint coalesce_from (a : idx_gaps_entry) (l : list idx_gaps_entry) : list idx_gaps_entry :=
  match l with
  | [] => [a]
  | b :: l' =>
      let adjacent := negb (to a =? IDX_SLOT_NONE) && (from b <=? u64 (to a + 1)) in
      if negb (claimed a) && negb (claimed b) && adjacent then
        coalesce_from (GapsEntry (from a) (if to a <? to b then to b else to a) (claimed a)) l'
      else a :: coalesce_from b l'
  end.

(** src/src/gaps.c:97-112 [coalesce] *)
Definition coalesce (l : list idx_gaps_entry) : list idx_gaps_entry :=
  match l with [] => [] | a :: l' => coalesce_from a l' end.

(** src/src/gaps.c:121-133 [coarsen]: the search for the closest unclaimed
    neighbours, from index [i] on; [best] is [None] for [SIZE_MAX]. *)
Fixpoint closest (i : nat) (l : list idx_gaps_entry) (best : option nat) (best_distance : Z)
    : option nat :=
  match l with
  | a :: (b :: _) as l' =>
      if claimed a || claimed b then closest (S i) l' best best_distance
      else
        let distance := u64 (from b - to a) in
        if (match best with None => true | Some _ => false end) || (distance <? best_distance)
        then closest (S i) l' (Some i) distance
        else closest (S i) l' best best_distance
  | _ => best
  end.

(** src/src/gaps.c:144-145 [coarsen]: [ranges[best].to = ranges[best + 1].to]
    and the removal of the right neighbour. *)
Definition merge_at (l : list idx_gaps_entry) (best : nat) : list idx_gaps_entry :=
  match l !! best, l !! S best with
  | Some a, Some b => remove_at (<[best := GapsEntry (from a) (to b) (claimed a)]> l) (S best)
  | _, _ => l
  end.

(** src/src/gaps.c:119-148 [coarsen]: one round per unit of fuel; returns the
    ranges and the number of merges. *)
Fixpoint coarsen_loop (fuel : nat) (limit : Z) (l : list idx_gaps_entry) (merges : Z)
    : list idx_gaps_entry * Z :=
  match fuel with
  | O => (l, merges)
  | S fuel' =>
      if limit <? size l then
        match closest 0 l None IDX_SLOT_NONE with
        | None => (l, merges)
        | Some best => coarsen_loop fuel' limit (merge_at l best) (u64 (merges + 1))
        end
      else (l, merges)
  end.

(** src/src/gaps.c:119-148 [coarsen]: each round removes a range, so the number
    of ranges is enough fuel. *)
Definition coarsen (g : idx_gaps) : idx_gaps :=
  let s := stats g in
  let '(l, merges) := coarsen_loop (length (ranges g)) (max_ranges g) (ranges g) (coarsened s) in
  Gaps l (capacity g) (max_ranges g)
    (GapsStats (added s) (resolved s) merges (range_count s) (slot_count s) (lowest s)).

(** src/src/gaps.c:155-164 [insert]: the position found by the scan, and the
    entry stored there. *)
Fixpoint insert_sorted (e : idx_gaps_entry) (l : list idx_gaps_entry) : list idx_gaps_entry :=
  match l with
  | [] => [e]
  | x :: l' => if from x <? from e then x :: insert_sorted e l' else e :: x :: l'
  end.

(** src/src/gaps.c:151-170 [insert] *)
Definition insert (g : idx_gaps) (f t : Z) (h : heap) : result idx_gaps * heap :=
  let '(cap, h') := reserve_one (count g) (capacity g) h in
  (cap ← cap;
   let l := coalesce (insert_sorted (GapsEntry f t false) (ranges g)) in
   Ok (refresh_stats (coarsen (Gaps l cap (max_ranges g) (stats g)))), h').

(** src/src/gaps.c:172-190 [idx_gaps_add] *)
Definition idx_gaps_add (gaps : option idx_gaps) (f t : Z) (h : heap) : result idx_gaps * heap :=
  match gaps with
  | None => (IDX_FAIL IDX_ERR_INVALID_ARG, h)
  | Some g =>
      if (t <? f) || (f =? IDX_SLOT_NONE) then (Ok g, h)
      else
        let '(r, h') := insert g f t h in
        (g' ← r;
         let s := stats g' in
         Ok (Gaps (ranges g') (capacity g') (max_ranges g')
               (GapsStats (u64 (added s + 1)) (resolved s) (coarsened s) (range_count s)
                  (slot_count s) (lowest s))), h')
  end.

(** src/src/gaps.c:202-237 [idx_gaps_claim]: the scan; returns the ranges, the
    capacity and the claim, if one was made.  [n] is [count]. *)
Fixpoint claim_scan (max_span n capacity : Z) (l : list idx_gaps_entry) (h : heap)
    : list idx_gaps_entry * Z * option (Z * Z) * heap :=
  match l with
  | [] => ([], capacity, None, h)
  | e :: l' =>
      if claimed e then
        let '(l'', cap, out, h') := claim_scan max_span n capacity l' h in
        (e :: l'', cap, out, h')
      else
        let span := u64 (to e - from e + 1) in
        if max_span <? span then
          let claimed_to := u64 (u64 (from e + max_span) - 1) in
          match reserve_one n capacity h with
          | (Err _, h') => (e :: l', capacity, None, h')
          | (Ok cap, h') =>
              (GapsEntry (from e) claimed_to true ::
               GapsEntry (u64 (claimed_to + 1)) (to e) false :: l',
               cap, Some (from e, claimed_to), h')
          end
        else (GapsEntry (from e) (to e) true :: l', capacity, Some (from e, to e), h)
  end.

(** src/src/gaps.c:192-242 [idx_gaps_claim] *)
Definition idx_gaps_claim (gaps : option idx_gaps) (max_span : Z) (h : heap)
    : option (Z * Z) * option idx_gaps * heap :=
  match gaps with
  | None => (None, None, h)
  | Some g =>
      let max_span := if max_span =? 0 then 1 else max_span in
      let '(l, cap, out, h') := claim_scan max_span (count g) (capacity g) (ranges g) h in
      (out, Some (refresh_stats (Gaps l cap (max_ranges g) (stats g))), h')
  end.

(** src/src/gaps.c:252-294 [idx_gaps_resolve]: the loop's body for one range: what
    replaces it, and the count, the capacity and [stats.resolved] afterwards. *)
Definition resolve_range (f t : Z) (range : idx_gaps_entry) (n cap done : Z) (h : heap)
    : list idx_gaps_entry * Z * Z * Z * heap :=
  if (to range <? f) || (t <? from range) then ([range], n, cap, done, h)
  else if (f <=? from range) && (to range <=? t) then
    ([], n - 1, cap, u64 (done + (to range - from range + 1)), h)
  else if f <=? from range then
    ([GapsEntry (u64 (t + 1)) (to range) (claimed range)], n, cap,
     u64 (done + (t - from range + 1)), h)
  else if to range <=? t then
    ([GapsEntry (from range) (u64 (f - 1)) (claimed range)], n, cap,
     u64 (done + (to range - f + 1)), h)
  else
    match reserve_one n cap h with
    | (Err _, h') =>
        ([GapsEntry (from range) (u64 (f - 1)) (claimed range)], n, cap,
         u64 (done + (t - f + 1)), h')
    | (Ok cap', h') =>
        ([GapsEntry (from range) (u64 (f - 1)) (claimed range);
          GapsEntry (u64 (t + 1)) (to range) (claimed range)], n + 1, cap',
         u64 (done + (t - f + 1)), h')
    end.

(** src/src/gaps.c:251-295 [idx_gaps_resolve]: the loop over the rest [l] of the
    array. *)
Fixpoint resolve_loop (f t : Z) (l : list idx_gaps_entry) (n cap done : Z) (h : heap)
    : list idx_gaps_entry * Z * Z * heap :=
  match l with
  | [] => ([], cap, done, h)
  | range :: l' =>
      let '(pieces, n, cap, done, h) := resolve_range f t range n cap done h in
      let '(l'', cap, done, h) := resolve_loop f t l' n cap done h in
      (pieces ++ l'', cap, done, h)
  end.

(** src/src/gaps.c:244-299 [idx_gaps_resolve] *)
Definition idx_gaps_resolve (gaps : option idx_gaps) (f t : Z) (h : heap) : option idx_gaps * heap :=
  match gaps with
  | None => (None, h)
  | Some g =>
      if t <? f then (Some g, h)
      else
        let '(l, cap, done, h') :=
          resolve_loop f t (ranges g) (count g) (capacity g) (resolved (stats g)) h in
        (Some (refresh_stats (set_resolved (Gaps l cap (max_ranges g) (stats g)) done)), h')
  end.

(** src/src/gaps.c:318-325 [idx_gaps_release]: its last section, the count of resolved
    slots put back to what it was, then the range. *)
Definition put_back (g : idx_gaps) (resolved_before f t : Z) (h : heap) : result () * idx_gaps * heap :=
  let g := set_resolved g resolved_before in
  match insert g f t h with
  | (Ok g', h') => (Ok (), g', h')
  | (Err s, h') => (Err s, g, h')
  end.

(** src/src/gaps.c:301-326 [idx_gaps_release], undisturbed; on failure the resolve has
    happened all the same, so the gaps are returned with the status. *)
Definition idx_gaps_release (gaps : option idx_gaps) (f t : Z) (h : heap)
    : result () * option idx_gaps * heap :=
  match gaps with
  | None => (IDX_FAIL IDX_ERR_INVALID_ARG, None, h)
  | Some g =>
      if t <? f then (Ok (), Some g, h)
      else
        let resolved_before := resolved (stats g) in
        match idx_gaps_resolve (Some g) f t h with
        | (Some g1, h1) =>
            let '(status, g2, h2) := put_back g1 resolved_before f t h1 in (status, Some g2, h2)
        | (None, h1) => (Ok (), None, h1)
        end
  end.

(** src/src/gaps.c:328-351 [idx_gaps_watermark] *)
Definition idx_gaps_watermark (gaps : option idx_gaps) (highest_committed : Z) : Z :=
  match gaps with
  | None => highest_committed
  | Some g =>
      let low := match ranges g with e :: _ => from e | [] => IDX_SLOT_NONE end in
      if low =? IDX_SLOT_NONE then highest_committed
      else if low =? 0 then IDX_SLOT_NONE
      else
        let trustworthy := u64 (low - 1) in
        if (highest_committed =? IDX_SLOT_NONE) || (trustworthy <? highest_committed)
        then trustworthy
        else highest_committed
  end.

(** src/src/gaps.c:353-362 [idx_gaps_is_empty] *)
Definition idx_gaps_is_empty (gaps : option idx_gaps) : bool :=
  match gaps with None => true | Some g => match ranges g with [] => true | _ => false end end.

(** src/src/gaps.c:364-372 [idx_gaps_get_stats] *)
Definition idx_gaps_get_stats (g : idx_gaps) : idx_gaps_stats := stats g.

(** ** The abstract set *)

(** The slots a list of ranges covers with claimed ([c = true]) or claimable
    ([c = false]) ranges. *)
Definition covers (c : bool) (l : list idx_gaps_entry) (s : Z) : Prop :=
  exists e, e ∈ l /\ claimed e = c /\ from e <= s <= to e.

(** The missing slots. *)
Definition outstanding (l : list idx_gaps_entry) (s : Z) : Prop := exists c, covers c l s.

(** A range of slots: not empty, and below [IDX_SLOT_NONE]. *)
Definition valid (e : idx_gaps_entry) : Prop := 0 <= from e <= to e /\ to e < IDX_SLOT_NONE.

(** Sorted by [from]: what every search relies on. *)
Definition ordered : list idx_gaps_entry -> Prop := StronglySorted (fun a b => from a <= from b).

(** Sorted and disjoint: what the comment on [ranges] promises. *)
Definition separate : list idx_gaps_entry -> Prop := StronglySorted (fun a b => to a < from b).

(** No two claimable neighbours overlap: the state [coalesce] leaves. *)
Definition spaced : list idx_gaps_entry -> Prop :=
  Sorted (fun a b => from a <= from b /\ (claimed a = false -> claimed b = false -> to a < from b)).

(** The slots of the ranges, counted. *)
Definition total (l : list idx_gaps_entry) : Z :=
  fold_right (fun e n => to e - from e + 1 + n) 0 l.

(** Two claimable neighbours. *)
Definition neighbours (l : list idx_gaps_entry) (a b : idx_gaps_entry) : Prop :=
  exists pre post, l = pre ++ a :: b :: post /\ claimed a = false /\ claimed b = false.

(** The invariant of the set, and the part that survives an [idx_gaps_add] over a
    claimed range. *)
Definition gaps_sound (g : idx_gaps) : Prop :=
  Forall valid (ranges g) /\ ordered (ranges g) /\ count g <= capacity g /\ count g < 2 ^ 62.

Definition gaps_ok (g : idx_gaps) : Prop := gaps_sound g /\ separate (ranges g).

(** [stats] are those of the ranges. *)
Definition stats_fresh (g : idx_gaps) : Prop :=
  range_count (stats g) = count g /\ slot_count (stats g) = u64 (total (ranges g)).

(** ** Coverage *)

Lemma covers_nil c s : ~ covers c [] s.
Proof. intros (e & He & _). by apply elem_of_nil in He. Qed.

Lemma covers_cons c e l s :
  covers c (e :: l) s <-> (claimed e = c /\ from e <= s <= to e) \/ covers c l s.
Proof.
  unfold covers. split.
  - intros (x & Hx & H). apply elem_of_cons in Hx as [->|Hx]; [by left|right; eauto].
  - intros [H|(x & Hx & H)]; [exists e|exists x]; split; auto; [by left|by right].
Qed.

Lemma covers_app c l1 l2 s : covers c (l1 ++ l2) s <-> covers c l1 s \/ covers c l2 s.
Proof.
  unfold covers. setoid_rewrite elem_of_app. split.
  - intros (x & [Hx|Hx] & H); [left|right]; eauto.
  - intros [(x & Hx & H)|(x & Hx & H)]; exists x; split; auto.
Qed.

#[global] Instance covers_perm c : Proper ((≡ₚ) ==> (=) ==> iff) (covers c).
Proof. intros l1 l2 Hl s1 s2 ->. unfold covers. by setoid_rewrite Hl. Qed.

(** Deciding a goal on [covers] of explicit lists. *)
Ltac covers_solve :=
  repeat rewrite ?covers_cons, ?covers_app; cbn [from to claimed]; intuition (subst; eauto; lia || congruence).

Lemma separate_ordered l : Forall valid l -> separate l -> ordered l.
Proof.
  induction l as [|e l IH]; intros Hv Hs; [constructor|].
  apply Forall_cons in Hv as [He Hv]. apply StronglySorted_inv in Hs as [Hs Hall].
  constructor; [by apply IH|]. eapply Forall_impl; [exact Hall|]. unfold valid in He. simpl. lia.
Qed.

Lemma slots_in_total g : slots_in g = u64 (total (ranges g)).
Proof.
  unfold slots_in. assert (forall l n, fold_left (fun total e => u64 (total + (to e - from e + 1))) l (u64 n)
    = u64 (n + total l)) as H; [|exact (H (ranges g) 0)].
  induction l as [|e l IH]; intros n; simpl; [f_equal; lia|].
  replace (n + (to e - from e + 1 + total l)) with ((n + (to e - from e + 1)) + total l) by lia.
  rewrite <- IH. f_equal. unfold u64. apply Zplus_mod_idemp_l.
Qed.

Lemma refresh_fresh g : stats_fresh (refresh_stats g).
Proof. split; [done|]. simpl. apply slots_in_total. Qed.

(** ** Reserving *)

Lemma reserve_one_ok n cap h cap' h' :
  0 <= n <= cap -> n < 2 ^ 62 -> reserve_one n cap h = (Ok cap', h') -> n < cap'.
Proof.
  unfold reserve_one. intros Hn Hb. destruct (n <? cap) eqn:Hlt; [intros [= <- <-]; lia|].
  destruct (malloc h) as [[] h1]; [|done]. simpl. intros [= <- <-].
  destruct (cap =? 0) eqn:Hz; [lia|]. rewrite u64_small; unfold is_u64; lia.
Qed.

Lemma reserve_one_err n cap h s h' : reserve_one n cap h = (Err s, h') -> s = IDX_ERR_NO_MEMORY.
Proof.
  unfold reserve_one. destruct (n <? cap); [done|]. destruct (malloc h) as [[] h1]; [done|].
  simpl. by intros [= <- _].
Qed.

Lemma reserve_one_nil n cap : exists cap', reserve_one n cap [] = (Ok cap', []).
Proof. unfold reserve_one. destruct (n <? cap); simpl; eauto. Qed.

(** ** Inserting and coalescing *)

Lemma insert_sorted_perm e l : insert_sorted e l ≡ₚ e :: l.
Proof.
  induction l as [|x l IH]; [done|]. simpl. destruct (from x <? from e); [|done].
  rewrite IH. by constructor.
Qed.

(** Inserting by [from] keeps any relation with what lies before and after. *)
Lemma insert_sorted_sorted (R : idx_gaps_entry -> idx_gaps_entry -> Prop) e l :
  ordered l -> StronglySorted R l ->
  (forall x, x ∈ l -> from x < from e -> R x e) ->
  (forall x, x ∈ l -> from e <= from x -> R e x) ->
  StronglySorted R (insert_sorted e l).
Proof.
  induction l as [|x l IH]; intros Ho Hs H1 H2; simpl; [repeat constructor|].
  apply StronglySorted_inv in Hs as [Hs Hx]. pose proof (StronglySorted_inv Ho) as [Ho' Hxo].
  destruct (from x <? from e) eqn:Hlt.
  - constructor.
    + apply IH; auto; intros y Hy; [apply H1|apply H2]; by right.
    + rewrite insert_sorted_perm. constructor; [|done]. apply H1; [by left|lia].
  - constructor; [by constructor|]. rewrite Forall_forall in *. intros y Hy. apply H2; [done|].
    apply elem_of_cons in Hy as [->|Hy]; [lia|]. specialize (Hxo y Hy). simpl in Hxo. lia.
Qed.

Lemma coalesce_from_covers c a l s :
  Forall valid (a :: l) -> ordered (a :: l) ->
  covers c (coalesce_from a l) s <-> covers c (a :: l) s.
Proof.
  revert a. induction l as [|b l IH]; intros a Hv Ho; [done|]. simpl.
  apply Forall_cons in Hv as [Ha Hv]. apply Forall_cons in Hv as [Hb Hv].
  apply StronglySorted_inv in Ho as [Ho Hall]. pose proof Hall as Hab.
  apply Forall_cons in Hab as [Hab Hal]. apply StronglySorted_inv in Ho as [Ho Hbl].
  unfold valid, IDX_SLOT_NONE in *.
  destruct (negb (claimed a) && _ && _) eqn:Hm.
  - rewrite (u64_small (to a + 1)) in Hm by (unfold is_u64; lia).
    destruct (claimed a) eqn:Hca; [done|]. destruct (claimed b) eqn:Hcb; [done|]. simpl in Hm.
    rewrite IH.
    + rewrite !covers_cons. cbn [from to claimed]. rewrite Hca, Hcb.
      destruct (to a <? to b) eqn:Hlt; split; intros [[Hc Hs]|H]; auto;
        try (destruct (decide (s <= to a)); [left|right; left]; lia || (split; [done|lia]));
        try (left; split; [done|lia]).
      destruct H as [[Hc Hs]|H]; auto. left. split; [done|lia].
      destruct H as [[Hc Hs]|H]; auto. left. split; [done|lia].
    + constructor; [|done]. unfold valid. simpl. destruct (to a <? to b); lia.
    + constructor; done.
  - rewrite (covers_cons c a (coalesce_from b l)), IH, (covers_cons c a (b :: l)); [done|by constructor|by constructor].
Qed.

(** What a property of every range and of [from], kept by growing a claimable
    range's [to] to a neighbour's, says of the result. *)
Lemma coalesce_from_forall (P : idx_gaps_entry -> Prop) a l :
  (forall x t, P x -> (exists y, P y /\ to y = t) -> to x < t -> P (GapsEntry (from x) t (claimed x))) ->
  Forall P (a :: l) -> Forall P (coalesce_from a l).
Proof.
  intros Hgrow. revert a. induction l as [|b l IH]; intros a Hv; [done|]. simpl.
  apply Forall_cons in Hv as [Ha Hv]. apply Forall_cons in Hv as [Hb Hv].
  destruct (negb (claimed a) && _ && _).
  - apply IH. constructor; [|done]. destruct (to a <? to b) eqn:Hlt.
    + apply Hgrow; [done|by exists b|lia].
    + by destruct a.
  - constructor; [done|]. apply IH. by constructor.
Qed.

(** The pairs a range must be kept apart from: the claimed ones, for which
    [coalesce] does nothing. *)
Definition apart_if_claimed (a b : idx_gaps_entry) : Prop :=
  from a <= from b /\ (claimed a || claimed b = true -> to a < from b).

Lemma coalesce_from_sorted a l :
  Forall valid (a :: l) -> ordered (a :: l) ->
  ordered (coalesce_from a l) /\ spaced (coalesce_from a l) /\
  (exists l' t, coalesce_from a l = GapsEntry (from a) t (claimed a) :: l').
Proof.
  revert a. induction l as [|b l IH]; intros a Hv Ho; simpl.
  { split_and!; [done|repeat constructor|]. exists [], (to a). by destruct a. }
  pose proof Hv as (Ha & (Hb & Hl)%Forall_cons)%Forall_cons.
  apply StronglySorted_inv in Ho as [Ho (Hab & Hal)%Forall_cons].
  pose proof (StronglySorted_inv Ho) as [Ho' Hbl].
  destruct (negb (claimed a) && _ && _) eqn:Hm.
  - refine (IH (GapsEntry (from a) _ (claimed a)) _ _); [|by constructor]. constructor; [|done].
    unfold valid in *. simpl. destruct (to a <? to b); lia.
  - destruct (IH b ltac:(by constructor) Ho) as (H1 & H2 & l' & t & H3). split_and!.
    + constructor; [done|]. apply (coalesce_from_forall (fun x => from a <= from x)); [done|by constructor].
    + constructor; [done|]. rewrite H3. constructor. simpl. split; [done|]. intros Hca Hcb.
      rewrite Hca, Hcb in Hm. unfold valid, IDX_SLOT_NONE in *.
      rewrite (u64_small (to a + 1)) in Hm by (unfold is_u64; lia). lia.
    + exists (coalesce_from b l), (to a). by destruct a.
Qed.

Lemma coalesce_from_separate a l :
  Forall valid (a :: l) -> StronglySorted apart_if_claimed (a :: l) ->
  separate (coalesce_from a l).
Proof.
  revert a. induction l as [|b l IH]; intros a Hv Ho; simpl; [repeat constructor|].
  pose proof Hv as (Ha & (Hb & Hl)%Forall_cons)%Forall_cons.
  apply StronglySorted_inv in Ho as [Ho (Hab & Hal)%Forall_cons].
  pose proof (StronglySorted_inv Ho) as [Ho' Hbl].
  unfold apart_if_claimed in Hab, Hal, Hbl.
  destruct (negb (claimed a) && _ && _) eqn:Hm.
  - destruct (claimed a) eqn:Hca; [done|]. destruct (claimed b) eqn:Hcb; [done|].
    apply IH; [constructor; [|done]; unfold valid in *; simpl; destruct (to a <? to b); lia|].
    constructor; [done|]. rewrite Forall_forall in *. intros x Hx.
    specialize (Hal x Hx). specialize (Hbl x Hx). unfold apart_if_claimed. simpl in *.
    split; [lia|]. intros Hcx. rewrite Hcx in *. destruct (to a <? to b); lia.
  - assert (to a < from b) as Hlt.
    { destruct (claimed a || claimed b) eqn:Hc; [by apply Hab|]. apply orb_false_iff in Hc as [Hca Hcb].
      rewrite Hca, Hcb in Hm. unfold valid, IDX_SLOT_NONE in *.
      rewrite (u64_small (to a + 1)) in Hm by (unfold is_u64; lia). lia. }
    constructor; [by apply IH; [constructor|]|].
    apply (coalesce_from_forall (fun x => to a < from x)); [done|].
    constructor; [done|]. eapply Forall_impl; [exact Hbl|]. simpl. lia.
Qed.

Lemma coalesce_from_length a l : (length (coalesce_from a l) <= S (length l))%nat.
Proof.
  revert a. induction l as [|b l IH]; intros a; simpl; [lia|].
  destruct (negb (claimed a) && _ && _); simpl; [etrans; [apply IH|lia]|].
  specialize (IH b). lia.
Qed.

(** ** Coarsening *)

Lemma spaced_split pre a b post :
  spaced (pre ++ a :: b :: post) -> claimed a = false -> claimed b = false -> from a <= from b /\ to a < from b.
Proof.
  intros Hs Ha Hb. induction pre as [|x pre IH]; simpl in Hs; apply Sorted_inv in Hs as [Hs Hr]; [|by apply IH].
  apply HdRel_inv in Hr as [? Hr]. auto.
Qed.

(** Replacing two claimable neighbours by the range from one to the other. *)
Lemma merged_sorted (R : idx_gaps_entry -> idx_gaps_entry -> Prop) pre a b post :
  (forall x, R x a -> R x (GapsEntry (from a) (to b) (claimed a))) ->
  (forall x, R b x -> R (GapsEntry (from a) (to b) (claimed a)) x) ->
  StronglySorted R (pre ++ a :: b :: post) ->
  StronglySorted R (pre ++ GapsEntry (from a) (to b) (claimed a) :: post).
Proof.
  intros H1 H2. induction pre as [|x pre IH]; simpl; intros Hs; apply StronglySorted_inv in Hs as [Hs Hx].
  - apply StronglySorted_inv in Hs as [Hs Hb]. constructor; [done|].
    eapply Forall_impl; [exact Hb|]. auto.
  - constructor; [by apply IH|]. rewrite !Forall_app, !Forall_cons in *. destruct Hx as (? & ? & ? & ?). auto.
Qed.

Lemma merged_spaced pre a b post :
  claimed a = false -> claimed b = false ->
  spaced (pre ++ a :: b :: post) ->
  spaced (pre ++ GapsEntry (from a) (to b) (claimed a) :: post).
Proof.
  intros Ha Hb. induction pre as [|x pre IH]; simpl; intros Hs; apply Sorted_inv in Hs as [Hs Hx].
  - apply Sorted_inv in Hs as [Hs Hbp]. apply HdRel_inv in Hx as [Hx _]. constructor; [done|].
    destruct post as [|c post]; constructor. apply HdRel_inv in Hbp as [Hbc Hbc']. simpl.
    split; [lia|]. auto.
  - constructor; [by apply IH|]. destruct pre as [|y pre]; simpl in *.
    + apply HdRel_inv in Hx as [? ?]. by constructor.
    + apply HdRel_inv in Hx. by constructor.
Qed.

Lemma merge_at_split pre a b post :
  merge_at (pre ++ a :: b :: post) (length pre) =
  pre ++ GapsEntry (from a) (to b) (claimed a) :: post.
Proof.
  unfold merge_at, remove_at. rewrite list_lookup_middle by done.
  replace (S (length pre)) with (length (pre ++ [a])) by (rewrite length_app; simpl; lia).
  replace (pre ++ a :: b :: post) with ((pre ++ [a]) ++ b :: post) by (by rewrite <- app_assoc).
  rewrite list_lookup_middle by done. rewrite <- app_assoc. simpl.
  rewrite insert_app_r_alt, Nat.sub_diag by lia. simpl.
  replace (length (pre ++ [a])) with (length pre + 1)%nat by (rewrite length_app; simpl; lia).
  rewrite take_app_add, <- Nat.add_succ_r, drop_app_add. simpl. by rewrite <- app_assoc.
Qed.


Lemma neighbours_cons a b l x y :
  neighbours (a :: b :: l) x y <->
  (x = a /\ y = b /\ claimed a = false /\ claimed b = false) \/ neighbours (b :: l) x y.
Proof.
  split.
  - intros ([|z pre] & post & Heq & Hx & Hy); simplify_eq/=; [by left|right].
    exists pre, post. auto.
  - intros [(-> & -> & Ha & Hb)|(pre & post & Heq & Hx & Hy)]; [by exists [], l|].
    exists (a :: pre), post. rewrite Heq. auto.
Qed.

Lemma neighbours_short l x y : (length l < 2)%nat -> ~ neighbours l x y.
Proof. intros Hl (pre & post & -> & _). rewrite length_app in Hl. simpl in Hl. lia. Qed.

Definition distance (a b : idx_gaps_entry) : Z := u64 (from b - to a).

Lemma closest_cons i a b l best d :
  closest i (a :: b :: l) best d =
  if claimed a || claimed b then closest (S i) (b :: l) best d
  else if (match best with None => true | Some _ => false end) || (distance a b <? d)
  then closest (S i) (b :: l) (Some i) (distance a b)
  else closest (S i) (b :: l) best d.
Proof. done. Qed.

(** The search returns claimable neighbours at the least distance, and nothing
    only when there are none. *)
Lemma closest_spec i l best d :
  match closest i l best d with
  | None => best = None /\ forall x y, ~ neighbours l x y
  | Some k =>
      (best = Some k /\ forall x y, neighbours l x y -> d <= distance x y) \/
      (exists pre a b post, l = pre ++ a :: b :: post /\ k = (i + length pre)%nat /\
         claimed a = false /\ claimed b = false /\ (best <> None -> distance a b <= d) /\
         forall x y, neighbours l x y -> distance a b <= distance x y)
  end.
Proof.
  revert i best d. induction l as [|a l IH]; intros i best d.
  { destruct best; simpl; [left|]; split; auto; intros x y H; by apply neighbours_short in H; [|simpl; lia]. }
  destruct l as [|b l].
  { destruct best; simpl; [left|]; split; auto; intros x y H; by apply neighbours_short in H; [|simpl; lia]. }
  rewrite closest_cons.
  destruct (claimed a || claimed b) eqn:Hc.
  - assert (~ (claimed a = false /\ claimed b = false)) as Hno by (intros [Ha Hb]; by rewrite Ha, Hb in Hc).
    specialize (IH (S i) best d). destruct (closest _ _ _ _) as [k|].
    + destruct IH as [[-> H]|(pre & x & y & post & Heq & -> & Hx & Hy & Hd & H)].
      * left. split; [done|]. intros x y [(_ & _ & ?)|?]%neighbours_cons; [done|auto].
      * right. exists (a :: pre), x, y, post. split_and!; auto; try (simpl; lia); [by rewrite Heq|..].
        intros x' y' [(_ & _ & ?)|?]%neighbours_cons; [done|auto].
    + destruct IH as [-> H]. split; [done|]. intros x y [(_ & _ & ?)|?]%neighbours_cons; [done|by eapply H].
  - apply orb_false_iff in Hc as [Ha Hb].
    destruct (match best with None => true | Some _ => false end || (distance a b <? d)) eqn:Hbetter.
    + specialize (IH (S i) (Some i) (distance a b)). destruct (closest _ _ _ _) as [k|]; [|by destruct IH].
      right. destruct IH as [[[= <-] H]|(pre & x & y & post & Heq & -> & Hx & Hy & Hd & H)].
      * exists [], a, b, l. split_and!; auto.
        -- intros Hbest. destruct best; [simpl in Hbetter; lia|done].
        -- intros x y [(-> & -> & _)|?]%neighbours_cons; [lia|auto].
      * exists (a :: pre), x, y, post. specialize (Hd ltac:(done)). split_and!; auto; try (simpl; lia); [by rewrite Heq|..].
        -- intros Hbest. destruct best; [simpl in Hbetter; lia|done].
        -- intros x' y' [(-> & -> & _)|?]%neighbours_cons; [lia|auto].
    + specialize (IH (S i) best d). destruct best as [kb|]; [|done]. simpl in Hbetter.
      destruct (closest _ _ _ _) as [k|]; [|by destruct IH].
      destruct IH as [[-> H]|(pre & x & y & post & Heq & -> & Hx & Hy & Hd & H)].
      * left. split; [done|]. intros x y [(-> & -> & _)|?]%neighbours_cons; [lia|auto].
      * right. exists (a :: pre), x, y, post. specialize (Hd ltac:(done)). split_and!; auto; try (simpl; lia); [by rewrite Heq|..].
        intros x' y' [(-> & -> & _)|?]%neighbours_cons; [lia|auto].
Qed.

(** What one merge keeps: the claimed slots, and every claimable one. *)
Lemma merge_covers pre a b post s :
  claimed a = false -> claimed b = false -> from a <= from b -> to a < from b -> from b <= to b ->
  (covers true (pre ++ GapsEntry (from a) (to b) (claimed a) :: post) s <->
   covers true (pre ++ a :: b :: post) s) /\
  (covers false (pre ++ a :: b :: post) s ->
   covers false (pre ++ GapsEntry (from a) (to b) (claimed a) :: post) s).
Proof.
  intros Ha Hb H1 H2 H3. rewrite !covers_app, !covers_cons. cbn [from to claimed]. rewrite Ha, Hb.
  split; [intuition congruence|]. intros [H|[[_ H]|[[_ H]|H]]]; auto; right; left; (split; [done|lia]).
Qed.

Lemma coarsen_loop_spec fuel limit l merges l' merges' :
  coarsen_loop fuel limit l merges = (l', merges') ->
  Forall valid l -> spaced l -> ordered l ->
  Forall valid l' /\ ordered l' /\ (length l' <= length l)%nat /\
  (separate l -> separate l') /\
  (forall s, covers true l' s <-> covers true l s) /\
  (forall s, covers false l s -> covers false l' s) /\
  (size l <= limit -> l' = l) /\
  ((length l <= fuel)%nat -> 0 <= limit -> size l' <= limit \/ forall x y, ~ neighbours l' x y).
Proof.
  revert l merges. induction fuel as [|fuel IH]; intros l merges; simpl; intros H Hv Hsp Ho.
  { injection H as <- <-. split_and!; auto. intros Hl Hlim. left. unfold size. lia. }
  destruct (limit <? size l) eqn:Hlim.
  2:{ injection H as <- <-. split_and!; auto. intros _ _. left. lia. }
  pose proof (closest_spec 0 l None IDX_SLOT_NONE) as Hc.
  destruct (closest 0 l None IDX_SLOT_NONE) as [k|].
  2:{ injection H as <- <-. destruct Hc as [_ Hc]. split_and!; auto. }
  destruct Hc as [[? _]|(pre & a & b & post & -> & -> & Ha & Hb & _ & _)]; [done|]. simpl in H.
  rewrite merge_at_split in H.
  destruct (spaced_split _ _ _ _ Hsp Ha Hb) as [Hab1 Hab2].
  pose proof Hv as Hv'. apply Forall_app in Hv' as [Hv1 (Hva & (Hvb & Hv2)%Forall_cons)%Forall_cons].
  unfold valid in Hva, Hvb.
  destruct (IH _ _ H) as (H1 & H2 & H3 & H4 & H5 & H6 & H7 & H8).
  - rewrite Forall_app, Forall_cons. unfold valid. simpl. split_and!; auto; lia.
  - by apply merged_spaced.
  - eapply merged_sorted; [| |exact Ho]; simpl; [auto|lia].
  - rewrite !length_app in *. simpl in *.
    split_and!; auto; try (intros; lia).
    + intros Hs. apply H4. eapply merged_sorted; [| |exact Hs]; simpl; auto.
    + intros s. rewrite H5. apply merge_covers; lia || done.
    + intros s Hs. apply H6. by apply merge_covers; try lia.
    + intros Hl Hlim0. apply H8; [lia|done].
Qed.

(** What inserting [f..t] promises. *)
Definition inserted (g : idx_gaps) (f t : Z) (g' : idx_gaps) : Prop :=
  (forall s, covers true (ranges g') s <-> covers true (ranges g) s) /\
  (forall s, covers false (ranges g) s \/ f <= s <= t -> covers false (ranges g') s) /\
  (count g < max_ranges g ->
   forall s, covers false (ranges g') s <-> covers false (ranges g) s \/ f <= s <= t) /\
  (count g' <= max_ranges g' \/ forall x y, ~ neighbours (ranges g') x y).

Lemma coalesce_insert_covers c f t l s :
  Forall valid l -> ordered l -> 0 <= f <= t -> t < IDX_SLOT_NONE ->
  covers c (coalesce (insert_sorted (GapsEntry f t false) l)) s <->
  covers c l s \/ (c = false /\ f <= s <= t).
Proof.
  intros Hv Ho Hf Ht. set (e := GapsEntry f t false).
  assert (Forall valid (insert_sorted e l)) as Hv' by (rewrite insert_sorted_perm; by constructor).
  assert (ordered (insert_sorted e l)) as Ho' by (apply insert_sorted_sorted; auto; simpl; lia).
  transitivity (covers c (insert_sorted e l) s).
  - unfold coalesce. destruct (insert_sorted e l); [done|]. by apply coalesce_from_covers.
  - rewrite insert_sorted_perm, covers_cons. simpl. intuition congruence.
Qed.

(** A list of ranges and a new one that meets no claimed range. *)
Definition meets_no_claim (l : list idx_gaps_entry) (f t : Z) : Prop :=
  forall s, covers true l s -> ~ f <= s <= t.

Lemma apart_insert f t l :
  Forall valid l -> separate l -> f <= t -> meets_no_claim l f t ->
  StronglySorted apart_if_claimed (insert_sorted (GapsEntry f t false) l).
Proof.
  intros Hv Hs Hf Hno.
  assert (forall x, x ∈ l -> claimed x = true -> t < from x \/ to x < f) as Hx.
  { intros x Hx Hc. rewrite Forall_forall in Hv. specialize (Hv x Hx). unfold valid in Hv.
    destruct (decide (t < from x \/ to x < f)) as [|Hn]; [done|]. exfalso.
    apply (Hno (Z.max f (from x))); [exists x; split_and!; auto; lia|lia]. }
  assert (forall x, x ∈ l -> from x <= to x) as Hvx.
  { intros x Hx'. rewrite Forall_forall in Hv. specialize (Hv x Hx'). unfold valid in Hv. lia. }
  apply insert_sorted_sorted; [by apply separate_ordered| | |].
  - clear Hno Hx. induction l as [|x l IH]; [constructor|]. apply Forall_cons in Hv as [Hvx' Hv].
    apply StronglySorted_inv in Hs as [Hs Hall]. constructor.
    + apply IH; auto. intros y Hy. apply Hvx. by right.
    + eapply Forall_impl; [exact Hall|]. unfold apart_if_claimed, valid in *. simpl. lia.
  - intros x Hin Hlt. unfold apart_if_claimed. cbn [from to claimed] in *. split; [lia|].
    rewrite orb_false_r. intros Hc. specialize (Hvx x Hin). destruct (Hx x Hin Hc); lia.
  - intros x Hin Hle. unfold apart_if_claimed. cbn [from to claimed] in *. split; [lia|].
    simpl. intros Hc. specialize (Hvx x Hin). destruct (Hx x Hin Hc); lia.
Qed.

Lemma insert_ok g f t h g' h' :
  gaps_sound g -> 0 <= f <= t -> t < IDX_SLOT_NONE -> 0 <= max_ranges g -> count g + 1 < 2 ^ 62 ->
  insert g f t h = (Ok g', h') ->
  gaps_sound g' /\ inserted g f t g' /\ stats_fresh g' /\ max_ranges g' = max_ranges g /\
  resolved (stats g') = resolved (stats g) /\
  (separate (ranges g) -> meets_no_claim (ranges g) f t -> separate (ranges g')).
Proof.
  intros (Hv & Ho & Hcap & Hcnt) Hf Ht Hmax Hroom. unfold insert.
  destruct (reserve_one (count g) (capacity g) h) as [[cap|] h1] eqn:Hr; [|done].
  assert (count g < cap) as Hcap'
    by (eapply reserve_one_ok; [|exact Hcnt|exact Hr]; unfold count, size in *; lia).
  set (e := GapsEntry f t false). set (l0 := insert_sorted e (ranges g)).
  assert (Forall valid l0) as Hv0 by (unfold l0; rewrite insert_sorted_perm; by constructor).
  assert (ordered l0) as Ho0 by (apply insert_sorted_sorted; auto; simpl; lia).
  assert (length l0 = S (length (ranges g))) as Hl0 by (unfold l0; by rewrite insert_sorted_perm).
  assert (Forall valid (coalesce l0) /\ ordered (coalesce l0) /\ spaced (coalesce l0) /\
          (length (coalesce l0) <= length l0)%nat) as (Hv1 & Ho1 & Hsp1 & Hl1).
  { unfold coalesce. destruct l0 as [|a l]; [repeat constructor|].
    destruct (coalesce_from_sorted a l Hv0 Ho0) as (? & ? & _). split_and!; auto.
    - apply coalesce_from_forall; [|done]. unfold valid. intros x t' Hx (y & Hy & <-) Hlt. simpl. lia.
    - apply coalesce_from_length. }
  simpl. unfold coarsen. simpl.
  destruct (coarsen_loop _ _ _ _) as [l2 merges] eqn:Hc. intros [= <- <-].
  destruct (coarsen_loop_spec _ _ _ _ _ _ Hc Hv1 Hsp1 Ho1) as (A1 & A2 & A3 & A4 & A5 & A6 & A7 & A8).
  split_and!; try done.
  - unfold gaps_sound, count, size in *. simpl in *. split_and!; auto; lia.
  - unfold inserted. simpl. split_and!.
    + intros s. rewrite A5. unfold l0, e. rewrite coalesce_insert_covers by done. intuition congruence.
    + intros s Hs. apply A6. unfold l0, e. rewrite coalesce_insert_covers by done. intuition.
    + intros Hlt s. rewrite A7 by (unfold count, size in *; lia). unfold l0, e.
      rewrite coalesce_insert_covers by done. intuition.
    + by apply A8.
  - apply refresh_fresh.
  - intros Hsep Hno. simpl. apply A4. pose proof (apart_insert f t _ Hv Hsep ltac:(lia) Hno) as Hap.
    fold e in Hap. fold l0 in Hap. unfold coalesce. destruct l0; [constructor|]. by apply coalesce_from_separate.
Qed.

(** ** Claiming *)

(** The ranges after claiming [f..c] out of the range [e]. *)
Definition claimed_of (e : idx_gaps_entry) (c : Z) : list idx_gaps_entry :=
  GapsEntry (from e) c true :: (if c <? to e then [GapsEntry (c + 1) (to e) false] else []).

Lemma claim_scan_spec m n cap l h l' cap' out h' :
  Forall valid l -> 1 <= m < 2 ^ 64 -> 0 <= n <= cap -> n < 2 ^ 62 ->
  claim_scan m n cap l h = (l', cap', out, h') ->
  match out with
  | None => l' = l /\ cap' = cap /\ (h = [] -> Forall (fun e => claimed e = true) l)
  | Some (f, c) =>
      exists pre e post, l = pre ++ e :: post /\ Forall (fun e => claimed e = true) pre /\
        claimed e = false /\ f = from e /\ c = Z.min (to e) (from e + m - 1) /\
        l' = pre ++ claimed_of e c ++ post /\ n <= cap' /\ (c < to e -> n < cap')
  end.
Proof.
  intros Hv Hm Hn Hb. revert l' cap' out h'. induction l as [|e l IH]; intros l' cap' out h'; simpl.
  { intros [= <- <- <- <-]. split_and!; auto. }
  apply Forall_cons in Hv as [He Hv]. unfold valid, IDX_SLOT_NONE in He. destruct (claimed e) eqn:Hc.
  - destruct (claim_scan m n cap l h) as [[[l1 cap1] out1] h1]. intros [= <- <- <- <-].
    specialize (IH Hv _ _ _ _ eq_refl). destruct out1 as [[f c]|].
    + destruct IH as (pre & x & post & -> & Hpre & Hx & -> & -> & -> & Hcap).
      exists (e :: pre), x, post. split_and!; auto. all: by destruct Hcap.
    + destruct IH as (-> & -> & Hall). split_and!; auto.
  - rewrite (u64_small (to e - from e + 1)) by (unfold is_u64; lia).
    destruct (m <? to e - from e + 1) eqn:Hspan.
    + rewrite (u64_small (from e + m)) by (unfold is_u64; lia).
      rewrite (u64_small (from e + m - 1)) by (unfold is_u64; lia).
      rewrite (u64_small (from e + m - 1 + 1)) by (unfold is_u64; lia).
      destruct (reserve_one n cap h) as [[cap1|s] h1] eqn:Hr; intros [= <- <- <- <-].
      * pose proof (reserve_one_ok _ _ _ _ _ Hn Hb Hr). exists [], e, l.
        unfold claimed_of. rewrite Z.min_r by lia. rewrite (proj2 (Z.ltb_lt _ _)) by lia.
        split_and!; auto; lia.
      * split_and!; auto. intros ->. destruct (reserve_one_nil n cap) as [? Hr']. congruence.
    + intros [= <- <- <- <-]. exists [], e, l. unfold claimed_of. rewrite Z.min_l by lia.
      rewrite (proj2 (Z.ltb_ge _ _)) by lia. split_and!; auto; lia.
Qed.

Lemma separate_app l1 l2 :
  separate (l1 ++ l2) <->
  separate l1 /\ separate l2 /\ forall a b, a ∈ l1 -> b ∈ l2 -> to a < from b.
Proof.
  induction l1 as [|a l1 IH]; simpl.
  - split; [|tauto]. intros H. split_and!; [constructor|done|]. intros a b Ha. by apply elem_of_nil in Ha.
  - split.
    + intros [Hs Hall]%StronglySorted_inv. apply IH in Hs as (H1 & H2 & H3).
      apply Forall_app in Hall as [Ha1 Ha2]. split_and!; auto; [by constructor|].
      intros x y Hx Hy. apply elem_of_cons in Hx as [->|Hx]; [|auto]. rewrite Forall_forall in Ha2. auto.
    + intros ([H1 Ha]%StronglySorted_inv & H2 & H3). constructor.
      * apply IH. split_and!; auto. intros x y Hx. apply H3. by right.
      * apply Forall_app. split; [done|]. apply Forall_forall. intros y Hy. apply H3; [by left|done].
Qed.

(** Cutting the ranges between two parts of a separate list into smaller ones. *)
Lemma separate_replace pre e cut post :
  separate (pre ++ e :: post) -> separate cut ->
  (forall x, x ∈ cut -> from e <= from x /\ to x <= to e) -> separate (pre ++ cut ++ post).
Proof.
  rewrite !separate_app. intros (H1 & [H2 Hall]%StronglySorted_inv & H3) Hc Hin. rewrite Forall_forall in Hall.
  split_and!; auto.
  - intros a b Ha Hb. destruct (Hin a Ha). specialize (Hall b Hb). simpl in Hall. lia.
  - intros a b Ha Hb. apply elem_of_app in Hb as [Hb|Hb].
    + destruct (Hin b Hb). specialize (H3 a e Ha ltac:(left)). lia.
    + apply H3; [done|by right].
Qed.

Lemma ordered_replace pre e cut post :
  ordered (pre ++ e :: post) -> ordered cut ->
  (forall x y, x ∈ cut -> y ∈ pre -> from y <= from x) -> (forall x y, x ∈ cut -> y ∈ post -> from x <= from y) ->
  ordered (pre ++ cut ++ post).
Proof.
  intros Ho Hc H1 H2. unfold ordered in *.
  induction pre as [|y pre IH]; simpl in *; apply StronglySorted_inv in Ho as [Ho Hall].
  - clear Hall H1. induction cut as [|x cut IH]; [done|]. apply StronglySorted_inv in Hc as [Hc Hx].
    constructor.
    + apply IH; [done|]. intros z y Hz. apply H2. by right.
    + apply Forall_app. split; [done|]. apply Forall_forall. intros y Hy. apply H2; [by left|done].
  - constructor.
    + apply IH; auto. intros x z Hx Hz. apply H1; [done|by right].
    + rewrite !Forall_app, Forall_cons in *. destruct Hall as (? & ? & ?). split_and!; auto.
      apply Forall_forall. intros x Hx. apply H1; [done|by left].
Qed.

(** ** Resolving *)

(** What is left of the range [e]: pieces of it, outside [f..t]; all of it that
    is outside unless an allocation failed ([exact = false]). *)
Definition cut (f t : Z) (exact : Prop) (e : idx_gaps_entry) (pieces : list idx_gaps_entry) : Prop :=
  Forall (fun x => valid x /\ claimed x = claimed e /\ from e <= from x /\ to x <= to e /\
                   forall s, f <= s <= t -> ~ from x <= s <= to x) pieces /\
  separate pieces /\
  (exact -> forall s, from e <= s <= to e -> ~ f <= s <= t ->
            exists x, x ∈ pieces /\ from x <= s <= to x).

Ltac cut_pieces f :=
  unfold cut, valid, IDX_SLOT_NONE, separate in *; cbn [from to claimed] in *;
  split_and!; [repeat constructor; cbn [from to claimed]; try done; try lia
              |repeat constructor; cbn [from to claimed]; try lia
              |intros Hexact z Hz Hout; destruct (decide (z < f));
               first [ lia | congruence
                     | eexists; split; [by left|cbn [from to]; lia]
                     | eexists; split; [right; by left|cbn [from to]; lia] ]].

Lemma resolve_range_ok f t e n cap done h pieces n1 cap1 done1 h1 :
  valid e -> 0 <= f <= t -> t < 2 ^ 64 -> 1 <= n <= cap -> n < 2 ^ 62 ->
  resolve_range f t e n cap done h = (pieces, n1, cap1, done1, h1) ->
  cut f t (h = []) e pieces /\ (h = [] -> h1 = []) /\ n1 = n - 1 + size pieces /\ 0 <= n1 <= cap1 /\
  size pieces <= 2 /\ (h = [] -> u64 (done1 + total pieces) = u64 (done + total [e])).
Proof.
  intros He Hf Ht Hn Hb. unfold resolve_range. pose proof He as He'. unfold valid, IDX_SLOT_NONE in He'.
  destruct ((to e <? f) || (t <? from e)) eqn:H1.
  { intros [= <- <- <- <- <-]. split_and!; try done; try (unfold size; simpl; lia). cut_pieces f. }
  destruct ((f <=? from e) && (to e <=? t)) eqn:H2.
  { intros [= <- <- <- <- <-]. split_and!; try done; try (unfold size; simpl; lia); [cut_pieces f|].
    intros _. rewrite u64_add_l. f_equal. simpl. lia. }
  destruct (f <=? from e) eqn:H3.
  { rewrite (u64_small (t + 1)) by (unfold is_u64; lia).
    intros [= <- <- <- <- <-]. split_and!; try done; try (unfold size; simpl; lia); [cut_pieces f|].
    intros _. rewrite u64_add_l. f_equal. simpl. lia. }
  rewrite (u64_small (f - 1)) by (unfold is_u64; lia).
  destruct (to e <=? t) eqn:H4.
  { intros [= <- <- <- <- <-]. split_and!; try done; try (unfold size; simpl; lia); [cut_pieces f|].
    intros _. rewrite u64_add_l. f_equal. simpl. lia. }
  rewrite (u64_small (t + 1)) by (unfold is_u64; lia).
  destruct (reserve_one n cap h) as [[cap'|s] h'] eqn:Hr; intros [= <- <- <- <- <-].
  - assert (n < cap') by (eapply reserve_one_ok; [|exact Hb|exact Hr]; lia).
    split_and!; try done; try (unfold size; simpl; lia); [cut_pieces f| |].
    + intros ->. destruct (reserve_one_nil n cap) as [? Hr']. congruence.
    + intros _. rewrite u64_add_l. f_equal. simpl. lia.
  - assert (h <> []) as Hh by (intros ->; destruct (reserve_one_nil n cap) as [? Hr']; congruence).
    split_and!; try done; try (unfold size; simpl; lia); try (intros ->; done).
    cut_pieces f.
Qed.

Lemma cut_covers f t exact e pieces c s :
  cut f t exact e pieces ->
  (covers c pieces s -> claimed e = c /\ from e <= s <= to e /\ ~ f <= s <= t) /\
  (exact -> claimed e = c -> from e <= s <= to e -> ~ f <= s <= t -> covers c pieces s).
Proof.
  intros (Hall & _ & Hex). rewrite Forall_forall in Hall. split.
  - intros (x & Hx & <- & Hs). destruct (Hall x Hx) as (_ & -> & H1 & H2 & H3).
    split_and!; auto; try lia. intros Hin. by apply (H3 s).
  - intros He Hc Hs Hout. destruct (Hex He s Hs Hout) as (x & Hx & Hxs).
    exists x. split_and!; auto; try lia. by destruct (Hall x Hx) as (_ & -> & _).
Qed.

Lemma total_app l1 l2 : total (l1 ++ l2) = total l1 + total l2.
Proof. induction l1; simpl; lia. Qed.

Lemma resolve_loop_ok f t l n cap done h l' cap' done' h' :
  Forall valid l -> 0 <= f <= t -> t < 2 ^ 64 -> size l <= n -> n + size l < 2 ^ 62 -> n <= cap ->
  resolve_loop f t l n cap done h = (l', cap', done', h') ->
  Forall valid l' /\ (separate l -> separate l') /\
  (forall a x, Forall (fun b => a < from b) l -> x ∈ l' -> a < from x) /\
  n + size l' - size l <= cap' /\ size l' <= 2 * size l /\
  (forall c s, covers c l' s -> covers c l s /\ ~ f <= s <= t) /\
  (h = [] -> h' = [] /\ u64 (done' + total l') = u64 (done + total l) /\
    forall c s, covers c l s -> ~ f <= s <= t -> covers c l' s).
Proof.
  intros Hv Hf Ht. revert n cap done h l' cap' done' h'.
  induction l as [|e l IH]; intros n cap done h l' cap' done' h' Hn Hb Hcap; simpl.
  { intros [= <- <- <- <-]. split_and!; auto; try (unfold size; simpl; lia).
    - intros a x _ Hx. by apply elem_of_nil in Hx.
    - intros c s Hc. by apply covers_nil in Hc. }
  apply Forall_cons in Hv as [He Hv]. unfold size in *. simpl in Hn, Hb.
  destruct (resolve_range f t e n cap done h) as [[[[ps n1] cap1] done1] h1] eqn:Hr.
  destruct (resolve_loop f t l n1 cap1 done1 h1) as [[[l1 cap2] done2] h2] eqn:Hl.
  intros [= <- <- <- <-].
  destruct (resolve_range_ok f t e n cap done h ps n1 cap1 done1 h1 He Hf Ht ltac:(lia) ltac:(lia) Hr)
    as (Hcut & Hh & Hn1 & Hcap1 & Hps & Htot). unfold size in *.
  destruct (IH Hv n1 cap1 done1 h1 l1 cap2 done2 h2 ltac:(lia) ltac:(lia) ltac:(lia) Hl)
    as (A1 & A2 & A3 & A4 & A5 & A6 & A7).
  pose proof Hcut as (Hall & Hsep & _). rewrite Forall_forall in Hall. unfold size in *.
  rewrite length_app. split_and!; try (simpl; lia).
  - apply Forall_app. split; [|done]. apply Forall_forall. intros x Hx. by apply Hall.
  - intros [Hs Hx]%StronglySorted_inv. apply separate_app. split_and!; auto.
    intros a b Ha Hb'. apply (A3 (to a)); [|done]. eapply Forall_impl; [exact Hx|].
    destruct (Hall a Ha) as (_ & _ & _ & ? & _). simpl. lia.
  - intros a x [Ha Hal]%Forall_cons Hx. apply elem_of_app in Hx as [Hx|Hx]; [|by apply A3].
    destruct (Hall x Hx) as (_ & _ & ? & _). lia.
  - intros c s. rewrite covers_app, covers_cons. intros [Hc|Hc].
    + apply (cut_covers _ _ _ _ _ _ _ Hcut) in Hc as (? & ? & ?). auto.
    + apply A6 in Hc as [? ?]. auto.
  - intros Hnil. destruct (A7 (Hh Hnil)) as (B1 & B2 & B3). split_and!; [done| |].
    + rewrite total_app. specialize (Htot Hnil). simpl in Htot |- *.
      replace (done2 + (total ps + total l1)) with (total ps + (done2 + total l1)) by lia.
      unfold u64 in *. rewrite <- Zplus_mod_idemp_r, B2, Zplus_mod_idemp_r.
      replace (total ps + (done1 + total l)) with (done1 + total ps + total l) by lia.
      rewrite <- Zplus_mod_idemp_l, Htot, Zplus_mod_idemp_l. f_equal. lia.
    + intros c s. rewrite covers_app, covers_cons. intros [[Hc Hs]|Hc] Hout; [left|right; auto].
      eapply cut_covers; eauto.
Qed.

Lemma idx_gaps_resolve_ok g f t h g' h' :
  gaps_ok g -> 0 <= f <= t -> t < 2 ^ 64 -> count g < 2 ^ 60 ->
  idx_gaps_resolve (Some g) f t h = (Some g', h') ->
  gaps_ok g' /\ stats_fresh g' /\ max_ranges g' = max_ranges g /\ count g' <= 2 * count g /\
  (forall c s, covers c (ranges g') s -> covers c (ranges g) s /\ ~ f <= s <= t) /\
  (h = [] -> u64 (resolved (stats g') + total (ranges g')) = u64 (resolved (stats g) + total (ranges g)) /\
    forall c s, covers c (ranges g) s -> ~ f <= s <= t -> covers c (ranges g') s).
Proof.
  intros ((Hv & Ho & Hcap & Hcnt) & Hsep) Hf Ht Hb. unfold idx_gaps_resolve.
  rewrite (proj2 (Z.ltb_ge _ _)) by lia.
  destruct (resolve_loop _ _ _ _ _ _ _) as [[[l cap] done'] h1] eqn:Hl. intros [= <- <-].
  unfold count in *.
  destruct (resolve_loop_ok f t (ranges g) (size (ranges g)) (capacity g) (resolved (stats g)) h l cap done' h1)
    as (A1 & A2 & _ & A4 & A5 & A6 & A7); auto; try lia.
  split_and!; auto.
  - split; [|simpl; auto]. unfold gaps_sound, count. simpl. split_and!; auto; try lia.
    apply separate_ordered; auto.
  - apply refresh_fresh.
  - intros Hnil. destruct (A7 Hnil) as (_ & B2 & B3). auto.
Qed.

Lemma covers_claimed_of b e c s :
  claimed e = false -> from e <= c <= to e ->
  covers b (claimed_of e c) s <->
  if b then from e <= s <= c else c < s <= to e.
Proof.
  intros He Hc. unfold claimed_of. rewrite covers_cons. cbn [from to claimed].
  destruct (c <? to e) eqn:Hlt; [rewrite covers_cons; cbn [from to claimed]|];
    pose proof (covers_nil b s); destruct b; intuition (done || lia).
Qed.

(** The ranges around one of a separate list hold none of its slots. *)
Lemma separate_middle pre e post b s :
  Forall valid (pre ++ e :: post) -> separate (pre ++ e :: post) ->
  covers b (pre ++ post) s -> s < from e \/ to e < s.
Proof.
  intros Hv Hs. apply separate_app in Hs as (_ & [_ Hall]%StronglySorted_inv & H3).
  rewrite Forall_forall in Hall. rewrite covers_app. intros [(x & Hx & _ & Hxs)|(x & Hx & _ & Hxs)].
  - specialize (H3 x e Hx ltac:(left)). lia.
  - specialize (Hall x Hx). simpl in Hall. lia.
Qed.

Lemma claim_structure pre e post c :
  Forall valid (pre ++ e :: post) -> separate (pre ++ e :: post) ->
  claimed e = false -> from e <= c <= to e ->
  Forall valid (pre ++ claimed_of e c ++ post) /\ separate (pre ++ claimed_of e c ++ post) /\
  (size (pre ++ claimed_of e c ++ post) =
   size (pre ++ e :: post) + (if c <? to e then 1 else 0)) /\
  (forall s, from e <= s <= c -> covers false (pre ++ e :: post) s /\ ~ covers true (pre ++ e :: post) s) /\
  (forall s, covers true (pre ++ claimed_of e c ++ post) s <->
             covers true (pre ++ e :: post) s \/ from e <= s <= c) /\
  (forall s, covers false (pre ++ claimed_of e c ++ post) s <->
             covers false (pre ++ e :: post) s /\ ~ from e <= s <= c).
Proof.
  intros Hv Hs He Hc. pose proof Hv as (Hv1 & (Hve & Hv2)%Forall_cons)%Forall_app.
  pose proof (fun b s => separate_middle pre e post b s Hv Hs) as Hmid.
  setoid_rewrite covers_app in Hmid. unfold valid in Hve.
  split_and!.
  - rewrite !Forall_app. split_and!; auto. unfold claimed_of, valid.
    destruct (c <? to e) eqn:Hlt; repeat constructor; cbn [from to]; lia.
  - eapply separate_replace; [exact Hs| |]; unfold claimed_of, separate; destruct (c <? to e) eqn:Hlt.
    + repeat constructor. cbn [from to]. lia.
    + repeat constructor.
    + intros x [->|[->|[]%elem_of_nil]%elem_of_cons]%elem_of_cons; cbn [from to]; lia.
    + intros x [->|[]%elem_of_nil]%elem_of_cons; cbn [from to]; lia.
  - unfold size, claimed_of. rewrite !length_app. destruct (c <? to e); simpl; lia.
  - intros s Hsc. rewrite !covers_app, !covers_cons, He. split; [right; left; split; [done|lia]|].
    intros Hcov. destruct (Hmid true s ltac:(tauto || intuition congruence)); lia.
  - intros s. rewrite !covers_app, covers_cons, covers_claimed_of, He by done. intuition congruence.
  - intros s. rewrite !covers_app, covers_cons, covers_claimed_of, He by done.
    specialize (Hmid false s). split; intros H; [|intuition (try lia)].
    + destruct H as [H|[H|H]]; [|split; [right; left; split; [done|lia]|lia]|];
        (split; [tauto|destruct Hmid; [tauto|lia..]]).
Qed.

(** ** Example sets *)

(** Sixteen ranges of two thousand slots, a gap of eight thousand apart. *)
Definition sixteen (n : nat) : list idx_gaps_entry :=
  map (fun i => GapsEntry (1000 + 10000 * Z.of_nat i) (2999 + 10000 * Z.of_nat i) false) (seq 0 n).

(** The set sixteen adds make of them: its allocation is full. *)
Definition full_gaps : idx_gaps :=
  fold_left (fun g e => match idx_gaps_add (Some g) (from e) (to e) [] with
                        | (Ok g', _) => g' | _ => g end)
    (sixteen 16)
    (match idx_gaps_new 0 [] with (Ok g, _) => g | _ => Gaps [] 0 0 (GapsStats 0 0 0 0 0 0) end).

(** After its first range was claimed whole. *)
Definition claim_all (g : idx_gaps) : idx_gaps :=
  match idx_gaps_claim (Some g) 2000 [] with (_, Some g', _) => g' | _ => g end.

Ltac gaps_ok_example l :=
  match goal with |- gaps_ok ?g =>
    assert (Forall valid (ranges g) /\ separate (ranges g)) as [Hv Hs];
    [change (ranges g) with l; split; repeat constructor; cbn; unfold IDX_SLOT_NONE; lia|
     split; [|exact Hs]; split_and!; [exact Hv|by apply separate_ordered|vm_compute; intuition congruence..]]
  end.

Lemma full_gaps_ok : gaps_ok full_gaps.
Proof. let l := eval vm_compute in (ranges full_gaps) in gaps_ok_example l. Qed.

Lemma claim_all_ok : gaps_ok (claim_all full_gaps).
Proof. let l := eval vm_compute in (ranges (claim_all full_gaps)) in gaps_ok_example l. Qed.

(** What the watermark promises. *)
Lemma watermark_spec g highest :
  gaps_sound g -> 0 <= highest <= IDX_SLOT_NONE ->
  let w := idx_gaps_watermark (Some g) highest in
  (w <> IDX_SLOT_NONE -> (highest <> IDX_SLOT_NONE -> w <= highest) /\
                         forall s, s <= w -> ~ outstanding (ranges g) s) /\
  (forall v, highest <> IDX_SLOT_NONE -> 0 <= v <= highest ->
     (forall s, 0 <= s <= v -> ~ outstanding (ranges g) s) -> w <> IDX_SLOT_NONE /\ v <= w) /\
  (idx_gaps_is_empty (Some g) = true -> w = highest).
Proof.
  intros (Hv & Ho & _) Hh. unfold idx_gaps_watermark, idx_gaps_is_empty.
  destruct (ranges g) as [|e l].
  { simpl. split_and!; [|lia|done]. intros Hw. split; [lia|].
    intros s _ [c Hc]. by apply covers_nil in Hc. }
  apply Forall_cons in Hv as [He Hv]. apply StronglySorted_inv in Ho as [_ Hall].
  unfold valid, IDX_SLOT_NONE in *. rewrite (proj2 (Z.eqb_neq _ _)) by lia.
  assert (outstanding (e :: l) (from e)) as Hfirst.
  { exists (claimed e). rewrite covers_cons. left. split; [done|lia]. }
  assert (forall s, outstanding (e :: l) s -> from e <= s) as Hlow.
  { intros s (c & x & [->|Hx]%elem_of_cons & _ & Hs); [lia|]. rewrite Forall_forall in Hall.
    specialize (Hall x Hx). simpl in Hall. lia. }
  destruct (from e =? 0) eqn:Hz.
  { split_and!; [done| |done]. intros v _ Hv0 Hno. exfalso. apply (Hno (from e)); [lia|done]. }
  rewrite (u64_small (from e - 1)) by (unfold is_u64; lia).
  split_and!; [| |done].
  - intros _. destruct ((highest =? _) || _) eqn:Hc; (split; [lia|]); intros s Hs Hout; apply Hlow in Hout; lia.
  - intros v Hn Hv0 Hno. assert (v < from e).
    { destruct (decide (v < from e)); [done|]. exfalso. apply (Hno (from e)); [lia|done]. }
    destruct ((highest =? _) || _) eqn:Hc; lia.
Qed.

Lemma watermark_range g highest :
  Forall valid (ranges g) -> 0 <= highest <= IDX_SLOT_NONE ->
  0 <= idx_gaps_watermark (Some g) highest <= IDX_SLOT_NONE.
Proof.
  intros Hv Hh. unfold idx_gaps_watermark. destruct (ranges g) as [|e l]; [done|].
  apply Forall_cons in Hv as [He _]. unfold valid, IDX_SLOT_NONE in *. rewrite (proj2 (Z.eqb_neq _ _)) by lia.
  destruct (from e =? 0) eqn:Hz; [lia|]. rewrite (u64_small (from e - 1)) by (unfold is_u64; lia).
  destruct ((highest =? _) || _); lia.
Qed.

(** ** Properties *)

(** Adding never forgets a slot: everything outstanding before, and every
    slot of [f..t], is outstanding afterwards, even when the set is over its
    limit and coarsens, and even when the range lies over claimed ones.  Claims
    are untouched.  Under the limit nothing else is added; over it, the set is
    back under it unless no two claimable neighbours are left.  Ranges stay
    sorted, within the allocation, and disjoint if the new range meets no
    claimed one. *)
Theorem gaps_add_never_forgets g f t h g' h' :
  gaps_sound g -> 0 <= f <= t -> t < IDX_SLOT_NONE -> 0 <= max_ranges g -> count g + 1 < 2 ^ 62 ->
  idx_gaps_add (Some g) f t h = (Ok g', h') ->
  gaps_sound g' /\ inserted g f t g' /\ stats_fresh g' /\
  (forall s, outstanding (ranges g) s \/ f <= s <= t -> outstanding (ranges g') s) /\
  (separate (ranges g) -> meets_no_claim (ranges g) f t -> separate (ranges g')).
Proof.
  intros Hg Hf Ht Hm Hc. unfold idx_gaps_add. rewrite (proj2 (Z.ltb_ge _ _)) by lia.
  rewrite (proj2 (Z.eqb_neq _ _)) by lia. simpl.
  destruct (insert g f t h) as [[g1|] h1] eqn:Hi; [|done]. intros [= <- <-].
  destruct (insert_ok _ _ _ _ _ _ Hg Hf Ht Hm Hc Hi) as (A1 & A2 & A3 & _ & _ & A6).
  pose proof A2 as (B1 & B2 & _). split_and!; auto.
  intros s [[[] Hs]|Hs]; [exists true|exists false|exists false]; simpl; [by apply B1|apply B2; auto..].
Qed.

(** C6. Resolving removes exactly [f..t]: what was outstanding outside it still
    is, claimed or not as before, what was inside is gone, and the counter of
    resolved slots grows by the number of slots removed (modulo 2^64), when the
    allocator serves.  Under an allocation failure it still only removes. *)
Theorem gaps_resolve_exact g f t h g' h' :
  gaps_ok g -> 0 <= f <= t -> t < 2 ^ 64 -> count g < 2 ^ 60 ->
  idx_gaps_resolve (Some g) f t h = (Some g', h') ->
  gaps_ok g' /\ stats_fresh g' /\
  (forall c s, covers c (ranges g') s -> covers c (ranges g) s /\ ~ f <= s <= t) /\
  (h = [] ->
   u64 (resolved (stats g') + total (ranges g')) = u64 (resolved (stats g) + total (ranges g)) /\
   forall c s, covers c (ranges g') s <-> covers c (ranges g) s /\ ~ f <= s <= t).
Proof.
  intros Hg Hf Ht Hb Hr.
  destruct (idx_gaps_resolve_ok _ _ _ _ _ _ Hg Hf Ht Hb Hr) as (A1 & A2 & _ & _ & A5 & A6).
  split_and!; auto. intros Hnil. destruct (A6 Hnil) as [B1 B2]. split; [done|].
  intros c s. split; [apply A5|]. intros [Hc Hout]. by apply B2.
Qed.

(** A claim is exclusive: the slots handed out were claimable and are claimed
    afterwards, no other slot changes, they are the lowest claimable ones, at
    most [max_span] of them, and no claimed range holds any of them.  Nothing is
    claimed only when nothing is claimable or the allocator refused the split. *)
Theorem gaps_claim_exclusive g max_span h out g' h' :
  gaps_ok g -> 0 <= max_span < 2 ^ 64 -> count g + 1 < 2 ^ 62 ->
  idx_gaps_claim (Some g) max_span h = (out, Some g', h') ->
  gaps_sound g' /\ separate (ranges g') /\ stats_fresh g' /\
  match out with
  | Some (f, c) =>
      f <= c /\ c - f + 1 <= Z.max 1 max_span /\
      (forall s, f <= s <= c -> covers false (ranges g) s /\ ~ covers true (ranges g) s) /\
      (forall s, covers false (ranges g) s -> f <= s) /\
      (forall s, covers true (ranges g') s <-> covers true (ranges g) s \/ f <= s <= c) /\
      (forall s, covers false (ranges g') s <-> covers false (ranges g) s /\ ~ f <= s <= c)
  | None => ranges g' = ranges g /\ (h = [] -> forall s, ~ covers false (ranges g) s)
  end.
Proof.
  intros ((Hv & Ho & Hcap & Hcnt) & Hsep) Hm Hroom. unfold idx_gaps_claim.
  destruct (claim_scan _ _ _ _ _) as [[[l cap] out'] h1] eqn:Hs. intros [= <- <- <-].
  unfold gaps_sound, count in *. cbn [refresh_stats ranges capacity].
  apply claim_scan_spec in Hs; [|done|destruct (max_span =? 0) eqn:?; lia|unfold size in *; lia|done].
  destruct out' as [[f c]|].
  - destruct Hs as (pre & e & post & Hl & Hpre & He & -> & Hc & -> & Hcap1 & Hcap2). rewrite Hl in *.
    pose proof Hv as (_ & (Hve & _)%Forall_cons)%Forall_app. unfold valid in Hve.
    assert (from e <= c <= to e) as Hc' by (destruct (max_span =? 0) eqn:?; lia).
    destruct (claim_structure pre e post c Hv Hsep He Hc') as (A1 & A2 & A3 & A4 & A5 & A6).
    rewrite A3. split_and!; auto; try lia.
    + by apply separate_ordered.
    + destruct (c <? to e) eqn:?; lia.
    + destruct (c <? to e) eqn:?; lia.
    + apply refresh_fresh.
    + destruct (max_span =? 0) eqn:?; lia.
    + intros s (x & Hx & Hxc & Hxs). apply elem_of_app in Hx as [Hx|[->|Hx]%elem_of_cons].
      * rewrite Forall_forall in Hpre. specialize (Hpre x Hx). simpl in Hpre. congruence.
      * lia.
      * apply separate_app in Hsep as (_ & [_ Hall]%StronglySorted_inv & _).
        rewrite Forall_forall in Hall. specialize (Hall x Hx). simpl in Hall. lia.
  - destruct Hs as (-> & -> & Hall). split_and!; auto; [apply refresh_fresh|].
    intros Hnil s (x & Hx & Hxc & _). specialize (Hall Hnil). rewrite Forall_forall in Hall.
    specialize (Hall x Hx). simpl in Hall. congruence.
Qed.

(** Releasing undisturbed puts [f..t] back: every slot of it is claimable and in no
    claim afterwards, no outstanding slot is lost, other claims stay, and the
    counter of resolved slots is what it was. *)
Theorem gaps_release_returns g f t :
  gaps_ok g -> 0 <= f <= t -> t < IDX_SLOT_NONE -> 0 <= max_ranges g -> count g < 2 ^ 60 ->
  exists g', idx_gaps_release (Some g) f t [] = (Ok (), Some g', []) /\
    gaps_ok g' /\ stats_fresh g' /\ resolved (stats g') = resolved (stats g) /\
    (forall s, f <= s <= t -> covers false (ranges g') s) /\
    (forall s, covers true (ranges g') s <-> covers true (ranges g) s /\ ~ f <= s <= t) /\
    (forall s, outstanding (ranges g) s -> outstanding (ranges g') s).
Proof.
  intros Hg Hf Ht Hm Hb. unfold idx_gaps_release. rewrite (proj2 (Z.ltb_ge _ _)) by lia.
  destruct (idx_gaps_resolve (Some g) f t []) as [[g1|] h1] eqn:Hr.
  2:{ revert Hr. unfold idx_gaps_resolve. destruct (t <? f); [done|]. by destruct (resolve_loop _ _ _ _ _ _ _) as [[[? ?] ?] ?]. }
  assert (h1 = []) as ->.
  { pose proof Hr as Hr'. unfold idx_gaps_resolve in Hr'. rewrite (proj2 (Z.ltb_ge _ _)) in Hr' by lia.
    destruct (resolve_loop _ _ _ _ _ _ _) as [[[l cap] d] h2] eqn:Hl. injection Hr' as _ <-.
    destruct Hg as ((Hv & _ & Hcap & _) & _). unfold count in *.
    eapply resolve_loop_ok in Hl; [|exact Hv|done..|unfold IDX_SLOT_NONE in *; lia|lia|unfold size in *; lia|done].
    by destruct Hl as (_ & _ & _ & _ & _ & _ & [-> _]). }
  destruct (idx_gaps_resolve_ok _ _ _ _ _ _ Hg Hf ltac:(unfold IDX_SLOT_NONE in *; lia) Hb Hr)
    as (A1 & _ & A3 & A4 & A5 & A6).
  destruct (A6 eq_refl) as [_ B2]. set (g2 := set_resolved g1 (resolved (stats g))).
  assert (gaps_sound g2) as Hg2 by apply A1. assert (separate (ranges g2)) as Hs2 by apply A1.
  destruct (insert g2 f t []) as [[g3|] h3] eqn:Hi.
  2:{ unfold insert in Hi. destruct (reserve_one_nil (count g2) (capacity g2)) as [cap Hc]. by rewrite Hc in Hi. }
  assert (h3 = []) as ->.
  { unfold insert in Hi. destruct (reserve_one_nil (count g2) (capacity g2)) as [cap Hc]. rewrite Hc in Hi.
    by injection Hi as _ <-. }
  destruct (insert_ok _ _ _ _ _ _ Hg2 Hf Ht ltac:(simpl; lia) ltac:(unfold count in *; simpl; lia) Hi)
    as (C1 & (D1 & D2 & _ & _) & C3 & _ & C5 & C6).
  exists g3. unfold put_back. fold g2. rewrite Hi. split_and!; [done|split; [done|]|done|done|intros s Hs; apply D2; auto| |].
  - apply C6; [done|]. intros s Hs. by apply A5 in Hs as [_ ?].
  - intros s. rewrite D1. split; [apply A5|]. intros [Hc Hout]. by apply B2.
  - intros s [c Hc]. destruct (decide (f <= s <= t)); [exists false; auto|].
    apply B2 in Hc; [|done]. exists c. destruct c; [by apply D1|apply D2; by left].
Qed.

(** A release that runs out of memory forgets: it reports NO_MEMORY, and no
    slot of [f..t] is outstanding any more, although nothing was recovered. *)
Theorem gaps_release_oom_forgets g f t h e g' h' :
  gaps_ok g -> 0 <= f <= t -> t < IDX_SLOT_NONE -> count g < 2 ^ 60 ->
  idx_gaps_release (Some g) f t h = (Err e, Some g', h') ->
  e = IDX_ERR_NO_MEMORY /\ forall s, f <= s <= t -> ~ outstanding (ranges g') s.
Proof.
  intros Hg Hf Ht Hb. unfold idx_gaps_release. rewrite (proj2 (Z.ltb_ge _ _)) by lia.
  destruct (idx_gaps_resolve (Some g) f t h) as [[g1|] h1] eqn:Hr; [|done].
  destruct (idx_gaps_resolve_ok _ _ _ _ _ _ Hg Hf ltac:(unfold IDX_SLOT_NONE in *; lia) Hb Hr)
    as (_ & _ & _ & _ & A5 & _).
  unfold put_back, insert. destruct (reserve_one _ _ h1) as [[cap|e'] h2] eqn:Hres; [done|].
  apply reserve_one_err in Hres as ->. intros [= <- <- <-]. split; [done|].
  intros s Hs [c Hc]. apply A5 in Hc as [_ Hc]. done.
Qed.

(** C7. The watermark is safe and the best there is: nothing is outstanding at
    or below it, it is not above the highest committed slot, and no higher slot
    has both properties. *)
Theorem gaps_watermark_safe g highest :
  gaps_sound g -> 0 <= highest <= IDX_SLOT_NONE ->
  let w := idx_gaps_watermark (Some g) highest in
  (w <> IDX_SLOT_NONE -> (highest <> IDX_SLOT_NONE -> w <= highest) /\
                         forall s, s <= w -> ~ outstanding (ranges g) s) /\
  (forall v, highest <> IDX_SLOT_NONE -> 0 <= v <= highest ->
     (forall s, 0 <= s <= v -> ~ outstanding (ranges g) s) -> w <> IDX_SLOT_NONE /\ v <= w) /\
  (idx_gaps_is_empty (Some g) = true -> w = highest).
Proof. intros Hg Hh. apply (watermark_spec g highest Hg Hh). Qed.

(** Coarsening takes the two closest: when the set is over its limit and has
    claimable neighbours, one round replaces a pair at the least distance by one
    range from the first slot of the left to the last slot of the right. *)
Theorem gaps_coarsen_closest limit l x y :
  limit < size l -> neighbours l x y ->
  exists pre a b post, l = pre ++ a :: b :: post /\ claimed a = false /\ claimed b = false /\
    (forall x y, neighbours l x y -> distance a b <= distance x y) /\
    coarsen_loop 1 limit l 0 = (pre ++ GapsEntry (from a) (to b) false :: post, 1).
Proof.
  intros Hl Hxy. pose proof (closest_spec 0 l None IDX_SLOT_NONE) as Hc. simpl.
  rewrite (proj2 (Z.ltb_lt _ _)) by lia.
  destruct (closest 0 l None IDX_SLOT_NONE) as [k|]; [|by apply Hc in Hxy].
  destruct Hc as [[? _]|(pre & a & b & post & -> & -> & Ha & Hb & _ & Hmin)]; [done|].
  exists pre, a, b, post. split_and!; auto. simpl. by rewrite merge_at_split, Ha.
Qed.

(** Resolving from the middle of a range without memory for the split
    forgets the upper part, which the comment there promises to keep: in a set
    made of sixteen adds, resolving slot 2000 loses 2001 to 2999, and counts one
    slot as resolved. *)
Theorem gaps_resolve_oom_forgets :
  gaps_ok full_gaps /\ outstanding (ranges full_gaps) 2500 /\
  exists g, idx_gaps_resolve (Some full_gaps) 2000 2000 [false] = (Some g, []) /\
    ~ outstanding (ranges g) 2500 /\ resolved (stats g) = 1 /\
    slot_count (stats g) = slot_count (stats full_gaps) - 1000.
Proof.
  split; [apply full_gaps_ok|]. split.
  { exists false. change (ranges full_gaps) with (sixteen 16). exists (GapsEntry 1000 2999 false).
    split; [vm_compute; left|]. simpl. split; [done|lia]. }
  eexists. split; [vm_compute; reflexivity|]. split; [|by vm_compute].
  intros (c & x & Hx & _ & Hs). cbn [ranges] in Hx. revert Hs.
  repeat (apply elem_of_cons in Hx as [->|Hx]; [cbn [from to]; lia|]). by apply elem_of_nil in Hx.
Qed.

(** ** Witnesses *)

Lemma gaps_add_never_forgets_witness :
  exists g, idx_gaps_add (Some full_gaps) 3000 9999 [] = (Ok g, []) /\
    outstanding (ranges g) 5000 /\ size (ranges g) = 16.
Proof.
  eexists. split; [vm_compute; reflexivity|]. split; [|reflexivity].
  refine (proj1 (proj2 (proj2 (proj2 (gaps_add_never_forgets full_gaps 3000 9999 [] _ []
    (proj1 full_gaps_ok) _ _ _ _ _)))) 5000 _); try (vm_compute; intuition congruence).
Defined.

Lemma gaps_resolve_exact_witness :
  exists g, idx_gaps_resolve (Some full_gaps) 2000 2000 [] = (Some g, []) /\ gaps_ok g /\
    size (ranges g) = 17.
Proof.
  eexists. split; [vm_compute; reflexivity|]. split; [|reflexivity].
  refine (proj1 (gaps_resolve_exact full_gaps 2000 2000 [] _ [] full_gaps_ok _ _ _ _));
    try lia; vm_compute; reflexivity.
Defined.

Lemma gaps_claim_exclusive_witness :
  exists g, idx_gaps_claim (Some full_gaps) 10 [] = (Some (1000, 1009), Some g, []) /\
    separate (ranges g) /\ (forall s, covers false (ranges full_gaps) s -> 1000 <= s).
Proof.
  eexists. split; [vm_compute; reflexivity|].
  destruct (gaps_claim_exclusive full_gaps 10 [] (Some (1000, 1009)) _ [] full_gaps_ok
    ltac:(lia) ltac:(vm_compute; reflexivity) ltac:(vm_compute; reflexivity))
    as (_ & H1 & _ & _ & _ & _ & H2 & _). split; [exact H1|exact H2].
Defined.

Lemma gaps_release_returns_witness :
  exists g, idx_gaps_release (Some full_gaps) 1000 1004 [] = (Ok (), Some g, []) /\
    covers false (ranges g) 1000 /\ range_count (stats g) = 16.
Proof.
  destruct (gaps_release_returns full_gaps 1000 1004 full_gaps_ok) as (g & H1 & _ & H2 & _ & H4 & _);
    try (unfold IDX_SLOT_NONE; lia); try (vm_compute; intuition congruence).
  exists g. split; [exact H1|]. split; [apply H4; lia|].
  vm_compute in H1. injection H1 as <-. reflexivity.
Defined.

(** Releasing the tail of a claim needs room for one more range. *)
Lemma gaps_release_oom_forgets_witness :
  exists g g', idx_gaps_claim (Some full_gaps) 2000 [] = (Some (1000, 2999), Some g, []) /\
    idx_gaps_release (Some g) 2000 2999 [false] = (Err IDX_ERR_NO_MEMORY, Some g', []) /\
    ~ outstanding (ranges g') 2500.
Proof.
  eexists _, _. split; [vm_compute; reflexivity|]. split; [vm_compute; reflexivity|].
  match goal with |- ~ outstanding (ranges ?g') _ =>
    refine (proj2 (gaps_release_oom_forgets (claim_all full_gaps) 2000 2999 [false] IDX_ERR_NO_MEMORY g' []
              claim_all_ok _ _ _ _) 2500 _) end;
    try lia; try (unfold IDX_SLOT_NONE; lia); vm_compute; reflexivity.
Defined.

Lemma gaps_watermark_safe_witness :
  idx_gaps_watermark (Some full_gaps) 5000 = 999 /\ ~ outstanding (ranges full_gaps) 998.
Proof.
  split; [reflexivity|].
  refine (proj2 (proj1 (gaps_watermark_safe full_gaps 5000 (proj1 full_gaps_ok) _) _) 998 _);
    try (unfold IDX_SLOT_NONE; lia); vm_compute; congruence.
Defined.

Lemma gaps_coarsen_closest_witness :
  exists pre a b post, [GapsEntry 1 2 false; GapsEntry 10 11 false; GapsEntry 13 20 false] =
    pre ++ a :: b :: post /\ from b = 13.
Proof.
  destruct (gaps_coarsen_closest 2 [GapsEntry 1 2 false; GapsEntry 10 11 false; GapsEntry 13 20 false]
    (GapsEntry 1 2 false) (GapsEntry 10 11 false)) as (pre & a & b & post & H & _ & _ & Hmin & _).
  - done.
  - by exists [], [GapsEntry 13 20 false].
  - exists pre, a, b, post. split; [exact H|].
    destruct pre as [|p pre]; [|destruct pre as [|p' pre]; [by simplify_eq/=|]].
    + injection H as <- <- <-.
      specialize (Hmin (GapsEntry 10 11 false) (GapsEntry 13 20 false)
        ltac:(by exists [GapsEntry 1 2 false], [])). vm_compute in Hmin. congruence.
    + apply (f_equal length) in H. simpl in H. rewrite length_app in H. simpl in H. lia.
Defined.
