(* ===== verification/GapSet.v ===== *)
(** * What the pipeline uses of the gap set

    The processing thread, the fetchers and the backfill share one set of slots
    still to recover.  [GapOps] is the part of gaps.h they call, an operation for each
    time a lock is held, [GapSpec] what it promises them while memory lasts: that adding
    forgets nothing, that resolving takes out exactly the range it names, that a claim
    hands out slots nobody has claimed and keeps every slot, that a range no slot of
    which is claimed can be put back, and that nothing outstanding is at or below the
    watermark; and, as long as the set is not full, that adding and putting back bring
    in nothing but the range they name (a full set coarsens).  pipeline.c is written and
    proved against the class; the instances are the set of gaps.c, its lemmas
    discharging the laws. *)

From Stdlib Require Import Sorted.
From S2P Require Import Prelude Gaps.
#[local] Open Scope Z_scope.

Class GapOps (G : Type) := {
  g_empty : G;
  g_add : Z -> Z -> heap -> G -> result unit * G * heap;
  g_claim : Z -> heap -> G -> option (Z * Z) * G * heap;
  (** the count of resolved slots, and the section that puts it and a range back *)
  g_resolved : G -> Z;
  g_put_back : Z -> Z -> Z -> heap -> G -> result unit * G * heap;
  g_resolve : Z -> Z -> heap -> G -> G * heap;
  g_watermark : G -> Z -> Z;
  g_is_empty : G -> bool;
  (** as many ranges as it may hold; nothing of pipeline.c asks *)
  g_full : G -> bool
}.

(** Slots are far below 2^64. *)
Definition SLOT_BOUND : Z := 2 ^ 59.

Class GapSpec (G : Type) `{GapOps G} := {
  (** a well-formed set whose slots are below [bound] *)
  g_ok : Z -> G -> Prop;
  g_out : G -> Z -> Prop;
  g_claimed : G -> Z -> Prop;
  g_claimed_out g s : g_claimed g s -> g_out g s;
  g_empty_ok : g_ok 0 g_empty /\ forall s, ~ g_out g_empty s;
  g_ok_le b b' g : g_ok b g -> b <= b' <= SLOT_BOUND -> g_ok b' g;
  g_out_below b g s : g_ok b g -> g_out g s -> 0 <= s < b;
  (** a range above every slot of the set *)
  g_add_ok b g f t : g_ok b g -> b <= f <= t -> t < SLOT_BOUND ->
    exists g', g_add f t [] g = (Ok tt, g', []) /\ g_ok (t + 1) g' /\
      (forall s, g_out g s \/ f <= s <= t -> g_out g' s) /\ (forall s, g_claimed g' s <-> g_claimed g s) /\
      (g_full g = false -> forall s, g_out g' s -> g_out g s \/ f <= s <= t);
  (** the first range *)
  g_add_empty f t : 0 <= f <= t -> t < SLOT_BOUND ->
    exists g', g_add f t [] g_empty = (Ok tt, g', []) /\ g_ok (t + 1) g' /\ forall s, g_out g' s <-> f <= s <= t;
  g_claim_ok b g span : g_ok b g -> 0 <= span < 2 ^ 64 ->
    exists out g', g_claim span [] g = (out, g', []) /\ g_ok b g' /\
      (forall s, g_out g' s <-> g_out g s) /\
      match out with
      | Some (f, t) => f <= t /\ (forall s, f <= s <= t -> g_out g s /\ ~ g_claimed g s) /\
          forall s, g_claimed g' s <-> g_claimed g s \/ f <= s <= t
      | None => forall s, g_claimed g' s <-> g_claimed g s
      end;
  g_put_back_ok b g n f t : g_ok b g -> 0 <= f <= t -> t < b -> (forall s, f <= s <= t -> ~ g_claimed g s) ->
    exists g', g_put_back n f t [] g = (Ok tt, g', []) /\ g_ok b g' /\
      (forall s, g_out g s \/ f <= s <= t -> g_out g' s) /\ (forall s, g_claimed g' s <-> g_claimed g s) /\
      (g_full g = false -> forall s, g_out g' s -> g_out g s \/ f <= s <= t);
  g_resolve_ok b g f t : g_ok b g -> 0 <= f <= t -> t < 2 ^ 64 ->
    exists g', g_resolve f t [] g = (g', []) /\ g_ok b g' /\
      (forall s, g_out g' s <-> g_out g s /\ ~ f <= s <= t) /\ (forall s, g_claimed g' s <-> g_claimed g s /\ ~ f <= s <= t);
  g_watermark_ok b g highest : g_ok b g -> 0 <= highest <= IDX_SLOT_NONE ->
    let w := g_watermark g highest in
    0 <= w <= IDX_SLOT_NONE /\
    (w <> IDX_SLOT_NONE -> (highest <> IDX_SLOT_NONE -> w <= highest) /\ (highest = IDX_SLOT_NONE -> w < b) /\
       forall s, s <= w -> ~ g_out g s)
}.

(** ** The set of gaps.c *)

#[export] Instance gaps_ops : GapOps idx_gaps := {
  g_empty := Gaps [] 0 IDX_GAPS_DEFAULT_MAX_RANGES (GapsStats 0 0 0 0 0 IDX_SLOT_NONE);
  g_add f t h g := let '(r, h') := idx_gaps_add (Some g) f t h in
    match r with Ok g' => (Ok tt, g', h') | Err e => (Err e, g, h') end;
  g_claim span h g := let '(out, g', h') := idx_gaps_claim (Some g) span h in (out, default g g', h');
  g_resolved g := resolved (stats g);
  g_put_back n f t h g := put_back g n f t h;
  g_resolve f t h g := let '(g', h') := idx_gaps_resolve (Some g) f t h in (default g g', h');
  g_watermark g highest := idx_gaps_watermark (Some g) highest;
  g_is_empty g := idx_gaps_is_empty (Some g);
  g_full g := max_ranges g <=? count g
}.

(** Every range is below the bound, and so few that counting them cannot wrap. *)
Record bounded (b : Z) (g : idx_gaps) : Prop := {
  bounded_ok : gaps_ok g;
  bounded_max : 0 <= max_ranges g;
  bounded_range : 0 <= b <= SLOT_BOUND;
  bounded_to : Forall (fun e => to e < b) (ranges g)
}.

Lemma separate_count l a b :
  Forall valid l -> separate l -> Forall (fun e => a <= from e) l -> Forall (fun e => to e < b) l ->
  l = [] \/ size l <= b - a.
Proof.
  revert a. induction l as [|e l IH]; intros a Hv Hs Ha Hb; [by left|right].
  apply Forall_cons in Hv as [He Hv]. apply Forall_cons in Hb as [Heb Hb]. apply Forall_cons in Ha as [Hea _].
  apply StronglySorted_inv in Hs as [Hs Hall]. unfold valid in He. unfold size. cbn [length].
  destruct (IH (from e + 1) Hv Hs) as [->|Hle]; [|done|simpl; lia|unfold size in Hle; lia].
  eapply Forall_impl; [exact Hall|]. simpl. lia.
Qed.

Lemma bounded_count b g : bounded b g -> count g <= SLOT_BOUND.
Proof.
  intros [((Hv & _) & Hsep) _ Hb Hto]. unfold count.
  assert (Forall (fun e => 0 <= from e) (ranges g)) as Hf.
  { eapply Forall_impl; [exact Hv|]. unfold valid. simpl. lia. }
  destruct (separate_count (ranges g) 0 b Hv Hsep Hf Hto) as [->|Hle]; unfold size in *; simpl; lia.
Qed.

(** Growing and merging ranges keeps them below a bound. *)
Lemma coarsen_loop_forall_to (b : Z) fuel limit l merges :
  Forall (fun e => to e < b) l -> Forall (fun e => to e < b) (coarsen_loop fuel limit l merges).1.
Proof.
  revert l merges. induction fuel as [|fuel IH]; intros l merges Hl; simpl; [done|].
  destruct (limit <? size l); [|done]. destruct (closest 0 l None IDX_SLOT_NONE) as [best|]; [|done].
  apply IH. unfold merge_at. destruct (l !! best) as [x|] eqn:Ex; [|done]. destruct (l !! S best) as [y|] eqn:Ey; [|done].
  unfold remove_at. assert (Forall (fun e => to e < b) (<[best := GapsEntry (from x) (to y) (claimed x)]> l)) as Hi.
  { apply Forall_insert; [done|]. rewrite Forall_lookup in Hl. by apply (Hl _ _ Ey). }
  apply Forall_app. split; [by apply Forall_take|by apply Forall_drop].
Qed.

Lemma insert_to b g f t h g' h' :
  insert g f t h = (Ok g', h') -> Forall (fun e => to e < b) (ranges g) -> t < b ->
  Forall (fun e => to e < b) (ranges g').
Proof.
  unfold insert. destruct (reserve_one _ _ _) as [[cap|e] h1]; [|done]. intros [= <- <-] Hl Ht.
  unfold coarsen. cbn [ranges].
  assert (Forall (fun e => to e < b) (coalesce (insert_sorted (GapsEntry f t false) (ranges g)))) as Hc.
  { assert (Forall (fun e => to e < b) (insert_sorted (GapsEntry f t false) (ranges g))) as Hi
      by (rewrite insert_sorted_perm; by constructor).
    unfold coalesce. destruct (insert_sorted _ _) as [|a l]; [done|]. apply coalesce_from_forall; [|done].
    intros x t' _ (y & Hy & <-) _. done. }
  pose proof (coarsen_loop_forall_to b (length (coalesce (insert_sorted (GapsEntry f t false) (ranges g)))) (max_ranges g)
    _ (coarsened (stats g)) Hc) as H. cbn [max_ranges stats].
  destruct (coarsen_loop _ _ _ _) as [l merges]. exact H.
Qed.

(** A range above the others, or in none of the claimed ones. *)
Lemma insert_bounded b g f t :
  bounded b g -> 0 <= f <= t -> t < SLOT_BOUND -> meets_no_claim (ranges g) f t ->
  exists g', insert g f t [] = (Ok g', []) /\ bounded (Z.max b (t + 1)) g' /\
    (forall s, outstanding (ranges g) s \/ f <= s <= t -> outstanding (ranges g') s) /\
    (forall s, covers true (ranges g') s <-> covers true (ranges g) s) /\
    (g_full g = false -> forall s, outstanding (ranges g') s -> outstanding (ranges g) s \/ f <= s <= t).
Proof.
  intros Hb Hf Ht Hno. pose proof (bounded_count _ _ Hb) as Hcnt. destruct Hb as [Hok Hmax Hbr Hto].
  unfold SLOT_BOUND in *. destruct (insert g f t []) as [[g'|e] h'] eqn:Hi.
  2: { unfold insert in Hi. destruct (reserve_one_nil (count g) (capacity g)) as [cap Hc]. by rewrite Hc in Hi. }
  assert (h' = []) as ->.
  { unfold insert in Hi. destruct (reserve_one_nil (count g) (capacity g)) as [cap Hc]. rewrite Hc in Hi. by injection Hi as _ <-. }
  destruct (insert_ok g f t [] g' [] (proj1 Hok) Hf ltac:(unfold IDX_SLOT_NONE; lia) Hmax ltac:(lia) Hi)
    as (A1 & (B1 & B2 & B3 & _) & _ & A4 & _ & A6).
  exists g'. split_and!; [done| | |done|].
  - split; [split; [done|by apply A6; [apply Hok|]]|by rewrite A4|unfold SLOT_BOUND; lia|].
    eapply insert_to; [exact Hi| |lia]. eapply Forall_impl; [exact Hto|]. simpl. lia.
  - intros s [[[] Hs]|Hs]; [exists true|exists false|exists false]; [by apply B1|apply B2; auto..].
  - intros Hfull s [[] Hs]; [left; exists true; by apply B1|]. cbn [g_full gaps_ops] in Hfull.
    apply B3 in Hs as [Hs|Hs]; [left; by exists false|by right|lia].
Qed.

(** The first range of an empty set is all it then holds. *)
Lemma insert_empty f t :
  exists g', insert (g_empty : idx_gaps) f t [] = (Ok g', []) /\ ranges g' = [GapsEntry f t false].
Proof. eexists. by split. Qed.

Lemma resolve_bounded b g f t :
  bounded b g -> 0 <= f <= t -> t < 2 ^ 64 ->
  exists g', idx_gaps_resolve (Some g) f t [] = (Some g', []) /\ bounded b g' /\
    forall c s, covers c (ranges g') s <-> covers c (ranges g) s /\ ~ f <= s <= t.
Proof.
  intros Hb Hf Ht. pose proof (bounded_count _ _ Hb) as Hcnt. destruct Hb as [Hok Hmax Hbr Hto]. unfold SLOT_BOUND in *.
  destruct (idx_gaps_resolve (Some g) f t []) as [[g'|] h'] eqn:Hr.
  2: { revert Hr. unfold idx_gaps_resolve. destruct (t <? f); [done|]. by destruct (resolve_loop _ _ _ _ _ _ _) as [[[? ?] ?] ?]. }
  assert (h' = []) as ->.
  { pose proof Hr as Hr'. unfold idx_gaps_resolve in Hr'. rewrite (proj2 (Z.ltb_ge _ _)) in Hr' by lia.
    destruct (resolve_loop _ _ _ _ _ _ _) as [[[l cap] d] h2] eqn:Hl. injection Hr' as _ <-.
    pose proof Hok as ((Hv & _ & Hcap & _) & _). unfold count in *.
    eapply resolve_loop_ok in Hl; [|exact Hv|done..|lia|lia|unfold size in *; lia|done].
    by destruct Hl as (_ & _ & _ & _ & _ & _ & [-> _]). }
  destruct (idx_gaps_resolve_ok g f t [] g' [] Hok Hf Ht ltac:(lia) Hr) as (A1 & _ & A3 & _ & A5 & A6).
  destruct (A6 eq_refl) as [_ B2].
  exists g'. split_and!; [done| |].
  - split; [done|by rewrite A3|done|]. apply Forall_forall. intros e He.
    pose proof A1 as ((Hv & _) & _). rewrite Forall_forall in Hv. specialize (Hv e He). unfold valid in Hv.
    assert (covers (claimed e) (ranges g') (to e)) as Hc by (exists e; split_and!; auto; lia).
    apply A5 in Hc as [(x & Hx & _ & Hxs) _]. rewrite Forall_forall in Hto. specialize (Hto x Hx). simpl in Hto. lia.
  - intros c s. split; [apply A5|]. intros [Hc Hout]. by apply B2.
Qed.

Lemma claim_scan_heap m n cap l l' cap' out h' :
  claim_scan m n cap l [] = (l', cap', out, h') -> h' = [].
Proof.
  revert l' cap' out h'. induction l as [|e l IH]; intros l' cap' out h'; simpl; [by intros [= _ _ _ <-]|].
  destruct (claimed e).
  - destruct (claim_scan m n cap l []) as [[[l1 cap1] out1] h1]. intros [= _ _ _ <-]. by eapply IH.
  - destruct (m <? _).
    + destruct (reserve_one_nil n cap) as [cap1 ->]. by intros [= _ _ _ <-].
    + by intros [= _ _ _ <-].
Qed.

Lemma claim_bounded b g span :
  bounded b g -> 0 <= span < 2 ^ 64 ->
  exists out g', g_claim span [] g = (out, g', []) /\ bounded b g' /\
    (forall s, outstanding (ranges g') s <-> outstanding (ranges g) s) /\
    match out with
    | Some (f, t) => f <= t /\ (forall s, f <= s <= t -> outstanding (ranges g) s /\ ~ covers true (ranges g) s) /\
        forall s, covers true (ranges g') s <-> covers true (ranges g) s \/ f <= s <= t
    | None => forall s, covers true (ranges g') s <-> covers true (ranges g) s
    end.
Proof.
  intros Hb Hspan. pose proof (bounded_count _ _ Hb) as Hcnt. destruct Hb as [Hok Hmax Hbr Hto]. unfold SLOT_BOUND in *.
  cbn [g_claim gaps_ops]. unfold idx_gaps_claim.
  destruct (claim_scan _ _ _ _ _) as [[[l cap] out] h1] eqn:Hs. assert (h1 = []) as -> by (by eapply claim_scan_heap).
  pose proof Hok as ((Hv & Ho & Hcap & Hcap62) & Hsep). unfold count in *.
  apply claim_scan_spec in Hs; [|done|destruct (span =? 0) eqn:?; zlia|unfold size in *; lia|lia].
  eexists out, _. split; [reflexivity|]. cbn [default id ranges refresh_stats]. destruct out as [[f t]|].
  - destruct Hs as (pre & e & post & Hl & Hpre & He & -> & Ht & -> & Hcap1 & Hcap2). rewrite Hl in *.
    pose proof Hv as (_ & (Hve & _)%Forall_cons)%Forall_app. unfold valid in Hve.
    assert (from e <= t <= to e) as Ht' by (destruct (span =? 0) eqn:?; zlia).
    destruct (claim_structure pre e post t Hv Hsep He Ht') as (A1 & A2 & A3 & A4 & A5 & A6).
    split_and!; [split; [split; [|done]|done|done|]| |lia| |exact A5].
    + unfold gaps_sound, count. cbn [ranges capacity refresh_stats default id]. rewrite A3. split_and!; [done|by apply separate_ordered|..].
      * destruct (t <? to e) eqn:E; [apply Z.ltb_lt in E; specialize (Hcap2 E)|]; lia.
      * destruct (t <? to e) eqn:?; lia.
    + cbn [ranges refresh_stats default id]. apply Forall_app in Hto as [H1 [H2 H3]%Forall_cons].
      apply Forall_app. split; [done|]. apply Forall_app. split; [|done].
      unfold claimed_of. destruct (t <? to e); repeat constructor; cbn [to]; lia.
    + intros s. unfold outstanding. split.
      * intros [[] Hc]; [apply A5 in Hc as [Hc|Hc]; [by exists true|exists false; by apply A4]|apply A6 in Hc as [Hc _]; by exists false].
      * intros [[] Hc]; [exists true; apply A5; by left|].
        destruct (decide (from e <= s <= t)); [exists true; apply A5; by right|exists false; by apply A6].
    + intros s Hs. destruct (A4 s Hs) as [H1 H2]. split; [by exists false|done].
  - destruct Hs as (-> & -> & _). split_and!; [|done|done]. split; [split; [|done]|done|done|done]. done.
Qed.

Lemma put_back_bounded b g n f t :
  bounded b g -> 0 <= f <= t -> t < b -> (forall s, f <= s <= t -> ~ covers true (ranges g) s) ->
  exists g', put_back g n f t [] = (Ok tt, g', []) /\ bounded b g' /\
    (forall s, outstanding (ranges g) s \/ f <= s <= t -> outstanding (ranges g') s) /\
    (forall s, covers true (ranges g') s <-> covers true (ranges g) s) /\
    (g_full g = false -> forall s, outstanding (ranges g') s -> outstanding (ranges g) s \/ f <= s <= t).
Proof.
  intros Hb Hf Ht Hno. pose proof (bounded_range _ _ Hb) as Hbr. unfold SLOT_BOUND in *.
  assert (bounded b (set_resolved g n)) as Hb2 by (destruct Hb as [H1 H2 H3 H4]; by split).
  assert (meets_no_claim (ranges (set_resolved g n)) f t) as Hm by (intros s Hs Hin; by apply (Hno s)).
  destruct (insert_bounded b _ f t Hb2 Hf ltac:(unfold SLOT_BOUND; lia) Hm) as (g' & Hi & Hb' & Hrest).
  unfold put_back. rewrite Hi. exists g'. rewrite Z.max_l in Hb' by lia. done.
Qed.

#[export] Instance gaps_spec : GapSpec idx_gaps.
Proof.
  refine {| g_ok := bounded; g_out g s := outstanding (ranges g) s; g_claimed g s := covers true (ranges g) s |}.
  - intros g s Hs. by exists true.
  - split; [|intros s [c Hc]; by apply covers_nil in Hc]. split; [|done|done|by apply Forall_nil_2].
    split; [|by apply SSorted_nil]. unfold gaps_sound, count. simpl. split_and!; [by apply Forall_nil_2|by apply SSorted_nil|unfold size; simpl; lia|done].
  - intros b b' g [H1 H2 H3 H4] Hle. split; [done|done|lia|]. eapply Forall_impl; [exact H4|]. simpl. lia.
  - intros b g s [((Hv & _) & _) _ _ Hto] (c & e & He & _ & Hs).
    rewrite Forall_forall in Hv, Hto. specialize (Hv e He). specialize (Hto e He). unfold valid in Hv. simpl in Hto. lia.
  - intros b g f t Hb Hf Ht.
    assert (meets_no_claim (ranges g) f t) as Hno.
    { intros s (e & He & _ & Hs). pose proof (bounded_to _ _ Hb) as Hto. rewrite Forall_forall in Hto.
      specialize (Hto e He). simpl in Hto. lia. }
    destruct (insert_bounded b g f t Hb ltac:(destruct Hb as [_ _ Hbr _]; lia) Ht Hno) as (g' & Hi & Hb' & Hout & Hcl & Hex).
    cbn [g_add gaps_ops]. unfold idx_gaps_add. rewrite (proj2 (Z.ltb_ge _ _)) by lia.
    rewrite (proj2 (Z.eqb_neq _ _)) by (unfold IDX_SLOT_NONE, SLOT_BOUND in *; lia). rewrite Hi. cbn [mbind IDX_TRY].
    eexists. split; [done|]. split; [|exact (conj Hout (conj Hcl Hex))].
    assert (Z.max b (t + 1) = t + 1) as E by lia. rewrite E in Hb'. destruct Hb' as [H1 H2 H3 H4]. by split.
  - intros f t Hf Ht. set (g0 := g_empty). assert (bounded 0 g0) as Hb.
    { split; [|done|done|by apply Forall_nil_2]. split; [|by apply SSorted_nil]. unfold gaps_sound, Gaps.count. simpl.
      split_and!; [by apply Forall_nil_2|by apply SSorted_nil|unfold size; simpl; lia|done]. }
    destruct (insert_bounded 0 g0 f t Hb Hf Ht) as (g1 & Hi & Hb1 & _ & _); [by intros s (e & He%elem_of_nil & _)|].
    destruct (insert_empty f t) as (g' & Hi' & Hl). unfold g0 in Hi. rewrite Hi' in Hi. injection Hi as <-.
    unfold g_add, gaps_ops at 1. unfold idx_gaps_add. rewrite (proj2 (Z.ltb_ge _ _)) by lia.
    rewrite (proj2 (Z.eqb_neq _ _)) by (unfold IDX_SLOT_NONE, SLOT_BOUND in *; lia). unfold g0. rewrite Hi'. cbn [mbind IDX_TRY].
    eexists. split; [done|]. assert (Z.max 0 (t + 1) = t + 1) as E by lia. rewrite E in Hb1. split; [by destruct Hb1|].
    intros s. unfold outstanding, covers. cbn [ranges]. rewrite Hl. split.
    + intros (c & e & He%list_elem_of_singleton & _ & Hs). by rewrite He in Hs.
    + intros Hs. exists false, (GapsEntry f t false). by rewrite list_elem_of_singleton.
  - intros b g span Hb Hspan. by apply claim_bounded.
  - intros b g n f t Hb Hf Ht Hno. by apply put_back_bounded.
  - intros b g f t Hb Hf Ht. destruct (resolve_bounded b g f t Hb Hf Ht) as (g' & Hr & Hb' & Hc).
    exists g'. cbn [g_resolve gaps_ops]. rewrite Hr. split_and!; [done|done| |by intros s; apply Hc]. intros s. unfold outstanding.
    setoid_rewrite Hc. naive_solver.
  - intros b g highest Hb Hh. cbn [g_watermark gaps_ops]. pose proof Hb as [Hok _ Hbr Hto].
    pose proof Hok as ((Hv & Ho & _) & _). cbn zeta. split; [by apply watermark_range|].
    intros Hw. destruct (watermark_spec g highest (proj1 Hok) Hh) as (H1 & _ & _). destruct (H1 Hw) as [H2 H3].
    split_and!; [done| |done]. intros ->. unfold idx_gaps_watermark in *.
    destruct (ranges g) as [|e l]; [done|]. apply Forall_cons in Hv as [He _]. apply Forall_cons in Hto as [Hte _].
    unfold valid, IDX_SLOT_NONE in *. rewrite (proj2 (Z.eqb_neq _ _)) in Hw |- * by lia.
    destruct (from e =? 0) eqn:Ez; [done|]. rewrite (u64_small (from e - 1)) by (unfold is_u64; zlia).
    rewrite Z.eqb_refl. cbn [orb]. lia.
Defined.
