(* ===== verification/Types.v ===== *)
(** * types.c: pubkeys, signatures and hashes

    The fixed-size values the whole indexer passes around, their equality and
    their base58 text.  Each C struct around a byte array is a one-field record,
    so the three cannot be mixed up here either; the length of the array is the
    predicate [pubkey_ok] and its like. *)

From S2P Require Import Prelude Radix Base58 Bytes.
#[local] Open Scope Z_scope.

(** src/include/types.h:18-18 [IDX_PUBKEY_LEN] *)
Definition IDX_PUBKEY_LEN : Z := 32.

(** src/include/types.h:19-19 [IDX_SIGNATURE_LEN] *)
Definition IDX_SIGNATURE_LEN : Z := 64.

(** src/include/types.h:20-20 [IDX_HASH_LEN] *)
Definition IDX_HASH_LEN : Z := 32.

(** src/include/types.h:23-23 [IDX_PUBKEY_STR_MAX] *)
Definition IDX_PUBKEY_STR_MAX : Z := 45.

(** src/include/types.h:24-24 [IDX_SIGNATURE_STR_MAX] *)
Definition IDX_SIGNATURE_STR_MAX : Z := 89.

(** src/include/types.h:25-25 [IDX_HASH_STR_MAX] *)
Definition IDX_HASH_STR_MAX : Z := 45.

(** src/include/types.h:27-29 [idx_pubkey] *)
Record idx_pubkey := Pubkey { pubkey_bytes : bytes }.

(** src/include/types.h:31-33 [idx_signature] *)
Record idx_signature := Signature { signature_bytes : bytes }.

(** src/include/types.h:35-37 [idx_hash] *)
Record idx_hash := Hash { hash_bytes : bytes }.

#[export] Instance idx_pubkey_eq_dec : EqDecision idx_pubkey.
Proof. solve_decision. Defined.
#[export] Instance idx_signature_eq_dec : EqDecision idx_signature.
Proof. solve_decision. Defined.
#[export] Instance idx_hash_eq_dec : EqDecision idx_hash.
Proof. solve_decision. Defined.

(** src/src/types.c:7-7 [IDX_PUBKEY_DEFAULT] *)
Definition IDX_PUBKEY_DEFAULT : idx_pubkey := Pubkey (replicate 32 0).

(** src/src/types.c:16-16 [IDX_PROGRAM_SYSTEM] *)
Definition IDX_PROGRAM_SYSTEM : idx_pubkey := Pubkey (replicate 32 0).

(** src/src/types.c:19-23 [IDX_PROGRAM_TOKEN] *)
Definition IDX_PROGRAM_TOKEN : idx_pubkey := Pubkey
  [0x06; 0xdd; 0xf6; 0xe1; 0xd7; 0x65; 0xa1; 0x93; 0xd9; 0xcb; 0xe1;
   0x46; 0xce; 0xeb; 0x79; 0xac; 0x1c; 0xb4; 0x85; 0xed; 0x5f; 0x5b;
   0x37; 0x91; 0x3a; 0x8c; 0xf5; 0x85; 0x7e; 0xff; 0x00; 0xa9].

(** src/src/types.c:26-30 [IDX_PROGRAM_TOKEN_2022] *)
Definition IDX_PROGRAM_TOKEN_2022 : idx_pubkey := Pubkey
  [0x06; 0xdd; 0xf6; 0xe1; 0xee; 0x75; 0x8f; 0xde; 0x18; 0x42; 0x5d;
   0xbc; 0xe4; 0x6c; 0xcd; 0xda; 0xb6; 0x1a; 0xfc; 0x4d; 0x83; 0xb9;
   0x0d; 0x27; 0xfe; 0xbd; 0xf9; 0x28; 0xd8; 0xa1; 0x8b; 0xfc].

(** src/src/types.c:33-37 [IDX_PROGRAM_VOTE] *)
Definition IDX_PROGRAM_VOTE : idx_pubkey := Pubkey
  [0x07; 0x61; 0x48; 0x1d; 0x35; 0x74; 0x74; 0xbb; 0x7c; 0x4d; 0x76;
   0x24; 0xeb; 0xd3; 0xbd; 0xb3; 0xd8; 0x35; 0x5e; 0x73; 0xd1; 0x10;
   0x43; 0xfc; 0x0d; 0xa3; 0x53; 0x80; 0x00; 0x00; 0x00; 0x00].

(** src/src/types.c:40-44 [IDX_PROGRAM_MEMO] *)
Definition IDX_PROGRAM_MEMO : idx_pubkey := Pubkey
  [0x05; 0x4a; 0x53; 0x5a; 0x99; 0x29; 0x21; 0x06; 0x4d; 0x24; 0xe8;
   0x71; 0x60; 0xda; 0x38; 0x7c; 0x7c; 0x35; 0xb5; 0xdd; 0xbc; 0x92;
   0xbb; 0x81; 0xe4; 0x1f; 0xa8; 0x40; 0x41; 0x05; 0x44; 0x8d].

(** src/src/types.c:48-52 [idx_pubkey_from_bytes]; [bytes] is the memory from
    the pointer on. *)
Definition idx_pubkey_from_bytes (raw : bytes) : idx_pubkey :=
  Pubkey (take (Z.to_nat IDX_PUBKEY_LEN) raw).

(** [memcmp(a, b, n) == 0] of two arrays of at least [n] bytes. *)
Definition memcmp_eq (a b : bytes) (n : nat) : bool := bool_decide (take n a = take n b).

(** src/src/types.c:54-56 [idx_pubkey_equal] *)
Definition idx_pubkey_equal (a b : idx_pubkey) : bool :=
  memcmp_eq (pubkey_bytes a) (pubkey_bytes b) (Z.to_nat IDX_PUBKEY_LEN).

(** src/src/types.c:58-60 [idx_pubkey_is_default] *)
Definition idx_pubkey_is_default (key : idx_pubkey) : bool := idx_pubkey_equal key IDX_PUBKEY_DEFAULT.

(** src/src/types.c:62-64 [idx_pubkey_slice] *)
Definition idx_pubkey_slice (key : idx_pubkey) : idx_slice :=
  idx_slice_make (Some (pubkey_bytes key)) IDX_PUBKEY_LEN.

(** The three [_from_base58] share their shape: a null [out] is refused, then the
    exact decode. *)
Definition from_base58 {A} (make : bytes -> A) (len : Z) (text : option bytes) (out_given : bool)
    (h : heap) : result A * heap :=
  if negb out_given then (IDX_FAIL IDX_ERR_INVALID_ARG, h)
  else
    let '(r, h') := idx_base58_decode_exact text true len h in
    (raw ← r; Ok (make raw), h').

(** And the three [_to_base58]. *)
Definition to_base58 {A} (raw : A -> bytes) (len width : Z) (value : option A) (out_given : bool)
    (h : heap) : result bytes * heap :=
  match value with
  | Some v =>
      if out_given
      then idx_base58_encode (slice_bytes (idx_slice_make (Some (raw v)) len)) (Some width) h
      else (IDX_FAIL IDX_ERR_INVALID_ARG, h)
  | None => (IDX_FAIL IDX_ERR_INVALID_ARG, h)
  end.

(** src/src/types.c:66-73 [idx_pubkey_from_base58] *)
Definition idx_pubkey_from_base58 := from_base58 Pubkey IDX_PUBKEY_LEN.

(** src/src/types.c:75-83 [idx_pubkey_to_base58] *)
Definition idx_pubkey_to_base58 := to_base58 pubkey_bytes IDX_PUBKEY_LEN IDX_PUBKEY_STR_MAX.

(** src/src/types.c:87-94 [idx_signature_from_base58] *)
Definition idx_signature_from_base58 := from_base58 Signature IDX_SIGNATURE_LEN.

(** src/src/types.c:96-106 [idx_signature_to_base58] *)
Definition idx_signature_to_base58 :=
  to_base58 signature_bytes IDX_SIGNATURE_LEN IDX_SIGNATURE_STR_MAX.

(** src/src/types.c:108-110 [idx_signature_equal] *)
Definition idx_signature_equal (a b : idx_signature) : bool :=
  memcmp_eq (signature_bytes a) (signature_bytes b) (Z.to_nat IDX_SIGNATURE_LEN).

(** src/src/types.c:114-121 [idx_hash_from_base58] *)
Definition idx_hash_from_base58 := from_base58 Hash IDX_HASH_LEN.

(** src/src/types.c:123-131 [idx_hash_to_base58] *)
Definition idx_hash_to_base58 := to_base58 hash_bytes IDX_HASH_LEN IDX_HASH_STR_MAX.

(** src/src/types.c:133-135 [idx_hash_equal] *)
Definition idx_hash_equal (a b : idx_hash) : bool :=
  memcmp_eq (hash_bytes a) (hash_bytes b) (Z.to_nat IDX_HASH_LEN).

(** ** Values of the right length *)

Definition fixed_ok (len : Z) (raw : bytes) : Prop := bytes_ok raw /\ size raw = len.
Definition pubkey_ok (k : idx_pubkey) : Prop := fixed_ok IDX_PUBKEY_LEN (pubkey_bytes k).
Definition signature_ok (s : idx_signature) : Prop := fixed_ok IDX_SIGNATURE_LEN (signature_bytes s).
Definition hash_ok (x : idx_hash) : Prop := fixed_ok IDX_HASH_LEN (hash_bytes x).

#[export] Instance fixed_ok_dec len raw : Decision (fixed_ok len raw).
Proof. unfold fixed_ok. apply _. Defined.
#[export] Instance pubkey_ok_dec k : Decision (pubkey_ok k).
Proof. unfold pubkey_ok. apply _. Defined.
#[export] Instance signature_ok_dec k : Decision (signature_ok k).
Proof. unfold signature_ok. apply _. Defined.
#[export] Instance hash_ok_dec k : Decision (hash_ok k).
Proof. unfold hash_ok. apply _. Defined.

Lemma memcmp_eq_spec a b n : length a = n -> length b = n -> memcmp_eq a b n = true <-> a = b.
Proof.
  intros Ha Hb. unfold memcmp_eq. rewrite bool_decide_eq_true, !take_ge by lia. done.
Qed.

Lemma idx_pubkey_equal_spec a b : pubkey_ok a -> pubkey_ok b -> idx_pubkey_equal a b = true <-> a = b.
Proof.
  intros [_ Ha] [_ Hb]. unfold idx_pubkey_equal, size in *. rewrite memcmp_eq_spec by lia.
  destruct a, b. simpl. split; [by intros ->|by intros [=]].
Qed.

(** ** Fixed-size base58 *)

(** A text buffer of [width] holds the text of any [n] bytes: with [z] leading
    zeros written as one character each, the other [n - z] bytes fit. *)
Definition fits (n width : nat) : bool :=
  forallb (fun z => 256 ^ Z.of_nat (n - z) <=? 58 ^ (Z.of_nat width - 1 - Z.of_nat z)) (seq 0 (S n)).

Lemma fixed_encode n width raw :
  fixed_ok (Z.of_nat n) raw -> fits n width = true -> (n < width)%nat -> Z.of_nat n < 2 ^ 32 ->
  exists text, idx_base58_encode raw (Some (Z.of_nat width)) [] = (Ok text, []) /\
    size text < Z.of_nat width /\
    idx_base58_decode (Some text) (Some (Z.of_nat n)) [] = (Ok raw, []).
Proof.
  intros [Hok Hlen] Hfits Hnw Hn. unfold size in Hlen.
  destruct (encode_spec raw (Z.of_nat width) Hok ltac:(unfold size; lia)) as (act & Hact & Hmin & Hv & ->).
  set (z := count_leading 0 raw) in *. pose proof (count_leading_le 0 raw) as Hz. fold z in Hz.
  unfold fits in Hfits. rewrite forallb_forall in Hfits.
  specialize (Hfits z ltac:(apply in_seq; lia)). apply Z.leb_le in Hfits.
  assert (Z.of_nat z + size act <= Z.of_nat width - 1) as Hw.
  { destruct Hmin as [->|Hm]; [unfold size; simpl; lia|].
    pose proof (be_val_256_bound (drop z raw) ltac:(by apply Forall_drop)) as Hb.
    unfold size in Hb. rewrite length_drop in Hb.
    replace (length raw - z)%nat with (n - z)%nat in Hb by lia.
    assert (58 ^ (size act - 1) < 58 ^ (Z.of_nat width - 1 - Z.of_nat z)) as Hlt by lia.
    apply Z.pow_lt_mono_r_iff in Hlt; lia. }
  rewrite (proj2 (Z.ltb_ge _ _)) by (unfold size in Hw; lia).
  eexists. split; [done|]. split.
  { unfold size in *. rewrite length_app, length_replicate, length_map. lia. }
  rewrite (count_leading_split 0 raw) at 1. fold z.
  apply decode_encoded; auto.
  - by apply Forall_drop.
  - by apply rest_minimal.
  - unfold size. rewrite length_drop. lia.
Qed.

Lemma decode_exact_ok text n raw :
  idx_base58_decode (Some text) (Some n) [] = (Ok raw, []) -> size raw = n ->
  idx_base58_decode_exact (Some text) true n [] = (Ok raw, []).
Proof.
  intros Hd Hn. unfold idx_base58_decode_exact. rewrite Hd. simpl. by rewrite Hn, Z.eqb_refl.
Qed.

Lemma decode_exact_inv text n raw h' :
  idx_base58_decode_exact (Some text) true n [] = (Ok raw, h') ->
  idx_base58_decode (Some text) (Some n) [] = (Ok raw, h') /\ size raw = n.
Proof.
  unfold idx_base58_decode_exact. destruct (idx_base58_decode _ _ _) as [[d|] h1]; [|done]. simpl.
  destruct (size d =? n) eqn:E; [|done]. simpl. intros [= <- <-]. apply Z.eqb_eq in E. done.
Qed.

(** Text and value determine each other, for any of the three types. *)
Lemma fixed_roundtrip {A} (make : bytes -> A) (raw : A -> bytes) n width (v : A) :
  (forall l, raw (make l) = l) -> (forall v, make (raw v) = v) ->
  fits n width = true -> (n < width)%nat -> Z.of_nat n < 2 ^ 32 -> fixed_ok (Z.of_nat n) (raw v) ->
  exists text,
    to_base58 raw (Z.of_nat n) (Z.of_nat width) (Some v) true [] = (Ok text, []) /\
    size text < Z.of_nat width /\
    from_base58 make (Z.of_nat n) (Some text) true [] = (Ok v, []).
Proof.
  intros Hrm Hmr Hfits Hnw Hn Hv. destruct (fixed_encode n width (raw v) Hv Hfits Hnw Hn) as (text & He & Hs & Hd).
  exists text. split_and!; [|done|].
  - unfold to_base58, slice_bytes. simpl. rewrite take_ge; [done|]. destruct Hv as [_ Hv]. unfold size in Hv. lia.
  - unfold from_base58. simpl. rewrite (decode_exact_ok text _ (raw v) Hd) by apply Hv. simpl. by rewrite Hmr.
Qed.

Lemma fixed_text_unique {A} (make : bytes -> A) (raw : A -> bytes) n width text (v : A) :
  (forall l, raw (make l) = l) -> fits n width = true -> (n < width)%nat -> Z.of_nat n < 2 ^ 32 ->
  bytes_ok text -> size text < 2 ^ 32 -> fixed_ok (Z.of_nat n) (raw v) ->
  from_base58 make (Z.of_nat n) (Some text) true [] = (Ok v, []) ->
  to_base58 raw (Z.of_nat n) (Z.of_nat width) (Some v) true [] = (Ok text, []).
Proof.
  intros Hrm Hfits Hnw Hn Ht Hsz Hv. unfold from_base58. simpl.
  destruct (idx_base58_decode_exact _ _ _ _) as [[d|] h1] eqn:E; [|done]. simpl. intros [= <- ->].
  apply decode_exact_inv in E as [E _]. rewrite Hrm in Hv.
  destruct (fixed_encode n width d Hv Hfits Hnw Hn) as (text' & He & Hs & _).
  set (big := Z.max (Z.of_nat width) (idx_base58_encoded_max (size text) + 1)).
  pose proof (encode_larger _ _ big _ _ _ He ltac:(unfold big; lia)) as He'.
  pose proof (encode_decoded text (Z.of_nat n) d big Ht ltac:(lia) E ltac:(unfold big; lia)) as He''.
  assert (text' = text) as -> by congruence.
  unfold to_base58, slice_bytes. simpl. rewrite Hrm, take_ge; [done|].
  destruct Hv as [_ Hv]. unfold size in Hv. lia.
Qed.

(** ** Properties *)

(** Every pubkey, signature and hash has base58 text that fits the buffer its
    type declares, terminator included, and reading the text back gives the
    value. *)
Theorem types_base58_roundtrip k s x :
  pubkey_ok k -> signature_ok s -> hash_ok x ->
  (exists text, idx_pubkey_to_base58 (Some k) true [] = (Ok text, []) /\
     size text < IDX_PUBKEY_STR_MAX /\ idx_pubkey_from_base58 (Some text) true [] = (Ok k, [])) /\
  (exists text, idx_signature_to_base58 (Some s) true [] = (Ok text, []) /\
     size text < IDX_SIGNATURE_STR_MAX /\ idx_signature_from_base58 (Some text) true [] = (Ok s, [])) /\
  (exists text, idx_hash_to_base58 (Some x) true [] = (Ok text, []) /\
     size text < IDX_HASH_STR_MAX /\ idx_hash_from_base58 (Some text) true [] = (Ok x, [])).
Proof.
  intros Hk Hs Hx. split_and!.
  - apply (fixed_roundtrip Pubkey pubkey_bytes 32 45); [done|by intros []|by vm_compute|lia|done|exact Hk].
  - apply (fixed_roundtrip Signature signature_bytes 64 89); [done|by intros []|by vm_compute|lia|done|exact Hs].
  - apply (fixed_roundtrip Hash hash_bytes 32 45); [done|by intros []|by vm_compute|lia|done|exact Hx].
Qed.

(** A pubkey has one text: whatever text is accepted as a pubkey is the text
    printed for it, so two texts never name one account. *)
Theorem pubkey_text_unique text k :
  bytes_ok text -> size text < 2 ^ 32 -> pubkey_ok k ->
  idx_pubkey_from_base58 (Some text) true [] = (Ok k, []) ->
  idx_pubkey_to_base58 (Some k) true [] = (Ok text, []).
Proof.
  intros Ht Hs Hk. apply (fixed_text_unique Pubkey pubkey_bytes 32 45);
    [done|by vm_compute|lia|done|exact Ht|exact Hs|exact Hk].
Qed.

(** ** Witnesses *)

Lemma types_base58_roundtrip_witness :
  idx_pubkey_to_base58 (Some IDX_PROGRAM_VOTE) true [] =
    (Ok (lit "Vote111111111111111111111111111111111111111"), []) /\
  idx_pubkey_from_base58 (Some (lit "Vote111111111111111111111111111111111111111")) true [] =
    (Ok IDX_PROGRAM_VOTE, []).
Proof.
  destruct (types_base58_roundtrip IDX_PROGRAM_VOTE (Signature (replicate 64 1)) (Hash (replicate 32 2)))
    as ((text & H1 & _ & H2) & _).
  - decide_now.
  - decide_now.
  - decide_now.
  - assert (text = lit "Vote111111111111111111111111111111111111111") as <-;
      [|split; [exact H1|exact H2]].
    vm_compute in H1. injection H1 as <-. reflexivity.
Defined.

Lemma pubkey_text_unique_witness :
  idx_pubkey_to_base58 (Some IDX_PROGRAM_TOKEN) true [] =
    (Ok (lit "TokenkegQfeZyiNwAJbNbGKPFXCWuBvf9Ss623VQ5DA"), []).
Proof.
  apply (pubkey_text_unique (lit "TokenkegQfeZyiNwAJbNbGKPFXCWuBvf9Ss623VQ5DA") IDX_PROGRAM_TOKEN).
  - decide_now.
  - done.
  - decide_now.
  - vm_compute. reflexivity.
Defined.
