(* ===== verification/Json.v ===== *)
(** * json.c: typed reads of a parsed document, and the JSON writer

    The parser behind [idx_json_parse] is the vendored yyjson: a document is the
    tree it produces, [json], and the accessors the source calls are read off that
    tree (the first member of an object with the key asked for, an array element
    by index).  An [idx_json_val] is a node or null, [option json].

    The readers are the source's, message texts apart.  The writer appends to an
    [idx_buffer], and what it writes is proved to be one JSON string that reads
    back as the text. *)

From S2P Require Import Prelude Radix Bytes Decimal.
#[local] Open Scope Z_scope.
#[local] Set Warnings "-register-all".

(** A yyjson node.  Integers come in two subtypes, [YYJSON_SUBTYPE_UINT] for those
    from 0 on and [YYJSON_SUBTYPE_SINT] for negative ones, in a 64-bit field that
    the accessors read as the type they return; [JReal] keeps the bits of the
    double. *)
Inductive json :=
  | JNull
  | JBool (b : bool)
  | JUint (n : Z)
  | JSint (n : Z)
  | JReal (bits : Z)
  | JStr (s : bytes)
  | JArr (items : list json)
  | JObj (members : list (bytes * json)).

(** src/include/json.h:26-28 [idx_json_val] *)
Definition idx_json_val : Type := option json.

(** src/src/json.c:32-55 [idx_json_parse]: [yyjson_read_opts], the vendored parser, gives a
    tree or nothing; the document handle is allocated after it. *)
Definition idx_json_parse (yyjson_read_opts : bytes -> option json) (input : idx_slice) (h : heap)
    : result json * heap :=
  match yyjson_read_opts (slice_bytes input) with
  | None => (IDX_FAIL IDX_ERR_PARSE, h)
  | Some tree =>
      let '(ok, h) := malloc h in
      if ok then (Ok tree, h) else (IDX_FAIL IDX_ERR_NO_MEMORY, h)
  end.

(** src/src/json.c:57-88 [idx_json_parse_insitu]: the text is the first [len] bytes of a
    buffer of [capacity]. *)
Definition idx_json_parse_insitu (yyjson_read_opts : bytes -> option json) (data : option bytes) (len capacity : Z) (h : heap)
    : result json * heap :=
  match data with
  | None => (IDX_FAIL IDX_ERR_INVALID_ARG, h)
  | Some d =>
      if capacity <? u64 (len + 4) then (IDX_FAIL IDX_ERR_INVALID_ARG, h)
      else
        match yyjson_read_opts (take (Z.to_nat len) d) with
        | None => (IDX_FAIL IDX_ERR_PARSE, h)
        | Some tree =>
            let '(ok, h) := malloc h in
            if ok then (Ok tree, h) else (IDX_FAIL IDX_ERR_NO_MEMORY, h)
        end
  end.

(** src/src/json.c:107-107 [idx_json_is_present] *)
Definition idx_json_is_present (v : idx_json_val) : bool :=
  match v with Some _ => true | None => false end.

(** src/src/json.c:109-111 [idx_json_is_null] *)
Definition idx_json_is_null (v : idx_json_val) : bool :=
  match v with Some JNull => true | _ => false end.

(** src/src/json.c:113-115 [idx_json_is_object] *)
Definition idx_json_is_object (v : idx_json_val) : bool :=
  match v with Some (JObj _) => true | _ => false end.

(** src/src/json.c:117-119 [idx_json_is_array] *)
Definition idx_json_is_array (v : idx_json_val) : bool :=
  match v with Some (JArr _) => true | _ => false end.

(** src/src/json.c:121-123 [idx_json_is_string] *)
Definition idx_json_is_string (v : idx_json_val) : bool :=
  match v with Some (JStr _) => true | _ => false end.

(** src/src/json.c:125-127 [idx_json_is_number] *)
Definition idx_json_is_number (v : idx_json_val) : bool :=
  match v with Some (JUint _ | JSint _ | JReal _) => true | _ => false end.

(** src/src/json.c:129-131 [idx_json_is_bool] *)
Definition idx_json_is_bool (v : idx_json_val) : bool :=
  match v with Some (JBool _) => true | _ => false end.

(** src/src/json.c:133-157 [idx_json_type_name] *)
Definition idx_json_type_name (v : idx_json_val) : bytes :=
  match v with
  | None => lit "absent"
  | Some JNull => lit "null"
  | Some (JBool _) => lit "boolean"
  | Some (JUint _ | JSint _ | JReal _) => lit "number"
  | Some (JStr _) => lit "string"
  | Some (JArr _) => lit "array"
  | Some (JObj _) => lit "object"
  end.

(** src/src/json.c:161-167 [idx_json_get] *)
Definition idx_json_get (object : idx_json_val) (key : bytes) : idx_json_val :=
  match object with
  | Some (JObj members) => snd <$> List.find (fun m => bool_decide (m.1 = key)) members
  | _ => None
  end.

(** src/src/json.c:169-174 [idx_json_array_size] *)
Definition idx_json_array_size (array : idx_json_val) : nat :=
  match array with Some (JArr items) => length items | _ => 0 end.

(** src/src/json.c:176-181 [idx_json_array_get] *)
Definition idx_json_array_get (array : idx_json_val) (index : nat) : idx_json_val :=
  match array with Some (JArr items) => items !! index | _ => None end.

(** src/src/json.c:183-197 [idx_json_array_next]: the element and the cursor
    after it. *)
Definition idx_json_array_next (array : idx_json_val) (cursor : nat) : option (json * nat) :=
  match idx_json_array_get array cursor with
  | Some item => Some (item, S cursor)
  | None => None
  end.

(** src/src/json.c:199-232 [idx_json_object_next]: stepping the sequential
    iterator [cursor + 1] times reaches member number [cursor]. *)
Definition idx_json_object_next (object : idx_json_val) (cursor : nat)
    : option (idx_slice * json * nat) :=
  match object with
  | Some (JObj members) =>
      match members !! cursor with
      | Some (key, value) => Some (Some key, value, S cursor)
      | None => None
      end
  | _ => None
  end.

(** src/src/json.c:236-239 [missing] *)
Definition missing {A} : result A := IDX_FAIL IDX_ERR_NOT_FOUND.

(** src/src/json.c:241-246 [wrong_type] *)
Definition wrong_type {A} : result A := IDX_FAIL IDX_ERR_PARSE.

(** src/src/json.c:248-274 [idx_json_as_u64] *)
Definition idx_json_as_u64 (v : idx_json_val) : result Z :=
  match v with
  | None => missing
  | Some (JUint n) => Ok (u64 n)
  | Some (JSint n) => if n <? 0 then IDX_FAIL IDX_ERR_RANGE else Ok (u64 n)
  | Some _ => wrong_type
  end.

(** src/src/json.c:276-279 [idx_json_read_u64] *)
Definition idx_json_read_u64 (object : idx_json_val) (key : bytes) : result Z :=
  idx_json_as_u64 (idx_json_get object key).

(** The bits of a 64-bit integer read as signed. *)
Definition as_i64 (z : Z) : Z := if z <? 2 ^ 63 then z else z - 2 ^ 64.

(** src/src/json.c:281-297 [idx_json_read_i64]: [yyjson_get_sint] returns the bits
    of either subtype as an [int64_t]. *)
Definition idx_json_read_i64 (object : idx_json_val) (key : bytes) : result Z :=
  match idx_json_get object key with
  | None => missing
  | Some (JUint n | JSint n) => Ok (as_i64 (u64 n))
  | Some _ => wrong_type
  end.

(** src/src/json.c:299-313 [idx_json_read_double]: the bits of the double that yyjson's
    [yyjson_get_num] gives for a number. *)
Definition idx_json_read_double (yyjson_get_num : json -> Z) (object : idx_json_val) (key : bytes) : result Z :=
  match idx_json_get object key with
  | None => missing
  | Some v => if negb (idx_json_is_number (Some v)) then wrong_type else Ok (yyjson_get_num v)
  end.

(** src/src/json.c:315-329 [idx_json_read_bool] *)
Definition idx_json_read_bool (object : idx_json_val) (key : bytes) : result bool :=
  match idx_json_get object key with
  | None => missing
  | Some (JBool b) => Ok b
  | Some _ => wrong_type
  end.

(** src/src/json.c:331-345 [idx_json_as_string] *)
Definition idx_json_as_string (v : idx_json_val) : result idx_slice :=
  match v with
  | None => missing
  | Some (JStr s) => Ok (idx_slice_make (Some s) (size s))
  | Some _ => wrong_type
  end.

(** src/src/json.c:347-350 [idx_json_read_string] *)
Definition idx_json_read_string (object : idx_json_val) (key : bytes) : result idx_slice :=
  idx_json_as_string (idx_json_get object key).

(** src/src/json.c:352-366 [idx_json_read_object] *)
Definition idx_json_read_object (object : idx_json_val) (key : bytes) : result idx_json_val :=
  let value := idx_json_get object key in
  if negb (idx_json_is_present value) then missing
  else if negb (idx_json_is_object value) then wrong_type
  else Ok value.

(** src/src/json.c:368-382 [idx_json_read_array] *)
Definition idx_json_read_array (object : idx_json_val) (key : bytes) : result idx_json_val :=
  let value := idx_json_get object key in
  if negb (idx_json_is_present value) then missing
  else if negb (idx_json_is_array value) then wrong_type
  else Ok value.

(** A status as the optional readers turn it into a bool. *)
Definition succeeded {A} (r : result A) : option A :=
  match r with Ok a => Some a | Err _ => None end.

(** src/src/json.c:384-390 [idx_json_opt_u64] *)
Definition idx_json_opt_u64 (object : idx_json_val) (key : bytes) : option Z :=
  let value := idx_json_get object key in
  if negb (idx_json_is_present value) || idx_json_is_null value then None
  else succeeded (idx_json_as_u64 value).

(** src/src/json.c:392-398 [idx_json_opt_string] *)
Definition idx_json_opt_string (object : idx_json_val) (key : bytes) : option idx_slice :=
  let value := idx_json_get object key in
  if negb (idx_json_is_present value) || idx_json_is_null value then None
  else succeeded (idx_json_as_string value).

(** src/src/json.c:400-410 [idx_json_opt_bool] *)
Definition idx_json_opt_bool (object : idx_json_val) (key : bytes) : option bool :=
  match idx_json_get object key with
  | Some (JBool b) => Some b
  | _ => None
  end.

(** ** Writing *)

(** A function that appends to a buffer. *)
Definition writer : Type := option idx_buffer -> heap -> result unit * option idx_buffer * heap.

(** [IDX_TRY(first); second] *)
Definition then_write (w1 w2 : writer) : writer := fun b h =>
  match w1 b h with
  | (Ok _, b', h') => w2 b' h'
  | r => r
  end.

Infix "+>" := then_write (at level 60, right associativity).

(** Appending the bytes of a literal, and a byte. *)
Definition append_lit (l : bytes) : writer := fun b h => idx_buffer_append b (Some l) (size l) h.

(** src/src/json.c:425-457 [idx_json_write_escaped]: the [switch]; what
    [snprintf("\\u%04x")] writes for the remaining control characters. *)
Definition escape (c : Z) : bytes :=
  if c =? 34 then [92; 34]
  else if c =? 92 then [92; 92]
  else if c =? 10 then [92; 110]
  else if c =? 13 then [92; 114]
  else if c =? 9 then [92; 116]
  else if c =? 8 then [92; 98]
  else if c =? 12 then [92; 102]
  else if c <? 32 then
    [92; 117; 48; 48; k_hex_digits !!! Z.to_nat (c / 16); k_hex_digits !!! Z.to_nat (c mod 16)]
  else [c].

(** src/src/json.c:423-458 [idx_json_write_escaped]: the loop. *)
Fixpoint write_chars (text : bytes) : writer :=
  match text with
  | [] => fun b h => (Ok tt, b, h)
  | c :: text' => append_lit (escape c) +> write_chars text'
  end.

(** src/src/json.c:414-461 [idx_json_write_escaped] *)
Definition idx_json_write_escaped (text : idx_slice) : writer := fun out h =>
  match out with
  | None => (IDX_FAIL IDX_ERR_INVALID_ARG, None, h)
  | Some _ =>
      (append_lit [34] +> write_chars (slice_bytes text) +> append_lit [34]) out h
  end.

(** src/src/json.c:463-489 [idx_json_write_rpc_request] *)
Definition idx_json_write_rpc_request (id : Z) (method params_json : option bytes) : writer := fun out h =>
  match out, method with
  | Some _, Some method =>
      let prefix := [123; 34] ++ lit "jsonrpc" ++ [34; 58; 34] ++ lit "2.0" ++ [34; 44; 34] ++ lit "id" ++
                    [34; 58] ++ dec id ++ [44; 34] ++ lit "method" ++ [34; 58] in
      if 64 <=? size prefix then (IDX_FAIL IDX_ERR_INTERNAL, out, h)
      else
        (append_lit prefix +>
         idx_json_write_escaped (idx_slice_from_str (Some method)) +>
         match params_json with
         | Some params =>
             append_lit ([44; 34] ++ lit "params" ++ [34; 58]) +>
             append_lit (take (strlen params) params)
         | None => fun b h => (Ok tt, b, h)
         end +>
         append_lit [125]) out h
  | _, _ => (IDX_FAIL IDX_ERR_INVALID_ARG, out, h)
  end.

(** ** What a writer writes *)

(** With memory to spare, [w] appends exactly [l]. *)
Definition writes (w : writer) (l : bytes) : Prop :=
  forall b, buffer_ok b -> size (buf_data b) + size l <= SIZE_MAX ->
  exists b', w (Some b) [] = (Ok tt, Some b', []) /\ buffer_ok b' /\ buf_data b' = buf_data b ++ l.

Lemma append_heap_nil b data len : (idx_buffer_append b data len []).2 = [].
Proof.
  unfold idx_buffer_append. destruct (len =? 0); [done|]. destruct data; [|done].
  unfold idx_buffer_reserve. destruct b as [b|]; [|done].
  repeat match goal with |- context [if ?c then _ else _] => destruct c; [done|] end. done.
Qed.

Lemma writes_lit l : writes (append_lit l) l.
Proof.
  intros b Hb Hsz. unfold append_lit. pose proof (buffer_append_ok b l [] Hb) as H.
  pose proof (append_heap_nil (Some b) (Some l) (size l)) as Hh.
  destruct (idx_buffer_append _ _ _ _) as [[[[]|s] b'] h']; cbn [snd] in Hh; subst h'.
  - destruct H as (b1 & -> & Hb1 & Hd & _). by exists b1.
  - destruct H as (b1 & _ & _ & _ & [[_ H]|[_ H]]); [lia|done].
Qed.

Lemma writes_nil : writes (fun b h => (Ok tt, b, h)) [].
Proof. intros b Hb _. exists b. by rewrite app_nil_r. Qed.

Lemma writes_then w1 w2 l1 l2 : writes w1 l1 -> writes w2 l2 -> writes (w1 +> w2) (l1 ++ l2).
Proof.
  intros H1 H2 b Hb Hsz. unfold size in *. rewrite length_app in Hsz.
  destruct (H1 b Hb) as (b1 & E1 & Hb1 & Hd1); [unfold size; lia|].
  destruct (H2 b1 Hb1) as (b2 & E2 & Hb2 & Hd2); [rewrite Hd1; unfold size; rewrite length_app; lia|].
  exists b2. unfold then_write. rewrite E1, E2. split_and!; auto. by rewrite Hd2, Hd1, app_assoc.
Qed.

(** The token the writer produces for [text]. *)
Definition json_token (text : bytes) : bytes := [34] ++ (text ≫= escape) ++ [34].

Lemma writes_chars text : writes (write_chars text) (text ≫= escape).
Proof.
  induction text as [|c text IH]; [apply writes_nil|]. apply writes_then; [apply writes_lit|done].
Qed.

Lemma writes_escaped text : writes (idx_json_write_escaped text) (json_token (slice_bytes text)).
Proof.
  intros b Hb Hsz. unfold idx_json_write_escaped.
  apply (writes_then _ _ _ _ (writes_lit [34]) (writes_then _ _ _ _ (writes_chars _) (writes_lit [34]))); done.
Qed.

(** ** Reading a JSON string (RFC 8259, section 7) *)

Definition simple_escape (e : Z) : option Z :=
  if e =? 34 then Some 34 else if e =? 92 then Some 92 else if e =? 47 then Some 47
  else if e =? 98 then Some 8 else if e =? 102 then Some 12 else if e =? 110 then Some 10
  else if e =? 114 then Some 13 else if e =? 116 then Some 9 else None.

(** A [\u] escape of a code point below 128, which is one byte of UTF-8. *)
Definition unicode_escape (h1 h2 h3 h4 : Z) : option Z :=
  let d := map hex_value [h1; h2; h3; h4] in
  let code := foldl (fun v x => v * 16 + x) 0 d in
  if forallb (fun x => 0 <=? x) d && (code <? 128) then Some code else None.

(** The characters up to the closing quote, and what follows it. *)
Fixpoint read_chars (l : bytes) : option (bytes * bytes) :=
  match l with
  | [] => None
  | c :: l1 =>
      let push d r := match r with Some (t, rest) => Some (d :: t, rest) | None => None end in
      if c =? 34 then Some ([], l1)
      else if c =? 92 then
        match l1 with
        | e :: l2 =>
            if e =? 117 then
              match l2 with
              | h1 :: h2 :: h3 :: h4 :: l3 =>
                  match unicode_escape h1 h2 h3 h4 with
                  | Some d => push d (read_chars l3)
                  | None => None
                  end
              | _ => None
              end
            else match simple_escape e with Some d => push d (read_chars l2) | None => None end
        | [] => None
        end
      else if c <? 32 then None
      else push c (read_chars l1)
  end.

Definition read_string (l : bytes) : option (bytes * bytes) :=
  match l with c :: l' => if c =? 34 then read_chars l' else None | [] => None end.

(** Each escape reads back as the byte it stands for. *)
Lemma read_escape c l :
  is_byte c ->
  read_chars (escape c ++ l) =
  match read_chars l with Some (t, rest) => Some (c :: t, rest) | None => None end.
Proof.
  unfold is_byte. intros Hc. unfold escape.
  repeat match goal with
  | |- context [if c =? ?k then _ else _] => destruct (Z.eqb_spec c k); [subst; done|]
  end.
  destruct (c <? 32) eqn:H32.
  - apply Z.ltb_lt in H32. cbn [app read_chars].
    change (92 =? 34) with false. change (92 =? 92) with true. change (117 =? 117) with true. cbn iota.
    assert (unicode_escape 48 48 (k_hex_digits !!! Z.to_nat (c / 16)) (k_hex_digits !!! Z.to_nat (c mod 16))
      = Some c) as ->; [|done].
    apply (decide_below 32 (fun c => unicode_escape 48 48 (k_hex_digits !!! Z.to_nat (c / 16))
      (k_hex_digits !!! Z.to_nat (c mod 16)) = Some c)); [by vm_compute|lia].
  - cbn [app read_chars]. rewrite !(proj2 (Z.eqb_neq c _)) by done. by rewrite H32.
Qed.

Lemma read_token text rest : bytes_ok text -> read_string (json_token text ++ rest) = Some (text, rest).
Proof.
  intros Ht. unfold json_token, read_string. cbn [app]. change (34 =? 34) with true. cbn iota.
  rewrite <- app_assoc. cbn [app]. induction Ht as [|c text Hc Ht IH]; [done|].
  rewrite bind_cons, <- app_assoc, read_escape by done. by rewrite IH.
Qed.

Lemma json_token_size text : size (json_token text) <= 6 * size text + 2.
Proof.
  unfold json_token, size. rewrite !length_app. cbn [length].
  assert (forall c, (length (escape c) <= 6)%nat) as He.
  { intros c. unfold escape. repeat (destruct (_ =? _); [simpl; lia|]). destruct (c <? 32); simpl; lia. }
  assert (length (text ≫= escape) <= 6 * length text)%nat; [|lia].
  induction text as [|c l IH]; [done|]. rewrite bind_cons, length_app. specialize (He c). simpl length. lia.
Qed.

Lemma strlen_no_nul l : Forall (fun c => c <> 0) l -> strlen l = length l.
Proof. induction 1 as [|c l Hc Hl IH]; [done|]. simpl. rewrite (proj2 (Z.eqb_neq _ _)) by done. by rewrite IH. Qed.

Lemma strlen_le l : (strlen l <= length l)%nat.
Proof. induction l as [|c l IH]; simpl; [lia|]. destruct (c =? 0); simpl; lia. Qed.

(** *** Requests *)

Definition request_prefix (id : Z) : bytes :=
  [123; 34] ++ lit "jsonrpc" ++ [34; 58; 34] ++ lit "2.0" ++ [34; 44; 34] ++ lit "id" ++
  [34; 58] ++ dec id ++ [44; 34] ++ lit "method" ++ [34; 58].

Definition request_params (params : option bytes) : bytes :=
  match params with Some p => [44; 34] ++ lit "params" ++ [34; 58] ++ p | None => [] end.

(** The request object. *)
Definition request_text (id : Z) (method : bytes) (params : option bytes) : bytes :=
  request_prefix id ++ json_token method ++ request_params params ++ [125].

Lemma request_prefix_size id : is_u64 id -> size (request_prefix id) <= 52.
Proof.
  intros (_ & _ & _ & Hl)%dec_ok. unfold request_prefix, size in *. rewrite !length_app.
  change (length (lit "jsonrpc")) with 7%nat. change (length (lit "2.0")) with 3%nat.
  change (length (lit "id")) with 2%nat. change (length (lit "method")) with 6%nat. cbn [length]. lia.
Qed.

Lemma request_text_size id method params :
  is_u64 id -> size (request_text id method params) <= 6 * size method + size (default [] params) + 66.
Proof.
  intros H%request_prefix_size. pose proof (json_token_size method).
  assert (size (request_params params) <= size (default [] params) + 11).
  { destruct params as [p|]; unfold request_params, size; [|simpl; lia].
    rewrite !length_app. change (length (lit "params")) with 6%nat. simpl. lia. }
  unfold request_text, size in *. rewrite !length_app. change (length [125]) with 1%nat. lia.
Qed.

Lemma slice_from_no_nul l : Forall (fun c => c <> 0) l -> idx_slice_from_str (Some l) = Some l.
Proof.
  intros H. unfold idx_slice_from_str. simpl. by rewrite Nat2Z.id, take_ge by (rewrite strlen_no_nul; auto).
Qed.

Lemma writes_request id method params :
  is_u64 id -> Forall (fun c => c <> 0) method -> Forall (fun c => c <> 0) (default [] params) ->
  writes (idx_json_write_rpc_request id (Some method) params) (request_text id method params).
Proof.
  intros Hid Hm Hp b Hb Hsz. unfold idx_json_write_rpc_request. fold (request_prefix id).
  pose proof (request_prefix_size id Hid). rewrite (proj2 (Z.leb_gt _ _)) by lia.
  rewrite slice_from_no_nul by done.
  match goal with |- context [?w (Some b) []] => assert (writes w (request_text id method params)) as Hw end; [|by apply Hw].
  apply writes_then; [apply writes_lit|]. apply writes_then; [apply writes_escaped|].
  apply writes_then; [|apply writes_lit]. destruct params as [p|]; [|apply writes_nil].
  unfold request_params. rewrite (strlen_no_nul p) by done. rewrite take_ge by done.
  change ([44; 34] ++ lit "params" ++ [34; 58] ++ p) with (([44; 34] ++ lit "params" ++ [34; 58]) ++ p).
  apply writes_then; apply writes_lit.
Qed.

(** ** Properties *)

(** Parsing in place is parsing, when the buffer has the four bytes yyjson writes past the
    text. *)
Lemma parse_insitu_exact yyjson d len capacity h :
  0 <= len -> len + 4 <= capacity -> is_u64 capacity ->
  idx_json_parse_insitu yyjson (Some d) len capacity h = idx_json_parse yyjson (Some (take (Z.to_nat len) d)) h.
Proof.
  unfold is_u64. intros Hl Hc Hu. unfold idx_json_parse_insitu. rewrite u64_small by (unfold is_u64; lia).
  by rewrite (proj2 (Z.ltb_ge _ _)) by lia.
Qed.

Lemma parse_insitu_exact_witness :
  idx_json_parse_insitu (fun _ => Some JNull) (Some (lit "nullxxxx")) 4 8 [] = (Ok JNull, []).
Proof. rewrite (parse_insitu_exact _ _ 4 8) by (unfold is_u64; lia). reflexivity. Defined.

(** Whatever the bytes of the text, what is appended is one JSON string, and
    reading it back stops exactly where the writer did and gives the text: quotes,
    backslashes and control characters in it cannot end the string or break it. *)
Theorem json_escape_roundtrip b text rest :
  buffer_ok b -> bytes_ok (slice_bytes text) ->
  size (buf_data b) + 6 * slice_len text + 2 <= SIZE_MAX ->
  exists b', idx_json_write_escaped text (Some b) [] = (Ok tt, Some b', []) /\ buffer_ok b' /\
    exists token, buf_data b' = buf_data b ++ token /\
      read_string (token ++ rest) = Some (slice_bytes text, rest).
Proof.
  intros Hb Ht Hsz. unfold slice_len in Hsz.
  pose proof (json_token_size (slice_bytes text)) as Hlen.
  destruct (writes_escaped text b Hb) as (b' & E & Hb' & Hd); [lia|].
  exists b'. split_and!; auto. exists (json_token (slice_bytes text)). split; [done|]. by apply read_token.
Qed.

(** An RPC request is the JSON-RPC 2.0 object the header promises, for every
    64-bit id: the prefix always fits its 64 bytes, the id is printed in decimal,
    the method name is one JSON string, and the parameters are copied verbatim. *)
Theorem rpc_request_text b id method params :
  buffer_ok b -> is_u64 id -> Forall (fun c => c <> 0) method ->
  size (buf_data b) + 6 * size method + size (default [] params) + 200 <= SIZE_MAX ->
  Forall (fun c => c <> 0) (default [] params) ->
  exists b' digits, idx_json_write_rpc_request id (Some method) params (Some b) [] = (Ok tt, Some b', []) /\
    buffer_ok b' /\ Forall is_digit digits /\ dec_val digits = id /\
    buf_data b' = buf_data b ++
      [123; 34] ++ lit "jsonrpc" ++ [34; 58; 34] ++ lit "2.0" ++ [34; 44; 34] ++ lit "id" ++ [34; 58] ++
      digits ++ [44; 34] ++ lit "method" ++ [34; 58] ++ json_token method ++
      match params with Some p => [44; 34] ++ lit "params" ++ [34; 58] ++ p | None => [] end ++ [125].
Proof.
  intros Hb Hid Hm Hsz Hp. destruct (dec_ok id Hid) as (Hd & Hv & _ & _).
  destruct (writes_request id method params Hid Hm Hp b Hb) as (b' & E & Hb' & Hdata).
  { pose proof (request_text_size id method params Hid). lia. }
  exists b', (dec id). split_and!; auto. rewrite Hdata. unfold request_text, request_prefix. by rewrite <- !app_assoc.
Qed.

(** A field above the signed range is not refused but read as a negative
    number. *)
Theorem json_read_i64_wraps key n :
  2 ^ 63 <= n < 2 ^ 64 ->
  idx_json_read_i64 (Some (JObj [(key, JUint n)])) key = Ok (n - 2 ^ 64) /\ n - 2 ^ 64 < 0.
Proof.
  intros Hn. unfold idx_json_read_i64, idx_json_get. simpl. rewrite bool_decide_eq_true_2 by done. simpl.
  unfold as_i64. rewrite u64_small by (unfold is_u64; lia).
  rewrite (proj2 (Z.ltb_ge _ _)) by lia. split; [done|lia].
Qed.

(** ** Witnesses *)

Definition empty_buffer : idx_buffer := Buffer [] 0.

Lemma empty_buffer_ok : buffer_ok empty_buffer.
Proof. by vm_compute. Qed.

(** A text made to break out of its string. *)
Lemma json_escape_roundtrip_witness :
  exists b', idx_json_write_escaped (Some [34; 44; 92; 10; 1]) (Some empty_buffer) [] = (Ok tt, Some b', []) /\
    exists token, buf_data b' = token /\ read_string (token ++ [44]) = Some ([34; 44; 92; 10; 1], [44]).
Proof.
  destruct (json_escape_roundtrip empty_buffer (Some [34; 44; 92; 10; 1]) [44]) as (b' & H1 & _ & token & H2 & H3).
  - apply empty_buffer_ok.
  - decide_now.
  - done.
  - exists b'. split; [exact H1|]. exists token. split; [exact H2|exact H3].
Defined.

Lemma rpc_request_text_witness :
  exists b', idx_json_write_rpc_request 7 (Some (lit "getSlot")) None (Some empty_buffer) [] = (Ok tt, Some b', []) /\
    buf_data b' = [123; 34] ++ lit "jsonrpc" ++ [34; 58; 34] ++ lit "2.0" ++ [34; 44; 34] ++ lit "id" ++ [34; 58; 55; 44; 34] ++
      lit "method" ++ [34; 58; 34] ++ lit "getSlot" ++ [34; 125].
Proof.
  destruct (rpc_request_text empty_buffer 7 (lit "getSlot") None) as (b' & digits & H1 & _ & _ & _ & _).
  - apply empty_buffer_ok.
  - unfold is_u64. lia.
  - decide_now.
  - done.
  - decide_now.
  - exists b'. split; [exact H1|]. vm_compute in H1. injection H1 as <-. reflexivity.
Defined.

Lemma json_read_i64_wraps_witness :
  idx_json_read_i64 (Some (JObj [(lit "blockTime", JUint (2 ^ 64 - 1))])) (lit "blockTime") = Ok (-1).
Proof. apply (json_read_i64_wraps (lit "blockTime") (2 ^ 64 - 1)). lia. Defined.
