(* ===== verification/Arena.v ===== *)
(** * arena.c: the bump allocator

    A chunk is the address of its [data], its capacity and what is used of it; the
    chunk list is a list and [current] an index into it.  Pointers are addresses,
    so alignment is computed on them as the source does.

    The system allocator is given as the list of its answers, an address or a
    refusal ([None]); the theorems assume of an address only what [malloc]
    documents ([placed]).

    [ArenaOps] is what the decoders use of an arena; the clients are written and
    proved against it, and [arena_ops] at the end of the file is this arena as an
    instance. *)

From stdpp Require Import sorting.
From S2P Require Import Prelude.
#[local] Open Scope Z_scope.

(** src/src/arena.c:7-12 [idx_arena_chunk]; the header before [data] is
    [sizeof_chunk] bytes. *)
Record idx_arena_chunk := Chunk { data : Z; capacity : Z; used : Z }.
Definition sizeof_chunk : Z := 32.

(** [_Alignof(max_align_t)] *)
Definition max_align : Z := 16.

(** src/include/arena.h:19-19 [IDX_ARENA_DEFAULT_CHUNK_SIZE] *)
Definition IDX_ARENA_DEFAULT_CHUNK_SIZE : Z := 64 * 1024.

(** src/include/arena.h:23-29 [idx_arena] *)
Record idx_arena := Arena {
  chunks : list idx_arena_chunk;
  current : option nat;
  chunk_size : Z;
  bytes_reserved : Z;
  bytes_used : Z
}.

(** The answers of the system allocator; out of answers, it refuses. *)
Abbreviation sys := (list (option Z)).

Definition sys_malloc (s : sys) : option Z * sys :=
  match s with [] => (None, []) | o :: s' => (o, s') end.

(** src/src/arena.c:14-24 [idx_arena_init] *)
Definition idx_arena_init (size : Z) : idx_arena :=
  Arena [] None (if 0 <? size then size else IDX_ARENA_DEFAULT_CHUNK_SIZE) 0 0.

(** src/src/arena.c:26-28 [is_power_of_two] *)
Definition is_power_of_two (value : Z) : bool :=
  negb (value =? 0) && (Z.land value (value - 1) =? 0).

(** src/src/arena.c:35-39 [padding_for]; [~] flips the 64 bits. *)
Definition padding_for (chunk : idx_arena_chunk) (align : Z) : Z :=
  let cursor := u64 (data chunk + used chunk) in
  let aligned := Z.land (u64 (u64 (cursor + align) - 1)) (Z.lxor (Z.ones 64) (align - 1)) in
  u64 (aligned - cursor).

(** src/src/arena.c:41-47 [chunk_fits] *)
Definition chunk_fits (chunk : idx_arena_chunk) (size align : Z) : bool :=
  let padding := padding_for chunk align in
  if u64 (capacity chunk - used chunk) <? padding then false
  else size <=? u64 (capacity chunk - used chunk - padding).

(** src/src/arena.c:49-79 [chunk_new]: the chunk and the arena's new
    [bytes_reserved]. *)
Definition chunk_new (arena : idx_arena) (size align : Z) (s : sys)
    : result (idx_arena_chunk * Z) * sys :=
  if SIZE_MAX - (align - 1) <? size then (IDX_FAIL IDX_ERR_RANGE, s)
  else
    let needed := u64 (size + (align - 1)) in
    let capacity := if chunk_size arena <? needed then needed else chunk_size arena in
    if SIZE_MAX - sizeof_chunk <? capacity then (IDX_FAIL IDX_ERR_RANGE, s)
    else
      match sys_malloc s with
      | (None, s') => (IDX_FAIL IDX_ERR_NO_MEMORY, s')
      | (Some base, s') =>
          (Ok (Chunk (base + sizeof_chunk) capacity 0, u64 (bytes_reserved arena + capacity)), s')
      end.

(** src/src/arena.c:96-107 [idx_arena_alloc_aligned]: the first chunk that fits,
    from index [i] on. *)
Fixpoint find_fit (i : nat) (l : list idx_arena_chunk) (size align : Z) : option (nat * idx_arena_chunk) :=
  match l with
  | [] => None
  | c :: l' => if chunk_fits c size align then Some (i, c) else find_fit (S i) l' size align
  end.

(** src/src/arena.c:81-132 [idx_arena_alloc_aligned]; [out_given] is false for a
    null [out]. *)
Definition idx_arena_alloc_aligned (arena : option idx_arena) (size align : Z) (out_given : bool) (s : sys)
    : result Z * option idx_arena * sys :=
  match arena with
  | None => (IDX_FAIL IDX_ERR_INVALID_ARG, None, s)
  | Some a =>
      if negb out_given then (IDX_FAIL IDX_ERR_INVALID_ARG, Some a, s)
      else if negb (is_power_of_two align) then (IDX_FAIL IDX_ERR_INVALID_ARG, Some a, s)
      else
        match (match current a with
               | Some i => find_fit i (drop i (chunks a)) size align
               | None => None
               end) with
        | Some (i, chunk) =>
            let padding := padding_for chunk align in
            (Ok (data chunk + used chunk + padding),
             Some (Arena (<[i := Chunk (data chunk) (capacity chunk) (u64 (used chunk + (padding + size)))]> (chunks a))
                     (Some i) (chunk_size a) (bytes_reserved a) (u64 (bytes_used a + (padding + size)))),
             s)
        | None =>
            match chunk_new a size align s with
            | (Err e, s') => (Err e, Some a, s')
            | (Ok (chunk, reserved), s') =>
                let padding := padding_for chunk align in
                (Ok (data chunk + padding),
                 Some (Arena (chunks a ++ [Chunk (data chunk) (capacity chunk) (u64 (padding + size))])
                         (Some (length (chunks a))) (chunk_size a) reserved
                         (u64 (bytes_used a + (padding + size)))),
                 s')
            end
        end
  end.

(** src/src/arena.c:134-137 [idx_arena_alloc] *)
Definition idx_arena_alloc (arena : option idx_arena) (size : Z) (out_given : bool) (s : sys) :=
  idx_arena_alloc_aligned arena size max_align out_given s.

(** src/src/arena.c:139-150 [idx_arena_calloc] *)
Definition idx_arena_calloc (arena : option idx_arena) (count size : Z) (out_given : bool) (s : sys)
    : result Z * option idx_arena * sys :=
  if negb (count =? 0) && (SIZE_MAX / count <? size) then (IDX_FAIL IDX_ERR_RANGE, arena, s)
  else idx_arena_alloc arena (u64 (count * size)) out_given s.

(** src/src/arena.c:152-164 [idx_arena_strdup]: the address and the bytes copied
    there. *)
Definition idx_arena_strdup (arena : option idx_arena) (str : option bytes) (out_given : bool) (s : sys)
    : result (Z * bytes) * option idx_arena * sys :=
  match str with
  | None => (IDX_FAIL IDX_ERR_INVALID_ARG, arena, s)
  | Some str =>
      if negb out_given then (IDX_FAIL IDX_ERR_INVALID_ARG, arena, s)
      else
        let n := Z.of_nat (length (str ++ [0])) in
        let '(r, a, s') := idx_arena_alloc_aligned arena n 1 true s in
        (p ← r; Ok (p, str ++ [0]), a, s')
  end.

(** src/src/arena.c:166-176 [idx_arena_reset] *)
Definition idx_arena_reset (arena : option idx_arena) : option idx_arena :=
  match arena with
  | None => None
  | Some a =>
      Some (Arena (map (fun c => Chunk (data c) (capacity c) 0) (chunks a))
              (match chunks a with [] => None | _ => Some 0%nat end)
              (chunk_size a) (bytes_reserved a) 0)
  end.

(** src/src/arena.c:178-190 [idx_arena_destroy]: the arena, and the chunks
    freed. *)
Definition idx_arena_destroy (arena : option idx_arena) : option idx_arena * list Z :=
  match arena with
  | None => (None, [])
  | Some a => (Some (idx_arena_init (chunk_size a)), map (fun c => data c - sizeof_chunk) (chunks a))
  end.

(** ** The interface the decoders use *)

Class ArenaOps (A : Type) := {
  arena_alloc : Z -> A -> result unit * A;
  arena_calloc : Z -> Z -> A -> result unit * A
}.

(** What an arena promises its clients: it fails only for lack of memory or for a
    size that cannot be. *)
Class ArenaSpec (A : Type) `{ArenaOps A} := {
  arena_alloc_err n a e a' :
    arena_alloc n a = (Err e, a') -> e = IDX_ERR_NO_MEMORY \/ e = IDX_ERR_RANGE;
  arena_calloc_err n m a e a' :
    arena_calloc n m a = (Err e, a') -> e = IDX_ERR_NO_MEMORY \/ e = IDX_ERR_RANGE
}.

(** ** Runs *)

(** What [malloc] promises of an address it returns for a chunk: aligned, inside
    the address space, and overlapping no chunk of the arena. *)
Definition placed (a : idx_arena) (cap base : Z) : Prop :=
  0 < base /\ base + sizeof_chunk + cap < 2 ^ 64 /\ base mod max_align = 0 /\
  Forall (fun c => base + sizeof_chunk + cap <= data c \/ data c + capacity c <= base) (chunks a).

(** The capacity of the chunk a request would add. *)
Definition new_capacity (a : idx_arena) (size align : Z) : Z :=
  Z.max (size + (align - 1)) (chunk_size a).

(** Allocations and resets, with the blocks handed out since the last reset. *)
Inductive arena_step : idx_arena * list (Z * Z) -> idx_arena * list (Z * Z) -> Prop :=
  | step_alloc a blocks size align s p a' s' :
      0 <= size -> 0 < align ->
      (forall base, hd None s = Some base -> placed a (new_capacity a size align) base) ->
      idx_arena_alloc_aligned (Some a) size align true s = (Ok p, Some a', s') ->
      arena_step (a, blocks) (a', (p, size) :: blocks)
  | step_reset a blocks a' :
      idx_arena_reset (Some a) = Some a' -> arena_step (a, blocks) (a', []).

Inductive arena_reachable (size : Z) : idx_arena * list (Z * Z) -> Prop :=
  | arena_start : arena_reachable size (idx_arena_init size, [])
  | arena_next st st' : arena_reachable size st -> arena_step st st' -> arena_reachable size st'.

(** Requests, one after the other, as long as they succeed. *)
Fixpoint alloc_all (reqs : list (Z * Z)) (a : idx_arena) (s : sys) : option (list Z * idx_arena * sys) :=
  match reqs with
  | [] => Some ([], a, s)
  | (size, align) :: reqs' =>
      match idx_arena_alloc_aligned (Some a) size align true s with
      | (Ok p, Some a', s') =>
          match alloc_all reqs' a' s' with
          | Some (ps, a'', s'') => Some (p :: ps, a'', s'')
          | None => None
          end
      | _ => None
      end
  end.

(** A chunk used within its bounds, inside the address space. *)
Definition chunk_ok (c : idx_arena_chunk) : Prop :=
  0 < data c /\ 0 <= used c <= capacity c /\ data c + capacity c < 2 ^ 64.

Definition chunks_apart (c1 c2 : idx_arena_chunk) : Prop :=
  data c1 + capacity c1 <= data c2 \/ data c2 + capacity c2 <= data c1.

(** The arena invariant: sound chunks that do not overlap, [current] one of them,
    and nothing used past it. *)
Definition arena_ok (a : idx_arena) : Prop :=
  0 < chunk_size a /\ Forall chunk_ok (chunks a) /\
  (forall i j c1 c2, i <> j -> chunks a !! i = Some c1 -> chunks a !! j = Some c2 -> chunks_apart c1 c2) /\
  match current a with
  | None => chunks a = []
  | Some i => (i < length (chunks a))%nat /\ Forall (fun c => used c = 0) (drop (S i) (chunks a))
  end.

(** Blocks that share no byte. *)
Definition blocks_apart (b1 b2 : Z * Z) : Prop := b1.1 + b1.2 <= b2.1 \/ b2.1 + b2.2 <= b1.1.

(** A block inside the used part of a chunk. *)
Definition block_in (a : idx_arena) (b : Z * Z) : Prop :=
  exists i c, chunks a !! i = Some c /\ data c <= b.1 /\ b.1 + b.2 <= data c + used c.

(** ** Alignment *)

Lemma power_of_two_spec v : 0 < v -> is_power_of_two v = true -> exists k, 0 <= k /\ v = 2 ^ k.
Proof.
  unfold is_power_of_two. intros Hv H. apply andb_true_iff in H as [_ H]. apply Z.eqb_eq in H.
  set (k := Z.log2 v). pose proof (Z.log2_nonneg v) as Hk. pose proof (Z.log2_spec v Hv) as [Hlo Hhi].
  exists k. split; [done|]. destruct (decide (v = 2 ^ k)) as [|Hne]; [done|]. exfalso.
  assert (Z.log2 (v - 1) = k) as Hlog.
  { apply Z.log2_unique; [done|]. fold k in Hlo, Hhi. lia. }
  assert (Z.testbit (Z.land v (v - 1)) k = true) as Hbit; [|by rewrite H, Z.bits_0 in Hbit].
  rewrite Z.land_spec. unfold k at 1. rewrite Z.bit_log2 by done. rewrite <- Hlog. apply Z.bit_log2.
  fold k in Hlo, Hhi. assert (0 < 2 ^ k) by (apply Z.pow_pos_nonneg; lia). lia.
Qed.

(** Clearing the low [k] bits. *)
Lemma clear_low x k : 0 <= x < 2 ^ 64 -> 0 <= k -> Z.land x (Z.lxor (Z.ones 64) (2 ^ k - 1)) = x / 2 ^ k * 2 ^ k.
Proof.
  intros Hx Hk. rewrite <- Z.shiftr_div_pow2, <- Z.shiftl_mul_pow2, <- Z.ldiff_ones_r by done.
  rewrite Z.ones_equiv, <- Z.sub_1_r. apply Z.bits_inj'. intros n Hn.
  rewrite Z.land_spec, Z.lxor_spec, Z.ldiff_spec.
  replace (2 ^ k - 1) with (Z.ones k) by (rewrite Z.ones_equiv; lia).
  replace (2 ^ 64 - 1) with (Z.ones 64) by done.
  destruct (decide (n < 64)).
  - rewrite (Z.ones_spec_low 64) by lia. by destruct (Z.testbit (Z.ones k) n).
  - assert (Z.testbit x n = false) as ->; [|done].
    destruct (decide (x = 0)) as [->|]; [apply Z.bits_0|]. apply Z.bits_above_log2; [lia|].
    apply Z.log2_lt_pow2; [lia|]. eapply Z.lt_le_trans; [apply Hx|]. apply Z.pow_le_mono_r; lia.
Qed.

Lemma padding_spec c align :
  chunk_ok c -> 0 < align -> is_power_of_two align = true ->
  0 <= padding_for c align /\
  (padding_for c align <= capacity c - used c -> (data c + used c + padding_for c align) mod align = 0) /\
  (data c + used c + (align - 1) < 2 ^ 64 -> padding_for c align <= align - 1).
Proof.
  intros (Hd & Hu & Hb) Ha Hp. destruct (power_of_two_spec align Ha Hp) as (k & Hk & Hak).
  unfold padding_for. rewrite (u64_small (data c + used c)) by (unfold is_u64; lia).
  set (cur := data c + used c). set (x := u64 (u64 (cur + align) - 1)).
  pose proof (u64_range (u64 (cur + align) - 1)) as Hx. fold x in Hx. unfold is_u64 in Hx.
  rewrite Hak. rewrite clear_low by done. rewrite <- Hak.
  pose proof (Z.div_mod x align ltac:(lia)) as Hdm. pose proof (Z.mod_pos_bound x align Ha) as Hmb.
  set (al := x / align * align). assert (0 <= al <= x) as Hal.
  { pose proof (Z.div_pos x align ltac:(lia) Ha). unfold al. nia. }
  split; [apply u64_range|]. split.
  - intros Hfit. assert (cur + u64 (al - cur) = al) as ->; [|unfold al; apply Z.mod_mul; lia].
    pose proof (u64_range (al - cur)) as Hr. unfold is_u64 in Hr.
    assert (u64 (al - cur) = al - cur \/ u64 (al - cur) = al - cur + 2 ^ 64) as [E|E]; [|lia|].
    { unfold u64. destruct (decide (cur <= al)).
      - left. apply Z.mod_small. lia.
      - right. symmetry. apply (Z.mod_unique _ _ (-1)); unfold cur in *; lia. }
    unfold cur in *. lia.
  - intros Hno. assert (x = cur + align - 1) as Hxe.
    { unfold x. destruct (decide (cur + align < 2 ^ 64)) as [Hlt|Hge].
      - rewrite (u64_small (cur + align)) by (unfold is_u64, cur in *; lia).
        apply u64_small. unfold is_u64, cur in *. lia.
      - assert (cur + align = 2 ^ 64) as -> by (unfold cur in *; lia). by vm_compute. }
    rewrite u64_small; unfold is_u64; unfold al; nia.
Qed.

(** ** One allocation *)

Lemma chunk_fits_spec c size align :
  chunk_ok c -> 0 <= size -> 0 < align -> is_power_of_two align = true ->
  chunk_fits c size align = true <-> padding_for c align + size <= capacity c - used c.
Proof.
  intros Hc Hs Ha Hp. pose proof (padding_spec c align Hc Ha Hp) as (Hp0 & _).
  destruct Hc as (Hd & Hu & Hb). unfold chunk_fits.
  rewrite (u64_small (capacity c - used c)) by (unfold is_u64; lia).
  destruct (_ <? padding_for c align) eqn:E; [split; [done|lia]|].
  rewrite u64_small by (unfold is_u64; lia). lia.
Qed.

Lemma find_fit_spec i l size align :
  match find_fit i l size align with
  | Some (j, c) => (i <= j)%nat /\ l !! (j - i)%nat = Some c /\ chunk_fits c size align = true
  | None => Forall (fun c => chunk_fits c size align = false) l
  end.
Proof.
  revert i. induction l as [|c l IH]; intros i; simpl; [done|].
  destruct (chunk_fits c size align) eqn:E.
  - split_and!; [lia| |done]. by rewrite Nat.sub_diag.
  - specialize (IH (S i)). destruct (find_fit (S i) l size align) as [[j c']|].
    + destruct IH as (H1 & H2 & H3). split_and!; [lia| |done].
      by replace (j - i)%nat with (S (j - S i)) by lia.
    + by constructor.
Qed.

(** What a successful allocation did: it used up part of chunk number [i], which
    was there or is new at the end, and touched no other. *)
Definition allocated (a : idx_arena) (size align p : Z) (a' : idx_arena) : Prop :=
  exists i c pad,
    (chunks a !! i = Some c \/ i = length (chunks a) /\ used c = 0) /\
    0 <= pad /\ used c + pad + size <= capacity c /\ p = data c + used c + pad /\ p mod align = 0 /\
    current a' = Some i /\ chunk_size a' = chunk_size a /\
    chunks a' = take i (chunks a) ++ [Chunk (data c) (capacity c) (used c + pad + size)] ++ drop (S i) (chunks a) /\
    (forall k, current a = Some k -> (k <= i)%nat).

Lemma chunk_new_ok a size align s chunk reserved s' :
  0 < chunk_size a -> 0 <= size -> 0 < align ->
  (forall base, hd None s = Some base -> 0 < base /\ base + sizeof_chunk + new_capacity a size align < 2 ^ 64) ->
  chunk_new a size align s = (Ok (chunk, reserved), s') ->
  exists base, hd None s = Some base /\
    chunk = Chunk (base + sizeof_chunk) (new_capacity a size align) 0 /\ chunk_ok chunk.
Proof.
  intros Hcs Hs Ha Hpl. unfold chunk_new, new_capacity in *.
  destruct (SIZE_MAX - (align - 1) <? size) eqn:E1; [done|].
  rewrite u64_small by (unfold is_u64, SIZE_MAX in *; lia).
  replace (if chunk_size a <? size + (align - 1) then size + (align - 1) else chunk_size a)
    with (Z.max (size + (align - 1)) (chunk_size a)) by (destruct (chunk_size a <? _) eqn:?; lia).
  destruct (SIZE_MAX - sizeof_chunk <? _) eqn:E2; [done|].
  destruct s as [|[base|] s]; simpl; try done. intros [= <- _ _]. exists base. split_and!; auto.
  destruct (Hpl base eq_refl). unfold chunk_ok, sizeof_chunk in *. simpl. lia.
Qed.

Lemma alloc_spec a size align s p a' s' :
  arena_ok a -> 0 <= size -> 0 < align ->
  (forall base, hd None s = Some base -> 0 < base /\ base + sizeof_chunk + new_capacity a size align < 2 ^ 64) ->
  idx_arena_alloc_aligned (Some a) size align true s = (Ok p, Some a', s') ->
  allocated a size align p a' /\
  (length (chunks a') = length (chunks a) \/
   exists base c, hd None s = Some base /\ chunks a' = chunks a ++ [c] /\ data c = base + sizeof_chunk /\
     capacity c = new_capacity a size align).
Proof.
  intros (Hcs & Hok & _ & Hcur) Hs Ha Hpl. unfold idx_arena_alloc_aligned. cbn [negb].
  destruct (is_power_of_two align) eqn:Hp; [|done]. cbn [negb].
  destruct (match current a with Some i => _ | None => None end) as [[i c]|] eqn:Hf.
  - destruct (current a) as [k|] eqn:Hcura; [|done]. pose proof (find_fit_spec k (drop k (chunks a)) size align) as Hff.
    rewrite Hf in Hff. destruct Hff as (Hki & Hl & Hfit). rewrite lookup_drop in Hl.
    replace (k + (i - k))%nat with i in Hl by lia.
    rewrite Forall_lookup in Hok. pose proof (Hok i c Hl) as Hc.
    apply chunk_fits_spec in Hfit; auto. destruct (padding_spec c align Hc Ha Hp) as (Hp0 & Hal & _).
    pose proof Hc as (Hd & Hu & Hb). intros [= <- <- <-].
    rewrite u64_small by (unfold is_u64; lia). split; [|left; apply length_insert].
    exists i, c, (padding_for c align). split_and!; auto; try (cbn [current chunk_size]; done); try lia.
    + cbn [chunks]. rewrite insert_take_drop by (by apply lookup_lt_Some in Hl).
      by replace (used c + (padding_for c align + size)) with (used c + padding_for c align + size) by lia.
    + intros k' Hk'. rewrite Hcura in Hk'. by injection Hk' as <-.
  - destruct (chunk_new a size align s) as [[[chunk reserved]|] s1] eqn:Hnew; [|done].
    destruct (chunk_new_ok _ _ _ _ _ _ _ Hcs Hs Ha Hpl Hnew) as (base & Hbase & -> & Hc).
    pose proof (padding_spec _ align Hc Ha Hp) as (Hp0 & Hal & Hp1). pose proof Hc as (Hd & Hu & Hb).
    cbn [data capacity used] in *. unfold new_capacity in *.
    specialize (Hp1 ltac:(lia)). intros [= <- <- <-].
    rewrite u64_small by (unfold is_u64; lia). split.
    + set (c0 := Chunk (base + sizeof_chunk) (Z.max (size + (align - 1)) (chunk_size a)) 0) in *.
      generalize dependent (padding_for c0 align). intros pad Hp0 Hal Hp1.
      exists (length (chunks a)), c0, pad. split_and!; [by right|done| | | |done|done| |].
      * simpl. lia.
      * simpl. lia.
      * rewrite Z.add_0_r in Hal. apply Hal. lia.
      * by rewrite firstn_all, drop_ge, app_nil_r by lia.
      * intros k Hk. rewrite Hk in Hcur. lia.
    + right. eexists base, _. cbn [chunks]. split_and!; [done|done|done|done].
Qed.

Lemma alloc_ok a size align s p a' s' :
  arena_ok a -> 0 <= size -> 0 < align ->
  (forall base, hd None s = Some base -> placed a (new_capacity a size align) base) ->
  idx_arena_alloc_aligned (Some a) size align true s = (Ok p, Some a', s') -> arena_ok a'.
Proof.
  intros Hok Hs Ha Hpl Halloc.
  assert (forall base, hd None s = Some base -> 0 < base /\ base + sizeof_chunk + new_capacity a size align < 2 ^ 64)
    as Hpl' by (intros base Hb; destruct (Hpl base Hb) as (? & ? & _); done).
  destruct (alloc_spec _ _ _ _ _ _ _ Hok Hs Ha Hpl' Halloc)
    as ((i & c & pad & Hi & Hpad & Hfit & _ & _ & Hcur' & Hcs' & Hch & Hk) & Hnew).
  destruct Hok as (Hcs & Hall & Hap & Hcur).
  assert (forall j d, chunks a' !! j = Some d ->
    (chunks a !! j = Some d /\ j <> i) \/ (j = i /\ d = Chunk (data c) (capacity c) (used c + pad + size))) as Hlook.
  { intros j d Hj. rewrite Hch in Hj. destruct Hi as [Hi|[-> _]].
    - cbn [app] in Hj. rewrite <- (insert_take_drop (chunks a) i) in Hj by (by apply lookup_lt_Some in Hi).
      apply list_lookup_insert_Some in Hj as [(-> & -> & _)|[Hne Hj]]; auto.
    - rewrite firstn_all, drop_ge, app_nil_r in Hj by lia. apply lookup_app_Some in Hj as [Hj|[Hlen Hj]].
      + left. split; [done|]. apply lookup_lt_Some in Hj. lia.
      + right. destruct (j - length (chunks a))%nat eqn:E; [|done]. simplify_eq/=. split; [lia|done]. }
  assert (chunk_ok c) as Hc.
  { destruct Hi as [Hi|[-> Hu]]; [rewrite Forall_lookup in Hall; eauto|].
    destruct Hnew as [Hlen|(base & c' & Hb & Hc' & Hd' & Hcap')].
    - rewrite Hch, firstn_all, drop_ge, app_nil_r, length_app in Hlen by lia. simpl in Hlen. lia.
    - rewrite Hch, firstn_all, drop_ge, app_nil_r in Hc' by lia. apply app_inv_head in Hc'. injection Hc' as <-.
      cbn [data capacity] in *. destruct (Hpl' base Hb). unfold chunk_ok, sizeof_chunk, new_capacity in *. lia. }
  assert (forall j d, j <> i -> chunks a !! j = Some d -> chunks_apart c d) as Hapart.
  { intros j d Hj Hd. destruct Hi as [Hi|[-> Hu]]; [eapply Hap; [|exact Hi|exact Hd]; auto|].
    destruct Hnew as [Hlen|(base & c' & Hb & Hc' & Hd' & Hcap')].
    - rewrite Hch, firstn_all, drop_ge, app_nil_r, length_app in Hlen by lia. simpl in Hlen. lia.
    - rewrite Hch, firstn_all, drop_ge, app_nil_r in Hc' by lia. apply app_inv_head in Hc'. injection Hc' as <-.
      cbn [data capacity] in *. destruct (Hpl base Hb) as (_ & _ & _ & Hf). rewrite Forall_lookup in Hf.
      specialize (Hf j d Hd). unfold chunks_apart, sizeof_chunk in *. simpl in Hf. lia. }
  split_and!.
  - by rewrite Hcs'.
  - apply Forall_lookup. intros j d Hj. apply Hlook in Hj as [[Hj _]|[-> ->]].
    + rewrite Forall_lookup in Hall. eauto.
    + destruct Hc as (? & ? & ?). unfold chunk_ok. simpl. lia.
  - intros j1 j2 d1 d2 Hne H1 H2. unfold chunks_apart in *.
    apply Hlook in H1 as [[H1 ?]|[-> ->]]; apply Hlook in H2 as [[H2 ?]|[-> ->]]; cbn [data capacity]; [eauto| |eauto|done].
    specialize (Hapart j1 d1 ltac:(auto) H1). lia.
  - rewrite Hcur'. split.
    + destruct Hi as [Hi|[-> _]]; rewrite Hch; rewrite !length_app, length_take, length_drop; simpl.
      * apply lookup_lt_Some in Hi. lia.
      * lia.
    + apply Forall_lookup. intros j d Hj. rewrite lookup_drop in Hj. apply Hlook in Hj as [[Hj _]|[? _]]; [|lia].
      destruct (current a) as [k|] eqn:Hcura; [|by rewrite Hcur in Hj].
      destruct Hcur as [_ Hz]. specialize (Hk k eq_refl). rewrite Forall_lookup in Hz.
      apply (Hz (i - k + j)%nat d). rewrite lookup_drop. rewrite <- Hj. f_equal. lia.
Qed.

(** ** Blocks *)

Definition state_ok (st : idx_arena * list (Z * Z)) : Prop :=
  arena_ok st.1 /\ Forall (fun b => 0 <= b.2 /\ block_in st.1 b) st.2 /\ StronglySorted blocks_apart st.2.

Lemma allocated_lookup a size align p a' j d :
  allocated a size align p a' -> chunks a !! j = Some d ->
  exists d', chunks a' !! j = Some d' /\ data d' = data d /\ capacity d' = capacity d /\ (0 <= size -> used d <= used d').
Proof.
  intros (i & c & pad & Hi & Hpad & _ & _ & _ & _ & _ & Hch & _) Hj. rewrite Hch. cbn [app].
  destruct Hi as [Hi|[-> _]].
  - rewrite <- insert_take_drop by (by apply lookup_lt_Some in Hi).
    destruct (decide (i = j)) as [->|Hne].
    + rewrite list_lookup_insert_eq by (by apply lookup_lt_Some in Hi). simplify_eq.
      eexists. split; [done|]. simpl. split_and!; auto; lia.
    + rewrite list_lookup_insert_ne by done. exists d. split_and!; auto; lia.
  - rewrite firstn_all, drop_ge by lia. rewrite lookup_app_l by (by apply lookup_lt_Some in Hj).
    exists d. split_and!; auto; lia.
Qed.

Lemma block_in_mono a size align p a' b :
  allocated a size align p a' -> 0 <= size -> block_in a b -> block_in a' b.
Proof.
  intros Hal Hs (i & c & Hi & H1 & H2). destruct (allocated_lookup _ _ _ _ _ _ _ Hal Hi) as (c' & Hi' & Hd & _ & Hu).
  exists i, c'. split_and!; auto; [lia|]. specialize (Hu Hs). lia.
Qed.

Lemma new_block a size align p a' :
  arena_ok a -> arena_ok a' -> 0 <= size -> allocated a size align p a' ->
  block_in a' (p, size) /\ forall b, 0 <= b.2 -> block_in a b -> blocks_apart (p, size) b.
Proof.
  intros Hok Hok' Hs Hal. pose proof Hal as (i & c & pad & Hi & Hpad & Hfit & Hp & _ & _ & _ & Hch & _).
  assert (chunks a' !! i = Some (Chunk (data c) (capacity c) (used c + pad + size))) as Hi'.
  { rewrite Hch. destruct Hi as [Hi|[-> _]]; cbn [app].
    - rewrite <- insert_take_drop by (by apply lookup_lt_Some in Hi).
      apply list_lookup_insert_eq. by apply lookup_lt_Some in Hi.
    - by rewrite firstn_all, list_lookup_middle. }
  assert (0 <= used c) as Hu0.
  { destruct Hi as [Hi|[_ ->]]; [|lia]. destruct Hok as (_ & Hall & _). rewrite Forall_lookup in Hall.
    destruct (Hall i c Hi) as (_ & ? & _). lia. }
  split.
  - exists i. eexists. split; [exact Hi'|]. simpl. lia.
  - intros b Hb (j & d & Hj & H1 & H2). unfold blocks_apart. simpl.
    destruct (decide (j = i)) as [->|Hne].
    + destruct Hi as [Hi|[-> _]]; [simplify_eq; lia|]. apply lookup_lt_Some in Hj. lia.
    + destruct (allocated_lookup _ _ _ _ _ _ _ Hal Hj) as (d' & Hj' & Hd' & Hc' & Hu').
      destruct Hok' as (_ & Hall & Hap & _). specialize (Hap i j _ _ ltac:(auto) Hi' Hj').
      rewrite Forall_lookup in Hall. destruct (Hall j d' Hj') as (_ & Hud & _).
      unfold chunks_apart in Hap. cbn [data capacity] in Hap. specialize (Hu' Hs). lia.
Qed.

Lemma init_state_ok size : state_ok (idx_arena_init size, []).
Proof.
  split_and!; cbn [fst snd]; [split_and!|constructor|constructor].
  - unfold idx_arena_init, IDX_ARENA_DEFAULT_CHUNK_SIZE. cbn [chunk_size]. destruct (0 <? size) eqn:E; lia.
  - constructor.
  - intros i j c1 c2 _ H. cbn [chunks idx_arena_init] in H. by rewrite lookup_nil in H.
  - done.
Qed.

Lemma reset_ok a a' : arena_ok a -> idx_arena_reset (Some a) = Some a' -> arena_ok a'.
Proof.
  intros (Hcs & Hall & Hap & _) [= <-]. split_and!; [done| | |].
  - cbn [chunks]. apply Forall_map. eapply Forall_impl; [exact Hall|]. unfold chunk_ok. simpl. lia.
  - cbn [chunks]. intros i j c1 c2 Hne H1 H2. rewrite !list_lookup_fmap in H1, H2.
    destruct (chunks a !! i) as [d1|] eqn:E1; [|done]. destruct (chunks a !! j) as [d2|] eqn:E2; [|done].
    simplify_eq/=. exact (Hap i j d1 d2 Hne E1 E2).
  - cbn [current chunks]. destruct (chunks a) as [|c l]; [done|]. split; [simpl; lia|].
    simpl. rewrite drop_0. apply Forall_map, Forall_true. done.
Qed.

Lemma step_ok st st' : state_ok st -> arena_step st st' -> state_ok st'.
Proof.
  intros (Hok & Hin & Hap) Hs. destruct Hs as [a blocks size align s p a' s' Hsz Hal Hpl Halloc|a blocks a' Hr];
    cbn [fst snd] in *.
  - pose proof (alloc_ok _ _ _ _ _ _ _ Hok Hsz Hal Hpl Halloc) as Hok'.
    assert (allocated a size align p a') as Hadd.
    { eapply alloc_spec; [done..| |exact Halloc]. intros base Hb. destruct (Hpl base Hb) as (? & ? & _). done. }
    destruct (new_block _ _ _ _ _ Hok Hok' Hsz Hadd) as [Hnew Hnewap].
    split_and!; cbn [fst snd]; [done| |].
    + constructor; [done|]. eapply Forall_impl; [exact Hin|]. intros b [Hb1 Hb2]. split; [done|].
      by eapply block_in_mono.
    + constructor; [done|]. eapply Forall_impl; [exact Hin|]. intros b [Hb1 Hb2]. auto.
  - split_and!; cbn [fst snd]; [by eapply reset_ok|constructor|constructor].
Qed.

Lemma reachable_state_ok size st : arena_reachable size st -> state_ok st.
Proof. induction 1; [apply init_state_ok|by eapply step_ok]. Qed.

(** ** Replaying after a reset *)

Definition zeroed (c : idx_arena_chunk) : idx_arena_chunk := Chunk (data c) (capacity c) 0.

(** [b] is [a] with the chunks [a] is still to grow already there, empty, up to
    those of [final]. *)
Definition ahead (a b : idx_arena) (final : list idx_arena_chunk) : Prop :=
  chunk_size b = chunk_size a /\
  chunks b = chunks a ++ map zeroed (drop (length (chunks a)) final) /\
  (length (chunks a) <= length final)%nat /\
  match current a with
  | Some i => current b = Some i
  | None => chunks a = [] /\ current b = match final with [] => None | _ => Some 0%nat end
  end.

Lemma find_fit_app i l1 l2 size align :
  find_fit i (l1 ++ l2) size align =
  match find_fit i l1 size align with
  | Some r => Some r
  | None => find_fit (i + length l1) l2 size align
  end.
Proof.
  revert i. induction l1 as [|c l1 IH]; intros i; simpl; [by rewrite Nat.add_0_r|].
  destruct (chunk_fits c size align); [done|]. rewrite IH. by rewrite Nat.add_succ_r.
Qed.

(** A run of successful requests, each with whatever the system allocator answers
    at that point. *)
Inductive arena_run : idx_arena -> list (Z * Z) -> list Z -> idx_arena -> Prop :=
  | run_nil a : arena_run a [] [] a
  | run_cons a size align s p a' s' reqs ps a'' :
      0 <= size -> 0 < align ->
      (forall base, hd None s = Some base -> placed a (new_capacity a size align) base) ->
      idx_arena_alloc_aligned (Some a) size align true s = (Ok p, Some a', s') ->
      arena_run a' reqs ps a'' -> arena_run a ((size, align) :: reqs) (p :: ps) a''.

(** The chunks of [l] are the first ones of [final], apart from what is used. *)
Definition grows_to (l final : list idx_arena_chunk) : Prop :=
  forall i c, l !! i = Some c ->
  exists f, final !! i = Some f /\ data f = data c /\ capacity f = capacity c.

Lemma placed_bound a cap s :
  (forall base, hd None s = Some base -> placed a cap base) ->
  forall base, hd None s = Some base -> 0 < base /\ base + sizeof_chunk + cap < 2 ^ 64.
Proof. intros H base Hb. by destruct (H base Hb) as (? & ? & _). Qed.

Lemma run_grows a reqs ps a'' : arena_ok a -> arena_run a reqs ps a'' -> arena_ok a'' /\ grows_to (chunks a) (chunks a'').
Proof.
  intros Hok Hr. induction Hr as [a|a size align s p a' s' reqs ps a'' Hs Ha Hpl Hal Hr IH].
  - split; [done|]. intros i c Hc. eauto.
  - destruct (IH (alloc_ok _ _ _ _ _ _ _ Hok Hs Ha Hpl Hal)) as [Hok'' Hg]. split; [done|].
    intros i c Hc. destruct (alloc_spec _ _ _ _ _ _ _ Hok Hs Ha (placed_bound _ _ _ Hpl) Hal) as [Hadd _].
    destruct (allocated_lookup _ _ _ _ _ _ _ Hadd Hc) as (c' & Hc' & Hd & Hcap & _).
    destruct (Hg i c' Hc') as (f & Hf & Hfd & Hfc). exists f. split_and!; congruence.
Qed.

(** Taking chunk number [i]. *)
Definition take_chunk (b : idx_arena) (i : nat) (c : idx_arena_chunk) (size align : Z) : idx_arena :=
  let padding := padding_for c align in
  Arena (<[i := Chunk (data c) (capacity c) (u64 (used c + (padding + size)))]> (chunks b))
    (Some i) (chunk_size b) (bytes_reserved b) (u64 (bytes_used b + (padding + size))).

(** An allocation out of a chunk that is there does not call the system. *)
Lemma alloc_found b k i c size align s :
  is_power_of_two align = true -> current b = Some k ->
  find_fit k (drop k (chunks b)) size align = Some (i, c) ->
  idx_arena_alloc_aligned (Some b) size align true s =
  (Ok (data c + used c + padding_for c align), Some (take_chunk b i c size align), s).
Proof. intros Hp Hcur Hf. unfold idx_arena_alloc_aligned. rewrite Hp, Hcur. cbn [negb]. by rewrite Hf. Qed.

Lemma replay_found a b final k i c size align :
  ahead a b final -> current a = Some k -> (k < length (chunks a))%nat -> is_power_of_two align = true ->
  find_fit k (drop k (chunks a)) size align = Some (i, c) -> (i < length (chunks a))%nat ->
  exists b', idx_arena_alloc_aligned (Some b) size align true [] =
    (Ok (data c + used c + padding_for c align), Some b', []) /\
    ahead (take_chunk a i c size align) b' final.
Proof.
  intros (H1 & H2 & H3 & H4) Hcur Hk Hp Hf Hi. rewrite Hcur in H4. exists (take_chunk b i c size align). split.
  - apply (alloc_found b k); [done|done|]. rewrite H2, drop_app_le by lia. by rewrite find_fit_app, Hf.
  - unfold ahead, take_chunk. cbn [chunk_size chunks current]. rewrite length_insert. split_and!; auto.
    by rewrite H2, insert_app_l.
Qed.

Lemma replay_grown a b final chunk size align :
  ahead a b final -> is_power_of_two align = true -> 0 < align -> 0 <= size ->
  match current a with
  | Some k => (k < length (chunks a))%nat /\ find_fit k (drop k (chunks a)) size align = None
  | None => True
  end ->
  chunk_ok chunk -> used chunk = 0 -> padding_for chunk align + size <= capacity chunk ->
  final !! length (chunks a) = Some (zeroed chunk) \/
    (exists f, final !! length (chunks a) = Some f /\ zeroed f = chunk) ->
  exists b', idx_arena_alloc_aligned (Some b) size align true [] =
    (Ok (data chunk + padding_for chunk align), Some b', []) /\
    forall reserved bused,
    ahead (Arena (chunks a ++ [Chunk (data chunk) (capacity chunk) (u64 (padding_for chunk align + size))])
             (Some (length (chunks a))) (chunk_size a) reserved bused) b' final.
Proof.
  intros (H1 & H2 & H3 & H4) Hp Ha Hs Hnone Hc Hu Hfit Hfin.
  assert (exists f, final !! length (chunks a) = Some f /\ zeroed f = chunk) as (f & Hf & Hz).
  { destruct Hfin as [Hf|H]; [|done]. exists (zeroed chunk). split; [done|]. destruct chunk. simpl in *. by subst. }
  clear Hfin. pose proof (lookup_lt_Some _ _ _ Hf) as Hlt.
  rewrite (drop_S final f) in H2 by done. cbn [map] in H2. rewrite Hz in H2.
  assert (chunk_fits chunk size align = true) as Hcf by (apply chunk_fits_spec; auto; lia).
  assert (exists k, current b = Some k /\ find_fit k (drop k (chunks b)) size align = Some (length (chunks a), chunk))
    as (k & Hk & Hff).
  { destruct (current a) as [k|].
    - destruct Hnone as [Hk Hnone]. exists k. split; [done|]. rewrite H2, drop_app_le by lia.
      rewrite find_fit_app, Hnone, length_drop. cbn [find_fit]. rewrite Hcf. do 2 f_equal. lia.
    - destruct H4 as [Hnil H4]. exists 0%nat. split.
      + rewrite H4. destruct final; [simpl in Hlt; lia|done].
      + rewrite H2, Hnil, drop_0. cbn [app find_fit length]. by rewrite Hcf. }
  exists (take_chunk b (length (chunks a)) chunk size align). split.
  - rewrite (alloc_found b k _ _ _ _ [] Hp Hk Hff), Hu. do 3 f_equal. lia.
  - intros reserved bused. unfold ahead, take_chunk. cbn [chunk_size chunks current].
    rewrite length_app. cbn [length]. rewrite Hu. split_and!; [done| |lia|done].
    rewrite H2, insert_app_r_alt, Nat.sub_diag by lia. cbn [insert list_insert].
    rewrite <- app_assoc. cbn [app]. by rewrite Nat.add_1_r.
Qed.

Lemma replay_step a b final size align s p a' s' :
  arena_ok a -> 0 <= size -> 0 < align ->
  (forall base, hd None s = Some base -> placed a (new_capacity a size align) base) ->
  idx_arena_alloc_aligned (Some a) size align true s = (Ok p, Some a', s') ->
  grows_to (chunks a') final -> ahead a b final ->
  exists b', idx_arena_alloc_aligned (Some b) size align true [] = (Ok p, Some b', []) /\ ahead a' b' final.
Proof.
  intros Hok Hs Ha Hpl Hal Hg Hah. pose proof Hok as (Hcs & Hall & _ & Hcur). revert Hal Hg.
  unfold idx_arena_alloc_aligned at 1. cbn [negb]. destruct (is_power_of_two align) eqn:Hp; [|done]. cbn [negb].
  destruct (match current a with Some i => _ | None => None end) as [[i c]|] eqn:Hf.
  - destruct (current a) as [k|] eqn:Hca; [|done]. intros [= <- <- <-] _.
    pose proof (find_fit_spec k (drop k (chunks a)) size align) as Hff. rewrite Hf in Hff.
    destruct Hff as (Hki & Hl & _). rewrite lookup_drop in Hl. replace (k + (i - k))%nat with i in Hl by lia.
    apply lookup_lt_Some in Hl. destruct Hcur as [Hcur _]. by eapply replay_found.
  - destruct (chunk_new a size align s) as [[[chunk reserved]|] s1] eqn:Hnew; [|done].
    destruct (chunk_new_ok _ _ _ _ _ _ _ Hcs Hs Ha (placed_bound _ _ _ Hpl) Hnew) as (base & Hbase & Hchunk & Hc).
    assert (used chunk = 0) as Hu by by rewrite Hchunk.
    assert (padding_for chunk align + size <= capacity chunk) as Hfit.
    { pose proof (padding_spec chunk align Hc Ha Hp) as (_ & _ & Hp1). destruct (Hpl base Hbase) as (_ & Hb & _).
      rewrite Hchunk in Hp1 |- *. unfold new_capacity in *. cbn [data used capacity] in *.
      specialize (Hp1 ltac:(lia)). lia. }
    intros [= <- <- <-] Hg. cbn [chunks] in Hg.
    destruct (Hg (length (chunks a)) _ (list_lookup_middle (chunks a) [] _ _ eq_refl)) as (f & Hfin & Hfd & Hfc).
    cbn [data capacity] in Hfd, Hfc.
    destruct (replay_grown a b final chunk size align Hah Hp Ha Hs) as (b' & Hb' & Hahead); auto.
    { destruct (current a) as [k|]; [|done]. split; [by destruct Hcur|done]. }
    { right. exists f. split; [done|]. destruct chunk. unfold zeroed. cbn in *. by subst. }
    exists b'. split; [done|]. apply Hahead.
Qed.

Lemma replay_run a b reqs ps a'' :
  arena_ok a -> arena_run a reqs ps a'' -> ahead a b (chunks a'') ->
  exists b'', alloc_all reqs b [] = Some (ps, b'', []) /\ ahead a'' b'' (chunks a'').
Proof.
  intros Hok Hr. revert b. induction Hr as [a|a size align s p a' s' reqs ps a'' Hs Ha Hpl Hal Hr IH]; intros b Hah.
  - by exists b.
  - pose proof (alloc_ok _ _ _ _ _ _ _ Hok Hs Ha Hpl Hal) as Hok'.
    destruct (run_grows _ _ _ _ Hok' Hr) as [_ Hg].
    destruct (replay_step _ _ _ _ _ _ _ _ _ Hok Hs Ha Hpl Hal Hg Hah) as (b' & Hb' & Hah').
    destruct (IH Hok' b' Hah') as (b'' & Hb'' & Hah''). exists b''. split; [|done].
    cbn [alloc_all]. by rewrite Hb', Hb''.
Qed.

(** An arena as [idx_arena_init] or [idx_arena_reset] leaves it. *)
Definition rewound (a : idx_arena) : Prop :=
  arena_ok a /\ Forall (fun c => used c = 0) (chunks a) /\
  current a = match chunks a with [] => None | _ => Some 0%nat end.

Lemma run_chunk_size a reqs ps a'' : arena_run a reqs ps a'' -> chunk_size a'' = chunk_size a.
Proof.
  induction 1 as [a|a size align s p a' s' reqs ps a'' Hs Ha Hpl Hal Hr IH]; [done|]. rewrite IH. clear IH Hr.
  unfold idx_arena_alloc_aligned in Hal. cbn [negb] in Hal. destruct (is_power_of_two align); [|done]. cbn [negb] in Hal.
  destruct (match current a with Some i => _ | None => None end) as [[i c]|]; [by injection Hal as _ <- _|].
  by destruct (chunk_new a size align s) as [[[c r]|] s1]; [injection Hal as _ <- _|].
Qed.

Lemma reset_ahead a reqs ps a'' a1 :
  rewound a -> arena_run a reqs ps a'' -> idx_arena_reset (Some a'') = Some a1 -> ahead a a1 (chunks a'').
Proof.
  intros (Hok & Hz & Hcur) Hr [= <-]. destruct (run_grows _ _ _ _ Hok Hr) as [_ Hg].
  assert (length (chunks a) <= length (chunks a''))%nat as Hlen.
  { destruct (decide (length (chunks a) <= length (chunks a'')))%nat; [done|]. exfalso.
    destruct (lookup_lt_is_Some_2 (chunks a) (length (chunks a''))) as [c Hc]; [lia|].
    destruct (Hg _ _ Hc) as (f & Hf & _). apply lookup_lt_Some in Hf. lia. }
  unfold ahead. cbn [chunk_size chunks current]. split_and!; [by eapply run_chunk_size| |done|].
  - rewrite <- (take_drop (length (chunks a)) (chunks a'')) at 1. rewrite map_app. f_equal.
    apply list_eq. intros i. rewrite list_lookup_fmap. destruct (decide (i < length (chunks a)))%nat as [Hi|Hi].
    + rewrite lookup_take_lt by done. destruct (lookup_lt_is_Some_2 (chunks a) i Hi) as [c Hc].
      destruct (Hg _ _ Hc) as (f & Hf & Hd & Hcap). rewrite Hf, Hc. simpl. rewrite Forall_lookup in Hz.
      specialize (Hz i c Hc). destruct c. cbn in *. by subst.
    + rewrite lookup_take_ge by lia. rewrite (lookup_ge_None_2 (chunks a)) by lia. done.
  - rewrite Hcur. destruct (chunks a) as [|c l]; [by split|]. destruct (chunks a''); [simpl in Hlen; lia|done].
Qed.

(** ** The arena behind the interface *)

#[export] Instance arena_ops : ArenaOps (idx_arena * sys) := {
  arena_alloc n a :=
    let '(r, a', s') := idx_arena_alloc (Some a.1) n true a.2 in (_ ← r; Ok tt, (default a.1 a', s'));
  arena_calloc n m a :=
    let '(r, a', s') := idx_arena_calloc (Some a.1) n m true a.2 in (_ ← r; Ok tt, (default a.1 a', s'))
}.

Lemma alloc_err a n s e a' s' :
  idx_arena_alloc (Some a) n true s = (Err e, a', s') -> e = IDX_ERR_NO_MEMORY \/ e = IDX_ERR_RANGE.
Proof.
  unfold idx_arena_alloc, idx_arena_alloc_aligned. change (is_power_of_two max_align) with true. cbn [negb].
  destruct (match current a with Some i => _ | None => None end) as [[i c]|]; [done|].
  unfold chunk_new. destruct (SIZE_MAX - _ <? n); [intros [= <- _ _]; by right|].
  destruct (SIZE_MAX - sizeof_chunk <? _); [intros [= <- _ _]; by right|].
  destruct (sys_malloc s) as [[base|] s1]; [done|]. intros [= <- _ _]. by left.
Qed.

#[export] Instance arena_spec : ArenaSpec (idx_arena * sys).
Proof.
  split.
  - intros n [a s] e [a' s']. unfold arena_alloc, arena_ops. cbn [fst snd].
    destruct (idx_arena_alloc (Some a) n true s) as [[[p|e'] a1] s1] eqn:E; [done|].
    intros [= <- _ _]. by eapply alloc_err.
  - intros n m [a s] e [a' s']. unfold arena_calloc, arena_ops, idx_arena_calloc. cbn [fst snd].
    destruct (negb (n =? 0) && _); [intros [= <- _ _]; by right|].
    destruct (idx_arena_alloc (Some a) _ true s) as [[[p|e'] a1] s1] eqn:E; [done|].
    intros [= <- _ _]. by eapply alloc_err.
Qed.

(** ** Properties *)

(** C18. Whatever was allocated before, a new block is aligned as asked, lies inside
    one of the arena's chunks, and shares no byte with any block handed out since
    the last reset. *)
Theorem arena_blocks_disjoint size a blocks n align s p a' s' :
  arena_reachable size (a, blocks) -> 0 <= n -> 0 < align ->
  (forall base, hd None s = Some base -> placed a (new_capacity a n align) base) ->
  idx_arena_alloc_aligned (Some a) n align true s = (Ok p, Some a', s') ->
  p mod align = 0 /\ block_in a' (p, n) /\ arena_ok a' /\ Forall (blocks_apart (p, n)) blocks /\
  StronglySorted blocks_apart blocks.
Proof.
  intros Hr Hn Ha Hpl Hal. destruct (reachable_state_ok _ _ Hr) as (Hok & Hin & Hap). cbn [fst snd] in *.
  pose proof (alloc_ok _ _ _ _ _ _ _ Hok Hn Ha Hpl Hal) as Hok'.
  destruct (alloc_spec _ _ _ _ _ _ _ Hok Hn Ha (placed_bound _ _ _ Hpl) Hal) as [Hadd _].
  destruct (new_block _ _ _ _ _ Hok Hok' Hn Hadd) as [Hb Hbs].
  pose proof Hadd as (i & c & pad & _ & _ & _ & _ & Hmod & _).
  split_and!; auto. eapply Forall_impl; [exact Hin|]. intros b [H1 H2]. auto.
Qed.

(** Steady state: after a reset, the same requests are served again without a
    single call to the system allocator, each at the address it had before. *)
Theorem arena_replay a reqs ps a' a1 :
  rewound a -> arena_run a reqs ps a' -> idx_arena_reset (Some a') = Some a1 ->
  exists a2, alloc_all reqs a1 [] = Some (ps, a2, []).
Proof.
  intros Hrew Hr Hreset. pose proof (reset_ahead _ _ _ _ _ Hrew Hr Hreset) as Hah.
  destruct Hrew as (Hok & _). destruct (replay_run _ _ _ _ _ Hok Hr Hah) as (a2 & H & _). by exists a2.
Qed.

(** ** Witnesses *)

Lemma arena_blocks_disjoint_witness :
  exists p a', idx_arena_alloc_aligned (Some (idx_arena_init 64)) 100 8 true [Some 4096] = (Ok p, Some a', []) /\
    p mod 8 = 0 /\ block_in a' (p, 100).
Proof.
  eexists _, _. split; [vm_compute; reflexivity|].
  match goal with |- ?p mod 8 = 0 /\ block_in ?a' _ =>
    destruct (arena_blocks_disjoint 64 (idx_arena_init 64) [] 100 8 [Some 4096] p a' []) as (H1 & H2 & _) end.
  - apply arena_start.
  - lia.
  - lia.
  - intros base [= <-]. split_and!; [done..|]. by apply Forall_nil.
  - vm_compute. reflexivity.
  - split; [exact H1|exact H2].
Defined.

(** Three requests over two chunks. *)
Lemma arena_replay_witness :
  exists a1 a2, idx_arena_reset (Some a1) = Some a1 /\
    alloc_all [(10, 16); (100, 16); (20, 1)] a1 [] = Some ([4128; 8224; 12320], a2, []).
Proof.
  assert (exists a', arena_run (idx_arena_init 64) [(10, 16); (100, 16); (20, 1)] [4128; 8224; 12320] a' /\
            length (chunks a') = 3%nat) as (a' & Hr & _).
  { eexists. split.
    - eapply (run_cons _ _ _ [Some 4096]); [lia|lia| |vm_compute; reflexivity|].
      { intros base [= <-]. split_and!; [done..|]. by apply Forall_nil. }
      eapply (run_cons _ _ _ [Some 8192]); [lia|lia| |vm_compute; reflexivity|].
      { intros base [= <-]. split_and!; [done..|]. decide_now. }
      eapply (run_cons _ _ _ [Some 12288]); [lia|lia| |vm_compute; reflexivity|apply run_nil].
      intros base [= <-]. split_and!; [done..|]. decide_now.
    - reflexivity. }
  destruct (idx_arena_reset (Some a')) as [a1|] eqn:E; [|done].
  assert (rewound (idx_arena_init 64)) as Hrew.
  { split; [exact (proj1 (init_state_ok 64))|]. split; [by apply Forall_nil|done]. }
  destruct (arena_replay (idx_arena_init 64) _ _ a' a1 Hrew Hr E) as [a2 H].
  exists a1, a2. split; [|exact H]. injection E as <-. cbn. rewrite map_map. cbn.
  by destruct (chunks a').
Defined.
