(* ===== verification/Wire.v ===== *)
(** * Reading binary layouts with the cursor

    The decoders of the venue and program modules read a fixed sequence of fields
    with the cursor of bytes.c.  Two judgements describe such a reader: the bytes
    that make it return a value ([reads]) and how many bytes it takes, with
    [IDX_ERR_RANGE] when fewer are left ([consumes]).  Both compose along the
    reader's binds; the hints of the database [wire] do it. *)

From S2P Require Import Prelude Radix Bytes.
#[local] Open Scope Z_scope.

(** A decoder's [idx_cursor_init] followed by its reads. *)
Definition run_reader {A} (r : reader A) (s : idx_slice) : result A :=
  match r (idx_cursor_init s) with Ok (a, _) => Ok a | Err e => Err e end.

(** A step of a decoder that does not touch the cursor. *)
Definition lift {A} (r : result A) : reader A := fun c =>
  match r with Ok a => Ok (a, c) | Err e => Err e end.

(** [r] returns [a] on any input that goes on with [enc]. *)
Definition reads {A} (r : reader A) (enc : bytes) (a : A) : Prop :=
  forall c b, cursor_ok c -> rest c = enc ++ b ->
    exists c', r c = Ok (a, c') /\ rest c' = b /\ cursor_ok c'.

(** [r] takes [n] bytes, and fails when there are fewer. *)
Definition consumes {A} (r : reader A) (n : Z) : Prop :=
  forall c, cursor_ok c ->
    if size (rest c) <? n then r c = Err IDX_ERR_RANGE
    else exists a c', r c = Ok (a, c') /\ size (rest c') = size (rest c) - n /\ cursor_ok c'.

Create HintDb wire.

(** ** Composition *)

Lemma reads_ret {A} (a : A) : reads (mret a) [] a.
Proof. intros c b Hc Hr. by exists c. Qed.

Lemma reads_bind {A B} (r : reader A) (f : A -> reader B) e1 e2 a b :
  reads r e1 a -> reads (f a) e2 b -> reads (a ← r; f a) (e1 ++ e2) b.
Proof.
  intros H1 H2 c l Hc Hr. rewrite <- app_assoc in Hr. destruct (H1 c _ Hc Hr) as (c1 & E & Hr1 & Hc1).
  destruct (H2 c1 l Hc1 Hr1) as (c2 & E2 & H). exists c2. unfold mbind, reader_bind. by rewrite E, E2.
Qed.

Lemma reads_last {A B} (r : reader A) (f : A -> reader B) e a b :
  reads r e a -> reads (f a) [] b -> reads (a ← r; f a) e b.
Proof. intros H1 H2. rewrite <- (app_nil_r e). by eapply reads_bind. Qed.

(** A step that reads nothing. *)
Lemma reads_step {A B} (r : reader A) (f : A -> reader B) e a b :
  reads r [] a -> reads (f a) e b -> reads (a ← r; f a) e b.
Proof. intros H1 H2. change e with ([] ++ e). by eapply reads_bind. Qed.

Lemma reads_lift {A} (r : result A) a : r = Ok a -> reads (lift r) [] a.
Proof. intros -> c b Hc Hr. by exists c. Qed.

Lemma consumes_ret {A} (a : A) : consumes (mret a) 0.
Proof.
  intros c Hc. rewrite (proj2 (Z.ltb_ge _ _)) by (unfold size; lia). exists a, c. split_and!; [done|lia|done].
Qed.

Lemma consumes_bind {A B} (r : reader A) (f : A -> reader B) n m :
  0 <= m -> consumes r n -> (forall a, consumes (f a) m) -> consumes (a ← r; f a) (n + m).
Proof.
  intros Hm H1 H2 c Hc. specialize (H1 c Hc). unfold mbind, reader_bind. destruct (size (rest c) <? n) eqn:E1.
  - rewrite H1. by destruct (_ <? n + m) eqn:E; [|lia].
  - destruct H1 as (a & c1 & -> & Hs & Hc1). specialize (H2 a c1 Hc1). rewrite Hs in H2.
    destruct (_ <? m) eqn:E2 in H2.
    + destruct (_ <? n + m) eqn:E; [done|lia].
    + destruct (_ <? n + m) eqn:E; [lia|]. destruct H2 as (b & c2 & -> & Hs2 & Hc2). exists b, c2. split_and!; [done|lia|done].
Qed.

(** ** The fields *)

Lemma reads_copy len a : size a = len -> reads (idx_cursor_copy len) a a.
Proof. intros Hl c b Hc Hr. by apply (cursor_copy_app c len a b). Qed.

Lemma reads_skip len a : size a = len -> reads (idx_cursor_skip len) a tt.
Proof.
  intros Hl c b Hc Hr. destruct (cursor_take_app c len a b Hc Hr Hl) as (s & c' & E & _ & H).
  exists c'. unfold idx_cursor_skip, mbind, reader_bind. by rewrite E.
Qed.

Lemma reads_u8 x : reads idx_cursor_u8 [x] x.
Proof. intros c b Hc Hr. by apply (cursor_u8_app c x b). Qed.

Lemma reads_u32 v : 0 <= v < 2 ^ 32 -> reads idx_cursor_u32le (le32 v) v.
Proof. intros Hv c b Hc Hr. by apply (cursor_u32_le32 c v b). Qed.

Lemma reads_u64 v : is_u64 v -> reads idx_cursor_u64le (le64 v) v.
Proof. intros Hv c b Hc Hr. by apply (cursor_u64_le64 c v b). Qed.

Lemma consumes_copy len : 0 <= len -> consumes (idx_cursor_copy len) len.
Proof.
  intros Hl c Hc. pose proof (cursor_copy_spec c len Hc Hl) as H. destruct (_ <? len) eqn:E; [done|].
  destruct H as (c' & E' & Hr & Hc' & _). eexists _, c'. split; [done|]. split; [|done].
  rewrite Hr. unfold size in *. rewrite length_drop. lia.
Qed.

Lemma consumes_skip len : 0 <= len -> consumes (idx_cursor_skip len) len.
Proof.
  intros Hl c Hc. pose proof (cursor_take_spec c len Hc Hl) as H. unfold idx_cursor_skip, mbind, reader_bind.
  destruct (_ <? len) eqn:E; [by rewrite H|]. destruct H as (s & c' & -> & _ & Hr & Hc' & _).
  exists tt, c'. split; [done|]. split; [|done]. rewrite Hr. unfold size in *. rewrite length_drop. lia.
Qed.

(** A reader that is a copy and a computation. *)
Lemma consumes_map {A} len (f : bytes -> A) :
  0 <= len -> consumes (raw ← idx_cursor_copy len; mret (f raw)) len.
Proof.
  intros Hl. rewrite <- (Z.add_0_r len) at 2. apply consumes_bind; [lia|by apply consumes_copy|].
  intros a. apply consumes_ret.
Qed.

Lemma consumes_u8 : consumes idx_cursor_u8 1.
Proof. by apply consumes_map. Qed.

Lemma consumes_u16 : consumes idx_cursor_u16le 2.
Proof. by apply consumes_map. Qed.

Lemma consumes_u32 : consumes idx_cursor_u32le 4.
Proof. by apply consumes_map. Qed.

Lemma consumes_u64 : consumes idx_cursor_u64le 8.
Proof. by apply consumes_map. Qed.

#[export] Hint Resolve reads_copy reads_skip reads_u8 reads_u32 reads_u64 : wire.
#[export] Hint Resolve consumes_copy consumes_skip consumes_u8 consumes_u16 consumes_u32 consumes_u64 : wire.

(** A chain of reads over the fields [e1 ++ (e2 ++ ...)], and of the bytes it takes. *)
Ltac reads_chain :=
  repeat first
    [ apply reads_ret
    | eapply reads_step; [solve [eauto with wire]|cbv beta]
    | eapply reads_bind; [solve [eauto with wire]|cbv beta]
    | eapply reads_last; [solve [eauto with wire]|cbv beta] ].

Ltac consumes_chain :=
  repeat first
    [ apply consumes_ret
    | eapply consumes_bind; [|solve [eauto with wire lia]|intros ?; cbv beta] ].

(** ** Running *)

Lemma run_reads {A} (r : reader A) enc a s tail :
  reads r enc a -> slice_bytes s = enc ++ tail -> slice_len s < 2 ^ 64 -> run_reader r s = Ok a.
Proof.
  intros H Hs Hl. destruct (H (idx_cursor_init s) tail) as (c' & E & _); [by apply cursor_init_ok|done|].
  unfold run_reader. by rewrite E.
Qed.

Lemma run_short {A} (r : reader A) n s :
  consumes r n -> slice_len s < 2 ^ 64 -> slice_len s < n -> run_reader r s = Err IDX_ERR_RANGE.
Proof.
  intros H Hl Hn. specialize (H (idx_cursor_init s) (cursor_init_ok s Hl)). rewrite rest_init in H.
  unfold slice_len in Hn. rewrite (proj2 (Z.ltb_lt _ _) Hn) in H. unfold run_reader. by rewrite H.
Qed.

Lemma run_err {A} (r : reader A) n s e :
  consumes r n -> slice_len s < 2 ^ 64 -> run_reader r s = Err e -> e = IDX_ERR_RANGE.
Proof.
  intros H Hl. specialize (H (idx_cursor_init s) (cursor_init_ok s Hl)). unfold run_reader.
  destruct (_ <? n); [rewrite H; congruence|]. by destruct H as (a & c' & -> & _).
Qed.

(** ** The failures of a decoder *)

(** [r] fails only with the statuses [P] allows. *)
Definition raises {A} (r : reader A) (P : idx_status -> Prop) : Prop :=
  forall c, cursor_ok c -> match r c with Ok (_, c') => cursor_ok c' | Err e => P e end.

Lemma raises_ret {A} (a : A) P : raises (mret a) P.
Proof. by intros c Hc. Qed.

Lemma raises_bind {A B} (r : reader A) (f : A -> reader B) P :
  raises r P -> (forall a, raises (f a) P) -> raises (a ← r; f a) P.
Proof.
  intros H1 H2 c Hc. specialize (H1 c Hc). unfold mbind, reader_bind. destruct (r c) as [[a c']|e]; [|done].
  by apply H2.
Qed.

Lemma raises_lift {A} (r : result A) (P : idx_status -> Prop) : (forall e, r = Err e -> P e) -> raises (lift r) P.
Proof. intros H c Hc. unfold lift. destruct r as [a|e]; [done|]. by apply H. Qed.

Lemma raises_lift_bind {A B} (r : result A) (f : A -> reader B) (P : idx_status -> Prop) :
  (forall e, r = Err e -> P e) -> (forall a, r = Ok a -> raises (f a) P) -> raises (a ← lift r; f a) P.
Proof.
  intros H1 H2 c Hc. unfold mbind, reader_bind, lift. destruct r as [a|e]; [|by apply H1]. by apply (H2 a eq_refl c).
Qed.

Lemma raises_consumes {A} (r : reader A) n (P : idx_status -> Prop) : consumes r n -> P IDX_ERR_RANGE -> raises r P.
Proof.
  intros H HP c Hc. specialize (H c Hc). destruct (_ <? n); [by rewrite H|]. by destruct H as (a & c' & -> & _ & Hc').
Qed.

Lemma run_raises {A} (r : reader A) (P : idx_status -> Prop) s e :
  raises r P -> slice_len s < 2 ^ 64 -> run_reader r s = Err e -> P e.
Proof.
  intros H Hl. specialize (H _ (cursor_init_ok s Hl)). unfold run_reader.
  destruct (r _) as [[a c']|e']; [done|]. by intros [= <-].
Qed.

Ltac raises_chain :=
  repeat first
    [ apply raises_ret
    | apply raises_bind; [solve [eapply raises_consumes; [eauto with wire lia|auto]]|intros ?; cbv beta] ].

(** ** What a successful read says of its input *)

(** A cursor over bytes that are there. *)
Definition live (c : idx_cursor) : Prop := cursor_ok c /\ bytes_ok (rest c) /\ is_Some (input c).

(** [r] returns only values whose encoding it read. *)
Definition wrote {A} (r : reader A) (enc : A -> bytes -> Prop) : Prop :=
  forall c a c', live c -> r c = Ok (a, c') -> exists e, rest c = e ++ rest c' /\ enc a e /\ live c'.

Lemma bind_inv {A B} (r : reader A) (f : A -> reader B) c b c' :
  (a ← r; f a) c = Ok (b, c') -> exists a c1, r c = Ok (a, c1) /\ f a c1 = Ok (b, c').
Proof. unfold mbind, reader_bind. destruct (r c) as [[a c1]|] eqn:E; [|done]. by exists a, c1. Qed.

Lemma lift_inv {A} (r : result A) c a c' : lift r c = Ok (a, c') -> r = Ok a /\ c' = c.
Proof. unfold lift. destruct r; [|done]. by intros [= <- <-]. Qed.

Lemma wrote_take len : 0 <= len -> wrote (idx_cursor_take len) (fun s e => s = Some e /\ size e = len).
Proof.
  intros Hl c s c' (Hc & Hb & Hi) E. pose proof (cursor_take_spec c len Hc Hl) as H.
  destruct (_ <? len) eqn:Hlt; [congruence|]. zbool.
  destruct H as (s' & c1 & E' & Hs & Hr & Hc1 & Hin). rewrite E in E'. injection E' as <- <-.
  assert (is_Some s) as [e He].
  { revert E. unfold idx_cursor_take. destruct (_ <? len); [done|]. intros [= <- _].
    destruct Hi as [l ->]. by eexists. }
  subst s. exists e. simpl in Hs. subst e. rewrite Hr, take_drop. split; [done|]. split; [split; [done|]|].
  - unfold size in *. rewrite length_take. lia.
  - split; [done|]. rewrite Hr, Hin. split; [by apply Forall_drop|done].
Qed.

Lemma wrote_copy len : 0 <= len -> wrote (idx_cursor_copy len) (fun a e => a = e /\ size e = len /\ bytes_ok e).
Proof.
  intros Hl c a c' Hc E. unfold idx_cursor_copy in E. apply bind_inv in E as (s & c1 & E & [= <- <-]).
  pose proof Hc as (_ & Hb & _). destruct (wrote_take len Hl c s c1 Hc E) as (e & Hr & [-> Hs] & Hc1). exists e.
  rewrite Hr in Hb. apply Forall_app in Hb as [Hb _]. by split_and!.
Qed.

Lemma wrote_u8 : wrote idx_cursor_u8 (fun v e => e = [v] /\ is_byte v).
Proof.
  intros c v c' Hc E. unfold idx_cursor_u8 in E. apply bind_inv in E as (a & c1 & E & [= <- <-]).
  destruct (wrote_copy 1 ltac:(lia) c a c1 Hc E) as (e & Hr & (-> & Hs & Hb) & Hc1). exists e.
  destruct e as [|x [|y e]]; unfold size in Hs; simpl in Hs; try lia. apply Forall_cons in Hb as [Hb _]. done.
Qed.

Lemma wrote_u64 : wrote idx_cursor_u64le (fun v e => e = le64 v /\ is_u64 v).
Proof.
  intros c v c' Hc E. unfold idx_cursor_u64le in E. apply bind_inv in E as (a & c1 & E & Hv).
  destruct (wrote_copy 8 ltac:(lia) c a c1 Hc E) as (e & Hr & (-> & Hs & Hb) & Hc1).
  unfold size in Hs. assert (length e = 8%nat) as Hlen by lia. unfold mret, reader_ret in Hv.
  rewrite u64_bytes in Hv by done. injection Hv as <- <-. exists e.
  split; [done|]. split; [|done]. split; [rewrite <- Hlen; symmetry; by apply le_digits_val|].
  pose proof (le_val_bound 256 e ltac:(lia) Hb) as Hbd. unfold size in Hbd. rewrite Hlen in Hbd. unfold is_u64. lia.
Qed.

Lemma wrote_u32 : wrote idx_cursor_u32le (fun v e => e = le32 v /\ 0 <= v < 2 ^ 32).
Proof.
  intros c v c' Hc E. unfold idx_cursor_u32le in E. apply bind_inv in E as (a & c1 & E & Hv).
  destruct (wrote_copy 4 ltac:(lia) c a c1 Hc E) as (e & Hr & (-> & Hs & Hb) & Hc1).
  unfold size in Hs. assert (length e = 4%nat) as Hlen by lia. unfold mret, reader_ret in Hv.
  rewrite u32_bytes in Hv by done. injection Hv as <- <-. exists e.
  split; [done|]. split; [|done]. split; [rewrite <- Hlen; symmetry; by apply le_digits_val|].
  pose proof (le_val_bound 256 e ltac:(lia) Hb) as Hbd. unfold size in Hbd. rewrite Hlen in Hbd. lia.
Qed.

(** A cursor at the start of a slice is live once something has been read of it. *)
Lemma init_live s : slice_len s < 2 ^ 64 -> bytes_ok (slice_bytes s) -> slice_bytes s <> [] -> live (idx_cursor_init s).
Proof.
  intros Hl Hb Hne. split; [by apply cursor_init_ok|]. split; [done|]. destruct s; [by eexists|done].
Qed.

Lemma run_inv {A} (r : reader A) s a : run_reader r s = Ok a -> exists c, r (idx_cursor_init s) = Ok (a, c).
Proof. unfold run_reader. destruct (r _) as [[x c]|] eqn:E; [|done]. intros [= <-]. by exists c. Qed.

(** A 64-bit read is never negative, whatever the bytes. *)
Lemma u64le_nonneg c v c' : idx_cursor_u64le c = Ok (v, c') -> 0 <= v.
Proof.
  unfold idx_cursor_u64le. intros (raw & c1 & _ & E)%bind_inv. injection E as <- _.
  assert (forall l acc, 0 <= acc ->
    0 <= foldl (fun value (i : nat) => Z.lor value (u64 (Z.shiftl (raw !!! i) (8 * Z.of_nat i)))) acc l) as H.
  { induction l as [|i l IH]; intros acc Hacc; [done|]. cbn [foldl]. apply IH. apply Z.lor_nonneg. split; [done|].
    apply u64_range. }
  by apply (H (seq 0 8)).
Qed.
