(* ===== verification/Block.v ===== *)
(** * block.c: decoding a block's JSON

    The typed model of a block and [idx_block_decode], every function of the file.
    A decoder is a computation over the arena (any implementation of [ArenaOps])
    and the heap the base58 scratch comes from; a failed decoder hands back no
    value, and the partly filled output of the source, which its callers drop, is
    not modelled.  Arrays are lists, so a count field is the length of its list; a
    field valid only when its [has_] flag is set is an option. *)

From S2P Require Import Prelude Radix Base58 Bytes Decimal Types Json Arena.
#[local] Open Scope Z_scope.

(** src/include/block.h:33-36 [idx_tx_version] *)
Inductive idx_tx_version := IDX_TX_VERSION_LEGACY | IDX_TX_VERSION_0.

#[export] Instance idx_tx_version_eq_dec : EqDecision idx_tx_version.
Proof. solve_decision. Defined.

(** src/src/block.c:7-15 [idx_tx_version_name] *)
Definition idx_tx_version_name (version : idx_tx_version) : bytes :=
  match version with
  | IDX_TX_VERSION_LEGACY => lit "legacy"
  | IDX_TX_VERSION_0 => lit "v0"
  end.

(** src/include/block.h:46-51 [idx_account] *)
Record idx_account := Account {
  acc_pubkey : idx_pubkey;
  is_signer : bool;
  is_writable : bool;
  from_lookup_table : bool
}.

(** src/include/block.h:59-65 [idx_instruction] *)
Record idx_instruction := Instruction {
  program_id_index : Z;
  account_indices : list Z;
  ix_data : idx_slice;
  stack_height : Z
}.

(** [ix->account_count] *)
Definition account_count (ix : idx_instruction) : Z := size (account_indices ix).

(** src/include/block.h:68-72 [idx_inner_instructions] *)
Record idx_inner_instructions := InnerInstructions {
  inner_index : Z;
  inner_instructions_of : list idx_instruction
}.

(** src/include/block.h:82-91 [idx_token_balance] *)
Record idx_token_balance := TokenBalance {
  tb_account_index : Z;
  tb_mint : idx_pubkey;
  tb_owner : option idx_pubkey;
  tb_program_id : option idx_pubkey;
  tb_amount : Z;
  tb_decimals : Z
}.

(** src/include/block.h:93-147 [idx_transaction] *)
Record idx_transaction := Transaction {
  version : idx_tx_version;
  signatures : list idx_signature;
  num_required_signatures : Z;
  num_readonly_signed : Z;
  num_readonly_unsigned : Z;
  recent_blockhash : idx_hash;
  accounts : list idx_account;
  static_account_count : nat;
  instructions : list idx_instruction;
  inner_instructions : list idx_inner_instructions;
  has_meta : bool;
  success : bool;
  fee : Z;
  pre_balances : list Z;
  post_balances : list Z;
  pre_token_balances : list idx_token_balance;
  post_token_balances : list idx_token_balance;
  logs : list idx_slice
}.

(** src/include/block.h:149-162 [idx_block] *)
Record idx_block := Block {
  slot : Z;
  blockhash : idx_hash;
  previous_blockhash : option idx_hash;
  parent_slot : Z;
  block_height : option Z;
  block_time : option Z;
  transactions : list idx_transaction
}.

(** src/src/block.c:17-20 [idx_instruction_program_id]; [None] would be a read past
    the accounts. *)
Definition idx_instruction_program_id (tx : idx_transaction) (ix : idx_instruction) : option idx_pubkey :=
  acc_pubkey <$> accounts tx !! Z.to_nat (program_id_index ix).

(** src/src/block.c:22-29 [idx_instruction_account] *)
Definition idx_instruction_account (tx : idx_transaction) (ix : idx_instruction) (position : Z)
    : option idx_pubkey :=
  if account_count ix <=? position then None
  else acc_pubkey <$> accounts tx !! Z.to_nat (account_indices ix !!! Z.to_nat position).

(** src/src/block.c:82-93 [parse_u64_decimal]: the loop. *)
Fixpoint parse_digits (text : bytes) (value : Z) : result Z :=
  match text with
  | [] => Ok value
  | c :: text' =>
      if (c <? 48) || (57 <? c) then IDX_FAIL IDX_ERR_PARSE
      else
        let digit := c - 48 in
        if (SIZE_MAX - digit) / 10 <? value then IDX_FAIL IDX_ERR_PARSE
        else parse_digits text' (u64 (u64 (value * 10) + digit))
  end.

(** src/src/block.c:74-95 [parse_u64_decimal] *)
Definition parse_u64_decimal (text : idx_slice) : result Z :=
  if slice_len text =? 0 then IDX_FAIL IDX_ERR_PARSE else parse_digits (slice_bytes text) 0.

(** src/src/block.c:32-42 [read_u8_field] *)
Definition read_u8_field (object : idx_json_val) (key : bytes) : result Z :=
  value ← idx_json_read_u64 object key;
  if 255 <? value then IDX_FAIL IDX_ERR_PARSE else Ok value.

(** src/src/block.c:187-198 [take_index] *)
Definition take_index (value : idx_json_val) (count : Z) : result Z :=
  index ← idx_json_as_u64 value;
  if count <=? index then IDX_FAIL IDX_ERR_PARSE else Ok (u8 index).

(** src/src/block.c:319-345 [read_version] *)
Definition read_version (entry : idx_json_val) : result idx_tx_version :=
  let value := idx_json_get entry (lit "version") in
  if negb (idx_json_is_present value) then Ok IDX_TX_VERSION_LEGACY
  else if idx_json_is_string value then
    text ← idx_json_as_string value;
    if idx_slice_equal text (idx_slice_from_str (Some (lit "legacy"))) then Ok IDX_TX_VERSION_LEGACY
    else IDX_FAIL IDX_ERR_PARSE
  else
    number ← idx_json_as_u64 value;
    if negb (number =? 0) then IDX_FAIL IDX_ERR_PARSE else Ok IDX_TX_VERSION_0.

(** src/src/block.c:372-386 [decode_meta_summary]: [has_meta], [success], [fee]. *)
Definition decode_meta_summary (meta : idx_json_val) : bool * bool * Z :=
  if negb (idx_json_is_object meta) then (false, true, 0)
  else
    let error := idx_json_get meta (lit "err") in
    (true, negb (idx_json_is_present error) || idx_json_is_null error,
     default 0 (idx_json_opt_u64 meta (lit "fee"))).

(** The sizes of the elements, for the overflow check of the arena. *)
Definition sizeof_account : Z := 35.
Definition sizeof_instruction : Z := 48.
Definition sizeof_inner : Z := 24.
Definition sizeof_token_balance : Z := 120.
Definition sizeof_transaction : Z := 208.
Definition sizeof_slice : Z := 16.

Section decode.
Context {A : Type} `{ArenaOps A}.

(** The arena and the heap. *)
Definition decoder (X : Type) : Type := A * heap -> result X * (A * heap).

#[local] Instance decoder_ret : MRet decoder := fun X x st => (Ok x, st).
#[local] Instance decoder_bind : MBind decoder := fun X Y f m st =>
  match m st with
  | (Ok x, st') => f x st'
  | (Err s, st') => (Err s, st')
  end.

(** A read of the document. *)
Definition pure {X} (r : result X) : decoder X := fun st => (r, st).

Definition calloc_list (count : nat) (size : Z) : decoder unit := fun '(a, h) =>
  let '(r, a') := arena_calloc (Z.of_nat count) size a in (r, (a', h)).

Definition alloc_bytes (n : Z) : decoder unit := fun '(a, h) =>
  let '(r, a') := arena_alloc n a in (r, (a', h)).

Definition on_heap {X} (f : heap -> result X * heap) : decoder X := fun '(a, h) =>
  let '(r, h') := f h in (r, (a, h')).

(** The loop [for (i = 0; i < count; i++)] that fills element [i]. *)
Fixpoint fill {X} (f : nat -> decoder X) (indices : list nat) : decoder (list X) :=
  match indices with
  | [] => mret []
  | i :: indices' => x ← f i; xs ← fill f indices'; mret (x :: xs)
  end.

(** src/src/block.c:45-50 [decode_pubkey_value] *)
Definition decode_pubkey_value (value : idx_json_val) : decoder idx_pubkey :=
  text ← pure (idx_json_as_string value);
  on_heap (idx_pubkey_from_base58 text true).

(** src/src/block.c:53-58 [read_hash_field] *)
Definition read_hash_field (object : idx_json_val) (key : bytes) : decoder idx_hash :=
  text ← pure (idx_json_read_string object key);
  on_heap (idx_hash_from_base58 text true).

(** src/src/block.c:61-66 [read_pubkey_field] *)
Definition read_pubkey_field (object : idx_json_val) (key : bytes) : decoder idx_pubkey :=
  text ← pure (idx_json_read_string object key);
  on_heap (idx_pubkey_from_base58 text true).

(** src/src/block.c:112-127 [resolve_accounts]: the loaded addresses, writable and
    readonly. *)
Definition loaded_addresses (meta : idx_json_val) (version : idx_tx_version)
    : idx_json_val * idx_json_val :=
  if negb (bool_decide (version = IDX_TX_VERSION_LEGACY)) && idx_json_is_object meta then
    let loaded := idx_json_get meta (lit "loadedAddresses") in
    if idx_json_is_object loaded
    then (idx_json_get loaded (lit "writable"), idx_json_get loaded (lit "readonly"))
    else (None, None)
  else (None, None).

(** src/src/block.c:103-184 [resolve_accounts]: the accounts and
    [static_account_count]. *)
Definition resolve_accounts (message meta : idx_json_val) (version : idx_tx_version)
    (sigs ro_signed ro_unsigned : Z) : decoder (list idx_account * nat) :=
  static_keys ← pure (idx_json_read_array message (lit "accountKeys"));
  let static_count := idx_json_array_size static_keys in
  let '(loaded_writable, loaded_readonly) := loaded_addresses meta version in
  let writable_count := idx_json_array_size loaded_writable in
  let readonly_count := idx_json_array_size loaded_readonly in
  let total := (static_count + writable_count + readonly_count)%nat in
  _ ← (if (0 <? total)%nat then calloc_list total sizeof_account else mret tt);
  if (Z.of_nat static_count <? sigs) || (sigs <? ro_signed) ||
     (Z.of_nat static_count - sigs <? ro_unsigned)
  then pure (IDX_FAIL IDX_ERR_PARSE)
  else
    let writable_signed_end := sigs - ro_signed in
    let writable_unsigned_end := Z.of_nat static_count - ro_unsigned in
    statics ← fill (fun i =>
        key ← decode_pubkey_value (idx_json_array_get static_keys i);
        let signer := Z.of_nat i <? sigs in
        mret (Account key signer
                (if signer then Z.of_nat i <? writable_signed_end
                 else Z.of_nat i <? writable_unsigned_end) false))
      (seq 0 static_count);
    writables ← fill (fun i =>
        key ← decode_pubkey_value (idx_json_array_get loaded_writable i);
        mret (Account key false true true))
      (seq 0 writable_count);
    readonlys ← fill (fun i =>
        key ← decode_pubkey_value (idx_json_array_get loaded_readonly i);
        mret (Account key false false true))
      (seq 0 readonly_count);
    mret (statics ++ writables ++ readonlys, static_count).

(** src/src/block.c:201-251 [decode_instruction] *)
Definition decode_instruction (source : idx_json_val) (count : Z) : decoder idx_instruction :=
  program_index ← pure (idx_json_read_u64 source (lit "programIdIndex"));
  if count <=? program_index then pure (IDX_FAIL IDX_ERR_PARSE)
  else
    accounts ← pure (idx_json_read_array source (lit "accounts"));
    let n := idx_json_array_size accounts in
    indices ← (if (0 <? n)%nat then
                 _ ← calloc_list n 1;
                 fill (fun i => pure (take_index (idx_json_array_get accounts i) count)) (seq 0 n)
               else mret []);
    data_text ← pure (idx_json_read_string source (lit "data"));
    data ← (if slice_len data_text =? 0 then mret (idx_slice_make None 0)
            else
              let capacity := idx_base58_decoded_max (slice_len data_text) in
              _ ← alloc_bytes capacity;
              raw ← on_heap (idx_base58_decode data_text (Some capacity));
              mret (idx_slice_make (Some raw) (size raw)));
    let stack_height :=
      match idx_json_opt_u64 source (lit "stackHeight") with
      | Some v => if v <=? 65535 then v else 0
      | None => 0
      end in
    mret (Instruction (u8 program_index) indices data stack_height).

(** src/src/block.c:254-272 [decode_instructions] *)
Definition decode_instructions (array : idx_json_val) (count : Z) : decoder (list idx_instruction) :=
  let n := idx_json_array_size array in
  if (0 <? n)%nat then
    _ ← calloc_list n sizeof_instruction;
    fill (fun i => decode_instruction (idx_json_array_get array i) count) (seq 0 n)
  else mret [].

(** src/src/block.c:299-311 [decode_inner_instructions]: one group. *)
Definition decode_inner_group (group : idx_json_val) (count : Z) : decoder idx_inner_instructions :=
  index ← pure (read_u8_field group (lit "index"));
  instructions ← pure (idx_json_read_array group (lit "instructions"));
  list ← decode_instructions instructions count;
  mret (InnerInstructions index list).

(** src/src/block.c:277-315 [decode_inner_instructions] *)
Definition decode_inner_instructions (meta : idx_json_val) (count : Z)
    : decoder (list idx_inner_instructions) :=
  if negb (idx_json_is_object meta) then mret []
  else
    let groups := idx_json_get meta (lit "innerInstructions") in
    if negb (idx_json_is_array groups) then mret []
    else
      let n := idx_json_array_size groups in
      if (n =? 0)%nat then mret []
      else
        _ ← calloc_list n sizeof_inner;
        fill (fun i => decode_inner_group (idx_json_array_get groups i) count) (seq 0 n).

(** src/src/block.c:347-368 [decode_signatures] *)
Definition decode_signatures (transaction : idx_json_val) : decoder (list idx_signature) :=
  signatures ← pure (idx_json_read_array transaction (lit "signatures"));
  let n := idx_json_array_size signatures in
  if (0 <? n)%nat then
    _ ← calloc_list n IDX_SIGNATURE_LEN;
    fill (fun i =>
      text ← pure (idx_json_as_string (idx_json_array_get signatures i));
      on_heap (idx_signature_from_base58 text true)) (seq 0 n)
  else mret [].

(** src/src/block.c:393-445 [decode_balances]: the balances before and after. *)
Definition decode_balances (meta : idx_json_val) (count : nat) : decoder (list Z * list Z) :=
  if negb (idx_json_is_object meta) then mret ([], [])
  else
    let pre := idx_json_get meta (lit "preBalances") in
    let post := idx_json_get meta (lit "postBalances") in
    let has_pre := idx_json_is_array pre in
    let has_post := idx_json_is_array post in
    if negb has_pre && negb has_post then mret ([], [])
    else if negb has_pre || negb has_post then pure (IDX_FAIL IDX_ERR_PARSE)
    else
      let n := idx_json_array_size pre in
      if negb (idx_json_array_size post =? n)%nat then pure (IDX_FAIL IDX_ERR_PARSE)
      else if negb (n =? count)%nat then pure (IDX_FAIL IDX_ERR_PARSE)
      else if (n =? 0)%nat then mret ([], [])
      else
        _ ← calloc_list n 8;
        _ ← calloc_list n 8;
        values ← fill (fun i =>
            before ← pure (idx_json_as_u64 (idx_json_array_get pre i));
            after ← pure (idx_json_as_u64 (idx_json_array_get post i));
            mret (before, after))
          (seq 0 n);
        mret (values.*1, values.*2).

(** src/src/block.c:463-474 [decode_token_balance]: an optional key. *)
Definition optional_pubkey (value : idx_json_val) : decoder (option idx_pubkey) :=
  if idx_json_is_string value then key ← decode_pubkey_value value; mret (Some key)
  else mret None.

(** src/src/block.c:448-490 [decode_token_balance] *)
Definition decode_token_balance (entry : idx_json_val) (count : Z) : decoder idx_token_balance :=
  index ← pure (idx_json_read_u64 entry (lit "accountIndex"));
  if count <=? index then pure (IDX_FAIL IDX_ERR_PARSE)
  else
    mint ← read_pubkey_field entry (lit "mint");
    owner ← optional_pubkey (idx_json_get entry (lit "owner"));
    program_id ← optional_pubkey (idx_json_get entry (lit "programId"));
    ui ← pure (idx_json_read_object entry (lit "uiTokenAmount"));
    amount_text ← pure (idx_json_read_string ui (lit "amount"));
    amount ← pure (parse_u64_decimal amount_text);
    decimals ← pure (idx_json_read_u64 ui (lit "decimals"));
    if 255 <? decimals then pure (IDX_FAIL IDX_ERR_PARSE)
    else mret (TokenBalance (u8 index) mint owner program_id amount decimals).

(** src/src/block.c:493-522 [decode_token_balances] *)
Definition decode_token_balances (meta : idx_json_val) (key : bytes) (count : Z)
    : decoder (list idx_token_balance) :=
  if negb (idx_json_is_object meta) then mret []
  else
    let array := idx_json_get meta key in
    if negb (idx_json_is_array array) then mret []
    else
      let n := idx_json_array_size array in
      if (n =? 0)%nat then mret []
      else
        _ ← calloc_list n sizeof_token_balance;
        fill (fun i => decode_token_balance (idx_json_array_get array i) count) (seq 0 n).

(** src/src/block.c:526-552 [decode_logs] *)
Definition decode_logs (meta : idx_json_val) : decoder (list idx_slice) :=
  if negb (idx_json_is_object meta) then mret []
  else
    let array := idx_json_get meta (lit "logMessages") in
    if negb (idx_json_is_array array) then mret []
    else
      let n := idx_json_array_size array in
      if (n =? 0)%nat then mret []
      else
        _ ← calloc_list n sizeof_slice;
        fill (fun i => pure (idx_json_as_string (idx_json_array_get array i))) (seq 0 n).

(** src/src/block.c:554-597 [decode_transaction] *)
Definition decode_transaction (entry : idx_json_val) : decoder idx_transaction :=
  version ← pure (read_version entry);
  transaction ← pure (idx_json_read_object entry (lit "transaction"));
  message ← pure (idx_json_read_object transaction (lit "message"));
  let meta := idx_json_get entry (lit "meta") in
  signatures ← decode_signatures transaction;
  header ← pure (idx_json_read_object message (lit "header"));
  sigs ← pure (read_u8_field header (lit "numRequiredSignatures"));
  ro_signed ← pure (read_u8_field header (lit "numReadonlySignedAccounts"));
  ro_unsigned ← pure (read_u8_field header (lit "numReadonlyUnsignedAccounts"));
  recent ← read_hash_field message (lit "recentBlockhash");
  resolved ← resolve_accounts message meta version sigs ro_signed ro_unsigned;
  let '(accounts, static_count) := resolved in
  let count := size accounts in
  ixs ← pure (idx_json_read_array message (lit "instructions"));
  instructions ← decode_instructions ixs count;
  inner ← decode_inner_instructions meta count;
  let '(has_meta, success, fee) := decode_meta_summary meta in
  balances ← decode_balances meta (length accounts);
  pre_token ← decode_token_balances meta (lit "preTokenBalances") count;
  post_token ← decode_token_balances meta (lit "postTokenBalances") count;
  logs ← decode_logs meta;
  mret (Transaction version signatures sigs ro_signed ro_unsigned recent accounts static_count
          instructions inner has_meta success fee balances.1 balances.2 pre_token post_token logs).

(** src/src/block.c:599-650 [idx_block_decode] *)
Definition idx_block_decode (block : idx_json_val) (slot : Z) : decoder idx_block :=
  if negb (idx_json_is_object block) then pure (IDX_FAIL IDX_ERR_PARSE)
  else
    blockhash ← read_hash_field block (lit "blockhash");
    parent_slot ← pure (idx_json_read_u64 block (lit "parentSlot"));
    let previous := idx_json_get block (lit "previousBlockhash") in
    previous_hash ← (if idx_json_is_string previous
                     then x ← read_hash_field block (lit "previousBlockhash"); mret (Some x)
                     else mret None);
    let height := idx_json_opt_u64 block (lit "blockHeight") in
    let time := idx_json_get block (lit "blockTime") in
    block_time ← (if idx_json_is_present time && negb (idx_json_is_null time)
                  then t ← pure (idx_json_read_i64 block (lit "blockTime")); mret (Some t)
                  else mret None);
    txs ← pure (idx_json_read_array block (lit "transactions"));
    let n := idx_json_array_size txs in
    list ← (if (0 <? n)%nat then
              _ ← calloc_list n sizeof_transaction;
              fill (fun i => decode_transaction (idx_json_array_get txs i)) (seq 0 n)
            else mret []);
    mret (Block slot blockhash previous_hash parent_slot height block_time list).
End decode.

(** ** What a decoder returns *)

Section returns.
Context {A : Type} `{ArenaOps A}.

(** Every value [m] returns satisfies [P]. *)
Definition returns {X} (m : decoder (A := A) X) (P : X -> Prop) : Prop :=
  forall st x st', m st = (Ok x, st') -> P x.

Lemma returns_ret {X} (x : X) (P : X -> Prop) : P x -> returns (decoder_ret _ x) P.
Proof. intros HP st x' st' [= <- _]. done. Qed.

Lemma returns_pure {X} (r : result X) (P : X -> Prop) : (forall x, r = Ok x -> P x) -> returns (pure r) P.
Proof. intros HP st x st' [= -> _]. by apply HP. Qed.

Lemma returns_bind {X Y} (m : decoder X) (f : X -> decoder Y) (P : X -> Prop) (Q : Y -> Prop) :
  returns m P -> (forall x, P x -> returns (f x) Q) -> returns (decoder_bind _ _ f m) Q.
Proof.
  intros Hm Hf st y st'. unfold decoder_bind. destruct (m st) as [[x|s] st1] eqn:E; [|done].
  apply Hf. by eapply Hm.
Qed.

Lemma returns_true {X} (m : decoder X) : returns m (fun _ => True).
Proof. done. Qed.

Lemma returns_impl {X} (m : decoder X) (P Q : X -> Prop) : returns m P -> (forall x, P x -> Q x) -> returns m Q.
Proof. intros Hm HPQ st x st' E. apply HPQ. by eapply Hm. Qed.

(** The loop fills one element per index, each satisfying what its round
    promises. *)
Lemma returns_fill {X} (f : nat -> decoder X) (P : nat -> X -> Prop) n k :
  (forall i, returns (f i) (P i)) ->
  returns (fill f (seq k n)) (fun xs => length xs = n /\ forall i x, xs !! i = Some x -> P (k + i)%nat x).
Proof.
  intros Hf. revert k. induction n as [|n IH]; intros k; cbn [seq fill].
  - apply returns_ret. split; [done|]. intros i x Hx. by rewrite lookup_nil in Hx.
  - eapply returns_bind; [apply Hf|]. intros x Hx. eapply returns_bind; [apply (IH (S k))|]. intros xs [Hl Hxs].
    apply returns_ret. split; [simpl; lia|]. intros [|i] y Hy; simpl in Hy.
    + simplify_eq. by rewrite Nat.add_0_r.
    + rewrite Nat.add_succ_r, <- Nat.add_succ_l. by apply Hxs.
Qed.

Lemma returns_fill_all {X} (f : nat -> decoder X) (P : X -> Prop) n :
  (forall i, returns (f i) P) -> returns (fill f (seq 0 n)) (fun xs => length xs = n /\ Forall P xs).
Proof.
  intros Hf. eapply returns_impl; [by apply (returns_fill f (fun _ => P))|].
  intros xs [Hl Hxs]. split; [done|]. apply Forall_lookup. intros i x Hx. by eapply Hxs.
Qed.
End returns.

Ltac ret_bind := eapply returns_bind; [apply returns_true|let r := fresh "ret" in intros r _].

(** ** Numbers and indices *)

Lemma as_u64_range v n : idx_json_as_u64 v = Ok n -> is_u64 n.
Proof.
  destruct v as [[| |n'|n'| | | |]|]; simpl; try done; [intros [= <-]; apply u64_range|].
  destruct (n' <? 0); [done|]. intros [= <-]. apply u64_range.
Qed.

Lemma u8_le n : 0 <= n -> 0 <= u8 n <= n.
Proof. intros Hn. unfold u8. split; [apply Z.mod_pos_bound; lia|by apply Z.mod_le]. Qed.

Lemma parse_digits_spec text v n :
  is_u64 v ->
  parse_digits text v = Ok n <->
  Forall is_digit text /\ n = v * 10 ^ size text + dec_val text /\ n < 2 ^ 64.
Proof.
  unfold is_u64. revert v. induction text as [|c text IH]; intros v Hv; cbn [parse_digits].
  - change (size []) with 0. rewrite Z.mul_1_r. unfold dec_val. simpl. split.
    + intros [= <-]. split_and!; [constructor|lia|lia].
    + intros (_ & -> & _). f_equal. lia.
  - assert (size (c :: text) = size text + 1) as Hsz by (unfold size; simpl length; lia).
    rewrite Forall_cons, dec_val_cons, Hsz, Z.pow_add_r by (unfold size; lia). change (10 ^ 1) with 10.
    assert (0 < 10 ^ size text) as Hpow by (apply Z.pow_pos_nonneg; unfold size; lia).
    unfold is_digit. destruct ((c <? 48) || (57 <? c)) eqn:Hc.
    { split; [done|]. intros ((? & _) & _). lia. }
    destruct ((SIZE_MAX - (c - 48)) / 10 <? v) eqn:Ho.
    + split; [done|]. intros ((_ & Hd) & -> & Hlt). pose proof (dec_val_nonneg text Hd).
      assert (SIZE_MAX < v * 10 + (c - 48)) by (unfold SIZE_MAX in *; zdiv). unfold SIZE_MAX in *. nia.
    + assert (v * 10 + (c - 48) <= SIZE_MAX) as Hle by (unfold SIZE_MAX in *; zdiv). unfold SIZE_MAX in Hle.
      rewrite (u64_small (v * 10)) by (unfold is_u64; lia). rewrite u64_small by (unfold is_u64; lia).
      rewrite IH by lia. split; intros (H1 & H2 & H3); split_and!; tauto || nia.
Qed.

Lemma opt_u64_range object key n : idx_json_opt_u64 object key = Some n -> is_u64 n.
Proof.
  unfold idx_json_opt_u64. case_match; [done|]. destruct (idx_json_as_u64 _) eqn:E; [|done].
  intros [= <-]. by eapply as_u64_range.
Qed.

Lemma read_u8_range object key n : read_u8_field object key = Ok n -> 0 <= n <= 255.
Proof.
  unfold read_u8_field, idx_json_read_u64. destruct (idx_json_as_u64 _) as [v|] eqn:E; [|done].
  apply as_u64_range in E. unfold is_u64 in E. simpl. destruct (255 <? v) eqn:?; [done|]. intros [= <-]. lia.
Qed.

Lemma parse_u64_range text n : parse_u64_decimal text = Ok n -> is_u64 n.
Proof.
  unfold parse_u64_decimal. case_match; [done|]. intros E. apply parse_digits_spec in E as (Hd & -> & Hlt); [|by vm_compute].
  apply dec_val_nonneg in Hd. unfold is_u64. lia.
Qed.

(** An index the source checked against [count] and narrowed to a byte. *)
Lemma take_index_spec v count i :
  take_index v count = Ok i -> exists n, idx_json_as_u64 v = Ok n /\ 0 <= n < count /\ i = u8 n /\ 0 <= i < count.
Proof.
  unfold take_index. destruct (idx_json_as_u64 v) as [n|] eqn:E; [|done]. simpl.
  destruct (count <=? n) eqn:Hc; [done|]. intros [= <-]. apply as_u64_range in E as Hn. unfold is_u64 in Hn.
  exists n. pose proof (u8_le n). split_and!; auto; lia.
Qed.

(** ** What a decoded transaction satisfies *)

Definition index_ok (count i : Z) : Prop := 0 <= i < count.

Definition instruction_ok (count : Z) (ix : idx_instruction) : Prop :=
  index_ok count (program_id_index ix) /\ Forall (index_ok count) (account_indices ix) /\
  0 <= stack_height ix <= 65535.

Definition group_ok (count : Z) (g : idx_inner_instructions) : Prop :=
  0 <= inner_index g <= 255 /\ Forall (instruction_ok count) (inner_instructions_of g).

Definition token_balance_ok (count : Z) (b : idx_token_balance) : Prop :=
  index_ok count (tb_account_index b) /\ is_u64 (tb_amount b) /\ 0 <= tb_decimals b <= 255.

Definition tx_ok (tx : idx_transaction) : Prop :=
  let count := size (accounts tx) in
  Forall (instruction_ok count) (instructions tx) /\
  Forall (group_ok count) (inner_instructions tx) /\
  Forall (token_balance_ok count) (pre_token_balances tx) /\
  Forall (token_balance_ok count) (post_token_balances tx) /\
  length (pre_balances tx) = length (post_balances tx) /\
  (pre_balances tx = [] \/ length (pre_balances tx) = length (accounts tx)).

(** The flags the header gives account number [i]. *)
Definition flags_ok (sigs ro_signed ro_unsigned : Z) (static_count i : nat) (x : idx_account) : Prop :=
  is_signer x = (Z.of_nat i <? sigs) && (i <? static_count)%nat /\
  from_lookup_table x = negb (i <? static_count)%nat /\
  ((i < static_count)%nat ->
   is_writable x = if Z.of_nat i <? sigs then Z.of_nat i <? sigs - ro_signed
                   else Z.of_nat i <? Z.of_nat static_count - ro_unsigned).

(** What [resolve_accounts] returns: the static keys first with the header's
    flags, then the loaded addresses, writable before readonly. *)
Definition accounts_ok (sigs ro_signed ro_unsigned : Z) (r : list idx_account * nat) : Prop :=
  (r.2 <= length r.1)%nat /\ sigs <= Z.of_nat r.2 /\ ro_signed <= sigs /\ ro_unsigned <= Z.of_nat r.2 - sigs /\
  (forall i x, r.1 !! i = Some x -> flags_ok sigs ro_signed ro_unsigned r.2 i x) /\
  exists w, forall i x, r.1 !! i = Some x -> (r.2 <= i)%nat -> is_writable x = (i <? r.2 + w)%nat.

(** The same of a transaction, whose accounts and header fields these are. *)
Definition tx_accounts_ok (tx : idx_transaction) : Prop :=
  accounts_ok (num_required_signatures tx) (num_readonly_signed tx) (num_readonly_unsigned tx)
    (accounts tx, static_account_count tx).

Section decoded.
Context {A : Type} `{ArenaOps A}.

Lemma resolve_accounts_ok message meta v sigs ro_signed ro_unsigned :
  returns (resolve_accounts (A := A) message meta v sigs ro_signed ro_unsigned)
    (accounts_ok sigs ro_signed ro_unsigned).
Proof.
  unfold resolve_accounts. ret_bind.
  match goal with |- context [idx_json_array_size ?k] => set (n := idx_json_array_size k) end.
  destruct (loaded_addresses meta v) as [lw lr]. ret_bind.
  destruct ((Z.of_nat n <? sigs) || (sigs <? ro_signed) || (Z.of_nat n - sigs <? ro_unsigned)) eqn:Hhead.
  { by apply returns_pure. }
  eapply returns_bind.
  { apply (returns_fill _ (fun i x => flags_ok sigs ro_signed ro_unsigned n i x \/ (n <= i)%nat)).
    intros i. ret_bind. apply returns_ret. destruct (decide (n <= i)%nat) as [|Hi]; [by right|left].
    unfold flags_ok. cbn [is_signer is_writable from_lookup_table].
    rewrite (proj2 (Nat.ltb_lt i n)) by lia. rewrite andb_true_r. done. }
  intros statics [Hn Hst]. eapply returns_bind.
  { apply (returns_fill_all _ (fun x => is_signer x = false /\ is_writable x = true /\ from_lookup_table x = true)).
    intros i. ret_bind. by apply returns_ret. }
  intros ws [Hw Hws]. eapply returns_bind.
  { apply (returns_fill_all _ (fun x => is_signer x = false /\ is_writable x = false /\ from_lookup_table x = true)).
    intros i. ret_bind. by apply returns_ret. }
  intros rs [Hr Hrs]. apply returns_ret. unfold accounts_ok. cbn [fst snd]. rewrite Forall_lookup in Hws, Hrs.
  assert (forall i x, (statics ++ ws ++ rs) !! i = Some x ->
    (i < n)%nat /\ statics !! i = Some x \/ (n <= i)%nat /\ (i < n + length ws)%nat /\ ws !! (i - n)%nat = Some x \/
    (n + length ws <= i)%nat /\ rs !! (i - n - length ws)%nat = Some x) as Hcases.
  { intros i y Hx. apply lookup_app_Some in Hx as [Hx|[Hge Hx]].
    - left. split; [|done]. apply lookup_lt_Some in Hx. lia.
    - rewrite Hn in Hge, Hx. apply lookup_app_Some in Hx as [Hx|[Hge' Hx]]; right; [left|right].
      + apply lookup_lt_Some in Hx as Hlt. split_and!; [done|lia|done].
      + split; [lia|done]. }
  split_and!; [rewrite length_app; lia|lia|lia|lia| |].
  - intros i y Hx. destruct (Hcases i y Hx) as [[Hi Hs]|[(Hi & _ & Hs)|[Hi Hs]]].
    + destruct (Hst i y Hs) as [|]; [done|simpl in *; lia].
    + destruct (Hws _ _ Hs) as (H1 & _ & H3). unfold flags_ok. rewrite H1, H3.
      rewrite (proj2 (Nat.ltb_ge i n)), andb_false_r by lia. split_and!; auto; lia.
    + destruct (Hrs _ _ Hs) as (H1 & _ & H3). unfold flags_ok. rewrite H1, H3.
      rewrite (proj2 (Nat.ltb_ge i n)), andb_false_r by lia. split_and!; auto; lia.
  - exists (length ws). intros i y Hx Hge. destruct (Hcases i y Hx) as [[Hi Hs]|[(_ & Hi & Hs)|[Hi Hs]]]; [lia| |].
    + destruct (Hws _ _ Hs) as (_ & -> & _). symmetry. apply Nat.ltb_lt. lia.
    + destruct (Hrs _ _ Hs) as (_ & -> & _). symmetry. apply Nat.ltb_ge. lia.
Qed.

Lemma decode_instruction_ok source count :
  returns (decode_instruction (A := A) source count) (instruction_ok count).
Proof.
  unfold decode_instruction.
  eapply (returns_bind _ _ is_u64); [apply returns_pure; unfold idx_json_read_u64; intros n; apply as_u64_range|].
  intros p Hp. unfold is_u64 in Hp. destruct (count <=? p) eqn:Hc; [by apply returns_pure|]. ret_bind.
  apply (returns_bind _ _ (Forall (index_ok count))).
  { destruct (0 <? _)%nat; [|by apply returns_ret]. ret_bind.
    eapply returns_impl; [apply (returns_fill_all _ (index_ok count))|by intros ? []].
    intros i. apply returns_pure. intros j Hj. apply take_index_spec in Hj as (? & _ & _ & _ & ?). done. }
  intros indices Hi. ret_bind. ret_bind. apply returns_ret.
  unfold instruction_ok, index_ok. cbn [program_id_index account_indices stack_height].
  pose proof (u8_le p). split_and!; [lia|lia|done|..];
    destruct (idx_json_opt_u64 source (lit "stackHeight")) as [v|] eqn:E; try lia;
    apply opt_u64_range in E; unfold is_u64 in E; destruct (v <=? 65535) eqn:?; lia.
Qed.

Lemma decode_instructions_ok array count :
  returns (decode_instructions (A := A) array count) (Forall (instruction_ok count)).
Proof.
  unfold decode_instructions. destruct (0 <? _)%nat; [|by apply returns_ret]. ret_bind.
  eapply returns_impl; [apply (returns_fill_all _ (instruction_ok count))|by intros ? []].
  intros i. apply decode_instruction_ok.
Qed.

Lemma decode_inner_instructions_ok meta count :
  returns (decode_inner_instructions (A := A) meta count) (Forall (group_ok count)).
Proof.
  unfold decode_inner_instructions. repeat (case_match; try by apply returns_ret). ret_bind.
  eapply returns_impl; [apply (returns_fill_all _ (group_ok count))|by intros ? []].
  intros i. unfold decode_inner_group.
  eapply (returns_bind _ _ (fun x => 0 <= x <= 255)); [apply returns_pure, read_u8_range|].
  intros x Hx. ret_bind. eapply returns_bind; [apply decode_instructions_ok|]. intros xs Hxs.
  by apply returns_ret.
Qed.

Lemma decode_token_balances_ok meta key count :
  returns (decode_token_balances (A := A) meta key count) (Forall (token_balance_ok count)).
Proof.
  unfold decode_token_balances. repeat (case_match; try by apply returns_ret). ret_bind.
  eapply returns_impl; [apply (returns_fill_all _ (token_balance_ok count))|by intros ? []].
  intros i. unfold decode_token_balance.
  eapply (returns_bind _ _ is_u64); [apply returns_pure; unfold idx_json_read_u64; intros n; apply as_u64_range|].
  intros p Hp. unfold is_u64 in Hp. destruct (count <=? p) eqn:Hc; [by apply returns_pure|].
  ret_bind. ret_bind. ret_bind. ret_bind. ret_bind.
  eapply (returns_bind _ _ is_u64); [apply returns_pure, parse_u64_range|]. intros amount Ha.
  eapply (returns_bind _ _ is_u64); [apply returns_pure; unfold idx_json_read_u64; intros n; apply as_u64_range|].
  intros d Hd. unfold is_u64 in Hd. destruct (255 <? d) eqn:?; [by apply returns_pure|]. apply returns_ret.
  pose proof (u8_le p). unfold token_balance_ok, index_ok. simpl. split_and!; [lia|lia|done|lia|lia].
Qed.

Lemma decode_balances_ok meta n :
  returns (decode_balances (A := A) meta n)
    (fun r => length r.1 = length r.2 /\ (r.1 = [] \/ length r.1 = n)).
Proof.
  unfold decode_balances. repeat (case_match; try (by apply returns_pure); try by (apply returns_ret; auto)).
  ret_bind. ret_bind.
  eapply returns_bind; [apply (returns_fill_all _ (fun _ => True)); intros i; apply returns_true|].
  intros xs [Hl _]. apply returns_ret. simpl. rewrite !length_fmap, Hl. split; [done|right].
  rewrite negb_false_iff in *. rewrite !Nat.eqb_eq in *. lia.
Qed.

Lemma decode_transaction_ok entry : returns (decode_transaction (A := A) entry) (fun tx => tx_ok tx /\ tx_accounts_ok tx).
Proof.
  unfold decode_transaction. do 9 ret_bind.
  eapply returns_bind; [apply resolve_accounts_ok|]. intros [accs static] Haccs. ret_bind.
  eapply returns_bind; [apply decode_instructions_ok|]. intros ixs Hixs.
  eapply returns_bind; [apply decode_inner_instructions_ok|]. intros inner Hinner.
  destruct (decode_meta_summary _) as [[? ?] ?].
  eapply returns_bind; [apply decode_balances_ok|]. intros [pre post] Hbal.
  eapply returns_bind; [apply decode_token_balances_ok|]. intros pt Hpt.
  eapply returns_bind; [apply decode_token_balances_ok|]. intros qt Hqt. ret_bind.
  apply returns_ret. unfold tx_ok, tx_accounts_ok. simpl in *. tauto.
Qed.

Lemma idx_block_decode_ok doc slot :
  returns (idx_block_decode (A := A) doc slot)
    (fun b => Forall (fun tx => tx_ok tx /\ tx_accounts_ok tx) (transactions b)).
Proof.
  unfold idx_block_decode. case_match; [by apply returns_pure|]. do 5 ret_bind.
  apply (returns_bind _ _ (Forall (fun tx => tx_ok tx /\ tx_accounts_ok tx))).
  - case_match; [|by apply returns_ret]. ret_bind.
    eapply returns_impl; [apply (returns_fill_all _ (fun tx => tx_ok tx /\ tx_accounts_ok tx))|by intros ? []].
    intros i. apply decode_transaction_ok.
  - intros txs Htxs. by apply returns_ret.
Qed.
End decoded.

Lemma instruction_program_some tx ix :
  instruction_ok (size (accounts tx)) ix -> is_Some (idx_instruction_program_id tx ix).
Proof.
  intros (Hp & _). unfold index_ok, size in Hp. unfold idx_instruction_program_id.
  apply fmap_is_Some, lookup_lt_is_Some. lia.
Qed.

Lemma instruction_account_some tx ix p :
  instruction_ok (size (accounts tx)) ix -> 0 <= p ->
  is_Some (idx_instruction_account tx ix p) <-> p < account_count ix.
Proof.
  intros (_ & Hi & _) Hp. unfold idx_instruction_account, account_count. destruct (size _ <=? p) eqn:Hc.
  - split; [by intros []|lia].
  - split; [lia|]. intros Hlt. apply fmap_is_Some, lookup_lt_is_Some.
    assert (Z.to_nat p < length (account_indices ix))%nat as Hlen by (unfold size in Hlt; lia).
    destruct (lookup_lt_is_Some_2 _ _ Hlen) as [i Hl]. rewrite (list_lookup_total_correct _ _ _ Hl).
    apply Forall_lookup_1 with (1 := Hi) in Hl. unfold index_ok, size in Hl. lia.
Qed.

(** The instructions of a transaction, the outer and the inner ones. *)
Definition has_instruction (tx : idx_transaction) (ix : idx_instruction) : Prop :=
  ix ∈ instructions tx \/ exists g, g ∈ inner_instructions tx /\ ix ∈ inner_instructions_of g.

Lemma has_instruction_ok tx ix :
  tx_ok tx -> has_instruction tx ix -> instruction_ok (size (accounts tx)) ix.
Proof.
  unfold tx_ok. cbv zeta. intros (Ho & Hn & _) [Hx|(g & Hg & Hx)].
  - rewrite Forall_forall in Ho. by apply Ho.
  - rewrite Forall_forall in Hn. destruct (Hn g Hg) as [_ Hin]. rewrite Forall_forall in Hin. by apply Hin.
Qed.

(** ** Properties *)

(** C17. In a decoded block no instruction, outer or inner, can lead the two
    accessors past the accounts of its transaction: the program is always there,
    an account is there exactly for the positions below the instruction's account
    count; token balances name accounts of the transaction, their amounts are
    64-bit, and the lamport balances, when present, are one per account. *)
Theorem block_indices_in_range {A} `{ArenaOps A} doc slot (st : A * heap) b st' :
  idx_block_decode doc slot st = (Ok b, st') ->
  forall tx, tx ∈ transactions b ->
    (forall ix, has_instruction tx ix ->
       is_Some (idx_instruction_program_id tx ix) /\
       forall p, 0 <= p -> is_Some (idx_instruction_account tx ix p) <-> p < account_count ix) /\
    (forall t, t ∈ pre_token_balances tx ++ post_token_balances tx ->
       token_balance_ok (size (accounts tx)) t) /\
    length (pre_balances tx) = length (post_balances tx) /\
    (pre_balances tx = [] \/ length (pre_balances tx) = length (accounts tx)).
Proof.
  intros E tx Htx. apply idx_block_decode_ok in E. rewrite Forall_forall in E.
  destruct (E tx Htx) as [Hok _]. pose proof Hok as (_ & _ & Hpre & Hpost & Hbal). split_and!; [| |tauto..].
  - intros ix Hix. apply (has_instruction_ok tx) in Hix; [|done]. split; [by apply instruction_program_some|].
    intros p. by apply instruction_account_some.
  - intros t. rewrite elem_of_app. rewrite Forall_forall in Hpre. rewrite Forall_forall in Hpost. intros [?|?]; auto.
Qed.

(** The accounts of a decoded transaction carry the roles its header gives:
    the header fits the static keys; exactly the first [num_required_signatures]
    static keys are signers; a signer is writable unless among the last
    [num_readonly_signed] of the signers, another static key unless among the last
    [num_readonly_unsigned]; the loaded addresses come after the static keys, never
    signers, first the writable then the readonly ones. *)
Theorem block_account_flags {A} `{ArenaOps A} doc slot (st : A * heap) b st' :
  idx_block_decode doc slot st = (Ok b, st') ->
  forall tx, tx ∈ transactions b ->
    let sigs := num_required_signatures tx in
    let static := Z.of_nat (static_account_count tx) in
    static <= size (accounts tx) /\ num_readonly_signed tx <= sigs /\ sigs + num_readonly_unsigned tx <= static /\
    exists writable_end, forall i x, accounts tx !! i = Some x ->
      is_signer x = (Z.of_nat i <? sigs) /\
      from_lookup_table x = (static <=? Z.of_nat i) /\
      is_writable x = if Z.of_nat i <? sigs then Z.of_nat i <? sigs - num_readonly_signed tx
                      else if Z.of_nat i <? static then Z.of_nat i <? static - num_readonly_unsigned tx
                      else Z.of_nat i <? writable_end.
Proof.
  intros E tx Htx. apply idx_block_decode_ok in E. rewrite Forall_forall in E.
  destruct (E tx Htx) as [_ (H1 & H2 & H3 & H4 & Hf & w & Hw)]. cbn [fst snd] in *.
  split_and!; [unfold size; lia..|]. exists (Z.of_nat (static_account_count tx + w)). intros i x Hx.
  destruct (Hf i x Hx) as (Hs & Ht & Hwr). rewrite Hs, Ht. clear Hs Ht. split_and!.
  - destruct (Z.of_nat i <? num_required_signatures tx) eqn:Hi; [|done]. simpl. apply Nat.ltb_lt. lia.
  - destruct (Nat.ltb_spec i (static_account_count tx)); simpl; symmetry; [apply Z.leb_gt|apply Z.leb_le]; lia.
  - destruct (Nat.ltb_spec i (static_account_count tx)) as [Hi|Hi].
    + rewrite Hwr by done. by rewrite (proj2 (Z.ltb_lt (Z.of_nat i) (Z.of_nat (static_account_count tx)))) by lia.
    + rewrite (Hw i x) by done. rewrite (proj2 (Z.ltb_ge (Z.of_nat i) (num_required_signatures tx))) by lia.
      rewrite (proj2 (Z.ltb_ge (Z.of_nat i) (Z.of_nat (static_account_count tx)))) by lia.
      destruct (Nat.ltb_spec i (static_account_count tx + w)); symmetry; [apply Z.ltb_lt|apply Z.ltb_ge]; lia.
Qed.

(** A token amount is read exactly: the text must be a non-empty run of
    decimal digits, its value is what they denote, and a value that does not fit 64
    bits is refused, never wrapped.  Every 64-bit number's decimal text reads back
    as the number. *)
Theorem parse_u64_decimal_exact :
  (forall text n, parse_u64_decimal text = Ok n <->
     slice_bytes text <> [] /\ Forall is_digit (slice_bytes text) /\ n = dec_val (slice_bytes text) /\ n < 2 ^ 64) /\
  (forall n, is_u64 n -> parse_u64_decimal (Some (dec n)) = Ok n).
Proof.
  assert (forall text n, parse_u64_decimal text = Ok n <->
     slice_bytes text <> [] /\ Forall is_digit (slice_bytes text) /\ n = dec_val (slice_bytes text) /\ n < 2 ^ 64) as H.
  { intros text n. unfold parse_u64_decimal, slice_len, size. destruct (slice_bytes text) as [|c l]; [by split; [|intros []]|].
    cbn [length]. destruct (Z.of_nat (S (length l)) =? 0) eqn:E; [discriminate E|]. rewrite parse_digits_spec by decide_now.
    rewrite Z.mul_0_l, Z.add_0_l. naive_solver. }
  split; [done|]. intros n Hn. apply H. destruct (dec_ok n Hn) as (H1 & H2 & H3 & _). unfold is_u64 in Hn.
  change (slice_bytes (Some (dec n))) with (dec n). rewrite H2. split_and!; try done; lia.
Qed.

(** With at most 256 accounts an index is stored as the number the document
    has, and it is refused exactly when it is past the accounts.  With more than 256
    the check passes indices the byte does not hold: index 256 is stored as 0, so
    the instruction names another account than the document. *)
Theorem take_index_exact :
  (forall n count, is_u64 n -> count <= 256 ->
     take_index (Some (JUint n)) count = if n <? count then Ok n else Err IDX_ERR_PARSE) /\
  (forall count, 256 < count -> take_index (Some (JUint 256)) count = Ok 0).
Proof.
  split.
  - unfold is_u64. intros n count Hn Hc. unfold take_index. simpl. rewrite u64_small by done.
    destruct (Z.leb_spec count n), (Z.ltb_spec n count); try lia; [done|]. unfold u8. by rewrite Z.mod_small by lia.
  - intros count Hc. unfold take_index. simpl. destruct (Z.leb_spec count (u64 256)) as [Hle|]; [|done].
    rewrite u64_small in Hle by (unfold is_u64; lia). lia.
Qed.

(** ** Witnesses *)

(** A transaction that signs with the first of two static keys and loads one
    writable address; its keys are all the system program's. *)
Definition sample_key : json := JStr (lit "11111111111111111111111111111111").
Definition sample_signature : json :=
  JStr (lit "1111111111111111111111111111111111111111111111111111111111111111").

Definition sample_transaction : json :=
  JObj [(lit "version", JUint 0);
        (lit "transaction", JObj [
           (lit "signatures", JArr [sample_signature]);
           (lit "message", JObj [
              (lit "header", JObj [(lit "numRequiredSignatures", JUint 1);
                                   (lit "numReadonlySignedAccounts", JUint 0);
                                   (lit "numReadonlyUnsignedAccounts", JUint 1)]);
              (lit "recentBlockhash", sample_key);
              (lit "accountKeys", JArr [sample_key; sample_key]);
              (lit "instructions", JArr [JObj [(lit "programIdIndex", JUint 1);
                                               (lit "accounts", JArr [JUint 0; JUint 2]);
                                               (lit "data", JStr (lit "3Bxs"))]])])]);
        (lit "meta", JObj [(lit "err", JNull); (lit "fee", JUint 5000);
           (lit "preBalances", JArr [JUint 9000; JUint 1; JUint 0]);
           (lit "postBalances", JArr [JUint 4000; JUint 1; JUint 0]);
           (lit "loadedAddresses", JObj [(lit "writable", JArr [sample_key]); (lit "readonly", JArr [])])])].

Definition sample_block : json :=
  JObj [(lit "blockhash", sample_key); (lit "parentSlot", JUint 41);
        (lit "transactions", JArr [sample_transaction])].

(** An arena over a page of memory. *)
Definition sample_arena : (idx_arena * sys) * heap := ((idx_arena_init 4096, [Some 65536]), []).

Definition sample_decoded : option idx_block :=
  match idx_block_decode (Some sample_block) 42 sample_arena with
  | (Ok b, _) => Some b
  | _ => None
  end.

Lemma sample_decodes :
  exists b st', idx_block_decode (Some sample_block) 42 sample_arena = (Ok b, st') /\ sample_decoded = Some b.
Proof.
  unfold sample_decoded. destruct (idx_block_decode (Some sample_block) 42 sample_arena) as [[b|s] st'] eqn:E.
  - exists b, st'. split; reflexivity.
  - apply (f_equal (fun r => match r.1 with Ok _ => true | Err _ => false end)) in E. by vm_compute in E.
Qed.

(** The block of the sample, its one transaction and what is known of both. *)
Lemma block_indices_in_range_witness :
  exists b tx, sample_decoded = Some b /\ tx ∈ transactions b /\
    forall ix, has_instruction tx ix -> is_Some (idx_instruction_program_id tx ix).
Proof.
  destruct sample_decodes as (b & st' & E & Hs). 
  assert (exists tx, transactions b = [tx]) as [tx Htx].
  { revert Hs. vm_compute. intros [= <-]. by eexists. }
  exists b, tx. split_and!; [done|rewrite Htx; by left|].
  intros ix Hix. destruct (block_indices_in_range (Some sample_block) 42 sample_arena b st' E tx) as (H & _);
    [rewrite Htx; by left|]. by apply H.
Defined.

Lemma block_account_flags_witness :
  exists b tx, sample_decoded = Some b /\ tx ∈ transactions b /\ length (accounts tx) = 3%nat /\
    num_readonly_signed tx <= num_required_signatures tx.
Proof.
  destruct sample_decodes as (b & st' & E & Hs).
  assert (exists tx, transactions b = [tx] /\ length (accounts tx) = 3%nat) as (tx & Htx & Hl).
  { revert Hs. vm_compute. intros [= <-]. eexists. split; reflexivity. }
  exists b, tx. split_and!; [done|rewrite Htx; by left|done|].
  apply (block_account_flags (Some sample_block) 42 sample_arena b st' E tx). rewrite Htx. by left.
Defined.
