(* ===== verification/Walk.v ===== *)
(** * Walking the instructions of a transaction

    transfer.c and swap.c walk a transaction the same way, each with its own copy of
    [inner_group] and [instruction_total] (the text is the same): every top-level
    instruction, followed by the inner ones it expanded into.  [executed] is that
    order, each instruction with the place a row made of it is stamped with; the two
    walks are folds over it.  There are never more of them than [instruction_total]
    says, and the places increase. *)

From stdpp Require Import sorting.
From S2P Require Import Prelude Bytes Types Block.
#[local] Open Scope Z_scope.

(** Where the walk is: [instruction_index], [inner_index] and [inner]. *)
Record stamp := Stamp { instruction_index : Z; inner_pos : Z; inner : bool }.

(** src/src/transfer.c:376-384 [inner_group] *)
Definition inner_group (tx : idx_transaction) (index : nat) : option idx_inner_instructions :=
  List.find (fun g => inner_index g =? Z.of_nat index) (inner_instructions tx).

(** src/src/transfer.c:388-394 [instruction_total] *)
Definition instruction_total (tx : idx_transaction) : Z :=
  fold_left (fun total g => u64 (total + size (inner_instructions_of g))) (inner_instructions tx)
    (size (instructions tx)).

(** ** The order of execution *)

(** The instructions in the order they executed, each with its place. *)
Fixpoint executed_group (i j : nat) (ixs : list idx_instruction) : list (stamp * idx_instruction) :=
  match ixs with
  | [] => []
  | ix :: ixs' => (Stamp (u16 (Z.of_nat i)) (u16 (Z.of_nat j)) true, ix) :: executed_group i (S j) ixs'
  end.

Definition inner_of (tx : idx_transaction) (i : nat) : list idx_instruction :=
  match inner_group tx i with None => [] | Some g => inner_instructions_of g end.

Fixpoint executed_from (tx : idx_transaction) (i : nat) (ixs : list idx_instruction)
    : list (stamp * idx_instruction) :=
  match ixs with
  | [] => []
  | ix :: ixs' =>
      (Stamp (u16 (Z.of_nat i)) 0 false, ix) :: executed_group i 0 (inner_of tx i) ++ executed_from tx (S i) ixs'
  end.

Definition executed (tx : idx_transaction) : list (stamp * idx_instruction) :=
  executed_from tx 0 (instructions tx).

(** ** How many they are *)

Definition inner_total (gs : list idx_inner_instructions) : nat :=
  sum_list_with (fun g => length (inner_instructions_of g)) gs.

Lemma instruction_total_spec tx :
  Z.of_nat (length (instructions tx) + inner_total (inner_instructions tx)) < 2 ^ 64 ->
  instruction_total tx = Z.of_nat (length (instructions tx) + inner_total (inner_instructions tx)).
Proof.
  unfold instruction_total, size. generalize (length (instructions tx)). induction (inner_instructions tx) as [|g gs IH];
    intros n Hn; simpl in *; [lia|]. unfold inner_total in *. simpl in *.
  rewrite u64_small by (unfold is_u64, size; lia). unfold size.
  rewrite <- Nat2Z.inj_add, IH by lia. lia.
Qed.

(** A list found under one index is counted once. *)
Lemma counted_once (f : nat -> nat) (idx : Z) (w k n : nat) :
  (sum_list_with (fun i => if (idx =? Z.of_nat i)%Z then w else f i) (seq k n) <=
   (if (idx <? Z.of_nat k)%Z then 0 else w) + sum_list_with f (seq k n))%nat.
Proof.
  revert k. induction n as [|n IH]; intros k; simpl; [destruct (_ <? _); lia|]. specialize (IH (S k)).
  destruct (Z.ltb_spec idx (Z.of_nat k)), (Z.eqb_spec idx (Z.of_nat k)), (Z.ltb_spec idx (Z.of_nat (S k))); lia.
Qed.

Lemma inner_of_total gs k n :
  (sum_list_with (fun i => length (match List.find (fun g => (inner_index g =? Z.of_nat i)%Z) gs with
                                   | None => [] | Some g => inner_instructions_of g end)) (seq k n)
   <= inner_total gs)%nat.
Proof.
  induction gs as [|g gs IH]; simpl.
  - assert (forall l, sum_list_with (fun _ : nat => 0%nat) l = 0%nat) as Hz by (induction l; simpl; lia).
    rewrite Hz. unfold inner_total. simpl. lia.
  - unfold inner_total in *. simpl.
    pose proof (counted_once (fun i => length (match List.find (fun g => (inner_index g =? Z.of_nat i)%Z) gs with
                                   | None => [] | Some g => inner_instructions_of g end))
                  (inner_index g) (length (inner_instructions_of g)) k n) as H.
    assert (forall l, sum_list_with (fun i : nat => length (match
                (if inner_index g =? Z.of_nat i then Some g
                 else List.find (fun g0 => inner_index g0 =? Z.of_nat i) gs)
                with Some g0 => inner_instructions_of g0 | None => [] end)) l =
              sum_list_with (fun i : nat => if (inner_index g =? Z.of_nat i)%Z then length (inner_instructions_of g)
                 else length (match List.find (fun g0 => (inner_index g0 =? Z.of_nat i)%Z) gs with
                                   | None => [] | Some g0 => inner_instructions_of g0 end)) l) as ->.
    { induction l as [|i l IHl]; simpl; [done|]. rewrite IHl. by destruct (inner_index g =? Z.of_nat i). }
    destruct (_ <? Z.of_nat k); lia.
Qed.

Lemma executed_group_length i j ixs : length (executed_group i j ixs) = length ixs.
Proof. revert j. induction ixs as [|ix ixs IH]; intros j; simpl; auto. Qed.

Lemma executed_length tx i ixs :
  length (executed_from tx i ixs) =
    (length ixs + sum_list_with (fun i => length (inner_of tx i)) (seq i (length ixs)))%nat.
Proof.
  revert i. induction ixs as [|ix ixs IH]; intros i; simpl; [done|].
  rewrite length_app, IH, executed_group_length. lia.
Qed.

Lemma executed_fits tx :
  (length (executed tx) <= length (instructions tx) + inner_total (inner_instructions tx))%nat.
Proof.
  unfold executed. rewrite executed_length.
  pose proof (inner_of_total (inner_instructions tx) 0 (length (instructions tx))) as H. unfold inner_of, inner_group. lia.
Qed.

(** ** Places *)

(** A place as a number: the top-level instruction, then its inner ones. *)
Definition place (s : stamp) : Z := instruction_index s * 2 ^ 17 + if inner s then 1 + inner_pos s else 0.

Lemma group_places (i j : nat) (ixs : list idx_instruction) :
  Z.of_nat i < 65536 -> Z.of_nat (j + length ixs) <= 65536 ->
  Forall (fun x => Z.of_nat i * 2 ^ 17 + 1 + Z.of_nat j <= place x.1 < Z.of_nat (S i) * 2 ^ 17) (executed_group i j ixs) /\
  StronglySorted Z.lt (map (place ∘ fst) (executed_group i j ixs)).
Proof.
  intros Hi. revert j. induction ixs as [|ix ixs IH]; intros j Hj; cbn [executed_group map]; [split; constructor|].
  cbn [length] in Hj. destruct (IH (S j)) as [H1 H2]; [lia|].
  assert (place (Stamp (u16 (Z.of_nat i)) (u16 (Z.of_nat j)) true) = Z.of_nat i * 2 ^ 17 + 1 + Z.of_nat j) as Hp.
  { unfold place, u16. simpl. rewrite !Z.mod_small by lia. lia. }
  split; constructor.
  - cbn [fst]. rewrite Hp. lia.
  - eapply Forall_impl; [exact H1|]. cbv beta. intros x Hx. lia.
  - done.
  - apply Forall_map. eapply Forall_impl; [exact H1|]. cbv beta. unfold compose. cbn [fst]. rewrite Hp. intros x Hx. lia.
Qed.

Lemma executed_places tx (i : nat) ixs :
  Z.of_nat (i + length ixs) <= 65536 ->
  Forall (fun g => size (inner_instructions_of g) <= 65536) (inner_instructions tx) ->
  Forall (fun x => Z.of_nat i * 2 ^ 17 <= place x.1) (executed_from tx i ixs) /\
  StronglySorted Z.lt (map (place ∘ fst) (executed_from tx i ixs)).
Proof.
  intros Hi Hg. revert i Hi. induction ixs as [|ix ixs IH]; intros i Hi; cbn [executed_from map]; [split; constructor|].
  cbn [length] in Hi. destruct (IH (S i)) as [H1 H2]; [lia|].
  assert (size (inner_of tx i) <= 65536) as Hl.
  { unfold inner_of, inner_group. destruct (List.find _ _) as [g|] eqn:E; [|done].
    apply find_some in E as [E _]. rewrite Forall_forall in Hg. apply Hg. by apply list_elem_of_In. }
  destruct (group_places i 0 (inner_of tx i)) as [G1 G2]; [lia|unfold size in Hl; lia|].
  assert (place (Stamp (u16 (Z.of_nat i)) 0 false) = Z.of_nat i * 2 ^ 17) as Hp.
  { unfold place, u16. simpl. rewrite Z.mod_small by lia. lia. }
  split; constructor.
  - cbn [fst]. lia.
  - apply Forall_app. split; (eapply Forall_impl; [eassumption|]); cbv beta; intros x Hx; lia.
  - rewrite map_app. apply StronglySorted_app. split_and!; [|done|done].
    intros x1 x2 Hx1 Hx2. rewrite list_elem_of_In, in_map_iff in Hx1, Hx2.
    destruct Hx1 as (y1 & <- & Hy1%list_elem_of_In), Hx2 as (y2 & <- & Hy2%list_elem_of_In).
    rewrite Forall_forall in G1, H1. specialize (G1 _ Hy1). specialize (H1 _ Hy2). unfold compose. lia.
  - rewrite map_app. apply Forall_app. split; apply Forall_map;
      (eapply Forall_impl; [eassumption|]); cbv beta; unfold compose; cbn [fst]; rewrite Hp; intros x Hx; lia.
Qed.

Lemma sublist_sorted (l k : list Z) : l `sublist_of` k -> StronglySorted Z.lt k -> StronglySorted Z.lt l.
Proof.
  induction 1 as [|x l k Hs IH|x l k Hs IH]; intros Hk; [done|..]; apply StronglySorted_cons in Hk as [Hx Hk].
  - apply StronglySorted_cons. split; [|auto]. rewrite Forall_forall in *. intros y Hy. apply Hx.
    by eapply elem_of_sublist.
  - auto.
Qed.

(** An instruction's data is bytes in memory. *)
Definition wire_ok (ix : idx_instruction) : Prop :=
  slice_len (ix_data ix) < 2 ^ 64 /\ bytes_ok (slice_bytes (ix_data ix)).

(** What [instruction_total] is when it does not wrap. *)
Definition walk_total (tx : idx_transaction) : Z :=
  Z.of_nat (length (instructions tx) + inner_total (inner_instructions tx)).

(** Whether a transaction has anything to extract from. *)
Definition extractable (tx : idx_transaction) : bool :=
  has_meta tx && success tx && negb (bool_decide (accounts tx = [])).

(** A walk: a step on each instruction with its place, until one fails. *)
Section walk.
Context {B : Type} (step : B -> stamp * idx_instruction -> result B).

Fixpoint run_walk (l : list (stamp * idx_instruction)) (b : B) : result B :=
  match l with
  | [] => Ok b
  | x :: l' => b ← step b x; run_walk l' b
  end.

Lemma run_walk_app l1 l2 b : run_walk (l1 ++ l2) b = (b ← run_walk l1 b; run_walk l2 b).
Proof. revert b. induction l1 as [|x l1 IH]; intros b; simpl; [done|]. destruct (step b x); [apply IH|done]. Qed.

(** An invariant of the part of the sequence walked, and what its failures satisfy. *)
Lemma run_walk_spec (I : list (stamp * idx_instruction) -> B -> Prop) (P : idx_status -> Prop) whole past l b :
  past ++ l = whole -> I past b ->
  (forall past x rest b, past ++ x :: rest = whole -> I past b ->
     match step b x with Ok b' => I (past ++ [x]) b' | Err e => P e end) ->
  match run_walk l b with Ok b' => I whole b' | Err e => P e end.
Proof.
  intros Hw Hb Hstep. revert past b Hw Hb. induction l as [|x l IH]; intros past b Hw Hb; simpl.
  - by rewrite <- Hw, app_nil_r.
  - pose proof (Hstep past x l b Hw Hb) as Hx. destruct (step b x) as [b1|e]; [|done]. simpl.
    apply (IH (past ++ [x])); [by rewrite <- app_assoc|done].
Qed.
End walk.
