(* ===== verification/VoteFilter.v ===== *)
(** * vote_filter.c: which transactions are votes

    Both functions of the file. *)

From S2P Require Import Prelude Bytes Types Block.
#[local] Open Scope Z_scope.

(** src/src/vote_filter.c:3-8 [idx_vote_program_matches] *)
Definition idx_vote_program_matches (program_id : option idx_pubkey) : bool :=
  match program_id with
  | None => false
  | Some id => idx_pubkey_equal id IDX_PROGRAM_VOTE
  end.

(** src/src/vote_filter.c:14-20 [idx_vote_filter_should_drop]: the loop. *)
Fixpoint all_votes (tx : idx_transaction) (l : list idx_instruction) : bool :=
  match l with
  | [] => true
  | ix :: l' =>
      if negb (idx_vote_program_matches (idx_instruction_program_id tx ix)) then false
      else all_votes tx l'
  end.

(** src/src/vote_filter.c:10-22 [idx_vote_filter_should_drop] *)
Definition idx_vote_filter_should_drop (tx : option idx_transaction) : bool :=
  match tx with
  | None => false
  | Some tx => if (length (instructions tx) =? 0)%nat then false else all_votes tx (instructions tx)
  end.

Lemma vote_program_matches id :
  size (pubkey_bytes id) = 32 -> idx_vote_program_matches (Some id) = true <-> id = IDX_PROGRAM_VOTE.
Proof.
  unfold size. intros Hs. simpl. unfold idx_pubkey_equal, memcmp_eq, IDX_PUBKEY_LEN. rewrite bool_decide_eq_true.
  rewrite (take_ge (pubkey_bytes id)) by lia. destruct id as [l]. simpl. split; [by intros ->|by intros [= ->]].
Qed.

Lemma all_votes_spec tx l :
  all_votes tx l = true <->
  Forall (fun ix => idx_vote_program_matches (idx_instruction_program_id tx ix) = true) l.
Proof.
  induction l as [|ix l IH]; simpl; [by split|]. rewrite Forall_cons. destruct (idx_vote_program_matches _); simpl; [|naive_solver].
  rewrite IH. naive_solver.
Qed.

(** Dropped exactly when there is an instruction and every one is the Vote
    program's; the empty transaction is kept. *)
Lemma should_drop_spec tx :
  Forall (fun a => size (pubkey_bytes (acc_pubkey a)) = 32) (accounts tx) ->
  idx_vote_filter_should_drop (Some tx) = true <->
  instructions tx <> [] /\
  Forall (fun ix => idx_instruction_program_id tx ix = Some IDX_PROGRAM_VOTE) (instructions tx).
Proof.
  intros Hk. cbn [idx_vote_filter_should_drop]. destruct (instructions tx) as [|ix l]; [by split; [|intros []]|].
  cbn [length Nat.eqb]. rewrite all_votes_spec. assert (forall ix, idx_vote_program_matches (idx_instruction_program_id tx ix) = true <->
    idx_instruction_program_id tx ix = Some IDX_PROGRAM_VOTE) as Hm.
  { intros ix'. unfold idx_instruction_program_id. destruct (accounts tx !! _) as [a|] eqn:E; [|done].
    simpl. apply Forall_lookup_1 with (1 := Hk) in E. pose proof (vote_program_matches _ E) as H. simpl in H. rewrite H. split; [by intros ->|by intros [= ->]]. }
  setoid_rewrite Hm. by split; [|intros []].
Qed.
