(* ===== verification/SlotCursor.v ===== *)
(** * slot_cursor.c: the indexer's position, and the file it survives in

    Every function of the file.  A disk maps paths to files; a file has the bytes
    the kernel holds and whether they have reached the medium.  [idx_slot_cursor_save]
    is run with the outcome of each of its system calls and leaves, besides its
    status, every disk there was on the way, so that a crash between two calls is one
    of them.  Message texts are not modelled. *)

From S2P Require Import Prelude Bytes Decimal Gaps.
#[local] Open Scope Z_scope.

(** src/src/slot_cursor.c:10-10 [IDX_SLOT_CURSOR_LINE_MAX] *)
Definition IDX_SLOT_CURSOR_LINE_MAX : nat := 256.

(** src/include/slot_cursor.h:46-46 [IDX_SLOT_CURSOR_PATH_MAX] *)
Definition IDX_SLOT_CURSOR_PATH_MAX : Z := 512.

(** src/include/slot_cursor.h:48-61 [idx_slot_cursor]: [path] as the bytes before
    its NUL. *)
Record idx_slot_cursor := SlotCursor {
  last_indexed : Z;
  last_seen : Z;
  start_slot : Z;
  path : bytes
}.

(** src/src/slot_cursor.c:12-20 [idx_slot_cursor_init] *)
Definition idx_slot_cursor_init (start : Z) : idx_slot_cursor :=
  SlotCursor IDX_SLOT_NONE IDX_SLOT_NONE start [].

(** src/src/slot_cursor.c:22-29 [idx_slot_cursor_record_indexed] *)
Definition idx_slot_cursor_record_indexed (c : idx_slot_cursor) (slot : Z) : idx_slot_cursor :=
  if (last_indexed c =? IDX_SLOT_NONE) || (last_indexed c <? slot)
  then SlotCursor slot (last_seen c) (start_slot c) (path c)
  else c.

(** src/src/slot_cursor.c:31-36 [idx_slot_cursor_set_indexed] *)
Definition idx_slot_cursor_set_indexed (c : idx_slot_cursor) (slot : Z) : idx_slot_cursor :=
  SlotCursor slot (last_seen c) (start_slot c) (path c).

(** src/src/slot_cursor.c:38-45 [idx_slot_cursor_observe] *)
Definition idx_slot_cursor_observe (c : idx_slot_cursor) (slot : Z) : idx_slot_cursor :=
  if (last_seen c =? IDX_SLOT_NONE) || (last_seen c <? slot)
  then SlotCursor (last_indexed c) slot (start_slot c) (path c)
  else c.

(** src/src/slot_cursor.c:47-55 [idx_slot_cursor_resume_slot] *)
Definition idx_slot_cursor_resume_slot (c : option idx_slot_cursor) : Z :=
  match c with
  | None => 0
  | Some c => if negb (last_indexed c =? IDX_SLOT_NONE) then u64 (last_indexed c + 1) else start_slot c
  end.

(** ** Reading the file *)

(** The blanks [trim] removes. *)
Definition is_blank (c : Z) : bool := (c =? 32) || (c =? 9) || (c =? 13) || (c =? 10).

Fixpoint trim_left (text : bytes) : bytes :=
  match text with
  | c :: text' => if is_blank c then trim_left text' else text
  | [] => []
  end.

(** src/src/slot_cursor.c:58-71 [trim] *)
Definition trim (text : bytes) : bytes := rev (trim_left (rev (trim_left text))).

(** A C string: what stands before the first NUL. *)
Definition cstr (l : bytes) : bytes := take (strlen l) l.

(** [strchr(text, c)]: the text before the first [c], and from it on. *)
Fixpoint split_at (c : Z) (text : bytes) : option (bytes * bytes) :=
  match text with
  | [] => None
  | x :: text' =>
      if x =? c then Some ([], text)
      else match split_at c text' with Some (a, b) => Some (x :: a, b) | None => None end
  end.

(** [strchr(text, c) != NULL] *)
Definition has_char (c : Z) (text : bytes) : bool :=
  match split_at c text with Some _ => true | None => false end.

(** [isspace], which [strtoull] skips. *)
Definition is_space (c : Z) : bool := (c =? 32) || ((9 <=? c) && (c <=? 13)).

Fixpoint skip_spaces (text : bytes) : bytes :=
  match text with
  | c :: text' => if is_space c then skip_spaces text' else text
  | [] => []
  end.

(** The digits in front of a text, and the rest. *)
Fixpoint span_digits (text : bytes) : bytes * bytes :=
  match text with
  | c :: text' => if bool_decide (is_digit c) then let '(d, r) := span_digits text' in (c :: d, r) else ([], text)
  | [] => ([], [])
  end.

(** [strtoull(value, &end, 10)] of a text without [-]: the number (saturated),
    [errno == ERANGE], and where [end] points; no digits leave [end] at [value]. *)
Definition strtoull (value : bytes) : Z * bool * bytes :=
  let text := skip_spaces value in
  let text := match text with c :: text' => if c =? 43 then text' else text | [] => [] end in
  let '(digits, rest) := span_digits text in
  match digits with
  | [] => (0, false, value)
  | _ => if SIZE_MAX <? dec_val digits then (SIZE_MAX, true, rest) else (dec_val digits, false, rest)
  end.

(** src/src/slot_cursor.c:73-102 [parse_slot] *)
Definition parse_slot (value : bytes) : result Z :=
  match value with
  | [] => IDX_FAIL IDX_ERR_PARSE
  | _ =>
      if has_char 45 value then IDX_FAIL IDX_ERR_RANGE
      else
        let '(parsed, erange, rest) := strtoull value in
        if erange || (parsed =? IDX_SLOT_NONE) then IDX_FAIL IDX_ERR_RANGE
        else if bool_decide (rest = value) || negb (bool_decide (rest = [])) then IDX_FAIL IDX_ERR_PARSE
        else Ok parsed
  end.

(** [fgets(line, 256, file)] on what is left of the file: the line and what
    follows, or the end; the flag is [feof]. *)
Fixpoint fgets_loop (room : nat) (left : bytes) : bytes * bytes * bool :=
  match room with
  | O => ([], left, false)
  | S room' =>
      match left with
      | [] => ([], [], true)
      | c :: left' =>
          if c =? 10 then ([c], left', false)
          else let '(line, rest, eof) := fgets_loop room' left' in (c :: line, rest, eof)
      end
  end.

Definition fgets (left : bytes) : option (bytes * bytes * bool) :=
  match left with
  | [] => None
  | _ => Some (fgets_loop (IDX_SLOT_CURSOR_LINE_MAX - 1) left)
  end.

(** src/src/slot_cursor.c:132-167 [idx_slot_cursor_load]: one round of the loop,
    on the line read and [feof]; the new [last_indexed]. *)
Definition load_line (line : bytes) (eof : bool) (last : Z) : result Z :=
  let line := cstr line in
  if negb (has_char 10 line) && negb eof then IDX_FAIL IDX_ERR_PARSE
  else
    let line := match split_at 35 line with Some (a, _) => a | None => line end in
    match trim line with
    | [] => Ok last
    | content =>
        match split_at 61 content with
        | None => IDX_FAIL IDX_ERR_PARSE
        | Some (before, after) =>
            let key := trim before in
            let value := trim (tail after) in
            if bool_decide (key = lit "last_indexed") then parse_slot value
            else IDX_FAIL IDX_ERR_PARSE
        end
    end.

(** src/src/slot_cursor.c:129-168 [idx_slot_cursor_load]: the loop; a line takes at
    least one byte, so the length of the file is enough fuel.  [None] is fuel. *)
Fixpoint load_lines (fuel : nat) (left : bytes) (last : Z) : option (result Z) :=
  match fgets left with
  | None => Some (Ok last)
  | Some (line, rest, eof) =>
      match fuel with
      | O => None
      | S fuel' =>
          match load_line line eof last with
          | Ok last' => load_lines fuel' rest last'
          | Err s => Some (Err s)
          end
      end
  end.

(** ** The disk *)

(** A file: its bytes, and whether they are on the medium. *)
Record file := File { content : bytes; synced : bool }.
Abbreviation disk := (gmap bytes file).

(** How opening and reading a file go: [errno] at a failed [fopen], and the number
    of bytes after which reading fails, if it does. *)
Record read_env := ReadEnv { can_read : bool; ferror : bool }.

(** src/src/slot_cursor.c:104-183 [idx_slot_cursor_load]: the status and the new
    [last_indexed]. *)
Definition idx_slot_cursor_load (d : disk) (p : bytes) (env : read_env) (c : idx_slot_cursor)
    : result unit * idx_slot_cursor :=
  match d !! p with
  | None => (IDX_FAIL IDX_ERR_NOT_FOUND, c)
  | Some f =>
      if negb (can_read env) then (IDX_FAIL IDX_ERR_IO, c)
      else
        match default (Ok IDX_SLOT_NONE) (load_lines (length (content f)) (content f) IDX_SLOT_NONE) with
        | Err s => (Err s, c)
        | Ok last =>
            if ferror env then (IDX_FAIL IDX_ERR_IO, c)
            else (Ok tt, SlotCursor last (last_seen c) (start_slot c) (path c))
        end
  end.

(** src/src/slot_cursor.c:185-211 [idx_slot_cursor_open] *)
Definition idx_slot_cursor_open (d : disk) (p : option bytes) (start : Z) (env : read_env)
    : result unit * idx_slot_cursor :=
  let c := idx_slot_cursor_init start in
  match p with
  | None | Some [] => (Ok tt, c)
  | Some p =>
      if IDX_SLOT_CURSOR_PATH_MAX <=? size p then (IDX_FAIL IDX_ERR_RANGE, c)
      else
        match idx_slot_cursor_load d p env (SlotCursor (last_indexed c) (last_seen c) start p) with
        | (Err IDX_ERR_NOT_FOUND, c') => (Ok tt, c')
        | r => r
        end
  end.

(** Whether each system call of a save succeeds. *)
Record save_env := SaveEnv {
  fopen_ok : bool;
  fputs_ok : bool;
  fprintf_ok : bool;
  fflush_ok : bool;
  fsync_ok : bool;
  fclose_ok : bool;
  rename_ok : bool
}.

Definition cursor_header : bytes := lit "# solana_c_indexer slot cursor" ++ [10].

(** The line [last_indexed = %llu]. *)
Definition cursor_line (slot : Z) : bytes := lit "last_indexed = " ++ dec slot ++ [10].

Definition put (p : bytes) (l : bytes) (on_disk : bool) (d : disk) : disk := <[p := File l on_disk]> d.

(** src/src/slot_cursor.c:231-247 [idx_slot_cursor_save]: writing the temporary file
    once it is open and empty; whether all went well, and the disks there were, the
    last one first.  The text stays in the stream's buffer until it is flushed, and
    closing flushes what is left. *)
Definition save_write (c : idx_slot_cursor) (tmp : bytes) (env : save_env) (d1 : disk)
    : bool * list disk :=
  let ok := fputs_ok env in
  let text := if ok then cursor_header else [] in
  let '(ok, text) :=
    if ok && negb (last_indexed c =? IDX_SLOT_NONE)
    then (fprintf_ok env, if fprintf_ok env then text ++ cursor_line (last_indexed c) else text)
    else (ok, text) in
  let '(ok, states) :=
    if ok && fflush_ok env then
      let d2 := put tmp text false d1 in
      if fsync_ok env then (true, [put tmp text true d2; d2; d1]) else (false, [d2; d1])
    else (false, [d1]) in
  let states := if fclose_ok env && negb ok then put tmp text false d1 :: states else states in
  (ok && fclose_ok env, states).

(** src/src/slot_cursor.c:213-264 [idx_slot_cursor_save]: the status, the disk it
    leaves, and every disk on the way, the last one first. *)
Definition idx_slot_cursor_save (c : idx_slot_cursor) (env : save_env) (d0 : disk)
    : result unit * disk * list disk :=
  match path c with
  | [] => (Ok tt, d0, [d0])
  | p =>
      let tmp := p ++ lit ".tmp" in
      if (IDX_SLOT_CURSOR_PATH_MAX + 8) <=? size tmp then (IDX_FAIL IDX_ERR_RANGE, d0, [d0])
      else if negb (fopen_ok env) then (IDX_FAIL IDX_ERR_IO, d0, [d0])
      else
        let '(ok, states) := save_write c tmp env (put tmp [] false d0) in
        let d := hd d0 states in
        if negb ok || negb (rename_ok env)
        then (IDX_FAIL IDX_ERR_IO, delete tmp d, delete tmp d :: states ++ [d0])
        else
          let renamed := match d !! tmp with Some f => <[p := f]> (delete tmp d) | None => d end in
          (Ok tt, renamed, renamed :: states ++ [d0])
  end.

(** What a crash may leave of a disk: the files there were, those on the medium
    with their bytes, any other with any bytes. *)
Definition crash (d d' : disk) : Prop :=
  forall p, match d !! p, d' !! p with
            | Some f, Some f' => synced f = true -> content f' = content f
            | None, None => True
            | _, _ => False
            end.

(** ** Lemmas on text *)

Lemma split_at_none c l : Forall (fun x => x <> c) l -> split_at c l = None.
Proof. induction 1 as [|x l Hx Hl IH]; simpl; [done|]. by rewrite (proj2 (Z.eqb_neq _ _) Hx), IH. Qed.

Lemma split_at_app c l1 l2 : Forall (fun x => x <> c) l1 -> split_at c (l1 ++ c :: l2) = Some (l1, c :: l2).
Proof.
  induction 1 as [|x l Hx Hl IH]; simpl; [by rewrite Z.eqb_refl|]. by rewrite (proj2 (Z.eqb_neq _ _) Hx), IH.
Qed.

Lemma cstr_id l : Forall (fun x => x <> 0) l -> cstr l = l.
Proof.
  unfold cstr. induction 1 as [|x l Hx Hl IH]; [done|]. cbn [strlen]. rewrite (proj2 (Z.eqb_neq _ _) Hx). simpl. by rewrite IH.
Qed.

Lemma fgets_loop_line room l left :
  Forall (fun x => x <> 10) l -> (length l < room)%nat -> fgets_loop room (l ++ 10 :: left) = (l ++ [10], left, false).
Proof.
  intros Hl. revert room. induction Hl as [|x l Hx Hl IH]; intros [|room] Hroom; simpl in *; try lia; [done|].
  rewrite (proj2 (Z.eqb_neq _ _) Hx), IH by lia. done.
Qed.

Lemma digits_not c l : Forall is_digit l -> c < 48 \/ 57 < c -> Forall (fun x => x <> c) l.
Proof. intros Hl Hc. eapply Forall_impl; [exact Hl|]. unfold is_digit. intros x. lia. Qed.

Lemma trim_left_digits l : Forall is_digit l -> trim_left l = l.
Proof.
  destruct 1 as [|x l Hx Hl]; simpl; [done|]. unfold is_blank. unfold is_digit in Hx.
  by rewrite !(proj2 (Z.eqb_neq _ _)) by lia.
Qed.

(** A text with no blank at either end. *)
Definition tight (l : bytes) : Prop := l <> [] /\ trim_left l = l /\ trim_left (rev l) = rev l.

Lemma trim_left_app a l : Forall (fun c => is_blank c = true) a -> trim_left (a ++ l) = trim_left l.
Proof. induction 1 as [|c a Hc Ha IH]; simpl; [done|]. by rewrite Hc. Qed.

Lemma trim_left_keep l b : l <> [] -> trim_left l = l -> trim_left (l ++ b) = l ++ b.
Proof.
  destruct l as [|c l]; [done|]. intros _. simpl. destruct (is_blank c); [|done]. intros H.
  assert (length (trim_left l) <= length l)%nat as Hlen; [|rewrite H in Hlen; simpl in Hlen; lia].
  clear. induction l as [|c l IH]; simpl; [lia|]. destruct (is_blank c); simpl; lia.
Qed.

Lemma trim_tight a l b :
  Forall (fun c => is_blank c = true) a -> Forall (fun c => is_blank c = true) b -> tight l -> trim (a ++ l ++ b) = l.
Proof.
  intros Ha Hb (Hne & Hl & Hr). unfold trim. rewrite trim_left_app, trim_left_keep by done.
  rewrite rev_app_distr, trim_left_app by (by apply Forall_rev). by rewrite Hr, rev_involutive.
Qed.

Lemma tight_digits p l :
  Forall is_digit l -> l <> [] -> trim_left (p ++ l) = p ++ l -> tight (p ++ l).
Proof.
  intros Hl Hne Hp. split; [by destruct p|]. split; [done|]. rewrite rev_app_distr. apply trim_left_keep.
  - intros E. apply (f_equal (@rev Z)) in E. by rewrite rev_involutive in E.
  - apply trim_left_digits. by apply Forall_rev.
Qed.

Lemma span_digits_all l : Forall is_digit l -> span_digits l = (l, []).
Proof. induction 1 as [|x l Hx Hl IH]; simpl; [done|]. by rewrite bool_decide_eq_true_2, IH. Qed.

(** A slot's decimal text is the slot. *)
Lemma parse_slot_dec n : is_u64 n -> n <> IDX_SLOT_NONE -> parse_slot (dec n) = Ok n.
Proof.
  intros Hn Hnone. destruct (dec_ok n Hn) as (Hd & Hv & Hne & _). unfold parse_slot.
  assert (split_at 45 (dec n) = None) as E by (apply split_at_none, digits_not; [done|lia]).
  assert (strtoull (dec n) = (n, false, [])) as Es.
  { unfold strtoull. assert (skip_spaces (dec n) = dec n) as ->.
    { destruct Hd as [|x l Hx Hl]; [done|]. simpl. unfold is_space, is_digit in *.
      rewrite (proj2 (Z.eqb_neq _ _)) by lia. by rewrite (proj2 (Z.leb_gt x 13)), andb_false_r by lia. }
    assert (match dec n with c :: text' => if c =? 43 then text' else dec n | [] => [] end = dec n) as ->.
    { destruct Hd as [|x l Hx Hl]; [done|]. unfold is_digit in Hx. by rewrite (proj2 (Z.eqb_neq _ _)) by lia. }
    rewrite span_digits_all by done. destruct (dec n) as [|x l] eqn:El; [done|]. rewrite Hv.
    unfold is_u64 in Hn. by rewrite (proj2 (Z.ltb_ge _ _)) by (unfold SIZE_MAX; lia). }
  unfold has_char. destruct (dec n) as [|x l] eqn:El; [done|]. rewrite E, Es. simpl orb.
  by rewrite (proj2 (Z.eqb_neq _ _) Hnone).
Qed.

Lemma load_cursor_line n last : is_u64 n -> n <> IDX_SLOT_NONE -> load_line (cursor_line n) false last = Ok n.
Proof.
  intros Hn Hnone. destruct (dec_ok n Hn) as (Hd & Hv & Hne & _).
  assert (forall c, c < 48 \/ 57 < c -> Forall (fun x => x <> c) (lit "last_indexed = ") ->
            Forall (fun x => x <> c) (lit "last_indexed = " ++ dec n)) as Hno.
  { intros c Hc Hp. apply Forall_app. split; [done|]. by apply digits_not. }
  unfold load_line, cursor_line. rewrite cstr_id.
  2: { rewrite app_assoc. apply Forall_app. split; [apply Hno; [lia|decide_now]|by repeat constructor]. }
  assert (has_char 10 (lit "last_indexed = " ++ dec n ++ [10]) = true) as ->.
  { unfold has_char. rewrite app_assoc, split_at_app; [done|]. apply Hno; [lia|decide_now]. }
  rewrite (split_at_none 35).
  2: { rewrite app_assoc. apply Forall_app. split; [apply Hno; [lia|decide_now]|by repeat constructor]. }
  assert (trim (lit "last_indexed = " ++ dec n ++ [10]) = lit "last_indexed = " ++ dec n) as ->.
  { pose proof (trim_tight [] (lit "last_indexed = " ++ dec n) [10]) as H. cbn [app] in H. rewrite <- app_assoc in H. apply H.
    - constructor.
    - by repeat constructor.
    - by apply tight_digits. }
  change (lit "last_indexed = ") with (lit "last_indexed " ++ [61; 32]). rewrite <- app_assoc. cbn [app lit].
  match goal with |- context [split_at 61 ?l] =>
    change l with (lit "last_indexed " ++ 61 :: 32 :: dec n) end.
  rewrite split_at_app by decide_now. cbn [tail].
  change (bool_decide (trim (lit "last_indexed ") = lit "last_indexed")) with true. cbv iota.
  assert (trim (32 :: dec n) = dec n) as ->.
  { pose proof (trim_tight [32] (dec n) []) as H. rewrite app_nil_r in H. apply H; [by repeat constructor|constructor|].
    apply (tight_digits []); [done|done|]. by apply trim_left_digits. }
  by apply parse_slot_dec.
Qed.

Lemma load_saved n last :
  is_u64 n -> n <> IDX_SLOT_NONE -> 
  load_lines (length (cursor_header ++ cursor_line n)) (cursor_header ++ cursor_line n) last = Some (Ok n).
Proof.
  intros Hn Hnone. destruct (dec_ok n Hn) as (Hd & Hv & Hne & Hlen).
  assert (load_line cursor_header false last = Ok last) as H1 by reflexivity.
  assert (fgets (cursor_header ++ cursor_line n) = Some (cursor_header, cursor_line n, false)) as F1.
  { unfold fgets, cursor_header. rewrite <- app_assoc. cbn [app].
    change (lit "# solana_c_indexer slot cursor" ++ 10 :: cursor_line n) with (lit "# solana_c_indexer slot cursor" ++ 10 :: cursor_line n).
    destruct (lit "# solana_c_indexer slot cursor" ++ 10 :: cursor_line n) as [|x l] eqn:E; [done|]. rewrite <- E.
    by rewrite fgets_loop_line; [|decide_now|simpl; lia]. }
  assert (fgets (cursor_line n) = Some (cursor_line n, [], false)) as F2.
  { unfold fgets, cursor_line. destruct (lit "last_indexed = " ++ dec n ++ [10]) as [|x l] eqn:E; [by destruct (dec n)|]. rewrite <- E.
    rewrite app_assoc. rewrite fgets_loop_line.
    - by rewrite <- app_assoc.
    - apply Forall_app. split; [decide_now|]. apply digits_not; [done|lia].
    - rewrite length_app. unfold size in Hlen. simpl. lia. }
  assert (exists k, length (cursor_header ++ cursor_line n) = S (S k)) as [k ->] by (eexists; reflexivity).
  cbn [load_lines]. rewrite F1, H1. cbn [load_lines]. rewrite F2, load_cursor_line by done.
  destruct k; reflexivity.
Qed.

(** ** What a save does to the disk *)

(** The text a save writes. *)
Definition saved_text (c : idx_slot_cursor) : bytes :=
  cursor_header ++ (if last_indexed c =? IDX_SLOT_NONE then [] else cursor_line (last_indexed c)).

Lemma tmp_ne (p : bytes) : p ++ lit ".tmp" <> p.
Proof. intros E. apply (f_equal length) in E. rewrite length_app in E. simpl in E. lia. Qed.

(** At the cursor's path there is the old file until the complete new one is. *)
Definition old_or_new (c : idx_slot_cursor) (d x : disk) : Prop :=
  x !! path c = d !! path c \/ x !! path c = Some (File (saved_text c) true).

(** Writing touches no file but the temporary one, which in the end holds the text
    and is on the medium. *)
Lemma save_write_spec c tmp env d0 ok states :
  save_write c tmp env (put tmp [] false d0) = (ok, states) ->
  Forall (fun x => forall q, q <> tmp -> x !! q = d0 !! q) states /\
  (ok = true -> hd d0 states !! tmp = Some (File (saved_text c) true)).
Proof.
  unfold save_write, saved_text, put. set (line := cursor_line (last_indexed c)). set (header := cursor_header).
  clearbody line header. destruct (fputs_ok env), (fprintf_ok env), (fflush_ok env), (fsync_ok env), (fclose_ok env),
    (last_indexed c =? IDX_SLOT_NONE); cbn [andb negb]; intros [= <- <-];
  (split; [repeat constructor; intros q Hq; rewrite ?lookup_insert_ne by done; done|]);
  intros Hok; try done; cbn [hd]; rewrite lookup_insert_eq, ?app_nil_r; done.
Qed.

Lemma save_states c env d r d' trace :
  path c <> [] -> idx_slot_cursor_save c env d = (r, d', trace) ->
  Forall (old_or_new c d) (d' :: trace) /\
  (r = Ok tt -> d' !! path c = Some (File (saved_text c) true)) /\
  (r <> Ok tt -> d' !! path c = d !! path c).
Proof.
  intros Hp. unfold idx_slot_cursor_save, old_or_new. pose proof (tmp_ne (path c)) as Hne.
  destruct (path c) as [|x0 p0] eqn:Ep; [done|]. rewrite <- Ep in *. clear Hp.
  set (tmp := path c ++ lit ".tmp") in *. clearbody tmp.
  destruct (_ <=? _); [intros [= <- <- <-]; split_and!; [repeat apply Forall_cons_2; auto|done..]|].
  destruct (negb (fopen_ok env)); [intros [= <- <- <-]; split_and!; [repeat apply Forall_cons_2; auto|done..]|].
  destruct (save_write c tmp env (put tmp [] false d)) as [ok states] eqn:E. apply save_write_spec in E as [Hall Hok].
  assert (forall q, q <> tmp -> hd d states !! q = d !! q) as Hhd by (intros q Hq; destruct Hall; [done|auto]).
  assert (Forall (fun x => x !! path c = d !! path c \/ x !! path c = Some (File (saved_text c) true)) (states ++ [d])) as Hst.
  { apply Forall_app. split; [|apply Forall_cons_2; auto]. eapply Forall_impl; [exact Hall|]. intros x Hx. left. by apply Hx. }
  destruct (negb ok || negb (rename_ok env)) eqn:Hb; intros [= <- <- <-].
  - assert (delete tmp (hd d states) !! path c = d !! path c) as Hd by (rewrite lookup_delete_ne by done; by apply Hhd).
    split_and!; [repeat apply Forall_cons_2; auto|done|done].
  - apply orb_false_iff in Hb as [Hb _]. apply negb_false_iff in Hb. rewrite (Hok Hb).
    assert (<[path c := File (saved_text c) true]> (delete tmp (hd d states)) !! path c = Some (File (saved_text c) true)) as Hd
      by apply lookup_insert_eq.
    split_and!; [repeat apply Forall_cons_2; auto|done|done].
Qed.

(** The text saved loads back. *)
Lemma load_text c last :
  is_u64 (last_indexed c) ->
  load_lines (length (saved_text c)) (saved_text c) IDX_SLOT_NONE = Some (Ok last) -> last = last_indexed c.
Proof.
  intros Hu. unfold saved_text. destruct (Z.eqb_spec (last_indexed c) IDX_SLOT_NONE) as [E|E].
  - rewrite E. vm_compute. by intros [= <-].
  - rewrite load_saved by done. by intros [= <-].
Qed.

Lemma load_text_ok c :
  is_u64 (last_indexed c) ->
  load_lines (length (saved_text c)) (saved_text c) IDX_SLOT_NONE = Some (Ok (last_indexed c)).
Proof.
  intros Hu. unfold saved_text. destruct (Z.eqb_spec (last_indexed c) IDX_SLOT_NONE) as [E|E]; [|by apply load_saved].
  rewrite E. reflexivity.
Qed.

(** Any file ends, so the fuel of the load is enough. *)
Lemma fgets_loop_length room l :
  let '(line, more, eof) := fgets_loop room l in (length line + length more = length l)%nat /\ (room <> O -> l <> [] -> line <> []).
Proof.
  revert l. induction room as [|room IH]; intros [|c l]; simpl; [done..|].
  destruct (c =? 10); [done|]. specialize (IH l). destruct (fgets_loop room l) as [[line more] eof]. destruct IH as [H _].
  simpl. split; [lia|done].
Qed.

Lemma load_lines_total fuel l last : (length l <= fuel)%nat -> is_Some (load_lines fuel l last).
Proof.
  revert l last. induction fuel as [|fuel IH]; intros l last Hl.
  - destruct l; [by eexists|simpl in Hl; lia].
  - cbn [load_lines]. unfold fgets. destruct l as [|c l]; [by eexists|].
    pose proof (fgets_loop_length (IDX_SLOT_CURSOR_LINE_MAX - 1) (c :: l)) as H.
    destruct (fgets_loop _ _) as [[line more] eof]. destruct H as [H1 H2]. destruct (load_line line eof last); [|by eexists].
    apply IH. destruct line; [by destruct H2|]. simpl in *. lia.
Qed.

(** What a good read of a file gives. *)
Definition reads_as (d : disk) (p : bytes) : option (result Z) :=
  f ← d !! p; load_lines (length (content f)) (content f) IDX_SLOT_NONE.

Definition good_read : read_env := ReadEnv true false.

(** A save whose calls all succeed. *)
Lemma save_succeeds c d :
  path c <> [] -> size (path c) < IDX_SLOT_CURSOR_PATH_MAX ->
  exists d' trace, idx_slot_cursor_save c (SaveEnv true true true true true true true) d = (Ok tt, d', trace).
Proof.
  intros Hp Hsz. unfold idx_slot_cursor_save. destruct (path c) as [|x p] eqn:Ep; [done|]. rewrite <- Ep in *.
  rewrite (proj2 (Z.leb_gt _ _)).
  - unfold save_write. cbn [fopen_ok fputs_ok fprintf_ok fflush_ok fsync_ok fclose_ok rename_ok andb negb].
    destruct (last_indexed c =? IDX_SLOT_NONE); cbn [andb negb orb]; eauto.
  - unfold size in *. rewrite length_app. simpl. unfold IDX_SLOT_CURSOR_PATH_MAX in *. lia.
Qed.

(** Opening what a successful save left. *)
Lemma save_then_open c env d r d' trace start :
  path c <> [] -> size (path c) < IDX_SLOT_CURSOR_PATH_MAX -> is_u64 (last_indexed c) ->
  idx_slot_cursor_save c env d = (r, d', trace) -> r = Ok tt ->
  exists c', idx_slot_cursor_open d' (Some (path c)) start good_read = (Ok tt, c') /\
    last_indexed c' = last_indexed c /\ path c' = path c /\
    idx_slot_cursor_resume_slot (Some c') = if last_indexed c =? IDX_SLOT_NONE then start else last_indexed c + 1.
Proof.
  intros Hp Hsz Hu Hs Hr. apply save_states in Hs as (_ & Hok & _); [|done].
  exists (SlotCursor (last_indexed c) IDX_SLOT_NONE start (path c)).
  unfold idx_slot_cursor_open. destruct (path c) as [|x p] eqn:Ep; [done|]. rewrite <- Ep in *.
  rewrite (proj2 (Z.leb_gt _ _)) by done. unfold idx_slot_cursor_load. rewrite (Hok Hr). cbn [can_read good_read negb content].
  rewrite load_text_ok by done. cbn [default ferror good_read id]. split_and!; [done..|].
  unfold idx_slot_cursor_resume_slot. cbn [last_indexed start_slot]. destruct (Z.eqb_spec (last_indexed c) IDX_SLOT_NONE) as [E|E]; [done|].
  simpl. apply u64_small. unfold is_u64, IDX_SLOT_NONE in *. lia.
Qed.

(** Nothing is outstanding at or below the watermark. *)
Lemma watermark_below g highest :
  gaps_sound g -> is_u64 highest -> idx_gaps_watermark (Some g) highest <> IDX_SLOT_NONE ->
  is_u64 (idx_gaps_watermark (Some g) highest) /\
  forall s, outstanding (ranges g) s -> idx_gaps_watermark (Some g) highest < s.
Proof.
  intros Hg Hh. assert (0 <= highest <= IDX_SLOT_NONE) as Hr by (unfold is_u64, IDX_SLOT_NONE in *; lia).
  pose proof (watermark_spec g highest Hg Hr) as (H1 & _). intros Hne. destruct (H1 Hne) as [Hle Hno]. split.
  - destruct Hg as [Hv _]. pose proof (watermark_range g highest Hv Hr). unfold is_u64, IDX_SLOT_NONE in *. lia.
  - intros s Hs. destruct (decide (s <= idx_gaps_watermark (Some g) highest)) as [Hc|]; [|lia]. by apply Hno in Hc.
Qed.

(** ** Properties *)

(** C13. A save cannot corrupt the position.  Whichever of its system calls fail,
    and at whatever moment the machine crashes (files not yet on the medium then
    holding anything), the cursor file afterwards is either the one there was before,
    byte for byte, or the complete new one. *)
Theorem cursor_save_crash_safe c env d r d' trace moment survived :
  path c <> [] -> (forall f, d !! path c = Some f -> synced f = true) ->
  idx_slot_cursor_save c env d = (r, d', trace) -> moment ∈ trace -> crash moment survived ->
  content <$> survived !! path c = content <$> d !! path c \/
  content <$> survived !! path c = Some (saved_text c).
Proof.
  intros Hp Hold Hs Hm Hc. apply save_states in Hs as (Hall & _); [|done]. apply Forall_cons in Hall as [_ Hall].
  rewrite Forall_forall in Hall. specialize (Hall moment Hm). specialize (Hc (path c)). destruct Hall as [E|E]; rewrite E in Hc.
  - left. destruct (d !! path c) as [f|] eqn:Ed, (survived !! path c) as [f'|]; try done. simpl. f_equal. by apply Hc, Hold.
  - right. destruct (survived !! path c) as [f'|]; [|done]. simpl. f_equal. by apply Hc.
Qed.

(** A saved position is the position a restart finds: after a save that
    reports success, opening the path gives the cursor's [last_indexed], and resuming
    starts one past it; a failed save leaves the file as it was.  When every call
    succeeds the save does. *)
Theorem cursor_save_open c env d r d' trace start :
  path c <> [] -> size (path c) < IDX_SLOT_CURSOR_PATH_MAX -> is_u64 (last_indexed c) ->
  idx_slot_cursor_save c env d = (r, d', trace) ->
  (r = Ok tt -> exists c', idx_slot_cursor_open d' (Some (path c)) start good_read = (Ok tt, c') /\
     last_indexed c' = last_indexed c /\ path c' = path c /\
     idx_slot_cursor_resume_slot (Some c') =
       if last_indexed c =? IDX_SLOT_NONE then start else last_indexed c + 1) /\
  (r <> Ok tt -> d' !! path c = d !! path c) /\
  (env = SaveEnv true true true true true true true -> r = Ok tt).
Proof.
  intros Hp Hsz Hu Hs. pose proof Hs as (_ & Hok & Hfail)%save_states; [|done]. split_and!.
  - intros Hr. by eapply save_then_open.
  - exact Hfail.
  - intros ->. destruct (save_succeeds c d Hp Hsz) as (d1 & tr & E). rewrite E in Hs. by injection Hs.
Qed.

(** A restart skips nothing: when the position saved is the watermark of the
    gaps, the slot a restart resumes at has nothing outstanding below it, so every
    outstanding slot is fetched again. *)
Theorem restart_skips_nothing c env d d' trace start g highest :
  path c <> [] -> size (path c) < IDX_SLOT_CURSOR_PATH_MAX -> gaps_sound g -> is_u64 highest ->
  let position := idx_gaps_watermark (Some g) highest in
  position <> IDX_SLOT_NONE ->
  idx_slot_cursor_save (idx_slot_cursor_set_indexed c position) env d = (Ok tt, d', trace) ->
  exists c', idx_slot_cursor_open d' (Some (path c)) start good_read = (Ok tt, c') /\
    forall s, outstanding (ranges g) s -> idx_slot_cursor_resume_slot (Some c') <= s.
Proof.
  intros Hp Hsz Hg Hh position Hpos Hs.
  assert (is_u64 position /\ forall s, outstanding (ranges g) s -> position < s) as [Hu Hout]
    by (by apply watermark_below).
  destruct (save_then_open (idx_slot_cursor_set_indexed c position) env d _ d' trace start Hp Hsz Hu Hs eq_refl)
    as (c' & Ho & _ & _ & Hr). exists c'. split; [done|].
  intros s Hout'. apply Hout in Hout'. rewrite Hr. cbn [idx_slot_cursor_set_indexed last_indexed].
  rewrite (proj2 (Z.eqb_neq _ _) Hpos). lia.
Qed.

(** ** Witnesses *)

Definition all_ok : save_env := SaveEnv true true true true true true true.
Definition sample_cursor : idx_slot_cursor := SlotCursor 41 50 0 (lit "c").

(** A first save, crashing before the flush. *)
Lemma cursor_save_crash_safe_witness :
  exists d' trace moment, idx_slot_cursor_save sample_cursor all_ok ∅ = (Ok tt, d', trace) /\ moment ∈ trace /\
    (content <$> moment !! path sample_cursor = content <$> (∅ : disk) !! path sample_cursor \/
     content <$> moment !! path sample_cursor = Some (saved_text sample_cursor)).
Proof.
  destruct (idx_slot_cursor_save sample_cursor all_ok ∅) as [[r d'] trace] eqn:E.
  assert (r = Ok tt) as Hr by (apply (f_equal (fun x => x.1.1)) in E; simpl in E; by rewrite <- E).
  assert (d' ∈ trace) as Hin by (injection E as _ <- <-; by left).
  rewrite Hr in E |- *. exists d', trace, d'. split; [done|]. split; [done|].
  apply (cursor_save_crash_safe sample_cursor all_ok ∅ (Ok tt) d' trace d' d'); [done| |done|done|].
  - intros f Hf. by rewrite lookup_empty in Hf.
  - intros p. destruct (d' !! p); [by intros _|exact I].
Defined.

Lemma cursor_save_open_witness :
  exists d' trace c', idx_slot_cursor_save sample_cursor all_ok ∅ = (Ok tt, d', trace) /\
    idx_slot_cursor_open d' (Some (lit "c")) 7 good_read = (Ok tt, c') /\ idx_slot_cursor_resume_slot (Some c') = 42.
Proof.
  destruct (idx_slot_cursor_save sample_cursor all_ok ∅) as [[r d'] trace] eqn:E.
  destruct (cursor_save_open sample_cursor all_ok ∅ r d' trace 7) as (H1 & _ & H3); [done|reflexivity|decide_now|exact E|].
  specialize (H3 eq_refl). destruct (H1 H3) as (c' & Ho & Hl & _ & Hr). rewrite H3.
  exists d', trace, c'. split; [reflexivity|]. split; [exact Ho|exact Hr].
Defined.

(** Sixteen ranges outstanding, the lowest from slot 1000, and 5000 committed: the
    position is 999. *)
Lemma restart_skips_nothing_witness :
  exists d' trace c',
    idx_slot_cursor_save (idx_slot_cursor_set_indexed sample_cursor 999) all_ok ∅ = (Ok tt, d', trace) /\
    idx_slot_cursor_open d' (Some (lit "c")) 7 good_read = (Ok tt, c') /\
    forall s, outstanding (ranges full_gaps) s -> idx_slot_cursor_resume_slot (Some c') <= s.
Proof.
  assert (idx_gaps_watermark (Some full_gaps) 5000 = 999) as Hw by reflexivity.
  destruct (idx_slot_cursor_save (idx_slot_cursor_set_indexed sample_cursor 999) all_ok ∅) as [[r d'] trace] eqn:E.
  assert (r = Ok tt) as Hr by (apply (f_equal (fun x => x.1.1)) in E; simpl in E; by rewrite <- E).
  rewrite Hr in E |- *. rewrite <- Hw in E.
  destruct (restart_skips_nothing sample_cursor all_ok ∅ d' trace 7 full_gaps 5000) as (c' & Ho & Hs);
    [done|reflexivity|apply full_gaps_ok|decide_now|by rewrite Hw|exact E|].
  exists d', trace, c'. split; [reflexivity|]. split; [exact Ho|exact Hs].
Defined.
