(* ===== verification/Operands.v ===== *)
(** * Operands and keys of an instruction

    What the decoders of the native programs share: each of their files has its own
    static copy of [require_account] and [read_pubkey], the same text but for the
    message. *)

From S2P Require Import Prelude Radix Bytes Types Wire Block.
#[local] Open Scope Z_scope.

(** src/src/system_program.c:39-52 [require_account] *)
Definition require_account (tx : idx_transaction) (ix : idx_instruction) (position : Z) : reader idx_pubkey :=
  lift (match idx_instruction_account tx ix position with
        | None => IDX_FAIL IDX_ERR_PARSE
        | Some account => Ok account
        end).

(** src/src/system_program.c:54-57 [read_pubkey] *)
Definition read_pubkey : reader idx_pubkey :=
  raw ← idx_cursor_copy IDX_PUBKEY_LEN;
  mret (Pubkey raw).

Definition key_bytes (k : idx_pubkey) : bytes := pubkey_bytes k.

Definition key_ok (k : idx_pubkey) : Prop := size (pubkey_bytes k) = IDX_PUBKEY_LEN.
(** Accounts at positions of the instruction's list. *)
Definition names (tx : idx_transaction) (ix : idx_instruction) (l : list (Z * idx_pubkey)) : Prop :=
  Forall (fun pk => idx_instruction_account tx ix pk.1 = Some pk.2) l.

Lemma reads_account tx ix p k : idx_instruction_account tx ix p = Some k -> reads (require_account tx ix p) [] k.
Proof. intros E. apply reads_lift. by rewrite E. Qed.

Lemma reads_pubkey k : key_ok k -> reads read_pubkey (key_bytes k) k.
Proof. intros Hk. unfold read_pubkey, key_bytes. eapply reads_last; [by apply reads_copy|]. destruct k. apply reads_ret. Qed.

Lemma wrote_pubkey : wrote read_pubkey (fun k e => e = key_bytes k /\ key_ok k).
Proof.
  intros c k c' Hc E. unfold read_pubkey in E. apply bind_inv in E as (a & c1 & E & [= <- <-]).
  destruct (wrote_copy IDX_PUBKEY_LEN ltac:(done) c a c1 Hc E) as (e & Hr & (-> & Hs & _) & Hc1). by exists e.
Qed.

Lemma account_inv tx ix p c k c' : require_account tx ix p c = Ok (k, c') -> idx_instruction_account tx ix p = Some k /\ c' = c.
Proof. intros [E ->]%lift_inv. split; [|done]. destruct (idx_instruction_account tx ix p); [by injection E as ->|done]. Qed.

#[export] Hint Resolve reads_account reads_pubkey : wire.

(** One step back along a decoder that succeeded: [Hlive] says its cursor is live,
    [lem] what the read in front wrote. *)
Ltac inv_wrote Hlive H lem :=
  let E := fresh "E" in
  apply bind_inv in H as (? & ? & E & H); apply (lem _ _ _ Hlive) in E as (? & ? & [-> ?] & ?); clear Hlive.

Ltac inv_step Hlive H :=
  lazymatch type of H with
  | (_ ← require_account _ _ _; _) _ = Ok _ =>
      let E := fresh "E" in apply bind_inv in H as (? & ? & E & H); apply account_inv in E as [? ->]
  | (_ ← read_pubkey; _) _ = Ok _ => inv_wrote Hlive H wrote_pubkey
  | (_ ← idx_cursor_u64le; _) _ = Ok _ => inv_wrote Hlive H wrote_u64
  | (_ ← idx_cursor_u8; _) _ = Ok _ => inv_wrote Hlive H wrote_u8
  end.

(** A transaction of two accounts, for examples. *)
Definition two_accounts : idx_transaction :=
  Transaction IDX_TX_VERSION_LEGACY [] 0 0 0 (Hash [])
    [Account (Pubkey (replicate 32 1)) true true false; Account (Pubkey (replicate 32 2)) false true false]
    2 [] [] false true 0 [] [] [] [] [].
