(* ===== verification/SystemProgram.v ===== *)
(** * system_program.c: instructions of the System program

    The tagged union of the thirteen variants and the decoder.  An operand pointer is
    the key it points to; one that a variant leaves null is absent from its
    constructor. *)

From S2P Require Import Prelude Radix Bytes Types Wire Block Operands.
#[local] Open Scope Z_scope.

(** src/include/system_program.h:31-45 [idx_system_ix_kind] *)
Inductive idx_system_ix_kind :=
  | IDX_SYSTEM_IX_CREATE_ACCOUNT
  | IDX_SYSTEM_IX_ASSIGN
  | IDX_SYSTEM_IX_TRANSFER
  | IDX_SYSTEM_IX_CREATE_ACCOUNT_WITH_SEED
  | IDX_SYSTEM_IX_ADVANCE_NONCE_ACCOUNT
  | IDX_SYSTEM_IX_WITHDRAW_NONCE_ACCOUNT
  | IDX_SYSTEM_IX_INITIALIZE_NONCE_ACCOUNT
  | IDX_SYSTEM_IX_AUTHORIZE_NONCE_ACCOUNT
  | IDX_SYSTEM_IX_ALLOCATE
  | IDX_SYSTEM_IX_ALLOCATE_WITH_SEED
  | IDX_SYSTEM_IX_ASSIGN_WITH_SEED
  | IDX_SYSTEM_IX_TRANSFER_WITH_SEED
  | IDX_SYSTEM_IX_UPGRADE_NONCE_ACCOUNT.

#[export] Instance idx_system_ix_kind_eq_dec : EqDecision idx_system_ix_kind.
Proof. solve_decision. Defined.

(** The enumeration in the order of its values, which start from 0. *)
Definition system_kinds : list idx_system_ix_kind :=
  [IDX_SYSTEM_IX_CREATE_ACCOUNT; IDX_SYSTEM_IX_ASSIGN; IDX_SYSTEM_IX_TRANSFER;
   IDX_SYSTEM_IX_CREATE_ACCOUNT_WITH_SEED; IDX_SYSTEM_IX_ADVANCE_NONCE_ACCOUNT;
   IDX_SYSTEM_IX_WITHDRAW_NONCE_ACCOUNT; IDX_SYSTEM_IX_INITIALIZE_NONCE_ACCOUNT;
   IDX_SYSTEM_IX_AUTHORIZE_NONCE_ACCOUNT; IDX_SYSTEM_IX_ALLOCATE; IDX_SYSTEM_IX_ALLOCATE_WITH_SEED;
   IDX_SYSTEM_IX_ASSIGN_WITH_SEED; IDX_SYSTEM_IX_TRANSFER_WITH_SEED; IDX_SYSTEM_IX_UPGRADE_NONCE_ACCOUNT].

(** src/src/system_program.c:5-35 [idx_system_ix_kind_name] *)
Definition idx_system_ix_kind_name (kind : idx_system_ix_kind) : bytes :=
  match kind with
  | IDX_SYSTEM_IX_CREATE_ACCOUNT => lit "CreateAccount"
  | IDX_SYSTEM_IX_ASSIGN => lit "Assign"
  | IDX_SYSTEM_IX_TRANSFER => lit "Transfer"
  | IDX_SYSTEM_IX_CREATE_ACCOUNT_WITH_SEED => lit "CreateAccountWithSeed"
  | IDX_SYSTEM_IX_ADVANCE_NONCE_ACCOUNT => lit "AdvanceNonceAccount"
  | IDX_SYSTEM_IX_WITHDRAW_NONCE_ACCOUNT => lit "WithdrawNonceAccount"
  | IDX_SYSTEM_IX_INITIALIZE_NONCE_ACCOUNT => lit "InitializeNonceAccount"
  | IDX_SYSTEM_IX_AUTHORIZE_NONCE_ACCOUNT => lit "AuthorizeNonceAccount"
  | IDX_SYSTEM_IX_ALLOCATE => lit "Allocate"
  | IDX_SYSTEM_IX_ALLOCATE_WITH_SEED => lit "AllocateWithSeed"
  | IDX_SYSTEM_IX_ASSIGN_WITH_SEED => lit "AssignWithSeed"
  | IDX_SYSTEM_IX_TRANSFER_WITH_SEED => lit "TransferWithSeed"
  | IDX_SYSTEM_IX_UPGRADE_NONCE_ACCOUNT => lit "UpgradeNonceAccount"
  end.

(** src/include/system_program.h:60-146 [idx_system_instruction] *)
Inductive idx_system_instruction :=
  | CreateAccount (funder account : idx_pubkey) (lamports space : Z) (owner : idx_pubkey)
  | Assign (account owner : idx_pubkey)
  | Transfer (from to : idx_pubkey) (lamports : Z)
  | CreateAccountWithSeed (funder account base : idx_pubkey) (seed : idx_slice) (lamports space : Z)
      (owner : idx_pubkey)
  | AdvanceNonceAccount (nonce authority : idx_pubkey)
  | WithdrawNonceAccount (nonce to authority : idx_pubkey) (lamports : Z)
  | InitializeNonceAccount (nonce new_authority : idx_pubkey)
  | AuthorizeNonceAccount (nonce authority new_authority : idx_pubkey)
  | Allocate (account : idx_pubkey) (space : Z)
  | AllocateWithSeed (account base_account base : idx_pubkey) (seed : idx_slice) (space : Z)
      (owner : idx_pubkey)
  | AssignWithSeed (account base_account base : idx_pubkey) (seed : idx_slice) (owner : idx_pubkey)
  | TransferWithSeed (from base_account to : idx_pubkey) (lamports : Z) (from_seed : idx_slice)
      (from_owner : idx_pubkey)
  | UpgradeNonceAccount (nonce : idx_pubkey).

(** src/src/system_program.c:64-74 [read_seed] *)
Definition read_seed : reader idx_slice :=
  len ← idx_cursor_u64le;
  (fun cursor => if idx_cursor_remaining cursor <? len then IDX_FAIL IDX_ERR_RANGE
                 else idx_cursor_take len cursor) : reader idx_slice.

(** src/src/system_program.c:99-202 [idx_system_instruction_decode]: the switch. *)
Definition read_system (tx : idx_transaction) (ix : idx_instruction) (kind : idx_system_ix_kind)
    : reader idx_system_instruction :=
  match kind with
  | IDX_SYSTEM_IX_CREATE_ACCOUNT =>
      funder ← require_account tx ix 0;
      account ← require_account tx ix 1;
      lamports ← idx_cursor_u64le;
      space ← idx_cursor_u64le;
      owner ← read_pubkey;
      mret (CreateAccount funder account lamports space owner)
  | IDX_SYSTEM_IX_ASSIGN =>
      account ← require_account tx ix 0;
      owner ← read_pubkey;
      mret (Assign account owner)
  | IDX_SYSTEM_IX_TRANSFER =>
      from ← require_account tx ix 0;
      to ← require_account tx ix 1;
      lamports ← idx_cursor_u64le;
      mret (Transfer from to lamports)
  | IDX_SYSTEM_IX_CREATE_ACCOUNT_WITH_SEED =>
      funder ← require_account tx ix 0;
      account ← require_account tx ix 1;
      base ← read_pubkey;
      seed ← read_seed;
      lamports ← idx_cursor_u64le;
      space ← idx_cursor_u64le;
      owner ← read_pubkey;
      mret (CreateAccountWithSeed funder account base seed lamports space owner)
  | IDX_SYSTEM_IX_ADVANCE_NONCE_ACCOUNT =>
      nonce ← require_account tx ix 0;
      authority ← require_account tx ix 2;
      mret (AdvanceNonceAccount nonce authority)
  | IDX_SYSTEM_IX_UPGRADE_NONCE_ACCOUNT =>
      nonce ← require_account tx ix 0;
      mret (UpgradeNonceAccount nonce)
  | IDX_SYSTEM_IX_WITHDRAW_NONCE_ACCOUNT =>
      nonce ← require_account tx ix 0;
      to ← require_account tx ix 1;
      authority ← require_account tx ix 4;
      lamports ← idx_cursor_u64le;
      mret (WithdrawNonceAccount nonce to authority lamports)
  | IDX_SYSTEM_IX_INITIALIZE_NONCE_ACCOUNT =>
      nonce ← require_account tx ix 0;
      new_authority ← read_pubkey;
      mret (InitializeNonceAccount nonce new_authority)
  | IDX_SYSTEM_IX_AUTHORIZE_NONCE_ACCOUNT =>
      nonce ← require_account tx ix 0;
      authority ← require_account tx ix 1;
      new_authority ← read_pubkey;
      mret (AuthorizeNonceAccount nonce authority new_authority)
  | IDX_SYSTEM_IX_ALLOCATE =>
      account ← require_account tx ix 0;
      space ← idx_cursor_u64le;
      mret (Allocate account space)
  | IDX_SYSTEM_IX_ALLOCATE_WITH_SEED =>
      account ← require_account tx ix 0;
      base_account ← require_account tx ix 1;
      base ← read_pubkey;
      seed ← read_seed;
      space ← idx_cursor_u64le;
      owner ← read_pubkey;
      mret (AllocateWithSeed account base_account base seed space owner)
  | IDX_SYSTEM_IX_ASSIGN_WITH_SEED =>
      account ← require_account tx ix 0;
      base_account ← require_account tx ix 1;
      base ← read_pubkey;
      seed ← read_seed;
      owner ← read_pubkey;
      mret (AssignWithSeed account base_account base seed owner)
  | IDX_SYSTEM_IX_TRANSFER_WITH_SEED =>
      from ← require_account tx ix 0;
      base_account ← require_account tx ix 1;
      to ← require_account tx ix 2;
      lamports ← idx_cursor_u64le;
      from_seed ← read_seed;
      from_owner ← read_pubkey;
      mret (TransferWithSeed from base_account to lamports from_seed from_owner)
  end.

(** src/src/system_program.c:76-206 [idx_system_instruction_decode]; the guard on null
    arguments is excluded by the types. *)
Definition idx_system_instruction_decode (tx : idx_transaction) (ix : idx_instruction)
    : result idx_system_instruction :=
  run_reader
    (discriminant ← idx_cursor_u32le;
     if 12 <? discriminant then lift (IDX_FAIL IDX_ERR_NOT_FOUND)
     else
       match system_kinds !! Z.to_nat discriminant with
       | None => lift (IDX_FAIL IDX_ERR_INTERNAL)
       | Some kind => read_system tx ix kind
       end)
    (ix_data ix).

(** ** The wire format *)

(** A bincode string. *)
Definition bincode (s : idx_slice) : bytes := le64 (slice_len s) ++ slice_bytes s.

(** The kind of a value. *)
Definition system_kind (i : idx_system_instruction) : idx_system_ix_kind :=
  match i with
  | CreateAccount _ _ _ _ _ => IDX_SYSTEM_IX_CREATE_ACCOUNT
  | Assign _ _ => IDX_SYSTEM_IX_ASSIGN
  | Transfer _ _ _ => IDX_SYSTEM_IX_TRANSFER
  | CreateAccountWithSeed _ _ _ _ _ _ _ => IDX_SYSTEM_IX_CREATE_ACCOUNT_WITH_SEED
  | AdvanceNonceAccount _ _ => IDX_SYSTEM_IX_ADVANCE_NONCE_ACCOUNT
  | WithdrawNonceAccount _ _ _ _ => IDX_SYSTEM_IX_WITHDRAW_NONCE_ACCOUNT
  | InitializeNonceAccount _ _ => IDX_SYSTEM_IX_INITIALIZE_NONCE_ACCOUNT
  | AuthorizeNonceAccount _ _ _ => IDX_SYSTEM_IX_AUTHORIZE_NONCE_ACCOUNT
  | Allocate _ _ => IDX_SYSTEM_IX_ALLOCATE
  | AllocateWithSeed _ _ _ _ _ _ => IDX_SYSTEM_IX_ALLOCATE_WITH_SEED
  | AssignWithSeed _ _ _ _ _ => IDX_SYSTEM_IX_ASSIGN_WITH_SEED
  | TransferWithSeed _ _ _ _ _ _ => IDX_SYSTEM_IX_TRANSFER_WITH_SEED
  | UpgradeNonceAccount _ => IDX_SYSTEM_IX_UPGRADE_NONCE_ACCOUNT
  end.

(** The value of a kind. *)
Definition kind_value (kind : idx_system_ix_kind) : Z :=
  match kind with
  | IDX_SYSTEM_IX_CREATE_ACCOUNT => 0
  | IDX_SYSTEM_IX_ASSIGN => 1
  | IDX_SYSTEM_IX_TRANSFER => 2
  | IDX_SYSTEM_IX_CREATE_ACCOUNT_WITH_SEED => 3
  | IDX_SYSTEM_IX_ADVANCE_NONCE_ACCOUNT => 4
  | IDX_SYSTEM_IX_WITHDRAW_NONCE_ACCOUNT => 5
  | IDX_SYSTEM_IX_INITIALIZE_NONCE_ACCOUNT => 6
  | IDX_SYSTEM_IX_AUTHORIZE_NONCE_ACCOUNT => 7
  | IDX_SYSTEM_IX_ALLOCATE => 8
  | IDX_SYSTEM_IX_ALLOCATE_WITH_SEED => 9
  | IDX_SYSTEM_IX_ASSIGN_WITH_SEED => 10
  | IDX_SYSTEM_IX_TRANSFER_WITH_SEED => 11
  | IDX_SYSTEM_IX_UPGRADE_NONCE_ACCOUNT => 12
  end.

(** The data of an instruction after its discriminant, as the runtime serializes it. *)
Definition system_payload (i : idx_system_instruction) : bytes :=
  match i with
  | CreateAccount _ _ lamports space owner => le64 lamports ++ le64 space ++ key_bytes owner
  | Assign _ owner => key_bytes owner
  | Transfer _ _ lamports => le64 lamports
  | CreateAccountWithSeed _ _ base seed lamports space owner =>
      key_bytes base ++ bincode seed ++ le64 lamports ++ le64 space ++ key_bytes owner
  | AdvanceNonceAccount _ _ => []
  | WithdrawNonceAccount _ _ _ lamports => le64 lamports
  | InitializeNonceAccount _ new_authority => key_bytes new_authority
  | AuthorizeNonceAccount _ _ new_authority => key_bytes new_authority
  | Allocate _ space => le64 space
  | AllocateWithSeed _ _ base seed space owner =>
      key_bytes base ++ bincode seed ++ le64 space ++ key_bytes owner
  | AssignWithSeed _ _ base seed owner => key_bytes base ++ bincode seed ++ key_bytes owner
  | TransferWithSeed _ _ _ lamports from_seed from_owner =>
      le64 lamports ++ bincode from_seed ++ key_bytes from_owner
  | UpgradeNonceAccount _ => []
  end.

(** The whole of it. *)
Definition system_data (i : idx_system_instruction) : bytes :=
  le32 (kind_value (system_kind i)) ++ system_payload i.

(** The accounts it names, each at its position in the instruction's list. *)
Definition system_accounts (i : idx_system_instruction) : list (Z * idx_pubkey) :=
  match i with
  | CreateAccount funder account _ _ _ => [(0, funder); (1, account)]
  | Assign account _ => [(0, account)]
  | Transfer from to _ => [(0, from); (1, to)]
  | CreateAccountWithSeed funder account _ _ _ _ _ => [(0, funder); (1, account)]
  | AdvanceNonceAccount nonce authority => [(0, nonce); (2, authority)]
  | WithdrawNonceAccount nonce to authority _ => [(0, nonce); (1, to); (4, authority)]
  | InitializeNonceAccount nonce _ => [(0, nonce)]
  | AuthorizeNonceAccount nonce authority _ => [(0, nonce); (1, authority)]
  | Allocate account _ => [(0, account)]
  | AllocateWithSeed account base_account _ _ _ _ => [(0, account); (1, base_account)]
  | AssignWithSeed account base_account _ _ _ => [(0, account); (1, base_account)]
  | TransferWithSeed from base_account to _ _ _ => [(0, from); (1, base_account); (2, to)]
  | UpgradeNonceAccount nonce => [(0, nonce)]
  end.

Definition seed_ok (s : idx_slice) : Prop := is_Some s /\ is_u64 (slice_len s).

(** The values of the fields fit them. *)
Definition system_fields_ok (i : idx_system_instruction) : Prop :=
  match i with
  | CreateAccount _ _ lamports space owner => is_u64 lamports /\ is_u64 space /\ key_ok owner
  | Assign _ owner => key_ok owner
  | Transfer _ _ lamports => is_u64 lamports
  | CreateAccountWithSeed _ _ base seed lamports space owner =>
      key_ok base /\ seed_ok seed /\ is_u64 lamports /\ is_u64 space /\ key_ok owner
  | AdvanceNonceAccount _ _ => True
  | WithdrawNonceAccount _ _ _ lamports => is_u64 lamports
  | InitializeNonceAccount _ new_authority => key_ok new_authority
  | AuthorizeNonceAccount _ _ new_authority => key_ok new_authority
  | Allocate _ space => is_u64 space
  | AllocateWithSeed _ _ base seed space owner => key_ok base /\ seed_ok seed /\ is_u64 space /\ key_ok owner
  | AssignWithSeed _ _ base seed owner => key_ok base /\ seed_ok seed /\ key_ok owner
  | TransferWithSeed _ _ _ lamports from_seed from_owner =>
      is_u64 lamports /\ seed_ok from_seed /\ key_ok from_owner
  | UpgradeNonceAccount _ => True
  end.

(** ** Lemmas *)

Lemma reads_seed s : seed_ok s -> reads read_seed (bincode s) s.
Proof.
  intros [[l ->] Hu] c b Hc Hr. unfold bincode in Hr. rewrite <- app_assoc in Hr. unfold read_seed, mbind, reader_bind.
  destruct (reads_u64 _ Hu c _ Hc Hr) as (c1 & E1 & R1 & O1). rewrite E1.
  rewrite cursor_remaining by done. change (slice_bytes (Some l)) with l in *. change (slice_len (Some l)) with (size l) in *.
  destruct (cursor_take_app c1 (size l) l b O1 R1 eq_refl) as (s & c2 & E2 & Hs & H).
  rewrite R1, (proj2 (Z.ltb_ge _ _)) by (unfold size; rewrite length_app; lia).
  assert (s = Some l) as ->; [|by exists c2].
  assert (is_Some (input c1)) as [l' Hi].
  { revert E1. unfold idx_cursor_u64le, idx_cursor_copy, idx_cursor_take, mbind, reader_bind.
    destruct (_ <? 8); [done|]. intros [= _ <-]. simpl. unfold rest in Hr. destruct (input c); [by eexists|].
    simpl in Hr. by rewrite drop_nil in Hr. }
  unfold idx_cursor_take in E2. destruct (_ <? size l); [done|]. rewrite Hi in E2. injection E2 as <- _. simpl in *. by rewrite Hs.
Qed.

Lemma wrote_seed : wrote read_seed (fun s e => e = bincode s /\ seed_ok s).
Proof.
  intros c s c' Hc E. unfold read_seed in E. apply bind_inv in E as (len & c1 & E1 & E2).
  destruct (wrote_u64 c len c1 Hc E1) as (e1 & Hr1 & [-> Hu] & Hc1). destruct (_ <? len); [done|].
  destruct (wrote_take len ltac:(apply Hu) c1 s c' Hc1 E2) as (e2 & Hr2 & [-> Hs] & Hc2).
  exists (le64 len ++ e2). rewrite Hr1, Hr2, app_assoc. split; [done|]. split; [|done]. unfold bincode, seed_ok, slice_len. simpl.
  rewrite Hs. by split_and!.
Qed.

#[export] Hint Resolve reads_seed : wire.

Lemma reads_system tx ix i :
  system_fields_ok i -> names tx ix (system_accounts i) ->
  reads (read_system tx ix (system_kind i)) (system_payload i) i.
Proof.
  intros Hf Hn. unfold names in Hn.
  destruct i; cbn [system_accounts] in Hn; rewrite ?Forall_cons in Hn; cbn [fst snd] in Hn; cbn [system_fields_ok] in Hf;
    destruct_and?; cbn [system_kind read_system system_payload]; reads_chain.
Qed.

(** One step back along a decoder that succeeded. *)
Ltac inv_system Hlive H :=
  lazymatch type of H with
  | (_ ← read_seed; _) _ = Ok _ => inv_wrote Hlive H wrote_seed
  | _ => inv_step Hlive H
  end.

Ltac inv_chain H := repeat match goal with Hl : live _ |- _ => inv_system Hl H end.

(** The bytes of the fields, put together. *)
Ltac payload_bytes :=
  cbn [system_payload];
  repeat match goal with E : rest ?c = _ |- context [rest ?c] => rewrite E; clear E end;
  rewrite <- ?app_assoc; reflexivity.

Lemma wrote_system tx ix kind :
  wrote (read_system tx ix kind)
    (fun i e => e = system_payload i /\ system_kind i = kind /\ system_fields_ok i /\ names tx ix (system_accounts i)).
Proof.
  intros c i c' Hc H.
  assert (rest c = system_payload i ++ rest c' /\ system_kind i = kind /\ system_fields_ok i /\
          names tx ix (system_accounts i) /\ live c') as (H1 & H2 & H3 & H4 & H5); [|by exists (system_payload i)].
  destruct kind; cbn [read_system] in H; inv_chain H; injection H as <- <-; cbn [system_kind system_fields_ok system_accounts];
    unfold names; rewrite ?Forall_cons, ?Forall_nil; cbn [fst snd]; (split; [payload_bytes|]); split_and!; auto.
Qed.

Lemma kind_lookup kind : 0 <= kind_value kind <= 12 /\ system_kinds !! Z.to_nat (kind_value kind) = Some kind.
Proof. by destruct kind. Qed.

Lemma kind_of_value d kind : 0 <= d -> system_kinds !! Z.to_nat d = Some kind -> d = kind_value kind.
Proof.
  intros Hd Hk. pose proof (proj2 (kind_lookup kind)) as Hk'.
  assert (NoDup system_kinds) as Hnd by decide_now.
  pose proof (NoDup_lookup _ _ _ _ Hnd Hk Hk'). pose proof (proj1 (kind_lookup kind)). lia.
Qed.

Lemma system_decode_complete tx ix i tail :
  slice_len (ix_data ix) < 2 ^ 64 -> slice_bytes (ix_data ix) = system_data i ++ tail ->
  system_fields_ok i -> names tx ix (system_accounts i) -> idx_system_instruction_decode tx ix = Ok i.
Proof.
  intros Hl Hs Hf Hn. destruct (kind_lookup (system_kind i)) as [Hk Hkl].
  eapply run_reads; [|exact Hs|exact Hl]. eapply reads_bind; [apply reads_u32; lia|].
  rewrite (proj2 (Z.ltb_ge _ _)) by lia. rewrite Hkl. by apply reads_system.
Qed.

Lemma system_decode_sound tx ix i :
  slice_len (ix_data ix) < 2 ^ 64 -> bytes_ok (slice_bytes (ix_data ix)) ->
  idx_system_instruction_decode tx ix = Ok i ->
  system_fields_ok i /\ names tx ix (system_accounts i) /\
  exists tail, slice_bytes (ix_data ix) = system_data i ++ tail.
Proof.
  intros Hl Hb E. apply run_inv in E as [c E]. apply bind_inv in E as (d & c1 & E1 & E2).
  assert (live (idx_cursor_init (ix_data ix))) as Hlive.
  { apply init_live; [done..|]. intros Hnil. revert E1.
    pose proof (consumes_u32 (idx_cursor_init (ix_data ix)) (cursor_init_ok _ Hl)) as H. rewrite rest_init, Hnil in H.
    simpl in H. by rewrite H. }
  destruct (wrote_u32 _ _ _ Hlive E1) as (e & Hr & [-> Hd] & Hc1). rewrite rest_init in Hr.
  destruct (12 <? d); [done|]. destruct (system_kinds !! Z.to_nat d) as [kind|] eqn:Hk; [|done].
  apply kind_of_value in Hk as ->; [|lia].
  destruct (wrote_system tx ix kind c1 i c Hc1 E2) as (e & Hr2 & (-> & <- & Hf & Hn) & _). split_and!; [done..|].
  exists (rest c). unfold system_data. by rewrite Hr, Hr2, <- app_assoc.
Qed.

(** ** Properties *)

(** C15. The decoder inverts the runtime's serialization, and only that.  An
    instruction decodes to [i] exactly when its data starts with the bytes [i]
    serializes to and the accounts [i] names stand at the positions the runtime puts
    them: all thirteen variants, nothing guessed, nothing lost, and anything appended
    is ignored. *)
Theorem system_decode_iff tx ix i :
  slice_len (ix_data ix) < 2 ^ 64 -> bytes_ok (slice_bytes (ix_data ix)) ->
  idx_system_instruction_decode tx ix = Ok i <->
  system_fields_ok i /\
  Forall (fun '(position, key) => idx_instruction_account tx ix position = Some key) (system_accounts i) /\
  exists tail, slice_bytes (ix_data ix) = system_data i ++ tail.
Proof.
  intros Hl Hb. assert (forall l, names tx ix l <->
    Forall (fun '(position, key) => idx_instruction_account tx ix position = Some key) l) as Hnames.
  { intros l. unfold names. split; intros H; (eapply Forall_impl; [exact H|]); by intros []. }
  rewrite <- Hnames. split; [by apply system_decode_sound|].
  intros (Hf & Hn & tail & Hs). by eapply system_decode_complete.
Qed.

(** ** Witnesses *)

(** A transfer of 5000 lamports from the first account to the second. *)
Definition sample_transfer : idx_instruction := Instruction 1 [0; 1] (Some (le32 2 ++ le64 5000)) 0.

Lemma system_decode_iff_witness :
  idx_system_instruction_decode two_accounts sample_transfer =
    Ok (Transfer (Pubkey (replicate 32 1)) (Pubkey (replicate 32 2)) 5000).
Proof.
  apply (system_decode_iff two_accounts sample_transfer); [reflexivity|decide_now|].
  split; [decide_now|]. split; [repeat constructor|]. by exists [].
Defined.
