(* ===== verification/TokenProgram.v ===== *)
(** * token_program.c: instructions of SPL Token

    The union of the base instruction set, which Token-2022 shares, and its decoder.
    Variants that describe one operation share a constructor and are told apart by
    the kind; a pointer that may be null and a field valid only under a [has_] flag
    are options. *)

From S2P Require Import Prelude Radix Bytes Types Wire Block Operands.
#[local] Open Scope Z_scope.

(** src/include/token_program.h:32-58 [idx_token_ix_kind] *)
Inductive idx_token_ix_kind :=
  | IDX_TOKEN_IX_INITIALIZE_MINT
  | IDX_TOKEN_IX_INITIALIZE_ACCOUNT
  | IDX_TOKEN_IX_INITIALIZE_MULTISIG
  | IDX_TOKEN_IX_TRANSFER
  | IDX_TOKEN_IX_APPROVE
  | IDX_TOKEN_IX_REVOKE
  | IDX_TOKEN_IX_SET_AUTHORITY
  | IDX_TOKEN_IX_MINT_TO
  | IDX_TOKEN_IX_BURN
  | IDX_TOKEN_IX_CLOSE_ACCOUNT
  | IDX_TOKEN_IX_FREEZE_ACCOUNT
  | IDX_TOKEN_IX_THAW_ACCOUNT
  | IDX_TOKEN_IX_TRANSFER_CHECKED
  | IDX_TOKEN_IX_APPROVE_CHECKED
  | IDX_TOKEN_IX_MINT_TO_CHECKED
  | IDX_TOKEN_IX_BURN_CHECKED
  | IDX_TOKEN_IX_INITIALIZE_ACCOUNT2
  | IDX_TOKEN_IX_SYNC_NATIVE
  | IDX_TOKEN_IX_INITIALIZE_ACCOUNT3
  | IDX_TOKEN_IX_INITIALIZE_MULTISIG2
  | IDX_TOKEN_IX_INITIALIZE_MINT2
  | IDX_TOKEN_IX_GET_ACCOUNT_DATA_SIZE
  | IDX_TOKEN_IX_INITIALIZE_IMMUTABLE_OWNER
  | IDX_TOKEN_IX_AMOUNT_TO_UI_AMOUNT
  | IDX_TOKEN_IX_UI_AMOUNT_TO_AMOUNT.

#[export] Instance idx_token_ix_kind_eq_dec : EqDecision idx_token_ix_kind.
Proof. solve_decision. Defined.

(** The enumeration in the order of its values, which start from 0. *)
Definition token_kinds : list idx_token_ix_kind :=
  [IDX_TOKEN_IX_INITIALIZE_MINT; IDX_TOKEN_IX_INITIALIZE_ACCOUNT; IDX_TOKEN_IX_INITIALIZE_MULTISIG;
   IDX_TOKEN_IX_TRANSFER; IDX_TOKEN_IX_APPROVE; IDX_TOKEN_IX_REVOKE; IDX_TOKEN_IX_SET_AUTHORITY;
   IDX_TOKEN_IX_MINT_TO; IDX_TOKEN_IX_BURN; IDX_TOKEN_IX_CLOSE_ACCOUNT; IDX_TOKEN_IX_FREEZE_ACCOUNT;
   IDX_TOKEN_IX_THAW_ACCOUNT; IDX_TOKEN_IX_TRANSFER_CHECKED; IDX_TOKEN_IX_APPROVE_CHECKED;
   IDX_TOKEN_IX_MINT_TO_CHECKED; IDX_TOKEN_IX_BURN_CHECKED; IDX_TOKEN_IX_INITIALIZE_ACCOUNT2;
   IDX_TOKEN_IX_SYNC_NATIVE; IDX_TOKEN_IX_INITIALIZE_ACCOUNT3; IDX_TOKEN_IX_INITIALIZE_MULTISIG2;
   IDX_TOKEN_IX_INITIALIZE_MINT2; IDX_TOKEN_IX_GET_ACCOUNT_DATA_SIZE;
   IDX_TOKEN_IX_INITIALIZE_IMMUTABLE_OWNER; IDX_TOKEN_IX_AMOUNT_TO_UI_AMOUNT;
   IDX_TOKEN_IX_UI_AMOUNT_TO_AMOUNT].

(** src/src/token_program.c:5-59 [idx_token_ix_kind_name] *)
Definition idx_token_ix_kind_name (kind : idx_token_ix_kind) : bytes :=
  match kind with
  | IDX_TOKEN_IX_INITIALIZE_MINT => lit "InitializeMint"
  | IDX_TOKEN_IX_INITIALIZE_ACCOUNT => lit "InitializeAccount"
  | IDX_TOKEN_IX_INITIALIZE_MULTISIG => lit "InitializeMultisig"
  | IDX_TOKEN_IX_TRANSFER => lit "Transfer"
  | IDX_TOKEN_IX_APPROVE => lit "Approve"
  | IDX_TOKEN_IX_REVOKE => lit "Revoke"
  | IDX_TOKEN_IX_SET_AUTHORITY => lit "SetAuthority"
  | IDX_TOKEN_IX_MINT_TO => lit "MintTo"
  | IDX_TOKEN_IX_BURN => lit "Burn"
  | IDX_TOKEN_IX_CLOSE_ACCOUNT => lit "CloseAccount"
  | IDX_TOKEN_IX_FREEZE_ACCOUNT => lit "FreezeAccount"
  | IDX_TOKEN_IX_THAW_ACCOUNT => lit "ThawAccount"
  | IDX_TOKEN_IX_TRANSFER_CHECKED => lit "TransferChecked"
  | IDX_TOKEN_IX_APPROVE_CHECKED => lit "ApproveChecked"
  | IDX_TOKEN_IX_MINT_TO_CHECKED => lit "MintToChecked"
  | IDX_TOKEN_IX_BURN_CHECKED => lit "BurnChecked"
  | IDX_TOKEN_IX_INITIALIZE_ACCOUNT2 => lit "InitializeAccount2"
  | IDX_TOKEN_IX_SYNC_NATIVE => lit "SyncNative"
  | IDX_TOKEN_IX_INITIALIZE_ACCOUNT3 => lit "InitializeAccount3"
  | IDX_TOKEN_IX_INITIALIZE_MULTISIG2 => lit "InitializeMultisig2"
  | IDX_TOKEN_IX_INITIALIZE_MINT2 => lit "InitializeMint2"
  | IDX_TOKEN_IX_GET_ACCOUNT_DATA_SIZE => lit "GetAccountDataSize"
  | IDX_TOKEN_IX_INITIALIZE_IMMUTABLE_OWNER => lit "InitializeImmutableOwner"
  | IDX_TOKEN_IX_AMOUNT_TO_UI_AMOUNT => lit "AmountToUiAmount"
  | IDX_TOKEN_IX_UI_AMOUNT_TO_AMOUNT => lit "UiAmountToAmount"
  end.

(** src/src/token_program.c:61-74 [idx_token_authority_type_name] *)
Definition idx_token_authority_type_name (type : Z) : bytes :=
  if type =? 0 then lit "MintTokens"
  else if type =? 1 then lit "FreezeAccount"
  else if type =? 2 then lit "AccountOwner"
  else if type =? 3 then lit "CloseAccount"
  else lit "unknown".

(** src/src/token_program.c:76-82 [idx_token_program_matches] *)
Definition idx_token_program_matches (program_id : option idx_pubkey) : bool :=
  match program_id with
  | None => false
  | Some id => idx_pubkey_equal id IDX_PROGRAM_TOKEN || idx_pubkey_equal id IDX_PROGRAM_TOKEN_2022
  end.

(** src/include/token_program.h:95-214 [idx_token_instruction]: the union; [decimals]
    is there when [has_decimals] is set. *)
Inductive token_body :=
  | InitializeMint (mint mint_authority : idx_pubkey) (freeze_authority : option idx_pubkey) (decimals : Z)
  | InitializeAccount (account mint : idx_pubkey) (owner_account : option idx_pubkey) (owner : idx_pubkey)
  | InitializeMultisig (multisig : idx_pubkey) (signers : list Z) (required_signatures : Z)
  | Transfer (source destination authority : idx_pubkey) (mint : option idx_pubkey) (amount : Z)
      (decimals : option Z)
  | Approve (source delegate owner : idx_pubkey) (mint : option idx_pubkey) (amount : Z)
      (decimals : option Z)
  | Revoke (source owner : idx_pubkey)
  | SetAuthority (account authority : idx_pubkey) (new_authority : option idx_pubkey) (authority_type : Z)
  | MintTo (mint account authority : idx_pubkey) (amount : Z) (decimals : option Z)
  | Burn (account mint authority : idx_pubkey) (amount : Z) (decimals : option Z)
  | CloseAccount (account destination owner : idx_pubkey)
  | FreezeAccount (account mint authority : idx_pubkey)
  | AccountOnly (account : idx_pubkey)
  | MintQuery (mint : idx_pubkey) (amount : Z)
  | UiAmountToAmount (mint : idx_pubkey) (ui_amount : idx_slice).

(** src/include/token_program.h:95-214 [idx_token_instruction] *)
Record idx_token_instruction := TokenInstruction { kind : idx_token_ix_kind; body : token_body }.

(** src/src/token_program.c:108-124 [read_optional_pubkey] *)
Definition read_optional_pubkey : reader (option idx_pubkey) :=
  tag ← idx_cursor_u8;
  if tag =? 0 then mret None
  else if negb (tag =? 1) then lift (IDX_FAIL IDX_ERR_PARSE)
  else key ← read_pubkey; mret (Some key).

(** src/src/token_program.c:128-137 [read_amount] *)
Definition read_amount (checked : bool) : reader (Z * option Z) :=
  amount ← idx_cursor_u64le;
  if negb checked then mret (amount, None)
  else decimals ← idx_cursor_u8; mret (amount, Some decimals).

(** src/src/token_program.c:141-153 [decode_initialize_mint] *)
Definition decode_initialize_mint (tx : idx_transaction) (ix : idx_instruction) : reader token_body :=
  mint ← require_account tx ix 0;
  decimals ← idx_cursor_u8;
  mint_authority ← read_pubkey;
  freeze_authority ← read_optional_pubkey;
  mret (InitializeMint mint mint_authority freeze_authority decimals).

(** src/src/token_program.c:157-173 [decode_initialize_account] *)
Definition decode_initialize_account (tx : idx_transaction) (ix : idx_instruction)
    (kind : idx_token_ix_kind) : reader token_body :=
  account ← require_account tx ix 0;
  mint ← require_account tx ix 1;
  if negb (bool_decide (kind = IDX_TOKEN_IX_INITIALIZE_ACCOUNT)) then
    owner ← read_pubkey;
    mret (InitializeAccount account mint None owner)
  else
    owner_account ← require_account tx ix 2;
    mret (InitializeAccount account mint (Some owner_account) owner_account).

(** src/src/token_program.c:177-195 [decode_initialize_multisig] *)
Definition decode_initialize_multisig (tx : idx_transaction) (ix : idx_instruction)
    (kind : idx_token_ix_kind) : reader token_body :=
  multisig ← require_account tx ix 0;
  required_signatures ← idx_cursor_u8;
  let first_signer := if bool_decide (kind = IDX_TOKEN_IX_INITIALIZE_MULTISIG) then 2 else 1 in
  mret (InitializeMultisig multisig
          (if first_signer <? account_count ix then drop (Z.to_nat first_signer) (account_indices ix) else [])
          required_signatures).

(** src/src/token_program.c:219-344 [idx_token_instruction_decode]: the switch. *)
Definition read_token (tx : idx_transaction) (ix : idx_instruction) (kind : idx_token_ix_kind)
    : reader token_body :=
  match kind with
  | IDX_TOKEN_IX_INITIALIZE_MINT | IDX_TOKEN_IX_INITIALIZE_MINT2 => decode_initialize_mint tx ix
  | IDX_TOKEN_IX_INITIALIZE_ACCOUNT | IDX_TOKEN_IX_INITIALIZE_ACCOUNT2 | IDX_TOKEN_IX_INITIALIZE_ACCOUNT3 =>
      decode_initialize_account tx ix kind
  | IDX_TOKEN_IX_INITIALIZE_MULTISIG | IDX_TOKEN_IX_INITIALIZE_MULTISIG2 =>
      decode_initialize_multisig tx ix kind
  | IDX_TOKEN_IX_TRANSFER =>
      source ← require_account tx ix 0;
      destination ← require_account tx ix 1;
      authority ← require_account tx ix 2;
      a ← read_amount false;
      mret (Transfer source destination authority None a.1 a.2)
  | IDX_TOKEN_IX_TRANSFER_CHECKED =>
      source ← require_account tx ix 0;
      mint ← require_account tx ix 1;
      destination ← require_account tx ix 2;
      authority ← require_account tx ix 3;
      a ← read_amount true;
      mret (Transfer source destination authority (Some mint) a.1 a.2)
  | IDX_TOKEN_IX_APPROVE =>
      source ← require_account tx ix 0;
      delegate ← require_account tx ix 1;
      owner ← require_account tx ix 2;
      a ← read_amount false;
      mret (Approve source delegate owner None a.1 a.2)
  | IDX_TOKEN_IX_APPROVE_CHECKED =>
      source ← require_account tx ix 0;
      mint ← require_account tx ix 1;
      delegate ← require_account tx ix 2;
      owner ← require_account tx ix 3;
      a ← read_amount true;
      mret (Approve source delegate owner (Some mint) a.1 a.2)
  | IDX_TOKEN_IX_REVOKE =>
      source ← require_account tx ix 0;
      owner ← require_account tx ix 1;
      mret (Revoke source owner)
  | IDX_TOKEN_IX_SET_AUTHORITY =>
      account ← require_account tx ix 0;
      authority ← require_account tx ix 1;
      authority_type ← idx_cursor_u8;
      new_authority ← read_optional_pubkey;
      mret (SetAuthority account authority new_authority authority_type)
  | IDX_TOKEN_IX_MINT_TO | IDX_TOKEN_IX_MINT_TO_CHECKED =>
      mint ← require_account tx ix 0;
      account ← require_account tx ix 1;
      authority ← require_account tx ix 2;
      a ← read_amount (bool_decide (kind = IDX_TOKEN_IX_MINT_TO_CHECKED));
      mret (MintTo mint account authority a.1 a.2)
  | IDX_TOKEN_IX_BURN | IDX_TOKEN_IX_BURN_CHECKED =>
      account ← require_account tx ix 0;
      mint ← require_account tx ix 1;
      authority ← require_account tx ix 2;
      a ← read_amount (bool_decide (kind = IDX_TOKEN_IX_BURN_CHECKED));
      mret (Burn account mint authority a.1 a.2)
  | IDX_TOKEN_IX_CLOSE_ACCOUNT =>
      account ← require_account tx ix 0;
      destination ← require_account tx ix 1;
      owner ← require_account tx ix 2;
      mret (CloseAccount account destination owner)
  | IDX_TOKEN_IX_FREEZE_ACCOUNT | IDX_TOKEN_IX_THAW_ACCOUNT =>
      account ← require_account tx ix 0;
      mint ← require_account tx ix 1;
      authority ← require_account tx ix 2;
      mret (FreezeAccount account mint authority)
  | IDX_TOKEN_IX_SYNC_NATIVE | IDX_TOKEN_IX_INITIALIZE_IMMUTABLE_OWNER =>
      account ← require_account tx ix 0;
      mret (AccountOnly account)
  | IDX_TOKEN_IX_GET_ACCOUNT_DATA_SIZE =>
      mint ← require_account tx ix 0;
      mret (MintQuery mint 0)
  | IDX_TOKEN_IX_AMOUNT_TO_UI_AMOUNT =>
      mint ← require_account tx ix 0;
      amount ← idx_cursor_u64le;
      mret (MintQuery mint amount)
  | IDX_TOKEN_IX_UI_AMOUNT_TO_AMOUNT =>
      mint ← require_account tx ix 0;
      ui_amount ← (fun cursor => idx_cursor_take (idx_cursor_remaining cursor) cursor) : reader idx_slice;
      mret (UiAmountToAmount mint ui_amount)
  end.

(** src/src/token_program.c:197-348 [idx_token_instruction_decode]; the guard on null
    arguments is excluded by the types. *)
Definition idx_token_instruction_decode (tx : idx_transaction) (ix : idx_instruction)
    : result idx_token_instruction :=
  run_reader
    (discriminant ← idx_cursor_u8;
     if 24 <? discriminant then lift (IDX_FAIL IDX_ERR_NOT_FOUND)
     else
       match token_kinds !! Z.to_nat discriminant with
       | None => lift (IDX_FAIL IDX_ERR_INTERNAL)
       | Some kind => body ← read_token tx ix kind; mret (TokenInstruction kind body)
       end)
    (ix_data ix).

(** ** The wire format *)

(** The value of a kind. *)
Definition token_kind_value (kind : idx_token_ix_kind) : Z :=
  match kind with
  | IDX_TOKEN_IX_INITIALIZE_MINT => 0
  | IDX_TOKEN_IX_INITIALIZE_ACCOUNT => 1
  | IDX_TOKEN_IX_INITIALIZE_MULTISIG => 2
  | IDX_TOKEN_IX_TRANSFER => 3
  | IDX_TOKEN_IX_APPROVE => 4
  | IDX_TOKEN_IX_REVOKE => 5
  | IDX_TOKEN_IX_SET_AUTHORITY => 6
  | IDX_TOKEN_IX_MINT_TO => 7
  | IDX_TOKEN_IX_BURN => 8
  | IDX_TOKEN_IX_CLOSE_ACCOUNT => 9
  | IDX_TOKEN_IX_FREEZE_ACCOUNT => 10
  | IDX_TOKEN_IX_THAW_ACCOUNT => 11
  | IDX_TOKEN_IX_TRANSFER_CHECKED => 12
  | IDX_TOKEN_IX_APPROVE_CHECKED => 13
  | IDX_TOKEN_IX_MINT_TO_CHECKED => 14
  | IDX_TOKEN_IX_BURN_CHECKED => 15
  | IDX_TOKEN_IX_INITIALIZE_ACCOUNT2 => 16
  | IDX_TOKEN_IX_SYNC_NATIVE => 17
  | IDX_TOKEN_IX_INITIALIZE_ACCOUNT3 => 18
  | IDX_TOKEN_IX_INITIALIZE_MULTISIG2 => 19
  | IDX_TOKEN_IX_INITIALIZE_MINT2 => 20
  | IDX_TOKEN_IX_GET_ACCOUNT_DATA_SIZE => 21
  | IDX_TOKEN_IX_INITIALIZE_IMMUTABLE_OWNER => 22
  | IDX_TOKEN_IX_AMOUNT_TO_UI_AMOUNT => 23
  | IDX_TOKEN_IX_UI_AMOUNT_TO_AMOUNT => 24
  end.

(** An optional key: its tag, and the key. *)
Definition coption (k : option idx_pubkey) : bytes :=
  match k with None => [0] | Some k => 1 :: key_bytes k end.

Definition amount_bytes (amount : Z) (decimals : option Z) : bytes :=
  le64 amount ++ match decimals with None => [] | Some d => [d] end.

(** The data after the discriminant, as the program packs it. *)
Definition token_payload (i : idx_token_instruction) : bytes :=
  match body i with
  | InitializeMint _ mint_authority freeze_authority decimals =>
      [decimals] ++ key_bytes mint_authority ++ coption freeze_authority
  | InitializeAccount _ _ None owner => key_bytes owner
  | InitializeAccount _ _ (Some _) _ => []
  | InitializeMultisig _ _ required_signatures => [required_signatures]
  | Transfer _ _ _ _ amount decimals | Approve _ _ _ _ amount decimals
  | MintTo _ _ _ amount decimals | Burn _ _ _ amount decimals => amount_bytes amount decimals
  | SetAuthority _ _ new_authority authority_type => [authority_type] ++ coption new_authority
  | MintQuery _ amount => match kind i with IDX_TOKEN_IX_GET_ACCOUNT_DATA_SIZE => [] | _ => le64 amount end
  | UiAmountToAmount _ ui_amount => slice_bytes ui_amount
  | Revoke _ _ | CloseAccount _ _ _ | FreezeAccount _ _ _ | AccountOnly _ => []
  end.

(** The accounts at their positions; a checked transfer or approval has the mint
    between its first two. *)
Definition token_accounts (b : token_body) : list (Z * idx_pubkey) :=
  match b with
  | InitializeMint mint _ _ _ => [(0, mint)]
  | InitializeAccount account mint None _ => [(0, account); (1, mint)]
  | InitializeAccount account mint (Some owner) _ => [(0, account); (1, mint); (2, owner)]
  | InitializeMultisig multisig _ _ => [(0, multisig)]
  | Transfer a b c None _ _ | Approve a b c None _ _ => [(0, a); (1, b); (2, c)]
  | Transfer a b c (Some mint) _ _ | Approve a b c (Some mint) _ _ => [(0, a); (1, mint); (2, b); (3, c)]
  | Revoke source owner => [(0, source); (1, owner)]
  | SetAuthority account authority _ _ => [(0, account); (1, authority)]
  | MintTo a b c _ _ | Burn a b c _ _ | CloseAccount a b c | FreezeAccount a b c => [(0, a); (1, b); (2, c)]
  | AccountOnly account => [(0, account)]
  | MintQuery mint _ => [(0, mint)]
  | UiAmountToAmount mint _ => [(0, mint)]
  end.

Definition okey_ok (k : option idx_pubkey) : Prop := match k with None => True | Some k => key_ok k end.

(** The amount of an operation whose form is checked or not. *)
Definition amount_ok (checked : bool) (mint : option idx_pubkey) (amount : Z) (decimals : option Z) : Prop :=
  is_u64 amount /\ (if checked then is_Some mint /\ (exists d, decimals = Some d /\ is_byte d)
                    else mint = None /\ decimals = None).

Definition scale_ok (checked : bool) (amount : Z) (decimals : option Z) : Prop :=
  is_u64 amount /\ (if checked then exists d, decimals = Some d /\ is_byte d else decimals = None).

(** The fields a kind can have. *)
Definition token_fields_ok (ix : idx_instruction) (i : idx_token_instruction) : Prop :=
  match kind i, body i with
  | (IDX_TOKEN_IX_INITIALIZE_MINT | IDX_TOKEN_IX_INITIALIZE_MINT2), InitializeMint _ m f d =>
      key_ok m /\ okey_ok f /\ is_byte d
  | IDX_TOKEN_IX_INITIALIZE_ACCOUNT, InitializeAccount _ _ oa o => oa = Some o
  | (IDX_TOKEN_IX_INITIALIZE_ACCOUNT2 | IDX_TOKEN_IX_INITIALIZE_ACCOUNT3), InitializeAccount _ _ oa o =>
      oa = None /\ key_ok o
  | IDX_TOKEN_IX_INITIALIZE_MULTISIG, InitializeMultisig _ s r => s = drop 2 (account_indices ix) /\ is_byte r
  | IDX_TOKEN_IX_INITIALIZE_MULTISIG2, InitializeMultisig _ s r => s = drop 1 (account_indices ix) /\ is_byte r
  | IDX_TOKEN_IX_TRANSFER, Transfer _ _ _ m a d => amount_ok false m a d
  | IDX_TOKEN_IX_TRANSFER_CHECKED, Transfer _ _ _ m a d => amount_ok true m a d
  | IDX_TOKEN_IX_APPROVE, Approve _ _ _ m a d => amount_ok false m a d
  | IDX_TOKEN_IX_APPROVE_CHECKED, Approve _ _ _ m a d => amount_ok true m a d
  | IDX_TOKEN_IX_REVOKE, Revoke _ _ => True
  | IDX_TOKEN_IX_SET_AUTHORITY, SetAuthority _ _ n t => okey_ok n /\ is_byte t
  | IDX_TOKEN_IX_MINT_TO, MintTo _ _ _ a d => scale_ok false a d
  | IDX_TOKEN_IX_MINT_TO_CHECKED, MintTo _ _ _ a d => scale_ok true a d
  | IDX_TOKEN_IX_BURN, Burn _ _ _ a d => scale_ok false a d
  | IDX_TOKEN_IX_BURN_CHECKED, Burn _ _ _ a d => scale_ok true a d
  | IDX_TOKEN_IX_CLOSE_ACCOUNT, CloseAccount _ _ _ => True
  | (IDX_TOKEN_IX_FREEZE_ACCOUNT | IDX_TOKEN_IX_THAW_ACCOUNT), FreezeAccount _ _ _ => True
  | (IDX_TOKEN_IX_SYNC_NATIVE | IDX_TOKEN_IX_INITIALIZE_IMMUTABLE_OWNER), AccountOnly _ => True
  | IDX_TOKEN_IX_GET_ACCOUNT_DATA_SIZE, MintQuery _ a => a = 0
  | IDX_TOKEN_IX_AMOUNT_TO_UI_AMOUNT, MintQuery _ a => is_u64 a
  | IDX_TOKEN_IX_UI_AMOUNT_TO_AMOUNT, UiAmountToAmount _ s => is_Some s
  | _, _ => False
  end.

(** The text of [UiAmountToAmount] is all that is left of the data. *)
Definition token_tail_ok (i : idx_token_instruction) (tail : bytes) : Prop :=
  kind i = IDX_TOKEN_IX_UI_AMOUNT_TO_AMOUNT -> tail = [].

(** ** Lemmas *)

Lemma reads_optional k : okey_ok k -> reads read_optional_pubkey (coption k) k.
Proof.
  unfold read_optional_pubkey. destruct k as [k|]; intros Hk.
  - change (coption (Some k)) with ([1] ++ key_bytes k). eapply reads_bind; [apply reads_u8|]. cbn [Z.eqb Pos.eqb negb].
    eapply reads_last; [by apply reads_pubkey|apply reads_ret].
  - eapply reads_last; [apply reads_u8|]. apply reads_ret.
Qed.

Lemma reads_amount c a d : scale_ok c a d -> reads (read_amount c) (amount_bytes a d) (a, d).
Proof.
  intros [Ha Hd]. unfold read_amount, amount_bytes. eapply reads_bind; [by apply reads_u64|]. destruct c; cbn [negb].
  - destruct Hd as (x & -> & _). eapply reads_last; [apply reads_u8|apply reads_ret].
  - subst d. apply reads_ret.
Qed.

Lemma wrote_optional : wrote read_optional_pubkey (fun k e => e = coption k /\ okey_ok k).
Proof.
  intros c k c' Hc E. unfold read_optional_pubkey in E. apply bind_inv in E as (tag & c1 & E1 & E).
  destruct (wrote_u8 c tag c1 Hc E1) as (e1 & Hr1 & [-> _] & Hc1). destruct (Z.eqb_spec tag 0) as [->|Hne].
  { injection E as <- <-. by exists [0]. }
  destruct (Z.eqb_spec tag 1) as [->|]; [|done]. cbn [negb] in E. apply bind_inv in E as (key & c2 & E2 & [= <- <-]).
  destruct (wrote_pubkey c1 key c2 Hc1 E2) as (e2 & Hr2 & [-> Hk] & Hc2). exists (1 :: key_bytes key). rewrite Hr1, Hr2. done.
Qed.

Lemma wrote_amount b : wrote (read_amount b) (fun p e => e = amount_bytes p.1 p.2 /\ scale_ok b p.1 p.2).
Proof.
  intros c [a d] c' Hc E. unfold read_amount in E. apply bind_inv in E as (a' & c1 & E1 & E).
  destruct (wrote_u64 c a' c1 Hc E1) as (e1 & Hr1 & [-> Ha] & Hc1). destruct b; cbn [negb] in E.
  - apply bind_inv in E as (x & c2 & E2 & [= <- <- <-]). destruct (wrote_u8 c1 x c2 Hc1 E2) as (e2 & Hr2 & [-> Hx] & Hc2).
    exists (amount_bytes a' (Some x)). unfold amount_bytes. rewrite Hr1, Hr2, <- app_assoc. split; [done|]. unfold scale_ok. simpl. eauto 6.
  - injection E as <- <- <-. exists (amount_bytes a' None). unfold amount_bytes. rewrite Hr1, app_nil_r. split; [done|].
    unfold scale_ok. simpl. eauto 6.
Qed.

#[export] Hint Resolve reads_optional reads_amount : wire.

Lemma amount_scale checked mint a d :
  amount_ok checked mint a d -> scale_ok checked a d /\ (if checked then is_Some mint else mint = None).
Proof. unfold amount_ok, scale_ok. destruct checked; naive_solver. Qed.

(** The signers are the accounts after the first one or two, however few. *)
Lemma drop_signers (ix : idx_instruction) n :
  0 <= n -> (if n <? account_count ix then drop (Z.to_nat n) (account_indices ix) else []) =
            drop (Z.to_nat n) (account_indices ix).
Proof.
  intros Hn. destruct (_ <? _) eqn:E; [done|]. unfold account_count, size in E. zbool. symmetry. apply drop_ge. lia.
Qed.

Lemma reads_multisig tx ix k multisig r :
  idx_instruction_account tx ix 0 = Some multisig ->
  reads (decode_initialize_multisig tx ix k) [r]
    (InitializeMultisig multisig
       (drop (if bool_decide (k = IDX_TOKEN_IX_INITIALIZE_MULTISIG) then 2 else 1) (account_indices ix)) r).
Proof.
  intros Hm. unfold decode_initialize_multisig. cbv zeta.
  eapply reads_step; [by apply reads_account|]. eapply reads_last; [apply reads_u8|].
  rewrite drop_signers by (by case_bool_decide). case_bool_decide; apply reads_ret.
Qed.

(** Unpacks what a kind and its fields allow. *)
Ltac token_fields Hf Hn :=
  unfold token_fields_ok in Hf; cbn [kind body] in Hf; unfold names in Hn; cbn [body token_accounts] in Hn;
  try match type of Hf with False => destruct Hf end;
  try match type of Hf with amount_ok _ _ _ _ => apply amount_scale in Hf as [Hf ?] end.

Lemma reads_token tx ix i :
  token_fields_ok ix i -> names tx ix (token_accounts (body i)) -> kind i <> IDX_TOKEN_IX_UI_AMOUNT_TO_AMOUNT ->
  reads (read_token tx ix (kind i)) (token_payload i) (body i).
Proof.
  intros Hf Hn Hui. destruct i as [k b].
  destruct k, b; token_fields Hf Hn; try done;
    repeat match goal with
           | H : _ /\ _ |- _ => destruct H
           | H : is_Some ?m |- _ => destruct H as [? ->]
           | H : _ = None |- _ => subst
           | H : _ = Some _ |- _ => subst
           | H : ?a = 0 |- _ => subst a
           | H : ?l = drop _ _ |- _ => subst l
           end;
    cbn [body token_accounts] in Hn; rewrite ?Forall_cons in Hn; cbn [fst snd] in Hn; destruct_and?;
    unfold token_payload; cbn [kind body read_token]; 
    try (by apply reads_multisig); unfold decode_initialize_mint, decode_initialize_account; reads_chain.
Qed.

Ltac inv_token Hlive H :=
  lazymatch type of H with
  | (_ ← read_optional_pubkey; _) _ = Ok _ => inv_wrote Hlive H wrote_optional
  | (_ ← read_amount ?b; _) _ = Ok _ => inv_wrote Hlive H (wrote_amount b)
  | _ => inv_step Hlive H
  end.

Ltac inv_chain H := repeat match goal with Hl : live _ |- _ => inv_token Hl H end.

(** What a variant read, put together. *)
Ltac token_bytes :=
  unfold token_payload; cbn [kind body];
  repeat match goal with E : rest ?c = _ |- context [rest ?c] => rewrite E; clear E end;
  rewrite <- ?app_assoc; reflexivity.

Ltac token_names := unfold names; cbn [body token_accounts]; rewrite ?Forall_cons, ?Forall_nil; cbn [fst snd]; repeat split; auto.

(** What a success of the switch says. *)
Definition token_read (tx : idx_transaction) (ix : idx_instruction) (i : idx_token_instruction) (before after : bytes) : Prop :=
  before = token_payload i ++ after /\ token_fields_ok ix i /\ names tx ix (token_accounts (body i)) /\ token_tail_ok i after.

Lemma amount_ok_unchecked a d : scale_ok false a d -> amount_ok false None a d.
Proof. unfold scale_ok, amount_ok. naive_solver. Qed.

Lemma amount_ok_checked m a d : scale_ok true a d -> amount_ok true (Some m) a d.
Proof. unfold scale_ok, amount_ok. naive_solver. Qed.

Lemma mint_read tx ix k b c c' :
  k = IDX_TOKEN_IX_INITIALIZE_MINT \/ k = IDX_TOKEN_IX_INITIALIZE_MINT2 -> live c ->
  decode_initialize_mint tx ix c = Ok (b, c') -> token_read tx ix (TokenInstruction k b) (rest c) (rest c').
Proof.
  intros Hk Hc H. unfold decode_initialize_mint in H. inv_chain H. injection H as <- <-.
  split; [token_bytes|]. split; [by destruct Hk as [->| ->]|]. split; [token_names|]. by destruct Hk as [->| ->].
Qed.

Lemma account_read tx ix k b c c' :
  k = IDX_TOKEN_IX_INITIALIZE_ACCOUNT \/ k = IDX_TOKEN_IX_INITIALIZE_ACCOUNT2 \/ k = IDX_TOKEN_IX_INITIALIZE_ACCOUNT3 ->
  live c -> decode_initialize_account tx ix k c = Ok (b, c') ->
  token_read tx ix (TokenInstruction k b) (rest c) (rest c').
Proof.
  intros Hk Hc H. unfold decode_initialize_account in H. do 2 inv_token Hc H. case_bool_decide as E; cbn [negb] in H.
  - inv_chain H. injection H as <- <-. subst k. split; [done|]. split; [done|]. split; [token_names|done].
  - inv_chain H. injection H as <- <-. split; [token_bytes|]. destruct Hk as [->|[->| ->]]; [done| |];
      (split; [done|]; split; [token_names|done]).
Qed.

Lemma multisig_read tx ix k b c c' :
  k = IDX_TOKEN_IX_INITIALIZE_MULTISIG \/ k = IDX_TOKEN_IX_INITIALIZE_MULTISIG2 ->
  live c -> decode_initialize_multisig tx ix k c = Ok (b, c') ->
  token_read tx ix (TokenInstruction k b) (rest c) (rest c').
Proof.
  intros Hk Hc H. unfold decode_initialize_multisig in H. cbv zeta in H. inv_chain H. injection H as <- <-.
  rewrite drop_signers by (by case_bool_decide). split; [token_bytes|].
  destruct Hk as [->| ->]; (split; [done|]; split; [token_names|done]).
Qed.

Lemma ui_read tx ix b c c' :
  live c -> read_token tx ix IDX_TOKEN_IX_UI_AMOUNT_TO_AMOUNT c = Ok (b, c') ->
  token_read tx ix (TokenInstruction IDX_TOKEN_IX_UI_AMOUNT_TO_AMOUNT b) (rest c) (rest c').
Proof.
  intros Hc H. cbn [read_token] in H. inv_token Hc H. apply bind_inv in H as (s & c1 & E & [= <- <-]).
  pose proof Hc as (Hok & _ & _). rewrite cursor_remaining in E by done.
  destruct (wrote_take (size (rest c)) ltac:(unfold size; lia) c s c1 Hc E) as (e & Hr & [-> Hs] & Hc1).
  assert (rest c1 = []) as Hnil.
  { assert (length (rest c1) = 0%nat) as Hz; [|by destruct (rest c1)]. unfold size in Hs.
    apply (f_equal length) in Hr. rewrite length_app in Hr. lia. }
  split; [exact Hr|]. split; [by eexists|]. split; [token_names|]. by intros _.
Qed.

Lemma token_switch_read tx ix k b c c' :
  live c -> read_token tx ix k c = Ok (b, c') -> token_read tx ix (TokenInstruction k b) (rest c) (rest c').
Proof.
  intros Hc H. pose proof amount_ok_unchecked. pose proof amount_ok_checked. destruct k;
    try (by eapply mint_read; auto); try (by eapply account_read; auto); try (by eapply multisig_read; auto);
    try (by eapply ui_read); cbn [read_token] in H; inv_chain H; injection H as <- <-;
    (split; [token_bytes|]); (split; [unfold token_fields_ok; cbn [kind body]; auto|]); (split; [token_names|done]).
Qed.

Lemma token_kind_lookup k : 0 <= token_kind_value k <= 24 /\ token_kinds !! Z.to_nat (token_kind_value k) = Some k.
Proof. by destruct k. Qed.

Lemma token_kind_of_value d k : 0 <= d -> token_kinds !! Z.to_nat d = Some k -> d = token_kind_value k.
Proof.
  intros Hd Hk. pose proof (proj2 (token_kind_lookup k)) as Hk'.
  assert (NoDup token_kinds) as Hnd by decide_now.
  pose proof (NoDup_lookup _ _ _ _ Hnd Hk Hk'). pose proof (proj1 (token_kind_lookup k)). lia.
Qed.

(** The switch on the bytes of a value. *)
Lemma token_switch_complete tx ix i tail c :
  token_fields_ok ix i -> names tx ix (token_accounts (body i)) -> token_tail_ok i tail ->
  live c -> rest c = token_payload i ++ tail -> exists c', read_token tx ix (kind i) c = Ok (body i, c').
Proof.
  intros Hf Hn Ht Hc Hr. destruct (decide (kind i = IDX_TOKEN_IX_UI_AMOUNT_TO_AMOUNT)) as [Hk|Hk].
  - destruct i as [k b]. cbn [kind] in Hk. subst k. rewrite (Ht eq_refl), app_nil_r in Hr.
    destruct b as [| | | | | | | | | | | | |mint s]; try done. destruct Hf as [l ->].
    unfold names in Hn. cbn [body token_accounts] in Hn. apply Forall_cons in Hn as [Hm _]. cbn [fst snd] in Hm.
    pose proof Hc as (Hok & _ & Hin). destruct (cursor_take_app c (size (rest c)) (rest c) [] Hok) as (s & c1 & E & Hs & _ & _);
      [by rewrite app_nil_r|done|]. exists c1. cbn [kind body read_token]. unfold mbind, reader_bind.
    destruct (reads_account tx ix 0 mint Hm c (rest c) Hok eq_refl) as (c2 & Ea & _).
    pose proof Ea as [_ ->]%account_inv. rewrite Ea, cursor_remaining, E by done.
    unfold mret, reader_ret. do 3 f_equal. cbn [body].
    destruct (wrote_take (size (rest c)) ltac:(unfold size; lia) c s c1 Hc E) as (e & _ & [-> _] & _).
    cbn in Hs. rewrite Hs, Hr. done.
  - pose proof Hc as (Hok & _). destruct (reads_token tx ix i Hf Hn Hk c tail Hok Hr) as (c' & E & _). by exists c'.
Qed.

(** ** Properties *)

(** C14. The decoder inverts the token program's packing, and only that.  An
    instruction decodes to [i] exactly when its data is the discriminant of [i]'s
    kind, the packed fields and possibly more, its accounts stand where the variant
    takes them (a checked transfer or approval has the mint second), and the fields
    are ones the kind has: decimals and mint exactly for the checked forms, the
    multisig's signers the accounts after the multisig (and the rent sysvar, in the
    first form), and the text of [UiAmountToAmount] all the data there is. *)
Theorem token_decode_iff tx ix i :
  slice_len (ix_data ix) < 2 ^ 64 -> bytes_ok (slice_bytes (ix_data ix)) ->
  idx_token_instruction_decode tx ix = Ok i <->
  token_fields_ok ix i /\
  Forall (fun pk => idx_instruction_account tx ix pk.1 = Some pk.2) (token_accounts (body i)) /\
  exists tail, slice_bytes (ix_data ix) = token_kind_value (kind i) :: token_payload i ++ tail /\ token_tail_ok i tail.
Proof.
  intros Hl Hb. assert (slice_bytes (ix_data ix) <> [] -> live (idx_cursor_init (ix_data ix))) as Hlive.
  { intros Hne. by apply init_live. }
  unfold idx_token_instruction_decode. split.
  - intros [c E]%run_inv. apply bind_inv in E as (d & c1 & E1 & E2).
    assert (slice_bytes (ix_data ix) <> []) as Hne.
    { intros Hnil. pose proof (consumes_u8 (idx_cursor_init (ix_data ix)) (cursor_init_ok _ Hl)) as H.
      rewrite rest_init, Hnil in H. simpl in H. by rewrite H in E1. }
    destruct (wrote_u8 _ _ _ (Hlive Hne) E1) as (e & Hr & [-> Hd] & Hc1). rewrite rest_init in Hr. unfold is_byte in Hd.
    destruct (24 <? d); [done|]. destruct (token_kinds !! Z.to_nat d) as [k|] eqn:Hk; [|done].
    apply token_kind_of_value in Hk as ->; [|lia]. apply bind_inv in E2 as (b & c2 & E2 & [= <- <-]).
    destruct (token_switch_read tx ix k b c1 c2 Hc1 E2) as (Hr2 & Hf & Hn & Ht). split_and!; [done..|].
    exists (rest c2). by rewrite Hr, Hr2.
  - intros (Hf & Hn & tail & Hs & Ht). destruct (token_kind_lookup (kind i)) as [Hk Hkl].
    specialize (Hlive ltac:(by rewrite Hs)). pose proof Hlive as (Hok & _).
    destruct (reads_u8 (token_kind_value (kind i)) (idx_cursor_init (ix_data ix)) (token_payload i ++ tail) Hok) as (c1 & E1 & Hr1 & _);
      [by rewrite rest_init|]. destruct (wrote_u8 _ _ _ Hlive E1) as (e & _ & _ & Hc1).
    destruct (token_switch_complete tx ix i tail c1 Hf Hn Ht Hc1 Hr1) as (c2 & E2).
    unfold run_reader, mbind, reader_bind. rewrite E1, (proj2 (Z.ltb_ge _ _)), Hkl, E2 by lia. by destruct i.
Qed.

(** ** Witnesses *)

(** A checked transfer of 250 at 6 decimals, over four accounts. *)
Definition sample_checked : idx_instruction :=
  Instruction 1 [0; 1; 0; 1] (Some ([12] ++ le64 250 ++ [6])) 0.

Lemma token_decode_iff_witness :
  exists i, idx_token_instruction_decode two_accounts sample_checked = Ok i /\
    kind i = IDX_TOKEN_IX_TRANSFER_CHECKED.
Proof.
  exists (TokenInstruction IDX_TOKEN_IX_TRANSFER_CHECKED
            (Transfer (Pubkey (replicate 32 1)) (Pubkey (replicate 32 1)) (Pubkey (replicate 32 2))
               (Some (Pubkey (replicate 32 2))) 250 (Some 6))).
  split; [|reflexivity].
  apply (token_decode_iff two_accounts sample_checked); [reflexivity|decide_now|].
  split; [split; [decide_now|]; split; [by eexists|]; exists 6; split; [reflexivity|decide_now]|].
  split; [repeat constructor|]. exists []. split; [reflexivity|done].
Defined.
