(* ===== verification/Balance.v ===== *)
(** * balance.c: the balance changes of a transaction

    The rows are written one after another into an array the arena zeroed, sized
    for the worst case; here they are the list of the rows written, so [*out_count]
    is its length and [NULL] the empty list.  An owner valid only when [has_owner]
    is set is an option, and the null guards are excluded by the types.  A read of
    [tx->accounts] past its end is undefined in the source; [!!!] stands for it and
    the theorems are about transactions where it does not happen ([tx_ok], which
    every decoded transaction satisfies).

    The SOL rows are the accounts whose balance moved, with the exact signed
    movement; the token rows are the join of the two lists of the metadata on the
    account and its mint, one row for each holding whose amount changed. *)

From S2P Require Import Prelude Radix Base58 Bytes Types Json Arena Block.
#[local] Open Scope Z_scope.

Definition INT64_MAX : Z := 2 ^ 63 - 1.

#[export] Instance idx_pubkey_inhabited : Inhabited idx_pubkey := populate IDX_PUBKEY_DEFAULT.
#[export] Instance idx_account_inhabited : Inhabited idx_account :=
  populate (Account IDX_PUBKEY_DEFAULT false false false).

(** src/include/balance.h:48-52 [idx_sol_balance] *)
Record idx_sol_balance := SolBalance { sol_account : idx_pubkey; lamports : Z; delta : Z }.

(** src/include/balance.h:91-101 [idx_token_balance_state] *)
Record idx_token_balance_state := TokenState {
  ts_account : idx_pubkey;
  ts_mint : idx_pubkey;
  ts_owner : option idx_pubkey;
  ts_amount : Z;
  ts_previous : Z;
  ts_decimals : Z;
  existed_before : bool;
  closed : bool
}.

Definition sizeof_sol_balance : Z := 48.
Definition sizeof_token_state : Z := 120.

(** [tx->accounts[i].pubkey] *)
Definition account_key (tx : idx_transaction) (i : nat) : idx_pubkey := acc_pubkey (accounts tx !!! i).

(** src/src/balance.c:9-20 [signed_delta] *)
Definition signed_delta (before after : Z) : result Z :=
  let increased := before <=? after in
  let magnitude := if increased then u64 (after - before) else u64 (before - after) in
  if INT64_MAX <? magnitude then IDX_FAIL IDX_ERR_RANGE
  else Ok (if increased then magnitude else - magnitude).

(** src/src/balance.c:44-56 [idx_sol_balance_extract]: the loop, from index [i]
    on. *)
Fixpoint sol_loop (tx : idx_transaction) (i : nat) (pre post : list Z) : result (list idx_sol_balance) :=
  match pre, post with
  | before :: pre', after :: post' =>
      if before =? after then sol_loop tx (S i) pre' post'
      else
        delta ← signed_delta before after;
        rest ← sol_loop tx (S i) pre' post';
        Ok (SolBalance (account_key tx i) after delta :: rest)
  | _, _ => Ok []
  end.

(** src/src/balance.c:68-72 [same_holding] *)
Definition same_holding (a b : idx_token_balance) : bool :=
  (tb_account_index a =? tb_account_index b) && idx_pubkey_equal (tb_mint a) (tb_mint b).

(** src/src/balance.c:79-92 [check_unique]: the two loops; [seen] holds the entries
    before index [i]. *)
Fixpoint check_unique (seen list : list idx_token_balance) : result unit :=
  match list with
  | [] => Ok tt
  | entry :: list' =>
      if existsb (same_holding entry) seen then IDX_FAIL IDX_ERR_PARSE
      else check_unique (seen ++ [entry]) list'
  end.

(** src/src/balance.c:96-105 [find_holding] *)
Definition find_holding (list : list idx_token_balance) (needle : idx_token_balance)
    : option idx_token_balance :=
  List.find (fun entry => same_holding entry needle) list.

(** src/src/balance.c:109-119 [fill_holding]: the shared fields, the others
    given. *)
Definition fill_holding (tx : idx_transaction) (entry : idx_token_balance)
    (amount previous : Z) (existed closed : bool) : idx_token_balance_state :=
  TokenState (account_key tx (Z.to_nat (tb_account_index entry))) (tb_mint entry) (tb_owner entry)
    amount previous (tb_decimals entry) existed closed.

(** src/src/balance.c:149-168 [idx_token_balance_extract]: the rows of the post
    list. *)
Definition post_row (tx : idx_transaction) (pre : list idx_token_balance) (after : idx_token_balance)
    : option idx_token_balance_state :=
  let before := find_holding pre after in
  let previous := match before with Some b => tb_amount b | None => 0 end in
  if previous =? tb_amount after then None
  else Some (fill_holding tx after (tb_amount after) previous (bool_decide (is_Some before)) false).

(** src/src/balance.c:170-184 [idx_token_balance_extract]: the rows of what the post
    list does not mention. *)
Definition pre_row (tx : idx_transaction) (post : list idx_token_balance) (before : idx_token_balance)
    : option idx_token_balance_state :=
  if (tb_amount before =? 0) || bool_decide (is_Some (find_holding post before)) then None
  else Some (fill_holding tx before 0 (tb_amount before) true true).

Section extract.
Context {A : Type} `{ArenaOps A}.

(** src/src/balance.c:22-64 [idx_sol_balance_extract] *)
Definition idx_sol_balance_extract (tx : idx_transaction) (arena : A)
    : result (list idx_sol_balance) * A :=
  if size (pre_balances tx) =? 0 then (Ok [], arena)
  else
    let '(raw, arena') := arena_calloc (size (pre_balances tx)) sizeof_sol_balance arena in
    (_ ← raw; sol_loop tx 0 (pre_balances tx) (post_balances tx), arena').

(** src/src/balance.c:121-192 [idx_token_balance_extract] *)
Definition idx_token_balance_extract (tx : idx_transaction) (arena : A)
    : result (list idx_token_balance_state) * A :=
  let pre := pre_token_balances tx in
  let post := post_token_balances tx in
  if ((size pre =? 0) && (size post =? 0)) || bool_decide (accounts tx = []) then (Ok [], arena)
  else
    match (_ ← check_unique [] pre; check_unique [] post) with
    | Err e => (Err e, arena)
    | Ok _ =>
        let '(raw, arena') := arena_calloc (u64 (size pre + size post)) sizeof_token_state arena in
        (_ ← raw; Ok (omap (post_row tx pre) post ++ omap (pre_row tx post) pre), arena')
    end.
End extract.

(** ** SOL balances *)

Lemma signed_delta_spec before after :
  is_u64 before -> is_u64 after ->
  signed_delta before after =
    if Z.abs (after - before) <? 2 ^ 63 then Ok (after - before) else Err IDX_ERR_RANGE.
Proof.
  unfold is_u64, signed_delta, INT64_MAX. intros Hb Ha.
  destruct (Z.leb_spec before after); rewrite u64_small by (unfold is_u64; lia);
    destruct (Z.ltb_spec (Z.abs (after - before)) (2 ^ 63)).
  - rewrite (proj2 (Z.ltb_ge _ _)) by lia. done.
  - by rewrite (proj2 (Z.ltb_lt _ _)) by lia.
  - rewrite (proj2 (Z.ltb_ge _ _)) by lia. f_equal. lia.
  - by rewrite (proj2 (Z.ltb_lt _ _)) by lia.
Qed.

(** The row an account contributes, by the mathematical difference. *)
Definition sol_row (tx : idx_transaction) (i : nat) : option idx_sol_balance :=
  match pre_balances tx !! i, post_balances tx !! i with
  | Some before, Some after =>
      if decide (before = after) then None
      else Some (SolBalance (account_key tx i) after (after - before))
  | _, _ => None
  end.

(** A movement a signed 64-bit difference holds. *)
Definition moves_within (before after : Z) : Prop := Z.abs (after - before) < 2 ^ 63.

#[export] Instance moves_within_dec b a : Decision (moves_within b a).
Proof. unfold moves_within. apply _. Defined.

Lemma drop_cons_inv {X} (l : list X) i x l' : drop i l = x :: l' -> l !! i = Some x /\ drop (S i) l = l'.
Proof.
  revert l. induction i as [|i IH]; intros [|y l]; simpl; try done; [by intros [= -> ->]|]. apply IH.
Qed.

Lemma sol_loop_spec tx (i : nat) pre post :
  Forall is_u64 pre -> Forall is_u64 post ->
  drop i (pre_balances tx) = pre -> drop i (post_balances tx) = post -> length pre = length post ->
  sol_loop tx i pre post =
    if decide (Forall2 moves_within pre post)
    then Ok (omap (sol_row tx) (seq i (length pre))) else Err IDX_ERR_RANGE.
Proof.
  intros Hpre. revert i post. induction Hpre as [|b pre Hb Hpre IH]; intros i [|a post]; try done.
  intros Hp Epre Epost Hlen. inversion Hp as [|?? Ha Hp']; subst.
  destruct (drop_cons_inv _ _ _ _ Epre) as [Hib E1]. destruct (drop_cons_inv _ _ _ _ Epost) as [Hia E2].
  simpl in Hlen. cbn [sol_loop seq length omap list_omap]. rewrite (IH (S i) post) by (done || lia).
  assert (sol_row tx i = if decide (b = a) then None else Some (SolBalance (account_key tx i) a (a - b))) as ->
    by (unfold sol_row; rewrite Hib, Hia; reflexivity).
  destruct (Z.eqb_spec b a) as [->|Hne].
  - rewrite (decide_True (P := a = a)) by reflexivity. apply decide_ext. rewrite Forall2_cons.
    unfold moves_within at 2. split; [|tauto]. intros ?. split; [lia|assumption].
  - rewrite (decide_False (P := b = a)) by assumption. rewrite signed_delta_spec by assumption.
    destruct (Z.ltb_spec (Z.abs (a - b)) (2 ^ 63)) as [Hm|Hm]; cbn [mbind IDX_TRY].
    + destruct (decide (Forall2 moves_within pre post)) as [Hall|Hall]; cbn [mbind IDX_TRY].
      * rewrite decide_True by (constructor; assumption). reflexivity.
      * rewrite decide_False; [reflexivity|]. rewrite Forall2_cons. tauto.
    + rewrite decide_False; [reflexivity|]. rewrite Forall2_cons. unfold moves_within at 1. intros []. lia.
Qed.

Definition sum (l : list Z) : Z := foldr Z.add 0 l.

Lemma sol_rows_sum tx n (i : nat) :
  length (pre_balances tx) = length (post_balances tx) -> (i + n = length (pre_balances tx))%nat ->
  sum (map delta (omap (sol_row tx) (seq i n))) =
    sum (drop i (post_balances tx)) - sum (drop i (pre_balances tx)).
Proof.
  intros Hlen. revert i. induction n as [|n IH]; intros i Hi; cbn [seq omap list_omap].
  { rewrite !drop_ge by lia. reflexivity. }
  destruct (lookup_lt_is_Some_2 (pre_balances tx) i ltac:(lia)) as [b Hb].
  destruct (lookup_lt_is_Some_2 (post_balances tx) i ltac:(lia)) as [a Ha].
  rewrite (drop_S _ _ _ Hb), (drop_S _ _ _ Ha). specialize (IH (S i) ltac:(lia)).
  assert (sol_row tx i = if decide (b = a) then None else Some (SolBalance (account_key tx i) a (a - b))) as ->
    by (unfold sol_row; rewrite Hb, Ha; reflexivity).
  unfold sum in *. cbn [foldr]. destruct (decide (b = a)); cbn [map foldr delta]; lia.
Qed.

Lemma omap_length_le {X Y} (f : X -> option Y) l : (length (omap f l) <= length l)%nat.
Proof. induction l as [|x l IH]; [done|]. cbn [omap list_omap]. destruct (f x); simpl; lia. Qed.

(** ** Token balances *)

(** What the two lists are joined on. *)
Definition holding (b : idx_token_balance) : Z * idx_pubkey := (tb_account_index b, tb_mint b).

Definition entry_of (l : list idx_token_balance) (k : Z * idx_pubkey) : option idx_token_balance :=
  List.find (fun b => bool_decide (holding b = k)) l.

(** What a side says is held; an absent holding is nothing. *)
Definition held (l : list idx_token_balance) (k : Z * idx_pubkey) : Z :=
  default 0 (tb_amount <$> entry_of l k).

(** The observation of one holding, from the entries of the two sides. *)
Definition state_of (tx : idx_transaction) (k : Z * idx_pubkey) : option idx_token_balance_state :=
  match entry_of (pre_token_balances tx) k, entry_of (post_token_balances tx) k with
  | before, Some after =>
      Some (TokenState (account_key tx (Z.to_nat k.1)) k.2 (tb_owner after) (tb_amount after)
              (held (pre_token_balances tx) k) (tb_decimals after) (bool_decide (is_Some before)) false)
  | Some before, None =>
      Some (TokenState (account_key tx (Z.to_nat k.1)) k.2 (tb_owner before) 0
              (tb_amount before) (tb_decimals before) true true)
  | None, None => None
  end.

Abbreviation mints_ok := (Forall (fun b => pubkey_ok (tb_mint b))).

Lemma same_holding_spec a b :
  pubkey_ok (tb_mint a) -> pubkey_ok (tb_mint b) -> same_holding a b = bool_decide (holding a = holding b).
Proof.
  intros Ha Hb. unfold same_holding, holding. apply eq_true_iff_eq.
  rewrite andb_true_iff, Z.eqb_eq, idx_pubkey_equal_spec, bool_decide_eq_true by assumption.
  split; [by intros [-> ->]|by intros [= -> ->]].
Qed.

Lemma find_holding_spec l needle :
  mints_ok l -> pubkey_ok (tb_mint needle) -> find_holding l needle = entry_of l (holding needle).
Proof.
  intros Hl Hn. unfold find_holding, entry_of. induction Hl as [|b l Hb Hl IH]; [done|]. simpl.
  rewrite same_holding_spec by assumption. by rewrite IH.
Qed.

Lemma check_unique_spec seen l :
  mints_ok (seen ++ l) -> NoDup (map holding seen) ->
  check_unique seen l = if decide (NoDup (map holding (seen ++ l))) then Ok tt else Err IDX_ERR_PARSE.
Proof.
  revert seen. induction l as [|b l IH]; intros seen Hm Hs; cbn [check_unique].
  { rewrite app_nil_r. by rewrite decide_True. }
  assert (existsb (same_holding b) seen = bool_decide (holding b ∈ map holding seen)) as ->.
  { apply Forall_app in Hm as [Hseen Hb]. apply Forall_cons in Hb as [Hb _].
    apply eq_true_iff_eq. rewrite existsb_exists, bool_decide_eq_true, list_elem_of_In, in_map_iff.
    rewrite Forall_forall in Hseen. setoid_rewrite <- list_elem_of_In.
    split; intros (x & H1 & H2); exists x.
    - rewrite same_holding_spec in H2 by auto. apply bool_decide_eq_true in H2. done.
    - rewrite same_holding_spec by auto. rewrite bool_decide_eq_true. done. }
  case_bool_decide as Hin.
  - rewrite decide_False; [done|]. rewrite map_app, NoDup_app. cbn [map]. intros (_ & Hd & _).
    apply (Hd _ Hin). left.
  - rewrite IH.
    + by rewrite <- app_assoc.
    + by rewrite <- app_assoc.
    + rewrite map_app, NoDup_app. cbn [map]. split_and!; [done| |apply NoDup_singleton].
      intros x Hx ->%list_elem_of_singleton. done.
Qed.

Lemma entry_of_Some l k b : entry_of l k = Some b -> b ∈ l /\ holding b = k.
Proof.
  intros E%find_some. destruct E as [E1 E2%bool_decide_eq_true]. by rewrite list_elem_of_In.
Qed.

Lemma entry_of_elem l b : NoDup (map holding l) -> b ∈ l -> entry_of l (holding b) = Some b.
Proof.
  induction l as [|c l IH]; [by intros _ ?%elem_of_nil|]. cbn [map]. rewrite NoDup_cons. intros [Hn Hd] Hb.
  unfold entry_of. simpl. apply elem_of_cons in Hb as [->|Hb]; [by rewrite bool_decide_true|].
  rewrite bool_decide_false; [by apply IH|]. intros E. apply Hn. rewrite E.
  apply list_elem_of_In, in_map. by apply list_elem_of_In.
Qed.

(** The rows of an [omap] as the images of the keys of the elements it keeps. *)
Section keyed.
Context {X K R : Type} (f : X -> option R) (key : X -> K).

Definition kept (l : list X) : list K := omap (fun x => (fun _ => key x) <$> f x) l.

Lemma kept_elem l k : k ∈ kept l <-> exists x, x ∈ l /\ key x = k /\ is_Some (f x).
Proof.
  unfold kept. rewrite list_elem_of_omap. split; intros (x & Hx & H); exists x.
  - destruct (f x); simplify_eq/=. split_and!; eauto.
  - destruct H as [<- [r ->]]. done.
Qed.

Lemma kept_sublist l : kept l `sublist_of` map key l.
Proof.
  induction l as [|x l IH]; [constructor|]. unfold kept. cbn [omap list_omap map].
  destruct (f x); simpl; by constructor.
Qed.

Lemma kept_rows l (g : K -> option R) :
  (forall x, x ∈ l -> is_Some (f x) -> g (key x) = f x) ->
  Forall2 (fun k r => g k = Some r) (kept l) (omap f l).
Proof.
  intros Hg. induction l as [|x l IH]; [constructor|]. unfold kept. cbn [omap list_omap].
  specialize (IH (fun y Hy => Hg y (list_elem_of_further _ _ _ Hy))).
  pose proof (Hg x (list_elem_of_here _ _)) as Hx. destruct (f x); simpl; [constructor|]; eauto.
Qed.
End keyed.

Section join.
Context (tx : idx_transaction).
Abbreviation pre := (pre_token_balances tx).
Abbreviation post := (post_token_balances tx).
Context (Hpre : mints_ok pre) (Hpost : mints_ok post).
Context (Dpre : NoDup (map holding pre)) (Dpost : NoDup (map holding post)).

Lemma post_row_state after row :
  after ∈ post -> post_row tx pre after = Some row <->
  held pre (holding after) <> held post (holding after) /\ state_of tx (holding after) = Some row.
Proof.
  intros Hin. pose proof Hpost as Hm. rewrite Forall_forall in Hm. unfold post_row, state_of.
  rewrite find_holding_spec by auto.
  assert (match entry_of pre (holding after) with Some b => tb_amount b | None => 0 end =
          held pre (holding after)) as -> by (unfold held; by destruct (entry_of pre _)).
  assert (held post (holding after) = tb_amount after) as ->
    by (unfold held; by rewrite (entry_of_elem post after)).
  rewrite (entry_of_elem post after) by done.
  destruct (Z.eqb_spec (held pre (holding after)) (tb_amount after)); [naive_solver|].
  destruct (entry_of pre (holding after)); unfold fill_holding; simpl; naive_solver.
Qed.

Lemma pre_row_state before row :
  before ∈ pre -> pre_row tx post before = Some row <->
  entry_of post (holding before) = None /\ held pre (holding before) <> held post (holding before) /\
  state_of tx (holding before) = Some row.
Proof.
  intros Hin. pose proof Hpre as Hm. rewrite Forall_forall in Hm. unfold pre_row, state_of.
  rewrite find_holding_spec by auto. unfold held. rewrite (entry_of_elem pre before) by done. simpl.
  destruct (entry_of post (holding before)) as [b|].
  - rewrite (bool_decide_true (is_Some (Some b))) by eauto. rewrite orb_true_r. naive_solver.
  - rewrite (bool_decide_false (is_Some None)) by (by intros []). rewrite orb_false_r.
    unfold fill_holding; simpl. destruct (Z.eqb_spec (tb_amount before) 0); naive_solver.
Qed.

Lemma state_of_some k : held pre k <> held post k -> is_Some (state_of tx k).
Proof.
  unfold held, state_of. destruct (entry_of pre k), (entry_of post k); simpl; [by eauto..|]. intros []. reflexivity.
Qed.

Lemma join_spec :
  exists keys, NoDup keys /\ (forall k, k ∈ keys <-> held pre k <> held post k) /\
    Forall2 (fun k row => state_of tx k = Some row) keys
      (omap (post_row tx pre) post ++ omap (pre_row tx post) pre).
Proof.
  exists (kept (post_row tx pre) holding post ++ kept (pre_row tx post) holding pre). split_and!.
  - apply NoDup_app. split_and!.
    + eapply sublist_NoDup; [exact Dpost|apply kept_sublist].
    + intros k (x & Hx & <- & _)%kept_elem (y & Hy & E & [r Hr])%kept_elem.
      apply pre_row_state in Hr as [Hr _]; [|done]. rewrite E in Hr. rewrite (entry_of_elem post x) in Hr by done. done.
    + eapply sublist_NoDup; [exact Dpre|apply kept_sublist].
  - intros k. rewrite elem_of_app, !kept_elem. split.
    + intros [(x & Hx & <- & [r Hr])|(x & Hx & <- & [r Hr])].
      * by apply post_row_state in Hr as [? _].
      * by apply pre_row_state in Hr as (_ & ? & _).
    + intros Hk. destruct (state_of_some k Hk) as [row Hrow]. destruct (entry_of post k) as [a|] eqn:Ea.
      * apply entry_of_Some in Ea as [Ha <-]. left. exists a. split_and!; [done..|]. exists row. by apply post_row_state.
      * destruct (entry_of pre k) as [b|] eqn:Eb; [|destruct Hk; unfold held; by rewrite Ea, Eb].
        apply entry_of_Some in Eb as [Hb <-]. right. exists b. split_and!; [done..|]. exists row. by apply pre_row_state.
  - apply Forall2_app; apply kept_rows; intros x Hx [row Hrow]; rewrite Hrow.
    + by apply post_row_state in Hrow as [_ ?].
    + by apply pre_row_state in Hrow as (_ & _ & ?).
Qed.
End join.

(** ** Properties *)

Section properties.
Context {A : Type} `{ArenaOps A}.

(** The SOL extraction writes one row for each account whose balance moved, in
    account order and within the array it allocated, with the balance after and the
    exact signed difference, so the deltas add up to the difference of the totals;
    it fails only for the arena or for a movement of 2^63 lamports or more, and a
    transaction without balances gives no rows. *)
Theorem sol_balance_exact tx (arena : A) :
  tx_ok tx -> Forall is_u64 (pre_balances tx) -> Forall is_u64 (post_balances tx) ->
  let n := length (pre_balances tx) in
  let rows := omap (sol_row tx) (seq 0 n) in
  (idx_sol_balance_extract tx arena).1 =
    (if (n =? 0)%nat then Ok []
     else match (arena_calloc (Z.of_nat n) sizeof_sol_balance arena).1 with
          | Err e => Err e
          | Ok _ => if decide (Forall2 moves_within (pre_balances tx) (post_balances tx))
                    then Ok rows else Err IDX_ERR_RANGE
          end) /\
  (length rows <= n)%nat /\
  sum (map delta rows) = sum (post_balances tx) - sum (pre_balances tx).
Proof.
  intros (_ & _ & _ & _ & Hlen & _) Hpre Hpost n rows. split_and!.
  - unfold idx_sol_balance_extract, size. destruct (Nat.eqb_spec n 0) as [E|E].
    { unfold n in E. by rewrite E. }
    rewrite (proj2 (Z.eqb_neq _ _)) by lia. fold n.
    destruct (arena_calloc _ _ arena) as [[[]|e] arena']; [|reflexivity]. cbn [fst mbind IDX_TRY].
    by apply (sol_loop_spec tx 0).
  - unfold rows. pose proof (omap_length_le (sol_row tx) (seq 0 n)) as Hl. by rewrite length_seq in Hl.
  - by apply (sol_rows_sum tx n 0).
Qed.

(** The token extraction is the join of the two lists on account and mint: when
    no list names a holding twice there is exactly one row for each holding whose
    amount before differs from its amount after, an absent entry counting as zero,
    with the owner and decimals of the later view; a duplicate is refused with
    [IDX_ERR_PARSE].  The rows never exceed the array allocated. *)
Theorem token_balance_join tx (arena arena' : A) :
  tx_ok tx -> mints_ok (pre_token_balances tx) -> mints_ok (post_token_balances tx) ->
  size (pre_token_balances tx) + size (post_token_balances tx) < 2 ^ 64 ->
  arena_calloc (size (pre_token_balances tx) + size (post_token_balances tx)) sizeof_token_state arena
    = (Ok tt, arena') ->
  if decide (NoDup (map holding (pre_token_balances tx)) /\ NoDup (map holding (post_token_balances tx)))
  then exists keys rows, (idx_token_balance_extract tx arena).1 = Ok rows /\
    NoDup keys /\ Forall2 (fun k row => state_of tx k = Some row) keys rows /\
    (forall k, k ∈ keys <-> held (pre_token_balances tx) k <> held (post_token_balances tx) k) /\
    size rows <= size (pre_token_balances tx) + size (post_token_balances tx)
  else (idx_token_balance_extract tx arena).1 = Err IDX_ERR_PARSE.
Proof.
  intros (_ & _ & Tpre & Tpost & _) Hpre Hpost Hsz Harena. unfold idx_token_balance_extract.
  destruct (_ || _) eqn:Hempty.
  { assert (pre_token_balances tx = [] /\ post_token_balances tx = []) as [-> ->].
    { destruct (pre_token_balances tx) as [|b1 l1], (post_token_balances tx) as [|b2 l2]; [done|..];
        apply orb_true_iff in Hempty as [Hempty|Hempty]; try discriminate Hempty;
        apply bool_decide_eq_true in Hempty; rewrite Hempty in *;
        try (apply Forall_cons in Tpre as [((?&?)&_) _]); try (apply Forall_cons in Tpost as [((?&?)&_) _]);
        unfold size in *; simpl in *; lia. }
    rewrite decide_True by (split; constructor). exists [], []. split_and!; [reflexivity|constructor|constructor| |reflexivity || done].
    intros k. split; [by intros ?%elem_of_nil|]. intros []. reflexivity. }
  rewrite !check_unique_spec by (done || constructor). cbn [app].
  destruct (decide (NoDup (map holding (pre_token_balances tx)))) as [Dpre|]; cbn [mbind IDX_TRY].
  2: { rewrite decide_False by tauto. reflexivity. }
  destruct (decide (NoDup (map holding (post_token_balances tx)))) as [Dpost|].
  2: { rewrite decide_False by tauto. reflexivity. }
  rewrite decide_True by tauto. rewrite u64_small by (unfold is_u64, size in *; lia). rewrite Harena.
  destruct (join_spec tx Hpre Hpost Dpre Dpost) as (keys & Hd & Hk & Hrows).
  eexists keys, _. split_and!; [reflexivity|done|exact Hrows|exact Hk|].
  unfold size. rewrite length_app. pose proof (omap_length_le (post_row tx (pre_token_balances tx)) (post_token_balances tx)).
  pose proof (omap_length_le (pre_row tx (post_token_balances tx)) (pre_token_balances tx)). lia.
Qed.
End properties.

(** ** Witnesses *)

(** Three accounts; the first pays the second, and the second's token account is
    funded while the third's is closed. *)
Definition moving_tx : idx_transaction :=
  Transaction IDX_TX_VERSION_LEGACY [] 1 0 0 (Hash (replicate 32 0))
    [Account IDX_PROGRAM_VOTE true true false; Account IDX_PROGRAM_MEMO false true false;
     Account IDX_PROGRAM_TOKEN_2022 false true false] 3 [] [] true true 10
    [100; 50; 7] [60; 80; 7]
    [TokenBalance 2 IDX_PROGRAM_TOKEN None None 5 6; TokenBalance 0 IDX_PROGRAM_TOKEN None None 9 6]
    [TokenBalance 1 IDX_PROGRAM_TOKEN (Some IDX_PROGRAM_VOTE) None 12 6;
     TokenBalance 0 IDX_PROGRAM_TOKEN None None 9 6] [].

Definition page_arena : idx_arena * sys := (idx_arena_init 4096, [Some 65536]).

Lemma moving_tx_ok : tx_ok moving_tx.
Proof.
  split_and!; [constructor|constructor| | |reflexivity|right; reflexivity];
    repeat constructor; vm_compute; congruence.
Qed.

Lemma sol_balance_exact_witness :
  (idx_sol_balance_extract moving_tx page_arena).1 =
    Ok [SolBalance IDX_PROGRAM_VOTE 60 (-40); SolBalance IDX_PROGRAM_MEMO 80 30].
Proof.
  destruct (sol_balance_exact moving_tx page_arena) as (H & _).
  - exact moving_tx_ok.
  - decide_now.
  - decide_now.
  - rewrite H. vm_compute. reflexivity.
Defined.

Lemma token_balance_join_witness :
  exists keys rows, (idx_token_balance_extract moving_tx page_arena).1 = Ok rows /\ NoDup keys /\
    Forall2 (fun k row => state_of moving_tx k = Some row) keys rows /\
    (2, IDX_PROGRAM_TOKEN) ∈ keys /\ ~ (0, IDX_PROGRAM_TOKEN) ∈ keys.
Proof.
  epose proof (token_balance_join moving_tx page_arena _ moving_tx_ok) as H.
  specialize (H ltac:(decide_now) ltac:(decide_now) eq_refl ltac:(vm_compute; reflexivity)).
  rewrite decide_True in H by (split; decide_now).
  destruct H as (keys & rows & H1 & H2 & H3 & H4 & _). exists keys, rows.
  split_and!; [exact H1|exact H2|exact H3|apply H4; by vm_compute|]. rewrite H4. intros Hne. by apply Hne.
Defined.
