(* ===== verification/Token2022.v ===== *)
(** * token_2022.c: instructions of Token-2022

    The base instructions come from the token program's decoder; what is past them is
    decoded here, the extension groups down to their sub-instruction and its payload.
    The union is one constructor per variant, as in TokenProgram.v. *)

From S2P Require Import Prelude Radix Bytes Types Wire Block Operands TokenProgram.
#[local] Open Scope Z_scope.

(** src/include/token_2022.h:43-64 [idx_token_2022_ix_kind] *)
Inductive idx_token_2022_ix_kind :=
  | IDX_TOKEN_2022_IX_INITIALIZE_MINT_CLOSE_AUTHORITY
  | IDX_TOKEN_2022_IX_TRANSFER_FEE_EXTENSION
  | IDX_TOKEN_2022_IX_CONFIDENTIAL_TRANSFER_EXTENSION
  | IDX_TOKEN_2022_IX_DEFAULT_ACCOUNT_STATE_EXTENSION
  | IDX_TOKEN_2022_IX_REALLOCATE
  | IDX_TOKEN_2022_IX_MEMO_TRANSFER_EXTENSION
  | IDX_TOKEN_2022_IX_CREATE_NATIVE_MINT
  | IDX_TOKEN_2022_IX_INITIALIZE_NON_TRANSFERABLE_MINT
  | IDX_TOKEN_2022_IX_INTEREST_BEARING_MINT_EXTENSION
  | IDX_TOKEN_2022_IX_CPI_GUARD_EXTENSION
  | IDX_TOKEN_2022_IX_INITIALIZE_PERMANENT_DELEGATE
  | IDX_TOKEN_2022_IX_TRANSFER_HOOK_EXTENSION
  | IDX_TOKEN_2022_IX_CONFIDENTIAL_TRANSFER_FEE_EXTENSION
  | IDX_TOKEN_2022_IX_WITHDRAW_EXCESS_LAMPORTS
  | IDX_TOKEN_2022_IX_METADATA_POINTER_EXTENSION
  | IDX_TOKEN_2022_IX_GROUP_POINTER_EXTENSION
  | IDX_TOKEN_2022_IX_GROUP_MEMBER_POINTER_EXTENSION
  | IDX_TOKEN_2022_IX_CONFIDENTIAL_MINT_BURN_EXTENSION
  | IDX_TOKEN_2022_IX_SCALED_UI_AMOUNT_EXTENSION
  | IDX_TOKEN_2022_IX_PAUSABLE_EXTENSION.

#[export] Instance idx_token_2022_ix_kind_eq_dec : EqDecision idx_token_2022_ix_kind.
Proof. solve_decision. Defined.

(** The enumeration in the order of its values, which start from 25. *)
Definition token_2022_kinds : list idx_token_2022_ix_kind :=
  [IDX_TOKEN_2022_IX_INITIALIZE_MINT_CLOSE_AUTHORITY;
   IDX_TOKEN_2022_IX_TRANSFER_FEE_EXTENSION;
   IDX_TOKEN_2022_IX_CONFIDENTIAL_TRANSFER_EXTENSION;
   IDX_TOKEN_2022_IX_DEFAULT_ACCOUNT_STATE_EXTENSION;
   IDX_TOKEN_2022_IX_REALLOCATE;
   IDX_TOKEN_2022_IX_MEMO_TRANSFER_EXTENSION;
   IDX_TOKEN_2022_IX_CREATE_NATIVE_MINT;
   IDX_TOKEN_2022_IX_INITIALIZE_NON_TRANSFERABLE_MINT;
   IDX_TOKEN_2022_IX_INTEREST_BEARING_MINT_EXTENSION;
   IDX_TOKEN_2022_IX_CPI_GUARD_EXTENSION;
   IDX_TOKEN_2022_IX_INITIALIZE_PERMANENT_DELEGATE;
   IDX_TOKEN_2022_IX_TRANSFER_HOOK_EXTENSION;
   IDX_TOKEN_2022_IX_CONFIDENTIAL_TRANSFER_FEE_EXTENSION;
   IDX_TOKEN_2022_IX_WITHDRAW_EXCESS_LAMPORTS;
   IDX_TOKEN_2022_IX_METADATA_POINTER_EXTENSION;
   IDX_TOKEN_2022_IX_GROUP_POINTER_EXTENSION;
   IDX_TOKEN_2022_IX_GROUP_MEMBER_POINTER_EXTENSION;
   IDX_TOKEN_2022_IX_CONFIDENTIAL_MINT_BURN_EXTENSION;
   IDX_TOKEN_2022_IX_SCALED_UI_AMOUNT_EXTENSION;
   IDX_TOKEN_2022_IX_PAUSABLE_EXTENSION].

(** src/src/token_2022.c:5-49 [idx_token_2022_ix_kind_name] *)
Definition idx_token_2022_ix_kind_name (kind : idx_token_2022_ix_kind) : bytes :=
  match kind with
  | IDX_TOKEN_2022_IX_INITIALIZE_MINT_CLOSE_AUTHORITY => lit "InitializeMintCloseAuthority"
  | IDX_TOKEN_2022_IX_TRANSFER_FEE_EXTENSION => lit "TransferFeeExtension"
  | IDX_TOKEN_2022_IX_CONFIDENTIAL_TRANSFER_EXTENSION => lit "ConfidentialTransferExtension"
  | IDX_TOKEN_2022_IX_DEFAULT_ACCOUNT_STATE_EXTENSION => lit "DefaultAccountStateExtension"
  | IDX_TOKEN_2022_IX_REALLOCATE => lit "Reallocate"
  | IDX_TOKEN_2022_IX_MEMO_TRANSFER_EXTENSION => lit "MemoTransferExtension"
  | IDX_TOKEN_2022_IX_CREATE_NATIVE_MINT => lit "CreateNativeMint"
  | IDX_TOKEN_2022_IX_INITIALIZE_NON_TRANSFERABLE_MINT => lit "InitializeNonTransferableMint"
  | IDX_TOKEN_2022_IX_INTEREST_BEARING_MINT_EXTENSION => lit "InterestBearingMintExtension"
  | IDX_TOKEN_2022_IX_CPI_GUARD_EXTENSION => lit "CpiGuardExtension"
  | IDX_TOKEN_2022_IX_INITIALIZE_PERMANENT_DELEGATE => lit "InitializePermanentDelegate"
  | IDX_TOKEN_2022_IX_TRANSFER_HOOK_EXTENSION => lit "TransferHookExtension"
  | IDX_TOKEN_2022_IX_CONFIDENTIAL_TRANSFER_FEE_EXTENSION => lit "ConfidentialTransferFeeExtension"
  | IDX_TOKEN_2022_IX_WITHDRAW_EXCESS_LAMPORTS => lit "WithdrawExcessLamports"
  | IDX_TOKEN_2022_IX_METADATA_POINTER_EXTENSION => lit "MetadataPointerExtension"
  | IDX_TOKEN_2022_IX_GROUP_POINTER_EXTENSION => lit "GroupPointerExtension"
  | IDX_TOKEN_2022_IX_GROUP_MEMBER_POINTER_EXTENSION => lit "GroupMemberPointerExtension"
  | IDX_TOKEN_2022_IX_CONFIDENTIAL_MINT_BURN_EXTENSION => lit "ConfidentialMintBurnExtension"
  | IDX_TOKEN_2022_IX_SCALED_UI_AMOUNT_EXTENSION => lit "ScaledUiAmountExtension"
  | IDX_TOKEN_2022_IX_PAUSABLE_EXTENSION => lit "PausableExtension"
  end.

(** src/src/token_2022.c:51-77 [idx_token_2022_ix_is_extension] *)
Definition idx_token_2022_ix_is_extension (kind : idx_token_2022_ix_kind) : bool :=
  match kind with
  | IDX_TOKEN_2022_IX_TRANSFER_FEE_EXTENSION
  | IDX_TOKEN_2022_IX_CONFIDENTIAL_TRANSFER_EXTENSION
  | IDX_TOKEN_2022_IX_DEFAULT_ACCOUNT_STATE_EXTENSION
  | IDX_TOKEN_2022_IX_MEMO_TRANSFER_EXTENSION
  | IDX_TOKEN_2022_IX_INTEREST_BEARING_MINT_EXTENSION
  | IDX_TOKEN_2022_IX_CPI_GUARD_EXTENSION
  | IDX_TOKEN_2022_IX_TRANSFER_HOOK_EXTENSION
  | IDX_TOKEN_2022_IX_CONFIDENTIAL_TRANSFER_FEE_EXTENSION
  | IDX_TOKEN_2022_IX_METADATA_POINTER_EXTENSION
  | IDX_TOKEN_2022_IX_GROUP_POINTER_EXTENSION
  | IDX_TOKEN_2022_IX_GROUP_MEMBER_POINTER_EXTENSION
  | IDX_TOKEN_2022_IX_CONFIDENTIAL_MINT_BURN_EXTENSION
  | IDX_TOKEN_2022_IX_SCALED_UI_AMOUNT_EXTENSION
  | IDX_TOKEN_2022_IX_PAUSABLE_EXTENSION => true
  | IDX_TOKEN_2022_IX_INITIALIZE_MINT_CLOSE_AUTHORITY
  | IDX_TOKEN_2022_IX_REALLOCATE
  | IDX_TOKEN_2022_IX_CREATE_NATIVE_MINT
  | IDX_TOKEN_2022_IX_INITIALIZE_NON_TRANSFERABLE_MINT
  | IDX_TOKEN_2022_IX_INITIALIZE_PERMANENT_DELEGATE
  | IDX_TOKEN_2022_IX_WITHDRAW_EXCESS_LAMPORTS => false
  end.

(** src/src/token_2022.c:79-87 [idx_token_2022_extension_type_at]; a byte shifted
    left by 8 is an [int], narrowed with the cast. *)
Definition idx_token_2022_extension_type_at (extension_types : idx_slice) (index : Z) : Z :=
  match extension_types with
  | None => 0
  | Some data =>
      if slice_len extension_types / 2 <=? index then 0
      else
        let offset := u64 (index * 2) in
        u16 (Z.lor (u16 (data !!! Z.to_nat offset))
                   (u16 (Z.shiftl (data !!! Z.to_nat (u64 (offset + 1))) 8)))
  end.

(** src/include/token_2022.h:143-150 [idx_token_2022_fee_ix] *)
Inductive idx_token_2022_fee_ix :=
  | IDX_TOKEN_2022_FEE_IX_INITIALIZE_CONFIG
  | IDX_TOKEN_2022_FEE_IX_TRANSFER_CHECKED_WITH_FEE
  | IDX_TOKEN_2022_FEE_IX_WITHDRAW_FROM_MINT
  | IDX_TOKEN_2022_FEE_IX_WITHDRAW_FROM_ACCOUNTS
  | IDX_TOKEN_2022_FEE_IX_HARVEST_TO_MINT
  | IDX_TOKEN_2022_FEE_IX_SET_TRANSFER_FEE.

Definition fee_ix_value (ix : idx_token_2022_fee_ix) : Z :=
  match ix with
  | IDX_TOKEN_2022_FEE_IX_INITIALIZE_CONFIG => 0
  | IDX_TOKEN_2022_FEE_IX_TRANSFER_CHECKED_WITH_FEE => 1
  | IDX_TOKEN_2022_FEE_IX_WITHDRAW_FROM_MINT => 2
  | IDX_TOKEN_2022_FEE_IX_WITHDRAW_FROM_ACCOUNTS => 3
  | IDX_TOKEN_2022_FEE_IX_HARVEST_TO_MINT => 4
  | IDX_TOKEN_2022_FEE_IX_SET_TRANSFER_FEE => 5
  end.

(** src/include/token_2022.h:157-165 [idx_token_2022_transfer_with_fee] *)
Record idx_token_2022_transfer_with_fee := TransferWithFee {
  twf_source : idx_pubkey;
  twf_mint : idx_pubkey;
  twf_destination : idx_pubkey;
  twf_authority : idx_pubkey;
  twf_amount : Z;
  twf_fee : Z;
  twf_decimals : Z
}.

(** src/include/token_2022.h:81-131 [idx_token_2022_instruction]: the union. *)
Inductive token_2022_body :=
  | InitializeMintCloseAuthority (mint : idx_pubkey) (close_authority : option idx_pubkey)
  | InitializePermanentDelegate (mint delegate : idx_pubkey)
  | MintOnly (mint : idx_pubkey) (payer : option idx_pubkey)
  | WithdrawExcessLamports (source destination authority : idx_pubkey)
  | Reallocate (account payer owner : idx_pubkey) (extension_types : idx_slice) (extension_type_count : Z)
  | Extension (sub_discriminant : Z) (payload : idx_slice).

(** src/include/token_2022.h:81-131 [idx_token_2022_instruction]: [Base] when
    [is_base] is set. *)
Inductive idx_token_2022_instruction :=
  | Base (base : idx_token_instruction)
  | Extended (kind : idx_token_2022_ix_kind) (body : token_2022_body).

(** src/src/token_2022.c:89-119 [idx_token_2022_transfer_with_fee_decode]; the
    guard on null arguments is excluded by the types. *)
Definition idx_token_2022_transfer_with_fee_decode (tx : idx_transaction) (ix : idx_instruction)
    (payload : idx_slice) : result idx_token_2022_transfer_with_fee :=
  run_reader
    (source ← require_account tx ix 0;
     mint ← require_account tx ix 1;
     destination ← require_account tx ix 2;
     authority ← require_account tx ix 3;
     amount ← idx_cursor_u64le;
     decimals ← idx_cursor_u8;
     fee ← idx_cursor_u64le;
     mret (TransferWithFee source mint destination authority amount fee decimals))
    payload.

(** [idx_cursor_take(cursor, idx_cursor_remaining(cursor), &slice, err)] *)
Definition take_rest : reader idx_slice := fun cursor => idx_cursor_take (idx_cursor_remaining cursor) cursor.

(** src/src/token_2022.c:140-146 [decode_extension] *)
Definition decode_extension : reader token_2022_body :=
  sub_discriminant ← idx_cursor_u8;
  payload ← take_rest;
  mret (Extension sub_discriminant payload).

(** src/src/token_2022.c:150-173 [decode_reallocate] *)
Definition decode_reallocate (tx : idx_transaction) (ix : idx_instruction) : reader token_2022_body :=
  account ← require_account tx ix 0;
  payer ← require_account tx ix 1;
  owner ← require_account tx ix 3;
  types ← take_rest;
  if negb (slice_len types mod 2 =? 0) then lift (IDX_FAIL IDX_ERR_PARSE)
  else mret (Reallocate account payer owner types (slice_len types / 2)).

(** src/src/token_2022.c:209-284 [idx_token_2022_instruction_decode]: what follows
    the discriminant.  The optional key is read as [read_optional_pubkey] of the
    token program reads it. *)
Definition read_token_2022 (tx : idx_transaction) (ix : idx_instruction) (kind : idx_token_2022_ix_kind)
    : reader token_2022_body :=
  if idx_token_2022_ix_is_extension kind then decode_extension
  else
    match kind with
    | IDX_TOKEN_2022_IX_INITIALIZE_MINT_CLOSE_AUTHORITY =>
        mint ← require_account tx ix 0;
        close_authority ← read_optional_pubkey;
        mret (InitializeMintCloseAuthority mint close_authority)
    | IDX_TOKEN_2022_IX_INITIALIZE_PERMANENT_DELEGATE =>
        mint ← require_account tx ix 0;
        delegate ← read_pubkey;
        mret (InitializePermanentDelegate mint delegate)
    | IDX_TOKEN_2022_IX_INITIALIZE_NON_TRANSFERABLE_MINT =>
        mint ← require_account tx ix 0;
        mret (MintOnly mint None)
    | IDX_TOKEN_2022_IX_CREATE_NATIVE_MINT =>
        payer ← require_account tx ix 0;
        mint ← require_account tx ix 1;
        mret (MintOnly mint (Some payer))
    | IDX_TOKEN_2022_IX_WITHDRAW_EXCESS_LAMPORTS =>
        source ← require_account tx ix 0;
        destination ← require_account tx ix 1;
        authority ← require_account tx ix 2;
        mret (WithdrawExcessLamports source destination authority)
    | IDX_TOKEN_2022_IX_REALLOCATE => decode_reallocate tx ix
    | _ => lift (IDX_FAIL IDX_ERR_INTERNAL)
    end.

(** [(idx_token_2022_ix_kind)discriminant], [None] for a number that is none of the
    enumeration's values. *)
Definition token_2022_kind_of (discriminant : Z) : option idx_token_2022_ix_kind :=
  if discriminant <? 25 then None else token_2022_kinds !! Z.to_nat (discriminant - 25).

(** src/src/token_2022.c:175-284 [idx_token_2022_instruction_decode]; the guard on
    null arguments is excluded by the types. *)
Definition idx_token_2022_instruction_decode (tx : idx_transaction) (ix : idx_instruction)
    : result idx_token_2022_instruction :=
  match idx_token_instruction_decode tx ix with
  | Ok base => Ok (Base base)
  | Err IDX_ERR_NOT_FOUND =>
      run_reader
        (discriminant ← idx_cursor_u8;
         if 44 <? discriminant then lift (IDX_FAIL IDX_ERR_NOT_FOUND)
         else
           match token_2022_kind_of discriminant with
           | None => lift (IDX_FAIL IDX_ERR_INTERNAL)
           | Some kind => body ← read_token_2022 tx ix kind; mret (Extended kind body)
           end)
        (ix_data ix)
  | Err e => Err e
  end.

(** ** The wire format *)

(** The value of a kind. *)
Definition token_2022_kind_value (kind : idx_token_2022_ix_kind) : Z :=
  match kind with
  | IDX_TOKEN_2022_IX_INITIALIZE_MINT_CLOSE_AUTHORITY => 25
  | IDX_TOKEN_2022_IX_TRANSFER_FEE_EXTENSION => 26
  | IDX_TOKEN_2022_IX_CONFIDENTIAL_TRANSFER_EXTENSION => 27
  | IDX_TOKEN_2022_IX_DEFAULT_ACCOUNT_STATE_EXTENSION => 28
  | IDX_TOKEN_2022_IX_REALLOCATE => 29
  | IDX_TOKEN_2022_IX_MEMO_TRANSFER_EXTENSION => 30
  | IDX_TOKEN_2022_IX_CREATE_NATIVE_MINT => 31
  | IDX_TOKEN_2022_IX_INITIALIZE_NON_TRANSFERABLE_MINT => 32
  | IDX_TOKEN_2022_IX_INTEREST_BEARING_MINT_EXTENSION => 33
  | IDX_TOKEN_2022_IX_CPI_GUARD_EXTENSION => 34
  | IDX_TOKEN_2022_IX_INITIALIZE_PERMANENT_DELEGATE => 35
  | IDX_TOKEN_2022_IX_TRANSFER_HOOK_EXTENSION => 36
  | IDX_TOKEN_2022_IX_CONFIDENTIAL_TRANSFER_FEE_EXTENSION => 37
  | IDX_TOKEN_2022_IX_WITHDRAW_EXCESS_LAMPORTS => 38
  | IDX_TOKEN_2022_IX_METADATA_POINTER_EXTENSION => 39
  | IDX_TOKEN_2022_IX_GROUP_POINTER_EXTENSION => 40
  | IDX_TOKEN_2022_IX_GROUP_MEMBER_POINTER_EXTENSION => 41
  | IDX_TOKEN_2022_IX_CONFIDENTIAL_MINT_BURN_EXTENSION => 42
  | IDX_TOKEN_2022_IX_SCALED_UI_AMOUNT_EXTENSION => 43
  | IDX_TOKEN_2022_IX_PAUSABLE_EXTENSION => 44
  end.

(** The data after the discriminant, as the program packs it. *)
Definition token_2022_payload (b : token_2022_body) : bytes :=
  match b with
  | InitializeMintCloseAuthority _ close_authority => coption close_authority
  | InitializePermanentDelegate _ delegate => key_bytes delegate
  | MintOnly _ _ | WithdrawExcessLamports _ _ _ => []
  | Reallocate _ _ _ types _ => slice_bytes types
  | Extension sub payload => sub :: slice_bytes payload
  end.

(** The accounts at their positions; the third of a reallocation is the system
    program, and the payer of a native mint comes before it. *)
Definition token_2022_accounts (b : token_2022_body) : list (Z * idx_pubkey) :=
  match b with
  | InitializeMintCloseAuthority mint _ | InitializePermanentDelegate mint _ | MintOnly mint None => [(0, mint)]
  | MintOnly mint (Some payer) => [(0, payer); (1, mint)]
  | WithdrawExcessLamports a b c => [(0, a); (1, b); (2, c)]
  | Reallocate account payer owner _ _ => [(0, account); (1, payer); (3, owner)]
  | Extension _ _ => []
  end.

(** The fields a kind can have. *)
Definition token_2022_fields_ok (k : idx_token_2022_ix_kind) (b : token_2022_body) : Prop :=
  match b with
  | Extension sub payload =>
      idx_token_2022_ix_is_extension k = true /\ is_byte sub /\ is_Some payload
  | InitializeMintCloseAuthority _ close_authority =>
      k = IDX_TOKEN_2022_IX_INITIALIZE_MINT_CLOSE_AUTHORITY /\ okey_ok close_authority
  | InitializePermanentDelegate _ delegate =>
      k = IDX_TOKEN_2022_IX_INITIALIZE_PERMANENT_DELEGATE /\ key_ok delegate
  | MintOnly _ None => k = IDX_TOKEN_2022_IX_INITIALIZE_NON_TRANSFERABLE_MINT
  | MintOnly _ (Some _) => k = IDX_TOKEN_2022_IX_CREATE_NATIVE_MINT
  | WithdrawExcessLamports _ _ _ => k = IDX_TOKEN_2022_IX_WITHDRAW_EXCESS_LAMPORTS
  | Reallocate _ _ _ types count =>
      k = IDX_TOKEN_2022_IX_REALLOCATE /\ is_Some types /\ slice_len types = 2 * count
  end.

(** What runs to the end of the data. *)
Definition to_the_end (b : token_2022_body) : bool :=
  match b with Reallocate _ _ _ _ _ | Extension _ _ => true | _ => false end.

(** ** Lemmas *)

Lemma token_2022_kind_lookup k :
  25 <= token_2022_kind_value k <= 44 /\ token_2022_kind_of (token_2022_kind_value k) = Some k.
Proof. by destruct k. Qed.

Lemma token_2022_kind_of_value d k : token_2022_kind_of d = Some k -> d = token_2022_kind_value k.
Proof.
  unfold token_2022_kind_of. destruct (d <? 25) eqn:Hd; [done|]. zbool. intros Hk.
  pose proof (token_2022_kind_lookup k) as [Hv Hk']. unfold token_2022_kind_of in Hk'.
  rewrite (proj2 (Z.ltb_ge _ _)) in Hk' by lia.
  assert (NoDup token_2022_kinds) as Hnd by decide_now. pose proof (NoDup_lookup _ _ _ _ Hnd Hk Hk'). lia.
Qed.

(** Taking the rest of live data gives it all and leaves nothing. *)
Lemma take_rest_live c : live c -> exists c', take_rest c = Ok (Some (rest c), c') /\ rest c' = [] /\ live c'.
Proof.
  intros Hc. pose proof Hc as (Hok & _). unfold take_rest. rewrite cursor_remaining by done.
  destruct (cursor_take_app c (size (rest c)) (rest c) [] Hok) as (s & c1 & E & Hs & Hr & _); [by rewrite app_nil_r|done|].
  destruct (wrote_take (size (rest c)) ltac:(unfold size; lia) c s c1 Hc E) as (e & _ & [-> _] & Hc1).
  cbn in Hs. subst e. by exists c1.
Qed.

Lemma take_rest_inv c s c' : live c -> take_rest c = Ok (s, c') -> s = Some (rest c) /\ rest c' = [] /\ live c'.
Proof. intros Hc E. destruct (take_rest_live c Hc) as (c1 & E1 & H). rewrite E in E1. by injection E1 as -> ->. Qed.

(** What a success of the switch says. *)
Definition token_2022_read (tx : idx_transaction) (ix : idx_instruction) (k : idx_token_2022_ix_kind)
    (b : token_2022_body) (before after : bytes) : Prop :=
  before = token_2022_payload b ++ after /\ token_2022_fields_ok k b /\
  names tx ix (token_2022_accounts b) /\ (to_the_end b = true -> after = []).

Lemma extension_read tx ix k b c c' :
  idx_token_2022_ix_is_extension k = true -> live c -> decode_extension c = Ok (b, c') ->
  token_2022_read tx ix k b (rest c) (rest c').
Proof.
  intros Hk Hc E. unfold decode_extension in E. inv_step Hc E.
  apply bind_inv in E as (s & c1 & E & [= <- <-]). apply take_rest_inv in E as (-> & Hnil & _); [|done].
  split; [|split; [|split; [constructor|done]]].
  - cbn [token_2022_payload slice_bytes]. rewrite Hnil, app_nil_r. done.
  - split_and!; [done|done|by eexists].
Qed.

Lemma reallocate_read tx ix b c c' :
  live c -> decode_reallocate tx ix c = Ok (b, c') ->
  token_2022_read tx ix IDX_TOKEN_2022_IX_REALLOCATE b (rest c) (rest c').
Proof.
  intros Hc E. unfold decode_reallocate in E. do 3 inv_step Hc E.
  apply bind_inv in E as (s & c1 & E & E'). apply take_rest_inv in E as (-> & Hnil & _); [|done].
  destruct (slice_len (Some (rest c)) mod 2 =? 0) eqn:Hm; cbn [negb] in E'; [|done]. injection E' as <- <-. zbool.
  split; [|split; [|split; [|done]]].
  - cbn [token_2022_payload slice_bytes]. by rewrite Hnil, app_nil_r.
  - split_and!; [done|by eexists|]. zdiv.
  - unfold names. cbn [token_2022_accounts]. repeat (apply Forall_cons_2; [done|]). constructor.
Qed.

Lemma token_2022_switch_read tx ix k b c c' :
  live c -> read_token_2022 tx ix k c = Ok (b, c') -> token_2022_read tx ix k b (rest c) (rest c').
Proof.
  intros Hc H. unfold read_token_2022 in H. destruct (idx_token_2022_ix_is_extension k) eqn:Hk; [by eapply extension_read|].
  destruct k; try discriminate Hk; try (by apply reallocate_read);
    inv_chain H; injection H as <- <-;
    (split; [cbn [token_2022_payload]; repeat match goal with E : rest ?c = _ |- context [rest ?c] => rewrite E; clear E end; done|]);
    (split; [cbn [token_2022_fields_ok]; auto|]);
    (split; [unfold names; cbn [token_2022_accounts]; rewrite ?Forall_cons, ?Forall_nil; cbn [fst snd]; repeat split; auto|done]).
Qed.

(** The switch on the bytes of a value. *)
Lemma token_2022_switch_complete tx ix k b tail c :
  token_2022_fields_ok k b -> names tx ix (token_2022_accounts b) -> (to_the_end b = true -> tail = []) ->
  live c -> rest c = token_2022_payload b ++ tail -> exists c', read_token_2022 tx ix k c = Ok (b, c').
Proof.
  intros Hf Hn Ht Hc Hr. unfold names in Hn. pose proof Hc as (Hok & _ & _).
  assert (forall (r : reader token_2022_body), reads r (token_2022_payload b) b -> exists c', r c = Ok (b, c')) as Hreads.
  { intros r Hrd. destruct (Hrd c tail Hok Hr) as (c' & E & _). by exists c'. }
  destruct b as [m o|m d|m [p|]|s d a|a p o ty n|sub pl]; cbn [token_2022_accounts token_2022_fields_ok token_2022_payload] in *;
    rewrite ?Forall_cons in Hn; cbn [fst snd] in Hn.
  1-5: first [subst k|destruct Hf as [-> Hf]]; destruct_and?; apply Hreads; unfold read_token_2022;
    cbn [idx_token_2022_ix_is_extension]; reads_chain.
  - destruct Hf as (-> & [l ->] & Hlen). destruct Hn as (H0 & H1 & H3 & _). rewrite (Ht eq_refl), app_nil_r in Hr.
    change (slice_bytes (Some l)) with l in Hr. unfold read_token_2022. cbn [idx_token_2022_ix_is_extension]. unfold decode_reallocate.
    destruct (take_rest_live c Hc) as (c1 & E & _). exists c1.
    unfold mbind, reader_bind, require_account. rewrite H0, H1, H3. cbn [lift]. rewrite E, Hr. cbv beta iota.  rewrite Hlen.
    rewrite (Z.mul_comm 2), Z_mod_mult. cbn [Z.eqb negb]. by rewrite Z_div_mult by lia.
  - destruct Hf as (Hk & Hs & [l ->]). rewrite (Ht eq_refl), app_nil_r in Hr. change (slice_bytes (Some l)) with l in Hr.
    unfold read_token_2022. rewrite Hk. unfold decode_extension.
    destruct (reads_u8 sub c l Hok Hr) as (c1 & E1 & Hr1 & _).
    destruct (wrote_u8 c sub c1 Hc E1) as (_ & _ & _ & Hc1). destruct (take_rest_live c1 Hc1) as (c2 & E2 & _).
    exists c2. unfold mbind, reader_bind. rewrite E1, E2, Hr1. done.
Qed.

(** ** The failures of the base decoder *)

(** Once its discriminant is known, an instruction fails only as truncated or as
    short of accounts (or with a malformed field). *)
Abbreviation malformed := (fun e => e = IDX_ERR_RANGE \/ e = IDX_ERR_PARSE).

Lemma malformed_account tx ix p : raises (require_account tx ix p) malformed.
Proof.
  apply raises_lift. intros e. destruct (idx_instruction_account tx ix p); [done|]. intros [= <-]. by right.
Qed.

Lemma malformed_u8 : raises idx_cursor_u8 malformed.
Proof. eapply raises_consumes; [apply consumes_u8|by left]. Qed.

Lemma malformed_u64 : raises idx_cursor_u64le malformed.
Proof. eapply raises_consumes; [apply consumes_u64|by left]. Qed.

Lemma malformed_pubkey : raises read_pubkey malformed.
Proof. eapply raises_consumes; [by apply consumes_map|by left]. Qed.

Lemma malformed_optional : raises read_optional_pubkey malformed.
Proof.
  unfold read_optional_pubkey. apply raises_bind; [apply malformed_u8|]. intros t. destruct (t =? 0); [apply raises_ret|].
  destruct (negb (t =? 1)); [apply raises_lift; intros e [= <-]; by right|].
  apply raises_bind; [apply malformed_pubkey|]. intros k. apply raises_ret.
Qed.

Lemma malformed_amount checked : raises (read_amount checked) malformed.
Proof.
  unfold read_amount. apply raises_bind; [apply malformed_u64|]. intros a. destruct checked; cbn [negb]; [|apply raises_ret].
  apply raises_bind; [apply malformed_u8|]. intros d. apply raises_ret.
Qed.

Lemma malformed_rest : raises take_rest malformed.
Proof.
  intros c Hc. unfold take_rest. rewrite cursor_remaining by done.
  pose proof (cursor_take_spec c (size (rest c)) Hc ltac:(unfold size; lia)) as H.
  destruct (_ <? size (rest c)); [rewrite H; by left|]. by destruct H as (s & c' & -> & _ & _ & H & _).
Qed.

Create HintDb malformed.
#[local] Hint Resolve malformed_account malformed_u8 malformed_u64 malformed_pubkey malformed_optional malformed_amount malformed_rest : malformed.

Lemma malformed_switch tx ix k : raises (read_token tx ix k) malformed.
Proof.
  destruct k; cbn [read_token]; unfold decode_initialize_mint, decode_initialize_account, decode_initialize_multisig;
    try case_bool_decide; cbn [negb];
    repeat first [apply raises_ret | apply raises_bind; [solve [eauto with malformed]|intros ?; cbv beta zeta]].
Qed.

(** Which discriminants the base decoder leaves alone. *)
Lemma token_range tx ix d l :
  slice_bytes (ix_data ix) = d :: l -> slice_len (ix_data ix) < 2 ^ 64 -> 0 <= d ->
  idx_token_instruction_decode tx ix = Err IDX_ERR_NOT_FOUND <-> 24 < d.
Proof.
  intros Hs Hl Hd. unfold idx_token_instruction_decode, run_reader, mbind, reader_bind.
  destruct (reads_u8 d (idx_cursor_init (ix_data ix)) l) as (c & -> & _ & Hc);
    [by apply cursor_init_ok|by rewrite rest_init|]. destruct (Z.ltb_spec 24 d); [done|].
  split; [|lia]. intros E. destruct (token_kinds !! Z.to_nat d) as [k|]; [|done].
  pose proof (malformed_switch tx ix k c Hc) as H1. destruct (read_token tx ix k c) as [[b c']|e]; [done|].
  injection E as ->. destruct H1; discriminate.
Qed.

(** All the ways the two decoders fail. *)
Abbreviation unknown_or_malformed := (fun e => e = IDX_ERR_NOT_FOUND \/ malformed e).

Lemma raises_impl {A} (r : reader A) (P Q : idx_status -> Prop) :
  raises r P -> (forall e, P e -> Q e) -> raises r Q.
Proof. intros H HPQ c Hc. specialize (H c Hc). destruct (r c) as [[a c']|e]; auto. Qed.

Lemma token_decode_err tx ix e :
  slice_len (ix_data ix) < 2 ^ 64 -> idx_token_instruction_decode tx ix = Err e -> unknown_or_malformed e.
Proof.
  intros Hl E. unfold idx_token_instruction_decode in E. revert E. apply run_raises; [|done].
  apply raises_bind; [by eapply raises_impl; [apply malformed_u8|auto]|]. intros d.
  destruct (Z.ltb_spec 24 d); [apply raises_lift; intros ? [= <-]; by left|].
  destruct (lookup_lt_is_Some_2 token_kinds (Z.to_nat d)) as [k ->]; [simpl; lia|].
  apply raises_bind; [by eapply raises_impl; [apply malformed_switch|auto]|]. intros b. apply raises_ret.
Qed.

Lemma malformed_switch_2022 tx ix k : raises (read_token_2022 tx ix k) malformed.
Proof.
  unfold read_token_2022. destruct (idx_token_2022_ix_is_extension k) eqn:Hk.
  - unfold decode_extension. repeat (apply raises_bind; [solve [eauto with malformed]|intros ?]). apply raises_ret.
  - destruct k; try discriminate Hk; unfold decode_reallocate;
      repeat first [apply raises_ret | apply raises_bind; [solve [eauto with malformed]|intros ?; cbv beta zeta]].
    destruct (negb _); [apply raises_lift; intros ? [= <-]; by right|apply raises_ret].
Qed.

Lemma token_2022_decode_err tx ix e :
  slice_len (ix_data ix) < 2 ^ 64 -> bytes_ok (slice_bytes (ix_data ix)) ->
  idx_token_2022_instruction_decode tx ix = Err e -> unknown_or_malformed e.
Proof.
  intros Hl Hb. unfold idx_token_2022_instruction_decode.
  destruct (idx_token_instruction_decode tx ix) as [i|e'] eqn:E; [done|].
  pose proof (token_decode_err tx ix e' Hl E) as He'.
  destruct He' as [-> |[-> | ->]]; try (intros [= <-]; auto; fail).
  destruct (slice_bytes (ix_data ix)) as [|d l] eqn:Hs.
  { unfold idx_token_instruction_decode, run_reader, mbind, reader_bind in E.
    pose proof (consumes_u8 (idx_cursor_init (ix_data ix)) (cursor_init_ok _ Hl)) as H. rewrite rest_init, Hs in H.
    simpl in H. by rewrite H in E. }
  apply Forall_cons in Hb as [Hd _]. unfold is_byte in Hd.
  apply (token_range tx ix d l Hs Hl ltac:(lia)) in E.
  destruct (reads_u8 d (idx_cursor_init (ix_data ix)) l) as (c & E1 & _ & Hc);
    [by apply cursor_init_ok|by rewrite rest_init|].
  unfold run_reader, mbind, reader_bind. rewrite E1. destruct (Z.ltb_spec 44 d); [intros [= <-]; by left|].
  unfold token_2022_kind_of. rewrite (proj2 (Z.ltb_ge _ _)) by lia.
  destruct (lookup_lt_is_Some_2 token_2022_kinds (Z.to_nat (d - 25))) as [k ->]; [simpl; lia|].
  pose proof (malformed_switch_2022 tx ix k c Hc) as H1.
  destruct (read_token_2022 tx ix k c) as [[b c']|e1]; [done|]. intros [= <-]. by right.
Qed.

(** What a success past the base instructions read. *)
Lemma extended_read tx ix k b :
  slice_len (ix_data ix) < 2 ^ 64 -> bytes_ok (slice_bytes (ix_data ix)) ->
  idx_token_2022_instruction_decode tx ix = Ok (Extended k b) ->
  exists c c', live c /\ slice_bytes (ix_data ix) = token_2022_kind_value k :: rest c /\
    token_2022_read tx ix k b (rest c) (rest c').
Proof.
  intros Hl Hb. unfold idx_token_2022_instruction_decode.
  destruct (idx_token_instruction_decode tx ix) as [i|[]]; try done.
  intros [c E]%run_inv. apply bind_inv in E as (d & c1 & E1 & E2).
  assert (slice_bytes (ix_data ix) <> []) as Hne.
  { intros Hnil. pose proof (consumes_u8 (idx_cursor_init (ix_data ix)) (cursor_init_ok _ Hl)) as H.
    rewrite rest_init, Hnil in H. simpl in H. by rewrite H in E1. }
  destruct (wrote_u8 _ _ _ (init_live _ Hl Hb Hne) E1) as (e & Hr & [-> Hd] & Hc1). rewrite rest_init in Hr.
  destruct (44 <? d); [done|]. destruct (token_2022_kind_of d) as [k'|] eqn:Hk; [|done].
  apply token_2022_kind_of_value in Hk as ->. apply bind_inv in E2 as (b' & c2 & E2 & [= -> -> <-]).
  exists c1, c2. split; [done|]. split; [by rewrite Hr|]. by apply token_2022_switch_read.
Qed.

(** ** Properties *)

(** C16. The Token-2022 decoder hands the shared range to the token program's decoder
    unchanged, and inverts the packing of the rest, and only that: an instruction
    decodes to a variant of its own exactly when its data is the discriminant, the
    packed fields and possibly more, the accounts stand where the variant takes
    them, and an extension's payload or a reallocation's whole 16-bit types are all
    the data there is; a discriminant past the last is [IDX_ERR_NOT_FOUND]. *)
Theorem token_2022_decode_iff tx ix d l :
  slice_bytes (ix_data ix) = d :: l -> slice_len (ix_data ix) < 2 ^ 64 -> bytes_ok (d :: l) ->
  (d <= 24 -> idx_token_2022_instruction_decode tx ix = (i ← idx_token_instruction_decode tx ix; Ok (Base i))) /\
  (24 < d <= 44 -> forall k b,
     idx_token_2022_instruction_decode tx ix = Ok (Extended k b) <->
     d = token_2022_kind_value k /\ token_2022_fields_ok k b /\
     Forall (fun pk => idx_instruction_account tx ix pk.1 = Some pk.2) (token_2022_accounts b) /\
     exists tail, l = token_2022_payload b ++ tail /\ (to_the_end b = true -> tail = [])) /\
  (44 < d -> idx_token_2022_instruction_decode tx ix = Err IDX_ERR_NOT_FOUND).
Proof.
  intros Hs Hl Hb. pose proof Hb as [Hd Hb']%Forall_cons. unfold is_byte in Hd.
  pose proof (token_range tx ix d l Hs Hl ltac:(lia)) as Hrange.
  assert (live (idx_cursor_init (ix_data ix))) as Hlive by (apply init_live; rewrite ?Hs; done).
  destruct (reads_u8 d (idx_cursor_init (ix_data ix)) l) as (c & E1 & Hr & _); [by apply cursor_init_ok|by rewrite rest_init|].
  destruct (wrote_u8 _ _ _ Hlive E1) as (_ & _ & _ & Hc). unfold idx_token_2022_instruction_decode. split_and!.
  - intros Hle. destruct (idx_token_instruction_decode tx ix) as [i|e] eqn:E; [done|].
    destruct e; try done. exfalso. pose proof (proj1 Hrange eq_refl). lia.
  - intros Hd2 k b. rewrite (proj2 Hrange) by (done || lia).
    unfold run_reader, mbind, reader_bind. rewrite E1, (proj2 (Z.ltb_ge _ _)) by lia. split.
    + destruct (token_2022_kind_of d) as [k'|] eqn:Hk; [|done]. apply token_2022_kind_of_value in Hk.
      destruct (read_token_2022 tx ix k' c) as [[b' c']|e] eqn:E; [|done]. intros [= -> ->].
      apply token_2022_switch_read in E as (H1 & H2 & H3 & H4); [|done]. split_and!; [done..|].
      exists (rest c'). by rewrite <- Hr.
    + intros (-> & Hf & Hn & tail & -> & Ht). rewrite (proj2 (token_2022_kind_lookup k)).
      destruct (token_2022_switch_complete tx ix k b tail c Hf Hn Ht Hc Hr) as (c' & ->). done.
  - intros Hd3. rewrite (proj2 Hrange) by (done || lia). unfold run_reader, mbind, reader_bind.
    by rewrite E1, (proj2 (Z.ltb_lt _ _)) by lia.
Qed.

(** A [u16] written low byte first. *)
Definition le16 (t : Z) : bytes := [t mod 256; t / 256].

Lemma le16s_lookup types i t :
  types !! i = Some t ->
  concat (map le16 types) !! (2 * i)%nat = Some (t mod 256) /\
  concat (map le16 types) !! (2 * i + 1)%nat = Some (t / 256).
Proof.
  revert i. induction types as [|x types IH]; intros [|i]; simpl; try done; [by intros [= ->]|].
  intros Ht. replace (i + S (i + 0))%nat with (S (2 * i))%nat by lia.
  replace (S (2 * i) + 1)%nat with (S (2 * i + 1))%nat by lia. simpl. by apply IH.
Qed.

Lemma le16s_length types : length (concat (map le16 types)) = (2 * length types)%nat.
Proof. induction types as [|x types IH]; simpl; [done|]. rewrite IH. lia. Qed.

(** The extension types of a reallocation, read one by one; past the last the answer
    is 0. *)
Theorem extension_types_read (types : list Z) i :
  Forall (fun t => 0 <= t < 2 ^ 16) types -> 2 * size types < 2 ^ 64 ->
  idx_token_2022_extension_type_at (Some (concat (map le16 types))) (Z.of_nat i) = default 0 (types !! i).
Proof.
  intros Hok Hl. unfold idx_token_2022_extension_type_at, slice_len, slice_bytes, size in *. simpl.
  rewrite le16s_length, Nat2Z.inj_mul, (Z.mul_comm (Z.of_nat 2)), Z_div_mult by lia.
  destruct (types !! i) as [t|] eqn:Ht; simpl.
  - pose proof (lookup_lt_Some _ _ _ Ht) as Hi. rewrite (proj2 (Z.leb_gt _ _)) by lia.
    rewrite (u64_small (Z.of_nat i * 2)) by (unfold is_u64; lia).
    rewrite (u64_small (Z.of_nat i * 2 + 1)) by (unfold is_u64; lia).
    destruct (le16s_lookup types i t Ht) as [H1 H2].
    replace (Z.to_nat (Z.of_nat i * 2)) with (2 * i)%nat by lia.
    replace (Z.to_nat (Z.of_nat i * 2 + 1)) with (2 * i + 1)%nat by lia.
    rewrite (list_lookup_total_correct _ _ _ H1), (list_lookup_total_correct _ _ _ H2).
    rewrite Forall_forall in Hok. specialize (Hok t ltac:(by eapply list_elem_of_lookup_2)).
    assert (0 <= t mod 256 < 256) by (apply Z.mod_pos_bound; lia).
    assert (0 <= t / 256 < 256) by (split; [apply Z.div_pos; lia|apply Z.div_lt_upper_bound; lia]).
    unfold u16. rewrite (byte_shiftl_small 16) by (unfold is_byte; lia).
    rewrite (Z.mod_small (t mod 256)) by lia. rewrite (lor_shiftl_add _ _ 8) by lia.
    rewrite Z.mod_small; zdiv.
  - apply lookup_ge_None in Ht. by rewrite (proj2 (Z.leb_le _ _)) by lia.
Qed.

(** The payload of [TransferCheckedWithFee], decoded from its packing. *)
Theorem transfer_with_fee_decode tx ix t tail :
  names tx ix [(0, twf_source t); (1, twf_mint t); (2, twf_destination t); (3, twf_authority t)] ->
  is_u64 (twf_amount t) -> is_u64 (twf_fee t) ->
  let payload := le64 (twf_amount t) ++ [twf_decimals t] ++ le64 (twf_fee t) ++ tail in
  size payload < 2 ^ 64 ->
  idx_token_2022_transfer_with_fee_decode tx ix (Some payload) = Ok t.
Proof.
  intros Hn Ha Hf payload Hl. unfold names in Hn. rewrite !Forall_cons in Hn. cbn [fst snd] in Hn. destruct_and?.
  unfold idx_token_2022_transfer_with_fee_decode.
  apply (run_reads _ (le64 (twf_amount t) ++ [twf_decimals t] ++ le64 (twf_fee t)) _ _ tail);
    [|unfold payload; by rewrite <- !app_assoc|done].
  destruct t; cbn [twf_source twf_mint twf_destination twf_authority twf_amount twf_fee twf_decimals] in *.
  reads_chain.
Qed.

(** ** Witnesses *)

Definition reallocate_ix : idx_instruction :=
  Instruction 1 [0; 1; 0; 1] (Some ([29] ++ le16 300 ++ le16 1)) 0.

Lemma token_2022_decode_iff_witness :
  idx_token_2022_instruction_decode two_accounts reallocate_ix =
    Ok (Extended IDX_TOKEN_2022_IX_REALLOCATE
          (Reallocate (Pubkey (replicate 32 1)) (Pubkey (replicate 32 2)) (Pubkey (replicate 32 2))
             (Some (le16 300 ++ le16 1)) 2)).
Proof.
  destruct (token_2022_decode_iff two_accounts reallocate_ix 29 (le16 300 ++ le16 1)) as (_ & H & _);
    [reflexivity|reflexivity|decide_now|]. apply (H ltac:(lia)).
  split; [reflexivity|]. split; [split; [reflexivity|]; split; [by eexists|reflexivity]|].
  split; [repeat constructor|]. exists []. split; [reflexivity|done].
Defined.

Lemma extension_types_read_witness :
  idx_token_2022_extension_type_at (Some (concat (map le16 [300; 1]))) 0 = 300.
Proof. apply (extension_types_read [300; 1] 0); [decide_now|reflexivity]. Defined.

Lemma transfer_with_fee_decode_witness :
  idx_token_2022_transfer_with_fee_decode two_accounts (Instruction 1 [0; 1; 0; 1] None 0)
    (Some (le64 250 ++ [6] ++ le64 3 ++ [])) =
  Ok (TransferWithFee (Pubkey (replicate 32 1)) (Pubkey (replicate 32 2)) (Pubkey (replicate 32 1))
        (Pubkey (replicate 32 2)) 250 3 6).
Proof.
  apply (transfer_with_fee_decode _ _
           (TransferWithFee (Pubkey (replicate 32 1)) (Pubkey (replicate 32 2)) (Pubkey (replicate 32 1))
              (Pubkey (replicate 32 2)) 250 3 6) []);
    [repeat constructor|decide_now|decide_now|reflexivity].
Defined.
