(* ===== verification/Transfer.v ===== *)
(** * transfer.c: the transfers of a transaction

    The walk over the executed instructions, and the rows it builds.  The builder's
    array is the list of the rows committed; the row being filled, past the count
    until it is committed, is a value.  An optional field is one whose [has_] flag is
    set.  A read past the accounts is undefined in the source and excluded by [tx_ok].

    [row_of] and [executed] say what the walk is for: one row for each executed
    instruction that moves value, in execution order, and the first theorem is that
    the builder computes just that. *)

From stdpp Require Import sorting.
From S2P Require Import Prelude Radix Base58 Bytes Types Wire Json.
From S2P Require Import Arena Block Walk Operands SystemProgram TokenProgram Token2022 Balance.
#[local] Open Scope Z_scope.

(** src/include/transfer.h:57-62 [idx_transfer_kind] *)
Inductive idx_transfer_kind :=
  | IDX_TRANSFER_SOL
  | IDX_TRANSFER_TOKEN
  | IDX_TRANSFER_MINT
  | IDX_TRANSFER_BURN.

#[export] Instance idx_transfer_kind_eq_dec : EqDecision idx_transfer_kind.
Proof. solve_decision. Defined.

(** src/src/transfer.c:9-21 [idx_transfer_kind_name] *)
Definition idx_transfer_kind_name (kind : idx_transfer_kind) : bytes :=
  match kind with
  | IDX_TRANSFER_SOL => lit "sol"
  | IDX_TRANSFER_TOKEN => lit "token"
  | IDX_TRANSFER_MINT => lit "mint"
  | IDX_TRANSFER_BURN => lit "burn"
  end.

(** src/include/transfer.h:89-112 [idx_transfer] *)
Record idx_transfer := TransferRow {
  tr_kind : idx_transfer_kind;
  tr_at : stamp;
  tr_source : idx_pubkey;
  tr_destination : idx_pubkey;
  tr_authority : option idx_pubkey;
  tr_mint : option idx_pubkey;
  tr_source_owner : option idx_pubkey;
  tr_destination_owner : option idx_pubkey;
  tr_amount : Z;
  tr_fee : Z;
  tr_decimals : option Z
}.

Definition sizeof_transfer : Z := 240.

(** src/src/transfer.c:29-37 [builder] *)
Record builder := Builder {
  b_tx : idx_transaction;
  b_rows : list idx_transfer;
  b_capacity : Z;
  b_at : stamp
}.

(** [b.instruction_index = ...] and the two fields with it. *)
Definition at_stamp (b : builder) (s : stamp) : builder := Builder (b_tx b) (b_rows b) (b_capacity b) s.

(** src/src/transfer.c:43-53 [builder_row] *)
Definition builder_row (b : builder) : option idx_transfer :=
  if b_capacity b <=? size (b_rows b) then None
  else Some (TransferRow IDX_TRANSFER_SOL (b_at b) IDX_PUBKEY_DEFAULT IDX_PUBKEY_DEFAULT
               None None None None 0 0 None).

(** src/src/transfer.c:58-74 [find_token_balance] *)
Definition find_token_balance (tx : idx_transaction) (account : idx_pubkey) : option idx_token_balance :=
  List.find (fun entry => idx_pubkey_equal (account_key tx (Z.to_nat (tb_account_index entry))) account)
    (post_token_balances tx ++ pre_token_balances tx).

(** [o] unless it is absent. *)
Definition orelse {X} (o o' : option X) : option X := match o with Some x => Some x | None => o' end.

(** src/src/transfer.c:82-114 [resolve_from_balances] *)
Definition resolve_from_balances (tx : idx_transaction) (row : idx_transfer) : idx_transfer :=
  let source := if bool_decide (tr_kind row = IDX_TRANSFER_MINT) then None
                else find_token_balance tx (tr_source row) in
  let destination := if bool_decide (tr_kind row = IDX_TRANSFER_BURN) then None
                     else find_token_balance tx (tr_destination row) in
  let either := orelse source destination in
  TransferRow (tr_kind row) (tr_at row) (tr_source row) (tr_destination row) (tr_authority row)
    (orelse (tr_mint row) (tb_mint <$> either))
    (orelse (source ≫= tb_owner) (tr_source_owner row))
    (orelse (destination ≫= tb_owner) (tr_destination_owner row))
    (tr_amount row) (tr_fee row)
    (orelse (tr_decimals row) (tb_decimals <$> either)).

(** src/src/transfer.c:117-125 [builder_commit] *)
Definition builder_commit (b : builder) (row : idx_transfer) : builder :=
  if tr_amount row =? 0 then b
  else
    let row := if bool_decide (tr_kind row = IDX_TRANSFER_SOL) then row
               else resolve_from_balances (b_tx b) row in
    Builder (b_tx b) (b_rows b ++ [row]) (b_capacity b) (b_at b).

(** A row with the fields a decoded instruction fills. *)
Definition fill (row : idx_transfer) (kind : idx_transfer_kind) (source destination : idx_pubkey)
    (authority mint : option idx_pubkey) (amount fee : Z) (decimals : option Z) : idx_transfer :=
  TransferRow kind (tr_at row) source destination authority mint (tr_source_owner row)
    (tr_destination_owner row) amount fee decimals.

(** src/src/transfer.c:144-193 [extract_system]: the switch; [None] returns without a
    commit. *)
Definition fill_from_system (decoded : idx_system_instruction) (row : idx_transfer) : option idx_transfer :=
  let sol source destination authority lamports :=
    Some (fill row IDX_TRANSFER_SOL source destination authority None lamports 0 None) in
  match decoded with
  | SystemProgram.Transfer from to lamports => sol from to None lamports
  | TransferWithSeed from base_account to lamports _ _ => sol from to (Some base_account) lamports
  | CreateAccount funder account lamports _ _ => sol funder account None lamports
  | CreateAccountWithSeed funder account _ _ lamports _ _ => sol funder account None lamports
  | WithdrawNonceAccount nonce to authority lamports => sol nonce to (Some authority) lamports
  | Assign _ _ | AdvanceNonceAccount _ _ | InitializeNonceAccount _ _ | AuthorizeNonceAccount _ _ _
  | Allocate _ _ | AllocateWithSeed _ _ _ _ _ _ | AssignWithSeed _ _ _ _ _ | UpgradeNonceAccount _ => None
  end.

(** src/src/transfer.c:129-198 [extract_system] *)
Definition extract_system (b : builder) (ix : idx_instruction) : result builder :=
  match idx_system_instruction_decode (b_tx b) ix with
  | Err IDX_ERR_NOT_FOUND => Ok b
  | Err e => Err e
  | Ok decoded =>
      match builder_row b with
      | None => IDX_FAIL IDX_ERR_INTERNAL
      | Some row =>
          match fill_from_system decoded row with
          | None => Ok b
          | Some row => Ok (builder_commit b row)
          end
      end
  end.

(** src/src/transfer.c:204-277 [fill_from_token]; [None] is [false].  The union's
    constructor is the one the kind selects in every decoded instruction
    ([token_decode_iff]); the source reads the member the kind names. *)
Definition fill_from_token (decoded : idx_token_instruction) (row : idx_transfer) : option idx_transfer :=
  match kind decoded, body decoded with
  | (IDX_TOKEN_IX_TRANSFER | IDX_TOKEN_IX_TRANSFER_CHECKED),
    Transfer source destination authority mint amount decimals =>
      Some (fill row IDX_TRANSFER_TOKEN source destination (Some authority) mint amount 0 decimals)
  | (IDX_TOKEN_IX_MINT_TO | IDX_TOKEN_IX_MINT_TO_CHECKED), MintTo mint account authority amount decimals =>
      Some (fill row IDX_TRANSFER_MINT mint account (Some authority) (Some mint) amount 0 decimals)
  | (IDX_TOKEN_IX_BURN | IDX_TOKEN_IX_BURN_CHECKED), Burn account mint authority amount decimals =>
      Some (fill row IDX_TRANSFER_BURN account mint (Some authority) (Some mint) amount 0 decimals)
  | _, _ => None
  end.

(** src/src/transfer.c:279-299 [extract_token] *)
Definition extract_token (b : builder) (ix : idx_instruction) : result builder :=
  match idx_token_instruction_decode (b_tx b) ix with
  | Err IDX_ERR_NOT_FOUND => Ok b
  | Err e => Err e
  | Ok decoded =>
      match builder_row b with
      | None => IDX_FAIL IDX_ERR_INTERNAL
      | Some row =>
          match fill_from_token decoded row with
          | None => Ok b
          | Some row => Ok (builder_commit b row)
          end
      end
  end.

(** src/src/transfer.c:326-352 [extract_token_2022]: past the base instructions. *)
Definition fill_from_extension (tx : idx_transaction) (ix : idx_instruction) (kind : idx_token_2022_ix_kind)
    (body : token_2022_body) (row : idx_transfer) : result (option idx_transfer) :=
  match kind, body with
  | IDX_TOKEN_2022_IX_TRANSFER_FEE_EXTENSION, Extension sub_discriminant payload =>
      if negb (sub_discriminant =? fee_ix_value IDX_TOKEN_2022_FEE_IX_TRANSFER_CHECKED_WITH_FEE) then Ok None
      else
        t ← idx_token_2022_transfer_with_fee_decode tx ix payload;
        Ok (Some (fill row IDX_TRANSFER_TOKEN (twf_source t) (twf_destination t) (Some (twf_authority t))
                    (Some (twf_mint t)) (twf_amount t) (twf_fee t) (Some (twf_decimals t))))
  | _, _ => Ok None
  end.

(** src/src/transfer.c:308-354 [extract_token_2022] *)
Definition extract_token_2022 (b : builder) (ix : idx_instruction) : result builder :=
  match idx_token_2022_instruction_decode (b_tx b) ix with
  | Err IDX_ERR_NOT_FOUND => Ok b
  | Err e => Err e
  | Ok decoded =>
      match builder_row b with
      | None => IDX_FAIL IDX_ERR_INTERNAL
      | Some row =>
          filled ← match decoded with
                   | Base base => Ok (fill_from_token base row)
                   | Extended kind body => fill_from_extension (b_tx b) ix kind body row
                   end;
          match filled with
          | None => Ok b
          | Some row => Ok (builder_commit b row)
          end
      end
  end.

(** src/src/transfer.c:358-371 [extract_instruction] *)
Definition extract_instruction (b : builder) (ix : idx_instruction) : result builder :=
  let program := default inhabitant (idx_instruction_program_id (b_tx b) ix) in
  if idx_pubkey_equal program IDX_PROGRAM_SYSTEM then extract_system b ix
  else if idx_pubkey_equal program IDX_PROGRAM_TOKEN then extract_token b ix
  else if idx_pubkey_equal program IDX_PROGRAM_TOKEN_2022 then extract_token_2022 b ix
  else Ok b.

(** src/src/transfer.c:437-440 [idx_transfer_extract]: the loop over a group, from
    [j] on. *)
Fixpoint extract_group (b : builder) (i j : nat) (ixs : list idx_instruction) : result builder :=
  match ixs with
  | [] => Ok b
  | ix :: ixs' =>
      b ← extract_instruction (at_stamp b (Stamp (u16 (Z.of_nat i)) (u16 (Z.of_nat j)) true)) ix;
      extract_group b i (S j) ixs'
  end.

(** src/src/transfer.c:422-441 [idx_transfer_extract]: the loop over the top level,
    from [i] on. *)
Fixpoint extract_all (b : builder) (i : nat) (ixs : list idx_instruction) : result builder :=
  match ixs with
  | [] => Ok b
  | ix :: ixs' =>
      b ← extract_instruction (at_stamp b (Stamp (u16 (Z.of_nat i)) 0 false)) ix;
      b ← match inner_group (b_tx b) i with
          | None => Ok b
          | Some group => extract_group b i 0 (inner_instructions_of group)
          end;
      extract_all b (S i) ixs'
  end.

(** src/src/transfer.c:396-448 [idx_transfer_extract] *)
Definition idx_transfer_extract {A} `{ArenaOps A} (tx : idx_transaction) (arena : A)
    : result (list idx_transfer) * A :=
  if negb (has_meta tx) || negb (success tx) || bool_decide (accounts tx = []) then (Ok [], arena)
  else
    let capacity := instruction_total tx in
    if capacity =? 0 then (Ok [], arena)
    else
      let '(raw, arena') := arena_calloc capacity sizeof_transfer arena in
      (_ ← raw;
       b ← extract_all (Builder tx [] capacity (Stamp 0 0 false)) 0 (instructions tx);
       Ok (b_rows b), arena').

(** ** What the walk computes *)

(** A blank row at a place of the walk. *)
Definition blank (s : stamp) : idx_transfer :=
  TransferRow IDX_TRANSFER_SOL s IDX_PUBKEY_DEFAULT IDX_PUBKEY_DEFAULT None None None None 0 0 None.

(** A decoded instruction, none for a discriminant no decoder knows. *)
Definition known_only {X} (r : result X) : result (option X) :=
  match r with Ok x => Ok (Some x) | Err IDX_ERR_NOT_FOUND => Ok None | Err e => Err e end.

(** The value an instruction moves, if it is one of the programs read here. *)
Definition moved (tx : idx_transaction) (s : stamp) (ix : idx_instruction) : result (option idx_transfer) :=
  let program := default inhabitant (idx_instruction_program_id tx ix) in
  if idx_pubkey_equal program IDX_PROGRAM_SYSTEM then
    d ← known_only (idx_system_instruction_decode tx ix);
    Ok (d ≫= fun d => fill_from_system d (blank s))
  else if idx_pubkey_equal program IDX_PROGRAM_TOKEN then
    d ← known_only (idx_token_instruction_decode tx ix);
    Ok (d ≫= fun d => fill_from_token d (blank s))
  else if idx_pubkey_equal program IDX_PROGRAM_TOKEN_2022 then
    d ← known_only (idx_token_2022_instruction_decode tx ix);
    match d with
    | None => Ok None
    | Some (Base i) => Ok (fill_from_token i (blank s))
    | Some (Extended k b) => fill_from_extension tx ix k b (blank s)
    end
  else Ok None.

(** The row for it, unless it moves nothing. *)
Definition committed (tx : idx_transaction) (row : idx_transfer) : option idx_transfer :=
  if tr_amount row =? 0 then None
  else Some (if bool_decide (tr_kind row = IDX_TRANSFER_SOL) then row else resolve_from_balances tx row).

Definition row_of (tx : idx_transaction) (x : stamp * idx_instruction) : result (option idx_transfer) :=
  row ← moved tx x.1 x.2; Ok (row ≫= committed tx).

(** The rows of a sequence of instructions; the first that fails ends it. *)
Fixpoint rows_of (tx : idx_transaction) (l : list (stamp * idx_instruction)) : result (list idx_transfer) :=
  match l with
  | [] => Ok []
  | x :: l' => row ← row_of tx x; rows ← rows_of tx l'; Ok (option_list row ++ rows)
  end.

(** ** The builder computes it *)

Definition push (b : builder) (rows : list idx_transfer) (s : stamp) : builder :=
  Builder (b_tx b) (b_rows b ++ rows) (b_capacity b) s.

Lemma push_nil b : push b [] (b_at b) = b.
Proof. destruct b. unfold push. simpl. by rewrite app_nil_r. Qed.

Lemma commit_push b row : builder_commit b row = push b (option_list (committed (b_tx b) row)) (b_at b).
Proof.
  unfold builder_commit, committed. destruct (tr_amount row =? 0); simpl; [by rewrite push_nil|done].
Qed.

Lemma builder_row_blank b : size (b_rows b) < b_capacity b -> builder_row b = Some (blank (b_at b)).
Proof. intros H. unfold builder_row. by rewrite (proj2 (Z.leb_gt _ _)) by lia. Qed.

Lemma extract_instruction_spec b ix :
  size (b_rows b) < b_capacity b ->
  extract_instruction b ix =
    (row ← row_of (b_tx b) (b_at b, ix); Ok (push b (option_list row) (b_at b))).
Proof.
  intros Hb. unfold extract_instruction, row_of, moved. cbn [fst snd].
  repeat case_match; unfold extract_system, extract_token, extract_token_2022.
  - destruct (idx_system_instruction_decode _ _) as [d|[]]; simpl; rewrite ?push_nil; try done.
    rewrite builder_row_blank by done. destruct (fill_from_system d _); simpl; [apply f_equal, commit_push|by rewrite push_nil].
  - destruct (idx_token_instruction_decode _ _) as [d|[]]; simpl; rewrite ?push_nil; try done.
    rewrite builder_row_blank by done. destruct (fill_from_token d _); simpl; [apply f_equal, commit_push|by rewrite push_nil].
  - destruct (idx_token_2022_instruction_decode _ _) as [d|[]]; simpl; rewrite ?push_nil; try done.
    rewrite builder_row_blank by done. destruct d as [i|k t]; simpl.
    + destruct (fill_from_token i _); simpl; [apply f_equal, commit_push|by rewrite push_nil].
    + destruct (fill_from_extension _ _ _ _ _) as [[r|]|e]; simpl; [apply f_equal, commit_push|by rewrite push_nil|done].
  - simpl. by rewrite push_nil.
Qed.

Lemma push_push b l1 s1 l2 s2 : push (push b l1 s1) l2 s2 = push b (l1 ++ l2) s2.
Proof. unfold push. simpl. by rewrite app_assoc. Qed.

Lemma option_list_le {X} (o : option X) : (length (option_list o) <= 1)%nat.
Proof. destruct o; simpl; lia. Qed.

Lemma rows_of_length tx l rows : rows_of tx l = Ok rows -> (length rows <= length l)%nat.
Proof.
  revert rows. induction l as [|x l IH]; intros rows; cbn [rows_of]; [by intros [= <-]|].
  destruct (row_of tx x) as [row|]; [|done]. destruct (rows_of tx l) as [rs|]; [|done]. simpl. intros [= <-].
  rewrite length_app. specialize (IH rs eq_refl). pose proof (option_list_le row). simpl in *. lia.
Qed.

Lemma rows_of_app tx l1 l2 :
  rows_of tx (l1 ++ l2) = (r1 ← rows_of tx l1; r2 ← rows_of tx l2; Ok (r1 ++ r2)).
Proof.
  induction l1 as [|x l1 IH]; simpl; [by destruct (rows_of tx l2)|]. rewrite IH.
  destruct (row_of tx x); [|done]. destruct (rows_of tx l1); [|done]. simpl.
  destruct (rows_of tx l2); [|done]. simpl. by rewrite app_assoc.
Qed.

Lemma extract_group_spec b i j ixs :
  size (b_rows b) + size ixs <= b_capacity b ->
  exists s, extract_group b i j ixs =
    (rows ← rows_of (b_tx b) (executed_group i j ixs); Ok (push b rows s)).
Proof.
  revert b j. induction ixs as [|ix ixs IH]; intros b j Hcap; cbn [extract_group executed_group rows_of].
  { exists (b_at b). simpl. by rewrite push_nil. }
  unfold size in Hcap. cbn [length] in Hcap. rewrite extract_instruction_spec by (unfold size; simpl; lia).
  cbn [at_stamp b_tx b_at]. destruct (row_of (b_tx b) _) as [row|e]; [|by exists (b_at b)]. cbn [mbind IDX_TRY].
  pose proof (option_list_le row).
  edestruct (IH (push (at_stamp b (Stamp (u16 (Z.of_nat i)) (u16 (Z.of_nat j)) true)) (option_list row)
                   (Stamp (u16 (Z.of_nat i)) (u16 (Z.of_nat j)) true)) (S j)) as [s Hs].
  { unfold size. simpl. rewrite length_app. lia. }
  exists s. rewrite Hs. cbn [push at_stamp b_tx]. destruct (rows_of _ _) as [rows|e]; [|done]. cbn [mbind IDX_TRY].
  unfold push, at_stamp. simpl. by rewrite app_assoc.
Qed.

Lemma extract_all_spec b i ixs :
  size (b_rows b) + size (executed_from (b_tx b) i ixs) <= b_capacity b ->
  exists s, extract_all b i ixs =
    (rows ← rows_of (b_tx b) (executed_from (b_tx b) i ixs); Ok (push b rows s)).
Proof.
  revert b i. induction ixs as [|ix ixs IH]; intros b i Hcap; cbn [extract_all executed_from rows_of].
  { exists (b_at b). simpl. by rewrite push_nil. }
  unfold size in Hcap. cbn [executed_from length] in Hcap. rewrite length_app in Hcap.
  rewrite extract_instruction_spec by (unfold size; simpl; lia).
  cbn [at_stamp b_tx b_at]. destruct (row_of (b_tx b) _) as [row|e]; [|by exists (b_at b)]. cbn [mbind IDX_TRY].
  pose proof (option_list_le row). set (s0 := Stamp _ 0 false). set (b1 := push _ (option_list row) s0).
  assert (b_tx b1 = b_tx b) as Htx by done.
  assert (length (executed_group i 0 (inner_of (b_tx b) i)) = length (inner_of (b_tx b) i)) as Hlen.
  { generalize 0%nat at 1. generalize (inner_of (b_tx b) i). intros l. induction l as [|x l IHl]; intros j; simpl; auto. }
  destruct (extract_group_spec b1 i 0 (inner_of (b_tx b) i)) as [s1 Hg].
  { unfold size, b1. simpl. rewrite length_app. lia. }
  assert ((match inner_group (b_tx b1) i with
           | None => Ok b1
           | Some group => extract_group b1 i 0 (inner_instructions_of group)
           end) = (rows ← rows_of (b_tx b) (executed_group i 0 (inner_of (b_tx b) i));
                   Ok (push b1 rows (if inner_group (b_tx b) i is Some _ then s1 else b_at b1)))) as Hgroup.
  { rewrite Htx. unfold inner_of in *. destruct (inner_group (b_tx b) i); [exact Hg|]. simpl. by rewrite push_nil. }
  rewrite Hgroup, rows_of_app. clear Hgroup Hg.
  destruct (rows_of (b_tx b) (executed_group _ _ _)) as [g|e] eqn:Eg; [|by exists s0]. cbn [mbind IDX_TRY].
  apply rows_of_length in Eg. set (s2 := if inner_group _ _ is Some _ then _ else _).
  destruct (IH (push b1 g s2) (S i)) as [s Hs].
  { unfold size, b1. simpl. rewrite !length_app. lia. }
  exists s. rewrite Hs. unfold b1. cbn [push at_stamp b_tx]. destruct (rows_of _ _) as [rows|e]; [|done]. cbn [mbind IDX_TRY].
  unfold push, at_stamp. simpl. by rewrite <- !app_assoc.
Qed.

Lemma rows_of_sublist tx l rows :
  (forall s ix row, moved tx s ix = Ok (Some row) -> tr_at row = s) ->
  rows_of tx l = Ok rows -> map (place ∘ tr_at) rows `sublist_of` map (place ∘ fst) l.
Proof.
  intros Hm. revert rows. induction l as [|x l IH]; intros rows; cbn [rows_of map]; [by intros [= <-]|].
  unfold row_of at 1. destruct (moved tx x.1 x.2) as [row|] eqn:E; [|done]. cbn [mbind IDX_TRY].
  destruct (rows_of tx l) as [rs|]; [|done]. cbn [mbind IDX_TRY]. intros [= <-]. specialize (IH rs eq_refl).
  destruct row as [row|]; cbn [mbind option_bind option_list app map]; [|by constructor].
  apply Hm in E. unfold committed. destruct (tr_amount row =? 0); cbn [option_list app map]; [by constructor|].
  assert (tr_at (if bool_decide (tr_kind row = IDX_TRANSFER_SOL) then row else resolve_from_balances tx row) = x.1) as Hat.
  { rewrite <- E. by case_bool_decide. }
  match goal with |- context [option_list (Some ?r)] =>
    change (place (tr_at r) :: map (place ∘ tr_at) rs `sublist_of` place x.1 :: map (place ∘ fst) l) end.
  rewrite Hat.
  by constructor.
Qed.

(** ** The shape of a row *)

(** A row as an instruction fills it, before the balances are asked. *)
Definition filled_ok (s : stamp) (row : idx_transfer) : Prop :=
  tr_at row = s /\ tr_source_owner row = None /\ tr_destination_owner row = None /\
  match tr_kind row with
  | IDX_TRANSFER_SOL => tr_mint row = None /\ tr_decimals row = None /\ tr_fee row = 0
  | IDX_TRANSFER_TOKEN => is_Some (tr_authority row)
  | IDX_TRANSFER_MINT => is_Some (tr_authority row) /\ tr_mint row = Some (tr_source row)
  | IDX_TRANSFER_BURN => is_Some (tr_authority row) /\ tr_mint row = Some (tr_destination row)
  end.

Lemma system_filled d s row : fill_from_system d (blank s) = Some row -> filled_ok s row.
Proof. destruct d; intros [= <-]; by split_and!. Qed.

Lemma token_filled d s row : fill_from_token d (blank s) = Some row -> filled_ok s row.
Proof. unfold fill_from_token. destruct (kind d), (body d); intros [= <-]; split_and!; simpl; eauto. Qed.

Lemma extension_filled tx ix k b s row : fill_from_extension tx ix k b (blank s) = Ok (Some row) -> filled_ok s row.
Proof.
  unfold fill_from_extension. destruct k, b; try done. destruct (negb _); [done|].
  destruct (idx_token_2022_transfer_with_fee_decode _ _ _); [|done]. intros [= <-]. split_and!; simpl; eauto.
Qed.

Lemma moved_filled tx s ix row : moved tx s ix = Ok (Some row) -> filled_ok s row.
Proof.
  unfold moved. repeat case_match; try done.
  - destruct (known_only _) as [[d|]|]; [|done..]. intros [= E]. by eapply system_filled.
  - destruct (known_only _) as [[d|]|]; [|done..]. intros [= E]. by eapply token_filled.
  - destruct (known_only _) as [[[i|k b]|]|]; [| |done..].
    + intros [= E]. by eapply token_filled.
    + by apply extension_filled.
Qed.

(** What is true of every row handed out. *)
Definition row_ok (tx : idx_transaction) (row : idx_transfer) : Prop :=
  tr_amount row <> 0 /\
  match tr_kind row with
  | IDX_TRANSFER_SOL =>
      tr_mint row = None /\ tr_decimals row = None /\ tr_fee row = 0 /\
      tr_source_owner row = None /\ tr_destination_owner row = None
  | IDX_TRANSFER_TOKEN =>
      is_Some (tr_authority row) /\
      (tr_mint row = None ->
       find_token_balance tx (tr_source row) = None /\ find_token_balance tx (tr_destination row) = None)
  | IDX_TRANSFER_MINT =>
      is_Some (tr_authority row) /\ tr_mint row = Some (tr_source row) /\ tr_source_owner row = None
  | IDX_TRANSFER_BURN =>
      is_Some (tr_authority row) /\ tr_mint row = Some (tr_destination row) /\ tr_destination_owner row = None
  end.

#[local] Arguments find_token_balance : simpl never.

Lemma committed_ok tx s row row' : filled_ok s row -> committed tx row = Some row' -> row_ok tx row'.
Proof.
  intros (_ & Hso & Hdo & Hk). unfold committed. destruct (Z.eqb_spec (tr_amount row) 0) as [|Hne]; [done|].
  destruct row as [k s' src dst auth mint so do_ amount fee dec]. cbn in Hso, Hdo, Hk, Hne. subst so do_. cbn [tr_kind].
  destruct k; [rewrite bool_decide_true by done|rewrite bool_decide_false by done..]; intros [= <-];
    unfold row_ok; cbn; split; try done; destruct_and?; split_and!; try done.
  - intros Hm. unfold resolve_from_balances in Hm. cbn in Hm. destruct mint; [done|].
    destruct (find_token_balance tx src), (find_token_balance tx dst); try discriminate Hm. done.
  - cbn. by destruct mint.
  - cbn. by destruct mint.
Qed.

(** ** Failures *)

Lemma malformed_seed : raises read_seed malformed.
Proof.
  intros c Hc. pose proof (malformed_u64 c Hc) as H. unfold read_seed, mbind, reader_bind.
  destruct (idx_cursor_u64le c) as [[len c1]|e] eqn:E; [|done]. apply u64le_nonneg in E.
  destruct (Z.ltb_spec (idx_cursor_remaining c1) len); [by left|].
  pose proof (cursor_take_spec c1 len H E) as Ht. destruct (_ <? len); [rewrite Ht; by left|].
  by destruct Ht as (s & c2 & -> & _ & _ & Hc2 & _).
Qed.

#[local] Hint Resolve malformed_account malformed_u64 malformed_pubkey malformed_seed : malformed.

Lemma system_decode_err tx ix e :
  slice_len (ix_data ix) < 2 ^ 64 -> idx_system_instruction_decode tx ix = Err e -> unknown_or_malformed e.
Proof.
  intros Hl. apply run_raises; [|done].
  apply raises_bind; [eapply raises_consumes; [apply consumes_u32|by right; left]|]. intros d.
  destruct (Z.ltb_spec 12 d); [apply raises_lift; intros ? [= <-]; by left|].
  destruct (lookup_lt_is_Some_2 system_kinds (Z.to_nat d)) as [k ->]; [simpl; lia|].
  apply (raises_impl _ malformed); [|auto].
  destruct k; cbn [read_system];
    repeat first [apply raises_ret | apply raises_bind; [solve [eauto with malformed]|intros ?; cbv beta]].
Qed.

Lemma with_fee_err tx ix payload e :
  slice_len payload < 2 ^ 64 -> idx_token_2022_transfer_with_fee_decode tx ix payload = Err e -> malformed e.
Proof.
  intros Hl. apply run_raises; [|done].
  repeat first [apply raises_ret | apply raises_bind; [solve [eauto using malformed_u8 with malformed]|intros ?; cbv beta]].
Qed.

Lemma known_only_err {X} (r : result X) e :
  (forall e, r = Err e -> unknown_or_malformed e) -> known_only r = Err e -> malformed e.
Proof.
  intros H. destruct r as [x|e']; [done|]. specialize (H e' eq_refl). destruct H as [->|H]; [done|].
  destruct H as [->| ->]; intros [= <-]; auto.
Qed.

Lemma known_only_some {X} (r : result X) x : known_only r = Ok (Some x) -> r = Ok x.
Proof. destruct r as [y|[]]; intros [= ->]; done. Qed.

(** The payload of an extension is part of the data. *)
Lemma extension_payload tx ix k sub payload :
  wire_ok ix -> idx_token_2022_instruction_decode tx ix = Ok (Extended k (Extension sub payload)) ->
  slice_len payload < 2 ^ 64.
Proof.
  intros [Hl Hb] E. destruct (extended_read tx ix k _ Hl Hb E) as (c & c' & _ & Hs & Hr & _).
  unfold slice_len in *. rewrite Hs, Hr in Hl. unfold size in *. cbn [length token_2022_payload app] in Hl.
  rewrite length_app in Hl. lia.
Qed.

Lemma moved_err tx s ix e : wire_ok ix -> moved tx s ix = Err e -> malformed e.
Proof.
  intros Hw. pose proof Hw as [Hl Hb]. unfold moved. repeat case_match; try done.
  - destruct (known_only _) as [|e'] eqn:E; [done|]. intros [= <-]. eapply known_only_err; [|exact E].
    intros. by eapply system_decode_err.
  - destruct (known_only _) as [|e'] eqn:E; [done|]. intros [= <-]. eapply known_only_err; [|exact E].
    intros. by eapply token_decode_err.
  - destruct (known_only _) as [d|e'] eqn:E; cbn [mbind IDX_TRY].
    + destruct d as [[i|k b]|]; [done| |done]. unfold fill_from_extension. destruct k, b; try done.
      destruct (negb _); [done|]. destruct (idx_token_2022_transfer_with_fee_decode _ _ _) as [|e'] eqn:E'; [done|].
      intros [= <-]. eapply with_fee_err; [|exact E']. eapply extension_payload; [exact Hw|].
      by apply known_only_some in E.
    + intros [= <-]. eapply known_only_err; [|exact E]. intros. by eapply token_2022_decode_err.
Qed.

Lemma rows_of_err tx l e :
  (forall x, x ∈ l -> wire_ok x.2) -> rows_of tx l = Err e -> malformed e.
Proof.
  induction l as [|x l IH]; intros Hw; cbn [rows_of]; [done|]. unfold row_of.
  destruct (moved tx x.1 x.2) as [row|e'] eqn:E; cbn [mbind IDX_TRY].
  - destruct (rows_of tx l) as [rs|e'] eqn:E'; [done|]. intros [= <-]. apply IH; [|done].
    intros y Hy. apply Hw. by right.
  - intros [= <-]. eapply moved_err; [|exact E]. apply Hw. by left.
Qed.

Lemma rows_of_elem tx l rows row :
  rows_of tx l = Ok rows -> row ∈ rows -> exists s ix r, moved tx s ix = Ok (Some r) /\ committed tx r = Some row.
Proof.
  revert rows. induction l as [|x l IH]; intros rows; cbn [rows_of]; [by intros [= <-] ?%elem_of_nil|].
  unfold row_of. destruct (moved tx x.1 x.2) as [o|] eqn:E; [|done]. cbn [mbind IDX_TRY].
  destruct (rows_of tx l) as [rs|]; [|done]. cbn [mbind IDX_TRY]. intros [= <-] [H|H]%elem_of_app; [|by eapply IH].
  destruct o as [r|]; cbn [mbind option_bind option_list] in H; [|by apply elem_of_nil in H].
  exists x.1, x.2, r. split; [done|]. destruct (committed tx r); [|by apply elem_of_nil in H].
  apply list_elem_of_singleton in H as ->. done.
Qed.

(** ** Properties *)

Section properties.
Context {A : Type} `{ArenaOps A}.

Lemma transfer_extract_eq tx (arena : A) :
  walk_total tx < 2 ^ 64 ->
  (idx_transfer_extract tx arena).1 =
    if negb (extractable tx) || (walk_total tx =? 0) then Ok []
    else _ ← (arena_calloc (walk_total tx) sizeof_transfer arena).1; rows_of tx (executed tx).
Proof.
  intros Ht. unfold idx_transfer_extract, extractable.
  destruct (has_meta tx), (success tx); cbn [negb orb andb]; try reflexivity.
  destruct (bool_decide (accounts tx = [])); cbn [negb orb]; [reflexivity|].
  rewrite instruction_total_spec by done. fold (walk_total tx). destruct (_ =? 0); [reflexivity|].
  destruct (arena_calloc _ _ arena) as [[u|e] arena']; [|reflexivity]. cbn [fst mbind IDX_TRY].
  destruct (extract_all_spec (Builder tx [] (walk_total tx) (Stamp 0 0 false)) 0 (instructions tx)) as [s Hs].
  { pose proof (executed_fits tx) as Hf. unfold executed in Hf. unfold size, walk_total. simpl. lia. }
  rewrite Hs. cbn [b_tx]. fold (executed tx). destruct (rows_of tx (executed tx)); reflexivity.
Qed.

(** C9. The extraction is the comprehension it stands for: of a successful
    transaction with metadata, one row for each executed instruction (top level, then
    its inner ones) that moves a nonzero value, in execution order, and nothing of a
    failed transaction.  The builder's array, one row per instruction, never runs
    out: the internal error for it is dead. *)
Theorem transfer_extract_exact tx (arena : A) :
  walk_total tx < 2 ^ 64 ->
  (idx_transfer_extract tx arena).1 =
    (if negb (extractable tx) || (walk_total tx =? 0) then Ok []
     else _ ← (arena_calloc (walk_total tx) sizeof_transfer arena).1; rows_of tx (executed tx)) /\
  (length (executed tx) <= length (instructions tx) + inner_total (inner_instructions tx))%nat.
Proof. intros Ht. split; [by apply transfer_extract_eq|apply executed_fits]. Qed.

(** Rows come in the order they executed and their places identify them: as long
    as the indices fit the 16 bits a row has for them, the sequence of (instruction,
    inner position) pairs is strictly increasing. *)
Theorem transfer_places_increase tx (arena arena' : A) rows :
  size (instructions tx) <= 65536 ->
  Forall (fun g => size (inner_instructions_of g) <= 65536) (inner_instructions tx) ->
  walk_total tx < 2 ^ 64 ->
  idx_transfer_extract tx arena = (Ok rows, arena') ->
  StronglySorted Z.lt (map (place ∘ tr_at) rows).
Proof.
  intros Hi Hg Ht E. apply (f_equal fst) in E. rewrite transfer_extract_eq in E by done. cbn [fst] in E.
  destruct (_ || _); [injection E as <-; constructor|]. destruct (arena_calloc _ _ _).1; [|done]. cbn [mbind IDX_TRY] in E.
  destruct (executed_places tx 0 (instructions tx)) as [_ Hs]; [unfold size in Hi; lia|done|].
  eapply sublist_sorted; [|exact Hs]. eapply rows_of_sublist; [|exact E].
  intros s ix row Hm. by apply moved_filled in Hm as [? _].
Qed.

(** Every row moves something, and its kind says what its fields are: a SOL row
    has no mint, scale, fee or owners; a token row has the authority that moved it,
    and lacks the mint only when no balance of either end names it; a minted row
    comes from its mint and a burned one goes to it. *)
Theorem transfer_rows_well_formed tx (arena arena' : A) rows :
  walk_total tx < 2 ^ 64 ->
  idx_transfer_extract tx arena = (Ok rows, arena') -> Forall (row_ok tx) rows.
Proof.
  intros Ht E. apply (f_equal fst) in E. rewrite transfer_extract_eq in E by done. cbn [fst] in E.
  destruct (_ || _); [injection E as <-; constructor|]. destruct (arena_calloc _ _ _).1; [|done]. cbn [mbind IDX_TRY] in E.
  apply Forall_forall. intros row Hrow. destruct (rows_of_elem _ _ _ _ E Hrow) as (s & ix & r & Hm & Hc).
  eapply committed_ok; [|exact Hc]. by eapply moved_filled.
Qed.

(** The extraction fails only as the arena does or, for an instruction of a
    program it reads, with [IDX_ERR_RANGE] or [IDX_ERR_PARSE]; an instruction no
    decoder knows is never an error. *)
Theorem transfer_extract_errors `{!ArenaSpec A} tx (arena arena' : A) e :
  walk_total tx < 2 ^ 64 -> (forall x, x ∈ executed tx -> wire_ok x.2) ->
  idx_transfer_extract tx arena = (Err e, arena') ->
  e = IDX_ERR_NO_MEMORY \/ e = IDX_ERR_RANGE \/ e = IDX_ERR_PARSE.
Proof.
  intros Ht Hw E. apply (f_equal fst) in E. rewrite transfer_extract_eq in E by done. cbn [fst] in E.
  destruct (_ || _); [done|]. destruct (arena_calloc _ _ _) as [[u|e'] a1] eqn:Ea; cbn [fst mbind IDX_TRY] in E.
  - right. by eapply rows_of_err.
  - injection E as ->. apply arena_calloc_err in Ea. tauto.
Qed.
End properties.

(** ** Witnesses *)

(** A transfer of 40 lamports at the top level; inside the second instruction, a
    program's own, an unchecked token transfer. *)
Definition transfers_tx : idx_transaction :=
  Transaction IDX_TX_VERSION_LEGACY [] 1 0 0 (Hash (replicate 32 0))
    [Account IDX_PROGRAM_VOTE true true false; Account IDX_PROGRAM_MEMO false true false;
     Account IDX_PROGRAM_SYSTEM false false false; Account IDX_PROGRAM_TOKEN false false false] 4
    [Instruction 2 [0; 1] (Some (le32 2 ++ le64 40)) 0; Instruction 1 [] None 0]
    [InnerInstructions 1 [Instruction 3 [0; 1; 0] (Some ([3] ++ le64 9)) 2]]
    true true 10 [] [] [] [TokenBalance 1 IDX_PROGRAM_TOKEN_2022 (Some IDX_PROGRAM_VOTE) None 12 6] [].

Definition transfers_rows : list idx_transfer :=
  [TransferRow IDX_TRANSFER_SOL (Stamp 0 0 false) IDX_PROGRAM_VOTE IDX_PROGRAM_MEMO None None None None 40 0 None;
   TransferRow IDX_TRANSFER_TOKEN (Stamp 1 0 true) IDX_PROGRAM_VOTE IDX_PROGRAM_MEMO (Some IDX_PROGRAM_VOTE)
     (Some IDX_PROGRAM_TOKEN_2022) None (Some IDX_PROGRAM_VOTE) 9 0 (Some 6)].

Lemma transfer_extract_exact_witness : (idx_transfer_extract transfers_tx page_arena).1 = Ok transfers_rows.
Proof.
  destruct (transfer_extract_exact transfers_tx page_arena) as [H _]; [reflexivity|]. rewrite H. vm_compute. reflexivity.
Defined.

Definition transfers_done : idx_arena * sys := (idx_transfer_extract transfers_tx page_arena).2.

Lemma transfers_run : idx_transfer_extract transfers_tx page_arena = (Ok transfers_rows, transfers_done).
Proof. vm_compute. reflexivity. Qed.

Lemma transfer_places_increase_witness : StronglySorted Z.lt (map (place ∘ tr_at) transfers_rows).
Proof.
  apply (transfer_places_increase transfers_tx page_arena transfers_done);
    [vm_compute; congruence|decide_now|reflexivity|apply transfers_run].
Defined.

Lemma transfer_rows_well_formed_witness : Forall (row_ok transfers_tx) transfers_rows.
Proof.
  apply (transfer_rows_well_formed transfers_tx page_arena transfers_done); [reflexivity|apply transfers_run].
Defined.

(** The transfer cut short. *)
Definition truncated_tx : idx_transaction :=
  Transaction IDX_TX_VERSION_LEGACY [] 1 0 0 (Hash (replicate 32 0))
    [Account IDX_PROGRAM_VOTE true true false; Account IDX_PROGRAM_SYSTEM false false false] 2
    [Instruction 1 [0; 0] (Some (le32 2)) 0] [] true true 10 [] [] [] [] [].

Lemma transfer_extract_errors_witness :
  IDX_ERR_RANGE = IDX_ERR_NO_MEMORY \/ IDX_ERR_RANGE = IDX_ERR_RANGE \/ IDX_ERR_RANGE = IDX_ERR_PARSE.
Proof.
  apply (transfer_extract_errors truncated_tx page_arena (idx_transfer_extract truncated_tx page_arena).2 IDX_ERR_RANGE).
  - reflexivity.
  - intros x [->|Hx]%elem_of_cons; [split; [reflexivity|decide_now]|by apply elem_of_nil in Hx].
  - vm_compute. reflexivity.
Defined.
