(* ===== verification/VenueTypes.v ===== *)
(** * venue.h and the shared part of venue.c

    The venues, the records their decoders fill, the program ids and the Anchor
    event marker.  A field of the source that is valid only when its [has_] flag is
    set is an option. *)

From S2P Require Import Prelude Radix Base58 Bytes Types Block.
#[local] Open Scope Z_scope.

(** src/include/venue.h:45-53 [idx_venue] *)
Inductive idx_venue :=
  | IDX_VENUE_NONE
  | IDX_VENUE_PUMP_CURVE
  | IDX_VENUE_PUMP_AMM
  | IDX_VENUE_RAYDIUM_AMM_V4
  | IDX_VENUE_RAYDIUM_CLMM
  | IDX_VENUE_RAYDIUM_CPMM
  | IDX_VENUE_JUPITER.

#[export] Instance idx_venue_eq_dec : EqDecision idx_venue.
Proof. solve_decision. Defined.

(** src/src/venue.c:16-20 [IDX_PROGRAM_PUMP_CURVE] *)
Definition IDX_PROGRAM_PUMP_CURVE : idx_pubkey := Pubkey
  [0x01; 0x56; 0xe0; 0xf6; 0x93; 0x66; 0x5a; 0xcf; 0x44; 0xdb; 0x15;
   0x68; 0xbf; 0x17; 0x5b; 0xaa; 0x51; 0x89; 0xcb; 0x97; 0xf5; 0xd2;
   0xff; 0x3b; 0x65; 0x5d; 0x2b; 0xb6; 0xfd; 0x6d; 0x18; 0xb0].

(** src/src/venue.c:23-27 [IDX_PROGRAM_PUMP_AMM] *)
Definition IDX_PROGRAM_PUMP_AMM : idx_pubkey := Pubkey
  [0x0c; 0x14; 0xde; 0xfc; 0x82; 0x5e; 0xc6; 0x76; 0x94; 0x25; 0x08;
   0x18; 0xbb; 0x65; 0x40; 0x65; 0xf4; 0x29; 0x8d; 0x31; 0x56; 0xd5;
   0x71; 0xb4; 0xd4; 0xf8; 0x09; 0x0c; 0x18; 0xe9; 0xa8; 0x63].

(** src/src/venue.c:30-34 [IDX_PROGRAM_RAYDIUM_AMM_V4] *)
Definition IDX_PROGRAM_RAYDIUM_AMM_V4 : idx_pubkey := Pubkey
  [0x4b; 0xd9; 0x49; 0xc4; 0x36; 0x02; 0xc3; 0x3f; 0x20; 0x77; 0x90;
   0xed; 0x16; 0xa3; 0x52; 0x4c; 0xa1; 0xb9; 0x97; 0x5c; 0xf1; 0x21;
   0xa2; 0xa9; 0x0c; 0xff; 0xec; 0x7d; 0xf8; 0xb6; 0x8a; 0xcd].

(** src/src/venue.c:37-41 [IDX_PROGRAM_RAYDIUM_CLMM] *)
Definition IDX_PROGRAM_RAYDIUM_CLMM : idx_pubkey := Pubkey
  [0xa5; 0xd5; 0xca; 0x9e; 0x04; 0xcf; 0x5d; 0xb5; 0x90; 0xb7; 0x14;
   0xba; 0x2f; 0xe3; 0x2c; 0xb1; 0x59; 0x13; 0x3f; 0xc1; 0xc1; 0x92;
   0xb7; 0x22; 0x57; 0xfd; 0x07; 0xd3; 0x9c; 0xb0; 0x40; 0x1e].

(** src/src/venue.c:44-48 [IDX_PROGRAM_RAYDIUM_CPMM] *)
Definition IDX_PROGRAM_RAYDIUM_CPMM : idx_pubkey := Pubkey
  [0xa9; 0x2a; 0x5a; 0x8b; 0x4f; 0x29; 0x59; 0x52; 0x84; 0x25; 0x50;
   0xaa; 0x93; 0xfd; 0x5b; 0x95; 0xb5; 0xac; 0xe6; 0xa8; 0xeb; 0x92;
   0x0c; 0x93; 0x94; 0x2e; 0x43; 0x69; 0x0c; 0x20; 0xec; 0x73].

(** src/src/venue.c:51-55 [IDX_PROGRAM_JUPITER] *)
Definition IDX_PROGRAM_JUPITER : idx_pubkey := Pubkey
  [0x04; 0x79; 0xd5; 0x5b; 0xf2; 0x31; 0xc0; 0x6e; 0xee; 0x74; 0xc5;
   0x6e; 0xce; 0x68; 0x15; 0x07; 0xfd; 0xb1; 0xb2; 0xde; 0xa3; 0xf4;
   0x8e; 0x51; 0x02; 0xb1; 0xcd; 0xa2; 0x56; 0xbc; 0x13; 0x8f].

(** src/src/venue.c:58-62 [IDX_MINT_WSOL] *)
Definition IDX_MINT_WSOL : idx_pubkey := Pubkey
  [0x06; 0x9b; 0x88; 0x57; 0xfe; 0xab; 0x81; 0x84; 0xfb; 0x68; 0x7f;
   0x63; 0x46; 0x18; 0xc0; 0x35; 0xda; 0xc4; 0x39; 0xdc; 0x1a; 0xeb;
   0x3b; 0x55; 0x98; 0xa0; 0xf0; 0x00; 0x00; 0x00; 0x00; 0x01].

(** src/src/venue.c:66-67 [IDX_ANCHOR_EVENT_DISCRIMINATOR] *)
Definition IDX_ANCHOR_EVENT_DISCRIMINATOR : bytes := [0xe4; 0x45; 0xa5; 0x2e; 0x51; 0xcb; 0x9a; 0x1d].

(** src/src/venue.c:69-87 [idx_venue_name] *)
Definition idx_venue_name (venue : idx_venue) : bytes :=
  match venue with
  | IDX_VENUE_NONE => lit "none"
  | IDX_VENUE_PUMP_CURVE => lit "pump_curve"
  | IDX_VENUE_PUMP_AMM => lit "pump_amm"
  | IDX_VENUE_RAYDIUM_AMM_V4 => lit "raydium_amm_v4"
  | IDX_VENUE_RAYDIUM_CLMM => lit "raydium_clmm"
  | IDX_VENUE_RAYDIUM_CPMM => lit "raydium_cpmm"
  | IDX_VENUE_JUPITER => lit "jupiter"
  end.

(** src/src/venue.c:93-103 [idx_venue_of_program] *)
Definition VENUES : list (idx_pubkey * idx_venue) :=
  [(IDX_PROGRAM_PUMP_CURVE, IDX_VENUE_PUMP_CURVE);
   (IDX_PROGRAM_PUMP_AMM, IDX_VENUE_PUMP_AMM);
   (IDX_PROGRAM_RAYDIUM_AMM_V4, IDX_VENUE_RAYDIUM_AMM_V4);
   (IDX_PROGRAM_RAYDIUM_CLMM, IDX_VENUE_RAYDIUM_CLMM);
   (IDX_PROGRAM_RAYDIUM_CPMM, IDX_VENUE_RAYDIUM_CPMM);
   (IDX_PROGRAM_JUPITER, IDX_VENUE_JUPITER)].

(** src/src/venue.c:104-109 [idx_venue_of_program]: the loop. *)
Fixpoint find_venue (program_id : idx_pubkey) (venues : list (idx_pubkey * idx_venue)) : idx_venue :=
  match venues with
  | [] => IDX_VENUE_NONE
  | (program, venue) :: venues' =>
      if idx_pubkey_equal program_id program then venue else find_venue program_id venues'
  end.

(** src/src/venue.c:89-110 [idx_venue_of_program] *)
Definition idx_venue_of_program (program_id : option idx_pubkey) : idx_venue :=
  match program_id with
  | None => IDX_VENUE_NONE
  | Some id => find_venue id VENUES
  end.

(** src/src/venue.c:112-125 [idx_venue_is_pool] *)
Definition idx_venue_is_pool (venue : idx_venue) : bool :=
  match venue with
  | IDX_VENUE_PUMP_CURVE | IDX_VENUE_PUMP_AMM | IDX_VENUE_RAYDIUM_AMM_V4
  | IDX_VENUE_RAYDIUM_CLMM | IDX_VENUE_RAYDIUM_CPMM => true
  | IDX_VENUE_JUPITER | IDX_VENUE_NONE => false
  end.

(** src/include/venue.h:99-130 [idx_swap] *)
Record idx_swap := Swap {
  venue : idx_venue;
  from_event : bool;
  pool : option idx_pubkey;
  user : option idx_pubkey;
  input_mint : option idx_pubkey;
  output_mint : option idx_pubkey;
  input_account : option idx_pubkey;
  output_account : option idx_pubkey;
  input_amount : option Z;
  output_amount : option Z;
  pool_accounts : option (idx_pubkey * idx_pubkey)
}.

(** [memset(out, 0, sizeof( *out ))] and then the venue. *)
Definition new_swap (v : idx_venue) (event : bool) : idx_swap :=
  Swap v event None None None None None None None None None.

(** src/include/venue.h:156-162 [idx_pool_creation] *)
Record idx_pool_creation := PoolCreation {
  pc_venue : idx_venue;
  pc_pool : option idx_pubkey;
  pc_creator : option idx_pubkey
}.

(** src/include/venue.h:188-197 [idx_token_metadata] *)
Record idx_token_metadata := TokenMetadata {
  md_mint : option idx_pubkey;
  md_name : option idx_slice;
  md_symbol : option idx_slice;
  md_uri : option idx_slice
}.

(** src/src/venue.c:127-141 [idx_anchor_event_payload]: [None] is false. *)
Definition idx_anchor_event_payload (data : idx_slice) : option idx_slice :=
  match data with
  | None => None
  | Some l =>
      if slice_len data <? 8 then None
      else if negb (memcmp_eq l IDX_ANCHOR_EVENT_DISCRIMINATOR 8) then None
      else Some (idx_slice_sub data 8 (slice_len data - 8))
  end.

(** src/src/venue.c:143-155 [idx_anchor_event_is] *)
Definition idx_anchor_event_is (payload : idx_slice) (discriminator : bytes) : option idx_slice :=
  match payload with
  | None => None
  | Some l =>
      if slice_len payload <? 8 then None
      else if negb (memcmp_eq l discriminator 8) then None
      else Some (idx_slice_sub payload 8 (slice_len payload - 8))
  end.

(** ** Event framing *)

Lemma memcmp_prefix l d n :
  length d = n -> (n <= length l)%nat -> memcmp_eq l d n = true <-> exists l', l = d ++ l'.
Proof.
  intros Hd Hl. unfold memcmp_eq. rewrite bool_decide_eq_true, (take_ge d) by zlia. split.
  - intros <-. exists (drop n l). by rewrite take_drop.
  - intros [l' ->]. by rewrite <- Hd, take_app_length.
Qed.

Lemma slice_sub_drop (l : bytes) n :
  0 <= n -> slice_bytes (idx_slice_sub (Some l) n (size l - n)) = drop (Z.to_nat n) l.
Proof.
  intros Hn. unfold idx_slice_sub, slice_len, size. simpl. destruct (_ <=? _) eqn:E; zbool.
  - simpl. symmetry. apply drop_ge. lia.
  - rewrite Z.ltb_irrefl. simpl. rewrite take_ge; [done|]. rewrite length_drop. lia.
Qed.

(** A read at a fixed place of a longer slice. *)
Lemma slice_sub_middle (a b c : bytes) (s : idx_slice) offset len :
  slice_bytes s = a ++ b ++ c -> size a = offset -> size b = len -> 0 < len ->
  slice_bytes (idx_slice_sub s offset len) = b.
Proof.
  intros Hs <- <- Hb. destruct s as [l|]; simpl in Hs.
  2: { destruct a, b; done. }
  subst l. unfold idx_slice_sub, slice_len, size in *. simpl. rewrite !length_app.
  destruct (_ <=? _) eqn:E; [zlia|]. rewrite Nat2Z.id, drop_app_length. simpl.
  destruct (_ <? _) eqn:E2; rewrite take_app_le by zlia; apply take_ge; zlia.
Qed.

(** The two checks of a decoder, the marker and then the event. *)
Lemma event_framed data disc f :
  length disc = 8%nat -> slice_bytes data = IDX_ANCHOR_EVENT_DISCRIMINATOR ++ disc ++ f ->
  exists payload, idx_anchor_event_payload data = Some payload /\ slice_bytes payload = disc ++ f.
Proof.
  intros Hd Hs. destruct data as [l|]; [|done]. change (slice_bytes (Some l)) with l in Hs.
  exists (idx_slice_sub (Some l) 8 (size l - 8)). unfold idx_anchor_event_payload.
  change (slice_len (Some l)) with (size l).
  assert (8 <= size l) as Hl by (subst l; unfold size; rewrite length_app; simpl; lia).
  rewrite (proj2 (Z.ltb_ge _ _)) by done. rewrite slice_sub_drop by done. change (Z.to_nat 8) with 8%nat.
  rewrite (proj2 (memcmp_prefix l IDX_ANCHOR_EVENT_DISCRIMINATOR 8 eq_refl ltac:(unfold size in Hl; lia))) by eauto.
  by subst l.
Qed.

Lemma event_is payload disc f :
  length disc = 8%nat -> slice_bytes payload = disc ++ f ->
  exists fields, idx_anchor_event_is payload disc = Some fields /\ slice_bytes fields = f.
Proof.
  intros Hd Hs. destruct payload as [l|]; [|by destruct disc]. change (slice_bytes (Some l)) with l in Hs.
  exists (idx_slice_sub (Some l) 8 (size l - 8)). unfold idx_anchor_event_is.
  change (slice_len (Some l)) with (size l).
  assert (8 <= size l) as Hl by (subst l; unfold size; rewrite length_app; lia).
  rewrite (proj2 (Z.ltb_ge _ _)) by done. rewrite slice_sub_drop by done. change (Z.to_nat 8) with 8%nat.
  rewrite (proj2 (memcmp_prefix l disc 8 Hd ltac:(unfold size in Hl; lia))) by eauto.
  subst l. by rewrite <- Hd, drop_app_length.
Qed.

Lemma event_payload_inv data payload :
  idx_anchor_event_payload data = Some payload ->
  slice_bytes data = IDX_ANCHOR_EVENT_DISCRIMINATOR ++ slice_bytes payload.
Proof.
  unfold idx_anchor_event_payload. destruct data as [l|]; [|done]. destruct (_ <? 8) eqn:E; [done|].
  destruct (memcmp_eq _ _ 8) eqn:M; [|done]. intros [= <-]. unfold slice_len in *. cbn [slice_bytes default id] in *.
  unfold size in E. rewrite slice_sub_drop by done. change (Z.to_nat 8) with 8%nat. apply memcmp_prefix in M as [l' ->]; [done|done|zlia].
Qed.

Lemma event_is_inv payload disc fields :
  length disc = 8%nat -> idx_anchor_event_is payload disc = Some fields ->
  slice_bytes payload = disc ++ slice_bytes fields.
Proof.
  intros Hd. unfold idx_anchor_event_is. destruct payload as [l|]; [|done]. destruct (_ <? 8) eqn:E; [done|].
  destruct (memcmp_eq _ _ 8) eqn:M; [|done]. intros [= <-]. unfold slice_len in *. cbn [slice_bytes default id] in *.
  unfold size in E. rewrite slice_sub_drop by done. change (Z.to_nat 8) with 8%nat. apply memcmp_prefix in M as [l' ->]; [|done|zlia].
  f_equal. rewrite <- Hd. symmetry. apply drop_app_length.
Qed.

(** A payload is one event at most. *)
Lemma event_is_other payload disc disc' f :
  length disc = 8%nat -> length disc' = 8%nat -> disc <> disc' -> slice_bytes payload = disc ++ f ->
  idx_anchor_event_is payload disc' = None.
Proof.
  intros Hd Hd' Hne Hs. destruct (idx_anchor_event_is payload disc') as [fields|] eqn:E; [|done].
  apply event_is_inv in E; [|done]. rewrite Hs in E. apply app_inj_1 in E as [-> _]; congruence.
Qed.
