(* ===== verification/VenuePump.v ===== *)
(** * venue_pump.c: pump.fun's bonding curve and PumpSwap

    Every function of the file.  The guards on null [tx], [ix] and [out] are
    excluded by the types; a decoder takes the swap its caller prepared, returns the
    filled one, and returns nothing with a failure. *)

From S2P Require Import Prelude Radix Bytes Types Wire Block VenueTypes.
#[local] Open Scope Z_scope.

(** src/src/venue_pump.c:8-9 [TRADE_EVENT] *)
Definition TRADE_EVENT : bytes := [0xbd; 0xdb; 0x7f; 0xd3; 0x4e; 0xe6; 0x61; 0xee].

(** src/src/venue_pump.c:10-11 [BUY_EVENT] *)
Definition BUY_EVENT : bytes := [0x67; 0xf4; 0x52; 0x1f; 0x2c; 0xf5; 0x77; 0x77].

(** src/src/venue_pump.c:12-13 [SELL_EVENT] *)
Definition SELL_EVENT : bytes := [0x3e; 0x2f; 0x37; 0x0a; 0xa5; 0x03; 0xdc; 0x2a].

(** src/src/venue_pump.c:14-15 [CREATE_EVENT] *)
Definition CREATE_EVENT : bytes := [0x1b; 0x72; 0xa9; 0x4d; 0xde; 0xeb; 0x63; 0x76].

(** The reads of [decode_trade_event] (src/src/venue_pump.c:36-48) and the fields
    they fill. *)
Definition read_trade_event (out : idx_swap) : reader idx_swap :=
  mint ← idx_cursor_copy IDX_PUBKEY_LEN;
  sol_amount ← idx_cursor_u64le;
  token_amount ← idx_cursor_u64le;
  is_buy ← idx_cursor_u8;
  user ← idx_cursor_copy IDX_PUBKEY_LEN;
  mret (if negb (is_buy =? 0)
        then Swap (venue out) (from_event out) (pool out) (Some (Pubkey user))
               (Some IDX_MINT_WSOL) (Some (Pubkey mint)) (input_account out) (output_account out)
               (Some sol_amount) (Some token_amount) (pool_accounts out)
        else Swap (venue out) (from_event out) (pool out) (Some (Pubkey user))
               (Some (Pubkey mint)) (Some IDX_MINT_WSOL) (input_account out) (output_account out)
               (Some token_amount) (Some sol_amount) (pool_accounts out)).

(** src/src/venue_pump.c:34-68 [decode_trade_event] *)
Definition decode_trade_event (fields : idx_slice) (out : idx_swap) : result idx_swap :=
  run_reader (read_trade_event out) fields.

(** src/src/venue_pump.c:92-92 [PUMP_AMM_BASE_AMOUNT_OFFSET] *)
Definition PUMP_AMM_BASE_AMOUNT_OFFSET : Z := 8.

(** src/src/venue_pump.c:93-93 [PUMP_AMM_USER_QUOTE_AMOUNT_OFFSET] *)
Definition PUMP_AMM_USER_QUOTE_AMOUNT_OFFSET : Z := 104.

(** src/src/venue_pump.c:94-94 [PUMP_AMM_POOL_OFFSET] *)
Definition PUMP_AMM_POOL_OFFSET : Z := 112.

(** src/src/venue_pump.c:95-95 [PUMP_AMM_USER_OFFSET] *)
Definition PUMP_AMM_USER_OFFSET : Z := 144.

(** src/src/venue_pump.c:96-96 [PUMP_AMM_USER_BASE_ACCOUNT_OFFSET] *)
Definition PUMP_AMM_USER_BASE_ACCOUNT_OFFSET : Z := 176.

(** src/src/venue_pump.c:97-97 [PUMP_AMM_USER_QUOTE_ACCOUNT_OFFSET] *)
Definition PUMP_AMM_USER_QUOTE_ACCOUNT_OFFSET : Z := 208.

(** src/src/venue_pump.c:98-98 [PUMP_AMM_EVENT_PREFIX_LEN] *)
Definition PUMP_AMM_EVENT_PREFIX_LEN : Z := 240.

(** [memcpy(key.bytes, fields.data + offset, IDX_PUBKEY_LEN)] *)
Definition pubkey_at (fields : idx_slice) (offset : Z) : idx_pubkey :=
  Pubkey (take (Z.to_nat IDX_PUBKEY_LEN) (drop (Z.to_nat offset) (slice_bytes fields))).

(** src/src/venue_pump.c:100-148 [decode_amm_event] *)
Definition decode_amm_event (fields : idx_slice) (is_buy : bool) (out : idx_swap) : result idx_swap :=
  if slice_len fields <? PUMP_AMM_EVENT_PREFIX_LEN then IDX_FAIL IDX_ERR_RANGE
  else
    base_amount ← run_reader idx_cursor_u64le (idx_slice_sub fields PUMP_AMM_BASE_AMOUNT_OFFSET 8);
    quote_amount ← run_reader idx_cursor_u64le (idx_slice_sub fields PUMP_AMM_USER_QUOTE_AMOUNT_OFFSET 8);
    let base_account := pubkey_at fields PUMP_AMM_USER_BASE_ACCOUNT_OFFSET in
    let quote_account := pubkey_at fields PUMP_AMM_USER_QUOTE_ACCOUNT_OFFSET in
    let pool := Some (pubkey_at fields PUMP_AMM_POOL_OFFSET) in
    let user := Some (pubkey_at fields PUMP_AMM_USER_OFFSET) in
    Ok (if is_buy
        then Swap (venue out) (from_event out) pool user (input_mint out) (output_mint out)
               (Some quote_account) (Some base_account) (Some quote_amount) (Some base_amount)
               (pool_accounts out)
        else Swap (venue out) (from_event out) pool user (input_mint out) (output_mint out)
               (Some base_account) (Some quote_account) (Some base_amount) (Some quote_amount)
               (pool_accounts out)).

(** src/src/venue_pump.c:157-158 [AMM_BUY] *)
Definition AMM_BUY : bytes := [0x66; 0x06; 0x3d; 0x12; 0x01; 0xda; 0xeb; 0xea].

(** src/src/venue_pump.c:159-160 [AMM_SELL] *)
Definition AMM_SELL : bytes := [0x33; 0xe6; 0x85; 0xa4; 0x01; 0x7f; 0x83; 0xad].

(** src/src/venue_pump.c:161-162 [AMM_BUY_EXACT_QUOTE_IN] *)
Definition AMM_BUY_EXACT_QUOTE_IN : bytes := [0xc6; 0x2e; 0x15; 0x52; 0xb4; 0xd9; 0xe8; 0x70].

(** src/include/venue_pump.h:56-63 [idx_pump_amm_accounts] *)
Record idx_pump_amm_accounts := PumpAmmAccounts {
  pa_pool : idx_pubkey;
  pa_base_mint : idx_pubkey;
  pa_quote_mint : idx_pubkey;
  pa_user_base_account : idx_pubkey;
  pa_pool_base_vault : idx_pubkey;
  pa_pool_quote_vault : idx_pubkey
}.

(** src/src/venue_pump.c:174-198 [idx_venue_pump_amm_accounts]: [Some None] is
    false, [None] the dereference of a null pointer. *)
Definition idx_venue_pump_amm_accounts (tx : idx_transaction) (ix : idx_instruction)
    : option (option idx_pump_amm_accounts) :=
  let data := slice_bytes (ix_data ix) in
  if slice_len (ix_data ix) <? 8 then Some None
  else if negb (memcmp_eq data AMM_BUY 8) && negb (memcmp_eq data AMM_SELL 8) &&
          negb (memcmp_eq data AMM_BUY_EXACT_QUOTE_IN 8) then Some None
  else if account_count ix <? 9 then Some None
  else
    pool ← idx_instruction_account tx ix 0;
    base_mint ← idx_instruction_account tx ix 3;
    quote_mint ← idx_instruction_account tx ix 4;
    user_base_account ← idx_instruction_account tx ix 5;
    pool_base_vault ← idx_instruction_account tx ix 7;
    pool_quote_vault ← idx_instruction_account tx ix 8;
    Some (Some (PumpAmmAccounts pool base_mint quote_mint user_base_account pool_base_vault
                  pool_quote_vault)).

(** src/src/venue_pump.c:202-207 [read_borsh_string] *)
Definition read_borsh_string : reader idx_slice :=
  len ← idx_cursor_u32le;
  idx_cursor_take len.

(** src/src/venue_pump.c:228-235 [pump_create_event] *)
Record pump_create_event := CreateEvent {
  ce_name : idx_slice;
  ce_symbol : idx_slice;
  ce_uri : idx_slice;
  ce_mint : idx_pubkey;
  ce_bonding_curve : idx_pubkey;
  ce_user : idx_pubkey
}.

(** The reads of [parse_create_event] (src/src/venue_pump.c:248-257). *)
Definition read_create_event : reader pump_create_event :=
  name ← read_borsh_string;
  symbol ← read_borsh_string;
  uri ← read_borsh_string;
  mint ← idx_cursor_copy IDX_PUBKEY_LEN;
  bonding_curve ← idx_cursor_copy IDX_PUBKEY_LEN;
  user ← idx_cursor_copy IDX_PUBKEY_LEN;
  mret (CreateEvent name symbol uri (Pubkey mint) (Pubkey bonding_curve) (Pubkey user)).

(** src/src/venue_pump.c:237-258 [parse_create_event] *)
Definition parse_create_event (ix_data : idx_slice) : result pump_create_event :=
  match idx_anchor_event_payload ix_data with
  | None => IDX_FAIL IDX_ERR_NOT_FOUND
  | Some payload =>
      match idx_anchor_event_is payload CREATE_EVENT with
      | None => IDX_FAIL IDX_ERR_NOT_FOUND
      | Some fields => run_reader read_create_event fields
      end
  end.

(** src/src/venue_pump.c:260-277 [idx_venue_pump_creation] *)
Definition idx_venue_pump_creation (tx : idx_transaction) (ix : idx_instruction)
    : result idx_pool_creation :=
  event ← parse_create_event (ix_data ix);
  Ok (PoolCreation IDX_VENUE_PUMP_CURVE (Some (ce_mint event)) (Some (ce_user event))).

(** src/src/venue_pump.c:279-299 [idx_venue_pump_metadata] *)
Definition idx_venue_pump_metadata (tx : idx_transaction) (ix : idx_instruction)
    : result idx_token_metadata :=
  event ← parse_create_event (ix_data ix);
  let given (s : idx_slice) := if idx_slice_is_empty s then None else Some s in
  Ok (TokenMetadata (Some (ce_mint event)) (given (ce_name event)) (given (ce_symbol event))
        (given (ce_uri event))).

(** src/src/venue_pump.c:301-331 [idx_venue_pump_decode] *)
Definition idx_venue_pump_decode (tx : idx_transaction) (ix : idx_instruction) (venue : idx_venue)
    : result idx_swap :=
  let out := new_swap venue true in
  match idx_anchor_event_payload (ix_data ix) with
  | None => IDX_FAIL IDX_ERR_NOT_FOUND
  | Some payload =>
      if bool_decide (venue = IDX_VENUE_PUMP_CURVE) then
        match idx_anchor_event_is payload TRADE_EVENT with
        | None => IDX_FAIL IDX_ERR_NOT_FOUND
        | Some fields => decode_trade_event fields out
        end
      else
        match idx_anchor_event_is payload BUY_EVENT with
        | Some fields => decode_amm_event fields true out
        | None =>
            match idx_anchor_event_is payload SELL_EVENT with
            | Some fields => decode_amm_event fields false out
            | None => IDX_FAIL IDX_ERR_NOT_FOUND
            end
        end
  end.

(** ** What the readers read *)

Definition pubkey_size : Z := 32.

(** The leading fields of a TradeEvent. *)
Definition trade_fields (mint : bytes) (sol tok is_buy : Z) (user : bytes) : bytes :=
  mint ++ le64 sol ++ le64 tok ++ [is_buy] ++ user.

(** The swap a TradeEvent states. *)
Definition trade_swap (out : idx_swap) (mint : bytes) (sol tok is_buy : Z) (user : bytes) : idx_swap :=
  if negb (is_buy =? 0)
  then Swap (venue out) (from_event out) (pool out) (Some (Pubkey user)) (Some IDX_MINT_WSOL)
         (Some (Pubkey mint)) (input_account out) (output_account out) (Some sol) (Some tok) (pool_accounts out)
  else Swap (venue out) (from_event out) (pool out) (Some (Pubkey user)) (Some (Pubkey mint))
         (Some IDX_MINT_WSOL) (input_account out) (output_account out) (Some tok) (Some sol) (pool_accounts out).

Lemma reads_trade out mint sol tok is_buy user :
  size mint = 32 -> size user = 32 -> is_u64 sol -> is_u64 tok ->
  reads (read_trade_event out) (trade_fields mint sol tok is_buy user) (trade_swap out mint sol tok is_buy user).
Proof. intros. unfold read_trade_event, trade_fields. reads_chain. Qed.

Lemma consumes_trade out : consumes (read_trade_event out) 81.
Proof.
  change 81 with (32 + (8 + (8 + (1 + (32 + 0))))). unfold read_trade_event, IDX_PUBKEY_LEN.
  consumes_chain; done.
Qed.

(** A Borsh string, as written. *)
Definition borsh (s : bytes) : bytes := le32 (size s) ++ s.

Lemma borsh_read c s b :
  cursor_ok c -> rest c = borsh s ++ b -> size s < 2 ^ 32 ->
  exists sl c', read_borsh_string c = Ok (sl, c') /\ slice_bytes sl = s /\ rest c' = b /\ cursor_ok c'.
Proof.
  intros Hc Hr Hs. unfold borsh in Hr. rewrite <- app_assoc in Hr.
  destruct (cursor_u32_le32 c (size s) (s ++ b) Hc Hr) as (c1 & E1 & Hr1 & Hc1); [unfold size in *; lia|].
  destruct (cursor_take_app c1 (size s) s b Hc1 Hr1 eq_refl) as (sl & c2 & E2 & H). exists sl, c2.
  unfold read_borsh_string, mbind, reader_bind. by rewrite E1, E2.
Qed.

(** The leading fields of a CreateEvent. *)
Definition create_fields (name symbol uri mint curve user : bytes) : bytes :=
  borsh name ++ borsh symbol ++ borsh uri ++ mint ++ curve ++ user.

Lemma create_read s name symbol uri mint curve user tail :
  slice_bytes s = create_fields name symbol uri mint curve user ++ tail -> slice_len s < 2 ^ 64 ->
  size name < 2 ^ 32 -> size symbol < 2 ^ 32 -> size uri < 2 ^ 32 ->
  size mint = 32 -> size curve = 32 -> size user = 32 ->
  exists n y u, run_reader read_create_event s = Ok (CreateEvent n y u (Pubkey mint) (Pubkey curve) (Pubkey user)) /\
    slice_bytes n = name /\ slice_bytes y = symbol /\ slice_bytes u = uri.
Proof.
  intros Hs Hl Hn Hy Hu Hm Hc Hus. unfold create_fields in Hs. rewrite <- !app_assoc in Hs.
  destruct (borsh_read (idx_cursor_init s) name _ (cursor_init_ok s Hl) Hs Hn) as (n & c1 & E1 & Sn & R1 & O1).
  destruct (borsh_read c1 symbol _ O1 R1 Hy) as (y & c2 & E2 & Sy & R2 & O2).
  destruct (borsh_read c2 uri _ O2 R2 Hu) as (u & c3 & E3 & Su & R3 & O3).
  exists n, y, u. split; [|done]. unfold run_reader, read_create_event, mbind at 1, reader_bind at 1. rewrite E1.
  unfold mbind at 1, reader_bind at 1. rewrite E2. unfold mbind at 1, reader_bind at 1. rewrite E3.
  assert (reads (mint ← idx_cursor_copy IDX_PUBKEY_LEN; bonding_curve ← idx_cursor_copy IDX_PUBKEY_LEN;
            user ← idx_cursor_copy IDX_PUBKEY_LEN;
            mret (CreateEvent n y u (Pubkey mint) (Pubkey bonding_curve) (Pubkey user))) (mint ++ curve ++ user)
            (CreateEvent n y u (Pubkey mint) (Pubkey curve) (Pubkey user))) as H by reads_chain.
  destruct (H c3 tail O3) as (c4 & -> & _); [by rewrite R3, <- !app_assoc|done].
Qed.

(** The fields of BuyEvent and SellEvent: what stands between those read is
    [time] and [middle]. *)
Definition amm_fields (time : bytes) (base : Z) (middle : bytes) (quote : Z) (pool user base_acc quote_acc : bytes)
    : bytes :=
  time ++ le64 base ++ middle ++ le64 quote ++ pool ++ user ++ base_acc ++ quote_acc.

Lemma pubkey_at_middle (a b c : bytes) s offset :
  slice_bytes s = a ++ b ++ c -> size a = offset -> size b = 32 -> pubkey_at s offset = Pubkey b.
Proof.
  intros Hs <- Hb. unfold pubkey_at, size in *. rewrite Hs, Nat2Z.id, drop_app_length.
  rewrite take_app_le by (unfold IDX_PUBKEY_LEN; lia). by rewrite take_ge by (unfold IDX_PUBKEY_LEN; lia).
Qed.

Lemma run_u64_at (a c : bytes) v s offset :
  slice_bytes s = a ++ le64 v ++ c -> size a = offset -> is_u64 v ->
  run_reader idx_cursor_u64le (idx_slice_sub s offset 8) = Ok v.
Proof.
  intros Hs Ha Hv.
  assert (slice_bytes (idx_slice_sub s offset 8) = le64 v) as E.
  { by apply (slice_sub_middle a (le64 v) c). }
  apply (run_reads _ (le64 v) _ _ []); [by apply reads_u64|by rewrite E, app_nil_r|].
  unfold slice_len. by rewrite E.
Qed.

Lemma slice_len_app s a b : slice_bytes s = a ++ b -> slice_len s = size a + size b.
Proof. unfold slice_len, size. intros ->. rewrite length_app. lia. Qed.

(** What the framing leaves of a short enough instruction is short enough. *)
Lemma framed_fields data disc f :
  length disc = 8%nat -> slice_bytes data = IDX_ANCHOR_EVENT_DISCRIMINATOR ++ disc ++ f -> slice_len data < 2 ^ 64 ->
  exists payload fields, idx_anchor_event_payload data = Some payload /\ slice_bytes payload = disc ++ f /\
    idx_anchor_event_is payload disc = Some fields /\ slice_bytes fields = f /\ slice_len fields < 2 ^ 64.
Proof.
  intros Hd Hs Hl. destruct (event_framed data disc f Hd Hs) as (payload & E1 & Hp).
  destruct (event_is payload disc f Hd Hp) as (fields & E2 & Hf). exists payload, fields. split_and!; try done.
  apply slice_len_app in Hs. rewrite Hs in Hl. unfold slice_len, size in *. rewrite Hf. rewrite length_app in Hl. lia.
Qed.

(** A decoder of one event says NOT_FOUND of anything else. *)
Lemma not_framed {A} data disc (k : idx_slice -> result A) :
  length disc = 8%nat -> (forall f, slice_bytes data <> IDX_ANCHOR_EVENT_DISCRIMINATOR ++ disc ++ f) ->
  match idx_anchor_event_payload data with
  | None => IDX_FAIL IDX_ERR_NOT_FOUND
  | Some payload => match idx_anchor_event_is payload disc with
                    | None => IDX_FAIL IDX_ERR_NOT_FOUND
                    | Some fields => k fields
                    end
  end = Err IDX_ERR_NOT_FOUND.
Proof.
  intros Hd Hne. destruct (idx_anchor_event_payload data) as [p|] eqn:E1; [|done].
  destruct (idx_anchor_event_is p disc) as [f|] eqn:E2; [|done].
  apply event_payload_inv in E1. apply event_is_inv in E2; [|done]. rewrite E2 in E1. by destruct (Hne (slice_bytes f)).
Qed.

Lemma size_app (a b : bytes) : size (a ++ b) = size a + size b.
Proof. unfold size. rewrite length_app. lia. Qed.

Lemma size_le64 v : size (le64 v) = 8.
Proof. unfold size. by rewrite length_le_digits. Qed.

(** What is known of a field at a fixed offset: the bytes in front of it, their
    number, and its own size. *)
Ltac at_offset :=
  first
    [ eassumption
    | match goal with H : slice_bytes ?s = _ |- slice_bytes ?s = _ => rewrite H, <- !app_assoc; reflexivity end
    | rewrite ?size_app, ?size_le64;
      repeat match goal with H : size ?x = _ |- context [size ?x] => rewrite H end; reflexivity ].

(** A PumpSwap event, read at its offsets. *)
Lemma amm_event_exact s is_buy out time base middle quote pool user base_acc quote_acc tail :
  slice_bytes s = amm_fields time base middle quote pool user base_acc quote_acc ++ tail ->
  size time = 8 -> size middle = 88 -> is_u64 base -> is_u64 quote ->
  size pool = 32 -> size user = 32 -> size base_acc = 32 -> size quote_acc = 32 ->
  decode_amm_event s is_buy out =
    Ok (Swap (venue out) (from_event out) (Some (Pubkey pool)) (Some (Pubkey user)) (input_mint out) (output_mint out)
          (Some (Pubkey (if is_buy then quote_acc else base_acc))) (Some (Pubkey (if is_buy then base_acc else quote_acc)))
          (Some (if is_buy then quote else base)) (Some (if is_buy then base else quote)) (pool_accounts out)).
Proof.
  intros Hs Ht Hm Hb Hq Hp Hu Hba Hqa.
  assert (slice_len s = 240 + size tail) as Hlen.
  { unfold slice_len, amm_fields in *. rewrite Hs, !size_app, !size_le64. lia. }
  unfold decode_amm_event, PUMP_AMM_EVENT_PREFIX_LEN. rewrite (proj2 (Z.ltb_ge _ _)) by (rewrite Hlen; unfold size; lia).
  unfold amm_fields in Hs. rewrite <- !app_assoc in Hs.
  assert (run_reader idx_cursor_u64le (idx_slice_sub s PUMP_AMM_BASE_AMOUNT_OFFSET 8) = Ok base) as ->
    by (eapply (run_u64_at time); at_offset).
  assert (run_reader idx_cursor_u64le (idx_slice_sub s PUMP_AMM_USER_QUOTE_AMOUNT_OFFSET 8) = Ok quote) as ->
    by (eapply (run_u64_at (time ++ le64 base ++ middle)); at_offset).
  assert (pubkey_at s PUMP_AMM_POOL_OFFSET = Pubkey pool) as ->
    by (eapply (pubkey_at_middle (time ++ le64 base ++ middle ++ le64 quote)); at_offset).
  assert (pubkey_at s PUMP_AMM_USER_OFFSET = Pubkey user) as ->
    by (eapply (pubkey_at_middle (time ++ le64 base ++ middle ++ le64 quote ++ pool)); at_offset).
  assert (pubkey_at s PUMP_AMM_USER_BASE_ACCOUNT_OFFSET = Pubkey base_acc) as ->
    by (eapply (pubkey_at_middle (time ++ le64 base ++ middle ++ le64 quote ++ pool ++ user)); at_offset).
  assert (pubkey_at s PUMP_AMM_USER_QUOTE_ACCOUNT_OFFSET = Pubkey quote_acc) as ->
    by (eapply (pubkey_at_middle (time ++ le64 base ++ middle ++ le64 quote ++ pool ++ user ++ base_acc)); at_offset).
  by destruct is_buy.
Qed.

(** The nine accounts the length check guarantees are there to be dereferenced. *)
Lemma amm_accounts_some tx ix p :
  instruction_ok (size (accounts tx)) ix -> 9 <= account_count ix -> 0 <= p < 9 ->
  exists key, idx_instruction_account tx ix p = Some key.
Proof. intros Hok Hc Hp. apply (instruction_account_some tx ix p Hok); lia. Qed.

(** ** Properties *)

(** A bonding-curve trade is read exactly.  An instruction that carries a
    TradeEvent gives the swap the event states: the trader, and on a buy lamports (as
    wrapped SOL) in and tokens out, on a sell the reverse, with the amounts the event
    has; whatever the program appended after those fields is ignored.  An event cut
    short is [IDX_ERR_RANGE], and an instruction without one [IDX_ERR_NOT_FOUND]. *)
Theorem pump_curve_trade_exact tx ix :
  slice_len (ix_data ix) < 2 ^ 64 ->
  let decoded := idx_venue_pump_decode tx ix IDX_VENUE_PUMP_CURVE in
  let framed f := slice_bytes (ix_data ix) = IDX_ANCHOR_EVENT_DISCRIMINATOR ++ TRADE_EVENT ++ f in
  (forall mint sol tok is_buy user tail,
     size mint = 32 -> size user = 32 -> is_u64 sol -> is_u64 tok ->
     framed (mint ++ le64 sol ++ le64 tok ++ [is_buy] ++ user ++ tail) ->
     decoded =
       let bought := negb (is_buy =? 0) in
       let sol_side := Some IDX_MINT_WSOL in let token_side := Some (Pubkey mint) in
       Ok (Swap IDX_VENUE_PUMP_CURVE true None (Some (Pubkey user))
             (if bought then sol_side else token_side) (if bought then token_side else sol_side) None None
             (Some (if bought then sol else tok)) (Some (if bought then tok else sol)) None)) /\
  (forall f, framed f -> size f < 81 -> decoded = Err IDX_ERR_RANGE) /\
  ((forall f, ~ framed f) -> decoded = Err IDX_ERR_NOT_FOUND).
Proof.
  intros Hl decoded framed. unfold decoded, framed, idx_venue_pump_decode. cbn [bool_decide]. split_and!.
  - intros mint sol tok b user tail Hm Hu Hsol Htok Hf.
    destruct (framed_fields _ TRADE_EVENT _ eq_refl Hf Hl) as (p & fs & -> & _ & -> & Hfs & Hlf).
    unfold decode_trade_event. erewrite (run_reads _ _ _ fs tail (reads_trade _ mint sol tok b user Hm Hu Hsol Htok));
      [|unfold trade_fields; by rewrite Hfs, <- !app_assoc|done].
    unfold trade_swap. simpl. by destruct (b =? 0).
  - intros f Hf Hshort. destruct (framed_fields _ TRADE_EVENT _ eq_refl Hf Hl) as (p & fs & -> & _ & -> & Hfs & Hlf).
    apply (run_short _ 81 fs (consumes_trade _) Hlf). unfold slice_len. by rewrite Hfs.
  - intros Hne. by apply (not_framed (ix_data ix) TRADE_EVENT (fun fs => decode_trade_event fs _)).
Qed.

(** A PumpSwap trade is read exactly: the amounts and the four keys at their
    offsets in the BuyEvent or SellEvent, the trader's quote side going in on a buy
    and out on a sell.  A recognised event shorter than its 240 leading bytes is
    [IDX_ERR_RANGE] and nothing is read past its end. *)
Theorem pump_amm_trade_exact tx ix (is_buy : bool) f :
  slice_len (ix_data ix) < 2 ^ 64 ->
  slice_bytes (ix_data ix) =
    IDX_ANCHOR_EVENT_DISCRIMINATOR ++ (if is_buy return bytes then BUY_EVENT else SELL_EVENT) ++ f ->
  let decoded := idx_venue_pump_decode tx ix IDX_VENUE_PUMP_AMM in
  (size f < 240 -> decoded = Err IDX_ERR_RANGE) /\
  (forall time base middle quote pool user base_acc quote_acc tail,
     size time = 8 -> size middle = 88 -> is_u64 base -> is_u64 quote ->
     size pool = 32 -> size user = 32 -> size base_acc = 32 -> size quote_acc = 32 ->
     f = (time ++ le64 base ++ middle ++ le64 quote ++ pool ++ user ++ base_acc ++ quote_acc) ++ tail ->
     decoded =
       Ok (Swap IDX_VENUE_PUMP_AMM true (Some (Pubkey pool)) (Some (Pubkey user)) None None
             (Some (Pubkey (if is_buy then quote_acc else base_acc)))
             (Some (Pubkey (if is_buy then base_acc else quote_acc)))
             (Some (if is_buy then quote else base)) (Some (if is_buy then base else quote)) None)).
Proof.
  intros Hl Hf decoded.
  assert (exists fs, slice_bytes fs = f /\ decoded = decode_amm_event fs is_buy (new_swap IDX_VENUE_PUMP_AMM true))
    as (fs & Hfs & ->).
  { unfold decoded, idx_venue_pump_decode. rewrite bool_decide_eq_false_2 by done. destruct is_buy.
    - destruct (framed_fields _ BUY_EVENT f eq_refl Hf Hl) as (p & fs & -> & _ & -> & Hfs & _). by exists fs.
    - destruct (framed_fields _ SELL_EVENT f eq_refl Hf Hl) as (p & fs & -> & Hp & E & Hfs & _). exists fs. split; [done|].
      by rewrite (event_is_other p SELL_EVENT BUY_EVENT f), E. }
  split.
  - intros Hs. unfold decode_amm_event, slice_len, PUMP_AMM_EVENT_PREFIX_LEN. rewrite Hfs.
    by rewrite (proj2 (Z.ltb_lt _ _) Hs).
  - intros time base middle quote pl us ba qa tail Ht Hm Hb Hq Hp Hu Hba Hqa ->.
    rewrite (amm_event_exact fs is_buy _ time base middle quote pl us ba qa tail); done.
Qed.

(** Token metadata is read exactly: from a CreateEvent written as three
    length-prefixed strings and three keys, the metadata has the mint and exactly
    those strings, an empty one being left out, and the creation has the mint as the
    pool and the signer as the creator.  An instruction that is no CreateEvent gives
    neither. *)
Theorem pump_create_exact tx ix name symbol uri mint curve user tail :
  slice_len (ix_data ix) < 2 ^ 64 ->
  slice_bytes (ix_data ix) =
    IDX_ANCHOR_EVENT_DISCRIMINATOR ++ CREATE_EVENT ++ le32 (size name) ++ name ++ le32 (size symbol) ++ symbol ++
    le32 (size uri) ++ uri ++ mint ++ curve ++ user ++ tail ->
  size name < 2 ^ 32 -> size symbol < 2 ^ 32 -> size uri < 2 ^ 32 ->
  size mint = 32 -> size curve = 32 -> size user = 32 ->
  idx_venue_pump_creation tx ix =
    Ok (PoolCreation IDX_VENUE_PUMP_CURVE (Some (Pubkey mint)) (Some (Pubkey user))) /\
  exists md, idx_venue_pump_metadata tx ix = Ok md /\ md_mint md = Some (Pubkey mint) /\
    let states (given : option idx_slice) (text : bytes) := slice_bytes <$> given = if bool_decide (text = []) then None else Some text in
    states (md_name md) name /\ states (md_symbol md) symbol /\ states (md_uri md) uri.
Proof.
  intros Hl Hs Hn Hy Hu Hm Hc Hus. destruct (framed_fields _ CREATE_EVENT _ eq_refl Hs Hl) as (p & fs & E1 & _ & E2 & Hfs & Hlf).
  destruct (create_read fs name symbol uri mint curve user tail) as (n & y & u & E & Sn & Sy & Su); try done.
  { rewrite Hfs. unfold create_fields, borsh. by rewrite <- !app_assoc. }
  assert (parse_create_event (ix_data ix) = Ok (CreateEvent n y u (Pubkey mint) (Pubkey curve) (Pubkey user))) as Hp.
  { unfold parse_create_event. by rewrite E1, E2. }
  split; [unfold idx_venue_pump_creation; by rewrite Hp|]. eexists. split; [unfold idx_venue_pump_metadata; by rewrite Hp|].
  split; [done|]. assert (forall (s : idx_slice) text, slice_bytes s = text ->
    slice_bytes <$> (if idx_slice_is_empty s then None else Some s) = if bool_decide (text = []) then None else Some text) as Hg.
  { intros s text <-. unfold idx_slice_is_empty, slice_len. destruct (slice_bytes s) as [|c l] eqn:El; [done|].
    simpl. by rewrite El. }
  split_and!; by apply Hg.
Qed.

(** ** Witnesses *)

Definition sample_ix (data : bytes) : idx_instruction := Instruction 0 [] (Some data) 0.
Definition sample_pubkey (b : Z) : bytes := replicate 32 b.
Definition empty_tx : idx_transaction :=
  Transaction IDX_TX_VERSION_LEGACY [] 0 0 0 (Hash []) [] 0 [] [] false true 0 [] [] [] [] [].

(** A buy of 7 tokens for 500 lamports, with one appended byte. *)
Lemma pump_curve_trade_exact_witness :
  idx_venue_pump_decode empty_tx
    (sample_ix (IDX_ANCHOR_EVENT_DISCRIMINATOR ++ TRADE_EVENT ++ sample_pubkey 1 ++ le64 500 ++ le64 7 ++ [1] ++
                sample_pubkey 2 ++ [9])) IDX_VENUE_PUMP_CURVE =
  Ok (Swap IDX_VENUE_PUMP_CURVE true None (Some (Pubkey (sample_pubkey 2))) (Some IDX_MINT_WSOL)
        (Some (Pubkey (sample_pubkey 1))) None None (Some 500) (Some 7) None).
Proof.
  match goal with |- idx_venue_pump_decode ?tx ?ix _ = _ =>
    destruct (pump_curve_trade_exact tx ix) as (H & _ & _); [reflexivity|] end.
  rewrite (H (sample_pubkey 1) 500 7 1 (sample_pubkey 2) [9]); [reflexivity|reflexivity|reflexivity|decide_now|decide_now|reflexivity].
Defined.

(** A sale of 11 base units for 22 quote units. *)
Lemma pump_amm_trade_exact_witness :
  exists s, idx_venue_pump_decode empty_tx
    (sample_ix (IDX_ANCHOR_EVENT_DISCRIMINATOR ++ SELL_EVENT ++
       (replicate 8 0 ++ le64 11 ++ replicate 88 0 ++ le64 22 ++ sample_pubkey 1 ++ sample_pubkey 2 ++ sample_pubkey 3 ++
        sample_pubkey 4) ++ [])) IDX_VENUE_PUMP_AMM = Ok s /\
    input_amount s = Some 11 /\ output_account s = Some (Pubkey (sample_pubkey 4)).
Proof.
  eexists. split.
  - match goal with |- idx_venue_pump_decode ?tx ?ix _ = _ =>
      destruct (pump_amm_trade_exact tx ix false
        ((replicate 8 0 ++ le64 11 ++ replicate 88 0 ++ le64 22 ++ sample_pubkey 1 ++ sample_pubkey 2 ++ sample_pubkey 3 ++
          sample_pubkey 4) ++ [])) as [_ H]; [reflexivity|reflexivity|] end.
    apply (H (replicate 8 0) 11 (replicate 88 0) 22 (sample_pubkey 1) (sample_pubkey 2) (sample_pubkey 3) (sample_pubkey 4) []);
      first [reflexivity|decide_now].
  - by split.
Defined.

(** A token "ab" with no symbol and no URI. *)
Lemma pump_create_exact_witness :
  idx_venue_pump_creation empty_tx
    (sample_ix (IDX_ANCHOR_EVENT_DISCRIMINATOR ++ CREATE_EVENT ++ le32 2 ++ lit "ab" ++ le32 0 ++ [] ++ le32 0 ++ [] ++
                sample_pubkey 1 ++ sample_pubkey 2 ++ sample_pubkey 3 ++ [])) =
  Ok (PoolCreation IDX_VENUE_PUMP_CURVE (Some (Pubkey (sample_pubkey 1))) (Some (Pubkey (sample_pubkey 3)))).
Proof.
  match goal with |- idx_venue_pump_creation ?tx ?ix = _ =>
    apply (pump_create_exact tx ix (lit "ab") [] [] (sample_pubkey 1) (sample_pubkey 2) (sample_pubkey 3) []) end;
    reflexivity.
Defined.
