(* ===== verification/VenueJupiter.v ===== *)
(** * venue_jupiter.c: the aggregator's swap events

    Every function of the file; a route is attribution, so the first key of the
    event is skipped and no pool is set. *)

From S2P Require Import Prelude Radix Bytes Types Wire Block VenueTypes.
#[local] Open Scope Z_scope.

(** src/src/venue_jupiter.c:8-9 [SWAP_EVENT] *)
Definition SWAP_EVENT : bytes := [0x40; 0xc6; 0xcd; 0xe8; 0x26; 0x08; 0x71; 0xe2].

(** The reads of [decode_swap_event] (src/src/venue_jupiter.c:26-39). *)
Definition read_swap_event (out : idx_swap) : reader idx_swap :=
  _ ← idx_cursor_skip IDX_PUBKEY_LEN;
  input_mint ← idx_cursor_copy IDX_PUBKEY_LEN;
  input_amount ← idx_cursor_u64le;
  output_mint ← idx_cursor_copy IDX_PUBKEY_LEN;
  output_amount ← idx_cursor_u64le;
  mret (Swap (venue out) (from_event out) (pool out) (user out) (Some (Pubkey input_mint))
          (Some (Pubkey output_mint)) (input_account out) (output_account out)
          (Some input_amount) (Some output_amount) (pool_accounts out)).

(** src/src/venue_jupiter.c:24-40 [decode_swap_event] *)
Definition decode_swap_event (fields : idx_slice) (out : idx_swap) : result idx_swap :=
  run_reader (read_swap_event out) fields.

(** src/src/venue_jupiter.c:42-60 [idx_venue_jupiter_decode] *)
Definition idx_venue_jupiter_decode (tx : idx_transaction) (ix : idx_instruction) : result idx_swap :=
  let out := new_swap IDX_VENUE_JUPITER true in
  match idx_anchor_event_payload (ix_data ix) with
  | None => IDX_FAIL IDX_ERR_NOT_FOUND
  | Some payload =>
      match idx_anchor_event_is payload SWAP_EVENT with
      | None => IDX_FAIL IDX_ERR_NOT_FOUND
      | Some fields => decode_swap_event fields out
      end
  end.

(** ** Lemmas *)

Lemma reads_swap out amm mint_in amount_in mint_out amount_out :
  size amm = 32 -> size mint_in = 32 -> size mint_out = 32 -> is_u64 amount_in -> is_u64 amount_out ->
  reads (read_swap_event out) (amm ++ mint_in ++ le64 amount_in ++ mint_out ++ le64 amount_out)
    (Swap (venue out) (from_event out) (pool out) (user out) (Some (Pubkey mint_in)) (Some (Pubkey mint_out))
       (input_account out) (output_account out) (Some amount_in) (Some amount_out) (pool_accounts out)).
Proof. intros. unfold read_swap_event. reads_chain. Qed.

Lemma consumes_swap out : consumes (read_swap_event out) 112.
Proof.
  change 112 with (32 + (32 + (8 + (32 + (8 + 0))))). unfold read_swap_event, IDX_PUBKEY_LEN. consumes_chain; done.
Qed.
