(* ===== verification/VenueRaydium.v ===== *)
(** * venue_raydium.c: AMM v4, CLMM and the AMM's log line

    Every function of the file.  AMM v4 is read from the instruction: the
    discriminant and the two amounts from its data, the pool, the vaults and the
    trader from its accounts, whose places depend on how many there are. *)

From S2P Require Import Prelude Radix Bytes Types Wire Block VenueTypes.
#[local] Open Scope Z_scope.

(** src/src/venue_raydium.c:8-8 [RAYDIUM_AMM_IX_SWAP_BASE_IN] *)
Definition RAYDIUM_AMM_IX_SWAP_BASE_IN : Z := 9.

(** src/src/venue_raydium.c:9-9 [RAYDIUM_AMM_IX_SWAP_BASE_OUT] *)
Definition RAYDIUM_AMM_IX_SWAP_BASE_OUT : Z := 11.

(** src/src/venue_raydium.c:12-12 [RAYDIUM_LOG_SWAP_BASE_IN] *)
Definition RAYDIUM_LOG_SWAP_BASE_IN : Z := 3.

(** src/src/venue_raydium.c:13-13 [RAYDIUM_LOG_SWAP_BASE_OUT] *)
Definition RAYDIUM_LOG_SWAP_BASE_OUT : Z := 4.

(** src/include/venue_raydium.h:54-58 [idx_raydium_swap_log] *)
Record idx_raydium_swap_log := RaydiumSwapLog {
  amount_in : Z;
  amount_out : Z;
  is_base_in : bool
}.

(** src/src/venue_raydium.c:47-50 [idx_raydium_swap_log_parse]: the loop over
    [fields]. *)
Fixpoint read_u64s (count : nat) : reader (list Z) :=
  match count with
  | O => mret []
  | S count' => field ← idx_cursor_u64le; fields ← read_u64s count'; mret (field :: fields)
  end.

(** The body of [idx_raydium_swap_log_parse] after the cursor is set up
    (src/src/venue_raydium.c:24-59). *)
Definition read_swap_log : reader idx_raydium_swap_log :=
  log_type ← idx_cursor_u8;
  if negb (log_type =? RAYDIUM_LOG_SWAP_BASE_IN) && negb (log_type =? RAYDIUM_LOG_SWAP_BASE_OUT)
  then lift (IDX_FAIL IDX_ERR_NOT_FOUND)
  else
    fields ← read_u64s 7;
    mret (if log_type =? RAYDIUM_LOG_SWAP_BASE_IN
          then RaydiumSwapLog (fields !!! 0%nat) (fields !!! 6%nat) true
          else RaydiumSwapLog (fields !!! 6%nat) (fields !!! 1%nat) false).

(** src/src/venue_raydium.c:15-60 [idx_raydium_swap_log_parse] *)
Definition idx_raydium_swap_log_parse (raw : idx_slice) : result idx_raydium_swap_log :=
  run_reader read_swap_log raw.

(** src/src/venue_raydium.c:81-82 [CLMM_SWAP] *)
Definition CLMM_SWAP : bytes := [0xf8; 0xc6; 0x9e; 0x91; 0xe1; 0x75; 0x87; 0xc8].

(** src/src/venue_raydium.c:83-84 [CLMM_SWAP_V2] *)
Definition CLMM_SWAP_V2 : bytes := [0x2b; 0x04; 0xed; 0x0b; 0x1a; 0xc9; 0x1e; 0x62].

(** src/src/venue_raydium.c:107-119 [operand] *)
Definition operand (tx : idx_transaction) (ix : idx_instruction) (position : Z) : result idx_pubkey :=
  match idx_instruction_account tx ix position with
  | None => IDX_FAIL IDX_ERR_PARSE
  | Some account => Ok account
  end.

(** src/src/venue_raydium.c:135-145 [decode_amm_v4]: where the vaults start. *)
Definition amm_vault_index (ix : idx_instruction) : result Z :=
  if account_count ix =? 17 then Ok 4
  else if account_count ix =? 18 then Ok 5
  else IDX_FAIL IDX_ERR_NOT_FOUND.

(** src/src/venue_raydium.c:165-186 [decode_amm_v4]: the accounts. *)
Definition amm_v4_accounts (tx : idx_transaction) (ix : idx_instruction) (vault_index : Z)
    (out : idx_swap) : result idx_swap :=
  pool ← operand tx ix 1;
  vault_a ← operand tx ix vault_index;
  vault_b ← operand tx ix (vault_index + 1);
  let tail := account_count ix - 3 in
  source ← operand tx ix tail;
  destination ← operand tx ix (tail + 1);
  trader ← operand tx ix (tail + 2);
  Ok (Swap (venue out) (from_event out) (Some pool) (Some trader) (input_mint out) (output_mint out)
        (Some source) (Some destination) (input_amount out) (output_amount out)
        (Some (vault_a, vault_b))).

(** [out] with the amount the instruction fixes, the input or the output. *)
Definition set_amount (is_input : bool) (amount : Z) (out : idx_swap) : idx_swap :=
  if is_input
  then Swap (venue out) (from_event out) (pool out) (user out) (input_mint out) (output_mint out)
         (input_account out) (output_account out) (Some amount) (output_amount out) (pool_accounts out)
  else Swap (venue out) (from_event out) (pool out) (user out) (input_mint out) (output_mint out)
         (input_account out) (output_account out) (input_amount out) (Some amount) (pool_accounts out).

(** The body of [decode_amm_v4] after the cursor is set up
    (src/src/venue_raydium.c:126-186). *)
Definition read_amm_v4 (tx : idx_transaction) (ix : idx_instruction) (out : idx_swap) : reader idx_swap :=
  discriminant ← idx_cursor_u8;
  if negb (discriminant =? RAYDIUM_AMM_IX_SWAP_BASE_IN) &&
     negb (discriminant =? RAYDIUM_AMM_IX_SWAP_BASE_OUT)
  then lift (IDX_FAIL IDX_ERR_NOT_FOUND)
  else
    vault_index ← lift (amm_vault_index ix);
    first ← idx_cursor_u64le;
    second ← idx_cursor_u64le;
    let base_in := discriminant =? RAYDIUM_AMM_IX_SWAP_BASE_IN in
    lift (amm_v4_accounts tx ix vault_index
            (set_amount base_in (if base_in then first else second) out)).

(** src/src/venue_raydium.c:121-187 [decode_amm_v4] *)
Definition decode_amm_v4 (tx : idx_transaction) (ix : idx_instruction) (out : idx_swap) : result idx_swap :=
  run_reader (read_amm_v4 tx ix out) (ix_data ix).

(** src/src/venue_raydium.c:222-254 [decode_clmm]: the accounts. *)
Definition clmm_accounts (tx : idx_transaction) (ix : idx_instruction) (is_v2 : bool) (out : idx_swap)
    : result idx_swap :=
  pool ← operand tx ix 2;
  trader ← operand tx ix 0;
  source ← operand tx ix 3;
  destination ← operand tx ix 4;
  vault_a ← operand tx ix 5;
  vault_b ← operand tx ix 6;
  let filled mint_a mint_b :=
    Swap (venue out) (from_event out) (Some pool) (Some trader) mint_a mint_b (Some source)
      (Some destination) (input_amount out) (output_amount out) (Some (vault_a, vault_b)) in
  if negb is_v2 then Ok (filled (input_mint out) (output_mint out))
  else
    mint_a ← operand tx ix 11;
    mint_b ← operand tx ix 12;
    Ok (filled (Some mint_a) (Some mint_b)).

(** The payload of a CLMM swap (src/src/venue_raydium.c:205-220): the amount, and
    whether it is the input. *)
Definition read_clmm_payload : reader (Z * bool) :=
  amount ← idx_cursor_u64le;
  _ ← idx_cursor_u64le;
  _ ← idx_cursor_skip 16;
  is_base_input ← idx_cursor_u8;
  mret (amount, negb (is_base_input =? 0)).

(** src/src/venue_raydium.c:189-255 [decode_clmm] *)
Definition decode_clmm (tx : idx_transaction) (ix : idx_instruction) (payload : idx_slice)
    (is_v2 : bool) (out : idx_swap) : result idx_swap :=
  let needed := if is_v2 then 13 else 7 in
  if account_count ix <? needed then IDX_FAIL IDX_ERR_NOT_FOUND
  else
    read ← run_reader read_clmm_payload payload;
    clmm_accounts tx ix is_v2 (set_amount read.2 read.1 out).

(** src/src/venue_raydium.c:257-286 [idx_venue_raydium_decode] *)
Definition idx_venue_raydium_decode (tx : idx_transaction) (ix : idx_instruction) (venue : idx_venue)
    : result idx_swap :=
  let out := new_swap venue false in
  if bool_decide (venue = IDX_VENUE_RAYDIUM_AMM_V4) then decode_amm_v4 tx ix out
  else if negb (bool_decide (venue = IDX_VENUE_RAYDIUM_CLMM)) then IDX_FAIL IDX_ERR_NOT_FOUND
  else if slice_len (ix_data ix) <? 8 then IDX_FAIL IDX_ERR_NOT_FOUND
  else
    let data := slice_bytes (ix_data ix) in
    let payload := idx_slice_sub (ix_data ix) 8 (slice_len (ix_data ix) - 8) in
    if memcmp_eq data CLMM_SWAP 8 then decode_clmm tx ix payload false out
    else if memcmp_eq data CLMM_SWAP_V2 8 then decode_clmm tx ix payload true out
    else IDX_FAIL IDX_ERR_NOT_FOUND.

(** ** Lemmas *)

(** An operand below the account count is there. *)
Lemma operand_ok tx ix p :
  instruction_ok (size (accounts tx)) ix -> 0 <= p < account_count ix ->
  exists key, operand tx ix p = Ok key /\ idx_instruction_account tx ix p = Some key.
Proof.
  intros Hok Hp. destruct (proj2 (instruction_account_some tx ix p Hok ltac:(lia)) ltac:(lia)) as [key E].
  exists key. unfold operand. by rewrite E.
Qed.

(** Runs the next operand of a chain. *)
Ltac next_operand Hok :=
  match goal with
  | |- context [operand ?tx ?ix ?p] =>
      let key := fresh "key" in let E1 := fresh "E" in let E2 := fresh "E" in
      destruct (operand_ok tx ix p Hok) as (key & E1 & E2); [lia|rewrite E1; cbn [mbind IDX_TRY]]
  end.

Lemma amm_vault_spec ix v :
  amm_vault_index ix = Ok v -> (account_count ix = 17 /\ v = 4) \/ (account_count ix = 18 /\ v = 5).
Proof.
  unfold amm_vault_index. destruct (_ =? 17) eqn:E; [intros [= <-]; zlia|].
  destruct (_ =? 18) eqn:E2; [intros [= <-]; zlia|done].
Qed.

(** The layouts the decoder knows hold every account it names. *)
Lemma amm_v4_accounts_ok tx ix v out :
  instruction_ok (size (accounts tx)) ix -> amm_vault_index ix = Ok v ->
  exists s, amm_v4_accounts tx ix v out = Ok s /\
    venue s = venue out /\ from_event s = from_event out /\
    input_amount s = input_amount out /\ output_amount s = output_amount out /\
    input_mint s = input_mint out /\ output_mint s = output_mint out /\
    pool s = idx_instruction_account tx ix 1 /\ is_Some (pool s) /\
    (exists a b, pool_accounts s = Some (a, b) /\ idx_instruction_account tx ix v = Some a /\
                 idx_instruction_account tx ix (v + 1) = Some b) /\
    input_account s = idx_instruction_account tx ix (account_count ix - 3) /\
    output_account s = idx_instruction_account tx ix (account_count ix - 2) /\
    user s = idx_instruction_account tx ix (account_count ix - 1) /\
    is_Some (input_account s) /\ is_Some (output_account s) /\ is_Some (user s).
Proof.
  intros Hok Hv. apply amm_vault_spec in Hv. unfold amm_v4_accounts. cbv zeta.
  replace (account_count ix - 3 + 1) with (account_count ix - 2) by lia.
  replace (account_count ix - 3 + 2) with (account_count ix - 1) by lia.
  do 6 next_operand Hok. eexists. split; [done|]. cbn [venue from_event input_amount output_amount input_mint output_mint pool
    pool_accounts input_account output_account user]. split_and!; eauto.
Qed.

Lemma clmm_accounts_ok tx ix is_v2 out :
  instruction_ok (size (accounts tx)) ix -> (if is_v2 : bool then 13 else 7) <= account_count ix ->
  exists s, clmm_accounts tx ix is_v2 out = Ok s /\
    venue s = venue out /\ from_event s = from_event out /\
    input_amount s = input_amount out /\ output_amount s = output_amount out /\
    pool s = idx_instruction_account tx ix 2 /\ is_Some (pool s) /\
    user s = idx_instruction_account tx ix 0 /\ is_Some (user s) /\ is_Some (pool_accounts s) /\
    (is_v2 = true -> input_mint s = idx_instruction_account tx ix 11 /\ is_Some (input_mint s) /\
                     output_mint s = idx_instruction_account tx ix 12 /\ is_Some (output_mint s)).
Proof.
  intros Hok Hc. unfold clmm_accounts. destruct is_v2; do 6 next_operand Hok; cbn [negb].
  - do 2 next_operand Hok. eexists. split; [done|]. cbn. split_and!; eauto.
  - eexists. split; [done|]. cbn. split_and!; eauto; done.
Qed.

(** The statuses of a Raydium decoder. *)
Definition skipped_or_short (e : idx_status) : Prop := e = IDX_ERR_NOT_FOUND \/ e = IDX_ERR_RANGE.

Lemma read_amm_v4_raises tx ix out :
  instruction_ok (size (accounts tx)) ix -> raises (read_amm_v4 tx ix out) skipped_or_short.
Proof.
  intros Hok. unfold read_amm_v4. apply raises_bind; [eapply raises_consumes; [eauto with wire|by right]|]. intros d.
  destruct (_ && _); [apply raises_lift; intros e [= <-]; by left|]. apply raises_lift_bind.
  - intros e. unfold amm_vault_index. destruct (_ =? 17); [done|]. destruct (_ =? 18); [done|]. intros [= <-]. by left.
  - intros v Hv. apply raises_bind; [eapply raises_consumes; [eauto with wire|by right]|]. intros a.
    apply raises_bind; [eapply raises_consumes; [eauto with wire|by right]|]. intros b. apply raises_lift.
    intros e. destruct (amm_v4_accounts_ok tx ix v (set_amount (d =? RAYDIUM_AMM_IX_SWAP_BASE_IN)
      (if d =? RAYDIUM_AMM_IX_SWAP_BASE_IN then a else b) out) Hok Hv) as (s & -> & _). done.
Qed.

Lemma consumes_clmm_payload : consumes read_clmm_payload 33.
Proof. change 33 with (8 + (8 + (16 + (1 + 0)))). unfold read_clmm_payload. consumes_chain; done. Qed.

Lemma decode_clmm_statuses tx ix payload is_v2 out e :
  instruction_ok (size (accounts tx)) ix -> slice_len payload < 2 ^ 64 ->
  decode_clmm tx ix payload is_v2 out = Err e -> skipped_or_short e.
Proof.
  intros Hok Hl. unfold decode_clmm. destruct (_ <? _) eqn:Hc; [intros [= <-]; by left|].
  destruct (run_reader read_clmm_payload payload) as [r|e'] eqn:E; cbn [mbind IDX_TRY].
  - destruct (clmm_accounts_ok tx ix is_v2 (set_amount r.2 r.1 out) Hok) as (s & -> & _); [zlia|done].
  - intros [= <-]. right. by eapply run_err; [apply consumes_clmm_payload| |exact E].
Qed.

Lemma slice_sub_len s off len : 0 <= off -> slice_len (idx_slice_sub s off len) <= slice_len s.
Proof.
  intros Ho. unfold idx_slice_sub. destruct (_ <=? _) eqn:E; [unfold slice_len, size; simpl; lia|].
  destruct s as [l|]; [|done]. unfold slice_len, size in *. simpl. rewrite length_take, length_drop. lia.
Qed.

Lemma raydium_statuses tx ix v e :
  instruction_ok (size (accounts tx)) ix -> slice_len (ix_data ix) < 2 ^ 64 ->
  idx_venue_raydium_decode tx ix v = Err e -> skipped_or_short e.
Proof.
  intros Hok Hl. unfold idx_venue_raydium_decode. case_bool_decide.
  { intros E. eapply run_raises; [by apply read_amm_v4_raises|exact Hl|exact E]. }
  destruct (negb _); [intros [= <-]; by left|]. destruct (_ <? 8); [intros [= <-]; by left|]. cbv zeta.
  pose proof (slice_sub_len (ix_data ix) 8 (slice_len (ix_data ix) - 8)) as Hs.
  destruct (memcmp_eq _ _ 8); [apply decode_clmm_statuses; [done|lia]|].
  destruct (memcmp_eq _ _ 8); [apply decode_clmm_statuses; [done|lia]|intros [= <-]; by left].
Qed.

(** The reads of an AMM v4 swap over the bytes that hold it. *)
Lemma read_amm_v4_swap tx ix out d first second tail v c :
  cursor_ok c -> rest c = [d] ++ le64 first ++ le64 second ++ tail -> is_u64 first -> is_u64 second ->
  d = RAYDIUM_AMM_IX_SWAP_BASE_IN \/ d = RAYDIUM_AMM_IX_SWAP_BASE_OUT -> amm_vault_index ix = Ok v ->
  exists c', read_amm_v4 tx ix out c =
    lift (amm_v4_accounts tx ix v
            (set_amount (d =? RAYDIUM_AMM_IX_SWAP_BASE_IN) (if d =? RAYDIUM_AMM_IX_SWAP_BASE_IN then first else second) out)) c'.
Proof.
  intros Hc Hr Hf Hs Hd Hv. unfold read_amm_v4, mbind, reader_bind.
  destruct (reads_u8 d c _ Hc Hr) as (c1 & -> & R1 & O1).
  assert (negb (d =? RAYDIUM_AMM_IX_SWAP_BASE_IN) && negb (d =? RAYDIUM_AMM_IX_SWAP_BASE_OUT) = false) as ->
    by (destruct Hd as [->| ->]; reflexivity).
  rewrite Hv. cbn [lift]. destruct (reads_u64 first Hf c1 _ O1 R1) as (c2 & -> & R2 & O2).
  destruct (reads_u64 second Hs c2 _ O2 R2) as (c3 & -> & _). by exists c3.
Qed.

(** The seven fields of a swap log. *)
Lemma reads_u64s vs : Forall is_u64 vs -> reads (read_u64s (length vs)) (concat (map le64 vs)) vs.
Proof.
  induction 1 as [|v vs Hv Hvs IH]; cbn [length read_u64s map concat]; [apply reads_ret|]. eapply reads_bind; [by apply reads_u64|].
  eapply reads_last; [exact IH|apply reads_ret].
Qed.

Lemma consumes_u64s n : consumes (read_u64s n) (8 * Z.of_nat n).
Proof.
  induction n as [|n IH]; [apply consumes_ret|]. replace (8 * Z.of_nat (S n)) with (8 + (8 * Z.of_nat n + 0)) by lia.
  cbn [read_u64s]. apply consumes_bind; [lia|apply consumes_u64|]. intros v.
  apply consumes_bind; [lia|exact IH|]. intros vs. apply consumes_ret.
Qed.

(** ** Properties *)

(** An AMM v4 swap names the right accounts.  Over one of the two known
    layouts (17 accounts, or 18 with the vaults one further), an instruction whose
    indices are in range decodes to the swap of pool account 1, its two neighbouring
    vaults, and the last three accounts as source, destination and trader, all of
    them present; [SwapBaseIn] records its first amount as the input and no output,
    [SwapBaseOut] its second as the output and no input.  Over any other number of
    accounts it is refused with [IDX_ERR_NOT_FOUND]. *)
Theorem raydium_amm_v4_exact tx ix discriminant first second tail :
  instruction_ok (size (accounts tx)) ix -> slice_len (ix_data ix) < 2 ^ 64 ->
  slice_bytes (ix_data ix) = [discriminant] ++ le64 first ++ le64 second ++ tail ->
  is_u64 first -> is_u64 second -> discriminant = 9 \/ discriminant = 11 ->
  let n := account_count ix in
  let decoded := idx_venue_raydium_decode tx ix IDX_VENUE_RAYDIUM_AMM_V4 in
  (n <> 17 -> n <> 18 -> decoded = Err IDX_ERR_NOT_FOUND) /\
  (n = 17 \/ n = 18 -> exists s, decoded = Ok s /\
     let vault := if n =? 17 then 4 else 5 in
     input_amount s = (if discriminant =? 9 then Some first else None) /\
     output_amount s = (if discriminant =? 9 then None else Some second) /\
     pool s = idx_instruction_account tx ix 1 /\ is_Some (pool s) /\
     (exists a b, pool_accounts s = Some (a, b) /\ idx_instruction_account tx ix vault = Some a /\
                  idx_instruction_account tx ix (vault + 1) = Some b) /\
     input_account s = idx_instruction_account tx ix (n - 3) /\ is_Some (input_account s) /\
     output_account s = idx_instruction_account tx ix (n - 2) /\ is_Some (output_account s) /\
     user s = idx_instruction_account tx ix (n - 1) /\ is_Some (user s)).
Proof.
  intros Hok Hl Hd Hf Hs Hdisc n decoded. unfold decoded, idx_venue_raydium_decode. rewrite bool_decide_eq_true_2 by done.
  unfold decode_amm_v4, run_reader. pose proof (cursor_init_ok (ix_data ix) Hl) as Hc. split.
  - intros H1 H2. unfold read_amm_v4, mbind at 1, reader_bind at 1.
    destruct (reads_u8 discriminant _ _ Hc Hd) as (c1 & -> & _).
    assert (negb (discriminant =? RAYDIUM_AMM_IX_SWAP_BASE_IN) && negb (discriminant =? RAYDIUM_AMM_IX_SWAP_BASE_OUT) = false)
      as -> by (destruct Hdisc as [->| ->]; reflexivity).
    unfold amm_vault_index. fold n. by rewrite (proj2 (Z.eqb_neq _ _) H1), (proj2 (Z.eqb_neq _ _) H2).
  - intros Hn. assert (amm_vault_index ix = Ok (if n =? 17 then 4 else 5)) as Hv.
    { unfold amm_vault_index. fold n. by destruct Hn as [->| ->]. }
    destruct (read_amm_v4_swap tx ix (new_swap IDX_VENUE_RAYDIUM_AMM_V4 false) discriminant first second tail _ _ Hc Hd Hf Hs Hdisc Hv)
      as (c' & ->).
    edestruct (amm_v4_accounts_ok tx ix _ (set_amount (discriminant =? RAYDIUM_AMM_IX_SWAP_BASE_IN)
      (if discriminant =? RAYDIUM_AMM_IX_SWAP_BASE_IN then first else second) (new_swap IDX_VENUE_RAYDIUM_AMM_V4 false)) Hok Hv)
      as (s & -> & _ & _ & H1 & H2 & _ & _ & H3).
    exists s. split; [done|]. cbv zeta. rewrite H1, H2. destruct Hdisc as [->| ->]; simpl; fold n in H3; tauto.
Qed.

(** A swap log states the trade: the seven 64-bit fields after a log type
    of 3 give the first as the input and the last as the output, after a type of 4
    the last as the input and the second as the output; a log cut short is
    [IDX_ERR_RANGE] and a log of another type [IDX_ERR_NOT_FOUND]. *)
Theorem ray_log_exact raw log_type :
  slice_len raw < 2 ^ 64 ->
  (forall f tail, length f = 7%nat -> Forall is_u64 f -> log_type = 3 \/ log_type = 4 ->
     slice_bytes raw = [log_type] ++ concat (map le64 f) ++ tail ->
     idx_raydium_swap_log_parse raw =
       Ok (if log_type =? 3 then RaydiumSwapLog (f !!! 0%nat) (f !!! 6%nat) true
           else RaydiumSwapLog (f !!! 6%nat) (f !!! 1%nat) false)) /\
  (forall tail, slice_bytes raw = [log_type] ++ tail ->
     (log_type <> 3 /\ log_type <> 4 -> idx_raydium_swap_log_parse raw = Err IDX_ERR_NOT_FOUND) /\
     (log_type = 3 \/ log_type = 4 -> size tail < 56 -> idx_raydium_swap_log_parse raw = Err IDX_ERR_RANGE)).
Proof.
  intros Hl. pose proof (cursor_init_ok raw Hl) as Hc. unfold idx_raydium_swap_log_parse, run_reader, read_swap_log.
  unfold RAYDIUM_LOG_SWAP_BASE_IN, RAYDIUM_LOG_SWAP_BASE_OUT. split.
  - intros f tail Hf Hu Ht Hs. unfold mbind at 1, reader_bind at 1. destruct (reads_u8 log_type _ _ Hc Hs) as (c1 & -> & R1 & O1).
    assert (negb (log_type =? 3) && negb (log_type =? 4) = false) as -> by (destruct Ht as [->| ->]; reflexivity).
    unfold mbind at 1, reader_bind at 1. rewrite <- Hf. destruct (reads_u64s f Hu c1 tail O1 R1) as (c2 & -> & _). done.
  - intros tail Hs. unfold mbind, reader_bind. destruct (reads_u8 log_type _ _ Hc Hs) as (c1 & -> & R1 & O1). split.
    + intros [H3 H4]. by rewrite (proj2 (Z.eqb_neq _ _) H3), (proj2 (Z.eqb_neq _ _) H4).
    + intros Ht Hshort. assert (negb (log_type =? 3) && negb (log_type =? 4) = false) as -> by (destruct Ht as [->| ->]; reflexivity).
      pose proof (consumes_u64s 7 c1 O1) as H. rewrite R1, (proj2 (Z.ltb_lt _ _)) in H by done. by rewrite H.
Qed.

(** ** Witnesses *)

Definition sample_account (k : Z) : idx_account := Account (Pubkey (replicate 32 k)) false true false.

(** A transaction of seventeen accounts and a swap over them in order. *)
Definition sample_accounts : idx_transaction :=
  Transaction IDX_TX_VERSION_LEGACY [] 0 0 0 (Hash []) (sample_account <$> [0; 1; 2; 3; 4; 5; 6; 7; 8; 9; 10; 11; 12; 13; 14; 15; 16])
    17 [] [] false true 0 [] [] [] [] [].
Definition sample_swap : idx_instruction :=
  Instruction 0 [0; 1; 2; 3; 4; 5; 6; 7; 8; 9; 10; 11; 12; 13; 14; 15; 16] (Some ([9] ++ le64 1000 ++ le64 3 ++ [])) 0.

#[export] Instance instruction_ok_dec count ix : Decision (instruction_ok count ix).
Proof.
  unfold instruction_ok. assert (forall i, Decision (index_ok count i)) by (intros i; unfold index_ok; apply _). apply _.
Defined.

Lemma raydium_amm_v4_exact_witness :
  exists s, idx_venue_raydium_decode sample_accounts sample_swap IDX_VENUE_RAYDIUM_AMM_V4 = Ok s /\
    input_amount s = Some 1000 /\ user s = Some (Pubkey (replicate 32 16)).
Proof.
  destruct (raydium_amm_v4_exact sample_accounts sample_swap 9 1000 3 []) as [_ H];
    [decide_now|reflexivity|reflexivity|decide_now|decide_now|by left|].
  destruct H as (s & E & Hi & _ & _ & _ & _ & _ & _ & _ & _ & Hu & _); [left; reflexivity|].
  exists s. split; [exact E|]. split; [exact Hi|]. rewrite Hu. reflexivity.
Defined.

Lemma ray_log_exact_witness :
  idx_raydium_swap_log_parse (Some ([4] ++ concat (map le64 [10; 20; 30; 40; 50; 60; 70]) ++ [])) =
    Ok (RaydiumSwapLog 70 20 false).
Proof.
  destruct (ray_log_exact (Some ([4] ++ concat (map le64 [10; 20; 30; 40; 50; 60; 70]) ++ [])) 4 eq_refl) as [H _].
  apply (H [10; 20; 30; 40; 50; 60; 70] []); [reflexivity|decide_now|by right|reflexivity].
Defined.
