(* ===== verification/Venue.v ===== *)
(** * venue.c: dispatching an instruction to its venue's decoder

    [idx_swap_decode], [idx_venue_metadata_decode] and [idx_venue_creation_decode],
    and what holds of every venue at once. *)

From S2P Require Import Prelude Radix Base58 Bytes Types Json Wire Block VenueTypes VenuePump VenueJupiter VenueRaydium.
#[local] Open Scope Z_scope.

(** src/src/venue.c:157-180 [idx_swap_decode] *)
Definition idx_swap_decode (tx : idx_transaction) (ix : idx_instruction) : result idx_swap :=
  let venue := idx_venue_of_program (idx_instruction_program_id tx ix) in
  match venue with
  | IDX_VENUE_PUMP_CURVE | IDX_VENUE_PUMP_AMM => idx_venue_pump_decode tx ix venue
  | IDX_VENUE_RAYDIUM_AMM_V4 | IDX_VENUE_RAYDIUM_CLMM | IDX_VENUE_RAYDIUM_CPMM =>
      idx_venue_raydium_decode tx ix venue
  | IDX_VENUE_JUPITER => idx_venue_jupiter_decode tx ix
  | IDX_VENUE_NONE => IDX_FAIL IDX_ERR_NOT_FOUND
  end.

(** src/src/venue.c:182-206 [idx_venue_metadata_decode] *)
Definition idx_venue_metadata_decode (tx : idx_transaction) (ix : idx_instruction)
    : result idx_token_metadata :=
  match idx_venue_of_program (idx_instruction_program_id tx ix) with
  | IDX_VENUE_PUMP_CURVE => idx_venue_pump_metadata tx ix
  | _ => IDX_FAIL IDX_ERR_NOT_FOUND
  end.

(** src/src/venue.c:208-235 [idx_venue_creation_decode] *)
Definition idx_venue_creation_decode (tx : idx_transaction) (ix : idx_instruction)
    : result idx_pool_creation :=
  match idx_venue_of_program (idx_instruction_program_id tx ix) with
  | IDX_VENUE_PUMP_CURVE => idx_venue_pump_creation tx ix
  | _ => IDX_FAIL IDX_ERR_NOT_FOUND
  end.

(** ** The statuses of a swap decoder *)

Lemma decode_trade_statuses fs out e :
  slice_len fs < 2 ^ 64 -> decode_trade_event fs out = Err e -> skipped_or_short e.
Proof. intros Hl E. right. by eapply run_err; [apply consumes_trade| |exact E]. Qed.

Lemma decode_amm_statuses fs is_buy out e :
  slice_len fs < 2 ^ 64 -> decode_amm_event fs is_buy out = Err e -> skipped_or_short e.
Proof.
  intros Hl. unfold decode_amm_event. destruct (_ <? _); [intros [= <-]; by right|].
  assert (forall off, 0 <= off -> forall e', run_reader idx_cursor_u64le (idx_slice_sub fs off 8) = Err e' -> e' = IDX_ERR_RANGE)
    as Hr.
  { intros off Ho e' E. eapply run_err; [apply consumes_u64| |exact E]. pose proof (slice_sub_len fs off 8 Ho). lia. }
  destruct (run_reader _ (idx_slice_sub fs PUMP_AMM_BASE_AMOUNT_OFFSET 8)) as [a|e1] eqn:E1; cbn [mbind IDX_TRY].
  - destruct (run_reader _ (idx_slice_sub fs PUMP_AMM_USER_QUOTE_AMOUNT_OFFSET 8)) as [b|e2] eqn:E2; cbn [mbind IDX_TRY].
    + by destruct is_buy.
    + intros [= <-]. right. by apply (Hr PUMP_AMM_USER_QUOTE_AMOUNT_OFFSET).
  - intros [= <-]. right. by apply (Hr PUMP_AMM_BASE_AMOUNT_OFFSET).
Qed.

(** The framing keeps the length. *)
Lemma payload_len data p : idx_anchor_event_payload data = Some p -> slice_len p <= slice_len data.
Proof. intros E. apply event_payload_inv in E. unfold slice_len at 2. rewrite E. unfold slice_len, size. rewrite length_app. lia. Qed.

Lemma fields_len p disc fs : idx_anchor_event_is p disc = Some fs -> slice_len fs <= slice_len p.
Proof.
  unfold idx_anchor_event_is. destruct p as [l|]; [|done]. destruct (_ <? 8); [done|]. destruct (negb _); [done|].
  intros [= <-]. by apply slice_sub_len.
Qed.

Lemma pump_statuses tx ix v e :
  slice_len (ix_data ix) < 2 ^ 64 -> idx_venue_pump_decode tx ix v = Err e -> skipped_or_short e.
Proof.
  intros Hl. unfold idx_venue_pump_decode.
  destruct (idx_anchor_event_payload (ix_data ix)) as [p|] eqn:Ep; [|intros [= <-]; by left].
  apply payload_len in Ep. case_bool_decide.
  - destruct (idx_anchor_event_is p TRADE_EVENT) as [fs|] eqn:Ef; [|intros [= <-]; by left].
    apply fields_len in Ef. apply decode_trade_statuses. lia.
  - destruct (idx_anchor_event_is p BUY_EVENT) as [fs|] eqn:Ef.
    { apply fields_len in Ef. apply decode_amm_statuses. lia. }
    destruct (idx_anchor_event_is p SELL_EVENT) as [fs|] eqn:Eg; [|intros [= <-]; by left].
    apply fields_len in Eg. apply decode_amm_statuses. lia.
Qed.

Lemma jupiter_statuses tx ix e :
  slice_len (ix_data ix) < 2 ^ 64 -> idx_venue_jupiter_decode tx ix = Err e -> skipped_or_short e.
Proof.
  intros Hl. unfold idx_venue_jupiter_decode.
  destruct (idx_anchor_event_payload (ix_data ix)) as [p|] eqn:Ep; [|intros [= <-]; by left].
  destruct (idx_anchor_event_is p SWAP_EVENT) as [fs|] eqn:Ef; [|intros [= <-]; by left].
  apply payload_len in Ep. apply fields_len in Ef. intros E. right. eapply run_err; [apply consumes_swap| |exact E]. lia.
Qed.

(** What a swap says of its source. *)

Lemma run_reader_ok {A} (r : reader A) s a (P : A -> Prop) :
  (forall c a c', r c = Ok (a, c') -> P a) -> run_reader r s = Ok a -> P a.
Proof. intros H. unfold run_reader. destruct (r _) as [[x c']|] eqn:E; [|done]. intros [= <-]. by eapply H. Qed.

Definition stated_by (v : idx_venue) (s : idx_swap) : Prop :=
  venue s = v /\ from_event s = true /\ pool_accounts s = None.

Lemma pump_stated tx ix v s : idx_venue_pump_decode tx ix v = Ok s -> stated_by v s.
Proof.
  unfold idx_venue_pump_decode. destruct (idx_anchor_event_payload _) as [p|]; [|done].
  assert (forall fs, decode_trade_event fs (new_swap v true) = Ok s -> stated_by v s) as Ht.
  { intros fs. apply (run_reader_ok _ _ _ (stated_by v)). intros c a c'. unfold read_trade_event, mbind, reader_bind.
    do 5 (case_match; [case_match|done]). intros [= <- _]. by destruct (negb _). }
  assert (forall fs b, decode_amm_event fs b (new_swap v true) = Ok s -> stated_by v s) as Ha.
  { intros fs b. unfold decode_amm_event. destruct (_ <? _); [done|]. destruct (run_reader _ (idx_slice_sub fs PUMP_AMM_BASE_AMOUNT_OFFSET 8)); [cbn [mbind IDX_TRY]|done].
    destruct (run_reader _ _); [|done]. intros [= <-]. by destruct b. }
  case_bool_decide; [destruct (idx_anchor_event_is _ _); [apply Ht|done]|].
  destruct (idx_anchor_event_is p BUY_EVENT); [apply Ha|]. destruct (idx_anchor_event_is _ _); [apply Ha|done].
Qed.

Lemma jupiter_stated tx ix s :
  idx_venue_jupiter_decode tx ix = Ok s -> stated_by IDX_VENUE_JUPITER s /\ pool s = None.
Proof.
  unfold idx_venue_jupiter_decode. destruct (idx_anchor_event_payload _) as [p|]; [|done].
  destruct (idx_anchor_event_is _ _); [|done].
  apply (run_reader_ok _ _ _ (fun s => stated_by IDX_VENUE_JUPITER s /\ pool s = None)). intros c a c'.
  unfold read_swap_event, mbind, reader_bind. do 5 (case_match; [case_match|done]). by intros [= <- _].
Qed.

(** The next step of a chain that succeeded. *)
Ltac next_ok :=
  match goal with |- @mbind _ _ _ _ _ ?r = Ok _ -> _ => destruct r; [cbn [mbind IDX_TRY]|done] end.

(** Every Raydium swap names the pool and both of its vaults. *)
Definition named_by (v : idx_venue) (s : idx_swap) : Prop :=
  venue s = v /\ from_event s = false /\ is_Some (pool s) /\ is_Some (pool_accounts s).

Lemma amm_v4_named tx ix v out s :
  amm_v4_accounts tx ix v out = Ok s -> from_event out = false -> named_by (venue out) s.
Proof. unfold amm_v4_accounts. do 6 next_ok. intros [= <-] Ho. split_and!; eauto. Qed.

Lemma clmm_named tx ix is_v2 out s :
  clmm_accounts tx ix is_v2 out = Ok s -> from_event out = false -> named_by (venue out) s.
Proof.
  unfold clmm_accounts. do 6 next_ok. destruct is_v2; cbn [negb].
  - do 2 next_ok. intros [= <-] Ho. split_and!; eauto.
  - intros [= <-] Ho. split_and!; eauto.
Qed.

Lemma set_amount_fields b a out : venue (set_amount b a out) = venue out /\ from_event (set_amount b a out) = from_event out.
Proof. by destruct b. Qed.

Lemma raydium_named tx ix v s : idx_venue_raydium_decode tx ix v = Ok s -> named_by v s.
Proof.
  unfold idx_venue_raydium_decode. case_bool_decide.
  - apply (run_reader_ok _ _ _ (named_by v)). intros c a c'. unfold read_amm_v4, mbind, reader_bind.
    case_match; [case_match|done]. destruct (_ && _); [done|]. do 3 (case_match; [case_match|done]).
    unfold lift. destruct (amm_v4_accounts _ _ _ _) as [x|] eqn:E; [|done]. intros [= <- _]. by apply amm_v4_named in E; destruct (_ =? _).
  - destruct (negb _); [done|]. destruct (_ <? _); [done|].
    assert (forall p b, decode_clmm tx ix p b (new_swap v false) = Ok s -> named_by v s) as Hc.
    { intros p b. unfold decode_clmm. destruct (_ <? _); [done|]. destruct (run_reader _ _) as [r|]; [cbn [mbind IDX_TRY]|done].
      intros E. apply clmm_named in E; destruct (set_amount_fields r.2 r.1 (new_swap v false)) as [Hv He]; [by rewrite Hv in E|done]. }
    cbv zeta. destruct (memcmp_eq _ _ _); [apply Hc|]. destruct (memcmp_eq _ _ _); [apply Hc|done].
Qed.

(** The lookup compares whole keys. *)
Lemma find_venue_spec key venues v :
  size (pubkey_bytes key) = 32 -> Forall (fun p => size (pubkey_bytes p.1) = 32) venues ->
  v <> IDX_VENUE_NONE -> find_venue key venues = v -> (key, v) ∈ venues.
Proof.
  intros Hk Hall Hv. induction Hall as [|[program w] venues Hp Hall IH]; cbn [find_venue]; [congruence|].
  destruct (idx_pubkey_equal key program) eqn:E.
  - intros <-. apply elem_of_cons. left. f_equal. revert E. unfold idx_pubkey_equal, memcmp_eq. rewrite bool_decide_eq_true.
    unfold size, IDX_PUBKEY_LEN in *. simpl in Hp. rewrite !take_ge by lia. destruct key, program. simpl. congruence.
  - intros Hf. apply elem_of_cons. right. by apply IH.
Qed.

(** ** Properties *)

(** What [idx_swap_decode] can answer for an instruction of a decoded block.
    It fails only with [IDX_ERR_NOT_FOUND] or [IDX_ERR_RANGE]: the account-count
    checks come before every account is read, so the [IDX_ERR_PARSE] that venue.h
    documents is never returned.  A swap is of the venue of the instruction's
    program; Raydium's come from the instruction and name the pool and both vaults,
    the others come from the program's own event; and a route through the aggregator
    never names a pool. *)
Theorem swap_decode_outcome tx ix :
  instruction_ok (size (accounts tx)) ix -> slice_len (ix_data ix) < 2 ^ 64 ->
  let v := idx_venue_of_program (idx_instruction_program_id tx ix) in
  match idx_swap_decode tx ix with
  | Err e => e = IDX_ERR_NOT_FOUND \/ e = IDX_ERR_RANGE
  | Ok s =>
      venue s = v /\ (idx_venue_is_pool v = false -> pool s = None) /\
      if bool_decide (v = IDX_VENUE_RAYDIUM_AMM_V4 \/ v = IDX_VENUE_RAYDIUM_CLMM)
      then from_event s = false /\ is_Some (pool s) /\ is_Some (pool_accounts s)
      else from_event s = true /\ pool_accounts s = None
  end.
Proof.
  intros Hok Hl v. subst v. unfold idx_swap_decode. destruct (idx_venue_of_program _) eqn:Ev.
  - by left.
  - destruct (idx_venue_pump_decode _ _ _) as [s|e] eqn:E; [|by eapply pump_statuses].
    apply pump_stated in E as (H1 & H2 & H3). by split_and!.
  - destruct (idx_venue_pump_decode _ _ _) as [s|e] eqn:E; [|by eapply pump_statuses].
    apply pump_stated in E as (H1 & H2 & H3). by split_and!.
  - destruct (idx_venue_raydium_decode _ _ _) as [s|e] eqn:E; [|by eapply raydium_statuses].
    apply raydium_named in E as (H1 & H2 & H3). by split_and!.
  - destruct (idx_venue_raydium_decode _ _ _) as [s|e] eqn:E; [|by eapply raydium_statuses].
    apply raydium_named in E as (H1 & H2 & H3). by split_and!.
  - by left.
  - destruct (idx_venue_jupiter_decode _ _) as [s|e] eqn:E; [|by eapply jupiter_statuses].
    apply jupiter_stated in E as ((H1 & H2 & H3) & H4). by split_and!.
Qed.

(** The program ids are the ones in their comments: each base58 text decodes
    to the key the lookup knows by its venue, and any key with a venue is one of the
    six. *)
Theorem venue_program_ids :
  map (fun text => idx_venue_of_program (succeeded (idx_pubkey_from_base58 (Some (lit text)) true []).1))
    ["6EF8rrecthR5Dkzon8Nwu78hRvfCKubJ14M5uBEwF6P"; "pAMMBay6oceH9fJKBRHGP5D4bD4sWpmSwMn52FMfXEA";
     "675kPX9MHTjS2zt1qfr1NYHuzeLXfQM9H24wFSUt1Mp8"; "CAMMCzo5YL8w4VFF8KVHrK22GGUsp5VTaW7grrKgrWqK";
     "CPMMoo8L3F4NbTegBCKVNunggL7H1ZpdTHKxQB5qKP1C"; "JUP6LkbZbjS1jKKwapdHNy74zcZ3tLUZoi5QNyVTaV4"]%string =
    [IDX_VENUE_PUMP_CURVE; IDX_VENUE_PUMP_AMM; IDX_VENUE_RAYDIUM_AMM_V4; IDX_VENUE_RAYDIUM_CLMM;
     IDX_VENUE_RAYDIUM_CPMM; IDX_VENUE_JUPITER] /\
  idx_pubkey_from_base58 (Some (lit "So11111111111111111111111111111111111111112")) true [] = (Ok IDX_MINT_WSOL, []) /\
  (forall key v, size (pubkey_bytes key) = 32 -> v <> IDX_VENUE_NONE ->
     idx_venue_of_program (Some key) = v -> (key, v) ∈ VENUES).
Proof.
  split; [vm_compute; reflexivity|]. split; [vm_compute; reflexivity|]. intros key v Hk Hv. apply find_venue_spec; [done| |done].
  repeat constructor.
Qed.

(** ** Witnesses *)

(** The sample swap, of a transaction whose first account is the AMM program. *)
Definition sample_amm : idx_transaction :=
  Transaction IDX_TX_VERSION_LEGACY [] 0 0 0 (Hash [])
    (Account IDX_PROGRAM_RAYDIUM_AMM_V4 false false false :: tail (accounts sample_accounts))
    17 [] [] false true 0 [] [] [] [] [].

Lemma swap_decode_outcome_witness :
  match idx_swap_decode sample_amm sample_swap with Ok s => is_Some (pool s) | Err _ => False end.
Proof.
  pose proof (swap_decode_outcome sample_amm sample_swap ltac:(decide_now) ltac:(reflexivity)) as H. cbv zeta in H.
  destruct (idx_swap_decode sample_amm sample_swap) as [s|e] eqn:E; [|by vm_compute in E].
  rewrite bool_decide_eq_true_2 in H by (left; vm_compute; reflexivity). apply H.
Defined.
