(* ===== verification/Token.v ===== *)
(** * token.c: the token registry

    One record for each mint, filled by what is observed of it.  The table of the
    registry is anything that keeps the promises of [PtrMapSpec]; the records are the
    heap behind its addresses, in the order they were allocated, so a write through
    [token] is a write to the record the table leads to.  A string field is its bytes
    up to the terminator, set when its [has_] flag is.  The null guards are excluded
    by the types.

    The first theorem is the contract: whatever the observations and whenever memory
    runs out, the record of a mint is the one its successful observations describe. *)

From S2P Require Import Prelude Bytes Types Map PtrMap VenueTypes.
#[local] Open Scope Z_scope.

(** src/include/token.h:38-38 [IDX_TOKEN_NAME_MAX] *)
Definition IDX_TOKEN_NAME_MAX : Z := 64.
(** src/include/token.h:39-39 [IDX_TOKEN_SYMBOL_MAX] *)
Definition IDX_TOKEN_SYMBOL_MAX : Z := 16.
(** src/include/token.h:40-40 [IDX_TOKEN_URI_MAX] *)
Definition IDX_TOKEN_URI_MAX : Z := 200.

(** src/include/token.h:42-57 [idx_token] *)
Record idx_token := Token {
  tk_mint : idx_pubkey;
  tk_decimals : option Z;
  tk_name : option bytes;
  tk_symbol : option bytes;
  tk_uri : option bytes;
  first_seen_slot : Z;
  has_metadata : bool
}.

(** src/include/token.h:59-62 [idx_token_registry], with the records its table
    points to. *)
Record idx_token_registry (M : Type) := TokenRegistry {
  by_mint : M;
  tokens : list idx_token;
  with_metadata : Z
}.
Arguments TokenRegistry {M}.
Arguments by_mint {M}.
Arguments tokens {M}.
Arguments with_metadata {M}.

(** src/src/token.c:28-30 [mint_key] *)
Definition mint_key (mint : idx_pubkey) : bytes :=
  slice_bytes (idx_slice_make (Some (pubkey_bytes mint)) IDX_PUBKEY_LEN).

(** src/src/token.c:76-85 [copy_string]: the field after it, [field] before. *)
Definition copy_string (field : option bytes) (dest_size : Z) (src : idx_slice) : option bytes :=
  if bool_decide (src = None) || (slice_len src =? 0) then field
  else
    let n := if slice_len src <? dest_size - 1 then slice_len src else dest_size - 1 in
    Some (take (Z.to_nat n) (slice_bytes src)).

(** [if (has) copy_string(...)] *)
Definition copy_if (field : option bytes) (dest_size : Z) (src : option idx_slice) : option bytes :=
  match src with Some src => copy_string field dest_size src | None => field end.

Definition sizeof_token : Z := 344.

(** [calloc(1, sizeof *token)] and its two fields *)
Definition new_token (mint : idx_pubkey) (slot : Z) : idx_token := Token mint None None None None slot false.

(** src/src/token.c:68-71 [idx_token_registry_observe_balance] *)
Definition set_decimals (t : idx_token) (decimals : Z) : idx_token :=
  match tk_decimals t with
  | Some _ => t
  | None => Token (tk_mint t) (Some decimals) (tk_name t) (tk_symbol t) (tk_uri t) (first_seen_slot t) (has_metadata t)
  end.

(** src/src/token.c:102-118 [idx_token_registry_observe_metadata] *)
Definition set_metadata (t : idx_token) (meta : idx_token_metadata) : idx_token :=
  Token (tk_mint t) (tk_decimals t)
    (copy_if (tk_name t) IDX_TOKEN_NAME_MAX (md_name meta))
    (copy_if (tk_symbol t) IDX_TOKEN_SYMBOL_MAX (md_symbol meta))
    (copy_if (tk_uri t) IDX_TOKEN_URI_MAX (md_uri meta))
    (first_seen_slot t) true.

#[export] Instance idx_token_inhabited : Inhabited idx_token := populate (new_token IDX_PUBKEY_DEFAULT 0).

Section registry.
Context {M : Type} `{PtrMapOps M}.

(** src/src/token.c:6-12 [idx_token_registry_init] *)
Definition idx_token_registry_init : idx_token_registry M := TokenRegistry m_init [] 0.

(** src/src/token.c:14-26 [idx_token_registry_free]: the registry, and the addresses
    freed. *)
Definition idx_token_registry_free (reg : idx_token_registry M) : idx_token_registry M * list (option ptr) :=
  (TokenRegistry (m_free (by_mint reg)) [] 0, m_values (by_mint reg)).

(** src/src/token.c:34-55 [find_or_create]: the address of the token.  The record
    of a failed put is freed again. *)
Definition find_or_create (reg : idx_token_registry M) (mint : idx_pubkey) (slot : Z) (h : heap)
    : result ptr * idx_token_registry M * heap :=
  match m_get (by_mint reg) (mint_key mint) with
  | Some value => (Ok (default 0%nat value), reg, h)
  | None =>
      let '(ok, h1) := calloc 1 sizeof_token h in
      if negb ok then (IDX_FAIL IDX_ERR_NO_MEMORY, reg, h1)
      else
        let token := length (tokens reg) in
        let '(status, m, h2) := m_put (mint_key mint) token h1 (by_mint reg) in
        match status with
        | Err e => (Err e, TokenRegistry m (tokens reg) (with_metadata reg), h2)
        | Ok _ => (Ok token, TokenRegistry m (tokens reg ++ [new_token mint slot]) (with_metadata reg), h2)
        end
  end.

(** src/src/token.c:57-72 [idx_token_registry_observe_balance] *)
Definition idx_token_registry_observe_balance (reg : idx_token_registry M) (mint : idx_pubkey)
    (decimals slot : Z) (h : heap) : result unit * idx_token_registry M * heap :=
  let '(r, reg, h) := find_or_create reg mint slot h in
  match r with
  | Err e => (Err e, reg, h)
  | Ok token =>
      (Ok tt, TokenRegistry (by_mint reg)
                (<[token := set_decimals (tokens reg !!! token) decimals]> (tokens reg)) (with_metadata reg), h)
  end.

(** src/src/token.c:87-120 [idx_token_registry_observe_metadata] *)
Definition idx_token_registry_observe_metadata (reg : idx_token_registry M) (meta : idx_token_metadata)
    (slot : Z) (h : heap) : result unit * idx_token_registry M * heap :=
  match md_mint meta with
  | None => (Ok tt, reg, h)
  | Some mint =>
      let '(r, reg, h) := find_or_create reg mint slot h in
      match r with
      | Err e => (Err e, reg, h)
      | Ok token =>
          if has_metadata (tokens reg !!! token) then (Ok tt, reg, h)
          else (Ok tt, TokenRegistry (by_mint reg)
                         (<[token := set_metadata (tokens reg !!! token) meta]> (tokens reg))
                         (u64 (with_metadata reg + 1)), h)
      end
  end.

(** src/src/token.c:122-132 [idx_token_registry_get] *)
Definition idx_token_registry_get (reg : idx_token_registry M) (mint : idx_pubkey) : option idx_token :=
  match m_get (by_mint reg) (mint_key mint) with
  | Some value => value ≫= fun token => tokens reg !! token
  | None => None
  end.

(** src/src/token.c:134-139 [idx_token_registry_count] *)
Definition idx_token_registry_count (reg : idx_token_registry M) : Z := m_count (by_mint reg).
End registry.

(** ** What the registry stands for *)

Definition token_key (t : idx_token) : bytes := mint_key (tk_mint t).

Inductive observation :=
  | SawBalance (mint : idx_pubkey) (decimals slot : Z)
  | SawMetadata (meta : idx_token_metadata) (slot : Z).

Definition observed_mint (o : observation) : option idx_pubkey :=
  match o with SawBalance mint _ _ => Some mint | SawMetadata meta _ => md_mint meta end.
Definition observed_slot (o : observation) : Z := match o with SawBalance _ _ s | SawMetadata _ s => s end.
Definition observed_decimals (o : observation) : option Z :=
  match o with SawBalance _ d _ => Some d | SawMetadata _ _ => None end.
Definition observed_metadata (o : observation) : option idx_token_metadata :=
  match o with SawBalance _ _ _ => None | SawMetadata meta _ => Some meta end.

(** The observation is of the mint with this key. *)
Definition of_key (k : bytes) (o : observation) : Prop := mint_key <$> observed_mint o = Some k.

#[export] Instance of_key_dec k o : Decision (of_key k o).
Proof. unfold of_key. apply _. Defined.

(** The record a history describes: the first observation of the mint gives it and
    the slot, the first balance the decimals, the first metadata the strings. *)
Definition describe (k : bytes) (seen : list observation) : option idx_token :=
  let l := filter (of_key k) seen in
  let strings f size := head (omap observed_metadata l) ≫= fun meta => copy_if None size (f meta) in
  o ← head l;
  mint ← observed_mint o;
  Some (Token mint (head (omap observed_decimals l))
          (strings md_name IDX_TOKEN_NAME_MAX) (strings md_symbol IDX_TOKEN_SYMBOL_MAX)
          (strings md_uri IDX_TOKEN_URI_MAX) (observed_slot o)
          (bool_decide (is_Some (head (omap observed_metadata l))))).

(** One observation of a record. *)
Definition apply_observation (t : idx_token) (o : observation) : idx_token :=
  match o with
  | SawBalance _ decimals _ => set_decimals t decimals
  | SawMetadata meta _ => if has_metadata t then t else set_metadata t meta
  end.

Lemma head_snoc {X} (l : list X) x : head (l ++ [x]) = Some (default x (head l)).
Proof. by destruct l. Qed.

Lemma token_describe_snoc k seen o mint :
  observed_mint o = Some mint -> mint_key mint = k ->
  describe k (seen ++ [o]) =
    Some (apply_observation (default (new_token mint (observed_slot o)) (describe k seen)) o).
Proof.
  intros Hm Hk. unfold describe. rewrite filter_app, filter_cons_True by (unfold of_key; by rewrite Hm, <- Hk).
  rewrite filter_nil. set (l := filter _ seen). rewrite !omap_app.
  assert (forall o', head l = Some o' -> is_Some (observed_mint o')) as Hl.
  { intros o' Ho'. assert (o' ∈ l) as Hin by (destruct l; [done|]; injection Ho' as ->; left).
    apply list_elem_of_filter in Hin as [Hin _]. unfold of_key in Hin. destruct (observed_mint o'); [by eexists|done]. }
  clearbody l. rewrite head_snoc. destruct (head l) as [o'|] eqn:Eh; cbn [default].
  - destruct (Hl o' eq_refl) as [m' Hm']. cbn [mbind option_bind id from_option]. rewrite Hm'. cbn [mbind option_bind id from_option].
    destruct o as [m d s|meta s]; cbn [observed_decimals observed_metadata omap list_omap apply_observation];
      rewrite ?app_nil_r, ?head_snoc.
    + unfold set_decimals. cbn [tk_decimals]. destruct (head (omap observed_decimals l)); reflexivity.
    + cbn [has_metadata]. destruct (head (omap observed_metadata l)) as [md|]; cbn [default].
      * rewrite !bool_decide_true by eauto. reflexivity.
      * rewrite (bool_decide_false (is_Some None)) by (by intros []). rewrite bool_decide_true by eauto. reflexivity.
  - assert (l = []) as -> by (by destruct l). cbn [omap list_omap app head mbind option_bind default].
    rewrite Hm. destruct o as [m d s|meta s]; cbn -[bool_decide].
    + by rewrite bool_decide_false by (by intros []).
    + by rewrite bool_decide_true by eauto.
Qed.

Lemma token_describe_skip k seen o : ~ of_key k o -> describe k (seen ++ [o]) = describe k seen.
Proof. intros Ho. unfold describe. rewrite filter_app, filter_cons_False by done. by rewrite filter_nil, app_nil_r. Qed.

Section refinement.
Context {M : Type} `{PtrMapSpec M}.

Definition n_metadata (l : list idx_token) : nat := length (filter (fun t => has_metadata t = true) l).

(** The table leads to one record for each mint, every record is reachable, and the
    counter counts. *)
Record registry_ok (reg : idx_token_registry M) : Prop := {
  reg_records : reg_inv token_key (by_mint reg) (tokens reg) [];
  reg_counter : with_metadata reg = u64 (Z.of_nat (n_metadata (tokens reg)))
}.

Definition view (reg : idx_token_registry M) : gmap bytes idx_token := reg_view (by_mint reg) (tokens reg).

Lemma token_init_registry_ok : registry_ok idx_token_registry_init /\ view idx_token_registry_init = ∅.
Proof. destruct (init_reg_inv (M:=M) token_key) as [H1 H2]. by split. Qed.

(** The failures of an observation. *)
Abbreviation put_failure := (fun e => e = IDX_ERR_NO_MEMORY \/ e = IDX_ERR_RANGE \/ e = IDX_ERR_INTERNAL).

Lemma find_or_create_spec reg mint slot h :
  registry_ok reg ->
  let '(r, reg', _) := find_or_create reg mint slot h in
  registry_ok reg' /\
  match r with
  | Ok p => let t := default (new_token mint slot) (view reg !! mint_key mint) in
      tokens reg' !! p = Some t /\ token_key t = mint_key mint /\ view reg' = <[mint_key mint := t]> (view reg)
  | Err e => view reg' = view reg /\ put_failure e
  end.
Proof.
  intros [I Hc]. unfold find_or_create. pose proof (reg_find token_key _ _ [] (mint_key mint) I) as Hf.
  destruct (m_get (by_mint reg) (mint_key mint)) as [v|] eqn:Eg.
  - destruct Hf as (p & t & -> & Hp & Hk & _ & Hv). split; [by split|]. cbn zeta. unfold view. rewrite Hv. cbn [default].
    split_and!; [done|done|]. by rewrite insert_id.
  - unfold calloc. rewrite (proj2 (Z.ltb_ge _ _)) by (unfold SIZE_MAX, sizeof_token; lia).
    destruct (malloc h) as [[] h1]; cbn [negb]; [|by split; [|split; [|left]]].
    pose proof (reg_add token_key _ _ [] (new_token mint slot) h1 I Eg) as Ha.
    change (token_key (new_token mint slot)) with (mint_key mint) in Ha.
    destruct (m_put _ _ _ _) as [[[[]|e] m'] h2].
    + destruct Ha as [I' Hv]. split.
      * split; [done|]. cbn. rewrite Hc. unfold n_metadata. rewrite filter_app, length_app. by rewrite Nat.add_0_r.
      * unfold view. rewrite Hf. cbn. split_and!; [by apply list_lookup_middle|done|done].
    + destruct Ha as (I' & Hv & He). by split.
Qed.

Definition observe (o : observation) (reg : idx_token_registry M) (h : heap)
    : result unit * idx_token_registry M * heap :=
  match o with
  | SawBalance mint decimals slot => idx_token_registry_observe_balance reg mint decimals slot h
  | SawMetadata meta slot => idx_token_registry_observe_metadata reg meta slot h
  end.

(** Writing a record through its address. *)
Lemma token_update_ok reg p t t' n :
  registry_ok reg -> tokens reg !! p = Some t -> token_key t' = token_key t ->
  n = u64 (Z.of_nat (n_metadata (<[p := t']> (tokens reg)))) ->
  registry_ok (TokenRegistry (by_mint reg) (<[p := t']> (tokens reg)) n) /\
  view (TokenRegistry (by_mint reg) (<[p := t']> (tokens reg)) n) = <[token_key t := t']> (view reg).
Proof.
  intros [I Hc] Hp Hk Hn. destruct (reg_update token_key _ _ [] p t t' I Hp (not_elem_of_nil p) Hk) as [I' Hv]. split; [by split|done].
Qed.

Lemma n_metadata_insert l p t t' :
  l !! p = Some t ->
  (n_metadata (<[p := t']> l) + (if has_metadata t then 1 else 0) =
   n_metadata l + (if has_metadata t' then 1 else 0))%nat.
Proof.
  intros Hp. rewrite insert_take_drop by (by eapply lookup_lt_Some). unfold n_metadata.
  rewrite <- (take_drop_middle l p t Hp) at 3. rewrite !filter_app, !filter_cons, !length_app.
  destruct (has_metadata t), (has_metadata t'); simpl; lia.
Qed.

Lemma observe_spec o reg h :
  registry_ok reg ->
  let '(r, reg', _) := observe o reg h in
  registry_ok reg' /\
  match r with
  | Ok _ => view reg' =
      match observed_mint o with
      | None => view reg
      | Some mint => <[mint_key mint :=
          apply_observation (default (new_token mint (observed_slot o)) (view reg !! mint_key mint)) o]> (view reg)
      end
  | Err e => view reg' = view reg /\ put_failure e
  end.
Proof.
  intros Hok. destruct o as [mint d slot|meta slot]; cbn [observe observed_mint observed_slot apply_observation].
  - unfold idx_token_registry_observe_balance. pose proof (find_or_create_spec reg mint slot h Hok) as Hs.
    destruct (find_or_create reg mint slot h) as [[[p|e] reg1] h1]; destruct Hs as [Hok1 Hs]; [|by split].
    destruct Hs as (Hp & Hk & Hv). rewrite (list_lookup_total_correct _ _ _ Hp).
    set (t := default _ _) in *. set (t' := set_decimals t d).
    assert (token_key t' = token_key t /\ has_metadata t' = has_metadata t) as [Hk' Hm']
      by (unfold t', set_decimals; by destruct (tk_decimals t)).
    destruct (token_update_ok reg1 p t t' (with_metadata reg1) Hok1 Hp Hk') as [H1 H2].
    { rewrite (reg_counter _ Hok1). pose proof (n_metadata_insert _ _ _ t' Hp) as Hn. rewrite Hm' in Hn. do 2 f_equal. lia. }
    split; [done|]. rewrite H2, Hv, Hk, insert_insert_eq. done.
  - unfold idx_token_registry_observe_metadata. destruct (md_mint meta) as [mint|]; [|by split].
    pose proof (find_or_create_spec reg mint slot h Hok) as Hs.
    destruct (find_or_create reg mint slot h) as [[[p|e] reg1] h1]; destruct Hs as [Hok1 Hs]; [|by split].
    destruct Hs as (Hp & Hk & Hv). rewrite (list_lookup_total_correct _ _ _ Hp). set (t := default _ _) in *.
    destruct (has_metadata t) eqn:Hm; [by split|].
    destruct (token_update_ok reg1 p t (set_metadata t meta) (u64 (with_metadata reg1 + 1)) Hok1 Hp eq_refl) as [H1 H2].
    { rewrite (reg_counter _ Hok1). pose proof (n_metadata_insert _ _ _ (set_metadata t meta) Hp) as Hn.
      rewrite Hm in Hn. cbn in Hn. rewrite u64_add_l. f_equal. lia. }
    split; [done|]. rewrite H2, Hv, Hk, insert_insert_eq. done.
Qed.

(** A run: the observations made, keeping those that succeeded. *)
Fixpoint observe_all (obs : list observation) (reg : idx_token_registry M) (h : heap)
    : list observation * idx_token_registry M :=
  match obs with
  | [] => ([], reg)
  | o :: obs' =>
      let '(r, reg1, h1) := observe o reg h in
      let '(seen, reg2) := observe_all obs' reg1 h1 in
      (match r with Ok _ => o :: seen | Err _ => seen end, reg2)
  end.

Definition describes (reg : idx_token_registry M) (seen : list observation) : Prop :=
  forall k, view reg !! k = describe k seen.

Lemma token_observe_describes o reg h seen :
  registry_ok reg -> describes reg seen ->
  let '(r, reg', _) := observe o reg h in
  registry_ok reg' /\ describes reg' (match r with Ok _ => seen ++ [o] | Err _ => seen end).
Proof.
  intros Hok Hd. pose proof (observe_spec o reg h Hok) as Hs.
  destruct (observe o reg h) as [[[[]|e] reg1] h1]; destruct Hs as [Hok1 Hs]; (split; [done|]).
  - intros k. rewrite Hs. destruct (observed_mint o) as [mint|] eqn:Hm.
    + destruct (decide (mint_key mint = k)) as [<-|Hk].
      * rewrite lookup_insert_eq, (token_describe_snoc _ seen o mint) by done. by rewrite <- Hd.
      * rewrite lookup_insert_ne by done. rewrite token_describe_skip; [apply Hd|]. unfold of_key. rewrite Hm. intros [= E]. done.
    + rewrite token_describe_skip; [apply Hd|]. unfold of_key. by rewrite Hm.
  - destruct Hs as [Hs _]. intros k. by rewrite Hs.
Qed.

Lemma token_observe_all_describes obs reg h seen :
  registry_ok reg -> describes reg seen ->
  let '(seen', reg') := observe_all obs reg h in
  registry_ok reg' /\ describes reg' (seen ++ seen') /\ seen' `sublist_of` obs.
Proof.
  revert reg h seen. induction obs as [|o obs IH]; intros reg h seen Hok Hd; cbn [observe_all].
  { rewrite app_nil_r. auto. }
  pose proof (token_observe_describes o reg h seen Hok Hd) as Ho. destruct (observe o reg h) as [[r reg1] h1].
  destruct Ho as [Hok1 Hd1]. specialize (IH reg1 h1 _ Hok1 Hd1). destruct (observe_all obs reg1 h1) as [seen' reg2].
  destruct IH as (H1 & H2 & H3). destruct r; (split; [done|]); (split; [|by constructor]).
  - by rewrite <- app_assoc in H2.
  - done.
Qed.

Lemma token_get_view reg mint : registry_ok reg -> idx_token_registry_get reg mint = view reg !! mint_key mint.
Proof.
  intros [I _]. unfold idx_token_registry_get. pose proof (reg_find token_key _ _ [] (mint_key mint) I) as Hf.
  destruct (m_get _ _) as [v|]; [|exact (eq_sym Hf)]. destruct Hf as (p & t & -> & Hp & _ & _ & Hv). unfold view. by rewrite Hv.
Qed.

(** ** Properties *)

(** The registry is its history: after any sequence of observations, with memory
    running out anywhere, the record of a mint is the one described by the
    observations that succeeded, in order: slot of the first, decimals of the first
    balance, strings of the first metadata, cut to the buffers.  A failed
    observation leaves no trace. *)
Theorem token_registry_history obs h :
  let '(seen, reg) := observe_all obs (idx_token_registry_init (M:=M)) h in
  seen `sublist_of` obs /\
  (forall mint, idx_token_registry_get reg mint = describe (mint_key mint) seen) /\
  idx_token_registry_count reg = Z.of_nat (base.size (view reg)).
Proof.
  destruct token_init_registry_ok as [Hok Hv].
  pose proof (token_observe_all_describes obs idx_token_registry_init h [] Hok ltac:(intros k; by rewrite Hv, lookup_empty)) as H'.
  destruct (observe_all _ _ _) as [seen reg]. destruct H' as (Hok' & Hd & Hs). split_and!; [done| |].
  - intros mint. rewrite token_get_view by done. apply Hd.
  - unfold idx_token_registry_count. apply (reg_count token_key _ _ []). apply Hok'.
Qed.

(** The registry's invariant holds along every run: one live record for each key
    of the table and none unreachable, so the destructor frees every record once and
    none twice, and [with_metadata] is the number of records with metadata. *)
Theorem token_registry_invariant obs h :
  let '(_, reg) := observe_all obs (idx_token_registry_init (M:=M)) h in
  registry_ok reg /\
  (idx_token_registry_free reg).2 ≡ₚ map Some (seq 0 (length (tokens reg))).
Proof.
  destruct token_init_registry_ok as [Hok Hv].
  pose proof (token_observe_all_describes obs idx_token_registry_init h [] Hok ltac:(intros k; by rewrite Hv, lookup_empty)) as H'.
  destruct (observe_all _ _ _) as [seen reg]. destruct H' as (Hok' & _ & _). split; [done|].
  unfold idx_token_registry_free. cbn [snd]. apply (reg_values_all token_key). apply Hok'.
Qed.
End refinement.

(** ** Witnesses *)

(** Two balances and two metadata of one mint, the first allocation refused. *)
Definition sample_observations : list observation :=
  [SawBalance IDX_PROGRAM_MEMO 9 3;
   SawMetadata (TokenMetadata (Some IDX_PROGRAM_MEMO) (Some (Some (lit "one"))) None (Some None)) 4;
   SawBalance IDX_PROGRAM_MEMO 6 5; SawBalance IDX_PROGRAM_MEMO 7 6;
   SawMetadata (TokenMetadata (Some IDX_PROGRAM_MEMO) (Some (Some (lit "two"))) None None) 7].

Lemma token_registry_history_witness :
  let '(seen, reg) := observe_all sample_observations (idx_token_registry_init (M:=idx_map ptr)) [false] in
  seen = tail sample_observations /\
  idx_token_registry_get reg IDX_PROGRAM_MEMO =
    Some (Token IDX_PROGRAM_MEMO (Some 6) (Some (lit "one")) None None 4 true).
Proof.
  pose proof (token_registry_history (M:=idx_map ptr) sample_observations [false]) as H.
  assert ((observe_all sample_observations (idx_token_registry_init (M:=idx_map ptr)) [false]).1 =
          tail sample_observations) as Hseen by (vm_compute; reflexivity).
  destruct (observe_all _ _ _) as [seen reg]. cbn [fst] in Hseen. subst seen. destruct H as (_ & H & _).
  split; [reflexivity|]. rewrite H. vm_compute. reflexivity.
Defined.

Lemma token_registry_invariant_witness :
  let '(_, reg) := observe_all sample_observations (idx_token_registry_init (M:=idx_map ptr)) [false] in
  registry_ok reg /\ (idx_token_registry_free reg).2 ≡ₚ [Some 0%nat].
Proof.
  pose proof (token_registry_invariant (M:=idx_map ptr) sample_observations [false]) as H.
  assert (length (tokens (observe_all sample_observations (idx_token_registry_init (M:=idx_map ptr)) [false]).2) = 1%nat)
    as Hl by (vm_compute; reflexivity).
  destruct (observe_all _ _ _) as [seen reg]. cbn [snd] in Hl. rewrite Hl in H. exact H.
Defined.
