(* ===== verification/Swap.v ===== *)
(** * swap.c: complete swap rows and the netted route

    What the venues state about a trade is resolved against the block: mints from the
    token balances, the missing amount from Raydium's log or the pool's vaults.  A
    field with a [has_] flag is an option; one the source reads without asking for
    the flag is the zero the decoder's [memset] left ([or_zero]).  The builder's
    array is the list of its rows, and the record of the route has its own type.

    A read past the accounts is undefined in the source and excluded by [tx_ok]. *)

From S2P Require Import Prelude Radix Base58 Bytes Base64 Types Json Wire.
From S2P Require Import Arena Block Walk Balance VenueTypes VenuePump VenueJupiter VenueRaydium Venue.
#[local] Open Scope Z_scope.

(** src/src/swap.c:12-12 [IDX_WSOL_DECIMALS] *)
Definition IDX_WSOL_DECIMALS : Z := 9.
(** src/src/swap.c:16-16 [MAX_ROUTE_MINTS] *)
Definition MAX_ROUTE_MINTS : Z := 24.

(** src/include/swap.h:48-53 [idx_amount_source] *)
Inductive idx_amount_source :=
  | IDX_AMOUNT_NONE
  | IDX_AMOUNT_EVENT
  | IDX_AMOUNT_RAYLOG
  | IDX_AMOUNT_DELTA.

(** src/src/swap.c:18-30 [idx_amount_source_name] *)
Definition idx_amount_source_name (source : idx_amount_source) : bytes :=
  match source with
  | IDX_AMOUNT_NONE => lit "none"
  | IDX_AMOUNT_EVENT => lit "event"
  | IDX_AMOUNT_RAYLOG => lit "raylog"
  | IDX_AMOUNT_DELTA => lit "delta"
  end.

(** src/include/swap.h:57-60 [idx_swap_row_kind] *)
Inductive idx_swap_row_kind := IDX_SWAP_POOL | IDX_SWAP_AGGREGATED.

#[export] Instance idx_swap_row_kind_eq_dec : EqDecision idx_swap_row_kind.
Proof. solve_decision. Defined.

(** src/include/swap.h:73-100 [idx_swap_row] *)
Record idx_swap_row := SwapRow {
  sr_kind : idx_swap_row_kind;
  sr_venue : idx_venue;
  sr_source : idx_amount_source;
  sr_at : stamp;
  sr_pool : option idx_pubkey;
  sr_user : option idx_pubkey;
  sr_input_mint : option idx_pubkey;
  sr_input_amount : option Z;
  sr_input_decimals : option Z;
  sr_output_mint : option idx_pubkey;
  sr_output_amount : option Z;
  sr_output_decimals : option Z
}.

Definition sizeof_swap_row : Z := 184.
Definition sizeof_raylog : Z := 24.

(** src/src/swap.c:33-37 [route_mint] *)
Record route_mint := RouteMint { rm_mint : idx_pubkey; in_sum : Z; out_sum : Z }.

(** src/src/swap.c:55-60 [builder]: the accumulation of the route. *)
Record route := Route {
  net : list route_mint;
  net_overflow : bool;
  saw_route : bool;
  route_top_index : Z
}.

(** src/src/swap.c:39-61 [builder] *)
Record builder := Builder {
  b_tx : idx_transaction;
  b_rows : list idx_swap_row;
  b_capacity : Z;
  b_at : stamp;
  raylogs : list idx_raydium_swap_log;
  raylog_next : nat;
  b_route : route
}.

Definition at_stamp (b : builder) (s : stamp) : builder :=
  Builder (b_tx b) (b_rows b) (b_capacity b) s (raylogs b) (raylog_next b) (b_route b).

(** A key or an amount whose flag is not asked for. *)
Definition key_or_zero (k : option idx_pubkey) : idx_pubkey := default IDX_PUBKEY_DEFAULT k.
Definition or_zero (a : option Z) : Z := default 0 a.

(** ** Resolution against the metadata *)

(** The first entry of [l] for a token account. *)
Definition entry_for (tx : idx_transaction) (account : idx_pubkey) (l : list idx_token_balance)
    : option idx_token_balance :=
  List.find (fun e => idx_pubkey_equal (account_key tx (Z.to_nat (tb_account_index e))) account) l.

(** src/src/swap.c:67-83 [token_balance_of] *)
Definition token_balance_of (tx : idx_transaction) (account : idx_pubkey) : option idx_token_balance :=
  match entry_for tx account (post_token_balances tx) with
  | Some e => Some e
  | None => entry_for tx account (pre_token_balances tx)
  end.

(** src/src/swap.c:86-98 [resolve_side_from_account]: the side's mint and decimals,
    both unset before. *)
Definition resolve_side_from_account (tx : idx_transaction) (account : idx_pubkey)
    : option idx_pubkey * option Z :=
  match token_balance_of tx account with
  | None => (None, None)
  | Some e => (Some (tb_mint e), Some (tb_decimals e))
  end.

(** src/src/swap.c:102-121 [decimals_of_mint] *)
Definition decimals_of_mint (tx : idx_transaction) (mint : idx_pubkey) : option Z :=
  if idx_pubkey_equal mint IDX_MINT_WSOL then Some IDX_WSOL_DECIMALS
  else tb_decimals <$>
    List.find (fun e => idx_pubkey_equal (tb_mint e) mint) (post_token_balances tx ++ pre_token_balances tx).

(** src/src/swap.c:126-153 [vault_delta]: the magnitude and the direction. *)
Definition vault_delta (tx : idx_transaction) (vault : idx_pubkey) : option (Z * bool) :=
  let pre_entry := entry_for tx vault (pre_token_balances tx) in
  let post_entry := entry_for tx vault (post_token_balances tx) in
  let pre := from_option tb_amount 0 pre_entry in
  let post := from_option tb_amount 0 post_entry in
  let found := bool_decide (is_Some pre_entry) || bool_decide (is_Some post_entry) in
  if negb found then None
  else
    let increased := pre <=? post in
    Some (if increased then u64 (post - pre) else u64 (pre - post), increased).

(** src/src/swap.c:156-173 [amount_from_vault_of_mint]: the loop over the vaults. *)
Fixpoint vault_of_mint (tx : idx_transaction) (vaults : list idx_pubkey) (mint : idx_pubkey) : option Z :=
  match vaults with
  | [] => None
  | vault :: vaults' =>
      match token_balance_of tx vault with
      | Some e =>
          if idx_pubkey_equal (tb_mint e) mint then
            match vault_delta tx vault with
            | Some (magnitude, _) => Some magnitude
            | None => vault_of_mint tx vaults' mint
            end
          else vault_of_mint tx vaults' mint
      | None => vault_of_mint tx vaults' mint
      end
  end.

(** src/src/swap.c:156-173 [amount_from_vault_of_mint] *)
Definition amount_from_vault_of_mint (tx : idx_transaction) (vault_a vault_b mint : idx_pubkey) : option Z :=
  vault_of_mint tx [vault_a; vault_b] mint.

(** ** ray_log *)

(** src/src/swap.c:183-188 [slice_find]: the loop from [i] on. *)
Fixpoint find_from (rounds i : nat) (hay needle : bytes) : Z :=
  match rounds with
  | O => size hay
  | S rounds' =>
      if Z.of_nat i + size needle <=? size hay then
        if memcmp_eq (drop i hay) needle (length needle) then Z.of_nat i
        else find_from rounds' (S i) hay needle
      else size hay
  end.

(** src/src/swap.c:178-189 [slice_find] *)
Definition slice_find (hay : idx_slice) (needle : bytes) : Z :=
  if (size needle =? 0) || (slice_len hay <? size needle) then slice_len hay
  else find_from (S (length (slice_bytes hay))) 0 (slice_bytes hay) needle.

(** src/src/swap.c:212-212 [MARKER] *)
Definition MARKER : bytes := lit "ray_log: ".

(** src/src/swap.c:213-235 [collect_raylogs]: one line. *)
Definition raylog_of_line (line : idx_slice) : option idx_raydium_swap_log :=
  let at_ := slice_find line MARKER in
  if at_ =? slice_len line then None
  else
    let start := at_ + size MARKER in
    let b64 := idx_slice_sub line start (slice_len line - start) in
    match idx_base64_decode b64 (Some 96) with
    | Err _ => None
    | Ok decoded =>
        match idx_raydium_swap_log_parse (idx_slice_make (Some decoded) (size decoded)) with
        | Ok parsed => Some parsed
        | Err _ => None
        end
    end.

(** src/src/swap.c:196-239 [collect_raylogs] *)
Definition collect_raylogs {A} `{ArenaOps A} (tx : idx_transaction) (arena : A)
    : result (list idx_raydium_swap_log) * A :=
  if size (logs tx) =? 0 then (Ok [], arena)
  else
    let '(raw, arena') := arena_calloc (size (logs tx)) sizeof_raylog arena in
    (_ ← raw; Ok (omap raylog_of_line (logs tx)), arena').

(** ** Pool rows *)

(** src/src/swap.c:245-259 [builder_row] *)
Definition builder_row (b : builder) (venue : idx_venue) (source : idx_amount_source) : option idx_swap_row :=
  if b_capacity b <=? size (b_rows b) then None
  else Some (SwapRow IDX_SWAP_POOL venue source (b_at b) None None None None None None None None).

(** src/src/swap.c:264-288 [normalize_pump_curve] *)
Definition normalize_pump_curve (tx : idx_transaction) (sw : idx_swap) (row : idx_swap_row) : idx_swap_row :=
  let input := key_or_zero (input_mint sw) in
  let output := key_or_zero (output_mint sw) in
  let token := if idx_pubkey_equal input IDX_MINT_WSOL then output else input in
  SwapRow (sr_kind row) (sr_venue row) (sr_source row) (sr_at row) (Some token) (user sw)
    (input_mint sw) (input_amount sw) (decimals_of_mint tx input)
    (output_mint sw) (output_amount sw) (decimals_of_mint tx output).

(** src/src/swap.c:295-314 [find_pump_amm_accounts]: the instructions it walks, all the
    top level first. *)
Definition all_instructions (tx : idx_transaction) : list idx_instruction :=
  instructions tx ++ concat (map inner_instructions_of (inner_instructions tx)).

(** src/src/swap.c:295-314 [find_pump_amm_accounts]; the accounts the pairing reads
    are there in every decoded transaction. *)
Fixpoint find_amm_accounts (tx : idx_transaction) (pool : idx_pubkey) (ixs : list idx_instruction)
    : option idx_pump_amm_accounts :=
  match ixs with
  | [] => None
  | ix :: ixs' =>
      match idx_venue_pump_amm_accounts tx ix with
      | Some (Some acc) =>
          if idx_pubkey_equal (pa_pool acc) pool then Some acc else find_amm_accounts tx pool ixs'
      | _ => find_amm_accounts tx pool ixs'
      end
  end.

(** src/src/swap.c:295-314 [find_pump_amm_accounts] *)
Definition find_pump_amm_accounts (tx : idx_transaction) (pool : idx_pubkey) : option idx_pump_amm_accounts :=
  find_amm_accounts tx pool (all_instructions tx).

(** src/src/swap.c:359-371 [normalize_pump_amm]: a side from its account. *)
Definition side_from_account (tx : idx_transaction) (account : option idx_pubkey) : option idx_pubkey * option Z :=
  match account with
  | Some account => resolve_side_from_account tx account
  | None => (None, None)
  end.

(** src/src/swap.c:317-323 [set_side_mint] *)
Definition set_side_mint (tx : idx_transaction) (mint : idx_pubkey) : option idx_pubkey * option Z :=
  (Some mint, decimals_of_mint tx mint).

(** src/src/swap.c:331-372 [normalize_pump_amm] *)
Definition normalize_pump_amm (tx : idx_transaction) (sw : idx_swap) (row : idx_swap_row) : idx_swap_row :=
  let '(input, output) :=
    match pool sw ≫= find_pump_amm_accounts tx with
    | Some acc =>
        let input_is_base :=
          match input_account sw with
          | Some account => idx_pubkey_equal account (pa_user_base_account acc)
          | None => false
          end in
        let input_mint := if input_is_base then pa_base_mint acc else pa_quote_mint acc in
        let output_mint := if input_is_base then pa_quote_mint acc else pa_base_mint acc in
        (set_side_mint tx input_mint, set_side_mint tx output_mint)
    | None => (side_from_account tx (input_account sw), side_from_account tx (output_account sw))
    end in
  SwapRow (sr_kind row) (sr_venue row) (sr_source row) (sr_at row) (pool sw) (user sw)
    input.1 (input_amount sw) input.2 output.1 (output_amount sw) output.2.

(** src/src/swap.c:376-398 [resolve_both_mints]: one side. *)
Definition resolve_mint (tx : idx_transaction) (mint account : option idx_pubkey) : option idx_pubkey * option Z :=
  match mint with
  | Some mint => set_side_mint tx mint
  | None => side_from_account tx account
  end.

(** src/src/swap.c:406-451 [normalize_raydium_amm]: the row and the log after it. *)
Definition normalize_raydium_amm (b : builder) (sw : idx_swap) (row : idx_swap_row) : idx_swap_row * nat :=
  let input := resolve_mint (b_tx b) (input_mint sw) (input_account sw) in
  let output := resolve_mint (b_tx b) (output_mint sw) (output_account sw) in
  let filled source input_amount output_amount :=
    SwapRow (sr_kind row) (sr_venue row) source (sr_at row) (pool sw) (user sw)
      input.1 input_amount input.2 output.1 output_amount output.2 in
  let fixed := match input_amount sw with Some a => a | None => or_zero (output_amount sw) end in
  let by_delta :=
    let side mint := match pool_accounts sw with
                     | Some (a, b') => mint ≫= amount_from_vault_of_mint (b_tx b) a b'
                     | None => None
                     end in
    filled IDX_AMOUNT_DELTA
      (match input_amount sw with Some a => Some a | None => side input.1 end)
      (match output_amount sw with Some a => Some a | None => side output.1 end) in
  match raylogs b !! raylog_next b with
  | Some log =>
      let log_fixed := if input_amount sw is Some _ then amount_in log else amount_out log in
      if (fixed =? 0) || (log_fixed =? fixed)
      then (filled IDX_AMOUNT_RAYLOG (Some (amount_in log)) (Some (amount_out log)), S (raylog_next b))
      else (by_delta, S (raylog_next b))
  | None => (by_delta, raylog_next b)
  end.

(** src/src/swap.c:458-486 [normalize_raydium_clmm] *)
Definition normalize_raydium_clmm (tx : idx_transaction) (sw : idx_swap) (row : idx_swap_row) : idx_swap_row :=
  let input := resolve_mint tx (input_mint sw) (input_account sw) in
  let output := resolve_mint tx (output_mint sw) (output_account sw) in
  let side (amount : option Z) vault := match amount with Some a => Some a | None => fst <$> vault_delta tx vault end in
  let amounts := match pool_accounts sw with
                 | None => (input_amount sw, output_amount sw)
                 | Some (a, b) => (side (input_amount sw) a, side (output_amount sw) b)
                 end in
  SwapRow (sr_kind row) (sr_venue row) IDX_AMOUNT_DELTA (sr_at row) (pool sw) (user sw)
    input.1 amounts.1 input.2 output.1 amounts.2 output.2.

(** ** Route netting *)

(** src/src/swap.c:503-508 [add_route_leg]: the slot of a mint, updated; [None] when
    there is none. *)
Fixpoint update_slot (net : list route_mint) (mint : idx_pubkey) (f : route_mint -> route_mint)
    : option (list route_mint) :=
  match net with
  | [] => None
  | m :: net' =>
      if idx_pubkey_equal (rm_mint m) mint then Some (f m :: net')
      else cons m <$> update_slot net' mint f
  end.

(** src/src/swap.c:519-523 [add_route_leg]: adding to a total. *)
Definition add_amount (is_input : bool) (amount : Z) (m : route_mint) : route_mint :=
  if is_input then RouteMint (rm_mint m) (u64 (in_sum m + amount)) (out_sum m)
  else RouteMint (rm_mint m) (in_sum m) (u64 (out_sum m + amount)).

(** src/src/swap.c:502-524 [add_route_leg]: one side; [None] when the mints are too
    many. *)
Definition add_side (net : list route_mint) (is_input : bool) (mint : idx_pubkey) (amount : Z)
    : option (list route_mint) :=
  match update_slot net mint (add_amount is_input amount) with
  | Some net' => Some net'
  | None =>
      if MAX_ROUTE_MINTS <=? size net then None
      else Some (net ++ [add_amount is_input amount (RouteMint mint 0 0)])
  end.

(** src/src/swap.c:491-525 [add_route_leg] *)
Definition add_route_leg (r : route) (sw : idx_swap) : route :=
  match add_side (net r) true (key_or_zero (input_mint sw)) (or_zero (input_amount sw)) with
  | None => Route (net r) true true (route_top_index r)
  | Some net1 =>
      match add_side net1 false (key_or_zero (output_mint sw)) (or_zero (output_amount sw)) with
      | None => Route net1 true true (route_top_index r)
      | Some net2 => Route net2 (net_overflow r) true (route_top_index r)
      end
  end.

(** src/src/swap.c:538-558 [flush_route]: the two ends found by the loop. *)
Fixpoint route_ends (net : list route_mint) (input output : option idx_pubkey) (input_net output_net : Z)
    : option idx_pubkey * option idx_pubkey * Z * Z :=
  match net with
  | [] => (input, output, input_net, output_net)
  | m :: net' =>
      if out_sum m <? in_sum m then
        let n := u64 (in_sum m - out_sum m) in
        if input_net <? n then route_ends net' (Some (rm_mint m)) output n output_net
        else route_ends net' input output input_net output_net
      else if in_sum m <? out_sum m then
        let n := u64 (out_sum m - in_sum m) in
        if output_net <? n then route_ends net' input (Some (rm_mint m)) input_net n
        else route_ends net' input output input_net output_net
      else route_ends net' input output input_net output_net
  end.

(** src/src/swap.c:533-585 [flush_route]: the row appended, if any. *)
Definition route_row (b : builder) : option idx_swap_row :=
  let r := b_route b in
  if negb (saw_route r) || net_overflow r || (b_capacity b <=? size (b_rows b)) then None
  else
    match route_ends (net r) None None 0 0 with
    | (Some input, Some output, input_net, output_net) =>
        Some (SwapRow IDX_SWAP_AGGREGATED IDX_VENUE_JUPITER IDX_AMOUNT_EVENT
                (Stamp (route_top_index r) 0 false) None
                (match accounts (b_tx b) with [] => None | a :: _ => Some (acc_pubkey a) end)
                (Some input) (Some input_net) (decimals_of_mint (b_tx b) input)
                (Some output) (Some output_net) (decimals_of_mint (b_tx b) output))
    | _ => None
    end.

(** src/src/swap.c:533-585 [flush_route] *)
Definition flush_route (b : builder) : list idx_swap_row :=
  match route_row b with Some row => b_rows b ++ [row] | None => b_rows b end.

(** ** The walk *)

(** src/src/swap.c:614-631 [normalize_instruction]: the switch. *)
Definition normalize_row (b : builder) (sw : idx_swap) (row : idx_swap_row) : idx_swap_row * nat :=
  match venue sw with
  | IDX_VENUE_PUMP_CURVE => (normalize_pump_curve (b_tx b) sw row, raylog_next b)
  | IDX_VENUE_PUMP_AMM => (normalize_pump_amm (b_tx b) sw row, raylog_next b)
  | IDX_VENUE_RAYDIUM_AMM_V4 => normalize_raydium_amm b sw row
  | IDX_VENUE_RAYDIUM_CLMM | IDX_VENUE_RAYDIUM_CPMM => (normalize_raydium_clmm (b_tx b) sw row, raylog_next b)
  | IDX_VENUE_JUPITER | IDX_VENUE_NONE => (row, raylog_next b)
  end.

(** src/src/swap.c:589-634 [normalize_instruction] *)
Definition normalize_instruction (b : builder) (ix : idx_instruction) : result builder :=
  match idx_swap_decode (b_tx b) ix with
  | Err IDX_ERR_NOT_FOUND => Ok b
  | Err e => Err e
  | Ok sw =>
      if negb (idx_venue_is_pool (venue sw)) then
        let r := b_route b in
        let top := if saw_route r then route_top_index r else instruction_index (b_at b) in
        Ok (Builder (b_tx b) (b_rows b) (b_capacity b) (b_at b) (raylogs b) (raylog_next b)
              (add_route_leg (Route (net r) (net_overflow r) (saw_route r) top) sw))
      else
        match builder_row b (venue sw) IDX_AMOUNT_EVENT with
        | None => IDX_FAIL IDX_ERR_INTERNAL
        | Some row =>
            let '(row, next) := normalize_row b sw row in
            Ok (Builder (b_tx b) (b_rows b ++ [row]) (b_capacity b) (b_at b) (raylogs b) next (b_route b))
        end
  end.

(** src/src/swap.c:696-699 [idx_swap_normalize]: the loop over a group. *)
Fixpoint normalize_group (b : builder) (i j : nat) (ixs : list idx_instruction) : result builder :=
  match ixs with
  | [] => Ok b
  | ix :: ixs' =>
      b ← normalize_instruction (at_stamp b (Stamp (u16 (Z.of_nat i)) (u16 (Z.of_nat j)) true)) ix;
      normalize_group b i (S j) ixs'
  end.

(** src/src/swap.c:685-700 [idx_swap_normalize]: the loop over the top level. *)
Fixpoint normalize_all (b : builder) (i : nat) (ixs : list idx_instruction) : result builder :=
  match ixs with
  | [] => Ok b
  | ix :: ixs' =>
      b ← normalize_instruction (at_stamp b (Stamp (u16 (Z.of_nat i)) 0 false)) ix;
      b ← match inner_group (b_tx b) i with
          | None => Ok b
          | Some group => normalize_group b i 0 (inner_instructions_of group)
          end;
      normalize_all b (S i) ixs'
  end.

(** The builder before the walk. *)
Definition new_builder (tx : idx_transaction) (capacity : Z) (raylogs : list idx_raydium_swap_log) : builder :=
  Builder tx [] capacity (Stamp 0 0 false) raylogs 0 (Route [] false false 0).

(** src/src/swap.c:655-710 [idx_swap_normalize] *)
Definition idx_swap_normalize {A} `{ArenaOps A} (tx : idx_transaction) (arena : A)
    : result (list idx_swap_row) * A :=
  if negb (has_meta tx) || negb (success tx) || bool_decide (accounts tx = []) then (Ok [], arena)
  else
    let total := instruction_total tx in
    if total =? 0 then (Ok [], arena)
    else
      let '(raw, arena1) := arena_calloc (u64 (total + 1)) sizeof_swap_row arena in
      match raw with
      | Err e => (Err e, arena1)
      | Ok _ =>
          let '(raylogs, arena2) := collect_raylogs tx arena1 in
          (raylogs ← raylogs;
           b ← normalize_all (new_builder tx (u64 (total + 1)) raylogs) 0 (instructions tx);
           Ok (flush_route b), arena2)
      end.

(** ** The walk as a fold over the executed instructions *)

Definition normalize_step (b : builder) (x : stamp * idx_instruction) : result builder :=
  normalize_instruction (at_stamp b x.1) x.2.

Lemma step_tx b x b' : normalize_step b x = Ok b' -> b_tx b' = b_tx b.
Proof.
  unfold normalize_step, normalize_instruction. destruct (idx_swap_decode _ _) as [sw|[]]; try (by intros [= <-]); try done.
  destruct (negb _); [by intros [= <-]|]. destruct (builder_row _ _ _); [|done].
  destruct (normalize_row _ _ _). by intros [= <-].
Qed.

Ltac step_unfold :=
  match goal with |- context [normalize_step ?b (?s, ?ix)] =>
    change (normalize_step b (s, ix)) with (normalize_instruction (at_stamp b s) ix) end.

Lemma normalize_group_walk b i j ixs : normalize_group b i j ixs = run_walk normalize_step (executed_group i j ixs) b.
Proof.
  revert b j. induction ixs as [|ix ixs IH]; intros b j; cbn [normalize_group executed_group run_walk]; [done|].
  step_unfold.
  destruct (normalize_instruction _ ix); [apply IH|done].
Qed.

Lemma run_walk_tx l b b' : run_walk normalize_step l b = Ok b' -> b_tx b' = b_tx b.
Proof.
  revert b. induction l as [|x l IH]; intros b; simpl; [by intros [= <-]|].
  destruct (normalize_step b x) as [b1|] eqn:E; [|done]. apply step_tx in E. simpl. intros ->%IH. done.
Qed.

Lemma normalize_all_walk b i ixs :
  normalize_all b i ixs = run_walk normalize_step (executed_from (b_tx b) i ixs) b.
Proof.
  revert b i. induction ixs as [|ix ixs IH]; intros b i; cbn [normalize_all executed_from run_walk]; [done|].
  step_unfold. destruct (normalize_instruction _ ix) as [b1|] eqn:E1; [|done].
  cbn [mbind IDX_TRY]. rewrite run_walk_app. apply (step_tx b (_, ix)) in E1. rewrite <- E1. unfold inner_of.
  destruct (inner_group (b_tx b1) i) as [g|]; [|apply IH]. rewrite normalize_group_walk.
  destruct (run_walk _ _ b1) as [b2|] eqn:E2; [|done]. apply run_walk_tx in E2. cbn [mbind IDX_TRY]. by rewrite IH, E2.
Qed.

(** ** What a pool row says *)

(** The swaps of a sequence, each with its place. *)
Definition swap_of (tx : idx_transaction) (x : stamp * idx_instruction) : option (stamp * idx_swap) :=
  match idx_swap_decode tx x.2 with Ok sw => Some (x.1, sw) | Err _ => None end.

Definition pool_swap (x : stamp * idx_swap) : bool := idx_venue_is_pool (venue x.2).

Definition pool_swaps (tx : idx_transaction) (l : list (stamp * idx_instruction)) : list (stamp * idx_swap) :=
  filter (fun x => pool_swap x = true) (omap (swap_of tx) l).

Definition route_legs (tx : idx_transaction) (l : list (stamp * idx_instruction)) : list (stamp * idx_swap) :=
  filter (fun x => pool_swap x = false) (omap (swap_of tx) l).

(** An amount the instruction fixed, other than 0, is the row's. *)
Definition fixed_kept (sw : idx_swap) (row : idx_swap_row) : Prop :=
  match input_amount sw, output_amount sw with
  | Some a, _ => a <> 0 -> sr_input_amount row = Some a
  | None, Some a => a <> 0 -> sr_output_amount row = Some a
  | None, None => True
  end.

(** The row of a swap: where it ran, its venue, its trader, its pool (a curve's is
    its token), and every amount the venue stated. *)
Definition row_for (x : stamp * idx_swap) (row : idx_swap_row) : Prop :=
  let sw := x.2 in
  sr_kind row = IDX_SWAP_POOL /\ sr_at row = x.1 /\ sr_venue row = venue sw /\ sr_user row = user sw /\
  (if bool_decide (venue sw = IDX_VENUE_PUMP_CURVE)
   then sr_pool row = Some (if idx_pubkey_equal (key_or_zero (input_mint sw)) IDX_MINT_WSOL
                            then key_or_zero (output_mint sw) else key_or_zero (input_mint sw))
   else sr_pool row = pool sw) /\
  (if bool_decide (venue sw = IDX_VENUE_RAYDIUM_AMM_V4) then fixed_kept sw row
   else (forall a, input_amount sw = Some a -> sr_input_amount row = Some a) /\
        (forall a, output_amount sw = Some a -> sr_output_amount row = Some a)).

Lemma raydium_kept b sw row : fixed_kept sw (normalize_raydium_amm b sw row).1.
Proof.
  unfold normalize_raydium_amm, fixed_kept. destruct (raylogs b !! raylog_next b) as [log|].
  - destruct (input_amount sw) as [a|]; cbn [default or_zero].
    + destruct (Z.eqb_spec a 0), (Z.eqb_spec (amount_in log) a); cbn; intros; congruence.
    + destruct (output_amount sw) as [a|]; [|done]. cbn [or_zero default from_option id].
      destruct (Z.eqb_spec a 0), (Z.eqb_spec (amount_out log) a); cbn; intros; congruence.
  - destruct (input_amount sw); [done|]. by destruct (output_amount sw).
Qed.

Lemma clmm_kept tx sw row :
  (forall a, input_amount sw = Some a -> sr_input_amount (normalize_raydium_clmm tx sw row) = Some a) /\
  (forall a, output_amount sw = Some a -> sr_output_amount (normalize_raydium_clmm tx sw row) = Some a).
Proof.
  unfold normalize_raydium_clmm. destruct (pool_accounts sw) as [[a b]|]; cbn; split; intros x Hx; by rewrite Hx.
Qed.

Lemma normalize_row_for b sw row :
  idx_venue_is_pool (venue sw) = true -> sr_kind row = IDX_SWAP_POOL -> sr_venue row = venue sw ->
  row_for (sr_at row, sw) (normalize_row b sw row).1.
Proof.
  intros Hp Hk Hv. unfold row_for, normalize_row. cbn [fst snd]. destruct (venue sw) eqn:E; try discriminate Hp.
  - repeat (rewrite ?bool_decide_true by done; rewrite ?bool_decide_false by done). cbn [fst]. split_and!; auto.
  - repeat (rewrite ?bool_decide_true by done; rewrite ?bool_decide_false by done). cbn [fst].
    unfold normalize_pump_amm. destruct (pool sw ≫= _); split_and!; auto.
  - rewrite bool_decide_false by done. rewrite bool_decide_true by done.
    pose proof (raydium_kept b sw row) as Hkept. unfold normalize_raydium_amm in *.
    destruct (raylogs b !! raylog_next b); [destruct (_ || _)|]; split_and!; auto.
  - repeat (rewrite ?bool_decide_true by done; rewrite ?bool_decide_false by done). cbn [fst].
    split_and!; auto; apply clmm_kept.
  - repeat (rewrite ?bool_decide_true by done; rewrite ?bool_decide_false by done). cbn [fst].
    split_and!; auto; apply clmm_kept.
Qed.

(** The route of a sequence of legs. *)
Definition add_leg (r : route) (x : stamp * idx_swap) : route :=
  add_route_leg (Route (net r) (net_overflow r) (saw_route r)
                   (if saw_route r then route_top_index r else instruction_index x.1)) x.2.

Definition route_of (legs : list (stamp * idx_swap)) : route := foldl add_leg (Route [] false false 0) legs.

(** The invariant of the walk: the rows are those of the pool swaps met, and the
    route that of the legs met. *)
Definition walk_inv (tx : idx_transaction) (capacity : Z) (past : list (stamp * idx_instruction)) (b : builder) : Prop :=
  b_tx b = tx /\ b_capacity b = capacity /\ b_route b = route_of (route_legs tx past) /\
  Forall2 row_for (pool_swaps tx past) (b_rows b).

Lemma pool_swaps_length tx l : (length (pool_swaps tx l) <= length l)%nat.
Proof.
  unfold pool_swaps. etrans; [apply length_filter|apply omap_length_le].
Qed.

Lemma omap_swaps_snoc tx past x :
  omap (swap_of tx) (past ++ [x]) = omap (swap_of tx) past ++ match swap_of tx x with Some y => [y] | None => [] end.
Proof. rewrite omap_app. cbn. by destruct (swap_of tx x). Qed.

Lemma walk_step tx capacity whole past x rest b (P : idx_status -> Prop) :
  size whole < capacity -> past ++ x :: rest = whole -> walk_inv tx capacity past b ->
  (forall e, idx_swap_decode tx x.2 = Err e -> e <> IDX_ERR_NOT_FOUND -> P e) ->
  match normalize_step b x with Ok b' => walk_inv tx capacity (past ++ [x]) b' | Err e => P e end.
Proof.
  intros Hcap Hw (Ht & Hc & Hr & Hrows) Herr. unfold normalize_step, normalize_instruction. cbn [at_stamp b_tx]. rewrite Ht.
  destruct (idx_swap_decode tx x.2) as [sw|e] eqn:E.
  - assert (swap_of tx x = Some (x.1, sw)) as Hs by (unfold swap_of; by rewrite E).
    destruct (idx_venue_is_pool (venue sw)) eqn:Hp; cbn [negb].
    + unfold builder_row. cbn [at_stamp b_capacity b_rows b_at].
      rewrite (proj2 (Z.leb_gt _ _)).
      2: { rewrite Hc. apply Forall2_length in Hrows. pose proof (pool_swaps_length tx past). rewrite <- Hw in Hcap.
           unfold size in *. rewrite length_app in Hcap. simpl in Hcap. lia. }
      set (row := SwapRow IDX_SWAP_POOL _ _ _ _ _ _ _ _ _ _ _).
      pose proof (normalize_row_for (at_stamp b x.1) sw row Hp eq_refl eq_refl) as Hfor.
      destruct (normalize_row _ sw row) as [row' next]. cbn [fst] in Hfor.
      split_and!; [done|done|..]; cbn [b_route b_rows at_stamp]; unfold route_legs, pool_swaps;
        rewrite omap_swaps_snoc, Hs; rewrite filter_app.
      * rewrite filter_cons_False by (unfold pool_swap; cbn; congruence). rewrite filter_nil, app_nil_r. done.
      * rewrite filter_cons_True by (unfold pool_swap; cbn; congruence). rewrite filter_nil.
        apply Forall2_app; [done|]. constructor; [exact Hfor|constructor].
    + split_and!; [done|done|..]; cbn [b_route b_rows at_stamp b_at]; unfold route_legs, pool_swaps;
        rewrite omap_swaps_snoc, Hs; rewrite filter_app.
      * rewrite filter_cons_True by (unfold pool_swap; cbn; congruence). rewrite filter_nil.
        unfold route_of. rewrite foldl_app. cbn [foldl]. unfold add_leg at 1. cbn [fst snd]. by rewrite Hr.
      * rewrite filter_cons_False by (unfold pool_swap; cbn; congruence). by rewrite filter_nil, app_nil_r.
  - assert (swap_of tx x = None) as Hs by (unfold swap_of; by rewrite E).
    assert (walk_inv tx capacity (past ++ [x]) (at_stamp b x.1)) as Hskip.
    { split_and!; [done|done|..]; cbn [b_route b_rows at_stamp]; unfold route_legs, pool_swaps;
        rewrite omap_swaps_snoc, Hs; by rewrite app_nil_r. }
    destruct e; try done; by apply Herr.
Qed.

(** ** The totals of a route *)

(** One end of a leg: whether it is the input, its mint, its amount. *)
Definition side := (bool * idx_pubkey * Z)%type.

Definition sides_of (sw : idx_swap) : list side :=
  [(true, key_or_zero (input_mint sw), or_zero (input_amount sw));
   (false, key_or_zero (output_mint sw), or_zero (output_amount sw))].

Definition all_sides (legs : list (stamp * idx_swap)) : list side := concat (map (sides_of ∘ snd) legs).

(** What the sides of one direction add up to for a mint. *)
Definition side_total (is_input : bool) (sides : list side) (m : idx_pubkey) : Z :=
  foldr (fun x acc => (if bool_decide (x.1.1 = is_input /\ x.1.2 = m) then x.2 else 0) + acc) 0 sides.

Definition side_ok (x : side) : Prop := size (pubkey_bytes x.1.2) = 32 /\ 0 <= x.2.

Definition slot (net : list route_mint) (m : idx_pubkey) : option route_mint :=
  List.find (fun s => bool_decide (rm_mint s = m)) net.

Definition key32 (k : idx_pubkey) : Prop := size (pubkey_bytes k) = 32.

Lemma key32_equal a b : key32 a -> key32 b -> idx_pubkey_equal a b = bool_decide (a = b).
Proof.
  unfold key32, size. intros Ha Hb. unfold idx_pubkey_equal, memcmp_eq, IDX_PUBKEY_LEN.
  rewrite !take_ge by lia. apply bool_decide_ext. destruct a, b. simpl. split; [by intros ->|by intros [=]].
Qed.

Lemma update_slot_spec net mint f :
  Forall (fun s => key32 (rm_mint s)) net -> key32 mint -> (forall s, rm_mint (f s) = rm_mint s) ->
  match slot net mint with
  | None => update_slot net mint f = None
  | Some s => exists net', update_slot net mint f = Some net' /\ map rm_mint net' = map rm_mint net /\
      (forall m, slot net' m = if decide (m = mint) then Some (f s) else slot net m)
  end.
Proof.
  intros Hnet Hm Hf. induction Hnet as [|s net Hs Hnet IH]; [done|]. cbn [update_slot].
  rewrite key32_equal by done. unfold slot at 1. cbn [List.find]. case_bool_decide as E.
  - exists (f s :: net). split_and!; [done|simpl; by rewrite Hf|]. intros m. unfold slot. cbn [List.find]. rewrite Hf, E.
    destruct (decide (m = mint)) as [->|Hne]; [by rewrite bool_decide_true|by rewrite !bool_decide_false by congruence].
  - fold (slot net mint). destruct (slot net mint) as [t|]; [|by rewrite IH].
    destruct IH as (net' & -> & Hk & Hl). exists (s :: net'). split_and!; [done|simpl; by rewrite Hk|].
    intros m. unfold slot. cbn [List.find]. case_bool_decide as Es; [|apply Hl].
    rewrite decide_False by congruence. done.
Qed.

Lemma slot_app net s m : slot (net ++ [s]) m = match slot net m with Some t => Some t | None => slot [s] m end.
Proof. unfold slot. induction net as [|t net IH]; simpl; [done|]. case_bool_decide; [done|apply IH]. Qed.

Lemma slot_In net m s : NoDup (map rm_mint net) -> slot net m = Some s <-> s ∈ net /\ rm_mint s = m.
Proof.
  intros Hnd. split.
  - intros [H1 H2%bool_decide_eq_true]%find_some. by rewrite list_elem_of_In.
  - intros [Hin <-]. induction net as [|t net IH]; [by apply elem_of_nil in Hin|].
    apply NoDup_cons in Hnd as [Ht Hnd]. unfold slot. cbn [List.find]. apply elem_of_cons in Hin as [->|Hin]; [by rewrite bool_decide_true|].
    rewrite bool_decide_false; [by apply IH|]. intros E. apply Ht. rewrite E. apply list_elem_of_In, in_map. by apply list_elem_of_In.
Qed.

Lemma slot_None net m : slot net m = None -> m ∉ map rm_mint net.
Proof.
  intros Hs Hin. apply list_elem_of_In, in_map_iff in Hin as (s & <- & Hin). eapply find_none in Hs; [|exact Hin].
  by rewrite bool_decide_true in Hs.
Qed.

(** The totals hold what the sides add up to, modulo the width. *)
Definition net_inv (sides : list side) (net : list route_mint) : Prop :=
  NoDup (map rm_mint net) /\ Forall (fun s => key32 (rm_mint s)) net /\
  forall m, default (RouteMint m 0 0) (slot net m) =
            RouteMint m (u64 (side_total true sides m)) (u64 (side_total false sides m)).

Lemma side_total_snoc b sides x m :
  side_total b (sides ++ [x]) m = side_total b sides m + (if bool_decide (x.1.1 = b /\ x.1.2 = m) then x.2 else 0).
Proof. unfold side_total. induction sides as [|y sides IH]; simpl; [lia|]. rewrite IH. lia. Qed.

Lemma add_side_inv sides net x net' :
  net_inv sides net -> side_ok x -> add_side net x.1.1 x.1.2 x.2 = Some net' -> net_inv (sides ++ [x]) net'.
Proof.
  intros (Hnd & Hk & Ht) [Hx _]. destruct x as [[b mint] amount]. cbn [fst snd] in *. unfold add_side.
  assert (forall s, rm_mint (add_amount b amount s) = rm_mint s) as Hf by (by destruct b).
  assert (forall m s, (forall m', rm_mint s = m' -> s = RouteMint m' (u64 (side_total true sides m')) (u64 (side_total false sides m'))) ->
    rm_mint s = mint -> m = mint -> add_amount b amount s =
      RouteMint m (u64 (side_total true (sides ++ [(b, mint, amount)]) m)) (u64 (side_total false (sides ++ [(b, mint, amount)]) m))) as Hadd.
  { intros m s Hs Hm ->. rewrite (Hs mint Hm), !side_total_snoc. cbn [fst snd]. unfold add_amount.
    destruct b; cbn [rm_mint in_sum out_sum].
    - rewrite bool_decide_true by done. rewrite bool_decide_false by (by intros []). by rewrite u64_add_l, Z.add_0_r.
    - rewrite (bool_decide_false (false = true /\ _)) by (by intros []). rewrite bool_decide_true by done. by rewrite u64_add_l, Z.add_0_r. }
  assert (forall m, m <> mint -> forall b', side_total b' (sides ++ [(b, mint, amount)]) m = side_total b' sides m) as Hother.
  { intros m Hm b'. rewrite side_total_snoc. cbn [fst snd]. rewrite bool_decide_false by (by intros [_ E]). lia. }
  pose proof (update_slot_spec net mint (add_amount b amount) Hk Hx Hf) as Hu.
  destruct (slot net mint) as [s|] eqn:Es.
  - destruct Hu as (net1 & -> & Hm1 & Hs1). intros [= <-]. split_and!.
    + by rewrite Hm1.
    + assert (Forall key32 (map rm_mint net1)) as H by (rewrite Hm1; apply Forall_map; exact Hk).
      exact (proj1 (Forall_map rm_mint key32 net1) H).
    + intros m. rewrite Hs1. specialize (Ht m). destruct (decide (m = mint)) as [->|Hne].
      * cbn [default]. rewrite Es in Ht. cbn [default from_option id] in Ht. apply Hadd; [|by rewrite Ht|done].
        intros m' <-. rewrite Ht. done.
      * by rewrite !Hother.
  - rewrite Hu. destruct (_ <=? _); [done|]. intros [= <-]. apply slot_None in Es as Hn. split_and!.
    + rewrite map_app, NoDup_app. split_and!; [done| |apply NoDup_singleton]. cbn [map]. rewrite Hf. cbn [rm_mint].
      intros m Hm ->%list_elem_of_singleton. done.
    + apply Forall_app. split; [done|]. constructor; [by rewrite Hf|constructor].
    + intros m. rewrite slot_app. specialize (Ht m). destruct (slot net m) as [t|] eqn:Et.
      * assert (m <> mint) as Hne by congruence. cbn [default]. by rewrite !Hother.
      * unfold slot. cbn [List.find]. rewrite Hf. cbn [rm_mint default] in *. case_bool_decide as Em; subst.
        -- cbn [default from_option id]. apply Hadd; [|done|done]. cbn [rm_mint]. intros m' <-. exact Ht.
        -- rewrite !Hother by done. exact Ht.
Qed.

Definition legs_ok (legs : list (stamp * idx_swap)) : Prop := Forall side_ok (all_sides legs).

Lemma all_sides_snoc legs x : all_sides (legs ++ [x]) = all_sides legs ++ sides_of x.2.
Proof. unfold all_sides. by rewrite map_app, concat_app. Qed.

Lemma route_of_snoc legs x : route_of (legs ++ [x]) = add_leg (route_of legs) x.
Proof. unfold route_of. by rewrite foldl_app. Qed.

Lemma route_of_inv legs :
  legs_ok legs -> net_overflow (route_of legs) = false -> net_inv (all_sides legs) (net (route_of legs)).
Proof.
  induction legs as [|x legs IH] using rev_ind.
  - intros _ _. split_and!; [constructor|constructor|]. done.
  - unfold legs_ok. rewrite all_sides_snoc, Forall_app, route_of_snoc. intros [Hok Hx].
    unfold sides_of in Hx. apply Forall_cons in Hx as [Hx1 Hx2]. apply Forall_cons in Hx2 as [Hx2 _].
    unfold add_leg, add_route_leg. cbn [net net_overflow saw_route].
    destruct (add_side _ true _ _) as [net1|] eqn:E1; [|done]. destruct (add_side net1 false _ _) as [net2|] eqn:E2; [|done].
    cbn [net_overflow net]. intros Ho. specialize (IH Hok Ho).
    pose proof (add_side_inv _ _ (true, _, _) _ IH Hx1 E1) as H1. pose proof (add_side_inv _ _ (false, _, _) _ H1 Hx2 E2) as H2.
    rewrite <- app_assoc in H2. exact H2.
Qed.

Lemma route_of_saw legs : saw_route (route_of legs) = negb (bool_decide (legs = [])).
Proof.
  destruct legs as [|x legs _] using rev_ind; [done|]. rewrite route_of_snoc, bool_decide_false by (by destruct legs).
  unfold add_leg, add_route_leg. destruct (add_side _ _ _ _) as [net1|]; [|done]. by destruct (add_side net1 _ _ _).
Qed.

(** The loop finds the largest net of each direction. *)
Lemma route_ends_spec net input output a b :
  Forall (fun s => is_u64 (in_sum s) /\ is_u64 (out_sum s)) net -> 0 <= a -> 0 <= b ->
  let '(i, o, a', b') := route_ends net input output a b in
  a <= a' /\ b <= b' /\
  (i = input /\ a' = a \/ exists s, s ∈ net /\ i = Some (rm_mint s) /\ a' = in_sum s - out_sum s /\ 0 < a') /\
  (o = output /\ b' = b \/ exists s, s ∈ net /\ o = Some (rm_mint s) /\ b' = out_sum s - in_sum s /\ 0 < b') /\
  Forall (fun s => in_sum s - out_sum s <= a' /\ out_sum s - in_sum s <= b') net.
Proof.
  intros Hu. revert input output a b. induction Hu as [|s net [H1 H2] Hu IH]; intros input output a b Ha Hb; cbn [route_ends].
  { split_and!; auto; lia. }
  unfold is_u64 in H1, H2.
  assert (forall i' o' x y, 0 <= x -> 0 <= y ->
    let '(i, o, a', b') := route_ends net i' o' x y in
    x <= a' /\ y <= b' /\
    (i = i' /\ a' = x \/ exists t, t ∈ s :: net /\ i = Some (rm_mint t) /\ a' = in_sum t - out_sum t /\ 0 < a') /\
    (o = o' /\ b' = y \/ exists t, t ∈ s :: net /\ o = Some (rm_mint t) /\ b' = out_sum t - in_sum t /\ 0 < b') /\
    Forall (fun s => in_sum s - out_sum s <= a' /\ out_sum s - in_sum s <= b') net) as IH'.
  { intros i' o' x y Hx Hy. specialize (IH i' o' x y Hx Hy). destruct (route_ends net i' o' x y) as [[[i o] a'] b'].
    destruct IH as (E1 & E2 & E3 & E4 & E5). split_and!; try done.
    - destruct E3 as [?|(t & Ht & ?)]; [by left|right]. exists t. split; [by right|done].
    - destruct E4 as [?|(t & Ht & ?)]; [by left|right]. exists t. split; [by right|done]. }
  clear IH.
  destruct (Z.ltb_spec (out_sum s) (in_sum s)) as [Hlt|Hge].
  - rewrite u64_small by (unfold is_u64; lia). destruct (Z.ltb_spec a (in_sum s - out_sum s)) as [Hn|Hn].
    + specialize (IH' (Some (rm_mint s)) output (in_sum s - out_sum s) b ltac:(lia) Hb).
      destruct (route_ends _ _ _ _ _) as [[[i o] a'] b']. destruct IH' as (E1 & E2 & E3 & E4 & E5).
      split_and!; [lia|lia| |done|constructor; [lia|done]]. right. destruct E3 as [[-> ->]|E3]; [|done].
      exists s. split_and!; [left|done|done|lia].
    + specialize (IH' input output a b Ha Hb).
      destruct (route_ends _ _ _ _ _) as [[[i o] a'] b']. destruct IH' as (E1 & E2 & E3 & E4 & E5).
      split_and!; try done. constructor; [lia|done].
  - destruct (Z.ltb_spec (in_sum s) (out_sum s)) as [Hlt'|Hge'].
    + rewrite u64_small by (unfold is_u64; lia). destruct (Z.ltb_spec b (out_sum s - in_sum s)) as [Hn|Hn].
      * specialize (IH' input (Some (rm_mint s)) a (out_sum s - in_sum s) Ha ltac:(lia)).
        destruct (route_ends _ _ _ _ _) as [[[i o] a'] b']. destruct IH' as (E1 & E2 & E3 & E4 & E5).
        split_and!; [lia|lia|done| |constructor; [lia|done]]. right. destruct E4 as [[-> ->]|E4]; [|done].
        exists s. split_and!; [left|done|done|lia].
      * specialize (IH' input output a b Ha Hb).
        destruct (route_ends _ _ _ _ _) as [[[i o] a'] b']. destruct IH' as (E1 & E2 & E3 & E4 & E5).
        split_and!; try done. constructor; [lia|done].
    + specialize (IH' input output a b Ha Hb).
      destruct (route_ends _ _ _ _ _) as [[[i o] a'] b']. destruct IH' as (E1 & E2 & E3 & E4 & E5).
      split_and!; try done. constructor; [lia|done].
Qed.

(** What a mint gained or lost over the whole route. *)
Definition spent (legs : list (stamp * idx_swap)) (m : idx_pubkey) : Z :=
  side_total true (all_sides legs) m - side_total false (all_sides legs) m.

(** The totals fit their width. *)
Definition totals_fit (legs : list (stamp * idx_swap)) : Prop :=
  forall m b, is_u64 (side_total b (all_sides legs) m).

Definition best_input (legs : list (stamp * idx_swap)) (i : idx_pubkey) (a : Z) : Prop :=
  a = spent legs i /\ 0 < a /\ forall m, spent legs m <= a.
Definition best_output (legs : list (stamp * idx_swap)) (o : idx_pubkey) (b : Z) : Prop :=
  b = - spent legs o /\ 0 < b /\ forall m, - spent legs m <= b.

Lemma route_row_spec legs b :
  legs_ok legs -> totals_fit legs -> net_overflow (route_of legs) = false ->
  b_route b = route_of legs -> size (b_rows b) < b_capacity b ->
  match route_row b with
  | Some row => exists i o x y,
      sr_kind row = IDX_SWAP_AGGREGATED /\ sr_input_mint row = Some i /\ sr_input_amount row = Some x /\
      sr_output_mint row = Some o /\ sr_output_amount row = Some y /\ best_input legs i x /\ best_output legs o y
  | None => (forall m, spent legs m <= 0) \/ (forall m, 0 <= spent legs m)
  end.
Proof.
  intros Hok Hfit Ho Hb Hcap. destruct (route_of_inv legs Hok Ho) as (Hnd & _ & Ht). unfold route_row.
  rewrite Hb, Ho, route_of_saw, negb_involutive, (proj2 (Z.leb_gt _ _)) by lia. rewrite !orb_false_r.
  case_bool_decide as Hl; [subst; left; by intros m|].
  set (n := net (route_of legs)) in *.
  assert (forall s, s ∈ n -> s = RouteMint (rm_mint s) (side_total true (all_sides legs) (rm_mint s))
                                 (side_total false (all_sides legs) (rm_mint s))) as Hs.
  { intros s Hin. specialize (Ht (rm_mint s)). rewrite (proj2 (slot_In n (rm_mint s) s Hnd)) in Ht by done.
    cbn [default from_option id] in Ht. rewrite !u64_small in Ht by apply Hfit. exact Ht. }
  assert (forall s, s ∈ n -> in_sum s - out_sum s = spent legs (rm_mint s)) as Hspent.
  { intros s Hin. rewrite (Hs s Hin) at 1 2. done. }
  assert (forall m, spent legs m = 0 \/ exists s, s ∈ n /\ rm_mint s = m) as Hall.
  { intros m. specialize (Ht m). destruct (slot n m) as [s|] eqn:Es.
    - right. exists s. by apply slot_In.
    - left. cbn [default from_option id] in Ht. rewrite !u64_small in Ht by apply Hfit. injection Ht as H1 H2. unfold spent. lia. }
  pose proof (route_ends_spec n None None 0 0) as He. destruct (route_ends n None None 0 0) as [[[i o] x] y].
  destruct He as (H1 & H2 & H3 & H4 & H5); [|lia|lia|].
  { apply Forall_forall. intros s Hin. rewrite (Hs s Hin). split; apply Hfit. }
  rewrite Forall_forall in H5.
  assert (forall m, spent legs m <= x /\ - spent legs m <= y) as Hmax.
  { intros m. destruct (Hall m) as [->|(s & Hin & <-)]; [lia|]. specialize (H5 s Hin). rewrite <- (Hspent s Hin). lia. }
  destruct H3 as [[-> ->]|(s & Hin & -> & Hx & Hpos)].
  { left. intros m. apply Hmax. }
  destruct H4 as [[-> ->]|(t & Hin' & -> & Hy & Hpos')].
  { right. intros m. specialize (Hmax m). lia. }
  exists (rm_mint s), (rm_mint t), x, y. split_and!; try reflexivity.
  - split_and!; [by rewrite <- Hspent|done|intros m; apply Hmax].
  - split_and!; [rewrite <- Hspent by done; lia|done|intros m; apply Hmax].
Qed.

(** A route that hands each leg's output to the next. *)
Fixpoint chain (m : idx_pubkey) (a : Z) (legs : list (stamp * idx_swap)) (m' : idx_pubkey) (a' : Z) : Prop :=
  match legs with
  | [] => m = m' /\ a = a'
  | x :: legs' =>
      input_mint x.2 = Some m /\ input_amount x.2 = Some a /\
      exists m1 a1, output_mint x.2 = Some m1 /\ output_amount x.2 = Some a1 /\ chain m1 a1 legs' m' a'
  end.

Lemma side_total_app b l1 l2 m : side_total b (l1 ++ l2) m = side_total b l1 m + side_total b l2 m.
Proof. unfold side_total. induction l1 as [|x l1 IH]; simpl; [lia|]. rewrite IH. lia. Qed.

Lemma side_total_in sw m :
  side_total true (sides_of sw) m =
    if bool_decide (key_or_zero (input_mint sw) = m) then or_zero (input_amount sw) else 0.
Proof.
  unfold side_total, sides_of. cbn [foldr fst snd]. rewrite (bool_decide_false (false = true /\ _)) by (by intros []).
  destruct (decide (key_or_zero (input_mint sw) = m)).
  - rewrite !bool_decide_true by done. lia.
  - rewrite !bool_decide_false by naive_solver. lia.
Qed.

Lemma side_total_out sw m :
  side_total false (sides_of sw) m =
    if bool_decide (key_or_zero (output_mint sw) = m) then or_zero (output_amount sw) else 0.
Proof.
  unfold side_total, sides_of. cbn [foldr fst snd]. rewrite (bool_decide_false (true = false /\ _)) by (by intros []).
  destruct (decide (key_or_zero (output_mint sw) = m)).
  - rewrite !bool_decide_true by done. lia.
  - rewrite !bool_decide_false by naive_solver. lia.
Qed.

Lemma chain_spent m0 a0 legs m' a' m :
  chain m0 a0 legs m' a' ->
  spent legs m = (if bool_decide (m0 = m) then a0 else 0) - (if bool_decide (m' = m) then a' else 0).
Proof.
  revert m0 a0. induction legs as [|x legs IH]; intros m0 a0; simpl.
  - intros [-> ->]. unfold spent. simpl. lia.
  - intros (H1 & H2 & m1 & a1 & H3 & H4 & Hc). apply IH in Hc. unfold spent in *. unfold all_sides in *. cbn [map concat].
    change ((sides_of ∘ snd) x) with (sides_of x.2). rewrite !side_total_app, side_total_in, side_total_out.
    rewrite H1, H2, H3, H4. unfold key_or_zero, or_zero. cbn [default from_option id]. lia.
Qed.

(** ** What the decoders give *)

Lemma swap_err tx ix e :
  instruction_ok (size (accounts tx)) ix -> slice_len (ix_data ix) < 2 ^ 64 ->
  idx_swap_decode tx ix = Err e -> e = IDX_ERR_NOT_FOUND \/ e = IDX_ERR_RANGE.
Proof.
  intros Hok Hl. unfold idx_swap_decode. destruct (idx_venue_of_program _);
    try (by eapply pump_statuses); try (by eapply raydium_statuses); try (by eapply jupiter_statuses).
  intros [= <-]. by left.
Qed.

Lemma copy_size len c a c' : cursor_ok c -> 0 <= len -> idx_cursor_copy len c = Ok (a, c') -> size a = len /\ cursor_ok c'.
Proof.
  intros Hc Hl E. pose proof (cursor_copy_spec c len Hc Hl) as H. destruct (size (rest c) <? len) eqn:Hlt; [congruence|].
  destruct H as (c1 & E1 & _ & Hc1 & _). rewrite E1 in E. injection E as <- <-. split; [|done]. zbool.
  unfold size in *. rewrite length_take. lia.
Qed.

Lemma u64le_ok c v c' : cursor_ok c -> idx_cursor_u64le c = Ok (v, c') -> 0 <= v /\ cursor_ok c'.
Proof.
  intros Hc E. split; [by eapply u64le_nonneg|]. pose proof (consumes_u64 c Hc) as H.
  destruct (_ <? 8); [congruence|]. destruct H as (a & c1 & E1 & _ & Hc1). congruence.
Qed.

(** A leg names both of its mints and amounts. *)
Lemma jupiter_sides tx ix sw :
  slice_len (ix_data ix) < 2 ^ 64 -> idx_venue_jupiter_decode tx ix = Ok sw -> Forall side_ok (sides_of sw).
Proof.
  intros Hl. unfold idx_venue_jupiter_decode.
  destruct (idx_anchor_event_payload (ix_data ix)) as [p|] eqn:Ep; [|done].
  destruct (idx_anchor_event_is p SWAP_EVENT) as [fs|] eqn:Ef; [|done].
  apply payload_len in Ep. apply fields_len in Ef. unfold decode_swap_event. intros [c E]%run_inv.
  assert (cursor_ok (idx_cursor_init fs)) as Hc by (apply cursor_init_ok; lia).
  unfold read_swap_event in E. apply bind_inv in E as (u & c1 & E1 & E).
  assert (cursor_ok c1) as Hc1.
  { pose proof (consumes_skip IDX_PUBKEY_LEN ltac:(done) _ Hc) as H. destruct (_ <? _); [congruence|].
    destruct H as (? & c' & E' & _ & Hc'). congruence. }
  apply bind_inv in E as (k1 & c2 & E2 & E). apply (copy_size _ _ _ _ Hc1) in E2 as [Hk1 Hc2]; [|done].
  apply bind_inv in E as (a1 & c3 & E3 & E). apply (u64le_ok _ _ _ Hc2) in E3 as [Ha1 Hc3].
  apply bind_inv in E as (k2 & c4 & E4 & E). apply (copy_size _ _ _ _ Hc3) in E4 as [Hk2 Hc4]; [|done].
  apply bind_inv in E as (a2 & c5 & E5 & E). apply (u64le_ok _ _ _ Hc4) in E5 as [Ha2 _].
  injection E as <- _. repeat constructor; assumption.
Qed.

Lemma leg_sides tx ix sw :
  slice_len (ix_data ix) < 2 ^ 64 -> idx_swap_decode tx ix = Ok sw -> idx_venue_is_pool (venue sw) = false ->
  Forall side_ok (sides_of sw).
Proof.
  intros Hl. unfold idx_swap_decode. destruct (idx_venue_of_program _) eqn:Ev; try done.
  - intros [-> _]%pump_stated. done.
  - intros [-> _]%pump_stated. done.
  - intros [-> _]%raydium_named. done.
  - intros [-> _]%raydium_named. done.
  - intros E _. by eapply jupiter_sides.
Qed.

Lemma route_legs_ok tx l : (forall x, x ∈ l -> slice_len (ix_data x.2) < 2 ^ 64) -> legs_ok (route_legs tx l).
Proof.
  intros Hl. unfold legs_ok, all_sides. apply Forall_concat, Forall_map, Forall_forall.
  intros [s sw] [Hp Hin]%list_elem_of_filter. apply list_elem_of_omap in Hin as ([s' ix] & Hx & Hs).
  unfold swap_of in Hs. cbn [snd fst] in Hs. destruct (idx_swap_decode tx ix) as [sw'|] eqn:E; [|done]. injection Hs as -> ->.
  eapply leg_sides; [apply (Hl _ Hx)|exact E|exact Hp].
Qed.

(** ** Properties *)

Section properties.
Context {A : Type} `{ArenaOps A}.

(** A successful run, taken apart. *)
Lemma normalize_inv tx (arena arena' : A) rows :
  walk_total tx + 1 < 2 ^ 64 -> idx_swap_normalize tx arena = (Ok rows, arena') ->
  if extractable tx
  then exists b, rows = flush_route b /\ b_tx b = tx /\ b_route b = route_of (route_legs tx (executed tx)) /\
       size (b_rows b) < b_capacity b /\ Forall2 row_for (pool_swaps tx (executed tx)) (b_rows b)
  else rows = [].
Proof.
  intros Ht E. apply (f_equal fst) in E. cbn [fst] in E. unfold idx_swap_normalize, extractable in *.
  destruct (has_meta tx), (success tx); cbn [negb orb andb] in *; try (by injection E as <-).
  destruct (bool_decide (accounts tx = [])); cbn [negb] in *; [by injection E as <-|].
  pose proof (executed_fits tx) as Hfit. unfold walk_total in Ht. rewrite instruction_total_spec in E by lia.
  fold (walk_total tx) in E, Ht. destruct (Z.eqb_spec (walk_total tx) 0) as [Hz|Hz].
  { injection E as <-. assert (executed tx = []) as ->.
    { unfold walk_total in Hz. destruct (executed tx); [done|]. simpl in Hfit. lia. }
    exists (new_builder tx 1 []). split_and!; [done|done|done|by vm_compute|constructor]. }
  rewrite u64_small in E by (unfold is_u64, walk_total in *; lia).
  destruct (arena_calloc _ _ arena) as [[u|e] a1]; [|done].
  destruct (collect_raylogs tx a1) as [[logs|e] a2]; [|done]. cbn [fst mbind IDX_TRY] in E.
  rewrite normalize_all_walk in E. cbn [new_builder b_tx] in E. fold (executed tx) in E.
  pose proof (run_walk_spec normalize_step (walk_inv tx (walk_total tx + 1)) (fun _ => True) (executed tx) [] (executed tx)
                (new_builder tx (walk_total tx + 1) logs) eq_refl) as Hw.
  destruct (run_walk _ _ _) as [b|] eqn:Eb; [|done]. injection E as <-.
  destruct Hw as (H1 & H2 & H3 & H4).
  - split_and!; [done|done|done|constructor].
  - intros past x rest b0 Hp Hi. eapply walk_step; [|exact Hp|exact Hi|done].
    unfold size, walk_total. lia.
  - exists b. split_and!; [done|done|done| |done]. rewrite H2. apply Forall2_length in H4.
    pose proof (pool_swaps_length tx (executed tx)). unfold size, walk_total. lia.
Qed.

(** C8. Every swap instruction of a pool gives exactly one row, in execution order,
    stamped with where it ran and carrying the venue, the pool (a curve's is its
    token), the trader and every amount the venue stated, untouched by the
    resolution; for Raydium's AMM the amount the instruction fixed is kept even when a
    log line is paired with it, provided it is not 0 (of a fixed 0 nothing is stated:
    the code lets the line replace it).  At most one more row follows, the netted
    route.  A failed transaction gives none. *)
Theorem swap_rows_exact tx (arena arena' : A) rows :
  walk_total tx + 1 < 2 ^ 64 -> idx_swap_normalize tx arena = (Ok rows, arena') ->
  if extractable tx
  then exists pool_rows route, rows = pool_rows ++ route /\
       Forall2 row_for (pool_swaps tx (executed tx)) pool_rows /\
       (route = [] \/ exists r, route = [r] /\ sr_kind r = IDX_SWAP_AGGREGATED /\ route_legs tx (executed tx) <> [])
  else rows = [].
Proof.
  intros Ht E. pose proof (normalize_inv tx arena arena' rows Ht E) as Hn. destruct (extractable tx); [|done].
  destruct Hn as (b & -> & Htx & Hr & Hc & Hrows). unfold flush_route. destruct (route_row b) as [r|] eqn:Er.
  - exists (b_rows b), [r]. split_and!; [done|done|]. right. exists r. split; [done|]. unfold route_row in Er.
    rewrite Hr, route_of_saw in Er. case_bool_decide; [done|]. split; [|done].
    destruct (_ || _); [done|]. destruct (route_ends _ _ _ _ _) as [[[[i|] [o|]] x] y]; try done. by injection Er as <-.
  - exists (b_rows b), []. split_and!; [by rewrite app_nil_r|done|by left].
Qed.

(** C34. The route is netted to what the wallet paid and got.  When its totals fit
    their width and its mints the table, the last row is the aggregated one exactly
    when some mint was spent on net and some was gained: its input is the mint spent
    most and by how much, its output the mint gained most and by how much, so a mint
    that only passed through never shows.  Too many mints, or a cycle, give no
    row. *)
Theorem swap_route_netted tx (arena arena' : A) rows :
  let legs := route_legs tx (executed tx) in
  walk_total tx + 1 < 2 ^ 64 -> (forall x, x ∈ executed tx -> slice_len (ix_data x.2) < 2 ^ 64) ->
  totals_fit legs -> extractable tx = true ->
  idx_swap_normalize tx arena = (Ok rows, arena') ->
  exists pool_rows route, rows = pool_rows ++ route /\ length pool_rows = length (pool_swaps tx (executed tx)) /\
  match route with
  | [] => net_overflow (route_of legs) = true \/ (forall m, spent legs m <= 0) \/ (forall m, 0 <= spent legs m)
  | [row] => net_overflow (route_of legs) = false /\ exists i o x y,
      sr_kind row = IDX_SWAP_AGGREGATED /\ sr_input_mint row = Some i /\ sr_input_amount row = Some x /\
      sr_output_mint row = Some o /\ sr_output_amount row = Some y /\ best_input legs i x /\ best_output legs o y
  | _ => False
  end.
Proof.
  intros legs Ht Hl Hfit Hx E. pose proof (normalize_inv tx arena arena' rows Ht E) as Hn. rewrite Hx in Hn.
  destruct Hn as (b & -> & Htx & Hr & Hc & Hrows). apply Forall2_length in Hrows. symmetry in Hrows.
  destruct (net_overflow (route_of legs)) eqn:Ho.
  - exists (b_rows b), []. split_and!; [|done|by left]. unfold flush_route, route_row. fold legs in Hr.
    rewrite Hr, Ho, orb_true_r. cbn [orb]. by rewrite app_nil_r.
  - pose proof (route_row_spec legs b (route_legs_ok _ _ Hl) Hfit Ho Hr Hc) as Hs. unfold flush_route.
    destruct (route_row b) as [row|].
    + exists (b_rows b), [row]. by split_and!.
    + exists (b_rows b), []. split_and!; [by rewrite app_nil_r|done|by right].
Qed.

(** A route that hands each leg's output to the next nets to its two ends: what
    went into the first leg is the input, what came out of the last the output, and
    nothing in between is seen; a route that ends in the mint it started from with no
    less than it put in gives no row. *)
Theorem route_chain_ends legs b m0 a0 m1 a1 :
  chain m0 a0 legs m1 a1 -> legs_ok legs -> totals_fit legs -> net_overflow (route_of legs) = false ->
  b_route b = route_of legs -> size (b_rows b) < b_capacity b -> 0 < a0 -> 0 < a1 ->
  (m0 <> m1 -> exists row, route_row b = Some row /\ sr_input_mint row = Some m0 /\ sr_input_amount row = Some a0 /\
     sr_output_mint row = Some m1 /\ sr_output_amount row = Some a1) /\
  (m0 = m1 -> route_row b = None).
Proof.
  intros Hc Hok Hfit Ho Hb Hcap Ha0 Ha1. pose proof (fun m => chain_spent m0 a0 legs m1 a1 m Hc) as Hs.
  pose proof (route_row_spec legs b Hok Hfit Ho Hb Hcap) as Hr. split.
  - intros Hne. pose proof (Hs m0) as Hm0. pose proof (Hs m1) as Hm1.
    rewrite bool_decide_true, bool_decide_false in Hm0 by done. rewrite bool_decide_false, bool_decide_true in Hm1 by done.
    destruct (route_row b) as [row|].
    2: { exfalso. destruct Hr as [Hr|Hr]; [specialize (Hr m0)|specialize (Hr m1)]; lia. }
    destruct Hr as (i & o & x & y & _ & Hi & Hx & Hout & Hy & (Hx1 & Hx2 & Hx3) & (Hy1 & Hy2 & Hy3)).
    exists row. split; [done|].
    assert (i = m0) as ->.
    { pose proof (Hs i) as Hsi. case_bool_decide; [done|]. exfalso. case_bool_decide; lia. }
    assert (o = m1) as ->.
    { pose proof (Hs o) as Hso. destruct (decide (m1 = o)) as [|Hn]; [done|]. rewrite (bool_decide_false (m1 = o)) in Hso by done.
      exfalso. case_bool_decide; lia. }
    split_and!; [done|rewrite Hx; f_equal; lia|done|rewrite Hy; f_equal; lia].
  - intros <-. destruct (route_row b) as [row|]; [|done]. exfalso.
    destruct Hr as (i & o & x & y & _ & Hi & Hx & Hout & Hy & (Hx1 & Hx2 & Hx3) & (Hy1 & Hy2 & Hy3)).
    pose proof (Hs i) as Hsi. pose proof (Hs o) as Hso. repeat case_bool_decide; lia.
Qed.

(** The normalization fails only as the arena does or with the [IDX_ERR_RANGE] of
    a truncated payload: an instruction that is no swap is skipped, the row array
    never runs out, and the [IDX_ERR_PARSE] the header documents is never returned
    for a decoded block. *)
Theorem swap_normalize_errors `{!ArenaSpec A} tx (arena arena' : A) e :
  walk_total tx + 1 < 2 ^ 64 ->
  (forall x, x ∈ executed tx -> instruction_ok (size (accounts tx)) x.2 /\ slice_len (ix_data x.2) < 2 ^ 64) ->
  idx_swap_normalize tx arena = (Err e, arena') -> e = IDX_ERR_NO_MEMORY \/ e = IDX_ERR_RANGE.
Proof.
  intros Ht Hl E. unfold idx_swap_normalize in E. destruct (_ || _) eqn:Hx in E; [done|].
  pose proof (executed_fits tx) as Hfit. unfold walk_total in Ht. rewrite instruction_total_spec in E by lia.
  fold (walk_total tx) in E, Ht. destruct (Z.eqb_spec (walk_total tx) 0) as [Hz|Hz]; [done|].
  rewrite u64_small in E by (unfold is_u64, walk_total in *; lia).
  destruct (arena_calloc _ _ arena) as [[u|e1] a1] eqn:Ea; [|injection E as -> ->; by apply arena_calloc_err in Ea].
  destruct (collect_raylogs tx a1) as [[logs|e1] a2] eqn:Ec; cbn [mbind IDX_TRY] in E.
  - rewrite normalize_all_walk in E. cbn [new_builder b_tx] in E. fold (executed tx) in E.
    pose proof (run_walk_spec normalize_step (walk_inv tx (walk_total tx + 1)) (fun e => e = IDX_ERR_RANGE) (executed tx) []
                  (executed tx) (new_builder tx (walk_total tx + 1) logs) eq_refl) as Hw.
    destruct (run_walk _ _ _) as [b|e2] eqn:Eb; [done|]. injection E as -> ->. right. apply Hw.
    + split_and!; [done|done|done|constructor].
    + intros past x rest b0 Hp Hi. eapply walk_step; [|exact Hp|exact Hi|].
      * unfold size, walk_total. lia.
      * intros e' Hd Hne. destruct (Hl x) as [Hok Hlen]; [rewrite <- Hp; set_solver|].
        destruct (swap_err tx x.2 e' Hok Hlen Hd); [done|done].
  - injection E as -> ->. unfold collect_raylogs in Ec. destruct (_ =? 0); [done|].
    destruct (arena_calloc _ _ a1) as [[u1|e1] a3] eqn:Ea'; [done|]. injection Ec as -> ->. by apply arena_calloc_err in Ea'.
Qed.
End properties.

(** ** Witnesses *)

(** A leg of a route, as the aggregator's event states it. *)
Definition leg_ix (a : idx_pubkey) (x : Z) (b : idx_pubkey) (y : Z) : idx_instruction :=
  Instruction 17 [] (Some (IDX_ANCHOR_EVENT_DISCRIMINATOR ++ SWAP_EVENT ++ replicate 32 0 ++
                           pubkey_bytes a ++ le64 x ++ pubkey_bytes b ++ le64 y)) 0.

(** A swap on the AMM, and a route from one mint over a second to a third. *)
Definition swaps_tx : idx_transaction :=
  Transaction IDX_TX_VERSION_LEGACY [] 0 0 0 (Hash [])
    (accounts sample_amm ++ [Account IDX_PROGRAM_JUPITER false false false]) 18
    [sample_swap; leg_ix IDX_PROGRAM_MEMO 7 IDX_PROGRAM_VOTE 30; leg_ix IDX_PROGRAM_VOTE 30 IDX_PROGRAM_TOKEN 2]
    [] true true 0 [] [] [] [] [].

Definition two_pages : idx_arena * sys := (idx_arena_init 4096, [Some 65536; Some 131072]).

Definition swaps_result := idx_swap_normalize swaps_tx two_pages.
Definition swaps_rows : list idx_swap_row := match swaps_result.1 with Ok rows => rows | Err _ => [] end.

Lemma swaps_run : idx_swap_normalize swaps_tx two_pages = (Ok swaps_rows, swaps_result.2).
Proof. vm_compute. reflexivity. Qed.

Lemma swap_rows_exact_witness :
  exists pool_rows route, swaps_rows = pool_rows ++ route /\
    Forall2 row_for (pool_swaps swaps_tx (executed swaps_tx)) pool_rows /\
    (route = [] \/ exists r, route = [r] /\ sr_kind r = IDX_SWAP_AGGREGATED /\ route_legs swaps_tx (executed swaps_tx) <> []).
Proof. exact (swap_rows_exact swaps_tx two_pages swaps_result.2 swaps_rows ltac:(reflexivity) swaps_run). Defined.

Lemma executed_short : forall x, x ∈ executed swaps_tx -> slice_len (ix_data x.2) < 2 ^ 64.
Proof.
  apply (Forall_forall (fun x => slice_len (ix_data x.2) < 2 ^ 64)).
  repeat (apply Forall_cons; split; [vm_compute; reflexivity|]). constructor.
Qed.

(** A bound on every mint's totals. *)
Lemma totals_fit_bound (legs : list (stamp * idx_swap)) :
  forallb (fun x => 0 <=? x.2) (all_sides legs) = true -> foldr (fun x acc => x.2 + acc) 0 (all_sides legs) < 2 ^ 64 ->
  totals_fit legs.
Proof.
  intros Hpos Hsum m b. unfold is_u64. enough (0 <= side_total b (all_sides legs) m <= foldr (fun x acc => x.2 + acc) 0 (all_sides legs)) by lia.
  clear Hsum. induction (all_sides legs) as [|x l IH]; simpl in *; [unfold side_total; simpl; lia|].
  apply andb_true_iff in Hpos as [Hx Hl]. specialize (IH Hl). unfold side_total in *. cbn [foldr]. case_bool_decide; lia.
Qed.

Lemma swap_route_netted_witness :
  exists row, last swaps_rows = Some row /\ sr_kind row = IDX_SWAP_AGGREGATED.
Proof.
  destruct (swap_route_netted swaps_tx two_pages swaps_result.2 swaps_rows) as (pool_rows & route & Hrows & Hlen & Hr).
  - reflexivity.
  - exact executed_short.
  - apply totals_fit_bound; vm_compute; reflexivity.
  - reflexivity.
  - exact swaps_run.
  - assert (length swaps_rows = 2%nat /\ length (pool_swaps swaps_tx (executed swaps_tx)) = 1%nat) as [H1 H2]
      by (split; vm_compute; reflexivity).
    rewrite H2 in Hlen. rewrite Hrows, length_app, Hlen in H1. destruct route as [|row [|row' route]]; try discriminate H1.
    exists row. split; [by rewrite Hrows, last_snoc|]. by destruct Hr as (_ & i & o & x & y & Hk & _).
Defined.

Definition sample_legs : list (stamp * idx_swap) := route_legs swaps_tx (executed swaps_tx).

Definition leg_builder : builder :=
  Builder swaps_tx [] 1 (Stamp 0 0 false) [] 0 (route_of sample_legs).

Lemma route_chain_ends_witness :
  exists row, route_row leg_builder = Some row /\ sr_input_mint row = Some IDX_PROGRAM_MEMO /\
    sr_input_amount row = Some 7 /\ sr_output_mint row = Some IDX_PROGRAM_TOKEN /\ sr_output_amount row = Some 2.
Proof.
  apply (route_chain_ends sample_legs leg_builder IDX_PROGRAM_MEMO 7 IDX_PROGRAM_TOKEN 2).
  - vm_compute. repeat (first [split; [reflexivity|] | eexists | reflexivity]).
  - apply (route_legs_ok swaps_tx). exact executed_short.
  - apply totals_fit_bound; vm_compute; reflexivity.
  - vm_compute. reflexivity.
  - reflexivity.
  - reflexivity.
  - reflexivity.
  - reflexivity.
  - discriminate.
Defined.

(** The AMM swap with its last amount cut off. *)
Definition short_swap : idx_instruction :=
  Instruction (program_id_index sample_swap) (account_indices sample_swap)
    (idx_slice_sub (ix_data sample_swap) 0 12) 0.

Definition short_tx : idx_transaction :=
  Transaction IDX_TX_VERSION_LEGACY [] 0 0 0 (Hash []) (accounts sample_amm) 17 [short_swap]
    [] true true 0 [] [] [] [] [].

Lemma swap_normalize_errors_witness :
  IDX_ERR_RANGE = IDX_ERR_NO_MEMORY \/ IDX_ERR_RANGE = IDX_ERR_RANGE.
Proof.
  apply (swap_normalize_errors short_tx two_pages (idx_swap_normalize short_tx two_pages).2 IDX_ERR_RANGE).
  - reflexivity.
  - intros x [->|Hx]%elem_of_cons; [split; [decide_now|reflexivity]|by apply elem_of_nil in Hx].
  - vm_compute. reflexivity.
Defined.
