(* ===== verification/Pool.v ===== *)
(** * pool.c: the pool registry

    One record for each pool a swap has revealed, over the table of [PtrMapSpec] as
    in Token.v: the records are the heap behind the table's addresses, and a write
    through [pool] is a write to the record the table leads to.  Creations enrich a
    record and never make one.  The null guards are excluded by the types. *)

From S2P Require Import Prelude Bytes Types Map PtrMap Block Walk VenueTypes Swap.
#[local] Open Scope Z_scope.

(** src/include/pool.h:45-67 [idx_pool] *)
Record idx_pool := Pool {
  address : idx_pubkey;
  pool_venue : idx_venue;
  mint_a : option idx_pubkey;
  decimals_a : option Z;
  mint_b : option idx_pubkey;
  decimals_b : option Z;
  first_seen_slot : Z;
  swap_count : Z;
  creation_slot : option Z;
  creator : option idx_pubkey
}.

(** src/include/pool.h:69-73 [idx_pool_registry], with the records its table points
    to. *)
Record idx_pool_registry (M : Type) := PoolRegistry {
  by_address : M;
  pools : list idx_pool;
  enriched : Z;
  creations_unmatched : Z
}.
Arguments PoolRegistry {M}.
Arguments by_address {M}.
Arguments pools {M}.
Arguments enriched {M}.
Arguments creations_unmatched {M}.

Definition sizeof_pool : Z := 200.

(** src/src/pool.c:32-34 [address_key] *)
Definition address_key (address : idx_pubkey) : bytes :=
  slice_bytes (idx_slice_make (Some (pubkey_bytes address)) IDX_PUBKEY_LEN).

(** [calloc(1, sizeof *pool)] and its three fields *)
Definition new_pool (address : idx_pubkey) (venue : idx_venue) (slot : Z) : idx_pool :=
  Pool address venue None None None None slot 0 None None.

#[export] Instance idx_pool_inhabited : Inhabited idx_pool :=
  populate (new_pool IDX_PUBKEY_DEFAULT IDX_VENUE_NONE 0).

Definition set_a (p : idx_pool) (mint : option idx_pubkey) (decimals : option Z) : idx_pool :=
  Pool (address p) (pool_venue p) mint decimals (mint_b p) (decimals_b p) (first_seen_slot p) (swap_count p)
    (creation_slot p) (creator p).
Definition set_b (p : idx_pool) (mint : option idx_pubkey) (decimals : option Z) : idx_pool :=
  Pool (address p) (pool_venue p) (mint_a p) (decimals_a p) mint decimals (first_seen_slot p) (swap_count p)
    (creation_slot p) (creator p).

(** The slot holds this mint. *)
Definition holds (slot : option idx_pubkey) (mint : idx_pubkey) : bool :=
  match slot with Some m => idx_pubkey_equal m mint | None => false end.

(** The decimals of a slot once a side with [decimals] is seen. *)
Definition fill (old decimals : option Z) : option Z := match old with Some d => Some d | None => decimals end.

(** src/src/pool.c:51-86 [remember_mint] *)
Definition remember_mint (p : idx_pool) (mint : option idx_pubkey) (decimals : option Z) : idx_pool :=
  match mint with
  | None => p
  | Some mint =>
      if holds (mint_a p) mint then set_a p (mint_a p) (fill (decimals_a p) decimals)
      else if holds (mint_b p) mint then set_b p (mint_b p) (fill (decimals_b p) decimals)
      else if bool_decide (mint_a p = None) then set_a p (Some mint) decimals
      else if bool_decide (mint_b p = None) then set_b p (Some mint) decimals
      else p
  end.

(** [pool->swap_count++] *)
Definition count_swap (p : idx_pool) : idx_pool :=
  Pool (address p) (pool_venue p) (mint_a p) (decimals_a p) (mint_b p) (decimals_b p) (first_seen_slot p)
    (u64 (swap_count p + 1)) (creation_slot p) (creator p).

(** src/src/pool.c:117-121 [idx_pool_registry_observe_swap]: the record of a swap. *)
Definition see_swap (p : idx_pool) (row : idx_swap_row) : idx_pool :=
  count_swap (remember_mint (remember_mint p (sr_input_mint row) (sr_input_decimals row))
                (sr_output_mint row) (sr_output_decimals row)).

(** src/src/pool.c:147-152 [idx_pool_registry_observe_creation] *)
Definition see_creation (p : idx_pool) (creation : idx_pool_creation) (slot : Z) : idx_pool :=
  Pool (address p) (pool_venue p) (mint_a p) (decimals_a p) (mint_b p) (decimals_b p) (first_seen_slot p)
    (swap_count p) (Some slot) (match pc_creator creation with Some c => Some c | None => creator p end).

Section registry.
Context {M : Type} `{PtrMapOps M}.

(** src/src/pool.c:6-13 [idx_pool_registry_init] *)
Definition idx_pool_registry_init : idx_pool_registry M := PoolRegistry m_init [] 0 0.

(** src/src/pool.c:15-30 [idx_pool_registry_free]: the registry, and the addresses
    freed. *)
Definition idx_pool_registry_free (reg : idx_pool_registry M) : idx_pool_registry M * list (option ptr) :=
  (PoolRegistry (m_free (by_address reg)) [] 0 0, m_values (by_address reg)).

(** src/src/pool.c:36-43 [find_pool]: the address of the record, null when there is
    none. *)
Definition find_pool (reg : idx_pool_registry M) (address : idx_pubkey) : option ptr :=
  match m_get (by_address reg) (address_key address) with
  | Some value => value
  | None => None
  end.

(** Whether the row names a pool. *)
Definition row_pool (row : idx_swap_row) : option idx_pubkey :=
  if bool_decide (sr_kind row = IDX_SWAP_POOL) then sr_pool row else None.

(** src/src/pool.c:88-123 [idx_pool_registry_observe_swap] *)
Definition idx_pool_registry_observe_swap (reg : idx_pool_registry M) (row : idx_swap_row) (slot : Z) (h : heap)
    : result unit * idx_pool_registry M * heap :=
  match row_pool row with
  | None => (Ok tt, reg, h)
  | Some address =>
      match find_pool reg address with
      | Some pool =>
          (Ok tt, PoolRegistry (by_address reg) (<[pool := see_swap (pools reg !!! pool) row]> (pools reg))
                    (enriched reg) (creations_unmatched reg), h)
      | None =>
          let '(ok, h1) := calloc 1 sizeof_pool h in
          if negb ok then (IDX_FAIL IDX_ERR_NO_MEMORY, reg, h1)
          else
            let pool := length (pools reg) in
            let '(status, m, h2) := m_put (address_key address) pool h1 (by_address reg) in
            match status with
            | Err e => (Err e, PoolRegistry m (pools reg) (enriched reg) (creations_unmatched reg), h2)
            | Ok _ =>
                let records := pools reg ++ [new_pool address (sr_venue row) slot] in
                (Ok tt, PoolRegistry m (<[pool := see_swap (records !!! pool) row]> records)
                          (enriched reg) (creations_unmatched reg), h2)
            end
      end
  end.

(** src/src/pool.c:125-155 [idx_pool_registry_observe_creation] *)
Definition idx_pool_registry_observe_creation (reg : idx_pool_registry M) (creation : idx_pool_creation) (slot : Z)
    : result unit * idx_pool_registry M :=
  match pc_pool creation with
  | None => (Ok tt, reg)
  | Some address =>
      match find_pool reg address with
      | None => (Ok tt, PoolRegistry (by_address reg) (pools reg) (enriched reg) (u64 (creations_unmatched reg + 1)))
      | Some pool =>
          match creation_slot (pools reg !!! pool) with
          | Some _ => (Ok tt, reg)
          | None =>
              (Ok tt, PoolRegistry (by_address reg) (<[pool := see_creation (pools reg !!! pool) creation slot]> (pools reg))
                        (u64 (enriched reg + 1)) (creations_unmatched reg))
          end
      end
  end.

(** src/src/pool.c:157-163 [idx_pool_registry_get] *)
Definition idx_pool_registry_get (reg : idx_pool_registry M) (address : idx_pubkey) : option idx_pool :=
  find_pool reg address ≫= fun pool => pools reg !! pool.

(** src/src/pool.c:165-170 [idx_pool_registry_count] *)
Definition idx_pool_registry_count (reg : idx_pool_registry M) : Z := m_count (by_address reg).
End registry.

(** ** What the registry stands for *)

Definition pool_key (p : idx_pool) : bytes := address_key (address p).

Inductive observation :=
  | SawSwap (row : idx_swap_row) (slot : Z)
  | SawCreation (creation : idx_pool_creation) (slot : Z).

(** The swap of the pool with this key, and the creation of it. *)
Definition swap_of (k : bytes) (o : observation) : option (idx_swap_row * Z) :=
  match o with
  | SawSwap row slot => if bool_decide (address_key <$> row_pool row = Some k) then Some (row, slot) else None
  | SawCreation _ _ => None
  end.
Definition creation_of (k : bytes) (o : observation) : option (idx_pool_creation * Z) :=
  match o with
  | SawSwap _ _ => None
  | SawCreation c slot => if bool_decide (address_key <$> pc_pool c = Some k) then Some (c, slot) else None
  end.

(** What follows the first swap of the pool. *)
Fixpoint traded (k : bytes) (seen : list observation) : list observation :=
  match seen with
  | [] => []
  | o :: seen' => if swap_of k o is Some _ then seen' else traded k seen'
  end.

(** The sides of a row that have a mint, in the order they are remembered. *)
Definition sides_of (row : idx_swap_row) : list (idx_pubkey * option Z) :=
  option_list ((fun m => (m, sr_input_decimals row)) <$> sr_input_mint row) ++
  option_list ((fun m => (m, sr_output_decimals row)) <$> sr_output_mint row).

(** The pair a list of sides reveals: its first mint, the first other one, and the
    first decimals seen with each. *)
Definition first_mint (sides : list (idx_pubkey * option Z)) : option idx_pubkey := head sides.*1.
Definition second_mint (sides : list (idx_pubkey * option Z)) : option idx_pubkey :=
  a ← first_mint sides; head (filter (fun m => idx_pubkey_equal a m = false) sides.*1).
Definition decimals_with (m : idx_pubkey) (sides : list (idx_pubkey * option Z)) : option Z :=
  head (omap (fun s => if idx_pubkey_equal m s.1 then s.2 else None) sides).

(** The record a history describes. *)
Definition describe (k : bytes) (seen : list observation) : option idx_pool :=
  let swaps := omap (swap_of k) seen in
  let sides := concat (map (fun s => sides_of s.1) swaps) in
  let creation := head (omap (creation_of k) (traded k seen)) in
  first ← head swaps;
  address ← row_pool first.1;
  Some (Pool address (sr_venue first.1)
          (first_mint sides) (first_mint sides ≫= fun m => decimals_with m sides)
          (second_mint sides) (second_mint sides ≫= fun m => decimals_with m sides)
          first.2 (u64 (size swaps)) (snd <$> creation) (creation ≫= fun c => pc_creator c.1)).

(** A creation of a pool [earlier] has no swap of. *)
Definition unmatched_now (earlier : list observation) (o : observation) : bool :=
  match o with
  | SawSwap _ _ => false
  | SawCreation c _ =>
      match pc_pool c with
      | Some a => bool_decide (omap (swap_of (address_key a)) earlier = [])
      | None => false
      end
  end.

Fixpoint unmatched (earlier later : list observation) : nat :=
  match later with
  | [] => 0
  | o :: later' => (if unmatched_now earlier o then 1 else 0) + unmatched (earlier ++ [o]) later'
  end.

Lemma equal_key a b : idx_pubkey_equal a b = true <-> address_key a = address_key b.
Proof.
  unfold idx_pubkey_equal, memcmp_eq. rewrite bool_decide_eq_true. done.
Qed.

(** *** The pair of mints *)

Lemma first_mint_snoc sides m d :
  first_mint (sides ++ [(m, d)]) = Some (default m (first_mint sides)).
Proof. unfold first_mint. rewrite fmap_app. by destruct sides. Qed.

Lemma second_mint_snoc sides m d a :
  first_mint sides = Some a ->
  second_mint (sides ++ [(m, d)]) =
    match second_mint sides with
    | Some b => Some b
    | None => if idx_pubkey_equal a m then None else Some m
    end.
Proof.
  intros Ha. unfold second_mint. rewrite first_mint_snoc, Ha. cbn [default mbind option_bind from_option id].
  rewrite fmap_app, filter_app. destruct (filter _ sides.*1); [|done]. cbn [app head fmap list_fmap fst].
  destruct (idx_pubkey_equal a m) eqn:E; [by rewrite filter_cons_False by (by rewrite E)|].
  by rewrite filter_cons_True.
Qed.

Lemma decimals_with_snoc m sides x d :
  decimals_with m (sides ++ [(x, d)]) =
    if idx_pubkey_equal m x then fill (decimals_with m sides) d else decimals_with m sides.
Proof.
  unfold decimals_with. rewrite omap_app. cbn [omap list_omap fst snd].
  destruct (idx_pubkey_equal m x), d, (omap _ sides); reflexivity.
Qed.

(** The record's slots are the pair of the sides. *)
Record knows (p : idx_pool) (sides : list (idx_pubkey * option Z)) : Prop := {
  knows_a : mint_a p = first_mint sides;
  knows_b : mint_b p = second_mint sides;
  knows_da : decimals_a p = (first_mint sides ≫= fun m => decimals_with m sides);
  knows_db : decimals_b p = (second_mint sides ≫= fun m => decimals_with m sides)
}.

Lemma decimals_with_absent m sides :
  Forall (fun s => idx_pubkey_equal m s.1 = false) sides -> decimals_with m sides = None.
Proof. unfold decimals_with. induction 1 as [|s l E _ IH]; [done|]. cbn [omap list_omap]. by rewrite E. Qed.

Lemma second_none a sides m :
  first_mint sides = Some a -> second_mint sides = None -> idx_pubkey_equal a m = false ->
  Forall (fun s => idx_pubkey_equal m s.1 = false) sides.
Proof.
  intros Ha Hb E. apply Forall_forall. intros s Hs. apply not_true_iff_false. intros Hms%equal_key.
  unfold second_mint in Hb. rewrite Ha in Hb. cbn [mbind option_bind] in Hb.
  assert (s.1 ∈ filter (fun m => idx_pubkey_equal a m = false) sides.*1) as Hin.
  { apply list_elem_of_filter. split; [|by apply list_elem_of_fmap; exists s]. apply not_true_iff_false in E.
    apply not_true_iff_false. rewrite equal_key in *. congruence. }
  destruct (filter _ _); [by apply elem_of_nil in Hin|discriminate].
Qed.

Lemma second_apart a b sides :
  first_mint sides = Some a -> second_mint sides = Some b -> idx_pubkey_equal a b = false.
Proof.
  intros Ha Hb. unfold second_mint in Hb. rewrite Ha in Hb. cbn [mbind option_bind] in Hb.
  assert (b ∈ filter (fun m => idx_pubkey_equal a m = false) sides.*1) as Hin
    by (destruct (filter _ _); [done|injection Hb as ->; left]).
  by apply list_elem_of_filter in Hin as [].
Qed.

(** Each slot of the pair, by the equations at hand. *)
Ltac slots :=
  split; cbn; repeat match goal with H : _ (_ ++ _) = _ |- _ => progress rewrite H end; cbn;
  rewrite ?decimals_with_snoc; repeat match goal with H : idx_pubkey_equal _ _ = _ |- _ => rewrite H end;
  try congruence.

Lemma knows_remember p sides m d :
  knows p sides -> knows (remember_mint p (Some m) d) (sides ++ [(m, d)]).
Proof.
  intros [Ka Kb Kda Kdb]. unfold remember_mint. destruct (first_mint sides) as [a|] eqn:Ea.
  - rewrite Ka. cbn [holds mbind option_bind] in *.
    assert (first_mint (sides ++ [(m, d)]) = Some a) as Ea' by (by rewrite first_mint_snoc, Ea).
    pose proof (second_mint_snoc sides m d a Ea) as Eb'. destruct (second_mint sides) as [b|] eqn:Eb.
    + pose proof (second_apart a b sides Ea Eb) as Hab. rewrite Kb. cbn [holds mbind option_bind] in *.
      destruct (idx_pubkey_equal a m) eqn:Ham; [|destruct (idx_pubkey_equal b m) eqn:Hbm].
      * assert (idx_pubkey_equal b m = false) as Hbm.
        { apply not_true_iff_false in Hab. apply not_true_iff_false. rewrite equal_key in *. congruence. }
        slots.
      * slots.
      * rewrite !bool_decide_false by done.
        slots.
    + rewrite Kb. cbn [holds mbind option_bind] in *. destruct (idx_pubkey_equal a m) eqn:Ham.
      * slots.
      * rewrite bool_decide_false by done. rewrite bool_decide_true by done.
        slots.
        rewrite (proj2 (equal_key m m) eq_refl).
        by rewrite (decimals_with_absent m sides (second_none a sides m Ea Eb Ham)).
  - assert (sides = []) as -> by (by destruct sides).
    pose proof (proj2 (equal_key m m) eq_refl) as Hmm.
    assert (second_mint ([] ++ [(m, d)]) = None) as Eb.
    { change (head (filter (fun x => idx_pubkey_equal m x = false) [m]) = None). by rewrite filter_cons_False by (by rewrite Hmm). }
    assert (decimals_with m ([] ++ [(m, d)]) = d) as Ed.
    { unfold decimals_with. cbn. rewrite Hmm. by destruct d. }
    rewrite Ka, Kb. cbn [holds]. rewrite bool_decide_true by done.
    split; rewrite ?Eb; cbn -[decimals_with]; try done; symmetry; exact Ed.
Qed.

Lemma remember_sides p row sides :
  knows p sides ->
  knows (see_swap p row) (sides ++ sides_of row).
Proof.
  intros Hp. unfold see_swap, sides_of. rewrite app_assoc.
  enough (knows (remember_mint (remember_mint p (sr_input_mint row) (sr_input_decimals row))
                   (sr_output_mint row) (sr_output_decimals row))
            ((sides ++ option_list ((fun m => (m, sr_input_decimals row)) <$> sr_input_mint row)) ++
             option_list ((fun m => (m, sr_output_decimals row)) <$> sr_output_mint row))) as [] by by split.
  assert (forall q l m d, knows q l -> knows (remember_mint q m d) (l ++ option_list ((fun m => (m, d)) <$> m))) as Hstep.
  { intros q l [m|] d Hq; [by apply knows_remember|]. cbn. by rewrite app_nil_r. }
  by do 2 apply Hstep.
Qed.

(** A swap changes no other field but the count. *)
Lemma remember_mint_rest p m d :
  let q := remember_mint p m d in
  address q = address p /\ pool_venue q = pool_venue p /\ first_seen_slot q = first_seen_slot p /\
  swap_count q = swap_count p /\ creation_slot q = creation_slot p /\ creator q = creator p.
Proof. unfold remember_mint. cbn zeta. repeat case_match; split_and!; reflexivity. Qed.

(** ** One observation of a record *)

Definition apply_observation (p : idx_pool) (o : observation) : idx_pool :=
  match o with
  | SawSwap row _ => see_swap p row
  | SawCreation c slot => if creation_slot p is Some _ then p else see_creation p c slot
  end.

Lemma traded_snoc k seen o :
  traded k (seen ++ [o]) =
    match omap (swap_of k) seen with [] => [] | _ => traded k seen ++ [o] end.
Proof.
  induction seen as [|x seen IH]; simpl; [by destruct (swap_of k o)|].
  destruct (swap_of k x); [done|]. exact IH.
Qed.

(** A swap of a record, in its fields. *)
Lemma see_swap_fields p row sides :
  knows p sides ->
  let sides' := sides ++ sides_of row in
  see_swap p row =
    Pool (address p) (pool_venue p) (first_mint sides') (first_mint sides' ≫= fun m => decimals_with m sides')
      (second_mint sides') (second_mint sides' ≫= fun m => decimals_with m sides')
      (first_seen_slot p) (u64 (swap_count p + 1)) (creation_slot p) (creator p).
Proof.
  intros [Ka Kb Kda Kdb]%(remember_sides _ row). cbn zeta. rewrite <- Kda, <- Kdb, <- Ka, <- Kb. clear.
  unfold see_swap.
  destruct (remember_mint_rest p (sr_input_mint row) (sr_input_decimals row)) as (R1 & R2 & R3 & R4 & R5 & R6).
  set (q := remember_mint p _ _) in *.
  destruct (remember_mint_rest q (sr_output_mint row) (sr_output_decimals row)) as (S1 & S2 & S3 & S4 & S5 & S6).
  unfold count_swap. cbn. congruence.
Qed.

Lemma describe_swap k seen row slot a :
  row_pool row = Some a -> address_key a = k ->
  describe k (seen ++ [SawSwap row slot]) =
    Some (see_swap (default (new_pool a (sr_venue row) slot) (describe k seen)) row).
Proof.
  intros Ha Hk. unfold describe. rewrite omap_app, traded_snoc. cbn [omap list_omap swap_of].
  rewrite (bool_decide_true (_ = Some k)) by (by rewrite Ha, <- Hk).
  rewrite map_app, concat_app. cbn [map concat fst]. rewrite app_nil_r.
  set (swaps := omap (swap_of k) seen). set (sides := concat _).
  assert (forall x, head swaps = Some x -> is_Some (row_pool x.1)) as Hs.
  { intros x Hx. assert (x ∈ swaps) as Hin by (destruct swaps; [done|]; injection Hx as ->; left).
    apply list_elem_of_omap in Hin as (o & _ & Ho). destruct o as [r s|c s]; [|done]. simpl in Ho.
    case_bool_decide as E; [|done]. injection Ho as <-. simpl. by destruct (row_pool r); [eexists|]. }
  assert (u64 (size (swaps ++ [(row, slot)])) = u64 (u64 (size swaps) + 1)) as Hn.
  { unfold size. rewrite length_app. simpl. rewrite u64_add_l. f_equal. lia. }
  destruct swaps as [|first rest] eqn:E.
  - cbn [head app mbind option_bind fst snd]. rewrite Ha. cbn [mbind option_bind default id].
    by rewrite (see_swap_fields (new_pool a (sr_venue row) slot) row []) by by split.
  - destruct (Hs first eq_refl) as [a' Ha']. cbn [head app mbind option_bind fst snd]. rewrite Ha'. cbn [mbind option_bind default id].
    rewrite omap_app. cbn [omap list_omap creation_of]. rewrite app_nil_r.
    rewrite (see_swap_fields (Pool _ _ _ _ _ _ _ _ _ _) row sides) by by split. cbn [app] in Hn. cbn. by rewrite Hn.
Qed.

Lemma pool_describe_skip k seen o :
  swap_of k o = None -> creation_of k o = None -> describe k (seen ++ [o]) = describe k seen.
Proof.
  intros Hs Hc. unfold describe. rewrite omap_app, traded_snoc. cbn [omap list_omap]. rewrite Hs, app_nil_r.
  destruct (omap (swap_of k) seen) eqn:E; [done|]. rewrite omap_app. cbn [omap list_omap]. by rewrite Hc, app_nil_r.
Qed.

Lemma describe_traded k seen : is_Some (describe k seen) <-> omap (swap_of k) seen <> [].
Proof.
  unfold describe. destruct (omap (swap_of k) seen) as [|x l] eqn:E; [by split; [intros []|]|].
  cbn [head mbind option_bind]. split; [done|]. intros _.
  assert (x ∈ omap (swap_of k) seen) as Hin by (rewrite E; left).
  apply list_elem_of_omap in Hin as (o & _ & Ho). destruct o as [r s|c s]; [|done]. simpl in Ho.
  case_bool_decide as Er; [|done]. injection Ho as <-. simpl. destruct (row_pool r); [by eexists|done].
Qed.

Lemma describe_creation k seen c slot a :
  pc_pool c = Some a -> address_key a = k ->
  describe k (seen ++ [SawCreation c slot]) = (fun p => apply_observation p (SawCreation c slot)) <$> describe k seen.
Proof.
  intros Ha Hk. unfold describe. rewrite omap_app, traded_snoc. cbn [omap list_omap swap_of]. rewrite app_nil_r.
  destruct (omap (swap_of k) seen) as [|x l] eqn:E; [done|]. rewrite omap_app. cbn [omap list_omap creation_of].
  rewrite (bool_decide_true (_ = Some k)) by (by rewrite Ha, <- Hk). cbn [head mbind option_bind].
  destruct (row_pool x.1) as [b|]; [|done]. cbn [mbind option_bind fmap option_fmap option_map]. f_equal.
  destruct (omap (creation_of k) (traded k seen)) as [|y rest]; cbn.
  - unfold see_creation. cbn. by destruct (pc_creator c).
  - done.
Qed.

Lemma unmatched_snoc earlier l o :
  unmatched earlier (l ++ [o]) = (unmatched earlier l + (if unmatched_now (earlier ++ l) o then 1 else 0))%nat.
Proof.
  revert earlier. induction l as [|x l IH]; intros earlier; simpl.
  - rewrite app_nil_r. lia.
  - rewrite IH, <- app_assoc. simpl. lia.
Qed.

Section refinement.
Context {M : Type} `{PtrMapSpec M}.

Definition is_enriched (p : idx_pool) : Prop := is_Some (creation_slot p).
#[export] Instance is_enriched_dec p : Decision (is_enriched p).
Proof. unfold is_enriched. apply _. Defined.

Definition n_enriched (l : list idx_pool) : nat := length (filter is_enriched l).

(** The table leads to one record for each address, every record is reachable, and
    [enriched] counts the records with a creation. *)
Record registry_ok (reg : idx_pool_registry M) : Prop := {
  reg_records : reg_inv pool_key (by_address reg) (pools reg) [];
  reg_counter : enriched reg = u64 (Z.of_nat (n_enriched (pools reg)))
}.

Definition view (reg : idx_pool_registry M) : gmap bytes idx_pool := reg_view (by_address reg) (pools reg).

Lemma pool_init_registry_ok : registry_ok idx_pool_registry_init /\ view idx_pool_registry_init = ∅.
Proof. destruct (init_reg_inv (M:=M) pool_key) as [H1 H2]. by split. Qed.

Abbreviation put_failure := (fun e => e = IDX_ERR_NO_MEMORY \/ e = IDX_ERR_RANGE \/ e = IDX_ERR_INTERNAL).

Lemma find_pool_spec reg a :
  registry_ok reg ->
  match find_pool reg a with
  | Some p => exists t, pools reg !! p = Some t /\ pool_key t = address_key a /\ view reg !! address_key a = Some t
  | None => m_get (by_address reg) (address_key a) = None /\ view reg !! address_key a = None
  end.
Proof.
  intros [I _]. unfold find_pool. pose proof (reg_find pool_key _ _ [] (address_key a) I) as Hf.
  destruct (m_get _ _) as [v|]; [|done]. destruct Hf as (p & t & -> & Hp & Hk & _ & Hv). by exists t.
Qed.

Lemma n_enriched_insert l p t t' :
  l !! p = Some t ->
  (n_enriched (<[p := t']> l) + (if decide (is_enriched t) then 1 else 0) =
   n_enriched l + (if decide (is_enriched t') then 1 else 0))%nat.
Proof.
  intros Hp. rewrite insert_take_drop by (by eapply lookup_lt_Some). unfold n_enriched.
  rewrite <- (take_drop_middle l p t Hp) at 3. rewrite !filter_app, !filter_cons, !length_app.
  destruct (decide (is_enriched t)), (decide (is_enriched t')); simpl; lia.
Qed.

Lemma pool_update_ok reg p t t' n u :
  registry_ok reg -> pools reg !! p = Some t -> pool_key t' = pool_key t ->
  n = u64 (Z.of_nat (n_enriched (<[p := t']> (pools reg)))) ->
  let reg' := PoolRegistry (by_address reg) (<[p := t']> (pools reg)) n u in
  registry_ok reg' /\ view reg' = <[pool_key t := t']> (view reg).
Proof.
  intros [I Hc] Hp Hk Hn. destruct (reg_update pool_key _ _ [] p t t' I Hp (not_elem_of_nil p) Hk) as [I' Hv]. split; [by split|done].
Qed.

Lemma see_swap_same p row :
  pool_key (see_swap p row) = pool_key p /\ creation_slot (see_swap p row) = creation_slot p.
Proof.
  destruct (remember_mint_rest p (sr_input_mint row) (sr_input_decimals row)) as (R1 & R2 & R3 & R4 & R5 & R6).
  set (q := remember_mint p _ _) in *.
  destruct (remember_mint_rest q (sr_output_mint row) (sr_output_decimals row)) as (S1 & S2 & S3 & S4 & S5 & S6).
  unfold pool_key, see_swap, count_swap. cbn. fold q. split; congruence.
Qed.

Lemma see_swap_ok reg p t row n u :
  registry_ok reg -> pools reg !! p = Some t -> n = enriched reg ->
  let reg' := PoolRegistry (by_address reg) (<[p := see_swap (pools reg !!! p) row]> (pools reg)) n u in
  registry_ok reg' /\ view reg' = <[pool_key t := see_swap t row]> (view reg).
Proof.
  intros Hok Hp ->. rewrite (list_lookup_total_correct _ _ _ Hp). destruct (see_swap_same t row) as [Hk Hc].
  apply pool_update_ok; [done|done|done|]. rewrite (reg_counter _ Hok).
  pose proof (n_enriched_insert _ _ _ (see_swap t row) Hp) as Hn. unfold is_enriched in Hn.
  do 2 f_equal. destruct (decide (is_Some (creation_slot t))) as [H1|H1],
    (decide (is_Some (creation_slot (see_swap t row)))) as [H2|H2]; rewrite Hc in H2; (done || lia).
Qed.

Definition observe (o : observation) (reg : idx_pool_registry M) (h : heap)
    : result unit * idx_pool_registry M * heap :=
  match o with
  | SawSwap row slot => idx_pool_registry_observe_swap reg row slot h
  | SawCreation c slot => (idx_pool_registry_observe_creation reg c slot, h)
  end.

(** A swap counts in the record of its pool, made if it is the first. *)
Lemma observe_swap_spec row slot reg h :
  registry_ok reg ->
  let '(r, reg', _) := idx_pool_registry_observe_swap reg row slot h in
  registry_ok reg' /\ creations_unmatched reg' = creations_unmatched reg /\
  match r with
  | Ok _ => view reg' =
      match row_pool row with
      | None => view reg
      | Some a => <[address_key a :=
          see_swap (default (new_pool a (sr_venue row) slot) (view reg !! address_key a)) row]> (view reg)
      end
  | Err e => view reg' = view reg /\ put_failure e
  end.
Proof.
  intros Hok. unfold idx_pool_registry_observe_swap. destruct (row_pool row) as [a|]; [|done].
  pose proof (find_pool_spec reg a Hok) as Hf. destruct (find_pool reg a) as [p|].
  - destruct Hf as (t & Hp & Hk & Hv). rewrite Hv.
    destruct (see_swap_ok reg p t row (enriched reg) (creations_unmatched reg) Hok Hp eq_refl) as [H1 H2].
    by rewrite <- Hk.
  - destruct Hf as [Hg Hv]. unfold calloc. rewrite (proj2 (Z.ltb_ge _ _)) by (unfold SIZE_MAX, sizeof_pool; lia).
    destruct (malloc h) as [[] h1]; cbn [negb]; [|by split_and!; [..|split; [|left]]]. destruct Hok as [I Hc].
    pose proof (reg_add pool_key _ _ [] (new_pool a (sr_venue row) slot) h1 I Hg) as Ha.
    change (pool_key (new_pool a (sr_venue row) slot)) with (address_key a) in Ha.
    destruct (m_put _ _ _ _) as [[[[]|e] m'] h2].
    + destruct Ha as [I' Hv']. rewrite Hv. cbn [default].
      set (reg1 := PoolRegistry m' (pools reg ++ [new_pool a (sr_venue row) slot]) (enriched reg) (creations_unmatched reg)).
      assert (registry_ok reg1) as Hok1.
      { split; [done|]. cbn. rewrite Hc. unfold n_enriched. rewrite filter_app, length_app.
        rewrite filter_cons_False by (by intros []). by rewrite Nat.add_0_r. }
      destruct (see_swap_ok reg1 (length (pools reg)) (new_pool a (sr_venue row) slot) row (enriched reg)
                  (creations_unmatched reg) Hok1) as [H1 H2]; [by apply list_lookup_middle|done|].
      split_and!; [exact H1|done|]. etrans; [exact H2|]. unfold view at 1. cbn [by_address pools reg1]. rewrite Hv'.
      apply insert_insert_eq.
    + destruct Ha as (I' & Hv' & He). by split_and!.
Qed.

(** A creation adds to the record of its pool once, and never makes one. *)
Lemma observe_creation_spec c slot reg :
  registry_ok reg ->
  let '(r, reg') := idx_pool_registry_observe_creation reg c slot in
  r = Ok tt /\ registry_ok reg' /\
  match pc_pool c with
  | None => view reg' = view reg /\ creations_unmatched reg' = creations_unmatched reg
  | Some a =>
      match view reg !! address_key a with
      | None => view reg' = view reg /\ creations_unmatched reg' = u64 (creations_unmatched reg + 1)
      | Some t => view reg' = <[address_key a := apply_observation t (SawCreation c slot)]> (view reg) /\
          creations_unmatched reg' = creations_unmatched reg
      end
  end.
Proof.
  intros Hok. unfold idx_pool_registry_observe_creation. destruct (pc_pool c) as [a|]; [|done].
  pose proof (find_pool_spec reg a Hok) as Hf. destruct (find_pool reg a) as [p|].
  - destruct Hf as (t & Hp & Hk & Hv). rewrite Hv, (list_lookup_total_correct _ _ _ Hp). cbn [apply_observation].
    destruct (creation_slot t) as [s|] eqn:Hc; [by rewrite insert_id|].
    destruct (pool_update_ok reg p t (see_creation t c slot) (u64 (enriched reg + 1)) (creations_unmatched reg) Hok Hp eq_refl)
      as [H1 H2].
    { rewrite (reg_counter _ Hok). pose proof (n_enriched_insert _ _ _ (see_creation t c slot) Hp) as Hn.
      rewrite decide_False in Hn by (unfold is_enriched; rewrite Hc; by intros []).
      rewrite decide_True in Hn by (by eexists). rewrite u64_add_l. f_equal. lia. }
    by rewrite <- Hk.
  - destruct Hf as [Hg Hv]. rewrite Hv. split_and!; try done. by destruct Hok.
Qed.

(** A run: the observations made, keeping those that succeeded. *)
Fixpoint observe_all (obs : list observation) (reg : idx_pool_registry M) (h : heap)
    : list observation * idx_pool_registry M :=
  match obs with
  | [] => ([], reg)
  | o :: obs' =>
      let '(r, reg1, h1) := observe o reg h in
      let '(seen, reg2) := observe_all obs' reg1 h1 in
      (match r with Ok _ => o :: seen | Err _ => seen end, reg2)
  end.

Record describes (reg : idx_pool_registry M) (seen : list observation) : Prop := {
  described k : view reg !! k = describe k seen;
  dropped : creations_unmatched reg = u64 (Z.of_nat (unmatched [] seen))
}.

Lemma pool_observe_describes o reg h seen :
  registry_ok reg -> describes reg seen ->
  let '(r, reg', _) := observe o reg h in
  registry_ok reg' /\ describes reg' (match r with Ok _ => seen ++ [o] | Err _ => seen end).
Proof.
  intros Hok [Hd Hu]. destruct o as [row slot|c slot]; cbn [observe].
  - pose proof (observe_swap_spec row slot reg h Hok) as Hs.
    destruct (idx_pool_registry_observe_swap reg row slot h) as [[[[]|e] reg1] h1]; destruct Hs as (Hok1 & Hu1 & Hs);
      (split; [done|]); [|destruct Hs as [Hs _]; split; [intros k; by rewrite Hs|by rewrite Hu1]].
    split; [|by rewrite Hu1, Hu, unmatched_snoc, Nat.add_0_r].
    intros k. rewrite Hs. destruct (row_pool row) as [a|] eqn:Ha.
    + destruct (decide (address_key a = k)) as [<-|Hk].
      * by rewrite lookup_insert_eq, (describe_swap _ seen row slot a), <- Hd.
      * rewrite lookup_insert_ne by done. rewrite pool_describe_skip; [apply Hd| |done].
        cbn [swap_of]. rewrite Ha. rewrite bool_decide_false; [done|]. by intros [= E].
    + rewrite pool_describe_skip; [apply Hd| |done]. cbn [swap_of]. by rewrite Ha, bool_decide_false.
  - pose proof (observe_creation_spec c slot reg Hok) as Hs.
    destruct (idx_pool_registry_observe_creation reg c slot) as [r reg1]. destruct Hs as (-> & Hok1 & Hs).
    split; [done|]. destruct (pc_pool c) as [a|] eqn:Ha.
    + assert (forall k, address_key a <> k -> describe k (seen ++ [SawCreation c slot]) = describe k seen) as Hskip.
      { intros k Hk. apply pool_describe_skip; [done|]. cbn [creation_of]. rewrite Ha, bool_decide_false; [done|]. by intros [= E]. }
      pose proof (describe_creation _ seen c slot a Ha eq_refl) as Hown.
      pose proof (describe_traded (address_key a) seen) as Htr. rewrite <- Hd in Htr, Hown.
      destruct (view reg !! address_key a) as [t|] eqn:Hv; destruct Hs as [Hs Hu1]; split.
      * intros k. rewrite Hs. destruct (decide (address_key a = k)) as [<-|Hk].
        -- by rewrite lookup_insert_eq.
        -- by rewrite lookup_insert_ne, Hskip.
      * rewrite Hu1, Hu, unmatched_snoc. cbn [app unmatched_now]. rewrite Ha, bool_decide_false by (by apply Htr).
        by rewrite Nat.add_0_r.
      * intros k. rewrite Hs. destruct (decide (address_key a = k)) as [<-|Hk]; [by rewrite Hv|by rewrite Hskip].
      * rewrite Hu1, Hu, unmatched_snoc. cbn [app unmatched_now]. rewrite Ha, bool_decide_true.
        -- rewrite u64_add_l. f_equal. lia.
        -- destruct (omap (swap_of (address_key a)) seen); [done|]. by destruct (proj2 Htr ltac:(done)).
    + destruct Hs as [Hs Hu1]. split.
      * intros k. rewrite Hs, pool_describe_skip; [done|done|]. cbn [creation_of]. by rewrite Ha.
      * rewrite Hu1, Hu, unmatched_snoc. cbn [app unmatched_now]. by rewrite Ha, Nat.add_0_r.
Qed.

Lemma pool_observe_all_describes obs reg h seen :
  registry_ok reg -> describes reg seen ->
  let '(seen', reg') := observe_all obs reg h in
  registry_ok reg' /\ describes reg' (seen ++ seen') /\ seen' `sublist_of` obs.
Proof.
  revert reg h seen. induction obs as [|o obs IH]; intros reg h seen Hok Hd; cbn [observe_all].
  { rewrite app_nil_r. auto. }
  pose proof (pool_observe_describes o reg h seen Hok Hd) as Ho. destruct (observe o reg h) as [[r reg1] h1].
  destruct Ho as [Hok1 Hd1]. specialize (IH reg1 h1 _ Hok1 Hd1). destruct (observe_all obs reg1 h1) as [seen' reg2].
  destruct IH as (H1 & H2 & H3). destruct r; (split; [done|]); (split; [|by constructor]).
  - by rewrite <- app_assoc in H2.
  - done.
Qed.

Lemma pool_get_view reg a : registry_ok reg -> idx_pool_registry_get reg a = view reg !! address_key a.
Proof.
  intros Hok. unfold idx_pool_registry_get. pose proof (find_pool_spec reg a Hok) as Hf.
  destruct (find_pool reg a) as [p|]; [|exact (eq_sym (proj2 Hf))]. destruct Hf as (t & Hp & _ & Hv).
  cbn. by rewrite Hp.
Qed.

Lemma init_describes : describes (idx_pool_registry_init (M:=M)) [].
Proof. split; [|done]. intros k. by rewrite (proj2 pool_init_registry_ok), lookup_empty. Qed.

(** The pools swaps revealed: the addresses their rows name. *)
Definition revealed (seen : list observation) : gset bytes :=
  list_to_set (omap (fun o => match o with SawSwap row _ => address_key <$> row_pool row | SawCreation _ _ => None end) seen).

Lemma revealed_traded k seen : k ∈ revealed seen <-> omap (swap_of k) seen <> [].
Proof.
  unfold revealed. rewrite elem_of_list_to_set, list_elem_of_omap. split.
  - intros (o & Ho & Hk) Hnil. destruct o as [row slot|]; [|done].
    assert ((row, slot) ∈ omap (swap_of k) seen) as Hin.
    { apply list_elem_of_omap. exists (SawSwap row slot). split; [done|]. cbn [swap_of]. by rewrite Hk, bool_decide_true. }
    rewrite Hnil in Hin. by apply not_elem_of_nil in Hin.
  - intros Hne. destruct (omap (swap_of k) seen) as [|x l] eqn:E; [done|].
    assert (x ∈ omap (swap_of k) seen) as (o & Ho & Hx)%list_elem_of_omap by (rewrite E; left).
    exists o. split; [done|]. destruct o as [row slot|]; [|done]. cbn [swap_of] in Hx. by case_bool_decide.
Qed.

Lemma described_dom reg seen : describes reg seen -> dom (view reg) = revealed seen.
Proof.
  intros [Hd _]. apply set_eq. intros k. by rewrite elem_of_dom, Hd, describe_traded, revealed_traded.
Qed.

(** ** Properties *)

(** The registry is its history: after any sequence of swaps and creations, with
    memory running out anywhere, the record of an address is the one its successful
    observations describe.  The first swap makes it and dates it, its pair is the
    first two mints any side named whatever the direction, each with the first
    decimals seen, every swap counts, and only the first creation after the first
    swap enriches it.  A creation before any swap leaves no record and is counted. *)
Theorem pool_registry_history obs h :
  let '(seen, reg) := observe_all obs (idx_pool_registry_init (M:=M)) h in
  seen `sublist_of` obs /\
  (forall a, idx_pool_registry_get reg a = describe (address_key a) seen) /\
  creations_unmatched reg = u64 (Z.of_nat (unmatched [] seen)).
Proof.
  pose proof (pool_observe_all_describes obs _ h [] (proj1 pool_init_registry_ok) init_describes) as H'.
  destruct (observe_all _ _ _) as [seen reg]. destruct H' as (Hok & Hd & Hs). split_and!; [done| |apply Hd].
  intros a. rewrite pool_get_view by done. apply Hd.
Qed.

(** C36. The registry's invariant holds along every run: one live record for each key
    of the table and none unreachable, so the destructor frees every record once and
    none twice; [enriched] is the number of records with a creation, and the count is
    that of the pools the observed swaps revealed, each once, whatever creations came
    and whatever observations failed. *)
Theorem pool_registry_invariant obs h :
  let '(seen, reg) := observe_all obs (idx_pool_registry_init (M:=M)) h in
  registry_ok reg /\
  (idx_pool_registry_free reg).2 ≡ₚ map Some (seq 0 (length (pools reg))) /\
  idx_pool_registry_count reg = Z.of_nat (base.size (revealed seen)).
Proof.
  pose proof (pool_observe_all_describes obs _ h [] (proj1 pool_init_registry_ok) init_describes) as H'.
  destruct (observe_all _ _ _) as [seen reg]. destruct H' as (Hok & Hd & _). split_and!; [done| |].
  - unfold idx_pool_registry_free. cbn [snd]. apply (reg_values_all pool_key), Hok.
  - rewrite <- (described_dom reg seen Hd), size_dom. unfold idx_pool_registry_count. apply (reg_count pool_key _ _ []), Hok.
Qed.
End refinement.

(** ** Witnesses *)

Definition sample_swap_row (input output : idx_pubkey) (decimals : option Z) : idx_swap_row :=
  SwapRow IDX_SWAP_POOL IDX_VENUE_PUMP_AMM IDX_AMOUNT_EVENT (Stamp 0 0 false) (Some IDX_PROGRAM_MEMO) None
    (Some input) None decimals (Some output) None None.

Definition sample_creation (creator : idx_pubkey) : idx_pool_creation :=
  PoolCreation IDX_VENUE_PUMP_AMM (Some IDX_PROGRAM_MEMO) (Some creator).

(** A creation too early, a buy whose record is refused, a sell, a buy, and two
    creations. *)
Definition sample_observations : list observation :=
  [SawCreation (sample_creation IDX_PROGRAM_VOTE) 1;
   SawSwap (sample_swap_row IDX_PROGRAM_TOKEN IDX_PROGRAM_SYSTEM (Some 3)) 2;
   SawSwap (sample_swap_row IDX_PROGRAM_SYSTEM IDX_PROGRAM_TOKEN (Some 9)) 3;
   SawSwap (sample_swap_row IDX_PROGRAM_TOKEN IDX_PROGRAM_SYSTEM (Some 6)) 4;
   SawCreation (sample_creation IDX_PROGRAM_TOKEN) 5;
   SawCreation (sample_creation IDX_PROGRAM_VOTE) 6].

Lemma pool_registry_history_witness :
  let '(seen, reg) := observe_all sample_observations (idx_pool_registry_init (M:=idx_map ptr)) [false] in
  length seen = 5%nat /\ creations_unmatched reg = 1 /\
  idx_pool_registry_get reg IDX_PROGRAM_MEMO =
    Some (Pool IDX_PROGRAM_MEMO IDX_VENUE_PUMP_AMM (Some IDX_PROGRAM_SYSTEM) (Some 9)
            (Some IDX_PROGRAM_TOKEN) (Some 6) 3 2 (Some 5) (Some IDX_PROGRAM_TOKEN)).
Proof.
  pose proof (pool_registry_history (M:=idx_map ptr) sample_observations [false]) as H.
  assert ((observe_all sample_observations (idx_pool_registry_init (M:=idx_map ptr)) [false]).1 =
          take 1 sample_observations ++ drop 2 sample_observations) as Hseen
    by (vm_compute; reflexivity).
  destruct (observe_all _ _ _) as [seen reg]. cbn [fst] in Hseen. subst seen. destruct H as (_ & H & Hu).
  split; [reflexivity|]. split; [rewrite Hu; vm_compute; reflexivity|]. rewrite H. vm_compute. reflexivity.
Defined.

Lemma pool_registry_invariant_witness :
  let '(seen, reg) := observe_all sample_observations (idx_pool_registry_init (M:=idx_map ptr)) [false] in
  registry_ok reg /\ (idx_pool_registry_free reg).2 ≡ₚ [Some 0%nat] /\
  idx_pool_registry_count reg = Z.of_nat (base.size (revealed seen)) /\ base.size (revealed seen) = 1%nat.
Proof.
  pose proof (pool_registry_invariant (M:=idx_map ptr) sample_observations [false]) as H.
  assert (length (pools (observe_all sample_observations (idx_pool_registry_init (M:=idx_map ptr)) [false]).2) = 1%nat)
    as Hl by (vm_compute; reflexivity).
  assert (base.size (revealed (observe_all sample_observations (idx_pool_registry_init (M:=idx_map ptr)) [false]).1) = 1%nat)
    as Hr by (vm_compute; reflexivity).
  destruct (observe_all _ _ _) as [seen reg]. cbn [fst snd] in Hl, Hr. rewrite Hl in H. destruct H as (H1 & H2 & H3).
  exact (conj H1 (conj H2 (conj H3 Hr))).
Defined.
