(* ===== verification/Double.v ===== *)
(** * The doubles of the price series

    IEEE 754 binary64 as the Standard Library specifies it: [spec_float] at 53 bits
    of precision, rounding to nearest, ties to even.  [pow10_double] is the helper
    price.c and bar.c each carry a copy of.

    The comparisons of the source are an order on the doubles that are not negative
    and not NaN, which is what a price is ([price_ok]). *)

From Stdlib Require Import SpecFloat.
From S2P Require Import Prelude.
#[local] Open Scope Z_scope.

Abbreviation double := spec_float.

Definition prec : Z := 53.
Definition emax : Z := 1024.

(** [(double)n] of a [uint64_t] *)
Definition double_of_u64 (n : Z) : double := binary_normalize prec emax n 0 false.

Definition dmul : double -> double -> double := SFmul prec emax.
Definition ddiv : double -> double -> double := SFdiv prec emax.
Definition dadd : double -> double -> double := SFadd prec emax.
Definition dsub : double -> double -> double := SFsub prec emax.

(** [x < y] *)
Definition dlt (x y : double) : bool := SFltb x y.

(** src/src/price.c:156-162 [pow10_double]: the loop. *)
Definition pow10_loop (n : nat) (result : double) : double :=
  Nat.iter n (fun result => dmul result (double_of_u64 10)) result.

(** src/src/price.c:156-162 [pow10_double] *)
Definition pow10_double (n : Z) : double := pow10_loop (Z.to_nat n) (double_of_u64 1).

#[export] Instance double_eq_dec : EqDecision double.
Proof. solve_decision. Defined.

#[export] Instance double_inhabited : Inhabited double := populate (S754_zero false).

(** The double is exactly the integer [n]. *)
Definition is_integer (x : double) (n : Z) : bool :=
  match x with
  | S754_zero _ => n =? 0
  | S754_finite s m e => (if s then - Zpos m else Zpos m) * 2 ^ Z.max 0 e =? n * 2 ^ Z.max 0 (- e)
  | _ => false
  end.

(** ** The order of the prices *)

(** Neither negative nor NaN. *)
Definition price_ok (x : double) : bool :=
  match x with
  | S754_zero false | S754_infinity false | S754_finite false _ _ => true
  | _ => false
  end.

(** The position of a price in the order. *)
Definition position (x : double) : Z * Z :=
  match x with
  | S754_finite _ m e => (e, Zpos m)
  | _ => (0, 0)
  end.

Definition class (x : double) : Z :=
  match x with S754_zero _ => 0 | S754_finite _ _ _ => 1 | _ => 2 end.

Lemma dlt_spec x y :
  price_ok x = true -> price_ok y = true ->
  dlt x y = true <->
  class x < class y \/ class x = class y /\ ((position x).1 < (position y).1 \/ (position x).1 = (position y).1 /\ (position x).2 < (position y).2).
Proof.
  unfold dlt, SFltb, SFcompare.
  destruct x as [[]|[]| |[] m e], y as [[]|[]| |[] m' e']; try done; intros _ _; cbn; try (split; [done|lia]); try (split; [lia|done]).
  - destruct (Z.compare_spec e e') as [->|H|H]; [|split; [lia|done]|split; [done|lia]].
    change (Pos.compare_cont Eq m m') with (Pos.compare m m').
    destruct (Pos.compare_spec m m'); split; (done || lia).
Qed.

Lemma dlt_asym x y : price_ok x = true -> price_ok y = true -> dlt x y = true -> dlt y x = false.
Proof. intros Hx Hy. rewrite <- not_true_iff_false, !dlt_spec by done. lia. Qed.

Lemma dlt_trans x y z :
  price_ok x = true -> price_ok y = true -> price_ok z = true -> dlt x y = true -> dlt y z = true -> dlt x z = true.
Proof. intros Hx Hy Hz. rewrite !dlt_spec by done. lia. Qed.

Lemma dlt_irrefl x : dlt x x = false.
Proof.
  unfold dlt, SFltb, SFcompare. destruct x as [[]|[]| |[] m e]; try done; rewrite Z.compare_refl;
    change (Pos.compare_cont Eq m m) with (Pos.compare m m); by rewrite Pos.compare_refl.
Qed.

(** Prices neither of which is less are equal. *)
Lemma dlt_total x y :
  price_ok x = true -> price_ok y = true -> dlt x y = false -> dlt y x = false -> x = y.
Proof.
  intros Hx Hy. rewrite <- !not_true_iff_false, !dlt_spec by done. intros H1 H2.
  destruct x as [[]|[]| |[] m e], y as [[]|[]| |[] m' e']; try done; cbn in *; try lia. f_equal; lia.
Qed.

(** The greater and the smaller of two prices, the first when they are equal. *)
Definition dmax (x y : double) : double := if dlt x y then y else x.
Definition dmin (x y : double) : double := if dlt y x then y else x.

(** ** Powers of ten *)

(** The repeated multiply is exact up to 10^22, the last power of ten that is a
    double. *)
Lemma pow10_exact_below n : 0 <= n < 23 -> is_integer (pow10_double n) (10 ^ n) = true.
Proof. apply (forall_below 23 (fun n => is_integer (pow10_double n) (10 ^ n))). vm_compute. reflexivity. Qed.
