(* ===== verification/DoubleText.v ===== *)
(** * Doubles as bytes and as text

    The eight bytes of a double in memory, and what [printf("%.17g")] writes: the
    value rounded to seventeen significant digits, ties to even, without trailing
    zeros, in scientific form when the exponent is below -4 or above 16.  The
    arithmetic is exact, on integers.  Which bits a NaN has is the machine's. *)

From Stdlib Require Import SpecFloat.
From S2P Require Import Prelude Radix Decimal Double.
#[local] Open Scope Z_scope.

(** ** The bits *)

Definition sign_bit (s : bool) : Z := if s then 2 ^ 63 else 0.

(** [memcpy(&bits, &value, 8)] *)
Definition double_bits (nan_bits : Z) (d : double) : Z :=
  match d with
  | S754_zero s => sign_bit s
  | S754_infinity s => sign_bit s + 2047 * 2 ^ 52
  | S754_nan => nan_bits
  | S754_finite s m e =>
      sign_bit s + (if Zpos m <? 2 ^ 52 then Zpos m else (e + 1075) * 2 ^ 52 + (Zpos m - 2 ^ 52))
  end.

(** The double with these bits. *)
Definition double_of_bits (bits : Z) : double :=
  let s := 2 ^ 63 <=? bits in
  let exponent := bits / 2 ^ 52 mod 2048 in
  let fraction := bits mod 2 ^ 52 in
  if exponent =? 0 then match fraction with Zpos m => S754_finite s m (-1074) | _ => S754_zero s end
  else if exponent =? 2047 then if fraction =? 0 then S754_infinity s else S754_nan
  else match fraction + 2 ^ 52 with Zpos m => S754_finite s m (exponent - 1075) | _ => S754_nan end.

(** Bits of a NaN: the exponent all ones, the fraction not zero. *)
Definition is_nan_bits (bits : Z) : Prop :=
  is_u64 bits /\ bits / 2 ^ 52 mod 2048 = 2047 /\ bits mod 2 ^ 52 <> 0.

#[export] Instance is_nan_bits_dec bits : Decision (is_nan_bits bits).
Proof. unfold is_nan_bits. apply _. Defined.

(** ** The text *)

(** [n / d] to the nearest integer, ties to even. *)
Definition round_div (n d : Z) : Z :=
  let q := n / d in
  let r := n mod d in
  if 2 * r <? d then q else if d <? 2 * r then q + 1 else if Z.even q then q else q + 1.

(** How often [n] is multiplied by ten to reach [d], and [d] while [n] covers it. *)
Fixpoint scale_up (fuel : nat) (n d : Z) : Z :=
  match fuel with O => 0 | S fuel => if n <? d then 1 + scale_up fuel (n * 10) d else 0 end.
Fixpoint scale_down (fuel : nat) (n d : Z) : Z :=
  match fuel with O => 0 | S fuel => if d * 10 <=? n then 1 + scale_down fuel n (d * 10) else 0 end.

(** The decimal exponent of [n / d]: 10^x is the last power of ten that is not above it. *)
Definition decade (n d : Z) : Z := if n <? d then - scale_up 400 n d else scale_down 400 n d.

(** Seventeen digits of [n / d] and the exponent of the first. *)
Definition significant (n d : Z) : Z * Z :=
  let x := decade n d in
  let digits := if x <=? 16 then round_div (n * 10 ^ (16 - x)) d else round_div n (d * 10 ^ (x - 16)) in
  if digits =? 10 ^ 17 then (10 ^ 16, x + 1) else (digits, x).

(** The text without the zeros it ends in. *)
Fixpoint strip (l : bytes) : bytes :=
  match l with
  | [] => []
  | c :: l => match strip l with [] => if c =? 48 then [] else [c] | l => c :: l end
  end.

(** A point and the digits after it, when there are any. *)
Definition fraction (l : bytes) : bytes := match strip l with [] => [] | l => 46 :: l end.

(** [%g] with a precision of 17, of seventeen digits and their exponent. *)
Definition print_general (digits x : Z) : bytes :=
  let ds := dec digits in
  if (-4 <=? x) && (x <? 17) then
    if x <? 0 then [48] ++ fraction (replicate (Z.to_nat (- x - 1)) 48 ++ ds)
    else take (Z.to_nat (x + 1)) ds ++ fraction (drop (Z.to_nat (x + 1)) ds)
  else
    take 1 ds ++ fraction (drop 1 ds) ++ [101; if x <? 0 then 45 else 43] ++
    (if Z.abs x <? 10 then [48] else []) ++ dec (Z.abs x).

Definition minus (s : bool) : bytes := if s then [45] else [].

(** [snprintf("%.17g")] before it is cut to its buffer *)
Definition general_17 (nan_bits : Z) (d : double) : bytes :=
  match d with
  | S754_zero s => minus s ++ [48]
  | S754_infinity s => minus s ++ lit "inf"
  | S754_nan => minus (2 ^ 63 <=? nan_bits) ++ lit "nan"
  | S754_finite s m e =>
      let '(digits, x) := significant (Zpos m * 2 ^ Z.max 0 e) (2 ^ Z.max 0 (- e)) in
      minus s ++ print_general digits x
  end.

Definition isfinite (d : double) : bool :=
  match d with S754_zero _ | S754_finite _ _ _ => true | _ => false end.

(** The nearest double to the decimal [n / d], for the examples. *)
Example text_examples :
  let t n d := general_17 0 (ddiv (double_of_u64 n) (double_of_u64 d)) in
  t 1 10 = lit "0.10000000000000001" /\ t 1 1 = lit "1" /\ t 3 2 = lit "1.5" /\
  t 1 3 = lit "0.33333333333333331" /\ t 123456789 100000 = lit "1234.56789" /\
  t (10 ^ 17) 1 = lit "1e+17" /\ t (10 ^ 16) 1 = lit "10000000000000000" /\
  t 1 100000 = lit "1.0000000000000001e-05" /\ t 5 10000 = lit "0.00050000000000000001" /\
  general_17 0 (S754_finite true 1 (-1074)) = lit "-4.9406564584124654e-324" /\
  general_17 0 (S754_finite false (2 ^ 53 - 1) 971) = lit "1.7976931348623157e+308".
Proof. vm_compute. repeat split. Qed.

(** ** The bits determine the double *)

(** What a double of the format is made of. *)
Lemma bounded_facts m e :
  bounded prec emax m e = true ->
  0 < Zpos m < 2 ^ 53 /\ -1074 <= e <= 971 /\ (2 ^ 52 <= Zpos m \/ e = -1074).
Proof.
  unfold bounded, canonical_mantissa, fexp, SpecFloat.emin, prec, emax. intros [Hc He]%andb_true_iff.
  apply Z.eqb_eq in Hc. apply Z.leb_le in He.
  change (digits2_pos m) with (Pos.size m) in Hc.
  pose proof (Pos.size_gt m) as Hg. pose proof (Pos.size_le m) as Hl.
  apply Pos2Z.pos_lt_pos in Hg. rewrite Pos2Z.inj_pow in Hg. apply Pos2Z.pos_le_pos in Hl. rewrite Pos2Z.inj_pow in Hl.
  remember (Zpos (Pos.size m)) as k eqn:Ek. assert (0 < k) by lia.
  change (Zpos m~0) with (2 * Zpos m) in Hl. change (Zpos 2) with 2 in *.
  assert (k <= 53) by lia.
  pose proof (Z.pow_le_mono_r 2 k 53 ltac:(lia) ltac:(lia)).
  split_and!; try lia. destruct (Z.eq_dec e (-1074)) as [|Hne]; [by right|left].
  assert (k = 53) as -> by lia. change (2 ^ 53) with (2 * 2 ^ 52) in Hl. lia.
Qed.

Lemma sign_of_bits s r : 0 <= r < 2 ^ 63 ->
  (2 ^ 63 <=? sign_bit s + r) = s /\ (sign_bit s + r) / 2 ^ 52 mod 2048 = r / 2 ^ 52 /\ (sign_bit s + r) mod 2 ^ 52 = r mod 2 ^ 52.
Proof.
  intros Hr. destruct s; cbn [sign_bit].
  - split; [apply Z.leb_le; lia|]. assert (2 ^ 63 + r = r + 2048 * 2 ^ 52) as -> by lia.
    rewrite Z.div_add, Z_mod_plus_full by lia. split; [|done].
    rewrite <- (Z.mul_1_l 2048) at 1. rewrite Z_mod_plus_full. apply Z.mod_small.
    split; [apply Z.div_pos; lia|apply Z.div_lt_upper_bound; lia].
  - rewrite Z.add_0_l. split; [apply Z.leb_gt; lia|]. split; [|done]. apply Z.mod_small.
    split; [apply Z.div_pos; lia|apply Z.div_lt_upper_bound; lia].
Qed.

Lemma double_bits_range nan_bits d :
  valid_binary prec emax d = true -> is_nan_bits nan_bits -> is_u64 (double_bits nan_bits d).
Proof.
  intros Hd (Hn & _). destruct d as [s|s| |s m e]; cbn [double_bits]; [..|by idtac|]; unfold is_u64;
    try (destruct s; cbn [sign_bit]; lia).
  cbn [valid_binary] in Hd. destruct (bounded_facts m e Hd) as (Hm & He & _).
  destruct (Zpos m <? 2 ^ 52) eqn:E; zbool; destruct s; cbn [sign_bit]; lia.
Qed.

Lemma double_bits_inv nan_bits d :
  valid_binary prec emax d = true -> is_nan_bits nan_bits -> double_of_bits (double_bits nan_bits d) = d.
Proof.
  intros Hd (Hn & Hx & Hf). destruct d as [s|s| |s m e]; cbn [double_bits].
  - by destruct s.
  - by destruct s.
  - unfold double_of_bits. cbv zeta. rewrite Hx, (proj2 (Z.eqb_neq _ _) Hf). done.
  - cbn [valid_binary] in Hd. destruct (bounded_facts m e Hd) as (Hm & He & Hc). unfold double_of_bits. cbv zeta.
    destruct (Zpos m <? 2 ^ 52) eqn:E; zbool.
    + destruct (sign_of_bits s (Zpos m)) as (-> & -> & ->); [lia|].
      rewrite Z.div_small, Z.mod_small by lia. change (0 =? 0) with true. cbn iota.
      f_equal. lia.
    + destruct (sign_of_bits s ((e + 1075) * 2 ^ 52 + (Zpos m - 2 ^ 52))) as (-> & -> & ->); [lia|].
      rewrite (Z.add_comm ((e + 1075) * 2 ^ 52)), Z.div_add, Z_mod_plus_full by lia.
      rewrite Z.div_small, Z.mod_small by lia. rewrite Z.add_0_l.
      rewrite (proj2 (Z.eqb_neq _ 0)), (proj2 (Z.eqb_neq _ 2047)) by lia.
      assert (Zpos m - 2 ^ 52 + 2 ^ 52 = Zpos m) as -> by lia. f_equal. lia.
Qed.

(** ** The text fits its buffer *)

Lemma scale_up_spec fuel n d :
  0 < n -> d <= n * 10 ^ Z.of_nat fuel ->
  let k := scale_up fuel n d in
  0 <= k /\ d <= n * 10 ^ k /\ (k = 0 \/ n * 10 ^ k < d * 10).
Proof.
  cbv zeta. revert n. induction fuel as [|fuel IH]; intros n Hn Hf; cbn [scale_up]; [simpl in *; lia|].
  destruct (n <? d) eqn:E; zbool; [|rewrite Z.mul_1_r; lia].
  rewrite Nat2Z.inj_succ, Z.pow_succ_r in Hf by lia.
  destruct (IH (n * 10)) as (Hk & Hlo & Hhi); [lia..|]. rewrite Z.pow_add_r by lia.
  rewrite <- Z.mul_assoc in Hlo, Hhi. change (10 ^ 1) with 10. split_and!; [lia..|]. right.
  destruct Hhi as [H0|Hhi]; [rewrite H0, Z.mul_1_r; lia|lia].
Qed.

Lemma scale_down_spec fuel n d :
  0 < d <= n -> n < d * 10 ^ Z.of_nat fuel ->
  let k := scale_down fuel n d in 0 <= k /\ d * 10 ^ k <= n < d * 10 ^ k * 10.
Proof.
  cbv zeta. revert d. induction fuel as [|fuel IH]; intros d Hd Hf; cbn [scale_down]; [simpl in *; lia|].
  rewrite Nat2Z.inj_succ, Z.pow_succ_r in Hf by lia.
  destruct (d * 10 <=? n) eqn:E; zbool; [|rewrite Z.mul_1_r; lia].
  destruct (IH (d * 10)) as (Hk & H); [lia..|]. rewrite Z.pow_add_r by lia.
  rewrite <- Z.mul_assoc in H. change (10 ^ 1) with 10. lia.
Qed.

(** A value whose decimal exponent is within the fuel of the loops. *)
Definition printable (n d : Z) : Prop := 0 < n /\ 0 < d /\ d <= n * 10 ^ 400 /\ n < d * 10 ^ 400.

(** The exponent [x] of [n / d]: 10^x <= n / d < 10^(x + 1). *)
Lemma decade_spec n d :
  printable n d ->
  let x := decade n d in
  d * 10 ^ Z.max 0 x <= n * 10 ^ Z.max 0 (- x) /\ n * 10 ^ Z.max 0 (- x) < d * 10 ^ Z.max 0 x * 10.
Proof.
  intros (Hn & Hd & Hlo & Hhi). cbv zeta. unfold decade. destruct (n <? d) eqn:E; zbool.
  - destruct (scale_up_spec 400 n d) as (Hk & H1 & H2); [done|by change (Z.of_nat 400) with 400|].
    destruct (Z.eq_dec (scale_up 400 n d) 0) as [H0|H0]; [rewrite H0, Z.mul_1_r in H1; lia|].
    rewrite Z.max_l, Z.max_r by lia. rewrite Z.opp_involutive, Z.mul_1_r. lia.
  - destruct (scale_down_spec 400 n d) as (Hk & H1); [lia|by change (Z.of_nat 400) with 400|].
    rewrite Z.max_r, Z.max_l by lia. rewrite Z.mul_1_r. lia.
Qed.

(** [n * 10^(16 - x) / d], as a fraction of positive integers. *)
Definition scaled (n d x : Z) : Z * Z := (n * 10 ^ Z.max 0 (16 - x), d * 10 ^ Z.max 0 (x - 16)).

Lemma scaled_bounds n d :
  printable n d ->
  let '(a, b) := scaled n d (decade n d) in 0 < b /\ b * 10 ^ 16 <= a /\ a < b * 10 ^ 17.
Proof.
  intros Hp. pose proof (decade_spec n d Hp) as H. destruct Hp as (Hn & Hd & _). cbv zeta in H. unfold scaled.
  set (x := decade n d) in *. clearbody x. destruct H as [Hlo Hhi].
  assert (forall k, 0 <= k -> 0 < 10 ^ k) as Hpos by (intros; apply Z.pow_pos_nonneg; lia).
  destruct (Z.le_ge_cases x 0) as [Hx|Hx]; [|destruct (Z.le_ge_cases x 16)].
  - rewrite (Z.max_l 0 x), (Z.max_r 0 (- x)) in Hlo, Hhi by lia. rewrite Z.mul_1_r in Hlo, Hhi.
    rewrite (Z.max_r 0 (16 - x)), (Z.max_l 0 (x - 16)) by lia.
    replace (16 - x) with (- x + 16) by lia. rewrite Z.pow_add_r, Z.mul_assoc by lia.
    change (10 ^ 17) with (10 * 10 ^ 16). lia.
  - rewrite (Z.max_l 0 (- x)), (Z.max_r 0 x) in Hlo, Hhi by lia. rewrite Z.mul_1_r in Hlo, Hhi.
    rewrite (Z.max_r 0 (16 - x)), (Z.max_l 0 (x - 16)) by lia. rewrite Z.mul_1_r in *.
    assert (10 ^ 16 = 10 ^ x * 10 ^ (16 - x)) as E by (rewrite <- Z.pow_add_r by lia; f_equal; lia).
    pose proof (Hpos (16 - x) ltac:(lia)). pose proof (Hpos x ltac:(lia)).
    change (10 ^ 17) with (10 * 10 ^ 16). rewrite E. nia.
  - rewrite (Z.max_l 0 (- x)), (Z.max_r 0 x) in Hlo, Hhi by lia. rewrite Z.mul_1_r in Hlo, Hhi.
    rewrite (Z.max_l 0 (16 - x)), (Z.max_r 0 (x - 16)) by lia. rewrite Z.mul_1_r in *.
    assert (10 ^ x = 10 ^ (x - 16) * 10 ^ 16) as E by (rewrite <- Z.pow_add_r by lia; f_equal; lia).
    pose proof (Hpos (x - 16) ltac:(lia)). rewrite E in Hlo, Hhi. split; [nia|]. change (10 ^ 17) with (10 * 10 ^ 16). lia.
Qed.

Lemma round_div_near n d : 0 < d -> 2 * Z.abs (round_div n d * d - n) <= d.
Proof.
  intros Hd. unfold round_div. cbv zeta. pose proof (Z.div_mod n d ltac:(lia)). pose proof (Z.mod_pos_bound n d Hd).
  set (q := n / d) in *. set (r := n mod d) in *.
  destruct (2 * r <? d) eqn:E1; zbool; [lia|]. destruct (d <? 2 * r) eqn:E2; zbool; [lia|]. destruct (Z.even q); lia.
Qed.

Lemma round_div_bounds n d lo hi : 0 < d -> d * lo <= n < d * hi -> lo <= round_div n d <= hi.
Proof. intros Hd Hn. pose proof (round_div_near n d Hd). nia. Qed.

Lemma significant_bounds n d :
  printable n d ->
  let '(digits, x) := significant n d in
  10 ^ 16 <= digits < 10 ^ 17 /\ (x = decade n d \/ x = decade n d + 1).
Proof.
  intros Hp. pose proof (scaled_bounds n d Hp) as H. unfold scaled in H. destruct H as (Hb & Hlo & Hhi).
  unfold significant. cbv zeta. set (x := decade n d) in *. clearbody x.
  set (r := if x <=? 16 then _ else _).
  assert (10 ^ 16 <= r <= 10 ^ 17) as Hr.
  { subst r. destruct (x <=? 16) eqn:E; zbool.
    - rewrite (Z.max_r 0 (16 - x)), (Z.max_l 0 (x - 16)), Z.mul_1_r in * by lia. by apply round_div_bounds.
    - rewrite (Z.max_l 0 (16 - x)), (Z.max_r 0 (x - 16)), Z.mul_1_r in * by lia. by apply round_div_bounds. }
  destruct (r =? 10 ^ 17) eqn:E; zbool; (split; [|lia]); lia.
Qed.

(** A number below 10^k has at most [k] digits. *)
Lemma dec_width n k : 0 <= n < 10 ^ k -> 0 < k <= 20 -> size (dec n) <= k.
Proof.
  intros Hn Hk. destruct (dec_loop_spec 20 n []) as (l & Hl & Hd & Hv & Hne & Hlen & Hz); [|done|].
  { change (Z.of_nat 20) with 20. pose proof (Z.pow_le_mono_r 10 k 20 ltac:(lia) ltac:(lia)). lia. }
  unfold dec. rewrite Hl, app_nil_r. destruct l as [|c l]; [done|].
  inversion Hd as [|? ? Hc Hd']; subst. destruct (Z.eq_dec c 48) as [->|Hne48].
  { rewrite (Hz eq_refl). unfold size. simpl. lia. }
  rewrite dec_val_cons in Hn. pose proof (dec_val_nonneg l Hd'). unfold is_digit in Hc.
  destruct (Z.le_gt_cases (size (c :: l)) k) as [|Hgt]; [done|].
  assert (k <= size l) by (unfold size in *; simpl length in Hgt; lia).
  pose proof (Z.pow_le_mono_r 10 k (size l) ltac:(lia) ltac:(lia)). nia.
Qed.

Lemma strip_length l : (length (strip l) <= length l)%nat.
Proof.
  induction l as [|c l IH]; [done|]. cbn [strip]. destruct (strip l) as [|? ?]; [destruct (c =? 48)|]; simpl in *; lia.
Qed.

Lemma fraction_length l : (length (fraction l) <= S (length l))%nat.
Proof. unfold fraction. pose proof (strip_length l). destruct (strip l); simpl in *; lia. Qed.

Lemma print_general_size digits x :
  0 <= digits < 10 ^ 17 -> Z.abs x < 1000 -> size (print_general digits x) <= 23.
Proof.
  intros Hd Hx. pose proof (dec_width digits 17 Hd ltac:(lia)) as Hw. unfold print_general. cbv zeta.
  set (ds := dec digits) in *. clearbody ds. unfold size in *.
  destruct ((-4 <=? x) && (x <? 17)) eqn:E.
  - apply andb_true_iff in E as [E1%Z.leb_le E2%Z.ltb_lt]. destruct (x <? 0) eqn:E3; zbool; rewrite length_app.
    + pose proof (fraction_length (replicate (Z.to_nat (- x - 1)) 48 ++ ds)) as Hf.
      rewrite length_app, length_replicate in Hf. change (length [48]) with 1%nat. lia.
    + pose proof (fraction_length (drop (Z.to_nat (x + 1)) ds)) as Hf. rewrite length_drop in Hf. rewrite length_take. lia.
  - pose proof (fraction_length (drop 1 ds)) as Hf. rewrite length_drop in Hf.
    pose proof (dec_width (Z.abs x) 3 ltac:(lia) ltac:(lia)) as Hx3. unfold size in Hx3.
    rewrite !length_app, length_take. change (length [101; if x <? 0 then 45 else 43]) with 2%nat.
    destruct (Z.abs x <? 10) eqn:E10; zbool; [|simpl length; lia].
    pose proof (dec_width (Z.abs x) 1 ltac:(lia) ltac:(lia)) as Hx1. unfold size in Hx1. simpl length. lia.
Qed.

Lemma decade_range n d : printable n d -> -400 <= decade n d <= 400.
Proof.
  intros Hp. pose proof (decade_spec n d Hp) as H. destruct Hp as (Hn & Hd & Hlo & Hhi). cbv zeta in H.
  set (x := decade n d) in *. clearbody x. destruct H as [H1 H2].
  assert (10 ^ 401 = 10 * 10 ^ 400) as E401 by (by apply Z.eqb_eq).
  revert Hlo Hhi E401. generalize (10 ^ 400). intros big Hlo Hhi E401. split; apply Z.nlt_ge; intros Hx.
  - rewrite (Z.max_l 0 x), (Z.max_r 0 (- x)) in H2 by lia. rewrite Z.pow_0_r in H2.
    assert (10 ^ 401 <= 10 ^ (- x)) as Hp by (apply Z.pow_le_mono_r; lia). nia.
  - rewrite (Z.max_r 0 x), (Z.max_l 0 (- x)) in H1 by lia. rewrite Z.pow_0_r in H1.
    assert (10 ^ 401 <= 10 ^ x) as Hp by (apply Z.pow_le_mono_r; lia). nia.
Qed.

(** Every double of the format is within the fuel, and its exponent is small. *)
Lemma bounded_printable m e :
  bounded prec emax m e = true ->
  let n := Zpos m * 2 ^ Z.max 0 e in let d := 2 ^ Z.max 0 (- e) in
  printable n d /\ -400 <= decade n d <= 400.
Proof.
  intros Hb. destruct (bounded_facts m e Hb) as (Hm & He & _). cbv zeta.
  assert (printable (Zpos m * 2 ^ Z.max 0 e) (2 ^ Z.max 0 (- e))) as Hp.
  { pose proof (Z.pow_pos_nonneg 2 (Z.max 0 e) ltac:(lia) ltac:(lia)).
    pose proof (Z.pow_pos_nonneg 2 (Z.max 0 (- e)) ltac:(lia) ltac:(lia)).
    pose proof (Z.pow_le_mono_r 2 (Z.max 0 e) 971 ltac:(lia) ltac:(lia)) as H1.
    pose proof (Z.pow_le_mono_r 2 (Z.max 0 (- e)) 1074 ltac:(lia) ltac:(lia)) as H2.
    assert (2 ^ 1074 <= 10 ^ 400) as H3 by (by apply Z.leb_le).
    assert (2 ^ 53 * 2 ^ 971 < 10 ^ 400) as H4 by (by apply Z.ltb_lt).
    unfold printable. revert H1 H2 H3 H4. generalize (10 ^ 400) (2 ^ 1074) (2 ^ 971). intros big b1 b2 H1 H2 H3 H4.
    assert (0 < Zpos m * 2 ^ Z.max 0 e) by (apply Z.mul_pos_pos; lia).
    assert (Zpos m * 2 ^ Z.max 0 e <= 2 ^ 53 * b2) by (apply Z.mul_le_mono_nonneg; lia).
    assert (big * 1 <= big * (Zpos m * 2 ^ Z.max 0 e)) by (apply Z.mul_le_mono_nonneg_l; lia).
    assert (big * 1 <= big * 2 ^ Z.max 0 (- e)) by (apply Z.mul_le_mono_nonneg_l; lia).
    split_and!; lia. }
  split; [done|]. by apply decade_range.
Qed.

(** The text of a double needs 24 characters at most. *)
Lemma general_17_size nan_bits d : valid_binary prec emax d = true -> size (general_17 nan_bits d) <= 24.
Proof.
  intros Hd. destruct d as [s|s| |s m e]; cbn [general_17 valid_binary] in *.
  - by destruct s.
  - by destruct s.
  - by destruct (2 ^ 63 <=? nan_bits).
  - destruct (bounded_printable m e Hd) as [Hp Hx]. cbv zeta in Hp, Hx.
    pose proof (significant_bounds _ _ Hp) as Hs.
    destruct (significant _ _) as [digits x]. destruct Hs as [Hs Hsx].
    pose proof (print_general_size digits x ltac:(lia) ltac:(lia)) as Hg. unfold size in *. rewrite length_app.
    destruct s; simpl length; lia.
Qed.
