(* ===== verification/Price.v ===== *)
(** * price.c: quote mints and the price of a swap

    The quote set with its priorities, its parser, and the pricing of a swap row.
    A string is its bytes before the NUL.  A field of the row whose flag is not set
    is the zero the builder of swap.c left. *)

From S2P Require Import Prelude Double Base58 Bytes Types Walk VenueTypes Swap.
#[local] Open Scope Z_scope.

(** src/include/price.h:42-49 [idx_quote] *)
Inductive idx_quote :=
  | IDX_QUOTE_NONE
  | IDX_QUOTE_SOL
  | IDX_QUOTE_USDC
  | IDX_QUOTE_USDT
  | IDX_QUOTE_USD1
  | IDX_QUOTE_OTHER.

#[export] Instance idx_quote_eq_dec : EqDecision idx_quote.
Proof. solve_decision. Defined.

(** src/include/price.h:56-56 [IDX_QUOTE_SET_MAX] *)
Definition IDX_QUOTE_SET_MAX : Z := 16.

(** src/include/price.h:58-61 [idx_quote_mint] *)
Record idx_quote_mint := QuoteMint { qm_mint : idx_pubkey; qm_kind : idx_quote }.

#[export] Instance idx_quote_mint_eq_dec : EqDecision idx_quote_mint.
Proof. solve_decision. Defined.

(** The entries of the set in use, [count] the length. *)
Abbreviation idx_quote_set := (list idx_quote_mint).

(** src/src/price.c:16-26 [k_named_quotes] *)
Definition k_named_quotes : list (bytes * idx_quote * bytes) :=
  [(lit "sol", IDX_QUOTE_SOL, lit "So11111111111111111111111111111111111111112");
   (lit "wsol", IDX_QUOTE_SOL, lit "So11111111111111111111111111111111111111112");
   (lit "usdc", IDX_QUOTE_USDC, lit "EPjFWdd5AufqSSqeM2qN1xzybapC8G4wEGGkZwyTDt1v");
   (lit "usdt", IDX_QUOTE_USDT, lit "Es9vMFrzaCERmJfrF4H2FYD4KCoNkY11McCe8BenwNYB");
   (lit "usd1", IDX_QUOTE_USD1, lit "USD1ttGY1N17NEEHLmELoaybftRBUSErhqYiQzvEmuB")].

(** src/src/price.c:28-44 [idx_quote_name] *)
Definition idx_quote_name (quote : idx_quote) : bytes :=
  match quote with
  | IDX_QUOTE_NONE => lit "none"
  | IDX_QUOTE_SOL => lit "sol"
  | IDX_QUOTE_USDC => lit "usdc"
  | IDX_QUOTE_USDT => lit "usdt"
  | IDX_QUOTE_USD1 => lit "usd1"
  | IDX_QUOTE_OTHER => lit "other"
  end.

(** ** Building the set *)

(** [strcasecmp(a, b) == 0] in the C locale *)
Definition to_lower (c : Z) : Z := if (65 <=? c) && (c <=? 90) then c + 32 else c.
Definition strcasecmp_eq (a b : bytes) : bool := bool_decide (map to_lower a = map to_lower b).

(** The set has this mint. *)
Definition listed (set : idx_quote_set) (mint : idx_pubkey) : bool :=
  existsb (fun m => idx_pubkey_equal (qm_mint m) mint) set.

(** src/src/price.c:51-66 [add_quote] *)
Definition add_quote (set : idx_quote_set) (mint : idx_pubkey) (kind : idx_quote) : result unit * idx_quote_set :=
  if listed set mint then (Ok tt, set)
  else if IDX_QUOTE_SET_MAX <=? size set then (IDX_FAIL IDX_ERR_RANGE, set)
  else (Ok tt, set ++ [QuoteMint mint kind]).

(** src/src/price.c:70-94 [add_entry] *)
Definition add_entry (set : idx_quote_set) (token : bytes) (h : heap) : result unit * idx_quote_set * heap :=
  match List.find (fun q => strcasecmp_eq token q.1.1) k_named_quotes with
  | Some (_, kind, text) =>
      let '(mint, h) := idx_pubkey_from_base58 (Some text) true h in
      match mint with
      | Err e => (Err e, set, h)
      | Ok mint => let '(r, set) := add_quote set mint kind in (r, set, h)
      end
  | None =>
      let '(mint, h) := idx_pubkey_from_base58 (Some token) true h in
      match mint with
      | Err _ => (IDX_FAIL IDX_ERR_PARSE, set, h)
      | Ok mint => let '(r, set) := add_quote set mint IDX_QUOTE_OTHER in (r, set, h)
      end
  end.

Definition is_space (c : Z) : bool := (c =? 32) || (c =? 9).
Definition is_comma (c : Z) : bool := c =? 44.

(** [while (f( *p )) p++] *)
Fixpoint skip (f : Z -> bool) (p : bytes) : bytes :=
  match p with
  | c :: p' => if f c then skip f p' else p
  | [] => []
  end.

(** The bytes such a loop passes over. *)
Fixpoint passed (f : Z -> bool) (p : bytes) : bytes :=
  match p with
  | c :: p' => if f c then c :: passed f p' else []
  | [] => []
  end.

(** src/src/price.c:114-118 [idx_quote_set_parse]: the trailing spaces off. *)
Definition trim_end (token : bytes) : bytes := reverse (skip is_space (reverse token)).

(** src/src/price.c:105-135 [idx_quote_set_parse]: the loop; an iteration moves
    [p] on, so the length of the text bounds them. *)
Fixpoint parse_loop (fuel : nat) (p : bytes) (set : idx_quote_set) (h : heap) : result unit * idx_quote_set * heap :=
  match fuel, p with
  | O, _ | _, [] => (Ok tt, set, h)
  | S fuel', _ =>
      let start := skip (fun c => is_comma c || is_space c) p in
      let p' := skip (fun c => negb (is_comma c)) start in
      let token := trim_end (passed (fun c => negb (is_comma c)) start) in
      if bool_decide (token = []) then parse_loop fuel' p' set h
      else if IDX_PUBKEY_STR_MAX <=? size token then (IDX_FAIL IDX_ERR_RANGE, set, h)
      else
        let '(r, set', h') := add_entry set token h in
        match r with
        | Err e => (Err e, set', h')
        | Ok _ => parse_loop fuel' p' set' h'
        end
  end.

(** src/src/price.c:96-137 [idx_quote_set_parse] *)
Definition idx_quote_set_parse (spec : option bytes) (h : heap) : result unit * option idx_quote_set * heap :=
  match spec with
  | None => (IDX_FAIL IDX_ERR_INVALID_ARG, None, h)
  | Some spec => let '(r, set, h) := parse_loop (length spec) spec [] h in (r, Some set, h)
  end.

(** src/src/price.c:139-149 [idx_quote_set_defaults] *)
Definition idx_quote_set_defaults (h : heap) : idx_quote_set :=
  match idx_quote_set_parse (Some (lit "usdc,usdt,usd1,sol")) h with
  | (Ok _, Some set, _) => set
  | _ => []
  end.

(** ** Pricing *)

(** src/include/price.h:98-111 [idx_price] *)
Record idx_price := Price {
  priced : bool;
  pr_quote : idx_quote;
  quote_mint : idx_pubkey;
  base_mint : idx_pubkey;
  quote_amount : Z;
  base_amount : Z;
  quote_decimals : Z;
  base_decimals : Z;
  price : option double
}.

(** [memset(out, 0, sizeof *out)] *)
Definition no_price : idx_price :=
  Price false IDX_QUOTE_NONE IDX_PUBKEY_DEFAULT IDX_PUBKEY_DEFAULT 0 0 0 0 None.

(** src/src/price.c:165-176 [quote_rank]: from entry [i] on, with the kind; [None] for
    -1. *)
Fixpoint quote_rank_from (i : nat) (set : idx_quote_set) (mint : idx_pubkey) : option (nat * idx_quote) :=
  match set with
  | [] => None
  | m :: set' => if idx_pubkey_equal (qm_mint m) mint then Some (i, qm_kind m) else quote_rank_from (S i) set' mint
  end.

(** src/src/price.c:165-176 [quote_rank] *)
Definition quote_rank (set : idx_quote_set) (mint : idx_pubkey) : option (nat * idx_quote) :=
  quote_rank_from 0 set mint.

(** src/src/price.c:243-245 [idx_price_of_swap]: the number. *)
Definition price_number (quote_amount quote_decimals base_amount base_decimals : Z) : double :=
  ddiv (ddiv (double_of_u64 quote_amount) (pow10_double quote_decimals))
       (ddiv (double_of_u64 base_amount) (pow10_double base_decimals)).

(** src/src/price.c:214-247 [idx_price_of_swap]: the output, once the sides are
    known; a side is a mint, an amount and decimals. *)
Definition price_sides (kind : idx_quote) (quote base : option idx_pubkey * option Z * option Z) : idx_price :=
  let '(qm, qa, qd) := quote in
  let '(bm, ba, bd) := base in
  let has_price :=
    bool_decide (is_Some bm) && (bool_decide (is_Some qa) && bool_decide (is_Some ba)) &&
    (bool_decide (is_Some qd) && bool_decide (is_Some bd)) && negb (or_zero ba =? 0) in
  Price true kind (key_or_zero qm) (key_or_zero bm) (or_zero qa) (or_zero ba) (or_zero qd) (or_zero bd)
    (if has_price then Some (price_number (or_zero qa) (or_zero qd) (or_zero ba) (or_zero bd)) else None).

(** src/src/price.c:178-249 [idx_price_of_swap]; [priced] is the value returned. *)
Definition idx_price_of_swap (set : option idx_quote_set) (row : option idx_swap_row) : idx_price :=
  match set, row with
  | Some set, Some row =>
      let input := (sr_input_mint row, sr_input_amount row, sr_input_decimals row) in
      let output := (sr_output_mint row, sr_output_amount row, sr_output_decimals row) in
      match sr_input_mint row ≫= quote_rank set, sr_output_mint row ≫= quote_rank set with
      | None, None => no_price
      | None, Some (_, kind) => price_sides kind output input
      | Some (_, kind), None => price_sides kind input output
      | Some (i, input_kind), Some (o, output_kind) =>
          if (i <=? o)%nat then price_sides input_kind input output
          else price_sides output_kind output input
      end
  | _, _ => no_price
  end.

(** ** The text of a set *)

(** The fields between the separators. *)
Fixpoint split_on (f : Z -> bool) (p : bytes) : list bytes :=
  match p with
  | [] => [[]]
  | c :: p' =>
      if f c then [] :: split_on f p'
      else match split_on f p' with [] => [[c]] | l :: ls => (c :: l) :: ls end
  end.

Definition strip (l : bytes) : bytes := trim_end (skip is_space l).

(** The entries of a list: what is between the commas, less the spaces around it,
    less what is empty. *)
Definition fields (spec : bytes) : list bytes := filter (fun l => l <> []) (map strip (split_on is_comma spec)).

(** The entries added in order, up to the first that is refused. *)
Fixpoint add_all (tokens : list bytes) (set : idx_quote_set) (h : heap) : result unit * idx_quote_set * heap :=
  match tokens with
  | [] => (Ok tt, set, h)
  | token :: tokens' =>
      if IDX_PUBKEY_STR_MAX <=? size token then (IDX_FAIL IDX_ERR_RANGE, set, h)
      else
        let '(r, set', h') := add_entry set token h in
        match r with
        | Err e => (Err e, set', h')
        | Ok _ => add_all tokens' set' h'
        end
  end.

Lemma split_on_cons f p : exists l ls, split_on f p = l :: ls.
Proof. destruct p as [|c p]; simpl; [eauto|]. destruct (f c); [eauto|]. destruct (split_on f p); eauto. Qed.

Lemma split_on_passed f p :
  split_on f p =
    passed (fun c => negb (f c)) p ::
    match skip (fun c => negb (f c)) p with [] => [] | _ :: p' => split_on f p' end.
Proof.
  induction p as [|c p IH]; [done|]. simpl. destruct (f c); simpl; [done|]. by rewrite IH.
Qed.

(** The separators skipped before an entry are empty fields and leading spaces. *)
Lemma fields_skip p :
  fields p = fields (skip (fun c => is_comma c || is_space c) p).
Proof.
  induction p as [|c p IH]; [done|]. cbn [skip]. destruct (is_comma c) eqn:Ec; cbn [orb].
  - rewrite <- IH. unfold fields. cbn [split_on map]. rewrite Ec. cbn [map]. by rewrite filter_cons_False by (intros H; by apply H).
  - destruct (is_space c) eqn:Es; [|done]. rewrite <- IH. unfold fields. cbn [split_on]. rewrite Ec.
    destruct (split_on_cons is_comma p) as (l & ls & ->). cbn [map].
    assert (strip (c :: l) = strip l) as -> by (unfold strip; cbn [skip]; by rewrite Es). done.
Qed.

Lemma skip_head f p : match skip f p with [] => True | c :: _ => f c = false end.
Proof. induction p as [|c p IH]; simpl; [done|]. by destruct (f c) eqn:E. Qed.

Lemma skip_le f p : (length (skip f p) <= length p)%nat.
Proof. induction p as [|c p IH]; simpl; [done|]. destruct (f c); simpl; lia. Qed.

Lemma skip_none f p : match p with [] => True | c :: _ => f c = false end -> skip f p = p.
Proof. destruct p as [|c p]; [done|]. simpl. by intros ->. Qed.

Lemma passed_head f p c l : passed f p = c :: l -> exists p', p = c :: p' /\ f c = true.
Proof. destruct p as [|x p]; [done|]. simpl. destruct (f x) eqn:E; [|done]. intros [= -> _]. eauto. Qed.

Lemma skip_shorter f p c l : passed f p = c :: l -> (length (skip f p) < length p)%nat.
Proof.
  intros H. destruct (passed_head _ _ _ _ H) as (p' & -> & Hc). simpl. rewrite Hc. pose proof (skip_le f p'). lia.
Qed.

(** One round of the loop takes the next entry. *)
Lemma fields_round p :
  let start := skip (fun c => is_comma c || is_space c) p in
  let p' := skip (fun c => negb (is_comma c)) start in
  let token := trim_end (passed (fun c => negb (is_comma c)) start) in
  fields p = (if bool_decide (token = []) then [] else [token]) ++ fields p'.
Proof.
  cbn zeta. rewrite fields_skip. set (start := skip (fun c => is_comma c || is_space c) p).
  assert (match start with [] => True | c :: _ => is_comma c || is_space c = false end) as Hstart by apply skip_head.
  clearbody start. unfold fields at 1. rewrite split_on_passed. cbn [map].
  assert (strip (passed (fun c => negb (is_comma c)) start) = trim_end (passed (fun c => negb (is_comma c)) start)) as ->.
  { unfold strip. f_equal. apply skip_none. destruct (passed _ start) as [|c l] eqn:E; [done|].
    destruct (passed_head _ _ _ _ E) as (p' & -> & _). by apply orb_false_iff in Hstart as [_ ?]. }
  pose proof (skip_head (fun c => negb (is_comma c)) start) as Hs.
  assert (fields (skip (fun c => negb (is_comma c)) start) =
    filter (fun l => l <> []) (map strip (match skip (fun c => negb (is_comma c)) start with
                                          | [] => [] | _ :: p' => split_on is_comma p' end))) as ->.
  { destruct (skip _ start) as [|c p']; [done|]. apply negb_false_iff in Hs.
    unfold fields. cbn [split_on]. rewrite Hs. cbn [map]. by rewrite filter_cons_False by (intros H; by apply H). }
  case_bool_decide as E.
  - rewrite filter_cons_False; [done|]. intros H. by apply H.
  - by rewrite filter_cons_True.
Qed.

Lemma parse_loop_spec fuel p set h :
  (length p <= fuel)%nat -> parse_loop fuel p set h = add_all (fields p) set h.
Proof.
  revert p set h. induction fuel as [|fuel IH]; intros p set h Hf.
  { destruct p; [done|simpl in Hf; lia]. }
  destruct p as [|c p]; [done|]. remember (c :: p) as q eqn:Eq.
  assert (parse_loop (S fuel) q set h = 
    (let start := skip (fun c => is_comma c || is_space c) q in
      let p' := skip (fun c => negb (is_comma c)) start in
      let token := trim_end (passed (fun c => negb (is_comma c)) start) in
      if bool_decide (token = []) then parse_loop fuel p' set h
      else if IDX_PUBKEY_STR_MAX <=? size token then (IDX_FAIL IDX_ERR_RANGE, set, h)
      else
        let '(r, set', h') := add_entry set token h in
        match r with
        | Err e => (Err e, set', h')
        | Ok _ => parse_loop fuel p' set' h'
        end)) as -> by (subst q; reflexivity).
  rewrite (fields_round q). cbn zeta.
  set (start := skip (fun c => is_comma c || is_space c) q) in *.
  assert (length (skip (fun c => negb (is_comma c)) start) <= fuel)%nat as Hlen.
  { destruct (passed (fun c => negb (is_comma c)) start) as [|x l] eqn:E.
    - assert (length start < length q)%nat as Hlt.
      { pose proof (skip_head (fun c => is_comma c || is_space c) q) as Hs. fold start in Hs.
        destruct start as [|x start'] eqn:Es; [subst q; simpl; lia|].
        simpl in E. apply orb_false_iff in Hs as [Hc _]. by rewrite Hc in E. }
      pose proof (skip_le (fun c => negb (is_comma c)) start). lia.
    - pose proof (skip_shorter _ _ _ _ E). pose proof (skip_le (fun c => is_comma c || is_space c) q).
      fold start in H0. lia. }
  case_bool_decide; [by apply IH|]. cbn [app add_all]. case_match; [done|].
  destruct (add_entry set _ h) as [[[[]|e] set'] h']; [by apply IH|done].
Qed.

(** ** The set *)

(** At most [IDX_QUOTE_SET_MAX] entries, no mint twice. *)
Record set_ok (set : idx_quote_set) : Prop := {
  set_size : size set <= IDX_QUOTE_SET_MAX;
  set_distinct i j a b :
    set !! i = Some a -> set !! j = Some b -> idx_pubkey_equal (qm_mint a) (qm_mint b) = true -> i = j
}.

Lemma listed_spec set mint :
  listed set mint = true <-> exists i q, set !! i = Some q /\ idx_pubkey_equal (qm_mint q) mint = true.
Proof.
  unfold listed. rewrite existsb_exists. split.
  - intros (q & Hin & Hq). apply list_elem_of_In, list_elem_of_lookup in Hin as [i Hi]. eauto.
  - intros (i & q & Hi & Hq). exists q. split; [|done]. apply list_elem_of_In. by eapply list_elem_of_lookup_2.
Qed.

Lemma equal_sym a b : idx_pubkey_equal a b = idx_pubkey_equal b a.
Proof. unfold idx_pubkey_equal, memcmp_eq. by apply bool_decide_ext. Qed.

Lemma add_quote_ok set mint kind :
  set_ok set -> set_ok (add_quote set mint kind).2 /\ set `prefix_of` (add_quote set mint kind).2.
Proof.
  intros [Hs Hd]. unfold add_quote. destruct (listed set mint) eqn:El; [by split|].
  destruct (IDX_QUOTE_SET_MAX <=? size set) eqn:Es; [by split|]. apply not_true_iff_false in El.
  split; [|by apply prefix_app_r]. cbn [snd]. split.
  - unfold size in *. rewrite length_app. simpl. zlia.
  - intros i j a b Ha Hb E. rewrite lookup_snoc_Some in Ha, Hb.
    destruct Ha as [[Hi Ha]|[-> <-]], Hb as [[Hj Hb]|[-> <-]]; [eauto|..|done]; exfalso; apply El, listed_spec.
    + cbn in E. eauto.
    + cbn in E. rewrite equal_sym in E. eauto.
Qed.

Lemma add_entry_ok set token h :
  set_ok set -> set_ok (add_entry set token h).1.2 /\ set `prefix_of` (add_entry set token h).1.2.
Proof.
  intros Hs. unfold add_entry. destruct (List.find _ _) as [[[name kind] text]|].
  - destruct (idx_pubkey_from_base58 _ _ _) as [[mint|e] h']; [|by split].
    pose proof (add_quote_ok set mint kind Hs). by destruct (add_quote set mint kind).
  - destruct (idx_pubkey_from_base58 _ _ _) as [[mint|e] h']; [|by split].
    pose proof (add_quote_ok set mint IDX_QUOTE_OTHER Hs). by destruct (add_quote set mint IDX_QUOTE_OTHER).
Qed.

Lemma add_all_ok tokens set h :
  set_ok set -> set_ok (add_all tokens set h).1.2 /\ set `prefix_of` (add_all tokens set h).1.2.
Proof.
  revert set h. induction tokens as [|token tokens IH]; intros set h Hs; cbn [add_all]; [by split|].
  case_match; [by split|]. pose proof (add_entry_ok set token h Hs) as [H1 H2].
  destruct (add_entry set token h) as [[[[]|e] set'] h']; [|by split].
  destruct (IH set' h' H1) as [H3 H4]. split; [done|]. by etrans.
Qed.

(** The rank is the place of the first entry with the mint. *)
Lemma quote_rank_from_spec i set mint :
  match quote_rank_from i set mint with
  | Some (k, kind) => (i <= k)%nat /\ exists q, set !! (k - i)%nat = Some q /\ idx_pubkey_equal (qm_mint q) mint = true /\
      qm_kind q = kind /\
      forall j q', (j < k - i)%nat -> set !! j = Some q' -> idx_pubkey_equal (qm_mint q') mint = false
  | None => forall j q', set !! j = Some q' -> idx_pubkey_equal (qm_mint q') mint = false
  end.
Proof.
  revert i. induction set as [|m set IH]; intros i; cbn [quote_rank_from]; [done|].
  destruct (idx_pubkey_equal (qm_mint m) mint) eqn:E.
  - split; [done|]. exists m. rewrite Nat.sub_diag. split_and!; [done..|]. intros j q' Hj. lia.
  - specialize (IH (S i)). destruct (quote_rank_from (S i) set mint) as [[k kind]|].
    + destruct IH as (Hk & q & Hq & Hm & Hkind & Hbefore). split; [lia|]. exists q.
      replace (k - i)%nat with (S (k - S i)) by lia. split_and!; [done..|].
      intros [|j] q' Hj Hl; [by injection Hl as <-|]. apply (Hbefore j); [lia|done].
    + intros [|j] q' Hl; [by injection Hl as <-|]. by apply (IH j).
Qed.

Lemma price_sides_number kind qm qa qd bm ba bd x :
  price (price_sides kind (qm, qa, qd) (bm, ba, bd)) = Some x <->
  exists b a c d e, bm = Some b /\ qa = Some a /\ ba = Some c /\ qd = Some d /\ bd = Some e /\ c <> 0 /\
    x = ddiv (ddiv (double_of_u64 a) (pow10_double d)) (ddiv (double_of_u64 c) (pow10_double e)).
Proof.
  unfold price_sides, price_number. cbn [price].
  assert (forall (A : Type) (o : option A) , bool_decide (is_Some o) = if o is Some _ then true else false) as Hb.
  { intros A [a|]; [by apply bool_decide_eq_true_2|]. apply bool_decide_eq_false_2. by intros []. }
  rewrite !Hb. split.
  - destruct bm as [b|], qa as [a|], ba as [c|], qd as [d|], bd as [e|]; cbn [andb or_zero default id]; try done.
    destruct (c =? 0) eqn:E; cbn [negb andb]; [done|]. intros [= <-]. exists b, a, c, d, e. split_and!; (done || zlia).
  - intros (b & a & c & d & e & -> & -> & -> & -> & -> & Hc & ->). cbn [andb or_zero default id].
    by rewrite (proj2 (Z.eqb_neq c 0) Hc).
Qed.

(** The rank of the row's sides, and what it says of the entries. *)
Lemma side_rank set (m : option idx_pubkey) :
  match m ≫= quote_rank set with
  | Some (i, kind) => exists mint q, m = Some mint /\ set !! i = Some q /\ idx_pubkey_equal (qm_mint q) mint = true /\
      qm_kind q = kind /\
      forall j q', (j < i)%nat -> set !! j = Some q' -> idx_pubkey_equal (qm_mint q') mint = false
  | None => forall j q' mint, m = Some mint -> set !! j = Some q' -> idx_pubkey_equal (qm_mint q') mint = false
  end.
Proof.
  destruct m as [mint|]; [|done]. cbn. pose proof (quote_rank_from_spec 0 set mint) as H. unfold quote_rank.
  destruct (quote_rank_from 0 set mint) as [[i kind]|].
  - destruct H as (_ & q & Hq & Hm & Hk & Hb). rewrite Nat.sub_0_r in *. exists mint, q. by split_and!.
  - intros j q' ? [= <-]. apply H.
Qed.

(** ** Properties *)

(** The parser reads the list: for any text, [idx_quote_set_parse] adds the
    entries between the commas, stripped of spaces and tabs, the empty ones left
    out, in order, and stops at the first that is too long, no name and no key, or
    one too many. *)
Theorem quote_set_parse_fields spec h :
  idx_quote_set_parse (Some spec) h =
    let '(r, set, h') := add_all (fields spec) [] h in (r, Some set, h').
Proof. unfold idx_quote_set_parse. by rewrite parse_loop_spec. Qed.

(** A parsed set is well formed whatever the text and the outcome: at most
    sixteen mints, no mint twice, so a repeated mint keeps its first rank; and
    every mint of it is found by [quote_rank] at its own place.  The default set
    is usdc, usdt, usd1, sol. *)
Theorem quote_set_well_formed spec h :
  (exists set, (idx_quote_set_parse (Some spec) h).1.2 = Some set /\ set_ok set /\
     forall i q, set !! i = Some q -> quote_rank set (qm_mint q) = Some (i, qm_kind q)) /\
  map qm_kind (idx_quote_set_defaults []) = [IDX_QUOTE_USDC; IDX_QUOTE_USDT; IDX_QUOTE_USD1; IDX_QUOTE_SOL].
Proof.
  split; [|vm_compute; reflexivity]. unfold idx_quote_set_parse. rewrite parse_loop_spec by done.
  assert (set_ok []) as H0 by (split; [done|by intros]).
  destruct (add_all_ok (fields spec) [] h H0) as [Hok _]. destruct (add_all (fields spec) [] h) as [[r set] h'].
  exists set. split_and!; [done|done|]. intros i q Hq. pose proof (quote_rank_from_spec 0 set (qm_mint q)) as H.
  assert (idx_pubkey_equal (qm_mint q) (qm_mint q) = true) as Hself
    by (unfold idx_pubkey_equal, memcmp_eq; by apply bool_decide_eq_true).
  unfold quote_rank. destruct (quote_rank_from 0 set (qm_mint q)) as [[k kind]|].
  - destruct H as (_ & q' & Hq' & Hm & <- & _). rewrite Nat.sub_0_r in Hq'.
    assert (k = i) as -> by (by eapply (set_distinct _ Hok)). congruence.
  - by rewrite (H i q Hq) in Hself.
Qed.

(** A side of a row. *)
Definition input_side (row : idx_swap_row) := (sr_input_mint row, sr_input_amount row, sr_input_decimals row).
Definition output_side (row : idx_swap_row) := (sr_output_mint row, sr_output_amount row, sr_output_decimals row).

(** The entry is for one of the row's mints. *)
Definition row_mint (row : idx_swap_row) (q : idx_quote_mint) : Prop :=
  exists m, (sr_input_mint row = Some m \/ sr_output_mint row = Some m) /\ idx_pubkey_equal (qm_mint q) m = true.

(** C35. A swap is priced in its best quote: it has a price exactly when a side is a
    mint of the set; the quote side is then the one whose mint comes first in the
    set and the base the other, mints, amounts and decimals with them, whatever the
    direction of the swap; and there is a number exactly when both mints, amounts
    and decimals are known and the base is not zero: the quotient of the scaled
    amounts, each rounded to a double. *)
Theorem price_of_swap_exact set row :
  let p := idx_price_of_swap (Some set) (Some row) in
  (priced p = true <-> exists i q, set !! i = Some q /\ row_mint row q) /\
  (priced p = true -> exists i q m qa qd bm ba bd,
    (((Some m, qa, qd), (bm, ba, bd)) = (input_side row, output_side row) \/
     ((Some m, qa, qd), (bm, ba, bd)) = (output_side row, input_side row)) /\
    set !! i = Some q /\ idx_pubkey_equal (qm_mint q) m = true /\
    (forall j q', (j < i)%nat -> set !! j = Some q' -> ~ row_mint row q') /\
    pr_quote p = qm_kind q /\ quote_mint p = m /\ base_mint p = key_or_zero bm /\
    quote_amount p = or_zero qa /\ base_amount p = or_zero ba /\
    quote_decimals p = or_zero qd /\ base_decimals p = or_zero bd /\
    forall x, price p = Some x <->
      exists b a c d e, bm = Some b /\ qa = Some a /\ ba = Some c /\ qd = Some d /\ bd = Some e /\ c <> 0 /\
        x = ddiv (ddiv (double_of_u64 a) (pow10_double d)) (ddiv (double_of_u64 c) (pow10_double e))).
Proof.
  cbn zeta. unfold idx_price_of_swap. pose proof (side_rank set (sr_input_mint row)) as Hi.
  pose proof (side_rank set (sr_output_mint row)) as Ho. unfold input_side, output_side, row_mint.
  destruct (sr_input_mint row ≫= quote_rank set) as [[i ki]|], (sr_output_mint row ≫= quote_rank set) as [[o ko]|].
  - destruct Hi as (mi & qi & Emi & Hqi & Hmi & Hki & Hbi), Ho as (mo & qo & Emo & Hqo & Hmo & Hko & Hbo).
    rewrite Emi, Emo in *. destruct (i <=? o)%nat eqn:Eio; [apply Nat.leb_le in Eio|apply Nat.leb_gt in Eio].
    + split; [split; [intros _; eauto 7|done]|]. intros _. exists i, qi, mi, (sr_input_amount row), (sr_input_decimals row),
        (Some mo), (sr_output_amount row), (sr_output_decimals row). split_and!; try done; [by left| |].
      * intros j q' Hj Hl (m & [[= <-]|[= <-]] & Hm); [by rewrite (Hbi j q') in Hm|rewrite (Hbo j q') in Hm; [done|lia|done]].
      * intros x. apply price_sides_number.
    + split; [split; [intros _; eauto 7|done]|]. intros _. exists o, qo, mo, (sr_output_amount row), (sr_output_decimals row),
        (Some mi), (sr_input_amount row), (sr_input_decimals row). split_and!; try done; [by right| |].
      * intros j q' Hj Hl (m & [[= <-]|[= <-]] & Hm); [rewrite (Hbi j q') in Hm; [done|lia|done]|by rewrite (Hbo j q') in Hm].
      * intros x. apply price_sides_number.
  - destruct Hi as (mi & qi & Emi & Hqi & Hmi & Hki & Hbi). rewrite Emi in *.
    split; [split; [intros _; eauto 7|done]|]. intros _. exists i, qi, mi, (sr_input_amount row), (sr_input_decimals row),
      (sr_output_mint row), (sr_output_amount row), (sr_output_decimals row). split_and!; try done; [by left| |].
    + intros j q' Hj Hl (m & [[= <-]|Em] & Hm); [by rewrite (Hbi j q') in Hm|by rewrite (Ho j q' m) in Hm].
    + intros x. apply price_sides_number.
  - destruct Ho as (mo & qo & Emo & Hqo & Hmo & Hko & Hbo). rewrite Emo in *.
    split; [split; [intros _; eauto 7|done]|]. intros _. exists o, qo, mo, (sr_output_amount row), (sr_output_decimals row),
      (sr_input_mint row), (sr_input_amount row), (sr_input_decimals row). split_and!; try done; [by right| |].
    + intros j q' Hj Hl (m & [Em|[= <-]] & Hm); [by rewrite (Hi j q' m) in Hm|by rewrite (Hbo j q') in Hm].
    + intros x. apply price_sides_number.
  - split; [split; [done|]|done]. intros (j & q & Hq & m & [Em|Em] & Hm); [by rewrite (Hi j q m) in Hm|by rewrite (Ho j q m) in Hm].
Qed.

(** [pow10_double] is exact where the comment says: for every exponent up to 22
    the repeated multiply rounds nothing, and 10^22 is the last power of ten a
    double holds. *)
Theorem pow10_exact n :
  (0 <= n <= 22 -> is_integer (pow10_double n) (10 ^ n) = true) /\
  is_integer (pow10_double 23) (10 ^ 23) = false.
Proof. split; [intros H; apply pow10_exact_below; lia|vm_compute; reflexivity]. Qed.

(** ** Witnesses *)

Lemma pow10_exact_witness : is_integer (pow10_double 9) 1000000000 = true.
Proof. apply (proj1 (pow10_exact 9)). lia. Defined.

Lemma quote_set_parse_fields_witness :
  fields (lit " sol ,, USDC,") = [lit "sol"; lit "USDC"] /\
  idx_quote_set_parse (Some (lit " sol ,, USDC,")) [] =
    (let '(r, set, h') := add_all [lit "sol"; lit "USDC"] [] [] in (r, Some set, h')).
Proof.
  assert (fields (lit " sol ,, USDC,") = [lit "sol"; lit "USDC"]) as Hf by (vm_compute; reflexivity).
  split; [exact Hf|]. rewrite <- Hf. apply quote_set_parse_fields.
Defined.

Lemma quote_set_well_formed_witness :
  exists set, (idx_quote_set_parse (Some (lit "usdc,sol,USDC")) []).1.2 = Some set /\ set_ok set /\ length set = 2%nat.
Proof.
  destruct (proj1 (quote_set_well_formed (lit "usdc,sol,USDC") [])) as (set & Hs & Hok & _).
  exists set. split; [exact Hs|]. split; [exact Hok|]. vm_compute in Hs. injection Hs as <-. reflexivity.
Defined.

(** A token bought with two SOL, and USDC sold for SOL. *)
Definition buy_row (input : idx_pubkey) : idx_swap_row :=
  SwapRow IDX_SWAP_POOL IDX_VENUE_PUMP_AMM IDX_AMOUNT_EVENT (Stamp 0 0 false) None None
    (Some input) (Some 2000000000) (Some 9) (Some IDX_PROGRAM_MEMO) (Some 4000000) (Some 6).

Lemma price_of_swap_exact_witness :
  exists x, price (idx_price_of_swap (Some (idx_quote_set_defaults [])) (Some (buy_row IDX_MINT_WSOL))) = Some x /\
    is_integer (dmul x (double_of_u64 2)) 1 = true.
Proof.
  destruct (price_of_swap_exact (idx_quote_set_defaults []) (buy_row IDX_MINT_WSOL)) as [_ H].
  destruct H as (i & q & m & qa & qd & bm & ba & bd & Hside & _ & _ & _ & _ & Hm & _ & _ & _ & _ & _ & Hx);
    [vm_compute; reflexivity|].
  assert (m = IDX_MINT_WSOL) as -> by (rewrite <- Hm; vm_compute; reflexivity).
  destruct Hside as [E|E]; [|discriminate E].
  assert (Some IDX_MINT_WSOL = Some IDX_MINT_WSOL /\ qa = Some 2000000000 /\ qd = Some 9 /\ bm = Some IDX_PROGRAM_MEMO /\
          ba = Some 4000000 /\ bd = Some 6) as (_ & -> & -> & -> & -> & ->) by (injection E; intros; subst; repeat split; reflexivity).
  eexists. split.
  - apply Hx. eexists _, _, _, _, _. split; [reflexivity|]. split; [reflexivity|]. split; [reflexivity|].
    split; [reflexivity|]. split; [reflexivity|]. split; [lia|]. reflexivity.
  - vm_compute. reflexivity.
Defined.
