(* ===== verification/Bar.v ===== *)
(** * bar.c: the price series

    One record for each pool, interval and bucket, over the table of [PtrMapSpec] as
    in Token.v; a record taken out by a reorg is freed, and [freed] are the addresses
    given back.  Prices and volumes are the doubles of Double.v.

    A bar is a fold of its swaps ([describe]).  Open, high, low and close do not
    depend on the order they arrive in; the volumes, sums of doubles, do.  A reorg
    leaves the registry a run of the surviving swaps would have built. *)

From S2P Require Import Prelude Double Bytes Types Map PtrMap VenueTypes Price.
#[local] Open Scope Z_scope.

(** src/include/bar.h:40-44 [idx_bar_interval] *)
Inductive idx_bar_interval := IDX_BAR_1S | IDX_BAR_1M.

#[export] Instance idx_bar_interval_eq_dec : EqDecision idx_bar_interval.
Proof. solve_decision. Defined.

(** [for (iv = IDX_BAR_1S; iv < IDX_BAR_INTERVAL_COUNT; iv++)] *)
Definition intervals : list idx_bar_interval := [IDX_BAR_1S; IDX_BAR_1M].

(** The value of the enumeration. *)
Definition interval_index (interval : idx_bar_interval) : Z :=
  match interval with IDX_BAR_1S => 0 | IDX_BAR_1M => 1 end.

(** src/src/bar.c:6-16 [idx_bar_interval_name] *)
Definition idx_bar_interval_name (interval : idx_bar_interval) : bytes :=
  match interval with IDX_BAR_1S => lit "1s" | IDX_BAR_1M => lit "1m" end.

(** src/src/bar.c:18-28 [idx_bar_interval_seconds] *)
Definition idx_bar_interval_seconds (interval : idx_bar_interval) : Z :=
  match interval with IDX_BAR_1S => 1 | IDX_BAR_1M => 60 end.

(** src/include/bar.h:58-64 [idx_bar_seq] *)
Record idx_bar_seq := BarSeq {
  bs_slot : Z;
  bs_transaction_index : Z;
  bs_instruction_index : Z;
  bs_inner_index : Z;
  bs_inner : bool
}.

#[export] Instance idx_bar_seq_eq_dec : EqDecision idx_bar_seq.
Proof. solve_decision. Defined.

(** src/src/bar.c:30-48 [idx_bar_seq_compare] *)
Definition idx_bar_seq_compare (a b : idx_bar_seq) : Z :=
  if negb (bs_slot a =? bs_slot b) then (if bs_slot a <? bs_slot b then -1 else 1)
  else if negb (bs_transaction_index a =? bs_transaction_index b) then
    (if bs_transaction_index a <? bs_transaction_index b then -1 else 1)
  else if negb (bs_instruction_index a =? bs_instruction_index b) then
    (if bs_instruction_index a <? bs_instruction_index b then -1 else 1)
  else if negb (eqb (bs_inner a) (bs_inner b)) then (if bs_inner a then 1 else -1)
  else if negb (bs_inner_index a =? bs_inner_index b) then
    (if bs_inner_index a <? bs_inner_index b then -1 else 1)
  else 0.

(** src/include/bar.h:70-70 [IDX_BAR_SEQ_KEY_LEN] *)
Definition IDX_BAR_SEQ_KEY_LEN : Z := 15.

(** src/src/bar.c:50-62 [idx_bar_seq_pack] *)
Definition idx_bar_seq_pack (seq : idx_bar_seq) : bytes :=
  map (fun i => u8 (Z.shiftr (bs_slot seq) (8 * (7 - Z.of_nat i)))) (List.seq 0 8) ++
  [u8 (Z.shiftr (bs_transaction_index seq) 8); u8 (bs_transaction_index seq);
   u8 (Z.shiftr (bs_instruction_index seq) 8); u8 (bs_instruction_index seq);
   if bs_inner seq then 1 else 0;
   u8 (Z.shiftr (bs_inner_index seq) 8); u8 (bs_inner_index seq)].

(** src/include/bar.h:92-97 [idx_bar_input] *)
Record idx_bar_input := BarInput {
  bi_pool : idx_pubkey;
  bi_price : idx_price;
  bi_block_time : Z;
  bi_seq : idx_bar_seq
}.

(** src/include/bar.h:100-116 [idx_bar] *)
Record idx_bar := Bar {
  bar_pool : idx_pubkey;
  bar_interval : idx_bar_interval;
  bar_bucket : Z;
  bar_quote : idx_quote;
  open : double;
  high : double;
  low : double;
  close : double;
  base_volume : double;
  quote_volume : double;
  bar_swap_count : Z;
  open_seq : idx_bar_seq;
  close_seq : idx_bar_seq
}.

(** src/include/bar.h:118-120 [idx_bar_registry], with the records its table points
    to and those freed. *)
Record idx_bar_registry (M : Type) := BarRegistry {
  by_key : M;
  bars : list idx_bar;
  freed : list ptr
}.
Arguments BarRegistry {M}.
Arguments by_key {M}.
Arguments bars {M}.
Arguments freed {M}.

Definition sizeof_bar : Z := 152.

(** src/src/bar.c:94-97 [bucket_of] *)
Definition bucket_of (time : Z) (interval : idx_bar_interval) : Z :=
  let width := idx_bar_interval_seconds interval in Z.quot time width * width.

(** src/src/bar.c:104-104 [BAR_KEY_LEN] *)
Definition BAR_KEY_LEN : Z := IDX_PUBKEY_LEN + 1 + 8.

(** src/src/bar.c:106-115 [bar_key] *)
Definition bar_key (pool : idx_pubkey) (interval : idx_bar_interval) (bucket : Z) : bytes :=
  let b := u64 bucket in
  take (Z.to_nat IDX_PUBKEY_LEN) (pubkey_bytes pool) ++ [u8 (interval_index interval)] ++
  map (fun i => u8 (Z.land (Z.shiftr b (8 * Z.of_nat i)) 255)) (List.seq 0 8).

(** src/src/bar.c:173-180 [input_metrics]: price, base volume, quote volume.  The
    price is read only when there is one. *)
Definition input_metrics (i : idx_bar_input) : double * double * double :=
  (default (double_of_u64 0) (price (bi_price i)),
   ddiv (double_of_u64 (base_amount (bi_price i))) (pow10_double (base_decimals (bi_price i))),
   ddiv (double_of_u64 (quote_amount (bi_price i))) (pow10_double (quote_decimals (bi_price i)))).

(** src/src/bar.c:183-185 [input_is_foldable] *)
Definition input_is_foldable (i : idx_bar_input) : bool :=
  bool_decide (is_Some (price (bi_price i))) && (0 <? bi_block_time i).

(** src/src/bar.c:130-146 [observe_interval]: a swap of a bar. *)
Definition fold_bar (bar : idx_bar) (i : idx_bar_input) (price base_vol quote_vol : double) : idx_bar :=
  let earlier := idx_bar_seq_compare (bi_seq i) (open_seq bar) <? 0 in
  let later := 0 <? idx_bar_seq_compare (bi_seq i) (close_seq bar) in
  Bar (bar_pool bar) (bar_interval bar) (bar_bucket bar) (bar_quote bar)
    (if earlier then price else open bar)
    (if dlt (high bar) price then price else high bar)
    (if dlt price (low bar) then price else low bar)
    (if later then price else close bar)
    (dadd (base_volume bar) base_vol) (dadd (quote_volume bar) quote_vol)
    (u32 (bar_swap_count bar + 1))
    (if earlier then bi_seq i else open_seq bar)
    (if later then bi_seq i else close_seq bar).

(** src/src/bar.c:154-163 [observe_interval]: the bar of a first swap. *)
Definition new_bar (i : idx_bar_input) (interval : idx_bar_interval) (price base_vol quote_vol : double) : idx_bar :=
  Bar (bi_pool i) interval (bucket_of (bi_block_time i) interval) (pr_quote (bi_price i))
    price price price price base_vol quote_vol 1 (bi_seq i) (bi_seq i).

#[export] Instance idx_bar_inhabited : Inhabited idx_bar :=
  populate (new_bar (BarInput IDX_PUBKEY_DEFAULT no_price 0 (BarSeq 0 0 0 0 false)) IDX_BAR_1S
              inhabitant inhabitant inhabitant).

Section registry.
Context {M : Type} `{PtrMapOps M}.

(** src/src/bar.c:64-68 [idx_bar_registry_init] *)
Definition idx_bar_registry_init : idx_bar_registry M := BarRegistry m_init [] [].

(** src/src/bar.c:70-81 [idx_bar_registry_free]: the registry, and the addresses
    freed. *)
Definition idx_bar_registry_free (reg : idx_bar_registry M) : idx_bar_registry M * list (option ptr) :=
  (BarRegistry (m_free (by_key reg)) [] [], m_values (by_key reg)).

(** src/src/bar.c:118-170 [observe_interval] *)
Definition observe_interval (reg : idx_bar_registry M) (i : idx_bar_input) (interval : idx_bar_interval)
    (price base_vol quote_vol : double) (h : heap) : result unit * idx_bar_registry M * heap :=
  let bucket := bucket_of (bi_block_time i) interval in
  let key := bar_key (bi_pool i) interval bucket in
  match m_get (by_key reg) key with
  | Some value =>
      let bar := default 0%nat value in
      (Ok tt, BarRegistry (by_key reg)
                (<[bar := fold_bar (bars reg !!! bar) i price base_vol quote_vol]> (bars reg)) (freed reg), h)
  | None =>
      let '(ok, h1) := calloc 1 sizeof_bar h in
      if negb ok then (IDX_FAIL IDX_ERR_NO_MEMORY, reg, h1)
      else
        let bar := length (bars reg) in
        let '(status, m, h2) := m_put key bar h1 (by_key reg) in
        match status with
        | Err e => (Err e, BarRegistry m (bars reg) (freed reg), h2)
        | Ok _ => (Ok tt, BarRegistry m (bars reg ++ [new_bar i interval price base_vol quote_vol]) (freed reg), h2)
        end
  end.

(** src/src/bar.c:203-205 [idx_bar_registry_observe]: the loop over the intervals. *)
Fixpoint observe_intervals (ivs : list idx_bar_interval) (reg : idx_bar_registry M) (i : idx_bar_input)
    (price base_vol quote_vol : double) (h : heap) : result unit * idx_bar_registry M * heap :=
  match ivs with
  | [] => (Ok tt, reg, h)
  | iv :: ivs' =>
      let '(r, reg1, h1) := observe_interval reg i iv price base_vol quote_vol h in
      match r with
      | Err e => (Err e, reg1, h1)
      | Ok _ => observe_intervals ivs' reg1 i price base_vol quote_vol h1
      end
  end.

(** src/src/bar.c:187-207 [idx_bar_registry_observe] *)
Definition idx_bar_registry_observe (reg : idx_bar_registry M) (i : idx_bar_input) (h : heap)
    : result unit * idx_bar_registry M * heap :=
  if negb (input_is_foldable i) then (Ok tt, reg, h)
  else
    let '(price, base_vol, quote_vol) := input_metrics i in
    observe_intervals intervals reg i price base_vol quote_vol h.

(** src/src/bar.c:209-222 [idx_bar_registry_get] *)
Definition idx_bar_registry_get (reg : idx_bar_registry M) (pool : idx_pubkey) (interval : idx_bar_interval)
    (bucket : Z) : option idx_bar :=
  match m_get (by_key reg) (bar_key pool interval bucket) with
  | Some value => value ≫= fun bar => bars reg !! bar
  | None => None
  end.

(** src/src/bar.c:224-229 [idx_bar_registry_count] *)
Definition idx_bar_registry_count (reg : idx_bar_registry M) : Z := m_count (by_key reg).

(** src/src/bar.c:236-249 [refold_if_affected] *)
Definition refold_if_affected (reg : idx_bar_registry M) (affected : M) (i : idx_bar_input)
    (interval : idx_bar_interval) (price base_vol quote_vol : double) (h : heap)
    : result unit * idx_bar_registry M * heap :=
  let key := bar_key (bi_pool i) interval (bucket_of (bi_block_time i) interval) in
  if negb (bool_decide (is_Some (m_get affected key))) then (Ok tt, reg, h)
  else observe_interval reg i interval price base_vol quote_vol h.

(** src/src/bar.c:277-286 [idx_bar_registry_recompute_range]: the keys of the bars
    with a swap at or above [from_slot]. *)
Fixpoint collect_affected (entries : list (bytes * option ptr)) (records : list idx_bar) (from_slot : Z)
    (affected : M) (h : heap) : result unit * M * heap :=
  match entries with
  | [] => (Ok tt, affected, h)
  | (key, value) :: entries' =>
      let bar := records !!! default 0%nat value in
      if from_slot <=? bs_slot (close_seq bar) then
        let '(status, affected', h') := m_put key 1%nat h affected in
        match status with
        | Err e => (Err e, affected', h')
        | Ok _ => collect_affected entries' records from_slot affected' h'
        end
      else collect_affected entries' records from_slot affected h
  end.

(** src/src/bar.c:291-297 [idx_bar_registry_recompute_range]: clearing the bars. *)
Fixpoint clear_affected (keys : list bytes) (reg : idx_bar_registry M) : idx_bar_registry M :=
  match keys with
  | [] => reg
  | key :: keys' =>
      clear_affected keys'
        match m_get (by_key reg) key with
        | Some value => BarRegistry (m_remove key (by_key reg)) (bars reg) (default 0%nat value :: freed reg)
        | None => reg
        end
  end.

(** src/src/bar.c:311-318 [idx_bar_registry_recompute_range]: one survivor. *)
Fixpoint refold_intervals (ivs : list idx_bar_interval) (reg : idx_bar_registry M) (affected : M)
    (i : idx_bar_input) (price base_vol quote_vol : double) (h : heap) : result unit * idx_bar_registry M * heap :=
  match ivs with
  | [] => (Ok tt, reg, h)
  | iv :: ivs' =>
      let '(r, reg1, h1) := refold_if_affected reg affected i iv price base_vol quote_vol h in
      match r with
      | Err e => (Err e, reg1, h1)
      | Ok _ => refold_intervals ivs' reg1 affected i price base_vol quote_vol h1
      end
  end.

(** src/src/bar.c:302-319 [idx_bar_registry_recompute_range]: the survivors. *)
Fixpoint refold_survivors (survivors : list idx_bar_input) (reg : idx_bar_registry M) (affected : M) (h : heap)
    : result unit * idx_bar_registry M * heap :=
  match survivors with
  | [] => (Ok tt, reg, h)
  | i :: survivors' =>
      if negb (input_is_foldable i) then refold_survivors survivors' reg affected h
      else
        let '(price, base_vol, quote_vol) := input_metrics i in
        let '(r, reg1, h1) := refold_intervals intervals reg affected i price base_vol quote_vol h in
        match r with
        | Err e => (Err e, reg1, h1)
        | Ok _ => refold_survivors survivors' reg1 affected h1
        end
  end.

(** src/src/bar.c:251-326 [idx_bar_registry_recompute_range]: the value is
    [dropped]. *)
Definition idx_bar_registry_recompute_range (reg : idx_bar_registry M) (from_slot : Z)
    (survivors : list idx_bar_input) (h : heap) : result Z * idx_bar_registry M * heap :=
  let '(status, affected, h) := collect_affected (m_entries (by_key reg)) (bars reg) from_slot m_init h in
  match status with
  | Err e => (Err e, reg, h)
  | Ok _ =>
      let reg := clear_affected (m_entries affected).*1 reg in
      let cleared := m_count affected in
      let '(status, reg, h) := refold_survivors survivors reg affected h in
      match status with
      | Err e => (Err e, reg, h)
      | Ok _ => (Ok cleared, reg, h)
      end
  end.
End registry.

(** ** The sequence of a swap *)

(** A sequence in its C fields: a slot, three 16-bit indices. *)
Definition is_u16 (z : Z) : Prop := 0 <= z < 2 ^ 16.
Definition seq_ok (s : idx_bar_seq) : Prop :=
  is_u64 (bs_slot s) /\ is_u16 (bs_transaction_index s) /\ is_u16 (bs_instruction_index s) /\ is_u16 (bs_inner_index s).

(** The comparison is lexicographic on five numbers. *)
Definition seq_digits (s : idx_bar_seq) : list Z :=
  [bs_slot s; bs_transaction_index s; bs_instruction_index s; if bs_inner s then 1 else 0; bs_inner_index s].

(** [memcmp]'s sign: the first difference decides. *)
Fixpoint lex (a b : list Z) : Z :=
  match a, b with
  | x :: a', y :: b' => if x <? y then -1 else if y <? x then 1 else lex a' b'
  | _, _ => 0
  end.

Lemma seq_compare_lex a b : idx_bar_seq_compare a b = lex (seq_digits a) (seq_digits b).
Proof.
  unfold idx_bar_seq_compare, seq_digits. cbn [lex].
  assert (forall x y z, (if negb (x =? y) then (if x <? y then -1 else 1) else z) =
                        (if x <? y then -1 else if y <? x then 1 else z)) as E.
  { intros x y z. destruct (x =? y) eqn:E1, (x <? y) eqn:E2, (y <? x) eqn:E3; cbn [negb]; try reflexivity; exfalso; zlia. }
  rewrite !E. by destruct (bs_inner a), (bs_inner b).
Qed.

Lemma lex_antisym a b : lex b a = - lex a b.
Proof.
  revert b. induction a as [|x a IH]; intros [|y b]; cbn; try done. rewrite IH.
  destruct (x <? y) eqn:E1, (y <? x) eqn:E2; try done; exfalso; zlia.
Qed.

Lemma lex_lt x y a b : lex (x :: a) (y :: b) < 0 <-> x < y \/ x = y /\ lex a b < 0.
Proof. cbn. destruct (x <? y) eqn:E1, (y <? x) eqn:E2; zlia. Qed.

Lemma lex_trans a b c :
  length a = length b -> length b = length c -> lex a b < 0 -> lex b c < 0 -> lex a c < 0.
Proof.
  revert b c. induction a as [|x a IH]; intros [|y b] [|z c] H1 H2; simpl in H1, H2; try lia.
  rewrite !lex_lt. intros [?|[-> ?]] [?|[-> ?]]; [lia..|]. right. split; [done|]. eapply IH; [| |done|done]; lia.
Qed.

Lemma lex_eq a b : length a = length b -> lex a b = 0 <-> a = b.
Proof.
  revert b. induction a as [|x a IH]; intros [|y b] Hl; simpl in Hl; try lia; [done|]. cbn.
  destruct (x <? y) eqn:E1; [split; [done|intros [= -> _]; zlia]|].
  destruct (y <? x) eqn:E2; [split; [done|intros [= -> _]; zlia]|]. rewrite IH by lia. split; [|by intros [= _ ->]].
  intros ->. f_equal. zlia.
Qed.

Lemma seq_compare_eq a b : idx_bar_seq_compare a b = 0 <-> a = b.
Proof.
  rewrite seq_compare_lex, lex_eq by done. split; [|by intros ->]. destruct a as [s t i j n], b as [s' t' i' j' n'].
  unfold seq_digits. cbn. intros [= -> -> -> E ->]. f_equal. by destruct n, n'.
Qed.

Lemma seq_compare_antisym a b : idx_bar_seq_compare b a = - idx_bar_seq_compare a b.
Proof. rewrite !seq_compare_lex. apply lex_antisym. Qed.

Lemma seq_compare_trans a b c :
  idx_bar_seq_compare a b < 0 -> idx_bar_seq_compare b c < 0 -> idx_bar_seq_compare a c < 0.
Proof. rewrite !seq_compare_lex. by apply lex_trans. Qed.

Lemma seq_compare_slot a b : idx_bar_seq_compare a b <= 0 -> bs_slot a <= bs_slot b.
Proof. unfold idx_bar_seq_compare. repeat case_match; zlia. Qed.

(** Big-endian digits compare as the numbers. *)
Lemma lex_app a a' b b' : length a = length b -> lex (a ++ a') (b ++ b') = if lex a b =? 0 then lex a' b' else lex a b.
Proof.
  revert b. induction a as [|x a IH]; intros [|y b] Hl; simpl in Hl; try lia; [done|]. cbn.
  destruct (x <? y); [done|]. destruct (y <? x); [done|]. apply IH. lia.
Qed.

Definition big_endian (n : nat) (x : Z) : bytes := map (fun i => u8 (Z.shiftr x (8 * (Z.of_nat n - 1 - Z.of_nat i)))) (List.seq 0 n).

Lemma big_endian_S n x :
  0 <= x -> big_endian (S n) x = u8 (x / 2 ^ (8 * Z.of_nat n)) :: big_endian n (x mod 2 ^ (8 * Z.of_nat n)).
Proof.
  intros Hx. unfold big_endian. cbn [List.seq map]. f_equal.
  - rewrite Z.shiftr_div_pow2 by lia. f_equal. f_equal. f_equal. lia.
  - rewrite <- seq_shift, map_map. apply map_ext_in. intros i Hi%in_seq.
    unfold u8. apply Z.bits_inj'. intros k Hk. rewrite !Z.testbit_mod_pow2 by lia.
    destruct (k <? 8) eqn:Ek; cbn [andb]; [|done]. rewrite !Z.shiftr_spec by lia.
    rewrite Z.testbit_mod_pow2 by lia.
    rewrite (proj2 (Z.ltb_lt _ _)) by zlia. cbn [andb]. f_equal. lia.
Qed.

Lemma lex_big_endian n x y :
  0 <= x < 2 ^ (8 * Z.of_nat n) -> 0 <= y < 2 ^ (8 * Z.of_nat n) ->
  lex (big_endian n x) (big_endian n y) = if x <? y then -1 else if y <? x then 1 else 0.
Proof.
  revert x y. induction n as [|n IH]; intros x y Hx Hy.
  { change (2 ^ (8 * Z.of_nat 0)) with 1 in *. replace x with 0 by lia. by replace y with 0 by lia. }
  rewrite !big_endian_S by lia. set (m := 2 ^ (8 * Z.of_nat n)) in *. assert (0 < m) as Hm by (subst m; lia).
  assert (2 ^ (8 * Z.of_nat (S n)) = 256 * m) as E by (subst m; rewrite <- (Z.pow_add_r 2 8) by lia; f_equal; lia).
  rewrite E in *. pose proof (Z.div_mod x m ltac:(lia)) as Dx. pose proof (Z.div_mod y m ltac:(lia)) as Dy.
  pose proof (Z.mod_pos_bound x m Hm). pose proof (Z.mod_pos_bound y m Hm).
  assert (0 <= x / m < 256) by (split; [apply Z.div_pos; lia|apply Z.div_lt_upper_bound; lia]).
  assert (0 <= y / m < 256) by (split; [apply Z.div_pos; lia|apply Z.div_lt_upper_bound; lia]).
  cbn [lex]. unfold u8. rewrite !(Z.mod_small (_ / m)) by (cbn; lia). rewrite IH by done.
  destruct (x / m <? y / m) eqn:E1; [|destruct (y / m <? x / m) eqn:E2].
  - rewrite (proj2 (Z.ltb_lt x y)); [done|]. zbool. nia.
  - rewrite (proj2 (Z.ltb_ge x y)), (proj2 (Z.ltb_lt y x)); [done|zbool; nia|zbool; nia].
  - assert (x / m = y / m) as Eq by zlia. rewrite Eq in Dx.
    destruct (x mod m <? y mod m) eqn:E3, (x <? y) eqn:E4; try done; try (exfalso; zlia).
    destruct (y mod m <? x mod m) eqn:E5, (y <? x) eqn:E6; try done; exfalso; zlia.
Qed.

(** ** Properties of the sequence *)

(** The packed key sorts as the sequence: for sequences in their C ranges, a
    bytewise comparison of two packed keys gives the sign [idx_bar_seq_compare]
    gives; the key is fifteen bytes. *)
Theorem seq_pack_sorts a b :
  seq_ok a -> seq_ok b ->
  lex (idx_bar_seq_pack a) (idx_bar_seq_pack b) = idx_bar_seq_compare a b /\
  size (idx_bar_seq_pack a) = IDX_BAR_SEQ_KEY_LEN.
Proof.
  intros (Ha1 & Ha2 & Ha3 & Ha4) (Hb1 & Hb2 & Hb3 & Hb4). split; [|reflexivity]. rewrite seq_compare_lex.
  assert (forall s, idx_bar_seq_pack s =
    big_endian 8 (bs_slot s) ++ big_endian 2 (bs_transaction_index s) ++ big_endian 2 (bs_instruction_index s) ++
    [if bs_inner s then 1 else 0] ++ big_endian 2 (bs_inner_index s)) as Hp by (intros s; reflexivity).
  rewrite !Hp. rewrite !lex_app by done. rewrite !lex_big_endian by done. unfold seq_digits. cbn [lex].
  repeat match goal with |- context [?x <? ?y] => destruct (x <? y); cbn [Z.eqb]; try done end.
Qed.

Lemma seq_pack_sorts_witness :
  lex (idx_bar_seq_pack (BarSeq 256 1 2 0 false)) (idx_bar_seq_pack (BarSeq 256 1 2 0 true)) = -1.
Proof.
  apply (seq_pack_sorts (BarSeq 256 1 2 0 false) (BarSeq 256 1 2 0 true)); unfold seq_ok, is_u64, is_u16; cbn; lia.
Defined.

(** ** What a bar stands for *)

(** A swap folded into one interval. *)
Abbreviation fold := (idx_bar_input * idx_bar_interval)%type.

Definition fold_key (f : fold) : bytes := bar_key (bi_pool f.1) f.2 (bucket_of (bi_block_time f.1) f.2).

(** The folds of an input. *)
Definition folds (i : idx_bar_input) : list fold := if input_is_foldable i then map (pair i) intervals else [].
Definition all_folds (obs : list idx_bar_input) : list fold := concat (map folds obs).

Definition in_price (i : idx_bar_input) : double := (input_metrics i).1.1.
Definition in_base (i : idx_bar_input) : double := (input_metrics i).1.2.
Definition in_quote (i : idx_bar_input) : double := (input_metrics i).2.

Definition hits (k : bytes) (f : fold) : Prop := fold_key f = k.
#[export] Instance hits_dec k f : Decision (hits k f).
Proof. unfold hits. apply _. Defined.

(** The one of two swaps that executed first, and last; the one that came first of
    two with the same sequence. *)
Definition earliest (a b : idx_bar_input) : idx_bar_input :=
  if idx_bar_seq_compare (bi_seq b) (bi_seq a) <? 0 then b else a.
Definition latest (a b : idx_bar_input) : idx_bar_input :=
  if 0 <? idx_bar_seq_compare (bi_seq b) (bi_seq a) then b else a.

(** The bar of a list of folds. *)
Definition bar_of (f : fold) (l : list idx_bar_input) : idx_bar :=
  let i := f.1 in
  Bar (bi_pool i) f.2 (bucket_of (bi_block_time i) f.2) (pr_quote (bi_price i))
    (in_price (foldl earliest i l))
    (foldl dmax (in_price i) (map in_price l)) (foldl dmin (in_price i) (map in_price l))
    (in_price (foldl latest i l))
    (foldl dadd (in_base i) (map in_base l)) (foldl dadd (in_quote i) (map in_quote l))
    (u32 (size l + 1)) (bi_seq (foldl earliest i l)) (bi_seq (foldl latest i l)).

Definition describe (k : bytes) (seen : list fold) : option idx_bar :=
  match filter (hits k) seen with
  | [] => None
  | f :: l => Some (bar_of f l.*1)
  end.

Definition apply_fold (b : option idx_bar) (f : fold) : idx_bar :=
  let i := f.1 in
  match b with
  | None => new_bar i f.2 (in_price i) (in_base i) (in_quote i)
  | Some b => fold_bar b i (in_price i) (in_base i) (in_quote i)
  end.

Lemma bar_of_snoc f l i : bar_of f (l ++ [i]) = fold_bar (bar_of f l) i (in_price i) (in_base i) (in_quote i).
Proof.
  unfold bar_of, fold_bar. cbn [open high low close base_volume quote_volume bar_swap_count open_seq close_seq
    bar_pool bar_interval bar_bucket bar_quote]. rewrite !map_app, !foldl_app. cbn [foldl map].
  set (e := foldl earliest f.1 l). set (t := foldl latest f.1 l).
  unfold earliest at 1 2, latest at 1 2, dmax at 1, dmin at 1. unfold size. rewrite length_app. cbn [length].
  assert (u32 (Z.of_nat (length l + 1) + 1) = u32 (u32 (Z.of_nat (length l) + 1) + 1)) as ->
    by (unfold u32; rewrite Zplus_mod_idemp_l; f_equal; lia).
  by destruct (idx_bar_seq_compare (bi_seq i) (bi_seq e) <? 0), (0 <? idx_bar_seq_compare (bi_seq i) (bi_seq t)).
Qed.

Lemma bar_describe_snoc k seen f :
  describe k (seen ++ [f]) = if decide (hits k f) then Some (apply_fold (describe k seen) f) else describe k seen.
Proof.
  unfold describe. rewrite filter_app, filter_cons, filter_nil. case_decide as Hf; [|by rewrite app_nil_r].
  destruct (filter (hits k) seen) as [|g l]; cbn [app].
  - unfold apply_fold, new_bar, bar_of. cbn. done.
  - rewrite fmap_app. cbn [fmap list_fmap]. by rewrite bar_of_snoc.
Qed.

Section refinement.
Context {M : Type} `{PtrMapSpec M}.

Definition record_key (b : idx_bar) : bytes := bar_key (bar_pool b) (bar_interval b) (bar_bucket b).

Definition registry_ok (reg : idx_bar_registry M) : Prop := reg_inv record_key (by_key reg) (bars reg) (freed reg).

Definition view (reg : idx_bar_registry M) : gmap bytes idx_bar := reg_view (by_key reg) (bars reg).

Abbreviation put_failure := (fun e => e = IDX_ERR_NO_MEMORY \/ e = IDX_ERR_RANGE \/ e = IDX_ERR_INTERNAL).

Lemma bar_init_registry_ok : registry_ok idx_bar_registry_init /\ view idx_bar_registry_init = ∅.
Proof. apply (init_reg_inv (M:=M) record_key). Qed.

(** The registry knows the bars of [seen]. *)
Definition describes (reg : idx_bar_registry M) (seen : list fold) : Prop := forall k, view reg !! k = describe k seen.

Lemma observe_interval_spec reg f h :
  registry_ok reg ->
  let '(r, reg', _) := observe_interval reg f.1 f.2 (in_price f.1) (in_base f.1) (in_quote f.1) h in
  registry_ok reg' /\
  match r with
  | Ok _ => view reg' = <[fold_key f := apply_fold (view reg !! fold_key f) f]> (view reg)
  | Err e => view reg' = view reg /\ put_failure e
  end.
Proof.
  intros I. unfold observe_interval. fold (fold_key f).
  pose proof (reg_find record_key _ _ _ (fold_key f) I) as Hf. fold (view reg) in Hf.
  destruct (m_get (by_key reg) (fold_key f)) as [v|] eqn:Eg.
  - destruct Hf as (p & t & -> & Hp & Hk & Hfree & Hv). cbn [default]. rewrite (list_lookup_total_correct _ _ _ Hp), Hv.
    cbn [apply_fold]. rewrite <- Hk. by apply (reg_update record_key).
  - rewrite Hf. unfold calloc. rewrite (proj2 (Z.ltb_ge _ _)) by (unfold SIZE_MAX, sizeof_bar; lia).
    destruct (malloc h) as [[] h1]; cbn [negb]; [|split; [done|split; [done|by left]]].
    pose proof (reg_add record_key _ _ _ (apply_fold None f) h1 I Eg) as Ha.
    change (record_key (apply_fold None f)) with (fold_key f) in Ha.
    destruct (m_put _ _ _ _) as [[[[]|e] m'] h2]; exact Ha.
Qed.

Lemma observe_interval_describes reg f h seen :
  registry_ok reg -> describes reg seen ->
  let '(r, reg', _) := observe_interval reg f.1 f.2 (in_price f.1) (in_base f.1) (in_quote f.1) h in
  registry_ok reg' /\
  match r with Ok _ => describes reg' (seen ++ [f]) | Err e => describes reg' seen /\ put_failure e end.
Proof.
  intros I Hd. pose proof (observe_interval_spec reg f h I) as Hs.
  destruct (observe_interval _ _ _ _ _ _ _) as [[[[]|e] reg'] h']; destruct Hs as [I' Hs]; (split; [done|]).
  - intros k. rewrite Hs, bar_describe_snoc. unfold hits. case_decide as Hk.
    + subst k. by rewrite lookup_insert_eq, Hd.
    + by rewrite lookup_insert_ne.
  - destruct Hs as [Hs He]. split; [|done]. intros k. by rewrite Hs.
Qed.

(** An observation folds its intervals in order, and on a failure those before. *)
Lemma observe_intervals_describes ivs reg i h seen :
  registry_ok reg -> describes reg seen ->
  let '(r, reg', _) := observe_intervals ivs reg i (in_price i) (in_base i) (in_quote i) h in
  registry_ok reg' /\ exists n, describes reg' (seen ++ take n (map (pair i) ivs)) /\
    match r with Ok _ => n = length ivs | Err e => put_failure e end.
Proof.
  revert reg h seen. induction ivs as [|iv ivs IH]; intros reg h seen I Hd; cbn [observe_intervals].
  { split; [done|]. exists 0%nat. by rewrite app_nil_r. }
  pose proof (observe_interval_describes reg (i, iv) h seen I Hd) as Hs. cbn [fst snd] in Hs.
  destruct (observe_interval _ _ _ _ _ _ _) as [[[[]|e] reg1] h1]; destruct Hs as [I1 Hs].
  - specialize (IH reg1 h1 _ I1 Hs). destruct (observe_intervals _ _ _ _ _ _ _) as [[r reg2] h2].
    destruct IH as (I2 & n & Hn & Hr). split; [done|]. exists (S n). cbn [map take]. rewrite <- app_assoc in Hn.
    split; [done|]. destruct r; [by rewrite Hr|done].
  - split; [done|]. exists 0%nat. rewrite take_0, app_nil_r. done.
Qed.

Lemma bar_observe_describes reg i h seen :
  registry_ok reg -> describes reg seen ->
  let '(r, reg', _) := idx_bar_registry_observe reg i h in
  registry_ok reg' /\ exists done_, describes reg' (seen ++ done_) /\ done_ `prefix_of` folds i /\
    match r with Ok _ => done_ = folds i | Err e => put_failure e end.
Proof.
  intros I Hd. unfold idx_bar_registry_observe, folds. destruct (input_is_foldable i); cbn [negb].
  - pose proof (observe_intervals_describes intervals reg i h seen I Hd) as Hs. unfold in_price, in_base, in_quote in Hs.
    destruct (input_metrics i) as [[price base_vol] quote_vol]. cbn [fst snd] in Hs.
    destruct (observe_intervals _ _ _ _ _ _ _) as [[r reg'] h']. destruct Hs as (I' & n & Hn & Hr). split; [done|].
    exists (take n (map (pair i) intervals)). split_and!; [done|apply prefix_take|].
    destruct r; [|done]. by subst n.
  - split; [done|]. exists []. rewrite app_nil_r. by split_and!.
Qed.

(** A run, with its outcomes. *)
Fixpoint observe_all (obs : list idx_bar_input) (reg : idx_bar_registry M) (h : heap)
    : list (result unit) * idx_bar_registry M :=
  match obs with
  | [] => ([], reg)
  | i :: obs' =>
      let '(r, reg1, h1) := idx_bar_registry_observe reg i h in
      let '(rs, reg2) := observe_all obs' reg1 h1 in (r :: rs, reg2)
  end.

Lemma bar_observe_all_describes obs reg h seen :
  registry_ok reg -> describes reg seen ->
  let '(rs, reg') := observe_all obs reg h in
  registry_ok reg' /\ exists done_, describes reg' (seen ++ done_) /\ done_ `sublist_of` all_folds obs /\
    (Forall (fun r => r = Ok tt) rs -> done_ = all_folds obs).
Proof.
  revert reg h seen. induction obs as [|i obs IH]; intros reg h seen I Hd; cbn [observe_all].
  { split; [done|]. exists []. by rewrite app_nil_r. }
  pose proof (bar_observe_describes reg i h seen I Hd) as Hs.
  destruct (idx_bar_registry_observe reg i h) as [[r reg1] h1]. destruct Hs as (I1 & done1 & H1 & Hp1 & Hr1).
  specialize (IH reg1 h1 _ I1 H1). destruct (observe_all obs reg1 h1) as [rs reg2].
  destruct IH as (I2 & done2 & H2 & Hp2 & Hr2). split; [done|]. exists (done1 ++ done2). rewrite app_assoc.
  split_and!; [done| |].
  - unfold all_folds. cbn [map concat]. apply sublist_app; [|done]. destruct Hp1 as [l ->]. by apply sublist_inserts_r.
  - intros [-> Hrs]%Forall_cons. unfold all_folds. cbn [map concat]. by rewrite Hr1, Hr2.
Qed.

Lemma bar_get_view reg pool iv bucket :
  registry_ok reg -> idx_bar_registry_get reg pool iv bucket = view reg !! bar_key pool iv bucket.
Proof.
  intros I. unfold idx_bar_registry_get. pose proof (reg_find record_key _ _ _ (bar_key pool iv bucket) I) as Hf.
  destruct (m_get _ _) as [v|]; [|exact (eq_sym Hf)]. destruct Hf as (p & t & -> & Hp & _ & _ & Hv).
  unfold view. by rewrite Hv.
Qed.

(** *** A reorg *)

Lemma collect_affected_spec entries records from affected h :
  m_ok affected ->
  let '(r, affected', _) := collect_affected entries records from affected h in
  m_ok affected' /\
  match r with
  | Ok _ => forall k, is_Some (m_view affected' !! k) <->
      is_Some (m_view affected !! k) \/
      exists v, (k, v) ∈ entries /\ from <= bs_slot (close_seq (records !!! default 0%nat v))
  | Err e => put_failure e
  end.
Proof.
  revert affected h. induction entries as [|[k v] entries IH]; intros affected h Hok; cbn [collect_affected].
  { split; [done|]. intros k. split; [by left|]. by intros [?|(v & ?%elem_of_nil & _)]. }
  destruct (from <=? _) eqn:E.
  - pose proof (m_put_ok affected k 1%nat h Hok) as Hput.
    destruct (m_put _ _ _ _) as [[[[]|e] m'] h']; destruct Hput as [Hok' Hv]; [|by split; [|apply Hv]].
    specialize (IH m' h' Hok'). destruct (collect_affected _ _ _ _ _) as [[r affected'] h2].
    destruct IH as [H1 H2]. split; [done|]. destruct r; [|done]. intros k'. rewrite H2, Hv.
    setoid_rewrite elem_of_cons. destruct (decide (k = k')) as [<-|Hne].
    + rewrite lookup_insert_eq. split; [|by left]. intros _. right. exists v. split; [by left|zlia].
    + rewrite lookup_insert_ne by done. naive_solver.
  - specialize (IH affected h Hok). destruct (collect_affected _ _ _ _ _) as [[r affected'] h2].
    destruct IH as [H1 H2]. split; [done|]. destruct r; [|done]. intros k'. rewrite H2. setoid_rewrite elem_of_cons.
    split; [naive_solver|]. intros [?|(v' & [[= -> ->]|Hin] & Hle)]; [by left|zlia|by right; eauto].
Qed.

Lemma clear_affected_spec keys reg :
  registry_ok reg ->
  registry_ok (clear_affected keys reg) /\
  forall k, view (clear_affected keys reg) !! k = if bool_decide (k ∈ keys) then None else view reg !! k.
Proof.
  revert reg. induction keys as [|key keys IH]; intros reg I; cbn [clear_affected].
  { split; [done|]. intros k. by rewrite bool_decide_false by apply not_elem_of_nil. }
  pose proof (reg_find record_key _ _ _ key I) as Hf. destruct (m_get (by_key reg) key) as [v|] eqn:Eg.
  - destruct Hf as (p & t & -> & Hp & Hk & Hfree & Hv). cbn [default].
    destruct (reg_remove record_key _ _ _ p t I Hp Hfree) as [I1 Hv1]. rewrite Hk in I1, Hv1.
    destruct (IH (BarRegistry (m_remove key (by_key reg)) (bars reg) (p :: freed reg)) I1) as [I2 Hv2].
    split; [exact I2|]. intros k. etrans; [apply Hv2|]. unfold view at 1. cbn [by_key bars]. rewrite Hv1.
    destruct (decide (key = k)) as [<-|Hne].
    + rewrite (bool_decide_true (key ∈ key :: keys)) by left. rewrite lookup_delete_eq. by case_bool_decide.
    + rewrite lookup_delete_ne by done. rewrite (bool_decide_ext (k ∈ key :: keys) (k ∈ keys)); [done|].
      rewrite elem_of_cons. naive_solver.
  - destruct (IH reg I) as [I2 Hv2]. split; [done|]. intros k. rewrite Hv2. fold (view reg) in Hf.
    destruct (decide (key = k)) as [<-|Hne].
    + rewrite (bool_decide_true (key ∈ key :: keys)) by left. case_bool_decide; [done|exact Hf].
    + rewrite (bool_decide_ext (k ∈ key :: keys) (k ∈ keys)); [done|]. rewrite elem_of_cons. naive_solver.
Qed.

(** The registry's bars of the affected keys are those of [seen], the others [old]. *)
Definition rebuilt (affected : M) (old : gmap bytes idx_bar) (reg : idx_bar_registry M) (seen : list fold) : Prop :=
  forall k, view reg !! k = if bool_decide (is_Some (m_view affected !! k)) then describe k seen else old !! k.

Lemma refold_spec affected old reg f h seen :
  m_ok affected -> registry_ok reg -> rebuilt affected old reg seen ->
  let '(r, reg', _) := refold_if_affected reg affected f.1 f.2 (in_price f.1) (in_base f.1) (in_quote f.1) h in
  registry_ok reg' /\
  match r with Ok _ => rebuilt affected old reg' (seen ++ [f]) | Err e => put_failure e end.
Proof.
  intros Ha I Hd. unfold refold_if_affected. fold (fold_key f). rewrite (m_get_ok _ _ Ha). case_bool_decide as Haff; cbn [negb].
  - pose proof (observe_interval_spec reg f h I) as Hs.
    destruct (observe_interval _ _ _ _ _ _ _) as [[[[]|e] reg'] h']; destruct Hs as [I' Hs]; (split; [done|]); [|apply Hs].
    intros k. rewrite Hs, bar_describe_snoc. unfold hits. destruct (decide (fold_key f = k)) as [<-|Hk].
    + rewrite lookup_insert_eq, bool_decide_true by done. by rewrite Hd, bool_decide_true.
    + by rewrite lookup_insert_ne.
  - split; [done|]. intros k. rewrite Hd. case_bool_decide as Hk; [|done]. rewrite bar_describe_snoc. unfold hits.
    case_decide as E; [|done]. by rewrite E in Haff.
Qed.

Lemma refold_intervals_spec affected old ivs reg i h seen :
  m_ok affected -> registry_ok reg -> rebuilt affected old reg seen ->
  let '(r, reg', _) := refold_intervals ivs reg affected i (in_price i) (in_base i) (in_quote i) h in
  registry_ok reg' /\
  match r with Ok _ => rebuilt affected old reg' (seen ++ map (pair i) ivs) | Err e => put_failure e end.
Proof.
  intros Ha. revert reg h seen. induction ivs as [|iv ivs IH]; intros reg h seen I Hd; cbn [refold_intervals map].
  { by rewrite app_nil_r. }
  pose proof (refold_spec affected old reg (i, iv) h seen Ha I Hd) as Hs. cbn [fst snd] in Hs.
  destruct (refold_if_affected _ _ _ _ _ _ _ _) as [[[[]|e] reg1] h1]; destruct Hs as [I1 Hs]; [|done].
  specialize (IH reg1 h1 _ I1 Hs). destruct (refold_intervals _ _ _ _ _ _ _ _) as [[r reg2] h2].
  by rewrite <- app_assoc in IH.
Qed.

Lemma refold_survivors_spec affected old survivors reg h seen :
  m_ok affected -> registry_ok reg -> rebuilt affected old reg seen ->
  let '(r, reg', _) := refold_survivors survivors reg affected h in
  registry_ok reg' /\
  match r with Ok _ => rebuilt affected old reg' (seen ++ all_folds survivors) | Err e => put_failure e end.
Proof.
  intros Ha. revert reg h seen. induction survivors as [|i survivors IH]; intros reg h seen I Hd; cbn [refold_survivors].
  { by rewrite app_nil_r. }
  unfold all_folds. cbn [map concat]. unfold folds at 1. destruct (input_is_foldable i); cbn [negb]; [|by apply IH].
  pose proof (refold_intervals_spec affected old intervals reg i h seen Ha I Hd) as Hs.
  unfold in_price, in_base, in_quote in Hs. destruct (input_metrics i) as [[price base_vol] quote_vol]. cbn [fst snd] in Hs.
  destruct (refold_intervals _ _ _ _ _ _ _ _) as [[[[]|e] reg1] h1]; destruct Hs as [I1 Hs]; [|done].
  specialize (IH reg1 h1 _ I1 Hs). destruct (refold_survivors _ _ _ _) as [[r reg2] h2].
  by rewrite <- app_assoc in IH.
Qed.

(** A bar's close is its latest slot. *)
Lemma latest_slot f l x : x ∈ f :: l -> bs_slot (bi_seq x) <= bs_slot (bi_seq (foldl latest f l)).
Proof.
  assert (forall a b, bs_slot (bi_seq a) <= bs_slot (bi_seq (latest a b)) /\ bs_slot (bi_seq b) <= bs_slot (bi_seq (latest a b))) as Hl.
  { intros a b. unfold latest. destruct (0 <? _) eqn:E.
    - split; [|done]. apply seq_compare_slot. rewrite seq_compare_antisym. zlia.
    - split; [done|]. apply seq_compare_slot. zlia. }
  revert f x. induction l as [|y l IH]; intros f x; cbn [foldl].
  - by intros ->%list_elem_of_singleton.
  - intros [->|[->|Hin]%elem_of_cons]%elem_of_cons.
    + etrans; [apply (proj1 (Hl f y))|]. apply IH. left.
    + etrans; [apply (proj2 (Hl f y))|]. apply IH. left.
    + apply IH. by right.
Qed.

(** The swaps below a slot. *)
Definition below (from : Z) (i : idx_bar_input) : Prop := bs_slot (bi_seq i) < from.
#[export] Instance below_dec from i : Decision (below from i).
Proof. unfold below. apply _. Defined.

Lemma folds_filter from i :
  filter (fun f => below from f.1) (folds i) = if decide (below from i) then folds i else [].
Proof.
  unfold folds, intervals. destruct (input_is_foldable i); [|by case_decide]. cbn [map].
  rewrite !filter_cons, filter_nil. cbn [fst]. by case_decide.
Qed.

Lemma all_folds_filter from obs :
  all_folds (filter (below from) obs) = filter (fun f => below from f.1) (all_folds obs).
Proof.
  unfold all_folds. induction obs as [|i obs IH]; [done|]. cbn [map concat].
  rewrite filter_app, folds_filter, filter_cons, <- IH. by case_decide.
Qed.

Lemma describe_unaffected from k obs b :
  describe k (all_folds obs) = Some b -> bs_slot (close_seq b) < from ->
  describe k (all_folds (filter (below from) obs)) = Some b.
Proof.
  intros Hd Hlt. rewrite all_folds_filter. unfold describe in *.
  rewrite list_filter_filter, (list_filter_iff _ (fun f => below from f.1 /\ hits k f)) by (intros; apply and_comm).
  rewrite <- list_filter_filter. rewrite filter_true; [done|].
  destruct (filter (hits k) (all_folds obs)) as [|f l]; [constructor|]. injection Hd as <-. cbn [close_seq bar_of] in Hlt.
  apply Forall_forall. intros g Hg. unfold below. eapply Z.le_lt_trans; [|exact Hlt]. apply latest_slot.
  apply elem_of_cons in Hg as [->|Hg]; [left|right]. apply list_elem_of_fmap. eauto.
Qed.

Lemma describe_none_below from k obs :
  describe k (all_folds obs) = None -> describe k (all_folds (filter (below from) obs)) = None.
Proof.
  rewrite all_folds_filter. unfold describe. intros Hd.
  rewrite list_filter_filter, (list_filter_iff _ (fun f => below from f.1 /\ hits k f)) by (intros; apply and_comm).
  rewrite <- list_filter_filter. by destruct (filter (hits k) (all_folds obs)).
Qed.

(** ** Properties *)

(** The registry is its history: after any sequence of observations, with memory
    running out anywhere, the bar of a pool, interval and bucket is the fold of the
    swaps seen for it: open the price of the first executed and close of the last
    whatever the order of arrival, high and low the extremes, volumes and count the
    sums.  When no observation failed those are all the priced and timed swaps, one
    fold for each interval; a failed one leaves at most its shorter interval. *)
Theorem bar_registry_history obs h :
  let '(rs, reg) := observe_all obs (idx_bar_registry_init (M:=M)) h in
  registry_ok reg /\ exists seen, seen `sublist_of` all_folds obs /\
    (Forall (fun r => r = Ok tt) rs -> seen = all_folds obs) /\
    forall pool iv bucket, idx_bar_registry_get reg pool iv bucket = describe (bar_key pool iv bucket) seen.
Proof.
  assert (describes idx_bar_registry_init []) as Hd by (intros k; by rewrite (proj2 bar_init_registry_ok), lookup_empty).
  pose proof (bar_observe_all_describes obs _ h [] (proj1 bar_init_registry_ok) Hd) as Hs.
  destruct (observe_all _ _ _) as [rs reg]. destruct Hs as (I & seen & H1 & H2 & H3). split; [done|]. exists seen.
  split_and!; [done|done|]. intros pool iv bucket. rewrite bar_get_view by done. apply H1.
Qed.

(** C10. A reorg leaves the bars of the surviving swaps: recomputing from a slot a
    registry that has seen [obs], with the swaps of [obs] below that slot as
    survivors, gives exactly the bars a registry that only ever saw the survivors
    has, volumes included; every other record is freed and no bar lost.  A failure
    is an allocation failure. *)
Theorem bar_recompute_exact reg obs from h :
  registry_ok reg -> describes reg (all_folds obs) ->
  let '(r, reg', _) := idx_bar_registry_recompute_range reg from (filter (below from) obs) h in
  match r with
  | Ok dropped => registry_ok reg' /\ describes reg' (all_folds (filter (below from) obs)) /\
      dropped = Z.of_nat (base.size (filter (fun kb => from <= bs_slot (close_seq kb.2)) (view reg)))
  | Err e => registry_ok reg' /\ (e = IDX_ERR_NO_MEMORY \/ e = IDX_ERR_RANGE \/ e = IDX_ERR_INTERNAL)
  end.
Proof.
  intros I Hd. unfold idx_bar_registry_recompute_range.
  pose proof (collect_affected_spec (m_entries (by_key reg)) (bars reg) from m_init h (proj1 m_init_ok)) as Hc.
  destruct (collect_affected _ _ _ _ _) as [[[[]|e] affected] h1]; destruct Hc as [Ha Hc]; [|done].
  assert (forall k, is_Some (m_view affected !! k) <-> exists b, view reg !! k = Some b /\ from <= bs_slot (close_seq b)) as Haff.
  { intros k. rewrite Hc, (proj2 m_init_ok), lookup_empty. setoid_rewrite (m_entries_ok _ (inv_ok _ _ _ _ I)).
    setoid_rewrite elem_of_map_to_list. split.
    - intros [[]%is_Some_None|(v & Hv & Hle)]. destruct (inv_bound _ _ _ _ I k v Hv) as (p & t & -> & Hf & Hp & Hk).
      cbn in Hle. rewrite (list_lookup_total_correct _ _ _ Hp) in Hle. exists t. split; [|done].
      apply (view_lookup record_key _ _ _ _ _ I). eauto.
    - intros (b & Hb & Hle). right. apply (view_lookup record_key _ _ _ _ _ I) in Hb as (p & Hp & Hf & <-).
      exists (Some p). split; [by apply (inv_kept _ _ _ _ I)|]. cbn. by rewrite (list_lookup_total_correct _ _ _ Hp). }
  destruct (clear_affected_spec (m_entries affected).*1 reg I) as [I1 Hv1].
  set (reg1 := clear_affected _ reg) in *.
  assert (forall k, k ∈ (m_entries affected).*1 <-> is_Some (m_view affected !! k)) as Hkeys.
  { intros k. rewrite (m_entries_ok _ Ha), list_elem_of_fmap. split.
    - intros ([k' v] & -> & Hin%elem_of_map_to_list). by eexists.
    - intros [v Hv]. exists (k, v). split; [done|]. by apply elem_of_map_to_list. }
  assert (rebuilt affected (view reg) reg1 []) as Hr.
  { intros k. rewrite Hv1. by rewrite (bool_decide_ext _ _ (Hkeys k)). }
  pose proof (refold_survivors_spec affected (view reg) (filter (below from) obs) reg1 h1 [] Ha I1 Hr) as Hs.
  destruct (refold_survivors _ _ _ _) as [[[[]|e] reg2] h2]; destruct Hs as [I2 Hs]; [|done].
  split_and!; [done| |].
  - intros k. rewrite Hs. case_bool_decide as Hk; [done|]. rewrite Hd.
    destruct (describe k (all_folds obs)) as [b|] eqn:Eb; [|by rewrite describe_none_below].
    rewrite (describe_unaffected from k obs b Eb); [done|]. apply Z.lt_nge. intros Hle. apply Hk, Haff. exists b.
    split; [by rewrite Hd|done].
  - rewrite (m_count_ok _ Ha). f_equal. rewrite <- !size_dom. f_equal. apply set_eq. intros k.
    rewrite !elem_of_dom, Haff. unfold is_Some. by setoid_rewrite map_lookup_filter_Some.
Qed.
End refinement.

(** ** The order of arrival *)

(** Keeping the better of two along a list keeps one that nothing is better than. *)
Section best.
Context {A : Type} (P : A -> Prop) (better : A -> A -> bool).
Context (better_irrefl : forall a, better a a = false).
Context (better_trans : forall a b c, P a -> P b -> P c -> better a b = true -> better b c = true -> better a c = true).
Context (better_split : forall a b c, P a -> P b -> P c -> better a c = true -> better a b = true \/ better b c = true).

Lemma foldl_best a l :
  Forall P (a :: l) ->
  let r := foldl (fun a b => if better b a then b else a) a l in
  r ∈ a :: l /\ forall x, x ∈ a :: l -> better x r = false.
Proof using All.
  revert a. induction l as [|b l IH]; intros a HP; cbn [foldl].
  { split; [left|]. by intros x ->%list_elem_of_singleton. }
  apply Forall_cons in HP as [Ha HP]. pose proof HP as [Hb Hl]%Forall_cons. cbn zeta in IH |- *.
  set (c := if better b a then b else a).
  assert (P c) as Hc by (unfold c; by destruct (better b a)).
  destruct (IH c ltac:(by apply Forall_cons)) as [Hin Hbest].
  set (r := foldl _ c l) in *.
  assert (P r) as Hr by (rewrite Forall_forall in Hl; apply elem_of_cons in Hin as [->|?]; auto).
  assert (better c r = false) as Hcr by (apply Hbest; left). split.
  - apply elem_of_cons in Hin as [->|Hin]; [unfold c; destruct (better b a); [right; left|left]|by right; right].
  - intros x [->|[->|Hx]%elem_of_cons]%elem_of_cons.
    + apply not_true_iff_false. intros Hx. apply not_true_iff_false in Hcr. apply Hcr. unfold c.
      destruct (better b a) eqn:E; [|done]. by apply (better_trans b a r).
    + apply not_true_iff_false. intros Hx. apply not_true_iff_false in Hcr. apply Hcr. unfold c.
      destruct (better b a) eqn:E; [done|]. by destruct (better_split b a r Hb Ha Hr Hx) as [?|?]; [congruence|].
    + apply Hbest. by right.
Qed.
End best.

(** The best of a list does not depend on its order, when it is the only one. *)
Lemma foldl_best_permutation {A} (P : A -> Prop) (better : A -> A -> bool) a l a' l' :
  (forall a, better a a = false) ->
  (forall a b c, P a -> P b -> P c -> better a b = true -> better b c = true -> better a c = true) ->
  (forall a b c, P a -> P b -> P c -> better a c = true -> better a b = true \/ better b c = true) ->
  (forall x y, x ∈ a :: l -> y ∈ a :: l -> better x y = false -> better y x = false -> x = y) ->
  Forall P (a :: l) -> a :: l ≡ₚ a' :: l' ->
  foldl (fun a b => if better b a then b else a) a l = foldl (fun a b => if better b a then b else a) a' l'.
Proof.
  intros H1 H2 H3 Hu HP Hperm. assert (Forall P (a' :: l')) as HP' by (by rewrite <- Hperm).
  destruct (foldl_best P better H1 H2 H3 a l HP) as [Hin Hb].
  destruct (foldl_best P better H1 H2 H3 a' l' HP') as [Hin' Hb']. cbn zeta in *.
  apply Hu; [done|by rewrite Hperm|..].
  - apply Hb'. by rewrite <- Hperm.
  - apply Hb. by rewrite Hperm.
Qed.

Lemma seq_lt_trans a b c :
  (idx_bar_seq_compare a b <? 0) = true -> (idx_bar_seq_compare b c <? 0) = true -> (idx_bar_seq_compare a c <? 0) = true.
Proof. rewrite !Z.ltb_lt. apply seq_compare_trans. Qed.

Lemma seq_lt_split a b c :
  (idx_bar_seq_compare a c <? 0) = true -> (idx_bar_seq_compare a b <? 0) = true \/ (idx_bar_seq_compare b c <? 0) = true.
Proof.
  rewrite !Z.ltb_lt. intros Hac. destruct (Z.lt_trichotomy (idx_bar_seq_compare a b) 0) as [?|[E|Hba]]; [by left| |].
  - apply seq_compare_eq in E as ->. by right.
  - right. eapply seq_compare_trans; [|exact Hac]. rewrite seq_compare_antisym. lia.
Qed.

Lemma dlt_split x y z :
  price_ok x = true -> price_ok y = true -> price_ok z = true -> dlt x z = true -> dlt x y = true \/ dlt y z = true.
Proof. intros Hx Hy Hz. rewrite !dlt_spec by done. lia. Qed.

(** The prices, and the sequences, of a bar's folds. *)
Definition folds_ok (l : list fold) : Prop :=
  (forall f, f ∈ l -> price_ok (in_price f.1) = true) /\
  (forall f g, f ∈ l -> g ∈ l -> bi_seq f.1 = bi_seq g.1 -> f.1 = g.1).

(** What does not depend on the order. *)
Definition same_candle (b b' : idx_bar) : Prop :=
  open b = open b' /\ high b = high b' /\ low b = low b' /\ close b = close b' /\
  bar_swap_count b = bar_swap_count b' /\ open_seq b = open_seq b' /\ close_seq b = close_seq b'.

Lemma bar_of_permutation f l g l' :
  folds_ok (f :: l) -> f :: l ≡ₚ g :: l' -> same_candle (bar_of f l.*1) (bar_of g l'.*1).
Proof.
  intros [Hp Hs] Hperm. assert (f.1 :: l.*1 ≡ₚ g.1 :: l'.*1) as Hin by (by apply (fmap_Permutation fst) in Hperm).
  assert (map in_price (f.1 :: l.*1) ≡ₚ map in_price (g.1 :: l'.*1)) as Hpr by (by apply Permutation_map).
  assert (Forall (fun x => price_ok x = true) (map in_price (f.1 :: l.*1))) as Hok.
  { apply Forall_forall. intros x Hx. change (f.1 :: l.*1) with (f :: l).*1 in Hx.
    apply list_elem_of_In, in_map_iff in Hx as (i & <- & Hi%list_elem_of_In).
    apply list_elem_of_fmap in Hi as (h & -> & Hh). by apply Hp. }
  assert (forall x y, x ∈ f.1 :: l.*1 -> y ∈ f.1 :: l.*1 -> idx_bar_seq_compare (bi_seq x) (bi_seq y) = 0 -> x = y) as Hu.
  { intros x y Hx Hy E%seq_compare_eq. change (f.1 :: l.*1) with (f :: l).*1 in Hx, Hy.
    apply list_elem_of_fmap in Hx as (h & -> & Hh), Hy as (h' & -> & Hh'). by apply Hs. }
  assert (foldl earliest f.1 l.*1 = foldl earliest g.1 l'.*1) as Ee.
  { apply (foldl_best_permutation (fun _ => True) (fun b a => idx_bar_seq_compare (bi_seq b) (bi_seq a) <? 0)); try done.
    - intros a. by rewrite (proj2 (seq_compare_eq _ _) eq_refl).
    - intros a b c _ _ _. apply seq_lt_trans.
    - intros a b c _ _ _. apply seq_lt_split.
    - intros x y Hx Hy E1 E2. apply Hu; [done..|]. rewrite seq_compare_antisym in E2. zlia.
    - by apply Forall_forall. }
  assert (foldl latest f.1 l.*1 = foldl latest g.1 l'.*1) as El.
  { apply (foldl_best_permutation (fun _ => True) (fun b a => 0 <? idx_bar_seq_compare (bi_seq b) (bi_seq a))); try done.
    - intros a. by rewrite (proj2 (seq_compare_eq _ _) eq_refl).
    - intros a b c _ _ _ H1 H2. rewrite seq_compare_antisym in H1, H2 |- *.
      assert (idx_bar_seq_compare (bi_seq c) (bi_seq a) < 0); [|zlia]. apply (seq_compare_trans _ (bi_seq b)); zlia.
    - intros a b c _ _ _ H1. cbn beta in *. pose proof (seq_compare_antisym (bi_seq a) (bi_seq c)).
      pose proof (seq_compare_antisym (bi_seq b) (bi_seq c)). pose proof (seq_compare_antisym (bi_seq a) (bi_seq b)).
      destruct (seq_lt_split (bi_seq c) (bi_seq b) (bi_seq a)); zlia || (right; zlia) || (left; zlia).
    - intros x y Hx Hy E1 E2. apply Hu; [done..|]. rewrite seq_compare_antisym in E2. zlia.
    - by apply Forall_forall. }
  unfold same_candle, bar_of. cbn [open high low close bar_swap_count open_seq close_seq]. rewrite Ee, El.
  assert (size l.*1 = size l'.*1) as ->.
  { apply Permutation_length in Hin. simpl in Hin. unfold size. lia. }
  rewrite Forall_forall in Hok. split_and!; try done.
  - apply (foldl_best_permutation (fun x => price_ok x = true) (fun y x => dlt x y)); try done.
    + intros a. apply dlt_irrefl.
    + intros a b c Ha Hb Hc H1 H2. by apply (dlt_trans c b a).
    + intros a b c Ha Hb Hc H1. destruct (dlt_split c b a); auto.
    + intros x y Hx Hy E1 E2. apply dlt_total; auto.
    + by apply Forall_forall.
  - apply (foldl_best_permutation (fun x => price_ok x = true) dlt); try done.
    + intros a. apply dlt_irrefl.
    + intros a b c Ha Hb Hc H1 H2. by apply (dlt_trans a b c).
    + intros a b c Ha Hb Hc H1. by apply dlt_split.
    + intros x y Hx Hy E1 E2. apply dlt_total; auto.
    + by apply Forall_forall.
Qed.

(** Open, high, low, close and the count do not depend on the order in which the
    blocks arrived: two histories with the same swaps, their prices not negative
    and their sequences distinct, give the same candle for every key.  The volumes
    are sums of doubles and are not claimed. *)
Theorem bar_order_independent k seen seen' :
  seen ≡ₚ seen' -> folds_ok seen ->
  match describe k seen, describe k seen' with
  | Some b, Some b' => same_candle b b'
  | None, None => True
  | _, _ => False
  end.
Proof.
  intros Hperm [Hp Hs]. unfold describe. assert (filter (hits k) seen ≡ₚ filter (hits k) seen') as Hf by (by rewrite Hperm).
  assert (folds_ok (filter (hits k) seen)) as Hok.
  { split; [intros f [_ Hf1]%list_elem_of_filter; by apply Hp|].
    intros f g [_ Hf1]%list_elem_of_filter [_ Hg1]%list_elem_of_filter. by apply Hs. }
  destruct (filter (hits k) seen) as [|f l], (filter (hits k) seen') as [|g l']; try done.
  - by apply Permutation_nil in Hf.
  - symmetry in Hf. by apply Permutation_nil in Hf.
  - by apply bar_of_permutation.
Qed.

(** ** Witnesses *)

(** A swap of whole quote units for one whole base unit. *)
Definition sample_input (units time slot : Z) : idx_bar_input :=
  BarInput IDX_PROGRAM_MEMO
    (Price true IDX_QUOTE_SOL IDX_PUBKEY_DEFAULT IDX_PUBKEY_DEFAULT units 1 0 0 (Some (price_number units 0 1 0)))
    time (BarSeq slot 0 0 0 false).

(** Three swaps of one minute, the middle one last. *)
Definition sample_inputs : list idx_bar_input := [sample_input 5 61 10; sample_input 9 70 12; sample_input 2 62 11].

Definition sample_registry : idx_bar_registry (idx_map ptr) := (observe_all sample_inputs idx_bar_registry_init []).2.

Lemma bar_registry_history_witness :
  exists b, idx_bar_registry_get sample_registry IDX_PROGRAM_MEMO IDX_BAR_1M 60 = Some b /\
    is_integer (open b) 5 = true /\ is_integer (high b) 9 = true /\ is_integer (low b) 2 = true /\
    is_integer (close b) 9 = true /\ is_integer (quote_volume b) 16 = true.
Proof.
  pose proof (bar_registry_history (M:=idx_map ptr) sample_inputs []) as H. unfold sample_registry.
  assert (Forall (fun r => r = Ok tt) (observe_all sample_inputs (idx_bar_registry_init (M:=idx_map ptr)) []).1) as Hok
    by (vm_compute; repeat constructor).
  destruct (observe_all _ _ _) as [rs reg]. destruct H as (_ & seen & _ & Hs & Hg). cbn [fst snd] in *.
  rewrite Hg, (Hs Hok). eexists. split; [vm_compute; reflexivity|]. repeat split; vm_compute; reflexivity.
Defined.

(** The swap of slot 12 is reorged away. *)
Lemma bar_recompute_exact_witness :
  let '(r, reg', _) := idx_bar_registry_recompute_range sample_registry 12 (filter (below 12) sample_inputs) [] in
  r = Ok 2 /\ describes reg' (all_folds [sample_input 5 61 10; sample_input 2 62 11]).
Proof.
  pose proof (bar_observe_all_describes (M:=idx_map ptr) sample_inputs idx_bar_registry_init [] [] (proj1 bar_init_registry_ok)
    (fun k => eq_trans (f_equal (fun m => m !! k) (proj2 bar_init_registry_ok)) (lookup_empty k))) as Hrun.
  pose proof (bar_recompute_exact (M:=idx_map ptr) sample_registry sample_inputs 12 []) as H.
  assert ((idx_bar_registry_recompute_range sample_registry 12 (filter (below 12) sample_inputs) []).1.1 = Ok 2) as Hr
    by (vm_compute; reflexivity).
  assert (filter (below 12) sample_inputs = [sample_input 5 61 10; sample_input 2 62 11]) as Hf by (vm_compute; reflexivity).
  assert (Forall (fun r => r = Ok tt) (observe_all sample_inputs (idx_bar_registry_init (M:=idx_map ptr)) []).1) as Hok
    by (vm_compute; repeat constructor).
  unfold sample_registry in *. destruct (observe_all _ _ _) as [rs reg]. cbn [fst snd] in *.
  destruct Hrun as (I & seen & Hd & _ & Hs). specialize (Hs Hok). subst seen. cbn [app] in Hd.
  specialize (H I Hd). destruct (idx_bar_registry_recompute_range _ _ _ _) as [[r reg'] h']. cbn [fst] in Hr. subst r.
  split; [reflexivity|]. rewrite <- Hf. apply H.
Defined.

Lemma bar_order_independent_witness :
  match describe (bar_key IDX_PROGRAM_MEMO IDX_BAR_1M 60) (all_folds sample_inputs),
        describe (bar_key IDX_PROGRAM_MEMO IDX_BAR_1M 60) (all_folds (rev sample_inputs)) with
  | Some b, Some b' => same_candle b b'
  | None, None => True
  | _, _ => False
  end.
Proof.
  apply bar_order_independent.
  - assert (all_folds (rev sample_inputs) = 
      concat (map folds (rev sample_inputs))) as -> by reflexivity.
    unfold all_folds. rewrite map_rev. induction (map folds sample_inputs) as [|x l IH]; [reflexivity|].
    cbn [rev concat]. rewrite concat_app, <- IH. cbn [concat]. rewrite app_nil_r. apply Permutation_app_comm.
  - split.
    + intros f Hf. vm_compute in Hf. repeat (apply elem_of_cons in Hf as [->|Hf]; [vm_compute; reflexivity|]).
      by apply elem_of_nil in Hf.
    + intros f g Hf Hg. vm_compute in Hf, Hg.
      repeat (apply elem_of_cons in Hf as [->|Hf]);
        [..|by apply elem_of_nil in Hf]; repeat (apply elem_of_cons in Hg as [->|Hg]); try (by apply elem_of_nil in Hg);
        (done || reflexivity).
Defined.
