(* ===== verification/Store.v ===== *)
(** * store.c: the two storage tiers and their in-memory reference

    The rows the indexer persists, the operations each tier offers (a record of
    functions, any of which a backend may leave out), the dispatch in front of them,
    and the in-memory backends that are the code's own specification of the
    databases.  An element of a vector is a row tagged with its kind; the size of
    each struct, which the compiler chooses, is a parameter.  Arrays a write set
    borrows are lists. *)

From S2P Require Import Prelude Vec Types Arena Block Walk Balance Transfer VenueTypes.
From S2P Require Import Swap Token Pool Double Price Bar.
#[local] Open Scope Z_scope.

(** ** Rows *)

(** src/include/store.h:55-59 [idx_store_ref] *)
Record idx_store_ref := StoreRef { ref_slot : Z; ref_transaction_index : Z; ref_signature : idx_signature }.

(** src/include/store.h:66-76 [idx_store_block_row] *)
Record idx_store_block_row := StoreBlock {
  sb_slot : Z;
  sb_blockhash : idx_hash;
  sb_previous_blockhash : idx_hash;
  sb_parent_slot : Z;
  sb_block_time : option Z;
  sb_block_height : option Z;
  sb_transaction_count : Z
}.

(** src/include/store.h:79-82 [idx_store_sol_balance_row] *)
Record idx_store_sol_balance_row := StoreSol { ss_ref : idx_store_ref; ss_balance : idx_sol_balance }.

(** src/include/store.h:85-88 [idx_store_token_balance_row] *)
Record idx_store_token_balance_row := StoreTokenBalance { st_ref : idx_store_ref; st_balance : idx_token_balance_state }.

(** src/include/store.h:92-95 [idx_store_transfer_row] *)
Record idx_store_transfer_row := StoreTransfer { stf_ref : idx_store_ref; stf_transfer : idx_transfer }.

(** src/include/store.h:103-109 [idx_store_swap_row] *)
Record idx_store_swap_row := StoreSwap {
  ssw_ref : idx_store_ref;
  ssw_swap : idx_swap_row;
  ssw_price : idx_price;
  ssw_block_time : option Z
}.

(** src/include/store.h:118-142 [idx_store_write_set] *)
Record idx_store_write_set := WriteSet {
  ws_blocks : list idx_store_block_row;
  ws_sol_balances : list idx_store_sol_balance_row;
  ws_token_balances : list idx_store_token_balance_row;
  ws_transfers : list idx_store_transfer_row;
  ws_swaps : list idx_store_swap_row;
  ws_pools : list idx_pool;
  ws_tokens : list idx_token;
  ws_bars : list idx_bar
}.

(** src/include/store.h:152-161 [idx_store_counts] *)
Record idx_store_counts := StoreCounts {
  c_blocks : Z;
  c_sol_balances : Z;
  c_token_balances : Z;
  c_transfers : Z;
  c_swaps : Z;
  c_pools : Z;
  c_tokens : Z;
  c_bars : Z
}.

(** src/src/store.c:20-30 [E_COUNT]: the kinds, in order. *)
Inductive entity :=
  | E_BLOCK | E_SOL_BALANCE | E_TOKEN_BALANCE | E_TRANSFER | E_SWAP | E_POOL | E_TOKEN | E_BAR.

#[export] Instance entity_eq_dec : EqDecision entity.
Proof. solve_decision. Defined.

Definition entities : list entity :=
  [E_BLOCK; E_SOL_BALANCE; E_TOKEN_BALANCE; E_TRANSFER; E_SWAP; E_POOL; E_TOKEN; E_BAR].

(** An element of one of the vectors. *)
Inductive elem :=
  | ElemBlock (r : idx_store_block_row)
  | ElemSol (r : idx_store_sol_balance_row)
  | ElemTokenBalance (r : idx_store_token_balance_row)
  | ElemTransfer (r : idx_store_transfer_row)
  | ElemSwap (r : idx_store_swap_row)
  | ElemPool (r : idx_pool)
  | ElemToken (r : idx_token)
  | ElemBar (r : idx_bar).

Definition kind_of (x : elem) : entity :=
  match x with
  | ElemBlock _ => E_BLOCK | ElemSol _ => E_SOL_BALANCE | ElemTokenBalance _ => E_TOKEN_BALANCE
  | ElemTransfer _ => E_TRANSFER | ElemSwap _ => E_SWAP | ElemPool _ => E_POOL | ElemToken _ => E_TOKEN
  | ElemBar _ => E_BAR
  end.

(** src/src/store.c:42-73 [g_slot_getter]: the slot an element is deleted and read
    by, its kind choosing the getter. *)
Definition elem_slot (x : elem) : Z :=
  match x with
  | ElemBlock r => sb_slot r
  | ElemSol r => ref_slot (ss_ref r)
  | ElemTokenBalance r => ref_slot (st_ref r)
  | ElemTransfer r => ref_slot (stf_ref r)
  | ElemSwap r => ref_slot (ssw_ref r)
  | ElemPool r => Pool.first_seen_slot r
  | ElemToken r => Token.first_seen_slot r
  | ElemBar r => bs_slot (close_seq r)
  end.

(** src/src/store.c:82-92 [ws_arrays] *)
Definition ws_arrays (set : idx_store_write_set) : list (list elem) :=
  [ElemBlock <$> ws_blocks set; ElemSol <$> ws_sol_balances set; ElemTokenBalance <$> ws_token_balances set;
   ElemTransfer <$> ws_transfers set; ElemSwap <$> ws_swaps set; ElemPool <$> ws_pools set; ElemToken <$> ws_tokens set;
   ElemBar <$> ws_bars set].

(** src/src/store.c:96-100 [idx_store_write_set_init] *)
Definition idx_store_write_set_init : idx_store_write_set := WriteSet [] [] [] [] [] [] [] [].

(** src/src/store.c:102-113 [idx_store_write_set_total] *)
Definition idx_store_write_set_total (set : option idx_store_write_set) : Z :=
  match set with
  | None => 0
  | Some set => foldl (fun total array => u64 (total + size array)) 0 (ws_arrays set)
  end.

(** src/src/store.c:115-122 [idx_store_counts_total] *)
Definition idx_store_counts_total (c : idx_store_counts) : Z :=
  u64 (c_blocks c + c_sol_balances c + c_token_balances c + c_transfers c + c_swaps c + c_pools c + c_tokens c + c_bars c).

(** ** The tiers *)

(** src/include/store.h:175-215 [idx_confirmed_store_vt] *)
Record idx_confirmed_store_vt (C A : Type) := ConfirmedVt {
  cv_name : option (C -> bytes);
  cv_write : option (C -> idx_store_write_set -> heap -> result unit * C * heap);
  cv_reorg : option (C -> Z -> option idx_store_write_set -> heap -> result unit * C * heap);
  cv_prune : option (C -> Z -> heap -> result unit * C * heap);
  cv_read_range : option (C -> Z -> Z -> A -> result idx_store_write_set * A);
  cv_close : option (C -> C)
}.
Arguments ConfirmedVt {C A}.
Arguments cv_name {C A}.
Arguments cv_write {C A}.
Arguments cv_reorg {C A}.
Arguments cv_prune {C A}.
Arguments cv_read_range {C A}.
Arguments cv_close {C A}.

(** src/include/store.h:257-270 [idx_finalized_store_vt] *)
Record idx_finalized_store_vt (C : Type) := FinalizedVt {
  fv_name : option (C -> bytes);
  fv_append : option (C -> idx_store_write_set -> heap -> result unit * C * heap);
  fv_flush : option (C -> heap -> result unit * C * heap);
  fv_close : option (C -> C)
}.
Arguments FinalizedVt {C}.
Arguments fv_name {C}.
Arguments fv_append {C}.
Arguments fv_flush {C}.
Arguments fv_close {C}.

Section Dispatch.
Context {C A : Type}.

(** A handle: null, or a table that may be null and a context. *)
Abbreviation confirmed := (option (option (idx_confirmed_store_vt C A) * C)).
Abbreviation finalized := (option (option (idx_finalized_store_vt C) * C)).

(** src/src/store.c:126-131 [idx_confirmed_store_name] *)
Definition idx_confirmed_store_name (store : confirmed) : bytes :=
  match store with
  | Some (Some vt, ctx) => match cv_name vt with Some f => f ctx | None => lit "unset" end
  | _ => lit "unset"
  end.

(** src/src/store.c:133-141 [idx_confirmed_store_write]: the status and the context
    afterwards. *)
Definition idx_confirmed_store_write (store : confirmed) (set : option idx_store_write_set) (h : heap)
    : result unit * option C * heap :=
  match store, set with
  | Some (Some vt, ctx), Some set =>
      match cv_write vt with
      | Some f => let '(r, c, h) := f ctx set h in (r, Some c, h)
      | None => (IDX_FAIL IDX_ERR_INVALID_ARG, Some ctx, h)
      end
  | _, _ => (IDX_FAIL IDX_ERR_INVALID_ARG, snd <$> store, h)
  end.

(** src/src/store.c:143-151 [idx_confirmed_store_reorg] *)
Definition idx_confirmed_store_reorg (store : confirmed) (from_slot : Z) (replacement : option idx_store_write_set) (h : heap)
    : result unit * option C * heap :=
  match store with
  | Some (Some vt, ctx) =>
      match cv_reorg vt with
      | Some f => let '(r, c, h) := f ctx from_slot replacement h in (r, Some c, h)
      | None => (IDX_FAIL IDX_ERR_INVALID_ARG, Some ctx, h)
      end
  | _ => (IDX_FAIL IDX_ERR_INVALID_ARG, snd <$> store, h)
  end.

(** src/src/store.c:153-159 [idx_confirmed_store_prune] *)
Definition idx_confirmed_store_prune (store : confirmed) (below_slot : Z) (h : heap) : result unit * option C * heap :=
  match store with
  | Some (Some vt, ctx) =>
      match cv_prune vt with
      | Some f => let '(r, c, h) := f ctx below_slot h in (r, Some c, h)
      | None => (IDX_FAIL IDX_ERR_INVALID_ARG, Some ctx, h)
      end
  | _ => (IDX_FAIL IDX_ERR_INVALID_ARG, snd <$> store, h)
  end.

(** src/src/store.c:161-177 [idx_confirmed_store_read_range] *)
Definition idx_confirmed_store_read_range (store : confirmed) (from_slot to_slot : Z) (arena : A)
    : result idx_store_write_set * A :=
  match store with
  | Some (Some vt, ctx) =>
      match cv_read_range vt with
      | Some f => if to_slot <? from_slot then (IDX_FAIL IDX_ERR_RANGE, arena) else f ctx from_slot to_slot arena
      | None => (IDX_FAIL IDX_ERR_INVALID_ARG, arena)
      end
  | _ => (IDX_FAIL IDX_ERR_INVALID_ARG, arena)
  end.

(** src/src/store.c:179-187 [idx_confirmed_store_close]: what the backend leaves of its
    context; the handle is freed. *)
Definition idx_confirmed_store_close (store : confirmed) : option C :=
  match store with
  | Some (Some vt, ctx) => Some (match cv_close vt with Some f => f ctx | None => ctx end)
  | Some (None, ctx) => Some ctx
  | None => None
  end.

(** src/src/store.c:191-196 [idx_finalized_store_name] *)
Definition idx_finalized_store_name (store : finalized) : bytes :=
  match store with
  | Some (Some vt, ctx) => match fv_name vt with Some f => f ctx | None => lit "unset" end
  | _ => lit "unset"
  end.

(** src/src/store.c:198-207 [idx_finalized_store_append] *)
Definition idx_finalized_store_append (store : finalized) (set : option idx_store_write_set) (h : heap)
    : result unit * option C * heap :=
  match store, set with
  | Some (Some vt, ctx), Some set =>
      match fv_append vt with
      | Some f => let '(r, c, h) := f ctx set h in (r, Some c, h)
      | None => (IDX_FAIL IDX_ERR_INVALID_ARG, Some ctx, h)
      end
  | _, _ => (IDX_FAIL IDX_ERR_INVALID_ARG, snd <$> store, h)
  end.

(** src/src/store.c:209-216 [idx_finalized_store_flush] *)
Definition idx_finalized_store_flush (store : finalized) (h : heap) : result unit * option C * heap :=
  match store with
  | Some (Some vt, ctx) =>
      match fv_flush vt with
      | Some f => let '(r, c, h) := f ctx h in (r, Some c, h)
      | None => (IDX_FAIL IDX_ERR_INVALID_ARG, Some ctx, h)
      end
  | _ => (IDX_FAIL IDX_ERR_INVALID_ARG, snd <$> store, h)
  end.

(** src/src/store.c:218-226 [idx_finalized_store_close] *)
Definition idx_finalized_store_close (store : finalized) : option C :=
  match store with
  | Some (Some vt, ctx) => Some (match fv_close vt with Some f => f ctx | None => ctx end)
  | Some (None, ctx) => Some ctx
  | None => None
  end.

End Dispatch.

(** ** The in-memory backends *)

Section Memory.

(** [g_elem_size], the structs' sizes, and what uninitialised memory holds. *)
Context (g_elem_size : entity -> Z) (garbage : elem).

(** src/src/store.c:234-236 [mem_rows]: the eight vectors, in order. *)
Definition mem_rows : Type := list (idx_vec elem).

(** src/src/store.c:238-242 [mem_rows_init] *)
Definition mem_rows_init : mem_rows := (fun e => idx_vec_init (g_elem_size e)) <$> entities.

(** src/src/store.c:244-248 [mem_rows_free] *)
Definition mem_rows_free (m : mem_rows) : mem_rows := (fun v => default v (idx_vec_free (Some v))) <$> m.

(** src/src/store.c:262-264 [mem_rows_append]: the first loop; on a failure the
    vectors before it keep the room they were given. *)
Fixpoint reserve_all (m : mem_rows) (arrays : list (list elem)) (h : heap) : result unit * mem_rows * heap :=
  match m, arrays with
  | v :: m, array :: arrays =>
      match idx_vec_reserve (Some v) (size array) h with
      | (Err e, v', h) => (Err e, default v v' :: m, h)
      | (Ok _, v', h) => let '(r, m, h) := reserve_all m arrays h in (r, default v v' :: m, h)
      end
  | _, _ => (Ok tt, m, h)
  end.

(** src/src/store.c:267-270 [mem_rows_append]: the inner loop; the status of a push
    is not looked at. *)
Fixpoint push_rows (v : idx_vec elem) (rows : list elem) (h : heap) : idx_vec elem * heap :=
  match rows with
  | [] => (v, h)
  | x :: rows => let '(_, v', h) := idx_vec_push garbage (Some v) (Some x) h in push_rows (default v v') rows h
  end.

(** src/src/store.c:265-271 [mem_rows_append]: the second loop. *)
Fixpoint push_all (m : mem_rows) (arrays : list (list elem)) (h : heap) : mem_rows * heap :=
  match m, arrays with
  | v :: m, array :: arrays =>
      let '(v, h) := push_rows v array h in
      let '(m, h) := push_all m arrays h in (v :: m, h)
  | _, _ => (m, h)
  end.

(** src/src/store.c:255-273 [mem_rows_append] *)
Definition mem_rows_append (m : mem_rows) (set : option idx_store_write_set) (h : heap) : result unit * mem_rows * heap :=
  match set with
  | None => (Ok tt, m, h)
  | Some set =>
      match reserve_all m (ws_arrays set) h with
      | (Err e, m, h) => (Err e, m, h)
      | (Ok _, m, h) => let '(m, h) := push_all m (ws_arrays set) h in (Ok tt, m, h)
      end
  end.

(** src/src/store.c:285-294 [mem_rows_retain]: one vector, from row [r] on, [w] rows
    kept; [todo] counts the rows left. *)
Fixpoint retain_rows (keep : Z -> Z -> bool) (pivot : Z) (todo r w : nat) (data : list elem) : list elem :=
  match todo with
  | O => take w data
  | S todo =>
      let x := default garbage (data !! r) in
      if keep (elem_slot x) pivot
      then retain_rows keep pivot todo (S r) (S w) (if (w =? r)%nat then data else <[w := x]> data)
      else retain_rows keep pivot todo (S r) w data
  end.

(** src/src/store.c:278-295 [mem_rows_retain] *)
Definition mem_rows_retain (m : mem_rows) (keep : Z -> Z -> bool) (pivot : Z) : mem_rows :=
  (fun v => Vec (retain_rows keep pivot (length (vec_data v)) 0 0 (vec_data v)) (vec_capacity v) (elem_size v)) <$> m.

(** src/src/store.c:297-297 [keep_below] *)
Definition keep_below (slot pivot : Z) : bool := slot <? pivot.

(** src/src/store.c:298-300 [keep_at_or_above] *)
Definition keep_at_or_above (slot pivot : Z) : bool := pivot <=? slot.

(** [m->rows[e].len] *)
Definition len_of (m : mem_rows) (e : nat) : Z := match m !! e with Some v => size (vec_data v) | None => 0 end.

(** src/src/store.c:302-311 [mem_rows_counts] *)
Definition mem_rows_counts (m : mem_rows) : idx_store_counts :=
  StoreCounts (len_of m 0) (len_of m 1) (len_of m 2) (len_of m 3) (len_of m 4) (len_of m 5) (len_of m 6) (len_of m 7).

(** The test of [mem_collect_range]. *)
Definition within (from to : Z) (x : elem) : bool := (from <=? elem_slot x) && (elem_slot x <=? to).

(** src/src/store.c:320-325 [mem_collect_range]: the counting loop. *)
Definition matched (from to : Z) (data : list elem) : Z :=
  foldl (fun n x => if within from to x then n + 1 else n) 0 data.

(** src/src/store.c:334-342 [mem_collect_range]: the copying loop, as the rows
    written. *)
Definition copied (from to : Z) (data : list elem) : list elem :=
  foldl (fun dst x => if within from to x then dst ++ [x] else dst) [] data.

(** src/src/store.c:315-348 [mem_collect_range] *)
Definition mem_collect_range {A} `{ArenaOps A} (v : idx_vec elem) (from to : Z) (arena : A) : result (list elem) * A :=
  let n := matched from to (vec_data v) in
  if n =? 0 then (Ok [], arena)
  else
    match arena_calloc n (elem_size v) arena with
    | (Err e, arena) => (Err e, arena)
    | (Ok _, arena) => (Ok (copied from to (vec_data v)), arena)
    end.

(** src/src/store.c:396-399 [mem_confirmed_read_range]: the loop. *)
Fixpoint collect_all {A} `{ArenaOps A} (m : mem_rows) (from to : Z) (arena : A) : result (list (list elem)) * A :=
  match m with
  | [] => (Ok [], arena)
  | v :: m =>
      match mem_collect_range v from to arena with
      | (Err e, arena) => (Err e, arena)
      | (Ok rows, arena) =>
          match collect_all m from to arena with
          | (Err e, arena) => (Err e, arena)
          | (Ok rest, arena) => (Ok (rows :: rest), arena)
          end
      end
  end.

(** The casts of the arrays back to their rows. *)
Definition column {X} (f : elem -> option X) (data : list (list elem)) (e : nat) : list X :=
  omap f (default [] (data !! e)).

Definition as_set (data : list (list elem)) : idx_store_write_set :=
  WriteSet
    (column (fun x => match x with ElemBlock r => Some r | _ => None end) data 0)
    (column (fun x => match x with ElemSol r => Some r | _ => None end) data 1)
    (column (fun x => match x with ElemTokenBalance r => Some r | _ => None end) data 2)
    (column (fun x => match x with ElemTransfer r => Some r | _ => None end) data 3)
    (column (fun x => match x with ElemSwap r => Some r | _ => None end) data 4)
    (column (fun x => match x with ElemPool r => Some r | _ => None end) data 5)
    (column (fun x => match x with ElemToken r => Some r | _ => None end) data 6)
    (column (fun x => match x with ElemBar r => Some r | _ => None end) data 7).

(** src/src/store.c:357-360 [mem_confirmed_write] *)
Definition mem_confirmed_write (m : mem_rows) (set : idx_store_write_set) (h : heap) : result unit * mem_rows * heap :=
  mem_rows_append m (Some set) h.

(** src/src/store.c:362-378 [mem_confirmed_reorg] *)
Definition mem_confirmed_reorg (m : mem_rows) (from_slot : Z) (replacement : option idx_store_write_set) (h : heap)
    : result unit * mem_rows * heap :=
  let '(r, m, h) :=
    match replacement with
    | None => (Ok tt, m, h)
    | Some set => reserve_all m (ws_arrays set) h
    end in
  match r with
  | Err e => (Err e, m, h)
  | Ok _ => mem_rows_append (mem_rows_retain m keep_below from_slot) replacement h
  end.

(** src/src/store.c:380-385 [mem_confirmed_prune] *)
Definition mem_confirmed_prune (m : mem_rows) (below_slot : Z) (h : heap) : result unit * mem_rows * heap :=
  (Ok tt, mem_rows_retain m keep_at_or_above below_slot, h).

(** src/src/store.c:387-417 [mem_confirmed_read_range] *)
Definition mem_confirmed_read_range {A} `{ArenaOps A} (m : mem_rows) (from_slot to_slot : Z) (arena : A)
    : result idx_store_write_set * A :=
  match collect_all m from_slot to_slot arena with
  | (Err e, arena) => (Err e, arena)
  | (Ok data, arena) => (Ok (as_set data), arena)
  end.

(** src/src/store.c:419-425 [mem_confirmed_close] *)
Definition mem_confirmed_close (m : mem_rows) : mem_rows := mem_rows_free m.

(** src/src/store.c:427-434 [g_mem_confirmed_vt] *)
Definition g_mem_confirmed_vt {A} `{ArenaOps A} : idx_confirmed_store_vt mem_rows A :=
  ConfirmedVt (Some (fun _ => lit "memory-confirmed")) (Some mem_confirmed_write) (Some mem_confirmed_reorg)
    (Some mem_confirmed_prune) (Some mem_confirmed_read_range) (Some mem_confirmed_close).

(** src/src/store.c:436-453 [idx_mem_confirmed_store_open] *)
Definition idx_mem_confirmed_store_open (h : heap) : result mem_rows * heap :=
  let '(ok1, h) := malloc h in
  let '(ok2, h) := malloc h in
  if negb ok1 || negb ok2 then (IDX_FAIL IDX_ERR_NO_MEMORY, h) else (Ok mem_rows_init, h).

(** src/src/store.c:455-465 [idx_mem_confirmed_store_counts] *)
Definition idx_mem_confirmed_store_counts (m : option mem_rows) : idx_store_counts :=
  match m with None => StoreCounts 0 0 0 0 0 0 0 0 | Some m => mem_rows_counts m end.

(** src/src/store.c:472-476 [mem_finalized] *)
Record mem_finalized := MemFinalized { mf_rows : mem_rows; pending : Z; flushes : Z }.

(** src/src/store.c:483-490 [mem_finalized_append] *)
Definition mem_finalized_append (f : mem_finalized) (set : idx_store_write_set) (h : heap) : result unit * mem_finalized * heap :=
  let before := idx_store_write_set_total (Some set) in
  match mem_rows_append (mf_rows f) (Some set) h with
  | (Err e, rows, h) => (Err e, MemFinalized rows (pending f) (flushes f), h)
  | (Ok _, rows, h) => (Ok tt, MemFinalized rows (u64 (pending f + before)) (flushes f), h)
  end.

(** src/src/store.c:492-498 [mem_finalized_flush] *)
Definition mem_finalized_flush (f : mem_finalized) (h : heap) : result unit * mem_finalized * heap :=
  (Ok tt, MemFinalized (mf_rows f) 0 (u64 (flushes f + 1)), h).

(** src/src/store.c:500-506 [mem_finalized_close] *)
Definition mem_finalized_close (f : mem_finalized) : mem_finalized :=
  MemFinalized (mem_rows_free (mf_rows f)) (pending f) (flushes f).

(** src/src/store.c:508-513 [g_mem_finalized_vt] *)
Definition g_mem_finalized_vt : idx_finalized_store_vt mem_finalized :=
  FinalizedVt (Some (fun _ => lit "memory-finalized")) (Some mem_finalized_append) (Some mem_finalized_flush)
    (Some mem_finalized_close).

(** src/src/store.c:515-532 [idx_mem_finalized_store_open] *)
Definition idx_mem_finalized_store_open (h : heap) : result mem_finalized * heap :=
  let '(ok1, h) := malloc h in
  let '(ok2, h) := malloc h in
  if negb ok1 || negb ok2 then (IDX_FAIL IDX_ERR_NO_MEMORY, h) else (Ok (MemFinalized mem_rows_init 0 0), h).

(** src/src/store.c:534-544 [idx_mem_finalized_store_counts] *)
Definition idx_mem_finalized_store_counts (f : option mem_finalized) : idx_store_counts :=
  match f with None => StoreCounts 0 0 0 0 0 0 0 0 | Some f => mem_rows_counts (mf_rows f) end.

(** src/src/store.c:546-551 [idx_mem_finalized_store_pending] *)
Definition idx_mem_finalized_store_pending (f : option mem_finalized) : Z :=
  match f with None => 0 | Some f => pending f end.

(** src/src/store.c:553-558 [idx_mem_finalized_store_flushes] *)
Definition idx_mem_finalized_store_flushes (f : option mem_finalized) : Z :=
  match f with None => 0 | Some f => flushes f end.

(** ** The abstract store: a list of rows per kind *)

Definition contents : Type := list (list elem).

Definition rows_of (m : mem_rows) : contents := vec_data <$> m.

Definition no_rows : contents := replicate 8 [].

(** What a caller can ask of the confirmed tier. *)
Inductive store_call :=
  | Write (set : idx_store_write_set)
  | Reorg (from_slot : Z) (replacement : option idx_store_write_set)
  | Prune (below_slot : Z).

Definition replacement_rows (replacement : option idx_store_write_set) : contents :=
  match replacement with Some set => ws_arrays set | None => no_rows end.

(** What the interface promises of each call. *)
Definition spec_step (c : store_call) (rows : contents) : contents :=
  match c with
  | Write set => zip_with app rows (ws_arrays set)
  | Reorg from replacement => zip_with app (filter (fun x => elem_slot x < from) <$> rows) (replacement_rows replacement)
  | Prune below => filter (fun x => below <= elem_slot x) <$> rows
  end.

(** The contents after the calls that were accepted. *)
Fixpoint spec_run (calls : list store_call) (log : list (result unit)) (rows : contents) : contents :=
  match calls, log with
  | c :: calls, Ok _ :: log => spec_run calls log (spec_step c rows)
  | _ :: calls, Err _ :: log => spec_run calls log rows
  | _, _ => rows
  end.

(** The counts of some contents. *)
Definition counts_of (rows : contents) : idx_store_counts :=
  let n (e : nat) : Z := size (default [] (rows !! e)) in
  StoreCounts (n 0%nat) (n 1%nat) (n 2%nat) (n 3%nat) (n 4%nat) (n 5%nat) (n 6%nat) (n 7%nat).

(** The rows a call brings. *)
Definition offered (c : store_call) : Z :=
  match c with
  | Write set => size (concat (ws_arrays set))
  | Reorg _ replacement => size (concat (replacement_rows replacement))
  | Prune _ => 0
  end.

Definition offered_all (calls : list store_call) : Z := foldr (fun c n => offered c + n) 0 calls.

Section Calls.
Context {A : Type} `{ArenaOps A}.

(** A call made through the dispatch, on a handle of the in-memory tier. *)
Definition store_step (c : store_call) (m : mem_rows) (h : heap) : result unit * mem_rows * heap :=
  let store := Some (Some (g_mem_confirmed_vt (A := A)), m) in
  let '(r, m', h') :=
    match c with
    | Write set => idx_confirmed_store_write store (Some set) h
    | Reorg from replacement => idx_confirmed_store_reorg store from replacement h
    | Prune below => idx_confirmed_store_prune store below h
    end in
  (r, default m m', h').

Fixpoint store_run (calls : list store_call) (m : mem_rows) (h : heap) : list (result unit) * mem_rows * heap :=
  match calls with
  | [] => ([], m, h)
  | c :: calls =>
      let '(r, m, h) := store_step c m h in
      let '(log, m, h) := store_run calls m h in (r :: log, m, h)
  end.
End Calls.

(** What a caller can ask of the finalized tier. *)
Inductive final_call := Append (set : idx_store_write_set) | Flush.

Definition final_step (c : final_call) (f : mem_finalized) (h : heap) : result unit * mem_finalized * heap :=
  let store := Some (Some g_mem_finalized_vt, f) in
  let '(r, f', h') :=
    match c with
    | Append set => idx_finalized_store_append store (Some set) h
    | Flush => idx_finalized_store_flush store h
    end in
  (r, default f f', h').

Fixpoint final_run (calls : list final_call) (f : mem_finalized) (h : heap) : list (result unit) * mem_finalized * heap :=
  match calls with
  | [] => ([], f, h)
  | c :: calls =>
      let '(r, f, h) := final_step c f h in
      let '(log, f, h) := final_run calls f h in (r :: log, f, h)
  end.

(** The rows kept, the rows since the last flush and the flushes, after the calls
    that were accepted. *)
Fixpoint final_spec (calls : list final_call) (log : list (result unit)) (state : contents * Z * Z) : contents * Z * Z :=
  match calls, log with
  | Append set :: calls, Ok _ :: log =>
      final_spec calls log
        (zip_with app state.1.1 (ws_arrays set), state.1.2 + size (concat (ws_arrays set)), state.2)
  | Flush :: calls, Ok _ :: log => final_spec calls log (state.1.1, 0, state.2 + 1)
  | _ :: calls, Err _ :: log => final_spec calls log state
  | _, _ => state
  end.

(** ** Lemmas *)

Hypothesis elem_size_pos : forall e, 0 < g_elem_size e.

(** A vector of one kind. *)
Definition vec_typed (e : entity) (v : idx_vec elem) : Prop :=
  vec_ok v /\ elem_size v = g_elem_size e /\ Forall (fun x => kind_of x = e) (vec_data v).

Definition rows_ok (m : mem_rows) : Prop := Forall2 vec_typed entities m.

Definition arrays_ok (es : list entity) (arrays : contents) : Prop :=
  Forall2 (fun e array => Forall (fun x => kind_of x = e) array) es arrays.

Lemma ws_arrays_ok set : arrays_ok entities (ws_arrays set).
Proof. repeat constructor; apply Forall_fmap, Forall_true; done. Qed.

Lemma replacement_ok replacement : arrays_ok entities (replacement_rows replacement).
Proof. destruct replacement as [set|]; [apply ws_arrays_ok|]. repeat constructor. Qed.

Lemma rows_init_ok : rows_ok mem_rows_init.
Proof.
  unfold rows_ok, mem_rows_init. apply Forall2_fmap_r, Forall_Forall2_diag, Forall_forall. intros e _.
  split_and!; [|done|constructor]. pose proof (elem_size_pos e). unfold vec_ok, size, SIZE_MAX. simpl. lia.
Qed.

Lemma stored_length m : rows_ok m -> length (rows_of m) = 8%nat.
Proof. intros H%Forall2_length. unfold rows_of. rewrite length_fmap. by rewrite <- H. Qed.

(** Appending no rows of any kind. *)
Lemma app_no_rows rows : length rows = 8%nat -> zip_with app rows no_rows = rows.
Proof.
  unfold no_rows. generalize 8%nat. intros n E. subst n.
  induction rows as [|l rows IH]; [done|]. simpl. by rewrite app_nil_r, IH.
Qed.

Lemma total_size set : idx_store_write_set_total (Some set) = u64 (size (concat (ws_arrays set))).
Proof.
  unfold idx_store_write_set_total.
  assert (forall arrays n, is_u64 n -> foldl (fun total array => u64 (total + size array)) n arrays
            = u64 (n + size (concat (arrays : list (list elem))))) as E.
  { induction arrays as [|a arrays IH]; intros n Hn; simpl.
    - unfold size. simpl. rewrite Z.add_0_r. by rewrite u64_small.
    - rewrite IH by apply u64_range. unfold u64, size. rewrite length_app, Zplus_mod_idemp_l. f_equal. lia. }
  rewrite E; [f_equal|unfold is_u64]; lia.
Qed.

#[local] Arguments idx_vec_reserve : simpl never.
#[local] Arguments idx_vec_push : simpl never.

(** *** Deleting *)

Lemma Forall_filtered {X} (P Q : X -> Prop) `{forall x, Decision (Q x)} (l : list X) : Forall P l -> Forall P (filter Q l).
Proof. rewrite !Forall_forall. intros Hl x [_ Hx]%list_elem_of_filter. auto. Qed.

(** Compacting in place is filtering. *)
Lemma retain_rows_spec keep pivot todo : forall r w data,
  (w <= r)%nat -> (r + todo = length data)%nat ->
  retain_rows keep pivot todo r w data = take w data ++ filter (fun x => keep (elem_slot x) pivot = true) (drop r data).
Proof.
  induction todo as [|todo IH]; intros r w data Hw Hr; simpl.
  - rewrite drop_ge by lia. by rewrite filter_nil, app_nil_r.
  - destruct (lookup_lt_is_Some_2 data r) as [x Hx]; [lia|]. rewrite Hx. simpl.
    rewrite (drop_S _ _ _ Hx), filter_cons. destruct (keep (elem_slot x) pivot) eqn:K; simpl; [|apply IH; lia].
    destruct (w =? r)%nat eqn:E; zbool.
    + apply Nat.eqb_eq in E. subst w. rewrite IH by lia. rewrite (take_S_r _ _ _ Hx). by rewrite <- app_assoc.
    + apply Nat.eqb_neq in E. rewrite IH by (rewrite ?length_insert; lia).
      rewrite (take_S_r _ w x) by (apply list_lookup_insert_eq; lia).
      rewrite take_insert_ge, drop_insert_lt by lia. by rewrite <- app_assoc.
Qed.

Lemma retain_data m keep pivot :
  rows_of (mem_rows_retain m keep pivot) = filter (fun x => keep (elem_slot x) pivot = true) <$> rows_of m.
Proof.
  unfold rows_of, mem_rows_retain. rewrite <- !list_fmap_compose. apply list_fmap_ext. intros _ v _. simpl.
  by rewrite retain_rows_spec by lia.
Qed.

Lemma retain_ok m keep pivot : rows_ok m -> rows_ok (mem_rows_retain m keep pivot).
Proof.
  unfold rows_ok, mem_rows_retain. intros H. apply Forall2_fmap_r. eapply Forall2_impl; [done|].
  intros e v ((He & Hl & Hc) & Hs & Hk). unfold vec_typed, vec_ok, size in *. simpl.
  rewrite retain_rows_spec by lia. simpl. rewrite drop_0. split_and!; try done; [|by apply Forall_filtered].
  pose proof (length_filter (fun x => keep (elem_slot x) pivot = true) (vec_data v)). lia.
Qed.

(** The filter of the code is the one of the specification. *)
Lemma retain_below m from : rows_of (mem_rows_retain m keep_below from) = filter (fun x => elem_slot x < from) <$> rows_of m.
Proof. rewrite retain_data. apply list_fmap_ext. intros _ l _. apply list_filter_iff. intros x. unfold keep_below. zlia. Qed.

Lemma retain_above m below :
  rows_of (mem_rows_retain m keep_at_or_above below) = filter (fun x => below <= elem_slot x) <$> rows_of m.
Proof. rewrite retain_data. apply list_fmap_ext. intros _ l _. apply list_filter_iff. intros x. unfold keep_at_or_above. zlia. Qed.

(** *** Appending *)

Definition room (v : idx_vec elem) (array : list elem) : Prop := size (vec_data v) + size array <= vec_capacity v.

(** Why rows cannot be added: no memory, or a vector that no address space holds. *)
Definition store_failure (es : list entity) (rows arrays : contents) (h : heap) (s : idx_status) : Prop :=
  s = IDX_ERR_NO_MEMORY /\ false ∈ h \/
  s = IDX_ERR_RANGE /\ exists i e data array,
    es !! i = Some e /\ rows !! i = Some data /\ arrays !! i = Some array /\
    SIZE_MAX < Z.max 8 (2 * (size data + size array)) * g_elem_size e.

Lemma store_failure_here e es v m array arrays h s :
  vec_typed e v -> reserve_failure v (size array) h s ->
  store_failure (e :: es) (rows_of (v :: m)) (array :: arrays) h s.
Proof.
  intros (_ & Hs & _) [H|[-> H]]; [by left|]. right. split; [done|]. rewrite Hs in H.
  by exists 0%nat, e, (vec_data v), array.
Qed.

Lemma store_failure_later e es data rows array arrays used h s :
  store_failure es rows arrays h s -> store_failure (e :: es) (data :: rows) (array :: arrays) (used ++ h) s.
Proof.
  intros [[-> H]|[-> (i & e' & d & a & H)]]; [left|right]; (split; [done|]).
  - apply elem_of_app. by right.
  - by exists (S i), e', d, a.
Qed.

Lemma reserve_all_spec es : forall arrays m h,
  Forall2 vec_typed es m -> length arrays = length es ->
  let '(r, m', h') := reserve_all m arrays h in
  Forall2 vec_typed es m' /\ rows_of m' = rows_of m /\
  match r with
  | Ok _ => Forall2 room m' arrays /\ exists used, h = used ++ h'
  | Err s => store_failure es (rows_of m) arrays h s
  end.
Proof.
  induction es as [|e es IH]; intros [|array arrays] m h Hm Hl; inversion Hm as [|? v ? m0 Hv Hm0]; subst; try done; simpl.
  { split_and!; [constructor|done|constructor|by exists []]. }
  pose proof Hv as (Hok & Hs & Hk). assert (0 <= size array) as Hn by (unfold size; lia).
  pose proof (vec_reserve_spec v (size array) h Hok Hn) as R.
  destruct (idx_vec_reserve _ _ _) as [[[[]|s] v'] h1]; destruct R as (w & -> & Hw & Hd & He & Hc & R); simpl.
  - destruct R as [Hroom [used ->]]. specialize (IH arrays m0 h1 Hm0). destruct (reserve_all m0 arrays h1) as [[r m'] h'].
    destruct IH as (I1 & I2 & I3); [simpl in Hl; lia|]. simpl. split_and!.
    + constructor; [|done]. unfold vec_typed. rewrite Hd, He. auto.
    + unfold rows_of in *. simpl. by rewrite Hd, I2.
    + destruct r as [[]|s].
      * destruct I3 as [I3 [used' ->]]. split; [|by exists (used ++ used'); rewrite app_assoc].
        constructor; [|done]. unfold room. by rewrite Hd.
      * by apply store_failure_later.
  - destruct R as [-> R]. split_and!; [by constructor|done|]. by apply store_failure_here.
Qed.

(** Vectors that have the room keep it, and nothing is asked of the heap. *)
Lemma reserve_all_room es : forall arrays m h,
  Forall2 vec_typed es m -> Forall2 room m arrays -> reserve_all m arrays h = (Ok tt, m, h).
Proof.
  induction es as [|e es IH]; intros arrays m h Hm Hr; inversion Hm as [|? v ? m0 (Hv & _) Hm0]; subst;
    inversion Hr as [|? array ? arrays0 H0 Hr0]; subst; [done|]. simpl.
  unfold room in H0. rewrite vec_reserve_room by (auto; unfold size in *; lia). simpl. by rewrite (IH arrays0 m0 h).
Qed.

Lemma push_room v x h :
  vec_ok v -> size (vec_data v) + 1 <= vec_capacity v ->
  idx_vec_push garbage (Some v) (Some x) h = (Ok tt, Some (Vec (vec_data v ++ [x]) (vec_capacity v) (elem_size v)), h).
Proof.
  intros Hv Hr. unfold idx_vec_push, idx_vec_push_uninit. rewrite vec_reserve_room by (auto; lia). simpl.
  by rewrite insert_app_r_alt, Nat.sub_diag by lia.
Qed.

Lemma push_rows_spec rows : forall v h,
  vec_ok v -> room v rows -> push_rows v rows h = (Vec (vec_data v ++ rows) (vec_capacity v) (elem_size v), h).
Proof.
  unfold room, size. induction rows as [|x rows IH]; intros v h Hv Hr; simpl in *.
  { rewrite app_nil_r. by destruct v. }
  rewrite push_room by (auto; unfold size; lia). simpl. pose proof Hv as (He & Hl & Hc).
  rewrite IH; simpl; [by rewrite <- app_assoc| |rewrite length_app; simpl; lia].
  unfold vec_ok, size. simpl. rewrite length_app. simpl. lia.
Qed.

Lemma push_all_spec es : forall arrays m h,
  Forall2 vec_typed es m -> arrays_ok es arrays -> Forall2 room m arrays ->
  exists m', push_all m arrays h = (m', h) /\ Forall2 vec_typed es m' /\ rows_of m' = zip_with app (rows_of m) arrays.
Proof.
  induction es as [|e es IH]; intros arrays m h Hm Ha Hr; inversion Hm as [|? v ? m0 Hv Hm0]; subst;
    inversion Ha as [|? array ? arrays0 Hk Ha0]; subst; [by exists []|].
  apply Forall2_cons in Hr as [H0 Hr]. destruct Hv as (Hok & Hs & Hd). simpl. rewrite push_rows_spec by done.
  destruct (IH arrays0 m0 h) as (m' & -> & I1 & I2); [done..|]. eexists. split; [done|]. split.
  - constructor; [|done]. unfold vec_typed. simpl. split_and!; [|done|by apply Forall_app_2].
    destruct Hok as (He & Hl & Hc). unfold room, vec_ok, size in *. simpl. rewrite length_app. lia.
  - unfold rows_of in *. simpl. f_equal. exact I2.
Qed.

(** Adding a write set: all its rows, or none and why. *)
Lemma append_spec m set h :
  rows_ok m ->
  let '(r, m', h') := mem_rows_append m set h in
  rows_ok m' /\
  match r with
  | Ok _ => rows_of m' = zip_with app (rows_of m) (replacement_rows set) /\ exists used, h = used ++ h'
  | Err s => rows_of m' = rows_of m /\ store_failure entities (rows_of m) (replacement_rows set) h s
  end.
Proof.
  intros Hm. destruct set as [set|]; simpl.
  2: { rewrite app_no_rows by by apply stored_length. split_and!; auto. by exists []. }
  pose proof (reserve_all_spec entities (ws_arrays set) m h Hm eq_refl) as R.
  destruct (reserve_all _ _ _) as [[[[]|s] m1] h1]; destruct R as (R1 & R2 & R3); [|auto].
  destruct R3 as [R3 Hu]. destruct (push_all_spec entities (ws_arrays set) m1 h1) as (m2 & -> & P1 & P2); auto.
  { apply ws_arrays_ok. }
  rewrite <- R2. auto.
Qed.

(** A delete leaves the room there was. *)
Lemma retain_room m arrays keep pivot : Forall2 room m arrays -> Forall2 room (mem_rows_retain m keep pivot) arrays.
Proof.
  intros H. unfold mem_rows_retain. apply Forall2_fmap_l. eapply Forall2_impl; [done|]. intros v a. unfold room, size. simpl.
  rewrite retain_rows_spec by lia. simpl. rewrite drop_0.
  pose proof (length_filter (fun x => keep (elem_slot x) pivot = true) (vec_data v)). lia.
Qed.

Lemma append_room m set h :
  rows_ok m -> Forall2 room m (ws_arrays set) ->
  exists m', mem_rows_append m (Some set) h = (Ok tt, m', h) /\ rows_ok m' /\
    rows_of m' = zip_with app (rows_of m) (ws_arrays set).
Proof.
  intros Hm Hr. simpl. rewrite (reserve_all_room entities) by done.
  destruct (push_all_spec entities (ws_arrays set) m h) as (m' & -> & H); auto; [apply ws_arrays_ok|]. by exists m'.
Qed.

(** A reorg deletes and rewrites, or does neither. *)
Lemma reorg_spec m from replacement h :
  rows_ok m ->
  let '(r, m', h') := mem_confirmed_reorg m from replacement h in
  rows_ok m' /\
  match r with
  | Ok _ => rows_of m' = spec_step (Reorg from replacement) (rows_of m) /\ exists used, h = used ++ h'
  | Err s => rows_of m' = rows_of m /\ store_failure entities (rows_of m) (replacement_rows replacement) h s
  end.
Proof.
  intros Hm. unfold mem_confirmed_reorg. destruct replacement as [set|].
  - pose proof (reserve_all_spec entities (ws_arrays set) m h Hm eq_refl) as R.
    destruct (reserve_all _ _ _) as [[[[]|s] m1] h1]; destruct R as (R1 & R2 & R3); [|auto].
    destruct R3 as [R3 Hu].
    destruct (append_room (mem_rows_retain m1 keep_below from) set h1) as (m2 & -> & A1 & A2).
    + by apply retain_ok.
    + by apply retain_room.
    + simpl. rewrite A2, retain_below, R2. auto.
  - simpl. rewrite retain_below, app_no_rows by (rewrite length_fmap; by apply stored_length).
    split_and!; [by apply retain_ok|done|by exists []].
Qed.

(** *** A run of calls *)

Section Runs.
Context {A : Type} `{ArenaOps A}.

Definition call_rows (c : store_call) : contents :=
  match c with Write set => ws_arrays set | Reorg _ replacement => replacement_rows replacement | Prune _ => no_rows end.

Lemma store_step_spec c m h :
  rows_ok m ->
  let '(r, m', h') := store_step (A := A) c m h in
  rows_ok m' /\
  match r with
  | Ok _ => rows_of m' = spec_step c (rows_of m) /\ exists used, h = used ++ h'
  | Err s => rows_of m' = rows_of m /\ store_failure entities (rows_of m) (call_rows c) h s
  end.
Proof.
  intros Hm. unfold store_step. destruct c as [set|from replacement|below]; simpl.
  - pose proof (append_spec m (Some set) h Hm) as R. unfold mem_confirmed_write.
    by destruct (mem_rows_append _ _ _) as [[r m'] h'].
  - pose proof (reorg_spec m from replacement h Hm) as R. by destruct (mem_confirmed_reorg _ _ _ _) as [[r m'] h'].
  - split; [by apply retain_ok|]. split; [apply retain_above|by exists []].
Qed.

Lemma spec_step_length c rows : length rows = 8%nat -> length (spec_step c rows) = 8%nat.
Proof.
  intros Hl. destruct c as [set|from replacement|below]; simpl.
  - by rewrite length_zip_with, Hl.
  - rewrite length_zip_with, length_fmap, Hl. by destruct replacement.
  - by rewrite length_fmap.
Qed.

Lemma array_within (arrays : contents) array : array ∈ arrays -> size array <= size (concat arrays).
Proof.
  unfold size. induction 1 as [|? ? ? ? IH]; simpl; rewrite length_app; lia.
Qed.

Lemma zip_app_within (rows arrays : contents) n :
  Forall (fun l => size l <= n) rows ->
  Forall (fun l => size l <= n + size (concat arrays)) (zip_with app rows arrays).
Proof.
  intros Hr. rewrite Forall_lookup. intros i l (a & b & -> & Ha & Hb)%lookup_zip_with_Some.
  pose proof (Forall_lookup_1 _ _ _ _ Hr Ha). apply list_elem_of_lookup_2, array_within in Hb.
  unfold size in *. rewrite length_app. lia.
Qed.

Lemma filter_within (P : elem -> Prop) `{forall x, Decision (P x)} (rows : contents) n :
  Forall (fun l => size l <= n) rows -> Forall (fun l => size l <= n) (filter P <$> rows).
Proof.
  intros Hr. apply Forall_fmap. eapply Forall_impl; [done|]. intros l Hl. unfold size in *. simpl.
  pose proof (length_filter P l). lia.
Qed.

(** No kind has more rows than it had and was offered. *)
Lemma spec_step_within c rows n :
  Forall (fun l => size l <= n) rows -> Forall (fun l => size l <= n + offered c) (spec_step c rows).
Proof.
  intros Hr. destruct c as [set|from replacement|below]; cbn [spec_step offered].
  - by apply zip_app_within.
  - apply zip_app_within. by apply filter_within.
  - rewrite Z.add_0_r. by apply filter_within.
Qed.

Lemma offered_nonneg calls : 0 <= offered_all calls.
Proof. induction calls as [|c calls IH]; simpl; [lia|]. destruct c; simpl; unfold size; lia. Qed.

Lemma call_rows_within c i array : call_rows c !! i = Some array -> size array <= offered c.
Proof.
  intros Hl%list_elem_of_lookup_2. destruct c as [set|from replacement|below]; cbn [call_rows offered] in *;
    [by apply array_within..|].
  by apply array_within in Hl.
Qed.

(** The rows of every kind fit an address space. *)
Definition fits (n : Z) : Prop := forall e, Z.max 8 (2 * n) * g_elem_size e <= SIZE_MAX.

Lemma fits_no_failure rows c h s n :
  Forall (fun l => size l <= n) rows -> Forall (eq true) h -> fits (n + offered c) ->
  ~ store_failure entities rows (call_rows c) h s.
Proof.
  intros Hr Hh Hf [[_ Hfalse]|(_ & i & e & data & array & _ & Hd & Ha & Hs)].
  - rewrite Forall_forall in Hh. by apply Hh in Hfalse.
  - pose proof (Forall_lookup_1 _ _ _ _ Hr Hd). apply call_rows_within in Ha. specialize (Hf e).
    pose proof (elem_size_pos e). simpl in *.
    assert (Z.max 8 (2 * (size data + size array)) <= Z.max 8 (2 * (n + offered c))) as Hle by lia.
    apply (Z.mul_le_mono_nonneg_r _ _ (g_elem_size e)) in Hle; lia.
Qed.

Lemma store_run_spec calls : forall m h,
  rows_ok m ->
  let '(log, m', h') := store_run (A := A) calls m h in
  rows_ok m' /\ rows_of m' = spec_run calls log (rows_of m) /\ length log = length calls /\
  Forall (fun r => r = Ok tt \/ r = Err IDX_ERR_NO_MEMORY \/ r = Err IDX_ERR_RANGE) log.
Proof.
  induction calls as [|c calls IH]; intros m h Hm; simpl; [by split_and!|].
  pose proof (store_step_spec c m h Hm) as R. destruct (store_step c m h) as [[r m1] h1]. destruct R as [Hm1 R].
  specialize (IH m1 h1 Hm1). destruct (store_run calls m1 h1) as [[log m2] h2]. destruct IH as (I1 & I2 & I3 & I4).
  split; [done|]. rewrite I2, <- I3. destruct r as [[]|s].
  - destruct R as [-> _]. split_and!; auto.
  - destruct R as [-> [[-> _]|[-> _]]]; split_and!; auto.
Qed.

(** With the memory it asks for, and rows that fit an address space, every call is
    accepted. *)
Lemma store_run_succeeds calls : forall m h n,
  rows_ok m -> Forall (fun l => size l <= n) (rows_of m) -> Forall (eq true) h -> fits (n + offered_all calls) ->
  Forall (eq (Ok tt)) (store_run (A := A) calls m h).1.1.
Proof.
  induction calls as [|c calls IH]; intros m h n Hm Hn Hh Hf; simpl; [done|].
  pose proof (store_step_spec c m h Hm) as R. destruct (store_step c m h) as [[r m1] h1]. destruct R as [Hm1 R].
  cbn [offered_all foldr] in Hf. fold (offered_all calls) in Hf. pose proof (offered_nonneg calls). destruct r as [[]|s].
  - destruct R as [R [used ->]]. apply Forall_app in Hh as [_ Hh].
    specialize (IH m1 h1 (n + offered c) Hm1). rewrite R in IH. replace (n + (offered c + _)) with (n + offered c + offered_all calls) in Hf by lia.
    specialize (IH (spec_step_within _ _ _ Hn) Hh Hf). destruct (store_run calls m1 h1) as [[log m2] h2]. by constructor.
  - destruct R as [_ R]. exfalso. apply (fits_no_failure (rows_of m) c h s n Hn Hh); [|done].
    intros e. specialize (Hf e). pose proof (elem_size_pos e).
    assert (Z.max 8 (2 * (n + offered c)) <= Z.max 8 (2 * (n + (offered c + offered_all calls)))) as Hle by lia.
    apply (Z.mul_le_mono_nonneg_r _ _ (g_elem_size e)) in Hle; lia.
Qed.

Lemma len_of_spec m e : len_of m e = size (default [] (rows_of m !! e)).
Proof.
  transitivity (size (default [] (vec_data <$> (m !! e)))); [unfold len_of; by destruct (m !! e)|].
  do 2 f_equal. symmetry. apply list_lookup_fmap.
Qed.

Lemma counts_spec m : mem_rows_counts m = counts_of (rows_of m).
Proof. unfold mem_rows_counts, counts_of. by rewrite !len_of_spec. Qed.

End Runs.

(** *** Reading a range *)

Lemma matched_copied from to data :
  matched from to data = size (filter (fun x => from <= elem_slot x <= to) data) /\
  copied from to data = filter (fun x => from <= elem_slot x <= to) data.
Proof.
  assert (forall n dst,
    foldl (fun n x => if within from to x then n + 1 else n) n data
      = n + size (filter (fun x => from <= elem_slot x <= to) data) /\
    foldl (fun dst x => if within from to x then dst ++ [x] else dst) dst data
      = dst ++ filter (fun x => from <= elem_slot x <= to) data) as E.
  { induction data as [|x data IH]; intros n dst; simpl.
    - rewrite filter_nil, app_nil_r. unfold size. simpl. split; [lia|done].
    - rewrite filter_cons. unfold within at 2 4. destruct (decide (from <= elem_slot x <= to)) as [Hx|Hx].
      + rewrite (proj2 (andb_true_iff _ _)) by (split; zlia). destruct (IH (n + 1) (dst ++ [x])) as [-> ->].
        unfold size. simpl. rewrite <- app_assoc. split; [lia|done].
      + rewrite (proj2 (andb_false_iff _ _)) by (destruct (from <=? elem_slot x) eqn:E; [right|by left]; zlia). apply IH. }
  unfold matched, copied. destruct (E 0 []) as [-> ->]. split; [lia|done].
Qed.

Definition in_range (from to : Z) (data : list elem) : list elem := filter (fun x => from <= elem_slot x <= to) data.

(** The arena refused the rows of a kind. *)
Definition no_arena {A} `{ArenaOps A} (s : idx_status) : Prop :=
  exists n esize (a a' : A), 0 < n /\ arena_calloc n esize a = (Err s, a').

Lemma mem_collect_range_spec {A} `{ArenaOps A} (v : idx_vec elem) from to (arena : A) :
  match fst (mem_collect_range v from to arena) with
  | Ok rows => rows = in_range from to (vec_data v)
  | Err s => no_arena (A := A) s
  end.
Proof.
  unfold mem_collect_range. destruct (matched_copied from to (vec_data v)) as [-> ->].
  destruct (size _ =? 0) eqn:E; simpl.
  - apply Z.eqb_eq in E. unfold in_range. unfold size in E. by destruct (filter _ _).
  - destruct (arena_calloc _ _ arena) as [[u|s] a] eqn:C; simpl; [done|]. eexists _, _, _, _. split; [|exact C].
    apply Z.eqb_neq in E. unfold size in *. lia.
Qed.

Lemma collect_all_spec {A} `{ArenaOps A} from to : forall (m : mem_rows) (arena : A),
  match fst (collect_all m from to arena) with
  | Ok data => data = in_range from to <$> rows_of m
  | Err s => no_arena (A := A) s
  end.
Proof.
  induction m as [|v m IH]; intros arena; simpl; [done|].
  pose proof (mem_collect_range_spec v from to arena) as R. destruct (mem_collect_range v from to arena) as [[rows|s] a]; [|done].
  specialize (IH a). destruct (collect_all m from to a) as [[rest|s] a']; simpl in *; [|done]. by rewrite R, IH.
Qed.

Lemma column_of {X} (con : X -> elem) (f : elem -> option X) e (data : list elem) :
  (forall x, f (con x) = Some x) -> (forall y, kind_of y = e -> exists x, y = con x) ->
  Forall (fun x => kind_of x = e) data -> con <$> omap f data = data.
Proof.
  intros Hf Hk. induction 1 as [|y data Hy _ IH]; [done|]. destruct (Hk y Hy) as [x ->]. simpl. rewrite Hf. simpl. f_equal. exact IH.
Qed.

(** The arrays, cast back and laid out again. *)
Lemma ws_arrays_as_set data : arrays_ok entities data -> ws_arrays (as_set data) = data.
Proof.
  intros Hd. unfold arrays_ok, entities in Hd.
  repeat match goal with H : Forall2 _ (_ :: _) _ |- _ => apply Forall2_cons_inv_l in H as (? & ? & ? & H & ->) end.
  apply Forall2_nil_inv_l in Hd as ->. unfold ws_arrays, as_set, column. cbn [lookup list_lookup default ws_blocks ws_sol_balances
    ws_token_balances ws_transfers ws_swaps ws_pools ws_tokens ws_bars].
  repeat f_equal; (eapply column_of; [done| |eassumption]); intros []; try done; eauto.
Qed.

Lemma in_range_ok m from to : rows_ok m -> arrays_ok entities (in_range from to <$> rows_of m).
Proof.
  intros Hm. unfold arrays_ok, rows_of. do 2 apply Forall2_fmap_r. eapply Forall2_impl; [done|].
  intros e v (_ & _ & Hk). by apply Forall_filtered.
Qed.

(** *** The finalized tier *)

(** What the tier holds, as the specification sees it. *)
Definition final_ok (f : mem_finalized) (state : contents * Z * Z) : Prop :=
  rows_ok (mf_rows f) /\ rows_of (mf_rows f) = state.1.1 /\ pending f = u64 state.1.2 /\ flushes f = u64 state.2.

Lemma final_append_spec f set h state :
  final_ok f state ->
  let '(r, f', h') := mem_finalized_append f set h in
  final_ok f' (match r with
               | Ok _ => (zip_with app state.1.1 (ws_arrays set), state.1.2 + size (concat (ws_arrays set)), state.2)
               | Err _ => state
               end) /\
  match r with Ok _ => True | Err s => s = IDX_ERR_NO_MEMORY \/ s = IDX_ERR_RANGE end.
Proof.
  intros (Hm & Hr & Hp & Hf). unfold mem_finalized_append. pose proof (append_spec (mf_rows f) (Some set) h Hm) as R.
  destruct (mem_rows_append _ _ _) as [[[[]|s] m'] h']; destruct R as (R1 & R2 & R3); unfold final_ok; cbn [mf_rows pending flushes fst snd].
  - split; [|done]. split_and!; auto; [by rewrite R2, Hr|]. rewrite total_size, Hp. unfold u64. by rewrite <- Zplus_mod.
  - split; [by rewrite R2|]. destruct R3 as [[-> _]|[-> _]]; auto.
Qed.

Lemma final_run_spec calls : forall f h state,
  final_ok f state ->
  let '(log, f', h') := final_run calls f h in
  final_ok f' (final_spec calls log state) /\ length log = length calls /\
  Forall (fun r => r = Ok tt \/ r = Err IDX_ERR_NO_MEMORY \/ r = Err IDX_ERR_RANGE) log.
Proof.
  induction calls as [|c calls IH]; intros f h state Hf; simpl; [by split_and!|].
  destruct c as [set|]; unfold final_step; simpl.
  - pose proof (final_append_spec f set h state Hf) as R. destruct (mem_finalized_append f set h) as [[r f1] h1]; simpl.
    destruct R as [R1 R2]. specialize (IH f1 h1 _ R1). destruct (final_run calls f1 h1) as [[log f2] h2].
    destruct IH as (I1 & I2 & I3). destruct r as [[]|s]; cbn [final_spec]; (split; [done|]); (split; [by simpl; rewrite I2|]);
      constructor; auto. destruct R2 as [-> | ->]; auto.
  - specialize (IH (MemFinalized (mf_rows f) 0 (u64 (flushes f + 1))) h (state.1.1, 0, state.2 + 1)).
    destruct (final_run calls _ h) as [[log f2] h2]. destruct IH as (I1 & I2 & I3).
    + destruct Hf as (Hm & Hr & Hp & Hc). split_and!; [done..|]. simpl. by rewrite Hc, u64_add_l.
    + split; [done|]. split; [by simpl; rewrite I2|]. constructor; auto.
Qed.

(** ** Properties *)

Section Properties.
Context {A : Type} `{ArenaSpec A}.

(** C21. The confirmed tier keeps what its interface promises through any run of calls:
    what it holds afterwards is what the accepted calls leave when a write adds the
    set's rows behind those of their kind, a reorg drops every row at or above its
    slot and adds the replacement's, and a prune drops every row below its slot.  A
    refused call changes nothing, reorg included, and only a failed allocation or a
    vector beyond an address space makes one; rows that fit are always accepted when
    memory is there; and the counts are the contents'. *)
Theorem store_history calls h :
  let '(log, m, _) := store_run (A := A) calls mem_rows_init h in
  rows_of m = spec_run calls log no_rows /\ length log = length calls /\
  idx_mem_confirmed_store_counts (Some m) = counts_of (spec_run calls log no_rows) /\
  Forall (fun r => r = Ok tt \/ r = Err IDX_ERR_NO_MEMORY \/ r = Err IDX_ERR_RANGE) log /\
  (Forall (eq true) h -> fits (offered_all calls) -> Forall (eq (Ok tt)) log).
Proof.
  pose proof (store_run_spec (A := A) calls mem_rows_init h rows_init_ok) as R.
  pose proof (store_run_succeeds (A := A) calls mem_rows_init h 0 rows_init_ok) as S.
  destruct (store_run calls mem_rows_init h) as [[log m] h']. destruct R as (R1 & R2 & R3 & R4).
  split_and!; auto; [simpl; by rewrite counts_spec, R2|]. apply S. repeat constructor; done.
Qed.

(** C22. Promotion moves a closed range of slots, exactly: the bulk read gives the rows
    of every kind whose slot is in the range, in the order they were written and
    nothing else, or fails for the arena's memory and gives none; an empty range is
    refused; and what the finalized tier then holds is what it held and those rows,
    counted as pending, or what it held when it refuses them. *)
Theorem store_promotion_exact m f state from to (arena : A) h :
  rows_ok m -> final_ok f state ->
  match fst (idx_confirmed_store_read_range (Some (Some g_mem_confirmed_vt, m)) from to arena) with
  | Err s => to < from /\ s = IDX_ERR_RANGE \/
             from <= to /\ no_arena (A := A) s /\ (s = IDX_ERR_NO_MEMORY \/ s = IDX_ERR_RANGE)
  | Ok set =>
      from <= to /\ ws_arrays set = in_range from to <$> rows_of m /\
      let '(r, f', _) := idx_finalized_store_append (Some (Some g_mem_finalized_vt, f)) (Some set) h in
      exists f1, f' = Some f1 /\
        match r with
        | Ok _ => final_ok f1 (zip_with app state.1.1 (in_range from to <$> rows_of m),
                               state.1.2 + size (concat (in_range from to <$> rows_of m)), state.2)
        | Err s => final_ok f1 state /\ (s = IDX_ERR_NO_MEMORY \/ s = IDX_ERR_RANGE)
        end
  end.
Proof.
  intros Hm Hf. simpl. destruct (to <? from) eqn:E; [left; split; [zlia|done]|]. unfold mem_confirmed_read_range.
  pose proof (collect_all_spec from to m arena) as R. destruct (collect_all m from to arena) as [[data|s] a]; simpl in *.
  2: { right. split; [zlia|]. split; [done|]. destruct R as (n & esize & a1 & a2 & _ & R). by apply arena_calloc_err in R. }
  subst data. rewrite ws_arrays_as_set by by apply in_range_ok. split; [zlia|]. split; [done|].
  pose proof (final_append_spec f (as_set (in_range from to <$> rows_of m)) h state Hf) as R.
  rewrite ws_arrays_as_set in R by by apply in_range_ok.
  destruct (mem_finalized_append f _ h) as [[[[]|s] f'] h']; destruct R as [R1 R2]; by exists f'.
Qed.

(** The finalized tier is append only: through any run of appends and flushes it
    holds the rows of every append it accepted, in order, and nothing is ever
    dropped; [pending] counts the rows since the last flush, [flushes] the
    flushes, and an append it refuses changes neither. *)
Theorem finalized_history calls h :
  let '(log, f, _) := final_run calls (MemFinalized mem_rows_init 0 0) h in
  let '(rows, since, n) := final_spec calls log (no_rows, 0, 0) in
  rows_of (mf_rows f) = rows /\ idx_mem_finalized_store_pending (Some f) = u64 since /\
  idx_mem_finalized_store_flushes (Some f) = u64 n /\ idx_mem_finalized_store_counts (Some f) = counts_of rows /\
  length log = length calls /\ Forall (fun r => r = Ok tt \/ r = Err IDX_ERR_NO_MEMORY \/ r = Err IDX_ERR_RANGE) log.
Proof.
  pose proof (final_run_spec calls (MemFinalized mem_rows_init 0 0) h (no_rows, 0, 0)) as R.
  destruct (final_run _ _ h) as [[log f] h']. destruct R as ((R1 & R2 & R3 & R4) & R5 & R6).
  { split_and!; [apply rows_init_ok|done..]. }
  destruct (final_spec calls log _) as [[rows since] n]. simpl in *. split_and!; auto. by rewrite counts_spec, R2.
Qed.

End Properties.

End Memory.

(** ** Witnesses *)

Definition a_block (slot : Z) : idx_store_block_row := StoreBlock slot (Hash []) (Hash []) (slot - 1) None (Some 1) 2.
Definition blocks (slots : list Z) : idx_store_write_set := WriteSet (a_block <$> slots) [] [] [] [] [] [] [].
Definition of_size : entity -> Z := fun _ => 128.
Definition uninit : elem := ElemBlock (a_block 0).

Lemma of_size_pos e : 0 < of_size e.
Proof. done. Qed.

Definition some_calls : list store_call :=
  [Write (blocks [5; 6; 7]); Reorg 6 (Some (blocks [6])); Write (blocks [8]); Prune 6; Reorg 8 None].

Lemma store_history_witness :
  exists m, store_run (A := idx_arena * sys) uninit some_calls (mem_rows_init of_size) [] =
      (replicate 5 (Ok tt), m, []) /\
    rows_of m = (ElemBlock <$> (a_block <$> [6])) :: replicate 7 [] /\
    c_blocks (idx_mem_confirmed_store_counts (Some m)) = 1.
Proof.
  pose proof (store_history of_size uninit of_size_pos (A := idx_arena * sys) some_calls []) as R.
  destruct (store_run uninit some_calls (mem_rows_init of_size) []) as [[log m] h'] eqn:E.
  destruct R as (R1 & R2 & R3 & R4 & R5). exists m.
  assert (log = replicate 5 (Ok tt) /\ h' = []) as [-> ->] by (vm_compute in E; by injection E as <- _ <-).
  split; [done|]. rewrite R1, R3. by split; vm_compute.
Defined.

Definition stored : mem_rows := (store_run (A := idx_arena * sys) uninit [Write (blocks [5; 6; 7])] (mem_rows_init of_size) []).1.2.

Lemma stored_ok : rows_ok of_size stored.
Proof.
  pose proof (store_run_spec of_size uninit (A := idx_arena * sys) [Write (blocks [5; 6; 7])] (mem_rows_init of_size) []
    (rows_init_ok of_size of_size_pos)) as R.
  unfold stored. destruct (store_run uninit _ _ _) as [[log m] h']. by destruct R.
Qed.

Lemma store_promotion_exact_witness :
  match fst (idx_confirmed_store_read_range (Some (Some (g_mem_confirmed_vt uninit), stored)) 6 7 (idx_arena_init 4096, [Some 65536])) with
  | Ok set => ws_arrays set = (ElemBlock <$> (a_block <$> [6; 7])) :: replicate 7 []
  | Err _ => False
  end.
Proof.
  pose proof (store_promotion_exact of_size uninit stored (MemFinalized (mem_rows_init of_size) 0 0) (no_rows, 0, 0) 6 7
    (idx_arena_init 4096, [Some 65536]) [] stored_ok) as R.
  destruct (fst (idx_confirmed_store_read_range _ 6 7 _)) as [set|s] eqn:E; [|by vm_compute in E].
  destruct R as (_ & -> & _); [|by vm_compute].
  split; [apply rows_init_ok, of_size_pos|]. by split_and!.
Defined.

(** The first append finds no memory. *)
Lemma finalized_history_witness :
  let '(log, f, _) := final_run uninit [Append (blocks [1; 2]); Flush; Append (blocks [3]); Append (blocks [4])]
    (MemFinalized (mem_rows_init of_size) 0 0) [false] in
  log = [Err IDX_ERR_NO_MEMORY; Ok tt; Ok tt; Ok tt] /\ pending f = 2 /\ flushes f = 1 /\ size (default [] (rows_of (mf_rows f) !! 0%nat)) = 2.
Proof.
  pose proof (finalized_history of_size uninit of_size_pos
    [Append (blocks [1; 2]); Flush; Append (blocks [3]); Append (blocks [4])] [false]) as R.
  destruct (final_run uninit _ _ _) as [[log f] h] eqn:E.
  assert (log = [Err IDX_ERR_NO_MEMORY; Ok tt; Ok tt; Ok tt]) as -> by (vm_compute in E; by injection E as <- _ _).
  simpl in R. destruct R as (R1 & R2 & R3 & R4 & _). split; [done|]. simpl in *. rewrite R2, R3, R1. by split_and!.
Defined.
