(* ===== verification/ChRows.v ===== *)
(** * ch_rows.c: rows as ClickHouse reads them

    One buffer of completed rows, in RowBinary (little-endian integers, length-prefixed
    strings, no names) or in JSONEachRow (an object for each line).  A null writer is
    excluded; a null name and null data are [None].  [snprintf] of a double is
    [DoubleText]'s; the bits of a NaN are a parameter. *)

From Stdlib Require Import SpecFloat.
From S2P Require Import Prelude Radix Bytes Decimal Double DoubleText Json.
#[local] Open Scope Z_scope.

(** ** The writer *)

(** src/include/ch_rows.h:57-60 [idx_ch_row_format] *)
Inductive idx_ch_row_format := IDX_CH_FORMAT_ROW_BINARY | IDX_CH_FORMAT_JSON_EACH_ROW.

#[export] Instance idx_ch_row_format_eq_dec : EqDecision idx_ch_row_format.
Proof. solve_decision. Defined.

(** src/src/ch_rows.c:22-24 [idx_ch_row_format_name] *)
Definition idx_ch_row_format_name (format : idx_ch_row_format) : bytes :=
  match format with
  | IDX_CH_FORMAT_JSON_EACH_ROW => lit "JSONEachRow"
  | IDX_CH_FORMAT_ROW_BINARY => lit "RowBinary"
  end.

(** src/include/ch_rows.h:66-79 [idx_ch_rows] *)
Record idx_ch_rows := ChRows {
  buf : idx_buffer;
  format : idx_ch_row_format;
  row_count : Z;
  complete_len : Z;
  column_count : Z;
  row_width : Z;
  in_row : bool
}.

(** src/src/ch_rows.c:26-37 [idx_ch_rows_init] *)
Definition idx_ch_rows_init (format : idx_ch_row_format) : idx_ch_rows :=
  ChRows idx_buffer_init format 0 0 0 0 false.

(** src/src/ch_rows.c:39-49 [idx_ch_rows_free] *)
Definition idx_ch_rows_free (rows : idx_ch_rows) : idx_ch_rows :=
  ChRows (default (buf rows) (idx_buffer_free (Some (buf rows)))) (format rows) 0 0 0 0 false.

(** src/src/ch_rows.c:51-61 [idx_ch_rows_reset] *)
Definition idx_ch_rows_reset (rows : idx_ch_rows) : idx_ch_rows :=
  ChRows (default (buf rows) (idx_buffer_clear (Some (buf rows)))) (format rows) 0 0 0 0 false.

(** src/src/ch_rows.c:63-65 [idx_ch_rows_count] *)
Definition idx_ch_rows_count (rows : idx_ch_rows) : Z := row_count rows.

(** src/src/ch_rows.c:67-69 [idx_ch_rows_size] *)
Definition idx_ch_rows_size (rows : idx_ch_rows) : Z := complete_len rows.

(** src/src/ch_rows.c:71-76 [idx_ch_rows_body]: the data pointer is null until the
    buffer first grows. *)
Definition idx_ch_rows_body (rows : idx_ch_rows) : idx_slice :=
  idx_slice_make (if buf_capacity (buf rows) =? 0 then None else Some (buf_data (buf rows))) (complete_len rows).

(** A call on a writer: its status, the writer and the allocator afterwards. *)
Definition op : Type := idx_ch_rows -> heap -> result unit * idx_ch_rows * heap.

(** [IDX_TRY(first); second] *)
Definition then_op (o1 o2 : op) : op := fun rows h =>
  match o1 rows h with
  | (Ok _, rows, h) => o2 rows h
  | r => r
  end.

Infix ">>>" := then_op (at level 65, right associativity).

(** Calls that do the same whatever the writer and the allocator; in sequence they are
    rewritten like equals. *)
Definition op_eq (o1 o2 : op) : Prop := forall rows h, o1 rows h = o2 rows h.
Infix "≐" := op_eq (at level 70).

#[export] Instance op_eq_equivalence : Equivalence op_eq.
Proof. split; [by intros o rows h|intros o1 o2 H rows h; by rewrite H|intros o1 o2 o3 H1 H2 rows h; by rewrite H1, H2]. Qed.

#[export] Instance then_op_proper : Proper (op_eq ==> op_eq ==> op_eq) then_op.
Proof. intros a a' Ha b b' Hb rows h. unfold then_op. rewrite Ha. by destruct (a' rows h) as [[[]?]?]. Qed.

Lemma then_op_assoc o1 o2 o3 : (o1 >>> o2) >>> o3 ≐ o1 >>> (o2 >>> o3).
Proof. intros rows h. unfold then_op. by destruct (o1 rows h) as [[[]?]?]. Qed.

(** A write into the buffer. *)
Definition on_buf (w : writer) : op := fun rows h =>
  let '(r, b, h) := w (Some (buf rows)) h in
  (r, ChRows (default (buf rows) b) (format rows) (row_count rows) (complete_len rows) (column_count rows) (row_width rows)
        (in_row rows), h).

Definition fail (s : idx_status) : op := fun rows h => (IDX_FAIL s, rows, h).
Definition ok : op := fun rows h => (Ok tt, rows, h).

Definition is_json (rows : idx_ch_rows) : bool := bool_decide (format rows = IDX_CH_FORMAT_JSON_EACH_ROW).

(** *** Rows *)

(** src/src/ch_rows.c:80-94 [idx_ch_rows_begin] *)
Definition idx_ch_rows_begin : op := fun rows h =>
  if in_row rows then fail IDX_ERR_INTERNAL rows h
  else
    let rows := ChRows (buf rows) (format rows) (row_count rows) (complete_len rows) 0 (row_width rows) true in
    if is_json rows then on_buf (append_lit [123]) rows h else (Ok tt, rows, h).

(** src/src/ch_rows.c:96-122 [idx_ch_rows_end] *)
Definition idx_ch_rows_end : op := fun rows h =>
  if negb (in_row rows) then fail IDX_ERR_INTERNAL rows h
  else if negb (row_width rows =? 0) && negb (column_count rows =? row_width rows) then fail IDX_ERR_INTERNAL rows h
  else
    ((fun rows => if is_json rows then on_buf (append_lit [125; 10]) rows else ok rows) >>>
     (fun rows h =>
        (Ok tt, ChRows (buf rows) (format rows) (u64 (row_count rows + 1)) (size (buf_data (buf rows))) 0 (column_count rows) false, h)))
    rows h.

(** src/src/ch_rows.c:128-147 [column_begin] *)
Definition column_begin (name : option bytes) : op := fun rows h =>
  match name with
  | None => fail IDX_ERR_INVALID_ARG rows h
  | Some name =>
      if negb (in_row rows) then fail IDX_ERR_INTERNAL rows h
      else if is_json rows then
        ((fun rows => if 0 <? column_count rows then on_buf (append_lit [44]) rows else ok rows) >>>
         on_buf (append_lit [34] +> append_lit name +> append_lit [34; 58])) rows h
      else (Ok tt, rows, h)
  end.

(** src/src/ch_rows.c:151-154 [column_end] *)
Definition column_end : op := fun rows h =>
  (Ok tt, ChRows (buf rows) (format rows) (row_count rows) (complete_len rows) (u64 (column_count rows + 1)) (row_width rows)
            (in_row rows), h).

(** *** Values *)

(** src/src/ch_rows.c:160-167 [put_le] *)
Definition put_le (value : Z) (width : nat) : op := on_buf (append_lit (le_digits 256 width value)).

(** src/src/ch_rows.c:173-182 [put_varint]: the loop; ten bytes hold 64 bits. *)
Fixpoint varint (fuel : nat) (value : Z) : bytes :=
  match fuel with
  | O => []
  | S fuel =>
      let byte := Z.land value 127 in
      let value := Z.shiftr value 7 in
      if value =? 0 then [byte] else Z.lor byte 128 :: varint fuel value
  end.

(** src/src/ch_rows.c:170-183 [put_varint] *)
Definition put_varint (value : Z) : op := on_buf (append_lit (varint 10 value)).

(** src/src/ch_rows.c:185-188 [put_text]: [text] is what precedes the NUL. *)
Definition put_text (text : bytes) : op := on_buf (append_lit text).

Definition upper_hex : bytes := lit "0123456789ABCDEF".

(** src/src/ch_rows.c:200-233 [put_json_bytes]: what the loop writes for one byte, the
    text of [snprintf("\\u%04X")] for the remaining controls. *)
Definition json_byte (c : Z) : bytes :=
  if c =? 34 then [92; 34]
  else if c =? 92 then [92; 92]
  else if c =? 8 then [92; 98]
  else if c =? 12 then [92; 102]
  else if c =? 10 then [92; 110]
  else if c =? 13 then [92; 114]
  else if c =? 9 then [92; 116]
  else if c <? 32 then
    [92; 117; 48; 48; upper_hex !!! Z.to_nat (c / 16); upper_hex !!! Z.to_nat (c mod 16)]
  else [c].

(** src/src/ch_rows.c:200-233 [put_json_bytes]: the loop. *)
Fixpoint put_json_loop (data : bytes) : writer :=
  match data with
  | [] => fun b h => (Ok tt, b, h)
  | c :: data => append_lit (json_byte c) +> put_json_loop data
  end.

(** src/src/ch_rows.c:196-235 [put_json_bytes] *)
Definition put_json_bytes (data : bytes) : op :=
  on_buf (append_lit [34] +> put_json_loop data +> append_lit [34]).

(** src/src/ch_rows.c:238-240 [put_json_null] *)
Definition put_json_null : op := on_buf (append_lit (lit "null")).

(** src/src/ch_rows.c:247-251 [put_null_flag] *)
Definition put_null_flag (present : bool) : op := on_buf (append_lit [if present then 0 else 1]).

(** src/src/ch_rows.c:20-20 [NUM_BUF] *)
Definition NUM_BUF : Z := 24.
(** src/src/ch_rows.c:18-18 [DBL_BUF] *)
Definition DBL_BUF : Z := 32.

(** src/src/ch_rows.c:256-264 [put_uint] *)
Definition put_uint (value : Z) (width : nat) : op := fun rows =>
  if is_json rows then put_text (printed NUM_BUF (dec value)) rows else put_le value width rows.

(** [%lld] *)
Definition dec_signed (value : Z) : bytes := if value <? 0 then 45 :: dec (- value) else dec value.

(** src/src/ch_rows.c:266-274 [put_int] *)
Definition put_int (value : Z) (width : nat) : op := fun rows =>
  if is_json rows then put_text (printed NUM_BUF (dec_signed value)) rows else put_le (u64 value) width rows.

Section Float.

(** The bits a NaN has on this machine. *)
Context (nan_bits : Z).

(** src/src/ch_rows.c:319-332 [put_double] *)
Definition put_double (value : double) : op := fun rows =>
  if is_json rows then
    put_text (printed DBL_BUF (if isfinite value then general_17 nan_bits value else quoted (general_17 nan_bits value))) rows
  else put_le (double_bits nan_bits value) 8 rows.

End Float.

(** src/src/ch_rows.c:343-351 [put_string] *)
Definition put_string (data : option bytes) (len : Z) : op := fun rows =>
  if is_json rows then put_json_bytes (take (Z.to_nat len) (default [] data)) rows
  else (put_varint len >>> on_buf (fun b h => idx_buffer_append b data len h)) rows.

(** src/src/ch_rows.c:355-362 [put_fixed] *)
Definition put_fixed (data : option bytes) (len : Z) : op := fun rows =>
  if is_json rows then put_json_bytes (take (Z.to_nat len) (default [] data)) rows
  else on_buf (fun b h => idx_buffer_append b data len h) rows.

(** src/src/ch_rows.c:365-373 [check_bytes] *)
Definition check_bytes (data : option bytes) (len : Z) : op :=
  match data with None => if 0 <? len then fail IDX_ERR_INVALID_ARG else ok | Some _ => ok end.

(** *** Columns *)

(** src/src/ch_rows.c:276-282 [DEFINE_UINT_COLUMN] *)
Definition uint_column (width : nat) (name : option bytes) (value : Z) : op :=
  column_begin name >>> put_uint value width >>> column_end.

(** src/src/ch_rows.c:284-290 [DEFINE_INT_COLUMN] *)
Definition int_column (width : nat) (name : option bytes) (value : Z) : op :=
  column_begin name >>> put_int value width >>> column_end.

(** src/src/ch_rows.c:292-292 [idx_ch_rows_u8] *)
Definition idx_ch_rows_u8 := uint_column 1.
(** src/src/ch_rows.c:293-293 [idx_ch_rows_u16] *)
Definition idx_ch_rows_u16 := uint_column 2.
(** src/src/ch_rows.c:294-294 [idx_ch_rows_u32] *)
Definition idx_ch_rows_u32 := uint_column 4.
(** src/src/ch_rows.c:295-295 [idx_ch_rows_u64] *)
Definition idx_ch_rows_u64 := uint_column 8.
(** src/src/ch_rows.c:296-296 [idx_ch_rows_i8] *)
Definition idx_ch_rows_i8 := int_column 1.
(** src/src/ch_rows.c:297-297 [idx_ch_rows_i16] *)
Definition idx_ch_rows_i16 := int_column 2.
(** src/src/ch_rows.c:298-298 [idx_ch_rows_i32] *)
Definition idx_ch_rows_i32 := int_column 4.
(** src/src/ch_rows.c:299-299 [idx_ch_rows_i64] *)
Definition idx_ch_rows_i64 := int_column 8.

(** src/src/ch_rows.c:304-307 [idx_ch_rows_bool] *)
Definition idx_ch_rows_bool (name : option bytes) (value : bool) : op := idx_ch_rows_u8 name (if value then 1 else 0).

(** src/src/ch_rows.c:334-339 [idx_ch_rows_f64] *)
Definition idx_ch_rows_f64 (nan_bits : Z) (name : option bytes) (value : double) : op :=
  column_begin name >>> put_double nan_bits value >>> column_end.

(** src/src/ch_rows.c:378-384 [idx_ch_rows_str] *)
Definition idx_ch_rows_str (name : option bytes) (data : option bytes) (len : Z) : op :=
  check_bytes data len >>> column_begin name >>> put_string data len >>> column_end.

(** src/src/ch_rows.c:386-392 [idx_ch_rows_fixed] *)
Definition idx_ch_rows_fixed (name : option bytes) (data : option bytes) (len : Z) : op :=
  check_bytes data len >>> column_begin name >>> put_fixed data len >>> column_end.

(** src/src/ch_rows.c:402-414 [NULLABLE_PROLOGUE]: the marker, and the value when there
    is one. *)
Definition nullable_column (name : option bytes) (value : option op) : op :=
  column_begin name >>>
  (fun rows => if is_json rows then ok rows else put_null_flag (match value with Some _ => true | None => false end) rows) >>>
  (match value with
   | None => (fun rows => if is_json rows then put_json_null rows else ok rows) >>> column_end
   | Some put => put >>> column_end
   end).

(** src/src/ch_rows.c:416-422 [idx_ch_rows_nullable_u8] *)
Definition idx_ch_rows_nullable_u8 (name : option bytes) (value : option Z) : op :=
  nullable_column name ((fun v => put_uint v 1) <$> value).

(** src/src/ch_rows.c:424-430 [idx_ch_rows_nullable_u64] *)
Definition idx_ch_rows_nullable_u64 (name : option bytes) (value : option Z) : op :=
  nullable_column name ((fun v => put_uint v 8) <$> value).

(** src/src/ch_rows.c:432-438 [idx_ch_rows_nullable_i64] *)
Definition idx_ch_rows_nullable_i64 (name : option bytes) (value : option Z) : op :=
  nullable_column name ((fun v => put_int v 8) <$> value).

(** src/src/ch_rows.c:440-446 [idx_ch_rows_nullable_f64] *)
Definition idx_ch_rows_nullable_f64 (nan_bits : Z) (name : option bytes) (value : option double) : op :=
  nullable_column name (put_double nan_bits <$> value).

(** src/src/ch_rows.c:448-457 [idx_ch_rows_nullable_str]: the data and its length when
    present. *)
Definition idx_ch_rows_nullable_str (name : option bytes) (value : option (option bytes * Z)) : op :=
  match value with Some (data, len) => check_bytes data len | None => ok end >>>
  nullable_column name ((fun '(data, len) => put_string data len) <$> value).

(** src/src/ch_rows.c:459-468 [idx_ch_rows_nullable_fixed] *)
Definition idx_ch_rows_nullable_fixed (name : option bytes) (value : option (option bytes * Z)) : op :=
  match value with Some (data, len) => check_bytes data len | None => ok end >>>
  nullable_column name ((fun '(data, len) => put_fixed data len) <$> value).

(** ** What a row is written as *)

(** The values a column can hold, and a nullable one. *)
Inductive scalar :=
  | UInt (width : nat) (value : Z)
  | SInt (width : nat) (value : Z)
  | Float (value : double)
  | Str (data : bytes)
  | Fixed (data : bytes).

Inductive cell :=
  | Plain (s : scalar)
  | Nullable (s : option scalar).

(** A row: its columns with their names. *)
Abbreviation row := (list (bytes * cell)).

Section Rows.
Context (nan_bits : Z).

Definition put_scalar (s : scalar) : op :=
  match s with
  | UInt width v => put_uint v width
  | SInt width v => put_int v width
  | Float d => put_double nan_bits d
  | Str l => put_string (Some l) (size l)
  | Fixed l => put_fixed (Some l) (size l)
  end.

(** The column call for a cell. *)
Definition column (name : bytes) (c : cell) : op :=
  match c with
  | Plain s => column_begin (Some name) >>> put_scalar s >>> column_end
  | Nullable s => nullable_column (Some name) (put_scalar <$> s)
  end.

(** A row, written the way the stores write one: the first failure ends it. *)
Definition put_columns (cells : row) : op :=
  foldr (fun nc rest => column nc.1 nc.2 >>> rest) idx_ch_rows_end cells.

Definition put_row (cells : row) : op := idx_ch_rows_begin >>> put_columns cells.

(** The bytes of a string in JSON: quoted, the quote, the backslash and the controls
    escaped, everything else as it is. *)
Definition json_text (l : bytes) : bytes := quoted (l ≫= json_byte).

Definition scalar_text (fmt : idx_ch_row_format) (s : scalar) : bytes :=
  match fmt, s with
  | IDX_CH_FORMAT_ROW_BINARY, UInt width v => le_digits 256 width v
  | IDX_CH_FORMAT_ROW_BINARY, SInt width v => le_digits 256 width (u64 v)
  | IDX_CH_FORMAT_ROW_BINARY, Float d => le_digits 256 8 (double_bits nan_bits d)
  | IDX_CH_FORMAT_ROW_BINARY, Str l => varint 10 (size l) ++ l
  | IDX_CH_FORMAT_ROW_BINARY, Fixed l => l
  | IDX_CH_FORMAT_JSON_EACH_ROW, UInt _ v => printed NUM_BUF (dec v)
  | IDX_CH_FORMAT_JSON_EACH_ROW, SInt _ v => printed NUM_BUF (dec_signed v)
  | IDX_CH_FORMAT_JSON_EACH_ROW, Float d =>
      printed DBL_BUF (if isfinite d then general_17 nan_bits d else quoted (general_17 nan_bits d))
  | IDX_CH_FORMAT_JSON_EACH_ROW, Str l | IDX_CH_FORMAT_JSON_EACH_ROW, Fixed l => json_text l
  end.

Definition cell_text (fmt : idx_ch_row_format) (c : cell) : bytes :=
  match fmt, c with
  | _, Plain s => scalar_text fmt s
  | IDX_CH_FORMAT_ROW_BINARY, Nullable None => [1]
  | IDX_CH_FORMAT_ROW_BINARY, Nullable (Some s) => 0 :: scalar_text fmt s
  | IDX_CH_FORMAT_JSON_EACH_ROW, Nullable None => lit "null"
  | IDX_CH_FORMAT_JSON_EACH_ROW, Nullable (Some s) => scalar_text fmt s
  end.

(** The key in front of a value; [first] for the first column. *)
Definition key_text (fmt : idx_ch_row_format) (first : bool) (name : bytes) : bytes :=
  match fmt with
  | IDX_CH_FORMAT_ROW_BINARY => []
  | IDX_CH_FORMAT_JSON_EACH_ROW => (if first then [] else [44]) ++ quoted name ++ [58]
  end.

Fixpoint columns_text (fmt : idx_ch_row_format) (first : bool) (cells : row) : bytes :=
  match cells with
  | [] => []
  | (name, c) :: cells => key_text fmt first name ++ cell_text fmt c ++ columns_text fmt false cells
  end.

Definition row_text (fmt : idx_ch_row_format) (cells : row) : bytes :=
  match fmt with
  | IDX_CH_FORMAT_ROW_BINARY => columns_text fmt true cells
  | IDX_CH_FORMAT_JSON_EACH_ROW => [123] ++ columns_text fmt true cells ++ [125; 10]
  end.

(** ** What a call adds to the buffer *)

Definition with_buf (rows : idx_ch_rows) (b : idx_buffer) : idx_ch_rows :=
  ChRows b (format rows) (row_count rows) (complete_len rows) (column_count rows) (row_width rows) (in_row rows).

(** Why bytes could not be added to a buffer of [data]: the allocator refused, or no
    [size_t] holds the length. *)
Definition refused (data l : bytes) (h : heap) (e : idx_status) : Prop :=
  e = IDX_ERR_NO_MEMORY /\ In false h \/ e = IDX_ERR_RANGE /\ SIZE_MAX < size data + size l.

(** After a write of [l] to [b]: all of it, or a beginning and the reason. *)
Definition wrote (b b' : idx_buffer) (l : bytes) (h h' : heap) (r : result unit) : Prop :=
  buffer_ok b' /\ h' `suffix_of` h /\
  match r with
  | Ok _ => buf_data b' = buf_data b ++ l
  | Err e => refused (buf_data b) l h e /\ exists p, buf_data b' = buf_data b ++ p
  end.

Definition emits (w : writer) (l : bytes) : Prop :=
  forall b h, buffer_ok b -> let '(r, b', h') := w (Some b) h in exists b1, b' = Some b1 /\ wrote b b1 l h h' r.

(** A call that changes the buffer alone. *)
Definition adds (o : op) (fmt : idx_ch_row_format) (l : bytes) : Prop :=
  forall rows h, format rows = fmt -> buffer_ok (buf rows) ->
  let '(r, rows', h') := o rows h in exists b, rows' = with_buf rows b /\ wrote (buf rows) b l h h' r.

Lemma append_suffix b l h : (idx_buffer_append (Some b) (Some l) (size l) h).2 `suffix_of` h.
Proof.
  unfold idx_buffer_append. destruct (size l =? 0); [done|]. unfold idx_buffer_reserve.
  repeat match goal with |- context [if ?c then _ else _] => destruct c; [done|] end.
  destruct h as [|[] h]; simpl; [done|by exists [true]|by exists [false]].
Qed.

Lemma refused_app data l1 l2 h e : refused data l1 h e -> refused data (l1 ++ l2) h e.
Proof. unfold refused, size. rewrite length_app. intros [?|[? ?]]; [by left|right; split; [done|lia]]. Qed.

Lemma refused_later data l1 l2 h h' e :
  h' `suffix_of` h -> refused (data ++ l1) l2 h' e -> refused data (l1 ++ l2) h e.
Proof.
  unfold refused, size. rewrite !length_app. intros [k ->] [[? ?]|[? ?]]; [left|right; split; [done|lia]].
  split; [done|]. apply in_or_app. by right.
Qed.

Lemma emits_lit l : emits (append_lit l) l.
Proof.
  intros b h Hb. unfold append_lit. pose proof (buffer_append_ok b l h Hb) as H. pose proof (append_suffix b l h) as Hs.
  destruct (idx_buffer_append _ _ _ _) as [[r b'] h']. cbn [snd] in Hs. destruct H as (b1 & -> & Hb1 & H).
  exists b1. split; [done|]. split_and!; [done..|]. destruct r as [|e].
  - by destruct H.
  - destruct H as [-> [[-> ?]|[-> ->]]].
    + split; [by right|]. exists []. by rewrite app_nil_r.
    + split; [left; split; [done|by left]|]. exists []. by rewrite app_nil_r.
Qed.

Lemma emits_nil : emits (fun b h => (Ok tt, b, h)) [].
Proof. intros b h Hb. cbv beta iota. exists b. split; [done|]. split; [done|]. split; [done|]. by rewrite app_nil_r. Qed.

Lemma wrote_trans b b1 b2 l1 l2 h h1 h2 r :
  wrote b b1 l1 h h1 (Ok tt) -> wrote b1 b2 l2 h1 h2 r -> wrote b b2 (l1 ++ l2) h h2 r.
Proof.
  intros (_ & Hs1 & Hd1) (Hb2 & Hs2 & Hd2). split_and!; [done|by etransitivity|]. destruct r as [|e].
  - by rewrite Hd2, Hd1, app_assoc.
  - destruct Hd2 as [Hr [p Hp]]. rewrite Hd1 in Hr. split; [by eapply refused_later|].
    exists (l1 ++ p). by rewrite Hp, Hd1, app_assoc.
Qed.

Lemma wrote_stop b b1 l1 l2 h h1 e : wrote b b1 l1 h h1 (Err e) -> wrote b b1 (l1 ++ l2) h h1 (Err e).
Proof. intros (Hb & Hs & Hr & Hp). split; [done|]. split; [done|]. split; [by apply refused_app|done]. Qed.

Lemma emits_then w1 w2 l1 l2 : emits w1 l1 -> emits w2 l2 -> emits (w1 +> w2) (l1 ++ l2).
Proof.
  intros H1 H2 b h Hb. unfold then_write. specialize (H1 b h Hb). destruct (w1 _ _) as [[[[]|e] b'] h'].
  - destruct H1 as (b1 & -> & W1). specialize (H2 b1 h' (proj1 W1)). destruct (w2 _ _) as [[r b''] h''].
    destruct H2 as (b2 & -> & W2). exists b2. split; [done|]. by eapply wrote_trans.
  - destruct H1 as (b1 & -> & W1). exists b1. split; [done|]. by apply wrote_stop.
Qed.

Lemma emits_json data : emits (put_json_loop data) (data ≫= json_byte).
Proof.
  induction data as [|c data IH]; [apply emits_nil|]. rewrite bind_cons. apply emits_then; [apply emits_lit|done].
Qed.

Lemma adds_buf w fmt l : emits w l -> adds (on_buf w) fmt l.
Proof.
  intros H rows h _ Hb. unfold on_buf. specialize (H (buf rows) h Hb). destruct (w _ _) as [[r b'] h'].
  destruct H as (b1 & -> & W). by exists b1.
Qed.

Lemma adds_ok fmt : adds ok fmt [].
Proof.
  intros rows h _ Hb. cbv beta iota delta [ok]. exists (buf rows). split; [by destruct rows|]. split; [done|]. split; [done|]. by rewrite app_nil_r.
Qed.

Lemma adds_then o1 o2 fmt l1 l2 : adds o1 fmt l1 -> adds o2 fmt l2 -> adds (o1 >>> o2) fmt (l1 ++ l2).
Proof.
  intros H1 H2 rows h Hf Hb. unfold then_op. specialize (H1 rows h Hf Hb). destruct (o1 _ _) as [[[[]|e] rows1] h1].
  - destruct H1 as (b1 & -> & W1). specialize (H2 (with_buf rows b1) h1 Hf (proj1 W1)).
    destruct (o2 _ _) as [[r rows2] h2]. destruct H2 as (b2 & -> & W2). exists b2. split; [done|]. by eapply wrote_trans.
  - destruct H1 as (b1 & -> & W1). exists b1. split; [done|]. by apply wrote_stop.
Qed.

(** A call that writes one text in JSON and another in RowBinary. *)
Lemma adds_by_format o1 o2 fmt l1 l2 :
  adds o1 fmt l1 -> adds o2 fmt l2 ->
  adds (fun rows => if is_json rows then o1 rows else o2 rows) fmt
    (match fmt with IDX_CH_FORMAT_JSON_EACH_ROW => l1 | IDX_CH_FORMAT_ROW_BINARY => l2 end).
Proof.
  intros H1 H2 rows h Hf Hb. unfold is_json. destruct fmt; rewrite Hf.
  - rewrite bool_decide_eq_false_2 by done. by apply H2.
  - rewrite bool_decide_eq_true_2 by done. by apply H1.
Qed.

Lemma adds_text l fmt : adds (on_buf (append_lit l)) fmt l.
Proof. apply adds_buf, emits_lit. Qed.

Lemma adds_json_bytes l fmt : adds (put_json_bytes (take (Z.to_nat (size l)) (default [] (Some l)))) fmt (json_text l).
Proof.
  unfold size, put_json_bytes. rewrite Nat2Z.id, firstn_all. apply adds_buf.
  apply (emits_then _ _ [34]); [apply emits_lit|]. apply emits_then; [apply emits_json|apply emits_lit].
Qed.

Lemma adds_scalar s fmt : adds (put_scalar s) fmt (scalar_text fmt s).
Proof.
  assert (forall l, adds (on_buf (fun b h => idx_buffer_append b (Some l) (size l) h)) fmt l) as Hraw by (intros l; exact (adds_text l fmt)).
  destruct s; cbn [put_scalar].
  - pose proof (adds_by_format _ _ fmt _ _ (adds_text (printed NUM_BUF (dec value)) fmt) (adds_text (le_digits 256 width value) fmt)) as H.
    by destruct fmt.
  - pose proof (adds_by_format _ _ fmt _ _ (adds_text (printed NUM_BUF (dec_signed value)) fmt) (adds_text (le_digits 256 width (u64 value)) fmt)) as H.
    by destruct fmt.
  - pose proof (adds_by_format _ _ fmt _ _
      (adds_text (printed DBL_BUF (if isfinite value then general_17 nan_bits value else quoted (general_17 nan_bits value))) fmt)
      (adds_text (le_digits 256 8 (double_bits nan_bits value)) fmt)) as H.
    by destruct fmt.
  - pose proof (adds_by_format _ _ fmt _ _ (adds_json_bytes data fmt)
      (adds_then _ _ fmt _ _ (adds_text (varint 10 (size data)) fmt) (Hraw data))) as H.
    by destruct fmt.
  - pose proof (adds_by_format _ _ fmt _ _ (adds_json_bytes data fmt) (Hraw data)) as H. by destruct fmt.
Qed.

(** ** Rows *)

Definition with_column (rows : idx_ch_rows) : idx_ch_rows :=
  ChRows (buf rows) (format rows) (row_count rows) (complete_len rows) (u64 (column_count rows + 1)) (row_width rows) (in_row rows).

(** A row is open, and the completed ones are what they were: the buffer has grown by
    part of a row. *)
Definition left_open (rows rows' : idx_ch_rows) : Prop :=
  in_row rows' = true /\ format rows' = format rows /\ row_count rows' = row_count rows /\
  complete_len rows' = complete_len rows /\ row_width rows' = row_width rows /\
  exists p, buf_data (buf rows') = buf_data (buf rows) ++ p.

Lemma left_open_refl rows : in_row rows = true -> left_open rows rows.
Proof. intros Ho. unfold left_open. split_and!; [done..|]. exists []. by rewrite app_nil_r. Qed.

Lemma left_open_buf rows b p : in_row rows = true -> buf_data b = buf_data (buf rows) ++ p -> left_open rows (with_buf rows b).
Proof. intros Ho Hp. unfold left_open. split_and!; [done..|]. by exists p. Qed.

Lemma begin_spec name rows h :
  in_row rows = true -> buffer_ok (buf rows) ->
  let '(r, rows', h') := column_begin (Some name) rows h in
  exists b, rows' = with_buf rows b /\ wrote (buf rows) b (key_text (format rows) (negb (0 <? column_count rows)) name) h h' r.
Proof.
  intros Ho Hb. unfold column_begin. rewrite Ho. cbn [negb].
  pose proof (adds_by_format
    ((fun rows => if 0 <? column_count rows then on_buf (append_lit [44]) rows else ok rows) >>>
     on_buf (append_lit [34] +> append_lit name +> append_lit [34; 58])) ok (format rows)) as H.
  assert (forall fmt, adds (on_buf (append_lit [34] +> append_lit name +> append_lit [34; 58])) fmt (quoted name ++ [58])) as Hq.
  { intros fmt. apply adds_buf. unfold quoted. rewrite <- !app_assoc.
    apply (emits_then _ _ [34]); [apply emits_lit|]. apply (emits_then _ _ name [34; 58]); apply emits_lit. }
  destruct (0 <? column_count rows) eqn:E; cbn [negb]; unfold is_json; destruct (format rows) eqn:Ef; cbn [key_text].
  1, 3: apply (adds_ok (format rows) rows h eq_refl Hb).
  - rewrite bool_decide_eq_true_2 by done. unfold then_op at 1. rewrite E.
    apply (adds_then _ _ _ [44] _ (adds_text [44] _) (Hq _) rows h Ef Hb).
  - rewrite bool_decide_eq_true_2 by done. unfold then_op at 1. rewrite E. cbn [ok app].
    apply (Hq _ rows h Ef Hb).
Qed.

(** The value of a column, without its key. *)
Definition cell_op (c : cell) : op :=
  match c with
  | Plain s => put_scalar s
  | Nullable s =>
      (fun rows => if is_json rows then ok rows else put_null_flag (match s with Some _ => true | None => false end) rows) >>>
      match s with
      | None => fun rows => if is_json rows then put_json_null rows else ok rows
      | Some s => put_scalar s
      end
  end.

Lemma column_split name c : column name c ≐ column_begin (Some name) >>> (cell_op c >>> column_end).
Proof. destruct c as [s|[s|]]; [done|..]; unfold column, nullable_column, cell_op; by rewrite then_op_assoc. Qed.

Lemma adds_cell c fmt : adds (cell_op c) fmt (cell_text fmt c).
Proof.
  destruct c as [s|s]; cbn [cell_op]; [destruct fmt; apply adds_scalar|].
  pose proof (adds_by_format ok (put_null_flag (match s with Some _ => true | None => false end)) fmt [] _
    (adds_ok fmt) (adds_text _ fmt)) as Hf.
  destruct s as [s|].
  - pose proof (adds_then _ _ fmt _ _ Hf (adds_scalar s fmt)) as H. by destruct fmt.
  - pose proof (adds_then _ _ fmt _ _ Hf (adds_by_format _ _ fmt _ _ (adds_text (lit "null") fmt) (adds_ok fmt))) as H. by destruct fmt.
Qed.

Lemma column_spec name c rows h :
  in_row rows = true -> buffer_ok (buf rows) ->
  let '(r, rows', h') := column name c rows h in
  exists b, wrote (buf rows) b (key_text (format rows) (negb (0 <? column_count rows)) name ++ cell_text (format rows) c) h h' r /\
    rows' = match r with Ok _ => with_column (with_buf rows b) | Err _ => with_buf rows b end.
Proof.
  intros Ho Hb. rewrite (column_split name c rows h). pose proof (begin_spec name rows h Ho Hb) as H. unfold then_op at 1.
  destruct (column_begin _ _ _) as [[[[]|e] rows1] h1]; destruct H as (b1 & -> & W1).
  - unfold then_op. pose proof (adds_cell c (format rows) (with_buf rows b1) h1 eq_refl (proj1 W1)) as H.
    destruct (cell_op _ _ _) as [[[[]|e] rows2] h2]; destruct H as (b2 & -> & W2).
    + exists b2. split; [by eapply wrote_trans|done].
    + exists b2. split; [by eapply wrote_trans|done].
  - exists b1. split; [by apply wrote_stop|done].
Qed.

(** The end of a row in the body. *)
Definition row_end (fmt : idx_ch_row_format) : bytes :=
  match fmt with IDX_CH_FORMAT_JSON_EACH_ROW => [125; 10] | IDX_CH_FORMAT_ROW_BINARY => [] end.
Definition row_start (fmt : idx_ch_row_format) : bytes :=
  match fmt with IDX_CH_FORMAT_JSON_EACH_ROW => [123] | IDX_CH_FORMAT_ROW_BINARY => [] end.

Lemma row_text_parts fmt cells : row_text fmt cells = row_start fmt ++ columns_text fmt true cells ++ row_end fmt.
Proof. destruct fmt; [symmetry; apply app_nil_r|done]. Qed.

(** The completed row, or why it was not. *)
Definition row_outcome (rows : idx_ch_rows) (width : Z) (l : bytes) (h : heap) (r : result unit) (rows' : idx_ch_rows) : Prop :=
  match r with
  | Ok _ => exists b, rows' = ChRows b (format rows) (u64 (row_count rows + 1)) (size (buf_data b)) 0 width false /\
      buf_data b = buf_data (buf rows) ++ l /\ (row_width rows = 0 \/ row_width rows = width)
  | Err e => left_open rows rows' /\
      (refused (buf_data (buf rows)) l h e \/ e = IDX_ERR_INTERNAL /\ row_width rows <> 0 /\ row_width rows <> width)
  end.

(** The text that differs by format, and nothing else. *)
Lemma adds_json_only l rows h :
  buffer_ok (buf rows) ->
  let '(r, rows', h') := (if is_json rows then on_buf (append_lit l) rows else ok rows) h in
  exists b, rows' = with_buf rows b /\
    wrote (buf rows) b (match format rows with IDX_CH_FORMAT_JSON_EACH_ROW => l | IDX_CH_FORMAT_ROW_BINARY => [] end) h h' r.
Proof. intros Hb. apply (adds_by_format (on_buf (append_lit l)) ok (format rows) l []); auto using adds_text, adds_ok. Qed.

Lemma end_spec rows h :
  in_row rows = true -> buffer_ok (buf rows) ->
  let '(r, rows', h') := idx_ch_rows_end rows h in
  buffer_ok (buf rows') /\ h' `suffix_of` h /\ row_outcome rows (column_count rows) (row_end (format rows)) h r rows'.
Proof.
  intros Ho Hb. unfold idx_ch_rows_end. rewrite Ho. cbn [negb].
  destruct (negb (row_width rows =? 0) && negb (column_count rows =? row_width rows)) eqn:E.
  { apply andb_true_iff in E as [E1 E2]. rewrite negb_true_iff in E1, E2. zbool.
    split; [done|]. split; [done|]. split; [by apply left_open_refl|]. right. split; [done|lia]. }
  assert (row_width rows = 0 \/ row_width rows = column_count rows) as Hw.
  { apply andb_false_iff in E. rewrite !negb_false_iff in E. destruct E; zbool; lia. }
  pose proof (adds_json_only [125; 10] rows h Hb) as H. fold (row_end (format rows)) in H.
  unfold then_op. destruct ((if is_json rows then _ else _) h) as [[[[]|e] rows1] h1]; destruct H as (b & -> & Hb1 & Hs & H).
  - split; [done|]. split; [done|]. by exists b.
  - destruct H as [Hr [p Hp]]. split; [done|]. split; [done|]. split; [by apply (left_open_buf _ _ p)|by left].
Qed.

Lemma outcome_after rows b1 width l1 l2 h h1 r rows' :
  wrote (buf rows) b1 l1 h h1 (Ok tt) ->
  row_outcome (with_column (with_buf rows b1)) width l2 h1 r rows' ->
  row_outcome rows width (l1 ++ l2) h r rows'.
Proof.
  intros (_ & Hs & Hd). destruct r as [|e]; cbn [row_outcome].
  - intros (b & -> & Hb & Hw). exists b. split_and!; [done| |done]. cbn in Hb. by rewrite Hb, Hd, app_assoc.
  - intros [(Ho & Hf & Hr & Hc & Hw & p & Hp) H]. split.
    + unfold left_open. split_and!; [done..|]. exists (l1 ++ p). cbn in Hp. by rewrite Hp, Hd, app_assoc.
    + destruct H as [H|H]; [left|by right]. cbn in H. rewrite Hd in H. by eapply refused_later.
Qed.

Lemma columns_spec cells rows h :
  in_row rows = true -> buffer_ok (buf rows) -> 0 <= column_count rows -> column_count rows + size cells < 2 ^ 64 ->
  let '(r, rows', h') := put_columns cells rows h in
  buffer_ok (buf rows') /\ h' `suffix_of` h /\
  row_outcome rows (column_count rows + size cells)
    (columns_text (format rows) (negb (0 <? column_count rows)) cells ++ row_end (format rows)) h r rows'.
Proof.
  revert rows h. induction cells as [|[name c] cells IH]; intros rows h Ho Hb Hc Hw.
  { cbn [put_columns foldr]. change (size []) with 0. rewrite Z.add_0_r. by apply end_spec. }
  assert (size ((name, c) :: cells) = 1 + size cells) as Hsz by (unfold size; simpl length; lia). rewrite Hsz in *.
  assert (0 <= size cells) as Hn by (unfold size; lia).
  cbn [put_columns foldr columns_text]. fold (put_columns cells). unfold then_op. cbn [fst snd].
  pose proof (column_spec name c rows h Ho Hb) as H.
  destruct (column _ _ _ _) as [[[[]|e] rows1] h1]; destruct H as (b & W & ->).
  - specialize (IH (with_column (with_buf rows b)) h1 Ho (proj1 W)). cbn [with_column with_buf column_count format] in IH.
    rewrite u64_small in IH by (unfold is_u64; lia). specialize (IH ltac:(lia) ltac:(lia)).
    rewrite (proj2 (Z.ltb_lt 0 _)) in IH by lia. cbn [negb] in IH.
    destruct (put_columns _ _ _) as [[r rows2] h2]. destruct IH as (Hb2 & Hs2 & Hr2).
    split; [done|]. split; [etransitivity; [done|apply W]|].
    replace (column_count rows + (1 + size cells)) with (column_count rows + 1 + size cells) by lia.
    rewrite <- !app_assoc, (app_assoc (key_text _ _ _)). by eapply outcome_after.
  - pose proof W as (Hb1 & Hs1 & _). split; [done|]. split; [done|].
    rewrite <- !app_assoc, (app_assoc (key_text _ _ _)).
    apply (wrote_stop _ _ _ (columns_text (format rows) false cells ++ row_end (format rows))) in W.
    destruct W as (_ & _ & Hr & p & Hp). split; [by apply (left_open_buf _ _ p)|by left].
Qed.

(** Writing a row on a writer with none open. *)
Lemma put_row_spec cells rows h :
  in_row rows = false -> buffer_ok (buf rows) -> size cells < 2 ^ 64 ->
  let '(r, rows', h') := put_row cells rows h in
  buffer_ok (buf rows') /\ h' `suffix_of` h /\ row_outcome rows (size cells) (row_text (format rows) cells) h r rows'.
Proof.
  intros Ho Hb Hsz. unfold put_row, then_op at 1, idx_ch_rows_begin. rewrite Ho.
  set (opened := ChRows _ _ _ _ 0 _ true).
  pose proof (adds_json_only [123] opened h Hb) as H. change (format opened) with (format rows) in H. fold (row_start (format rows)) in H.
  assert ((if is_json opened then on_buf (append_lit [123]) opened h else (Ok tt, opened, h)) =
    (if is_json opened then on_buf (append_lit [123]) opened else ok opened) h) as -> by by destruct (is_json opened).
  rewrite row_text_parts.
  destruct ((if is_json opened then _ else _) h) as [[[[]|e] rows1] h1]; destruct H as (b & -> & W).
  - pose proof (columns_spec cells (with_buf opened b) h1 eq_refl (proj1 W) ltac:(done) Hsz) as H.
    cbn [with_buf opened column_count format] in H. change (0 <? 0) with false in H. cbn [negb] in H. rewrite Z.add_0_l in H.
    destruct (put_columns _ _ _) as [[r rows2] h2]. destruct H as (Hb2 & Hs2 & H2).
    split; [done|]. split; [etransitivity; [done|apply W]|].
    eapply outcome_after; [exact W|]. destruct r; [exact H2|]. destruct H2 as [H2 ?]. split; [exact H2|done].
  - pose proof W as W1. cbn in W1.
    split; [apply W|]. split; [apply W|].
    apply (wrote_stop _ _ _ (columns_text (format rows) true cells ++ row_end (format rows))) in W1.
    destruct W1 as (_ & _ & Hr & p & Hp). split; [|by left]. unfold left_open. split_and!; [done..|]. by exists p.
Qed.

(** With a row left open nothing can be written. *)
Lemma put_row_open cells rows h : in_row rows = true -> put_row cells rows h = (Err IDX_ERR_INTERNAL, rows, h).
Proof. intros Ho. unfold put_row, then_op, idx_ch_rows_begin. by rewrite Ho. Qed.

(** ** Runs of calls *)

(** A row is written, or the writer is emptied. *)
Inductive rows_call := PutRow (cells : row) | ResetRows.

Definition rows_step (c : rows_call) (rows : idx_ch_rows) (h : heap) : result unit * idx_ch_rows * heap :=
  match c with
  | PutRow cells => put_row cells rows h
  | ResetRows => (Ok tt, idx_ch_rows_reset rows, h)
  end.

(** The statuses of the calls, and the writer after them. *)
Fixpoint rows_run (calls : list rows_call) (rows : idx_ch_rows) (h : heap) : list (result unit) * idx_ch_rows * heap :=
  match calls with
  | [] => ([], rows, h)
  | c :: calls =>
      let '(r, rows, h) := rows_step c rows h in
      let '(rs, rows, h) := rows_run calls rows h in (r :: rs, rows, h)
  end.

(** The rows accepted since the last reset. *)
Definition accept (done : list row) (cr : rows_call * result unit) : list row :=
  match cr with
  | (ResetRows, _) => []
  | (PutRow cells, Ok _) => done ++ [cells]
  | (PutRow _, Err _) => done
  end.
Definition accepted (calls : list rows_call) (rs : list (result unit)) : list row := foldl accept [] (zip calls rs).

(** A row is as wide as the ones before it. *)
Definition fits (done : list row) (cells : row) : Prop := Forall (fun r => length r = length cells) done.

(** Why a call has the status it has, given the rows in the body and whether a failed
    row is still open: such a row blocks the writer until a reset. *)
Inductive explains (fmt : idx_ch_row_format) (h : heap) : list row -> bool -> rows_call -> result unit -> bool -> Prop :=
  | reset_done done o : explains fmt h done o ResetRows (Ok tt) false
  | row_blocked done cells : explains fmt h done true (PutRow cells) (Err IDX_ERR_INTERNAL) true
  | row_accepted done cells : fits done cells -> explains fmt h done false (PutRow cells) (Ok tt) false
  | row_misfit done cells : ~ fits done cells -> explains fmt h done false (PutRow cells) (Err IDX_ERR_INTERNAL) true
  | row_refused done cells e :
      refused (done ≫= row_text fmt) (row_text fmt cells) h e -> explains fmt h done false (PutRow cells) (Err e) true.

Inductive explained (fmt : idx_ch_row_format) (h : heap) : list row -> bool -> list rows_call -> list (result unit) -> bool -> Prop :=
  | explained_nil done o : explained fmt h done o [] [] o
  | explained_cons done o c r o' calls rs o'' :
      explains fmt h done o c r o' -> explained fmt h (accept done (c, r)) o' calls rs o'' ->
      explained fmt h done o (c :: calls) (r :: rs) o''.

(** A row has a column, and not 2^64 of them. *)
Definition call_ok (c : rows_call) : Prop := match c with PutRow cells => 0 < size cells < 2 ^ 64 | ResetRows => True end.

#[export] Instance call_ok_dec c : Decision (call_ok c).
Proof. destruct c; unfold call_ok; apply _. Defined.

(** What a writer holds: the accepted rows, and part of one more while it is open. *)
Record holds (fmt : idx_ch_row_format) (rows : idx_ch_rows) (done : list row) (o : bool) : Prop := Holds {
  holds_ok : buffer_ok (buf rows);
  holds_format : format rows = fmt;
  holds_open : in_row rows = o;
  holds_len : complete_len rows = size (done ≫= row_text fmt);
  holds_count : row_count rows = u64 (size done);
  holds_width : Forall (fun r => size r = row_width rows) done;
  holds_none : done = [] -> row_width rows = 0;
  holds_some : Forall (fun r : row => 0 < size r) done;
  holds_data : exists p, buf_data (buf rows) = (done ≫= row_text fmt) ++ p /\ (o = false -> p = [])
}.

Lemma init_holds fmt : holds fmt (idx_ch_rows_init fmt) [] false.
Proof. split; try done. by exists []. Qed.

Lemma reset_holds fmt rows done o : holds fmt rows done o -> holds fmt (idx_ch_rows_reset rows) [] false.
Proof.
  intros [Hb Hf _ _ _ _ _ _ _]. split; try done; [|by exists []].
  destruct Hb as [? ?]. unfold buffer_ok in *. cbn. split; [|done]. unfold size in *. simpl. lia.
Qed.

Lemma fits_width fmt rows done o cells :
  holds fmt rows done o -> 0 < size cells -> row_width rows = 0 \/ row_width rows = size cells <-> fits done cells.
Proof.
  intros [_ _ _ _ _ Hw Hn Hs _] Hc. unfold fits. rewrite Forall_forall in Hw, Hs |- *.
  destruct done as [|r done]; [split; [intros _ r Hr; by apply not_elem_of_nil in Hr|left; by apply Hn]|].
  pose proof (Hw r ltac:(by left)) as Hwr. pose proof (Hs r ltac:(by left)) as Hsr. split.
  - intros [H0|H0] r' Hr'; [lia|]. specialize (Hw r' Hr'). unfold size in *. lia.
  - intros Hl. right. specialize (Hl r ltac:(by left)). unfold size in *. lia.
Qed.

(** One call, explained. *)
Lemma rows_step_spec fmt c rows done o h0 h :
  holds fmt rows done o -> call_ok c -> h `suffix_of` h0 ->
  let '(r, rows', h') := rows_step c rows h in
  h' `suffix_of` h0 /\ exists o', explains fmt h0 done o c r o' /\ holds fmt rows' (accept done (c, r)) o'.
Proof.
  intros Hh Hc Hs0. destruct c as [cells|]; cbn [rows_step].
  2: { split; [done|]. exists false. split; [constructor|]. by eapply reset_holds. }
  destruct o.
  { rewrite put_row_open by apply Hh. split; [done|]. exists true. split; [constructor|done]. }
  pose proof Hh as [Hb Hf Ho Hl Hn Hw Hn0 Hpos (p & Hd & Hp)]. rewrite (Hp eq_refl), app_nil_r in Hd.
  pose proof (fits_width _ _ _ _ cells Hh ltac:(apply Hc)) as Hfit.
  pose proof (put_row_spec cells rows h Ho Hb ltac:(apply Hc)) as H. destruct (put_row _ _ _) as [[r rows'] h'].
  destruct H as (Hb' & Hs & H). rewrite Hf in H. split; [by etransitivity|]. destruct r as [[]|e]; cbn [row_outcome] in H; rewrite Hd in H.
  - destruct H as (b & -> & Hd' & Hw'). rewrite Hf in *. apply Hfit in Hw' as Hfits.
    exists false. split; [by constructor|]. cbn [accept].
    assert ((done ++ [cells]) ≫= row_text fmt = (done ≫= row_text fmt) ++ row_text fmt cells) as E.
    { by rewrite bind_app, bind_cons, app_nil_r. }
    split; cbn; try done.
    + by rewrite E, Hd'.
    + rewrite Hn, u64_add_l. f_equal. unfold size. rewrite length_app. simpl. lia.
    + apply Forall_app. split; [|by apply Forall_singleton]. eapply Forall_impl; [exact Hfits|]. cbn. intros r Hr. unfold size. by rewrite Hr.
    + by destruct done.
    + apply Forall_app. split; [done|]. apply Forall_singleton. apply Hc.
    + exists []. by rewrite app_nil_r, E, Hd'.
  - destruct H as [(Ho' & Hf' & Hr' & Hc' & Hw' & q & Hq) He]. exists true. split.
    + destruct He as [[[-> Hin]|[-> Hbig]]|(-> & Hz & Hne)].
      * apply row_refused. left. split; [done|]. destruct Hs0 as [k ->]. apply in_or_app. by right.
      * apply row_refused. by right.
      * apply row_misfit. intros Hfits%Hfit. lia.
    + cbn [accept]. rewrite <- Hw' in Hw, Hn0. split; try congruence; try done. exists q. by rewrite Hq, Hd.
Qed.

Lemma rows_run_spec fmt calls rows done o h0 h :
  holds fmt rows done o -> Forall call_ok calls -> h `suffix_of` h0 ->
  let '(rs, rows', h') := rows_run calls rows h in
  exists o', explained fmt h0 done o calls rs o' /\ holds fmt rows' (foldl accept done (zip calls rs)) o'.
Proof.
  intros Hh Hc Hs. revert rows done o h Hh Hs. induction Hc as [|c calls Hc Hcs IH]; intros rows done o h Hh Hs.
  { exists o. split; [constructor|done]. }
  cbn [rows_run]. pose proof (rows_step_spec fmt c rows done o h0 h Hh Hc Hs) as H.
  destruct (rows_step _ _ _) as [[r rows1] h1]. destruct H as (Hs1 & o1 & He & Hh1).
  specialize (IH rows1 _ o1 h1 Hh1 Hs1). destruct (rows_run _ _ _) as [[rs rows2] h2]. destruct IH as (o2 & He2 & Hh2).
  exists o2. split; [by econstructor|done].
Qed.

Lemma holds_body fmt rows done o : holds fmt rows done o -> slice_bytes (idx_ch_rows_body rows) = done ≫= row_text fmt.
Proof.
  intros [Hb _ _ Hl _ _ _ _ (p & Hd & _)]. unfold idx_ch_rows_body. rewrite Hl.
  destruct (buf_capacity (buf rows) =? 0) eqn:E; zbool.
  - destruct Hb as [Hle _]. rewrite Hd in Hle. unfold size in *. rewrite length_app in Hle.
    assert (length (done ≫= row_text fmt) = 0%nat) as H0 by lia. apply nil_length_inv in H0. by rewrite H0.
  - rewrite Hd. unfold idx_slice_make, slice_bytes, size. cbn. by rewrite Nat2Z.id, take_app_length.
Qed.

End Rows.

(** ** Reading RowBinary

    The reader knows the types of the columns, as the server does. *)

Inductive scalar_type := TUInt (width : nat) | TSInt (width : nat) | TFloat | TStr | TFixed (len : nat).
Inductive cell_type := TPlain (t : scalar_type) | TNullable (t : scalar_type).

#[export] Instance scalar_type_eq_dec : EqDecision scalar_type.
Proof. solve_decision. Defined.
#[export] Instance cell_type_eq_dec : EqDecision cell_type.
Proof. solve_decision. Defined.

(** The next [n] bytes. *)
Definition read_bytes (n : nat) (l : bytes) : option (bytes * bytes) :=
  if (length l <? n)%nat then None else Some (take n l, drop n l).

(** [w] bytes of two's complement. *)
Definition signed_of (width : nat) (v : Z) : Z :=
  if v <? 2 ^ (8 * Z.of_nat width - 1) then v else v - 2 ^ (8 * Z.of_nat width).

(** A LEB128 number. *)
Fixpoint read_varint (l : bytes) : option (Z * bytes) :=
  match l with
  | [] => None
  | c :: l =>
      if c <? 128 then Some (c, l)
      else match read_varint l with Some (v, l) => Some (c - 128 + 128 * v, l) | None => None end
  end.

Definition read_scalar (t : scalar_type) (l : bytes) : option (scalar * bytes) :=
  match t with
  | TUInt width => '(b, l) ← read_bytes width l; Some (UInt width (le_val 256 b), l)
  | TSInt width => '(b, l) ← read_bytes width l; Some (SInt width (signed_of width (le_val 256 b)), l)
  | TFloat => '(b, l) ← read_bytes 8 l; Some (Float (double_of_bits (le_val 256 b)), l)
  | TStr => '(n, l) ← read_varint l; '(b, l) ← read_bytes (Z.to_nat n) l; Some (Str b, l)
  | TFixed n => '(b, l) ← read_bytes n l; Some (Fixed b, l)
  end.

Definition read_cell (t : cell_type) (l : bytes) : option (cell * bytes) :=
  match t, l with
  | TPlain t, _ => '(s, l) ← read_scalar t l; Some (Plain s, l)
  | TNullable _, [] => None
  | TNullable t, flag :: l =>
      if flag =? 1 then Some (Nullable None, l)
      else '(s, l) ← read_scalar t l; Some (Nullable (Some s), l)
  end.

Fixpoint read_row (types : list cell_type) (l : bytes) : option (list cell * bytes) :=
  match types with
  | [] => Some ([], l)
  | t :: types => '(c, l) ← read_cell t l; '(cs, l) ← read_row types l; Some (c :: cs, l)
  end.

(** Rows until the body ends; each takes a byte, so [fuel] is its length. *)
Fixpoint read_rows (fuel : nat) (types : list cell_type) (l : bytes) : option (list (list cell)) :=
  match fuel, l with
  | _, [] => Some []
  | O, _ => None
  | S fuel, _ => '(r, l) ← read_row types l; rs ← read_rows fuel types l; Some (r :: rs)
  end.

Definition read_body (types : list cell_type) (body : bytes) : option (list (list cell)) := read_rows (length body) types body.

(** A value is one of its type. *)
Definition scalar_of (t : scalar_type) (s : scalar) : Prop :=
  match t, s with
  | TUInt w, UInt w' v => w' = w /\ (w <= 8)%nat /\ 0 <= v < 2 ^ (8 * Z.of_nat w)
  | TSInt w, SInt w' v =>
      w' = w /\ (1 <= w <= 8)%nat /\ - 2 ^ (8 * Z.of_nat w - 1) <= v < 2 ^ (8 * Z.of_nat w - 1)
  | TFloat, Float d => valid_binary prec emax d = true
  | TStr, Str l => size l < 2 ^ 64
  | TFixed n, Fixed l => length l = n
  | _, _ => False
  end.

Definition cell_of (t : cell_type) (c : cell) : Prop :=
  match t, c with
  | TPlain t, Plain s => scalar_of t s
  | TNullable t, Nullable s => match s with Some s => scalar_of t s | None => True end
  | _, _ => False
  end.

Definition row_of (types : list cell_type) (r : row) : Prop := Forall2 cell_of types (map snd r).

(** A column that always takes a byte. *)
Definition takes_room (t : cell_type) : bool :=
  match t with
  | TNullable _ | TPlain TFloat | TPlain TStr => true
  | TPlain (TUInt n) | TPlain (TSInt n) | TPlain (TFixed n) => (0 <? n)%nat
  end.

Section RoundTrip.
Context (nan_bits : Z) (Hnan : is_nan_bits nan_bits).

Lemma read_bytes_app n a b : length a = n -> read_bytes n (a ++ b) = Some (a, b).
Proof.
  intros <-. unfold read_bytes. rewrite length_app, (proj2 (Nat.ltb_ge _ _)) by lia.
  by rewrite take_app_length, drop_app_length.
Qed.

Lemma pow_256 w : 2 ^ (8 * Z.of_nat w) = 256 ^ Z.of_nat w.
Proof. rewrite Z.pow_mul_r by lia. done. Qed.

Lemma read_le w v rest : read_bytes w (le_digits 256 w v ++ rest) = Some (le_digits 256 w v, rest).
Proof. apply read_bytes_app, length_le_digits. Qed.

(** What fits in the digits of any number. *)
Lemma le_val_mod n v : le_val 256 (le_digits 256 n v) = v mod 256 ^ Z.of_nat n.
Proof.
  revert v. induction n as [|n IH]; intros v; cbn [le_digits le_val]; [by rewrite Z.mod_1_r|].
  rewrite IH, Nat2Z.inj_succ, Z.pow_succ_r by lia. rewrite Z.rem_mul_r; [done|lia|].
  apply Z.pow_pos_nonneg; lia.
Qed.

Lemma varint_spec fuel v rest :
  0 <= v < 128 ^ Z.of_nat fuel -> read_varint (varint fuel v ++ rest) = match fuel with O => read_varint rest | _ => Some (v, rest) end.
Proof.
  revert v. induction fuel as [|fuel IH]; intros v Hv; [done|]. cbn [varint].
  rewrite Nat2Z.inj_succ, Z.pow_succ_r in Hv by lia.
  change 127 with (Z.ones 7). rewrite Z.land_ones, Z.shiftr_div_pow2 by lia. change (2 ^ 7) with 128.
  pose proof (Z.mod_pos_bound v 128 ltac:(lia)) as Hm. pose proof (Z.div_mod v 128 ltac:(lia)) as Hdm.
  destruct (v / 128 =? 0) eqn:E; zbool.
  - cbn [app read_varint]. rewrite (proj2 (Z.ltb_lt _ _)) by lia. do 2 f_equal. lia.
  - cbn [app read_varint]. assert (Z.lor (v mod 128) 128 = v mod 128 + 128) as ->.
    { change 128 with (Z.shiftl 1 7) at 2. rewrite lor_shiftl_add by (change (2 ^ 7) with 128; lia). done. }
    rewrite (proj2 (Z.ltb_ge _ 128)) by lia. destruct fuel as [|fuel]; [simpl in Hv; lia|].
    rewrite IH by (split; [apply Z.div_pos; lia|apply Z.div_lt_upper_bound; lia]). do 2 f_equal. lia.
Qed.

Lemma read_scalar_text t s rest :
  scalar_of t s -> read_scalar t (scalar_text nan_bits IDX_CH_FORMAT_ROW_BINARY s ++ rest) = Some (s, rest).
Proof.
  destruct t, s; cbn [scalar_of scalar_text read_scalar]; try done.
  - intros (-> & Hw & Hv). rewrite read_le. cbn [mbind option_bind]. rewrite le_val_mod. rewrite <- pow_256, Z.mod_small by done. done.
  - intros (-> & Hw & Hv). rewrite read_le. cbn [mbind option_bind]. rewrite le_val_mod. rewrite <- pow_256. do 3 f_equal. unfold u64, signed_of.
    set (k := 8 * Z.of_nat width) in *. assert (2 ^ k = 2 * 2 ^ (k - 1)) as Ek by (rewrite <- Z.pow_succ_r by lia; f_equal; lia).
    assert (0 < 2 ^ (k - 1)) as Hp by (apply Z.pow_pos_nonneg; lia).
    assert ((value mod 2 ^ 64) mod 2 ^ k = value mod 2 ^ k) as ->.
    { assert (2 ^ 64 = 2 ^ (64 - k) * 2 ^ k) as E64 by (rewrite <- Z.pow_add_r by lia; f_equal; lia).
      apply Z.mod_mod_divide. exists (2 ^ (64 - k)). exact E64. }
    destruct (Z.le_gt_cases 0 value).
    + rewrite Z.mod_small by lia. rewrite (proj2 (Z.ltb_lt _ _)) by lia. done.
    + assert (value mod 2 ^ k = value + 2 ^ k) as -> by (rewrite <- (Z_mod_plus_full value 1), Z.mul_1_l; apply Z.mod_small; lia).
      rewrite (proj2 (Z.ltb_ge _ _)) by lia. lia.
  - intros Hv. rewrite read_le. cbn [mbind option_bind]. rewrite le_val_mod. change (256 ^ Z.of_nat 8) with (2 ^ 64).
    rewrite Z.mod_small by by apply double_bits_range. by rewrite double_bits_inv.
  - intros Hl. rewrite <- app_assoc. assert (0 <= size data) by (unfold size; lia).
    rewrite varint_spec by (change (Z.of_nat 10) with 10; lia). cbn.
    rewrite read_bytes_app by (unfold size; lia). done.
  - intros <-. by rewrite read_bytes_app.
Qed.

Lemma read_cell_text t c rest :
  cell_of t c -> read_cell t (cell_text nan_bits IDX_CH_FORMAT_ROW_BINARY c ++ rest) = Some (c, rest).
Proof.
  destruct t as [t|t], c as [s|[s|]]; cbn [cell_of cell_text]; try done; intros Hs.
  - unfold read_cell. by rewrite read_scalar_text.
  - cbn [app read_cell]. change (0 =? 1) with false. cbn iota. by rewrite read_scalar_text.
Qed.

Lemma read_row_text types r first rest :
  row_of types r ->
  read_row types (columns_text nan_bits IDX_CH_FORMAT_ROW_BINARY first r ++ rest) = Some (map snd r, rest).
Proof.
  unfold row_of. revert first types. induction r as [|[name c] r IH]; intros first types H; inversion H as [|t ? types' ? Ht Hr]; subst; [done|].
  cbn [columns_text key_text app read_row map snd]. rewrite <- app_assoc, read_cell_text by done. cbn. by rewrite IH.
Qed.

Lemma cell_takes_room t c : takes_room t = true -> cell_of t c -> cell_text nan_bits IDX_CH_FORMAT_ROW_BINARY c <> [].
Proof.
  intros Ht Hc E. apply (f_equal length) in E. revert E.
  destruct t as [[]|], c as [[]|[]]; cbn [takes_room cell_of scalar_of cell_text scalar_text] in *; try done; rewrite ?length_le_digits, ?length_app;
    try (destruct Hc as (-> & _)); try (apply Nat.ltb_lt in Ht); cbn [length]; try lia.
  cbn [varint]. destruct (_ =? 0); cbn [length]; lia.
Qed.

Lemma row_takes_room types r :
  existsb takes_room types = true -> row_of types r -> (0 < length (row_text nan_bits IDX_CH_FORMAT_ROW_BINARY r))%nat.
Proof.
  unfold row_of, row_text. generalize true at 2 as first. intros first Ht H. revert first r Ht H. 
  induction types as [|t types IH]; intros first r Ht H; [done|].
  destruct r as [|[name c] r]; inversion H as [|? ? ? ? Hc Hr]; subst. cbn [columns_text key_text app]. rewrite length_app.
  cbn [existsb] in Ht. apply orb_true_iff in Ht as [Ht|Ht].
  - pose proof (cell_takes_room t c Ht Hc) as Hne. cbn [snd] in Hne. destruct (cell_text _ _ c); [done|simpl; lia].
  - specialize (IH false r Ht Hr). lia.
Qed.

Lemma read_rows_text types done fuel :
  existsb takes_room types = true -> Forall (row_of types) done ->
  (length (done ≫= row_text nan_bits IDX_CH_FORMAT_ROW_BINARY) <= fuel)%nat ->
  read_rows fuel types (done ≫= row_text nan_bits IDX_CH_FORMAT_ROW_BINARY) = Some (map (map snd) done).
Proof.
  intros Ht H. revert fuel. induction H as [|r done Hr Hd IH]; intros fuel Hf; [by destruct fuel|].
  rewrite bind_cons in *. rewrite length_app in Hf. pose proof (row_takes_room types r Ht Hr) as Hpos.
  destruct fuel as [|fuel]; [lia|]. cbn [read_rows].
  destruct (row_text nan_bits _ r ++ _) eqn:E; [apply app_nil in E as [E _]; rewrite E in Hpos; simpl in Hpos; lia|].
  rewrite <- E. unfold row_text at 1. rewrite read_row_text by done. cbn. rewrite IH by lia. done.
Qed.

End RoundTrip.

(** ** JSON strings *)

Lemma read_json_byte c l :
  is_byte c ->
  read_chars (json_byte c ++ l) = match read_chars l with Some (t, rest) => Some (c :: t, rest) | None => None end.
Proof.
  unfold is_byte. intros Hc. unfold json_byte.
  repeat match goal with
  | |- context [if c =? ?k then _ else _] => destruct (Z.eqb_spec c k); [subst; done|]
  end.
  destruct (c <? 32) eqn:H32; zbool.
  - cbn [app read_chars]. change (92 =? 34) with false. change (92 =? 92) with true. change (117 =? 117) with true. cbn iota.
    assert (unicode_escape 48 48 (upper_hex !!! Z.to_nat (c / 16)) (upper_hex !!! Z.to_nat (c mod 16)) = Some c) as ->; [|done].
    apply (decide_below 32 (fun c => unicode_escape 48 48 (upper_hex !!! Z.to_nat (c / 16)) (upper_hex !!! Z.to_nat (c mod 16)) = Some c));
      [by vm_compute|lia].
  - cbn [app read_chars]. rewrite !(proj2 (Z.eqb_neq c _)) by done. by rewrite (proj2 (Z.ltb_ge c 32)).
Qed.

(** Any bytes in a JSON string read back as they were, those from 0x80 up included. *)
Theorem ch_json_string_reads l rest : bytes_ok l -> read_string (json_text l ++ rest) = Some (l, rest).
Proof.
  intros Hl. unfold json_text, quoted, read_string. cbn [app]. change (34 =? 34) with true. cbn iota.
  rewrite <- app_assoc. cbn [app]. induction Hl as [|c l Hc Hl IH]; [done|].
  rewrite bind_cons, <- app_assoc, read_json_byte by done. by rewrite IH.
Qed.

(** No number or double is cut to fit its buffer. *)
Lemma dec_fits v : is_u64 v -> printed NUM_BUF (dec v) = dec v.
Proof.
  intros (_ & _ & _ & Hl)%dec_ok. unfold printed, NUM_BUF. apply take_ge. unfold size in Hl. lia.
Qed.

Lemma dec_signed_fits v : - 2 ^ 63 <= v < 2 ^ 63 -> printed NUM_BUF (dec_signed v) = dec_signed v.
Proof.
  intros Hv. unfold printed, NUM_BUF, dec_signed. apply take_ge. destruct (v <? 0) eqn:E; zbool.
  - destruct (dec_ok (- v)) as (_ & _ & _ & Hl); [unfold is_u64; lia|]. unfold size in Hl. simpl. lia.
  - destruct (dec_ok v) as (_ & _ & _ & Hl); [unfold is_u64; lia|]. unfold size in Hl. lia.
Qed.

Lemma double_fits nan_bits d :
  valid_binary prec emax d = true ->
  printed DBL_BUF (quoted (general_17 nan_bits d)) = quoted (general_17 nan_bits d) /\
  printed DBL_BUF (general_17 nan_bits d) = general_17 nan_bits d.
Proof.
  intros Hd%(general_17_size nan_bits). unfold printed, DBL_BUF, quoted, size in *.
  split; apply take_ge; rewrite ?length_app; change (length [34]) with 1%nat; lia.
Qed.

(** ** Properties *)

(** Through any run of writing rows and emptying the writer, under any pattern of
    allocation failures and in either format, the body is exactly the rows accepted
    since the last emptying, one after the other, and the counts are theirs: nothing
    of a row that failed is ever part of it.  A row is refused only when it is not as
    wide as the rows before it, when memory ran out, or when an earlier row failed and
    is still open, which blocks the writer until it is emptied. *)
Theorem ch_rows_history nan_bits fmt calls h :
  Forall call_ok calls ->
  let '(rs, rows, h') := rows_run nan_bits calls (idx_ch_rows_init fmt) h in
  let done := accepted calls rs in
  (exists o, explained nan_bits fmt h [] false calls rs o /\ in_row rows = o) /\
  slice_bytes (idx_ch_rows_body rows) = done ≫= row_text nan_bits fmt /\
  idx_ch_rows_size rows = size (done ≫= row_text nan_bits fmt) /\
  idx_ch_rows_count rows = u64 (size done).
Proof.
  intros Hc. pose proof (rows_run_spec nan_bits fmt calls _ _ _ h h (init_holds nan_bits fmt) Hc ltac:(done)) as H.
  destruct (rows_run _ _ _ _) as [[rs rows] h']. destruct H as (o & He & Hh).
  split; [exists o; split; [done|apply Hh]|]. split; [by eapply holds_body|]. split; apply Hh.
Qed.

(** C28. RowBinary round trip: after any run in which the rows are of one table, a reader
    that knows the types of its columns reads the body back as exactly the rows that
    were accepted: integers at their width and sign, every double including infinities
    and NaN, strings by their length, fixed strings, and nulls. *)
Theorem ch_row_binary_roundtrip nan_bits types calls h :
  is_nan_bits nan_bits -> existsb takes_room types = true -> Forall call_ok calls ->
  Forall (fun c => match c with PutRow cells => row_of types cells | ResetRows => True end) calls ->
  let '(rs, rows, h') := rows_run nan_bits calls (idx_ch_rows_init IDX_CH_FORMAT_ROW_BINARY) h in
  read_body types (slice_bytes (idx_ch_rows_body rows)) = Some (map (map snd) (accepted calls rs)).
Proof.
  intros Hn Ht Hc Hr.
  pose proof (rows_run_spec nan_bits _ calls _ _ _ h h (init_holds nan_bits IDX_CH_FORMAT_ROW_BINARY) Hc ltac:(done)) as H.
  destruct (rows_run _ _ _ _) as [[rs rows] h']. destruct H as (o & _ & Hh).
  rewrite (holds_body _ _ _ _ _ Hh). apply read_rows_text; [done..| |done].
  unfold accepted. clear Hh Hc. assert (Forall (row_of types) []) as Hd by done. revert rs Hd. generalize (@nil row).
  induction Hr as [|c calls Hc Hr IH]; intros kept rs Hd; [done|]. destruct rs as [|r rs]; [done|]. cbn [zip zip_with foldl].
  apply IH. destruct c as [cells|]; [destruct r|]; cbn [accept]; [|done|done]. apply Forall_app. by split; [|apply Forall_singleton].
Qed.

(** *** Witnesses *)

(** Two accepted rows around one whose second column finds no memory, and a reset. *)
Definition some_types : list cell_type := [TPlain (TUInt 8); TNullable TStr; TPlain TFloat].
Definition some_row (n : Z) (s : option bytes) : row :=
  [(lit "slot", Plain (UInt 8 n)); (lit "name", Nullable (Str <$> s)); (lit "price", Plain (Float (double_of_u64 3)))].
Definition some_calls : list rows_call :=
  [PutRow (some_row 7 None); PutRow (some_row 9 (Some (replicate 100 200))); PutRow (some_row 10 None); ResetRows;
   PutRow (some_row 11 (Some [34; 10]))].

Lemma ch_rows_history_witness :
  let '(rs, rows, h') := rows_run (2047 * 2 ^ 52 + 1) some_calls (idx_ch_rows_init IDX_CH_FORMAT_JSON_EACH_ROW) [true; false] in
  rs = [Ok tt; Err IDX_ERR_NO_MEMORY; Err IDX_ERR_INTERNAL; Ok tt; Ok tt] /\
  slice_bytes (idx_ch_rows_body rows) =
    [123; 34] ++ lit "slot" ++ [34; 58] ++ lit "11" ++ [44; 34] ++ lit "name" ++ [34; 58; 34; 92; 34; 92; 110; 34; 44; 34] ++ lit "price" ++
    [34; 58] ++ lit "3" ++ [125; 10].
Proof.
  pose proof (ch_rows_history (2047 * 2 ^ 52 + 1) IDX_CH_FORMAT_JSON_EACH_ROW some_calls [true; false] ltac:(decide_now)) as H.
  destruct (rows_run _ _ _ _) as [[rs rows] h'] eqn:E. destruct H as (_ & Hb & _).
  assert (rs = [Ok tt; Err IDX_ERR_NO_MEMORY; Err IDX_ERR_INTERNAL; Ok tt; Ok tt]) as ->.
  { apply (f_equal (fun r => r.1.1)) in E. cbn [fst] in E. rewrite <- E. by vm_compute. }
  split; [done|]. rewrite Hb. by vm_compute.
Defined.

Lemma some_rows_typed : Forall (fun c => match c with PutRow cells => row_of some_types cells | ResetRows => True end) some_calls.
Proof.
  unfold some_calls, some_row, some_types, row_of. cbn [map snd fmap option_fmap option_map].
  repeat (apply Forall_cons; split); try apply Forall_nil_2; try done; repeat (apply Forall2_cons; split); cbn; try done; try lia; by apply Forall2_nil.
Qed.

Lemma ch_row_binary_roundtrip_witness :
  let '(rs, rows, h') := rows_run (2047 * 2 ^ 52 + 1) some_calls (idx_ch_rows_init IDX_CH_FORMAT_ROW_BINARY) [true; false] in
  read_body some_types (slice_bytes (idx_ch_rows_body rows)) = Some [map snd (some_row 11 (Some [34; 10]))].
Proof.
  pose proof (ch_row_binary_roundtrip (2047 * 2 ^ 52 + 1) some_types some_calls [true; false] ltac:(decide_now) eq_refl
    ltac:(decide_now) some_rows_typed) as H.
  destruct (rows_run _ _ _ _) as [[rs rows] h'] eqn:E. rewrite H. do 2 f_equal.
  apply (f_equal (fun r => r.1.1)) in E. cbn [fst] in E. rewrite <- E. by vm_compute.
Defined.
