(* ===== verification/ChSchema.v ===== *)
(** * ch_store.c: the tables

    The statements that create the finalized tier's tables, as the source has them, and
    what they say: the columns of a table with their types, in order, the key its rows
    are sorted and replaced by, and the column whose greatest value is kept.  RowBinary
    carries no names, so the columns a row is written in have to be these. *)

From S2P Require Import Prelude ChRows.
#[local] Open Scope Z_scope.

(** src/src/ch_store.c:28-41 [table_id] *)
Inductive table_id :=
  | TBL_BLOCKS | TBL_SOL_BALANCES | TBL_TOKEN_BALANCES | TBL_SOL_TRANSFERS | TBL_TOKEN_TRANSFERS | TBL_SWAPS
  | TBL_POOLS | TBL_TOKENS | TBL_BARS_1S | TBL_BARS_1M | TBL_BARS_1D.

#[export] Instance table_id_eq_dec : EqDecision table_id.
Proof. solve_decision. Defined.

Definition tables : list table_id :=
  [TBL_BLOCKS; TBL_SOL_BALANCES; TBL_TOKEN_BALANCES; TBL_SOL_TRANSFERS; TBL_TOKEN_TRANSFERS; TBL_SWAPS;
   TBL_POOLS; TBL_TOKENS; TBL_BARS_1S; TBL_BARS_1M; TBL_BARS_1D].

(** src/src/ch_store.c:43-46 [g_table_names] *)
Definition g_table_names (t : table_id) : bytes :=
  match t with
  | TBL_BLOCKS => lit "blocks" | TBL_SOL_BALANCES => lit "sol_balances" | TBL_TOKEN_BALANCES => lit "token_balances"
  | TBL_SOL_TRANSFERS => lit "sol_transfers" | TBL_TOKEN_TRANSFERS => lit "token_transfers" | TBL_SWAPS => lit "swaps"
  | TBL_POOLS => lit "pools" | TBL_TOKENS => lit "tokens" | TBL_BARS_1S => lit "bars_1s" | TBL_BARS_1M => lit "bars_1m"
  | TBL_BARS_1D => lit "bars_1d"
  end.

(** ** The statements *)

(** src/src/ch_store.c:75-85 [g_schema] *)
Definition create_blocks : bytes := concat (map lit
  ["CREATE TABLE IF NOT EXISTS blocks (";
   "slot UInt64 CODEC(Delta, ZSTD(1)),";
   "blockhash FixedString(32) CODEC(ZSTD(1)),";
   "previous_blockhash FixedString(32) CODEC(ZSTD(1)),";
   "parent_slot UInt64 CODEC(Delta, ZSTD(1)),";
   "block_time Nullable(Int64),";
   "block_height Nullable(UInt64),";
   "transaction_count UInt32";
   ") ENGINE = ReplacingMergeTree(slot)";
   " PARTITION BY intDiv(slot, 10000000)";
   " ORDER BY slot"]%string).

(** src/src/ch_store.c:89-97 [g_schema] *)
Definition create_sol_balances : bytes := concat (map lit
  ["CREATE TABLE IF NOT EXISTS sol_balances (";
   "account FixedString(32) CODEC(ZSTD(1)),";
   "slot UInt64 CODEC(Delta, ZSTD(1)),";
   "lamports UInt64,";
   "delta Int64,";
   "transaction_index UInt16,";
   "signature FixedString(64) CODEC(ZSTD(1))";
   ") ENGINE = ReplacingMergeTree(slot)";
   " ORDER BY account"]%string).

(** src/src/ch_store.c:99-111 [g_schema] *)
Definition create_token_balances : bytes := concat (map lit
  ["CREATE TABLE IF NOT EXISTS token_balances (";
   "account FixedString(32) CODEC(ZSTD(1)),";
   "slot UInt64 CODEC(Delta, ZSTD(1)),";
   "mint FixedString(32) CODEC(ZSTD(1)),";
   "owner Nullable(FixedString(32)),";
   "amount UInt64,";
   "previous UInt64,";
   "decimals UInt8,";
   "closed UInt8,";
   "transaction_index UInt16,";
   "signature FixedString(64) CODEC(ZSTD(1))";
   ") ENGINE = ReplacingMergeTree(slot)";
   " ORDER BY account"]%string).

(** src/src/ch_store.c:113-125 [g_schema] *)
Definition create_sol_transfers : bytes := concat (map lit
  ["CREATE TABLE IF NOT EXISTS sol_transfers (";
   "slot UInt64 CODEC(Delta, ZSTD(1)),";
   "transaction_index UInt16,";
   "instruction_index UInt16,";
   "inner_index UInt16,";
   "signature FixedString(64) CODEC(ZSTD(1)),";
   "source FixedString(32) CODEC(ZSTD(1)),";
   "destination FixedString(32) CODEC(ZSTD(1)),";
   "authority Nullable(FixedString(32)),";
   "amount UInt64";
   ") ENGINE = ReplacingMergeTree(slot)";
   " PARTITION BY intDiv(slot, 10000000)";
   " ORDER BY (slot, transaction_index, instruction_index, inner_index)"]%string).

(** src/src/ch_store.c:127-145 [g_schema] *)
Definition create_token_transfers : bytes := concat (map lit
  ["CREATE TABLE IF NOT EXISTS token_transfers (";
   "slot UInt64 CODEC(Delta, ZSTD(1)),";
   "transaction_index UInt16,";
   "instruction_index UInt16,";
   "inner_index UInt16,";
   "signature FixedString(64) CODEC(ZSTD(1)),";
   "kind UInt8,";
   "source FixedString(32) CODEC(ZSTD(1)),";
   "destination FixedString(32) CODEC(ZSTD(1)),";
   "authority Nullable(FixedString(32)),";
   "mint Nullable(FixedString(32)),";
   "source_owner Nullable(FixedString(32)),";
   "destination_owner Nullable(FixedString(32)),";
   "amount UInt64,";
   "fee UInt64,";
   "decimals Nullable(UInt8)";
   ") ENGINE = ReplacingMergeTree(slot)";
   " PARTITION BY intDiv(slot, 10000000)";
   " ORDER BY (slot, transaction_index, instruction_index, inner_index)"]%string).

(** src/src/ch_store.c:149-171 [g_schema] *)
Definition create_swaps : bytes := concat (map lit
  ["CREATE TABLE IF NOT EXISTS swaps (";
   "slot UInt64 CODEC(Delta, ZSTD(1)),";
   "transaction_index UInt16,";
   "instruction_index UInt16,";
   "inner_index UInt16,";
   "signature FixedString(64) CODEC(ZSTD(1)),";
   "kind UInt8,";
   "venue UInt8,";
   "amount_source UInt8,";
   "pool Nullable(FixedString(32)),";
   "trader Nullable(FixedString(32)),";
   "input_mint Nullable(FixedString(32)),";
   "input_amount Nullable(UInt64),";
   "input_decimals Nullable(UInt8),";
   "output_mint Nullable(FixedString(32)),";
   "output_amount Nullable(UInt64),";
   "output_decimals Nullable(UInt8),";
   "price Nullable(Float64),";
   "quote Nullable(UInt8),";
   "block_time Nullable(Int64)";
   ") ENGINE = ReplacingMergeTree(slot)";
   " PARTITION BY intDiv(slot, 10000000)";
   " ORDER BY (slot, transaction_index, instruction_index, inner_index)"]%string).

(** src/src/ch_store.c:176-189 [g_schema] *)
Definition create_pools : bytes := concat (map lit
  ["CREATE TABLE IF NOT EXISTS pools (";
   "address FixedString(32) CODEC(ZSTD(1)),";
   "venue UInt8,";
   "mint_a Nullable(FixedString(32)),";
   "decimals_a Nullable(UInt8),";
   "mint_b Nullable(FixedString(32)),";
   "decimals_b Nullable(UInt8),";
   "first_seen_slot UInt64,";
   "swap_count UInt64,";
   "creation_slot Nullable(UInt64),";
   "creator Nullable(FixedString(32)),";
   "version UInt64";
   ") ENGINE = ReplacingMergeTree(version)";
   " ORDER BY address"]%string).

(** src/src/ch_store.c:191-200 [g_schema] *)
Definition create_tokens : bytes := concat (map lit
  ["CREATE TABLE IF NOT EXISTS tokens (";
   "mint FixedString(32) CODEC(ZSTD(1)),";
   "decimals Nullable(UInt8),";
   "name Nullable(String),";
   "symbol Nullable(String),";
   "uri Nullable(String),";
   "first_seen_slot UInt64,";
   "version UInt64";
   ") ENGINE = ReplacingMergeTree(version)";
   " ORDER BY mint"]%string).

(** src/src/ch_store.c:213-230 [BARS_TABLE] *)
Definition BARS_TABLE (name : bytes) : bytes :=
  lit "CREATE TABLE IF NOT EXISTS " ++ name ++ concat (map lit
  [" (";
   "pool FixedString(32) CODEC(ZSTD(1)),";
   "bucket Int64 CODEC(Delta, ZSTD(1)),";
   "quote UInt8,";
   "open Float64,";
   "high Float64,";
   "low Float64,";
   "close Float64,";
   "base_volume Float64,";
   "quote_volume Float64,";
   "swap_count UInt32,";
   "open_seq_key FixedString(15),";
   "close_seq_key FixedString(15),";
   "close_seq_slot UInt64 CODEC(Delta, ZSTD(1))";
   ") ENGINE = ReplacingMergeTree(swap_count)";
   " PARTITION BY toYYYYMM(toDateTime(greatest(bucket, 0)))";
   " ORDER BY (pool, bucket)"]%string).

(** src/src/ch_store.c:232-237 [g_schema]: the statements, in the order of the tables. *)
Definition g_schema : list bytes :=
  [create_blocks; create_sol_balances; create_token_balances; create_sol_transfers; create_token_transfers; create_swaps;
   create_pools; create_tokens; BARS_TABLE (lit "bars_1s"); BARS_TABLE (lit "bars_1m"); BARS_TABLE (lit "bars_1d")].

(** src/src/ch_store.c:239-239 [idx_ch_finalized_schema] *)
Definition idx_ch_finalized_schema : list bytes := g_schema.

(** ** What the statements say *)

(** The text up to the first character [p] holds of, outside parentheses. *)
Fixpoint upto (depth : nat) (p : Z -> bool) (l : bytes) : bytes :=
  match l with
  | [] => []
  | c :: l =>
      if (depth =? 0)%nat && p c then []
      else c :: upto (if c =? 40 then S depth else if c =? 41 then pred depth else depth) p l
  end.

(** The pieces between the commas outside parentheses. *)
Fixpoint pieces (fuel : nat) (l : bytes) : list bytes :=
  match fuel with
  | O => []
  | S fuel =>
      let piece := upto 0 (fun c => c =? 44) l in
      piece :: match drop (length piece) l with _ :: l => pieces fuel l | [] => [] end
  end.

(** What follows the first occurrence of [w]. *)
Fixpoint after (w l : bytes) : bytes :=
  match l with
  | [] => []
  | c :: l' => if bool_decide (take (length w) l = w) then drop (length w) l else after w l'
  end.

Definition word (l : bytes) : bytes := upto 0 (fun c => c =? 32) l.

(** The types, by the names ClickHouse has for them. *)
Definition scalar_types : list (bytes * scalar_type) :=
  [(lit "UInt8", TUInt 1); (lit "UInt16", TUInt 2); (lit "UInt32", TUInt 4); (lit "UInt64", TUInt 8);
   (lit "Int64", TSInt 8); (lit "Float64", TFloat); (lit "String", TStr);
   (lit "FixedString(15)", TFixed 15); (lit "FixedString(32)", TFixed 32); (lit "FixedString(64)", TFixed 64)].

Definition scalar_named (name : bytes) : option scalar_type :=
  snd <$> List.find (fun t => bool_decide (t.1 = name)) scalar_types.

Definition type_named (name : bytes) : option cell_type :=
  let nullable := lit "Nullable(" in
  if bool_decide (take (length nullable) name = nullable) then
    TNullable <$> scalar_named (upto 0 (fun c => c =? 41) (drop (length nullable) name))
  else TPlain <$> scalar_named name.

(** A column's declaration: its name, its type, and what does not matter here. *)
Definition column_decl (l : bytes) : option (bytes * cell_type) :=
  let name := word l in
  (fun t => (name, t)) <$> type_named (word (drop (S (length name)) l)).

(** The columns between the table's parentheses. *)
Definition columns_of (sql : bytes) : option (list (bytes * cell_type)) :=
  let body := upto 0 (fun c => c =? 41) (after (lit "(") sql) in
  mapM column_decl (pieces (length body) body).

(** The name a statement creates, the columns it sorts by, and its version column. *)
Definition created_table (sql : bytes) : bytes := word (after (lit "CREATE TABLE IF NOT EXISTS ") sql).

Definition sort_key (sql : bytes) : list bytes :=
  match after (lit " ORDER BY ") sql with
  | 40 :: l => let l := upto 0 (fun c => c =? 41) l in
      (fun piece => match piece with 32 :: piece => piece | piece => piece end) <$> pieces (length l) l
  | l => [l]
  end.

Definition version_column (sql : bytes) : bytes :=
  upto 0 (fun c => c =? 41) (after (lit "ReplacingMergeTree(") sql).

(** The statement of a table. *)
Definition schema_of (t : table_id) : bytes :=
  nth (match t with
       | TBL_BLOCKS => 0 | TBL_SOL_BALANCES => 1 | TBL_TOKEN_BALANCES => 2 | TBL_SOL_TRANSFERS => 3 | TBL_TOKEN_TRANSFERS => 4
       | TBL_SWAPS => 5 | TBL_POOLS => 6 | TBL_TOKENS => 7 | TBL_BARS_1S => 8 | TBL_BARS_1M => 9 | TBL_BARS_1D => 10
       end)%nat g_schema [].

Definition table_columns (t : table_id) : list (bytes * cell_type) := default [] (columns_of (schema_of t)).

(** Every statement is read, and creates the table of its place. *)
Lemma schema_reads : Forall (fun t => is_Some (columns_of (schema_of t)) /\ created_table (schema_of t) = g_table_names t) tables.
Proof. repeat (apply Forall_cons; split; [split; [by vm_compute; eexists|by vm_compute]|]). by apply Forall_nil_2. Qed.

(** The key and the version of every table are among its columns. *)
Lemma schema_keys :
  Forall (fun t => Forall (fun c => c ∈ map fst (table_columns t)) (version_column (schema_of t) :: sort_key (schema_of t))) tables.
Proof. decide_now. Qed.
