(* ===== verification/Ch.v ===== *)
(** * ch.c: ClickHouse over HTTP

    The connection the finalized tier writes through: the URL of a request, the body,
    and what the outcome of a transfer is called.  libcurl is the world outside: an
    [exchange] is what one transfer delivers, [curl_easy_escape] a function; both are
    arguments.  [snprintf] into the middle of a buffer is modelled with its bounds: a
    call that would write past the buffer has no value ([None]).  The texts of errors are
    not modelled. *)

From S2P Require Import Prelude Bytes.
#[local] Open Scope Z_scope.

(** src/include/ch.h:41-54 [idx_ch_options] *)
Record idx_ch_options := ChOptions {
  opt_url : option bytes;
  opt_database : option bytes;
  opt_user : option bytes;
  opt_password : option bytes;
  opt_timeout_ms : Z;
  opt_connect_timeout_ms : Z
}.

(** src/src/ch.c:13-17 [ch_buf]: the bytes, and the room for them with their NUL; the
    pointer is null while the room is 0. *)
Record ch_buf := ChBuf { cb_data : bytes; cb_cap : Z }.

(** src/src/ch.c:19-28 [idx_ch_conn]: without libcurl's handle; the list of headers. *)
Record idx_ch_conn := ChConn {
  headers : list bytes;
  base_url : bytes;
  database : option bytes;
  response : ch_buf;
  exception_code : Z;
  timeout_ms : Z;
  connect_timeout_ms : Z
}.

(** One transfer: libcurl's code, the header lines, the pieces of the body and the HTTP
    status. *)
Record exchange := Exchange { ex_code : Z; ex_headers : list bytes; ex_chunks : list bytes; ex_http : Z }.

(** A request as libcurl is told: a [POST] of a body, or a [GET]. *)
Record request := Request { rq_url : bytes; rq_body : option bytes }.

(** The transfers to come, the allocator, and a log, which the code does not read, of
    the requests and what their outcome was called. *)
Record world := World { net : list exchange; mem : heap; asked : list (request * result unit) }.

(** A function of a connection. *)
Definition call (A : Type) : Type := idx_ch_conn * world -> result A * (idx_ch_conn * world).

#[export] Instance call_bind : MBind call := fun A B f c st =>
  match c st with
  | (Ok a, st) => f a st
  | (Err s, st) => (Err s, st)
  end.

Definition fail {A} (s : idx_status) : call A := fun st => (IDX_FAIL s, st).

Definition CURLE_OK : Z := 0.
Definition CURLE_WRITE_ERROR : Z := 23.
Definition CURLE_OPERATION_TIMEDOUT : Z := 28.

(** ** Opening *)

(** src/src/ch.c:77-87 [idx_ch_options_init] *)
Definition idx_ch_options_init : idx_ch_options := ChOptions None None None None 30000 5000.

(** src/src/ch.c:90-101 [dup_base_url]: [s] is what precedes the NUL. *)
Definition dup_base_url (s : bytes) (h : heap) : option bytes * heap :=
  let n := length s in
  let n := if (0 <? n)%nat && (nth (n - 1) s 0 =? 47) then (n - 1)%nat else n in
  let '(ok, h) := malloc h in
  (if ok then Some (take n s) else None, h).

(** [strdup] *)
Definition strdup (s : bytes) (h : heap) : option bytes * heap :=
  let '(ok, h) := malloc h in (if ok then Some s else None, h).

(** [curl_slist_append]: null when it fails, whatever the list was. *)
Definition curl_slist_append (l : list bytes) (header : bytes) (h : heap) : list bytes * heap :=
  let '(ok, h) := malloc h in (if ok then l ++ [header] else [], h).

(** src/src/ch.c:103-152 [idx_ch_open]: [curl_works] is whether [curl_easy_init] gives a
    handle; the options libcurl is given are not modelled. *)
Definition idx_ch_open (options : option idx_ch_options) (curl_works : bool) (h : heap) : result idx_ch_conn * heap :=
  match options with
  | Some o =>
      match opt_url o with
      | Some url =>
          let '(ok, h) := calloc 1 1 h in
          if negb ok then (IDX_FAIL IDX_ERR_NO_MEMORY, h)
          else
            let '(base, h) := dup_base_url url h in
            let '(db, h) :=
              match opt_database o with
              | Some ((_ :: _) as name) => strdup name h
              | _ => (None, h)
              end in
            match base, curl_works with
            | Some base, true =>
                let '(l, h) := curl_slist_append []
                  (printed 512 (lit "X-ClickHouse-User: " ++ default (lit "default") (opt_user o))) h in
                let '(l, h) := curl_slist_append l
                  (printed 512 (lit "X-ClickHouse-Key: " ++ default [] (opt_password o))) h in
                (Ok (ChConn l base db (ChBuf [] 0) 0
                       (if 0 <? opt_timeout_ms o then opt_timeout_ms o else 30000)
                       (if 0 <? opt_connect_timeout_ms o then opt_connect_timeout_ms o else 5000)), h)
            | _, _ => (IDX_FAIL IDX_ERR_NO_MEMORY, h)
            end
      | None => (IDX_FAIL IDX_ERR_INVALID_ARG, h)
      end
  | None => (IDX_FAIL IDX_ERR_INVALID_ARG, h)
  end.

(** src/src/ch.c:170-172 [idx_ch_exception_code] *)
Definition idx_ch_exception_code (conn : option idx_ch_conn) : Z :=
  match conn with Some c => exception_code c | None => 0 end.

(** ** A transfer *)

(** src/src/ch.c:39-42 [buf_reserve]: the loop; 64 doublings reach every size up to 2^63,
    past which the code would not end. *)
Fixpoint want_loop (fuel : nat) (want needed : Z) : Z :=
  match fuel with
  | O => want
  | S fuel => if want <? needed then want_loop fuel (u64 (want * 2)) needed else want
  end.

(** src/src/ch.c:35-50 [buf_reserve] *)
Definition buf_reserve (b : ch_buf) (extra : Z) (h : heap) : bool * ch_buf * heap :=
  let needed := u64 (size (cb_data b) + extra + 1) in
  if needed <=? cb_cap b then (true, b, h)
  else
    let want := want_loop 64 (if cb_cap b =? 0 then 4096 else cb_cap b) needed in
    let '(ok, h) := malloc h in
    if ok then (true, ChBuf (cb_data b) want, h) else (false, b, h).

Definition with_response (c : idx_ch_conn) (b : ch_buf) : idx_ch_conn :=
  ChConn (headers c) (base_url c) (database c) b (exception_code c) (timeout_ms c) (connect_timeout_ms c).
Definition with_code (c : idx_ch_conn) (code : Z) : idx_ch_conn :=
  ChConn (headers c) (base_url c) (database c) (response c) code (timeout_ms c) (connect_timeout_ms c).
Definition with_mem (w : world) (h : heap) : world := World (net w) h (asked w).

(** src/src/ch.c:52-62 [on_data]: the number of bytes taken. *)
Definition on_data (chunk : bytes) (c : idx_ch_conn) (h : heap) : Z * idx_ch_conn * heap :=
  let '(ok, b, h) := buf_reserve (response c) (size chunk) h in
  if ok then (size chunk, with_response c (ChBuf (cb_data b ++ chunk) (cb_cap b)), h)
  else (0, with_response c b, h).

Definition lower (c : Z) : Z := if (65 <=? c) && (c <=? 90) then c + 32 else c.

(** [strtol(text, NULL, 10)], cast to an [int] *)
Fixpoint digits_value (l : bytes) (v : Z) : Z :=
  match l with
  | c :: l => if (48 <=? c) && (c <=? 57) then digits_value l (v * 10 + (c - 48)) else v
  | [] => v
  end.
Fixpoint skip_blanks (l : bytes) : bytes :=
  match l with
  | c :: l' => if (c =? 32) || ((9 <=? c) && (c <=? 13)) then skip_blanks l' else l
  | [] => []
  end.
Definition to_int (v : Z) : Z := let v := v mod 2 ^ 32 in if v <? 2 ^ 31 then v else v - 2 ^ 32.
Definition strtol_int (l : bytes) : Z :=
  to_int (match skip_blanks l with
          | 45 :: l => Z.max (- 2 ^ 63) (- digits_value l 0)
          | 43 :: l | l => Z.min (2 ^ 63 - 1) (digits_value l 0)
          end).

Definition exception_key : bytes := lit "X-ClickHouse-Exception-Code:".

(** src/src/ch.c:65-75 [on_header] *)
Definition on_header (c : idx_ch_conn) (line : bytes) : idx_ch_conn :=
  let klen := length exception_key in
  if (klen <? length line)%nat && bool_decide (map lower (take klen line) = map lower exception_key)
  then with_code c (strtol_int (drop klen line)) else c.

(** libcurl gives the pieces one by one and aborts when one is not taken whole. *)
Fixpoint deliver (chunks : list bytes) (c : idx_ch_conn) (h : heap) : bool * idx_ch_conn * heap :=
  match chunks with
  | [] => (true, c, h)
  | chunk :: chunks =>
      let '(taken, c, h) := on_data chunk c h in
      if taken =? size chunk then deliver chunks c h else (false, c, h)
  end.

(** The next transfer; out of answers, the server cannot be reached. *)
Definition next_exchange (w : world) : exchange := default (Exchange 7 [] [] 0) (hd_error (net w)).

(** [curl_easy_perform]: its code, with what the callbacks have done. *)
Definition curl_perform (c : idx_ch_conn) (w : world) : Z * Z * (idx_ch_conn * world) :=
  let ex := next_exchange w in
  let c := foldl on_header c (ex_headers ex) in
  let '(taken, c, h) := deliver (ex_chunks ex) c (mem w) in
  (if taken then ex_code ex else CURLE_WRITE_ERROR, ex_http ex, (c, World (tail (net w)) h (asked w))).

(** src/src/ch.c:192-226 [perform]: [body] is there for a [POST]. *)
Definition perform (url : bytes) (body : option bytes) : call unit := fun '(c, w) =>
  let c := with_code (with_response c (ChBuf [] (cb_cap (response c)))) 0 in
  let '(code, http, (c, w)) := curl_perform c w in
  let r :=
    if negb (code =? CURLE_OK) then IDX_FAIL (if code =? CURLE_OPERATION_TIMEDOUT then IDX_ERR_TIMEOUT else IDX_ERR_NETWORK)
    else if 400 <=? http then IDX_FAIL IDX_ERR_REMOTE
    else Ok tt in
  (r, (c, World (net w) (mem w) (asked w ++ [(Request url body, r)]))).

(** ** Requests *)

(** [snprintf(buffer + at, cap - at, "%s", text)] after what the buffer holds up to its
    NUL: out of the buffer's bounds when [at] is past its end, since [cap - at] wraps. *)
Definition print_at (cap : Z) (buffer : bytes) (at_ : Z) (text : bytes) : option bytes :=
  if at_ <? cap then Some (take (Z.to_nat at_) buffer ++ printed (cap - at_) text)
  else if at_ =? cap then Some buffer
  else None.

(** src/src/ch.c:228-243 [idx_ch_ping] *)
Definition idx_ch_ping (conn : option (idx_ch_conn * world)) : result unit * option (idx_ch_conn * world) :=
  match conn with
  | None => (IDX_FAIL IDX_ERR_INVALID_ARG, None)
  | Some (c, w) =>
      match perform (printed 512 (base_url c ++ lit "/ping")) None (c, w) with
      | (Err s, st) => (Err s, Some st)
      | (Ok _, st) =>
          let reply := cb_data (response st.1) in
          if (size reply <? 2) || negb (bool_decide (take 2 reply = lit "Ok")) then (IDX_FAIL IDX_ERR_NETWORK, Some st)
          else (Ok tt, Some st)
      end
  end.

(** src/src/ch.c:246-264 [take_result]: the response when it is wanted. *)
Definition take_result (wanted : bool) : call (option bytes) := fun '(c, w) =>
  if negb wanted then (Ok None, (c, w))
  else
    let '(ok1, h) := malloc (mem w) in
    let '(ok2, h) := malloc h in
    if negb ok1 || negb ok2 then (IDX_FAIL IDX_ERR_NO_MEMORY, (c, with_mem w h))
    else (Ok (Some (cb_data (response c))), (c, with_mem w h)).

Section Url.
Context (curl_easy_escape : bytes -> option bytes).

(** src/src/ch.c:269-284 [append_database]: the URL and the offset past it. *)
Definition append_database (c : idx_ch_conn) (url : bytes) (cap at_ : Z) (sep : Z) : option (bytes * Z) :=
  match database c with
  | None => Some (url, at_)
  | Some db =>
      match curl_easy_escape db with
      | None => Some (url, at_)
      | Some escaped =>
          let text := [sep] ++ lit "database=" ++ escaped in
          url ← print_at cap url at_ text;
          Some (url, if size text <? u64 (cap - at_) then at_ + size text else at_)
      end
  end.

(** src/src/ch.c:297-299 [idx_ch_query]: the URL. *)
Definition query_url (c : idx_ch_conn) : option bytes :=
  let text := base_url c ++ [47] in
  fst <$> append_database c (printed 1024 text) 1024 (size text) 63.

(** src/src/ch.c:303-322 [idx_ch_insert]: the URL. *)
Definition insert_url (c : idx_ch_conn) (escaped : bytes) : option bytes :=
  let text := base_url c ++ [47] in
  '(url, at_) ← append_database c (printed 4096 text) 4096 (size text) 63;
  let sep := match database c with Some _ => 38 | None => 63 end in
  print_at 4096 url at_ ([sep] ++ lit "query=" ++ escaped).

(** src/src/ch.c:286-301 [idx_ch_query]: no value when the URL is written out of
    bounds. *)
Definition idx_ch_query (conn : option (idx_ch_conn * world)) (sql : option bytes) (wanted : bool)
    : option (result (option bytes) * option (idx_ch_conn * world)) :=
  match conn, sql with
  | Some (c, w), Some sql =>
      url ← query_url c;
      let '(r, st) := (perform url (Some sql) ≫= fun _ => take_result wanted) (c, w) in
      Some (r, Some st)
  | _, _ => Some (IDX_FAIL IDX_ERR_INVALID_ARG, conn)
  end.

(** src/src/ch.c:303-322 [idx_ch_insert] *)
Definition idx_ch_insert (conn : option (idx_ch_conn * world)) (sql data : option bytes) (len : Z)
    : option (result unit * option (idx_ch_conn * world)) :=
  match conn, sql with
  | Some (c, w), Some sql =>
      if bool_decide (data = None) && negb (len =? 0) then Some (IDX_FAIL IDX_ERR_INVALID_ARG, conn)
      else
        match curl_easy_escape sql with
        | None => Some (IDX_FAIL IDX_ERR_NO_MEMORY, conn)
        | Some escaped =>
            url ← insert_url c escaped;
            let '(r, st) := perform url (Some (take (Z.to_nat len) (default [] data))) (c, w) in
            Some (r, Some st)
        end
  | _, _ => Some (IDX_FAIL IDX_ERR_INVALID_ARG, conn)
  end.

End Url.

(** src/src/ch.c:331-333 [idx_ch_result_body] *)
Definition idx_ch_result_body (res : option bytes) : option bytes := res.

(** src/src/ch.c:335-337 [idx_ch_result_len] *)
Definition idx_ch_result_len (res : option bytes) : Z := match res with Some l => size l | None => 0 end.

(** ** What a request is and what its outcome is called *)

(** What the server's answer means, were there memory for it. *)
Definition outcome (ex : exchange) : result unit :=
  if negb (ex_code ex =? CURLE_OK) then Err (if ex_code ex =? CURLE_OPERATION_TIMEDOUT then IDX_ERR_TIMEOUT else IDX_ERR_NETWORK)
  else if 400 <=? ex_http ex then Err IDX_ERR_REMOTE
  else Ok tt.

Definition announces (line : bytes) : bool :=
  let klen := length exception_key in
  (klen <? length line)%nat && bool_decide (map lower (take klen line) = map lower exception_key).

(** The exception code of the last header that has one. *)
Definition announced (lines : list bytes) : Z :=
  match last (filter announces lines) with Some line => strtol_int (drop (length exception_key) line) | None => 0 end.

(** The parts of a connection that never change. *)
Definition same_conn (c c' : idx_ch_conn) : Prop :=
  headers c' = headers c /\ base_url c' = base_url c /\ database c' = database c /\
  timeout_ms c' = timeout_ms c /\ connect_timeout_ms c' = connect_timeout_ms c.

(** What a request does: it takes the next answer; its status is what that answer means
    and the response its body, unless the allocator refused room for the body. *)
Definition asked_for (rq : request) (st : idx_ch_conn * world) (r : result unit) (st' : idx_ch_conn * world) : Prop :=
  let ex := next_exchange st.2 in
  same_conn st.1 st'.1 /\ net st'.2 = tail (net st.2) /\ asked st'.2 = asked st.2 ++ [(rq, r)] /\
  mem st'.2 `suffix_of` mem st.2 /\ exception_code st'.1 = announced (ex_headers ex) /\
  (r = outcome ex /\ cb_data (response st'.1) = concat (ex_chunks ex) \/ r = Err IDX_ERR_NETWORK /\ In false (mem st.2)).

Lemma headers_spec lines c :
  let c' := foldl on_header c lines in
  same_conn c c' /\ response c' = response c /\
  exception_code c' = match last (filter announces lines) with Some line => strtol_int (drop (length exception_key) line) | None => exception_code c end.
Proof.
  cbv zeta. induction lines as [|line lines IH] using rev_ind; [done|]. rewrite foldl_app, filter_app. cbn [foldl].
  destruct IH as (Hs & Hr & Hc).
  change (on_header ?c line) with (if announces line then with_code c (strtol_int (drop (length exception_key) line)) else c).
  rewrite filter_cons, filter_nil. destruct (announces line); cbn [Is_true].
  - rewrite decide_True by done. rewrite last_snoc. split; [exact Hs|]. split; [exact Hr|done].
  - rewrite decide_False by (intros []). rewrite app_nil_r. split; [exact Hs|]. split; [exact Hr|exact Hc].
Qed.

Lemma buf_reserve_spec b extra h :
  let '(ok, b', h') := buf_reserve b extra h in
  cb_data b' = cb_data b /\ h' `suffix_of` h /\ (ok = false -> In false h).
Proof.
  unfold buf_reserve. cbv zeta. destruct (_ <=? _); [done|]. destruct h as [|[] h]; cbn [malloc].
  - done.
  - split; [done|]. split; [by exists [true]|done].
  - split; [done|]. split; [by exists [false]|]. by left.
Qed.

Lemma chunks_delivered chunks c h :
  let '(taken, c', h') := deliver chunks c h in
  same_conn c c' /\ exception_code c' = exception_code c /\ h' `suffix_of` h /\
  if taken then cb_data (response c') = cb_data (response c) ++ concat chunks else In false h.
Proof.
  revert c h. induction chunks as [|chunk chunks IH]; intros c h; cbn [deliver].
  { split; [done|]. split; [done|]. split; [done|]. by rewrite app_nil_r. }
  unfold on_data. pose proof (buf_reserve_spec (response c) (size chunk) h) as H.
  destruct (buf_reserve _ _ _) as [[ok b] h1]. destruct H as (Hd & Hs & Hf). destruct ok.
  - rewrite Z.eqb_refl. specialize (IH (with_response c (ChBuf (cb_data b ++ chunk) (cb_cap b))) h1).
    destruct (deliver _ _ _) as [[taken c2] h2]. destruct IH as (Hc & He & Hs2 & Ht).
    split; [exact Hc|]. split; [exact He|]. split; [by etransitivity|]. destruct taken.
    + rewrite Ht. cbn [with_response response cb_data concat]. by rewrite Hd, app_assoc.
    + destruct Hs as [k ->]. apply in_or_app. by right.
  - destruct (Z.eqb_spec 0 (size chunk)) as [H0|H0].
    + specialize (IH (with_response c b) h1). destruct (deliver _ _ _) as [[taken c2] h2]. destruct IH as (Hc & He & Hs2 & Ht).
      split; [exact Hc|]. split; [exact He|]. split; [by etransitivity|]. destruct taken; [|by apply Hf].
      rewrite Ht. cbn [with_response response cb_data concat]. destruct chunk; [by rewrite Hd|]. unfold size in H0. simpl in H0. lia.
    + split; [done|]. split; [done|]. split; [done|]. by apply Hf.
Qed.

Lemma perform_asked url body st :
  let '(r, st') := perform url body st in asked_for (Request url body) st r st'.
Proof.
  destruct st as [c w]. unfold perform, curl_perform. cbv zeta. set (c0 := with_code _ 0).
  pose proof (headers_spec (ex_headers (next_exchange w)) c0) as Hh. cbv zeta in Hh. destruct Hh as (Hs & Hr & Hc).
  pose proof (chunks_delivered (ex_chunks (next_exchange w)) (foldl on_header c0 (ex_headers (next_exchange w))) (mem w)) as H.
  destruct (deliver _ _ _) as [[taken c2] h2]. destruct H as (Hs2 & He2 & Hm & Ht).
  unfold asked_for. cbn [fst snd net mem asked]. cbv zeta.
  split. { unfold same_conn in *. destruct Hs as (? & ? & ? & ? & ?), Hs2 as (? & ? & ? & ? & ?). subst c0. cbn in *. split_and!; congruence. }
  split; [done|]. split; [done|]. split; [done|]. split; [by rewrite He2, Hc|]. destruct taken.
  - left. split; [|by rewrite Ht, Hr]. unfold outcome. by destruct (ex_code _ =? CURLE_OK); destruct (ex_code _ =? _); destruct (400 <=? _).
  - right. by split.
Qed.

(** ** URLs *)

Lemma print_at_fits cap buffer at_ text :
  0 <= at_ -> at_ + size text < cap -> print_at cap buffer at_ text = Some (take (Z.to_nat at_) buffer ++ text).
Proof.
  intros H0 H1. assert (0 <= size text) by (unfold size; lia). unfold print_at, printed.
  rewrite (proj2 (Z.ltb_lt at_ cap)) by lia. rewrite (take_ge text) by (unfold size in *; lia). done.
Qed.

Section Requests.
Context (curl_easy_escape : bytes -> option bytes).

(** The database parameter, when one is configured and can be escaped. *)
Definition database_text (c : idx_ch_conn) : bytes :=
  match database c ≫= curl_easy_escape with Some escaped => [63] ++ lit "database=" ++ escaped | None => [] end.

(** What the URLs are meant to be. *)
Definition query_target (c : idx_ch_conn) : bytes := base_url c ++ [47] ++ database_text c.
Definition insert_target (c : idx_ch_conn) (escaped : bytes) : bytes :=
  query_target c ++ [match database c with Some _ => 38 | None => 63 end] ++ lit "query=" ++ escaped.

Lemma append_database_fits c cap :
  size (query_target c) < cap -> cap < 2 ^ 64 ->
  append_database curl_easy_escape c (printed cap (base_url c ++ [47])) cap (size (base_url c ++ [47])) 63 =
  Some (query_target c, size (query_target c)).
Proof.
  unfold query_target, append_database, database_text. intros Hsz Hcap.
  assert (printed cap (base_url c ++ [47]) = base_url c ++ [47]) as ->.
  { unfold printed. apply take_ge. unfold size in Hsz. rewrite !length_app in Hsz. rewrite length_app. lia. }
  revert Hsz. destruct (database c) as [db|]; cbn [mbind option_bind]; [|by rewrite app_nil_r].
  destruct (curl_easy_escape db) as [escaped|]; [intros Hsz|by rewrite app_nil_r].
  assert (size (base_url c ++ [47]) + size ([63] ++ lit "database=" ++ escaped) = size (base_url c ++ [47] ++ [63] ++ lit "database=" ++ escaped)) as Es
    by (unfold size; rewrite !length_app; lia).
  assert (0 <= size (base_url c ++ [47])) by (unfold size; lia).
  rewrite print_at_fits by (unfold size in *; lia). cbn [mbind option_bind].
  rewrite u64_small by (unfold is_u64, size in *; lia). rewrite (proj2 (Z.ltb_lt _ _)) by lia.
  unfold size at 1. rewrite Nat2Z.id, firstn_all, <- app_assoc. by rewrite Es.
Qed.

Lemma insert_url_fits c escaped : size (insert_target c escaped) < 4096 -> insert_url curl_easy_escape c escaped = Some (insert_target c escaped).
Proof.
  intros Hsz. unfold insert_url, insert_target in *. unfold size in Hsz. rewrite length_app in Hsz.
  rewrite append_database_fits by (unfold size; lia). cbn [mbind option_bind].
  rewrite print_at_fits by (unfold size; lia). unfold size. by rewrite Nat2Z.id, firstn_all.
Qed.

(** The request of an insert, and its outcome. *)
Lemma insert_requests c w sql escaped data :
  curl_easy_escape sql = Some escaped -> size (insert_target c escaped) < 4096 ->
  exists r st, idx_ch_insert curl_easy_escape (Some (c, w)) (Some sql) data (size (default [] data)) = Some (r, Some st) /\
    asked_for (Request (insert_target c escaped) (Some (default [] data))) (c, w) r st.
Proof.
  intros He Hsz. unfold idx_ch_insert. rewrite He, insert_url_fits by done.
  assert (bool_decide (data = None) && negb (size (default [] data) =? 0) = false) as -> by (by destruct data).
  cbn [mbind option_bind]. unfold size at 1. rewrite Nat2Z.id, firstn_all.
  pose proof (perform_asked (insert_target c escaped) (Some (default [] data)) (c, w)) as H.
  destruct (perform _ _ _) as [r st]. by exists r, st.
Qed.

(** An insert asks for exactly what it should: one POST whose URL is the endpoint, the
    configured database and the escaped statement, and whose body is the data byte for
    byte.  Its status is what the server's answer means: OK for an HTTP status below 400,
    REMOTE for one above, TIMEOUT when libcurl timed out, NETWORK for any other failure
    or when the answer found no memory; the exception code is that of the last header
    that carries one, and 0 otherwise. *)
Theorem ch_insert_exact c w sql escaped data :
  curl_easy_escape sql = Some escaped -> size (insert_target c escaped) < 4096 ->
  exists r st, idx_ch_insert curl_easy_escape (Some (c, w)) (Some sql) data (size (default [] data)) = Some (r, Some st) /\
    asked_for (Request (insert_target c escaped) (Some (default [] data))) (c, w) r st.
Proof. apply insert_requests. Qed.

(** A statement is sent as the body, and its answer is the whole response. *)
Theorem ch_query_exact c w sql wanted :
  size (query_target c) < 1024 ->
  exists r st, idx_ch_query curl_easy_escape (Some (c, w)) (Some sql) wanted = Some (r, Some st) /\
  let ex := next_exchange w in
  (exists r0, asked st.2 = asked w ++ [(Request (query_target c) (Some sql), r0)]) /\
  match r with
  | Ok answer => outcome ex = Ok tt /\ answer = if wanted then Some (concat (ex_chunks ex)) else None
  | Err e => outcome ex = Err e \/ (e = IDX_ERR_NETWORK \/ e = IDX_ERR_NO_MEMORY) /\ In false (mem w)
  end.
Proof.
  intros Hsz. unfold idx_ch_query, query_url. rewrite append_database_fits by done. cbn [fmap option_fmap option_map mbind option_bind fst].
  pose proof (perform_asked (query_target c) (Some sql) (c, w)) as H. unfold mbind, call_bind.
  destruct (perform _ _ _) as [[[]|e] [c1 w1]]; destruct H as (_ & _ & Ha & Hm & _ & Hr); cbn [fst snd] in *.
  - destruct Hr as [[Ho Hd]|[? _]]; [|done]. unfold take_result. destruct wanted; cbn [negb].
    + assert (forall h, In false h -> h `suffix_of` mem w1 -> In false (mem w)) as Hin.
      { intros h Hf [k Ek]. destruct Hm as [k' ->]. rewrite Ek. apply in_or_app. right. apply in_or_app. by right. }
      destruct (mem w1) as [|b1 [|b2 h]]; cbn [malloc].
      * eexists _, _. split; [done|]. split; [by eexists|]. by rewrite <- Ho, Hd.
      * destruct b1; cbn [negb orb]; eexists _, _; (split; [done|]); (split; [by eexists|]); [by rewrite <- Ho, Hd|].
        right. split; [by right|]. apply (Hin [false]); [by left|by exists []].
      * destruct b1, b2; cbn [negb orb]; eexists _, _; (split; [done|]); (split; [by eexists|]); [by rewrite <- Ho, Hd|..];
          right; (split; [by right|]).
        -- apply (Hin (true :: false :: h)); [right; by left|by exists []].
        -- apply (Hin (false :: true :: h)); [by left|by exists []].
        -- apply (Hin (false :: false :: h)); [by left|by exists []].
    + eexists _, _. split; [done|]. split; [by eexists|]. by rewrite <- Ho.
  - eexists _, _. split; [done|]. split; [by eexists|]. destruct Hr as [[Ho _]|[He Hin]]; [by left|].
    injection He as ->. right. split; [by left|done].
Qed.

(** An endpoint of 1024 characters or more makes a query write its database past the end
    of the URL. *)
Theorem ch_url_overflow c w db escaped sql wanted :
  database c = Some db -> curl_easy_escape db = Some escaped -> 1024 <= size (base_url c) ->
  idx_ch_query curl_easy_escape (Some (c, w)) (Some sql) wanted = None.
Proof.
  intros Hd He Hsz. unfold idx_ch_query, query_url, append_database. rewrite Hd, He. unfold print_at.
  assert (1024 < size (base_url c ++ [47])) by (unfold size in *; rewrite length_app; simpl; lia).
  rewrite (proj2 (Z.ltb_ge _ 1024)), (proj2 (Z.eqb_neq _ 1024)) by lia. done.
Qed.

End Requests.

(** When the copy of the database's name finds no memory the connection opens all the
    same, on the server's default database. *)
Theorem ch_open_drops_database :
  exists o h c h', opt_database o = Some (lit "solana") /\ idx_ch_open (Some o) true h = (Ok c, h') /\ database c = None.
Proof.
  exists (ChOptions (Some (lit "http://h")) (Some (lit "solana")) None None 0 0), [true; true; false].
  eexists _, _. split; [done|]. split; vm_compute; reflexivity.
Qed.

(** ** The interface the store writes through *)

Class ChOps (C : Type) := {
  ch_query : C -> bytes -> result unit * C;
  ch_insert : C -> bytes -> idx_slice -> result unit * C;
  ch_target : C -> bytes -> option bytes;
  ch_sent : C -> list (bytes * bytes * result unit)
}.

(** What the store relies on: an insert whose statement has a target sends the body
    there and answers with the outcome, and otherwise sends nothing and fails; different
    statements have different targets, which do not change.  [ch_ok] is that a statement
    of the store's length fits. *)
Class ChSpec (C : Type) `{ChOps C} (ch_ok : C -> Prop) := {
  ch_insert_spec : forall c sql body,
    ch_ok c -> size sql < 128 -> let '(r, c') := ch_insert c sql body in
    ch_ok c' /\ (forall s, ch_target c' s = ch_target c s) /\
    match ch_target c sql with
    | Some target => ch_sent c' = ch_sent c ++ [(target, slice_bytes body, r)]
    | None => ch_sent c' = ch_sent c /\ r <> Ok tt
    end;
  ch_target_inj : forall c s1 s2 u, ch_target c s1 = Some u -> ch_target c s2 = Some u -> s1 = s2
}.

Section Connection.
Context (curl_easy_escape : bytes -> option bytes).

(** The connection of this file; outside its bounds, which [conn_ok] keeps it in, a call
    has no value and nothing is said of it. *)
#[export] Instance conn_ops : ChOps (idx_ch_conn * world) := {|
  ch_query c sql :=
    match idx_ch_query curl_easy_escape (Some c) (Some sql) false with
    | Some (r, Some c) => (_ ← r; Ok tt, c)
    | _ => (Err IDX_ERR_INTERNAL, c)
    end;
  ch_insert c sql body :=
    match idx_ch_insert curl_easy_escape (Some c) (Some sql) body (slice_len body) with
    | Some (r, Some c) => (r, c)
    | _ => (Err IDX_ERR_INTERNAL, c)
    end;
  ch_target c sql := insert_target curl_easy_escape c.1 <$> curl_easy_escape sql;
  ch_sent c := (fun x => (rq_url x.1, default [] (rq_body x.1), x.2)) <$> asked c.2
|}.

(** The longest statement of the store, escaped, fits the URL's buffer. *)
Definition conn_ok (c : idx_ch_conn * world) : Prop := size (query_target curl_easy_escape c.1) + 512 < 4096.

(** libcurl percent-encodes: at most three characters for one, each text in its own way. *)
Context (escape_size : forall s e, curl_easy_escape s = Some e -> size e <= 3 * size s).
Context (escape_inj : forall s1 s2 e, curl_easy_escape s1 = Some e -> curl_easy_escape s2 = Some e -> s1 = s2).

Lemma same_target c c' s : same_conn c c' -> insert_target curl_easy_escape c' s = insert_target curl_easy_escape c s.
Proof.
  intros (_ & Hb & Hd & _). unfold insert_target, query_target, database_text. by rewrite Hb, Hd.
Qed.

#[export] Instance conn_spec : ChSpec (idx_ch_conn * world) conn_ok.
Proof.
  split.
  - intros [c w] sql body Hok Hsz. cbn [ch_insert conn_ops]. unfold conn_ok in *. cbn [fst] in *.
    change (slice_len body) with (size (default [] body)).
    destruct (curl_easy_escape sql) as [escaped|] eqn:He.
    + assert (size (insert_target curl_easy_escape c escaped) < 4096) as Hfit.
      { pose proof (escape_size _ _ He). unfold insert_target, size in *. rewrite !length_app.
        change (length (lit "query=")) with 6%nat. cbn [length]. lia. }
      destruct (insert_requests curl_easy_escape c w sql escaped body He Hfit) as (r & st & -> & Hs & _ & Ha & _).
      cbn [fst snd] in *. split; [|split].
      * destruct Hs as (_ & Hb & Hd & _). unfold query_target, database_text in *. by rewrite Hb, Hd.
      * intros s. cbn [ch_target conn_ops fst]. destruct (curl_easy_escape s) as [e|]; [|done]. cbn. f_equal. by apply same_target.
      * cbn [ch_target ch_sent conn_ops fst snd]. rewrite He, Ha, fmap_app. done.
    + unfold idx_ch_insert. cbn [ch_target conn_ops]. rewrite He. match goal with |- context [if ?b then _ else _] => destruct b end; split; try done; split; try done.
  - intros [c w] s1 s2 u H1 H2. cbn [ch_target conn_ops fst] in H1, H2. apply fmap_Some in H1 as (e1 & E1 & ->).
    apply fmap_Some in H2 as (e2 & E2 & Hu). unfold insert_target in Hu. simplify_list_eq. by eapply escape_inj.
Qed.

End Connection.

(** *** Witnesses *)

(** An escape that doubles the percent sign, and an insert the server refuses with an
    exception. *)
Definition percent (l : bytes) : option bytes := Some (l ≫= fun c => if c =? 37 then [37; 37] else [c]).
Definition a_conn : idx_ch_conn := ChConn [] (lit "http://h:8123") (Some (lit "solana")) (ChBuf [] 0) 0 30000 5000.
Definition a_refusal : exchange := Exchange 0 [lit "HTTP/1.1 500"; lit "x-clickhouse-exception-code: 252"] [lit "Code: 252."] 500.
Definition a_world : world := World [a_refusal] [] [].

Lemma ch_insert_exact_witness :
  exists r st, idx_ch_insert percent (Some (a_conn, a_world)) (Some (lit "INSERT")) (Some [1; 2]) 2 = Some (r, Some st) /\
    r = Err IDX_ERR_REMOTE /\ exception_code st.1 = 252 /\
    asked st.2 = [(Request (lit "http://h:8123/?database=solana&query=INSERT") (Some [1; 2]), r)].
Proof.
  destruct (ch_insert_exact percent a_conn a_world (lit "INSERT") (lit "INSERT") (Some [1; 2])) as (r & st & E & H).
  - by vm_compute.
  - by vm_compute.
  - exists r, st. split; [exact E|]. destruct H as (_ & _ & Ha & _ & Hc & Hr). cbn [snd] in *.
    assert (r = Err IDX_ERR_REMOTE) as -> by (destruct Hr as [[-> _]|[_ []]]; by vm_compute).
    split; [done|]. split; [rewrite Hc; by vm_compute|]. rewrite Ha. by vm_compute.
Defined.
