(* ===== verification/ChStore.v ===== *)
(** * ch_store.c: the finalized tier on ClickHouse

    One encoder for each kind of row, which appends it to the body of its table; an
    append fans a write set out over the tables, a flush sends each body as one insert
    and empties it.  The connection is [ChOps], of which [Ch] has one; the fields valid
    under a flag are options.  The tables and their columns are [ChSchema]'s. *)

From Stdlib Require Import SpecFloat.
From S2P Require Import Prelude Radix Bytes Decimal Types Arena Block Gaps Walk VenueRaydium Venue Balance Transfer VenueTypes Swap Token Pool.
From S2P Require Import Double DoubleText Price Bar Json Store ChRows ChSchema Ch.
#[local] Open Scope Z_scope.

(** ** Columns *)

Section Columns.

(** The bits a NaN has on this machine. *)
Context (nan_bits : Z).

(** src/src/ch_store.c:243-246 [col_key] *)
Definition col_key (name : bytes) (key : idx_pubkey) : op :=
  idx_ch_rows_fixed (Some name) (Some (pubkey_bytes key)) IDX_PUBKEY_LEN.

(** src/src/ch_store.c:248-253 [col_key_opt] *)
Definition col_key_opt (name : bytes) (key : option idx_pubkey) : op :=
  idx_ch_rows_nullable_fixed (Some name) ((fun k => (Some (pubkey_bytes k), IDX_PUBKEY_LEN)) <$> key).

(** src/src/ch_store.c:255-258 [col_hash] *)
Definition col_hash (name : bytes) (hash : idx_hash) : op :=
  idx_ch_rows_fixed (Some name) (Some (hash_bytes hash)) IDX_HASH_LEN.

(** src/src/ch_store.c:260-263 [col_sig] *)
Definition col_sig (name : bytes) (sig : idx_signature) : op :=
  idx_ch_rows_fixed (Some name) (Some (signature_bytes sig)) IDX_SIGNATURE_LEN.

(** src/src/ch_store.c:266-270 [col_text_opt] *)
Definition col_text_opt (name : bytes) (text : option bytes) : op :=
  idx_ch_rows_nullable_str (Some name) ((fun t => (Some t, Z.of_nat (strlen t))) <$> text).

(** src/src/ch_store.c:272-277 [col_seq_key] *)
Definition col_seq_key (name : bytes) (seq : idx_bar_seq) : op :=
  idx_ch_rows_fixed (Some name) (Some (idx_bar_seq_pack seq)) IDX_BAR_SEQ_KEY_LEN.

(** src/src/ch_store.c:281-291 [col_event_path] *)
Definition col_event_path (ref : idx_store_ref) (at_ : stamp) : op :=
  idx_ch_rows_u64 (Some (lit "slot")) (ref_slot ref) >>>
  idx_ch_rows_u16 (Some (lit "transaction_index")) (ref_transaction_index ref) >>>
  idx_ch_rows_u16 (Some (lit "instruction_index")) (instruction_index at_) >>>
  idx_ch_rows_u16 (Some (lit "inner_index")) (if inner at_ then inner_pos at_ else 0) >>>
  col_sig (lit "signature") (ref_signature ref).

(** The values of the enumerations. *)
Definition transfer_kind_value (k : idx_transfer_kind) : Z :=
  match k with IDX_TRANSFER_SOL => 0 | IDX_TRANSFER_TOKEN => 1 | IDX_TRANSFER_MINT => 2 | IDX_TRANSFER_BURN => 3 end.
Definition swap_kind_value (k : idx_swap_row_kind) : Z := match k with IDX_SWAP_POOL => 0 | IDX_SWAP_AGGREGATED => 1 end.
Definition venue_value (v : idx_venue) : Z :=
  match v with
  | IDX_VENUE_NONE => 0 | IDX_VENUE_PUMP_CURVE => 1 | IDX_VENUE_PUMP_AMM => 2 | IDX_VENUE_RAYDIUM_AMM_V4 => 3
  | IDX_VENUE_RAYDIUM_CLMM => 4 | IDX_VENUE_RAYDIUM_CPMM => 5 | IDX_VENUE_JUPITER => 6
  end.
Definition source_value (s : idx_amount_source) : Z :=
  match s with IDX_AMOUNT_NONE => 0 | IDX_AMOUNT_EVENT => 1 | IDX_AMOUNT_RAYLOG => 2 | IDX_AMOUNT_DELTA => 3 end.
Definition quote_value (q : idx_quote) : Z :=
  match q with
  | IDX_QUOTE_NONE => 0 | IDX_QUOTE_SOL => 1 | IDX_QUOTE_USDC => 2 | IDX_QUOTE_USDT => 3 | IDX_QUOTE_USD1 => 4 | IDX_QUOTE_OTHER => 5
  end.

(** ** Encoders *)

(** src/src/ch_store.c:295-308 [put_block] *)
Definition put_block (b : idx_store_block_row) : op :=
  idx_ch_rows_begin >>>
  idx_ch_rows_u64 (Some (lit "slot")) (sb_slot b) >>>
  col_hash (lit "blockhash") (sb_blockhash b) >>>
  col_hash (lit "previous_blockhash") (sb_previous_blockhash b) >>>
  idx_ch_rows_u64 (Some (lit "parent_slot")) (sb_parent_slot b) >>>
  idx_ch_rows_nullable_i64 (Some (lit "block_time")) (sb_block_time b) >>>
  idx_ch_rows_nullable_u64 (Some (lit "block_height")) (sb_block_height b) >>>
  idx_ch_rows_u32 (Some (lit "transaction_count")) (sb_transaction_count b) >>>
  idx_ch_rows_end.

(** src/src/ch_store.c:310-323 [put_sol_balance] *)
Definition put_sol_balance (r : idx_store_sol_balance_row) : op :=
  let b := ss_balance r in
  idx_ch_rows_begin >>>
  col_key (lit "account") (sol_account b) >>>
  idx_ch_rows_u64 (Some (lit "slot")) (ref_slot (ss_ref r)) >>>
  idx_ch_rows_u64 (Some (lit "lamports")) (lamports b) >>>
  idx_ch_rows_i64 (Some (lit "delta")) (delta b) >>>
  idx_ch_rows_u16 (Some (lit "transaction_index")) (ref_transaction_index (ss_ref r)) >>>
  col_sig (lit "signature") (ref_signature (ss_ref r)) >>>
  idx_ch_rows_end.

(** src/src/ch_store.c:325-342 [put_token_balance] *)
Definition put_token_balance (r : idx_store_token_balance_row) : op :=
  let b := st_balance r in
  idx_ch_rows_begin >>>
  col_key (lit "account") (ts_account b) >>>
  idx_ch_rows_u64 (Some (lit "slot")) (ref_slot (st_ref r)) >>>
  col_key (lit "mint") (ts_mint b) >>>
  col_key_opt (lit "owner") (ts_owner b) >>>
  idx_ch_rows_u64 (Some (lit "amount")) (ts_amount b) >>>
  idx_ch_rows_u64 (Some (lit "previous")) (ts_previous b) >>>
  idx_ch_rows_u8 (Some (lit "decimals")) (ts_decimals b) >>>
  idx_ch_rows_bool (Some (lit "closed")) (closed b) >>>
  idx_ch_rows_u16 (Some (lit "transaction_index")) (ref_transaction_index (st_ref r)) >>>
  col_sig (lit "signature") (ref_signature (st_ref r)) >>>
  idx_ch_rows_end.

(** src/src/ch_store.c:344-356 [put_sol_transfer] *)
Definition put_sol_transfer (r : idx_store_transfer_row) : op :=
  let t := stf_transfer r in
  idx_ch_rows_begin >>>
  col_event_path (stf_ref r) (tr_at t) >>>
  col_key (lit "source") (tr_source t) >>>
  col_key (lit "destination") (tr_destination t) >>>
  col_key_opt (lit "authority") (tr_authority t) >>>
  idx_ch_rows_u64 (Some (lit "amount")) (tr_amount t) >>>
  idx_ch_rows_end.

(** src/src/ch_store.c:358-379 [put_token_transfer] *)
Definition put_token_transfer (r : idx_store_transfer_row) : op :=
  let t := stf_transfer r in
  idx_ch_rows_begin >>>
  col_event_path (stf_ref r) (tr_at t) >>>
  idx_ch_rows_u8 (Some (lit "kind")) (transfer_kind_value (tr_kind t)) >>>
  col_key (lit "source") (tr_source t) >>>
  col_key (lit "destination") (tr_destination t) >>>
  col_key_opt (lit "authority") (tr_authority t) >>>
  col_key_opt (lit "mint") (tr_mint t) >>>
  col_key_opt (lit "source_owner") (tr_source_owner t) >>>
  col_key_opt (lit "destination_owner") (tr_destination_owner t) >>>
  idx_ch_rows_u64 (Some (lit "amount")) (tr_amount t) >>>
  idx_ch_rows_u64 (Some (lit "fee")) (tr_fee t) >>>
  idx_ch_rows_nullable_u8 (Some (lit "decimals")) (tr_decimals t) >>>
  idx_ch_rows_end.

(** src/src/ch_store.c:381-411 [put_swap] *)
Definition put_swap (r : idx_store_swap_row) : op :=
  let s := ssw_swap r in
  idx_ch_rows_begin >>>
  col_event_path (ssw_ref r) (sr_at s) >>>
  idx_ch_rows_u8 (Some (lit "kind")) (swap_kind_value (sr_kind s)) >>>
  idx_ch_rows_u8 (Some (lit "venue")) (venue_value (sr_venue s)) >>>
  idx_ch_rows_u8 (Some (lit "amount_source")) (source_value (sr_source s)) >>>
  col_key_opt (lit "pool") (sr_pool s) >>>
  col_key_opt (lit "trader") (sr_user s) >>>
  col_key_opt (lit "input_mint") (sr_input_mint s) >>>
  idx_ch_rows_nullable_u64 (Some (lit "input_amount")) (sr_input_amount s) >>>
  idx_ch_rows_nullable_u8 (Some (lit "input_decimals")) (sr_input_decimals s) >>>
  col_key_opt (lit "output_mint") (sr_output_mint s) >>>
  idx_ch_rows_nullable_u64 (Some (lit "output_amount")) (sr_output_amount s) >>>
  idx_ch_rows_nullable_u8 (Some (lit "output_decimals")) (sr_output_decimals s) >>>
  idx_ch_rows_nullable_f64 nan_bits (Some (lit "price")) (price (ssw_price r)) >>>
  idx_ch_rows_nullable_u8 (Some (lit "quote"))
    (if priced (ssw_price r) then Some (quote_value (pr_quote (ssw_price r))) else None) >>>
  idx_ch_rows_nullable_i64 (Some (lit "block_time")) (ssw_block_time r) >>>
  idx_ch_rows_end.

(** src/src/ch_store.c:413-431 [put_pool] *)
Definition put_pool (p : idx_pool) (version : Z) : op :=
  idx_ch_rows_begin >>>
  col_key (lit "address") (address p) >>>
  idx_ch_rows_u8 (Some (lit "venue")) (venue_value (pool_venue p)) >>>
  col_key_opt (lit "mint_a") (mint_a p) >>>
  idx_ch_rows_nullable_u8 (Some (lit "decimals_a")) (decimals_a p) >>>
  col_key_opt (lit "mint_b") (mint_b p) >>>
  idx_ch_rows_nullable_u8 (Some (lit "decimals_b")) (decimals_b p) >>>
  idx_ch_rows_u64 (Some (lit "first_seen_slot")) (Pool.first_seen_slot p) >>>
  idx_ch_rows_u64 (Some (lit "swap_count")) (swap_count p) >>>
  idx_ch_rows_nullable_u64 (Some (lit "creation_slot")) (creation_slot p) >>>
  col_key_opt (lit "creator") (creator p) >>>
  idx_ch_rows_u64 (Some (lit "version")) version >>>
  idx_ch_rows_end.

(** src/src/ch_store.c:433-445 [put_token] *)
Definition put_token (t : idx_token) (version : Z) : op :=
  idx_ch_rows_begin >>>
  col_key (lit "mint") (tk_mint t) >>>
  idx_ch_rows_nullable_u8 (Some (lit "decimals")) (tk_decimals t) >>>
  col_text_opt (lit "name") (tk_name t) >>>
  col_text_opt (lit "symbol") (tk_symbol t) >>>
  col_text_opt (lit "uri") (tk_uri t) >>>
  idx_ch_rows_u64 (Some (lit "first_seen_slot")) (Token.first_seen_slot t) >>>
  idx_ch_rows_u64 (Some (lit "version")) version >>>
  idx_ch_rows_end.

(** src/src/ch_store.c:447-463 [put_bar] *)
Definition put_bar (b : idx_bar) : op :=
  idx_ch_rows_begin >>>
  col_key (lit "pool") (bar_pool b) >>>
  idx_ch_rows_i64 (Some (lit "bucket")) (bar_bucket b) >>>
  idx_ch_rows_u8 (Some (lit "quote")) (quote_value (bar_quote b)) >>>
  idx_ch_rows_f64 nan_bits (Some (lit "open")) (open b) >>>
  idx_ch_rows_f64 nan_bits (Some (lit "high")) (high b) >>>
  idx_ch_rows_f64 nan_bits (Some (lit "low")) (low b) >>>
  idx_ch_rows_f64 nan_bits (Some (lit "close")) (close b) >>>
  idx_ch_rows_f64 nan_bits (Some (lit "base_volume")) (base_volume b) >>>
  idx_ch_rows_f64 nan_bits (Some (lit "quote_volume")) (quote_volume b) >>>
  idx_ch_rows_u32 (Some (lit "swap_count")) (bar_swap_count b) >>>
  col_seq_key (lit "open_seq_key") (open_seq b) >>>
  col_seq_key (lit "close_seq_key") (close_seq b) >>>
  idx_ch_rows_u64 (Some (lit "close_seq_slot")) (bs_slot (close_seq b)) >>>
  idx_ch_rows_end.

End Columns.

(** ** The store *)

(** src/src/ch_store.c:49-51 [bar_table] *)
Definition bar_table (interval : idx_bar_interval) : table_id :=
  match interval with IDX_BAR_1M => TBL_BARS_1M | IDX_BAR_1S => TBL_BARS_1S end.

(** src/src/ch_store.c:467-471 [ch_store] *)
Record ch_store (C : Type) := ChStore {
  conn : C;
  store_format : idx_ch_row_format;
  rows : table_id -> idx_ch_rows
}.
Arguments ChStore {C}.
Arguments conn {C}.
Arguments store_format {C}.
Arguments rows {C}.

(** src/src/ch_store.c:473-476 [store_name] *)
Definition store_name : bytes := lit "clickhouse-finalized".

(** src/src/ch_store.c:485-489 [bump] *)
Definition bump (best candidate : Z) : Z :=
  if negb (candidate =? IDX_SLOT_NONE) && (best <? candidate) then candidate else best.

(** src/src/ch_store.c:491-521 [write_set_version] *)
Definition write_set_version (set : idx_store_write_set) : Z :=
  let version := foldl (fun v b => bump v (sb_slot b)) 0 (ws_blocks set) in
  let version := foldl (fun v r => bump v (ref_slot (ss_ref r))) version (ws_sol_balances set) in
  let version := foldl (fun v r => bump v (ref_slot (st_ref r))) version (ws_token_balances set) in
  let version := foldl (fun v r => bump v (ref_slot (stf_ref r))) version (ws_transfers set) in
  let version := foldl (fun v r => bump v (ref_slot (ssw_ref r))) version (ws_swaps set) in
  let version :=
    foldl (fun v p =>
             let v := bump v (Pool.first_seen_slot p) in
             match creation_slot p with Some slot => bump v slot | None => v end) version (ws_pools set) in
  let version := foldl (fun v t => bump v (Token.first_seen_slot t)) version (ws_tokens set) in
  foldl (fun v b => bump v (bs_slot (close_seq b))) version (ws_bars set).

(** ** Applying a write set *)

Section Store.
Context {C : Type} `{ChOps C} (nan_bits : Z).

Definition step : Type := ch_store C -> heap -> result unit * ch_store C * heap.

(** [IDX_TRY(first); second] *)
Definition then_step (f g : step) : step := fun s h =>
  match f s h with
  | (Ok _, s, h) => g s h
  | r => r
  end.

Infix ">->" := then_step (at level 66, right associativity).

(** [&s->rows[t]] and the body of a table replaced. *)
Definition with_rows (s : ch_store C) (t : table_id) (w : idx_ch_rows) : ch_store C :=
  ChStore (conn s) (store_format s) (fun t' => if decide (t' = t) then w else rows s t').

(** A call on the body of a table. *)
Definition on_table (t : table_id) (o : op) : step := fun s h =>
  let '(r, w, h) := o (rows s t) h in (r, with_rows s t w, h).

(** [for (i = 0; i < count; i++) IDX_TRY(put(&array[i]))] *)
Fixpoint each {A} (put : A -> step) (array : list A) : step :=
  match array with
  | [] => fun s h => (Ok tt, s, h)
  | x :: array => put x >-> each put array
  end.

(** src/src/ch_store.c:523-564 [store_append] *)
Definition store_append (set : option idx_store_write_set) : step := fun s h =>
  match set with
  | None => (Ok tt, s, h)
  | Some set =>
      let version := write_set_version set in
      (each (fun b => on_table TBL_BLOCKS (put_block b)) (ws_blocks set) >->
       each (fun r => on_table TBL_SOL_BALANCES (put_sol_balance r)) (ws_sol_balances set) >->
       each (fun r => on_table TBL_TOKEN_BALANCES (put_token_balance r)) (ws_token_balances set) >->
       each (fun r => match tr_kind (stf_transfer r) with
                      | IDX_TRANSFER_SOL => on_table TBL_SOL_TRANSFERS (put_sol_transfer r)
                      | _ => on_table TBL_TOKEN_TRANSFERS (put_token_transfer r)
                      end) (ws_transfers set) >->
       each (fun r => on_table TBL_SWAPS (put_swap nan_bits r)) (ws_swaps set) >->
       each (fun p => on_table TBL_POOLS (put_pool p version)) (ws_pools set) >->
       each (fun t => on_table TBL_TOKENS (put_token t version)) (ws_tokens set) >->
       each (fun b => on_table (bar_table (bar_interval b)) (put_bar nan_bits b)) (ws_bars set)) s h
  end.

(** src/src/ch_store.c:581-582 [store_flush]: the statement of a table's insert. *)
Definition insert_sql (fmt : idx_ch_row_format) (t : table_id) : bytes :=
  printed 128 (lit "INSERT INTO " ++ g_table_names t ++ lit " FORMAT " ++ idx_ch_row_format_name fmt).

(** src/src/ch_store.c:576-586 [store_flush]: the loop, over the tables from here on. *)
Fixpoint flush_tables (ts : list table_id) (s : ch_store C) : result unit * ch_store C :=
  match ts with
  | [] => (Ok tt, s)
  | t :: ts =>
      let w := rows s t in
      if idx_ch_rows_count w =? 0 then flush_tables ts s
      else
        match ch_insert (conn s) (insert_sql (store_format s) t) (idx_ch_rows_body w) with
        | (Ok _, c) => flush_tables ts (with_rows (ChStore c (store_format s) (rows s)) t (idx_ch_rows_reset w))
        | (Err e, c) => (Err e, ChStore c (store_format s) (rows s))
        end
  end.

(** src/src/ch_store.c:573-588 [store_flush] *)
Definition store_flush : step := fun s h => let '(r, s) := flush_tables tables s in (r, s, h).

(** src/src/ch_store.c:590-600 [store_close]: the bodies are freed and the connection closed. *)
Definition store_close (s : ch_store C) : ch_store C :=
  ChStore (conn s) (store_format s) (fun t => idx_ch_rows_free (rows s t)).

(** src/src/ch_store.c:602-607 [g_vt] *)
Definition g_vt : idx_finalized_store_vt (ch_store C) :=
  FinalizedVt (Some (fun _ => store_name)) (Some (fun s set => store_append (Some set) s))
    (Some store_flush) (Some store_close).

(** src/src/ch_store.c:617-627 [idx_ch_finalized_store_pending]: none for a handle that is
    not of this module. *)
Definition idx_ch_finalized_store_pending (s : option (ch_store C)) : Z :=
  match s with
  | None => 0
  | Some s => foldl (fun total t => u64 (total + idx_ch_rows_count (rows s t))) 0 tables
  end.

(** src/src/ch_store.c:629-639 [idx_ch_finalized_store_pending_bytes] *)
Definition idx_ch_finalized_store_pending_bytes (s : option (ch_store C)) : Z :=
  match s with
  | None => 0
  | Some s => foldl (fun total t => u64 (total + idx_ch_rows_size (rows s t))) 0 tables
  end.

(** src/src/ch_store.c:651-659 [idx_ch_finalized_store_open]: the statements, the first
    failure ending it. *)
Fixpoint apply_schema (statements : list bytes) (c : C) : result unit * C :=
  match statements with
  | [] => (Ok tt, c)
  | sql :: statements =>
      match ch_query c sql with
      | (Ok _, c) => apply_schema statements c
      | r => r
      end
  end.

(** src/src/ch_store.c:641-677 [idx_ch_finalized_store_open]: [opened] is what
    [idx_ch_open] gave. *)
Definition idx_ch_finalized_store_open (opened : result C) (format : idx_ch_row_format) (out : bool) (h : heap)
    : result (ch_store C) * heap :=
  if negb out then (IDX_FAIL IDX_ERR_INVALID_ARG, h)
  else
    match opened with
    | Err e => (Err e, h)
    | Ok c =>
        match apply_schema idx_ch_finalized_schema c with
        | (Err e, _) => (Err e, h)
        | (Ok _, c) =>
            let '(ok1, h) := calloc 1 1 h in
            let '(ok2, h) := calloc 1 1 h in
            if negb ok1 || negb ok2 then (IDX_FAIL IDX_ERR_NO_MEMORY, h)
            else (Ok (ChStore c format (fun _ => idx_ch_rows_init format)), h)
        end
    end.

End Store.

(** ** The rows of a write set *)

(** A row's table, and its columns with their names. *)
Definition key_cell (k : idx_pubkey) : cell := Plain (Fixed (pubkey_bytes k)).
Definition key_cell_opt (k : option idx_pubkey) : cell := Nullable ((fun k => Fixed (pubkey_bytes k)) <$> k).
Definition text_cell_opt (t : option bytes) : cell := Nullable (Str <$> t).
Definition u8_cell_opt (v : option Z) : cell := Nullable (UInt 1 <$> v).
Definition u64_cell_opt (v : option Z) : cell := Nullable (UInt 8 <$> v).
Definition i64_cell_opt (v : option Z) : cell := Nullable (SInt 8 <$> v).

Definition block_row (b : idx_store_block_row) : row :=
  [(lit "slot", Plain (UInt 8 (sb_slot b))); (lit "blockhash", Plain (Fixed (hash_bytes (sb_blockhash b))));
   (lit "previous_blockhash", Plain (Fixed (hash_bytes (sb_previous_blockhash b))));
   (lit "parent_slot", Plain (UInt 8 (sb_parent_slot b))); (lit "block_time", i64_cell_opt (sb_block_time b));
   (lit "block_height", u64_cell_opt (sb_block_height b)); (lit "transaction_count", Plain (UInt 4 (sb_transaction_count b)))].

Definition sol_balance_row (r : idx_store_sol_balance_row) : row :=
  [(lit "account", key_cell (sol_account (ss_balance r))); (lit "slot", Plain (UInt 8 (ref_slot (ss_ref r))));
   (lit "lamports", Plain (UInt 8 (lamports (ss_balance r)))); (lit "delta", Plain (SInt 8 (delta (ss_balance r))));
   (lit "transaction_index", Plain (UInt 2 (ref_transaction_index (ss_ref r))));
   (lit "signature", Plain (Fixed (signature_bytes (ref_signature (ss_ref r)))))].

Definition token_balance_row (r : idx_store_token_balance_row) : row :=
  let b := st_balance r in
  [(lit "account", key_cell (ts_account b)); (lit "slot", Plain (UInt 8 (ref_slot (st_ref r)))); (lit "mint", key_cell (ts_mint b));
   (lit "owner", key_cell_opt (ts_owner b)); (lit "amount", Plain (UInt 8 (ts_amount b)));
   (lit "previous", Plain (UInt 8 (ts_previous b))); (lit "decimals", Plain (UInt 1 (ts_decimals b)));
   (lit "closed", Plain (UInt 1 (if closed b then 1 else 0)));
   (lit "transaction_index", Plain (UInt 2 (ref_transaction_index (st_ref r))));
   (lit "signature", Plain (Fixed (signature_bytes (ref_signature (st_ref r)))))].

(** Where an event happened: the columns it is keyed by, and its signature. *)
Definition event_key (ref : idx_store_ref) (at_ : stamp) : row :=
  [(lit "slot", Plain (UInt 8 (ref_slot ref))); (lit "transaction_index", Plain (UInt 2 (ref_transaction_index ref)));
   (lit "instruction_index", Plain (UInt 2 (instruction_index at_)));
   (lit "inner_index", Plain (UInt 2 (if inner at_ then inner_pos at_ else 0)))].
Definition event_path (ref : idx_store_ref) (at_ : stamp) : row :=
  event_key ref at_ ++ [(lit "signature", Plain (Fixed (signature_bytes (ref_signature ref))))].

Definition sol_transfer_row (r : idx_store_transfer_row) : row :=
  let t := stf_transfer r in
  event_path (stf_ref r) (tr_at t) ++
  [(lit "source", key_cell (tr_source t)); (lit "destination", key_cell (tr_destination t));
   (lit "authority", key_cell_opt (tr_authority t)); (lit "amount", Plain (UInt 8 (tr_amount t)))].

Definition token_transfer_row (r : idx_store_transfer_row) : row :=
  let t := stf_transfer r in
  event_path (stf_ref r) (tr_at t) ++
  [(lit "kind", Plain (UInt 1 (transfer_kind_value (tr_kind t)))); (lit "source", key_cell (tr_source t));
   (lit "destination", key_cell (tr_destination t)); (lit "authority", key_cell_opt (tr_authority t));
   (lit "mint", key_cell_opt (tr_mint t)); (lit "source_owner", key_cell_opt (tr_source_owner t));
   (lit "destination_owner", key_cell_opt (tr_destination_owner t)); (lit "amount", Plain (UInt 8 (tr_amount t)));
   (lit "fee", Plain (UInt 8 (tr_fee t))); (lit "decimals", u8_cell_opt (tr_decimals t))].

Definition swap_row (r : idx_store_swap_row) : row :=
  let s := ssw_swap r in
  event_path (ssw_ref r) (sr_at s) ++
  [(lit "kind", Plain (UInt 1 (swap_kind_value (sr_kind s)))); (lit "venue", Plain (UInt 1 (venue_value (sr_venue s))));
   (lit "amount_source", Plain (UInt 1 (source_value (sr_source s)))); (lit "pool", key_cell_opt (sr_pool s));
   (lit "trader", key_cell_opt (sr_user s)); (lit "input_mint", key_cell_opt (sr_input_mint s));
   (lit "input_amount", u64_cell_opt (sr_input_amount s)); (lit "input_decimals", u8_cell_opt (sr_input_decimals s));
   (lit "output_mint", key_cell_opt (sr_output_mint s)); (lit "output_amount", u64_cell_opt (sr_output_amount s));
   (lit "output_decimals", u8_cell_opt (sr_output_decimals s)); (lit "price", Nullable (Float <$> price (ssw_price r)));
   (lit "quote", u8_cell_opt (if priced (ssw_price r) then Some (quote_value (pr_quote (ssw_price r))) else None));
   (lit "block_time", i64_cell_opt (ssw_block_time r))].

Definition pool_row (p : idx_pool) (version : Z) : row :=
  [(lit "address", key_cell (address p)); (lit "venue", Plain (UInt 1 (venue_value (pool_venue p))));
   (lit "mint_a", key_cell_opt (mint_a p)); (lit "decimals_a", u8_cell_opt (decimals_a p)); (lit "mint_b", key_cell_opt (mint_b p));
   (lit "decimals_b", u8_cell_opt (decimals_b p)); (lit "first_seen_slot", Plain (UInt 8 (Pool.first_seen_slot p)));
   (lit "swap_count", Plain (UInt 8 (swap_count p))); (lit "creation_slot", u64_cell_opt (creation_slot p));
   (lit "creator", key_cell_opt (creator p)); (lit "version", Plain (UInt 8 version))].

Definition token_row (t : idx_token) (version : Z) : row :=
  [(lit "mint", key_cell (tk_mint t)); (lit "decimals", u8_cell_opt (tk_decimals t)); (lit "name", text_cell_opt (tk_name t));
   (lit "symbol", text_cell_opt (tk_symbol t)); (lit "uri", text_cell_opt (tk_uri t));
   (lit "first_seen_slot", Plain (UInt 8 (Token.first_seen_slot t))); (lit "version", Plain (UInt 8 version))].

Definition bar_row (b : idx_bar) : row :=
  [(lit "pool", key_cell (bar_pool b)); (lit "bucket", Plain (SInt 8 (bar_bucket b))); (lit "quote", Plain (UInt 1 (quote_value (bar_quote b))));
   (lit "open", Plain (Float (open b))); (lit "high", Plain (Float (high b))); (lit "low", Plain (Float (low b)));
   (lit "close", Plain (Float (close b))); (lit "base_volume", Plain (Float (base_volume b)));
   (lit "quote_volume", Plain (Float (quote_volume b))); (lit "swap_count", Plain (UInt 4 (bar_swap_count b)));
   (lit "open_seq_key", Plain (Fixed (idx_bar_seq_pack (open_seq b)))); (lit "close_seq_key", Plain (Fixed (idx_bar_seq_pack (close_seq b))));
   (lit "close_seq_slot", Plain (UInt 8 (bs_slot (close_seq b))))].

(** The table of an element of a write set, and its row. *)
Definition elem_table (x : elem) : table_id :=
  match x with
  | ElemBlock _ => TBL_BLOCKS
  | ElemSol _ => TBL_SOL_BALANCES
  | ElemTokenBalance _ => TBL_TOKEN_BALANCES
  | ElemTransfer r => match tr_kind (stf_transfer r) with IDX_TRANSFER_SOL => TBL_SOL_TRANSFERS | _ => TBL_TOKEN_TRANSFERS end
  | ElemSwap _ => TBL_SWAPS
  | ElemPool _ => TBL_POOLS
  | ElemToken _ => TBL_TOKENS
  | ElemBar b => bar_table (bar_interval b)
  end.

Definition elem_row (version : Z) (x : elem) : row :=
  match x with
  | ElemBlock b => block_row b
  | ElemSol r => sol_balance_row r
  | ElemTokenBalance r => token_balance_row r
  | ElemTransfer r => match tr_kind (stf_transfer r) with IDX_TRANSFER_SOL => sol_transfer_row r | _ => token_transfer_row r end
  | ElemSwap r => swap_row r
  | ElemPool p => pool_row p version
  | ElemToken t => token_row t version
  | ElemBar b => bar_row b
  end.

(** The encoder [store_append] gives an element to. *)
Definition encoder (nan_bits version : Z) (x : elem) : op :=
  match x with
  | ElemBlock b => put_block b
  | ElemSol r => put_sol_balance r
  | ElemTokenBalance r => put_token_balance r
  | ElemTransfer r => match tr_kind (stf_transfer r) with IDX_TRANSFER_SOL => put_sol_transfer r | _ => put_token_transfer r end
  | ElemSwap r => put_swap nan_bits r
  | ElemPool p => put_pool p version
  | ElemToken t => put_token t version
  | ElemBar b => put_bar nan_bits b
  end.

(** ** Fields within their C types *)

Definition within (n : Z) (v : Z) : Prop := 0 <= v < n.
Definition is_i64 (v : Z) : Prop := - 2 ^ 63 <= v < 2 ^ 63.
Definition opt_ok {A} (P : A -> Prop) (v : option A) : Prop := match v with Some v => P v | None => True end.
Definition ref_ok (r : idx_store_ref) : Prop := is_u64 (ref_slot r) /\ within (2 ^ 16) (ref_transaction_index r) /\ signature_ok (ref_signature r).
Definition stamp_ok (s : stamp) : Prop := within (2 ^ 16) (instruction_index s) /\ within (2 ^ 16) (inner_pos s).
Definition double_ok (d : double) : Prop := valid_binary prec emax d = true.
(** A string of the registry: no NUL inside, and short. *)
Definition text_ok (t : bytes) : Prop := Forall (fun c => c <> 0) t /\ size t < 2 ^ 32.

Definition elem_ok (x : elem) : Prop :=
  match x with
  | ElemBlock b => is_u64 (sb_slot b) /\ hash_ok (sb_blockhash b) /\ hash_ok (sb_previous_blockhash b) /\ is_u64 (sb_parent_slot b) /\
      opt_ok is_i64 (sb_block_time b) /\ opt_ok is_u64 (sb_block_height b) /\ within (2 ^ 32) (sb_transaction_count b)
  | ElemSol r => ref_ok (ss_ref r) /\ pubkey_ok (sol_account (ss_balance r)) /\ is_u64 (lamports (ss_balance r)) /\ is_i64 (delta (ss_balance r))
  | ElemTokenBalance r => let b := st_balance r in ref_ok (st_ref r) /\ pubkey_ok (ts_account b) /\ pubkey_ok (ts_mint b) /\
      opt_ok pubkey_ok (ts_owner b) /\ is_u64 (ts_amount b) /\ is_u64 (ts_previous b) /\ within 256 (ts_decimals b)
  | ElemTransfer r => let t := stf_transfer r in ref_ok (stf_ref r) /\ stamp_ok (tr_at t) /\ pubkey_ok (tr_source t) /\ pubkey_ok (tr_destination t) /\
      opt_ok pubkey_ok (tr_authority t) /\ opt_ok pubkey_ok (tr_mint t) /\ opt_ok pubkey_ok (tr_source_owner t) /\
      opt_ok pubkey_ok (tr_destination_owner t) /\ is_u64 (tr_amount t) /\ is_u64 (tr_fee t) /\ opt_ok (within 256) (tr_decimals t)
  | ElemSwap r => let s := ssw_swap r in ref_ok (ssw_ref r) /\ stamp_ok (sr_at s) /\ opt_ok pubkey_ok (sr_pool s) /\ opt_ok pubkey_ok (sr_user s) /\
      opt_ok pubkey_ok (sr_input_mint s) /\ opt_ok is_u64 (sr_input_amount s) /\ opt_ok (within 256) (sr_input_decimals s) /\
      opt_ok pubkey_ok (sr_output_mint s) /\ opt_ok is_u64 (sr_output_amount s) /\ opt_ok (within 256) (sr_output_decimals s) /\
      opt_ok double_ok (price (ssw_price r)) /\ opt_ok is_i64 (ssw_block_time r)
  | ElemPool p => pubkey_ok (address p) /\ opt_ok pubkey_ok (mint_a p) /\ opt_ok (within 256) (decimals_a p) /\ opt_ok pubkey_ok (mint_b p) /\
      opt_ok (within 256) (decimals_b p) /\ is_u64 (Pool.first_seen_slot p) /\ is_u64 (swap_count p) /\ opt_ok is_u64 (creation_slot p) /\
      opt_ok pubkey_ok (creator p)
  | ElemToken t => pubkey_ok (tk_mint t) /\ opt_ok (within 256) (tk_decimals t) /\ opt_ok text_ok (tk_name t) /\ opt_ok text_ok (tk_symbol t) /\
      opt_ok text_ok (tk_uri t) /\ is_u64 (Token.first_seen_slot t)
  | ElemBar b => pubkey_ok (bar_pool b) /\ is_i64 (bar_bucket b) /\ double_ok (open b) /\ double_ok (high b) /\ double_ok (low b) /\
      double_ok (close b) /\ double_ok (base_volume b) /\ double_ok (quote_volume b) /\ within (2 ^ 32) (bar_swap_count b) /\
      is_u64 (bs_slot (close_seq b))
  end.

(** ** The encoders write rows *)

Section Encoders.
Context (nan_bits : Z).

Lemma ok_then o : ok >>> o ≐ o.
Proof. by intros rows h. Qed.

Lemma size_length {A} (l : list A) n : length l = n -> Z.of_nat n = size l.
Proof. by intros <-. Qed.

Lemma fixed_column name l n : size l = n -> idx_ch_rows_fixed (Some name) (Some l) n ≐ column nan_bits name (Plain (Fixed l)).
Proof. intros <-. unfold idx_ch_rows_fixed. by rewrite ok_then. Qed.

Lemma col_key_column name k : pubkey_ok k -> col_key name k ≐ column nan_bits name (key_cell k).
Proof. intros [_ Hs]. by apply fixed_column. Qed.

Lemma col_hash_column name k : hash_ok k -> col_hash name k ≐ column nan_bits name (Plain (Fixed (hash_bytes k))).
Proof. intros [_ Hs]. by apply fixed_column. Qed.

Lemma col_sig_column name k : signature_ok k -> col_sig name k ≐ column nan_bits name (Plain (Fixed (signature_bytes k))).
Proof. intros [_ Hs]. by apply fixed_column. Qed.

Lemma seq_pack_length s : size (idx_bar_seq_pack s) = IDX_BAR_SEQ_KEY_LEN.
Proof. done. Qed.

Lemma col_seq_column name s : col_seq_key name s ≐ column nan_bits name (Plain (Fixed (idx_bar_seq_pack s))).
Proof. by apply fixed_column. Qed.

Lemma col_key_opt_column name k : opt_ok pubkey_ok k -> col_key_opt name k ≐ column nan_bits name (key_cell_opt k).
Proof.
  unfold col_key_opt, idx_ch_rows_nullable_fixed. destruct k as [k|]; cbn [fmap option_fmap option_map check_bytes]; rewrite ok_then; [|done].
  intros [_ Hs]. cbn. by rewrite <- Hs.
Qed.

Lemma col_text_opt_column name t : opt_ok text_ok t -> col_text_opt name t ≐ column nan_bits name (text_cell_opt t).
Proof.
  unfold col_text_opt, idx_ch_rows_nullable_str. destruct t as [t|]; cbn [fmap option_fmap option_map check_bytes]; rewrite ok_then; [|done].
  intros [Hn _]. cbn. by rewrite strlen_no_nul.
Qed.

Lemma u8_opt_column name v : idx_ch_rows_nullable_u8 (Some name) v ≐ column nan_bits name (u8_cell_opt v).
Proof. by destruct v. Qed.
Lemma u64_opt_column name v : idx_ch_rows_nullable_u64 (Some name) v ≐ column nan_bits name (u64_cell_opt v).
Proof. by destruct v. Qed.
Lemma i64_opt_column name v : idx_ch_rows_nullable_i64 (Some name) v ≐ column nan_bits name (i64_cell_opt v).
Proof. by destruct v. Qed.
Lemma f64_opt_column name v : idx_ch_rows_nullable_f64 nan_bits (Some name) v ≐ column nan_bits name (Nullable (Float <$> v)).
Proof. by destruct v. Qed.

Lemma event_path_columns ref at_ k :
  signature_ok (ref_signature ref) ->
  col_event_path ref at_ >>> k ≐ foldr (fun nc rest => column nan_bits nc.1 nc.2 >>> rest) k (event_path ref at_).
Proof. intros Hs. unfold col_event_path. rewrite !then_op_assoc, col_sig_column by done. done. Qed.

(** The encoders of the elements, as rows. *)
Lemma encoder_row version x : elem_ok x -> encoder nan_bits version x ≐ put_row nan_bits (elem_row version x).
Proof.
  destruct x as [b|r|r|r|r|p|t|b]; cbn [elem_ok encoder elem_row]; intros Hx; unfold ref_ok in Hx; destruct_and?.
  - unfold put_block. by rewrite !col_hash_column, i64_opt_column, u64_opt_column.
  - unfold put_sol_balance. by rewrite col_key_column, col_sig_column.
  - unfold put_token_balance. by rewrite !col_key_column, col_key_opt_column, col_sig_column.
  - destruct (tr_kind _) eqn:E; [unfold put_sol_transfer|unfold put_token_transfer..];
      rewrite event_path_columns by done; cbn [foldr event_path event_key app fst snd];
      by rewrite !col_key_column, !col_key_opt_column, ?u8_opt_column.
  - unfold put_swap. rewrite event_path_columns by done. cbn [foldr event_path event_key app fst snd].
    by rewrite !col_key_opt_column, !u64_opt_column, !u8_opt_column, f64_opt_column, i64_opt_column.
  - unfold put_pool. by rewrite col_key_column, !col_key_opt_column, u64_opt_column, !u8_opt_column.
  - unfold put_token. by rewrite col_key_column, !col_text_opt_column, u8_opt_column.
  - unfold put_bar. by rewrite col_key_column, !col_seq_column.
Qed.

End Encoders.

(** ** Rows and tables *)

Lemma row_names version x : map fst (elem_row version x) = map fst (table_columns (elem_table x)).
Proof. destruct x as [b|r|r|r|r|p|t|b]; cbn [elem_row elem_table]; try (by vm_compute); [by destruct (tr_kind _)|by destruct (bar_interval b)]. Qed.

Lemma row_widths version x : length (elem_row version x) = length (table_columns (elem_table x)).
Proof. by rewrite <- (length_map fst), row_names, length_map. Qed.

Lemma columns_some t : 0 < Z.of_nat (length (table_columns t)) < 2 ^ 64.
Proof. destruct t; (split; [by apply Z.ltb_lt; vm_compute|by apply Z.ltb_lt; vm_compute]). Qed.

Lemma opt_cell {A} (P : A -> Prop) (f : A -> scalar) t v :
  (forall a, P a -> scalar_of t (f a)) -> opt_ok P v -> cell_of (TNullable t) (Nullable (f <$> v)).
Proof. destruct v; cbn; auto. Qed.

Lemma uint_of w v : (w <= 8)%nat -> 0 <= v < 2 ^ (8 * Z.of_nat w) -> scalar_of (TUInt w) (UInt w v).
Proof. intros Hw Hv. split; [done|]. by split. Qed.
Lemma i64_of v : is_i64 v -> scalar_of (TSInt 8) (SInt 8 v).
Proof. unfold is_i64. intros Hv. cbn [scalar_of]. change (2 ^ (8 * Z.of_nat 8 - 1)) with (2 ^ 63). split; [done|]. split; [lia|done]. Qed.
Lemma key_of k : pubkey_ok k -> scalar_of (TFixed 32) (Fixed (pubkey_bytes k)).
Proof. intros [_ Hs]. cbn. unfold size, IDX_PUBKEY_LEN in Hs. lia. Qed.
Lemma hash_of k : hash_ok k -> scalar_of (TFixed 32) (Fixed (hash_bytes k)).
Proof. intros [_ Hs]. cbn. unfold size, IDX_HASH_LEN in Hs. lia. Qed.
Lemma sig_of k : signature_ok k -> scalar_of (TFixed 64) (Fixed (signature_bytes k)).
Proof. intros [_ Hs]. cbn. unfold size, IDX_SIGNATURE_LEN in Hs. lia. Qed.
Lemma seq_of s : scalar_of (TFixed 15) (Fixed (idx_bar_seq_pack s)).
Proof. cbn [scalar_of]. pose proof (seq_pack_length s) as Hs. unfold size, IDX_BAR_SEQ_KEY_LEN in Hs. lia. Qed.
Lemma float_of d : double_ok d -> scalar_of TFloat (Float d).
Proof. done. Qed.
Lemma text_of t : text_ok t -> scalar_of TStr (Str t).
Proof. intros [_ Hs]. cbn. lia. Qed.
Lemma u8_of v : within 256 v -> scalar_of (TUInt 1) (UInt 1 v).
Proof. intros Hv. by apply uint_of; [lia|]. Qed.
Lemma u16_of v : within (2 ^ 16) v -> scalar_of (TUInt 2) (UInt 2 v).
Proof. intros Hv. by apply uint_of; [lia|]. Qed.
Lemma u32_of v : within (2 ^ 32) v -> scalar_of (TUInt 4) (UInt 4 v).
Proof. intros Hv. by apply uint_of; [lia|]. Qed.
Lemma u64_of v : is_u64 v -> scalar_of (TUInt 8) (UInt 8 v).
Proof. intros Hv. by apply uint_of; [lia|]. Qed.
Lemma kind_value_of k : within 256 (transfer_kind_value k).
Proof. destruct k; by vm_compute. Qed.
Lemma swap_kind_of k : within 256 (swap_kind_value k).
Proof. destruct k; by vm_compute. Qed.
Lemma venue_of v : within 256 (venue_value v).
Proof. destruct v; by vm_compute. Qed.
Lemma source_of v : within 256 (source_value v).
Proof. destruct v; by vm_compute. Qed.
Lemma quote_of v : within 256 (quote_value v).
Proof. destruct v; by vm_compute. Qed.
Lemma closed_of (b : bool) : within 256 (if b then 1 else 0).
Proof. destruct b; by vm_compute. Qed.
Lemma quote_opt_of (b : bool) v : opt_ok (within 256) (if b then Some (quote_value v) else None).
Proof. destruct b; [apply quote_of|done]. Qed.
Lemma index_of s : stamp_ok s -> within (2 ^ 16) (instruction_index s).
Proof. by intros [Hs _]. Qed.
Lemma inner_of s : stamp_ok s -> within (2 ^ 16) (if inner s then inner_pos s else 0).
Proof. intros [_ Hs]. destruct (inner s); [done|by vm_compute]. Qed.

(** Each column of a row has the type its table declares. *)
Ltac typed_cell :=
  lazymatch goal with
  | |- cell_of (TPlain (TUInt 8)) _ => refine (u64_of _ _)
  | |- cell_of (TPlain (TUInt 1)) _ => refine (u8_of _ _)
  | |- cell_of (TPlain (TUInt 2)) _ => refine (u16_of _ _)
  | |- cell_of (TPlain (TUInt 4)) _ => refine (u32_of _ _)
  | |- cell_of (TPlain (TSInt 8)) _ => refine (i64_of _ _)
  | |- cell_of (TPlain (TFixed 32)) (Plain (Fixed (pubkey_bytes _))) => refine (key_of _ _)
  | |- cell_of (TPlain (TFixed 32)) (Plain (Fixed (hash_bytes _))) => refine (hash_of _ _)
  | |- cell_of (TPlain (TFixed 64)) _ => refine (sig_of _ _)
  | |- cell_of (TPlain (TFixed 15)) _ => refine (seq_of _)
  | |- cell_of (TNullable (TUInt 8)) _ => refine (opt_cell is_u64 _ _ _ u64_of _)
  | |- cell_of (TNullable (TUInt 1)) _ => refine (opt_cell (within 256) _ _ _ u8_of _)
  | |- cell_of (TNullable (TSInt 8)) _ => refine (opt_cell is_i64 _ _ _ i64_of _)
  | |- cell_of (TNullable (TFixed 32)) _ => refine (opt_cell pubkey_ok (fun k => Fixed (pubkey_bytes k)) _ _ key_of _)
  | |- cell_of (TNullable TStr) _ => refine (opt_cell text_ok _ _ _ text_of _)
  | |- cell_of (TNullable TFloat) _ => refine (opt_cell double_ok Float TFloat _ float_of _)
  | |- cell_of (TPlain TFloat) (Plain (Float ?d)) => refine (float_of d _)
  end.

Ltac typed_columns t :=
  let columns := eval vm_compute in (map snd (table_columns t)) in
  replace (map snd (table_columns t)) with columns by (vm_compute; reflexivity).

Ltac typed_row :=
  unfold row_of, event_path, event_key, key_cell, key_cell_opt, text_cell_opt, u64_cell_opt, u8_cell_opt, i64_cell_opt; cbn [map snd app];
  repeat (apply Forall2_cons; split; [typed_cell; first [assumption | progress
    auto using kind_value_of, swap_kind_of, venue_of, source_of, quote_of, closed_of, quote_opt_of, index_of, inner_of | idtac]|]); by apply Forall2_nil.

Lemma row_types version x :
  is_u64 version -> elem_ok x -> row_of (map snd (table_columns (elem_table x))) (elem_row version x).
Proof.
  intros Hv. destruct x as [b|r|r|r|r|p|t|b]; cbn [elem_ok elem_row elem_table]; intros Hx; unfold ref_ok in Hx; destruct_and?.
  - typed_columns TBL_BLOCKS. unfold block_row. typed_row.
  - typed_columns TBL_SOL_BALANCES. unfold sol_balance_row. typed_row.
  - typed_columns TBL_TOKEN_BALANCES. unfold token_balance_row. typed_row.
  - destruct (tr_kind _); [typed_columns TBL_SOL_TRANSFERS; unfold sol_transfer_row|typed_columns TBL_TOKEN_TRANSFERS; unfold token_transfer_row..];
      typed_row.
  - typed_columns TBL_SWAPS. unfold swap_row. typed_row.
  - typed_columns TBL_POOLS. unfold pool_row. typed_row.
  - typed_columns TBL_TOKENS. unfold token_row. typed_row.
  - destruct (bar_interval b); cbn [bar_table]; [typed_columns TBL_BARS_1S|typed_columns TBL_BARS_1M]; unfold bar_row; typed_row.
Qed.

Lemma all_tables t : t ∈ tables.
Proof. destruct t; unfold tables; repeat (first [by left|right]). Qed.

(** ** Runs of the store *)

Section Runs.
Context {C : Type} {ops : ChOps C} {ch_ok : C -> Prop} {HC : ChSpec C ch_ok} (nan_bits : Z) (fmt : idx_ch_row_format) (c0 : C).
Abbreviation text := (row_text nan_bits fmt).

(** What is appended to which table, in order. *)
Abbreviation entry := (table_id * row)%type.

Definition set_entries (set : idx_store_write_set) : list entry :=
  (fun x => (elem_table x, elem_row (write_set_version set) x)) <$> concat (ws_arrays set).

Definition rows_of_table (t : table_id) (acc : list entry) : list row := snd <$> filter (fun e => e.1 = t) acc.

(** The bodies of a table the server acknowledged, among the requests [l]. *)
Definition acknowledged (t : table_id) (l : list (bytes * bytes * result unit)) : list bytes :=
  (fun x => x.1.2) <$> filter (fun x => ch_target c0 (insert_sql fmt t) = Some x.1.1 /\ x.2 = Ok tt) l.

Inductive ch_call := Append (set : idx_store_write_set) | Flush.

Definition ch_step (k : ch_call) : @step C := match k with Append set => store_append nan_bits (Some set) | Flush => store_flush end.

Fixpoint ch_run (calls : list ch_call) (s : ch_store C) (h : heap) : list (result unit) * ch_store C * heap :=
  match calls with
  | [] => ([], s, h)
  | k :: calls =>
      let '(r, s, h) := ch_step k s h in
      let '(rs, s, h) := ch_run calls s h in (r :: rs, s, h)
  end.

(** The rows the calls have left with the store: all of a set when its append succeeds,
    those before the one that failed when it does not. *)
Inductive takes : list ch_call -> list (result unit) -> list entry -> Prop :=
  | takes_nil : takes [] [] []
  | takes_append set calls rs acc : takes calls rs acc -> takes (Append set :: calls) (Ok tt :: rs) (set_entries set ++ acc)
  | takes_part set n e calls rs acc :
      takes calls rs acc -> (n < length (set_entries set))%nat ->
      takes (Append set :: calls) (Err e :: rs) (take n (set_entries set) ++ acc)
  | takes_flush r calls rs acc : takes calls rs acc -> takes (Flush :: calls) (r :: rs) acc.

(** The store after [acc] was left with it and [l] was sent: what the server acknowledged
    of a table and what is still in its body make up its rows. *)
Inductive table_ok (s : ch_store C) (acc : list entry) (l : list (bytes * bytes * result unit)) (t : table_id) : Prop :=
  | TableOk (kept : list row) (o : bool) :
      holds nan_bits fmt (rows s t) kept o ->
      Forall (fun r => length r = length (table_columns t)) kept ->
      size kept <= size acc ->
      concat (acknowledged t l) ++ (kept ≫= text) = rows_of_table t acc ≫= text ->
      table_ok s acc l t.

Record run_inv (s : ch_store C) (acc : list entry) (l : list (bytes * bytes * result unit)) : Prop := RunInv {
  inv_ok : ch_ok (conn s);
  inv_format : store_format s = fmt;
  inv_target : forall sql, ch_target (conn s) sql = ch_target c0 sql;
  inv_sent : ch_sent (conn s) = ch_sent c0 ++ l;
  inv_tables : forall t, table_ok s acc l t
}.

Lemma each_app {A} (put : A -> @step C) a b s h : each put (a ++ b) s h = then_step (each put a) (each put b) s h.
Proof.
  revert s h. induction a as [|x a IH]; intros s h; [done|]. cbn [app each]. unfold then_step.
  destruct (put x s h) as [[[[]|e] s1] h1]; [|done]. specialize (IH s1 h1). unfold then_step in IH. done.
Qed.

Lemma each_map {A B} (f : A -> B) (put : B -> @step C) l : each put (f <$> l) = each (fun x => put (f x)) l.
Proof. induction l as [|x l IH]; [done|]. cbn [fmap list_fmap each]. by f_equal. Qed.

Lemma then_step_assoc (f g k : @step C) s h : then_step (then_step f g) k s h = then_step f (then_step g k) s h.
Proof. unfold then_step. by destruct (f s h) as [[[]?]?]. Qed.

Lemma then_step_ext (f f' g g' : @step C) : (forall s h, f s h = f' s h) -> (forall s h, g s h = g' s h) -> forall s h, then_step f g s h = then_step f' g' s h.
Proof. intros Hf Hg s h. unfold then_step. rewrite Hf. by destruct (f' s h) as [[[]?]?]. Qed.

Lemma each_ext {A} (f g : A -> @step C) l : (forall x s h, x ∈ l -> f x s h = g x s h) -> forall s h, each f l s h = each g l s h.
Proof.
  induction l as [|x l IH]; intros Hfg s h; [done|]. cbn [each]. apply then_step_ext.
  - intros s' h'. apply Hfg. by left.
  - apply IH. intros y s' h' Hy. apply Hfg. by right.
Qed.

(** An append gives the elements, in order, to their encoders. *)
Lemma append_elems set (s : ch_store C) h :
  store_append nan_bits (Some set) s h =
  each (fun x => on_table (elem_table x) (encoder nan_bits (write_set_version set) x)) (concat (ws_arrays set)) s h.
Proof.
  unfold store_append, ws_arrays. cbn [concat]. rewrite app_nil_r.
  rewrite each_app, each_map. apply then_step_ext; [done|]. clear s h. intros s h.
  rewrite each_app, each_map. apply then_step_ext; [done|]. clear s h. intros s h.
  rewrite each_app, each_map. apply then_step_ext; [done|]. clear s h. intros s h.
  rewrite each_app, each_map. apply then_step_ext; clear s h; intros s h.
  { apply each_ext. intros r s' h' _. cbn [elem_table encoder]. by destruct (tr_kind _). }
  rewrite each_app, each_map. apply then_step_ext; [done|]. clear s h. intros s h.
  rewrite each_app, each_map. apply then_step_ext; [done|]. clear s h. intros s h.
  rewrite each_app, each_map. apply then_step_ext; [done|]. clear s h. intros s h.
  by rewrite each_map.
Qed.

Lemma table_rows_app t a b : rows_of_table t (a ++ b) = rows_of_table t a ++ rows_of_table t b.
Proof. unfold rows_of_table. by rewrite filter_app, fmap_app. Qed.

Lemma acknowledged_app t a b : acknowledged t (a ++ b) = acknowledged t a ++ acknowledged t b.
Proof. unfold acknowledged. by rewrite filter_app, fmap_app. Qed.

(** One element. *)
Lemma put_elem_spec version x s h acc l :
  run_inv s acc l -> elem_ok x ->
  let '(r, s', h') := on_table (elem_table x) (encoder nan_bits version x) s h in
  match r with
  | Ok _ => run_inv s' (acc ++ [(elem_table x, elem_row version x)]) l
  | Err _ => run_inv s' acc l
  end.
Proof.
  intros [Hok Hfmt Htgt Hsent Ht] Hx. unfold on_table. rewrite (encoder_row nan_bits version x Hx).
  set (t := elem_table x) in *. set (cells := elem_row version x) in *.
  assert (length cells = length (table_columns t)) as Hw by apply row_widths.
  assert (0 < size cells < 2 ^ 64) as Hsz.
  { unfold size. rewrite Hw. apply columns_some. }
  destruct (Ht t) as [done' o Hh Hwd Hfew Htext].
  pose proof (rows_step_spec nan_bits fmt (PutRow cells) (rows s t) done' o h h Hh Hsz ltac:(done)) as H. cbn [rows_step] in H.
  destruct (put_row _ _ _ _) as [[r w] h']. destruct H as (_ & o' & He & Hh').
  assert (forall acc', (forall t', t' <> t -> rows_of_table t' acc' = rows_of_table t' acc) -> size acc <= size acc' ->
            table_ok (with_rows s t w) acc' l t -> run_inv (with_rows s t w) acc' l) as Hall.
  { intros acc' Hsame Hle Htok. split; try done. intros t'. destruct (decide (t' = t)) as [->|Hne]; [done|].
    destruct (Ht t') as [d2 o2 H2 W2 F2 T2]. apply (TableOk _ _ _ _ d2 o2); [|done|lia|by rewrite Hsame].
    cbn [with_rows rows]. by rewrite decide_False. }
  destruct r as [[]|e]; cbn [accept] in Hh'; apply Hall.
  - intros t' Hne. rewrite table_rows_app. unfold rows_of_table at 2. rewrite filter_cons, filter_nil. cbn [fst].
    rewrite decide_False by done. by rewrite app_nil_r.
  - unfold size. rewrite length_app. lia.
  - apply (TableOk _ _ _ _ (done' ++ [cells]) o').
    + cbn [with_rows rows]. by rewrite decide_True.
    + apply Forall_app. split; [done|]. by apply Forall_singleton.
    + unfold size in *. rewrite !length_app. simpl. lia.
    + rewrite table_rows_app, !bind_app, app_assoc, Htext. f_equal.
      unfold rows_of_table. rewrite filter_cons, filter_nil. cbn [fst]. by rewrite decide_True.
  - done.
  - done.
  - apply (TableOk _ _ _ _ done' o'); [|done..]. cbn [with_rows rows]. by rewrite decide_True.
Qed.

(** The elements of a set, up to the first that fails. *)
Lemma put_elems_spec version xs s h acc l :
  run_inv s acc l -> Forall elem_ok xs ->
  let '(r, s', h') := each (fun x => on_table (elem_table x) (encoder nan_bits version x)) xs s h in
  exists n, run_inv s' (acc ++ take n ((fun x => (elem_table x, elem_row version x)) <$> xs)) l /\
    match r with Ok _ => n = length xs | Err _ => (n < length xs)%nat end.
Proof.
  intros Hi Hxs. revert s h acc Hi. induction Hxs as [|x xs Hx Hxs IH]; intros s h acc Hi; cbn [each].
  { exists 0%nat. by rewrite app_nil_r. }
  unfold then_step. pose proof (put_elem_spec version x s h acc l Hi Hx) as H.
  destruct (on_table _ _ _ _) as [[[[]|e] s1] h1].
  - specialize (IH s1 h1 _ H). destruct (each _ _ _ _) as [[r s2] h2]. destruct IH as (n & Hn & Hr).
    exists (S n). split; [by rewrite <- app_assoc in Hn|]. destruct r; simpl; lia.
  - exists 0%nat. cbn [fmap list_fmap take]. rewrite app_nil_r. split; [done|simpl; lia].
Qed.

Lemma insert_sql_short t : size (insert_sql fmt t) < 128.
Proof. by destruct fmt, t. Qed.

Lemma insert_sql_inj t1 t2 : insert_sql fmt t1 = insert_sql fmt t2 -> t1 = t2.
Proof. destruct fmt, t1, t2; intros E; try done; vm_compute in E; discriminate E. Qed.

Lemma acknowledged_other t t' u body r :
  t' <> t -> ch_target c0 (insert_sql fmt t) = Some u -> acknowledged t' [(u, body, r)] = [].
Proof.
  intros Hne Hu. unfold acknowledged. rewrite filter_cons, filter_nil. cbn [fst snd].
  rewrite decide_False; [done|]. intros [Hu' _]. apply Hne, insert_sql_inj. by eapply ch_target_inj.
Qed.

(** What is still in the body of a table. *)
Definition pending (s : ch_store C) (t : table_id) : bytes := slice_bytes (idx_ch_rows_body (rows s t)).

Lemma pending_text s acc l t : table_ok s acc l t -> concat (acknowledged t l) ++ pending s t = rows_of_table t acc ≫= text.
Proof. intros [kept o Hh _ _ Ht]. unfold pending. by rewrite (holds_body _ _ _ _ _ Hh). Qed.

(** A table whose count is 0 has nothing pending. *)
Lemma no_rows_pending s acc l t :
  table_ok s acc l t -> size acc < 2 ^ 64 -> idx_ch_rows_count (rows s t) = 0 -> pending s t = [].
Proof.
  intros [kept o Hh _ Hf _] Hacc Hc. unfold idx_ch_rows_count in Hc. rewrite (holds_count _ _ _ _ _ Hh) in Hc.
  rewrite u64_small in Hc by (unfold is_u64, size in *; lia). unfold pending. rewrite (holds_body _ _ _ _ _ Hh).
  destruct kept; [done|]. unfold size in Hc. simpl in Hc. lia.
Qed.

Lemma run_inv_more s acc l c e :
  run_inv s acc l -> ch_ok c -> (forall sql, ch_target c sql = ch_target (conn s) sql) -> ch_sent c = ch_sent (conn s) ++ e ->
  (forall t, concat (acknowledged t e) = []) -> run_inv (ChStore c (store_format s) (rows s)) acc (l ++ e).
Proof.
  intros [Hok Hf Ht Hs Hts] Hok' Ht' Hs' He. split; try done.
  - intros sql. cbn [conn]. by rewrite Ht'.
  - cbn [conn]. by rewrite Hs', Hs, app_assoc.
  - intros t. destruct (Hts t) as [kept o Hh Hw Hfew Htx]. apply (TableOk _ _ _ _ kept o); try done.
    rewrite acknowledged_app, concat_app, He, app_nil_r. exact Htx.
Qed.

(** One acknowledged insert. *)
Lemma run_inv_delivered s acc l c t u :
  run_inv s acc l -> ch_ok c -> (forall sql, ch_target c sql = ch_target (conn s) sql) ->
  ch_target (conn s) (insert_sql fmt t) = Some u -> ch_sent c = ch_sent (conn s) ++ [(u, pending s t, Ok tt)] ->
  run_inv (with_rows (ChStore c (store_format s) (rows s)) t (idx_ch_rows_reset (rows s t))) acc (l ++ [(u, pending s t, Ok tt)]).
Proof.
  intros [Hok Hf Ht Hs Hts] Hok' Ht' Hu Hs'. rewrite Ht in Hu. split; try done.
  - intros sql. cbn [conn with_rows]. by rewrite Ht'.
  - cbn [conn with_rows]. by rewrite Hs', Hs, app_assoc.
  - intros t'. destruct (decide (t' = t)) as [->|Hne].
    + pose proof (pending_text _ _ _ _ (Hts t)) as Hp. destruct (Hts t) as [kept o Hh Hw Hfew Htx].
      apply (TableOk _ _ _ _ [] false).
      * cbn [with_rows rows]. rewrite decide_True by done. by eapply reset_holds.
      * done.
      * unfold size. simpl. lia.
      * cbn [mbind list_bind]. rewrite app_nil_r, acknowledged_app, concat_app, <- Hp. f_equal.
        unfold acknowledged. rewrite filter_cons, filter_nil. cbn [fst snd]. rewrite decide_True by done. cbn. by rewrite app_nil_r.
    + destruct (Hts t') as [kept o Hh Hw Hfew Htx]. apply (TableOk _ _ _ _ kept o); try done.
      * cbn [with_rows rows]. by rewrite decide_False.
      * rewrite acknowledged_app, (acknowledged_other t t' u) by done. by rewrite app_nil_r.
Qed.

Lemma flush_spec ts s acc l :
  run_inv s acc l -> size acc < 2 ^ 64 ->
  let '(r, s') := flush_tables ts s in
  exists l', run_inv s' acc (l ++ l') /\ (forall t, pending s t = [] -> pending s' t = []) /\
    (r = Ok tt -> forall t, t ∈ ts -> pending s' t = []).
Proof.
  intros Hi Hacc. revert s l Hi. induction ts as [|t ts IH]; intros s l Hi; cbn [flush_tables].
  { exists []. rewrite app_nil_r. split; [done|]. split; [done|]. intros _ t Ht. by apply not_elem_of_nil in Ht. }
  pose proof (inv_tables _ _ _ Hi t) as Htok.
  destruct (idx_ch_rows_count (rows s t) =? 0) eqn:Ec; zbool.
  { specialize (IH s l Hi). destruct (flush_tables ts s) as [r s']. destruct IH as (l' & Hi' & Hk & Hd).
    exists l'. split; [done|]. split; [done|]. intros Hr t' [->|Ht']%elem_of_cons; [|by apply Hd].
    apply Hk. by eapply no_rows_pending. }
  rewrite (inv_format _ _ _ Hi).
  pose proof (ch_insert_spec (conn s) (insert_sql fmt t) (idx_ch_rows_body (rows s t)) (inv_ok _ _ _ Hi) (insert_sql_short t)) as Hins.
  destruct (ch_insert _ _ _) as [r c]. destruct Hins as (Hc & Htgt & Hsent). fold (pending s t) in Hsent.
  destruct r as [[]|e].
  - destruct (ch_target (conn s) (insert_sql fmt t)) as [u|] eqn:Eu; [|by destruct Hsent].
    pose proof (run_inv_delivered s acc l c t u Hi Hc Htgt Eu Hsent) as Hi1. rewrite (inv_format _ _ _ Hi) in Hi1.
    set (s1 := with_rows _ _ _) in *.
    assert (forall t', pending s t' = [] -> pending s1 t' = []) as Hk1.
    { intros t' Hp. unfold pending. subst s1. cbn [with_rows rows]. destruct (decide (t' = t)); [|done].
      unfold idx_ch_rows_body, idx_ch_rows_reset. cbn. by destruct (_ =? _). }
    assert (pending s1 t = []) as Hp1.
    { unfold pending. subst s1. cbn [with_rows rows]. rewrite decide_True by done.
      unfold idx_ch_rows_body, idx_ch_rows_reset. cbn. by destruct (_ =? _). }
    specialize (IH s1 _ Hi1). destruct (flush_tables ts s1) as [r s']. destruct IH as (l' & Hi' & Hk & Hd).
    exists ([(u, pending s t, Ok tt)] ++ l'). rewrite app_assoc. split; [done|]. split; [by auto|].
    intros Hr t' [->|Ht']%elem_of_cons; [by apply Hk|by apply Hd].
  - assert (exists e', ch_sent c = ch_sent (conn s) ++ e' /\ forall t', concat (acknowledged t' e') = []) as (e' & He & Hnone).
    { destruct (ch_target (conn s) (insert_sql fmt t)) as [u|].
      - exists [(u, pending s t, Err e)]. split; [done|]. intros t'. unfold acknowledged. rewrite filter_cons, filter_nil. cbn [fst snd].
        rewrite decide_False; [done|]. by intros [_ ?].
      - exists []. destruct Hsent as [-> _]. by rewrite app_nil_r. }
    exists e'. split; [|by split]. pose proof (run_inv_more s acc l c e' Hi Hc Htgt He Hnone) as Hm. by rewrite (inv_format _ _ _ Hi) in Hm.
Qed.

(** Everything the calls offer. *)
Definition offered (calls : list ch_call) : list entry := calls ≫= fun k => match k with Append set => set_entries set | Flush => [] end.

Definition ch_call_ok (k : ch_call) : Prop := match k with Append set => Forall elem_ok (concat (ws_arrays set)) | Flush => True end.

Lemma run_spec calls s h acc l :
  run_inv s acc l -> Forall ch_call_ok calls -> size acc + size (offered calls) < 2 ^ 64 ->
  let '(rs, s', h') := ch_run calls s h in
  exists acc' l', takes calls rs acc' /\ run_inv s' (acc ++ acc') (l ++ l') /\
    (last calls = Some Flush -> last rs = Some (Ok tt) -> forall t, pending s' t = []).
Proof.
  intros Hi Hc. revert s h acc l Hi. induction Hc as [|k calls Hk Hc IH]; intros s h acc l Hi Hsz; cbn [ch_run].
  { exists [], []. rewrite !app_nil_r. split; [constructor|]. by split. }
  unfold offered, size in Hsz. rewrite bind_cons, length_app in Hsz. fold (offered calls) in Hsz.
  assert (forall r rs, last (k :: calls) = Some Flush -> last (r :: rs) = Some (Ok tt) ->
            length calls = length rs -> calls <> [] -> last calls = Some Flush /\ last rs = Some (Ok tt)) as Hlast.
  { intros r rs H1 H2 Hl Hne. destruct calls as [|k2 calls]; [done|]. destruct rs as [|r2 rs]; [done|]. done. }
  assert (forall calls s h, length (ch_run calls s h).1.1 = length calls) as Hlen.
  { clear. intros calls. induction calls as [|k calls IH]; intros s h; cbn [ch_run]; [done|].
    destruct (ch_step k s h) as [[r s1] h1]. specialize (IH s1 h1). destruct (ch_run calls s1 h1) as [[rs s2] h2]. simpl in *. lia. }
  destruct k as [set|]; cbn [ch_step].
  - rewrite append_elems. pose proof (put_elems_spec (write_set_version set) (concat (ws_arrays set)) s h acc l Hi Hk) as Hp.
    destruct (each _ _ _ _) as [[r s1] h1]. destruct Hp as (n & Hi1 & Hr). fold (set_entries set) in Hi1.
    assert (length (set_entries set) = length (concat (ws_arrays set))) as Hls by (unfold set_entries; by rewrite length_fmap).
    specialize (IH s1 h1 _ l Hi1). specialize (Hlen calls s1 h1). destruct (ch_run calls s1 h1) as [[rs s2] h2] eqn:Erun.
    destruct IH as (acc' & l' & Htk & Hi2 & Hd); [unfold size; rewrite length_app, length_take; lia|].
    exists (take n (set_entries set) ++ acc'), l'. split; [|split; [by rewrite app_assoc|]].
    + destruct r as [[]|e]; [rewrite take_ge by lia; by constructor|by constructor; [|lia]].
    + intros H1 H2. destruct calls as [|k2 calls]; [done|]. by destruct (Hlast r rs H1 H2 (eq_sym Hlen)) as [? ?]; [|apply Hd].
  - unfold store_flush. pose proof (flush_spec tables s acc l Hi ltac:(unfold size; lia)) as Hf.
    destruct (flush_tables tables s) as [r s1]. destruct Hf as (l1 & Hi1 & _ & Hd1).
    specialize (IH s1 h acc _ Hi1). specialize (Hlen calls s1 h). destruct (ch_run calls s1 h) as [[rs s2] h2] eqn:Erun.
    destruct IH as (acc' & l' & Htk & Hi2 & Hd); [unfold size; lia|].
    exists acc', (l1 ++ l'). split; [by constructor|]. split; [by rewrite app_assoc|].
    intros H1 H2. destruct calls as [|k2 calls].
    + cbn [ch_run] in Erun. injection Erun as <- <- <-. injection H2 as ->. intros t. apply Hd1; [done|]. apply all_tables.
    + by destruct (Hlast r rs H1 H2 (eq_sym Hlen)) as [? ?]; [|apply Hd].
Qed.

Lemma opened_inv : ch_ok c0 -> run_inv (ChStore c0 fmt (fun _ => idx_ch_rows_init fmt)) [] [].
Proof.
  intros Hok. split; try done; [by rewrite app_nil_r|]. intros t. apply (TableOk _ _ _ _ [] false); [apply init_holds|done|done|done].
Qed.

Definition failed {A} (r : result A) : Prop := match r with Ok _ => False | Err _ => True end.

(** A body with an open row and no row before it keeps the elements of its table out. *)
Definition blocked (s : ch_store C) (t : table_id) : Prop := in_row (rows s t) = true /\ idx_ch_rows_count (rows s t) = 0.

Lemma each_blocked version t xs (s : ch_store C) h :
  Forall elem_ok xs -> in_row (rows s t) = true ->
  let '(r, s', h') := each (fun x => on_table (elem_table x) (encoder nan_bits version x)) xs s h in
  rows s' t = rows s t /\ (Exists (fun x => elem_table x = t) xs -> failed r).
Proof.
  intros Hxs Hb. revert s h Hb. induction Hxs as [|x xs Hx Hxs IH]; intros s h Hb; cbn [each].
  { split; [done|]. intros He. by apply Exists_nil in He. }
  unfold then_step at 1. unfold on_table at 1. destruct (decide (elem_table x = t)) as [Et|Et].
  - rewrite (encoder_row nan_bits version x Hx), Et, put_row_open by done. cbn [with_rows rows]. by rewrite decide_True.
  - destruct (encoder _ _ _ _ _) as [[r w] h1].
    assert (rows (with_rows s (elem_table x) w) t = rows s t) as Hs by (cbn [with_rows rows]; rewrite decide_False; congruence).
    destruct r as [[]|e]; [|by split].
    specialize (IH (with_rows s (elem_table x) w) h1 ltac:(by rewrite Hs)). destruct (each _ _ _ _) as [[r2 s2] h2].
    destruct IH as [H1 H2]. split; [congruence|]. intros He. inversion He; subst; [done|by apply H2].
Qed.

Lemma flush_blocked t ts (s : ch_store C) : blocked s t -> rows (flush_tables ts s).2 t = rows s t.
Proof.
  intros Hb. assert (forall s', rows s' t = rows s t -> rows (flush_tables ts s').2 t = rows s t) as H; [|by apply H].
  induction ts as [|t' ts IH]; intros s' Hs; cbn [flush_tables]; [done|].
  destruct (_ =? 0) eqn:Ec; [by apply IH|]. destruct (ch_insert _ _ _) as [[[]|e] c]; [|done].
  apply IH. cbn [with_rows rows]. rewrite decide_False; [done|]. intros ->. destruct Hb as [_ Hb]. rewrite Hs, Hb in Ec. done.
Qed.

End Runs.

(** *** Properties *)

(** C27. Every encoder of the ClickHouse store writes a row of its table: for a write set's
    element whose fields are within their C types, the encoder is the writing of one row
    whose columns are, by name and in order, those the CREATE TABLE statement of the
    element's table declares, each with a value of the declared type. *)
Theorem ch_rows_match_schema nan_bits version x :
  is_u64 version -> elem_ok x ->
  encoder nan_bits version x ≐ put_row nan_bits (elem_row version x) /\
  map fst (elem_row version x) = map fst (table_columns (elem_table x)) /\
  row_of (map snd (table_columns (elem_table x))) (elem_row version x).
Proof. intros Hv Hx. split; [by apply encoder_row|]. split; [apply row_names|by apply row_types]. Qed.

(** C26. Delivery to ClickHouse, over any connection that keeps its promises and any
    sequence of appends and flushes, allocation failures and failed inserts included:
    for every table, the bodies the server acknowledged followed by what is still
    pending are exactly the text of the rows the appends left with the store, in order;
    no row is lost, sent twice in acknowledged requests, or sent to another table.  An
    append that fails leaves a strict prefix of its set.  A flush that succeeds leaves
    nothing pending. *)
Theorem ch_store_history {C} `{ChSpec C ch_ok} nan_bits fmt c0 calls h :
  ch_ok c0 -> Forall ch_call_ok calls -> size (offered calls) < 2 ^ 64 ->
  let '(rs, s, h') := ch_run nan_bits calls (ChStore c0 fmt (fun _ => idx_ch_rows_init fmt)) h in
  exists acc l, takes calls rs acc /\ ch_sent (conn s) = ch_sent c0 ++ l /\
    (forall t, concat (acknowledged fmt c0 t l) ++ pending s t = rows_of_table t acc ≫= row_text nan_bits fmt) /\
    (last calls = Some Flush -> last rs = Some (Ok tt) -> forall t, pending s t = []).
Proof.
  intros Hok Hc Hsz. pose proof (run_spec nan_bits fmt c0 calls _ h [] [] (opened_inv nan_bits fmt c0 Hok) Hc Hsz) as Hr.
  destruct (ch_run _ _ _ _) as [[rs s] h']. destruct Hr as (acc & l & Ht & Hi & Hl). exists acc, l.
  split; [done|]. split; [apply Hi|]. split; [|done]. intros t. apply (pending_text _ _ _ s acc l t). apply Hi.
Qed.

(** A failed row wedges its table: once an append has failed inside the first row of
    a table's body, no later call of the store changes that body, and every append with
    an element of that table fails, whatever the memory and the server do; only closing
    the store ends it, since a flush empties the tables that hold rows and no others. *)
Theorem ch_store_wedges {C} `{ChOps C} nan_bits calls (s : ch_store C) h t :
  Forall ch_call_ok calls -> in_row (rows s t) = true -> idx_ch_rows_count (rows s t) = 0 ->
  let '(rs, s', h') := ch_run nan_bits calls s h in
  rows s' t = rows s t /\
  Forall2 (fun k r => match k with
                      | Append set => Exists (fun x => elem_table x = t) (concat (ws_arrays set)) -> failed r
                      | Flush => True
                      end) calls rs.
Proof.
  intros Hc Hb Hn. revert s h Hb Hn. induction Hc as [|k calls Hk Hc IH]; intros s h Hb Hn; cbn [ch_run]; [done|].
  destruct (ch_step nan_bits k s h) as [[r s1] h1] eqn:Ek.
  assert (rows s1 t = rows s t /\ match k with
            | Append set => Exists (fun x => elem_table x = t) (concat (ws_arrays set)) -> failed r | Flush => True end) as [Hs Hr].
  { destruct k as [set|]; cbn [ch_step] in Ek.
    - rewrite append_elems in Ek. pose proof (each_blocked nan_bits (write_set_version set) t _ s h Hk Hb) as He. by rewrite Ek in He.
    - unfold store_flush in Ek. pose proof (flush_blocked t tables s (conj Hb Hn)) as Hf.
      destruct (flush_tables tables s) as [r0 s0]. injection Ek as <- <- <-. by split. }
  specialize (IH s1 h1 ltac:(by rewrite Hs) ltac:(by rewrite Hs)). destruct (ch_run nan_bits calls s1 h1) as [[rs s2] h2].
  destruct IH as [H1 H2]. split; [congruence|]. by constructor.
Qed.

(** *** A connection with an answer for each insert *)

Definition scripted : Type := list (result unit) * list (bytes * bytes * result unit).

#[export] Instance scripted_ops : ChOps scripted := {|
  ch_query c sql := (Ok tt, c);
  ch_insert c sql body :=
    let r := default (Err IDX_ERR_NETWORK) (head c.1) in (r, (tail c.1, c.2 ++ [(sql, slice_bytes body, r)]));
  ch_target c sql := Some sql;
  ch_sent c := c.2
|}.

#[export] Instance scripted_spec : ChSpec scripted (fun _ => True).
Proof. split; [done|]. intros c s1 s2 u E1 E2. cbn in *. congruence. Qed.

Definition a_block (slot : Z) : idx_store_block_row :=
  StoreBlock slot (Hash (replicate 32 1)) (Hash (replicate 32 2)) (slot - 1) (Some 1700000000) None 3.
Definition blocks_set (slots : list Z) : idx_store_write_set := WriteSet (a_block <$> slots) [] [] [] [] [] [] [].

Lemma a_block_ok slot : 1 <= slot < 2 ^ 64 -> elem_ok (ElemBlock (a_block slot)).
Proof.
  intros Hs. cbn [elem_ok a_block sb_slot sb_blockhash sb_previous_blockhash sb_parent_slot sb_block_time sb_block_height sb_transaction_count].
  split; [unfold is_u64; lia|]. split; [decide_now|]. split; [decide_now|]. split; [unfold is_u64; lia|].
  split; [by vm_compute|]. split; [done|]. by vm_compute.
Qed.

Lemma blocks_set_ok slots : Forall (fun slot => 1 <= slot < 2 ^ 64) slots -> Forall elem_ok (concat (ws_arrays (blocks_set slots))).
Proof.
  intros Hs. unfold ws_arrays, blocks_set. cbn [ws_blocks ws_sol_balances ws_token_balances ws_transfers ws_swaps ws_pools ws_tokens ws_bars concat].
  rewrite !app_nil_r. induction Hs as [|slot slots Hs _ IH]; [done|]. constructor; [by apply a_block_ok|exact IH].
Qed.

Lemma ch_rows_match_schema_witness :
  encoder 0 7 (ElemBlock (a_block 7)) ≐ put_row 0 (elem_row 7 (ElemBlock (a_block 7))) /\
  map fst (elem_row 7 (ElemBlock (a_block 7))) = map fst (table_columns TBL_BLOCKS).
Proof. destruct (ch_rows_match_schema 0 7 (ElemBlock (a_block 7))) as (H1 & H2 & _); [by vm_compute|by apply a_block_ok|by split]. Defined.

Ltac calls_ok := repeat (apply Forall_cons; split; [first [exact I | apply blocks_set_ok; decide_now]|]); apply Forall_nil_2.

(** Two appends, a flush that times out and one that is accepted. *)
Definition some_history : list ch_call := [Append (blocks_set [5; 6]); Append (blocks_set [7]); Flush; Flush].
Definition an_answer : scripted := ([Err IDX_ERR_TIMEOUT; Ok tt], []).

Lemma ch_store_history_witness :
  let '(rs, s, h') := ch_run 0 some_history (ChStore an_answer IDX_CH_FORMAT_ROW_BINARY (fun _ => idx_ch_rows_init IDX_CH_FORMAT_ROW_BINARY)) [] in
  rs = [Ok tt; Ok tt; Err IDX_ERR_TIMEOUT; Ok tt] /\ length (ch_sent (conn s)) = 2%nat /\ forall t, pending s t = [].
Proof.
  pose proof (ch_store_history (ch_ok := fun _ => True) 0 IDX_CH_FORMAT_ROW_BINARY an_answer some_history [] I) as H.
  specialize (H ltac:(calls_ok) ltac:(by vm_compute)).
  set (run := ch_run 0 some_history _ []) in *.
  assert (run.1.1 = [Ok tt; Ok tt; Err IDX_ERR_TIMEOUT; Ok tt] /\ length (ch_sent (conn run.1.2)) = 2%nat) as [Hr Hs] by (split; by vm_compute).
  destruct run as [[rs s] h']. destruct H as (acc & l & _ & _ & _ & Hp). cbn [fst snd] in *. subst rs. split; [done|]. split; [done|]. by apply Hp.
Defined.

(** An append that finds no memory in its first row. *)
Definition wedged : ch_store scripted :=
  (store_append 0 (Some (blocks_set [5]))
     (ChStore an_answer IDX_CH_FORMAT_ROW_BINARY (fun _ => idx_ch_rows_init IDX_CH_FORMAT_ROW_BINARY)) [false]).1.2.

Lemma ch_store_wedges_witness :
  let '(rs, s, h') := ch_run 0 [Flush; Append (blocks_set [6])] wedged [] in
  rows s TBL_BLOCKS = rows wedged TBL_BLOCKS /\ exists r1 r2, rs = [r1; r2] /\ r1 = Ok tt /\ failed r2.
Proof.
  pose proof (ch_store_wedges 0 [Flush; Append (blocks_set [6])] wedged [] TBL_BLOCKS) as H.
  specialize (H ltac:(calls_ok) ltac:(by vm_compute) ltac:(by vm_compute)).
  assert (head (ch_run 0 [Flush; Append (blocks_set [6])] wedged []).1.1 = Some (Ok tt)) as Hh by (by vm_compute).
  destruct (ch_run _ _ _ _) as [[rs s] h']. destruct H as [Hw Hf]. split; [done|].
  apply Forall2_cons_inv_l in Hf as (r1 & rs1 & _ & Hf & ->). apply Forall2_cons_inv_l in Hf as (r2 & rs2 & Hr & Hf & ->).
  apply Forall2_nil_inv_l in Hf as ->. exists r1, r2. split; [done|]. split; [by injection Hh|]. by apply Hr, Exists_cons_hd.
Defined.

(** *** The key of a swap *)

(** The columns a table is sorted by, in a row. *)
Definition key_of_row (t : table_id) (r : row) : list (option cell) :=
  (fun name => snd <$> list_find (fun c => c.1 = name) r ≫= fun x => Some x.2) <$> sort_key (schema_of t).

(** A route whose first inner instruction is the swap of a pool. *)
Definition collision_tx : idx_transaction :=
  Transaction IDX_TX_VERSION_LEGACY [] 0 0 0 (Hash [])
    (accounts sample_amm ++ [Account IDX_PROGRAM_JUPITER false false false]) 18
    [Instruction 17 [] (Some [1]) 0]
    [InnerInstructions 0 [sample_swap; leg_ix IDX_PROGRAM_MEMO 7 IDX_PROGRAM_TOKEN 2]] true true 0 [] [] [] [] [].
Definition collision_rows : list idx_swap_row := match (idx_swap_normalize collision_tx two_pages).1 with Ok rows => rows | Err _ => [] end.

(** The instruction path does not identify a swap: a transaction whose route starts
    with the swap of a pool as its first inner instruction gives two rows, the pool's and
    the route's, that differ in kind, venue and amounts and agree on every column the
    swaps table is sorted and replaced by, because a top-level event and the first inner
    one both store inner_index 0. *)
Theorem swap_key_collision :
  exists p r, (idx_swap_normalize collision_tx two_pages).1 = Ok [p; r] /\
    sr_kind p = IDX_SWAP_POOL /\ sr_kind r = IDX_SWAP_AGGREGATED /\ sr_input_amount p <> sr_input_amount r /\
    forall ref price_p price_r time,
      let key row := key_of_row TBL_SWAPS (swap_row (StoreSwap ref row (match sr_kind row with IDX_SWAP_POOL => price_p | IDX_SWAP_AGGREGATED => price_r end) time)) in
      key p = key r /\ Forall is_Some (key p).
Proof.
  assert (exists p r, collision_rows = [p; r]) as (p & r & E) by (do 2 eexists; vm_compute; reflexivity).
  exists p, r. assert ((idx_swap_normalize collision_tx two_pages).1 = Ok collision_rows) as -> by (vm_compute; reflexivity).
  rewrite E. split; [done|]. vm_compute in E. injection E as <- <-.
  split; [done|]. split; [done|]. split; [done|]. intros ref price_p price_r time.
  split; [vm_compute; reflexivity|]. vm_compute. repeat (apply Forall_cons; split; [by eexists|]). by apply Forall_nil_2.
Qed.
