(* ===== verification/Rpc.v ===== *)
(** * rpc.c: JSON-RPC over HTTP

    The client the fetchers recover blocks with: retries with back-off and fail-over,
    single calls and batches, and the methods of the indexer.  libcurl is the world
    outside: an [exchange] is what one transfer delivers, so a list of them is any
    network; yyjson is a function from text to trees.  Both are arguments.  The world
    also keeps a log of what was sent where and how long was slept, which the code does
    not read. *)

From S2P Require Import Prelude Radix Bytes Decimal Vec Types Json.
#[local] Open Scope Z_scope.

(** src/src/rpc.c:11-18 [IDX_RPC_DEFAULT_BLOCKS_RANGE] *)
Definition IDX_RPC_DEFAULT_CONNECT_TIMEOUT_MS : Z := 10000.
Definition IDX_RPC_DEFAULT_TIMEOUT_MS : Z := 120000.
Definition IDX_RPC_DEFAULT_MAX_ATTEMPTS : Z := 4.
Definition IDX_RPC_DEFAULT_BACKOFF_INITIAL_MS : Z := 250.
Definition IDX_RPC_DEFAULT_BACKOFF_MAX_MS : Z := 8000.
Definition IDX_RPC_DEFAULT_BLOCKS_RANGE : Z := 500000.

(** src/src/rpc.c:26-28 [IDX_RPC_ERR_SLOT_SKIPPED] *)
Definition IDX_RPC_ERR_SLOT_SKIPPED : Z := -32007.
Definition IDX_RPC_ERR_SLOT_NOT_AVAILABLE : Z := -32004.
Definition IDX_RPC_ERR_LONG_TERM_STORAGE : Z := -32009.

(** src/include/rpc.h:30-53 [idx_rpc_options] *)
Record idx_rpc_options := RpcOptions {
  option_urls : option (list bytes);
  connect_timeout_ms : Z;
  timeout_ms : Z;
  max_attempts : Z;
  backoff_initial_ms : Z;
  backoff_max_ms : Z;
  blocks_range_limit : Z;
  verify_tls : bool
}.

(** src/include/rpc.h:58-64 [idx_rpc_stats] *)
Record idx_rpc_stats := RpcStats {
  requests : Z;
  retries : Z;
  rate_limited : Z;
  failovers : Z;
  bytes_received : Z
}.

(** src/src/rpc.c:30-44 [idx_rpc]: without libcurl's handles. *)
Record idx_rpc := Rpc {
  urls : list bytes;
  current_url : nat;
  options : idx_rpc_options;
  response : idx_buffer;
  request : idx_buffer;
  next_id : Z;
  stats : idx_rpc_stats;
  rng_state : Z
}.

(** src/include/rpc.h:66-69 [idx_rpc_response] *)
Record idx_rpc_response := Response { doc : option json; rpc_result : idx_json_val }.

(** src/include/rpc.h:102-105 [idx_rpc_batch_call] *)
Record idx_rpc_batch_call := BatchCall { call_method : option bytes; call_params : option bytes }.

(** src/include/rpc.h:107-112 [idx_rpc_batch]: [count] is the length of the arrays. *)
Record idx_rpc_batch := Batch { batch_doc : option json; results : list idx_json_val; statuses : list idx_status }.

(** src/include/rpc.h:142-148 [idx_rpc_block_options] *)
Record idx_rpc_block_options := BlockOptions {
  encoding : bytes;
  transaction_details : bytes;
  commitment : bytes;
  rewards : bool;
  max_supported_transaction_version : Z
}.

(** ** The world *)

(** One transfer: the pieces of the body libcurl hands over, decompressed, and the
    HTTP status, or none when the transfer fails. *)
Record exchange := Exchange { ex_chunks : list bytes; ex_status : option Z }.

Record world := World { net : list exchange; mem : heap; sent : list (bytes * bytes); slept : list Z }.

(** A function of the client: fallible, changing the client and the world. *)
Definition call (A : Type) : Type := idx_rpc * world -> result A * (idx_rpc * world).

#[export] Instance call_ret : MRet call := fun A a st => (Ok a, st).

(** [IDX_TRY] in these functions: what changed stays changed. *)
#[export] Instance call_bind : MBind call := fun A B f c st =>
  match c st with
  | (Ok a, st) => f a st
  | (Err s, st) => (Err s, st)
  end.

Definition fail {A} (s : idx_status) : call A := fun st => (IDX_FAIL s, st).

(** A status already settled, and a look at the client. *)
Definition lift {A} (r : result A) : call A := fun st => (r, st).
Definition gets {A} (f : idx_rpc -> A) : call A := fun st => (Ok (f st.1), st).

Definition with_response (r : idx_rpc) (b : idx_buffer) : idx_rpc :=
  Rpc (urls r) (current_url r) (options r) b (request r) (next_id r) (stats r) (rng_state r).
Definition with_request (r : idx_rpc) (b : idx_buffer) : idx_rpc :=
  Rpc (urls r) (current_url r) (options r) (response r) b (next_id r) (stats r) (rng_state r).
Definition with_stats (r : idx_rpc) (s : idx_rpc_stats) : idx_rpc :=
  Rpc (urls r) (current_url r) (options r) (response r) (request r) (next_id r) s (rng_state r).
Definition with_mem (w : world) (h : heap) : world := World (net w) h (sent w) (slept w).

(** ** Options *)

(** src/src/rpc.c:46-59 [idx_rpc_options_init] *)
Definition idx_rpc_options_init : idx_rpc_options :=
  RpcOptions None IDX_RPC_DEFAULT_CONNECT_TIMEOUT_MS IDX_RPC_DEFAULT_TIMEOUT_MS IDX_RPC_DEFAULT_MAX_ATTEMPTS
    IDX_RPC_DEFAULT_BACKOFF_INITIAL_MS IDX_RPC_DEFAULT_BACKOFF_MAX_MS IDX_RPC_DEFAULT_BLOCKS_RANGE true.

(** src/src/rpc.c:61-70 [idx_rpc_block_options_init] *)
Definition idx_rpc_block_options_init : idx_rpc_block_options :=
  BlockOptions (lit "json") (lit "full") (lit "confirmed") false 0.

(** src/src/rpc.c:106-118 [ensure_curl_global]: the static flag, and whether
    [curl_global_init] works. *)
Definition ensure_curl_global (initialized curl_works : bool) : result unit * bool :=
  if initialized then (Ok tt, true)
  else if curl_works then (Ok tt, true)
  else (IDX_FAIL IDX_ERR_INTERNAL, false).

(** src/src/rpc.c:157-169 [idx_rpc_open]: the loop that copies the URLs. *)
Fixpoint copy_urls (given : list bytes) (h : heap) : option (list bytes) * heap :=
  match given with
  | [] => (Some [], h)
  | url :: given =>
      let '(ok, h) := malloc h in
      if ok then
        let '(rest, h) := copy_urls given h in
        (cons (take (strlen url) url) <$> rest, h)
      else (None, h)
  end.

(** src/src/rpc.c:120-205 [idx_rpc_open]: [clock] is [monotonic_ms], [curl_works] what
    [curl_global_init], [curl_easy_init] and [curl_slist_append] answer; the options
    libcurl is given are not modelled. *)
Definition idx_rpc_open (opts : option idx_rpc_options) (initialized : bool) (curl_works : bool * bool * bool) (clock : Z)
    (h : heap) : result idx_rpc * bool * heap :=
  match opts with
  | Some opts =>
      match option_urls opts with
      | Some ((_ :: _) as given) =>
          match ensure_curl_global initialized curl_works.1.1 with
          | (Err s, initialized) => (Err s, initialized, h)
          | (Ok _, initialized) =>
              let '(ok, h) := calloc 1 1 h in
              if negb ok then (IDX_FAIL IDX_ERR_NO_MEMORY, initialized, h)
              else
                let attempts := if max_attempts opts <? 1 then 1 else max_attempts opts in
                let initial := if backoff_initial_ms opts <=? 0 then IDX_RPC_DEFAULT_BACKOFF_INITIAL_MS
                               else backoff_initial_ms opts in
                let most := if backoff_max_ms opts <? initial then initial else backoff_max_ms opts in
                let '(ok, h) := calloc (size given) 8 h in
                if negb ok then (IDX_FAIL IDX_ERR_NO_MEMORY, initialized, h)
                else
                  match copy_urls given h with
                  | (None, h) => (IDX_FAIL IDX_ERR_NO_MEMORY, initialized, h)
                  | (Some copies, h) =>
                      if negb curl_works.1.2 then (IDX_FAIL IDX_ERR_INTERNAL, initialized, h)
                      else if negb curl_works.2 then (IDX_FAIL IDX_ERR_NO_MEMORY, initialized, h)
                      else
                        (Ok (Rpc copies 0
                               (RpcOptions None (connect_timeout_ms opts) (timeout_ms opts) attempts initial most
                                  (blocks_range_limit opts) (verify_tls opts))
                               idx_buffer_init idx_buffer_init 1 (RpcStats 0 0 0 0 0) (Z.lor (u32 clock) 1)),
                         initialized, h)
                  end
          end
      | _ => (IDX_FAIL IDX_ERR_INVALID_ARG, initialized, h)
      end
  | None => (IDX_FAIL IDX_ERR_INVALID_ARG, initialized, h)
  end.

(** src/src/rpc.c:226-231 [idx_rpc_current_url] *)
Definition idx_rpc_current_url (rpc : option idx_rpc) : bytes :=
  match rpc with
  | Some r => if (length (urls r) =? 0)%nat then [] else default [] (urls r !! current_url r)
  | None => []
  end.

(** ** One request, with retries *)

(** src/src/rpc.c:72-79 [next_random] *)
Definition next_random (rpc : idx_rpc) : Z * idx_rpc :=
  let x := rng_state rpc in
  let x := Z.lxor x (u32 (Z.shiftl x 13)) in
  let x := Z.lxor x (Z.shiftr x 17) in
  let x := Z.lxor x (u32 (Z.shiftl x 5)) in
  (x, Rpc (urls rpc) (current_url rpc) (options rpc) (response rpc) (request rpc) (next_id rpc) (stats rpc) x).

(** src/src/rpc.c:233-240 [rotate_endpoint] *)
Definition rotate_endpoint (rpc : idx_rpc) : idx_rpc :=
  if (length (urls rpc) <? 2)%nat then rpc
  else
    let s := stats rpc in
    Rpc (urls rpc) ((current_url rpc + 1) mod length (urls rpc)) (options rpc) (response rpc) (request rpc) (next_id rpc)
      (RpcStats (requests s) (retries s) (rate_limited s) (u64 (failovers s + 1)) (bytes_received s)) (rng_state rpc).

(** src/src/rpc.c:244-246 [backoff_for]: the loop. *)
Fixpoint backoff_base (attempt : nat) (base most : Z) : Z :=
  match attempt with
  | O => base
  | S attempt => if base <? most then backoff_base attempt (base * 2) most else base
  end.

(** src/src/rpc.c:242-253 [backoff_for] *)
Definition backoff_for (rpc : idx_rpc) (attempt : nat) : Z * idx_rpc :=
  let most := backoff_max_ms (options rpc) in
  let base := backoff_base attempt (backoff_initial_ms (options rpc)) most in
  let base := if most <? base then most else base in
  let half := base / 2 in
  let '(x, rpc) := next_random rpc in
  (half + x mod u32 (half + 1), rpc).

(** src/src/rpc.c:97-104 [on_data]: the number of bytes taken. *)
Definition on_data (chunk : bytes) (rpc : idx_rpc) (h : heap) : Z * idx_rpc * heap :=
  let '(r, b, h) := idx_buffer_append (Some (response rpc)) (Some chunk) (size chunk) h in
  (match r with Ok _ => size chunk | Err _ => 0 end, with_response rpc (default (response rpc) b), h).

(** libcurl gives the pieces one by one and aborts when one is not taken whole. *)
Fixpoint deliver (chunks : list bytes) (rpc : idx_rpc) (h : heap) : bool * idx_rpc * heap :=
  match chunks with
  | [] => (true, rpc, h)
  | chunk :: chunks =>
      let '(taken, rpc, h) := on_data chunk rpc h in
      if taken =? size chunk then deliver chunks rpc h else (false, rpc, h)
  end.

(** The next transfer; out of answers, the network is down. *)
Definition next_exchange (w : world) : exchange := default (Exchange [] None) (hd_error (net w)).

(** src/src/rpc.c:256-273 [perform]: the HTTP status. *)
Definition perform (body : bytes) : call Z := fun '(rpc, w) =>
  let rpc := with_response rpc (default (response rpc) (idx_buffer_clear (Some (response rpc)))) in
  let ex := next_exchange w in
  let '(taken, rpc, h) := deliver (ex_chunks ex) rpc (mem w) in
  let w := World (tail (net w)) h (sent w ++ [(default [] (urls rpc !! current_url rpc), body)]) (slept w) in
  match taken, ex_status ex with
  | true, Some status =>
      let s := stats rpc in
      (Ok status,
       (with_stats rpc (RpcStats (requests s) (retries s) (rate_limited s) (failovers s)
                          (u64 (bytes_received s + size (buf_data (response rpc))))), w))
  | _, _ => (IDX_FAIL IDX_ERR_NETWORK, (rpc, w))
  end.

(** src/src/rpc.c:298-300 [http_status_is_retryable] *)
Definition http_status_is_retryable (status : Z) : bool :=
  (status =? 429) || ((500 <=? status) && (status <? 600)).

(** src/src/rpc.c:276-292 [classify_rpc_error] *)
Definition classify_rpc_error (error_object : idx_json_val) : idx_status :=
  let code := default 0 (succeeded (idx_json_read_i64 error_object (lit "code"))) in
  if (code =? IDX_RPC_ERR_SLOT_SKIPPED) || (code =? IDX_RPC_ERR_SLOT_NOT_AVAILABLE) || (code =? IDX_RPC_ERR_LONG_TERM_STORAGE)
  then IDX_ERR_NOT_FOUND
  else IDX_ERR_REMOTE.

(** src/src/rpc.c:87-95 [sleep_ms] *)
Definition sleep_ms (milliseconds : Z) (w : world) : world :=
  if milliseconds <=? 0 then w else World (net w) (mem w) (sent w) (slept w ++ [milliseconds]).

Section Client.
Context (yyjson_read_opts : bytes -> option json).

(** src/src/rpc.c:308-328 [describe_http_failure]: the message apart, what is left is
    the parse of the body. *)
Definition describe_http_failure (rpc : idx_rpc) (w : world) : world :=
  with_mem w (idx_json_parse yyjson_read_opts (idx_buffer_slice (Some (response rpc))) (mem w)).2.

(** src/src/rpc.c:337-343 [send_with_retries]: what comes before an attempt that is not
    the first. *)
Definition before_retry (attempt : nat) (rpc : idx_rpc) (w : world) : idx_rpc * world :=
  match attempt with
  | O => (rpc, w)
  | S previous =>
      let '(delay, rpc) := backoff_for rpc previous in
      let s := stats rpc in
      (with_stats rpc (RpcStats (requests s) (u64 (retries s + 1)) (rate_limited s) (failovers s) (bytes_received s)),
       sleep_ms delay w)
  end.

(** src/src/rpc.c:336-369 [send_with_retries]: the loop, [todo] attempts left. *)
Fixpoint attempts (todo attempt : nat) (body : bytes) : call unit := fun '(rpc, w) =>
  match todo with
  | O => (IDX_FAIL IDX_ERR_NETWORK, (rpc, w))
  | S todo =>
      match perform body (before_retry attempt rpc w) with
      | (Ok status, (rpc, w)) =>
          let s := stats rpc in
          if status =? 200
          then (Ok tt, (with_stats rpc (RpcStats (u64 (requests s + 1)) (retries s) (rate_limited s) (failovers s)
                                          (bytes_received s)), w))
          else
            let rpc :=
              if status =? 429
              then with_stats rpc (RpcStats (requests s) (retries s) (u64 (rate_limited s + 1)) (failovers s) (bytes_received s))
              else rpc in
            if negb (http_status_is_retryable status) then (Err IDX_ERR_REMOTE, (rpc, describe_http_failure rpc w))
            else attempts todo (S attempt) body (rotate_endpoint rpc, w)
      | (Err _, (rpc, w)) => attempts todo (S attempt) body (rotate_endpoint rpc, w)
      end
  end.

(** src/src/rpc.c:331-373 [send_with_retries] *)
Definition send_with_retries (body : bytes) : call unit := fun st =>
  attempts (Z.to_nat (max_attempts (options st.1))) 0 body st.

(** ** Calls *)

(** [idx_buffer_clear(&rpc->request)] *)
Definition clear_request : call unit := fun '(rpc, w) =>
  (Ok tt, (with_request rpc (default (request rpc) (idx_buffer_clear (Some (request rpc)))), w)).

(** Something appended to the request. *)
Definition write (piece : writer) : call unit := fun '(rpc, w) =>
  let '(r, b, h) := piece (Some (request rpc)) (mem w) in
  (r, (with_request rpc (default (request rpc) b), with_mem w h)).

(** [idx_buffer_append_byte(&rpc->request, byte, err)] *)
Definition append_byte (byte : Z) : writer := fun b h => idx_buffer_append_byte b byte h.

(** [rpc->next_id++] *)
Definition fresh_id : call Z := fun '(rpc, w) =>
  (Ok (next_id rpc),
   (Rpc (urls rpc) (current_url rpc) (options rpc) (response rpc) (request rpc) (u64 (next_id rpc + 1)) (stats rpc)
      (rng_state rpc), w)).

(** The request without its terminator. *)
Definition request_body : call bytes :=
  data ← gets (fun rpc => buf_data (request rpc));
  mret (slice_bytes (idx_slice_make (Some data) (size data - 1))).

(** The response as a tree. *)
Definition parse_response : call json := fun '(rpc, w) =>
  let '(r, h) := idx_json_parse yyjson_read_opts (idx_buffer_slice (Some (response rpc))) (mem w) in
  (r, (rpc, with_mem w h)).

Definition is_error (error_object : idx_json_val) : bool :=
  idx_json_is_present error_object && negb (idx_json_is_null error_object).

(** src/src/rpc.c:383-424 [idx_rpc_call] *)
Definition idx_rpc_call (method : bytes) (params_json : option bytes) : call idx_rpc_response :=
  _ ← clear_request;
  id ← fresh_id;
  _ ← write (idx_json_write_rpc_request id (Some method) params_json);
  _ ← write (append_byte 0);
  body ← request_body;
  _ ← send_with_retries body;
  root ← parse_response;
  let error_object := idx_json_get (Some root) (lit "error") in
  if is_error error_object then fail (classify_rpc_error error_object)
  else
    let result := idx_json_get (Some root) (lit "result") in
    if negb (idx_json_is_present result) then fail IDX_ERR_PARSE
    else mret (Response (Some root) result).

(** src/src/rpc.c:375-381 [idx_rpc_response_free] *)
Definition idx_rpc_response_free (r : idx_rpc_response) : idx_rpc_response := Response None None.

(** ** Batches *)

(** src/src/rpc.c:455-462 [idx_rpc_call_batch]: the loop that writes the calls. *)
Fixpoint write_calls (first : bool) (calls : list idx_rpc_batch_call) : call unit :=
  match calls with
  | [] => mret tt
  | c :: calls =>
      _ ← (if first then mret tt else write (append_byte 44));
      id ← fresh_id;
      _ ← write (idx_json_write_rpc_request id (call_method c) (call_params c));
      write_calls false calls
  end.

(** src/src/rpc.c:499-523 [idx_rpc_call_batch]: one entry of the response; [u64] is the
    wrap-around of the subtraction. *)
Definition match_entry (first_id : Z) (arrays : list idx_json_val * list idx_status) (entry : json)
    : list idx_json_val * list idx_status :=
  let '(results, statuses) := arrays in
  match idx_json_opt_u64 (Some entry) (lit "id") with
  | None => arrays
  | Some id =>
      if (id <? first_id) || (size statuses <=? u64 (id - first_id)) then arrays
      else
        let index := Z.to_nat (u64 (id - first_id)) in
        let error_object := idx_json_get (Some entry) (lit "error") in
        if is_error error_object then (results, <[index := classify_rpc_error error_object]> statuses)
        else
          let result := idx_json_get (Some entry) (lit "result") in
          if negb (idx_json_is_present result) then (results, <[index := IDX_ERR_PARSE]> statuses)
          else (<[index := result]> results, <[index := IDX_OK]> statuses)
  end.

(** The elements [idx_json_array_next] goes through from the first. *)
Definition array_items (array : json) : list json := match array with JArr items => items | _ => [] end.

(** [calloc] of the arrays of a batch. *)
Definition batch_arrays (count : Z) : call bool := fun '(rpc, w) =>
  let '(ok1, h) := calloc count 8 (mem w) in
  let '(ok2, h) := calloc count 4 h in
  (Ok (ok1 && ok2), (rpc, with_mem w h)).

(** src/src/rpc.c:438-526 [idx_rpc_call_batch] *)
Definition idx_rpc_call_batch (calls : list idx_rpc_batch_call) : call idx_rpc_batch :=
  if (length calls =? 0)%nat then fail IDX_ERR_INVALID_ARG
  else
    _ ← clear_request;
    _ ← write (append_byte 91);
    first_id ← gets next_id;
    _ ← write_calls true calls;
    _ ← write (append_byte 93);
    _ ← write (append_byte 0);
    body ← request_body;
    _ ← send_with_retries body;
    root ← parse_response;
    if negb (idx_json_is_array (Some root)) then fail IDX_ERR_PARSE
    else
      allocated ← batch_arrays (size calls);
      if negb allocated then fail IDX_ERR_NO_MEMORY
      else
        let '(results, statuses) :=
          foldl (match_entry first_id) (replicate (length calls) None, replicate (length calls) IDX_ERR_NOT_FOUND)
            (array_items root) in
        mret (Batch (Some root) results statuses).

(** src/src/rpc.c:428-436 [idx_rpc_batch_free] *)
Definition idx_rpc_batch_free (b : idx_rpc_batch) : idx_rpc_batch := Batch None [] [].

(** ** Methods *)

(** src/src/rpc.c:531-538 [commitment_params] *)
Definition commitment_params (commitment : option bytes) (out_size : Z) : bytes :=
  match commitment with
  | None => printed out_size (lit "[]")
  | Some c => printed out_size (lit "[{" ++ quoted (lit "commitment") ++ lit ":" ++ quoted c ++ lit "}]")
  end.

(** src/src/rpc.c:540-552 [call_for_u64] *)
Definition call_for_u64 (method params : bytes) : call Z :=
  response ← idx_rpc_call method (Some params);
  lift (idx_json_as_u64 (rpc_result response)).

(** src/src/rpc.c:554-559 [idx_rpc_get_slot] *)
Definition idx_rpc_get_slot (commitment : option bytes) : call Z :=
  call_for_u64 (lit "getSlot") (commitment_params commitment 128).

(** src/src/rpc.c:561-566 [idx_rpc_get_block_height] *)
Definition idx_rpc_get_block_height (commitment : option bytes) : call Z :=
  call_for_u64 (lit "getBlockHeight") (commitment_params commitment 128).

(** src/src/rpc.c:568-581 [idx_rpc_get_health] *)
Definition idx_rpc_get_health : call unit :=
  response ← idx_rpc_call (lit "getHealth") (Some (lit "[]"));
  text ← lift (idx_json_as_string (rpc_result response));
  if negb (idx_slice_equal text (idx_slice_from_str (Some (lit "ok")))) then fail IDX_ERR_REMOTE else mret tt.

(** src/src/rpc.c:583-602 [idx_rpc_get_version]: what is copied before the NUL. *)
Definition idx_rpc_get_version (out_size : Z) : call bytes :=
  if out_size =? 0 then fail IDX_ERR_INVALID_ARG
  else
    response ← idx_rpc_call (lit "getVersion") (Some (lit "[]"));
    version ← lift (idx_json_read_string (rpc_result response) (lit "solana-core"));
    let length := if slice_len version <? out_size - 1 then slice_len version else out_size - 1 in
    mret (take (Z.to_nat length) (slice_bytes version)).

(** src/src/rpc.c:608-616 [get_blocks_chunk]: the parameters. *)
Definition blocks_params (start last : Z) (commitment : option bytes) : bytes :=
  printed 192
    match commitment with
    | Some c => lit "[" ++ dec start ++ lit "," ++ dec last ++ lit ",{" ++ quoted (lit "commitment") ++ lit ":" ++ quoted c ++ lit "}]"
    | None => lit "[" ++ dec start ++ lit "," ++ dec last ++ lit "]"
    end.

(** src/src/rpc.c:628-635 [get_blocks_chunk]: the loop over the slots listed. *)
Fixpoint push_slots (entries : list json) (slots : idx_vec Z) (h : heap) : result unit * idx_vec Z * heap :=
  match entries with
  | [] => (Ok tt, slots, h)
  | entry :: entries =>
      match idx_json_as_u64 (Some entry) with
      | Err s => (Err s, slots, h)
      | Ok slot =>
          match idx_vec_push 0 (Some slots) (Some slot) h with
          | (Ok _, v, h) => push_slots entries (default slots v) h
          | (Err s, v, h) => (Err s, default slots v, h)
          end
      end
  end.

(** src/src/rpc.c:605-640 [get_blocks_chunk]: the slots are the caller's, and what was
    pushed before a failure stays. *)
Definition get_blocks_chunk (start last : Z) (commitment : option bytes) (slots : idx_vec Z) (st : idx_rpc * world)
    : result unit * idx_vec Z * (idx_rpc * world) :=
  match idx_rpc_call (lit "getBlocks") (Some (blocks_params start last commitment)) st with
  | (Err s, st) => (Err s, slots, st)
  | (Ok response, (rpc, w)) =>
      match rpc_result response with
      | Some (JArr entries) =>
          let '(r, slots, h) := push_slots entries slots (mem w) in (r, slots, (rpc, with_mem w h))
      | _ => (IDX_FAIL IDX_ERR_PARSE, slots, (rpc, w))
      end
  end.

(** src/src/rpc.c:664-673 [idx_rpc_get_blocks]: the loop; [None] when [fuel] rounds do
    not end it. *)
Fixpoint blocks_loop (fuel : nat) (from last limit : Z) (commitment : option bytes) (slots : idx_vec Z) (st : idx_rpc * world)
    : option (result unit * idx_vec Z * (idx_rpc * world)) :=
  if from <=? last then
    match fuel with
    | O => None
    | S fuel =>
        let span := u64 (last - from) in
        let to := if limit <=? span then u64 (from + limit - 1) else last in
        match get_blocks_chunk from to commitment slots st with
        | (Err s, slots, st) => Some (Err s, slots, st)
        | (Ok _, slots, st) =>
            if to =? last then Some (Ok tt, slots, st)
            else blocks_loop fuel (u64 (to + 1)) last limit commitment slots st
        end
    end
  else Some (Ok tt, slots, st).

(** src/src/rpc.c:642-675 [idx_rpc_get_blocks]: a round is a slot at least. *)
Definition idx_rpc_get_blocks (start last : Z) (commitment : option bytes) (slots : idx_vec Z) (st : idx_rpc * world)
    : option (result unit * idx_vec Z * (idx_rpc * world)) :=
  if last <? start then Some (IDX_FAIL IDX_ERR_RANGE, slots, st)
  else
    let limit := if blocks_range_limit (options st.1) =? 0 then IDX_RPC_DEFAULT_BLOCKS_RANGE
                 else blocks_range_limit (options st.1) in
    blocks_loop (Z.to_nat (last - start + 1)) start last limit commitment slots st.

(** src/src/rpc.c:678-692 [block_config] *)
Definition block_config (opts : option idx_rpc_block_options) (out_size : Z) : bytes :=
  let opts := default idx_rpc_block_options_init opts in
  printed out_size
    (lit "{" ++ quoted (lit "encoding") ++ lit ":" ++ quoted (encoding opts) ++ lit "," ++
     quoted (lit "transactionDetails") ++ lit ":" ++ quoted (transaction_details opts) ++ lit "," ++
     quoted (lit "commitment") ++ lit ":" ++ quoted (commitment opts) ++ lit "," ++
     quoted (lit "rewards") ++ lit ":" ++ (if rewards opts then lit "true" else lit "false") ++ lit "," ++
     quoted (lit "maxSupportedTransactionVersion") ++ lit ":" ++ dec (max_supported_transaction_version opts) ++ lit "}").

(** src/src/rpc.c:694-705 [idx_rpc_get_block] *)
Definition idx_rpc_get_block (slot : Z) (opts : option idx_rpc_block_options) : call idx_rpc_response :=
  let config := block_config opts 256 in
  idx_rpc_call (lit "getBlock") (Some (printed 320 (lit "[" ++ dec slot ++ lit "," ++ config ++ lit "]"))).

(** [idx_signature_to_base58] into the caller's array. *)
Definition signature_text (s : idx_signature) : call bytes := fun '(rpc, w) =>
  let '(r, h) := idx_signature_to_base58 (Some s) true (mem w) in (r, (rpc, with_mem w h)).

(** src/src/rpc.c:707-734 [idx_rpc_get_transaction] *)
Definition idx_rpc_get_transaction (signature : option idx_signature) (opts : option idx_rpc_block_options)
    : call idx_rpc_response :=
  match signature with
  | None => fail IDX_ERR_INVALID_ARG
  | Some s =>
      text ← signature_text s;
      let opts := default idx_rpc_block_options_init opts in
      idx_rpc_call (lit "getTransaction")
        (Some (printed 416
           (lit "[" ++ quoted text ++ lit ",{" ++ quoted (lit "encoding") ++ lit ":" ++ quoted (encoding opts) ++ lit "," ++
            quoted (lit "commitment") ++ lit ":" ++ quoted (commitment opts) ++ lit "," ++
            quoted (lit "maxSupportedTransactionVersion") ++ lit ":" ++ dec (max_supported_transaction_version opts) ++ lit "}]")))
  end.

End Client.

(** src/src/rpc.c:736-741 [idx_rpc_get_stats] *)
Definition idx_rpc_get_stats (rpc : idx_rpc) : idx_rpc_stats := stats rpc.

(** ** The state of a client *)

Definition rpc_ok (rpc : idx_rpc) : Prop :=
  (current_url rpc < length (urls rpc))%nat /\
  buffer_ok (response rpc) /\ buffer_ok (request rpc) /\ is_u64 (next_id rpc) /\
  1 <= max_attempts (options rpc) < 2 ^ 31 /\
  0 < backoff_initial_ms (options rpc) <= backoff_max_ms (options rpc) /\ backoff_max_ms (options rpc) < 2 ^ 31 /\
  0 < rng_state rpc < 2 ^ 32.

(** *** The jitter *)

Lemma u32_testbit z n : Z.testbit (u32 z) n = if n <? 32 then Z.testbit z n else false.
Proof.
  unfold u32. destruct (n <? 32) eqn:E; zbool.
  - destruct (Z.lt_ge_cases n 0); [by rewrite !Z.testbit_neg_r|]. by rewrite Z.mod_pow2_bits_low by lia.
  - by rewrite Z.mod_pow2_bits_high by lia.
Qed.

Lemma lxor_u32 x y : 0 <= x < 2 ^ 32 -> 0 <= y < 2 ^ 32 -> 0 <= Z.lxor x y < 2 ^ 32.
Proof.
  intros Hx Hy. assert (Z.lxor x y = u32 (Z.lxor x y)) as ->; [|unfold u32; apply Z.mod_pos_bound; lia].
  rewrite <- (Z.mod_small x (2 ^ 32)), <- (Z.mod_small y (2 ^ 32)) by done. fold (u32 x) (u32 y).
  apply Z.bits_inj'. intros n Hn. rewrite u32_testbit, !Z.lxor_spec, !u32_testbit. by destruct (n <? 32).
Qed.

(** A word xored with itself shifted is not zero if it was not. *)
Lemma xor_shift_left x k : 0 < x < 2 ^ 32 -> 0 < k -> 0 < Z.lxor x (u32 (Z.shiftl x k)) < 2 ^ 32.
Proof.
  intros Hx Hk. assert (0 <= u32 (Z.shiftl x k) < 2 ^ 32) as Hs by (unfold u32; apply Z.mod_pos_bound; lia).
  pose proof (lxor_u32 x _ ltac:(lia) Hs) as Hr. assert (Z.lxor x (u32 (Z.shiftl x k)) <> 0); [|lia].
  intros E%Z.lxor_eq. assert (forall n : nat, Z.testbit x (Z.of_nat n) = false) as Hb.
  { intros n. induction (lt_wf n) as [n _ IH]. rewrite E, u32_testbit. destruct (_ <? 32); [|done].
    rewrite Z.shiftl_spec by lia. destruct (Z.lt_ge_cases (Z.of_nat n - k) 0); [by rewrite Z.testbit_neg_r|].
    replace (Z.of_nat n - k) with (Z.of_nat (Z.to_nat (Z.of_nat n - k))) by lia. apply IH. lia. }
  assert (x = 0); [|lia]. apply Z.bits_inj'. intros n Hn. rewrite Z.bits_0.
  rewrite <- (Z2Nat.id n) by done. apply Hb.
Qed.

Lemma xor_shift_right x k : 0 < x < 2 ^ 32 -> 0 < k -> 0 < Z.lxor x (Z.shiftr x k) < 2 ^ 32.
Proof.
  intros Hx Hk. rewrite Z.shiftr_div_pow2 by lia. assert (2 <= 2 ^ k) by (apply (Z.pow_le_mono_r 2 1 k); lia).
  assert (0 <= x / 2 ^ k < x) by (split; [apply Z.div_pos|apply Z.div_lt]; lia).
  pose proof (lxor_u32 x (x / 2 ^ k) ltac:(lia) ltac:(lia)). assert (Z.lxor x (x / 2 ^ k) <> 0); [|lia].
  intros E%Z.lxor_eq. lia.
Qed.

Lemma next_random_ok rpc :
  0 < rng_state rpc < 2 ^ 32 ->
  exists x, next_random rpc = (x, Rpc (urls rpc) (current_url rpc) (options rpc) (response rpc) (request rpc) (next_id rpc)
                                 (stats rpc) x) /\ 0 < x < 2 ^ 32.
Proof.
  intros H. eexists. split; [done|]. apply xor_shift_left; [|done]. apply xor_shift_right; [|done]. by apply xor_shift_left.
Qed.

(** The bound of the sleep before the attempt after [attempt] failures. *)
Definition backoff_bound (rpc : idx_rpc) (attempt : nat) : Z :=
  Z.min (backoff_initial_ms (options rpc) * 2 ^ Z.of_nat attempt) (backoff_max_ms (options rpc)).

Lemma backoff_base_min attempt : forall base most,
  0 < base -> Z.min (backoff_base attempt base most) most = Z.min (base * 2 ^ Z.of_nat attempt) most.
Proof.
  induction attempt as [|attempt IH]; intros base most Hb; cbn [backoff_base]; [by rewrite Z.mul_1_r|].
  rewrite Nat2Z.inj_succ, Z.pow_succ_r by lia. destruct (base <? most) eqn:E; zbool.
  - rewrite IH by lia. f_equal. lia.
  - assert (0 < 2 ^ Z.of_nat attempt) by lia. rewrite !Z.min_r; [done|nia|lia].
Qed.

(** Full jitter: between half the bound and the bound. *)
Lemma backoff_for_ok rpc attempt :
  rpc_ok rpc ->
  let '(delay, rpc') := backoff_for rpc attempt in
  backoff_bound rpc attempt / 2 <= delay <= backoff_bound rpc attempt /\ rpc_ok rpc' /\
  exists x, rpc' = Rpc (urls rpc) (current_url rpc) (options rpc) (response rpc) (request rpc) (next_id rpc) (stats rpc) x.
Proof.
  intros Hok. pose proof Hok as (H1 & H2 & H3 & H4 & H5 & H6 & H7 & H8). unfold backoff_for.
  destruct (next_random_ok rpc H8) as (x & -> & Hx).
  pose proof (backoff_base_min attempt (backoff_initial_ms (options rpc)) (backoff_max_ms (options rpc)) ltac:(lia)) as E.
  fold (backoff_bound rpc attempt) in E. set (base := backoff_base _ _ _) in *.
  assert ((if backoff_max_ms (options rpc) <? base then backoff_max_ms (options rpc) else base) = backoff_bound rpc attempt) as ->.
  { rewrite <- E. destruct (_ <? base) eqn:C; zbool; lia. }
  assert (0 <= backoff_bound rpc attempt < 2 ^ 31) as Hbound.
  { unfold backoff_bound. assert (0 < 2 ^ Z.of_nat attempt) by lia. split; [|lia]. apply Z.min_glb; nia. }
  set (b := backoff_bound rpc attempt) in *. assert (0 <= b / 2 <= b) by zdiv.
  unfold u32. rewrite (Z.mod_small (b / 2 + 1)) by lia.
  pose proof (Z.mod_pos_bound x (b / 2 + 1) ltac:(lia)). split; [split; [lia|zdiv]|]. split; [|by exists x].
  unfold rpc_ok. simpl. do 7 (split; [assumption|]). assumption.
Qed.

#[local] Arguments backoff_for : simpl never.
#[local] Arguments perform : simpl never.
#[local] Arguments idx_json_get : simpl never.
#[local] Arguments lit : simpl never.
#[local] Arguments idx_json_write_rpc_request : simpl never.
#[local] Arguments request_text : simpl never.
#[local] Arguments rotate_endpoint : simpl never.
#[local] Arguments before_retry : simpl never.

(** What [idx_rpc_open] gives is such a client, whatever the options say. *)
Lemma open_ok opts initialized curl_works clock h rpc initialized' h' :
  max_attempts opts < 2 ^ 31 -> backoff_initial_ms opts < 2 ^ 31 -> backoff_max_ms opts < 2 ^ 31 ->
  idx_rpc_open (Some opts) initialized curl_works clock h = (Ok rpc, initialized', h') -> rpc_ok rpc.
Proof.
  intros Ha Hi Hm. unfold idx_rpc_open. destruct (option_urls opts) as [[|url given]|]; try (intros E; cbn in E; discriminate E).
  destruct (ensure_curl_global _ _) as [[?|?] ?]; [|intros E; cbn in E; discriminate E]. destruct (calloc 1 1 h) as [[] h1]; [|intros E; cbn in E; discriminate E].
  destruct (calloc _ 8 h1) as [[] h2]; [|intros E; cbn in E; discriminate E].
  assert (forall copies h3, copy_urls (url :: given) h2 = (Some copies, h3) -> (0 < length copies)%nat) as Hc.
  { intros copies h3. simpl. destruct (malloc h2) as [[] h4]; [|discriminate]. destruct (copy_urls given h4) as [[rest|] h5]; [|discriminate].
    intros [= <- <-]. simpl. lia. }
  cbv beta iota delta [negb]. destruct (copy_urls (url :: given) h2) as [[copies|] h3]; [|intros E; cbn in E; discriminate E].
  destruct curl_works as [[? []] []]; try (intros E; cbn in E; discriminate E). intros E. cbn in E. injection E as <- _ _. unfold rpc_ok, buffer_ok, is_u64. simpl.
  change (size (@nil Z)) with 0. assert (0 <= u32 clock < 2 ^ 32) as Hu by (unfold u32; apply Z.mod_pos_bound; lia).
  assert (0 < Z.lor (u32 clock) 1 < 2 ^ 32) as Hrng.
  { assert (Z.lor (u32 clock) 1 = u32 (Z.lor (u32 clock) 1)) as E.
    { apply Z.bits_inj'. intros n Hn. rewrite u32_testbit. destruct (n <? 32) eqn:E; [done|]. zbool.
      rewrite Z.lor_spec, u32_testbit, (proj2 (Z.ltb_ge _ _)) by lia. simpl. by apply (Z.bits_above_log2 1); simpl; lia. }
    assert (Z.lor (u32 clock) 1 <> 0) by (intros [_ ?]%Z.lor_eq_0_iff; done).
    assert (0 <= u32 (Z.lor (u32 clock) 1) < 2 ^ 32) by (unfold u32; apply Z.mod_pos_bound; lia). lia. }
  specialize (Hc _ _ eq_refl). unfold IDX_RPC_DEFAULT_BACKOFF_INITIAL_MS, SIZE_MAX in *.
  destruct (max_attempts opts <? 1) eqn:E1, (backoff_initial_ms opts <=? 0) eqn:E2, (backoff_max_ms opts <? _) eqn:E3; zbool; lia.
Qed.

(** *** Counting *)

Definition stats_ok (s : idx_rpc_stats) : Prop :=
  is_u64 (requests s) /\ is_u64 (retries s) /\ is_u64 (rate_limited s) /\ is_u64 (failovers s) /\ is_u64 (bytes_received s).

Definition add_stats (s d : idx_rpc_stats) : idx_rpc_stats :=
  RpcStats (u64 (requests s + requests d)) (u64 (retries s + retries d)) (u64 (rate_limited s + rate_limited d))
    (u64 (failovers s + failovers d)) (u64 (bytes_received s + bytes_received d)).

Lemma add_stats_ok s d : stats_ok (add_stats s d).
Proof. unfold stats_ok, add_stats. simpl. by split_and!; apply u64_range. Qed.

Lemma add_stats_assoc s d1 d2 :
  add_stats (add_stats s d1) d2 =
  add_stats s (RpcStats (requests d1 + requests d2) (retries d1 + retries d2) (rate_limited d1 + rate_limited d2)
                 (failovers d1 + failovers d2) (bytes_received d1 + bytes_received d2)).
Proof. unfold add_stats. simpl. by rewrite !u64_add_l, !Z.add_assoc. Qed.

(** One counter moved. *)
Lemma bump_stats s a b c d e : stats_ok s ->
  add_stats s (RpcStats a b c d e) =
  RpcStats (if a =? 0 then requests s else u64 (requests s + a)) (if b =? 0 then retries s else u64 (retries s + b))
    (if c =? 0 then rate_limited s else u64 (rate_limited s + c)) (if d =? 0 then failovers s else u64 (failovers s + d))
    (if e =? 0 then bytes_received s else u64 (bytes_received s + e)).
Proof.
  assert (forall x k, is_u64 x -> u64 (x + k) = if k =? 0 then x else u64 (x + k)) as E.
  { intros x k Hx. destruct (k =? 0) eqn:K; [|done]. zbool. subst k. by rewrite Z.add_0_r, u64_small. }
  intros (H1 & H2 & H3 & H4 & H5). unfold add_stats. simpl. by f_equal; apply E.
Qed.

(** *** What a network answers *)

Inductive verdict := Served (body : bytes) | Refused | Retry.

Definition verdict_of (ex : exchange) : verdict :=
  match ex_status ex with
  | Some status =>
      if status =? 200 then Served (concat (ex_chunks ex))
      else if http_status_is_retryable status then Retry else Refused
  | None => Retry
  end.

Definition first_exchange (answers : list exchange) : exchange := default (Exchange [] None) (hd_error answers).

(** What a request gets from the answers to come, and how many of them it uses. *)
Fixpoint outcome (todo : nat) (answers : list exchange) : result bytes * nat :=
  match todo with
  | O => (Err IDX_ERR_NETWORK, 0%nat)
  | S todo =>
      match verdict_of (first_exchange answers) with
      | Served body => (Ok body, 1%nat)
      | Refused => (Err IDX_ERR_REMOTE, 1%nat)
      | Retry => let '(r, n) := outcome todo (tail answers) in (r, S n)
      end
  end.

(** Attempts that led to another endpoint. *)
Definition failures (r : result bytes) (n : nat) : nat :=
  match r with Err IDX_ERR_NETWORK => n | _ => pred n end.

Definition is_429 (ex : exchange) : bool := bool_decide (ex_status ex = Some 429).

Definition received (ex : exchange) : Z := match ex_status ex with Some _ => size (concat (ex_chunks ex)) | None => 0 end.

Definition z_sum (l : list Z) : Z := foldr Z.add 0 l.

(** Bodies a [size_t] can count. *)
Definition answers_ok (answers : list exchange) : Prop :=
  Forall (fun ex => size (concat (ex_chunks ex)) <= SIZE_MAX) answers.

Lemma first_exchange_ok answers : answers_ok answers -> size (concat (ex_chunks (first_exchange answers))) <= SIZE_MAX.
Proof. by destruct 1. Qed.

Lemma outcome_used todo answers : (snd (outcome todo answers) <= todo)%nat.
Proof.
  revert answers. induction todo as [|todo IH]; intros answers; simpl; [done|].
  destruct (verdict_of _); simpl; try lia. specialize (IH (tail answers)). destruct (outcome _ _). simpl in *. lia.
Qed.

(** *** One transfer *)

Lemma deliver_spec chunks : forall rpc,
  buffer_ok (response rpc) -> size (buf_data (response rpc)) + size (concat chunks) <= SIZE_MAX ->
  exists b, deliver chunks rpc [] = (true, with_response rpc b, []) /\ buffer_ok b /\
    buf_data b = buf_data (response rpc) ++ concat chunks.
Proof.
  induction chunks as [|chunk chunks IH]; intros rpc Hb Hs; simpl in *.
  { exists (response rpc). rewrite app_nil_r. by destruct rpc. }
  unfold size in Hs. rewrite length_app in Hs.
  destruct (writes_lit chunk (response rpc) Hb) as (b & E & Hb' & Hd); [unfold size; lia|].
  unfold append_lit in E. unfold on_data. rewrite E. simpl. rewrite Z.eqb_refl.
  destruct (IH (with_response rpc b)) as (b' & E' & Hb2 & Hd'); [done| |].
  - simpl. rewrite Hd. unfold size. rewrite length_app. lia.
  - exists b'. rewrite E'. split; [done|]. split; [done|]. simpl in Hd'. by rewrite Hd', Hd, app_assoc.
Qed.

Definition url_at (rpc : idx_rpc) (i : nat) : bytes :=
  default [] (urls rpc !! ((current_url rpc + i) mod length (urls rpc))%nat).

Lemma perform_spec body rpc w :
  rpc_ok rpc -> stats_ok (stats rpc) -> mem w = [] -> answers_ok (net w) ->
  let ex := first_exchange (net w) in
  exists b, buffer_ok b /\ buf_data b = concat (ex_chunks ex) /\
    perform body (rpc, w) =
    (match ex_status ex with Some status => Ok status | None => Err IDX_ERR_NETWORK end,
     (with_stats (with_response rpc b) (add_stats (stats rpc) (RpcStats 0 0 0 0 (received ex))),
      World (tail (net w)) [] (sent w ++ [(url_at rpc 0, body)]) (slept w))).
Proof.
  intros Hok Hst Hm Ha ex. pose proof Hok as (H1 & (H2 & H2') & _). unfold perform. change (next_exchange w) with ex.
  cbn [idx_buffer_clear default]. rewrite Hm.
  destruct (deliver_spec (ex_chunks ex) (with_response rpc (Buffer [] (buf_capacity (response rpc))))) as (b & E & Hb & Hd).
  - unfold buffer_ok. simpl. change (size (@nil Z)) with 0. unfold size in *. lia.
  - simpl. change (size (@nil Z)) with 0. pose proof (first_exchange_ok _ Ha). fold ex in H. lia.
  - exists b. split; [done|]. split; [done|]. simpl in E. unfold idx_buffer_clear. cbn [default from_option id]. rewrite E. simpl in *.
    assert (urls rpc !! current_url rpc = urls rpc !! ((current_url rpc + 0) mod length (urls rpc))%nat) as ->
      by (rewrite Nat.add_0_r, Nat.mod_small by done; done).
    rewrite bump_stats by done. unfold received, with_stats, with_response, url_at. simpl. rewrite Hd. simpl.
    destruct (ex_status ex); [|by destruct rpc as [? ? ? ? ? ? [] ?]].
    destruct (size (concat _) =? 0) eqn:S; [|done]. zbool. rewrite S, Z.add_0_r.
    destruct Hst as (_ & _ & _ & _ & Hu). by rewrite u64_small.
Qed.

(** *** All the attempts at a request *)

(** What a request leaves alone. *)
Definition same_client (rpc rpc' : idx_rpc) : Prop :=
  urls rpc' = urls rpc /\ options rpc' = options rpc /\ next_id rpc' = next_id rpc /\ request rpc' = request rpc.

Lemma same_client_trans a b c : same_client a b -> same_client b c -> same_client a c.
Proof. unfold same_client. intros (H1 & H2 & H3 & H4) (H5 & H6 & H7 & H8). split_and!; congruence. Qed.

Definition retried (attempt : nat) : Z := match attempt with O => 0 | S _ => 1 end.

(** A sleep before the attempt after [i] failures. *)
Definition delay_ok (rpc : idx_rpc) (i : nat) (d : Z) : Prop := backoff_bound rpc i / 2 <= d <= backoff_bound rpc i.

Definition slept_for (ds : list Z) : list Z := filter (fun d => 0 < d) ds.

Lemma before_retry_spec attempt rpc w :
  rpc_ok rpc -> stats_ok (stats rpc) ->
  exists rpc' ds, before_retry attempt rpc w = (rpc', World (net w) (mem w) (sent w) (slept w ++ slept_for ds)) /\
    rpc_ok rpc' /\ same_client rpc rpc' /\ current_url rpc' = current_url rpc /\
    stats rpc' = add_stats (stats rpc) (RpcStats 0 (retried attempt) 0 0 0) /\
    Forall2 (delay_ok rpc) (match attempt with O => [] | S previous => [previous] end) ds.
Proof.
  intros Hok Hst. destruct attempt as [|previous]; unfold before_retry.
  - simpl. exists rpc, []. unfold slept_for. rewrite filter_nil, app_nil_r, bump_stats by done. simpl.
    split; [by destruct w|]. split; [done|]. split; [by repeat split|]. split; [done|]. split; [by destruct (stats rpc)|done].
  - pose proof (backoff_for_ok rpc previous Hok) as B. destruct (backoff_for rpc previous) as [d rpc1].
    destruct B as (Hd & Hok1 & x & E). eexists _, [d]. split.
    + f_equal. unfold sleep_ms, slept_for. rewrite filter_cons, filter_nil. destruct (d <=? 0) eqn:D; zbool.
      * rewrite decide_False by lia. rewrite app_nil_r. by destruct w.
      * by rewrite decide_True by lia.
    + subst rpc1. split; [exact Hok1|]. split; [by repeat split|]. split; [done|]. simpl. split; [by rewrite bump_stats|].
      apply Forall2_cons; split; [exact Hd|apply Forall2_nil_2].
Qed.

(** An attempt: the pause before it and the transfer. *)
Lemma one_try attempt body rpc w :
  rpc_ok rpc -> stats_ok (stats rpc) -> mem w = [] -> answers_ok (net w) ->
  let ex := first_exchange (net w) in
  exists rpc' ds,
    perform body (before_retry attempt rpc w) =
    (match ex_status ex with Some status => Ok status | None => Err IDX_ERR_NETWORK end,
     (rpc', World (tail (net w)) [] (sent w ++ [(url_at rpc 0, body)]) (slept w ++ slept_for ds))) /\
    rpc_ok rpc' /\ same_client rpc rpc' /\ current_url rpc' = current_url rpc /\
    buf_data (response rpc') = concat (ex_chunks ex) /\
    stats rpc' = add_stats (stats rpc) (RpcStats 0 (retried attempt) 0 0 (received ex)) /\
    Forall2 (delay_ok rpc) (match attempt with O => [] | S previous => [previous] end) ds.
Proof.
  intros Hok Hst Hm Ha ex. destruct (before_retry_spec attempt rpc w Hok Hst) as (rpc1 & ds & -> & Hok1 & Hs1 & Hu1 & Hst1 & Hds).
  destruct (perform_spec body rpc1 (World (net w) (mem w) (sent w) (slept w ++ slept_for ds))) as (b & Hb & Hd & E); try done.
  { rewrite Hst1. apply add_stats_ok. }
  rewrite E. simpl. fold ex. eexists _, ds. split.
  - f_equal. unfold url_at. by rewrite Hu1, (proj1 Hs1).
  - split; [destruct Hok1 as (H1 & _ & H3); exact (conj H1 (conj Hb H3))|]. split; [exact Hs1|]. split; [exact Hu1|].
    split; [exact Hd|]. split; [simpl; rewrite Hst1, add_stats_assoc; simpl; by rewrite !Z.add_0_r|done].
Qed.

Lemma rotate_spec rpc :
  rpc_ok rpc -> stats_ok (stats rpc) ->
  let rpc' := rotate_endpoint rpc in
  rpc_ok rpc' /\ same_client rpc rpc' /\ response rpc' = response rpc /\
  current_url rpc' = ((current_url rpc + 1) mod length (urls rpc))%nat /\
  stats rpc' = add_stats (stats rpc) (RpcStats 0 0 0 (if (length (urls rpc) <? 2)%nat then 0 else 1) 0).
Proof.
  intros Hok Hst. pose proof Hok as (H1 & H2). unfold rotate_endpoint. rewrite bump_stats by done.
  destruct (Nat.ltb_spec (length (urls rpc)) 2); simpl.
  - assert (length (urls rpc) = 1%nat) as L by lia. rewrite L. assert (current_url rpc = 0%nat) as -> by lia.
    split; [done|]. split; [by repeat split|]. split; [done|]. split; [done|]. by destruct (stats rpc).
  - split; [|by repeat split]. split; [|exact H2]. apply Nat.mod_upper_bound. simpl. lia.
Qed.

Lemma url_at_next rpc rpc' i :
  urls rpc' = urls rpc -> current_url rpc' = ((current_url rpc + 1) mod length (urls rpc))%nat -> url_at rpc' i = url_at rpc (S i).
Proof.
  intros Hu Hc. unfold url_at. rewrite Hu, Hc, Nat.Div0.add_mod_idemp_l. do 3 f_equal. lia.
Qed.

(** What the counters gain. *)
Definition tally (rpc : idx_rpc) (attempt : nat) (r : result bytes) (n : nat) (answers : list exchange) : idx_rpc_stats :=
  RpcStats (match r with Ok _ => 1 | Err _ => 0 end) (Z.of_nat (attempt + n - 1 - pred attempt))
    (size (filter (fun ex => is_429 ex = true) (take n answers)))
    (if (length (urls rpc) <? 2)%nat then 0 else Z.of_nat (failures r n))
    (z_sum (received <$> take n answers)).

(** A request, all told. *)
Definition request_done (todo attempt : nat) (body : bytes) (rpc : idx_rpc) (w : world) (res : result unit * (idx_rpc * world)) : Prop :=
  let '(r, n) := outcome todo (net w) in
  let '(r', (rpc', w')) := res in
  r' = match r with Ok _ => Ok tt | Err s => Err s end /\
  rpc_ok rpc' /\ stats_ok (stats rpc') /\ same_client rpc rpc' /\
  (forall b, r = Ok b -> buf_data (response rpc') = b) /\
  current_url rpc' = ((current_url rpc + failures r n) mod length (urls rpc))%nat /\
  stats rpc' = add_stats (stats rpc) (tally rpc attempt r n (net w)) /\
  net w' = drop n (net w) /\ mem w' = [] /\
  sent w' = sent w ++ ((fun i => (url_at rpc i, body)) <$> seq 0 n) /\
  exists ds, slept w' = slept w ++ slept_for ds /\
    Forall2 (delay_ok rpc) (seq (pred attempt) (attempt + n - 1 - pred attempt)) ds.

Lemma first_received n answers :
  z_sum (received <$> take (S n) answers) = received (first_exchange answers) + z_sum (received <$> take n (tail answers)).
Proof. destruct answers; simpl; [by rewrite take_nil|done]. Qed.

Lemma first_429 n answers :
  size (filter (fun ex => is_429 ex = true) (take (S n) answers)) =
  (if is_429 (first_exchange answers) then 1 else 0) + size (filter (fun ex => is_429 ex = true) (take n (tail answers))).
Proof.
  destruct answers as [|ex answers]; simpl; [by rewrite take_nil|]. rewrite filter_cons. unfold size.
  unfold first_exchange. simpl. destruct (is_429 ex); simpl; lia.
Qed.

Lemma failures_retry todo answers r n : outcome todo answers = (r, n) -> failures r (S n) = S (failures r n).
Proof.
  intros E. assert (match r with Err IDX_ERR_NETWORK => True | _ => (0 < n)%nat end) as H.
  { revert answers r n E. induction todo as [|todo IH]; intros answers r n E; simpl in E; [by injection E as <- <-|].
    destruct (verdict_of _); [by injection E as <- <-; lia..|].
    destruct (outcome todo (tail answers)) as [r1 n1] eqn:E1. injection E as <- <-. destruct r1 as [|[]]; done || lia. }
  destruct r as [b|[]]; simpl; lia.
Qed.

Lemma answers_ok_tail answers : answers_ok answers -> answers_ok (tail answers).
Proof. unfold answers_ok. destruct 1; [constructor|assumption]. Qed.

(** The world after the first attempt. *)
Definition after_try (body : bytes) (rpc : idx_rpc) (w : world) (ds : list Z) : world :=
  World (tail (net w)) [] (sent w ++ [(url_at rpc 0, body)]) (slept w ++ slept_for ds).

(** An attempt that led to another one, and what that gave. *)
Lemma request_done_retry todo attempt body rpc rpc1 w ds res :
  verdict_of (first_exchange (net w)) = Retry ->
  rpc_ok rpc1 -> same_client rpc rpc1 -> current_url rpc1 = current_url rpc ->
  stats rpc1 = add_stats (stats rpc)
                 (RpcStats 0 (retried attempt) (if is_429 (first_exchange (net w)) then 1 else 0) 0
                    (received (first_exchange (net w)))) ->
  Forall2 (delay_ok rpc) (match attempt with O => [] | S previous => [previous] end) ds ->
  request_done todo (S attempt) body (rotate_endpoint rpc1) (after_try body rpc w ds) res ->
  request_done (S todo) attempt body rpc w res.
Proof.
  intros Hv Hok Hs Hc Hst Hds Hr. unfold request_done in *. cbn [outcome]. rewrite Hv. cbn [after_try net mem sent slept] in Hr.
  destruct (outcome todo (tail (net w))) as [r n] eqn:E. destruct res as [r' [rpc' w']].
  destruct (rotate_spec rpc1 Hok) as (R1 & R2 & R3 & R4 & R5); [rewrite Hst; apply add_stats_ok|].
  destruct Hr as (H1 & H2 & H3 & H4 & H5 & H6 & H7 & H8 & H9 & H10 & ds' & H11 & H12).
  pose proof (same_client_trans _ _ _ Hs R2) as Hs2. pose proof Hs as (Hu & Ho & _). pose proof Hs2 as (Hu2 & Ho2 & _).
  pose proof (failures_retry _ _ _ _ E) as Hf.
  split; [done|]. split; [done|]. split; [done|]. split; [by eapply same_client_trans|]. split; [done|].
  split; [|split; [|split; [|split; [|split]]]].
  - rewrite H6, R4, Hu2, Hu, Hc, Hf, Nat.Div0.add_mod_idemp_l. f_equal. lia.
  - rewrite H7, R5, Hst, !add_stats_assoc. unfold tally. rewrite Hf, first_received, first_429, Hu2, Hu.
    cbn [requests retries rate_limited failovers bytes_received]. f_equal. f_equal.
    + destruct attempt; simpl; lia.
    + destruct (length (urls rpc) <? 2)%nat; lia.
  - rewrite H8. destruct (net w); simpl; by rewrite ?drop_nil.
  - done.
  - rewrite H10, <- app_assoc. f_equal. simpl. f_equal. rewrite <- fmap_S_seq, <- list_fmap_compose.
    apply list_fmap_ext. intros _ i _. simpl. f_equal. apply url_at_next; [done|]. by rewrite R4, Hc, Hu.
  - exists (ds ++ ds'). split; [rewrite H11; unfold slept_for; by rewrite filter_app, app_assoc|].
    assert (Forall2 (delay_ok rpc) (seq attempt n) ds') as Hd'.
    { replace (S attempt + n - 1 - pred (S attempt))%nat with n in H12 by (simpl; lia). cbn [pred] in H12.
      eapply Forall2_impl; [exact H12|]. unfold delay_ok, backoff_bound. intros i d. by rewrite Ho2. }
    destruct attempt as [|a].
    + apply Forall2_nil_inv_l in Hds as ->. replace (0 + S n - 1 - pred 0)%nat with n by (simpl; lia). exact Hd'.
    + replace (S a + S n - 1 - pred (S a))%nat with (S n) by (simpl; lia).
      cbn [pred seq]. change (a :: seq (S a) n) with ([a] ++ seq (S a) n). by apply Forall2_app.
Qed.

(** An attempt that settled the request. *)
Lemma request_done_now todo attempt body rpc rpc1 w w1 ds r :
  verdict_of (first_exchange (net w)) = match r with Ok b => Served b | Err _ => Refused end ->
  (forall s, r = Err s -> s = IDX_ERR_REMOTE) ->
  rpc_ok rpc1 -> same_client rpc rpc1 -> current_url rpc1 = current_url rpc -> (current_url rpc < length (urls rpc))%nat ->
  (forall b, r = Ok b -> buf_data (response rpc1) = b) ->
  stats rpc1 = add_stats (stats rpc)
                 (RpcStats (match r with Ok _ => 1 | Err _ => 0 end) (retried attempt)
                    (if is_429 (first_exchange (net w)) then 1 else 0) 0 (received (first_exchange (net w)))) ->
  Forall2 (delay_ok rpc) (match attempt with O => [] | S previous => [previous] end) ds ->
  w1 = after_try body rpc w ds ->
  request_done (S todo) attempt body rpc w (match r with Ok _ => Ok tt | Err s => Err s end, (rpc1, w1)).
Proof.
  intros Hv Hr Hok Hs Hc Hlt Hb Hst Hds ->. unfold request_done. cbn [outcome]. rewrite Hv.
  assert (outcome (S todo) (net w) = (r, 1%nat)) as E.
  { cbn [outcome]. rewrite Hv. destruct r as [b|s]; [done|]. by rewrite (Hr s). }
  cbn [outcome] in E. rewrite Hv in E. rewrite E. clear E.
  assert (failures r 1 = 0%nat) as Hf by (destruct r as [b|s]; [done|by rewrite (Hr s)]).
  split; [done|]. split; [done|]. split; [rewrite Hst; apply add_stats_ok|]. split; [done|]. split; [done|].
  split; [|split; [|split; [|split; [|split]]]]; cbn [after_try net mem sent slept].
  - by rewrite Hf, Hc, Nat.add_0_r, Nat.mod_small.
  - rewrite Hst. unfold tally. rewrite Hf, first_received, first_429, !take_0. f_equal. f_equal.
    + destruct attempt; simpl; lia.
    + unfold size. simpl. lia.
    + by destruct (length (urls rpc) <? 2)%nat.
    + simpl. lia.
  - by destruct (net w).
  - done.
  - done.
  - exists ds. split; [done|]. by destruct attempt as [|a]; simpl in *; rewrite ?Nat.sub_diag, ?Nat.sub_0_r;
      [|replace (a + 1 - a)%nat with 1%nat by lia].
Qed.

Section Calls.
Context (yyjson_read_opts : bytes -> option json).

Lemma describe_mem rpc w : mem w = [] -> describe_http_failure yyjson_read_opts rpc w = w.
Proof.
  intros E. unfold describe_http_failure, idx_json_parse, with_mem. rewrite E. destruct w. simpl in *. subst.
  by destruct (yyjson_read_opts _).
Qed.

Lemma attempts_spec todo : forall attempt body rpc w,
  rpc_ok rpc -> stats_ok (stats rpc) -> mem w = [] -> answers_ok (net w) ->
  request_done todo attempt body rpc w (attempts yyjson_read_opts todo attempt body (rpc, w)).
Proof.
  induction todo as [|todo IH]; intros attempt body rpc w Hok Hst Hm Ha.
  { unfold request_done. simpl. split; [done|]. split; [done|]. split; [done|]. split; [by repeat split|]. split; [done|].
    split; [by rewrite Nat.add_0_r, Nat.mod_small by apply Hok|].
    split; [|split; [done|split; [done|split; [by rewrite app_nil_r|]]]].
    - unfold tally. rewrite bump_stats by done. replace (attempt + 0 - 1 - pred attempt)%nat with 0%nat by (destruct attempt; simpl; lia).
      simpl. destruct (stats rpc), (length (urls rpc) <? 2)%nat; done.
    - exists []. split; [unfold slept_for; by rewrite filter_nil, app_nil_r|].
      replace (attempt + 0 - 1 - pred attempt)%nat with 0%nat by (destruct attempt; simpl; lia). constructor. }
  cbn [attempts]. destruct (one_try attempt body rpc w Hok Hst Hm Ha) as (rpc1 & ds & -> & H1 & H2 & H3 & H4 & H5 & H6).
  set (ex := first_exchange (net w)) in *. fold (after_try body rpc w ds).
  assert (forall rpc1', same_client rpc1 rpc1' -> current_url rpc1' = current_url rpc1 -> rpc_ok rpc1' ->
    verdict_of ex = Retry ->
    stats rpc1' = add_stats (stats rpc) (RpcStats 0 (retried attempt) (if is_429 ex then 1 else 0) 0 (received ex)) ->
    request_done (S todo) attempt body rpc w
      (attempts yyjson_read_opts todo (S attempt) body (rotate_endpoint rpc1', after_try body rpc w ds))) as Hretry.
  { intros rpc1' G1 G2 G3 G4 G5. destruct (rotate_spec rpc1' G3) as (R1 & _ & _ & _ & R5); [rewrite G5; apply add_stats_ok|].
    eapply (request_done_retry todo attempt body rpc rpc1' w ds); try done; [by eapply same_client_trans|by rewrite G2|].
    apply IH; [done|rewrite R5; apply add_stats_ok|done|by apply answers_ok_tail]. }
  assert (stats_ok (stats rpc1)) as Hst1 by (rewrite H5; apply add_stats_ok).
  unfold verdict_of, is_429 in *. destruct (ex_status ex) as [status|] eqn:Es.
  2: { by apply Hretry. }
  pose proof (proj1 Hok) as Hlt.
  destruct (status =? 200) eqn:E200.
  - apply (request_done_now todo attempt body rpc _ w _ ds (Ok (concat (ex_chunks ex)))); try done.
    + unfold verdict_of. fold ex. by rewrite Es, E200.
    + by intros b [= <-].
    + zbool. unfold is_429. fold ex. rewrite Es, E200, bool_decide_false by done. simpl.
      replace (RpcStats (u64 _) _ _ _ _) with (add_stats (stats rpc1) (RpcStats 1 0 0 0 0)) by by rewrite bump_stats.
      rewrite H5, add_stats_assoc. simpl. by rewrite !Z.add_0_r.
  - set (rpc2 := if status =? 429 then _ else rpc1).
    assert (rpc_ok rpc2 /\ same_client rpc1 rpc2 /\ current_url rpc2 = current_url rpc1 /\
      stats rpc2 = add_stats (stats rpc) (RpcStats 0 (retried attempt) (if is_429 ex then 1 else 0) 0 (received ex))) as (K1 & K2 & K3 & K4).
    { unfold rpc2, is_429. rewrite Es. destruct (status =? 429) eqn:E429; zbool.
      - split; [exact H1|]. split; [by repeat split|]. split; [done|]. rewrite E429, bool_decide_true by done. simpl.
        replace (RpcStats _ _ (u64 _) _ _) with (add_stats (stats rpc1) (RpcStats 0 0 1 0 0)) by by rewrite bump_stats.
        rewrite H5, add_stats_assoc. simpl. by rewrite !Z.add_0_r.
      - split; [exact H1|]. split; [by repeat split|]. split; [done|]. by rewrite bool_decide_false by congruence. }
    destruct (negb (http_status_is_retryable status)) eqn:R.
    + rewrite describe_mem by done. apply (request_done_now todo attempt body rpc rpc2 w _ ds (Err IDX_ERR_REMOTE)); try done.
      * unfold verdict_of. fold ex. rewrite Es, E200. by destruct (http_status_is_retryable status).
      * by intros s [= <-].
      * by eapply same_client_trans.
      * by rewrite K3.
    + apply Hretry; try done; [by destruct (http_status_is_retryable status)|]. by rewrite K4; unfold is_429; rewrite Es.
Qed.
(** *** Writing the request *)

Lemma with_mem_id w : mem w = [] -> with_mem w [] = w.
Proof. intros E. unfold with_mem. rewrite <- E. by destruct w. Qed.

Lemma write_ok piece l rpc w :
  writes piece l -> mem w = [] -> buffer_ok (request rpc) -> size (buf_data (request rpc)) + size l <= SIZE_MAX ->
  exists b, write piece (rpc, w) = (Ok tt, (with_request rpc b, w)) /\ buffer_ok b /\ buf_data b = buf_data (request rpc) ++ l.
Proof.
  intros Hp Hm Hb Hs. destruct (Hp (request rpc) Hb Hs) as (b & E & H1 & H2). exists b. unfold write. rewrite Hm, E. simpl.
  by rewrite with_mem_id.
Qed.

Lemma writes_byte c : writes (append_byte c) [c].
Proof. exact (writes_lit [c]). Qed.

Lemma request_ok rpc b : rpc_ok rpc -> buffer_ok b -> rpc_ok (with_request rpc b).
Proof. intros (H1 & H2 & _ & H4) Hb. exact (conj H1 (conj H2 (conj Hb H4))). Qed.

(** The client with its request written and [used] ids given out. *)
Definition prepared (rpc : idx_rpc) (b : idx_buffer) (used : Z) : idx_rpc :=
  Rpc (urls rpc) (current_url rpc) (options rpc) (response rpc) b (u64 (next_id rpc + used)) (stats rpc) (rng_state rpc).

Lemma prepared_ok rpc b used : rpc_ok rpc -> buffer_ok b -> rpc_ok (prepared rpc b used).
Proof.
  intros (H1 & H2 & _ & _ & H5) Hb. refine (conj H1 (conj H2 (conj Hb (conj _ H5)))). apply u64_range.
Qed.

(** Text that can be a body. *)
Definition body_fits (text : bytes) : Prop := size text + 1 <= SIZE_MAX.

Lemma clear_request_spec rpc w :
  rpc_ok rpc -> exists b, clear_request (rpc, w) = (Ok tt, (prepared rpc b 0, w)) /\ buffer_ok b /\ buf_data b = [].
Proof.
  intros (_ & _ & (H3 & H3') & H4 & _). eexists. split.
  - unfold clear_request, prepared, with_request, idx_buffer_clear. simpl. by rewrite Z.add_0_r, u64_small.
  - split; [|done]. unfold buffer_ok, size in *. simpl. lia.
Qed.

(** The end of the request and what is sent of it. *)
Lemma finish_request rpc b used text w :
  mem w = [] -> buffer_ok b -> buf_data b = text -> body_fits text ->
  exists b', write (append_byte 0) (prepared rpc b used, w) = (Ok tt, (prepared rpc b' used, w)) /\ buffer_ok b' /\
    request_body (prepared rpc b' used, w) = (Ok text, (prepared rpc b' used, w)).
Proof.
  intros Hm Hb Hd Hf. destruct (write_ok _ _ (prepared rpc b used) w (writes_byte 0) Hm Hb) as (b' & E & Hb' & Hd').
  { unfold body_fits, size in *. simpl. rewrite Hd. simpl. lia. }
  exists b'. split; [exact E|]. split; [done|]. unfold request_body, mbind, call_bind, gets, mret, call_ret. simpl in *.
  rewrite Hd', Hd. unfold size. rewrite length_app. simpl.
  replace (Z.to_nat (Z.of_nat (length text + 1) - 1)) with (length text) by lia. by rewrite take_app_length.
Qed.

Lemma response_slice b : buffer_ok b -> slice_bytes (idx_buffer_slice (Some b)) = buf_data b.
Proof.
  intros (H1 & H2). unfold idx_buffer_slice, idx_slice_make. destruct (buf_capacity b =? 0) eqn:E; simpl.
  - zbool. unfold size in H1. by destruct (buf_data b); [|simpl in H1; lia].
  - unfold size. by rewrite Nat2Z.id, firstn_all.
Qed.

Lemma classify_fail {A} e : IDX_FAIL (classify_rpc_error e) = @Err A (classify_rpc_error e).
Proof. unfold classify_rpc_error. by destruct (_ || _ || _). Qed.

(** What a body says. *)
Definition tree_of (body : bytes) : result json :=
  match yyjson_read_opts body with Some root => Ok root | None => Err IDX_ERR_PARSE end.

Lemma parse_response_spec rpc w :
  rpc_ok rpc -> mem w = [] -> parse_response yyjson_read_opts (rpc, w) = (tree_of (buf_data (response rpc)), (rpc, w)).
Proof.
  intros (_ & H2 & _) Hm. unfold parse_response, idx_json_parse, tree_of. rewrite response_slice by done. rewrite Hm.
  destruct (yyjson_read_opts _); simpl; by rewrite with_mem_id.
Qed.

(** The reply of a single call: an error object, a result, or neither. *)
Definition reply_of (root : json) : result idx_rpc_response :=
  let error_object := idx_json_get (Some root) (lit "error") in
  if is_error error_object then Err (classify_rpc_error error_object)
  else match idx_json_get (Some root) (lit "result") with
       | Some v => Ok (Response (Some root) (Some v))
       | None => Err IDX_ERR_PARSE
       end.

(** What the answer to a single call means. *)
Definition reply (r : result bytes) : result idx_rpc_response :=
  match r with
  | Ok body => match tree_of body with Ok root => reply_of root | Err s => Err s end
  | Err s => Err s
  end.

(** *** What a call does to the client and the world *)

(** [ids] given out, [n] answers used, [text] sent to one endpoint after another. *)
Definition called (text : bytes) (ids : Z) (n : nat) (rpc : idx_rpc) (w : world) (st : idx_rpc * world) : Prop :=
  let '(rpc', w') := st in
  rpc_ok rpc' /\ stats_ok (stats rpc') /\ urls rpc' = urls rpc /\ options rpc' = options rpc /\
  next_id rpc' = u64 (next_id rpc + ids) /\ net w' = drop n (net w) /\ mem w' = [] /\
  sent w' = sent w ++ ((fun i => (url_at rpc i, text)) <$> seq 0 n).

(** A client ready for a call: nothing but the network can fail. *)
Definition ready (rpc : idx_rpc) (w : world) : Prop :=
  rpc_ok rpc /\ stats_ok (stats rpc) /\ mem w = [] /\ answers_ok (net w).

Lemma answers_ok_drop n answers : answers_ok answers -> answers_ok (drop n answers).
Proof. apply Forall_drop. Qed.

Lemma called_ready text ids n rpc w rpc' w' : ready rpc w -> called text ids n rpc w (rpc', w') -> ready rpc' w'.
Proof.
  intros (_ & _ & _ & Ha) (H1 & H2 & _ & _ & _ & H6 & H7 & _). split; [done|]. split; [done|]. split; [done|].
  rewrite H6. by apply answers_ok_drop.
Qed.

Lemma send_spec rpc b ids text w :
  ready rpc w -> buffer_ok b ->
  let '(r, n) := outcome (Z.to_nat (max_attempts (options rpc))) (net w) in
  exists st, send_with_retries yyjson_read_opts text (prepared rpc b ids, w) =
      (match r with Ok _ => Ok tt | Err s => Err s end, st) /\
    called text ids n rpc w st /\ (forall body, r = Ok body -> buf_data (response st.1) = body).
Proof.
  intros (H1 & H2 & H3 & H4) Hb.
  pose proof (attempts_spec (Z.to_nat (max_attempts (options rpc))) 0 text (prepared rpc b ids) w (prepared_ok _ _ _ H1 Hb) H2 H3 H4) as A.
  unfold request_done in A. unfold send_with_retries. cbn [fst options prepared].
  destruct (outcome _ (net w)) as [r n]. destruct (attempts _ _ _ _ _) as [r' [rpc' w']].
  destruct A as (-> & A2 & A3 & (A4 & A5 & A6 & A7) & A8 & A9 & A10 & A11 & A12 & A13 & _).
  exists (rpc', w'). split; [done|]. split; [|exact A8]. unfold called. by rewrite A4, A5, A6, A11, A12, A13.
Qed.

(** A call sends its request and interprets what comes back. *)
Lemma call_spec method params rpc w :
  ready rpc w -> Forall (fun c => c <> 0) method -> Forall (fun c => c <> 0) (default [] params) ->
  body_fits (request_text (next_id rpc) method params) ->
  let '(r, n) := outcome (Z.to_nat (max_attempts (options rpc))) (net w) in
  exists st, idx_rpc_call yyjson_read_opts method params (rpc, w) = (reply r, st) /\
    called (request_text (next_id rpc) method params) 1 n rpc w st.
Proof.
  intros Hr Hmn Hpn Hf. pose proof Hr as (H1 & H2 & H3 & H4). pose proof H1 as (_ & _ & _ & Hid & _).
  unfold idx_rpc_call, mbind, call_bind.
  destruct (clear_request_spec rpc w H1) as (b0 & -> & Hb0 & Hd0). unfold fresh_id at 1. cbn [prepared next_id urls current_url options response request stats rng_state].
  rewrite Z.add_0_r, u64_small by done. fold (prepared rpc b0 1).
  destruct (write_ok _ _ (prepared rpc b0 1) w (writes_request (next_id rpc) method params Hid Hmn Hpn) H3 Hb0) as (b1 & -> & Hb1 & Hd1).
  { cbn [prepared request]. rewrite Hd0. change (size (@nil Z)) with 0. unfold body_fits in Hf. lia. }
  cbn [prepared request] in Hd1. rewrite Hd0 in Hd1. change ([] ++ ?l) with l in Hd1. change (with_request (prepared rpc b0 1) b1) with (prepared rpc b1 1).
  destruct (finish_request rpc b1 1 _ w H3 Hb1 Hd1 Hf) as (b2 & -> & Hb2 & ->).
  pose proof (send_spec rpc b2 1 (request_text (next_id rpc) method params) w Hr Hb2) as S.
  destruct (outcome _ (net w)) as [r n]. destruct S as ([rpc' w'] & -> & S1 & S2). exists (rpc', w').
  destruct r as [body|s]; [|by split]. pose proof S1 as (C1 & _ & _ & _ & _ & _ & C7 & _).
  rewrite parse_response_spec by done. cbn [fst] in S2. rewrite (S2 body eq_refl). split; [|done]. simpl.
  destruct (tree_of body) as [root|s]; [|done]. simpl. unfold reply_of. destruct (is_error _).
  - unfold fail. by rewrite classify_fail.
  - by destruct (idx_json_get (Some root) (lit "result")).
Qed.
(** ** Properties *)

(** C32. A request is tried until it is served, refused or out of attempts, and no
    longer: with memory, the attempts made are exactly those [outcome] counts, each
    sends the same body, one endpoint after the other from the current one; the
    status is the one of the last answer that settles the matter and the buffer holds
    the body served; before each retry it sleeps between half and the whole of a bound
    that doubles up to the configured maximum; the counters gain what happened; and
    the client stays well-formed, its random state never zero. *)
Theorem rpc_retries_exact body rpc w :
  ready rpc w ->
  let '(r, n) := outcome (Z.to_nat (max_attempts (options rpc))) (net w) in
  exists rpc' w', send_with_retries yyjson_read_opts body (rpc, w) = (match r with Ok _ => Ok tt | Err s => Err s end, (rpc', w')) /\
    ready rpc' w' /\ same_client rpc rpc' /\ (n <= Z.to_nat (max_attempts (options rpc)))%nat /\
    (forall b, r = Ok b -> buf_data (response rpc') = b) /\
    net w' = drop n (net w) /\ sent w' = sent w ++ ((fun i => (url_at rpc i, body)) <$> seq 0 n) /\
    current_url rpc' = ((current_url rpc + failures r n) mod length (urls rpc))%nat /\
    stats rpc' = add_stats (stats rpc) (tally rpc 0 r n (net w)) /\
    exists ds, slept w' = slept w ++ slept_for ds /\ Forall2 (delay_ok rpc) (seq 0 (n - 1)) ds.
Proof.
  intros (H1 & H2 & H3 & H4). pose proof (attempts_spec (Z.to_nat (max_attempts (options rpc))) 0 body rpc w H1 H2 H3 H4) as A.
  pose proof (outcome_used (Z.to_nat (max_attempts (options rpc))) (net w)) as Hn.
  unfold request_done in A. unfold send_with_retries. cbn [fst]. destruct (outcome _ (net w)) as [r n].
  destruct (attempts _ _ _ _ _) as [r' [rpc' w']].
  destruct A as (-> & A2 & A3 & A4 & A5 & A6 & A7 & A8 & A9 & A10 & ds & A11 & A12). exists rpc', w'.
  split; [done|]. split; [split; [done|split; [done|split; [done|rewrite A8; by apply answers_ok_drop]]]|].
  split; [done|]. split; [done|]. split; [done|]. split; [done|]. split; [done|]. split; [done|]. split; [done|].
  exists ds. split; [done|]. cbn [pred] in A12. by rewrite Nat.add_0_l, Nat.sub_0_r in A12.
Qed.

(** C33. A call sends one JSON-RPC request with a fresh id and means by its status what
    the header says: the result of the document when it holds one; not found exactly
    when the error object's code is one of the three for a slot that was skipped or is
    not kept; refused for any other error; and a document without either, or no
    document, is a parse error. *)
Theorem rpc_call_exact method params rpc w :
  ready rpc w -> Forall (fun c => c <> 0) method -> Forall (fun c => c <> 0) (default [] params) ->
  body_fits (request_text (next_id rpc) method params) ->
  let '(r, n) := outcome (Z.to_nat (max_attempts (options rpc))) (net w) in
  exists res st, idx_rpc_call yyjson_read_opts method params (rpc, w) = (res, st) /\
    called (request_text (next_id rpc) method params) 1 n rpc w st /\
    match r with
    | Err s => res = Err s
    | Ok body =>
        match yyjson_read_opts body with
        | None => res = Err IDX_ERR_PARSE
        | Some root =>
            match idx_json_get (Some root) (lit "error"), idx_json_get (Some root) (lit "result") with
            | (None | Some JNull), Some v => res = Ok (Response (Some root) (Some v))
            | (None | Some JNull), None => res = Err IDX_ERR_PARSE
            | Some e, _ =>
                let code := default 0 (succeeded (idx_json_read_i64 (Some e) (lit "code"))) in
                res = Err (if decide (code ∈ [-32007; -32004; -32009]) then IDX_ERR_NOT_FOUND else IDX_ERR_REMOTE)
            end
        end
    end.
Proof.
  intros Hr Hm Hp Hf. pose proof (call_spec method params rpc w Hr Hm Hp Hf) as S. destruct (outcome _ (net w)) as [r n].
  destruct S as (st & -> & S). eexists _, st. split; [done|]. split; [done|]. destruct r as [body|s]; [|done].
  unfold reply, tree_of. destruct (yyjson_read_opts body) as [root|]; [|done]. unfold reply_of.
  assert (forall e, classify_rpc_error (Some e) =
    if decide (default 0 (succeeded (idx_json_read_i64 (Some e) (lit "code"))) ∈ [-32007; -32004; -32009])
    then IDX_ERR_NOT_FOUND else IDX_ERR_REMOTE) as Hc.
  { intros e. unfold classify_rpc_error, IDX_RPC_ERR_SLOT_SKIPPED, IDX_RPC_ERR_SLOT_NOT_AVAILABLE, IDX_RPC_ERR_LONG_TERM_STORAGE.
    set (code := default 0 _). destruct (decide (code ∈ _)) as [H|H]; rewrite !elem_of_cons, elem_of_nil in H.
    - destruct (code =? -32007) eqn:E1, (code =? -32004) eqn:E2, (code =? -32009) eqn:E3; zbool; done || lia.
    - rewrite !(proj2 (Z.eqb_neq code _)) by lia. done. }
  destruct (idx_json_get (Some root) (lit "error")) as [[]|]; simpl; rewrite ?Hc; try done;
    by destruct (idx_json_get (Some root) (lit "result")).
Qed.
End Calls.

(** ** Witnesses *)

Definition one_result (l : bytes) : option json := if bool_decide (l = [7]) then Some (JObj [(lit "result", JUint 42)]) else None.

Definition the_client : idx_rpc :=
  Rpc [lit "http://a"; lit "http://b"] 1 (RpcOptions None 10000 120000 4 250 8000 5 true) idx_buffer_init idx_buffer_init 3
    (RpcStats 0 0 0 0 0) 1.

(** A transfer that breaks, one that is rate limited and one that serves. *)
Definition bad_network : list exchange := [Exchange [[1; 2]] None; Exchange [] (Some 429); Exchange [[7]] (Some 200)].

Lemma the_client_ready : ready the_client (World bad_network [] [] []).
Proof.
  split; [|split; [unfold stats_ok, is_u64; simpl; lia|split; [done|repeat constructor; by vm_compute]]].
  unfold rpc_ok, buffer_ok, is_u64. simpl. change (size (@nil Z)) with 0. unfold SIZE_MAX. split_and!; lia.
Qed.

Lemma rpc_retries_exact_witness :
  exists rpc' w', send_with_retries one_result [9] (the_client, World bad_network [] [] []) = (Ok tt, (rpc', w')) /\
    sent w' = [(lit "http://b", [9]); (lit "http://a", [9]); (lit "http://b", [9])] /\
    stats rpc' = RpcStats 1 2 1 2 1 /\ current_url rpc' = 1%nat.
Proof.
  pose proof (rpc_retries_exact one_result [9] the_client _ the_client_ready) as R.
  destruct (outcome _ _) as [r n] eqn:E. assert (r = Ok [7] /\ n = 3%nat) as [-> ->] by (vm_compute in E; by injection E as <- <-).
  destruct R as (rpc' & w' & R1 & _ & _ & _ & _ & _ & R7 & R8 & R9 & _). exists rpc', w'. split; [exact R1|].
  split; [rewrite R7; by vm_compute|]. split; [rewrite R9; by vm_compute|]. rewrite R8. by vm_compute.
Defined.

Lemma rpc_call_exact_witness :
  exists st, idx_rpc_call one_result (lit "getSlot") (Some (lit "[]")) (the_client, World bad_network [] [] []) =
    (Ok (Response (Some (JObj [(lit "result", JUint 42)])) (Some (JUint 42))), st).
Proof.
  pose proof (rpc_call_exact one_result (lit "getSlot") (Some (lit "[]")) the_client _ the_client_ready) as R.
  destruct (outcome _ _) as [r n] eqn:E. assert (r = Ok [7]) as -> by (vm_compute in E; by injection E as <- <-).
  destruct R as (res & st & R1 & _ & R3).
  - apply (bool_decide_eq_true_1 _). by vm_compute.
  - apply (bool_decide_eq_true_1 _). by vm_compute.
  - by vm_compute.
  - exists st. rewrite R1. f_equal. exact R3.
Defined.
