(* ===== verification/RpcCalls.v ===== *)
(** * rpc.c: getBlocks and batches

    What the methods built on [Rpc.idx_rpc_call] do for any network: a range of slots
    is asked for in the pieces the provider accepts, and the answers of a batch find
    the calls they belong to, in whatever order they come. *)

From S2P Require Import Prelude Radix Bytes Decimal Vec Types Json Rpc.
#[local] Open Scope Z_scope.
#[local] Arguments idx_json_get : simpl never.
#[local] Arguments lit : simpl never.
#[local] Arguments request_text : simpl never.

(** ** getBlocks: the specification *)

(** The pieces of a range, closed at both ends. *)
Definition piece (limit start last i : Z) : Z * Z := (start + i * limit, Z.min last (start + (i + 1) * limit - 1)).
Definition pieces (limit start last : Z) : list (Z * Z) := piece limit start last <$> seqZ 0 ((last - start) / limit + 1).

(** The slots of a closed range. *)
Definition slots_of (r : Z * Z) : list Z := seqZ r.1 (r.2 - r.1 + 1).

(** The slots an array lists, up to the first entry that is none. *)
Fixpoint listed (entries : list json) : result unit * list Z :=
  match entries with
  | [] => (Ok tt, [])
  | entry :: entries =>
      match idx_json_as_u64 (Some entry) with
      | Err s => (Err s, [])
      | Ok slot => let '(r, slots) := listed entries in (r, slot :: slots)
      end
  end.

Section Spec.
Context (yyjson_read_opts : bytes -> option json).

(** What a reply says of the slots asked for. *)
Definition listed_by (r : result idx_rpc_response) : result unit * list Z :=
  match r with
  | Err s => (Err s, [])
  | Ok response => match rpc_result response with Some (JArr entries) => listed entries | _ => (Err IDX_ERR_PARSE, []) end
  end.

Definition blocks_request (id : Z) (commitment : option bytes) (r : Z * Z) : bytes :=
  request_text id (lit "getBlocks") (Some (blocks_params r.1 r.2 commitment)).

(** Ranges asked for one after the other, [attempts] times at most each, until one fails:
    the outcome, the slots listed, the answers left and the requests made. *)
Fixpoint fetch_ranges (attempts : nat) (id : Z) (commitment : option bytes) (ranges : list (Z * Z)) (answers : list exchange)
    : result unit * list Z * list exchange * list bytes :=
  match ranges with
  | [] => (Ok tt, [], answers, [])
  | range :: ranges =>
      let '(r, n) := outcome attempts answers in
      let asked := replicate n (blocks_request id commitment range) in
      match listed_by (reply yyjson_read_opts r) with
      | (Err s, found) => (Err s, found, drop n answers, asked)
      | (Ok _, found) =>
          let '(r, rest, answers, more) := fetch_ranges attempts (u64 (id + 1)) commitment ranges (drop n answers) in
          (r, found ++ rest, answers, asked ++ more)
      end
  end.
End Spec.

(** ** Lemmas *)

Lemma vec_push_fits {V} (garbage : V) v x :
  vec_ok v -> Z.max 8 (2 * (size (vec_data v) + 1)) * elem_size v <= SIZE_MAX ->
  exists v', idx_vec_push garbage (Some v) (Some x) [] = (Ok tt, Some v', []) /\
    vec_ok v' /\ vec_data v' = vec_data v ++ [x] /\ elem_size v' = elem_size v.
Proof.
  intros Hv Hs. pose proof (vec_reserve_spec v 1 [] Hv ltac:(lia)) as R. unfold idx_vec_push, idx_vec_push_uninit.
  destruct (idx_vec_reserve _ _ _) as [[[[]|s] v'] h']; destruct R as (w & -> & Hw & Hd & He & Hc & R).
  - destruct R as [R [used E]]. destruct used; [|done]. simpl in E. subst h'. eexists. split; [done|].
    destruct Hw as (W1 & W2 & W3). rewrite Hd in *. unfold vec_ok, size in *. simpl.
    rewrite insert_app_r_alt, Nat.sub_diag by lia. simpl. rewrite length_app. simpl.
    split_and!; [done|lia|done|done|done].
  - exfalso. destruct R as [_ [[_ R]|[_ R]]]; [by apply not_elem_of_nil in R|lia].
Qed.

(** [n] elements in all can be held. *)
Definition holds {V} (v : idx_vec V) (n : Z) : Prop := Z.max 8 (2 * n) * elem_size v <= SIZE_MAX.

Lemma holds_less {V} (v : idx_vec V) m n : 0 < elem_size v -> m <= n -> holds v n -> holds v m.
Proof.
  unfold holds. intros He Hm Hn. assert (Z.max 8 (2 * m) <= Z.max 8 (2 * n)) as Hle by lia.
  apply (Z.mul_le_mono_nonneg_r _ _ (elem_size v)) in Hle; lia.
Qed.

Lemma push_slots_spec entries : forall slots,
  vec_ok slots -> holds slots (size (vec_data slots ++ snd (listed entries))) ->
  exists slots', push_slots entries slots [] = (fst (listed entries), slots', []) /\
    vec_ok slots' /\ vec_data slots' = vec_data slots ++ snd (listed entries) /\ elem_size slots' = elem_size slots.
Proof.
  induction entries as [|entry entries IH]; intros slots Hv Hh; cbn [push_slots listed] in *.
  { exists slots. by rewrite app_nil_r. }
  destruct (idx_json_as_u64 (Some entry)) as [slot|s]; [|exists slots; by rewrite app_nil_r].
  destruct (listed entries) as [r found] eqn:E. cbn [fst snd] in *.
  destruct (vec_push_fits 0 slots slot Hv) as (v' & -> & Hv' & Hd' & He').
  { assert (holds slots (size (vec_data slots) + 1)); [|done]. eapply holds_less; [apply Hv| |exact Hh].
    unfold size. rewrite length_app. simpl. lia. }
  simpl. destruct (IH v' Hv') as (slots' & -> & I1 & I2 & I3).
  { unfold holds in *. rewrite He', Hd', <- app_assoc. exact Hh. }
  exists slots'. split; [done|]. split; [done|]. by rewrite I2, Hd', <- app_assoc, I3, He'.
Qed.

(** *** The parameters are text *)

Definition no_nul (l : bytes) : Prop := Forall (fun c => c <> 0) l.

Lemma dec_no_nul n : is_u64 n -> no_nul (dec n).
Proof. intros (H & _)%dec_ok. eapply Forall_impl; [exact H|]. unfold is_digit. intros. lia. Qed.

Lemma printed_no_nul n l : no_nul l -> no_nul (printed n l).
Proof. apply Forall_take. Qed.

Lemma printed_size n l : 1 <= n -> size (printed n l) <= n - 1.
Proof. intros Hn. unfold printed, size. rewrite length_take. lia. Qed.

Lemma lit_no_nul s : bool_decide (no_nul (lit s)) = true -> no_nul (lit s).
Proof. by intros ?%bool_decide_eq_true. Qed.

Ltac no_nul :=
  repeat first [ apply Forall_app; split | apply dec_no_nul; assumption | assumption
               | apply (bool_decide_eq_true_1 _); vm_compute; reflexivity ].

Lemma blocks_params_no_nul a b commitment :
  is_u64 a -> is_u64 b -> no_nul (default [] commitment) -> no_nul (blocks_params a b commitment).
Proof.
  intros Ha Hb Hc. apply printed_no_nul. unfold no_nul, quoted in *. destruct commitment as [c|]; simpl in Hc; no_nul.
Qed.

Lemma blocks_request_fits id commitment a b :
  is_u64 id -> body_fits (blocks_request id commitment (a, b)).
Proof.
  intros Hid. unfold body_fits, blocks_request.
  pose proof (request_text_size id (lit "getBlocks") (Some (blocks_params a b commitment)) Hid) as H.
  pose proof (printed_size 192 match commitment with
    | Some c => lit "[" ++ dec a ++ lit "," ++ dec b ++ lit ",{" ++ quoted (lit "commitment") ++ lit ":" ++ quoted c ++ lit "}]"
    | None => lit "[" ++ dec a ++ lit "," ++ dec b ++ lit "]" end ltac:(lia)) as Hp.
  fold (blocks_params a b commitment) in Hp. change (size (lit "getBlocks")) with 9 in H. cbn [fst snd]. change (default [] (Some ?l)) with l in H.
  unfold SIZE_MAX. lia.
Qed.

(** *** The pieces *)

Lemma pieces_last limit start last : 0 < limit -> start <= last -> last - start < limit -> pieces limit start last = [(start, last)].
Proof.
  intros Hl Hs Hd. unfold pieces. rewrite Z.div_small by lia. change (seqZ 0 (0 + 1)) with [0]. unfold piece. simpl. do 2 f_equal; lia.
Qed.

Lemma pieces_next limit start last :
  0 < limit -> limit <= last - start -> pieces limit start last = (start, start + limit - 1) :: pieces limit (start + limit) last.
Proof.
  intros Hl Hd. unfold pieces. assert ((last - start) / limit = (last - (start + limit)) / limit + 1) as ->.
  { replace (last - start) with (last - (start + limit) + 1 * limit) by lia. by rewrite Z.div_add by lia. }
  assert (0 <= (last - (start + limit)) / limit) by (apply Z.div_pos; lia).
  rewrite seqZ_cons by lia. cbn [fmap list_fmap]. f_equal; [unfold piece; f_equal; lia|].
  replace (Z.pred (_ + 1 + 1)) with ((last - (start + limit)) / limit + 1) by lia.
  rewrite <- (fmap_add_seqZ 1 0), <- list_fmap_compose. apply list_fmap_ext. intros _ i _. unfold piece. simpl. f_equal; lia.
Qed.

(** The pieces are the range, in order, none longer than the limit. *)
Lemma pieces_cover limit start last :
  0 < limit -> start <= last ->
  concat (slots_of <$> pieces limit start last) = seqZ start (last - start + 1) /\
  Forall (fun r => r.1 <= r.2 /\ r.2 - r.1 < limit) (pieces limit start last).
Proof.
  intros Hl. remember (Z.to_nat (last - start)) as n eqn:En. revert start En.
  induction (lt_wf n) as [n _ IH]. intros start -> Hs. destruct (Z.lt_ge_cases (last - start) limit) as [Hd|Hd].
  - rewrite pieces_last by done. unfold slots_of. simpl. rewrite app_nil_r. split; [done|]. apply Forall_singleton. simpl. lia.
  - rewrite pieces_next by done. destruct (IH (Z.to_nat (last - (start + limit)))) with (start := start + limit) as [I1 I2]; try lia.
    split; [|constructor; [simpl; lia|done]]. cbn [fmap list_fmap concat]. rewrite I1. unfold slots_of. cbn [fst snd].
    replace (start + limit - 1 - start + 1) with limit by lia.
    replace (last - start + 1) with (limit + (last - (start + limit) + 1)) by lia. by rewrite (seqZ_app start limit) by lia.
Qed.

Section Blocks.
Context (yyjson_read_opts : bytes -> option json).

(** *** One piece *)

Lemma sent_bodies text n rpc w st ids :
  called text ids n rpc w st -> snd <$> sent st.2 = (snd <$> sent w) ++ replicate n text.
Proof.
  destruct st as [rpc' w']. intros (_ & _ & _ & _ & _ & _ & _ & E). simpl. rewrite E, fmap_app, <- list_fmap_compose. f_equal.
  clear E. generalize 0%nat. induction n as [|n IH]; intros k; simpl; [done|]. f_equal. apply IH.
Qed.

Lemma chunk_spec a b commitment slots rpc w :
  ready rpc w -> is_u64 a -> is_u64 b -> no_nul (default [] commitment) -> vec_ok slots ->
  let '(r, n) := outcome (Z.to_nat (max_attempts (options rpc))) (net w) in
  let '(s, found) := listed_by (reply yyjson_read_opts r) in
  holds slots (size (vec_data slots ++ found)) ->
  exists slots' st, get_blocks_chunk yyjson_read_opts a b commitment slots (rpc, w) = (s, slots', st) /\
    called (blocks_request (next_id rpc) commitment (a, b)) 1 n rpc w st /\
    vec_ok slots' /\ vec_data slots' = vec_data slots ++ found /\ elem_size slots' = elem_size slots.
Proof.
  intros Hr Ha Hb Hc Hv. pose proof Hr as ((_ & _ & _ & Hid & _) & _).
  pose proof (call_spec yyjson_read_opts (lit "getBlocks") (Some (blocks_params a b commitment)) rpc w Hr) as S.
  destruct (outcome _ (net w)) as [r n]. unfold get_blocks_chunk.
  destruct S as ([rpc' w'] & -> & S).
  { by apply (bool_decide_eq_true_1 _); vm_compute. }
  { by apply blocks_params_no_nul. }
  { by apply (blocks_request_fits (next_id rpc) commitment a b). }
  change (request_text _ _ _) with (blocks_request (next_id rpc) commitment (a, b)) in S.
  pose proof S as (_ & _ & _ & _ & _ & _ & Hm & _).
  destruct (reply yyjson_read_opts r) as [response|e]; cbn [listed_by].
  2: { intros _. exists slots, (rpc', w'). split; [done|]. split; [done|]. by rewrite app_nil_r. }
  assert (forall v : option json,
    (match v with Some (JArr _) => False | _ => True end) ->
    match v with
    | Some (JArr entries) => let '(r, slots, h) := push_slots entries slots (mem w') in (r, slots, (rpc', with_mem w' h))
    | _ => (IDX_FAIL IDX_ERR_PARSE, slots, (rpc', w'))
    end = (Err IDX_ERR_PARSE, slots, (rpc', w'))) as Hother by (by intros [[]|]).
  destruct (rpc_result response) as [[| | | | | |entries|]|];
    try (intros _; exists slots, (rpc', w'); split; [done|]; split; [done|]; by rewrite app_nil_r).
  destruct (listed entries) as [s found] eqn:E. intros Hh.
  destruct (push_slots_spec entries slots Hv) as (slots' & P & P1 & P2 & P3); [by rewrite E|].
  rewrite Hm, P, E. simpl. exists slots', (rpc', w'). rewrite with_mem_id by done. by rewrite P2, P3, E.
Qed.

(** *** The loop *)

(** [asked] requests made, [k] ids given out. *)
Definition blocks_done (asked : list bytes) (answers : list exchange) (rpc : idx_rpc) (w : world) (st : idx_rpc * world) : Prop :=
  ready st.1 st.2 /\ urls st.1 = urls rpc /\ options st.1 = options rpc /\
  net st.2 = answers /\ snd <$> sent st.2 = (snd <$> sent w) ++ asked.

Lemma blocks_loop_spec commitment last limit :
  no_nul (default [] commitment) -> is_u64 last -> 0 < limit < 2 ^ 64 ->
  forall fuel from slots rpc w,
  (Z.to_nat (last - from) < fuel)%nat -> 0 <= from <= last -> ready rpc w -> vec_ok slots ->
  let '(r, found, answers, asked) :=
    fetch_ranges yyjson_read_opts (Z.to_nat (max_attempts (options rpc))) (next_id rpc) commitment (pieces limit from last) (net w) in
  holds slots (size (vec_data slots ++ found)) ->
  exists slots' st, blocks_loop yyjson_read_opts fuel from last limit commitment slots (rpc, w) = Some (r, slots', st) /\
    blocks_done asked answers rpc w st /\ vec_ok slots' /\ vec_data slots' = vec_data slots ++ found /\ elem_size slots' = elem_size slots.
Proof.
  intros Hc Hlast Hlim. induction fuel as [|fuel IH]; intros from slots rpc w Hf Hfrom Hr Hv; [lia|].
  unfold is_u64 in Hlast. cbn [blocks_loop]. rewrite (proj2 (Z.leb_le from last)) by lia.
  rewrite (u64_small (last - from)) by (unfold is_u64; lia).
  assert (forall to rest, (if limit <=? last - from then u64 (from + limit - 1) else last) = to ->
    from <= to <= last -> pieces limit from last = (from, to) :: rest ->
    (to = last /\ rest = [] \/ to < last /\ rest = pieces limit (to + 1) last) ->
    let '(r, found, answers, asked) :=
      fetch_ranges yyjson_read_opts (Z.to_nat (max_attempts (options rpc))) (next_id rpc) commitment (pieces limit from last) (net w) in
    holds slots (size (vec_data slots ++ found)) ->
    exists slots' st,
      match get_blocks_chunk yyjson_read_opts from to commitment slots (rpc, w) with
      | (Ok _, slots0, st) =>
          if to =? last then Some (Ok tt, slots0, st)
          else blocks_loop yyjson_read_opts fuel (u64 (to + 1)) last limit commitment slots0 st
      | (Err s, slots0, st) => Some (Err s, slots0, st)
      end = Some (r, slots', st) /\
      blocks_done asked answers rpc w st /\ vec_ok slots' /\ vec_data slots' = vec_data slots ++ found /\ elem_size slots' = elem_size slots)
    as Hround.
  { intros to rest _ Hto -> Hrest. cbn [fetch_ranges].
    pose proof (chunk_spec from to commitment slots rpc w Hr ltac:(unfold is_u64; lia) ltac:(unfold is_u64; lia) Hc Hv) as C.
    destruct (outcome _ (net w)) as [o n]. destruct (listed_by _) as [[[]|e] found].
    2: { intros Hh. destruct (C Hh) as (slots' & [rpc' w'] & -> & C1 & C2). exists slots', (rpc', w'). split; [done|]. split; [|done].
      pose proof (called_ready _ _ _ _ _ _ _ Hr C1). pose proof (sent_bodies _ _ _ _ _ _ C1) as Hs.
      destruct C1 as (_ & _ & Hu & Ho & _ & Hn & _). by split_and!. }
    assert (forall f0, holds slots (size (vec_data slots ++ found ++ f0)) ->
      exists slots1 rpc1 w1, get_blocks_chunk yyjson_read_opts from to commitment slots (rpc, w) = (Ok tt, slots1, (rpc1, w1)) /\
        called (blocks_request (next_id rpc) commitment (from, to)) 1 n rpc w (rpc1, w1) /\
        vec_ok slots1 /\ vec_data slots1 = vec_data slots ++ found /\ elem_size slots1 = elem_size slots) as C'.
    { intros f0 Hh. destruct C as (slots1 & [rpc1 w1] & C); [|by exists slots1, rpc1, w1].
      eapply holds_less; [apply Hv| |exact Hh]. unfold size. rewrite !length_app. lia. }
    destruct Hrest as [[-> ->]|[Hlt ->]].
    - cbn [fetch_ranges]. intros Hh. destruct (C' [] Hh) as (slots1 & rpc1 & w1 & -> & C1 & C2 & C3 & C4).
      exists slots1, (rpc1, w1). rewrite Z.eqb_refl. split; [done|]. rewrite !app_nil_r. split; [|done].
      pose proof (called_ready _ _ _ _ _ _ _ Hr C1). pose proof (sent_bodies _ _ _ _ _ _ C1) as Hs.
      destruct C1 as (_ & _ & Hu & Ho & _ & Hn & _). by split_and!.
    - destruct (fetch_ranges _ _ _ _ _ _) as [[[r rest] answers] more] eqn:Er. intros Hh.
      destruct (C' rest Hh) as (slots1 & rpc1 & w1 & -> & C1 & C2 & C3 & C4).
      rewrite (proj2 (Z.eqb_neq _ _)) by lia. rewrite (u64_small (to + 1)) by (unfold is_u64; lia).
      pose proof (called_ready _ _ _ _ _ _ _ Hr C1) as Hr1. pose proof (sent_bodies _ _ _ _ _ _ C1) as Hs1.
      destruct C1 as (_ & _ & Hu & Ho & Hid & Hn & _).
      specialize (IH (to + 1) slots1 rpc1 w1 ltac:(lia) ltac:(lia) Hr1 C2). rewrite Ho, Hid, Hn, Er in IH.
      destruct IH as (slots' & st & I1 & (D1 & D2 & D3 & D4 & D5) & I3 & I4 & I5).
      { unfold holds in *. by rewrite C4, C3, <- app_assoc. }
      exists slots', st. split; [done|]. split; [|by rewrite I4, C3, <- app_assoc, I5, C4].
      split; [done|]. split; [by rewrite D2|]. split; [by rewrite D3|]. split; [done|]. simpl in Hs1. by rewrite D5, Hs1, <- app_assoc. }
  destruct (limit <=? last - from) eqn:E; zbool.
  - rewrite u64_small in * by (unfold is_u64; lia). eapply Hround; [done|lia|apply pieces_next; lia|]. right. split; [lia|].
    f_equal. lia.
  - eapply Hround; [done|lia|apply pieces_last; lia|]. by left.
Qed.
(** *** Writing a batch *)

(** The calls of a batch, the first with [id]. *)
Fixpoint calls_text (first : bool) (id : Z) (given : list (bytes * option bytes)) : bytes :=
  match given with
  | [] => []
  | (method, params) :: given =>
      (if first then [] else [44]) ++ request_text id method params ++ calls_text false (u64 (id + 1)) given
  end.

Definition as_call (c : bytes * option bytes) : idx_rpc_batch_call := BatchCall (Some c.1) c.2.

Lemma write_calls_spec given : forall first used b rpc w,
  is_u64 (next_id rpc) -> mem w = [] -> buffer_ok b ->
  Forall (fun c => no_nul c.1 /\ no_nul (default [] c.2)) given ->
  size (buf_data b ++ calls_text first (u64 (next_id rpc + used)) given) <= SIZE_MAX ->
  exists b', write_calls first (as_call <$> given) (prepared rpc b used, w) =
      (Ok tt, (prepared rpc b' (used + size given), w)) /\
    buffer_ok b' /\ buf_data b' = buf_data b ++ calls_text first (u64 (next_id rpc + used)) given.
Proof.
  induction given as [|[method params] given IH]; intros first used b rpc w Hid Hm Hb Hg Hs; cbn [calls_text] in *.
  { exists b. unfold size. simpl. rewrite Z.add_0_r, app_nil_r. done. }
  apply Forall_cons in Hg as [[Hg1 Hg2] Hg]. set (id := u64 (next_id rpc + used)) in *.
  set (comma := if first then [] else [44]) in *.
  unfold size in Hs. rewrite !length_app in Hs. cbn [fmap list_fmap write_calls]. unfold mbind, call_bind.
  assert (exists b1, (if first then mret tt else write (append_byte 44)) (prepared rpc b used, w) = (Ok tt, (prepared rpc b1 used, w)) /\
    buffer_ok b1 /\ buf_data b1 = buf_data b ++ comma) as (b1 & -> & Hb1 & Hd1).
  { unfold comma in *. destruct first; [exists b; by rewrite app_nil_r|].
    apply (write_ok _ _ (prepared rpc b used) w (writes_byte 44) Hm Hb). cbn [prepared request]. unfold size. simpl in Hs. simpl. lia. }
  unfold fresh_id at 1. cbn [prepared next_id urls current_url options response request stats rng_state].
  fold id. rewrite (u64_add_l (next_id rpc + used) 1 : u64 (id + 1) = _), <- Z.add_assoc.
  fold (prepared rpc b1 (used + 1)). cbn [as_call call_method call_params fst snd].
  destruct (write_ok _ _ (prepared rpc b1 (used + 1)) w (writes_request id method params (u64_range _) Hg1 Hg2) Hm Hb1) as (b2 & -> & Hb2 & Hd2).
  { cbn [prepared request]. rewrite Hd1. unfold size. rewrite length_app. lia. }
  change (with_request (prepared rpc b1 (used + 1)) b2) with (prepared rpc b2 (used + 1)). cbn [prepared request] in Hd2.
  assert (u64 (id + 1) = u64 (next_id rpc + (used + 1))) as Eid by (unfold id; rewrite u64_add_l; f_equal; lia).
  destruct (IH false (used + 1) b2 rpc w Hid Hm Hb2 Hg) as (b3 & -> & Hb3 & Hd3).
  { rewrite Hd2, Hd1, <- Eid. unfold size. rewrite !length_app. lia. }
  exists b3. split; [by replace (used + size ((method, params) :: given)) with (used + 1 + size given) by (unfold size; simpl; lia)|].
  split; [done|].
  rewrite Hd3, Hd2, Hd1. by rewrite <- !app_assoc.
Qed.

(** *** Matching the answers *)

Definition entry_id (entry : json) : option Z := idx_json_opt_u64 (Some entry) (lit "id").

(** What an entry of the response says. *)
Definition entry_says (entry : json) : idx_json_val * idx_status :=
  let error_object := idx_json_get (Some entry) (lit "error") in
  if is_error error_object then (None, classify_rpc_error error_object)
  else match idx_json_get (Some entry) (lit "result") with
       | Some v => (Some v, IDX_OK)
       | None => (None, IDX_ERR_PARSE)
       end.

(** The entries that answer the call with [id]. *)
Definition replies_to (id : Z) (entries : list json) : list json := filter (fun e => entry_id e = Some id) entries.

Lemma entry_id_u64 entry id : entry_id entry = Some id -> is_u64 id.
Proof.
  unfold entry_id, idx_json_opt_u64. destruct (_ || _); [done|]. destruct (idx_json_get _ _) as [[]|]; try done; simpl.
  - intros [= <-]. apply u64_range.
  - destruct (n <? 0); [done|]. intros [= <-]. apply u64_range.
Qed.

Lemma match_entry_spec first count results statuses entry :
  0 <= first -> first + Z.of_nat count <= 2 ^ 64 -> length results = count -> length statuses = count ->
  let '(results', statuses') := match_entry first (results, statuses) entry in
  length results' = count /\ length statuses' = count /\
  forall i, (i < count)%nat ->
    if decide (entry_id entry = Some (first + Z.of_nat i))
    then statuses' !! i = Some (entry_says entry).2 /\
         results' !! i = match (entry_says entry).1 with Some v => Some (Some v) | None => results !! i end
    else statuses' !! i = statuses !! i /\ results' !! i = results !! i.
Proof.
  intros Hf Hc Hr Hs. unfold match_entry. fold (entry_id entry). destruct (entry_id entry) as [id|] eqn:E.
  2: { split; [done|]. split; [done|]. intros i Hi. by rewrite decide_False. }
  pose proof (entry_id_u64 _ _ E) as Hid. unfold is_u64 in Hid.
  destruct ((id <? first) || (size statuses <=? u64 (id - first))) eqn:B.
  { split; [done|]. split; [done|]. intros i Hi. rewrite decide_False; [done|]. intros [= ->].
    apply orb_true_iff in B as [B|B]; zbool; [lia|]. rewrite u64_small in B by (unfold is_u64; lia). unfold size in B. lia. }
  apply orb_false_iff in B as [B1 B2]. zbool. rewrite u64_small in * by (unfold is_u64; lia).
  set (j := Z.to_nat (id - first)). assert (id = first + Z.of_nat j) as Hj by lia. assert (j < count)%nat as Hjc by (unfold size in B2; lia).
  assert (j < length results)%nat as Hjr by (rewrite Hr; exact Hjc). assert (j < length statuses)%nat as Hjs by (rewrite Hs; exact Hjc).
  unfold entry_says. destruct (is_error _); [|destruct (idx_json_get (Some entry) (lit "result")) as [v|]]; simpl;
    rewrite ?length_insert; (split; [done|]); (split; [done|]); intros i Hi;
    (destruct (decide (Some id = Some (first + Z.of_nat i))) as [D|D];
      [assert (i = j) as -> by (injection D; lia); split; try done; apply list_lookup_insert_eq; assumption
      |assert (j <> i) by (intros ->; apply D; by f_equal); split; try done; apply list_lookup_insert_ne; done]).
Qed.

(** A call that one entry answers has that answer; one that none answers has none. *)
Definition matched_at (first : Z) (entries : list json) (results : list idx_json_val) (statuses : list idx_status) (i : nat) : Prop :=
  match replies_to (first + Z.of_nat i) entries with
  | [] => results !! i = Some None /\ statuses !! i = Some IDX_ERR_NOT_FOUND
  | [entry] => results !! i = Some (entry_says entry).1 /\ statuses !! i = Some (entry_says entry).2
  | _ => True
  end.

Lemma match_entries_spec first count entries :
  0 <= first -> first + Z.of_nat count <= 2 ^ 64 ->
  let '(results, statuses) :=
    foldl (match_entry first) (replicate count None, replicate count IDX_ERR_NOT_FOUND) entries in
  length results = count /\ length statuses = count /\
  forall i, (i < count)%nat -> matched_at first entries results statuses i.
Proof.
  intros Hf Hc. induction entries as [|entry entries IH] using rev_ind.
  { simpl. rewrite !length_replicate. split; [done|]. split; [done|]. intros i Hi. unfold matched_at. simpl.
    by rewrite !lookup_replicate_2. }
  rewrite foldl_app. destruct (foldl _ _ entries) as [results statuses]. destruct IH as (I1 & I2 & I3). cbn [foldl].
  pose proof (match_entry_spec first count results statuses entry Hf Hc I1 I2) as M.
  destruct (match_entry _ _ _) as [results' statuses']. destruct M as (M1 & M2 & M3). split; [done|]. split; [done|].
  intros i Hi. specialize (I3 i Hi). specialize (M3 i Hi). unfold matched_at, replies_to in *. rewrite filter_app, filter_cons, filter_nil.
  destruct (decide (entry_id entry = Some (first + Z.of_nat i))).
  - destruct (filter _ entries) as [|x xs]; [|by destruct xs]. simpl. destruct M3 as [M3 M4]. split; [|exact M3].
    etransitivity; [exact M4|]. destruct (entry_says entry).1; [done|exact (proj1 I3)].
  - rewrite app_nil_r. destruct M3 as [M3 M4]. destruct (filter _ entries) as [|x [|]]; try done;
      (split; [etransitivity; [exact M4|exact (proj1 I3)]|etransitivity; [exact M3|exact (proj2 I3)]]).
Qed.
(** The text of a batch. *)
Definition batch_text (id : Z) (given : list (bytes * option bytes)) : bytes := [91] ++ calls_text true id given ++ [93].

(** *** A batch up to its answer *)

Lemma batch_request_spec given rpc w :
  ready rpc w -> Forall (fun c => no_nul c.1 /\ no_nul (default [] c.2)) given -> body_fits (batch_text (next_id rpc) given) ->
  exists b, buffer_ok b /\
    (_ ← clear_request; _ ← write (append_byte 91); first_id ← gets next_id; _ ← write_calls true (as_call <$> given);
     _ ← write (append_byte 93); _ ← write (append_byte 0); body ← request_body; mret (first_id, body)) (rpc, w) =
    (Ok (next_id rpc, batch_text (next_id rpc) given), (prepared rpc b (size given), w)).
Proof.
  intros (H1 & H2 & H3 & H4) Hg Hf. pose proof H1 as (_ & _ & _ & Hid & _). unfold body_fits, batch_text, size in Hf. rewrite !length_app in Hf. cbn [length] in Hf.
  unfold mbind, call_bind. destruct (clear_request_spec rpc w H1) as (b0 & -> & Hb0 & Hd0).
  destruct (write_ok _ _ (prepared rpc b0 0) w (writes_byte 91) H3 Hb0) as (b1 & -> & Hb1 & Hd1).
  { cbn [prepared request]. rewrite Hd0. unfold size. simpl. lia. }
  change (with_request (prepared rpc b0 0) b1) with (prepared rpc b1 0). cbn [prepared request] in Hd1. rewrite Hd0 in Hd1. simpl in Hd1.
  unfold gets at 1. cbn [fst prepared next_id]. fold (prepared rpc b1 0). rewrite Z.add_0_r, u64_small by done.
  destruct (write_calls_spec given true 0 b1 rpc w Hid H3 Hb1 Hg) as (b2 & E & Hb2 & Hd2).
  { rewrite Hd1, Z.add_0_r, u64_small by done. unfold size. simpl. lia. }
  rewrite E. clear E. rewrite Z.add_0_l. rewrite Hd1, Z.add_0_r, u64_small in Hd2 by done.
  destruct (write_ok _ _ (prepared rpc b2 (size given)) w (writes_byte 93) H3 Hb2) as (b3 & -> & Hb3 & Hd3).
  { cbn [prepared request]. rewrite Hd2. unfold size. rewrite !length_app. simpl. lia. }
  change (with_request (prepared rpc b2 (size given)) b3) with (prepared rpc b3 (size given)). cbn [prepared request] in Hd3.
  destruct (finish_request rpc b3 (size given) (batch_text (next_id rpc) given) w H3 Hb3) as (b4 & -> & Hb4 & ->).
  { by rewrite Hd3, Hd2. }
  { unfold body_fits, batch_text, size. rewrite !length_app. simpl. lia. }
  by exists b4.
Qed.

(** The rest of a batch, after its request is written. *)
Definition batch_rest (calls : list idx_rpc_batch_call) (first_id : Z) (body : bytes) : call idx_rpc_batch :=
  _ ← send_with_retries yyjson_read_opts body;
  root ← parse_response yyjson_read_opts;
  if negb (idx_json_is_array (Some root)) then fail IDX_ERR_PARSE
  else
    allocated ← batch_arrays (size calls);
    if negb allocated then fail IDX_ERR_NO_MEMORY
    else
      let '(results, statuses) :=
        foldl (match_entry first_id) (replicate (length calls) None, replicate (length calls) IDX_ERR_NOT_FOUND)
          (array_items root) in
      mret (Batch (Some root) results statuses).

Lemma batch_split calls st :
  calls <> [] ->
  idx_rpc_call_batch yyjson_read_opts calls st =
  (a ← (_ ← clear_request; _ ← write (append_byte 91); first_id ← gets next_id; _ ← write_calls true calls;
        _ ← write (append_byte 93); _ ← write (append_byte 0); body ← request_body; mret (first_id, body));
   batch_rest calls a.1 a.2) st.
Proof.
  intros Hc. unfold idx_rpc_call_batch. destruct calls as [|c calls]; [done|]. cbn [length Nat.eqb].
  unfold mbind, call_bind. destruct (clear_request st) as [[[]|] s1]; [|done].
  destruct (write (append_byte 91) s1) as [[[]|] s2]; [|done]. cbn [gets].
  destruct (write_calls true (c :: calls) s2) as [[[]|] s3]; [|done].
  destruct (write (append_byte 93) s3) as [[[]|] s4]; [|done].
  destruct (write (append_byte 0) s4) as [[[]|] s5]; [|done]. by destruct (request_body s5) as [[body|] s6].
Qed.
(** ** Properties *)

(** C31. [getBlocks] covers any range exactly: the pieces it is cut into follow each
    other from the first slot to the last, none longer than the provider's limit; it
    always ends; and for any network what it appends to the caller's slots, what it
    returns and which requests it sends are those of asking for the pieces one after
    the other until one fails, at most [max_attempts] times each.  A reversed range is
    refused and nothing is sent. *)
Theorem rpc_get_blocks_exact start last commitment slots rpc w :
  ready rpc w -> is_u64 start -> is_u64 last -> is_u64 (blocks_range_limit (options rpc)) ->
  no_nul (default [] commitment) -> vec_ok slots ->
  let limit := if blocks_range_limit (options rpc) =? 0 then IDX_RPC_DEFAULT_BLOCKS_RANGE else blocks_range_limit (options rpc) in
  (last < start -> idx_rpc_get_blocks yyjson_read_opts start last commitment slots (rpc, w) = Some (Err IDX_ERR_RANGE, slots, (rpc, w))) /\
  (start <= last ->
    concat (slots_of <$> pieces limit start last) = seqZ start (last - start + 1) /\
    Forall (fun r => r.1 <= r.2 /\ r.2 - r.1 < limit) (pieces limit start last) /\
    let '(r, found, answers, asked) :=
      fetch_ranges yyjson_read_opts (Z.to_nat (max_attempts (options rpc))) (next_id rpc) commitment (pieces limit start last) (net w) in
    holds slots (size (vec_data slots ++ found)) ->
    exists slots' rpc' w',
      idx_rpc_get_blocks yyjson_read_opts start last commitment slots (rpc, w) = Some (r, slots', (rpc', w')) /\
      vec_data slots' = vec_data slots ++ found /\ vec_ok slots' /\ ready rpc' w' /\
      net w' = answers /\ snd <$> sent w' = (snd <$> sent w) ++ asked).
Proof.
  intros Hr Hs Hl Hlim Hc Hv limit. unfold is_u64 in *. split.
  - intros Hlt. unfold idx_rpc_get_blocks. by rewrite (proj2 (Z.ltb_lt _ _)).
  - intros Hle. assert (0 < limit < 2 ^ 64) as Hlimit.
    { unfold limit, IDX_RPC_DEFAULT_BLOCKS_RANGE. destruct (_ =? 0) eqn:E; zbool; lia. }
    destruct (pieces_cover limit start last) as [P1 P2]; [lia..|]. split; [done|]. split; [done|].
    pose proof (blocks_loop_spec commitment last limit Hc Hl Hlimit (Z.to_nat (last - start + 1)) start slots rpc w) as B.
    specialize (B ltac:(lia) ltac:(lia) Hr Hv).
    destruct (fetch_ranges _ _ _ _ _ _) as [[[r found] answers] asked]. intros Hh.
    destruct (B Hh) as (slots' & [rpc' w'] & E & (D1 & D2 & D3 & D4 & D5) & V1 & V2 & V3).
    exists slots', rpc', w'. unfold idx_rpc_get_blocks. rewrite (proj2 (Z.ltb_ge _ _)) by lia. fold limit.
    cbn [fst]. fold limit. split; [exact E|]. by split_and!; try apply D1.
Qed.

(** A batch sends all its calls as one JSON array, each with an id of its own, and
    each call gets the answer with its id: wherever the entry stands in the response,
    whatever stands beside it.  A call no entry answers is not found; one whose entry
    holds an error or no result has that status.  What is not an array is refused, and
    so is a batch of no calls. *)
Theorem rpc_batch_exact given rpc w :
  ready rpc w -> Forall (fun c => no_nul c.1 /\ no_nul (default [] c.2)) given -> given <> [] ->
  body_fits (batch_text (next_id rpc) given) -> next_id rpc + size given <= 2 ^ 64 -> size given * 8 <= SIZE_MAX ->
  let '(r, n) := outcome (Z.to_nat (max_attempts (options rpc))) (net w) in
  exists st res, idx_rpc_call_batch yyjson_read_opts (as_call <$> given) (rpc, w) = (res, st) /\
    called (batch_text (next_id rpc) given) (size given) n rpc w st /\
    match r with
    | Err s => res = Err s
    | Ok body =>
        match yyjson_read_opts body with
        | Some (JArr entries) =>
            exists results statuses, res = Ok (Batch (Some (JArr entries)) results statuses) /\
              length results = length given /\ length statuses = length given /\
              forall i, (i < length given)%nat -> matched_at (next_id rpc) entries results statuses i
        | _ => res = Err IDX_ERR_PARSE
        end
    end.
Proof.
  intros Hr Hg Hne Hf Hid Hcount. destruct (batch_request_spec given rpc w Hr Hg Hf) as (b & Hb & E).
  pose proof (send_spec yyjson_read_opts rpc b (size given) (batch_text (next_id rpc) given) w Hr Hb) as S.
  destruct (outcome _ (net w)) as [r n]. rewrite batch_split by by destruct given. unfold mbind, call_bind in *. rewrite E. clear E.
  cbn [fst snd]. unfold batch_rest, mbind, call_bind. destruct S as ([rpc' w'] & -> & S1 & S2). exists (rpc', w').
  destruct r as [body|s]; [|by exists (Err s)]. pose proof S1 as (C1 & _ & _ & _ & _ & _ & C7 & _).
  rewrite parse_response_spec by done. cbn [fst] in S2. rewrite (S2 body eq_refl). unfold tree_of.
  destruct (yyjson_read_opts body) as [root|]; [|by eexists]. destruct root as [| | | | | |entries|]; try by eexists.
  cbn [idx_json_is_array negb]. unfold batch_arrays at 1, calloc. rewrite C7.
  assert (size (as_call <$> given) = size given) as -> by (unfold size; by rewrite length_fmap).
  assert (0 <= size given) by (unfold size; lia).
  rewrite !(proj2 (Z.ltb_ge SIZE_MAX _)) by lia. simpl. rewrite with_mem_id by done.
  pose proof (match_entries_spec (next_id rpc) (length given) entries) as M. rewrite length_fmap.
  pose proof Hr as ((_ & _ & _ & Hu & _) & _).
  destruct (foldl _ _ entries) as [results statuses]. destruct M as (M1 & M2 & M3); [apply Hu|unfold size in Hid; lia|].
  eexists. split; [done|]. split; [done|]. by exists results, statuses.
Qed.
End Blocks.

(** ** Witnesses *)

(** A parser that knows two documents: a listing of slots and a batch of answers. *)
Definition a_listing : json := JObj [(lit "result", JArr [JUint 5; JUint 7])].
Definition some_answers : json :=
  JArr [JObj [(lit "id", JUint 2); (lit "result", JUint 70)]; JNull;
        JObj [(lit "id", JUint 9); (lit "result", JUint 90)];
        JObj [(lit "id", JUint 1); (lit "error", JObj [(lit "code", JSint (-32007))])]].
Definition parser (l : bytes) : option json :=
  if bool_decide (l = [1]) then Some a_listing else if bool_decide (l = [2; 2]) then Some some_answers else None.

Definition a_client : idx_rpc :=
  Rpc [lit "http://a"; lit "http://b"] 0 (RpcOptions None 10000 120000 3 250 8000 5 true) idx_buffer_init idx_buffer_init 1
    (RpcStats 0 0 0 0 0) 1.

Lemma a_client_ok : rpc_ok a_client.
Proof. unfold rpc_ok, buffer_ok, is_u64. simpl. change (size (@nil Z)) with 0. unfold SIZE_MAX. split_and!; lia. Qed.

Lemma a_client_ready answers : answers_ok answers -> ready a_client (World answers [] [] []).
Proof. intros H. split; [apply a_client_ok|]. split; [unfold stats_ok, is_u64; simpl; lia|]. done. Qed.

Definition listing_answers : list exchange := [Exchange [[1]] (Some 200); Exchange [] None; Exchange [[1]] (Some 200)].

(** Seven slots by five: two requests, the second sent twice. *)
Lemma rpc_get_blocks_exact_witness :
  exists slots' rpc' w',
    idx_rpc_get_blocks parser 4 10 None (idx_vec_init 8) (a_client, World listing_answers [] [] []) = Some (Ok tt, slots', (rpc', w')) /\
    vec_data slots' = [5; 7; 5; 7] /\ length (sent w') = 3%nat.
Proof.
  assert (answers_ok listing_answers) as Ha by (repeat constructor; by vm_compute).
  destruct (rpc_get_blocks_exact parser 4 10 None (idx_vec_init 8) a_client (World listing_answers [] [] []) (a_client_ready _ Ha)) as [_ R];
    [done|done|done|constructor|by vm_compute|].
  destruct R as (_ & _ & R); [done|].
  destruct (fetch_ranges _ _ _ _ _ _) as [[[r found] answers] asked] eqn:E.
  assert (r = Ok tt /\ found = [5; 7; 5; 7] /\ length asked = 3%nat) as (-> & -> & Hn) by (vm_compute in E; by injection E as <- <- <- <-).
  destruct R as (slots' & rpc' & w' & R1 & R2 & _ & _ & _ & R6); [by vm_compute|]. exists slots', rpc', w'. split; [exact R1|].
  split; [exact R2|]. by rewrite <- (length_fmap snd), R6.
Defined.

Definition two_calls : list (bytes * option bytes) := [(lit "getSlot", Some (lit "[]")); (lit "getBlockHeight", None)].

(** The answers come in the other order, with two that belong to nobody. *)
Lemma rpc_batch_exact_witness :
  exists st results statuses,
    idx_rpc_call_batch parser (as_call <$> two_calls) (a_client, World [Exchange [[2]; [2]] (Some 200)] [] [] []) =
      (Ok (Batch (Some some_answers) results statuses), st) /\
    results !! 1%nat = Some (Some (JUint 70)) /\ statuses !! 0%nat = Some IDX_ERR_NOT_FOUND.
Proof.
  assert (answers_ok [Exchange [[2]; [2]] (Some 200)]) as Ha by (repeat constructor; by vm_compute).
  pose proof (rpc_batch_exact parser two_calls a_client _ (a_client_ready _ Ha)) as R.
  destruct (outcome _ _) as [r n] eqn:E. assert (r = Ok [2; 2]) as -> by (vm_compute in E; by injection E as <- <-).
  destruct R as (st & res & R1 & _ & R3).
  - repeat (apply Forall_cons; split; [split; apply (bool_decide_eq_true_1 _); by vm_compute|]). apply Forall_nil_2.
  - done.
  - by vm_compute.
  - by vm_compute.
  - by vm_compute.
  - change (parser [2; 2]) with (Some some_answers) in R3. destruct R3 as (results & statuses & -> & _ & _ & M).
    exists st, results, statuses. split; [exact R1|]. split.
    + exact (proj1 (M 1%nat ltac:(simpl; lia))).
    + exact (proj2 (M 0%nat ltac:(simpl; lia))).
Defined.
