(* ===== verification/Config.v ===== *)
(** * config.c: the runtime configuration

    Every source of the configuration: the defaults, the file, the environment and
    the command line, applied in that order, the validation, and the parameters of
    the subscription.  A string field is its bytes before the NUL; the text of the
    messages, idx_config_log and idx_config_usage are not modelled.

    Settings are looked up by name ([get_setting]): the configuration is then a map in
    which the last source to name a setting wins. *)

From S2P Require Import Prelude Bytes Decimal Base58 Types SlotCursor Price.
#[local] Open Scope Z_scope.

(** src/include/log.h:16-22 [idx_log_level] *)
Inductive idx_log_level := IDX_LOG_ERROR | IDX_LOG_WARN | IDX_LOG_INFO | IDX_LOG_DEBUG | IDX_LOG_TRACE.

(** src/src/log.c:14-17 [k_level_names] *)
Definition k_level_names : list (bytes * idx_log_level) :=
  [(lit "error", IDX_LOG_ERROR); (lit "warn", IDX_LOG_WARN); (lit "info", IDX_LOG_INFO);
   (lit "debug", IDX_LOG_DEBUG); (lit "trace", IDX_LOG_TRACE)].

(** src/src/log.c:41-47 [idx_log_level_name] *)
Definition idx_log_level_name (level : idx_log_level) : bytes :=
  match level with
  | IDX_LOG_ERROR => lit "error"
  | IDX_LOG_WARN => lit "warn"
  | IDX_LOG_INFO => lit "info"
  | IDX_LOG_DEBUG => lit "debug"
  | IDX_LOG_TRACE => lit "trace"
  end.

(** src/src/log.c:49-65 [idx_log_level_parse] *)
Definition idx_log_level_parse (name : bytes) : result idx_log_level :=
  match List.find (fun x => strcasecmp_eq name x.1) k_level_names with
  | Some (_, level) => Ok level
  | None => if strcasecmp_eq name (lit "warning") then Ok IDX_LOG_WARN else Err IDX_ERR_PARSE
  end.

(** src/include/config.h:28-33 [idx_tx_details] *)
Inductive idx_tx_details :=
  | IDX_TX_DETAILS_FULL
  | IDX_TX_DETAILS_ACCOUNTS
  | IDX_TX_DETAILS_SIGNATURES
  | IDX_TX_DETAILS_NONE.

(** src/src/config.c:15-18 [k_tx_details_names] *)
Definition k_tx_details_names : list (bytes * idx_tx_details) :=
  [(lit "full", IDX_TX_DETAILS_FULL); (lit "accounts", IDX_TX_DETAILS_ACCOUNTS);
   (lit "signatures", IDX_TX_DETAILS_SIGNATURES); (lit "none", IDX_TX_DETAILS_NONE)].

(** src/src/config.c:20-26 [idx_tx_details_name] *)
Definition idx_tx_details_name (details : idx_tx_details) : bytes :=
  match details with
  | IDX_TX_DETAILS_FULL => lit "full"
  | IDX_TX_DETAILS_ACCOUNTS => lit "accounts"
  | IDX_TX_DETAILS_SIGNATURES => lit "signatures"
  | IDX_TX_DETAILS_NONE => lit "none"
  end.

(** src/src/config.c:28-39 [idx_tx_details_parse] *)
Definition idx_tx_details_parse (name : bytes) : result idx_tx_details :=
  match List.find (fun x => strcasecmp_eq name x.1) k_tx_details_names with
  | Some (_, details) => Ok details
  | None => Err IDX_ERR_PARSE
  end.

(** src/include/config.h:23-23 [IDX_CONFIG_STR_MAX] *)
Definition IDX_CONFIG_STR_MAX : Z := 512.
(** src/include/config.h:24-24 [IDX_CONFIG_MAX_CONCURRENCY] *)
Definition IDX_CONFIG_MAX_CONCURRENCY : Z := 1024.
(** src/include/config.h:25-25 [IDX_CONFIG_MAX_QUEUE_DEPTH] *)
Definition IDX_CONFIG_MAX_QUEUE_DEPTH : Z := 1024.
(** src/src/config.c:12-12 [IDX_CONFIG_DEFAULT_FILE] *)
Definition IDX_CONFIG_DEFAULT_FILE : bytes := lit "indexer.conf".
(** src/src/config.c:13-13 [IDX_CONFIG_LINE_MAX] *)
Definition IDX_CONFIG_LINE_MAX : nat := 1024.

(** The size of the buffer of [commitment]. *)
Definition COMMITMENT_MAX : Z := 32.

(** src/include/config.h:35-86 [idx_config] *)
Record idx_config := Config {
  rpc_url : bytes;
  wss_url : bytes;
  config_file : bytes;
  state_file : bytes;
  log_level : idx_log_level;
  cfg_start_slot : Z;
  end_slot : Z;
  concurrency : Z;
  queue_depth : Z;
  commitment : bytes;
  tx_details : idx_tx_details;
  block_filter : bytes;
  blocks_range_limit : Z;
  quote_mints : bytes;
  help : bool
}.

(** src/src/config.c:41-57 [idx_config_defaults] *)
Definition idx_config_defaults : idx_config :=
  Config [] [] [] [] IDX_LOG_INFO 0 0 4 0 (lit "confirmed") IDX_TX_DETAILS_FULL (lit "all") 0
    (lit "usdc,usdt,usd1,sol") false.

(** A value of some setting. *)
Inductive setting := Text (l : bytes) | Number (z : Z) | Level (l : idx_log_level) | Details (d : idx_tx_details).

(** Assigning a field. *)
Definition set_rpc_url v c := Config v (wss_url c) (config_file c) (state_file c) (log_level c) (cfg_start_slot c)
  (end_slot c) (concurrency c) (queue_depth c) (commitment c) (tx_details c) (block_filter c) (blocks_range_limit c)
  (quote_mints c) (help c).
Definition set_wss_url v c := Config (rpc_url c) v (config_file c) (state_file c) (log_level c) (cfg_start_slot c)
  (end_slot c) (concurrency c) (queue_depth c) (commitment c) (tx_details c) (block_filter c) (blocks_range_limit c)
  (quote_mints c) (help c).
Definition set_config_file v c := Config (rpc_url c) (wss_url c) v (state_file c) (log_level c) (cfg_start_slot c)
  (end_slot c) (concurrency c) (queue_depth c) (commitment c) (tx_details c) (block_filter c) (blocks_range_limit c)
  (quote_mints c) (help c).
Definition set_state_file v c := Config (rpc_url c) (wss_url c) (config_file c) v (log_level c) (cfg_start_slot c)
  (end_slot c) (concurrency c) (queue_depth c) (commitment c) (tx_details c) (block_filter c) (blocks_range_limit c)
  (quote_mints c) (help c).
Definition set_log_level v c := Config (rpc_url c) (wss_url c) (config_file c) (state_file c) v (cfg_start_slot c)
  (end_slot c) (concurrency c) (queue_depth c) (commitment c) (tx_details c) (block_filter c) (blocks_range_limit c)
  (quote_mints c) (help c).
Definition set_start_slot v c := Config (rpc_url c) (wss_url c) (config_file c) (state_file c) (log_level c) v
  (end_slot c) (concurrency c) (queue_depth c) (commitment c) (tx_details c) (block_filter c) (blocks_range_limit c)
  (quote_mints c) (help c).
Definition set_end_slot v c := Config (rpc_url c) (wss_url c) (config_file c) (state_file c) (log_level c)
  (cfg_start_slot c) v (concurrency c) (queue_depth c) (commitment c) (tx_details c) (block_filter c)
  (blocks_range_limit c) (quote_mints c) (help c).
Definition set_concurrency v c := Config (rpc_url c) (wss_url c) (config_file c) (state_file c) (log_level c)
  (cfg_start_slot c) (end_slot c) v (queue_depth c) (commitment c) (tx_details c) (block_filter c)
  (blocks_range_limit c) (quote_mints c) (help c).
Definition set_queue_depth v c := Config (rpc_url c) (wss_url c) (config_file c) (state_file c) (log_level c)
  (cfg_start_slot c) (end_slot c) (concurrency c) v (commitment c) (tx_details c) (block_filter c)
  (blocks_range_limit c) (quote_mints c) (help c).
Definition set_commitment v c := Config (rpc_url c) (wss_url c) (config_file c) (state_file c) (log_level c)
  (cfg_start_slot c) (end_slot c) (concurrency c) (queue_depth c) v (tx_details c) (block_filter c)
  (blocks_range_limit c) (quote_mints c) (help c).
Definition set_tx_details v c := Config (rpc_url c) (wss_url c) (config_file c) (state_file c) (log_level c)
  (cfg_start_slot c) (end_slot c) (concurrency c) (queue_depth c) (commitment c) v (block_filter c)
  (blocks_range_limit c) (quote_mints c) (help c).
Definition set_block_filter v c := Config (rpc_url c) (wss_url c) (config_file c) (state_file c) (log_level c)
  (cfg_start_slot c) (end_slot c) (concurrency c) (queue_depth c) (commitment c) (tx_details c) v
  (blocks_range_limit c) (quote_mints c) (help c).
Definition set_blocks_range_limit v c := Config (rpc_url c) (wss_url c) (config_file c) (state_file c) (log_level c)
  (cfg_start_slot c) (end_slot c) (concurrency c) (queue_depth c) (commitment c) (tx_details c) (block_filter c) v
  (quote_mints c) (help c).
Definition set_quote_mints v c := Config (rpc_url c) (wss_url c) (config_file c) (state_file c) (log_level c)
  (cfg_start_slot c) (end_slot c) (concurrency c) (queue_depth c) (commitment c) (tx_details c) (block_filter c)
  (blocks_range_limit c) v (help c).
Definition set_help v c := Config (rpc_url c) (wss_url c) (config_file c) (state_file c) (log_level c)
  (cfg_start_slot c) (end_slot c) (concurrency c) (queue_depth c) (commitment c) (tx_details c) (block_filter c)
  (blocks_range_limit c) (quote_mints c) v.

(** src/src/config.c:59-70 [set_string]: the field afterwards. *)
Definition set_string (dest_size : Z) (value : bytes) : result bytes :=
  if dest_size <=? size value then IDX_FAIL IDX_ERR_RANGE else Ok value.

(** [strtoull(value, &end, 10)] of any text: a minus sign negates what fits. *)
Definition strtoull_signed (value : bytes) : Z * bool * bytes :=
  match skip_spaces value with
  | 45 :: text =>
      let '(digits, rest) := span_digits text in
      match digits with
      | [] => (0, false, value)
      | _ => if SIZE_MAX <? dec_val digits then (SIZE_MAX, true, rest) else (u64 (- dec_val digits), false, rest)
      end
  | _ => strtoull value
  end.

(** src/src/config.c:72-97 [parse_u64] *)
Definition parse_u64 (value : bytes) : result Z :=
  match value with
  | [] => IDX_FAIL IDX_ERR_PARSE
  | _ =>
      let '(parsed, erange, rest) := strtoull_signed value in
      if erange then IDX_FAIL IDX_ERR_RANGE
      else if bool_decide (rest = value) || negb (bool_decide (rest = [])) then IDX_FAIL IDX_ERR_PARSE
      else if has_char 45 value then IDX_FAIL IDX_ERR_RANGE
      else Ok parsed
  end.

(** [strcmp(a, b) == 0] *)
Definition streq (a b : bytes) : bool := bool_decide (a = b).

(** src/src/config.c:99-205 [idx_config_apply_kv] *)
Definition idx_config_apply_kv (cfg : idx_config) (key value : bytes) : result idx_config :=
  if streq key (lit "rpc_url") then v ← set_string IDX_CONFIG_STR_MAX value; Ok (set_rpc_url v cfg)
  else if streq key (lit "wss_url") then v ← set_string IDX_CONFIG_STR_MAX value; Ok (set_wss_url v cfg)
  else if streq key (lit "log_level") then
    match idx_log_level_parse value with
    | Err _ => IDX_FAIL IDX_ERR_PARSE
    | Ok level => Ok (set_log_level level cfg)
    end
  else if streq key (lit "start_slot") then v ← parse_u64 value; Ok (set_start_slot v cfg)
  else if streq key (lit "end_slot") then v ← parse_u64 value; Ok (set_end_slot v cfg)
  else if streq key (lit "concurrency") then
    parsed ← parse_u64 value;
    if (parsed =? 0) || (IDX_CONFIG_MAX_CONCURRENCY <? parsed) then IDX_FAIL IDX_ERR_RANGE
    else Ok (set_concurrency (u32 parsed) cfg)
  else if streq key (lit "queue_depth") then
    parsed ← parse_u64 value;
    if (parsed =? 1) || (IDX_CONFIG_MAX_QUEUE_DEPTH <? parsed) then IDX_FAIL IDX_ERR_RANGE
    else Ok (set_queue_depth (u32 parsed) cfg)
  else if streq key (lit "commitment") then
    if negb (streq value (lit "confirmed")) && negb (streq value (lit "finalized")) then IDX_FAIL IDX_ERR_PARSE
    else v ← set_string COMMITMENT_MAX value; Ok (set_commitment v cfg)
  else if streq key (lit "tx_details") || streq key (lit "transaction_details") then
    match idx_tx_details_parse value with
    | Err _ => IDX_FAIL IDX_ERR_PARSE
    | Ok details => Ok (set_tx_details details cfg)
    end
  else if streq key (lit "block_filter") then v ← set_string IDX_CONFIG_STR_MAX value; Ok (set_block_filter v cfg)
  else if streq key (lit "blocks_range_limit") then v ← parse_u64 value; Ok (set_blocks_range_limit v cfg)
  else if streq key (lit "quote_mints") || streq key (lit "quotes") then
    v ← set_string IDX_CONFIG_STR_MAX value; Ok (set_quote_mints v cfg)
  else if streq key (lit "config") || streq key (lit "config_file") then
    v ← set_string IDX_CONFIG_STR_MAX value; Ok (set_config_file v cfg)
  else if streq key (lit "state_file") then v ← set_string IDX_CONFIG_STR_MAX value; Ok (set_state_file v cfg)
  else IDX_FAIL IDX_ERR_NOT_FOUND.

(** The sources may fail half way: the status, and the configuration so far. *)
Definition apply_one (cfg : idx_config) (key value : bytes) : result unit * idx_config :=
  match idx_config_apply_kv cfg key value with
  | Ok cfg' => (Ok tt, cfg')
  | Err e => (Err e, cfg)
  end.

(** ** The file *)

(** src/src/config.c:241-277 [idx_config_apply_file]: what a line says, nothing when
    it is blank. *)
Definition parse_line (line : bytes) (eof : bool) : result (option (bytes * bytes)) :=
  let line := cstr line in
  if negb (has_char 10 line) && negb eof then IDX_FAIL IDX_ERR_PARSE
  else
    let line := match split_at 35 line with Some (a, _) => a | None => line end in
    match trim line with
    | [] => Ok None
    | content =>
        match split_at 61 content with
        | None => IDX_FAIL IDX_ERR_PARSE
        | Some (before, after) => Ok (Some (trim before, trim (tail after)))
        end
    end.

(** [fgets(line, 1024, file)] *)
Definition config_fgets (left : bytes) : option (bytes * bytes * bool) :=
  match left with
  | [] => None
  | _ => Some (fgets_loop (IDX_CONFIG_LINE_MAX - 1) left)
  end.

(** src/src/config.c:238-278 [idx_config_apply_file]: the loop; a line takes at least
    one byte, so the length of the file is enough fuel. *)
Fixpoint apply_lines (fuel : nat) (left : bytes) (cfg : idx_config) : result unit * idx_config :=
  match fuel, config_fgets left with
  | O, _ | _, None => (Ok tt, cfg)
  | S fuel', Some (line, rest, eof) =>
      match parse_line line eof with
      | Err e => (Err e, cfg)
      | Ok None => apply_lines fuel' rest cfg
      | Ok (Some (key, value)) =>
          let '(status, cfg') := apply_one cfg key value in
          match status with
          | Err e => (Err e, cfg')
          | Ok _ => apply_lines fuel' rest cfg'
          end
      end
  end.

(** The files that can be opened: their bytes, and whether reading fails. *)
Abbreviation file_system := (bytes -> option (bytes * bool)).

(** src/src/config.c:223-287 [idx_config_apply_file] *)
Definition idx_config_apply_file (cfg : idx_config) (p : bytes) (fs : file_system) : result unit * idx_config :=
  match fs p with
  | None => (IDX_FAIL IDX_ERR_IO, cfg)
  | Some (content, ferror) =>
      let '(status, cfg') := apply_lines (length content) content cfg in
      match status with
      | Err e => (Err e, cfg')
      | Ok _ => if ferror then (IDX_FAIL IDX_ERR_IO, cfg') else (Ok tt, cfg')
      end
  end.

(** ** The environment *)

(** src/src/config.c:290-307 [idx_config_apply_env] *)
Definition env_mapping : list (bytes * bytes) :=
  [(lit "SOLANA_RPC_URL", lit "rpc_url"); (lit "SOLANA_WSS_URL", lit "wss_url");
   (lit "INDEXER_LOG_LEVEL", lit "log_level"); (lit "INDEXER_START_SLOT", lit "start_slot");
   (lit "INDEXER_END_SLOT", lit "end_slot"); (lit "INDEXER_CONCURRENCY", lit "concurrency");
   (lit "INDEXER_QUEUE_DEPTH", lit "queue_depth"); (lit "INDEXER_COMMITMENT", lit "commitment");
   (lit "INDEXER_TX_DETAILS", lit "tx_details"); (lit "INDEXER_BLOCK_FILTER", lit "block_filter");
   (lit "INDEXER_BLOCKS_RANGE_LIMIT", lit "blocks_range_limit"); (lit "INDEXER_QUOTE_MINTS", lit "quote_mints");
   (lit "INDEXER_STATE_FILE", lit "state_file")].

Fixpoint apply_mapping (mapping : list (bytes * bytes)) (getenv : bytes -> option bytes) (cfg : idx_config)
    : result unit * idx_config :=
  match mapping with
  | [] => (Ok tt, cfg)
  | (variable, key) :: mapping' =>
      match getenv variable with
      | None | Some [] => apply_mapping mapping' getenv cfg
      | Some value =>
          let '(status, cfg') := apply_one cfg key value in
          match status with
          | Err e => (Err e, cfg')
          | Ok _ => apply_mapping mapping' getenv cfg'
          end
      end
  end.

(** src/src/config.c:289-327 [idx_config_apply_env] *)
Definition idx_config_apply_env (cfg : idx_config) (getenv : bytes -> option bytes) : result unit * idx_config :=
  apply_mapping env_mapping getenv cfg.

(** ** The command line *)

(** The buffers [key] and [flag]. *)
Definition FLAG_MAX : Z := 64.

(** src/src/config.c:330-345 [flag_to_key] *)
Definition flag_to_key (flag : bytes) : option bytes :=
  match flag with
  | 45 :: 45 :: rest =>
      if (size rest =? 0) || (FLAG_MAX <=? size rest) then None
      else Some (map (fun c => if c =? 45 then 95 else c) rest)
  | _ => None
  end.

Definition is_help (arg : bytes) : bool := streq arg (lit "--help") || streq arg (lit "-h").

(** src/src/config.c:347-397 [idx_config_apply_args]: from one argument on. *)
Fixpoint apply_args (args : list bytes) (cfg : idx_config) : result unit * idx_config :=
  match args with
  | [] => (Ok tt, cfg)
  | arg :: rest =>
      if is_help arg then (Ok tt, set_help true cfg)
      else
        match split_at 61 arg with
        | Some (flag, equals) =>
            if FLAG_MAX <=? size flag then (IDX_FAIL IDX_ERR_PARSE, cfg)
            else
              match flag_to_key flag with
              | None => (IDX_FAIL IDX_ERR_PARSE, cfg)
              | Some key =>
                  let '(status, cfg') := apply_one cfg key (tail equals) in
                  match status with
                  | Err e => (Err e, cfg')
                  | Ok _ => apply_args rest cfg'
                  end
              end
        | None =>
            match if streq arg (lit "-c") then Some (lit "config") else flag_to_key arg with
            | None => (IDX_FAIL IDX_ERR_PARSE, cfg)
            | Some key =>
                match rest with
                | [] => (IDX_FAIL IDX_ERR_PARSE, cfg)
                | value :: rest' =>
                    let '(status, cfg') := apply_one cfg key value in
                    match status with
                    | Err e => (Err e, cfg')
                    | Ok _ => apply_args rest' cfg'
                    end
                end
            end
        end
  end.

(** src/src/config.c:347-397 [idx_config_apply_args] *)
Definition idx_config_apply_args (cfg : idx_config) (args : list bytes) : result unit * idx_config := apply_args args cfg.

(** The rest of a text after a prefix. *)
Fixpoint after_prefix (p l : bytes) : option bytes :=
  match p, l with
  | [], _ => Some l
  | x :: p', y :: l' => if x =? y then after_prefix p' l' else None
  | _ :: _, [] => None
  end.

(** src/src/config.c:403-425 [find_config_file]: the file named, if any. *)
Fixpoint config_named (args : list bytes) : result (option bytes) :=
  match args with
  | [] => Ok None
  | arg :: rest =>
      if streq arg (lit "--config") || streq arg (lit "-c") then
        match rest with [] => IDX_FAIL IDX_ERR_PARSE | value :: _ => Ok (Some value) end
      else
        match after_prefix (lit "--config=") arg with
        | Some value => Ok (Some value)
        | None => config_named rest
        end
  end.

(** src/src/config.c:403-425 [find_config_file] *)
Definition find_config_file (cfg : idx_config) (args : list bytes) : result idx_config :=
  named ← config_named args;
  match named with
  | None => Ok cfg
  | Some value => v ← set_string IDX_CONFIG_STR_MAX value; Ok (set_config_file v cfg)
  end.

(** [IDX_TRY] of a source. *)
Definition then_apply (r : result unit * idx_config) (f : idx_config -> result unit * idx_config) : result unit * idx_config :=
  match r with (Ok _, cfg) => f cfg | (Err e, cfg) => (Err e, cfg) end.

(** src/src/config.c:445-461 [idx_config_load]: the file, named or found. *)
Definition load_file (cfg : idx_config) (fs : file_system) : result unit * idx_config :=
  match config_file cfg with
  | [] =>
      match fs IDX_CONFIG_DEFAULT_FILE with
      | None => (Ok tt, cfg)
      | Some _ => idx_config_apply_file (set_config_file IDX_CONFIG_DEFAULT_FILE cfg) IDX_CONFIG_DEFAULT_FILE fs
      end
  | p => idx_config_apply_file cfg p fs
  end.

(** src/src/config.c:427-466 [idx_config_load]; [args] are those after the program's
    name. *)
Definition idx_config_load (args : list bytes) (fs : file_system) (getenv : bytes -> option bytes)
    : result unit * idx_config :=
  let cfg := idx_config_defaults in
  if existsb is_help args then (Ok tt, set_help true cfg)
  else
    match find_config_file cfg args with
    | Err e => (Err e, cfg)
    | Ok cfg =>
        then_apply (then_apply (load_file cfg fs) (fun cfg => idx_config_apply_env cfg getenv))
          (fun cfg => idx_config_apply_args cfg args)
    end.

(** ** Validation and the subscription *)

Definition starts_with (p l : bytes) : bool := bool_decide (is_Some (after_prefix p l)).

(** src/src/config.c:468-517 [idx_config_validate] *)
Definition idx_config_validate (cfg : idx_config) (h : heap) : result unit :=
  if streq (rpc_url cfg) [] then IDX_FAIL IDX_ERR_INVALID_ARG
  else if negb (starts_with (lit "http://") (rpc_url cfg)) && negb (starts_with (lit "https://") (rpc_url cfg))
  then IDX_FAIL IDX_ERR_INVALID_ARG
  else if negb (streq (wss_url cfg) []) && negb (starts_with (lit "ws://") (wss_url cfg)) &&
          negb (starts_with (lit "wss://") (wss_url cfg)) then IDX_FAIL IDX_ERR_INVALID_ARG
  else if negb (end_slot cfg =? 0) && (end_slot cfg <? cfg_start_slot cfg) then IDX_FAIL IDX_ERR_RANGE
  else if (concurrency cfg =? 0) || (IDX_CONFIG_MAX_CONCURRENCY <? concurrency cfg) then IDX_FAIL IDX_ERR_RANGE
  else if (queue_depth cfg =? 1) || (IDX_CONFIG_MAX_QUEUE_DEPTH <? queue_depth cfg) then IDX_FAIL IDX_ERR_RANGE
  else if streq (commitment cfg) [] then IDX_FAIL IDX_ERR_INVALID_ARG
  else if streq (block_filter cfg) [] then IDX_FAIL IDX_ERR_INVALID_ARG
  else _ ← (idx_quote_set_parse (Some (quote_mints cfg)) h).1.1; Ok tt.

(** src/src/config.c:527-533 [idx_config_block_subscribe_params]: the filter. *)
Definition subscribe_filter (cfg : idx_config) : bytes :=
  printed (IDX_CONFIG_STR_MAX + 40)
    (if streq (block_filter cfg) (lit "all") then quoted (lit "all")
     else lit "{" ++ quoted (lit "mentionsAccountOrProgram") ++ lit ":" ++ quoted (block_filter cfg) ++ lit "}").

(** src/src/config.c:535-540 [idx_config_block_subscribe_params]: the whole text. *)
Definition subscribe_text (cfg : idx_config) : bytes :=
  lit "[" ++ subscribe_filter cfg ++ lit ",{" ++ quoted (lit "commitment") ++ lit ":" ++ quoted (commitment cfg) ++
  lit "," ++ quoted (lit "encoding") ++ lit ":" ++ quoted (lit "json") ++
  lit "," ++ quoted (lit "transactionDetails") ++ lit ":" ++ quoted (idx_tx_details_name (tx_details cfg)) ++
  lit "," ++ quoted (lit "maxSupportedTransactionVersion") ++ lit ":0," ++ quoted (lit "showRewards") ++ lit ":false}]".

(** src/src/config.c:519-548 [idx_config_block_subscribe_params] *)
Definition idx_config_block_subscribe_params (cfg : idx_config) (out_size : Z) : result bytes :=
  if out_size <=? size (subscribe_text cfg) then IDX_FAIL IDX_ERR_RANGE else Ok (subscribe_text cfg).

(** src/src/config.c:550-577 [idx_config_log]: the lines, each at the level info. *)
Definition idx_config_log (cfg : idx_config) : list bytes :=
  let or_else (v alternative : bytes) := if streq v [] then alternative else v in
  let noted (n : Z) (note : bytes) := dec n ++ (if n =? 0 then note else []) in
  let line (name value : bytes) := lit "config: " ++ name ++ lit " = " ++ value in
  [line (lit "rpc_url") (rpc_url cfg); line (lit "wss_url") (or_else (wss_url cfg) (lit "<unset>"));
   line (lit "log_level") (idx_log_level_name (log_level cfg));
   line (lit "start_slot") (noted (cfg_start_slot cfg) (lit " (chain tip)"));
   line (lit "end_slot") (noted (end_slot cfg) (lit " (follow)"));
   line (lit "concurrency") (dec (concurrency cfg));
   line (lit "queue_depth") (noted (queue_depth cfg) (lit " (default)"));
   line (lit "commitment") (commitment cfg); line (lit "tx_details") (idx_tx_details_name (tx_details cfg));
   line (lit "block_filter") (block_filter cfg)] ++
  (if blocks_range_limit cfg =? 0 then [] else [line (lit "blocks_range_limit") (dec (blocks_range_limit cfg))]) ++
  [line (lit "quote_mints") (or_else (quote_mints cfg) (lit "<none>"));
   line (lit "state_file") (or_else (state_file cfg) (lit "<disabled>"))] ++
  (if streq (config_file cfg) [] then [] else [lit "config: loaded from " ++ config_file cfg]).

(** ** Settings by name *)

(** The name a key stands for. *)
Definition canon (key : bytes) : bytes :=
  if streq key (lit "transaction_details") then lit "tx_details"
  else if streq key (lit "quotes") then lit "quote_mints"
  else if streq key (lit "config_file") then lit "config"
  else key.

(** The settings of a configuration. *)
Definition settings (c : idx_config) : list (bytes * setting) :=
  [(lit "rpc_url", Text (rpc_url c)); (lit "wss_url", Text (wss_url c)); (lit "log_level", Level (log_level c));
   (lit "start_slot", Number (cfg_start_slot c)); (lit "end_slot", Number (end_slot c));
   (lit "concurrency", Number (concurrency c)); (lit "queue_depth", Number (queue_depth c));
   (lit "commitment", Text (commitment c)); (lit "tx_details", Details (tx_details c));
   (lit "block_filter", Text (block_filter c)); (lit "blocks_range_limit", Number (blocks_range_limit c));
   (lit "quote_mints", Text (quote_mints c)); (lit "config", Text (config_file c)); (lit "state_file", Text (state_file c))].

Definition get_setting (name : bytes) (c : idx_config) : option setting :=
  snd <$> List.find (fun s => streq name s.1) (settings c).

Definition in_range (ok : Z -> bool) (z : Z) : result setting := if ok z then Ok (Number (u32 z)) else IDX_FAIL IDX_ERR_RANGE.

(** What a text means for a setting. *)
Definition readers : list (bytes * (bytes -> result setting)) :=
  let text size value := v ← set_string size value; Ok (Text v) in
  let number value := v ← parse_u64 value; Ok (Number v) in
  [(lit "rpc_url", text IDX_CONFIG_STR_MAX); (lit "wss_url", text IDX_CONFIG_STR_MAX);
   (lit "log_level", fun value => match idx_log_level_parse value with Ok l => Ok (Level l) | Err _ => IDX_FAIL IDX_ERR_PARSE end);
   (lit "start_slot", number); (lit "end_slot", number);
   (lit "concurrency", fun value => v ← parse_u64 value; in_range (fun z => negb ((z =? 0) || (IDX_CONFIG_MAX_CONCURRENCY <? z))) v);
   (lit "queue_depth", fun value => v ← parse_u64 value; in_range (fun z => negb ((z =? 1) || (IDX_CONFIG_MAX_QUEUE_DEPTH <? z))) v);
   (lit "commitment", fun value =>
      if streq value (lit "confirmed") || streq value (lit "finalized") then text COMMITMENT_MAX value else IDX_FAIL IDX_ERR_PARSE);
   (lit "tx_details", fun value => match idx_tx_details_parse value with Ok d => Ok (Details d) | Err _ => IDX_FAIL IDX_ERR_PARSE end);
   (lit "block_filter", text IDX_CONFIG_STR_MAX); (lit "blocks_range_limit", number);
   (lit "quote_mints", text IDX_CONFIG_STR_MAX); (lit "config", text IDX_CONFIG_STR_MAX); (lit "state_file", text IDX_CONFIG_STR_MAX)].

Definition read_setting (name value : bytes) : result setting :=
  match List.find (fun r => streq name r.1) readers with
  | Some (_, read) => read value
  | None => IDX_FAIL IDX_ERR_NOT_FOUND
  end.

(** One assignment: the setting named takes the value, the others keep theirs. *)
Definition assigned (name : bytes) (v : setting) (cfg cfg' : idx_config) : Prop :=
  get_setting name cfg' = Some v /\ (forall n, n <> name -> get_setting n cfg' = get_setting n cfg) /\ help cfg' = help cfg.

Lemma find_settings_other name (l l' : list (bytes * setting)) n :
  n <> name -> Forall2 (fun a b => a.1 = b.1 /\ (a.1 <> name -> a = b)) l l' ->
  List.find (fun s => streq n s.1) l' = List.find (fun s => streq n s.1) l.
Proof.
  intros Hn. induction 1 as [|a b l l' [E Hab] _ IH]; [done|]. cbn [List.find]. rewrite <- E. unfold streq at 1 3.
  case_bool_decide as Ea; [|exact IH]. rewrite Hab; [done|congruence].
Qed.

Ltac other_settings := let n := fresh "n" in let Hn := fresh "Hn" in intros n Hn; unfold get_setting; f_equal; eapply find_settings_other; [exact Hn|];
  unfold settings; repeat (constructor; [split; [reflexivity|try reflexivity; intros H; exfalso; apply H; reflexivity]|]); constructor.

(** The reader and the field of the [i]th setting. *)
Ltac reader i :=
  unfold read_setting;
  match goal with |- context [List.find ?f readers] => change (List.find f readers) with (nth_error readers i) end;
  cbn [nth_error readers].
Ltac assigns := eexists; split; [reflexivity|]; split; [reflexivity|]; split; [clear; other_settings|reflexivity].

Lemma apply_kv_spec cfg key value :
  match idx_config_apply_kv cfg key value with
  | Ok cfg' => exists v, read_setting (canon key) value = Ok v /\ assigned (canon key) v cfg cfg'
  | Err e => read_setting (canon key) value = Err e
  end.
Proof.
  unfold idx_config_apply_kv.
  repeat match goal with
  | |- match (if streq key ?l then _ else _) with Ok _ => _ | Err _ => _ end =>
      let E := fresh "E" in destruct (streq key l) eqn:E; [apply bool_decide_eq_true in E; subst key|]
  | |- match (if orb (streq key ?l) (streq key ?m) then _ else _) with Ok _ => _ | Err _ => _ end =>
      let E := fresh "E" in destruct (streq key l) eqn:E;
      [apply bool_decide_eq_true in E; subst key
      |cbn [orb]; let E' := fresh "E" in destruct (streq key m) eqn:E'; [apply bool_decide_eq_true in E'; subst key|]]
  end; cbn [orb].
  - reader 0%nat. destruct (set_string _ value); cbn [mbind IDX_TRY]; [assigns|done].
  - reader 1%nat. destruct (set_string _ value); cbn [mbind IDX_TRY]; [assigns|done].
  - reader 2%nat. destruct (idx_log_level_parse value); [assigns|done].
  - reader 3%nat. destruct (parse_u64 value); cbn [mbind IDX_TRY]; [assigns|done].
  - reader 4%nat. destruct (parse_u64 value); cbn [mbind IDX_TRY]; [assigns|done].
  - reader 5%nat. destruct (parse_u64 value) as [n|]; cbn [mbind IDX_TRY]; [|done]. unfold in_range.
    destruct ((n =? 0) || _); [done|assigns].
  - reader 6%nat. destruct (parse_u64 value) as [n|]; cbn [mbind IDX_TRY]; [|done]. unfold in_range.
    destruct ((n =? 1) || _); [done|assigns].
  - reader 7%nat. rewrite <- negb_orb. destruct (streq value _ || _); cbn [negb]; [|done].
    destruct (set_string _ value); cbn [mbind IDX_TRY]; [assigns|done].
  - reader 8%nat. destruct (idx_tx_details_parse value); [assigns|done].
  - reader 8%nat. destruct (idx_tx_details_parse value); [assigns|done].
  - reader 9%nat. destruct (set_string _ value); cbn [mbind IDX_TRY]; [assigns|done].
  - reader 10%nat. destruct (parse_u64 value); cbn [mbind IDX_TRY]; [assigns|done].
  - reader 11%nat. destruct (set_string _ value); cbn [mbind IDX_TRY]; [assigns|done].
  - reader 11%nat. destruct (set_string _ value); cbn [mbind IDX_TRY]; [assigns|done].
  - reader 12%nat. destruct (set_string _ value); cbn [mbind IDX_TRY]; [assigns|done].
  - reader 12%nat. destruct (set_string _ value); cbn [mbind IDX_TRY]; [assigns|done].
  - reader 13%nat. destruct (set_string _ value); cbn [mbind IDX_TRY]; [assigns|done].
  - unfold canon. rewrite E8, E12, E14. unfold read_setting.
    assert (List.find (fun r => streq key r.1) readers = None) as ->; [|done].
    cbn [List.find readers fst]. rewrite E, E0, E1, E2, E3, E4, E5, E6, E7, E9, E10, E11, E13, E15. done.
Qed.

(** ** A source as assignments *)

Fixpoint apply_all (kvs : list (bytes * bytes)) (cfg : idx_config) : result unit * idx_config :=
  match kvs with
  | [] => (Ok tt, cfg)
  | (key, value) :: kvs' => then_apply (apply_one cfg key value) (apply_all kvs')
  end.

(** The last text given to a setting. *)
Definition last_value (name : bytes) (kvs : list (bytes * bytes)) : option bytes :=
  last (omap (fun kv => if bool_decide (canon kv.1 = name) then Some kv.2 else None) kvs).

Lemma apply_all_app kvs kvs' cfg : apply_all (kvs ++ kvs') cfg = then_apply (apply_all kvs cfg) (apply_all kvs').
Proof.
  revert cfg. induction kvs as [|[k v] kvs IH]; intros cfg; [done|]. cbn [app apply_all].
  destruct (apply_one cfg k v) as [[[]|e] cfg']; [apply IH|done].
Qed.

Lemma apply_all_settings kvs cfg cfg' :
  apply_all kvs cfg = (Ok tt, cfg') ->
  help cfg' = help cfg /\
  forall name, match last_value name kvs with
               | Some v => exists s, read_setting name v = Ok s /\ get_setting name cfg' = Some s
               | None => get_setting name cfg' = get_setting name cfg
               end.
Proof.
  revert cfg'. induction kvs as [|[k v] kvs IH] using rev_ind; intros cfg'; [by intros [= <-]|].
  rewrite apply_all_app. destruct (apply_all kvs cfg) as [[[]|e] cfg1]; [|done]. cbn [then_apply apply_all].
  destruct (IH cfg1 eq_refl) as [Hh Hs]. unfold apply_one. pose proof (apply_kv_spec cfg1 k v) as Hkv.
  destruct (idx_config_apply_kv cfg1 k v) as [cfg2|e]; [|done]. cbn [then_apply]. intros [= <-].
  destruct Hkv as (s & Hr & Hset & Hother & Hhelp). split; [congruence|]. intros name. specialize (Hs name).
  unfold last_value in *. rewrite omap_app. cbn [omap list_omap fst snd].
  case_bool_decide as E.
  - subst name. rewrite last_snoc. eauto.
  - rewrite app_nil_r. rewrite (Hother name) by congruence. exact Hs.
Qed.

(** What a file says, line by line, as far as it can be read. *)
Fixpoint file_pairs (fuel : nat) (left : bytes) : list (bytes * bytes) :=
  match fuel, config_fgets left with
  | O, _ | _, None => []
  | S fuel', Some (line, rest, eof) =>
      match parse_line line eof with Ok (Some kv) => [kv] | _ => [] end ++ file_pairs fuel' rest
  end.

Lemma apply_lines_pairs fuel left cfg cfg' :
  apply_lines fuel left cfg = (Ok tt, cfg') -> apply_all (file_pairs fuel left) cfg = (Ok tt, cfg').
Proof.
  revert left cfg. induction fuel as [|fuel IH]; intros left cfg; cbn [apply_lines file_pairs]; [done|].
  destruct (config_fgets left) as [[[line rest] eof]|]; [|done].
  destruct (parse_line line eof) as [[[key value]|]|e]; [| |done].
  - cbn [app apply_all]. destruct (apply_one cfg key value) as [[[]|e] cfg1]; [|done]. cbn [then_apply]. apply IH.
  - apply IH.
Qed.

Lemma fgets_loop_shorter room left line rest eof :
  fgets_loop room left = (line, rest, eof) -> (0 < room)%nat -> left <> [] -> (length rest < length left)%nat.
Proof.
  revert left line rest eof. induction room as [|room IH]; intros left line rest eof; [lia|]. cbn [fgets_loop].
  destruct left as [|c left]; [done|]. destruct (c =? 10); [intros [= _ <- _]; simpl; lia|].
  destruct (fgets_loop room left) as [[line' rest'] eof'] eqn:E. intros [= _ <- _] _ _. simpl.
  destruct room as [|room]; [injection E as _ <- _; simpl; lia|]. destruct left as [|x left]; [injection E as _ <- _; simpl; lia|].
  pose proof (IH _ _ _ _ E (Nat.lt_0_succ _) ltac:(done)) as Hlt. simpl in *. lia.
Qed.

Lemma config_fgets_shorter left line rest eof :
  config_fgets left = Some (line, rest, eof) -> (length rest < length left)%nat.
Proof.
  unfold config_fgets. assert (0 < IDX_CONFIG_LINE_MAX - 1)%nat as Hroom by (apply Nat.ltb_lt; reflexivity).
  revert Hroom. generalize (IDX_CONFIG_LINE_MAX - 1)%nat. intros room Hroom. destruct left as [|c left]; [done|].
  intros E. injection E as E. by apply (fgets_loop_shorter room (c :: left) line rest eof).
Qed.

(** The length of the file is enough fuel: more changes nothing. *)
Lemma apply_lines_fuel fuel left cfg :
  (length left <= fuel)%nat -> apply_lines fuel left cfg = apply_lines (length left) left cfg.
Proof.
  remember (length left) as n eqn:En. revert fuel left cfg En.
  induction n as [n IH] using lt_wf_ind. intros fuel left cfg -> Hf.
  destruct left as [|c left]; [by destruct fuel|]. destruct fuel as [|fuel]; [simpl in Hf; lia|].
  remember (c :: left) as l eqn:El. assert (exists m, length l = S m) as [m Hm] by (subst l; eauto). rewrite Hm.
  cbn [apply_lines]. destruct (config_fgets l) as [[[line rest] eof]|] eqn:Ef; [|done].
  pose proof (config_fgets_shorter _ _ _ _ Ef) as Hlt.
  assert (forall cfg, apply_lines fuel rest cfg = apply_lines m rest cfg) as Hrec.
  { intros cfg'. rewrite (IH (length rest) Hlt fuel rest cfg' eq_refl ltac:(lia)).
    symmetry. apply (IH (length rest) Hlt m rest cfg' eq_refl). lia. }
  destruct (parse_line line eof) as [[[key value]|]|e]; [|apply Hrec|done].
  destruct (apply_one cfg key value) as [[[]|e] cfg1]; [apply Hrec|done].
Qed.

(** What the environment and the command line say. *)
Definition env_pairs (getenv : bytes -> option bytes) : list (bytes * bytes) :=
  omap (fun m => match getenv m.1 with None | Some [] => None | Some v => Some (m.2, v) end) env_mapping.

Lemma apply_mapping_pairs mapping getenv cfg :
  apply_mapping mapping getenv cfg =
  apply_all (omap (fun m => match getenv m.1 with None | Some [] => None | Some v => Some (m.2, v) end) mapping) cfg.
Proof.
  revert cfg. induction mapping as [|[variable key] mapping IH]; intros cfg; [done|]. cbn [apply_mapping omap list_omap fst snd].
  destruct (getenv variable) as [[|c v]|]; [apply IH| |apply IH]. cbn [apply_all].
  destruct (apply_one cfg key (c :: v)) as [[[]|e] cfg1]; [apply IH|done].
Qed.

Lemma apply_env_pairs getenv cfg : idx_config_apply_env cfg getenv = apply_all (env_pairs getenv) cfg.
Proof. unfold idx_config_apply_env, env_pairs. apply apply_mapping_pairs. Qed.

Fixpoint arg_pairs (args : list bytes) : list (bytes * bytes) :=
  match args with
  | [] => []
  | arg :: rest =>
      match split_at 61 arg with
      | Some (flag, equals) =>
          match flag_to_key flag with Some key => (key, tail equals) :: arg_pairs rest | None => [] end
      | None =>
          match (if streq arg (lit "-c") then Some (lit "config") else flag_to_key arg), rest with
          | Some key, value :: rest' => (key, value) :: arg_pairs rest'
          | _, _ => []
          end
      end
  end.

Lemma apply_args_pairs args cfg cfg' :
  existsb is_help args = false -> apply_args args cfg = (Ok tt, cfg') -> apply_all (arg_pairs args) cfg = (Ok tt, cfg').
Proof.
  remember (length args) as n eqn:En. revert args cfg En. induction n as [n IH] using lt_wf_ind. intros args cfg -> Hh.
  destruct args as [|arg rest]; [done|]. cbn [existsb] in Hh. apply orb_false_iff in Hh as [Harg Hrest].
  cbn [apply_args arg_pairs]. rewrite Harg. destruct (split_at 61 arg) as [[flag equals]|].
  - destruct (FLAG_MAX <=? size flag); [done|]. destruct (flag_to_key flag) as [key|]; [|done]. cbn [apply_all].
    destruct (apply_one cfg key (tail equals)) as [[[]|e] cfg1]; [|done]. cbn [then_apply].
    apply (IH (length rest)); [simpl; lia|done|done].
  - destruct (if streq arg (lit "-c") then _ else _) as [key|]; [|done]. destruct rest as [|value rest']; [done|].
    cbn [apply_all]. destruct (apply_one cfg key value) as [[[]|e] cfg1]; [|done]. cbn [then_apply].
    cbn [existsb] in Hrest. apply orb_false_iff in Hrest as [_ Hrest].
    apply (IH (length rest')); [simpl; lia|done|done].
Qed.

(** The configuration before the sources, and what its file says. *)
Definition base_config (args : list bytes) (fs : file_system) : idx_config :=
  match find_config_file idx_config_defaults args with
  | Ok cfg =>
      match config_file cfg, fs IDX_CONFIG_DEFAULT_FILE with
      | [], Some _ => set_config_file IDX_CONFIG_DEFAULT_FILE cfg
      | _, _ => cfg
      end
  | Err _ => idx_config_defaults
  end.
Definition config_pairs (args : list bytes) (fs : file_system) : list (bytes * bytes) :=
  match config_file (base_config args fs) with
  | [] => []
  | p => match fs p with Some (content, _) => file_pairs (length content) content | None => [] end
  end.

Lemma load_chain args fs getenv cfg :
  existsb is_help args = false ->
  idx_config_load args fs getenv = (Ok tt, cfg) ->
  apply_all (config_pairs args fs ++ env_pairs getenv ++ arg_pairs args) (base_config args fs) = (Ok tt, cfg).
Proof.
  intros Hh. unfold idx_config_load, config_pairs, base_config. rewrite Hh.
  destruct (find_config_file _ args) as [cfg0|]; [|done]. unfold load_file.
  assert (forall p cfg1 cfg2, idx_config_apply_file cfg1 p fs = (Ok tt, cfg2) ->
    apply_all (match fs p with Some (content, _) => file_pairs (length content) content | None => [] end) cfg1 = (Ok tt, cfg2)) as Hfile.
  { intros p cfg1 cfg2. unfold idx_config_apply_file. destruct (fs p) as [[content ferror]|]; [|done].
    destruct (apply_lines _ _ _) as [[[]|e] cfg3] eqn:E; [|done]. destruct ferror; [done|]. intros [= <-].
    by apply apply_lines_pairs. }
  assert (forall r, then_apply (then_apply r (fun cfg => idx_config_apply_env cfg getenv))
      (fun cfg => idx_config_apply_args cfg args) = (Ok tt, cfg) ->
    exists cfg1, r = (Ok tt, cfg1) /\ apply_all (env_pairs getenv ++ arg_pairs args) cfg1 = (Ok tt, cfg)) as Hrest.
  { intros [[[]|e] cfg1]; cbn [then_apply]; [|done]. intros H. exists cfg1. split; [done|]. rewrite apply_all_app.
    rewrite apply_env_pairs in H.
    destruct (apply_all (env_pairs getenv) cfg1) as [[[]|e] cfg2]; [|done]. cbn [then_apply] in *.
    by apply apply_args_pairs. }
  intros H. apply Hrest in H as (cfg1 & Hr & Hall). destruct (config_file cfg0) as [|c p] eqn:Ep.
  - assert (exists c p, IDX_CONFIG_DEFAULT_FILE = c :: p) as (c & p & ED) by (by eexists _, _).
    revert ED Hr. generalize IDX_CONFIG_DEFAULT_FILE. intros D ED Hr. destruct (fs D) as [f|] eqn:Ef.
    + cbn [config_file set_config_file]. apply Hfile in Hr. rewrite apply_all_app. revert Hr. rewrite ED. cbn [config_file set_config_file]. intros Hr. rewrite Hr. exact Hall.
    + rewrite Ep. injection Hr as <-. exact Hall.
  - assert (config_file (match fs IDX_CONFIG_DEFAULT_FILE with Some _ => cfg0 | None => cfg0 end) = c :: p) as E by (by destruct (fs _)).
    rewrite apply_all_app. apply Hfile in Hr. rewrite Ep. by rewrite Hr.
Qed.

(** ** Well-formed configurations *)

Record config_ok (c : idx_config) : Prop := {
  ok_texts : Forall (fun l => size l < IDX_CONFIG_STR_MAX)
    [rpc_url c; wss_url c; config_file c; state_file c; block_filter c; quote_mints c];
  ok_numbers : Forall is_u64 [cfg_start_slot c; end_slot c; blocks_range_limit c];
  ok_concurrency : 1 <= concurrency c <= IDX_CONFIG_MAX_CONCURRENCY;
  ok_queue : queue_depth c = 0 \/ 2 <= queue_depth c <= IDX_CONFIG_MAX_QUEUE_DEPTH;
  ok_commitment : commitment c = lit "confirmed" \/ commitment c = lit "finalized"
}.

Lemma defaults_ok : config_ok idx_config_defaults.
Proof. split; [repeat constructor|repeat constructor; done|done|by left|by left]. Qed.

Lemma set_string_ok n value v : set_string n value = Ok v -> v = value /\ size v < n.
Proof. unfold set_string. destruct (n <=? size value) eqn:E; [done|]. intros [= <-]. split; [done|zlia]. Qed.

Lemma span_digits_ok text : Forall is_digit (span_digits text).1.
Proof.
  induction text as [|c text IH]; cbn [span_digits]; [constructor|]. case_bool_decide; [|constructor].
  destruct (span_digits text). by constructor.
Qed.

Lemma strtoull_range value : is_u64 (strtoull value).1.1.
Proof.
  unfold strtoull. pose proof (span_digits_ok (match skip_spaces value with
    c :: text' => if c =? 43 then text' else skip_spaces value | [] => [] end)) as Hd.
  destruct (skip_spaces value) as [|c text] eqn:Es; cbn [span_digits fst]; [done|].
  destruct (span_digits _) as [digits rest]. destruct digits as [|d digits]; [done|]. cbn [fst] in Hd.
  pose proof (dec_val_nonneg _ Hd). destruct (SIZE_MAX <? dec_val (d :: digits)) eqn:E; [done|].
  cbn [fst]. unfold is_u64, SIZE_MAX in *. zlia.
Qed.

Lemma parse_u64_below value n : parse_u64 value = Ok n -> is_u64 n.
Proof.
  unfold parse_u64. destruct value as [|c value]; [done|]. set (v := c :: value).
  assert (is_u64 (strtoull_signed v).1.1) as H.
  { unfold strtoull_signed. destruct (skip_spaces v) as [|x l]; [apply strtoull_range|].
    destruct (decide (x = 45)) as [->|Hx].
    - destruct (span_digits l) as [[|d digits] rest]; [done|]. destruct (SIZE_MAX <? _); [done|apply u64_range].
    - assert (strtoull_signed v = strtoull v \/ True) as _ by auto.
      repeat (case_match; try apply strtoull_range); subst; try done; apply u64_range || done. }
  destruct (strtoull_signed v) as [[parsed erange] rest]. cbn [fst] in H.
  destruct erange; [done|]. destruct (_ || _); [done|]. destruct (has_char 45 v); [done|]. by intros [= <-].
Qed.

Lemma apply_kv_ok cfg key value cfg' : config_ok cfg -> idx_config_apply_kv cfg key value = Ok cfg' -> config_ok cfg'.
Proof.
  intros [H1 H2 H3 H4 H5]. unfold idx_config_apply_kv.
  rewrite !Forall_cons in H1. rewrite !Forall_cons in H2.
  repeat match goal with
  | |- (if ?b then _ else _) = Ok _ -> _ => destruct b eqn:?
  | |- (mbind _ ?r = Ok _) -> _ => destruct r eqn:?; cbn [mbind IDX_TRY]
  | |- match ?r with Ok _ => _ | Err _ => _ end = Ok _ -> _ => destruct r eqn:?
  end; try done; intros [= <-];
  repeat match goal with
  | H : set_string _ _ = Ok _ |- _ => apply set_string_ok in H as [-> ?]
  | H : parse_u64 _ = Ok _ |- _ => apply parse_u64_below in H
  end; (split; cbn -[lit u32]; rewrite ?Forall_cons; try tauto).
  - apply orb_false_iff in Heqb5 as [? ?]. unfold is_u64, IDX_CONFIG_MAX_CONCURRENCY in *. unfold u32. rewrite Z.mod_small; zlia.
  - apply orb_false_iff in Heqb6 as [? ?]. unfold is_u64, IDX_CONFIG_MAX_QUEUE_DEPTH in *. unfold u32.
    destruct (decide (a = 0)) as [->|]; [by left|]. right. rewrite Z.mod_small; zlia.
  - apply andb_false_iff in Heqb7 as [E|E]; apply negb_false_iff, bool_decide_eq_true in E; [by left|by right].
Qed.

(** Every source keeps a configuration well formed, whatever its outcome. *)
Definition keeps_ok (f : idx_config -> result unit * idx_config) : Prop := forall cfg, config_ok cfg -> config_ok (f cfg).2.

Lemma apply_one_ok cfg key value : config_ok cfg -> config_ok (apply_one cfg key value).2.
Proof.
  intros H. unfold apply_one. destruct (idx_config_apply_kv cfg key value) eqn:E; [|done]. by eapply apply_kv_ok.
Qed.

Lemma apply_all_ok kvs : keeps_ok (apply_all kvs).
Proof.
  induction kvs as [|[k v] kvs IH]; intros cfg H; [done|]. cbn [apply_all].
  pose proof (apply_one_ok cfg k v H) as H1. destruct (apply_one cfg k v) as [[[]|e] cfg1]; [by apply IH|done].
Qed.

Lemma apply_lines_ok fuel left : keeps_ok (apply_lines fuel left).
Proof.
  revert left. induction fuel as [|fuel IH]; intros left cfg H; cbn [apply_lines]; [done|].
  destruct (config_fgets left) as [[[line rest] eof]|]; [|done].
  destruct (parse_line line eof) as [[[key value]|]|e]; [|by apply IH|done].
  pose proof (apply_one_ok cfg key value H) as H1. destruct (apply_one cfg key value) as [[[]|e] cfg1]; [by apply IH|done].
Qed.

Lemma apply_file_ok p fs : keeps_ok (fun cfg => idx_config_apply_file cfg p fs).
Proof.
  intros cfg H. unfold idx_config_apply_file. destruct (fs p) as [[content ferror]|]; [|done].
  pose proof (apply_lines_ok (length content) content cfg H) as H1.
  destruct (apply_lines _ _ _) as [[[]|e] cfg1]; [by destruct ferror|done].
Qed.

Lemma set_config_file_ok p cfg : size p < IDX_CONFIG_STR_MAX -> config_ok cfg -> config_ok (set_config_file p cfg).
Proof.
  intros Hp [H1 H2 H3 H4 H5]. split; try done. rewrite !Forall_cons in H1 |- *. cbn. tauto.
Qed.

Lemma set_help_ok b cfg : config_ok cfg -> config_ok (set_help b cfg).
Proof. intros [H1 H2 H3 H4 H5]. by split. Qed.

Lemma apply_args_ok args : keeps_ok (apply_args args).
Proof.
  remember (length args) as n eqn:En. revert args En. induction n as [n IH] using lt_wf_ind. intros args -> cfg H.
  destruct args as [|arg rest]; [done|]. cbn [apply_args]. destruct (is_help arg); [by apply set_help_ok|].
  destruct (split_at 61 arg) as [[flag equals]|].
  - destruct (FLAG_MAX <=? size flag); [done|]. destruct (flag_to_key flag) as [key|]; [|done].
    pose proof (apply_one_ok cfg key (tail equals) H) as H1. destruct (apply_one cfg key (tail equals)) as [[[]|e] cfg1]; [|done].
    apply (IH (length rest)); [simpl; lia|done|done].
  - destruct (if streq arg (lit "-c") then _ else _) as [key|]; [|done]. destruct rest as [|value rest']; [done|].
    pose proof (apply_one_ok cfg key value H) as H1. destruct (apply_one cfg key value) as [[[]|e] cfg1]; [|done].
    apply (IH (length rest')); [simpl; lia|done|done].
Qed.

Lemma then_apply_ok r f : config_ok r.2 -> keeps_ok f -> config_ok (then_apply r f).2.
Proof. intros H Hf. destruct r as [[[]|e] cfg]; [by apply Hf|done]. Qed.

(** ** Properties *)

(** C37. The last source wins: when loading succeeds, every setting has the value of
    the last text given to it in the file, then the environment, then the command
    line, each in its order, and a setting no source names has its default; the
    file is read to its end. *)
Theorem config_load_precedence args fs getenv cfg :
  existsb is_help args = false ->
  idx_config_load args fs getenv = (Ok tt, cfg) ->
  let kvs := config_pairs args fs ++ env_pairs getenv ++ arg_pairs args in
  forall name,
    match last_value name kvs with
    | Some text => exists v, read_setting name text = Ok v /\ get_setting name cfg = Some v
    | None => get_setting name cfg = get_setting name (base_config args fs)
    end.
Proof.
  intros Hh Hl kvs name. apply load_chain in Hl; [|done]. by apply (apply_all_settings _ _ _ Hl).
Qed.

(** Whatever the file, the environment and the command line hold, and whether
    loading succeeds or stops half way, the configuration it leaves is well formed:
    every text fits its buffer, the numbers are in range, the commitment is one of
    the two. *)
Theorem config_well_formed args fs getenv : config_ok (idx_config_load args fs getenv).2.
Proof.
  unfold idx_config_load. destruct (existsb is_help args); [apply set_help_ok, defaults_ok|].
  destruct (find_config_file idx_config_defaults args) as [cfg|] eqn:Ef; [|apply defaults_ok].
  assert (config_ok cfg) as Hcfg.
  { unfold find_config_file in Ef. destruct (config_named args) as [[value|]|]; cbn [mbind IDX_TRY] in Ef; [| |done].
    - destruct (set_string IDX_CONFIG_STR_MAX value) eqn:Es; [|done]. injection Ef as <-. apply set_string_ok in Es as [-> Hs].
      apply set_config_file_ok; [done|apply defaults_ok].
    - injection Ef as <-. apply defaults_ok. }
  apply then_apply_ok; [apply then_apply_ok|].
  - unfold load_file. destruct (config_file cfg); [|by apply apply_file_ok].
    destruct (fs IDX_CONFIG_DEFAULT_FILE); [|done]. apply apply_file_ok, set_config_file_ok; [by apply Z.ltb_lt|done].
  - intros c Hc. rewrite apply_env_pairs. by apply apply_all_ok.
  - intros c Hc. by apply apply_args_ok.
Qed.

(** The subscription parameters of a well-formed configuration fit where the
    pipeline writes them unless the filter is longer than any key, the filter is
    never cut by its own buffer, and the text is the JSON array of the filter and
    the options, the filter as it stands. *)
Theorem subscribe_params_fit cfg :
  config_ok cfg ->
  size (subscribe_filter cfg) <= size (block_filter cfg) + 31 /\
  (block_filter cfg <> lit "all" ->
   subscribe_filter cfg = lit "{" ++ quoted (lit "mentionsAccountOrProgram") ++ lit ":" ++ quoted (block_filter cfg) ++ lit "}") /\
  (size (block_filter cfg) < IDX_PUBKEY_STR_MAX ->
   idx_config_block_subscribe_params cfg (IDX_CONFIG_STR_MAX + 128) = Ok (subscribe_text cfg)).
Proof.
  intros [H1 _ _ _ H5]. rewrite !Forall_cons in H1. destruct H1 as (_ & _ & _ & _ & Hf & _).
  assert (size (subscribe_filter cfg) <= size (block_filter cfg) + 31) as Hsize.
  { unfold subscribe_filter, printed, streq. case_bool_decide as E.
    - rewrite E. vm_compute. discriminate.
    - unfold quoted, size in *. rewrite length_take. repeat (progress (rewrite ?length_app; simpl length)). lia. }
  split_and!; [done| |].
  - intros Hn. unfold subscribe_filter, printed, streq. rewrite bool_decide_false by done. apply take_ge.
    unfold quoted, size, IDX_CONFIG_STR_MAX in *. repeat (progress (rewrite ?length_app; simpl length)). lia.
  - intros Hs. unfold idx_config_block_subscribe_params. rewrite (proj2 (Z.leb_gt _ _)); [done|].
    unfold subscribe_text, quoted, size, IDX_CONFIG_STR_MAX, IDX_PUBKEY_STR_MAX in *. rewrite !length_app in *.
    assert (length (commitment cfg) = 9)%nat by (by destruct H5 as [-> | ->]).
    assert (length (idx_tx_details_name (tx_details cfg)) <= 10)%nat by (destruct (tx_details cfg); simpl; lia).
    repeat (progress (rewrite ?length_app in *; simpl length in * )). lia.
Qed.

(** ** Witnesses *)

Definition no_env : bytes -> option bytes := fun _ => None.
Definition one_file : file_system := fun p =>
  if streq p IDX_CONFIG_DEFAULT_FILE
  then Some (lit "# indexer" ++ [10] ++ lit " end_slot = 7 " ++ [10] ++ lit "quotes=sol" ++ [10], false) else None.

Lemma config_load_precedence_witness :
  exists cfg, idx_config_load [lit "--end-slot"; lit "9"] one_file no_env = (Ok tt, cfg) /\
    get_setting (lit "end_slot") cfg = Some (Number 9) /\ get_setting (lit "quote_mints") cfg = Some (Text (lit "sol")).
Proof.
  destruct (idx_config_load [lit "--end-slot"; lit "9"] one_file no_env) as [r cfg] eqn:E. exists cfg.
  assert (r = Ok tt) as -> by (apply (f_equal fst) in E; vm_compute in E; by rewrite <- E).
  pose proof (config_load_precedence [lit "--end-slot"; lit "9"] one_file no_env cfg ltac:(reflexivity) E) as H. cbn zeta in H.
  split; [reflexivity|].
  pose proof (H (lit "end_slot")) as H1. pose proof (H (lit "quote_mints")) as H2. clear H E.
  vm_compute in H1, H2. destruct H1 as (v1 & [= <-] & H1). destruct H2 as (v2 & [= <-] & H2). split; [exact H1|exact H2].
Defined.

Lemma config_well_formed_witness :
  config_ok (idx_config_load [lit "--concurrency"; lit "5000"] one_file no_env).2.
Proof. apply config_well_formed. Defined.

Lemma subscribe_params_fit_witness :
  idx_config_block_subscribe_params idx_config_defaults 640 = Ok (subscribe_text idx_config_defaults).
Proof. apply (subscribe_params_fit idx_config_defaults); [apply defaults_ok|reflexivity]. Defined.
