(* ===== verification/Pg.v ===== *)
(** * pg.c: PostgreSQL over libpq

    The connection the confirmed tier writes through: which statements it remembers,
    what an answer is called, and how cells are read.  libpq and the server are the
    world outside: each request takes the next [answer], and a log, which the code does
    not read, keeps the requests with whether they were accepted.  A null connection is
    excluded by the types, apart from the functions that look at one without a request;
    the texts of errors are not modelled. *)

From S2P Require Import Prelude Radix Decimal Bytes Vec SlotCursor Config.
#[local] Open Scope Z_scope.

(** ** The server *)

(** [PQresultStatus], as far as pg.c tells apart. *)
Inductive exec_status := PGRES_COMMAND_OK | PGRES_TUPLES_OK | PGRES_OTHER.
#[export] Instance exec_status_eq_dec : EqDecision exec_status.
Proof. solve_decision. Defined.

(** What libpq says of a [PGresult]: its status, its columns and rows ([None] is NULL) and
    [PQcmdTuples]. *)
Record PGresult := PgRes {
  res_status : exec_status;
  res_fields : Z;
  res_tuples : list (list (option bytes));
  res_affected : option bytes
}.

(** A request as libpq is given it. *)
Inductive pg_request :=
  | Exec (sql : bytes)
  | Prepare (name sql : bytes) (n_params : Z)
  | ExecPrepared (name : bytes) (values : list (option bytes))
  | ResetConn
  | FinishConn.

#[export] Instance pg_request_eq_dec : EqDecision pg_request.
Proof. solve_decision. Defined.

(** An answer: the result, null when there is none, and [PQstatus] afterwards. *)
Record answer := Answer { an_result : option PGresult; an_status : bool }.

(** The answers to come, [PQstatus], the allocator and the log. *)
Record link := Link { answers : list answer; up : bool; pg_mem : heap; said : list (pg_request * bool) }.

Definition with_pg_mem (w : link) (h : heap) : link := Link (answers w) (up w) h (said w).

(** Out of answers, the connection is gone. *)
Definition next_answer (w : link) : answer := default (Answer None false) (hd_error (answers w)).

(** A request and its answer; [good] says which statuses accept it. *)
Definition ask (q : pg_request) (good : exec_status -> bool) (w : link) : option PGresult * link :=
  let a := next_answer w in
  let accepted := match an_result a with Some res => good (res_status res) | None => false end in
  (an_result a, Link (tail (answers w)) (an_status a) (pg_mem w) (said w ++ [(q, accepted)])).

Definition command_ok (st : exec_status) : bool := bool_decide (st = PGRES_COMMAND_OK).
Definition tuples_ok (st : exec_status) : bool := bool_decide (st = PGRES_TUPLES_OK).
Definition either_ok (st : exec_status) : bool := command_ok st || tuples_ok st.

(** ** The connection *)

(** src/src/pg.c:21-25 [prepared_stmt] *)
Record prepared_stmt := PreparedStmt { ps_name : bytes; ps_sql : bytes; ps_n_params : Z }.

(** [sizeof(prepared_stmt)] *)
Definition sizeof_prepared_stmt : Z := 24.
Definition no_stmt : prepared_stmt := PreparedStmt [] [] 0.

(** src/src/pg.c:27-30 [idx_pg_conn]: without libpq's handle. *)
Record idx_pg_conn := PgConn { prepared : idx_vec prepared_stmt }.

Definition remembered (c : idx_pg_conn) : list prepared_stmt := vec_data (prepared c).

(** A function of a connection. *)
Definition call (A : Type) : Type := idx_pg_conn * link -> result A * (idx_pg_conn * link).

(** src/src/pg.c:61-64 [classify] *)
Definition classify (w : link) : idx_status := if up w then IDX_ERR_REMOTE else IDX_ERR_NETWORK.

(** src/src/pg.c:68-89 [fail_result] *)
Definition fail_result {A} : call A := fun '(c, w) => (IDX_FAIL (classify w), (c, w)).

(** src/src/pg.c:92-106 [wrap_result]: [wanted] is [out != NULL]. *)
Definition wrap_result (res : PGresult) (wanted : bool) : call (option PGresult) := fun '(c, w) =>
  if negb wanted then (Ok None, (c, w))
  else
    let '(ok, h) := malloc (pg_mem w) in
    if ok then (Ok (Some res), (c, with_pg_mem w h)) else (IDX_FAIL IDX_ERR_NO_MEMORY, (c, with_pg_mem w h)).

(** src/src/pg.c:110-124 [finish] *)
Definition finish (res : option PGresult) (wanted : bool) : call (option PGresult) := fun '(c, w) =>
  match res with
  | None => (IDX_FAIL (classify w), (c, w))
  | Some r => if negb (either_ok (res_status r)) then fail_result (c, w) else wrap_result r wanted (c, w)
  end.

(** src/src/pg.c:128-152 [idx_pg_connect]: [made] is what [PQconnectdb] gives, null or an
    object with a [PQstatus]. *)
Definition idx_pg_connect (conninfo : option bytes) (out : bool) (made : option bool) (w : link)
    : result (idx_pg_conn * link) * link :=
  if bool_decide (conninfo = None) || negb out then (IDX_FAIL IDX_ERR_INVALID_ARG, w)
  else
    match made with
    | None => (IDX_FAIL IDX_ERR_NO_MEMORY, w)
    | Some false => (IDX_FAIL IDX_ERR_NETWORK, w)
    | Some true =>
        let '(ok, h) := calloc 1 1 (pg_mem w) in
        let w := Link (answers w) true h (said w) in
        if ok then (Ok (PgConn (idx_vec_init sizeof_prepared_stmt), w), w) else (IDX_FAIL IDX_ERR_NO_MEMORY, w)
    end.

(** src/src/pg.c:154-166 [idx_pg_close]: what is remembered is freed. *)
Definition idx_pg_close (conn : option (idx_pg_conn * link)) : option link :=
  match conn with
  | None => None
  | Some (_, w) => Some (Link (answers w) false (pg_mem w) (said w ++ [(FinishConn, true)]))
  end.

(** src/src/pg.c:168-170 [idx_pg_is_ok] *)
Definition idx_pg_is_ok (conn : option (idx_pg_conn * link)) : bool :=
  match conn with Some (_, w) => up w | None => false end.

(** src/src/pg.c:172-174 [idx_pg_server_version]: [version] is [PQserverVersion]. *)
Definition idx_pg_server_version (version : link -> Z) (conn : option (idx_pg_conn * link)) : Z :=
  match conn with Some (_, w) => version w | None => 0 end.

(** src/src/pg.c:176-189 [idx_pg_ping] *)
Definition idx_pg_ping : call unit := fun '(c, w) =>
  let '(res, w) := ask (Exec (lit "SELECT 1")) tuples_ok w in
  match res with
  | Some r => if tuples_ok (res_status r) then (Ok tt, (c, w)) else (IDX_FAIL IDX_ERR_NETWORK, (c, w))
  | None => (IDX_FAIL IDX_ERR_NETWORK, (c, w))
  end.

(** [PQprepare] of a statement, and its answer read. *)
Definition prepare_stmt (p : prepared_stmt) : call unit := fun '(c, w) =>
  let '(res, w) := ask (Prepare (ps_name p) (ps_sql p) (ps_n_params p)) command_ok w in
  match res with
  | Some r => if command_ok (res_status r) then (Ok tt, (c, w)) else fail_result (c, w)
  | None => fail_result (c, w)
  end.

(** src/src/pg.c:201-208 [idx_pg_reset]: the loop, from here on. *)
Fixpoint prepare_all (l : list prepared_stmt) : call unit := fun st =>
  match l with
  | [] => (Ok tt, st)
  | p :: l =>
      match prepare_stmt p st with
      | (Ok _, st) => prepare_all l st
      | r => r
      end
  end.

(** src/src/pg.c:191-210 [idx_pg_reset]: [PQreset] has no result, only a [PQstatus]. *)
Definition idx_pg_reset : call unit := fun '(c, w) =>
  let a := next_answer w in
  let w := Link (tail (answers w)) (an_status a) (pg_mem w) (said w ++ [(ResetConn, an_status a)]) in
  if negb (up w) then (IDX_FAIL IDX_ERR_NETWORK, (c, w)) else prepare_all (remembered c) (c, w).

(** ** Statements *)

(** src/src/pg.c:214-220 [idx_pg_exec] *)
Definition idx_pg_exec (sql : option bytes) (wanted : bool) : call (option PGresult) := fun '(c, w) =>
  match sql with
  | None => (IDX_FAIL IDX_ERR_INVALID_ARG, (c, w))
  | Some sql => let '(res, w) := ask (Exec sql) either_ok w in finish res wanted (c, w)
  end.

Definition BEGIN : bytes := lit "BEGIN".
Definition COMMIT : bytes := lit "COMMIT".
Definition ROLLBACK : bytes := lit "ROLLBACK".

(** src/src/pg.c:222-224 [idx_pg_begin] *)
Definition idx_pg_begin : call (option PGresult) := idx_pg_exec (Some BEGIN) false.

(** src/src/pg.c:226-228 [idx_pg_commit] *)
Definition idx_pg_commit : call (option PGresult) := idx_pg_exec (Some COMMIT) false.

(** src/src/pg.c:230-232 [idx_pg_rollback] *)
Definition idx_pg_rollback : call (option PGresult) := idx_pg_exec (Some ROLLBACK) false.

(** The entry of a name replaced, if there is one. *)
Fixpoint replace_named (name : bytes) (p : prepared_stmt) (l : list prepared_stmt) : option (list prepared_stmt) :=
  match l with
  | [] => None
  | q :: l => if bool_decide (ps_name q = name) then Some (p :: l) else (q ::.) <$> replace_named name p l
  end.

(** src/src/pg.c:50-57 [dup_str] *)
Definition dup_str (s : bytes) (h : heap) : option bytes * heap :=
  let '(ok, h) := malloc h in (if ok then Some s else None, h).

(** src/src/pg.c:235-262 [remember] *)
Definition remember (name sql : bytes) (n_params : Z) : call unit := fun '(c, w) =>
  let '(name_copy, h) := dup_str name (pg_mem w) in
  let '(sql_copy, h) := dup_str sql h in
  match name_copy, sql_copy with
  | Some name_copy, Some sql_copy =>
      let entry := PreparedStmt name_copy sql_copy n_params in
      match replace_named name entry (remembered c) with
      | Some l => (Ok tt, (PgConn (Vec l (vec_capacity (prepared c)) (elem_size (prepared c))), with_pg_mem w h))
      | None =>
          match idx_vec_push no_stmt (Some (prepared c)) (Some entry) h with
          | (Ok _, Some v, h) => (Ok tt, (PgConn v, with_pg_mem w h))
          | (_, v, h) => (Err IDX_ERR_NO_MEMORY, (PgConn (default (prepared c) v), with_pg_mem w h))
          end
      end
  | _, _ => (IDX_FAIL IDX_ERR_NO_MEMORY, (c, with_pg_mem w h))
  end.

(** src/src/pg.c:264-275 [idx_pg_prepare] *)
Definition idx_pg_prepare (name sql : option bytes) (n_params : Z) : call unit := fun st =>
  match name, sql with
  | Some name, Some sql =>
      if n_params <? 0 then (IDX_FAIL IDX_ERR_INVALID_ARG, st)
      else
        match prepare_stmt (PreparedStmt name sql n_params) st with
        | (Ok _, st) => remember name sql n_params st
        | r => r
        end
  | _, _ => (IDX_FAIL IDX_ERR_INVALID_ARG, st)
  end.

(** src/src/pg.c:278-287 [find_prepared] *)
Definition find_prepared (c : idx_pg_conn) (name : bytes) : option prepared_stmt :=
  snd <$> list_find (fun p => ps_name p = name) (remembered c).

(** src/src/pg.c:289-312 [idx_pg_exec_prepared]: [values] holds [n_params] texts. *)
Definition idx_pg_exec_prepared (name : option bytes) (n_params : Z) (values : option (list (option bytes))) (wanted : bool)
    : call (option PGresult) := fun '(c, w) =>
  match name with
  | None => (IDX_FAIL IDX_ERR_INVALID_ARG, (c, w))
  | Some name =>
      if (n_params <? 0) || ((0 <? n_params) && bool_decide (values = None)) then (IDX_FAIL IDX_ERR_INVALID_ARG, (c, w))
      else
        match find_prepared c name with
        | None => (IDX_FAIL IDX_ERR_INVALID_ARG, (c, w))
        | Some p =>
            if negb (ps_n_params p =? n_params) then (IDX_FAIL IDX_ERR_INVALID_ARG, (c, w))
            else
              let '(res, w) := ask (ExecPrepared name (take (Z.to_nat n_params) (default [] values))) either_ok w in
              finish res wanted (c, w)
        end
  end.

(** ** Results *)

(** src/src/pg.c:323-329 [idx_pg_result_rows] *)
Definition idx_pg_result_rows (res : option PGresult) : Z :=
  match res with
  | None => 0
  | Some r => let n := size (res_tuples r) in if 0 <? n then n else 0
  end.

(** src/src/pg.c:331-337 [idx_pg_result_cols] *)
Definition idx_pg_result_cols (res : option PGresult) : Z :=
  match res with
  | None => 0
  | Some r => let n := res_fields r in if 0 <? n then n else 0
  end.

(** src/src/pg.c:339-354 [idx_pg_result_affected] *)
Definition idx_pg_result_affected (res : option PGresult) : Z :=
  match res with
  | None => 0
  | Some r =>
      match res_affected r with
      | None | Some [] => 0
      | Some tuples =>
          let '(v, erange, rest) := strtoull_signed tuples in
          if erange || bool_decide (rest = tuples) || negb (bool_decide (rest = [])) then 0 else v
      end
  end.

(** src/src/pg.c:357-368 [cell_in_range] *)
Definition cell_in_range (res : option PGresult) (row col : Z) : option (nat * nat) :=
  match res with
  | None => None
  | Some _ =>
      if (idx_pg_result_rows res <=? row) || (idx_pg_result_cols res <=? col) then None
      else Some (Z.to_nat row, Z.to_nat col)
  end.

(** [PQgetvalue], [None] when [PQgetisnull]. *)
Definition value_at (res : option PGresult) (at_ : nat * nat) : option bytes :=
  res ≫= fun r => res_tuples r !! at_.1 ≫= fun row => mjoin (row !! at_.2).

(** src/src/pg.c:370-376 [idx_pg_result_is_null] *)
Definition idx_pg_result_is_null (res : option PGresult) (row col : Z) : bool :=
  match cell_in_range res row col with
  | None => true
  | Some at_ => bool_decide (value_at res at_ = None)
  end.

(** src/src/pg.c:378-388 [idx_pg_result_text] *)
Definition idx_pg_result_text (res : option PGresult) (row col : Z) : option bytes :=
  match cell_in_range res row col with
  | None => None
  | Some at_ => value_at res at_
  end.

(** [strtoll(value, &end, 10)]: the number (saturated), [errno == ERANGE], and where [end]
    points. *)
Definition strtoll (value : bytes) : Z * bool * bytes :=
  let text := skip_spaces value in
  let '(minus, text) := match text with 45 :: text => (true, text) | 43 :: text => (false, text) | _ => (false, text) end in
  let '(digits, rest) := span_digits text in
  match digits with
  | [] => (0, false, value)
  | _ =>
      let v := if (minus : bool) then - dec_val digits else dec_val digits in
      if v <? - 2 ^ 63 then (- 2 ^ 63, true, rest) else if 2 ^ 63 <=? v then (2 ^ 63 - 1, true, rest) else (v, false, rest)
  end.

(** src/src/pg.c:390-406 [idx_pg_result_i64] *)
Definition idx_pg_result_i64 (res : option PGresult) (row col : Z) : result Z :=
  match idx_pg_result_text res row col with
  | None => IDX_FAIL IDX_ERR_NOT_FOUND
  | Some text =>
      let '(v, erange, rest) := strtoll text in
      if erange || bool_decide (rest = text) || negb (bool_decide (rest = [])) then IDX_FAIL IDX_ERR_PARSE else Ok v
  end.

(** src/src/pg.c:417-419 [idx_pg_result_u64]: the loop. *)
Fixpoint skip_blanks (text : bytes) : bytes :=
  match text with
  | c :: text' => if (c =? 32) || (c =? 9) then skip_blanks text' else text
  | [] => []
  end.

(** src/src/pg.c:408-433 [idx_pg_result_u64] *)
Definition idx_pg_result_u64 (res : option PGresult) (row col : Z) : result Z :=
  match idx_pg_result_text res row col with
  | None => IDX_FAIL IDX_ERR_NOT_FOUND
  | Some text =>
      if match skip_blanks text with 45 :: _ => true | _ => false end then IDX_FAIL IDX_ERR_PARSE
      else
        let '(v, erange, rest) := strtoull_signed text in
        if erange || bool_decide (rest = text) || negb (bool_decide (rest = [])) then IDX_FAIL IDX_ERR_PARSE else Ok v
  end.

(** ** Sessions *)

(** What a client does with a connection. *)
Inductive pg_op :=
  | DoPrepare (name sql : bytes) (n_params : Z)
  | DoExec (sql : bytes)
  | DoExecPrepared (name : bytes) (values : list (option bytes))
  | DoPing
  | DoReset.

Definition discard {A} (k : call A) : call unit := fun st => let '(r, st) := k st in (_ ← r; Ok tt, st).

Definition pg_step (op : pg_op) : call unit :=
  match op with
  | DoPrepare name sql n => idx_pg_prepare (Some name) (Some sql) n
  | DoExec sql => discard (idx_pg_exec (Some sql) false)
  | DoExecPrepared name values => discard (idx_pg_exec_prepared (Some name) (size values) (Some values) false)
  | DoPing => idx_pg_ping
  | DoReset => idx_pg_reset
  end.

Fixpoint pg_run (ops : list pg_op) (st : idx_pg_conn * link) : list (result unit) * (idx_pg_conn * link) :=
  match ops with
  | [] => ([], st)
  | op :: ops => let '(r, st) := pg_step op st in let '(rs, st) := pg_run ops st in (r :: rs, st)
  end.

(** The statements the server's session has, from what it accepted since it began. *)
Definition live_step (m : gmap bytes (bytes * Z)) (x : pg_request * bool) : gmap bytes (bytes * Z) :=
  match x with
  | (ResetConn, _) => ∅
  | (Prepare name sql n, true) => <[name := (sql, n)]> m
  | _ => m
  end.
Definition live (log : list (pg_request * bool)) : gmap bytes (bytes * Z) := foldl live_step ∅ log.

(** The statements the client registered: those whose preparation returned OK. *)
Definition registered_step (m : gmap bytes (bytes * Z)) (x : pg_op * result unit) : gmap bytes (bytes * Z) :=
  match x with
  | (DoPrepare name sql n, Ok _) => <[name := (sql, n)]> m
  | _ => m
  end.
Definition registered (ops : list pg_op) (rs : list (result unit)) : gmap bytes (bytes * Z) := foldl registered_step ∅ (zip ops rs).

(** Whether session and client agree: the last reset succeeded, and no preparation has
    run out of memory since. *)
Definition synced_step (b : bool) (x : pg_op * result unit) : bool :=
  match x with
  | (DoReset, Ok _) => true
  | (DoReset, Err _) => false
  | (DoPrepare _ _ _, Err IDX_ERR_NO_MEMORY) => false
  | _ => b
  end.
Definition synced (ops : list pg_op) (rs : list (result unit)) : bool := foldl synced_step true (zip ops rs).

(** The entries, as the client's view. *)
Definition entries (l : list prepared_stmt) : gmap bytes (bytes * Z) := list_to_map ((fun p => (ps_name p, (ps_sql p, ps_n_params p))) <$> l).

Record session_inv (st : idx_pg_conn * link) (reg : gmap bytes (bytes * Z)) (b : bool) : Prop := SessionInv {
  si_vec : vec_ok (prepared st.1);
  si_names : NoDup (ps_name <$> remembered st.1);
  si_entries : entries (remembered st.1) = reg;
  si_live : b = true -> reg ⊆ live (said st.2)
}.

Lemma live_snoc log x : live (log ++ [x]) = live_step (live log) x.
Proof. unfold live. by rewrite foldl_app. Qed.

Lemma live_other log q b : (forall name sql n, q <> Prepare name sql n) -> q <> ResetConn -> live (log ++ [(q, b)]) = live log.
Proof. intros H1 H2. rewrite live_snoc. destruct q; cbn [live_step]; try done; [by destruct (H1 name sql n_params)]. Qed.

Lemma find_entries c name :
  (fun p => (ps_sql p, ps_n_params p)) <$> find_prepared c name = entries (remembered c) !! name.
Proof.
  unfold find_prepared, entries. induction (remembered c) as [|p l IH]; [done|]. cbn [list_find fmap list_fmap list_to_map foldr].
  destruct (decide (ps_name p = name)) as [<-|Hne]; cbn [fmap option_fmap option_map snd fst].
  - by rewrite lookup_insert_eq.
  - rewrite lookup_insert_ne by done. rewrite <- IH. by destruct (list_find _ l) as [[]|].
Qed.

Lemma replace_some name p l l' :
  replace_named name p l = Some l' -> ps_name p = name -> NoDup (ps_name <$> l) ->
  NoDup (ps_name <$> l') /\ (ps_name <$> l') = (ps_name <$> l) /\ length l' = length l /\
  entries l' = <[name := (ps_sql p, ps_n_params p)]> (entries l).
Proof.
  revert l'. induction l as [|q l IH]; intros l' E Hp Hnd; [done|]. cbn [replace_named] in E. apply NoDup_cons in Hnd as [Hq Hnd].
  case_bool_decide as Hn.
  - injection E as <-. cbn [fmap list_fmap]. rewrite Hp, Hn in *. split; [by apply NoDup_cons|]. split; [done|]. split; [done|].
    unfold entries. cbn [fmap list_fmap list_to_map foldr fst snd]. rewrite Hp, Hn. by rewrite insert_insert_eq.
  - destruct (replace_named name p l) as [l2|] eqn:E2; [|done]. injection E as <-. destruct (IH _ eq_refl Hp Hnd) as (H1 & H2 & H3 & H4).
    cbn [fmap list_fmap length]. split; [apply NoDup_cons; by rewrite H2|]. split; [by rewrite H2|]. split; [by rewrite H3|].
    unfold entries in *. cbn [fmap list_fmap list_to_map foldr fst snd]. rewrite H4. by rewrite insert_insert_ne by done.
Qed.

Lemma replace_none name p l : replace_named name p l = None -> name ∉ (ps_name <$> l).
Proof.
  induction l as [|q l IH]; intros E; [by apply not_elem_of_nil|]. cbn [replace_named] in E. case_bool_decide as Hn; [done|].
  destruct (replace_named name p l); [done|]. cbn [fmap list_fmap]. apply not_elem_of_cons. split; [congruence|by apply IH].
Qed.

Lemma entries_snoc l p : ps_name p ∉ (ps_name <$> l) -> entries (l ++ [p]) = <[ps_name p := (ps_sql p, ps_n_params p)]> (entries l).
Proof.
  intros Hp. induction l as [|q l IH]; [done|]. cbn [fmap list_fmap] in Hp. apply not_elem_of_cons in Hp as [Hne Hp].
  unfold entries in *. cbn [app fmap list_fmap list_to_map foldr fst snd]. rewrite IH by done. by rewrite insert_insert_ne by done.
Qed.

(** Registering a statement. *)
Lemma remember_spec name sql n c w :
  vec_ok (prepared c) -> NoDup (ps_name <$> remembered c) ->
  let '(r, (c', w')) := remember name sql n (c, w) in
  said w' = said w /\ up w' = up w /\ vec_ok (prepared c') /\
  match r with
  | Ok _ => NoDup (ps_name <$> remembered c') /\ entries (remembered c') = <[name := (sql, n)]> (entries (remembered c))
  | Err e => e = IDX_ERR_NO_MEMORY /\ c' = c
  end.
Proof.
  intros Hv Hnd. unfold remember, dup_str. destruct (malloc (pg_mem w)) as [ok1 h1], (malloc h1) as [ok2 h2].
  destruct ok1, ok2; try done.
  destruct (replace_named name _ _) as [l|] eqn:E.
  - destruct (replace_some _ _ _ _ E eq_refl Hnd) as (H1 & _ & H3 & H4). split; [done|]. split; [done|]. split; [|done].
    destruct Hv as (Hv1 & Hv2 & Hv3). split; [done|]. cbn [prepared vec_data vec_capacity elem_size]. split; [|done].
    unfold size, remembered in *. by rewrite H3.
  - apply replace_none in E. pose proof (vec_push_ok no_stmt (prepared c) (PreparedStmt name sql n) h2 Hv) as Hp.
    destruct (idx_vec_push _ _ _ _) as [[[[]|e] v] h3]; destruct Hp as (v' & -> & Hv' & Hd).
    + split; [done|]. split; [done|]. split; [done|]. unfold remembered in *. cbn [prepared]. rewrite Hd. split.
      * rewrite fmap_app. apply NoDup_app. split; [done|]. split; [|by repeat constructor; apply not_elem_of_nil].
        intros x Hx ->%list_elem_of_singleton. done.
      * by rewrite entries_snoc.
    + destruct Hd as [-> _]. by destruct c.
Qed.

(** One preparation asks once. *)
Lemma prepare_asks p c w :
  let '(r, (c', w')) := prepare_stmt p (c, w) in
  exists b, c' = c /\ said w' = said w ++ [(Prepare (ps_name p) (ps_sql p) (ps_n_params p), b)] /\
  match r with Ok _ => b = true | Err e => b = false /\ e <> IDX_ERR_NO_MEMORY end.
Proof.
  unfold prepare_stmt, ask. destruct (an_result (next_answer w)) as [res|]; cbn [fail_result].
  - destruct (command_ok _); [by exists true|]. exists false. split; [done|]. split; [done|]. split; [done|].
    unfold classify. by destruct (up _).
  - exists false. split; [done|]. split; [done|]. split; [done|]. unfold classify. by destruct (up _).
Qed.

(** Preparing all entries anew makes them live. *)
Lemma prepare_all_spec l c w :
  let '(r, (c', w')) := prepare_all l (c, w) in
  c' = c /\ match r with
            | Ok _ => said w' = said w ++ ((fun p => (Prepare (ps_name p) (ps_sql p) (ps_n_params p), true)) <$> l)
            | Err e => e <> IDX_ERR_NO_MEMORY
            end.
Proof.
  revert w. induction l as [|p l IH]; intros w; cbn [prepare_all fmap list_fmap]; [by rewrite app_nil_r|].
  pose proof (prepare_asks p c w) as Hp. destruct (prepare_stmt p (c, w)) as [[[]|e] [c1 w1]]; destruct Hp as (b & -> & Hs & Hb).
  - subst b. specialize (IH w1). destruct (prepare_all l (c, w1)) as [r [c2 w2]]. destruct IH as [-> Hr]. split; [done|].
    destruct r; [|done]. by rewrite Hr, Hs, <- app_assoc.
  - split; [done|]. apply Hb.
Qed.

Lemma live_prepares log l :
  NoDup (ps_name <$> l) ->
  entries l ⊆ live (log ++ ((fun p => (Prepare (ps_name p) (ps_sql p) (ps_n_params p), true)) <$> l)).
Proof.
  induction l as [|p l IH] using rev_ind; intros Hnd; [apply map_empty_subseteq|].
  rewrite fmap_app in Hnd. apply NoDup_app in Hnd as (Hnd & Hp & _).
  assert (ps_name p ∉ (ps_name <$> l)) as Hni by (intros Hin; apply (Hp _ Hin); by left).
  rewrite entries_snoc by done. rewrite fmap_app, app_assoc. cbn [fmap list_fmap]. rewrite live_snoc. cbn [live_step].
  apply insert_mono. by apply IH.
Qed.

(** A request whose answer is read by [finish]. *)
Lemma asked_once q c w :
  let '(res, w1) := ask q either_ok w in
  let '(r, (c', w')) := finish res false (c, w1) in
  c' = c /\ exists b, said w' = said w ++ [(q, b)] /\
  match r with Ok _ => b = true | Err e => b = false /\ e = if up w' then IDX_ERR_REMOTE else IDX_ERR_NETWORK end.
Proof.
  unfold ask, finish, wrap_result, fail_result, classify. destruct (an_result (next_answer w)) as [res|]; cbn [negb up].
  - destruct (either_ok _); cbn [negb]; (split; [done|]); [by exists true|]. exists false. split; [done|]. by destruct (an_status _).
  - split; [done|]. exists false. split; [done|]. by destruct (an_status _).
Qed.

Lemma exec_asks sql c w :
  let '(r, (c', w')) := idx_pg_exec (Some sql) false (c, w) in
  c' = c /\ exists b, said w' = said w ++ [(Exec sql, b)] /\
  match r with Ok _ => b = true | Err e => b = false /\ e = if up w' then IDX_ERR_REMOTE else IDX_ERR_NETWORK end.
Proof. exact (asked_once (Exec sql) c w). Qed.

Lemma exec_prepared_asks name values c w :
  let '(r, (c', w')) := idx_pg_exec_prepared (Some name) (size values) (Some values) false (c, w) in
  c' = c /\
  if bool_decide (snd <$> entries (remembered c) !! name = Some (size values)) then
    exists b, said w' = said w ++ [(ExecPrepared name values, b)] /\
    match r with Ok _ => b = true | Err e => b = false /\ e = if up w' then IDX_ERR_REMOTE else IDX_ERR_NETWORK end
  else w' = w /\ r = Err IDX_ERR_INVALID_ARG.
Proof.
  unfold idx_pg_exec_prepared. assert ((size values <? 0) || ((0 <? size values) && bool_decide (Some values = None)) = false) as ->.
  { rewrite bool_decide_eq_false_2 by done. rewrite andb_false_r, orb_false_r. apply Z.ltb_ge. unfold size. lia. }
  rewrite <- find_entries. destruct (find_prepared c name) as [p|]; cbn [fmap option_fmap option_map snd]; [|by rewrite bool_decide_eq_false_2].
  destruct (Z.eqb_spec (ps_n_params p) (size values)) as [E|E]; cbn [negb].
  - rewrite bool_decide_eq_true_2 by congruence. cbn [default from_option id]. unfold size at 1. rewrite Nat2Z.id, firstn_all.
    exact (asked_once (ExecPrepared name values) c w).
  - by rewrite bool_decide_eq_false_2 by congruence.
Qed.

Lemma step_inv op st reg b :
  session_inv st reg b ->
  let '(r, st') := pg_step op st in session_inv st' (registered_step reg (op, r)) (synced_step b (op, r)).
Proof.
  destruct st as [c w]. intros [Hv Hn He Hl]. cbn [fst snd] in *.
  destruct op as [name sql n|sql|name values| |]; cbn [pg_step].
  - unfold idx_pg_prepare. destruct (n <? 0); [by split|].
    pose proof (prepare_asks (PreparedStmt name sql n) c w) as Hp.
    destruct (prepare_stmt _ (c, w)) as [[[]|e] [c1 w1]]; destruct Hp as (a & -> & Hs & Ha); cbn [ps_name ps_sql ps_n_params] in Hs.
    + subst a. pose proof (remember_spec name sql n c w1 Hv Hn) as Hr.
      destruct (remember name sql n (c, w1)) as [[[]|e] [c2 w2]]; destruct Hr as (Hsd & _ & Hv2 & Hr); cbn [registered_step synced_step].
      * destruct Hr as [Hn2 He2]. split; cbn [fst snd]; [done|done|by rewrite He2, He|]. intros Hb.
        rewrite Hsd, Hs, live_snoc. cbn [live_step]. by apply insert_mono, Hl.
      * destruct Hr as [-> ->]. split; [done..|]. done.
    + destruct Ha as [-> Ha]. cbn [registered_step]. replace (synced_step b (DoPrepare name sql n, Err e)) with b by (by destruct e).
      split; [done..|]. cbn [snd]. rewrite Hs, live_snoc. cbn [live_step]. exact Hl.
  - pose proof (exec_asks sql c w) as Hx. unfold discard. destruct (idx_pg_exec _ _ _) as [r [c1 w1]]. destruct Hx as (-> & a & Hs & _).
    replace (registered_step reg _) with reg by (by destruct r). replace (synced_step b _) with b by (by destruct r).
    split; [done..|]. cbn [snd]. by rewrite Hs, live_other.
  - pose proof (exec_prepared_asks name values c w) as Hx. unfold discard. destruct (idx_pg_exec_prepared _ _ _ _ _) as [r [c1 w1]].
    destruct Hx as (-> & Hx). replace (registered_step reg _) with reg by (by destruct r). replace (synced_step b _) with b by (by destruct r).
    split; [done..|]. cbn [snd]. destruct (bool_decide _); [destruct Hx as (a & Hs & _); by rewrite Hs, live_other|by destruct Hx as [-> _]].
  - unfold idx_pg_ping, ask. set (w1 := Link _ _ _ _).
    assert (forall r, session_inv (c, w1) (registered_step reg (DoPing, r)) (synced_step b (DoPing, r))) as H.
    { intros r. split; [done..|]. subst w1. cbn [snd said]. by rewrite live_other. }
    destruct (an_result _) as [res|]; [destruct (tuples_ok _)|]; apply H.
  - unfold idx_pg_reset. set (w1 := Link _ _ _ _). destruct (up w1) eqn:Eu; cbn [negb].
    + pose proof (prepare_all_spec (remembered c) c w1) as Hp. destruct (prepare_all _ _) as [r [c2 w2]]. destruct Hp as [-> Hp].
      destruct r as [[]|e]; (split; [done..|]); [|done]. intros _. cbn [snd]. rewrite Hp, <- He. by apply live_prepares.
    + split; [done..|]. done.
Qed.

Lemma run_session ops st reg b :
  session_inv st reg b ->
  let '(rs, st') := pg_run ops st in
  session_inv st' (foldl registered_step reg (zip ops rs)) (foldl synced_step b (zip ops rs)).
Proof.
  revert st reg b. induction ops as [|op ops IH]; intros st reg b Hi; cbn [pg_run]; [done|].
  pose proof (step_inv op st reg b Hi) as Hs. destruct (pg_step op st) as [r st1]. specialize (IH _ _ _ Hs).
  destruct (pg_run ops st1) as [rs st2]. exact IH.
Qed.

(** ** Properties *)

(** C25. Prepared statements survive a reconnect: over any run of a fresh connection, with
    any answers of the server and any allocation failures, the client finds under a name
    exactly the statement last registered under it, and as long as the last reset
    succeeded and no registration has run out of memory since, the server's current
    session has accepted every registered statement, with that text and number of
    parameters. *)
Theorem pg_session_history ops w :
  said w = [] ->
  let '(rs, (c, w')) := pg_run ops (PgConn (idx_vec_init sizeof_prepared_stmt), w) in
  (forall name, (fun p => (ps_sql p, ps_n_params p)) <$> find_prepared c name = registered ops rs !! name) /\
  (synced ops rs = true -> forall name s, registered ops rs !! name = Some s -> live (said w') !! name = Some s).
Proof.
  intros Hs. assert (session_inv (PgConn (idx_vec_init sizeof_prepared_stmt), w) ∅ true) as Hi.
  { split; [done|constructor|done|]. intros _. apply map_empty_subseteq. }
  pose proof (run_session ops _ _ _ Hi) as H. destruct (pg_run _ _) as [rs [c w']]. destruct H as [Hv Hn He Hl]. cbn [fst snd] in *.
  split; [intros name; by rewrite find_entries, He|]. intros Hb name s. apply map_subseteq_spec. by apply Hl.
Qed.

(** A statement that is registered with as many parameters as it is given is executed by
    one request with exactly those values; any other is refused without a request.  The
    status is REMOTE when the server refused it over a live connection and NETWORK when
    the connection is down. *)
Theorem pg_exec_prepared_exact name values c w :
  let '(r, (c', w')) := idx_pg_exec_prepared (Some name) (size values) (Some values) false (c, w) in
  c' = c /\
  if bool_decide (snd <$> entries (remembered c) !! name = Some (size values)) then
    exists b, said w' = said w ++ [(ExecPrepared name values, b)] /\
    match r with Ok _ => b = true | Err e => b = false /\ e = if up w' then IDX_ERR_REMOTE else IDX_ERR_NETWORK end
  else w' = w /\ r = Err IDX_ERR_INVALID_ARG.
Proof. apply exec_prepared_asks. Qed.

(** A reset whose re-preparation is refused leaves the connection open with a session
    that lacks the rest of the statements, though pg.h says it is left closed: here the
    second of two statements is refused. *)
Lemma pg_reset_leaves_open :
  let ok := Answer (Some (PgRes PGRES_COMMAND_OK 0 [] None)) true in
  let no := Answer (Some (PgRes PGRES_OTHER 0 [] None)) true in
  let '(rs, (c, w)) := pg_run [DoPrepare [97] [1] 0; DoPrepare [98] [2] 0; DoReset]
      (PgConn (idx_vec_init sizeof_prepared_stmt), Link [ok; ok; Answer None true; ok; no] true [] []) in
  last rs = Some (Err IDX_ERR_REMOTE) /\ idx_pg_is_ok (Some (c, w)) = true /\ live (said w) !! [98] = None.
Proof. vm_compute. done. Qed.

(** *** Cells *)

(** The text of an integer as C reads it: blanks, a sign, digits. *)
Inductive integer_text : bytes -> Z -> Prop :=
  | IntegerText blanks sign digits :
      Forall (fun c => is_space c = true) blanks -> sign ∈ [[]; [43]; [45]] ->
      Forall is_digit digits -> digits <> [] ->
      integer_text (blanks ++ sign ++ digits) (if decide (sign = [45]) then - dec_val digits else dec_val digits).

Lemma skip_spaces_app blanks l :
  Forall (fun c => is_space c = true) blanks -> match l with c :: _ => is_space c = false | [] => True end ->
  skip_spaces (blanks ++ l) = l.
Proof. intros Hb Hl. induction Hb as [|c b Hc _ IH]; cbn [app skip_spaces]; [destruct l as [|c l]; [done|]; cbn; by rewrite Hl|by rewrite Hc]. Qed.

Lemma skip_spaces_split l : exists blanks, Forall (fun c => is_space c = true) blanks /\ l = blanks ++ skip_spaces l.
Proof.
  induction l as [|c l (b & Hb & E)]; [by exists []|]. cbn [skip_spaces]. destruct (is_space c) eqn:Ec; [|by exists []].
  exists (c :: b). split; [by constructor|]. cbn [app]. by f_equal.
Qed.

Lemma span_digits_split l : l = (span_digits l).1 ++ (span_digits l).2.
Proof. induction l as [|c l IH]; cbn [span_digits]; [done|]. case_bool_decide; [|done]. destruct (span_digits l). cbn in *. by f_equal. Qed.

Lemma digit_no_space c : is_digit c -> is_space c = false.
Proof. unfold is_digit, is_space. intros Hc. rewrite (proj2 (Z.eqb_neq _ _)), (proj2 (Z.leb_gt c 13)) by lia. by rewrite andb_false_r. Qed.

Definition saturated (v : Z) : Z := if v <? - 2 ^ 63 then - 2 ^ 63 else if 2 ^ 63 <=? v then 2 ^ 63 - 1 else v.
Definition in_i64 (v : Z) : bool := (- 2 ^ 63 <=? v) && (v <? 2 ^ 63).

Lemma strtoll_integer text v : integer_text text v -> strtoll text = (saturated v, negb (in_i64 v), []).
Proof.
  intros [blanks sign digits Hb Hs Hd Hne]. unfold strtoll.
  assert (match digits with c :: _ => is_space c = false | [] => True end) as Hd1 by (destruct Hd; [done|by apply digit_no_space]).
  assert (match digits with c :: _ => c <> 43 /\ c <> 45 | [] => True end) as Hd2 by (destruct Hd as [|c ? Hc]; [done|unfold is_digit in Hc; lia]).
  assert (forall v rest, (if v <? - 2 ^ 63 then (- 2 ^ 63, true, rest) else if 2 ^ 63 <=? v then (2 ^ 63 - 1, true, rest) else (v, false, rest))
            = (saturated v, negb (in_i64 v), rest : bytes)) as Hsat.
  { intros u rest. unfold saturated, in_i64. destruct (Z.ltb_spec u (- 2 ^ 63)); [by rewrite (proj2 (Z.leb_gt _ _)) by lia|].
    rewrite (proj2 (Z.leb_le (- 2 ^ 63) u)) by lia. cbn [andb]. destruct (Z.leb_spec (2 ^ 63) u); [by rewrite (proj2 (Z.ltb_ge _ _)) by lia|].
    by rewrite (proj2 (Z.ltb_lt _ _)) by lia. }
  repeat (apply elem_of_cons in Hs as [->|Hs]); [| | |by apply not_elem_of_nil in Hs].
  - cbn [app]. rewrite (skip_spaces_app blanks digits) by done. destruct digits as [|c digits]; [done|]. destruct Hd2 as [H1 H2].
    assert (match c :: digits with 45 :: text => (true, text) | 43 :: text => (false, text) | _ => (false, c :: digits) end = (false, c :: digits)) as ->.
    { destruct (decide (c = 45)); [done|]. destruct (decide (c = 43)); [done|]. repeat case_match; congruence. }
    rewrite span_digits_all by done. rewrite Hsat. by rewrite decide_False by done.
  - rewrite (skip_spaces_app blanks ([43] ++ digits)) by done. cbn [app]. rewrite span_digits_all by done.
    destruct digits as [|c digits]; [done|]. rewrite Hsat. by rewrite decide_False by done.
  - rewrite (skip_spaces_app blanks ([45] ++ digits)) by done. cbn [app]. rewrite span_digits_all by done.
    destruct digits as [|c digits]; [done|]. rewrite Hsat. by rewrite decide_True by done.
Qed.

Lemma strtoll_sound text v : strtoll text = (v, false, []) -> text <> [] -> integer_text text v /\ in_i64 v = true.
Proof.
  unfold strtoll. intros E Hne. destruct (skip_spaces_split text) as (blanks & Hb & Et). revert E Et.
  generalize (skip_spaces text) as t. intros t E Et.
  destruct (match t with 45 :: text => (true, text) | 43 :: text => (false, text) | _ => (false, t) end) as [minus ds] eqn:Em.
  pose proof (span_digits_split ds) as Es. pose proof (span_digits_ok ds) as Hd. destruct (span_digits ds) as [digits rest]. cbn [fst snd] in *.
  destruct digits as [|d digits]; [by injection E as <- ->|]. revert E. set (u := if minus then _ else _).
  destruct (Z.ltb_spec u (- 2 ^ 63)); [done|]. destruct (Z.leb_spec (2 ^ 63) u); [done|]. intros [= <- ->].
  rewrite app_nil_r in Es. subst ds.
  split; [|unfold in_i64; apply andb_true_intro; split; [apply Z.leb_le; lia|apply Z.ltb_lt; lia]].
  assert (exists sign, t = sign ++ d :: digits /\ sign ∈ [[]; [43]; [45]] /\ minus = bool_decide (sign = [45])) as (sign & -> & Hs & Hm).
  { destruct t as [|c t]; [by injection Em|]. destruct (decide (c = 45)) as [->|H1].
    - injection Em as <- ->. exists [45]. split; [done|]. split; [by right; right; left|done].
    - destruct (decide (c = 43)) as [->|H2].
      + injection Em as <- ->. exists [43]. split; [done|]. split; [by right; left|done].
      + assert ((false, c :: t) = (minus, d :: digits)) as [= <- -> ->] by (rewrite <- Em; repeat case_match; congruence).
        exists []. split; [done|]. split; [by left|done]. }
  rewrite Et. subst u. pose proof (IntegerText blanks sign (d :: digits) Hb Hs Hd ltac:(done)) as Hi.
  subst minus. case_bool_decide as Hsg; [by rewrite decide_True in Hi|by rewrite decide_False in Hi].
Qed.

Lemma integer_text_some text v : integer_text text v -> text <> [].
Proof. intros [blanks sign digits _ _ _ Hne] E. by apply app_eq_nil in E as [_ [_ ?]%app_eq_nil]. Qed.

(** A cell reads as a signed integer exactly when its text is one of 64 bits: blanks, a
    sign and digits and nothing after them.  Anything else is a PARSE error, and NULL or
    a cell outside the result is NOT_FOUND. *)
Theorem pg_i64_exact res row col :
  match idx_pg_result_text res row col with
  | None => idx_pg_result_i64 res row col = Err IDX_ERR_NOT_FOUND
  | Some text =>
      (forall v, idx_pg_result_i64 res row col = Ok v <-> integer_text text v /\ in_i64 v = true) /\
      (forall e, idx_pg_result_i64 res row col = Err e -> e = IDX_ERR_PARSE)
  end.
Proof.
  unfold idx_pg_result_i64. destruct (idx_pg_result_text res row col) as [text|]; [|done]. split.
  - intros v. split.
    + destruct (strtoll text) as [[u erange] rest] eqn:E. destruct erange; [done|]. case_bool_decide as H1; [done|].
      case_bool_decide as H2; [|done]. subst rest. intros [= ->]. apply strtoll_sound; [done|]. by intros ->.
    + intros [Ht Hv]. rewrite (strtoll_integer text v Ht), Hv. cbn [negb orb].
      rewrite bool_decide_eq_false_2 by (intros Heq; by eapply integer_text_some). cbn [orb].
      unfold saturated. unfold in_i64 in Hv. apply andb_prop in Hv as [H1%Z.leb_le H2%Z.ltb_lt].
      rewrite (proj2 (Z.ltb_ge _ _)) by lia. by rewrite (proj2 (Z.leb_gt _ _)) by lia.
  - intros e. destruct (strtoll text) as [[u erange] rest]. destruct (_ || _); [|done]. by intros [= <-].
Qed.

(** Only blanks and tabs are skipped before the look for a minus sign, and [strtoull]
    skips more: a negative number after a line break is read as a huge one. *)
Lemma pg_u64_reads_negative :
  idx_pg_result_u64 (Some (PgRes PGRES_TUPLES_OK 1 [[Some [10; 45; 49]]] None)) 0 0 = Ok (2 ^ 64 - 1).
Proof. vm_compute. done. Qed.

(** ** What the store relies on *)

(** A connection, as its client uses it: with the log of its requests and the number of
    parameters of the statement registered under a name. *)
Class PgOps (C : Type) := {
  pg_exec : C -> bytes -> result unit * C;
  pg_prepare : C -> bytes -> bytes -> Z -> result unit * C;
  pg_exec_prepared : C -> bytes -> Z -> list (option bytes) -> result unit * C;
  pg_log : C -> list (pg_request * bool);
  pg_params : C -> bytes -> option Z
}.

(** A request is logged once, accepted when the status is OK; a statement that is
    registered and given its number of parameters is executed, another is refused; a
    preparation that returns OK registers, and no call forgets. *)
Class PgSpec (C : Type) `{PgOps C} (pg_ok : C -> Prop) := {
  pg_exec_spec : forall c sql, pg_ok c ->
    let '(r, c') := pg_exec c sql in
    pg_ok c' /\ (forall name, pg_params c' name = pg_params c name) /\
    pg_log c' = pg_log c ++ [(Exec sql, bool_decide (r = Ok tt))];
  pg_exec_prepared_spec : forall c name values, pg_ok c ->
    let '(r, c') := pg_exec_prepared c name (size values) values in
    pg_ok c' /\ (forall name, pg_params c' name = pg_params c name) /\
    if bool_decide (pg_params c name = Some (size values))
    then pg_log c' = pg_log c ++ [(ExecPrepared name values, bool_decide (r = Ok tt))]
    else pg_log c' = pg_log c /\ r = Err IDX_ERR_INVALID_ARG;
  pg_prepare_spec : forall c name sql n, pg_ok c -> 0 <= n ->
    let '(r, c') := pg_prepare c name sql n in
    pg_ok c' /\ (exists b, pg_log c' = pg_log c ++ [(Prepare name sql n, b)]) /\
    match r with
    | Ok _ => forall name', pg_params c' name' = if decide (name' = name) then Some n else pg_params c name'
    | Err _ => forall name', pg_params c' name' = pg_params c name'
    end
}.

#[export] Instance pg_conn_ops : PgOps (idx_pg_conn * link) := {|
  pg_exec st sql := discard (idx_pg_exec (Some sql) false) st;
  pg_prepare st name sql n := idx_pg_prepare (Some name) (Some sql) n st;
  pg_exec_prepared st name n values := discard (idx_pg_exec_prepared (Some name) n (Some values) false) st;
  pg_log st := said st.2;
  pg_params st name := snd <$> entries (remembered st.1) !! name
|}.

Definition conn_ok (st : idx_pg_conn * link) : Prop := vec_ok (prepared st.1) /\ NoDup (ps_name <$> remembered st.1).


#[export] Instance pg_conn_spec : PgSpec (idx_pg_conn * link) conn_ok.
Proof.
  split.
  - intros [c w] sql Hok. pose proof (exec_asks sql c w) as H. cbn [pg_exec pg_conn_ops]. unfold discard.
    destruct (idx_pg_exec _ _ _) as [r [c' w']]. destruct H as (-> & b & Hs & Hr). split; [done|]. split; [done|].
    cbn [pg_log pg_conn_ops snd]. rewrite Hs. do 3 f_equal. destruct r; [by rewrite Hr, bool_decide_eq_true_2|].
    destruct Hr as [-> _]. by rewrite bool_decide_eq_false_2.
  - intros [c w] name values Hok. pose proof (exec_prepared_asks name values c w) as H. cbn [pg_exec_prepared pg_conn_ops]. unfold discard.
    destruct (idx_pg_exec_prepared _ _ _ _ _) as [r [c' w']]. destruct H as (-> & H). split; [done|]. split; [done|].
    cbn [pg_log pg_params pg_conn_ops fst snd]. destruct (bool_decide _).
    + destruct H as (b & Hs & Hr). rewrite Hs. do 3 f_equal. destruct r; [by rewrite Hr, bool_decide_eq_true_2|].
      destruct Hr as [-> _]. by rewrite bool_decide_eq_false_2.
    + by destruct H as [-> ->].
  - intros [c w] name sql n [Hv Hn] Hpos. cbn [pg_prepare pg_conn_ops]. unfold idx_pg_prepare. rewrite (proj2 (Z.ltb_ge _ _)) by done.
    pose proof (prepare_asks (PreparedStmt name sql n) c w) as Hp.
    destruct (prepare_stmt _ _) as [[[]|e] [c1 w1]]; destruct Hp as (b & -> & Hs & Hb); cbn [ps_name ps_sql ps_n_params] in Hs.
    + pose proof (remember_spec name sql n c w1 Hv Hn) as Hr. destruct (remember _ _ _ _) as [r [c2 w2]].
      destruct Hr as (Hsd & _ & Hv2 & Hr). cbn [pg_log pg_params pg_conn_ops fst snd].
      destruct r as [[]|e].
      * destruct Hr as [Hn2 He2]. split; [done|]. split; [exists b; by rewrite Hsd|]. intros name'. rewrite He2.
        destruct (decide (name' = name)) as [->|Hne]; [by rewrite lookup_insert_eq|by rewrite lookup_insert_ne].
      * destruct Hr as [_ ->]. split; [done|]. split; [exists b; by rewrite Hsd|done].
    + split; [done|]. split; [by exists b|done].
Qed.

(** *** Witnesses *)

Definition accepting : answer := Answer (Some (PgRes PGRES_COMMAND_OK 0 [] None)) true.

(** A registration, a connection that drops, a reset, and the statement executed. *)
Definition some_ops : list pg_op :=
  [DoPrepare (lit "put") (lit "INSERT") 1; DoExecPrepared (lit "put") [None]; DoReset; DoExecPrepared (lit "put") [None]].
Definition some_link : link := Link [accepting; Answer None false; Answer None true; accepting; accepting] true [] [].

Lemma pg_session_history_witness :
  let '(rs, (c, w)) := pg_run some_ops (PgConn (idx_vec_init sizeof_prepared_stmt), some_link) in
  rs = [Ok tt; Err IDX_ERR_NETWORK; Ok tt; Ok tt] /\ live (said w) !! lit "put" = Some (lit "INSERT", 1).
Proof.
  pose proof (pg_session_history some_ops some_link eq_refl) as H.
  assert ((pg_run some_ops (PgConn (idx_vec_init sizeof_prepared_stmt), some_link)).1 = [Ok tt; Err IDX_ERR_NETWORK; Ok tt; Ok tt]) as Hr
    by (by vm_compute).
  destruct (pg_run _ _) as [rs [c w]]. cbn [fst] in Hr. subst rs. split; [done|]. apply H; by vm_compute.
Defined.
