(* ===== verification/PgSchema.v ===== *)
(** * pg_store.c: the tables and the statements

    The statements that create the confirmed tier's tables and those that are prepared on
    them, as the source has them, and what they say: the columns of a table with their
    types and whether they may be NULL, its primary key, the columns and the casts of an
    insert.  The parameters of a prepared statement are texts, so the server reads each
    by its cast. *)

From S2P Require Import Prelude Decimal ChRows ChSchema.
#[local] Open Scope Z_scope.

(** ** The statements *)

(** src/src/pg_store.c:36-43 [g_schema] *)
Definition create_blocks : bytes := concat (map lit
  ["CREATE TABLE IF NOT EXISTS blocks (";
   "  slot BIGINT PRIMARY KEY,";
   "  blockhash BYTEA NOT NULL,";
   "  previous_blockhash BYTEA NOT NULL,";
   "  parent_slot BIGINT NOT NULL,";
   "  block_time BIGINT,";
   "  block_height BIGINT,";
   "  transaction_count INTEGER NOT NULL)"]%string).

(** src/src/pg_store.c:45-51 [g_schema] *)
Definition create_sol_balances : bytes := concat (map lit
  ["CREATE TABLE IF NOT EXISTS sol_balances (";
   "  account BYTEA PRIMARY KEY,";
   "  slot BIGINT NOT NULL,";
   "  lamports BIGINT NOT NULL,";
   "  delta BIGINT NOT NULL,";
   "  transaction_index INTEGER NOT NULL,";
   "  signature BYTEA NOT NULL)"]%string).

(** src/src/pg_store.c:52-52 [g_schema] *)
Definition index_sol_balances_slot : bytes := concat (map lit
  ["CREATE INDEX IF NOT EXISTS sol_balances_slot ON sol_balances (slot)"]%string).

(** src/src/pg_store.c:54-64 [g_schema] *)
Definition create_token_balances : bytes := concat (map lit
  ["CREATE TABLE IF NOT EXISTS token_balances (";
   "  account BYTEA PRIMARY KEY,";
   "  slot BIGINT NOT NULL,";
   "  mint BYTEA NOT NULL,";
   "  owner BYTEA,";
   "  amount NUMERIC(20,0) NOT NULL,";
   "  previous NUMERIC(20,0) NOT NULL,";
   "  decimals SMALLINT NOT NULL,";
   "  closed BOOLEAN NOT NULL,";
   "  transaction_index INTEGER NOT NULL,";
   "  signature BYTEA NOT NULL)"]%string).

(** src/src/pg_store.c:65-65 [g_schema] *)
Definition index_token_balances_slot : bytes := concat (map lit
  ["CREATE INDEX IF NOT EXISTS token_balances_slot ON token_balances (slot)"]%string).

(** src/src/pg_store.c:67-77 [g_schema] *)
Definition create_sol_transfers : bytes := concat (map lit
  ["CREATE TABLE IF NOT EXISTS sol_transfers (";
   "  slot BIGINT NOT NULL,";
   "  transaction_index INTEGER NOT NULL,";
   "  instruction_index INTEGER NOT NULL,";
   "  inner_index INTEGER NOT NULL,";
   "  signature BYTEA NOT NULL,";
   "  source BYTEA NOT NULL,";
   "  destination BYTEA NOT NULL,";
   "  authority BYTEA,";
   "  amount NUMERIC(20,0) NOT NULL,";
   "  PRIMARY KEY (slot, transaction_index, instruction_index, inner_index))"]%string).

(** src/src/pg_store.c:79-95 [g_schema] *)
Definition create_token_transfers : bytes := concat (map lit
  ["CREATE TABLE IF NOT EXISTS token_transfers (";
   "  slot BIGINT NOT NULL,";
   "  transaction_index INTEGER NOT NULL,";
   "  instruction_index INTEGER NOT NULL,";
   "  inner_index INTEGER NOT NULL,";
   "  signature BYTEA NOT NULL,";
   "  kind SMALLINT NOT NULL,";
   "  source BYTEA NOT NULL,";
   "  destination BYTEA NOT NULL,";
   "  authority BYTEA,";
   "  mint BYTEA,";
   "  source_owner BYTEA,";
   "  destination_owner BYTEA,";
   "  amount NUMERIC(20,0) NOT NULL,";
   "  fee NUMERIC(20,0) NOT NULL,";
   "  decimals SMALLINT,";
   "  PRIMARY KEY (slot, transaction_index, instruction_index, inner_index))"]%string).

(** src/src/pg_store.c:97-117 [g_schema] *)
Definition create_swaps : bytes := concat (map lit
  ["CREATE TABLE IF NOT EXISTS swaps (";
   "  slot BIGINT NOT NULL,";
   "  transaction_index INTEGER NOT NULL,";
   "  instruction_index INTEGER NOT NULL,";
   "  inner_index INTEGER NOT NULL,";
   "  signature BYTEA NOT NULL,";
   "  kind SMALLINT NOT NULL,";
   "  venue SMALLINT NOT NULL,";
   "  amount_source SMALLINT NOT NULL,";
   "  pool BYTEA,";
   "  trader BYTEA,";
   "  input_mint BYTEA,";
   "  input_amount NUMERIC(20,0),";
   "  input_decimals SMALLINT,";
   "  output_mint BYTEA,";
   "  output_amount NUMERIC(20,0),";
   "  output_decimals SMALLINT,";
   "  price DOUBLE PRECISION,";
   "  quote SMALLINT,";
   "  block_time BIGINT,";
   "  PRIMARY KEY (slot, transaction_index, instruction_index, inner_index))"]%string).

(** src/src/pg_store.c:118-118 [g_schema] *)
Definition index_swaps_pool : bytes := concat (map lit
  ["CREATE INDEX IF NOT EXISTS swaps_pool ON swaps (pool)"]%string).

(** src/src/pg_store.c:120-130 [g_schema] *)
Definition create_pools : bytes := concat (map lit
  ["CREATE TABLE IF NOT EXISTS pools (";
   "  address BYTEA PRIMARY KEY,";
   "  venue SMALLINT NOT NULL,";
   "  mint_a BYTEA,";
   "  decimals_a SMALLINT,";
   "  mint_b BYTEA,";
   "  decimals_b SMALLINT,";
   "  first_seen_slot BIGINT NOT NULL,";
   "  swap_count BIGINT NOT NULL,";
   "  creation_slot BIGINT,";
   "  creator BYTEA)"]%string).

(** src/src/pg_store.c:131-131 [g_schema] *)
Definition index_pools_slot : bytes := concat (map lit
  ["CREATE INDEX IF NOT EXISTS pools_slot ON pools (first_seen_slot)"]%string).

(** src/src/pg_store.c:133-139 [g_schema] *)
Definition create_tokens : bytes := concat (map lit
  ["CREATE TABLE IF NOT EXISTS tokens (";
   "  mint BYTEA PRIMARY KEY,";
   "  decimals SMALLINT,";
   "  name TEXT,";
   "  symbol TEXT,";
   "  uri TEXT,";
   "  first_seen_slot BIGINT NOT NULL)"]%string).

(** src/src/pg_store.c:140-140 [g_schema] *)
Definition index_tokens_slot : bytes := concat (map lit
  ["CREATE INDEX IF NOT EXISTS tokens_slot ON tokens (first_seen_slot)"]%string).

(** src/src/pg_store.c:142-157 [g_schema] *)
Definition create_bars : bytes := concat (map lit
  ["CREATE TABLE IF NOT EXISTS bars (";
   "  pool BYTEA NOT NULL,";
   "  interval SMALLINT NOT NULL,";
   "  bucket BIGINT NOT NULL,";
   "  quote SMALLINT NOT NULL,";
   "  open DOUBLE PRECISION NOT NULL,";
   "  high DOUBLE PRECISION NOT NULL,";
   "  low DOUBLE PRECISION NOT NULL,";
   "  close DOUBLE PRECISION NOT NULL,";
   "  base_volume DOUBLE PRECISION NOT NULL,";
   "  quote_volume DOUBLE PRECISION NOT NULL,";
   "  swap_count BIGINT NOT NULL,";
   "  open_seq_key BYTEA NOT NULL,";
   "  close_seq_key BYTEA NOT NULL,";
   "  close_seq_slot BIGINT NOT NULL,";
   "  PRIMARY KEY (pool, interval, bucket))"]%string).

(** src/src/pg_store.c:158-158 [g_schema] *)
Definition index_bars_close_slot : bytes := concat (map lit
  ["CREATE INDEX IF NOT EXISTS bars_close_slot ON bars (close_seq_slot)"]%string).

(** src/src/pg_store.c:35-35 [g_schema]: the statements, in order. *)
Definition g_schema : list bytes :=
  [create_blocks; create_sol_balances; index_sol_balances_slot; create_token_balances;
   index_token_balances_slot; create_sol_transfers; create_token_transfers; create_swaps;
   index_swaps_pool; create_pools; index_pools_slot; create_tokens;
   index_tokens_slot; create_bars; index_bars_close_slot].

(** src/src/pg_store.c:163-163 [idx_pg_confirmed_schema] *)
Definition idx_pg_confirmed_schema : list bytes := g_schema.

(** src/src/pg_store.c:168-172 [stmt_def] *)
Record stmt_def := StmtDef { sd_name : bytes; sd_sql : bytes; sd_n_params : Z }.

(** src/src/pg_store.c:175-185 [g_stmts] *)
Definition stmt_put_block : stmt_def := StmtDef (lit "put_block") (concat (map lit
  ["INSERT INTO blocks(slot, blockhash, previous_blockhash, parent_slot,";
   " block_time, block_height, transaction_count)";
   " VALUES($1::bigint,$2::bytea,$3::bytea,$4::bigint,$5::bigint,$6::bigint,";
   "$7::int)";
   " ON CONFLICT (slot) DO UPDATE SET blockhash=excluded.blockhash,";
   " previous_blockhash=excluded.previous_blockhash,";
   " parent_slot=excluded.parent_slot, block_time=excluded.block_time,";
   " block_height=excluded.block_height,";
   " transaction_count=excluded.transaction_count"]%string)) 7.

(** src/src/pg_store.c:189-197 [g_stmts] *)
Definition stmt_put_sol_balance : stmt_def := StmtDef (lit "put_sol_balance") (concat (map lit
  ["INSERT INTO sol_balances(account, slot, lamports, delta,";
   " transaction_index, signature)";
   " VALUES($1::bytea,$2::bigint,$3::bigint,$4::bigint,$5::int,$6::bytea)";
   " ON CONFLICT (account) DO UPDATE SET slot=excluded.slot,";
   " lamports=excluded.lamports, delta=excluded.delta,";
   " transaction_index=excluded.transaction_index,";
   " signature=excluded.signature WHERE sol_balances.slot <= excluded.slot"]%string)) 6.

(** src/src/pg_store.c:199-209 [g_stmts] *)
Definition stmt_put_token_balance : stmt_def := StmtDef (lit "put_token_balance") (concat (map lit
  ["INSERT INTO token_balances(account, slot, mint, owner, amount, previous,";
   " decimals, closed, transaction_index, signature)";
   " VALUES($1::bytea,$2::bigint,$3::bytea,$4::bytea,$5::numeric,$6::numeric,";
   "$7::smallint,$8::boolean,$9::int,$10::bytea)";
   " ON CONFLICT (account) DO UPDATE SET slot=excluded.slot,";
   " mint=excluded.mint, owner=excluded.owner, amount=excluded.amount,";
   " previous=excluded.previous, decimals=excluded.decimals,";
   " closed=excluded.closed, transaction_index=excluded.transaction_index,";
   " signature=excluded.signature WHERE token_balances.slot <= excluded.slot"]%string)) 10.

(** src/src/pg_store.c:211-218 [g_stmts] *)
Definition stmt_put_sol_transfer : stmt_def := StmtDef (lit "put_sol_transfer") (concat (map lit
  ["INSERT INTO sol_transfers(slot, transaction_index, instruction_index,";
   " inner_index, signature, source, destination, authority, amount)";
   " VALUES($1::bigint,$2::int,$3::int,$4::int,$5::bytea,$6::bytea,$7::bytea,";
   "$8::bytea,$9::numeric)";
   " ON CONFLICT (slot, transaction_index, instruction_index, inner_index)";
   " DO NOTHING"]%string)) 9.

(** src/src/pg_store.c:220-229 [g_stmts] *)
Definition stmt_put_token_transfer : stmt_def := StmtDef (lit "put_token_transfer") (concat (map lit
  ["INSERT INTO token_transfers(slot, transaction_index, instruction_index,";
   " inner_index, signature, kind, source, destination, authority, mint,";
   " source_owner, destination_owner, amount, fee, decimals)";
   " VALUES($1::bigint,$2::int,$3::int,$4::int,$5::bytea,$6::smallint,";
   "$7::bytea,$8::bytea,$9::bytea,$10::bytea,$11::bytea,$12::bytea,";
   "$13::numeric,$14::numeric,$15::smallint)";
   " ON CONFLICT (slot, transaction_index, instruction_index, inner_index)";
   " DO NOTHING"]%string)) 15.

(** src/src/pg_store.c:231-242 [g_stmts] *)
Definition stmt_put_swap : stmt_def := StmtDef (lit "put_swap") (concat (map lit
  ["INSERT INTO swaps(slot, transaction_index, instruction_index,";
   " inner_index, signature, kind, venue, amount_source, pool, trader,";
   " input_mint, input_amount, input_decimals, output_mint, output_amount,";
   " output_decimals, price, quote, block_time)";
   " VALUES($1::bigint,$2::int,$3::int,$4::int,$5::bytea,$6::smallint,";
   "$7::smallint,$8::smallint,$9::bytea,$10::bytea,$11::bytea,$12::numeric,";
   "$13::smallint,$14::bytea,$15::numeric,$16::smallint,$17::double precision,";
   "$18::smallint,$19::bigint)";
   " ON CONFLICT (slot, transaction_index, instruction_index, inner_index)";
   " DO NOTHING"]%string)) 19.

(** src/src/pg_store.c:246-260 [g_stmts] *)
Definition stmt_put_pool : stmt_def := StmtDef (lit "put_pool") (concat (map lit
  ["INSERT INTO pools(address, venue, mint_a, decimals_a, mint_b, decimals_b,";
   " first_seen_slot, swap_count, creation_slot, creator)";
   " VALUES($1::bytea,$2::smallint,$3::bytea,$4::smallint,$5::bytea,";
   "$6::smallint,$7::bigint,$8::bigint,$9::bigint,$10::bytea)";
   " ON CONFLICT (address) DO UPDATE SET venue=excluded.venue,";
   " mint_a=coalesce(pools.mint_a, excluded.mint_a),";
   " decimals_a=coalesce(pools.decimals_a, excluded.decimals_a),";
   " mint_b=coalesce(pools.mint_b, excluded.mint_b),";
   " decimals_b=coalesce(pools.decimals_b, excluded.decimals_b),";
   " first_seen_slot=least(pools.first_seen_slot, excluded.first_seen_slot),";
   " swap_count=greatest(pools.swap_count, excluded.swap_count),";
   " creation_slot=coalesce(pools.creation_slot, excluded.creation_slot),";
   " creator=coalesce(pools.creator, excluded.creator)"]%string)) 10.

(** src/src/pg_store.c:262-271 [g_stmts] *)
Definition stmt_put_token : stmt_def := StmtDef (lit "put_token") (concat (map lit
  ["INSERT INTO tokens(mint, decimals, name, symbol, uri, first_seen_slot)";
   " VALUES($1::bytea,$2::smallint,$3::text,$4::text,$5::text,$6::bigint)";
   " ON CONFLICT (mint) DO UPDATE SET";
   " decimals=coalesce(tokens.decimals, excluded.decimals),";
   " name=coalesce(tokens.name, excluded.name),";
   " symbol=coalesce(tokens.symbol, excluded.symbol),";
   " uri=coalesce(tokens.uri, excluded.uri),";
   " first_seen_slot=least(tokens.first_seen_slot, excluded.first_seen_slot)"]%string)) 6.

(** src/src/pg_store.c:275-297 [g_stmts] *)
Definition stmt_put_bar : stmt_def := StmtDef (lit "put_bar") (concat (map lit
  ["INSERT INTO bars(pool, interval, bucket, quote, open, high, low, close,";
   " base_volume, quote_volume, swap_count, open_seq_key, close_seq_key,";
   " close_seq_slot)";
   " VALUES($1::bytea,$2::smallint,$3::bigint,$4::smallint,";
   "$5::double precision,$6::double precision,$7::double precision,";
   "$8::double precision,$9::double precision,$10::double precision,";
   "$11::bigint,$12::bytea,$13::bytea,$14::bigint)";
   " ON CONFLICT (pool, interval, bucket) DO UPDATE SET";
   " high=greatest(bars.high, excluded.high),";
   " low=least(bars.low, excluded.low),";
   " base_volume=bars.base_volume + excluded.base_volume,";
   " quote_volume=bars.quote_volume + excluded.quote_volume,";
   " swap_count=bars.swap_count + excluded.swap_count,";
   " quote=excluded.quote,";
   " open=CASE WHEN excluded.open_seq_key < bars.open_seq_key";
   " THEN excluded.open ELSE bars.open END,";
   " open_seq_key=least(bars.open_seq_key, excluded.open_seq_key),";
   " close=CASE WHEN excluded.close_seq_key > bars.close_seq_key";
   " THEN excluded.close ELSE bars.close END,";
   " close_seq_key=greatest(bars.close_seq_key, excluded.close_seq_key),";
   " close_seq_slot=greatest(bars.close_seq_slot, excluded.close_seq_slot)"]%string)) 14.

(** src/src/pg_store.c:303-303 [g_stmts] *)
Definition stmt_del_blocks : stmt_def := StmtDef (lit "del_blocks") (concat (map lit
  ["DELETE FROM blocks WHERE slot >= $1::bigint"]%string)) 1.

(** src/src/pg_store.c:304-304 [g_stmts] *)
Definition stmt_del_sol_balances : stmt_def := StmtDef (lit "del_sol_balances") (concat (map lit
  ["DELETE FROM sol_balances WHERE slot >= $1::bigint"]%string)) 1.

(** src/src/pg_store.c:305-306 [g_stmts] *)
Definition stmt_del_token_balances : stmt_def := StmtDef (lit "del_token_balances") (concat (map lit
  ["DELETE FROM token_balances WHERE slot >= $1::bigint"]%string)) 1.

(** src/src/pg_store.c:307-308 [g_stmts] *)
Definition stmt_del_sol_transfers : stmt_def := StmtDef (lit "del_sol_transfers") (concat (map lit
  ["DELETE FROM sol_transfers WHERE slot >= $1::bigint"]%string)) 1.

(** src/src/pg_store.c:309-310 [g_stmts] *)
Definition stmt_del_token_transfers : stmt_def := StmtDef (lit "del_token_transfers") (concat (map lit
  ["DELETE FROM token_transfers WHERE slot >= $1::bigint"]%string)) 1.

(** src/src/pg_store.c:311-311 [g_stmts] *)
Definition stmt_del_swaps : stmt_def := StmtDef (lit "del_swaps") (concat (map lit
  ["DELETE FROM swaps WHERE slot >= $1::bigint"]%string)) 1.

(** src/src/pg_store.c:312-312 [g_stmts] *)
Definition stmt_del_pools : stmt_def := StmtDef (lit "del_pools") (concat (map lit
  ["DELETE FROM pools WHERE first_seen_slot >= $1::bigint"]%string)) 1.

(** src/src/pg_store.c:313-313 [g_stmts] *)
Definition stmt_del_tokens : stmt_def := StmtDef (lit "del_tokens") (concat (map lit
  ["DELETE FROM tokens WHERE first_seen_slot >= $1::bigint"]%string)) 1.

(** src/src/pg_store.c:314-314 [g_stmts] *)
Definition stmt_del_bars : stmt_def := StmtDef (lit "del_bars") (concat (map lit
  ["DELETE FROM bars WHERE close_seq_slot >= $1::bigint"]%string)) 1.

(** src/src/pg_store.c:174-174 [g_stmts]: the statements, in order. *)
Definition g_stmts : list stmt_def :=
  [stmt_put_block; stmt_put_sol_balance; stmt_put_token_balance; stmt_put_sol_transfer; stmt_put_token_transfer;
   stmt_put_swap; stmt_put_pool; stmt_put_token; stmt_put_bar; stmt_del_blocks;
   stmt_del_sol_balances; stmt_del_token_balances; stmt_del_sol_transfers; stmt_del_token_transfers; stmt_del_swaps;
   stmt_del_pools; stmt_del_tokens; stmt_del_bars].

(** src/src/pg_store.c:319-322 [g_reorg_deletes] *)
Definition g_reorg_deletes : list bytes := map lit
  ["del_blocks"; "del_sol_balances"; "del_token_balances"; "del_sol_transfers"; "del_token_transfers";
   "del_swaps"; "del_pools"; "del_tokens"; "del_bars"]%string.

(** ** What the statements say *)

Inductive pg_type := BIGINT | INTEGER | SMALLINT | NUMERIC20 | BYTEA | TEXT | BOOLEAN | DOUBLE.
#[export] Instance pg_type_eq_dec : EqDecision pg_type.
Proof. solve_decision. Defined.

(** A column: its name, its type, and whether it may be NULL. *)
Record pg_column := PgColumn { col_name : bytes; col_type : pg_type; col_null : bool }.
#[export] Instance pg_column_eq_dec : EqDecision pg_column.
Proof. solve_decision. Defined.

(** The types, by their names in a table and in a cast. *)
Definition type_names : list (bytes * pg_type) :=
  [(lit "BIGINT", BIGINT); (lit "INTEGER", INTEGER); (lit "SMALLINT", SMALLINT); (lit "NUMERIC(20,0)", NUMERIC20);
   (lit "BYTEA", BYTEA); (lit "TEXT", TEXT); (lit "BOOLEAN", BOOLEAN); (lit "DOUBLE PRECISION", DOUBLE)].
Definition cast_names : list (bytes * pg_type) :=
  [(lit "bigint", BIGINT); (lit "int", INTEGER); (lit "smallint", SMALLINT); (lit "numeric", NUMERIC20);
   (lit "bytea", BYTEA); (lit "text", TEXT); (lit "boolean", BOOLEAN); (lit "double precision", DOUBLE)].

Fixpoint trim (l : bytes) : bytes :=
  match l with 32 :: l' => trim l' | _ => l end.

(** The type a text begins with, and what follows it. *)
Definition type_of (l : bytes) : option (pg_type * bytes) :=
  (fun t => (t.2, drop (length t.1) l)) <$> List.find (fun t => bool_decide (take (length t.1) l = t.1)) type_names.

(** A column's declaration. *)
Definition column_decl (l : bytes) : option pg_column :=
  let l := trim l in
  let name := word l in
  '(t, rest) ← type_of (trim (drop (length name) l));
  Some (PgColumn name t (negb (bool_decide (trim rest = lit "NOT NULL" \/ trim rest = lit "PRIMARY KEY")))).

Definition is_key_clause (l : bytes) : bool := bool_decide (take 13 (trim l) = lit "PRIMARY KEY (").

(** Names between commas. *)
Definition names_in (l : bytes) : list bytes := trim <$> pieces (length l) l.

(** A table: its columns, and its primary key, of a column or of a clause of its own. *)
Definition table_of (sql : bytes) : option (list pg_column) :=
  let body := upto 0 (fun c => c =? 41) (after (lit "(") sql) in
  mapM column_decl (List.filter (fun l => negb (is_key_clause l)) (pieces (length body) body)).
Definition primary_key (sql : bytes) : list bytes :=
  let body := upto 0 (fun c => c =? 41) (after (lit "(") sql) in
  match List.filter is_key_clause (pieces (length body) body) with
  | clause :: _ => names_in (upto 0 (fun c => c =? 41) (after (lit "(") clause))
  | [] => word ∘ trim <$> List.filter (fun l => bool_decide (after (lit " PRIMARY KEY") (l ++ [0]) = [0])) (pieces (length body) body)
  end.

Definition created (sql : bytes) : bytes := word (after (lit "CREATE TABLE IF NOT EXISTS ") sql).

(** An insert: its table, its columns, its parameters with their casts, the columns whose
    conflict it handles. *)
Definition insert_table (sql : bytes) : bytes := upto 0 (fun c => c =? 40) (after (lit "INSERT INTO ") sql).
Definition insert_columns (sql : bytes) : list bytes := names_in (upto 0 (fun c => c =? 41) (after (lit "(") sql)).
Definition insert_casts (sql : bytes) : list (bytes * option pg_type) :=
  (fun l => (upto 0 (fun c => c =? 58) l,
             snd <$> List.find (fun t => bool_decide (t.1 = after (lit "::") l)) cast_names))
    <$> names_in (upto 0 (fun c => c =? 41) (after (lit " VALUES(") sql)).
Definition conflict_key (sql : bytes) : list bytes := names_in (upto 0 (fun c => c =? 41) (after (lit " ON CONFLICT (") sql)).

(** The table of a name, and a column of it. *)
Definition table_named (name : bytes) : option bytes := List.find (fun sql => bool_decide (created sql = name)) g_schema.
Definition columns_named (name : bytes) : list pg_column := default [] (table_named name ≫= table_of).

(** The [k]th parameter. *)
Definition parameter (k : nat) : bytes := 36 :: dec (Z.of_nat k).

Definition column_named (columns : list pg_column) (name : bytes) : option pg_column :=
  List.find (fun c => bool_decide (col_name c = name)) columns.

(** An insert is of its table: every column is one of the table, cast to the type it was
    declared with, the parameters are numbered in order and as many as are prepared, no
    column is left out but those that may be NULL, and it is by the primary key that a
    conflict is found. *)
Record insert_ok (d : stmt_def) : Prop := InsertOk {
  io_types : (fun name => col_type <$> column_named (columns_named (insert_table (sd_sql d))) name) <$> insert_columns (sd_sql d)
             = snd <$> insert_casts (sd_sql d);
  io_known : Forall is_Some (snd <$> insert_casts (sd_sql d));
  io_order : fst <$> insert_casts (sd_sql d) = parameter <$> seq 1 (length (insert_columns (sd_sql d)));
  io_count : size (insert_columns (sd_sql d)) = sd_n_params d;
  io_once : NoDup (insert_columns (sd_sql d));
  io_all : Forall (fun c => col_null c = true \/ col_name c ∈ insert_columns (sd_sql d)) (columns_named (insert_table (sd_sql d)));
  io_key : conflict_key (sd_sql d) = primary_key (default [] (table_named (insert_table (sd_sql d))));
  io_key_there : Forall (fun name => name ∈ insert_columns (sd_sql d)) (conflict_key (sd_sql d))
}.

Definition g_inserts : list stmt_def := take 9 g_stmts.

Lemma statements_ok : Forall insert_ok g_inserts.
Proof.
  repeat (apply Forall_cons; split;
    [split; [vm_compute; reflexivity|decide_now|vm_compute; reflexivity|vm_compute; reflexivity|decide_now|decide_now
            |vm_compute; reflexivity|decide_now]|]).
  by apply Forall_nil_2.
Qed.

(** The names of the statements are different. *)
Lemma statement_names : NoDup (sd_name <$> g_stmts).
Proof. decide_now. Qed.

(** A deletion: its table, the column it compares and how, and with what. *)
Definition delete_of (sql : bytes) : bytes * bytes * bytes :=
  let l := after (lit "DELETE FROM ") sql in
  let table := word l in
  let l := after (lit " WHERE ") l in
  let column := word l in
  (table, column, drop (S (length column)) l).

Definition stmt_named (name : bytes) : option stmt_def := List.find (fun d => bool_decide (sd_name d = name)) g_stmts.

(** The tables, each with the column that says which slot a row is of. *)
Definition slot_columns : list (bytes * bytes) :=
  [(lit "blocks", lit "slot"); (lit "sol_balances", lit "slot"); (lit "token_balances", lit "slot");
   (lit "sol_transfers", lit "slot"); (lit "token_transfers", lit "slot"); (lit "swaps", lit "slot");
   (lit "pools", lit "first_seen_slot"); (lit "tokens", lit "first_seen_slot"); (lit "bars", lit "close_seq_slot")].

(** A reorg deletes from every table once, by its slot, at or above the parameter. *)
Lemma reorg_deletes_all :
  (fun name => delete_of (default [] (sd_sql <$> stmt_named name))) <$> g_reorg_deletes
  = (fun t => (t.1, t.2, lit ">= $1::bigint")) <$> slot_columns.
Proof. vm_compute. reflexivity. Qed.

(** These are all the tables, and those columns are theirs. *)
Lemma slot_columns_all :
  slot_columns.*1 = created <$> List.filter (fun sql => bool_decide (created sql <> [])) g_schema /\
  Forall (fun t => col_type <$> column_named (columns_named t.1) t.2 = Some BIGINT) slot_columns.
Proof. split; [vm_compute; reflexivity|decide_now]. Qed.
