(* ===== verification/PgStore.v ===== *)
(** * pg_store.c: the confirmed tier on PostgreSQL

    Every row of a write set is one execution of a prepared statement, its values as
    texts; a write or a reorg is one transaction, a prune one command.  The connection is
    [PgOps], of which [Pg] has one; the fields valid under a flag are options, a NULL
    value is [None].  The statements are [PgSchema]'s. *)

From Stdlib Require Import SpecFloat.
From S2P Require Import Prelude Radix Bytes Decimal Types Gaps Walk Balance Transfer VenueTypes Swap Token Pool.
From S2P Require Import Double DoubleText Price Bar Json Store ChRows ChSchema ChStore Vec Pg PgSchema.
#[local] Open Scope Z_scope.

(** ** Values *)

(** src/src/pg_store.c:329-329 [BYTEA_BUF] *)
Definition BYTEA_BUF (n : Z) : Z := 2 + 2 * n + 1.
(** src/src/pg_store.c:332-332 [NUM_BUF] *)
Definition NUM_BUF : Z := 24.
(** src/src/pg_store.c:333-333 [DBL_BUF] *)
Definition DBL_BUF : Z := 32.

Definition hex_digits : bytes := lit "0123456789abcdef".

(** src/src/pg_store.c:336-345 [bytea_hex] *)
Definition bytea_hex (data : bytes) : bytes :=
  [92; 120] ++ (data ≫= fun b => [hex_digits !!! Z.to_nat (Z.shiftr b 4); hex_digits !!! Z.to_nat (Z.land b 15)]).

(** src/src/pg_store.c:347-349 [pubkey_hex] *)
Definition pubkey_hex (key : idx_pubkey) : bytes := bytea_hex (pubkey_bytes key).

(** src/src/pg_store.c:353-357 [seq_key_hex] *)
Definition seq_key_hex (seq : idx_bar_seq) : bytes := bytea_hex (idx_bar_seq_pack seq).

(** src/src/pg_store.c:359-361 [u64_str] *)
Definition u64_str (v : Z) : bytes := printed NUM_BUF (dec v).
(** src/src/pg_store.c:362-364 [i64_str] *)
Definition i64_str (v : Z) : bytes := printed NUM_BUF (dec_signed v).
(** src/src/pg_store.c:365-365 [dbl_str] *)
Definition dbl_str (nan_bits : Z) (v : double) : bytes := printed DBL_BUF (general_17 nan_bits v).

(** ** The store *)

(** src/src/pg_store.c:369-371 [pg_store] *)
Record pg_store (C : Type) := PgStore { conn : C }.
Arguments PgStore {C}.
Arguments conn {C}.

(** src/src/pg_store.c:373-376 [store_name] *)
Definition store_name : bytes := lit "postgres-confirmed".

Section Store.
Context {C : Type} `{PgOps C} (nan_bits : Z).

Definition step : Type := pg_store C -> result unit * pg_store C.

(** [IDX_TRY(first); second] *)
Definition then_step (f g : step) : step := fun s =>
  match f s with
  | (Ok _, s) => g s
  | r => r
  end.
Infix ">->" := then_step (at level 66, right associativity).

(** A command of the connection. *)
Definition command (sql : bytes) : step := fun s => let '(r, c) := pg_exec (conn s) sql in (r, PgStore c).

(** src/src/pg_store.c:379-382 [put] *)
Definition put (name : bytes) (n : Z) (values : list (option bytes)) : step := fun s =>
  let '(r, c) := pg_exec_prepared (conn s) name n values in (r, PgStore c).

(** src/src/pg_store.c:384-403 [put_block] *)
Definition put_block (b : idx_store_block_row) : step :=
  put (lit "put_block") 7
    [Some (u64_str (sb_slot b)); Some (bytea_hex (hash_bytes (sb_blockhash b)));
     Some (bytea_hex (hash_bytes (sb_previous_blockhash b))); Some (u64_str (sb_parent_slot b));
     i64_str <$> sb_block_time b; u64_str <$> sb_block_height b; Some (u64_str (sb_transaction_count b))].

(** src/src/pg_store.c:405-418 [put_sol_balance] *)
Definition put_sol_balance (r : idx_store_sol_balance_row) : step :=
  put (lit "put_sol_balance") 6
    [Some (pubkey_hex (sol_account (ss_balance r))); Some (u64_str (ref_slot (ss_ref r)));
     Some (u64_str (lamports (ss_balance r))); Some (i64_str (delta (ss_balance r)));
     Some (u64_str (ref_transaction_index (ss_ref r))); Some (bytea_hex (signature_bytes (ref_signature (ss_ref r))))].

(** src/src/pg_store.c:420-446 [put_token_balance] *)
Definition put_token_balance (r : idx_store_token_balance_row) : step :=
  let b := st_balance r in
  put (lit "put_token_balance") 10
    [Some (pubkey_hex (ts_account b)); Some (u64_str (ref_slot (st_ref r))); Some (pubkey_hex (ts_mint b));
     pubkey_hex <$> ts_owner b; Some (u64_str (ts_amount b)); Some (u64_str (ts_previous b));
     Some (u64_str (ts_decimals b)); Some (if closed b then lit "true" else lit "false");
     Some (u64_str (ref_transaction_index (st_ref r))); Some (bytea_hex (signature_bytes (ref_signature (st_ref r))))].

(** src/src/pg_store.c:450-459 [event_path] *)
Definition event_path (ref : idx_store_ref) (at_ : stamp) : list (option bytes) :=
  [Some (u64_str (ref_slot ref)); Some (u64_str (ref_transaction_index ref)); Some (u64_str (instruction_index at_));
   Some (u64_str (if inner at_ then inner_pos at_ else 0)); Some (bytea_hex (signature_bytes (ref_signature ref)))].

(** src/src/pg_store.c:461-475 [put_sol_transfer] *)
Definition put_sol_transfer (r : idx_store_transfer_row) : step :=
  let t := stf_transfer r in
  put (lit "put_sol_transfer") 9
    (event_path (stf_ref r) (tr_at t) ++
     [Some (pubkey_hex (tr_source t)); Some (pubkey_hex (tr_destination t)); pubkey_hex <$> tr_authority t;
      Some (u64_str (tr_amount t))]).

(** src/src/pg_store.c:477-513 [put_token_transfer] *)
Definition put_token_transfer (r : idx_store_transfer_row) : step :=
  let t := stf_transfer r in
  put (lit "put_token_transfer") 15
    (event_path (stf_ref r) (tr_at t) ++
     [Some (u64_str (transfer_kind_value (tr_kind t))); Some (pubkey_hex (tr_source t)); Some (pubkey_hex (tr_destination t));
      pubkey_hex <$> tr_authority t; pubkey_hex <$> tr_mint t; pubkey_hex <$> tr_source_owner t;
      pubkey_hex <$> tr_destination_owner t; Some (u64_str (tr_amount t)); Some (u64_str (tr_fee t)); u64_str <$> tr_decimals t]).

(** src/src/pg_store.c:515-559 [put_swap] *)
Definition put_swap (r : idx_store_swap_row) : step :=
  let s := ssw_swap r in
  put (lit "put_swap") 19
    (event_path (ssw_ref r) (sr_at s) ++
     [Some (u64_str (swap_kind_value (sr_kind s))); Some (u64_str (venue_value (sr_venue s)));
      Some (u64_str (source_value (sr_source s))); pubkey_hex <$> sr_pool s; pubkey_hex <$> sr_user s;
      pubkey_hex <$> sr_input_mint s; u64_str <$> sr_input_amount s; u64_str <$> sr_input_decimals s;
      pubkey_hex <$> sr_output_mint s; u64_str <$> sr_output_amount s; u64_str <$> sr_output_decimals s;
      dbl_str nan_bits <$> price (ssw_price r);
      if priced (ssw_price r) then Some (u64_str (quote_value (pr_quote (ssw_price r)))) else None;
      i64_str <$> ssw_block_time r]).

(** src/src/pg_store.c:561-586 [put_pool] *)
Definition put_pool (p : idx_pool) : step :=
  put (lit "put_pool") 10
    [Some (pubkey_hex (address p)); Some (u64_str (venue_value (pool_venue p))); pubkey_hex <$> mint_a p;
     u64_str <$> decimals_a p; pubkey_hex <$> mint_b p; u64_str <$> decimals_b p; Some (u64_str (Pool.first_seen_slot p));
     Some (u64_str (swap_count p)); u64_str <$> creation_slot p; pubkey_hex <$> creator p].

(** src/src/pg_store.c:588-600 [put_token] *)
Definition put_token (t : idx_token) : step :=
  put (lit "put_token") 6
    [Some (pubkey_hex (tk_mint t)); u64_str <$> tk_decimals t; tk_name t; tk_symbol t; tk_uri t;
     Some (u64_str (Token.first_seen_slot t))].

(** src/src/pg_store.c:602-624 [put_bar] *)
Definition put_bar (b : idx_bar) : step :=
  put (lit "put_bar") 14
    [Some (pubkey_hex (bar_pool b)); Some (u64_str (interval_index (bar_interval b))); Some (i64_str (bar_bucket b));
     Some (u64_str (quote_value (bar_quote b))); Some (dbl_str nan_bits (open b)); Some (dbl_str nan_bits (high b));
     Some (dbl_str nan_bits (low b)); Some (dbl_str nan_bits (close b)); Some (dbl_str nan_bits (base_volume b));
     Some (dbl_str nan_bits (quote_volume b)); Some (u64_str (bar_swap_count b)); Some (seq_key_hex (open_seq b));
     Some (seq_key_hex (close_seq b)); Some (u64_str (bs_slot (close_seq b)))].

(** src/src/pg_store.c:634-639 [WRITE_ALL] *)
Fixpoint write_all {A} (fn : A -> step) (array : list A) : step :=
  match array with
  | [] => fun s => (Ok tt, s)
  | x :: array => fn x >-> write_all fn array
  end.

(** src/src/pg_store.c:628-658 [apply_write_set] *)
Definition apply_write_set (set : option idx_store_write_set) : step := fun s =>
  match set with
  | None => (Ok tt, s)
  | Some set =>
      (write_all put_block (ws_blocks set) >->
       write_all put_sol_balance (ws_sol_balances set) >->
       write_all put_token_balance (ws_token_balances set) >->
       write_all (fun r => match tr_kind (stf_transfer r) with
                           | IDX_TRANSFER_SOL => put_sol_transfer r
                           | _ => put_token_transfer r
                           end) (ws_transfers set) >->
       write_all put_swap (ws_swaps set) >->
       write_all put_pool (ws_pools set) >->
       write_all put_token (ws_tokens set) >->
       write_all put_bar (ws_bars set)) s
  end.

(** src/src/pg_store.c:665-668 [store_write]: a failed step is undone. *)
Definition or_rollback (f g : step) : step := fun s =>
  match f s with
  | (Ok _, s) => g s
  | (Err e, s) => let '(_, s) := command ROLLBACK s in (Err e, s)
  end.

(** src/src/pg_store.c:660-670 [store_write] *)
Definition store_write (set : option idx_store_write_set) : step :=
  command BEGIN >-> or_rollback (apply_write_set set) (command COMMIT).

(** src/src/pg_store.c:687-695 [store_reorg]: the loop, from here on. *)
Fixpoint reorg_deletes (slot : bytes) (names : list bytes) (rest : step) : step :=
  match names with
  | [] => rest
  | name :: names => or_rollback (put name 1 [Some slot]) (reorg_deletes slot names rest)
  end.

(** src/src/pg_store.c:678-702 [store_reorg] *)
Definition store_reorg (from_slot : Z) (replacement : option idx_store_write_set) : step :=
  command BEGIN >->
  reorg_deletes (u64_str from_slot) g_reorg_deletes (or_rollback (apply_write_set replacement) (command COMMIT)).

(** src/src/pg_store.c:716-726 [store_prune]: the command. *)
Definition prune_sql (b : bytes) : bytes :=
  lit "DELETE FROM blocks WHERE slot < " ++ b ++ lit ";" ++
  lit "DELETE FROM sol_balances WHERE slot < " ++ b ++ lit ";" ++
  lit "DELETE FROM token_balances WHERE slot < " ++ b ++ lit ";" ++
  lit "DELETE FROM sol_transfers WHERE slot < " ++ b ++ lit ";" ++
  lit "DELETE FROM token_transfers WHERE slot < " ++ b ++ lit ";" ++
  lit "DELETE FROM swaps WHERE slot < " ++ b ++ lit ";" ++
  lit "DELETE FROM pools WHERE first_seen_slot < " ++ b ++ lit ";" ++
  lit "DELETE FROM tokens WHERE first_seen_slot < " ++ b ++ lit ";" ++
  lit "DELETE FROM bars WHERE close_seq_slot < " ++ b.

(** src/src/pg_store.c:712-728 [store_prune] *)
Definition store_prune (below_slot : Z) : step := command (printed 1024 (prune_sql (dec below_slot))).

(** src/src/pg_store.c:730-736 [store_close]: [close] is the connection's. *)
Definition store_close (close : C -> C) (s : pg_store C) : pg_store C := PgStore (close (conn s)).

(** src/src/pg_store.c:738-746 [g_vt]: there is no reading of a range. *)
Definition g_vt {A} (close : C -> C) : idx_confirmed_store_vt (pg_store C) A :=
  ConfirmedVt (Some (fun _ => store_name)) (Some (fun s set h => let '(r, s) := store_write (Some set) s in (r, s, h)))
    (Some (fun s from set h => let '(r, s) := store_reorg from set s in (r, s, h)))
    (Some (fun s below h => let '(r, s) := store_prune below s in (r, s, h))) None (Some (store_close close)).

(** src/src/pg_store.c:758-764 [idx_pg_confirmed_store_open]: the statements of the
    schema, from here on. *)
Fixpoint apply_schema (statements : list bytes) (c : C) : result unit * C :=
  match statements with
  | [] => (Ok tt, c)
  | sql :: statements =>
      match pg_exec c sql with
      | (Ok _, c) => apply_schema statements c
      | r => r
      end
  end.

(** src/src/pg_store.c:765-772 [idx_pg_confirmed_store_open]: the statements to prepare,
    from here on. *)
Fixpoint prepare_statements (statements : list stmt_def) (c : C) : result unit * C :=
  match statements with
  | [] => (Ok tt, c)
  | d :: statements =>
      match pg_prepare c (sd_name d) (sd_sql d) (sd_n_params d) with
      | (Ok _, c) => prepare_statements statements c
      | r => r
      end
  end.

(** src/src/pg_store.c:748-787 [idx_pg_confirmed_store_open]: [connected] is what
    [idx_pg_connect] gives. *)
Definition idx_pg_confirmed_store_open (conninfo : option bytes) (out : bool) (connected : result C) (h : heap)
    : result (pg_store C) * heap :=
  if bool_decide (conninfo = None) || negb out then (IDX_FAIL IDX_ERR_INVALID_ARG, h)
  else
    match connected with
    | Err e => (Err e, h)
    | Ok c =>
        match apply_schema g_schema c with
        | (Err e, _) => (Err e, h)
        | (Ok _, c) =>
            match prepare_statements g_stmts c with
            | (Err e, _) => (Err e, h)
            | (Ok _, c) =>
                let '(ok1, h) := calloc 1 1 h in
                let '(ok2, h) := calloc 1 1 h in
                if negb ok1 || negb ok2 then (IDX_FAIL IDX_ERR_NO_MEMORY, h) else (Ok (PgStore c), h)
            end
        end
    end.

End Store.

(** ** The statements of a write set *)

(** The statement of an element, and its values. *)
Definition elem_stmt (x : elem) : bytes :=
  match x with
  | ElemBlock _ => lit "put_block"
  | ElemSol _ => lit "put_sol_balance"
  | ElemTokenBalance _ => lit "put_token_balance"
  | ElemTransfer r => match tr_kind (stf_transfer r) with IDX_TRANSFER_SOL => lit "put_sol_transfer" | _ => lit "put_token_transfer" end
  | ElemSwap _ => lit "put_swap"
  | ElemPool _ => lit "put_pool"
  | ElemToken _ => lit "put_token"
  | ElemBar _ => lit "put_bar"
  end.

(** The columns of the confirmed tier: those of the finalized one, without a version and
    with a bar's interval, since there is one table for all bars. *)
Definition pg_row (x : elem) : row :=
  match x with
  | ElemPool p => removelast (pool_row p 0)
  | ElemToken t => removelast (token_row t 0)
  | ElemBar b =>
      take 1 (bar_row b) ++ [(lit "interval", Plain (UInt 1 (interval_index (bar_interval b))))] ++ drop 1 (bar_row b)
  | _ => elem_row 0 x
  end.

(** *** PostgreSQL's hex format of bytes *)

Definition hex_char (d : Z) : Z := if d <? 10 then 48 + d else 87 + d.

(** As the server writes them: a backslash, an x, and two digits for each byte, the high
    one first. *)
Definition bytea_out (l : bytes) : bytes := [92; 120] ++ (l ≫= fun b => [hex_char (b / 16); hex_char (b mod 16)]).



Lemma byte_digits b : is_byte b -> 0 <= b / 16 < 16 /\ 0 <= b mod 16 < 16.
Proof.
  unfold is_byte. intros Hb. split; [|apply Z.mod_pos_bound; lia].
  split; [apply Z.div_pos; lia|apply Z.div_lt_upper_bound; lia].
Qed.



(** [bytea_hex] writes the server's format. *)
Lemma hex_digits_char d : 0 <= d < 16 -> hex_digits !!! Z.to_nat d = hex_char d.
Proof.
  intros Hd. rewrite <- (Z2Nat.id d) at 2 by lia. assert (Z.to_nat d < 16)%nat as Hn by lia. revert Hn.
  generalize (Z.to_nat d) as n. clear d Hd. intros n Hn. do 16 (destruct n as [|n]; [reflexivity|]). lia.
Qed.

Lemma bytea_hex_out l : bytes_ok l -> bytea_hex l = bytea_out l.
Proof.
  intros Hl. unfold bytea_hex, bytea_out. f_equal. induction Hl as [|b l Hb Hl IH]; [done|]. rewrite !bind_cons, IH.
  destruct (byte_digits b Hb) as [H1 H2]. rewrite Z.shiftr_div_pow2 by lia. change (2 ^ 4) with 16.
  change 15 with (Z.ones 4). rewrite Z.land_ones by lia. change (2 ^ 4) with 16. by rewrite !hex_digits_char.
Qed.

(** A value, as a text; the only truth value is [closed]. *)
Definition scalar_value (nan_bits : Z) (name : bytes) (s : scalar) : bytes :=
  match s with
  | UInt _ v =>
      if bool_decide (name = lit "closed") then if v =? 1 then lit "true" else lit "false" else dec v
  | SInt _ v => dec_signed v
  | Float d => general_17 nan_bits d
  | Str t => t
  | Fixed l => bytea_out l
  end.
Definition cell_value (nan_bits : Z) (nc : bytes * cell) : option bytes :=
  match nc.2 with Plain s => Some (scalar_value nan_bits nc.1 s) | Nullable s => scalar_value nan_bits nc.1 <$> s end.

Definition elem_values (nan_bits : Z) (x : elem) : list (option bytes) := cell_value nan_bits <$> pg_row x.

Definition elem_request (nan_bits : Z) (x : elem) : pg_request := ExecPrepared (elem_stmt x) (elem_values nan_bits x).

(** The function [apply_write_set] gives an element to. *)
Definition put_elem {C} `{PgOps C} (nan_bits : Z) (x : elem) : step :=
  match x with
  | ElemBlock b => put_block b
  | ElemSol r => put_sol_balance r
  | ElemTokenBalance r => put_token_balance r
  | ElemTransfer r => match tr_kind (stf_transfer r) with IDX_TRANSFER_SOL => put_sol_transfer r | _ => put_token_transfer r end
  | ElemSwap r => put_swap nan_bits r
  | ElemPool p => put_pool p
  | ElemToken t => put_token t
  | ElemBar b => put_bar nan_bits b
  end.

Lemma u8_byte z : is_byte (u8 z).
Proof. apply Z.mod_pos_bound. lia. Qed.

Lemma seq_bytes s : bytes_ok (idx_bar_seq_pack s).
Proof.
  unfold idx_bar_seq_pack. apply Forall_app. split.
  - apply Forall_map, Forall_forall. intros i _. apply u8_byte.
  - repeat (apply Forall_cons; split; [first [apply u8_byte | destruct (bs_inner s); by vm_compute]|]). by apply Forall_nil_2.
Qed.

(** The bytes of a fixed-size value are bytes. *)
Ltac fixed_bytes :=
  lazymatch goal with
  | |- bytes_ok (idx_bar_seq_pack _) => apply seq_bytes
  | |- bytes_ok (hash_bytes ?k) => match goal with H : hash_ok k |- _ => exact (proj1 H) end
  | |- bytes_ok (signature_bytes ?k) => match goal with H : signature_ok k |- _ => exact (proj1 H) end
  | |- bytes_ok (pubkey_bytes ?k) => match goal with H : pubkey_ok k |- _ => exact (proj1 H) end
  end.

Section Values.
Context (nan_bits : Z).

Lemma u64_str_dec v : is_u64 v -> u64_str v = dec v.
Proof. apply dec_fits. Qed.
Lemma within_u64 n v : n <= 2 ^ 64 -> within n v -> is_u64 v.
Proof. unfold within, is_u64. lia. Qed.

Abbreviation other name := (bool_decide (name = lit "closed") = false).

Lemma u64_value name w v : is_u64 v -> other name -> Some (u64_str v) = cell_value nan_bits (name, Plain (UInt w v)).
Proof. intros Hv Hn. unfold cell_value, scalar_value. cbn [fst snd]. by rewrite Hn, u64_str_dec. Qed.
Lemma i64_value name w v : is_i64 v -> Some (i64_str v) = cell_value nan_bits (name, Plain (SInt w v)).
Proof. intros Hv. cbn. unfold i64_str. f_equal. by apply dec_signed_fits. Qed.
Lemma dbl_value name d : double_ok d -> Some (dbl_str nan_bits d) = cell_value nan_bits (name, Plain (Float d)).
Proof. intros Hd. cbn. f_equal. by apply double_fits. Qed.
Lemma hex_value name l : bytes_ok l -> Some (bytea_hex l) = cell_value nan_bits (name, Plain (Fixed l)).
Proof. intros Hl. unfold cell_value, scalar_value. cbn [fst snd]. by rewrite bytea_hex_out. Qed.
Lemma key_value name k : pubkey_ok k -> Some (pubkey_hex k) = cell_value nan_bits (name, key_cell k).
Proof. intros [Hk _]. by apply hex_value. Qed.
Lemma hex_opt_value name k : opt_ok pubkey_ok k -> pubkey_hex <$> k = cell_value nan_bits (name, key_cell_opt k).
Proof. destruct k as [k|]; [|done]. intros Hk. by apply (key_value name). Qed.
Lemma text_opt_value name t : t = cell_value nan_bits (name, text_cell_opt t).
Proof. by destruct t. Qed.
Lemma u64_opt_value name v : opt_ok is_u64 v -> other name -> u64_str <$> v = cell_value nan_bits (name, u64_cell_opt v).
Proof. destruct v as [v|]; [|done]. intros Hv Hn. by apply u64_value. Qed.
Lemma u8_opt_value name v : opt_ok (within 256) v -> other name -> u64_str <$> v = cell_value nan_bits (name, u8_cell_opt v).
Proof. destruct v as [v|]; [|done]. intros Hv%(within_u64 256) Hn; [|done]. by apply u64_value. Qed.
Lemma i64_opt_value name v : opt_ok is_i64 v -> i64_str <$> v = cell_value nan_bits (name, i64_cell_opt v).
Proof. destruct v as [v|]; [|done]. intros Hv. by apply i64_value. Qed.
Lemma dbl_opt_value name d : opt_ok double_ok d -> dbl_str nan_bits <$> d = cell_value nan_bits (name, Nullable (Float <$> d)).
Proof. destruct d as [d|]; [|done]. intros Hd. by apply dbl_value. Qed.
Lemma closed_value (b : bool) :
  Some (if b then lit "true" else lit "false") = cell_value nan_bits (lit "closed", Plain (UInt 1 (if b then 1 else 0))).
Proof. by destruct b. Qed.
Lemma interval_of i : within 256 (interval_index i).
Proof. destruct i; by vm_compute. Qed.

Lemma cons_eq {A} (x y : A) l k : x = y -> l = k -> x :: l = y :: k.
Proof. by intros -> ->. Qed.

Ltac number :=
  first [assumption | eapply within_u64; [|first [eassumption | apply kind_value_of | apply swap_kind_of | apply venue_of | apply source_of
    | apply quote_of | apply interval_of | apply index_of; eassumption | apply inner_of; eassumption]]; done].
Ltac value_eq :=
  lazymatch goal with
  | |- Some (if _ then lit _ else lit _) = _ => exact (closed_value _)
  | |- _ = cell_value _ (_, Plain (UInt _ _)) => apply u64_value; [number|reflexivity]
  | |- _ = cell_value _ (_, Plain (SInt _ _)) => apply i64_value; assumption
  | |- _ = cell_value _ (_, Plain (Float _)) => apply dbl_value; assumption
  | |- _ = cell_value _ (_, Plain (Fixed _)) => apply hex_value; fixed_bytes
  | |- _ = cell_value _ (_, key_cell _) => apply key_value; assumption
  | |- _ = cell_value _ (_, key_cell_opt _) => apply hex_opt_value; assumption
  | |- _ = cell_value _ (_, text_cell_opt _) => apply text_opt_value
  | |- _ = cell_value _ (_, u64_cell_opt _) => apply u64_opt_value; [assumption|reflexivity]
  | |- (if ?b then _ else _) = cell_value _ (_, u8_cell_opt _) =>
      destruct b; [apply u64_value; [number|reflexivity]|reflexivity]
  | |- _ = cell_value _ (_, u8_cell_opt _) => apply u8_opt_value; [assumption|reflexivity]
  | |- _ = cell_value _ (_, i64_cell_opt _) => apply i64_opt_value; assumption
  | |- _ = cell_value _ (_, Nullable (Float <$> _)) => apply dbl_opt_value; assumption
  end.
Ltac values_eq := cbn [app fmap list_fmap removelast take drop]; repeat (apply cons_eq; [value_eq|]); reflexivity.

Context {C : Type} `{PgOps C}.

Lemma put_as (s : pg_store C) name n values values' :
  values = values' -> size values = n -> put name n values s = put name (size values') values' s.
Proof. by intros -> ->. Qed.

(** Each function executes the element's statement with its values. *)
Lemma put_elem_request x (s : pg_store C) :
  elem_ok x -> put_elem nan_bits x s = put (elem_stmt x) (size (elem_values nan_bits x)) (elem_values nan_bits x) s.
Proof.
  destruct x as [b|r|r|r|r|p|t|b]; cbn [elem_ok put_elem elem_stmt]; intros Hx; unfold ref_ok in Hx; destruct_and?.
  - apply put_as; [|done]. unfold elem_values. cbn [pg_row elem_row]. unfold block_row. values_eq.
  - apply put_as; [|done]. unfold elem_values. cbn [pg_row elem_row]. unfold sol_balance_row. values_eq.
  - apply put_as; [|done]. unfold elem_values. cbn [pg_row elem_row]. unfold token_balance_row. values_eq.
  - unfold elem_values. cbn [pg_row elem_row].
    destruct (tr_kind _); (apply put_as; [|done]); unfold event_path, sol_transfer_row, token_transfer_row, ChStore.event_path, event_key; values_eq.
  - apply put_as; [|done]. unfold elem_values. cbn [pg_row elem_row]. unfold event_path, swap_row, ChStore.event_path, event_key. values_eq.
  - apply put_as; [|done]. unfold elem_values. cbn [pg_row]. unfold pool_row. values_eq.
  - apply put_as; [|done]. unfold elem_values. cbn [pg_row]. unfold token_row. values_eq.
  - apply put_as; [|done]. unfold elem_values. cbn [pg_row]. unfold bar_row. values_eq.
Qed.

End Values.

(** ** Types *)



Section Types.
Context (nan_bits : Z).



Abbreviation other name := (bool_decide (name = lit "closed") = false).







(** The table of an element, and its insert. *)
Definition pg_table (x : elem) : bytes := match x with ElemBar _ => lit "bars" | _ => g_table_names (elem_table x) end.
Definition insert_of (x : elem) : stmt_def := default stmt_put_block (stmt_named (elem_stmt x)).

(** The columns an element's insert names, as their table declares them. *)
Definition columns_for (x : elem) : list (option pg_column) :=
  column_named (columns_named (pg_table x)) <$> insert_columns (sd_sql (insert_of x)).



(** A list of columns that are all there. *)
Definition all_columns (x : elem) : list pg_column := omap id (columns_for x).



End Types.







(** The insert of an element is of its table, with its columns. *)
Lemma insert_of_spec nan_bits x :
  insert_of x ∈ g_inserts /\ sd_name (insert_of x) = elem_stmt x /\ insert_table (sd_sql (insert_of x)) = pg_table x /\
  insert_columns (sd_sql (insert_of x)) = map fst (pg_row x) /\
  Some <$> all_columns x = columns_for x /\ size (elem_values nan_bits x) = sd_n_params (insert_of x).
Proof.
  assert (forall d, insert_of x = d -> d ∈ g_inserts -> sd_name d = elem_stmt x -> insert_table (sd_sql d) = pg_table x ->
    insert_columns (sd_sql d) = map fst (pg_row x) -> Some <$> all_columns x = columns_for x -> size (elem_values nan_bits x) = sd_n_params d ->
    insert_of x ∈ g_inserts /\ sd_name (insert_of x) = elem_stmt x /\ insert_table (sd_sql (insert_of x)) = pg_table x /\
    insert_columns (sd_sql (insert_of x)) = map fst (pg_row x) /\
    Some <$> all_columns x = columns_for x /\ size (elem_values nan_bits x) = sd_n_params (insert_of x)) as Hred by (by intros d ->).
  unfold all_columns, columns_for, pg_table, insert_of in *.
  destruct x as [b|r|r|r|r|p|t|b]; cbn [elem_stmt elem_table elem_values pg_row elem_row] in *;
    try (destruct (tr_kind _) eqn:Ek; unfold elem_values in *; cbn [pg_row elem_row] in *; rewrite ?Ek in * );
    (eapply Hred; [vm_compute; reflexivity|cbn [g_inserts g_stmts take]; repeat (first [by left|right])|vm_compute; reflexivity
      |vm_compute; reflexivity|vm_compute; reflexivity|vm_compute; reflexivity|reflexivity]).
Qed.
(** ** Transactions *)

(** What is asked of the store. *)
Inductive store_call :=
  | Write (set : idx_store_write_set)
  | Reorg (from_slot : Z) (replacement : option idx_store_write_set)
  | Prune (below_slot : Z).

Section Requests.
Context (nan_bits : Z).

Definition set_requests (set : option idx_store_write_set) : list pg_request :=
  match set with Some set => elem_request nan_bits <$> concat (ws_arrays set) | None => [] end.
Definition delete_request (from : Z) (name : bytes) : pg_request := ExecPrepared name [Some (dec from)].

(** The statements of a call. *)
Definition call_requests (k : store_call) : list pg_request :=
  match k with
  | Write set => set_requests (Some set)
  | Reorg from replacement => (delete_request from <$> g_reorg_deletes) ++ set_requests replacement
  | Prune below => [Exec (prune_sql (dec below))]
  end.

Definition accepted (l : list pg_request) : list (pg_request * bool) := (fun q => (q, true)) <$> l.

(** What the server is asked for a call: a transaction that did not begin, was committed,
    whose commit was not acknowledged, or that was rolled back at the first statement
    refused; or the command of a prune. *)
Inductive asked_for (k : store_call) : result unit -> list (pg_request * bool) -> Prop :=
  | not_begun e : (forall below, k <> Prune below) -> asked_for k (Err e) [(Exec BEGIN, false)]
  | committed_tx : (forall below, k <> Prune below) ->
      asked_for k (Ok tt) ((Exec BEGIN, true) :: accepted (call_requests k) ++ [(Exec COMMIT, true)])
  | commit_lost e : (forall below, k <> Prune below) ->
      asked_for k (Err e) ((Exec BEGIN, true) :: accepted (call_requests k) ++ [(Exec COMMIT, false)])
  | rolled_back e n q b : (forall below, k <> Prune below) -> call_requests k !! n = Some q ->
      asked_for k (Err e) ((Exec BEGIN, true) :: accepted (take n (call_requests k)) ++ [(q, false); (Exec ROLLBACK, b)])
  | pruned below r : k = Prune below -> asked_for k r [(Exec (prune_sql (dec below)), bool_decide (r = Ok tt))].

Definition set_ok (set : option idx_store_write_set) : Prop :=
  match set with Some set => Forall elem_ok (concat (ws_arrays set)) | None => True end.
Definition call_ok (k : store_call) : Prop :=
  match k with
  | Write set => set_ok (Some set)
  | Reorg from replacement => is_u64 from /\ set_ok replacement
  | Prune below => is_u64 below
  end.

Context {C : Type} {ops : PgOps C} {pg_ok : C -> Prop} {HC : PgSpec C pg_ok}.

Definition call_step (k : store_call) : @step C :=
  match k with
  | Write set => store_write nan_bits (Some set)
  | Reorg from replacement => store_reorg nan_bits from replacement
  | Prune below => store_prune below
  end.

(** The store after it was opened: every statement is registered. *)
Definition ready (s : pg_store C) : Prop :=
  pg_ok (conn s) /\ forall d, d ∈ g_stmts -> pg_params (conn s) (sd_name d) = Some (sd_n_params d).

Definition log (s : pg_store C) : list (pg_request * bool) := pg_log (conn s).

(** [f] sends [reqs] up to the first that is refused. *)
Definition sends (f : @step C) (reqs : list pg_request) : Prop :=
  forall s, ready s ->
    let '(r, s') := f s in
    ready s' /\
    match r with
    | Ok _ => log s' = log s ++ accepted reqs
    | Err _ => exists n q, reqs !! n = Some q /\ log s' = log s ++ accepted (take n reqs) ++ [(q, false)]
    end.

Lemma sends_nil : sends (fun s => (Ok tt, s)) [].
Proof. intros s Hs. split; [done|]. by rewrite app_nil_r. Qed.

Lemma sends_then f g a b : sends f a -> sends g b -> sends (then_step f g) (a ++ b).
Proof.
  intros Hf Hg s Hs. unfold then_step. specialize (Hf s Hs). destruct (f s) as [[[]|e] s1].
  - destruct Hf as [Hs1 Hl1]. specialize (Hg s1 Hs1). destruct (g s1) as [r s2]. destruct Hg as [Hs2 Hl2]. split; [done|].
    unfold accepted in *. destruct r as [[]|e].
    + by rewrite Hl2, Hl1, fmap_app, app_assoc.
    + destruct Hl2 as (n & q & Hq & Hl2). exists (length a + n)%nat, q. split; [by rewrite lookup_app_r, Nat.add_comm, Nat.add_sub by lia|].
      rewrite Hl2, Hl1, take_app_add, fmap_app. by rewrite !app_assoc.
  - destruct Hf as [Hs1 (n & q & Hq & Hl)]. split; [done|]. exists n, q. split; [by apply lookup_app_l_Some|].
    pose proof (lookup_lt_Some _ _ _ Hq). by rewrite take_app_le by lia.
Qed.

Lemma sends_command sql : sends (command sql) [Exec sql].
Proof.
  intros s [Hok Hp]. unfold command. pose proof (pg_exec_spec (conn s) sql Hok) as H. destruct (pg_exec _ _) as [r c].
  destruct H as (Hok' & Hp' & Hl). split; [split; [done|]; intros d Hd; cbn [conn]; rewrite Hp'; by apply Hp|].
  unfold log in *. cbn [conn]. rewrite Hl. destruct r as [[]|e]; [by rewrite bool_decide_eq_true_2|].
  exists 0%nat, (Exec sql). split; [done|]. by rewrite bool_decide_eq_false_2.
Qed.

Lemma sends_put d values :
  d ∈ g_stmts -> size values = sd_n_params d -> sends (put (sd_name d) (size values) values) [ExecPrepared (sd_name d) values].
Proof.
  intros Hd Hn s [Hok Hp]. unfold put. pose proof (pg_exec_prepared_spec (conn s) (sd_name d) values Hok) as H.
  destruct (pg_exec_prepared _ _ _ _) as [r c]. destruct H as (Hok' & Hp' & Hl).
  split; [split; [done|]; intros d' Hd'; cbn [conn]; rewrite Hp'; by apply Hp|].
  rewrite (Hp d Hd), bool_decide_eq_true_2 in Hl by congruence.
  unfold log in *. cbn [conn]. rewrite Hl. destruct r as [[]|e]; [by rewrite bool_decide_eq_true_2|].
  exists 0%nat, (ExecPrepared (sd_name d) values). split; [done|]. by rewrite bool_decide_eq_false_2.
Qed.

Lemma sends_elem x : elem_ok x -> sends (put_elem nan_bits x) [elem_request nan_bits x].
Proof.
  intros Hx s Hs. rewrite (put_elem_request nan_bits x s Hx). unfold elem_request.
  destruct (insert_of_spec nan_bits x) as (Hin & Hname & _ & _ & _ & Hn). rewrite <- Hname.
  apply (sends_put (insert_of x)); [|done|done]. unfold g_inserts in Hin. by apply (subseteq_take 9 g_stmts).
Qed.

Lemma sends_all {A} (fn : A -> @step C) (con : A -> elem) l :
  (forall x s, fn x s = put_elem nan_bits (con x) s) -> Forall (fun x => elem_ok (con x)) l ->
  sends (write_all fn l) (elem_request nan_bits <$> (con <$> l)).
Proof.
  intros Hfn Hl. induction Hl as [|x l Hx Hl IH]; cbn [write_all fmap list_fmap]; [apply sends_nil|].
  apply (sends_then (fn x) _ [elem_request nan_bits (con x)]); [|done]. intros s. rewrite Hfn. by apply sends_elem.
Qed.

Lemma sends_set set : set_ok set -> sends (apply_write_set nan_bits set) (set_requests set).
Proof.
  destruct set as [set|]; [|intros _; apply sends_nil]. unfold set_ok, set_requests, ws_arrays. cbn [concat]. rewrite app_nil_r.
  intros Hok. repeat (apply Forall_app in Hok as [? Hok]). rewrite !Forall_fmap in *.
  rewrite !fmap_app. unfold apply_write_set.
  repeat apply sends_then; (apply sends_all; [|assumption]); by intros x s.
Qed.

(** [f] sends [reqs] and ends the transaction they are in. *)
Definition ends (f : @step C) (reqs : list pg_request) : Prop :=
  forall s, ready s ->
    let '(r, s') := f s in
    ready s' /\
    (log s' = log s ++ accepted reqs ++ [(Exec COMMIT, bool_decide (r = Ok tt))] \/
     exists e n q b, r = Err e /\ reqs !! n = Some q /\ log s' = log s ++ accepted (take n reqs) ++ [(q, false); (Exec ROLLBACK, b)]).

Lemma command_logs sql s :
  ready s -> let '(r, s') := command sql s in ready s' /\ log s' = log s ++ [(Exec sql, bool_decide (r = Ok tt))].
Proof.
  intros Hs. pose proof (sends_command sql s Hs) as H. destruct (command sql s) as [[[]|e] s']; destruct H as [Hs' Hl]; (split; [done|]).
  - by rewrite bool_decide_eq_true_2.
  - destruct Hl as (n & q & Hq & ->). rewrite bool_decide_eq_false_2 by done. destruct n as [|n]; [by injection Hq as <-|done].
Qed.

(** What follows a step that is undone when it fails. *)
Lemma ends_after f g a b : sends f a -> ends g b -> ends (or_rollback f g) (a ++ b).
Proof.
  intros Hf Hg s Hs. unfold or_rollback. specialize (Hf s Hs). destruct (f s) as [[[]|e] s1]; destruct Hf as [Hs1 Hl1].
  - specialize (Hg s1 Hs1). destruct (g s1) as [r s2]. destruct Hg as [Hs2 Hl2]. split; [done|]. rewrite Hl1 in Hl2. unfold accepted in *.
    destruct Hl2 as [Hl2|(e & n & q & x & Hr & Hq & Hl2)]; [left; by rewrite Hl2, fmap_app, !app_assoc|right].
    exists e, (length a + n)%nat, q, x. split; [done|]. split; [by rewrite lookup_app_r, Nat.add_comm, Nat.add_sub by lia|].
    by rewrite Hl2, take_app_add, fmap_app, !app_assoc.
  - pose proof (command_logs ROLLBACK s1 Hs1) as Hr. destruct (command ROLLBACK s1) as [r s2]. destruct Hr as [Hs2 Hl2]. split; [done|]. right.
    destruct Hl1 as (n & q & Hq & Hl1). exists e, n, q, (bool_decide (r = Ok tt)). split; [done|]. split; [by apply lookup_app_l_Some|].
    pose proof (lookup_lt_Some _ _ _ Hq). rewrite take_app_le by lia. by rewrite Hl2, Hl1, <- !app_assoc.
Qed.

Lemma ends_commit : ends (command COMMIT) [].
Proof. intros s Hs. pose proof (command_logs COMMIT s Hs) as H. destruct (command COMMIT s) as [r s']. destruct H as [H1 H2]. split; [done|by left]. Qed.

Lemma ends_set set : set_ok set -> ends (or_rollback (apply_write_set nan_bits set) (command COMMIT)) (set_requests set).
Proof. intros Hset. rewrite <- (app_nil_r (set_requests set)). apply ends_after; [by apply sends_set|apply ends_commit]. Qed.

Lemma ends_deletes from names rest reqs :
  is_u64 from -> (forall name, name ∈ names -> exists d, d ∈ g_stmts /\ sd_name d = name /\ sd_n_params d = 1) -> ends rest reqs ->
  ends (reorg_deletes (u64_str from) names rest) ((delete_request from <$> names) ++ reqs).
Proof.
  intros Hf Hn Hr. induction names as [|name names IH]; [done|]. cbn [reorg_deletes fmap list_fmap].
  apply (ends_after _ _ [delete_request from name]); [|apply IH; intros m Hm; apply Hn; by right].
  destruct (Hn name) as (d & Hd & <- & H1); [by left|]. unfold delete_request. rewrite u64_str_dec by done.
  by apply (sends_put d [Some (dec from)]).
Qed.

Lemma deletes_known name : name ∈ g_reorg_deletes -> exists d, d ∈ g_stmts /\ sd_name d = name /\ sd_n_params d = 1.
Proof.
  intros Hn. assert (Forall (fun name => Exists (fun d => sd_name d = name /\ sd_n_params d = 1) g_stmts) g_reorg_deletes) as H by decide_now.
  rewrite Forall_forall in H. specialize (H name Hn). apply Exists_exists in H as (d & Hd & H1 & H2). by exists d.
Qed.

(** A transaction around it. *)
Lemma ends_asked k f reqs s :
  (forall below, k <> Prune below) -> reqs = call_requests k -> ends f reqs -> ready s ->
  let '(r, s') := then_step (command BEGIN) f s in
  ready s' /\ exists l, log s' = log s ++ l /\ asked_for k r l.
Proof.
  intros Hk -> Hf Hs. unfold then_step. pose proof (command_logs BEGIN s Hs) as Hb. destruct (command BEGIN s) as [[[]|e] s1]; destruct Hb as [Hs1 Hl1].
  - rewrite bool_decide_eq_true_2 in Hl1 by done. specialize (Hf s1 Hs1). destruct (f s1) as [r s2]. destruct Hf as [Hs2 Hl2]. split; [done|].
    rewrite Hl1 in Hl2. destruct Hl2 as [Hl2|(e & n & q & b & -> & Hq & Hl2)]; rewrite <- app_assoc in Hl2.
    + eexists. split; [exact Hl2|]. destruct r as [[]|e]; [rewrite bool_decide_eq_true_2 by done; by constructor|].
      rewrite bool_decide_eq_false_2 by done. by constructor.
    + eexists. split; [exact Hl2|]. by constructor.
  - rewrite bool_decide_eq_false_2 in Hl1 by done. split; [done|]. eexists. split; [exact Hl1|]. by constructor.
Qed.

Lemma prune_fits below : is_u64 below -> printed 1024 (prune_sql (dec below)) = prune_sql (dec below).
Proof.
  intros Hb. destruct (dec_ok below Hb) as (_ & _ & _ & Hn). unfold printed. apply take_ge.
  unfold prune_sql, size in *. rewrite !length_app. change (length (lit ";")) with 1%nat.
  repeat match goal with |- context [length (lit ?s)] => let n := eval vm_compute in (length (lit s)) in change (length (lit s)) with n end.
  change (Z.to_nat (1024 - 1)) with 1023%nat. lia.
Qed.

Lemma call_asked k s :
  call_ok k -> ready s -> let '(r, s') := call_step k s in ready s' /\ exists l, log s' = log s ++ l /\ asked_for k r l.
Proof.
  intros Hk Hs. destruct k as [set|from set|below]; cbn [call_step call_ok] in *.
  - apply ends_asked with (reqs := set_requests (Some set)); [done|done|by apply ends_set|done].
  - destruct Hk as [Hf Hset].
    apply ends_asked with (reqs := (delete_request from <$> g_reorg_deletes) ++ set_requests set); [done|done| |done].
    apply ends_deletes; [done|by apply deletes_known|by apply ends_set].
  - unfold store_prune. rewrite prune_fits by done. pose proof (command_logs (prune_sql (dec below)) s Hs) as H.
    destruct (command _ s) as [r s']. destruct H as [Hs' Hl]. split; [done|]. eexists. split; [exact Hl|]. by apply (pruned _ below).
Qed.

Fixpoint pg_store_run (ks : list store_call) (s : pg_store C) : list (result unit) * pg_store C :=
  match ks with
  | [] => ([], s)
  | k :: ks => let '(r, s) := call_step k s in let '(rs, s) := pg_store_run ks s in (r :: rs, s)
  end.

(** What is asked for in a run. *)
Inductive asked_in : list store_call -> list (result unit) -> list (pg_request * bool) -> Prop :=
  | asked_nil : asked_in [] [] []
  | asked_cons k ks r rs l1 l2 : asked_for k r l1 -> asked_in ks rs l2 -> asked_in (k :: ks) (r :: rs) (l1 ++ l2).

Lemma run_asked ks s :
  Forall call_ok ks -> ready s ->
  let '(rs, s') := pg_store_run ks s in ready s' /\ exists l, log s' = log s ++ l /\ asked_in ks rs l.
Proof.
  intros Hk. revert s. induction Hk as [|k ks Hk Hks IH]; intros s Hs; cbn [pg_store_run].
  { split; [done|]. exists []. rewrite app_nil_r. split; [done|constructor]. }
  pose proof (call_asked k s Hk Hs) as H1. destruct (call_step k s) as [r s1]. destruct H1 as [Hs1 (l1 & Hl1 & Ha1)].
  specialize (IH s1 Hs1). destruct (pg_store_run ks s1) as [rs s2]. destruct IH as [Hs2 (l2 & Hl2 & Ha2)].
  split; [done|]. exists (l1 ++ l2). split; [by rewrite Hl2, Hl1, app_assoc|by constructor].
Qed.

End Requests.

(** ** The server's transactions *)

Inductive tx_state (db : Type) := Idle | Working (d : db) | Aborted.
Arguments Idle {db}.
Arguments Working {db}.
Arguments Aborted {db}.

(** A server: what it does with a request and whether it says so, what is committed, the
    transaction of the session, and the effect of a statement. *)
Class PgServer (srv db : Type) := {
  served : srv -> pg_request -> bool -> srv -> Prop;
  committed : srv -> db;
  working : srv -> tx_state db;
  effect : pg_request -> db -> db
}.

(** PostgreSQL's transactions, as documented: BEGIN opens one on what is committed; its
    statements are seen by nobody else, and one that is refused aborts it or ends it with
    the connection; an aborted one refuses everything but its end; ROLLBACK discards it;
    COMMIT makes all of it the committed state, or, when it is not acknowledged, all of it
    or nothing.  A command outside is a transaction of its own. *)
Class PgServerSpec (srv db : Type) `{PgServer srv db} := {
  serve_begin : forall s b s', working s = Idle -> served s (Exec BEGIN) b s' ->
    committed s' = committed s /\ working s' = if b then Working (committed s) else Idle;
  serve_command : forall s sql b s', working s = Idle -> sql <> BEGIN -> sql <> COMMIT -> sql <> ROLLBACK -> served s (Exec sql) b s' ->
    working s' = Idle /\ (committed s' = effect (Exec sql) (committed s) \/ b = false /\ committed s' = committed s);
  serve_statement : forall s d name values b s', working s = Working d -> served s (ExecPrepared name values) b s' ->
    committed s' = committed s /\
    if b then working s' = Working (effect (ExecPrepared name values) d) else working s' = Aborted \/ working s' = Idle;
  serve_commit : forall s d b s', working s = Working d -> served s (Exec COMMIT) b s' ->
    working s' = Idle /\ (committed s' = d \/ b = false /\ committed s' = committed s);
  serve_rollback : forall s b s', working s = Aborted \/ working s = Idle -> served s (Exec ROLLBACK) b s' ->
    committed s' = committed s /\ (working s' = Aborted \/ working s' = Idle);
  serve_aborted : forall s q b s', working s = Aborted -> q <> Exec COMMIT -> q <> Exec ROLLBACK -> served s q b s' ->
    b = false /\ committed s' = committed s /\ (working s' = Aborted \/ working s' = Idle)
}.

Section Server.
Context {srv db : Type} {sops : PgServer srv db} {HS : PgServerSpec srv db} (nan_bits : Z).

Fixpoint serves (v : srv) (l : list (pg_request * bool)) (v' : srv) : Prop :=
  match l with
  | [] => v' = v
  | (q, b) :: l => exists m, served v q b m /\ serves m l v'
  end.

Definition effects (l : list pg_request) (d : db) : db := foldl (fun d q => effect q d) d l.

(** A session between calls. *)
Definition resting (v : srv) : Prop := working v = Aborted \/ working v = Idle.

(** The committed state through a run: a call that returns OK has all its statements
    applied, in order; one that fails has none applied, or all of them. *)
Inductive replay : list store_call -> list (result unit) -> db -> db -> Prop :=
  | replay_nil d : replay [] [] d d
  | replay_done k ks rs d d' : replay ks rs (effects (call_requests nan_bits k) d) d' -> replay (k :: ks) (Ok tt :: rs) d d'
  | replay_none k e ks rs d d' : replay ks rs d d' -> replay (k :: ks) (Err e :: rs) d d'
  | replay_lost k e ks rs d d' : replay ks rs (effects (call_requests nan_bits k) d) d' -> replay (k :: ks) (Err e :: rs) d d'.

Lemma serves_app l1 l2 v v' : serves v (l1 ++ l2) v' -> exists m, serves v l1 m /\ serves m l2 v'.
Proof.
  revert v. induction l1 as [|[q b] l1 IH]; intros v H; cbn [app serves] in *; [by exists v|].
  destruct H as (m & Hq & H). destruct (IH m H) as (m2 & H1 & H2). exists m2. split; [by exists m|done].
Qed.

Definition is_prepared (q : pg_request) : Prop := exists name values, q = ExecPrepared name values.

Lemma serves_accepted l v d v' :
  Forall is_prepared l -> working v = Working d -> serves v (accepted l) v' ->
  committed v' = committed v /\ working v' = Working (effects l d).
Proof.
  intros Hl. revert v d. induction Hl as [|q l (name & values & ->) Hl IH]; intros v d Hw H; cbn [serves accepted fmap list_fmap] in *; [by subst|].
  destruct H as (m & Hq & H). destruct (serve_statement v d name values true m Hw Hq) as [Hc Hw'].
  destruct (IH m _ Hw' H) as [Hc2 Hw2]. split; [congruence|done].
Qed.

Lemma requests_prepared k : (forall below, k <> Prune below) -> Forall is_prepared (call_requests nan_bits k).
Proof.
  assert (forall set, Forall is_prepared (set_requests nan_bits set)) as Hset.
  { intros [set|]; [|done]. apply Forall_fmap, Forall_true. intros x. by eexists _, _. }
  destruct k as [set|from set|below]; intros Hk; [apply Hset| |by destruct (Hk below)].
  apply Forall_app. split; [|apply Hset]. apply Forall_fmap, Forall_true. intros name. by eexists _, _.
Qed.

Lemma prune_sql_command b : prune_sql b <> BEGIN /\ prune_sql b <> COMMIT /\ prune_sql b <> ROLLBACK.
Proof. unfold prune_sql. split; [|split]; intros E; vm_compute in E; discriminate E. Qed.

Lemma begin_other : Exec BEGIN <> Exec COMMIT /\ Exec BEGIN <> Exec ROLLBACK.
Proof. split; intros E; vm_compute in E; discriminate E. Qed.

Lemma begun v b l v' :
  resting v -> serves v ((Exec BEGIN, b) :: l) v' ->
  exists m, serves m l v' /\ committed m = committed v /\ if b then working m = Working (committed v) else resting m.
Proof.
  intros Hv (m & Hq & H). exists m. split; [done|]. destruct Hv as [Hv|Hv].
  - destruct (serve_aborted v _ b m Hv (proj1 begin_other) (proj2 begin_other) Hq) as (-> & Hc & Hw). done.
  - destruct (serve_begin v b m Hv Hq) as [Hc Hw]. split; [done|]. destruct b; [done|by right].
Qed.

(** One call. *)
Lemma asked_effect k r l v v' :
  asked_for nan_bits k r l -> resting v -> serves v l v' ->
  resting v' /\
  match r with
  | Ok _ => committed v' = effects (call_requests nan_bits k) (committed v)
  | Err _ => committed v' = committed v \/ committed v' = effects (call_requests nan_bits k) (committed v)
  end.
Proof.
  intros Ha Hv Hs. destruct Ha as [e Hk|Hk|e Hk|e n q b Hk Hq|below r ->].
  - destruct (begun _ _ _ _ Hv Hs) as (m & -> & Hc & Hw). split; [done|by left].
  - destruct (begun _ _ _ _ Hv Hs) as (m & H & Hc & Hw). apply serves_app in H as (m2 & H1 & (m3 & H2 & ->)).
    destruct (serves_accepted _ _ _ _ (requests_prepared k Hk) Hw H1) as [Hc2 Hw2].
    destruct (serve_commit _ _ _ _ Hw2 H2) as [Hw3 [Hc3|[? _]]]; [|done]. by split; [right|].
  - destruct (begun _ _ _ _ Hv Hs) as (m & H & Hc & Hw). apply serves_app in H as (m2 & H1 & (m3 & H2 & ->)).
    destruct (serves_accepted _ _ _ _ (requests_prepared k Hk) Hw H1) as [Hc2 Hw2].
    destruct (serve_commit _ _ _ _ Hw2 H2) as [Hw3 Hc3]. split; [by right|].
    destruct Hc3 as [Hc3|[_ Hc3]]; [by right|left; congruence].
  - destruct (begun _ _ _ _ Hv Hs) as (m & H & Hc & Hw). apply serves_app in H as (m2 & H1 & (m3 & H2 & (m4 & H3 & ->))).
    pose proof (requests_prepared k Hk) as Hp.
    destruct (serves_accepted _ _ _ _ (Forall_take _ n _ Hp) Hw H1) as [Hc2 Hw2].
    destruct (Forall_lookup_1 _ _ _ _ Hp Hq) as (name & values & ->).
    destruct (serve_statement _ _ _ _ _ _ Hw2 H2) as [Hc3 Hw3]. destruct (serve_rollback _ _ _ Hw3 H3) as [Hc4 Hw4].
    split; [done|left; congruence].
  - destruct Hs as (m & Hq & Hm). cbn [serves] in Hm. subst v'. destruct (prune_sql_command (dec below)) as (N1 & N2 & N3). destruct Hv as [Hv|Hv].
    + assert (Exec (prune_sql (dec below)) <> Exec COMMIT /\ Exec (prune_sql (dec below)) <> Exec ROLLBACK) as [M1 M2].
      { split; intros E; apply (f_equal (fun q => match q with Exec t => t | _ => [] end)) in E; [exact (N2 E)|exact (N3 E)]. }
      destruct (serve_aborted v _ _ m Hv M1 M2 Hq) as (Hb & Hc & Hw). split; [done|].
      destruct r as [[]|e]; [by rewrite bool_decide_eq_true_2 in Hb|by left].
    + destruct (serve_command v _ _ m Hv N1 N2 N3 Hq) as [Hw Hc]. split; [by right|].
      destruct Hc as [Hc|[Hb Hc]]; [destruct r; [done|by right]|]. destruct r as [[]|e]; [by rewrite bool_decide_eq_true_2 in Hb|by left].
Qed.

Lemma asked_replay ks rs l v v' :
  asked_in nan_bits ks rs l -> resting v -> serves v l v' -> replay ks rs (committed v) (committed v').
Proof.
  intros Ha. revert v. induction Ha as [|k ks r rs l1 l2 Hk Ha IH]; intros v Hv Hs; [rewrite Hs; constructor|].
  apply serves_app in Hs as (m & H1 & H2). destruct (asked_effect k r l1 v m Hk Hv H1) as [Hm Hc]. specialize (IH m Hm H2).
  destruct r as [[]|e].
  - apply replay_done. by rewrite <- Hc.
  - destruct Hc as [Hc|Hc]; [apply replay_none; by rewrite <- Hc|apply replay_lost; by rewrite <- Hc].
Qed.

End Server.

(** ** Properties *)


(** C23. The confirmed tier is atomic on PostgreSQL: over any connection that keeps its
    promises and any run of writes, reorgs and prunes, the server is asked for one
    transaction per write or reorg, the deletions of every table first and then every row
    in order, committed when all were accepted and rolled back at the first that was not.
    So on a server with PostgreSQL's transactions a call that returns OK has all its
    statements applied, and one that fails has none of them applied, or all when only the
    answer to its end was lost. *)
Theorem pg_store_atomic {C} `{PgSpec C pg_ok} {srv db} `{PgServerSpec srv db} nan_bits ks (s : pg_store C) :
  ready (pg_ok := pg_ok) s -> Forall call_ok ks ->
  let '(rs, s') := pg_store_run nan_bits ks s in
  exists l, log s' = log s ++ l /\ asked_in nan_bits ks rs l /\
    forall v v', resting v -> serves v l v' -> replay nan_bits ks rs (committed v) (committed v').
Proof.
  intros Hs Hk. pose proof (run_asked nan_bits ks s Hk Hs) as Hr. destruct (pg_store_run _ _ _) as [rs s'].
  destruct Hr as [_ (l & Hl & Ha)]. exists l. split; [done|]. split; [done|]. intros v v' Hv Hsv. by eapply asked_replay.
Qed.

(** An opened store is ready: the schema was accepted and every statement is registered
    with its number of parameters. *)
Theorem pg_open_ready {C} `{PgSpec C pg_ok} conninfo out c h s h' :
  pg_ok c -> idx_pg_confirmed_store_open conninfo out (Ok c) h = (Ok s, h') -> ready (pg_ok := pg_ok) s.
Proof.
  intros Hok. unfold idx_pg_confirmed_store_open. destruct (_ || _); [done|].
  assert (forall l c c', pg_ok c -> apply_schema l c = (Ok tt, c') -> pg_ok c') as Hschema.
  { intros l. induction l as [|sql l IH]; intros c1 c2 H1; cbn [apply_schema]; [by intros [= <-]|].
    pose proof (pg_exec_spec c1 sql H1) as Hx. destruct (pg_exec c1 sql) as [[[]|e] c3]; [|done]. apply IH. apply Hx. }
  destruct (apply_schema g_schema c) as [[[]|e] c1] eqn:E1; [|done]. apply Hschema in E1; [|done].
  assert (forall l c c', Forall (fun d => 0 <= sd_n_params d) l -> NoDup (sd_name <$> l) -> pg_ok c -> prepare_statements l c = (Ok tt, c') ->
            pg_ok c' /\ (forall d, d ∈ l -> pg_params c' (sd_name d) = Some (sd_n_params d)) /\
            (forall name, name ∉ (sd_name <$> l) -> pg_params c' name = pg_params c name)) as Hprep.
  { intros l. induction l as [|d l IH]; intros c2 c3 Hpos Hnd H2; cbn [prepare_statements].
    - intros [= <-]. split; [done|]. split; [by intros d ?%not_elem_of_nil|done].
    - apply Forall_cons in Hpos as [Hd Hpos]. cbn [fmap list_fmap] in Hnd. apply NoDup_cons in Hnd as [Hni Hnd].
      pose proof (pg_prepare_spec c2 (sd_name d) (sd_sql d) (sd_n_params d) H2 Hd) as Hx.
      destruct (pg_prepare _ _ _ _) as [[[]|e] c4]; [|done]. destruct Hx as (H4 & _ & Hx). intros E3.
      destruct (IH c4 c3 Hpos Hnd H4 E3) as (H3 & Hin & Hout). split; [done|]. split.
      + intros d' [->|Hd']%elem_of_cons; [|by apply Hin]. rewrite Hout by done. rewrite Hx. by rewrite decide_True.
      + intros name [Hne Hn]%not_elem_of_cons. rewrite Hout by done. rewrite Hx. by rewrite decide_False. }
  destruct (prepare_statements g_stmts c1) as [[[]|e] c2] eqn:E2; [|done].
  destruct (Hprep g_stmts c1 c2 ltac:(decide_now) statement_names E1 E2) as (H2 & Hin & _).
  destruct (calloc 1 1 h) as [ok1 h1], (calloc 1 1 h1) as [ok2 h2]. destruct (_ || _); [done|]. intros [= <- _]. by split.
Qed.

(** *** A server that lists what was committed *)

Definition listing : Type := list pg_request * tx_state (list pg_request).

Definition answer_of (v : listing) (q : pg_request) (b : bool) : listing :=
  match v.2, b with
  | Idle, true => if bool_decide (q = Exec BEGIN) then (v.1, Working v.1) else if bool_decide (q = Exec ROLLBACK) then v else (v.1 ++ [q], Idle)
  | Idle, false => (v.1, Idle)
  | Working d, true => if bool_decide (q = Exec COMMIT) then (d, Idle) else (v.1, Working (d ++ [q]))
  | Working d, false => if bool_decide (q = Exec COMMIT) then (v.1, Idle) else (v.1, Aborted)
  | Aborted, true => (v.1, Idle)
  | Aborted, false => v
  end.

#[export] Instance listing_server : PgServer listing (list pg_request) := {|
  served v q b v' := v' = answer_of v q b /\ (v.2 = Aborted -> b = true -> q = Exec COMMIT \/ q = Exec ROLLBACK);
  committed := fst;
  working := snd;
  effect q d := d ++ [q]
|}.

#[export] Instance listing_spec : PgServerSpec listing (list pg_request).
Proof.
  split; cbn [served committed working effect listing_server]; unfold answer_of.
  - intros [c w] b s' Hw [-> _]. cbn in Hw. subst w. cbn [fst snd]. destruct b; by rewrite ?bool_decide_eq_true_2 by done.
  - intros [c w] sql b s' Hw N1 N2 N3 [-> _]. cbn in Hw. subst w. cbn [fst snd].
    assert (forall sql', sql <> sql' -> bool_decide (Exec sql = Exec sql') = false) as Hne by (intros sql' N; apply bool_decide_eq_false_2; by intros [= ?]).
    destruct b; [rewrite !Hne by done; split; [done|by left]|split; [done|by right]].
  - intros [c w] d name values b s' Hw [-> _]. cbn in Hw. subst w. cbn [fst snd]. rewrite bool_decide_eq_false_2 by done.
    destruct b; [done|split; [done|by left]].
  - intros [c w] d b s' Hw [-> _]. cbn in Hw. subst w. cbn [fst snd]. rewrite bool_decide_eq_true_2 by done.
    destruct b; [split; [done|by left]|split; [done|by right]].
  - intros [c w] b s' Hw [-> _]. cbn in Hw. destruct Hw as [->| ->], b; (split; [by vm_compute|vm_compute; first [by left|by right]]).
  - intros [c w] q b s' Hw N1 N2 [-> Hb]. cbn in Hw, Hb. subst w. cbn [fst snd].
    destruct b; [by destruct (Hb eq_refl eq_refl)|]. split; [done|]. split; [done|by left].
Qed.

(** An opened store: every statement accepted; then a write accepted, a write whose row is
    refused, and a prune. *)
Definition opened_link : link :=
  Link (replicate (length g_schema + length g_stmts) accepting ++
        [accepting; accepting; accepting; accepting; Answer (Some (PgRes PGRES_OTHER 0 [] None)) true; accepting; accepting]) true [] [].
Definition opened : result (pg_store (idx_pg_conn * link)) * heap :=
  idx_pg_confirmed_store_open (Some []) true (Ok (PgConn (idx_vec_init sizeof_prepared_stmt), opened_link)) [].
Definition opened_store : pg_store (idx_pg_conn * link) :=
  match opened.1 with Ok s => s | Err _ => PgStore (PgConn (idx_vec_init sizeof_prepared_stmt), opened_link) end.

Lemma opened_ready : ready (pg_ok := conn_ok) opened_store.
Proof.
  apply (pg_open_ready (Some []) true (PgConn (idx_vec_init sizeof_prepared_stmt), opened_link) [] _ opened.2); [split; [done|constructor]|].
  vm_compute. reflexivity.
Qed.

Definition some_store_calls : list store_call := [Write (blocks_set [5]); Write (blocks_set [6]); Prune 3].

Lemma some_store_calls_ok : Forall call_ok some_store_calls.
Proof. repeat (apply Forall_cons; split; [first [apply blocks_set_ok; decide_now | by vm_compute]|]). by apply Forall_nil_2. Qed.

Lemma pg_store_atomic_witness :
  let '(rs, s) := pg_store_run 0 some_store_calls opened_store in
  rs = [Ok tt; Err IDX_ERR_REMOTE; Ok tt] /\
  exists l, log s = log opened_store ++ l /\ forall v' : listing, serves (([], Idle) : listing) l v' ->
    replay 0 some_store_calls rs [] (committed v').
Proof.
  pose proof (pg_store_atomic (srv := listing) (db := list pg_request) 0 some_store_calls opened_store opened_ready some_store_calls_ok) as H.
  assert ((pg_store_run 0 some_store_calls opened_store).1 = [Ok tt; Err IDX_ERR_REMOTE; Ok tt]) as Hr by (vm_compute; reflexivity).
  destruct (pg_store_run _ _ _) as [rs s]. cbn [fst] in Hr. split; [done|]. destruct H as (l & Hl & _ & H). exists l. split; [done|].
  intros v' Hv. apply (H (([], Idle) : listing) v'); [by right|done].
Defined.

