(* ===== verification/Fetcher.v ===== *)
(** * fetcher.c: turning gaps back into blocks

    A worker claims a range of the gap set, asks [getBlocks] which of its slots have
    a block, fetches those and publishes them.  What the endpoint, the ring and the
    pool's stop flag answer is the environment ([answers]); what the worker does to
    the state it shares, the gap set, the ring, the pool's width and counters, is a
    list of [action]s in the order it does them, so that Pipeline.v can interleave
    them with the other threads.  The control flow reads nothing else of that state. *)

From Stdlib Require Import Sorted.
From S2P Require Import Prelude Gaps Ring.
#[local] Open Scope Z_scope.

(** src/include/fetcher.h:40-40 [IDX_FETCHER_DEFAULT_CLAIM_SPAN] *)
Definition IDX_FETCHER_DEFAULT_CLAIM_SPAN : Z := 64.

(** src/src/fetcher.c:13-13 [IDX_FETCHER_DEFAULT_IDLE_MS] *)
Definition IDX_FETCHER_DEFAULT_IDLE_MS : Z := 250.

(** src/include/fetcher.h:64-72 [idx_fetcher_stats] *)
Record idx_fetcher_stats := FetcherStats {
  ranges_claimed : Z;
  blocks_fetched : Z;
  slots_absent : Z;
  fetch_failures : Z;
  ranges_abandoned : Z;
  span_narrowings : Z;
  workers : Z
}.

(** src/src/fetcher.c:21-43 [idx_fetcher_pool]: what the pool's lock guards, and the
    idle time. *)
Record idx_fetcher_pool := Pool {
  worker_count : Z;
  idle_ms : Z;
  stop : bool;
  span : Z;
  pool_stats : idx_fetcher_stats
}.

(** src/src/fetcher.c:45-52 [idx_fetcher_options_init]: the span and the idle time. *)
Definition idx_fetcher_options_init : Z * Z :=
  (IDX_FETCHER_DEFAULT_CLAIM_SPAN, IDX_FETCHER_DEFAULT_IDLE_MS).

(** A counter of the pool. *)
Inductive counter := RangesClaimed | BlocksFetched | SlotsAbsent | FetchFailures | RangesAbandoned.

#[export] Instance counter_eq_dec : EqDecision counter.
Proof. solve_decision. Defined.

(** What a worker does to what it shares. *)
Inductive action :=
  | Resolve (f t : Z)
  | Release (f t : Z)
  | Publish (entry : idx_ring_entry)
  | Narrow (failed_width : Z)
  | Bump (field : counter) (by_ : Z).

(** src/src/fetcher.c:54-59 [current_span] *)
Definition current_span (p : idx_fetcher_pool) : Z := span p.

(** src/src/fetcher.c:70-91 [narrow_span] *)
Definition narrow_span (p : idx_fetcher_pool) (failed_width : Z) : idx_fetcher_pool :=
  if (failed_width <=? 1) || (span p <? failed_width) then p
  else
    let s := pool_stats p in
    Pool (worker_count p) (idle_ms p) (stop p) (failed_width / 2)
      (FetcherStats (ranges_claimed s) (blocks_fetched s) (slots_absent s) (fetch_failures s) (ranges_abandoned s)
         (u64 (span_narrowings s + 1)) (workers s)).

(** src/src/fetcher.c:93-98 [stopping] *)
Definition stopping (p : idx_fetcher_pool) : bool := stop p.

(** src/src/fetcher.c:120-124 [bump] *)
Definition bump (p : idx_fetcher_pool) (field : counter) (by_ : Z) : idx_fetcher_pool :=
  let s := pool_stats p in
  let add (f : counter) (v : Z) := if bool_decide (field = f) then u64 (v + by_) else v in
  Pool (worker_count p) (idle_ms p) (stop p) (span p)
    (FetcherStats (add RangesClaimed (ranges_claimed s)) (add BlocksFetched (blocks_fetched s))
       (add SlotsAbsent (slots_absent s)) (add FetchFailures (fetch_failures s))
       (add RangesAbandoned (ranges_abandoned s)) (span_narrowings s) (workers s)).

(** What answers a worker while it works a range: [getBlocks]; the stop flag before
    each listed slot; the block of a slot, its document and its value; and the
    ring. *)
Record answers := Answers {
  get_blocks : result (list Z);
  stop_before : nat -> bool;
  get_block : Z -> result (option Z * Z);
  ring_publish : Z -> result unit
}.

(** src/src/fetcher.c:131-145 [publish_block]: the entry. *)
Definition block_entry (slot : Z) (response : option Z * Z) : idx_ring_entry :=
  RingEntry 0 slot response.1 response.2 0 0.

(** src/src/fetcher.c:222-281 [work_range]: the loop over the slots the chain has a
    block for, from the [i]-th one.  [None] is the loop's early return; otherwise the
    slot everything below was dealt with. *)
Fixpoint work_slots (env : answers) (last : Z) (slots : list Z) (i : nat) (cursor : Z) : list action * option Z :=
  match slots with
  | [] => ([], Some cursor)
  | slot :: slots =>
      if stop_before env i then ([], Some cursor)
      else if (slot <? cursor) || (last <? slot) then work_slots env last slots (S i) cursor
      else
        let skipped :=
          if cursor <? slot then [Resolve cursor (u64 (slot - 1)); Bump SlotsAbsent (u64 (slot - cursor))] else [] in
        match get_block env slot with
        | Err IDX_ERR_NOT_FOUND =>
            let '(acts, out) := work_slots env last slots (S i) (u64 (slot + 1)) in
            (skipped ++ [Resolve slot slot; Bump SlotsAbsent 1] ++ acts, out)
        | Err _ => (skipped ++ [Release slot last; Bump FetchFailures 1], None)
        | Ok response =>
            match ring_publish env slot with
            | Err _ => (skipped ++ [Release slot last], None)
            | Ok _ =>
                let '(acts, out) := work_slots env last slots (S i) (u64 (slot + 1)) in
                (skipped ++ [Publish (block_entry slot response); Bump BlocksFetched 1] ++ acts, out)
            end
        end
  end.

(** src/src/fetcher.c:154-290 [work_range] *)
Definition work_range (env : answers) (range : Z * Z) : list action :=
  let '(first, last) := range in
  let width := u64 (last - first + 1) in
  match get_blocks env with
  | Err IDX_ERR_NOT_FOUND => [Resolve first last; Bump SlotsAbsent width]
  | Err IDX_ERR_REMOTE =>
      if 1 <? width then [Narrow width; Release first last]
      else [Resolve first last; Bump RangesAbandoned 1]
  | Err _ => [Release first last; Bump FetchFailures 1]
  | Ok slots =>
      match work_slots env last slots 0 first with
      | (acts, None) => acts
      | (acts, Some cursor) =>
          acts ++ (if cursor <=? last then [Resolve cursor last; Bump SlotsAbsent (u64 (last - cursor + 1))] else [])
      end
  end.

(** What an action does to the pool. *)
Definition pool_act (p : idx_fetcher_pool) (a : action) : idx_fetcher_pool :=
  match a with
  | Narrow width => narrow_span p width
  | Bump field by_ => bump p field by_
  | _ => p
  end.

(** src/src/fetcher.c:292-307 [run_worker]: one turn, what the claim gave: [None]
    when the worker idles. *)
Definition worker_turn (claim : option (Z * Z)) (env : answers) : list action :=
  match claim with
  | None => []
  | Some range => Bump RangesClaimed 1 :: work_range env range
  end.

(** How opening a client and starting a thread go for the [i]-th worker. *)
Record start_env := StartEnv {
  rpc_open : nat -> result unit;
  pthread_create : nat -> bool
}.

(** src/src/fetcher.c:374-391 [idx_fetcher_pool_start]: the loop, [todo] workers to
    start from the [i]-th: the status, how many run, and the clients closed. *)
Fixpoint start_workers (env : start_env) (todo i : nat) : result unit * nat * list nat :=
  match todo with
  | O => (Ok tt, i, [])
  | S todo =>
      match rpc_open env i with
      | Err e => (Err e, i, [])
      | Ok _ => if pthread_create env i then start_workers env todo (S i) else (IDX_FAIL IDX_ERR_INTERNAL, i, [i])
      end
  end.

(** src/src/fetcher.c:410-431 [idx_fetcher_pool_stop]: every running worker joined,
    then its client closed; the clients. *)
Definition idx_fetcher_pool_stop (running : nat) : list nat := List.seq 0 running.

(** [sizeof(idx_fetcher_worker)] *)
Definition sizeof_worker : Z := 32.

(** src/src/fetcher.c:315-407 [idx_fetcher_pool_start]: with the options' span and
    idle time (0 for the default), whether an endpoint is configured, the workers
    wanted and the heap; the pool, and the clients closed on the way. *)
Definition idx_fetcher_pool_start (has_url : bool) (wanted claim_span idle : Z) (env : start_env) (h : heap)
    : result idx_fetcher_pool * list nat * heap :=
  if negb has_url then (IDX_FAIL IDX_ERR_INVALID_ARG, [], h)
  else
    let wanted := if wanted =? 0 then 1 else wanted in
    let '(ok, h) := malloc h in
    if negb ok then (IDX_FAIL IDX_ERR_NO_MEMORY, [], h)
    else
      let claim_span := if claim_span =? 0 then IDX_FETCHER_DEFAULT_CLAIM_SPAN else claim_span in
      let idle := if idle <=? 0 then IDX_FETCHER_DEFAULT_IDLE_MS else idle in
      let '(ok, h) := calloc wanted sizeof_worker h in
      if negb ok then (IDX_FAIL IDX_ERR_NO_MEMORY, [], h)
      else
        match start_workers env (Z.to_nat wanted) 0 with
        | (Err e, running, closed) => (Err e, closed ++ idx_fetcher_pool_stop running, h)
        | (Ok _, running, closed) =>
            (Ok (Pool (Z.of_nat running) idle false claim_span (FetcherStats 0 0 0 0 0 0 (Z.of_nat running))), closed, h)
        end.

(** src/src/fetcher.c:433-442 [idx_fetcher_pool_get_stats] *)
Definition idx_fetcher_pool_get_stats (p : idx_fetcher_pool) : idx_fetcher_stats := pool_stats p.

(** ** What becomes of a slot *)

Inductive fate := Absent | Released | Published.

(** The fate the answers give a slot of a range, given the slots [getBlocks] lists:
    a slot it does not list has no block, and neither has one [getBlock] does not
    find; a fetch or a publication that fails gives back its slot and all above it;
    and a stop makes every slot from there on absent. *)
Fixpoint listed_fate (env : answers) (first last : Z) (slots : list Z) (i : nat) (s : Z) : fate :=
  match slots with
  | [] => Absent
  | x :: slots =>
      if stop_before env i || (s <? x) then Absent
      else if (x <? first) || (last <? x) then listed_fate env first last slots (S i) s
      else
        match get_block env x with
        | Err IDX_ERR_NOT_FOUND => if s =? x then Absent else listed_fate env first last slots (S i) s
        | Err _ => Released
        | Ok _ =>
            match ring_publish env x with
            | Err _ => Released
            | Ok _ => if s =? x then Published else listed_fate env first last slots (S i) s
            end
        end
  end.

Definition slot_fate (env : answers) (range : Z * Z) (s : Z) : fate :=
  match get_blocks env with
  | Err IDX_ERR_NOT_FOUND => Absent
  | Err IDX_ERR_REMOTE => if range.1 <? range.2 then Released else Absent
  | Err _ => Released
  | Ok slots => listed_fate env range.1 range.2 slots 0 s
  end.

Definition act_does (s : Z) (f : fate) (a : action) : Prop :=
  match a, f with
  | Resolve x y, Absent | Release x y, Released => x <= s <= y
  | Publish e, Published => slot e = s
  | _, _ => False
  end.

Definition does (acts : list action) (s : Z) (f : fate) : Prop := Exists (act_does s f) acts.

(** An action within a range, publishing only what was fetched. *)
Definition act_within (env : answers) (lo hi : Z) (a : action) : Prop :=
  match a with
  | Resolve x y | Release x y => lo <= x <= y /\ y <= hi
  | Publish e => lo <= slot e <= hi /\ exists r, get_block env (slot e) = Ok r /\ e = block_entry (slot e) r
  | Narrow w => 1 < w <= hi - lo + 1
  | Bump _ _ => True
  end.

(** The slots an action settles. *)
Definition slots_of (a : action) : option (Z * Z) :=
  match a with
  | Resolve x y | Release x y => Some (x, y)
  | Publish e => Some (slot e, slot e)
  | Narrow _ | Bump _ _ => None
  end.

Definition touches (s : Z) (a : action) : bool :=
  match slots_of a with Some (x, y) => (x <=? s) && (s <=? y) | None => false end.

(** How many of the actions settle a slot. *)
Definition times (s : Z) (acts : list action) : nat := length (filter (touches s) acts).

(** [getBlocks] lists slots in ascending order. *)
Definition ascending (env : answers) : Prop :=
  match get_blocks env with Ok slots => StronglySorted Z.lt slots | Err _ => True end.

Lemma does_app a b s f : does (a ++ b) s f <-> does a s f \/ does b s f.
Proof. apply Exists_app. Qed.

Lemma does_cons a acts s f : does (a :: acts) s f <-> act_does s f a \/ does acts s f.
Proof. apply Exists_cons. Qed.

Lemma does_nil s f : does [] s f <-> False.
Proof. apply Exists_nil. Qed.

(** The actions of the loop and of the resolution after it. *)
Definition finished (last : Z) (r : list action * option Z) : list action :=
  match r with
  | (acts, None) => acts
  | (acts, Some cursor) =>
      acts ++ (if cursor <=? last then [Resolve cursor last; Bump SlotsAbsent (u64 (last - cursor + 1))] else [])
  end.

Lemma finished_app2 last a b r :
  finished last (let '(acts, o) := r in (a ++ b ++ acts, o)) = a ++ b ++ finished last r.
Proof. destruct r as [acts [c|]]; simpl; [by rewrite !app_assoc|done]. Qed.

Lemma does_skipped cursor x s f :
  0 <= cursor -> x < 2 ^ 64 ->
  does (if cursor <? x then [Resolve cursor (u64 (x - 1)); Bump SlotsAbsent (u64 (x - cursor))] else []) s f <->
  f = Absent /\ cursor <= s < x.
Proof.
  intros Hc Hx. destruct (Z.ltb_spec cursor x).
  - rewrite u64_small by (unfold is_u64; lia). rewrite !does_cons, does_nil. destruct f; simpl; intuition (try done; lia).
  - rewrite does_nil. lia.
Qed.

Lemma within_skipped env cursor x last lo :
  0 <= lo -> lo <= cursor -> x <= last -> last < 2 ^ 64 ->
  Forall (act_within env lo last)
    (if cursor <? x then [Resolve cursor (u64 (x - 1)); Bump SlotsAbsent (u64 (x - cursor))] else []).
Proof.
  intros Hc Hx ? ?. destruct (Z.ltb_spec cursor x); [|by apply Forall_nil_2]. rewrite u64_small by (unfold is_u64; lia).
  repeat constructor; simpl; lia.
Qed.

Lemma within_does env lo hi acts s f : Forall (act_within env lo hi) acts -> does acts s f -> lo <= s <= hi.
Proof.
  intros Hw (a & Ha & Hd)%Exists_exists. rewrite Forall_forall in Hw. specialize (Hw a Ha).
  destruct a, f; simpl in *; try done; lia.
Qed.

Lemma within_weaken env lo lo' hi acts :
  lo <= lo' -> Forall (act_within env lo' hi) acts -> Forall (act_within env lo hi) acts.
Proof. intros Hle H. eapply Forall_impl; [exact H|]. intros [] Ha; simpl in *; intuition lia. Qed.

Lemma listed_fate_above env first last slots i s :
  Forall (fun x => s < x) slots -> listed_fate env first last slots i s = Absent.
Proof.
  intros [|x l Hx _]; [done|]. simpl. rewrite (proj2 (Z.ltb_lt _ _) Hx). by rewrite orb_true_r.
Qed.

(** What the loop does about a listed slot [x] of the range and all above it, and
    about the slots skipped before it. *)
Lemma skipped_fates env last cursor x (body : list action) (g : Z -> fate) :
  0 <= cursor <= x -> x <= last -> last < IDX_SLOT_NONE ->
  (forall s, x <= s <= last -> forall f, does body s f <-> g s = f) -> Forall (act_within env x last) body ->
  let acts := (if cursor <? x then [Resolve cursor (u64 (x - 1)); Bump SlotsAbsent (u64 (x - cursor))] else []) ++ body in
  (forall s, cursor <= s <= last -> forall f, does acts s f <-> (if s <? x then Absent else g s) = f) /\
  Forall (act_within env cursor last) acts.
Proof.
  intros Hc Hx Hl Hb Hw. cbn zeta. unfold IDX_SLOT_NONE in *. split.
  - intros s Hs f. rewrite does_app, does_skipped by lia. destruct (Z.ltb_spec s x).
    + split; [intros [[-> _]|Hd]; [done|]|intros <-; left; split; [done|lia]]. apply (within_does env _ _ _ _ _ Hw) in Hd. lia.
    + rewrite <- (Hb s) by lia. split; [intros [[_ ?]|?]; [lia|done]|by right].
  - apply Forall_app. split; [apply within_skipped; lia|]. eapply within_weaken; [|exact Hw]. lia.
Qed.

Lemma handled_fates env last x (mine rest : list action) (f0 : fate) (g : Z -> fate) :
  (forall s f, does mine s f <-> f = f0 /\ s = x) -> Forall (act_within env x last) mine ->
  (forall s, x + 1 <= s <= last -> forall f, does rest s f <-> g s = f) -> Forall (act_within env (x + 1) last) rest ->
  (forall s, x <= s <= last -> forall f, does (mine ++ rest) s f <-> (if s =? x then f0 else g s) = f) /\
  Forall (act_within env x last) (mine ++ rest).
Proof.
  intros Hm Hmw Hr Hw. split.
  - intros s Hs f. rewrite does_app, Hm. destruct (Z.eqb_spec s x) as [->|].
    + split; [intros [[-> _]|Hd]; [done|]|intros <-; by left]. apply (within_does env _ _ _ _ _ Hw) in Hd. lia.
    + rewrite <- (Hr s) by lia. split; [intros [[_ ?]|?]; [lia|done]|by right].
  - apply Forall_app. split; [done|]. eapply within_weaken; [|exact Hw]. lia.
Qed.

Lemma released_fates env last x (tail : list action) :
  x <= last -> (forall s f, ~ does tail s f) -> Forall (act_within env x last) tail ->
  (forall s, x <= s <= last -> forall f, does (Release x last :: tail) s f <-> Released = f) /\
  Forall (act_within env x last) (Release x last :: tail).
Proof.
  intros Hx Ht Hw. split; [|constructor; [simpl; lia|done]]. intros s Hs f. rewrite does_cons.
  pose proof (Ht s f). destruct f; simpl; intuition (try done; lia).
Qed.

Lemma tail_fates env last cursor :
  let acts := finished last ([], Some cursor) in
  (forall s, cursor <= s <= last -> forall f, does acts s f <-> Absent = f) /\ Forall (act_within env cursor last) acts.
Proof.
  simpl. destruct (Z.leb_spec cursor last); [|split; [lia|by apply Forall_nil_2]].
  split; [|repeat constructor; simpl; lia]. intros s Hs' f. rewrite !does_cons, does_nil.
  destruct f; simpl; intuition (try done; lia).
Qed.

Lemma does_bump c n acts s f : does (Bump c n :: acts) s f <-> does acts s f.
Proof. rewrite does_cons. simpl. destruct f; tauto. Qed.

Lemma work_slots_fates env first last slots i cursor :
  0 <= first <= cursor -> cursor <= last + 1 -> last < IDX_SLOT_NONE ->
  StronglySorted Z.lt slots -> Forall (fun x => x < first \/ cursor <= x) slots ->
  let acts := finished last (work_slots env last slots i cursor) in
  (forall s, cursor <= s <= last -> forall f, does acts s f <-> listed_fate env first last slots i s = f) /\
  Forall (act_within env cursor last) acts.
Proof.
  intros Hf Hc Hl Hs Hin. cbn zeta. revert i cursor Hf Hc Hin.
  induction Hs as [|x slots Hs IH Hx]; intros i cursor Hf Hc Hin; [apply tail_fates|].
  apply Forall_cons in Hin as [Hxin Hin]. cbn [work_slots listed_fate].
  destruct (stop_before env i); cbn [orb]; [apply tail_fates|].
  destruct ((x <? cursor) || (last <? x)) eqn:Hskip.
  { destruct (IH (S i) cursor Hf Hc Hin) as [IH1 IH2]. split; [|exact IH2]. intros s Hr f. rewrite IH1 by done.
    destruct (Z.ltb_spec s x).
    - rewrite listed_fate_above; [done|]. eapply Forall_impl; [exact Hx|]. simpl. lia.
    - replace ((x <? first) || (last <? x)) with true; [done|zlia]. }
  assert (cursor <= x <= last) as Hxr by zlia.
  replace ((x <? first) || (last <? x)) with false by zlia.
  assert (u64 (x + 1) = x + 1) as E1 by (apply u64_small; unfold is_u64, IDX_SLOT_NONE in *; lia). rewrite E1.
  destruct (IH (S i) (x + 1)) as [IH1 IH2]; [lia|lia| |].
  { eapply Forall_impl; [exact Hx|]. simpl. lia. }
  set (rest := work_slots env last slots (S i) (x + 1)) in *. clearbody rest. clear IH.
  assert (forall extra : list action, Forall (act_within env x last) extra -> (forall s f, ~ does extra s f) ->
    let acts := finished last ((if cursor <? x then [Resolve cursor (u64 (x - 1)); Bump SlotsAbsent (u64 (x - cursor))] else []) ++
      Release x last :: extra, None) in
    (forall s, cursor <= s <= last -> forall f, does acts s f <-> (if s <? x then Absent else Released) = f) /\
    Forall (act_within env cursor last) acts) as Hrel.
  { intros extra He Hd. cbn [finished]. destruct (released_fates env last x extra) as [H1 H2]; [lia|done..|].
    by apply (skipped_fates env last cursor x _ (fun _ => Released)); [lia..| |]. }
  assert (forall (mine : list action) (f0 : fate),
    (forall s f, does mine s f <-> f = f0 /\ s = x) -> Forall (act_within env x last) mine ->
    let acts := finished last (let '(acts, out) := rest in
      ((if cursor <? x then [Resolve cursor (u64 (x - 1)); Bump SlotsAbsent (u64 (x - cursor))] else []) ++ mine ++ acts, out)) in
    (forall s, cursor <= s <= last -> forall f, does acts s f <->
      (if s <? x then Absent else if s =? x then f0 else listed_fate env first last slots (S i) s) = f) /\
    Forall (act_within env cursor last) acts) as Hmine.
  { intros mine f0 Hm Hw. cbn zeta. rewrite finished_app2.
    destruct (handled_fates env last x mine (finished last rest) f0 (listed_fate env first last slots (S i))) as [H1 H2]; [done..|].
    by apply (skipped_fates env last cursor x _ (fun s => if s =? x then f0 else listed_fate env first last slots (S i) s)); [lia..| |]. }
  assert (forall s f, ~ does [] s f) as Hnil by (by intros s f []%does_nil).
  destruct (get_block env x) as [r|e] eqn:Hb; [destruct (ring_publish env x) as [[]|e]|].
  - apply Hmine; [intros s f; rewrite does_cons, does_bump, does_nil; destruct f; simpl; intuition congruence|].
    repeat constructor; simpl; eauto; lia.
  - by apply Hrel.
  - destruct e; try (by apply Hrel; [repeat constructor|intros s f; rewrite does_bump; apply Hnil]).
    apply Hmine; [intros s f; rewrite does_cons, does_bump, does_nil; destruct f; simpl; intuition (congruence || lia)|].
    repeat constructor; simpl; lia.
Qed.

Lemma work_range_fates env first last :
  0 <= first <= last -> last < IDX_SLOT_NONE -> ascending env ->
  (forall s, first <= s <= last -> forall f, does (work_range env (first, last)) s f <-> slot_fate env (first, last) s = f) /\
  Forall (act_within env first last) (work_range env (first, last)).
Proof.
  intros Hf Hl Hasc. unfold work_range, slot_fate, ascending in *. cbn [fst snd].
  assert (u64 (last - first + 1) = last - first + 1) as Ew by (apply u64_small; unfold is_u64, IDX_SLOT_NONE in *; lia).
  destruct (get_blocks env) as [slots|e].
  - destruct (work_slots_fates env first last slots 0 first) as [H1 H2]; [lia|lia|done|done|apply Forall_forall; lia|].
    unfold finished in *. by destruct (work_slots env last slots 0 first) as [acts [c|]].
  - assert (forall n c, (forall s, first <= s <= last -> forall f, does [Resolve first last; Bump c n] s f <-> Absent = f) /\
      Forall (act_within env first last) [Resolve first last; Bump c n]) as Habs.
    { intros n c. split; [|repeat constructor; simpl; lia]. intros s Hs f. rewrite does_cons, does_bump, does_nil.
      destruct f; simpl; intuition (congruence || lia). }
    assert (forall acts, Forall (act_within env first last) acts -> (forall s f, ~ does acts s f) ->
      (forall s, first <= s <= last -> forall f, does (Release first last :: acts) s f <-> Released = f) /\
      Forall (act_within env first last) (Release first last :: acts)) as Hrel.
    { intros acts Hw Hd. by apply released_fates; [lia| |]. }
    assert (forall s f, ~ does [] s f) as Hnil by (by intros s f []%does_nil).
    destruct e; try (by apply Hrel; [repeat constructor|intros s f; rewrite does_bump; apply Hnil]); [apply Habs|].
    rewrite Ew. destruct (Z.ltb_spec first last).
    + rewrite (proj2 (Z.ltb_lt 1 _)) by lia. destruct (Hrel [] ltac:(constructor) Hnil) as [H1 H2].
      split; [|constructor; [simpl; lia|done]]. intros s Hs f. rewrite does_cons, H1 by done. simpl. destruct f; tauto.
    + rewrite (proj2 (Z.ltb_ge 1 _)) by lia. apply Habs.
Qed.

(** The ranges of the actions follow one another from [lo] to [hi]. *)
Fixpoint tiles (lo hi : Z) (acts : list action) : Prop :=
  match acts with
  | [] => lo = hi + 1
  | a :: acts =>
      match slots_of a with Some (x, y) => x = lo /\ x <= y /\ tiles (y + 1) hi acts | None => tiles lo hi acts end
  end.

Lemma tiles_app lo mid hi a b : tiles lo mid a -> tiles (mid + 1) hi b -> tiles lo hi (a ++ b).
Proof.
  revert lo. induction a as [|x a IH]; intros lo; cbn [tiles app]; [by intros ->|].
  destruct (slots_of x) as [[f t]|]; [|apply IH]. intros (-> & Hft & Ha) Hb. auto.
Qed.

Lemma tiles_le lo hi acts : tiles lo hi acts -> lo <= hi + 1.
Proof.
  revert lo. induction acts as [|a acts IH]; intros lo; cbn [tiles]; [lia|].
  destruct (slots_of a) as [[x y]|]; [|apply IH]. intros (-> & Hxy & Ht%IH). lia.
Qed.

Lemma times_cons s a acts : times s (a :: acts) = ((if touches s a then 1 else 0) + times s acts)%nat.
Proof. unfold times. rewrite filter_cons. destruct (touches s a); cbn; by destruct (decide _). Qed.

Lemma times_app s a b : times s (a ++ b) = (times s a + times s b)%nat.
Proof. unfold times. by rewrite filter_app, length_app. Qed.

(** So every slot between is settled once, and no other is. *)
Lemma tiles_times lo hi acts s : tiles lo hi acts -> times s acts = if (lo <=? s) && (s <=? hi) then 1%nat else 0%nat.
Proof.
  revert lo. induction acts as [|a acts IH]; intros lo; cbn [tiles].
  { intros ->. replace ((hi + 1 <=? s) && (s <=? hi)) with false by zlia. done. }
  rewrite times_cons. unfold touches. destruct (slots_of a) as [[x y]|]; [|intros Ht; by apply IH].
  intros (-> & Hxy & Ht). pose proof (tiles_le _ _ _ Ht). rewrite (IH _ Ht).
  destruct ((lo <=? s) && (s <=? y)) eqn:Hd.
  - replace ((y + 1 <=? s) && (s <=? hi)) with false by zlia. by replace ((lo <=? s) && (s <=? hi)) with true by zlia.
  - cbn [Nat.add]. replace ((y + 1 <=? s) && (s <=? hi)) with ((lo <=? s) && (s <=? hi)); [done|]. apply eq_true_iff_eq. zlia.
Qed.

Lemma tiles_skipped cursor x :
  0 <= cursor <= x -> x < 2 ^ 64 ->
  tiles cursor (x - 1) (if cursor <? x then [Resolve cursor (u64 (x - 1)); Bump SlotsAbsent (u64 (x - cursor))] else []).
Proof.
  intros Hc Hx. destruct (Z.ltb_spec cursor x); cbn [tiles slots_of]; [|lia]. rewrite u64_small by (unfold is_u64; lia). lia.
Qed.

Lemma work_slots_tiles env last slots i cursor :
  0 <= cursor <= last + 1 -> last < IDX_SLOT_NONE -> tiles cursor last (finished last (work_slots env last slots i cursor)).
Proof.
  intros Hc Hl. assert (forall c, 0 <= c <= last + 1 -> tiles c last (finished last ([], Some c))) as Htail.
  { intros c Hcc. cbn [finished app]. destruct (Z.leb_spec c last); cbn [tiles slots_of]; lia. }
  revert i cursor Hc. induction slots as [|x slots IH]; intros i cursor Hc; cbn [work_slots]; [by apply Htail|].
  destruct (stop_before env i); [by apply Htail|]. destruct ((x <? cursor) || (last <? x)) eqn:Hskip; [by apply IH|].
  assert (cursor <= x <= last) as Hx by zlia.
  assert (u64 (x + 1) = x + 1) as E1 by (apply u64_small; unfold is_u64, IDX_SLOT_NONE in *; lia). rewrite E1.
  assert (forall rest : list action, tiles x last rest -> tiles cursor last
    ((if cursor <? x then [Resolve cursor (u64 (x - 1)); Bump SlotsAbsent (u64 (x - cursor))] else []) ++ rest)) as Hskipped.
  { intros rest Hr. apply (tiles_app _ (x - 1)); [apply tiles_skipped; unfold IDX_SLOT_NONE in *; lia|].
    by replace (x - 1 + 1) with x by lia. }
  specialize (IH (S i) (x + 1) ltac:(lia)).
  destruct (get_block env x) as [r|e]; [destruct (ring_publish env x) as [[]|e]|destruct e];
    rewrite ?finished_app2; cbn [finished]; apply Hskipped; cbn [app tiles slots_of block_entry slot]; auto with lia.
Qed.

Lemma work_range_tiles env first last :
  0 <= first <= last -> last < IDX_SLOT_NONE -> tiles first last (work_range env (first, last)).
Proof.
  intros Hf Hl. unfold work_range. destruct (get_blocks env) as [slots|e].
  - pose proof (work_slots_tiles env last slots 0 first ltac:(lia) Hl) as Ht. unfold finished in Ht.
    by destruct (work_slots env last slots 0 first) as [acts [c|]].
  - destruct e; try (cbn [tiles slots_of]; lia). destruct (_ <? _); cbn [tiles slots_of]; lia.
Qed.

Lemma narrow_span_le p w : 1 <= span p -> span (narrow_span p w) <= span p /\ 1 <= span (narrow_span p w) /\
  (1 < w -> span (narrow_span p w) < w).
Proof.
  intros Hp. unfold narrow_span. destruct ((w <=? 1) || (span p <? w)) eqn:E; [zlia|]. cbn [span].
  pose proof (Z.div_lt w 2). assert (1 <= w / 2) by (apply Z.div_le_lower_bound; zlia). zlia.
Qed.

Lemma narrow_span_above cap p w : 1 <= cap -> (cap + 1) / 2 <= span p -> cap < w -> (cap + 1) / 2 <= span (narrow_span p w).
Proof.
  intros Hc Hp Hw. unfold narrow_span. destruct ((w <=? 1) || (span p <? w)); [done|]. cbn [span].
  apply Z.div_le_mono; lia.
Qed.

Lemma start_workers_spec env n i :
  match start_workers env n i with
  | (Ok _, running, closed) => running = (i + n)%nat /\ closed = []
  | (Err e, k, closed) =>
      (i <= k < i + n)%nat /\ (forall j, (i <= j < k)%nat -> rpc_open env j = Ok tt) /\
      match rpc_open env k with
      | Err e' => e = e' /\ closed = []
      | Ok _ => pthread_create env k = false /\ e = IDX_ERR_INTERNAL /\ closed = [k]
      end
  end.
Proof.
  revert i. induction n as [|n IH]; intros i; cbn [start_workers]; [split; [lia|done]|].
  destruct (rpc_open env i) as [[]|e] eqn:Ho; [destruct (pthread_create env i) eqn:Hc|].
  - specialize (IH (S i)). destruct (start_workers env n (S i)) as [[[[]|e] k] closed].
    + split; [lia|tauto].
    + destruct IH as (Hk & Hj & Hrest). split_and!; [lia..| |done]. intros j Hjk.
      destruct (decide (j = i)) as [->|]; [done|]. apply Hj. lia.
  - rewrite Ho. split_and!; (done || lia || (intros; lia)).
  - rewrite Ho. split_and!; (done || lia || (intros; lia)).
Qed.

(** ** Properties *)

(** C5. A worker accounts for every slot of the range it claimed, each once: whatever the
    answers, exactly one of its actions settles the slot, and none settles a slot outside
    the range.  And when [getBlocks] lists slots in strictly ascending order, which the
    code relies on and does not check (listed out of order, a slot below the cursor is
    passed over), what that action is, a resolution, a release or a publication, is
    what the answers say of the slot by itself, and what is published is the block that
    was fetched. *)
Theorem fetcher_range_exact env first last :
  0 <= first <= last -> last < IDX_SLOT_NONE ->
  (forall s, times s (work_range env (first, last)) = if (first <=? s) && (s <=? last) then 1%nat else 0%nat) /\
  (ascending env ->
   (forall s, first <= s <= last -> forall f, does (work_range env (first, last)) s f <-> slot_fate env (first, last) s = f) /\
   Forall (act_within env first last) (work_range env (first, last))).
Proof.
  intros Hf Hl. split; [intros s; by apply tiles_times, work_range_tiles|by apply work_range_fates].
Qed.

(** C38. A stop request loses slots.  A worker that is told to stop before the first
    block of its range gives none of the range back: all of it is resolved as
    absent, the slots the endpoint has just listed as having a block included. *)
Theorem fetcher_stop_forgets env first last slots :
  0 <= first <= last -> last < IDX_SLOT_NONE -> get_blocks env = Ok slots -> slots <> [] -> stop_before env 0 = true ->
  work_range env (first, last) = [Resolve first last; Bump SlotsAbsent (last - first + 1)].
Proof.
  intros Hf Hl Hg Hne Hs. unfold work_range. rewrite Hg. destruct slots as [|x slots]; [done|].
  cbn [work_slots]. rewrite Hs. rewrite (proj2 (Z.leb_le _ _)) by lia. cbn [app].
  by rewrite u64_small by (unfold is_u64, IDX_SLOT_NONE in *; lia).
Qed.

(** Refused claims find the endpoint's cap.  Whatever widths above a cap are
    refused, in whatever order and however many workers report each, the span stays
    at least half the cap, never grows, and is below every width refused; a width
    reported twice narrows once. *)
Theorem narrow_span_converges cap p widths :
  1 <= cap -> (cap + 1) / 2 <= span p -> Forall (fun w => cap < w) widths ->
  let p' := foldl narrow_span p widths in
  (cap + 1) / 2 <= span p' <= span p /\ Forall (fun w => span p' < w) widths /\
  forall w, narrow_span (narrow_span p' w) w = narrow_span p' w.
Proof.
  intros Hc Hp Hw. cbn zeta. assert (1 <= (cap + 1) / 2) as H1 by (apply Z.div_le_lower_bound; lia).
  assert ((cap + 1) / 2 <= span (foldl narrow_span p widths) <= span p /\ Forall (fun w => span (foldl narrow_span p widths) < w) widths)
    as [Hs Hb].
  { revert p Hp. induction Hw as [|w widths Hw Hws IH]; intros p Hp; cbn [foldl]; [split; [lia|by apply Forall_nil_2]|].
    destruct (narrow_span_le p w) as (N1 & N2 & N3); [lia|].
    destruct (IH (narrow_span p w)) as [IH1 IH2]; [by apply narrow_span_above|].
    split; [lia|]. constructor; [lia|done]. }
  split_and!; [lia..|done|]. set (p' := foldl narrow_span p widths) in *. intros w.
  destruct (narrow_span_le p' w) as (_ & _ & N3); [lia|]. unfold narrow_span at 1.
  destruct (Z.leb_spec w 1); [done|]. cbn [orb]. by rewrite (proj2 (Z.ltb_lt _ _)) by lia.
Qed.

(** Starting the pool leaks nothing: it starts the workers asked for (one when
    none is), or it fails and every client it had opened is closed. *)
Theorem fetcher_start_cleans wanted claim_span idle env r closed h' :
  0 <= wanted < 2 ^ 32 -> idx_fetcher_pool_start true wanted claim_span idle env [] = (r, closed, h') ->
  match r with
  | Ok p => worker_count p = Z.max wanted 1 /\ 0 < idle_ms p /\ span p <> 0 /\ stop p = false /\ closed = []
  | Err e => exists k, (forall j, (j < k)%nat -> rpc_open env j = Ok tt) /\
      match rpc_open env k with
      | Err e' => e = e' /\ closed = List.seq 0 k
      | Ok _ => pthread_create env k = false /\ e = IDX_ERR_INTERNAL /\ closed = k :: List.seq 0 k
      end
  end.
Proof.
  intros Hw. unfold idx_fetcher_pool_start. cbn [negb malloc]. set (n := if wanted =? 0 then 1 else wanted).
  assert (n = Z.max wanted 1) as En by (unfold n; destruct (Z.eqb_spec wanted 0); lia).
  unfold calloc. rewrite (proj2 (Z.ltb_ge _ _)) by (unfold SIZE_MAX, sizeof_worker; lia). cbn [negb malloc].
  pose proof (start_workers_spec env (Z.to_nat n) 0) as Hs.
  destruct (start_workers env (Z.to_nat n) 0) as [[[[]|e] k] cl]; intros [= <- <- <-].
  - destruct Hs as [-> ->]. cbn [worker_count idle_ms span stop].
    split_and!; [lia|destruct (Z.leb_spec idle 0); unfold IDX_FETCHER_DEFAULT_IDLE_MS; lia| |done|done].
    destruct (Z.eqb_spec claim_span 0); [by vm_compute|done].
  - destruct Hs as (_ & Hj & Hk). exists k. split; [intros j ?; apply Hj; lia|].
    unfold idx_fetcher_pool_stop. by destruct (rpc_open env k); destruct_and!; subst.
Qed.

(** ** Witnesses *)

(** Slots 10 to 16: [getBlocks] lists 11, 12, 14 and 16; 12 was pruned, fetching 16
    fails. *)
Definition sample_answers : answers :=
  Answers (Ok [11; 12; 14; 16]) (fun _ => false)
    (fun s => if s =? 12 then Err IDX_ERR_NOT_FOUND else if s =? 16 then Err IDX_ERR_TIMEOUT else Ok (Some s, s)) (fun _ => Ok tt).

Lemma fetcher_range_exact_witness :
  work_range sample_answers (10, 16) =
    [Resolve 10 10; Bump SlotsAbsent 1; Publish (RingEntry 0 11 (Some 11) 11 0 0); Bump BlocksFetched 1;
     Resolve 12 12; Bump SlotsAbsent 1; Resolve 13 13; Bump SlotsAbsent 1;
     Publish (RingEntry 0 14 (Some 14) 14 0 0); Bump BlocksFetched 1; Resolve 15 15; Bump SlotsAbsent 1;
     Release 16 16; Bump FetchFailures 1] /\
  (forall s, times s (work_range sample_answers (10, 16)) = if (10 <=? s) && (s <=? 16) then 1%nat else 0%nat) /\
  (forall s, 10 <= s <= 16 -> forall f, does (work_range sample_answers (10, 16)) s f <-> slot_fate sample_answers (10, 16) s = f).
Proof.
  split; [reflexivity|]. destruct (fetcher_range_exact sample_answers 10 16) as [H1 H2]; [lia|by vm_compute|].
  split; [exact H1|]. apply H2. unfold ascending. simpl. repeat constructor.
Defined.

Lemma fetcher_stop_forgets_witness :
  work_range (Answers (Ok [10; 11]) (fun _ => true) (fun s => Ok (Some s, s)) (fun _ => Ok tt)) (10, 11) =
    [Resolve 10 11; Bump SlotsAbsent 2].
Proof. by apply (fetcher_stop_forgets _ 10 11 [10; 11]); [lia|vm_compute|..]. Defined.

Lemma narrow_span_converges_witness :
  let p := Pool 4 250 false 64 (FetcherStats 0 0 0 0 0 0 4) in
  let p' := foldl narrow_span p [64; 64; 32; 64; 16; 8; 16] in
  span p' = 4 /\ (5 + 1) / 2 <= span p' <= span p.
Proof.
  split; [reflexivity|]. apply (narrow_span_converges 5 (Pool 4 250 false 64 (FetcherStats 0 0 0 0 0 0 4)) [64; 64; 32; 64; 16; 8; 16]).
  - lia.
  - by vm_compute.
  - repeat constructor.
Defined.

Lemma fetcher_start_cleans_witness :
  exists closed, idx_fetcher_pool_start true 4 0 0 (StartEnv (fun _ => Ok tt) (fun i => negb (Nat.eqb i 2))) [] =
    (IDX_FAIL IDX_ERR_INTERNAL, closed, []) /\ exists k, closed = k :: List.seq 0 k.
Proof.
  eexists. split; [reflexivity|].
  destruct (fetcher_start_cleans 4 0 0 (StartEnv (fun _ => Ok tt) (fun i => negb (Nat.eqb i 2))) _ _ [] ltac:(lia) eq_refl)
    as (k & _ & _ & _ & Hc). by exists k.
Defined.
