(* ===== verification/Processor.v ===== *)
(** * pipeline.c: the processing thread

    The thread that takes blocks from the two rings, hands them to the consumer,
    keeps the cursor and the gap set, and persists the position; and the fetchers
    that work on the gap set meanwhile.  What the two sides share is [shared]; every
    access the processing thread makes to it takes a lock, and just before each such
    access the workers may run for as long as they like: [schedule] lists what they
    do then, event by event, an event being one time a worker holds a lock.  A release
    is three events, since [idx_gaps_release] holds the lock three times, so that a
    run over every schedule is a run over every interleaving of the threads at the
    locks, those inside a release included.  The gap set is whatever promises
    [GapSpec]; the consumer's answers, the clock and the system calls of a save are
    the environment. *)

From S2P Require Import Prelude Double Json Ring Gaps GapSet SlotCursor Fetcher.
#[local] Open Scope Z_scope.

(** src/include/pipeline.h:47-50 [idx_block_origin] *)
Inductive idx_block_origin := IDX_BLOCK_FROM_SUBSCRIPTION | IDX_BLOCK_FROM_RPC.

#[export] Instance origin_eq_dec : EqDecision idx_block_origin.
Proof. solve_decision. Defined.

(** src/src/pipeline.c:100-108 [idx_block_origin_name] *)
Definition idx_block_origin_name (origin : idx_block_origin) : bytes :=
  match origin with
  | IDX_BLOCK_FROM_SUBSCRIPTION => lit "blockSubscribe"
  | IDX_BLOCK_FROM_RPC => lit "getBlock"
  end.

(** src/include/pipeline.h:60-75 [idx_raw_block]: without the arena. *)
Record idx_raw_block := RawBlock {
  block_slot : Z;
  block_value : idx_json_val;
  block_bytes : Z;
  block_origin : idx_block_origin
}.

(** The counters of [idx_pipeline_stats] the processing thread adds to. *)
Record pcounters := PCounters {
  blocks : Z;
  slots_missed : Z;
  handler_errors : Z;
  save_failures : Z;
  queue_dropped : Z;
  blocks_recovered : Z
}.

Inductive pcounter := Blocks | SlotsMissed | HandlerErrors | SaveFailures | QueueDropped | BlocksRecovered.

(** src/include/pipeline.h:119-163 [idx_pipeline_stats]: what the processing thread
    writes. *)
Record proc_stats := ProcStats {
  counters : pcounters;
  tip_slot : Z;
  tip_block_time : Z;
  has_tip_block_time : bool;
  stat_last_indexed : Z
}.

(** src/src/pipeline.c:80-84 [idx_pipeline]: the processing thread's fields, with
    the cursor it alone writes. *)
Record processor := Processor {
  cursor : idx_slot_cursor;
  pstats : proc_stats;
  last_save : double;
  save_warned : bool;
  expected_seq : Z;
  highest_committed : Z
}.

Definition set_pstats (st : proc_stats) (p : processor) : processor :=
  Processor (cursor p) st (last_save p) (save_warned p) (expected_seq p) (highest_committed p).
Definition set_cursor (c : idx_slot_cursor) (p : processor) : processor :=
  Processor c (pstats p) (last_save p) (save_warned p) (expected_seq p) (highest_committed p).
Definition set_saved (t : double) (p : processor) : processor :=
  Processor (cursor p) (pstats p) t (save_warned p) (expected_seq p) (highest_committed p).
Definition set_warned (p : processor) : processor :=
  Processor (cursor p) (pstats p) (last_save p) true (expected_seq p) (highest_committed p).
Definition set_expected_seq (n : Z) (p : processor) : processor :=
  Processor (cursor p) (pstats p) (last_save p) (save_warned p) n (highest_committed p).
Definition set_highest (slot : Z) (p : processor) : processor :=
  Processor (cursor p) (pstats p) (last_save p) (save_warned p) (expected_seq p) slot.

(** [<c> += n] *)
Definition add_counter (c : pcounter) (n : Z) (x : pcounters) : pcounters :=
  let '(PCounters b m h s q r) := x in
  match c with
  | Blocks => PCounters (u64 (b + n)) m h s q r
  | SlotsMissed => PCounters b (u64 (m + n)) h s q r
  | HandlerErrors => PCounters b m (u64 (h + n)) s q r
  | SaveFailures => PCounters b m h (u64 (s + n)) q r
  | QueueDropped => PCounters b m h s (u64 (q + n)) r
  | BlocksRecovered => PCounters b m h s q (u64 (r + n))
  end.

Definition count (c : pcounter) (n : Z) (p : processor) : processor :=
  let st := pstats p in
  set_pstats (ProcStats (add_counter c n (counters st)) (tip_slot st) (tip_block_time st) (has_tip_block_time st)
                (stat_last_indexed st)) p.

Section Threads.
Context {G : Type} `{GapOps G}.

(** Where a worker is in [idx_gaps_release]: outside; past its first section, which reads
    the count of resolved slots; or past its second, which resolves the range it has yet
    to put back. *)
Inductive releasing := NotReleasing | Counted (resolved_before f t : Z) | Dropped (resolved_before f t : Z).

(** A worker at work: its range, its answers, what it has yet to do, and where it is in
    a release. *)
Record working := Working { w_range : Z * Z; w_answers : answers; w_todo : list action; w_releasing : releasing }.

(** What the threads share: the gap set and the allocator behind it, the pool, the
    widths idle workers read from it and have yet to claim with, the workers at work, and
    the recovery ring as the queue it is (it blocks instead of dropping).  [crowded] tells, for the theorems, whether a range was ever put in when
    the set was full. *)
Record shared := Shared {
  gaps : G;
  memory : heap;
  pool : idx_fetcher_pool;
  widths : list Z;
  running : list working;
  recovered : list idx_ring_entry;
  crowded : bool
}.

Definition set_gaps (g : G) (h : heap) (s : shared) : shared := Shared g h (pool s) (widths s) (running s) (recovered s) (crowded s).

Definition set_running (l : list working) (s : shared) : shared :=
  Shared (gaps s) (memory s) (pool s) (widths s) l (recovered s) (crowded s).

Definition set_widths (l : list Z) (s : shared) : shared :=
  Shared (gaps s) (memory s) (pool s) l (running s) (recovered s) (crowded s).

Definition set_recovered (q : list idx_ring_entry) (s : shared) : shared :=
  Shared (gaps s) (memory s) (pool s) (widths s) (running s) q (crowded s).

(** A range is about to be put in. *)
Definition note_full (s : shared) : shared :=
  Shared (gaps s) (memory s) (pool s) (widths s) (running s) (recovered s) (crowded s || g_full (gaps s)).

(** One action of a worker; a release is not one, [one_step] takes it section by
    section. *)
Definition act (a : action) (s : shared) : shared :=
  match a with
  | Resolve f t => let '(g, h) := g_resolve f t (memory s) (gaps s) in set_gaps g h s
  | Release _ _ => s
  | Publish entry => set_recovered (recovered s ++ [entry]) s
  | Narrow _ | Bump _ _ =>
      Shared (gaps s) (memory s) (pool_act (pool s) a) (widths s) (running s) (recovered s) (crowded s)
  end.

(** src/src/gaps.c:301-326 [idx_gaps_release]: what a worker does next, while it holds a
    lock once: a section of the release it is in, the first one of a release that is
    next (which returns at once for a range that ends before it starts), or its next
    action. *)
Definition one_step (k : working) (s : shared) : working * shared :=
  let '(Working range env todo rel) := k in
  match rel, todo with
  | Counted n f t, _ =>
      let '(g, h) := g_resolve f t (memory s) (gaps s) in (Working range env todo (Dropped n f t), set_gaps g h s)
  | Dropped n f t, _ =>
      let s := note_full s in
      let '(_, g, h) := g_put_back n f t (memory s) (gaps s) in (Working range env todo NotReleasing, set_gaps g h s)
  | NotReleasing, [] => (k, s)
  | NotReleasing, Release f t :: todo =>
      (Working range env todo (if t <? f then NotReleasing else Counted (g_resolved (gaps s)) f t), s)
  | NotReleasing, a :: todo => (Working range env todo NotReleasing, act a s)
  end.

(** An event of the fetchers: an idle worker reads the width of a claim; the one that read
    the [i]-th of the widths claims a range, whose answers will be the ones given; or the
    worker of the [i]-th claim takes its next step. *)
Inductive event := Reads | Claims (i : nat) (env : answers) | Acts (i : nat).

Definition happens (e : event) (s : shared) : shared :=
  match e with
  | Reads => set_widths (widths s ++ [current_span (pool s)]) s
  | Claims i env =>
      match widths s !! i with
      | None => s
      | Some width =>
          let '(claim, g, h) := g_claim width (memory s) (gaps s) in
          let s := set_gaps g h (set_widths (delete i (widths s)) s) in
          match claim with
          | None => s
          | Some range => set_running (running s ++ [Working range env (worker_turn claim env) NotReleasing]) s
          end
      end
  | Acts i =>
      match running s !! i with
      | Some k => let '(k, s) := one_step k s in set_running (<[i := k]> (running s)) s
      | None => s
      end
  end.

(** The ranges between the second and the third section of their release. *)
Definition under_way (l : list working) : list (Z * Z) :=
  omap (fun k => match w_releasing k with Dropped _ f t => Some (f, t) | _ => None end) l.

(** The processing thread's world; [accepted] lists the slots the consumer took,
    [first_live] is the first slot that came over the socket, and [passing] tells, for
    the theorems, the releases that were under way when the position was last
    computed. *)
Record world := World {
  proc : processor;
  share : shared;
  schedule : list (list event);
  files : disk;
  accepted : list Z;
  first_live : Z;
  passing : list (Z * Z)
}.

Definition set_proc (p : processor) (w : world) : world :=
  World p (share w) (schedule w) (files w) (accepted w) (first_live w) (passing w).
Definition set_share (s : shared) (w : world) : world :=
  World (proc w) s (schedule w) (files w) (accepted w) (first_live w) (passing w).
Definition set_files (d : disk) (w : world) : world :=
  World (proc w) (share w) (schedule w) d (accepted w) (first_live w) (passing w).
Definition set_accepted (l : list Z) (w : world) : world :=
  World (proc w) (share w) (schedule w) (files w) l (first_live w) (passing w).
Definition set_first_live (slot : Z) (w : world) : world :=
  World (proc w) (share w) (schedule w) (files w) (accepted w) slot (passing w).

Definition set_passing (l : list (Z * Z)) (w : world) : world :=
  World (proc w) (share w) (schedule w) (files w) (accepted w) (first_live w) l.

(** What the workers do before the lock is taken. *)
Definition lock (w : world) : world :=
  match schedule w with
  | [] => w
  | events :: later =>
      World (proc w) (foldl (fun s e => happens e s) (share w) events) later (files w) (accepted w) (first_live w) (passing w)
  end.

(** src/src/pipeline.c:211-234 [observe_live_slot] *)
Definition observe_live_slot (slot : Z) (w : world) : world :=
  let previous := last_seen (cursor (proc w)) in
  let w := set_first_live (if first_live w =? IDX_SLOT_NONE then slot else first_live w) w in
  let w :=
    if negb (previous =? IDX_SLOT_NONE) && (u64 (previous + 1) <? slot) then
      let from := u64 (previous + 1) in
      let to := u64 (slot - 1) in
      let w := lock (set_proc (count SlotsMissed (u64 (to - from + 1)) (proc w)) w) in
      let s := note_full (share w) in
      let '(_, g, h) := g_add from to (memory s) (gaps s) in
      set_share (set_gaps g h s) w
    else w in
  set_proc (set_cursor (idx_slot_cursor_observe (cursor (proc w)) slot) (proc w)) w.

(** src/src/pipeline.c:242-247 [update_watermark] *)
Definition update_watermark (w : world) : world :=
  let w := lock w in
  let w := set_passing (under_way (running (share w))) w in
  let p := proc w in
  let watermark := g_watermark (gaps (share w)) (highest_committed p) in
  let p := set_cursor (idx_slot_cursor_set_indexed (cursor p) watermark) p in
  let st := pstats p in
  set_proc (set_pstats (ProcStats (counters st) (tip_slot st) (tip_block_time st) (has_tip_block_time st) watermark) p) w.

(** How the world answers while one entry is handled: the consumer, the clock when
    the save asks for it, and the save. *)
Record handling := Handling {
  handler : idx_raw_block -> result unit;
  now : double;
  save : save_env
}.

(** src/src/pipeline.c:249-292 [save_cursor] *)
Definition save_cursor (save_interval_ms : Z) (force : bool) (now : double) (env : save_env) (w : world) : world :=
  let p := proc w in
  match path (cursor p) with
  | [] => w
  | _ =>
      if negb force && (0 <? save_interval_ms) &&
         dlt (dmul (dsub now (last_save p)) (double_of_u64 1000)) (double_of_u64 save_interval_ms)
      then w
      else
        match idx_slot_cursor_save (cursor p) env (files w) with
        | (Err _, d, _) => set_files d (set_proc (set_warned (count SaveFailures 1 p)) w)
        | (Ok _, d, _) => set_files d (set_proc (set_saved now p) w)
        end
  end.

(** src/src/pipeline.c:301-323 [observe_tip] *)
Definition observe_tip (block : idx_raw_block) (p : processor) : processor :=
  let st := pstats p in
  if negb (tip_slot st =? IDX_SLOT_NONE) && (block_slot block <=? tip_slot st) then p
  else
    let st := ProcStats (counters st) (block_slot block) (tip_block_time st) (has_tip_block_time st) (stat_last_indexed st) in
    let block_time := idx_json_get (block_value block) (lit "blockTime") in
    if negb (idx_json_is_present block_time) || idx_json_is_null block_time then set_pstats st p
    else
      match idx_json_read_i64 (block_value block) (lit "blockTime") with
      | Err _ => set_pstats st p
      | Ok seconds => set_pstats (ProcStats (counters st) (tip_slot st) seconds true (stat_last_indexed st)) p
      end.

(** src/src/pipeline.c:330-358 [commit_block] *)
Definition commit_block (save_interval_ms : Z) (env : handling) (block : idx_raw_block) (w : world) : result unit * world :=
  match handler env block with
  | Err status => (Err status, set_proc (count HandlerErrors 1 (proc w)) w)
  | Ok _ =>
      let slot := block_slot block in
      let w := set_accepted (slot :: accepted w) w in
      let p := observe_tip block (count Blocks 1 (proc w)) in
      let p :=
        if (highest_committed p =? IDX_SLOT_NONE) || (highest_committed p <? slot) then set_highest slot p else p in
      let w := lock (set_proc p w) in
      let '(g, h) := g_resolve slot slot (memory (share w)) (gaps (share w)) in
      let w := update_watermark (set_share (set_gaps g h (share w)) w) in
      (Ok tt, save_cursor save_interval_ms false (now env) (save env) w)
  end.

(** What a node of a ring entry is. *)
Context (value_of : Z -> idx_json_val).

(** src/src/pipeline.c:365-377 [handle_entry]: the status, and the documents
    freed. *)
Definition handle_entry (save_interval_ms : Z) (env : handling) (entry : idx_ring_entry) (origin : idx_block_origin)
    (w : world) : result unit * world * list Z :=
  let block := RawBlock (slot entry) (value_of (node entry)) (payload_bytes entry) origin in
  let '(status, w) := commit_block save_interval_ms env block w in
  (status, w, (idx_ring_release (Some entry)).2).

(** What a ring gives. *)
Inductive polled := Closed | Nothing | Entry (e : idx_ring_entry).

(** What the world answers in one pass of the loop: what the live ring gives;
    whether the recovery ring, when it has nothing, is closed; and the handling. *)
Record pass := Pass {
  live_poll : polled;
  recovered_closed : bool;
  pass_env : handling
}.

(** How the loop stands: the two flags, and the status once it breaks. *)
Record loop := Loop { live_done : bool; recovery_done : bool; failed : option idx_status }.

(** src/src/pipeline.c:421-431 [run_processor]: an entry of the live ring. *)
Definition take_live (save_interval_ms : Z) (env : handling) (entry : idx_ring_entry) (w : world) : result unit * world * list Z :=
  let p := proc w in
  let p := if seq entry =? expected_seq p then p else count QueueDropped (u64 (seq entry - expected_seq p)) p in
  let w := observe_live_slot (slot entry) (set_proc (set_expected_seq (u64 (seq entry + 1)) p) w) in
  handle_entry save_interval_ms env entry IDX_BLOCK_FROM_SUBSCRIPTION w.

(** src/src/pipeline.c:440-457 [run_processor]: the recovery ring. *)
Definition take_recovered (save_interval_ms : Z) (l : loop) (c : bool) (env : handling) (w : world)
    : loop * world * list Z :=
  if recovery_done l then (l, w, [])
  else
    let w := lock w in
    match recovered (share w) with
    | [] => (Loop (live_done l) c (failed l), w, [])
    | entry :: q =>
        let w := set_share (set_recovered q (share w)) w in
        let w := set_proc (count BlocksRecovered 1 (proc w)) w in
        let '(status, w, freed) := handle_entry save_interval_ms env entry IDX_BLOCK_FROM_RPC w in
        (Loop (live_done l) (recovery_done l) (match status with Ok _ => None | Err e => Some e end), w, freed)
    end.

(** src/src/pipeline.c:396-458 [run_processor]: one pass of the loop. *)
Definition one_pass (save_interval_ms : Z) (a : pass) (l : loop) (w : world) : loop * world * list Z :=
  if live_done l then take_recovered save_interval_ms l (recovered_closed a) (pass_env a) w
  else
    match live_poll a with
    | Closed => take_recovered save_interval_ms (Loop true (recovery_done l) (failed l)) (recovered_closed a) (pass_env a) w
    | Nothing => take_recovered save_interval_ms l (recovered_closed a) (pass_env a) w
    | Entry entry =>
        let '(status, w, freed) := take_live save_interval_ms (pass_env a) entry w in
        (Loop (live_done l) (recovery_done l) (match status with Ok _ => None | Err e => Some e end), w, freed)
    end.

(** src/src/pipeline.c:396-458 [run_processor]: the loop; [None] when the passes
    end before it does. *)
Fixpoint passes (save_interval_ms : Z) (l : list pass) (s : loop) (w : world) : option (loop * world * list Z) :=
  match failed s with
  | Some _ => Some (s, w, [])
  | None =>
      if live_done s && recovery_done s then Some (s, w, [])
      else
        match l with
        | [] => None
        | a :: l =>
            let '(s, w, freed) := one_pass save_interval_ms a s w in
            r ← passes save_interval_ms l s w;
            let '(s, w, freed') := r in Some (s, w, freed ++ freed')
        end
  end.

(** src/src/pipeline.c:389-463 [run_processor]: with the last save's clock and system
    calls; the status, whether the rings are closed, the world, the documents
    freed. *)
Definition run_processor (save_interval_ms : Z) (l : list pass) (last_now : double) (last_env : save_env) (w : world)
    : option (result unit * bool * world * list Z) :=
  match passes save_interval_ms l (Loop false false None) w with
  | None => None
  | Some (s, w, freed) =>
      Some (match failed s with Some e => Err e | None => Ok tt end, bool_decide (is_Some (failed s)),
            save_cursor save_interval_ms true last_now last_env w, freed)
  end.

(** ** What is settled *)

Context `{!GapSpec G}.

(** A claim whose answers give up on a slot. *)
Definition gave_up (l : list working) (s : Z) : Prop :=
  exists k, k ∈ l /\ (w_range k).1 <= s <= (w_range k).2 /\ slot_fate (w_answers k) (w_range k) s = Absent.

Definition in_ranges (l : list (Z * Z)) (s : Z) : Prop := exists x, x ∈ l /\ x.1 <= s <= x.2.

(** The slots the run answers for: those queued for recovery when it started, and
    those since the first one the socket brought. *)
Definition known (queued : Z -> Prop) (w : world) (s : Z) : Prop :=
  queued s \/ (first_live w <> IDX_SLOT_NONE /\ first_live w <= s <= last_seen (cursor (proc w))).

(** Every slot the run answers for, up to the position, is dealt with, or was in the middle
    of being given back when the position was computed. *)
Definition settled (queued : Z -> Prop) (w : world) (position : Z) : Prop :=
  forall s, known queued w s -> s <= position ->
    s ∈ accepted w \/ gave_up (running (share w)) s \/ in_ranges (passing w) s.

Definition event_ok (e : event) : Prop := match e with Claims _ env => ascending env | _ => True end.

(** What a worker has yet to do, the release it is in included. *)
Definition to_do (k : working) : list action :=
  match w_releasing k with NotReleasing => w_todo k | Counted _ f t | Dropped _ f t => Release f t :: w_todo k end.

(** How many actions on a slot are yet to be done. *)
Definition owes (x : Z) (k : working) : nat := times x (to_do k).
Definition owed (l : list working) (x : Z) : nat := sum_list (owes x <$> l).

Record working_ok (b : Z) (k : working) : Prop := {
  working_range : 0 <= (w_range k).1 <= (w_range k).2 /\ (w_range k).2 < b;
  working_within : Forall (act_within (w_answers k) (w_range k).1 (w_range k).2) (to_do k);
  working_fate : forall a s, a ∈ to_do k -> act_does s Absent a -> slot_fate (w_answers k) (w_range k) s = Absent
}.

(** No slot is yet to be settled twice; one that is, if it is outstanding, is claimed; and
    what is between its resolution and its return is not outstanding. *)
Record shared_ok (b : Z) (s : shared) : Prop := {
  shared_gaps : g_ok b (gaps s);
  shared_memory : memory s = [];
  shared_span : 0 <= span (pool s) < 2 ^ 64;
  shared_widths : Forall (fun n => 0 <= n < 2 ^ 64) (widths s);
  shared_working : Forall (working_ok b) (running s);
  shared_recovered : Forall (fun e => 0 <= slot e < b) (recovered s);
  shared_once : forall x, (owed (running s) x <= 1)%nat;
  shared_claimed : forall x, (0 < owed (running s) x)%nat -> g_out (gaps s) x -> g_claimed (gaps s) x;
  shared_dropped : forall x, in_ranges (under_way (running s)) x -> ~ g_out (gaps s) x
}.

Lemma working_ok_le b b' k : b <= b' -> working_ok b k -> working_ok b' k.
Proof. intros Hle [H1 H2 H3]. split; [lia|done|done]. Qed.

Lemma gave_up_mono l l' s :
  (forall k, k ∈ l -> exists k', k' ∈ l' /\ w_range k' = w_range k /\ w_answers k' = w_answers k) ->
  gave_up l s -> gave_up l' s.
Proof. intros Hl (k & Hk & Hs & Hf). destruct (Hl k Hk) as (k' & Hk' & Er & Ea). exists k'. by rewrite Er, Ea. Qed.

(** *** What is owed *)

Lemma owed_app l l' x : owed (l ++ l') x = (owed l x + owed l' x)%nat.
Proof. unfold owed. by rewrite fmap_app, sum_list_with_app. Qed.

Lemma owed_replace l i k k' x : l !! i = Some k -> (owed (<[i := k']> l) x + owes x k = owed l x + owes x k')%nat.
Proof.
  intros Hi. rewrite insert_take_drop by (by eapply lookup_lt_Some). rewrite <- (take_drop_middle l i k Hi) at 3.
  rewrite !owed_app. unfold owed. cbn. lia.
Qed.

Lemma owed_at l k x : k ∈ l -> (owes x k <= owed l x)%nat.
Proof. intros (l1 & l2 & ->)%list_elem_of_split. rewrite owed_app. unfold owed at 2. cbn. lia. Qed.

(** The release a worker is in, if it resolved its range. *)
Definition drops (k : working) (x : Z) : Prop :=
  match w_releasing k with Dropped _ f t => f <= x <= t | _ => False end.

Lemma under_way_drops l x : in_ranges (under_way l) x <-> exists k, k ∈ l /\ drops k x.
Proof.
  unfold in_ranges, under_way. setoid_rewrite list_elem_of_omap. split.
  - intros (y & (k & Hk & Ey) & Hx). exists k. split; [done|]. unfold drops. destruct (w_releasing k); try done. by injection Ey as <-.
  - intros (k & Hk & Hx). unfold drops in Hx. destruct (w_releasing k) as [|n f t|n f t] eqn:E; try done.
    exists (f, t). split; [exists k; by rewrite E|done].
Qed.

Lemma drops_owes k x : drops k x -> (0 < owes x k)%nat.
Proof.
  unfold drops, owes, to_do. destruct (w_releasing k); try done. intros Hx. rewrite times_cons. unfold touches. cbn [slots_of].
  rewrite (proj2 (Z.leb_le _ _)), (proj2 (Z.leb_le _ _)) by lia. cbn [andb]. lia.
Qed.

Lemma under_way_owed l x : in_ranges (under_way l) x -> (0 < owed l x)%nat.
Proof. intros (k & Hk & Hx)%under_way_drops. pose proof (owed_at _ _ x Hk). pose proof (drops_owes _ _ Hx). lia. Qed.

Lemma under_way_replace l i k k' x :
  l !! i = Some k -> in_ranges (under_way (<[i := k']> l)) x -> in_ranges (under_way l) x \/ drops k' x.
Proof.
  intros Hi (y & Hy & Hx)%under_way_drops. apply list_elem_of_lookup in Hy as [j Hj].
  destruct (decide (j = i)) as [->|Hne].
  - rewrite list_lookup_insert_eq in Hj by (by eapply lookup_lt_Some). injection Hj as <-. by right.
  - rewrite list_lookup_insert_ne in Hj by done. left. apply under_way_drops. exists y. split; [by eapply list_elem_of_lookup_2|done].
Qed.

(** The others' are still under way, the worker's own if it still is. *)
Lemma under_way_keep l i k k' x :
  l !! i = Some k -> in_ranges (under_way l) x -> in_ranges (under_way (<[i := k']> l)) x \/ drops k x.
Proof.
  intros Hi (y & Hy & Hx)%under_way_drops. apply list_elem_of_lookup in Hy as [j Hj].
  destruct (decide (j = i)) as [->|Hne]; [right; rewrite Hi in Hj; by injection Hj as ->|left].
  apply under_way_drops. exists y. split; [apply (list_elem_of_lookup_2 _ j); by rewrite list_lookup_insert_ne|done].
Qed.

Lemma times_pos x acts : (0 < times x acts)%nat -> exists a, a ∈ acts /\ touches x a = true.
Proof.
  unfold times. intros Hl. destruct (filter (touches x) acts) as [|a l] eqn:E; [cbn in Hl; lia|].
  assert (a ∈ filter (touches x) acts) as Ha by (rewrite E; left). apply list_elem_of_filter in Ha as [Ht Ha].
  exists a. split; [done|]. by apply Is_true_true.
Qed.

(** Nothing past the bound is owed. *)
Lemma owed_below b s x : shared_ok b s -> (0 < owed (running s) x)%nat -> x < b.
Proof.
  intros Hs Hx. unfold owed in Hx. assert (exists k, k ∈ running s /\ (0 < owes x k)%nat) as (k & Hk & Ho).
  { revert Hx. clear Hs. induction (running s) as [|k l IH]; cbn; [lia|]. intros Hx. destruct (decide (0 < owes x k)%nat).
    - exists k. split; [left|done].
    - destruct IH as (y & Hy & Ho); [lia|]. exists y. split; [by right|done]. }
  pose proof (shared_working b s Hs) as Hw. rewrite Forall_forall in Hw. destruct (Hw k Hk) as [Hr Hin _].
  apply times_pos in Ho as (a & Ha & Ht). rewrite Forall_forall in Hin. specialize (Hin a Ha).
  unfold touches in Ht. destruct a; cbn in *; zlia.
Qed.

(** What the fetchers may do to the shared state, the set never being full: no slot leaves
    the gap set unless a claim gave it up or its release is under way. *)
Definition evolves (b : Z) (s s' : shared) : Prop :=
  crowded s' = false -> crowded s = false /\ (shared_ok b s ->
    shared_ok b s' /\ (forall x, gave_up (running s) x -> gave_up (running s') x) /\
    (forall x, g_out (gaps s) x \/ in_ranges (under_way (running s)) x ->
       g_out (gaps s') x \/ gave_up (running s') x \/ in_ranges (under_way (running s')) x)).

Lemma evolves_trans b s1 s2 s3 : evolves b s1 s2 -> evolves b s2 s3 -> evolves b s1 s3.
Proof.
  intros H12 H23 Hc. destruct (H23 Hc) as [Hc2 B]. destruct (H12 Hc2) as [Hc1 A]. split; [done|]. intros Hs.
  destruct (A Hs) as (A1 & A2 & A3). destruct (B A1) as (B1 & B2 & B3). split_and!; [done|auto|].
  intros x Hx. apply A3 in Hx as [Hx|[Hx|Hx]]; [apply B3; by left|right; left; by apply B2|apply B3; by right].
Qed.

Lemma evolves_refl b s : evolves b s s.
Proof. intros Hc. split; [done|]. intros Hs. split_and!; [done|done|]. intros x [?|?]; auto. Qed.

(** A worker's step, in terms of what it leaves: [acts] done, the set as [g]. *)
Lemma worker_ok b s i k k' acts g p q c :
  shared_ok b s -> running s !! i = Some k -> w_range k' = w_range k -> w_answers k' = w_answers k ->
  to_do k = acts ++ to_do k' -> g_ok b g -> 0 <= span p < 2 ^ 64 -> Forall (fun e => 0 <= slot e < b) q ->
  (forall x, (0 < owed (<[i := k']> (running s)) x)%nat -> g_out g x -> g_claimed g x) ->
  (forall x, in_ranges (under_way (<[i := k']> (running s))) x -> ~ g_out g x) ->
  shared_ok b (Shared g [] p (widths s) (<[i := k']> (running s)) q c).
Proof.
  intros Hs Hi Er Ea Ed Hg Hp Hq Hcl Hdr. split; try done; cbn [running].
  - apply Hs.
  - apply Forall_insert; [apply Hs|]. destruct (Forall_lookup_1 _ _ _ _ (shared_working _ _ Hs) Hi) as [H1 H2 H3].
    rewrite Ed in H2, H3. apply Forall_app in H2 as [_ H2]. split; rewrite ?Er, ?Ea; [done|done|].
    intros a x Ha. apply H3. apply elem_of_app. by right.
  - intros x. pose proof (owed_replace _ _ _ k' x Hi). pose proof (shared_once _ _ Hs x).
    assert (owes x k' <= owes x k)%nat; [|lia]. unfold owes. rewrite Ed, times_app. lia.
Qed.

Lemma worker_gave_up s i k k' x :
  running s !! i = Some k -> w_range k' = w_range k -> w_answers k' = w_answers k ->
  gave_up (running s) x -> gave_up (<[i := k']> (running s)) x.
Proof.
  intros Hi Er Ea. apply gave_up_mono. intros y Hy. apply list_elem_of_lookup in Hy as [j Hj].
  destruct (decide (j = i)) as [->|Hne].
  - exists k'. rewrite Hi in Hj. injection Hj as <-. split; [|done].
    apply (list_elem_of_lookup_2 _ i). apply list_lookup_insert_eq. by eapply lookup_lt_Some.
  - exists y. split; [|done]. apply (list_elem_of_lookup_2 _ j). by rewrite list_lookup_insert_ne.
Qed.

Lemma claims_evolve b s i env : b <= SLOT_BOUND -> ascending env -> evolves b s (happens (Claims i env) s).
Proof.
  intros Hb He Hc. cbn [happens] in *. destruct (widths s !! i) as [width|] eqn:Ew; [|by apply evolves_refl].
  destruct (g_claim width (memory s) (gaps s)) as [[out g'] h] eqn:Eg.
  assert (crowded s = false) as Hc0 by (by destruct out). split; [done|]. intros Hs. pose proof Hs as [Hg Hm Hsp Hwd Hwk Hq H1 H2 H3].
  destruct (g_claim_ok b (gaps s) width Hg (Forall_lookup_1 _ _ _ _ Hwd Ew)) as (out' & g1 & Hcl & Hg' & Hsame & Hout).
  rewrite Hm, Hcl in Eg. injection Eg as -> -> <-.
  assert (Forall (fun n => 0 <= n < 2 ^ 64) (delete i (widths s))) as Hwd' by (by apply Forall_delete).
  destruct out as [[f t]|].
  2: { split; [|split; [done|]]; [|intros x [Hx|Hx]; [left; by apply Hsame|by right; right]]. split; try done; cbn [gaps running set_gaps].
    - intros x Ho Hx. apply Hout, H2, Hsame; done.
    - intros x Hx. rewrite Hsame. by apply H3. }
  destruct Hout as (Hft & Hin & Hclm). pose proof (g_out_below _ _ _ Hg (proj1 (Hin f ltac:(lia)))) as Hf.
  pose proof (g_out_below _ _ _ Hg (proj1 (Hin t ltac:(lia)))) as Ht.
  destruct (work_range_fates env f t) as [Hfates Hwithin]; [lia|unfold SLOT_BOUND, IDX_SLOT_NONE in *; lia|done|].
  pose proof (fun x => tiles_times f t _ x (work_range_tiles env f t ltac:(lia) ltac:(unfold SLOT_BOUND, IDX_SLOT_NONE in *; lia))) as Htimes.
  set (k := Working (f, t) env (worker_turn (Some (f, t)) env) NotReleasing).
  assert (forall x, owed (running s ++ [k]) x = (owed (running s) x + if ((f <=? x) && (x <=? t))%Z then 1 else 0)%nat) as Howed.
  { intros x. rewrite owed_app. f_equal. unfold owed, owes, to_do. cbn [fmap list_fmap sum_list sum_list_with k w_releasing w_todo worker_turn].
    rewrite times_cons, Htimes. change (touches x (Bump RangesClaimed 1)) with false. cbv iota. rewrite Nat.add_0_r. done. }
  assert (forall x, f <= x <= t -> owed (running s) x = 0%nat) as Hfree.
  { intros x Hx. destruct (decide (owed (running s) x = 0%nat)) as [|Hne]; [done|]. destruct (Hin x Hx) as [Ho Hn].
    exfalso. apply Hn, H2; [lia|done]. }
  assert (forall x, in_ranges (under_way (running s ++ [k])) x <-> in_ranges (under_way (running s)) x) as Hway.
  { intros x. rewrite !under_way_drops. split; intros (y & Hy & Hx).
    - apply elem_of_app in Hy as [Hy| ->%list_elem_of_singleton]; [by exists y|done].
    - exists y. split; [apply elem_of_app; by left|done]. }
  split; [|split]; cbn [gaps running set_running set_gaps].
  - split; try done; cbn [running set_running set_gaps gaps].
    + apply Forall_app. split; [done|]. constructor; [|done].
      split; unfold to_do; cbn [k w_range w_answers w_todo w_releasing worker_turn fst snd]; [lia|by constructor|].
      intros a x [->|Ha]%elem_of_cons Hd; [done|].
      assert (does (work_range env (f, t)) x Absent) as Hd' by (apply Exists_exists; by exists a).
      apply Hfates; [|done]. by eapply within_does.
    + intros x. rewrite Howed. destruct ((f <=? x) && (x <=? t)) eqn:E; [rewrite Hfree by zlia; lia|]. specialize (H1 x). lia.
    + intros x. rewrite Howed, Hsame, Hclm. destruct ((f <=? x) && (x <=? t)) eqn:E; [right; zlia|]. intros Ho Hx. left. apply H2; [lia|done].
    + intros x. rewrite Hway, Hsame. apply H3.
  - intros x Hx. eapply gave_up_mono; [|exact Hx]. intros y Hy. exists y. split; [|done]. apply elem_of_app. by left.
  - intros x. rewrite Hway, Hsame. intros [Hx|Hx]; auto.
Qed.

(** A worker's action. *)
Lemma act_evolves b s i range env a todo :
  b <= SLOT_BOUND -> running s !! i = Some (Working range env (a :: todo) NotReleasing) ->
  (forall f t, a <> Release f t) ->
  evolves b s (set_running (<[i := Working range env todo NotReleasing]> (running (act a s))) (act a s)).
Proof.
  intros Hb Hi Hnr Hc. set (k' := Working range env todo NotReleasing) in *.
  assert (crowded s = false) as Hc0.
  { destruct a; cbn [act] in Hc; try done. by destruct (g_resolve _ _ _ _). }
  split; [done|]. intros Hs. pose proof Hs as [Hg Hm Hsp Hwd Hwk Hq H1 H2 H3].
  destruct (Forall_lookup_1 _ _ _ _ Hwk Hi) as [Hr Hw Hf]. unfold to_do in Hw, Hf. cbn [w_range w_answers w_todo w_releasing] in *.
  apply Forall_cons in Hw as [Ha _].
  assert (forall x, (0 < owed (<[i := k']> (running s)) x)%nat -> (0 < owed (running s) x)%nat) as Howed.
  { intros x. pose proof (owed_replace _ _ _ k' x Hi) as Ho. unfold owes, to_do in Ho. cbn [k' w_releasing w_todo] in Ho.
    rewrite times_cons in Ho. lia. }
  assert (forall x, in_ranges (under_way (<[i := k']> (running s))) x -> in_ranges (under_way (running s)) x) as Hway.
  { intros x Hx. by destruct (under_way_replace _ _ _ k' x Hi Hx). }
  assert (forall x, in_ranges (under_way (running s)) x -> in_ranges (under_way (<[i := k']> (running s))) x) as Hkeep.
  { intros x Hx. by destruct (under_way_keep _ _ _ k' x Hi Hx). }
  pose proof (fun x => worker_gave_up s i _ k' x Hi eq_refl eq_refl) as Hgu.
  assert (forall p q c, 0 <= span p < 2 ^ 64 -> Forall (fun e => 0 <= slot e < b) q ->
    shared_ok b (Shared (gaps s) [] p (widths s) (<[i := k']> (running s)) q c)) as Hsame.
  { intros p q c Hp Hq'. apply (worker_ok b s i _ k' [a] (gaps s) p q c Hs Hi); try done.
    - intros x Hx. by apply H2, Howed.
    - intros x Hx. by apply H3, Hway. }
  destruct a as [f t|f t|e|width|c n]; cbn [act act_within] in *.
  - destruct (g_resolve_ok b (gaps s) f t Hg ltac:(lia) ltac:(unfold SLOT_BOUND in *; lia)) as (g' & Hr' & Hg' & Hout & Hcl).
    rewrite Hm, Hr'. cbn [running set_gaps gaps set_running]. split; [|split; [done|]].
    + apply (worker_ok b s i _ k' [Resolve f t] g' _ _ _ Hs Hi); try done.
      * intros x Hx. rewrite Hout, Hcl. intros [Ho Hn]. split; [apply H2; auto|done].
      * intros x Hx. rewrite Hout. intros [Ho _]. by apply (H3 x); auto.
    + intros x [Hx|Hx]; [|auto]. destruct (decide (f <= x <= t)) as [Hin|Hin]; [right; left|left; by apply Hout].
      exists k'. split; [|split; [cbn; lia|apply (Hf (Resolve f t) x); [left|done]]].
      apply (list_elem_of_lookup_2 _ i). apply list_lookup_insert_eq. by eapply lookup_lt_Some.
  - by destruct (Hnr f t).
  - cbn [running set_recovered gaps set_running memory pool recovered crowded]. split; [|split; [done|]].
    + unfold set_running, set_recovered. cbn. rewrite Hm. apply Hsame; [done|]. apply Forall_app. split; [done|]. repeat constructor; lia.
    + intros x [Hx|Hx]; auto.
  - cbn [running gaps set_running]. split; [|split; [done|]].
    + unfold set_running. cbn. rewrite Hm. apply Hsame; [|done]. unfold narrow_span.
      destruct ((width <=? 1) || (span (pool s) <? width)); [done|]. cbn [span].
      unfold SLOT_BOUND in *. split; [apply Z.div_pos; lia|]. apply Z.div_lt_upper_bound; lia.
    + intros x [Hx|Hx]; auto.
  - cbn [running gaps set_running]. split; [|split; [done|]].
    + unfold set_running. cbn. rewrite Hm. by apply Hsame.
    + intros x [Hx|Hx]; auto.
Qed.

(** A section of a release that leaves the set as it was. *)
Lemma section_evolves b s i k k' :
  running s !! i = Some k -> w_range k' = w_range k -> w_answers k' = w_answers k ->
  (exists acts, to_do k = acts ++ to_do k') -> (forall x, drops k' x <-> drops k x) ->
  evolves b s (set_running (<[i := k']> (running s)) s).
Proof.
  intros Hi Er Ea [acts Ed] Hd Hc. split; [done|]. intros Hs. pose proof Hs as [Hg Hm Hsp Hwd Hwk Hq H1 H2 H3].
  assert (forall x, in_ranges (under_way (<[i := k']> (running s))) x <-> in_ranges (under_way (running s)) x) as Hway.
  { intros x. split; intros Hx.
    - destruct (under_way_replace _ _ _ k' x Hi Hx) as [|Hk]; [done|]. apply under_way_drops. exists k. rewrite <- Hd.
      split; [by eapply list_elem_of_lookup_2|done].
    - destruct (under_way_keep _ _ _ k' x Hi Hx) as [|Hk]; [done|]. apply under_way_drops. exists k'. rewrite Hd. split; [|done].
      apply (list_elem_of_lookup_2 _ i). apply list_lookup_insert_eq. by eapply lookup_lt_Some. }
  split; [|split].
  - unfold set_running. rewrite Hm. apply (worker_ok b s i k k' acts); try done.
    + intros x Hx. apply H2. pose proof (owed_replace _ _ _ k' x Hi) as Ho.
      assert (owes x k' <= owes x k)%nat; [|lia]. unfold owes. rewrite Ed, times_app. lia.
    + intros x Hx. by apply H3, Hway.
  - intros x. by apply worker_gave_up with k.
  - intros x. cbn [gaps running set_running]. rewrite Hway. intros [?|?]; auto.
Qed.

(** The second section of a release: the range leaves the set. *)
Lemma drop_evolves b s i range env todo n f t :
  b <= SLOT_BOUND -> running s !! i = Some (Working range env todo (Counted n f t)) ->
  let '(g, h) := g_resolve f t (memory s) (gaps s) in
  evolves b s (set_running (<[i := Working range env todo (Dropped n f t)]> (running s)) (set_gaps g h s)).
Proof.
  intros Hb Hi. set (k := Working _ _ _ _) in Hi. set (k' := Working range env todo (Dropped n f t)).
  destruct (g_resolve f t (memory s) (gaps s)) as [g h] eqn:Er. intros Hc. split; [done|]. intros Hs.
  pose proof Hs as [Hg Hm Hsp Hwd Hwk Hq H1 H2 H3]. destruct (Forall_lookup_1 _ _ _ _ Hwk Hi) as [Hr Hw _].
  apply Forall_cons in Hw as [Ha _]. cbn [k w_range w_answers act_within] in Ha, Hr.
  destruct (g_resolve_ok b (gaps s) f t Hg ltac:(lia) ltac:(unfold SLOT_BOUND in *; lia)) as (g' & Hr' & Hg' & Hout & Hcl).
  rewrite Hm, Hr' in Er. injection Er as <- <-. cbn [running gaps set_running set_gaps].
  assert (forall x, owed (<[i := k']> (running s)) x = owed (running s) x) as Howed.
  { intros x. pose proof (owed_replace _ _ _ k' x Hi) as Ho. change (owes x k') with (owes x k) in Ho. lia. }
  split; [|split].
  - apply (worker_ok b s i k k' [] g' _ _ _ Hs Hi); try done.
    + intros x. rewrite Howed, Hout, Hcl. intros Hx [Ho Hn]. split; [by apply H2|done].
    + intros x Hx. rewrite Hout. intros [Ho Hn]. destruct (under_way_replace _ _ _ k' x Hi Hx) as [Hx'|Hx']; [by apply (H3 x)|done].
  - intros x. by apply worker_gave_up with k.
  - intros x [Hx|Hx].
    + destruct (decide (f <= x <= t)); [right; right|left; by apply Hout]. apply under_way_drops. exists k'. split; [|done].
      apply (list_elem_of_lookup_2 _ i). apply list_lookup_insert_eq. by eapply lookup_lt_Some.
    + destruct (under_way_keep _ _ _ k' x Hi Hx); [auto|done].
Qed.

(** The third section: the range, no slot of which anyone else claimed meanwhile, comes
    back. *)
Lemma return_evolves b s i range env todo n f t :
  b <= SLOT_BOUND -> running s !! i = Some (Working range env todo (Dropped n f t)) ->
  let '(_, g, h) := g_put_back n f t (memory s) (gaps s) in
  evolves b s (set_running (<[i := Working range env todo NotReleasing]> (running s)) (set_gaps g h (note_full s))).
Proof.
  intros Hb Hi. set (k := Working _ _ _ _) in Hi. set (k' := Working range env todo NotReleasing).
  destruct (g_put_back n f t (memory s) (gaps s)) as [[r g] h] eqn:Er. intros [Hc Hfull]%orb_false_iff. split; [done|]. intros Hs.
  pose proof Hs as [Hg Hm Hsp Hwd Hwk Hq H1 H2 H3]. destruct (Forall_lookup_1 _ _ _ _ Hwk Hi) as [Hr Hw _].
  apply Forall_cons in Hw as [Ha _]. cbn [k w_range w_answers act_within] in Ha, Hr.
  assert (forall x, f <= x <= t -> in_ranges (under_way (running s)) x) as Hmine.
  { intros x Hx. apply under_way_drops. exists k. split; [by eapply list_elem_of_lookup_2|done]. }
  destruct (g_put_back_ok b (gaps s) n f t Hg ltac:(lia) ltac:(lia)) as (g' & Hr' & Hg' & Hout & Hcl & Hex).
  { intros x Hx Hclm. by apply (H3 x (Hmine x Hx)), g_claimed_out. }
  rewrite Hm, Hr' in Er. injection Er as <- <- <-. specialize (Hex Hfull). cbn [running gaps set_running set_gaps note_full pool recovered crowded].
  assert (forall x, (0 < owed (<[i := k']> (running s)) x)%nat -> (0 < owed (running s) x)%nat /\ ~ f <= x <= t) as Howed.
  { intros x Hx. pose proof (owed_replace _ _ _ k' x Hi) as Ho. specialize (H1 x). split.
    - assert (owes x k' <= owes x k)%nat; [|lia]. unfold owes, to_do. cbn [k k' w_releasing w_todo]. rewrite times_cons. lia.
    - intros Hin. assert (owes x k = 1 + owes x k')%nat as E; [|lia]. unfold owes, to_do. cbn [k k' w_releasing w_todo].
      rewrite times_cons. unfold touches at 1. cbn [slots_of]. by replace ((f <=? x) && (x <=? t)) with true by zlia. }
  split; [|split].
  - apply (worker_ok b s i k k' [Release f t] g' _ _ _ Hs Hi); try done.
    + intros x [Ho Hn]%Howed Hx. apply Hcl, H2; [done|]. by destruct (Hex x Hx).
    + intros x Hx Hox. destruct (Howed x (under_way_owed _ _ Hx)) as [_ Hn]. destruct (Hex x Hox) as [Ho|?]; [|done].
      by destruct (under_way_replace _ _ _ k' x Hi Hx) as [Hx'|Hx']; [apply (H3 x)|].
  - intros x. by apply worker_gave_up with k.
  - intros x [Hx|Hx]; [left; apply Hout; by left|].
    destruct (under_way_keep _ _ _ k' x Hi Hx) as [|Hk]; [auto|left; apply Hout; by right].
Qed.

Lemma reads_evolve b s : evolves b s (happens Reads s).
Proof.
  intros Hc. split; [done|]. intros [Hg Hm Hsp Hwd Hwk Hq H1 H2 H3]. split; [|split; [done|]]; [|intros x [?|?]; auto].
  split; try done. cbn [happens set_widths widths]. apply Forall_app. split; [done|]. by constructor.
Qed.

Lemma happens_evolves b s e : b <= SLOT_BOUND -> event_ok e -> evolves b s (happens e s).
Proof.
  intros Hb He. destruct e as [|i env|i]; [apply reads_evolve|by apply claims_evolve|]. cbn [happens].
  destruct (running s !! i) as [[range env todo [|n f t|n f t]]|] eqn:Hi; [| | |apply evolves_refl]; cbn [one_step].
  - destruct todo as [|a todo]; [by apply (section_evolves b s i _ _ Hi); [..|exists []|]|].
    destruct a as [f t|f t|e|width|c n]; try by apply (act_evolves b s i).
    apply (section_evolves b s i _ _ Hi); try done; [|by destruct (t <? f)].
    destruct (t <? f); [by exists [Release f t]|by exists []].
  - pose proof (drop_evolves b s i range env todo n f t Hb Hi) as H'. by destruct (g_resolve _ _ _ _).
  - pose proof (return_evolves b s i range env todo n f t Hb Hi) as H'.
    change (memory (note_full s)) with (memory s). change (gaps (note_full s)) with (gaps s). by destruct (g_put_back _ _ _ _ _) as [[? ?] ?].
Qed.

Lemma events_evolve b s events :
  b <= SLOT_BOUND -> Forall event_ok events -> evolves b s (foldl (fun s e => happens e s) s events).
Proof.
  intros Hb He. revert s. induction He as [|e events He Hes IH]; intros s; [apply evolves_refl|]. cbn [foldl].
  eapply evolves_trans; [by apply happens_evolves|apply IH].
Qed.

Lemma happens_crowded s e : crowded (happens e s) = false -> crowded s = false.
Proof.
  destruct e as [|j env|i]; cbn [happens]; [done| |].
  - destruct (widths s !! j); [|done]. destruct (g_claim _ _ _) as [[[r|] g] h]; done.
  - destruct (running s !! i) as [[range env todo [|n f t|n f t]]|]; cbn [one_step]; [| | |done].
    + destruct todo as [|[f t|f t|e|w|c n] todo]; cbn [act]; try done. destruct (g_resolve _ _ _ _); exact id.
    + destruct (g_resolve _ _ _ _); exact id.
    + destruct (g_put_back _ _ _ _ _) as [[r g] h]. by intros [? _]%orb_false_iff.
Qed.

Lemma events_crowded s events : crowded (foldl (fun s e => happens e s) s events) = false -> crowded s = false.
Proof. revert s. induction events as [|e events IH]; intros s Hc; [done|]. apply (happens_crowded s e), IH, Hc. Qed.

(** ** The invariant of the processing thread *)

(** No slot of the gap set, and nothing committed, is at or past the front: the slot
    the live stream continues at. *)
Definition front (b0 : Z) (w : world) : Z :=
  if first_live w =? IDX_SLOT_NONE then b0 else last_seen (cursor (proc w)) + 1.

Definition below_front (b0 : Z) (w : world) (s : Z) : Prop := s = IDX_SLOT_NONE \/ 0 <= s < front b0 w.

Record stands (b0 : Z) (queued : Z -> Prop) (pending : option Z) (w : world) : Prop := {
  stable_shared : exists b, shared_ok b (share w) /\ b <= front b0 w;
  stable_front : 0 <= b0 <= front b0 w /\ front b0 w <= SLOT_BOUND;
  stable_first : first_live w = IDX_SLOT_NONE <-> last_seen (cursor (proc w)) = IDX_SLOT_NONE;
  stable_live : first_live w <> IDX_SLOT_NONE -> b0 <= first_live w <= last_seen (cursor (proc w));
  stable_highest : below_front b0 w (highest_committed (proc w));
  stable_indexed : below_front b0 w (last_indexed (cursor (proc w)));
  stable_queued : forall s, queued s -> s < b0;
  stable_known : forall s, known queued w s ->
    g_out (gaps (share w)) s \/ s ∈ accepted w \/ gave_up (running (share w)) s \/
    in_ranges (under_way (running (share w))) s \/ pending = Some s;
  stable_settled : last_indexed (cursor (proc w)) <> IDX_SLOT_NONE -> settled queued w (last_indexed (cursor (proc w)));
  stable_schedule : Forall (Forall event_ok) (schedule w)
}.

(** As long as the set never coarsened. *)
Definition stable (b0 : Z) (queued : Z -> Prop) (pending : option Z) (w : world) : Prop :=
  crowded (share w) = false -> stands b0 queued pending w.

Lemma lock_stable b0 queued pending w : stable b0 queued pending w -> stable b0 queued pending (lock w).
Proof.
  intros Hw. unfold lock. destruct (schedule w) as [|events later] eqn:Es; [done|]. intros Hc. cbn [share] in Hc.
  pose proof (Hw (events_crowded _ _ Hc)) as [(b & Hb & Hbf) Hf H1 H2 H3 H4 H5 H6 H7 H8].
  rewrite Es in H8. apply Forall_cons in H8 as [He Hl].
  destruct (events_evolve b (share w) events ltac:(lia) He Hc) as [_ Hevolve]. destruct (Hevolve Hb) as (Hs & Hgu & Hout).
  split; try done.
  - by exists b.
  - intros s Hs'. cbn [share accepted] in *. destruct (H6 s Hs') as [Hx|[Hx|[Hx|[Hx|Hx]]]]; [|auto|auto| |by do 4 right].
    + destruct (Hout s (or_introl Hx)) as [?|[?|?]]; auto.
    + destruct (Hout s (or_intror Hx)) as [?|[?|?]]; auto.
  - intros Hne s Hk Hle. cbn [share accepted] in *. destruct (H7 Hne s Hk Hle) as [Hx|[Hx|Hx]]; auto.
Qed.

Lemma lock_keeps w :
  proc (lock w) = proc w /\ files (lock w) = files w /\ accepted (lock w) = accepted w /\ first_live (lock w) = first_live w.
Proof. unfold lock. by destruct (schedule w). Qed.

(** Only the processor's own fields the invariant reads matter. *)
Lemma set_proc_stands b0 queued pending w p :
  stands b0 queued pending w -> cursor p = cursor (proc w) -> highest_committed p = highest_committed (proc w) ->
  stands b0 queued pending (set_proc p w).
Proof.
  intros [H1 H2 H3 H4 H5 H6 H7 H8 H9 H10] Hc Hh. unfold below_front, settled, known, front in *.
  by split; cbn [set_proc proc share first_live accepted schedule passing] in *; unfold below_front, settled, known, front in *;
    cbn [set_proc proc share first_live accepted schedule passing] in *; rewrite ?Hc, ?Hh.
Qed.

Lemma set_proc_stable b0 queued pending w p :
  stable b0 queued pending w -> cursor p = cursor (proc w) -> highest_committed p = highest_committed (proc w) ->
  stable b0 queued pending (set_proc p w).
Proof. intros Hw Ec Eh Hc. apply set_proc_stands; [by apply Hw|done|done]. Qed.

Lemma set_files_stable b0 queued pending w d : stable b0 queued pending w -> stable b0 queued pending (set_files d w).
Proof. intros Hw Hc. destruct (Hw Hc). by split. Qed.

Lemma count_cursor c n p : cursor (count c n p) = cursor p /\ highest_committed (count c n p) = highest_committed p.
Proof. done. Qed.

Lemma observe_tip_keeps block p :
  cursor (observe_tip block p) = cursor p /\ highest_committed (observe_tip block p) = highest_committed p.
Proof. unfold observe_tip. repeat case_match; done. Qed.

Lemma save_cursor_stable b0 queued pending ms force t env w :
  stable b0 queued pending w -> stable b0 queued pending (save_cursor ms force t env w).
Proof.
  intros Hw. unfold save_cursor. destruct (path _); [done|]. destruct (_ && _); [done|].
  destruct (idx_slot_cursor_save _ _ _) as [[[[]|e] d] tr]; apply set_files_stable; by apply set_proc_stable.
Qed.

(** The processing thread changing the set: a slot yet to be settled stays claimed if it is
    outstanding, and what is under way stays out. *)
Lemma shared_ok_gaps b b' s g c :
  shared_ok b s -> b <= b' -> g_ok b' g ->
  (forall x, (0 < owed (running s) x)%nat -> g_out g x -> g_claimed g x) ->
  (forall x, in_ranges (under_way (running s)) x -> ~ g_out g x) ->
  shared_ok b' (Shared g [] (pool s) (widths s) (running s) (recovered s) c).
Proof.
  intros [H1 H2 H3 H0 H4 H5 H6 H7 H8] Hle Hg Hcl Hd. split; try done.
  - eapply Forall_impl; [exact H4|]. intros k Hk. by eapply working_ok_le.
  - eapply Forall_impl; [exact H5|]. simpl. lia.
Qed.

(** The stream moving on to a slot past its front, the slots between queued. *)
Lemma advance_stands b0 queued w slot g p c :
  stands b0 queued None w -> front b0 w <= slot < SLOT_BOUND -> g_ok slot g ->
  (forall x, g_out (gaps (share w)) x -> g_out g x) -> (forall x, g_claimed (gaps (share w)) x -> g_claimed g x) ->
  (forall x, g_out g x -> g_out (gaps (share w)) x \/ front b0 w <= x < slot) ->
  (first_live w <> IDX_SLOT_NONE -> forall x, front b0 w <= x < slot -> g_out g x) ->
  cursor p = idx_slot_cursor_observe (cursor (proc w)) slot -> highest_committed p = highest_committed (proc w) ->
  stands b0 queued (Some slot)
    (World p (Shared g [] (pool (share w)) (widths (share w)) (running (share w)) (recovered (share w)) c) (schedule w) (files w) (accepted w)
       (if first_live w =? IDX_SLOT_NONE then slot else first_live w) (passing w)).
Proof.
  intros [(b & H1 & H1b) H2 H3 H4 H5 H6 H7 H8 H9 H10] Hslot Hg Hout Hcl Hold Hnew Hc Hh. unfold SLOT_BOUND, IDX_SLOT_NONE in *.
  assert (last_seen (cursor p) = slot) as Els.
  { rewrite Hc. unfold idx_slot_cursor_observe, front, IDX_SLOT_NONE in *. destruct (Z.eqb_spec (last_seen (cursor (proc w))) (2 ^ 64 - 1)); [done|].
    destruct (Z.eqb_spec (first_live w) (2 ^ 64 - 1)); [tauto|]. by rewrite (proj2 (Z.ltb_lt _ _)) by lia. }
  assert (last_indexed (cursor p) = last_indexed (cursor (proc w))) as Eli.
  { rewrite Hc. unfold idx_slot_cursor_observe. by destruct (_ || _). }
  set (w' := World p _ _ _ _ _ _).
  assert (first_live w' <> 2 ^ 64 - 1 /\ front b0 w <= slot /\ b0 <= first_live w' <= slot /\
    (first_live w <> 2 ^ 64 - 1 -> first_live w' = first_live w) /\
    (first_live w = 2 ^ 64 - 1 -> first_live w' = slot)) as (F1 & F2 & F3 & F4 & F5).
  { unfold w', front, IDX_SLOT_NONE in *. cbn [first_live]. destruct (Z.eqb_spec (first_live w) (2 ^ 64 - 1)) as [E|E]; [lia|].
    specialize (H4 E). lia. }
  assert (front b0 w' = slot + 1) as Ef.
  { unfold front, IDX_SLOT_NONE. rewrite (proj2 (Z.eqb_neq _ _) F1). cbn [proc w']. by rewrite Els. }
  assert (forall x, known queued w' x -> known queued w x \/ front b0 w <= x <= slot /\ (x = slot \/ first_live w <> 2 ^ 64 - 1)) as Hk.
  { intros x [Hx|[_ Hx]]; [by left; left|]. cbn [proc w'] in Hx. rewrite Els in Hx.
    destruct (decide (first_live w = 2 ^ 64 - 1)) as [E|E].
    - rewrite F5 in Hx by done. right. split; [lia|left; lia].
    - rewrite F4 in Hx by done. destruct (decide (x < front b0 w)) as [Hlt|Hge]; [left; right|right; split; [lia|by right]].
      split; [done|]. unfold front, IDX_SLOT_NONE in Hlt. rewrite (proj2 (Z.eqb_neq _ _) E) in Hlt. lia. }
  split; try done; cbn [proc share accepted schedule w'].
  - exists slot. split; [|lia]. apply (shared_ok_gaps b); [done|lia|done| |].
    + intros x Ho Hx. pose proof (owed_below _ _ _ H1 Ho). destruct (Hold x Hx) as [Hx'|?]; [|lia]. by apply Hcl, (shared_claimed _ _ H1).
    + intros x Hx Hox. pose proof (owed_below _ _ _ H1 (under_way_owed _ _ Hx)). destruct (Hold x Hox) as [Hx'|?]; [|lia].
      by apply (shared_dropped _ _ H1 x).
  - rewrite Ef. unfold SLOT_BOUND. lia.
  - rewrite Els. split; [done|]. unfold IDX_SLOT_NONE. lia.
  - rewrite Els. intros _. lia.
  - unfold below_front, IDX_SLOT_NONE in *. rewrite Ef, Hh. lia.
  - unfold below_front, IDX_SLOT_NONE in *. rewrite Ef, Eli. lia.
  - intros x Hx. cbn [gaps running]. apply Hk in Hx as [Hx|[Hx Hor]].
    + destruct (H8 x Hx) as [?|[?|[?|[?|?]]]]; [left; by apply Hout|auto|auto|auto|done].
    + destruct (decide (x = slot)) as [->|Hne]; [by do 4 right|]. left. apply Hnew; [|lia]. destruct Hor; [lia|done].
  - rewrite Eli. intros Hne x Hx Hle. cbn [accepted share running passing w'] in *. apply Hk in Hx as [Hx|[Hx _]]; [by apply (H9 Hne x)|].
    destruct H6 as [E|E]; [done|lia].
Qed.

(** The slot the world's own front is at, or the first of the stream. *)
Definition seen (slot : Z) (w : world) : world :=
  let w := set_first_live (if first_live w =? IDX_SLOT_NONE then slot else first_live w) w in
  set_proc (set_cursor (idx_slot_cursor_observe (cursor (proc w)) slot) (proc w)) w.

Lemma seen_advance b0 queued w slot :
  stands b0 queued None w -> front b0 w <= slot < SLOT_BOUND ->
  (first_live w <> IDX_SLOT_NONE -> forall x, front b0 w <= x < slot -> g_out (gaps (share w)) x) ->
  (exists b, shared_ok b (share w) /\ b <= slot) -> stands b0 queued (Some slot) (seen slot w).
Proof.
  intros Hw Hs Hnew (b & Hb & Hbs). pose proof (shared_gaps _ _ Hb) as Hg. pose proof (shared_memory _ _ Hb) as Hm.
  pose proof (advance_stands b0 queued w slot (gaps (share w))
    (set_cursor (idx_slot_cursor_observe (cursor (proc w)) slot) (proc w)) (crowded (share w)) Hw Hs) as Ha.
  assert (Shared (gaps (share w)) [] (pool (share w)) (widths (share w)) (running (share w)) (recovered (share w)) (crowded (share w)) = share w) as Es
    by (destruct (share w); simpl in *; by subst).
  rewrite Es in Ha. apply Ha; [|done|done|by left|done..]. apply (g_ok_le b); [done|lia].
Qed.

Lemma seen_behind b0 queued w slot :
  stands b0 queued None w -> first_live w <> IDX_SLOT_NONE -> slot < front b0 w -> stands b0 queued (Some slot) (seen slot w).
Proof.
  intros Hw E1 Hs. unfold seen. rewrite (proj2 (Z.eqb_neq _ _) E1).
  assert (set_first_live (first_live w) w = w) as -> by (by destruct w).
  pose proof Hw as [(b & Hb & Hbf) Hf H3 H4 H5 H6 H7 H8 H9 H10].
  assert (idx_slot_cursor_observe (cursor (proc w)) slot = cursor (proc w)) as ->.
  { unfold idx_slot_cursor_observe, front in *. rewrite (proj2 (Z.eqb_neq _ _) E1) in Hs.
    by rewrite (proj2 (Z.eqb_neq _ _)), (proj2 (Z.ltb_ge _ _)) by (rewrite <- ?H3; (done || lia)). }
  apply set_proc_stands; [|done|done]. split; try done; [by exists b|]. intros x Hx.
  destruct (H8 x Hx) as [?|[?|[?|[?|?]]]]; auto. done.
Qed.

(** Queueing the hole before a slot. *)
Lemma hole_stands b0 queued w slot :
  stands b0 queued None w -> g_full (gaps (share w)) = false -> first_live w <> IDX_SLOT_NONE ->
  front b0 w < slot < SLOT_BOUND ->
  let '(r, g, h) := g_add (front b0 w) (slot - 1) (memory (share w)) (gaps (share w)) in
  r = Ok tt /\ stands b0 queued (Some slot) (seen slot (set_share (set_gaps g h (note_full (share w))) w)).
Proof.
  intros Hw Hfull E1 Hs. pose proof Hw as [(b & Hb & Hbf) Hf _ _ _ _ _ _ _ _].
  pose proof (shared_gaps _ _ Hb) as Hg. pose proof (shared_memory _ _ Hb) as Hm.
  destruct (g_add_ok b (gaps (share w)) (front b0 w) (slot - 1) Hg ltac:(lia) ltac:(lia)) as (g & Hadd & Hg' & Hout & Hcl & Hex).
  rewrite Hm, Hadd. split; [done|].
  pose proof (advance_stands b0 queued w slot g (set_cursor (idx_slot_cursor_observe (cursor (proc w)) slot) (proc w))
    (crowded (share w) || g_full (gaps (share w))) Hw) as Ha.
  apply Ha; [lia|by replace slot with (slot - 1 + 1) by lia|intros x Hx; apply Hout; by left|intros x; apply Hcl| | |done|done].
  - intros x Hx. destruct (Hex Hfull x Hx); [by left|right; lia].
  - intros _ x Hx. apply Hout. right. lia.
Qed.

Lemma observe_live_slot_seen slot w :
  first_live w <> IDX_SLOT_NONE \/ last_seen (cursor (proc w)) = IDX_SLOT_NONE ->
  observe_live_slot slot w =
    let previous := last_seen (cursor (proc w)) in
    if negb (previous =? IDX_SLOT_NONE) && (u64 (previous + 1) <? slot) then
      let w := lock (set_proc (count SlotsMissed (u64 (u64 (slot - 1) - u64 (previous + 1) + 1)) (proc w)) w) in
      let '(_, g, h) := g_add (u64 (previous + 1)) (u64 (slot - 1)) (memory (share w)) (gaps (share w)) in
      seen slot (set_share (set_gaps g h (note_full (share w))) w)
    else seen slot w.
Proof.
  intros Hor. unfold observe_live_slot. destruct (Z.eqb_spec (last_seen (cursor (proc w))) IDX_SLOT_NONE) as [E|E]; cbn [negb andb]; [done|].
  destruct Hor as [E1|]; [|done]. rewrite (proj2 (Z.eqb_neq _ _) E1).
  assert (set_first_live (first_live w) w = w) as -> by (by destruct w).
  destruct (u64 _ <? slot); [|by unfold seen; rewrite (proj2 (Z.eqb_neq _ _) E1); destruct w].
  set (w2 := lock _). assert (first_live w2 = first_live w) as E2.
  { unfold w2. by destruct (lock_keeps (set_proc (count SlotsMissed (u64 (u64 (slot - 1) - u64 (last_seen (cursor (proc w)) + 1) + 1)) (proc w)) w)) as (_ & _ & _ & ->). }
  change (memory (note_full (share w2))) with (memory (share w2)). change (gaps (note_full (share w2))) with (gaps (share w2)).
  destruct (g_add _ _ _ _) as [[r g] h]. unfold seen. cbn [first_live set_share]. rewrite E2, (proj2 (Z.eqb_neq _ _) E1).
  rewrite <- E2. by destruct w2.
Qed.

Lemma lock_crowded w : crowded (share (lock w)) = false -> crowded (share w) = false.
Proof. unfold lock. destruct (schedule w); [done|]. apply events_crowded. Qed.

Lemma observe_live_slot_crowded slot w : crowded (share (observe_live_slot slot w)) = false -> crowded (share w) = false.
Proof.
  unfold observe_live_slot. destruct (_ && _); [|done]. set (w2 := lock _).
  assert (crowded (share w2) = false -> crowded (share w) = false) as Hl by apply (lock_crowded (set_proc _ (set_first_live _ w))).
  destruct (g_add _ _ _ _) as [[r g] h]. intros [Hc _]%orb_false_iff. by apply Hl.
Qed.

Lemma observe_live_slot_stable b0 queued w slot :
  stable b0 queued None w -> b0 <= slot < SLOT_BOUND -> stable b0 queued (Some slot) (observe_live_slot slot w).
Proof.
  intros Hst Hslot Hc. pose proof (Hst (observe_live_slot_crowded _ _ Hc)) as Hw.
  pose proof Hw as [(b & Hb & Hbf) Hf H3 H4 _ _ _ _ _ _].
  set (previous := last_seen (cursor (proc w))) in *. revert Hc.
  rewrite observe_live_slot_seen by (destruct (decide (previous = IDX_SLOT_NONE)); [by right|left; by rewrite H3]).
  cbn zeta. fold previous. destruct (Z.eqb_spec previous IDX_SLOT_NONE) as [E|E]; cbn [negb andb].
  - intros _. assert (front b0 w = b0) as Ef by (unfold front; rewrite (proj2 (Z.eqb_eq _ _)); [done|by apply H3]). rewrite Ef in *.
    apply seen_advance; [done|by rewrite Ef| |exists b; split; [done|lia]]. intros Hne. by apply H3 in E.
  - assert (first_live w <> IDX_SLOT_NONE) as E1 by (by rewrite H3). specialize (H4 E1).
    assert (front b0 w = previous + 1) as Ef by (unfold front; by rewrite (proj2 (Z.eqb_neq _ _) E1)). rewrite Ef in *.
    unfold SLOT_BOUND in *. rewrite (u64_small (previous + 1)) by (unfold is_u64; lia).
    destruct (Z.ltb_spec (previous + 1) slot) as [Hgap|Hgap].
    + rewrite (u64_small (slot - 1)) by (unfold is_u64; lia). set (w2 := set_proc _ w).
      assert (stable b0 queued None (lock w2)) as Hw2 by (by apply lock_stable, set_proc_stable).
      destruct (lock_keeps w2) as (L1 & _ & _ & L4).
      assert (front b0 (lock w2) = previous + 1) as Ef2 by (unfold front; rewrite L1, L4; exact Ef).
      destruct (g_add _ _ _ _) as [[r g] h] eqn:Eg. intros [Hc Hfull]%orb_false_iff.
      pose proof (hole_stands b0 queued (lock w2) slot (Hw2 Hc) Hfull) as Hh. rewrite Ef2, L4, Eg in Hh.
      by apply (Hh E1 ltac:(unfold SLOT_BOUND; lia)).
    + intros _. destruct (decide (slot = previous + 1)) as [->|Hne].
      * apply seen_advance; [done|rewrite Ef; unfold SLOT_BOUND; lia|rewrite Ef; lia|by exists b].
      * apply seen_behind; [done|done|lia].
Qed.

Lemma update_watermark_stable b0 queued w : stable b0 queued None w -> stable b0 queued None (update_watermark w).
Proof.
  intros Hst Hc. unfold update_watermark in *. apply lock_stable in Hst. set (w1 := lock w) in *. clearbody w1.
  pose proof (Hst Hc) as Hw. pose proof Hw as [(b & Hb & Hbf) Hf H3 H4 H5 H6 H7 H8 H9 H10]. pose proof (shared_gaps _ _ Hb) as Hg.
  assert (0 <= highest_committed (proc w1) <= IDX_SLOT_NONE) as Hh.
  { destruct H5 as [->|H5]; unfold IDX_SLOT_NONE, SLOT_BOUND in *; lia. }
  pose proof (g_watermark_ok b (gaps (share w1)) (highest_committed (proc w1)) Hg Hh) as [Hr Hwm].
  change (share (set_passing _ w1)) with (share w1) in *. change (proc (set_passing _ w1)) with (proc w1) in *.
  set (wm := g_watermark _ _) in *. cbn zeta. split; try done; [by exists b|..];
    cbn [proc set_proc set_pstats cursor set_cursor last_indexed idx_slot_cursor_set_indexed].
  - destruct (decide (wm = IDX_SLOT_NONE)) as [E|E]; [by left|right]. destruct (Hwm E) as (W1 & W2 & _).
    change (0 <= wm < front b0 w1). destruct H5 as [E5|H5]; [specialize (W2 E5); lia|].
    specialize (W1 ltac:(unfold IDX_SLOT_NONE, SLOT_BOUND in *; lia)). lia.
  - intros E s Hk Hle. destruct (Hwm E) as (_ & _ & W3). destruct (H8 s Hk) as [Hx|[Hx|[Hx|[Hx|Hx]]]]; [by apply W3 in Hx|auto..|done].
Qed.

Lemma accept_stable b0 queued pending w slot p :
  stable b0 queued pending w -> pending = None \/ pending = Some slot ->
  (crowded (share w) = false -> 0 <= slot < front b0 w) ->
  cursor p = cursor (proc w) -> highest_committed p = highest_committed (proc w) \/ highest_committed p = slot ->
  stable b0 queued None (set_proc p (set_accepted (slot :: accepted w) w)).
Proof.
  intros Hst Hp Hs Ec Hh Hc. destruct (Hst Hc) as [H1 H2 H3 H4 H5 H6 H7 H8 H9 H10]. specialize (Hs Hc).
  split; cbn [proc share first_live accepted schedule passing set_proc set_accepted] in *; unfold below_front, settled, known in *; unfold front in *;
    cbn [proc share first_live accepted schedule passing set_proc set_accepted] in *; rewrite ?Ec; try done.
  - destruct Hh as [->| ->]; [done|by right].
  - intros s Hk. destruct (H8 s Hk) as [Hx|[Hx|[Hx|[Hx|Hx]]]]; [auto|right; left; by apply elem_of_cons; right|auto|auto|].
    right. left. apply elem_of_cons. left. destruct Hp as [->|Hp]; [done|]. congruence.
  - intros Hne s Hk Hle. destruct (H9 Hne s Hk Hle) as [|[?|?]]; [left; by apply elem_of_cons; right|auto..].
Qed.

Lemma resolve_stable b0 queued w slot :
  stable b0 queued None w -> slot ∈ accepted w -> (crowded (share w) = false -> 0 <= slot < front b0 w) ->
  let '(g, h) := g_resolve slot slot (memory (share w)) (gaps (share w)) in
  stable b0 queued None (set_share (set_gaps g h (share w)) w).
Proof.
  intros Hst Ha Hs. destruct (g_resolve _ _ _ _) as [g h] eqn:Er. intros Hc. specialize (Hs Hc).
  destruct (Hst Hc) as [(b & Hb & Hbf) Hf H3 H4 H5 H6 H7 H8 H9 H10].
  pose proof (shared_gaps _ _ Hb) as Hg. pose proof (shared_memory _ _ Hb) as Hm. unfold SLOT_BOUND in *.
  destruct (g_resolve_ok b (gaps (share w)) slot slot Hg ltac:(lia) ltac:(lia)) as (g' & Hr & Hg' & Hout & Hcl).
  rewrite Hm, Hr in Er. injection Er as <- <-.
  split; try done.
  - exists b. split; [|done]. apply (shared_ok_gaps b b (share w) g' (crowded (share w))); [done|done|done| |].
    + intros x Ho. rewrite Hout, Hcl. intros [Hx Hn]. split; [by apply (shared_claimed _ _ Hb)|done].
    + intros x Hx. rewrite Hout. intros [Hox _]. by apply (shared_dropped _ _ Hb x).
  - intros s Hk. cbn [share set_share set_gaps gaps running accepted]. destruct (H8 s Hk) as [Hx|[Hx|[Hx|[Hx|Hx]]]]; [|auto..|done].
    destruct (decide (s = slot)) as [->|]; [auto|]. left. apply Hout. split; [done|lia].
Qed.

Lemma commit_block_stable b0 queued pending ms env block w :
  stable b0 queued pending w -> pending = None \/ pending = Some (block_slot block) ->
  (crowded (share w) = false -> 0 <= block_slot block < front b0 w) ->
  let '(r, w') := commit_block ms env block w in
  match r with Ok _ => stable b0 queued None w' | Err _ => stable b0 queued pending w' end.
Proof.
  intros Hw Hp Hs. unfold commit_block. destruct (handler env block) as [[]|e]; [|by apply set_proc_stable].
  set (slot := block_slot block) in *. set (p := observe_tip block (count Blocks 1 (proc (set_accepted _ w)))).
  destruct (observe_tip_keeps block (count Blocks 1 (proc (set_accepted (slot :: accepted w) w)))) as [Ec Eh].
  set (p' := if _ || _ then _ else p).
  assert (cursor p' = cursor (proc w)) as Ec' by (unfold p', p; by destruct (_ || _)).
  assert (highest_committed p' = highest_committed (proc w) \/ highest_committed p' = slot) as Eh'.
  { unfold p'. destruct (_ || _); [by right|left]. exact Eh. }
  pose proof (accept_stable b0 queued pending w slot p' Hw Hp Hs Ec' Eh') as Ha.
  set (w1 := set_proc p' _) in *. assert (front b0 w1 = front b0 w) as Ef by (unfold front, w1; cbn [proc set_proc first_live set_accepted]; by rewrite Ec').
  apply lock_stable in Ha. destruct (lock_keeps w1) as (L1 & _ & L3 & L4).
  pose proof (resolve_stable b0 queued (lock w1) slot Ha) as Hr. destruct (g_resolve _ _ _ _) as [g h].
  apply save_cursor_stable, update_watermark_stable, Hr.
  - rewrite L3. apply elem_of_cons. by left.
  - assert (front b0 (lock w1) = front b0 w1) as -> by (unfold front; by rewrite L1, L4). rewrite Ef.
    intros Hc. apply Hs. by apply (lock_crowded w1).
Qed.

(** ** The loop *)

(** Whatever was pending when the loop stopped. *)
Definition stopped (b0 : Z) (queued : Z -> Prop) (w : world) : Prop := exists pending, stable b0 queued pending w.

(** The socket brings no slot below the bound of what was queued. *)
Definition live_from (b0 : Z) (a : pass) : Prop :=
  match live_poll a with Entry e => b0 <= slot e < SLOT_BOUND | _ => True end.

(** How a pass leaves the world. *)
Definition passed (b0 : Z) (queued : Z -> Prop) (l : loop) (w : world) : Prop :=
  match failed l with None => stable b0 queued None w | Some _ => stopped b0 queued w end.

Lemma observe_front b0 queued w slot :
  stable b0 queued None w -> b0 <= slot < SLOT_BOUND -> crowded (share (observe_live_slot slot w)) = false ->
  0 <= slot < front b0 (observe_live_slot slot w).
Proof.
  intros Hw Hs Hc. destruct (observe_live_slot_stable b0 queued w slot Hw Hs Hc) as [_ H2 H3 H4 _ _ _ _ _ _].
  split; [lia|].
  assert (slot <= last_seen (cursor (proc (observe_live_slot slot w))) /\
    last_seen (cursor (proc (observe_live_slot slot w))) <> IDX_SLOT_NONE) as [Hle Hne].
  { unfold observe_live_slot. cbn [proc set_proc cursor set_cursor].
    match goal with |- context [idx_slot_cursor_observe ?x slot] => set (c := x) end. unfold idx_slot_cursor_observe.
    destruct (Z.eqb_spec (last_seen c) IDX_SLOT_NONE) as [E|E]; cbn [orb last_seen]; [unfold IDX_SLOT_NONE, SLOT_BOUND in *; lia|].
    destruct (Z.ltb_spec (last_seen c) slot); cbn [last_seen]; [unfold IDX_SLOT_NONE, SLOT_BOUND in *; lia|done]. }
  unfold front. rewrite <- H3 in Hne. rewrite (proj2 (Z.eqb_neq _ _) Hne). lia.
Qed.

Lemma take_live_passed b0 queued ms env entry w :
  stable b0 queued None w -> b0 <= slot entry < SLOT_BOUND ->
  let '(r, w', _) := take_live ms env entry w in
  match r with Ok _ => stable b0 queued None w' | Err _ => stopped b0 queued w' end.
Proof.
  intros Hw Hs. unfold take_live, handle_entry. set (w1 := set_proc _ w).
  assert (stable b0 queued None w1) as Hw1 by (apply set_proc_stable; [done|by case_match..]).
  pose proof (observe_live_slot_stable b0 queued w1 (slot entry) Hw1 Hs) as Hw2.
  pose proof (observe_front b0 queued w1 (slot entry) Hw1 Hs) as Hf.
  set (block := RawBlock _ _ _ _).
  pose proof (commit_block_stable b0 queued _ ms env block _ Hw2 (or_intror eq_refl) Hf) as Hc.
  destruct (commit_block _ _ _ _) as [[[]|e] w']; [done|by eexists].
Qed.

Lemma take_recovered_passed b0 queued ms l c env w :
  stable b0 queued None w -> failed l = None ->
  let '(l', w', _) := take_recovered ms l c env w in passed b0 queued l' w'.
Proof.
  intros Hw Hl. unfold take_recovered. destruct (recovery_done l); [unfold passed; by rewrite Hl|].
  apply lock_stable in Hw. destruct (recovered (share (lock w))) as [|entry q] eqn:Eq; [unfold passed; cbn [failed]; by rewrite Hl|].
  set (w1 := set_share _ (lock w)).
  assert (crowded (share w1) = false -> stands b0 queued None w1 /\ 0 <= slot entry < front b0 w1) as Hw1.
  { intros Hc. destruct (Hw Hc) as [(b & Hb & Hbf) H2 H3 H4 H5 H6 H7 H8 H9 H10].
    pose proof (shared_recovered _ _ Hb) as Hq. rewrite Eq in Hq. apply Forall_cons in Hq as [He Hq].
    split; [|change (front b0 w1) with (front b0 (lock w)); lia].
    split; try done. exists b. split; [|done]. destruct Hb. by split. }
  set (w2 := set_proc _ w1). assert (stable b0 queued None w2) as Hw2 by (apply set_proc_stable; [by intros []%Hw1|done|done]).
  unfold handle_entry. set (block := RawBlock _ _ _ _).
  assert (crowded (share w2) = false -> 0 <= slot entry < front b0 w2) as Hs by (by intros []%Hw1).
  pose proof (commit_block_stable b0 queued None ms env block w2 Hw2 (or_introl eq_refl) Hs) as Hc.
  destruct (commit_block _ _ _ _) as [[[]|e] w']; unfold passed; cbn [failed]; [done|by eexists].
Qed.

Lemma passes_stopped b0 queued ms l s w s' w' freed :
  passes ms l s w = Some (s', w', freed) -> passed b0 queued s w -> Forall (live_from b0) l -> passed b0 queued s' w'.
Proof.
  revert s w s' w' freed. induction l as [|a l IH]; intros s w s' w' freed; cbn [passes]; unfold passed at 1;
    (destruct (failed s) as [e|] eqn:Ef; [intros [= <- <- <-] ? _; unfold passed; by rewrite Ef|]);
    (destruct (live_done s && recovery_done s); [intros [= <- <- <-] ? _; unfold passed; by rewrite Ef|]); [done|].
  destruct (one_pass ms a s w) as [[s1 w1] freed1] eqn:Eo. intros Hr Hw [Ha Hl]%Forall_cons.
  destruct (passes ms l s1 w1) as [[[s2 w2] freed2]|] eqn:Ep; [|done]. cbn [mbind option_bind] in Hr. injection Hr as <- <- <-.
  eapply IH; [exact Ep| |done]. revert Eo. unfold one_pass.
  assert (forall l0, failed l0 = None -> forall r, take_recovered ms l0 (recovered_closed a) (pass_env a) w = r ->
    passed b0 queued r.1.1 r.1.2) as Hrec.
  { intros l0 Hl0 r <-. pose proof (take_recovered_passed b0 queued ms l0 (recovered_closed a) (pass_env a) w Hw Hl0) as H0.
    by destruct (take_recovered _ _ _ _ _) as [[? ?] ?]. }
  assert (forall l0, failed l0 = None -> take_recovered ms l0 (recovered_closed a) (pass_env a) w = (s1, w1, freed1) ->
    passed b0 queued s1 w1) as Hrec' by (intros l0 Hl0 E; apply (Hrec l0 Hl0 _ E)).
  destruct (live_done s); [by apply Hrec'|]. unfold live_from in Ha.
  destruct (live_poll a) as [| |entry]; [by apply Hrec'|by apply Hrec'|].
  pose proof (take_live_passed b0 queued ms (pass_env a) entry w Hw Ha) as Ht.
  destruct (take_live _ _ _ _) as [[[[]|e] w3] freed3]; intros [= <- <- <-]; exact Ht.
Qed.

(** The world a run starts in: what is queued lies below [b0], no slot came over the
    socket yet, nothing past [b0] is indexed, and no worker has claimed anything. *)
Record starts (b0 : Z) (w : world) : Prop := {
  starts_gaps : g_ok b0 (gaps (share w));
  starts_memory : memory (share w) = [];
  starts_span : 0 <= span (pool (share w)) < 2 ^ 64;
  starts_idle : running (share w) = [] /\ recovered (share w) = [] /\ widths (share w) = [];
  starts_bound : 0 <= b0 <= SLOT_BOUND;
  starts_unseen : first_live w = IDX_SLOT_NONE /\ last_seen (cursor (proc w)) = IDX_SLOT_NONE;
  starts_indexed : last_indexed (cursor (proc w)) = highest_committed (proc w) /\
    (highest_committed (proc w) = IDX_SLOT_NONE \/
     0 <= highest_committed (proc w) < b0 /\ forall s, g_out (gaps (share w)) s -> highest_committed (proc w) < s);
  starts_schedule : Forall (Forall event_ok) (schedule w)
}.

Lemma starts_stable b0 w : starts b0 w -> stable b0 (g_out (gaps (share w))) None w.
Proof.
  intros Hst _. destruct Hst as [H1 H2 H3 (H4 & H4' & H4'') H5 [H6 H6'] [H7 H7'] H8].
  assert (front b0 w = b0) as Ef by (unfold front; by rewrite H6).
  split; rewrite ?Ef; try done.
  - exists b0. split; [|lia]. split; rewrite ?H4, ?H4', ?H4''; try done; try (by apply Forall_nil_2); [cbn; lia..|].
    by intros x (y & Hy%elem_of_nil & _).
  - lia.
  - unfold below_front. rewrite Ef. destruct H7' as [?|[? _]]; [by left|by right].
  - unfold below_front. rewrite Ef, H7. destruct H7' as [?|[? _]]; [by left|by right].
  - intros s Hs. by apply (g_out_below b0 _ _ H1) in Hs as [_ ?].
  - intros s [Hs|[Hne _]]; [by left|by rewrite H6 in Hne].
  - rewrite H7. intros Hne s [Hs|[Hf _]]; [|by rewrite H6 in Hf]. destruct H7' as [?|[_ Hq]]; [done|].
    intros Hle. specialize (Hq s Hs). lia.
Qed.

Lemma run_ends b0 ms l last_now last_env w r closed w' freed :
  starts b0 w -> Forall (live_from b0) l ->
  run_processor ms l last_now last_env w = Some (r, closed, w', freed) ->
  exists pending, (r = Ok tt -> pending = None) /\ stable b0 (g_out (gaps (share w))) pending w'.
Proof.
  intros Hw Hl. unfold run_processor. destruct (passes ms l _ w) as [[[s w1] freed1]|] eqn:Ep; [|done].
  intros [= <- _ <- _]. apply (passes_stopped b0 (g_out (gaps (share w)))) in Ep; [|by apply starts_stable|done].
  unfold passed in Ep. destruct (failed s) as [e|]; [destruct Ep as [pending Hp]; exists pending|exists None];
    (split; [done|by apply save_cursor_stable]).
Qed.


(** ** Properties *)

(** The indexed position is never ahead of the work, but for the releases under way.
    However the fetchers interleave with the processing thread, between the sections of a
    release too, whatever the consumer, the clock and the disk answer, and whether the
    loop ends because both rings closed or because a block was rejected: every slot the
    run answers for (queued for recovery when it started, or since the first slot the
    socket brought) that is not past [last_indexed] was accepted by the consumer, or
    given up on by a fetcher's claim, in the sense of [slot_fate], or was between the
    resolution and the return of its release when [last_indexed] was computed. *)
Theorem pipeline_position_settled b0 ms l last_now last_env w r closed w' freed :
  starts b0 w -> Forall (live_from b0) l ->
  run_processor ms l last_now last_env w = Some (r, closed, w', freed) -> crowded (share w') = false ->
  last_indexed (cursor (proc w')) <> IDX_SLOT_NONE ->
  settled (g_out (gaps (share w))) w' (last_indexed (cursor (proc w'))).
Proof. intros Hw Hl Hr Hc. destruct (run_ends _ _ _ _ _ _ _ _ _ _ Hw Hl Hr) as (pending & _ & Hp). by destruct (Hp Hc). Qed.


End Threads.

(** ** Witnesses *)

Definition no_value : Z -> idx_json_val := fun _ => None.

(** Slots 100 to 104 queued, the cursor at 99. *)
Definition sample_gaps : idx_gaps := (g_add 100 104 [] g_empty).1.2.

Definition sample_processor : processor :=
  Processor (SlotCursor 99 IDX_SLOT_NONE 0 (lit "c")) (ProcStats (PCounters 0 0 0 0 0 0) IDX_SLOT_NONE 0 false 99)
    (double_of_u64 0) false 0 99.

(** A worker claims all five slots, finds blocks at 100 and 103, and works the claim
    to its end; another claims 106, which the socket missed, and fails to fetch it. *)
Definition sample_schedule : list (list event) :=
  [[Reads; Claims 0 (Answers (Ok [100; 103]) (fun _ => false) (fun s => Ok (Some s, s)) (fun _ => Ok tt)); Acts 0; Acts 0; Acts 0];
   [Acts 0; Acts 0; Acts 0; Acts 0; Acts 0; Acts 0; Acts 0]; [];
   [Reads; Claims 0 (Answers (Ok [106]) (fun _ => false) (fun s => Err IDX_ERR_TIMEOUT) (fun _ => Ok tt)); Acts 1; Acts 1; Acts 1; Acts 1]].

Definition sample_world : world :=
  World sample_processor
    (Shared sample_gaps [] (Fetcher.Pool 4 250 false 64 (FetcherStats 0 0 0 0 0 0 4)) [] [] [] false) sample_schedule ∅ [] IDX_SLOT_NONE [].

Definition sample_pass (n s : Z) : pass :=
  Pass (Entry (RingEntry n s (Some s) 0 0 0)) false (Handling (fun _ => Ok tt) (double_of_u64 0) all_ok).

Definition last_pass : pass := Pass Closed true (Handling (fun _ => Ok tt) (double_of_u64 0) all_ok).

Definition sample_passes : list pass := [sample_pass 0 105; sample_pass 1 107; last_pass; last_pass; last_pass].

Definition sample_run : option (result unit * bool * world * list Z) :=
  run_processor no_value 1000 sample_passes (double_of_u64 0) all_ok sample_world.

(** The world it ends in. *)
Definition sample_end : world :=
  match sample_run with Some (_, _, w, _) => w | None => sample_world end.

Lemma sample_starts : starts 105 sample_world.
Proof.
  split; try done; try by vm_compute.
  - destruct (g_add_ok 0 g_empty 100 104 (proj1 g_empty_ok) ltac:(lia) ltac:(by vm_compute)) as (g & Ha & Hg & _).
    change (gaps (share sample_world)) with (g_add 100 104 [] g_empty).1.2. by rewrite Ha.
  - split; [done|]. right. split; [by vm_compute|]. intros s (c & e & He & _ & Hs).
    apply list_elem_of_singleton in He as ->. revert Hs. vm_compute (from _). vm_compute (to _). cbn. lia.
  - repeat constructor.
Qed.

Lemma sample_live : Forall (live_from 105) sample_passes.
Proof. repeat constructor; by vm_compute. Qed.

Lemma sample_ends : run_processor no_value 1000 sample_passes (double_of_u64 0) all_ok sample_world =
  Some (Ok tt, false, sample_end, [105; 107; 100; 103]).
Proof. vm_compute. reflexivity. Qed.

Lemma sample_position : last_indexed (cursor (proc sample_end)) = 105 /\ crowded (share sample_end) = false.
Proof. vm_compute. split; reflexivity. Qed.

(** *** The window of a release *)

(** Slots 100 to 104 queued, the cursor at 99; a worker claims them, the listing fails and
    it gives them back, the processing thread computing the position for the block of slot
    105 between the second and the third section. *)
Definition window_schedule : list (list event) :=
  [[Reads; Claims 0 (Answers (Err IDX_ERR_TIMEOUT) (fun _ => false) (fun s => Ok (Some s, s)) (fun _ => Ok tt)); Acts 0; Acts 0; Acts 0];
   []; [Acts 0]].

Definition window_world : world :=
  World sample_processor (share sample_world) window_schedule ∅ [] IDX_SLOT_NONE [].

Definition window_end : world :=
  match run_processor no_value 1000 [sample_pass 0 105; last_pass; last_pass] (double_of_u64 0) all_ok window_world with
  | Some (_, _, w, _) => w
  | None => window_world
  end.

(** A release lets the position pass.  Between the two locks of [idx_gaps_release] its range is
    neither outstanding nor claimed, and a position computed then passes it: slots 100 to
    104 were never fetched and are outstanding again when the run ends, yet the position
    is 105 and is persisted, so a restart resumes at 106. *)
Theorem release_window_passes :
  last_indexed (cursor (proc window_end)) = 105 /\ accepted window_end = [105] /\
  passing window_end = [(100, 104)] /\ under_way (running (share window_end)) = [] /\
  ranges (gaps (share window_end)) = [GapsEntry 100 104 false] /\
  content <$> files window_end !! lit "c" = Some (saved_text (SlotCursor 105 105 0 (lit "c"))) /\
  idx_slot_cursor_resume_slot (Some (SlotCursor 105 105 0 (lit "c"))) = 106.
Proof. vm_compute. split_and!; reflexivity. Qed.

(** A release undoes the count of others.  Two workers at two slots each: the first reads
    the count of resolved slots, the second resolves its two, the first puts its range back
    and the count with it: two slots were resolved and none is counted. *)
Theorem release_loses_count :
  let s := foldl (fun s e => happens e s)
    (Shared sample_gaps [] (Fetcher.Pool 4 250 false 2 (FetcherStats 0 0 0 0 0 0 4)) [] [] [] false)
    [Reads; Claims 0 (Answers (Err IDX_ERR_TIMEOUT) (fun _ => false) (fun s => Ok (Some s, s)) (fun _ => Ok tt));
     Reads; Claims 0 (Answers (Ok []) (fun _ => false) (fun s => Ok (Some s, s)) (fun _ => Ok tt));
     Acts 0; Acts 0; Acts 1; Acts 1; Acts 0; Acts 0] in
  ranges (gaps s) = [GapsEntry 100 101 false; GapsEntry 104 104 false] /\ resolved (stats (gaps s)) = 0.
Proof. vm_compute. split; reflexivity. Qed.

Lemma pipeline_position_settled_witness :
  settled (g_out (gaps (share sample_world))) sample_end 105.
Proof.
  destruct sample_position as [Hp Hc].
  assert (last_indexed (cursor (proc sample_end)) <> IDX_SLOT_NONE) as Hne by (rewrite Hp; vm_compute; discriminate).
  pose proof (pipeline_position_settled no_value 105 1000 sample_passes (double_of_u64 0) all_ok sample_world _ _ sample_end _
           sample_starts sample_live sample_ends Hc Hne) as H.
  rewrite Hp in H. exact H.
Defined.

