(* ===== verification/Pipeline.v ===== *)
(** * pipeline.c: the receive side and the run

    The thread that follows the socket: reading notifications, the two receive loops
    ([blockSubscribe], and [slotSubscribe] with [getBlock] when the endpoint lacks
    it), queueing the backfill, and the run around them; the processing thread is
    Processor.v.  The connections, the HTTP client, the clock and the other threads
    are the environment: each turn of a loop is given the flags it reads and what the
    calls it makes answer, so a run over all lists of turns is every run.  What a
    loop does to the outside is collected: the entries it publishes, the documents it
    frees and the connections it opens and closes. *)

From S2P Require Import Prelude Double Json Ring Gaps GapSet SlotCursor Config Fetcher Processor.
#[local] Open Scope Z_scope.

(** src/src/pipeline.c:22-22 [IDX_PIPELINE_POLL_TIMEOUT_MS] *)
Definition IDX_PIPELINE_POLL_TIMEOUT_MS : Z := 1000.

(** src/src/pipeline.c:23-23 [IDX_PIPELINE_SAVE_INTERVAL_MS] *)
Definition IDX_PIPELINE_SAVE_INTERVAL_MS : Z := 1000.

(** src/src/pipeline.c:26-26 [IDX_PIPELINE_PARAMS_MAX] *)
Definition IDX_PIPELINE_PARAMS_MAX : Z := IDX_CONFIG_STR_MAX + 128.

(** ** Notifications *)

(** src/src/pipeline.c:138-158 [idx_pipeline_read_block_notification]: the block of a
    value whose slot is known. *)
Definition notified (value : idx_json_val) (number : Z) : Prelude.result idx_json_val * option Z :=
  if negb (idx_json_is_object value) then (IDX_FAIL IDX_ERR_PARSE, Some number)
  else
    let failure := idx_json_get value (lit "err") in
    if idx_json_is_present failure && negb (idx_json_is_null failure) then (IDX_FAIL IDX_ERR_NOT_FOUND, Some number)
    else
      let candidate := idx_json_get value (lit "block") in
      if negb (idx_json_is_object candidate) then (IDX_FAIL IDX_ERR_NOT_FOUND, Some number)
      else (Ok candidate, Some number).

(** src/src/pipeline.c:112-159 [idx_pipeline_read_block_notification]: the block, and
    the slot when it is set. *)
Definition idx_pipeline_read_block_notification (result : idx_json_val) : Prelude.result idx_json_val * option Z :=
  if negb (idx_json_is_object result) then (IDX_FAIL IDX_ERR_PARSE, None)
  else
    let value := idx_json_get result (lit "value") in
    match idx_json_opt_u64 (idx_json_get result (lit "context")) (lit "slot") with
    | Some number => notified value number
    | None =>
        match idx_json_opt_u64 value (lit "slot") with
        | Some number => notified value number
        | None => (IDX_FAIL IDX_ERR_PARSE, None)
        end
    end.

(** src/src/pipeline.c:161-178 [idx_pipeline_read_slot_notification] *)
Definition idx_pipeline_read_slot_notification (result : idx_json_val) : Prelude.result Z :=
  if negb (idx_json_is_object result) then IDX_FAIL IDX_ERR_PARSE
  else
    match idx_json_opt_u64 result (lit "slot") with
    | None => IDX_FAIL IDX_ERR_PARSE
    | Some number => Ok number
    end.

(** ** The guards *)

(** src/src/pipeline.c:182-184 [stop_requested]: the two flags. *)
Definition stop_requested (stop processor_failed : bool) : bool := stop || processor_failed.

(** src/src/pipeline.c:186-189 [above_end] *)
Definition above_end (cfg : idx_config) (slot : Z) : bool := negb (end_slot cfg =? 0) && (end_slot cfg <? slot).

(** src/src/pipeline.c:191-194 [at_or_above_end] *)
Definition at_or_above_end (cfg : idx_config) (slot : Z) : bool := negb (end_slot cfg =? 0) && (end_slot cfg <=? slot).

(** src/src/pipeline.c:196-198 [below_floor] *)
Definition below_floor (floor slot : Z) : bool := negb (floor =? 0) && (slot <? floor).

(** ** The receive thread *)

(** src/include/pipeline.h:119-163 [idx_pipeline_stats]: what the receive thread
    writes. *)
Record receiver := Receiver {
  slots_skipped : Z;
  received_bytes : Z;
  reconnects : Z;
  used_fallback : bool
}.

(** What the receive thread has done: the entries it published, the documents it
    freed. *)
Record outbox := Outbox { sent : list idx_ring_entry; freed : list Z }.

(** A message of the socket: its document, the [result] in it, and its length. *)
Record message := Message { m_doc : option Z; m_result : idx_json_val; m_length : Z }.

(** One turn of a receive loop: the flags read before it, what the poll gives, the
    reconnects the connection then counts, what [getBlock] answers (on the fallback
    path: the document and the block) and what publishing does. *)
Record turn := Turn {
  flags : bool * bool;
  poll : result message;
  reconnects_now : Z;
  fetched : result (option Z * idx_json_val);
  published : result unit
}.

(** src/src/pipeline.c:493-503 [note_reconnects] *)
Definition note_reconnects (now : Z) (r : receiver) : receiver :=
  if now <=? reconnects r then r else Receiver (slots_skipped r) (received_bytes r) now (used_fallback r).

Definition skip_slot (r : receiver) : receiver :=
  Receiver (u64 (slots_skipped r + 1)) (received_bytes r) (reconnects r) (used_fallback r).

Definition free_doc (d : option Z) (o : outbox) : outbox := Outbox (sent o) (freed o ++ option_list d).

Definition send (e : idx_ring_entry) (o : outbox) : outbox := Outbox (sent o ++ [e]) (freed o).

(** What becomes of the loop after a turn: it goes on, or it leaves with a status. *)
Inductive next := Continue | Leave (status : result unit).

Section Receive.
Context (cfg : idx_config) (floor : Z).
(** Where a value is in its document. *)
Context (node_of : idx_json_val -> Z).

(** What both loops do with a block: publish it, and see whether it was the last. *)
Definition hand_over (e : idx_ring_entry) (publishing : result unit) (r : receiver) (o : outbox) : next * receiver * outbox :=
  let o := send e o in
  match publishing with
  | Err status => (Leave (Err status), r, o)
  | Ok _ => (if at_or_above_end cfg (slot e) then Leave (Ok tt) else Continue, r, o)
  end.

(** src/src/pipeline.c:550-617 [run_subscription]: one turn. *)
Definition subscription_turn (t : turn) (r : receiver) (o : outbox) : next * receiver * outbox :=
  let r := note_reconnects (reconnects_now t) r in
  match poll t with
  | Err IDX_ERR_TIMEOUT => (Continue, r, o)
  | Err code => (Leave (Err code), r, o)
  | Ok m =>
      let r := Receiver (slots_skipped r) (u64 (received_bytes r + m_length m)) (reconnects r) (used_fallback r) in
      match idx_pipeline_read_block_notification (m_result m) with
      | (Err IDX_ERR_NOT_FOUND, _) => (Continue, skip_slot r, free_doc (m_doc m) o)
      | (Err _, _) | (Ok _, None) => (Continue, r, free_doc (m_doc m) o)
      | (Ok block, Some slot) =>
          if below_floor floor slot then (Continue, r, free_doc (m_doc m) o)
          else if above_end cfg slot then (Leave (Ok tt), r, free_doc (m_doc m) o)
          else hand_over (RingEntry 0 slot (m_doc m) (node_of block) 0 (m_length m)) (published t) r o
      end
  end.

(** src/src/pipeline.c:665-737 [run_fallback]: one turn. *)
Definition fallback_turn (t : turn) (r : receiver) (o : outbox) : next * receiver * outbox :=
  let r := note_reconnects (reconnects_now t) r in
  match poll t with
  | Err IDX_ERR_TIMEOUT => (Continue, r, o)
  | Err code => (Leave (Err code), r, o)
  | Ok m =>
      let o := free_doc (m_doc m) o in
      match idx_pipeline_read_slot_notification (m_result m) with
      | Err _ => (Continue, r, o)
      | Ok slot =>
          if below_floor floor slot then (Continue, r, o)
          else if above_end cfg slot then (Leave (Ok tt), r, o)
          else
            match fetched t with
            | Err IDX_ERR_NOT_FOUND => (Continue, skip_slot r, o)
            | Err _ => (Continue, r, o)
            | Ok (doc, value) => hand_over (RingEntry 0 slot doc (node_of value) 1 0) (published t) r o
            end
      end
  end.

(** The loop around either: [None] when the turns end before it does. *)
Fixpoint receive (step : turn -> receiver -> outbox -> next * receiver * outbox) (turns : list turn)
    (r : receiver) (o : outbox) : option (result unit * receiver * outbox) :=
  match turns with
  | [] => None
  | t :: turns =>
      if stop_requested (flags t).1 (flags t).2 then Some (Ok tt, r, o)
      else
        match step t r o with
        | (Leave status, r, o) => Some (status, r, o)
        | (Continue, r, o) => receive step turns r o
        end
  end.

(** What happens to a connection. *)
Inductive net := PubsubOpened | Unsubscribed | PubsubClosed | RpcOpened | RpcClosed.

(** src/src/pipeline.c:505-526 [open_subscription]: given how opening and subscribing
    go. *)
Definition open_subscription (opening subscribing : result unit) : result unit * list net :=
  match opening with
  | Err e => (Err e, [])
  | Ok _ =>
      match subscribing with
      | Err e => (Err e, [PubsubOpened; PubsubClosed])
      | Ok _ => (Ok tt, [PubsubOpened])
      end
  end.

(** src/src/pipeline.c:528-536 [close_subscription]: given whether a stop is
    requested. *)
Definition close_subscription (status : result unit) (stopping : bool) : list net :=
  match status with
  | Ok _ => [Unsubscribed; PubsubClosed]
  | Err _ => if stopping then [Unsubscribed; PubsubClosed] else [PubsubClosed]
  end.

(** How following goes: opening the client and the connection, subscribing, the
    turns, and whether a stop is requested at the end. *)
Record following := Following {
  f_rpc : result unit;
  f_open : result unit;
  f_subscribe : result unit;
  f_turns : list turn;
  f_stopping : bool
}.

(** src/src/pipeline.c:539-622 [run_subscription] *)
Definition run_subscription (f : following) (r : receiver) (o : outbox) : option (result unit * receiver * outbox * list net) :=
  match open_subscription (f_open f) (f_subscribe f) with
  | (Err e, n) => Some (Err e, r, o, n)
  | (Ok _, n) =>
      '(status, r, o) ← receive subscription_turn (f_turns f) r o;
      Some (status, r, o, n ++ close_subscription status (f_stopping f))
  end.

(** src/src/pipeline.c:628-742 [run_fallback] *)
Definition run_fallback (f : following) (r : receiver) (o : outbox) : option (result unit * receiver * outbox * list net) :=
  if streq (rpc_url cfg) [] then Some (IDX_FAIL IDX_ERR_INVALID_ARG, r, o, [])
  else
    let r := Receiver (slots_skipped r) (received_bytes r) (reconnects r) true in
    match f_rpc f with
    | Err e => Some (Err e, r, o, [])
    | Ok _ =>
        match open_subscription (f_open f) (f_subscribe f) with
        | (Err e, n) => Some (Err e, r, o, [RpcOpened] ++ n ++ [RpcClosed])
        | (Ok _, n) =>
            '(status, r, o) ← receive fallback_turn (f_turns f) r o;
            Some (status, r, o, [RpcOpened] ++ n ++ close_subscription status (f_stopping f) ++ [RpcClosed])
        end
    end.

End Receive.

(** ** Opening, backfilling, running *)

(** src/include/pipeline.h:86-114 [idx_pipeline_options]: the cursor is the
    processing thread's. *)
Record idx_pipeline_options := PipelineOptions {
  poll_timeout_ms : Z;
  save_interval_ms : Z;
  allow_fallback : bool;
  recover_gaps : bool
}.

(** src/src/pipeline.c:746-755 [idx_pipeline_options_init] *)
Definition idx_pipeline_options_init : idx_pipeline_options :=
  PipelineOptions IDX_PIPELINE_POLL_TIMEOUT_MS IDX_PIPELINE_SAVE_INTERVAL_MS true true.

(** src/src/pipeline.c:28-85 [idx_pipeline]: what opening it builds. *)
Record idx_pipeline := Pipeline {
  options : idx_pipeline_options;
  subscribe_params : bytes;
  live_ring : idx_ring;
  recovery_ring : idx_ring;
  pipeline_gaps : idx_gaps;
  opened_processor : processor
}.

(** src/src/pipeline.c:757-839 [idx_pipeline_open]: given the configuration, the
    cursor and whether there is a handler. *)
Definition idx_pipeline_open (opt : idx_pipeline_options) (cfg : option idx_config) (cur : option idx_slot_cursor)
    (has_handler : bool) (h : heap) : result idx_pipeline * heap :=
  match cfg, cur with
  | Some cfg, Some cur =>
      if negb has_handler then (IDX_FAIL IDX_ERR_INVALID_ARG, h)
      else if streq (wss_url cfg) [] then (IDX_FAIL IDX_ERR_INVALID_ARG, h)
      else
        let '(ok, h) := malloc h in
        if negb ok then (IDX_FAIL IDX_ERR_NO_MEMORY, h)
        else
          let opt := PipelineOptions
            (if poll_timeout_ms opt =? 0 then IDX_PIPELINE_POLL_TIMEOUT_MS else poll_timeout_ms opt)
            (if save_interval_ms opt =? 0 then IDX_PIPELINE_SAVE_INTERVAL_MS else save_interval_ms opt)
            (allow_fallback opt) (recover_gaps opt) in
          match idx_config_block_subscribe_params cfg IDX_PIPELINE_PARAMS_MAX with
          | Err e => (Err e, h)
          | Ok params =>
              let ring_options :=
                (if negb (queue_depth cfg =? 0) then queue_depth cfg else idx_ring_options_init.1, idx_ring_options_init.2) in
              match idx_ring_new (Some ring_options) h with
              | (Err e, h) => (Err e, h)
              | (Ok ring, h) =>
                  match idx_ring_new (Some (4, true)) h with
                  | (Err e, h) => (Err e, h)
                  | (Ok recovered, h) =>
                      match idx_gaps_new 0 h with
                      | (Err e, h) => (Err e, h)
                      | (Ok gaps, h) =>
                          (Ok (Pipeline opt params ring recovered gaps
                                 (Processor cur (ProcStats (PCounters 0 0 0 0 0 0) IDX_SLOT_NONE 0 false (last_indexed cur))
                                    (double_of_u64 0) false 0 (last_indexed cur))), h)
                      end
                  end
              end
          end
  | _, _ => (IDX_FAIL IDX_ERR_INVALID_ARG, h)
  end.

(** src/src/pipeline.c:841-851 [idx_pipeline_close]: the documents freed with the
    rings, once the workers have stopped. *)
Definition idx_pipeline_close (p : idx_pipeline) : list Z :=
  idx_ring_free (Some (recovery_ring p)) ++ idx_ring_free (Some (live_ring p)).

(** src/src/pipeline.c:859-888 [idx_pipeline_get_stats]: the struct of pipeline.h,
    the fields of each writer together, with the ring's, the gap set's and the
    fetchers' own. *)
Record idx_pipeline_stats := PipelineStats {
  s_proc : proc_stats;
  s_recv : receiver;
  s_queue_dropped : Z;
  queue_high_water : Z;
  s_queue_depth : Z;
  gap_slots_outstanding : Z;
  gap_slots_resolved : Z;
  gap_ranges : Z;
  gap_slots_absent : Z;
  gap_fetch_failures : Z;
  gap_ranges_abandoned : Z;
  gap_ranges_claimed : Z
}.

(** src/src/pipeline.c:859-888 [idx_pipeline_get_stats]: with the fetchers' last
    reading when the pool is gone. *)
Definition idx_pipeline_get_stats (ps : proc_stats) (rs : receiver) (ring : idx_ring) (g : idx_gaps)
    (last : idx_fetcher_stats) (fetchers : option idx_fetcher_pool) : idx_pipeline_stats :=
  let ring := idx_ring_get_stats ring in
  let gaps := idx_gaps_get_stats g in
  let f := match fetchers with Some p => idx_fetcher_pool_get_stats p | None => last end in
  PipelineStats ps rs (dropped ring) (high_water ring) (stat_depth ring) (slot_count gaps) (resolved gaps) (range_count gaps)
    (slots_absent f) (fetch_failures f) (ranges_abandoned f) (ranges_claimed f).

Section Run.
Context {G : Type} `{GapOps G}.
Context (cfg : idx_config) (opt : idx_pipeline_options) (node_of : idx_json_val -> Z).

(** src/src/pipeline.c:895-948 [queue_backfill]: given how opening a client goes and
    the tip [getSlot] answers. *)
Definition queue_backfill (floor : Z) (opening : result unit) (get_slot : result Z) (g : G) (h : heap) : G * heap :=
  if negb (recover_gaps opt) || streq (rpc_url cfg) [] then (g, h)
  else
    match opening, get_slot with
    | Ok _, Ok tip =>
        if (tip =? 0) || (tip <=? floor) then (g, h)
        else
          let to := tip - 1 in
          let to := if negb (end_slot cfg =? 0) && (end_slot cfg <? to) then end_slot cfg else to in
          if to <? floor then (g, h)
          else let '(_, g, h) := g_add floor to h g in (g, h)
    | _, _ => (g, h)
    end.

(** src/src/pipeline.c:950-976 [start_fetchers] *)
Definition start_fetchers (env : start_env) (h : heap) : option idx_fetcher_pool * heap :=
  if negb (recover_gaps opt) then (None, h)
  else if streq (rpc_url cfg) [] then (None, h)
  else
    let '(claim_span, idle) := idx_fetcher_options_init in
    match idx_fetcher_pool_start (negb (streq (rpc_url cfg) [])) (concurrency cfg) claim_span idle env h with
    | (Ok pool, _, h) => (Some pool, h)
    | (Err _, _, h) => (None, h)
    end.

(** src/src/pipeline.c:990-1017 [drain_recovery]: given the pool, whether the gap set
    is empty, and for each 100 ms the flags and whether it is empty then; [None]
    while it waits. *)
Fixpoint drain_loop (seen : list (bool * bool * bool)) : option unit :=
  match seen with
  | [] => None
  | (stop, processor_failed, empty) :: seen =>
      if stop_requested stop processor_failed || empty then Some tt else drain_loop seen
  end.

(** src/src/pipeline.c:990-1017 [drain_recovery] *)
Definition drain_recovery (has_fetchers empty : bool) (seen : list (bool * bool * bool)) : option unit :=
  if negb has_fetchers || empty then Some tt else drain_loop seen.

(** What a run is given: opening the client and the tip for the backfill; whether the
    processing thread starts; how the pool starts; following, over either method;
    the flags after each; the drain; and how the processing thread ended. *)
Record run_env := RunEnv {
  e_opening : result unit;
  e_tip : result Z;
  e_thread : bool;
  e_pool : start_env;
  e_subscription : following;
  e_flags : bool * bool;
  e_fallback : following;
  e_flags_after : bool * bool;
  e_empty : bool;
  e_drain : list (bool * bool * bool);
  e_processor : result unit
}.

(** What the end of a run does, in order. *)
Inductive shutdown := CloseLive | StopFetchers | CloseRecovered | JoinProcessor.

(** What a run leaves: its status, the gap set the threads start with, the receive
    thread's counters and outbox, and what it does at the end. *)
Record ran := Ran {
  ran_status : result unit;
  ran_gaps : G;
  ran_receiver : receiver;
  ran_outbox : outbox;
  ran_net : list net;
  ran_shutdown : list shutdown
}.

(** src/src/pipeline.c:1019-1089 [idx_pipeline_run] *)
Definition idx_pipeline_run (cursor : idx_slot_cursor) (env : run_env) (g : G) (h : heap) (r : receiver) : option ran :=
  let floor := idx_slot_cursor_resume_slot (Some cursor) in
  let '(g, h) := if floor =? 0 then (g, h) else queue_backfill floor (e_opening env) (e_tip env) g h in
  if negb (e_thread env) then Some (Ran (IDX_FAIL IDX_ERR_INTERNAL) g r (Outbox [] []) [] [])
  else
    let '(fetchers, h) := start_fetchers (e_pool env) h in
    '(status, r, o, n) ← run_subscription cfg floor node_of (e_subscription env) r (Outbox [] []);
    '(status, r, o, n) ←
      (if bool_decide (status = Err IDX_ERR_REMOTE) && allow_fallback opt && negb (stop_requested (e_flags env).1 (e_flags env).2)
       then '(status, r, o, n') ← run_fallback cfg floor node_of (e_fallback env) r o; Some (status, r, o, n ++ n')
       else Some (status, r, o, n));
    _ ←
      (if bool_decide (status = Ok tt) && negb (stop_requested (e_flags_after env).1 (e_flags_after env).2)
       then drain_recovery (bool_decide (is_Some fetchers)) (e_empty env) (e_drain env)
       else Some tt);
    Some (Ran (match e_processor env with Err e => Err e | Ok _ => status end) g r o n
            [CloseLive; StopFetchers; CloseRecovered; JoinProcessor]).

End Run.

Lemma notified_exact value :
  (forall n b s, notified value n = (Ok b, s) <-> s = Some n /\ idx_json_is_object value = true /\
     (idx_json_get value (lit "err") = None \/ idx_json_get value (lit "err") = Some JNull) /\
     b = idx_json_get value (lit "block") /\ idx_json_is_object b = true) /\
  (forall n e s, notified value n = (Err e, s) ->
     e = IDX_ERR_NOT_FOUND /\ s = Some n /\ idx_json_is_object value = true \/ e = IDX_ERR_PARSE).
Proof.
  unfold notified. destruct (idx_json_is_object value); cbn [negb].
  2: { split; [intros n b s; split; [done|by intros (_ & ? & _)]|intros n e s [= <- _]; by right]. }
  assert (idx_json_is_present (idx_json_get value (lit "err")) && negb (idx_json_is_null (idx_json_get value (lit "err"))) = false <->
    idx_json_get value (lit "err") = None \/ idx_json_get value (lit "err") = Some JNull) as He.
  { destruct (idx_json_get value (lit "err")) as [[]|]; simpl; intuition congruence. }
  destruct (_ && _).
  { split; [intros n b s; split; [done|intros (_ & _ & H & _); by apply He in H]|intros n e s [= <- <-]; by left]. }
  assert (idx_json_get value (lit "err") = None \/ idx_json_get value (lit "err") = Some JNull) as Hok by (by apply He).
  destruct (idx_json_is_object (idx_json_get value (lit "block"))) eqn:E2; cbn [negb].
  - split; [|done]. intros n b s. split; [by intros [= <- <-]|]. by intros (-> & _ & _ & -> & _).
  - split; [intros n b s; split; [done|intros (_ & _ & _ & -> & H); congruence]|]. intros n e s [= <- <-]. by left.
Qed.

(** ** The receive loops *)

(** The slots a run is to index. *)
Definition in_range (cfg : idx_config) (floor s : Z) : Prop :=
  (floor = 0 \/ floor <= s) /\ (end_slot cfg = 0 \/ s <= end_slot cfg).

#[export] Instance in_range_dec cfg floor s : Decision (in_range cfg floor s).
Proof. unfold in_range. apply _. Defined.

(** The slot a turn announces with a block, the block, and the document's length. *)
Definition announced (t : turn) : option (Z * idx_json_val * message) :=
  match poll t with
  | Ok m =>
      match idx_pipeline_read_block_notification (m_result m) with (Ok block, Some slot) => Some (slot, block, m) | _ => None end
  | Err _ => None
  end.

(** What a turn of the subscription is worth: the entry of its block when the run is
    to index it. *)
Definition wanted (cfg : idx_config) (floor : Z) (node_of : idx_json_val -> Z) (t : turn) : option idx_ring_entry :=
  '(s, block, m) ← announced t;
  if decide (in_range cfg floor s) then Some (RingEntry 0 s (m_doc m) (node_of block) 0 (m_length m)) else None.

(** The same on the fallback path, where the block is fetched. *)
Definition wanted_slot (cfg : idx_config) (floor : Z) (node_of : idx_json_val -> Z) (t : turn) : option idx_ring_entry :=
  match poll t with
  | Ok m =>
      match idx_pipeline_read_slot_notification (m_result m), fetched t with
      | Ok s, Ok (doc, value) => if decide (in_range cfg floor s) then Some (RingEntry 0 s doc (node_of value) 1 0) else None
      | _, _ => None
      end
  | Err _ => None
  end.

(** The document a turn's message brings. *)
Definition message_doc (t : turn) : list Z := match poll t with Ok m => option_list (m_doc m) | Err _ => [] end.

(** The slot a turn announces, on either path. *)
Definition sub_slot (t : turn) : option Z := x ← announced t; Some x.1.1.

Definition slot_slot (t : turn) : option Z :=
  match poll t with Ok m => succeeded (idx_pipeline_read_slot_notification (m_result m)) | Err _ => None end.

(** Why a loop left with a status, the last turn it took and the one it did not. *)
Definition left_because (cfg : idx_config) (slot_of : turn -> option Z) (status : result unit) (used rest : list turn) : Prop :=
  match status with
  | Ok _ =>
      (exists t, hd_error rest = Some t /\ stop_requested (flags t).1 (flags t).2 = true) \/
      (exists t s, last used = Some t /\ slot_of t = Some s /\ end_slot cfg <> 0 /\ end_slot cfg <= s)
  | Err e => exists t, last used = Some t /\ (poll t = Err e \/ published t = Err e)
  end.

(** What a turn does, apart from the counters: it sends what it is worth, frees what
    it does not hand over, and leaves for a reason. *)
Definition turn_does (cfg : idx_config) (slot_of : turn -> option Z) (entry_of : turn -> option idx_ring_entry)
    (freed_of : turn -> list Z) (step : turn -> receiver -> outbox -> next * receiver * outbox) : Prop :=
  forall t r o, exists n r',
    step t r o = (n, r', Outbox (sent o ++ option_list (entry_of t)) (freed o ++ freed_of t)) /\
    match n with Continue => True | Leave status => left_because cfg slot_of status [t] [] end.

Lemma receive_does cfg slot_of entry_of freed_of step turns r o status r' o' :
  turn_does cfg slot_of entry_of freed_of step -> receive step turns r o = Some (status, r', o') ->
  exists used rest, turns = used ++ rest /\ sent o' = sent o ++ omap entry_of used /\ freed o' = freed o ++ (used ≫= freed_of) /\
    left_because cfg slot_of status used rest.
Proof.
  intros Hdoes. revert r o. induction turns as [|t turns IH]; intros r o; cbn [receive]; [done|].
  destruct (stop_requested _ _) eqn:Es.
  { intros [= <- <- <-]. exists [], (t :: turns). rewrite !app_nil_r. split_and!; try done. left. by exists t. }
  destruct (Hdoes t r o) as (n & r1 & -> & Hn).
  assert (sent o ++ omap entry_of [t] = sent o ++ option_list (entry_of t)) as E1.
  { cbn. by destruct (entry_of t). }
  assert (freed o ++ ([t] ≫= freed_of) = freed o ++ freed_of t) as E2 by (cbn; by rewrite app_nil_r).
  destruct n as [|s].
  - intros Hr. apply IH in Hr as (used & rest & -> & Hs & Hf & Hl). exists (t :: used), rest. cbn [sent freed] in *.
    split_and!; [done| | |].
    + rewrite Hs, <- app_assoc. f_equal. cbn. by destruct (entry_of t).
    + rewrite Hf, <- app_assoc. done.
    + revert Hl. unfold left_because. destruct used as [|u used]; [|done]. cbn [last hd_error]. destruct status as [[]|e].
      * intros [Hl|(? & ? & ? & _)]; [by left|done].
      * intros (? & ? & _). done.
  - intros [= <- <- <-]. exists [t], turns. cbn [sent freed]. rewrite E1, E2. split_and!; try done.
    revert Hn. unfold left_because. destruct s as [[]|e]; [|done]. intros [(? & ? & _)|Hn]; [done|by right].
Qed.

Lemma guards_in_range cfg floor s :
  below_floor floor s = false -> above_end cfg s = false -> in_range cfg floor s.
Proof. unfold below_floor, above_end, in_range. intros. destruct (floor =? 0) eqn:?, (end_slot cfg =? 0) eqn:?; zlia. Qed.

Lemma guards_out_of_range cfg floor s :
  below_floor floor s = true \/ above_end cfg s = true -> ~ in_range cfg floor s.
Proof. unfold below_floor, above_end, in_range. intros [H|H]; apply andb_true_iff in H as [H1 H2]; rewrite negb_true_iff in H1; zlia. Qed.

Lemma above_end_le cfg s : above_end cfg s = true -> end_slot cfg <> 0 /\ end_slot cfg <= s.
Proof. unfold above_end. intros H. apply andb_true_iff in H as [H1 H2]. rewrite negb_true_iff in H1. zlia. Qed.

Lemma hand_over_does cfg slot_of e t r o :
  slot_of t = Some (slot e) -> exists n,
  hand_over cfg e (published t) r o = (n, r, Outbox (sent o ++ [e]) (freed o)) /\
  match n with Continue => True | Leave status => left_because cfg slot_of status [t] [] end.
Proof.
  intros Hs. unfold hand_over, send. destruct (published t) as [[]|e'] eqn:Ep.
  - destruct (at_or_above_end cfg (slot e)) eqn:Ea; eexists; (split; [reflexivity|]); [|done]. right. exists t, (slot e).
    unfold at_or_above_end in Ea. apply andb_true_iff in Ea as [H1 H2]. rewrite negb_true_iff in H1. split_and!; try done; zlia.
  - eexists. split; [reflexivity|]. exists t. auto.
Qed.

Lemma subscription_does cfg floor node_of :
  turn_does cfg sub_slot (wanted cfg floor node_of)
    (fun t => match wanted cfg floor node_of t with Some _ => [] | None => message_doc t end)
    (subscription_turn cfg floor node_of).
Proof.
  intros t r o. unfold subscription_turn, wanted, message_doc. destruct (announced t) as [[[s block] m]|] eqn:Ea.
  - unfold announced in Ea. pose proof Ea as Ea'. destruct (poll t) as [m'|] eqn:Ep; [|done].
    destruct (idx_pipeline_read_block_notification (m_result m')) as [[b|] [n|]] eqn:Er; try done. injection Ea as -> -> ->.
    cbn [mbind option_bind].
    assert (sub_slot t = Some s) as Hsub by (unfold sub_slot, announced; by rewrite Ep, Er).
    destruct (below_floor floor s) eqn:Eb.
    { rewrite decide_False by (apply guards_out_of_range; by left). do 2 eexists. split; [cbn; by rewrite app_nil_r|done]. }
    destruct (above_end cfg s) eqn:Ee.
    { rewrite decide_False by (apply guards_out_of_range; by right). do 2 eexists. split; [cbn; by rewrite app_nil_r|].
      right. exists t, s. by apply above_end_le in Ee. }
    rewrite decide_True by (by apply guards_in_range). set (e := RingEntry _ _ _ _ _ _).
    match goal with |- context [hand_over cfg e _ ?x o] => destruct (hand_over_does cfg sub_slot e t x o Hsub) as (n & -> & Hn) end.
    do 2 eexists. split; [cbn; by rewrite app_nil_r|exact Hn].
  - cbn [mbind option_bind]. unfold announced in Ea. destruct (poll t) as [m|e] eqn:Ep.
    + destruct (idx_pipeline_read_block_notification (m_result m)) as [[b|e] [n|]]; try done; try destruct e;
        do 2 eexists; (split; [cbn; by rewrite app_nil_r|done]).
    + assert (forall o : outbox, o = Outbox (sent o ++ []) (freed o ++ [])) as Eo by (intros []; cbn; by rewrite !app_nil_r).
      destruct e; do 2 eexists; (split; [by rewrite (Eo o) at 1|]); try done; exists t; auto.
Qed.

Lemma fallback_does cfg floor node_of :
  turn_does cfg slot_slot (wanted_slot cfg floor node_of) message_doc (fallback_turn cfg floor node_of).
Proof.
  intros t r o. unfold fallback_turn, wanted_slot, message_doc. destruct (poll t) as [m|e] eqn:Ep.
  - destruct (idx_pipeline_read_slot_notification (m_result m)) as [s|e] eqn:Er.
    2: { do 2 eexists. split; [cbn; by rewrite app_nil_r|done]. }
    assert (slot_slot t = Some s) as Hs by (unfold slot_slot; by rewrite Ep, Er).
    destruct (below_floor floor s) eqn:Eb.
    { pose proof (guards_out_of_range cfg floor s (or_introl Eb)) as Ho.
      destruct (fetched t) as [[d v]|]; rewrite ?decide_False by done; do 2 eexists; (split; [cbn; by rewrite app_nil_r|done]). }
    destruct (above_end cfg s) eqn:Ee.
    { pose proof (guards_out_of_range cfg floor s (or_intror Ee)) as Ho. apply above_end_le in Ee.
      destruct (fetched t) as [[d v]|]; rewrite ?decide_False by done; do 2 eexists;
        (split; [cbn; by rewrite app_nil_r|right; by exists t, s]). }
    destruct (fetched t) as [[d v]|e].
    + rewrite decide_True by (by apply guards_in_range). set (e := RingEntry _ _ _ _ _ _).
      match goal with |- context [hand_over cfg e _ ?x ?y] => destruct (hand_over_does cfg slot_slot e t x y Hs) as (n & -> & Hn) end.
      by do 2 eexists.
    + destruct e; do 2 eexists; (split; [cbn; by rewrite app_nil_r|done]).
  - assert (forall o : outbox, o = Outbox (sent o ++ []) (freed o ++ [])) as Eo by (intros []; cbn; by rewrite !app_nil_r).
    destruct e; do 2 eexists; (split; [by rewrite (Eo o) at 1|]); try done; exists t; auto.
Qed.

Lemma wanted_in_range cfg floor node_of t e : wanted cfg floor node_of t = Some e -> in_range cfg floor (slot e).
Proof.
  unfold wanted. destruct (announced t) as [[[s b] m]|]; [|done]. cbn [mbind option_bind].
  destruct (decide (in_range cfg floor s)); [|done]. by intros [= <-].
Qed.

Lemma wanted_slot_in_range cfg floor node_of t e : wanted_slot cfg floor node_of t = Some e -> in_range cfg floor (slot e).
Proof.
  unfold wanted_slot. destruct (poll t); [|done]. destruct (idx_pipeline_read_slot_notification _), (fetched t) as [[]|]; try done.
  destruct (decide _); [|done]. by intros [= <-].
Qed.

Lemma omap_forall {A B} (f : A -> option B) (P : B -> Prop) l :
  (forall a b, f a = Some b -> P b) -> Forall P (omap f l).
Proof. intros Hf. apply Forall_forall. intros b (a & _ & Ha)%list_elem_of_omap. by eapply Hf. Qed.

Lemma wanted_docs cfg floor node_of used :
  docs (omap (wanted cfg floor node_of) used) ++
    (used ≫= fun t => match wanted cfg floor node_of t with Some _ => [] | None => message_doc t end)
  ≡ₚ used ≫= message_doc.
Proof.
  induction used as [|t used IH]; [done|]. cbn [omap list_omap mbind list_bind]. unfold mbind in IH.
  destruct (wanted cfg floor node_of t) as [e|] eqn:Ew.
  - rewrite docs_cons. assert (option_list (doc e) = message_doc t) as ->; [|by rewrite <- app_assoc; f_equiv].
    unfold wanted, announced, message_doc in *. destruct (poll t) as [m|]; [|done].
    destruct (idx_pipeline_read_block_notification (m_result m)) as [[b|] [n|]]; try done. cbn [mbind option_bind] in Ew.
    destruct (decide _); [|done]. by injection Ew as <-.
  - rewrite (Permutation_app_swap_app _ (message_doc t)). by f_equiv.
Qed.

(** ** Connections *)

Definition net_delta (n : net) : Z * Z :=
  match n with
  | PubsubOpened => (1, 0) | PubsubClosed => (-1, 0) | RpcOpened => (0, 1) | RpcClosed => (0, -1) | Unsubscribed => (0, 0)
  end.

(** The connections open after some events. *)
Fixpoint open_now (l : list net) : Z * Z :=
  match l with [] => (0, 0) | n :: l => ((net_delta n).1 + (open_now l).1, (net_delta n).2 + (open_now l).2) end.

Lemma open_now_app a b : open_now (a ++ b) = ((open_now a).1 + (open_now b).1, (open_now a).2 + (open_now b).2).
Proof.
  induction a as [|n a IH]; [cbn [app open_now fst snd]; rewrite !Z.add_0_l; apply surjective_pairing|]. cbn [app open_now]. rewrite IH. cbn [fst snd]. by rewrite !Z.add_assoc.
Qed.

Lemma close_subscription_closes status stopping : open_now (close_subscription status stopping) = (-1, 0).
Proof. by destruct status, stopping. Qed.

Lemma run_subscription_closes cfg floor node_of f r o status r' o' n :
  run_subscription cfg floor node_of f r o = Some (status, r', o', n) -> open_now n = (0, 0).
Proof.
  unfold run_subscription, open_subscription. destruct (f_open f) as [[]|]; [destruct (f_subscribe f) as [[]|]|];
    [|by intros [= _ _ _ <-]..].
  destruct (receive _ _ _ _) as [[[s r1] o1]|]; [|done]. cbn [mbind option_bind]. intros [= _ _ _ <-].
  cbn [open_now app]. by rewrite close_subscription_closes.
Qed.

Lemma run_fallback_closes cfg floor node_of f r o status r' o' n :
  run_fallback cfg floor node_of f r o = Some (status, r', o', n) -> open_now n = (0, 0).
Proof.
  unfold run_fallback. destruct (streq _ _); [by intros [= _ _ _ <-]|]. destruct (f_rpc f); [|by intros [= _ _ _ <-]].
  unfold open_subscription. destruct (f_open f) as [[]|]; [destruct (f_subscribe f) as [[]|]|]; [|by intros [= _ _ _ <-]..].
  destruct (receive _ _ _ _) as [[[s r1] o1]|]; [|done]. cbn [mbind option_bind]. intros [= _ _ _ <-].
  cbn [open_now app]. by rewrite open_now_app, close_subscription_closes.
Qed.

(** ** The threads a run starts *)



(** The world the threads start in, once the pipeline is open and the backfill
    queued. *)
Definition started (cfg : idx_config) (p : idx_pipeline) (tip : Z) (clock : double) (fetchers : idx_fetcher_pool)
    (sched : list (list event)) (d : disk) : world :=
  let floor := idx_slot_cursor_resume_slot (Some (cursor (opened_processor p))) in
  World (set_saved clock (opened_processor p))
    (Shared (queue_backfill cfg (options p) floor (Ok tt) (Ok tip) (pipeline_gaps p) []).1 [] fetchers [] [] [] false) sched d [] IDX_SLOT_NONE [].


(** ** Properties *)

(** C20. From the socket to the ring, nothing is lost and nothing is made up.  A run
    of either receive loop takes a prefix of what the connection brings, publishes
    exactly the entries of the blocks it is to index, between the floor and the end
    slot, in the order they came, and leaves only because a stop was asked for, a
    slot at or past the end came, or the poll or the ring failed with the status it
    returns; and over the subscription every document that arrived is freed or
    handed over, once. *)
Theorem receive_exact cfg floor node_of turns r status r' o' :
  (receive (subscription_turn cfg floor node_of) turns r (Outbox [] []) = Some (status, r', o') ->
   exists used rest, turns = used ++ rest /\ sent o' = omap (wanted cfg floor node_of) used /\
     Forall (fun e => in_range cfg floor (slot e)) (sent o') /\ docs (sent o') ++ freed o' ≡ₚ used ≫= message_doc /\
     left_because cfg sub_slot status used rest) /\
  (receive (fallback_turn cfg floor node_of) turns r (Outbox [] []) = Some (status, r', o') ->
   exists used rest, turns = used ++ rest /\ sent o' = omap (wanted_slot cfg floor node_of) used /\
     Forall (fun e => in_range cfg floor (slot e)) (sent o') /\ freed o' = used ≫= message_doc /\
     left_because cfg slot_slot status used rest).
Proof.
  split; intros Hr.
  - apply (receive_does _ _ _ _ _ _ _ _ _ _ _ (subscription_does cfg floor node_of)) in Hr as (used & rest & -> & Hs & Hf & Hl).
    exists used, rest. cbn [sent freed app] in *. rewrite Hs, Hf. split_and!; try done; [|apply wanted_docs].
    apply omap_forall. intros t e. apply wanted_in_range.
  - apply (receive_does _ _ _ _ _ _ _ _ _ _ _ (fallback_does cfg floor node_of)) in Hr as (used & rest & -> & Hs & Hf & Hl).
    exists used, rest. cbn [sent freed app] in *. rewrite Hs. split_and!; try done.
    apply omap_forall. intros t e. apply wanted_slot_in_range.
Qed.

(** What a block notification is read as.  It gives a block exactly when it is an
    object whose slot is in its context or else in its value, whose value is an object
    without an error and with a block; otherwise it is malformed, or carries no block,
    and then its slot is still told. *)
Theorem block_notification_exact v :
  let value := idx_json_get v (lit "value") in
  let number := match idx_json_opt_u64 (idx_json_get v (lit "context")) (lit "slot") with
                | Some n => Some n | None => idx_json_opt_u64 value (lit "slot") end in
  (forall b s, idx_pipeline_read_block_notification v = (Ok b, s) <->
     idx_json_is_object v = true /\ is_Some number /\ s = number /\ idx_json_is_object value = true /\
     (idx_json_get value (lit "err") = None \/ idx_json_get value (lit "err") = Some JNull) /\
     b = idx_json_get value (lit "block") /\ idx_json_is_object b = true) /\
  (forall e s, idx_pipeline_read_block_notification v = (Err e, s) ->
     e = IDX_ERR_NOT_FOUND /\ is_Some s /\ s = number /\ idx_json_is_object value = true \/ e = IDX_ERR_PARSE).
Proof.
  cbn zeta. unfold idx_pipeline_read_block_notification.
  destruct (idx_json_is_object v); cbn [negb]; [|by split; [intros b s; split; [|intros (? & _)]|intros e s [= <- _]; right]].
  set (value := idx_json_get v (lit "value")). destruct (notified_exact value) as [H1 H2].
  set (c := idx_json_opt_u64 _ (lit "slot")). set (d := idx_json_opt_u64 value (lit "slot")).
  assert (forall n, (forall b s, notified value n = (Ok b, s) <-> true = true /\ is_Some (Some n) /\ s = Some n /\
      idx_json_is_object value = true /\
      (idx_json_get value (lit "err") = None \/ idx_json_get value (lit "err") = Some JNull) /\
      b = idx_json_get value (lit "block") /\ idx_json_is_object b = true) /\
    (forall e s, notified value n = (Err e, s) ->
      e = IDX_ERR_NOT_FOUND /\ is_Some s /\ s = Some n /\ idx_json_is_object value = true \/ e = IDX_ERR_PARSE)) as Hn.
  { intros n. split; [intros b s; rewrite H1; split; [intros ?; split_and!; (done || tauto || eauto)|tauto]|].
    intros e s Hr. destruct (H2 n e s Hr) as [(-> & -> & ?)|?]; [left; split_and!; (done || eauto)|by right]. }
  destruct c as [n|]; [exact (Hn n)|]. destruct d as [n|]; [exact (Hn n)|].
  split; [intros b s; split; [done|intros (_ & [? ?] & _); done]|intros e s [= <- _]; by right].
Qed.

(** Whatever a run meets, every connection it opened is closed once when it
    returns, and its threads are stopped in the order that cannot wedge. *)
Theorem pipeline_run_closes {G} `{GapOps G} cfg opt node_of cur env (g : G) h r out :
  idx_pipeline_run cfg opt node_of cur env g h r = Some out ->
  open_now (ran_net out) = (0, 0) /\
  (ran_shutdown out = [CloseLive; StopFetchers; CloseRecovered; JoinProcessor] \/
   e_thread env = false /\ ran_status out = Err IDX_ERR_INTERNAL /\ ran_net out = []) /\
  (e_thread env = true -> forall e, e_processor env = Err e -> ran_status out = Err e).
Proof.
  unfold idx_pipeline_run. destruct (if _ =? 0 then _ else _) as [g1 h1].
  destruct (e_thread env); cbn [negb]; [|intros [= <-]; split_and!; [done|by right|done]].
  destruct (start_fetchers cfg opt (e_pool env) h1) as [f h2].
  destruct (run_subscription _ _ _ _ _ _) as [[[[s r1] o1] n1]|] eqn:E1; [|done]. cbn [mbind option_bind].
  apply run_subscription_closes in E1. set (rejected := bool_decide _ && _ && _).
  destruct (if rejected then _ else _) as [[[[s2 r2] o2] n2]|] eqn:E2; [|done]. cbn [mbind option_bind].
  assert (open_now n2 = (0, 0)) as Hn.
  { destruct rejected; [|by injection E2 as _ _ _ <-].
    destruct (run_fallback _ _ _ _ _ _) as [[[[s3 r3] o3] n3]|] eqn:E3; [|done]. cbn [mbind option_bind] in E2.
    injection E2 as _ _ _ <-. by rewrite open_now_app, E1, (run_fallback_closes _ _ _ _ _ _ _ _ _ _ E3). }
  destruct (if bool_decide _ && _ then _ else _) as [[]|]; [|done]. cbn [mbind option_bind]. intros [= <-].
  cbn [ran_net ran_shutdown ran_status]. split_and!; [done|by left|]. by intros _ e ->.
Qed.


(** ** The slots at the tip *)

Definition with_rpc : idx_config := set_rpc_url (lit "http://rpc") (set_wss_url (lit "ws://rpc") idx_config_defaults).

Definition sample_cursor_at (slot : Z) : idx_slot_cursor := SlotCursor slot IDX_SLOT_NONE 0 (lit "c").

Definition opened_at (slot : Z) : result idx_pipeline * heap :=
  idx_pipeline_open idx_pipeline_options_init (Some with_rpc) (Some (sample_cursor_at slot)) true [].

Definition sample_fetchers : idx_fetcher_pool := Fetcher.Pool 4 250 false 64 (FetcherStats 0 0 0 0 0 0 4).

(** The cursor at 99, the tip at 110: a worker finds no block from 100 to 109, and
    the first slot of the socket is 113. *)
Definition tip_world : world :=
  match (opened_at 99).1 with
  | Ok p => started with_rpc p 110 (double_of_u64 0) sample_fetchers
              [[Reads; Claims 0 (Answers (Ok []) (fun _ => false) (fun s => Ok (Some s, s)) (fun _ => Ok tt)); Acts 0; Acts 0; Acts 0]] ∅
  | Err _ => sample_world
  end.

Definition tip_passes : list pass := [sample_pass 0 113; last_pass; last_pass].

Definition tip_end : world :=
  match run_processor no_value 1000 tip_passes (double_of_u64 0) all_ok tip_world with
  | Some (_, _, w, _) => w
  | None => tip_world
  end.

(** The slots between the tip and the first notification are skipped.  The
    backfill stops one short of the tip that [getSlot] answered, the socket begins
    where it begins, and the processing thread has no earlier slot to measure the
    distance from: with the tip at 110 and a first notification for 113, the position
    moves to 113 and is persisted, and slots 110 to 112 were never queued, claimed,
    seen or accepted. *)
Theorem pipeline_tip_hole :
  last_indexed (cursor (proc tip_end)) = 113 /\
  content <$> files tip_end !! lit "c" = Some (saved_text (sample_cursor_at 113)) /\
  g_is_empty (gaps (share tip_end)) = true /\ accepted tip_end = [113] /\
  map w_range (running (share tip_end)) = [(100, 109)].
Proof. vm_compute. split_and!; reflexivity. Qed.

(** ** Witnesses *)

Definition notification (s : Z) : json :=
  JObj [(lit "context", JObj [(lit "slot", JUint s)]); (lit "value", JObj [(lit "err", JNull); (lit "block", JObj [])])].

Definition sample_turn (s : Z) : turn :=
  Turn (false, false) (Ok (Message (Some s) (Some (notification s)) 10)) 0 (Err IDX_ERR_NOT_FOUND) (Ok tt).

Definition bounded_config : idx_config := set_end_slot 12 with_rpc.

(** Slot 9 is below the floor, 11 is in range, 12 is the end. *)
Definition sample_turns : list turn := [sample_turn 9; sample_turn 11; sample_turn 12; sample_turn 13].

Definition idle_receiver : receiver := Receiver 0 0 0 false.

Lemma receive_exact_witness :
  exists r' o', receive (subscription_turn bounded_config 10 (fun _ => 0)) sample_turns idle_receiver (Outbox [] []) = Some (Ok tt, r', o') /\
    map slot (sent o') = [11; 12] /\ freed o' = [9] /\
    Forall (fun e => in_range bounded_config 10 (slot e)) (sent o').
Proof.
  destruct (receive (subscription_turn bounded_config 10 (fun _ => 0)) sample_turns idle_receiver (Outbox [] []))
    as [[[st r'] o']|] eqn:E; [|discriminate].
  pose proof (receive_exact bounded_config 10 (fun _ => 0) sample_turns idle_receiver st r' o') as [H _].
  destruct (H E) as (used & rest & _ & _ & Hf & _). clear H.
  pose proof E as E'. vm_compute in E'. injection E' as <- <- <-. do 2 eexists. split; [reflexivity|].
  split; [reflexivity|]. split; [reflexivity|exact Hf].
Defined.

Definition sample_following (turns : list turn) (subscribing : result unit) : following :=
  Following (Ok tt) (Ok tt) subscribing turns false.

(** The subscription is rejected, the fallback followed until a stop. *)
Definition sample_env : run_env :=
  RunEnv (Ok tt) (Ok 110) true (StartEnv (fun _ => Ok tt) (fun _ => true))
    (sample_following [] (Err IDX_ERR_REMOTE)) (false, false)
    (sample_following [Turn (true, false) (Err IDX_ERR_TIMEOUT) 0 (Err IDX_ERR_IO) (Ok tt)] (Ok tt))
    (true, false) false [] (Ok tt).

Lemma pipeline_run_closes_witness :
  exists out, idx_pipeline_run with_rpc idx_pipeline_options_init (fun _ => 0) (sample_cursor_at 99) sample_env
      (g_empty : idx_gaps) [] idle_receiver = Some out /\
    ran_status out = Ok tt /\ used_fallback (ran_receiver out) = true /\ open_now (ran_net out) = (0, 0).
Proof.
  destruct (idx_pipeline_run with_rpc idx_pipeline_options_init (fun _ => 0) (sample_cursor_at 99) sample_env
      (g_empty : idx_gaps) [] idle_receiver) as [out|] eqn:E; [|discriminate].
  exists out. split; [reflexivity|].
  pose proof (pipeline_run_closes with_rpc idx_pipeline_options_init (fun _ => 0) (sample_cursor_at 99) sample_env
      (g_empty : idx_gaps) [] idle_receiver out E) as [H _].
  assert (ran_status out = Ok tt /\ used_fallback (ran_receiver out) = true) as [H1 H2].
  { assert (ran_status <$> Some out = Some (Ok tt) /\ used_fallback ∘ ran_receiver <$> Some out = Some true) as [A B]
      by (rewrite <- E; vm_compute; split; reflexivity).
    injection A as A. injection B as B. by split. }
  split; [exact H1|]. split; [exact H2|exact H].
Defined.


