(* ===== verification/Consumer.v ===== *)
(** * main.c: the consumer

    [count_block], the handler main.c gives the pipeline: it decodes a block, drops the
    votes, extracts balances, transfers and swaps, and folds them into a tally of
    counters and the three registries.  A handler is a computation over the tally,
    the arena of the block and the heap; a failure keeps what was already folded, as
    the source does.  Null guards are excluded by the types; the log lines are not
    modelled, so neither are the totals only they print. *)

From S2P Require Import Prelude Bytes Types Json Map PtrMap Arena Block Walk VoteFilter Balance VenueTypes Venue.
From S2P Require Import Transfer Swap Price Token Pool Bar Processor.
#[local] Open Scope Z_scope.

(** The counters of [idx_tally], by name. *)
Inductive counter :=
  | CTransactions | CVotes | CSolBalances | CTokenBalances | CSolTransfers | CTokenTransfers
  | CSwaps (venue : idx_venue) | CRoutes | CResolved | CPriced | CPricedBy (quote : idx_quote)
  | CPoolCreations | CTokenMetadata | CBarSwaps.

#[export] Instance counter_eq_dec : EqDecision counter.
Proof. solve_decision. Defined.

(** src/src/main.c:49-76 [idx_tally]: its counters. *)
Record counters := Counters {
  c_transactions : Z; c_votes : Z; c_sol_balances : Z; c_token_balances : Z; c_sol_transfers : Z;
  c_token_transfers : Z; c_swaps : list Z; c_routes : Z; c_resolved : Z; c_priced : Z; c_priced_by_quote : list Z;
  c_pool_creations : Z; c_token_metadata : Z; c_bar_swaps : Z
}.

(** src/src/main.c:49-76 [idx_tally] *)
Record idx_tally (M : Type) := Tally {
  counts : counters;
  quotes : idx_quote_set;
  tally_pools : idx_pool_registry M;
  tally_tokens : idx_token_registry M;
  tally_bars : idx_bar_registry M
}.
Arguments Tally {M}.
Arguments counts {M}.
Arguments quotes {M}.
Arguments tally_pools {M}.
Arguments tally_tokens {M}.
Arguments tally_bars {M}.

Definition venue_number (v : idx_venue) : nat :=
  match v with
  | IDX_VENUE_NONE => 0 | IDX_VENUE_PUMP_CURVE => 1 | IDX_VENUE_PUMP_AMM => 2 | IDX_VENUE_RAYDIUM_AMM_V4 => 3
  | IDX_VENUE_RAYDIUM_CLMM => 4 | IDX_VENUE_RAYDIUM_CPMM => 5 | IDX_VENUE_JUPITER => 6
  end.
Definition quote_number (q : idx_quote) : nat :=
  match q with
  | IDX_QUOTE_NONE => 0 | IDX_QUOTE_SOL => 1 | IDX_QUOTE_USDC => 2 | IDX_QUOTE_USDT => 3 | IDX_QUOTE_USD1 => 4
  | IDX_QUOTE_OTHER => 5
  end.

Definition plus (n x : Z) : Z := u64 (x + n).

(** [tally->c += n] *)
Definition bump (c : counter) (n : Z) (k : counters) : counters :=
  let '(Counters tx vo sb tb st tk sw ro re pr pq pc tm bs) := k in
  match c with
  | CTransactions => Counters (plus n tx) vo sb tb st tk sw ro re pr pq pc tm bs
  | CVotes => Counters tx (plus n vo) sb tb st tk sw ro re pr pq pc tm bs
  | CSolBalances => Counters tx vo (plus n sb) tb st tk sw ro re pr pq pc tm bs
  | CTokenBalances => Counters tx vo sb (plus n tb) st tk sw ro re pr pq pc tm bs
  | CSolTransfers => Counters tx vo sb tb (plus n st) tk sw ro re pr pq pc tm bs
  | CTokenTransfers => Counters tx vo sb tb st (plus n tk) sw ro re pr pq pc tm bs
  | CSwaps v => Counters tx vo sb tb st tk (alter (plus n) (venue_number v) sw) ro re pr pq pc tm bs
  | CRoutes => Counters tx vo sb tb st tk sw (plus n ro) re pr pq pc tm bs
  | CResolved => Counters tx vo sb tb st tk sw ro (plus n re) pr pq pc tm bs
  | CPriced => Counters tx vo sb tb st tk sw ro re (plus n pr) pq pc tm bs
  | CPricedBy q => Counters tx vo sb tb st tk sw ro re pr (alter (plus n) (quote_number q) pq) pc tm bs
  | CPoolCreations => Counters tx vo sb tb st tk sw ro re pr pq (plus n pc) tm bs
  | CTokenMetadata => Counters tx vo sb tb st tk sw ro re pr pq pc (plus n tm) bs
  | CBarSwaps => Counters tx vo sb tb st tk sw ro re pr pq pc tm (plus n bs)
  end.

(** [tally->c] *)
Definition counted (c : counter) (k : counters) : Z :=
  match c with
  | CTransactions => c_transactions k
  | CVotes => c_votes k
  | CSolBalances => c_sol_balances k
  | CTokenBalances => c_token_balances k
  | CSolTransfers => c_sol_transfers k
  | CTokenTransfers => c_token_transfers k
  | CSwaps v => c_swaps k !!! venue_number v
  | CRoutes => c_routes k
  | CResolved => c_resolved k
  | CPriced => c_priced k
  | CPricedBy q => c_priced_by_quote k !!! quote_number q
  | CPoolCreations => c_pool_creations k
  | CTokenMetadata => c_token_metadata k
  | CBarSwaps => c_bar_swaps k
  end.

Definition no_counts : counters := Counters 0 0 0 0 0 0 (replicate 7 0) 0 0 0 (replicate 6 0) 0 0 0.

(** The sums of [count_block] that reach the tally. *)
Record block_sums := BlockSums {
  votes : Z; sol_balances : Z; token_balances : Z; sol_transfers : Z; token_transfers : Z
}.

Definition no_sums : block_sums := BlockSums 0 0 0 0 0.

(** ** The handler *)

Section consumer.
Context {A M : Type} `{ArenaOps A} `{PtrMapOps M}.

(** src/src/main.c:480-484 [main]: the tally of a run. *)
Definition new_tally (set : idx_quote_set) : idx_tally M :=
  Tally no_counts set idx_pool_registry_init idx_token_registry_init idx_bar_registry_init.

(** The tally, the arena of the block and the heap. *)
Abbreviation state := (idx_tally M * (A * heap))%type.

Definition consumer (X : Type) : Type := state -> result X * state.

#[local] Instance consumer_ret : MRet consumer := fun X x st => (Ok x, st).
#[local] Instance consumer_bind : MBind consumer := fun X Y f m st =>
  match m st with
  | (Ok x, st') => f x st'
  | (Err s, st') => (Err s, st')
  end.

Definition tallied (c : counter) (n : Z) : consumer unit := fun '(t, s) =>
  (Ok tt, (Tally (bump c n (counts t)) (quotes t) (tally_pools t) (tally_tokens t) (tally_bars t), s)).

Definition the_quotes : consumer idx_quote_set := fun st => (Ok (quotes st.1), st).

(** A computation of the block's arena, and one of the arena and the heap. *)
Definition on_arena {X} (f : A -> result X * A) : consumer X := fun '(t, (a, h)) =>
  let '(r, a') := f a in (r, (t, (a', h))).
Definition decoding {X} (m : decoder (A := A) X) : consumer X := fun '(t, s) =>
  let '(r, s') := m s in (r, (t, s')).

(** Calls of the registries. *)
Definition on_pools (o : Pool.observation) : consumer unit := fun '(t, (a, h)) =>
  let '(r, reg, h') := Pool.observe o (tally_pools t) h in
  (r, (Tally (counts t) (quotes t) reg (tally_tokens t) (tally_bars t), (a, h'))).
Definition on_tokens (o : Token.observation) : consumer unit := fun '(t, (a, h)) =>
  let '(r, reg, h') := Token.observe o (tally_tokens t) h in
  (r, (Tally (counts t) (quotes t) (tally_pools t) reg (tally_bars t), (a, h'))).
Definition on_bars (i : idx_bar_input) : consumer unit := fun '(t, (a, h)) =>
  let '(r, reg, h') := idx_bar_registry_observe (tally_bars t) i h in
  (r, (Tally (counts t) (quotes t) (tally_pools t) (tally_tokens t) reg, (a, h'))).

(** A loop over an array, stopped by the first failure. *)
Fixpoint each {X} (f : X -> consumer unit) (l : list X) : consumer unit :=
  match l with
  | [] => mret tt
  | x :: l' => _ ← f x; each f l'
  end.

(** The row came out with a number. *)
Definition has_number (p : idx_price) : bool := priced p && bool_decide (is_Some (price p)).

(** src/src/main.c:111-122 [normalize_swaps]: the pool and the time a bar takes. *)
Definition bar_of_row (set : idx_quote_set) (block_slot : Z) (time : option Z) (tx_index : Z) (row : idx_swap_row)
    : option idx_bar_input :=
  let p := idx_price_of_swap (Some set) (Some row) in
  if has_number p && bool_decide (sr_kind row = IDX_SWAP_POOL) then
    match sr_pool row, time with
    | Some pool, Some t =>
        Some (BarInput pool p t (BarSeq block_slot tx_index (instruction_index (sr_at row))
                                   (inner_pos (sr_at row)) (inner (sr_at row))))
    | _, _ => None
    end
  else None.

(** Both mints and both amounts. *)
Definition is_resolved (row : idx_swap_row) : bool :=
  bool_decide (is_Some (sr_input_mint row)) && bool_decide (is_Some (sr_output_mint row)) &&
  bool_decide (is_Some (sr_input_amount row)) && bool_decide (is_Some (sr_output_amount row)).

(** src/src/main.c:94-134 [normalize_swaps]: the loop's body. *)
Definition normalize_row (block_slot : Z) (time : option Z) (tx_index : Z) (row : idx_swap_row) : consumer unit :=
  set ← the_quotes;
  let p := idx_price_of_swap (Some set) (Some row) in
  _ ← (if has_number p then (_ ← tallied CPriced 1; tallied (CPricedBy (pr_quote p)) 1) else mret tt);
  _ ← on_pools (SawSwap row block_slot);
  _ ← (match bar_of_row set block_slot time tx_index row with
       | Some i => (_ ← on_bars i; tallied CBarSwaps 1)
       | None => mret tt
       end);
  if bool_decide (sr_kind row = IDX_SWAP_AGGREGATED) then tallied CRoutes 1
  else
    _ ← tallied (CSwaps (sr_venue row)) 1;
    if is_resolved row then tallied CResolved 1 else mret tt.

(** src/src/main.c:86-137 [normalize_swaps] *)
Definition normalize_swaps (tx : idx_transaction) (block_slot : Z) (time : option Z) (tx_index : Z) : consumer unit :=
  rows ← on_arena (idx_swap_normalize tx);
  each (normalize_row block_slot time tx_index) rows.

(** src/src/main.c:144-161 [observe_dimensions_ix] *)
Definition observe_dimensions_ix (tx : idx_transaction) (block_slot : Z) (ix : idx_instruction) : consumer unit :=
  _ ← (match idx_venue_creation_decode tx ix with
       | Ok creation => (_ ← tallied CPoolCreations 1; on_pools (SawCreation creation block_slot))
       | Err _ => mret tt
       end);
  match idx_venue_metadata_decode tx ix with
  | Ok meta => (_ ← tallied CTokenMetadata 1; on_tokens (SawMetadata meta block_slot))
  | Err _ => mret tt
  end.

(** src/src/main.c:171-191 [observe_dimensions] *)
Definition observe_dimensions (tx : idx_transaction) (block_slot : Z) : consumer unit :=
  if negb (has_meta tx) || negb (success tx) then mret tt
  else
    _ ← each (observe_dimensions_ix tx block_slot) (instructions tx);
    each (fun group => each (observe_dimensions_ix tx block_slot) (inner_instructions_of group)) (inner_instructions tx).

(** src/src/main.c:386-392 [count_block]: the transfers by kind. *)
Definition count_moves (moves : list idx_transfer) (s : block_sums) : block_sums :=
  foldl (fun s m =>
    if bool_decide (tr_kind m = IDX_TRANSFER_SOL)
    then BlockSums (votes s) (sol_balances s) (token_balances s) (plus 1 (sol_transfers s)) (token_transfers s)
    else BlockSums (votes s) (sol_balances s) (token_balances s) (sol_transfers s) (plus 1 (token_transfers s))) s moves.

(** src/src/main.c:327-410 [count_block]: one transaction. *)
Definition count_transaction (block_slot : Z) (time : option Z) (i : nat) (tx : idx_transaction) (s : block_sums)
    : consumer block_sums :=
  if idx_vote_filter_should_drop (Some tx)
  then mret (BlockSums (plus 1 (votes s)) (sol_balances s) (token_balances s) (sol_transfers s) (token_transfers s))
  else
    balances ← on_arena (idx_sol_balance_extract tx);
    states ← on_arena (idx_token_balance_extract tx);
    _ ← each (fun st => on_tokens (SawBalance (ts_mint st) (ts_decimals st) block_slot)) states;
    moves ← on_arena (idx_transfer_extract tx);
    _ ← normalize_swaps tx block_slot time (u16 (Z.of_nat i));
    _ ← observe_dimensions tx block_slot;
    mret (count_moves moves
            (BlockSums (votes s) (plus (size balances) (sol_balances s)) (plus (size states) (token_balances s))
               (sol_transfers s) (token_transfers s))).

(** src/src/main.c:326-421 [count_block]: the loop. *)
Fixpoint count_transactions (block_slot : Z) (time : option Z) (i : nat) (txs : list idx_transaction) (s : block_sums)
    : consumer block_sums :=
  match txs with
  | [] => mret s
  | tx :: txs' =>
      s' ← count_transaction block_slot time i tx s;
      count_transactions block_slot time (S i) txs' s'
  end.

(** src/src/main.c:302-443 [count_block] *)
Definition count_block (block : idx_raw_block) : consumer unit :=
  decoded ← decoding (idx_block_decode (block_value block) (block_slot block));
  s ← count_transactions (block_slot block) (block_time decoded) 0 (transactions decoded) no_sums;
  _ ← tallied CTransactions (u64 (size (transactions decoded) - votes s));
  _ ← tallied CVotes (votes s);
  _ ← tallied CSolBalances (sol_balances s);
  _ ← tallied CTokenBalances (token_balances s);
  _ ← tallied CSolTransfers (sol_transfers s);
  tallied CTokenTransfers (token_transfers s).

(** A run: each block with its arena. *)
Fixpoint count_blocks (blocks : list (idx_raw_block * A)) (t : idx_tally M) (h : heap)
    : list (result unit) * idx_tally M :=
  match blocks with
  | [] => ([], t)
  | (block, a) :: blocks' =>
      let '(r, (t1, (_, h1))) := count_block block (t, (a, h)) in
      let '(rs, t2) := count_blocks blocks' t1 h1 in (r :: rs, t2)
  end.
End consumer.

(** ** What a run recorded *)

(** One entry of the history: an observation of a registry, one fold of a bar, or
    [n] more of a counter. *)
Inductive fact :=
  | PoolFact (o : Pool.observation)
  | TokenFact (o : Token.observation)
  | BarFact (f : fold)
  | Counted (c : counter) (n : Z).

Definition pool_history (hist : list fact) : list Pool.observation :=
  omap (fun f => match f with PoolFact o => Some o | _ => None end) hist.
Definition token_history (hist : list fact) : list Token.observation :=
  omap (fun f => match f with TokenFact o => Some o | _ => None end) hist.
Definition bar_history (hist : list fact) : list fold :=
  omap (fun f => match f with BarFact b => Some b | _ => None end) hist.

Definition sum_of {X} (f : X -> Z) (l : list X) : Z := foldr (fun x n => f x + n) 0 l.

Definition amount_of (c : counter) (f : fact) : Z :=
  match f with Counted c' n => if bool_decide (c = c') then n else 0 | _ => 0 end.
Definition total (c : counter) (hist : list fact) : Z := sum_of (amount_of c) hist.

Lemma sum_of_app {X} (f : X -> Z) l1 l2 : sum_of f (l1 ++ l2) = sum_of f l1 + sum_of f l2.
Proof. unfold sum_of. induction l1 as [|x l1 IH]; cbn [foldr app]; lia. Qed.

(** What the steps of one swap row record. *)
Definition row_facts (set : idx_quote_set) (block_slot : Z) (time : option Z) (tx_index : Z) (row : idx_swap_row)
    : list fact :=
  let p := idx_price_of_swap (Some set) (Some row) in
  (if has_number p then [Counted CPriced 1; Counted (CPricedBy (pr_quote p)) 1] else []) ++
  [PoolFact (SawSwap row block_slot)] ++
  match bar_of_row set block_slot time tx_index row with
  | Some i => map BarFact (folds i) ++ [Counted CBarSwaps 1]
  | None => []
  end ++
  (if bool_decide (sr_kind row = IDX_SWAP_AGGREGATED) then [Counted CRoutes 1]
   else [Counted (CSwaps (sr_venue row)) 1] ++ (if is_resolved row then [Counted CResolved 1] else [])).

(** What an instruction names. *)
Definition ix_facts (tx : idx_transaction) (block_slot : Z) (ix : idx_instruction) : list fact :=
  match idx_venue_creation_decode tx ix with
  | Ok c => [Counted CPoolCreations 1; PoolFact (SawCreation c block_slot)]
  | Err _ => []
  end ++
  match idx_venue_metadata_decode tx ix with
  | Ok m => [Counted CTokenMetadata 1; TokenFact (SawMetadata m block_slot)]
  | Err _ => []
  end.

(** The instructions of a transaction in the order they are searched. *)
Definition searched (tx : idx_transaction) : list idx_instruction :=
  if has_meta tx && success tx
  then instructions tx ++ concat (map inner_instructions_of (inner_instructions tx)) else [].

(** What the extractions of a transaction gave. *)
Record extraction := Extraction {
  ex_balances : list idx_sol_balance;
  ex_states : list idx_token_balance_state;
  ex_moves : list idx_transfer;
  ex_rows : list idx_swap_row
}.

Definition states_facts (block_slot : Z) (states : list idx_token_balance_state) : list fact :=
  map (fun st => TokenFact (SawBalance (ts_mint st) (ts_decimals st) block_slot)) states.

(** What a transaction that is not a vote records, in order. *)
Definition tx_facts (set : idx_quote_set) (block_slot : Z) (time : option Z) (x : nat * idx_transaction)
    (e : extraction) : list fact :=
  states_facts block_slot (ex_states e) ++
  concat (map (row_facts set block_slot time (u16 (Z.of_nat x.1))) (ex_rows e)) ++
  concat (map (ix_facts x.2 block_slot) (searched x.2)).

(** The transactions that are not votes, with their place in the block. *)
Fixpoint survivors (i : nat) (txs : list idx_transaction) : list (nat * idx_transaction) :=
  match txs with
  | [] => []
  | tx :: txs' =>
      (if idx_vote_filter_should_drop (Some tx) then [] else [(i, tx)]) ++ survivors (S i) txs'
  end.

Definition n_moves (kind_is_sol : bool) (moves : list idx_transfer) : Z :=
  sum_of (fun m => if bool_decide (bool_decide (tr_kind m = IDX_TRANSFER_SOL) = kind_is_sol) then 1 else 0) moves.

(** The totals a block adds when it succeeds. *)
Definition block_totals (txs : list idx_transaction) (es : list extraction) : list fact :=
  let kept := size (survivors 0 txs) in
  [Counted CTransactions kept; Counted CVotes (size txs - kept);
   Counted CSolBalances (sum_of (fun e => size (ex_balances e)) es);
   Counted CTokenBalances (sum_of (fun e => size (ex_states e)) es);
   Counted CSolTransfers (sum_of (fun e => n_moves true (ex_moves e)) es);
   Counted CTokenTransfers (sum_of (fun e => n_moves false (ex_moves e)) es)].

(** ** Counters *)

Definition counters_ok (k : counters) : Prop := length (c_swaps k) = 7%nat /\ length (c_priced_by_quote k) = 6%nat.

Lemma venue_number_inj v v' : venue_number v = venue_number v' -> v = v'.
Proof. by destruct v, v'. Qed.
Lemma quote_number_inj q q' : quote_number q = quote_number q' -> q = q'.
Proof. by destruct q, q'. Qed.

Lemma alter_total (n : Z) (i j m : nat) (l : list Z) :
  length l = m -> (i < m)%nat ->
  alter (plus n) i l !!! j = if bool_decide (j = i) then plus n (l !!! j) else l !!! j.
Proof.
  intros Hl Hi. case_bool_decide as E; rewrite !list_lookup_total_alt.
  - subst j. rewrite list_lookup_alter_eq. destruct (l !! i) eqn:Hx; [done|]. apply lookup_ge_None in Hx. lia.
  - by rewrite list_lookup_alter_ne.
Qed.

(** Only the counter named moves, and no array is written out of bounds. *)
Lemma bump_spec c c' n k :
  counters_ok k ->
  counters_ok (bump c n k) /\ counted c' (bump c n k) = if bool_decide (c' = c) then plus n (counted c' k) else counted c' k.
Proof.
  intros [H1 H2]. split.
  - destruct k, c; split; cbn in *; rewrite ?length_alter; done.
  - destruct k as [tx vo sb tb st tk sw ro re pr pq pc tm bs]. cbn in H1, H2.
    destruct c as [| | | | | |v| | | |q| | |], c' as [| | | | | |v'| | | |q'| | |];
      try (rewrite bool_decide_false by done; reflexivity); try (rewrite bool_decide_true by done; reflexivity).
    + cbn [bump counted c_swaps]. rewrite (alter_total n _ _ 7) by (done || (destruct v; cbn; lia)).
      destruct (decide (v' = v)) as [->|Hv]; [by rewrite !bool_decide_true|].
      rewrite !bool_decide_false; [done|congruence|]. intros E. by apply venue_number_inj in E.
    + cbn [bump counted c_priced_by_quote]. rewrite (alter_total n _ _ 6) by (done || (destruct q; cbn; lia)).
      destruct (decide (q' = q)) as [->|Hv]; [by rewrite !bool_decide_true|].
      rewrite !bool_decide_false; [done|congruence|]. intros E. by apply quote_number_inj in E.
Qed.

(** ** The tally is its history *)

Section recorded.
Context {A M : Type} {arena_ops : ArenaOps A} {map_ops : PtrMapOps M} {map_spec : PtrMapSpec M}.
Abbreviation state := (idx_tally M * (A * heap))%type.

Record tallies (t : idx_tally M) (hist : list fact) : Prop := {
  pools_ok : Pool.registry_ok (tally_pools t);
  pools_tell : Pool.describes (tally_pools t) (pool_history hist);
  tokens_ok : Token.registry_ok (tally_tokens t);
  tokens_tell : Token.describes (tally_tokens t) (token_history hist);
  bars_ok : Bar.registry_ok (tally_bars t);
  bars_tell : Bar.describes (tally_bars t) (bar_history hist);
  counts_ok : counters_ok (counts t);
  counts_tell c : counted c (counts t) = u64 (total c hist)
}.

(** Run from a tally that is its history, [m] appends to it: [good] on success, [bad]
    on a failure. *)
Definition records {X} (set : idx_quote_set) (m : consumer (A:=A) (M:=M) X) (good : X -> list fact -> Prop)
    (bad : list fact -> Prop) : Prop :=
  forall t s hist, quotes t = set -> tallies t hist ->
    let '(r, (t', _)) := m (t, s) in
    quotes t' = set /\ exists fs, tallies t' (hist ++ fs) /\ match r with Ok x => good x fs | Err _ => bad fs end.

(** The computation records exactly [fs], or fails after some of it. *)
Definition gives (set : idx_quote_set) (m : consumer (A:=A) (M:=M) unit) (fs : list fact) : Prop :=
  records set m (fun _ l => l = fs) (fun l => l `prefix_of` fs).

Lemma records_bind {X Y} set (m : consumer X) (f : X -> consumer Y) good good' bad bad' :
  records set m good bad -> (forall l, bad l -> bad' l) ->
  (forall x l, good x l -> records set (f x) (fun y l' => good' y (l ++ l')) (fun l' => bad' (l ++ l'))) ->
  records set (consumer_bind _ _ f m) good' bad'.
Proof.
  intros Hm Hb Hf t s hist Hq Ht. unfold consumer_bind. specialize (Hm t s hist Hq Ht).
  destruct (m (t, s)) as [[x|e] [t1 s1]]; destruct Hm as (Hq1 & l & Ht1 & Hl).
  - specialize (Hf x l Hl t1 s1 _ Hq1 Ht1).
    destruct (f x (t1, s1)) as [[y|e] [t2 s2]]; destruct Hf as (Hq2 & l' & Ht2 & Hl'); (split; [done|]);
      exists (l ++ l'); rewrite app_assoc; auto.
  - split; [done|]. exists l. auto.
Qed.

Lemma records_impl {X} set (m : consumer X) good good' (bad bad' : list fact -> Prop) :
  records set m good bad -> (forall x l, good x l -> good' x l) -> (forall l, bad l -> bad' l) -> records set m good' bad'.
Proof.
  intros Hm Hg Hb t s hist Hq Ht. specialize (Hm t s hist Hq Ht).
  destruct (m (t, s)) as [[x|e] [t1 s1]]; destruct Hm as (Hq1 & l & Ht1 & Hl); eauto 6.
Qed.

Lemma records_ret {X} set (x : X) good bad : good x [] -> records set (consumer_ret _ x) good bad.
Proof. intros Hg t s hist Hq Ht. split; [done|]. exists []. by rewrite app_nil_r. Qed.

Lemma gives_ret set : gives set (consumer_ret _ tt) [].
Proof. intros t s hist Hq Ht. split; [done|]. exists []. rewrite app_nil_r. done. Qed.

Lemma gives_bind set (m m' : consumer unit) fs fs' :
  gives set m fs -> gives set m' fs' -> gives set (consumer_bind _ _ (fun _ => m') m) (fs ++ fs').
Proof.
  intros Hm Hm'. eapply records_bind; [exact Hm|intros l Hl; by apply prefix_app_r|].
  intros [] l ->. eapply records_impl; [exact Hm'|by intros _ ? ->|]. intros l' Hl'. by apply prefix_app.
Qed.

Lemma gives_each {X} set (f : X -> consumer unit) (F : X -> list fact) l :
  (forall x, gives set (f x) (F x)) -> gives set (each f l) (concat (map F l)).
Proof. intros Hf. induction l as [|x l IH]; [apply gives_ret|]. apply gives_bind; [apply Hf|exact IH]. Qed.

(** A fact of another registry leaves the histories of the others. *)
Lemma history_app hist fs :
  pool_history (hist ++ fs) = pool_history hist ++ pool_history fs /\
  token_history (hist ++ fs) = token_history hist ++ token_history fs /\
  bar_history (hist ++ fs) = bar_history hist ++ bar_history fs /\
  forall c, total c (hist ++ fs) = total c hist + total c fs.
Proof.
  unfold pool_history, token_history, bar_history, total. rewrite !omap_app. split_and!; try done.
  intros c. apply sum_of_app.
Qed.

Ltac spread := match goal with |- tallies _ (?hist ++ ?fs) =>
  destruct (history_app hist fs) as (Hp & Htk & Hba & Hto) end.

Lemma records_tallied set c n n' :
  u64 n = u64 n' -> records set (tallied (A:=A) (M:=M) c n) (fun _ l => l = [Counted c n']) (fun _ => False).
Proof.
  intros Hn [k q p tk b] s hist Hq []. cbn in *. split; [done|]. eexists. split; [|reflexivity]. spread.
  split; cbn [tally_pools tally_tokens tally_bars counts]; rewrite ?Hp, ?Htk, ?Hba; cbn [pool_history token_history
    bar_history omap list_omap]; rewrite ?app_nil_r; try done; [exact (proj1 (bump_spec c c n k counts_ok0))|].
  intros c'. rewrite (proj2 (bump_spec c c' n k counts_ok0)), Hto, counts_tell0. unfold plus.
  change (total c' [Counted c n']) with ((if bool_decide (c' = c) then n' else 0) + 0).
  case_bool_decide; rewrite ?Z.add_0_r; [|done]. rewrite u64_add_l.
  unfold u64 in *. rewrite Z.add_mod, Hn, <- Z.add_mod by done. done.
Qed.

Lemma gives_tallied set c n n' : u64 n = u64 n' -> gives set (tallied c n) [Counted c n'].
Proof. intros Hn. by eapply records_impl; [apply records_tallied| |]. Qed.

Lemma gives_on_pools set o : gives set (on_pools o) [PoolFact o].
Proof.
  intros [k q p tk b] [a h] hist Hq []. cbn in *.
  pose proof (pool_observe_describes o p h _ ltac:(done) ltac:(done)) as Hs.
  destruct (Pool.observe o p h) as [[[[]|e] p1] h1]; destruct Hs as [Hok Hd]; cbn [quotes]; (split; [done|]).
  - eexists. split; [|reflexivity]. spread. split; cbn [tally_pools tally_tokens tally_bars counts];
      rewrite ?Hp, ?Htk, ?Hba; cbn [pool_history token_history bar_history omap list_omap]; rewrite ?app_nil_r; try done.
    intros c. rewrite Hto, counts_tell0. unfold total at 2. cbn. by rewrite !Z.add_0_r.
  - exists []. split; [|apply prefix_nil]. rewrite app_nil_r. by split.
Qed.

Lemma gives_on_tokens set o : gives set (on_tokens o) [TokenFact o].
Proof.
  intros [k q p tk b] [a h] hist Hq []. cbn in *.
  pose proof (token_observe_describes o tk h _ ltac:(done) ltac:(done)) as Hs.
  destruct (Token.observe o tk h) as [[[[]|e] p1] h1]; destruct Hs as [Hok Hd]; cbn [quotes]; (split; [done|]).
  - eexists. split; [|reflexivity]. spread. split; cbn [tally_pools tally_tokens tally_bars counts];
      rewrite ?Hp, ?Htk, ?Hba; cbn [pool_history token_history bar_history omap list_omap]; rewrite ?app_nil_r; try done.
    intros c. rewrite Hto, counts_tell0. unfold total at 2. cbn. by rewrite !Z.add_0_r.
  - exists []. split; [|apply prefix_nil]. rewrite app_nil_r. by split.
Qed.

Lemma bar_facts_history l :
  pool_history (map BarFact l) = [] /\ token_history (map BarFact l) = [] /\ bar_history (map BarFact l) = l /\
  forall c, total c (map BarFact l) = 0.
Proof.
  induction l as [|f l (H1 & H2 & H3 & H4)]; [done|]. split_and!; [exact H1|exact H2| |].
  - cbn [map bar_history omap list_omap]. f_equal. exact H3.
  - intros c. exact (H4 c).
Qed.

Lemma gives_on_bars set i : gives set (on_bars i) (map BarFact (folds i)).
Proof.
  intros [k q p tk b] [a h] hist Hq []. cbn in *.
  pose proof (bar_observe_describes b i h _ ltac:(done) ltac:(done)) as Hs.
  destruct (idx_bar_registry_observe b i h) as [[r b1] h1]. destruct Hs as (Hok & l & Hd & Hpre & Hr).
  cbn [quotes]. split; [done|]. exists (map BarFact l). split.
  - spread. destruct (bar_facts_history l) as (E1 & E2 & E3 & E4).
    split; cbn [tally_pools tally_tokens tally_bars counts]; rewrite ?Hp, ?Htk, ?Hba, ?E1, ?E2, ?E3, ?app_nil_r; try done.
    intros c. by rewrite Hto, E4, Z.add_0_r.
  - destruct r as [[]|e]; [by rewrite Hr|]. destruct Hpre as [l' ->]. rewrite map_app. by apply prefix_app_r.
Qed.

(** ** The steps of the handler *)

Lemma gives_quotes set f fs : gives set (f set) fs -> gives set (consumer_bind _ _ f the_quotes) fs.
Proof. intros Hf t s hist Hq Ht. unfold consumer_bind, the_quotes. cbn [fst]. rewrite Hq. by apply Hf. Qed.

Lemma gives_if set (b : bool) (m m' : consumer unit) fs fs' :
  gives set m fs -> gives set m' fs' -> gives set (if b then m else m') (if b then fs else fs').
Proof. by destruct b. Qed.

Lemma records_arena {X} set (f : A -> result X * A) :
  records set (on_arena (M:=M) f) (fun x l => l = [] /\ exists a a', f a = (Ok x, a')) (fun l => l = []).
Proof.
  intros t [a h] hist Hq Ht. unfold on_arena. destruct (f a) as [r a'] eqn:E. split; [done|]. exists [].
  rewrite app_nil_r. split; [done|]. destruct r; [|done]. split; [done|]. by exists a, a'.
Qed.

Lemma concat_singletons {X Y} (f : X -> Y) l : concat (map (fun x => [f x]) l) = map f l.
Proof. induction l as [|x l IH]; [done|]. cbn. by rewrite IH. Qed.

Ltac gives_step :=
  first [ apply gives_ret | by apply gives_tallied | apply gives_on_pools | apply gives_on_tokens
        | apply gives_on_bars | apply gives_quotes | apply gives_if
        | apply (gives_bind _ _ _ [Counted _ _]) | apply gives_bind ].

Lemma gives_row set block_slot time ti row :
  gives set (normalize_row block_slot time ti row) (row_facts set block_slot time ti row).
Proof.
  unfold normalize_row, row_facts. apply gives_quotes.
  apply gives_bind; [repeat gives_step|]. apply gives_bind; [gives_step|].
  apply gives_bind; [|repeat gives_step].
  destruct (bar_of_row set block_slot time ti row); repeat gives_step.
Qed.

Lemma gives_ix set tx block_slot ix :
  gives set (observe_dimensions_ix tx block_slot ix) (ix_facts tx block_slot ix).
Proof.
  unfold observe_dimensions_ix, ix_facts. apply gives_bind.
  - destruct (idx_venue_creation_decode tx ix); repeat gives_step.
  - destruct (idx_venue_metadata_decode tx ix); repeat gives_step.
Qed.

Lemma gives_dimensions set tx block_slot :
  gives set (observe_dimensions tx block_slot) (concat (map (ix_facts tx block_slot) (searched tx))).
Proof.
  unfold observe_dimensions, searched. destruct (has_meta tx), (success tx); cbn [negb orb andb]; try gives_step.
  rewrite map_app, concat_app. apply gives_bind; [apply gives_each, gives_ix|].
  replace (concat (map (ix_facts tx block_slot) (concat (map inner_instructions_of (inner_instructions tx)))))
    with (concat (map (fun g => concat (map (ix_facts tx block_slot) (inner_instructions_of g))) (inner_instructions tx))).
  - apply gives_each. intros g. apply gives_each, gives_ix.
  - induction (inner_instructions tx) as [|g gs IH]; [done|]. cbn [map concat]. rewrite map_app, concat_app. by f_equal.
Qed.

(** ** One transaction *)

(** What the extractions of a transaction gave. *)
Definition extracted (tx : idx_transaction) (e : extraction) : Prop :=
  (exists a a' : A, idx_sol_balance_extract tx a = (Ok (ex_balances e), a')) /\
  (exists a a' : A, idx_token_balance_extract tx a = (Ok (ex_states e), a')) /\
  (exists a a' : A, idx_transfer_extract tx a = (Ok (ex_moves e), a')) /\
  (exists a a' : A, idx_swap_normalize tx a = (Ok (ex_rows e), a')).

(** What a transaction left that stopped its block: nothing, when its balances could not be
    extracted; the first of its token balances, when one of them, its transfers or its swaps
    failed; or the first of what it records, when everything was extracted and a row or an
    instruction failed. *)
Definition stopped_in (set : idx_quote_set) (block_slot : Z) (time : option Z) (x : nat * idx_transaction)
    (l : list fact) : Prop :=
  l = [] \/
  (exists states (a a' : A), idx_token_balance_extract x.2 a = (Ok states, a') /\ l `prefix_of` states_facts block_slot states) \/
  (exists e, extracted x.2 e /\ l `prefix_of` tx_facts set block_slot time x e).

(** The five sums after adding those of [d]. *)
Definition adds (s d s' : block_sums) : Prop :=
  votes s' = u64 (votes s + votes d) /\ sol_balances s' = u64 (sol_balances s + sol_balances d) /\
  token_balances s' = u64 (token_balances s + token_balances d) /\
  sol_transfers s' = u64 (sol_transfers s + sol_transfers d) /\
  token_transfers s' = u64 (token_transfers s + token_transfers d).

Definition tx_sums (e : extraction) : block_sums :=
  BlockSums 0 (size (ex_balances e)) (size (ex_states e)) (n_moves true (ex_moves e)) (n_moves false (ex_moves e)).

Definition sums_range (s : block_sums) : Prop :=
  is_u64 (votes s) /\ is_u64 (sol_balances s) /\ is_u64 (token_balances s) /\ is_u64 (sol_transfers s) /\
  is_u64 (token_transfers s).

Lemma plus_u64 n x : plus n (u64 x) = u64 (x + n).
Proof. unfold plus. by rewrite u64_add_l. Qed.

Lemma count_moves_spec moves s :
  is_u64 (sol_transfers s) -> is_u64 (token_transfers s) ->
  votes (count_moves moves s) = votes s /\ sol_balances (count_moves moves s) = sol_balances s /\
  token_balances (count_moves moves s) = token_balances s /\
  sol_transfers (count_moves moves s) = u64 (sol_transfers s + n_moves true moves) /\
  token_transfers (count_moves moves s) = u64 (token_transfers s + n_moves false moves).
Proof.
  revert s. induction moves as [|m moves IH]; intros s H1 H2.
  { cbn. rewrite !Z.add_0_r, !u64_small by done. done. }
  assert (forall b, n_moves b (m :: moves) = (if bool_decide (bool_decide (tr_kind m = IDX_TRANSFER_SOL) = b) then 1 else 0)
    + n_moves b moves) as Hn by done. rewrite !Hn. clear Hn.
  unfold count_moves in *. cbn [foldl].
  destruct (decide (tr_kind m = IDX_TRANSFER_SOL)) as [E|E];
    [rewrite (bool_decide_true (tr_kind m = _)) by done|rewrite (bool_decide_false (tr_kind m = _)) by done];
    change (bool_decide (true = true)) with true; change (bool_decide (true = false)) with false;
    change (bool_decide (false = true)) with false; change (bool_decide (false = false)) with true; cbv iota.
  - edestruct IH as (V1 & V2 & V3 & V4 & V5); [| |split_and!; [exact V1|exact V2|exact V3| |]]; [apply u64_range|done| |].
    + etransitivity; [exact V4|]. cbn [sol_transfers]. unfold plus. rewrite u64_add_l. f_equal. lia.
    + exact V5.
  - edestruct IH as (V1 & V2 & V3 & V4 & V5); [| |split_and!; [exact V1|exact V2|exact V3| |]]; [done|apply u64_range| |].
    + exact V4.
    + etransitivity; [exact V5|]. cbn [token_transfers]. unfold plus. rewrite u64_add_l. f_equal. lia.
Qed.

Lemma records_swaps set tx block_slot time ti :
  records set (normalize_swaps tx block_slot time ti)
    (fun _ fs => exists rows, (exists a a' : A, idx_swap_normalize tx a = (Ok rows, a')) /\
                              fs = concat (map (row_facts set block_slot time ti) rows))
    (fun fs => fs = [] \/ exists rows, (exists a a' : A, idx_swap_normalize tx a = (Ok rows, a')) /\
                              fs `prefix_of` concat (map (row_facts set block_slot time ti) rows)).
Proof.
  unfold normalize_swaps. eapply records_bind; [apply records_arena|intros l ->; by left|].
  intros rows l [-> Hr]. eapply records_impl; [apply gives_each; intros row; apply gives_row| |].
  - intros [] l' ->. by exists rows.
  - intros l' Hl'. right. by exists rows.
Qed.

(** A transaction that is not a vote. *)
Lemma records_transaction set block_slot time i tx s :
  idx_vote_filter_should_drop (Some tx) = false -> sums_range s ->
  records set (count_transaction block_slot time i tx s)
    (fun s' fs => exists e, extracted tx e /\ fs = tx_facts set block_slot time (i, tx) e /\ adds s (tx_sums e) s')
    (stopped_in set block_slot time (i, tx)).
Proof.
  intros Hv (R1 & R2 & R3 & R4 & R5). unfold count_transaction. rewrite Hv. unfold stopped_in, tx_facts. cbn [fst snd].
  eapply records_bind; [apply records_arena|intros l ->; by left|].
  intros balances l [-> Hb].
  eapply records_bind; [apply records_arena|intros l ->; by left|].
  intros states l [-> Hs]. cbn [app].
  assert (forall l, l `prefix_of` states_facts block_slot states -> exists states (a a' : A),
    idx_token_balance_extract tx a = (Ok states, a') /\ l `prefix_of` states_facts block_slot states) as Hsome.
  { intros l Hl. destruct Hs as (a & a' & Hs). by exists states, a, a'. }
  eapply records_bind.
  { apply (gives_each _ _ (fun st => [TokenFact (SawBalance (ts_mint st) (ts_decimals st) block_slot)])).
    intros st. apply gives_on_tokens. }
  { intros l Hl. right; left. apply Hsome. by rewrite concat_singletons in Hl. }
  intros [] l ->. rewrite concat_singletons. fold (states_facts block_slot states).
  eapply records_bind; [apply records_arena|intros l ->; right; left; apply Hsome; by rewrite app_nil_r|].
  intros moves l [-> Hm]. cbn [app].
  eapply records_bind; [apply records_swaps| |].
  { intros l [->|(rows & Hr & Hl)]; right; [left; apply Hsome; by rewrite app_nil_r|right].
    exists (Extraction balances states moves rows). split; [by split_and!|].
    cbn [ex_states ex_rows]. by apply prefix_app, prefix_app_r. }
  intros [] l (rows & Hr & ->).
  eapply records_bind; [apply gives_dimensions| |].
  { intros l Hl. right; right. exists (Extraction balances states moves rows). split; [by split_and!|]. cbn [ex_states ex_rows].
    by apply prefix_app, prefix_app. }
  intros [] l ->. apply records_ret. exists (Extraction balances states moves rows). split; [by split_and!|].
  cbn [ex_states ex_rows]. split; [by rewrite app_nil_r|].
  destruct (count_moves_spec moves (BlockSums (votes s) (plus (size balances) (sol_balances s))
    (plus (size states) (token_balances s)) (sol_transfers s) (token_transfers s))) as (V1 & V2 & V3 & V4 & V5); [done..|].
  unfold adds. rewrite V1, V2, V3, V4, V5. cbn. rewrite Z.add_0_r, u64_small by done. done.
Qed.

(** ** A block *)

Definition block_sums_of (dropped : Z) (es : list extraction) : block_sums :=
  BlockSums dropped (sum_of (fun e => size (ex_balances e)) es) (sum_of (fun e => size (ex_states e)) es)
    (sum_of (fun e => n_moves true (ex_moves e)) es) (sum_of (fun e => n_moves false (ex_moves e)) es).

Lemma adds_range s d s' : adds s d s' -> sums_range s'.
Proof. intros (V1 & V2 & V3 & V4 & V5). unfold sums_range. rewrite V1, V2, V3, V4, V5. split_and!; apply u64_range. Qed.

Lemma adds_none s : sums_range s -> adds s (block_sums_of 0 []) s.
Proof. intros (? & ? & ? & ? & ?). unfold adds. cbn. rewrite !Z.add_0_r, !u64_small by done. done. Qed.

Lemma adds_vote s n es s' :
  adds (BlockSums (plus 1 (votes s)) (sol_balances s) (token_balances s) (sol_transfers s) (token_transfers s))
    (block_sums_of n es) s' -> adds s (block_sums_of (1 + n) es) s'.
Proof.
  intros (V1 & V2 & V3 & V4 & V5). unfold adds. split; [|done]. rewrite V1. cbn. unfold plus. rewrite u64_add_l.
  f_equal. lia.
Qed.

Lemma adds_cons s s1 s' n e es :
  adds s (tx_sums e) s1 -> adds s1 (block_sums_of n es) s' -> adds s (block_sums_of n (e :: es)) s'.
Proof.
  intros (V1 & V2 & V3 & V4 & V5) (W1 & W2 & W3 & W4 & W5). unfold adds.
  rewrite W1, W2, W3, W4, W5, V1, V2, V3, V4, V5, !u64_add_l.
  unfold block_sums_of, tx_sums, sum_of. cbn [votes sol_balances token_balances sol_transfers token_transfers foldr].
  rewrite Z.add_0_r, <- !Z.add_assoc. done.
Qed.

(** What the transactions [xs] with the extractions [es] record. *)
Definition txs_facts (set : idx_quote_set) (block_slot : Z) (time : option Z) (xs : list (nat * idx_transaction))
    (es : list extraction) : list fact := concat (zip_with (tx_facts set block_slot time) xs es).

(** What a block left that failed in one of the transactions [xs]: everything the ones before
    it record, and what it left itself; nothing of the ones after it. *)
Definition some_facts (set : idx_quote_set) (block_slot : Z) (time : option Z) (xs : list (nat * idx_transaction))
    (fs : list fact) : Prop :=
  exists before x rest es l, xs = before ++ x :: rest /\ Forall2 (fun x e => extracted x.2 e) before es /\
    fs = txs_facts set block_slot time before es ++ l /\ stopped_in set block_slot time x l.

Lemma records_transactions set block_slot time i txs s :
  sums_range s ->
  records set (count_transactions block_slot time i txs s)
    (fun s' fs => exists es, Forall2 (fun x e => extracted x.2 e) (survivors i txs) es /\
       fs = txs_facts set block_slot time (survivors i txs) es /\
       adds s (block_sums_of (size txs - size (survivors i txs)) es) s')
    (some_facts set block_slot time (survivors i txs)).
Proof.
  revert i s. induction txs as [|tx txs IH]; intros i s Hs; cbn [count_transactions survivors].
  { apply records_ret. exists []. split_and!; [done|done|by apply adds_none]. }
  destruct (idx_vote_filter_should_drop (Some tx)) eqn:Hv; cbn [app].
  - eapply (records_bind _ _ _ (fun s1 l => l = [] /\ s1 = BlockSums (plus 1 (votes s)) (sol_balances s)
      (token_balances s) (sol_transfers s) (token_transfers s)) _ (fun _ => False)); [|done|].
    { unfold count_transaction. rewrite Hv. apply records_ret. done. }
    intros s1 l [-> ->]. eapply records_impl; [apply IH| |intros l Hl; exact Hl].
    + destruct Hs as (? & ? & ? & ? & ?). split_and!; cbn; first [done|apply u64_range].
    + intros s2 l (es & He & -> & Ha). exists es. split_and!; [done|done|].
      replace (size (tx :: txs) - size (survivors (S i) txs)) with (1 + (size txs - size (survivors (S i) txs)))
        by (unfold size; cbn [length]; lia). by apply adds_vote.
  - eapply records_bind; [by apply records_transaction| |].
    { intros l Hl. by exists [], (i, tx), (survivors (S i) txs), [], l. }
    intros s1 l (e & He & -> & Ha). eapply records_impl; [apply IH; by eapply adds_range| |].
    + intros s2 l (es & Hes & -> & Has). exists (e :: es). split_and!; [by constructor|done|].
      replace (size (tx :: txs) - size ((i, tx) :: survivors (S i) txs)) with (size txs - size (survivors (S i) txs))
        by (unfold size; cbn [length]; lia). by eapply adds_cons.
    + intros l (before & x & rest & es & l' & -> & Hes & -> & Hl). exists ((i, tx) :: before), x, rest, (e :: es), l'.
      split_and!; [done|by constructor| |done]. unfold txs_facts. cbn [zip_with concat]. by rewrite app_assoc.
Qed.

Lemma records_decoding {X} set (m : decoder (A:=A) X) :
  records set (decoding (M:=M) m) (fun x l => l = [] /\ exists s s', m s = (Ok x, s'))
    (fun l => l = [] /\ exists e s s', m s = (Err e, s')).
Proof.
  intros t s hist Hq Ht. unfold decoding. destruct (m s) as [r s'] eqn:E. split; [done|]. exists [].
  rewrite app_nil_r. split; [done|]. destruct r as [x|e]; (split; [done|]); [by exists s, s'|by exists e, s, s'].
Qed.

(** What the history of a block is, by the outcome of the handler. *)
Definition block_gave (set : idx_quote_set) (block : idx_raw_block) (r : result unit) (fs : list fact) : Prop :=
  match r with
  | Ok _ => exists b es,
      (exists s s' : A * heap, idx_block_decode (block_value block) (block_slot block) s = (Ok b, s')) /\
      Forall2 (fun x e => extracted x.2 e) (survivors 0 (transactions b)) es /\
      fs = txs_facts set (block_slot block) (block_time b) (survivors 0 (transactions b)) es ++
           block_totals (transactions b) es
  | Err _ =>
      (fs = [] /\ exists e (s s' : A * heap), idx_block_decode (block_value block) (block_slot block) s = (Err e, s')) \/
      exists b,
      (exists s s' : A * heap, idx_block_decode (block_value block) (block_slot block) s = (Ok b, s')) /\
      some_facts set (block_slot block) (block_time b) (survivors 0 (transactions b)) fs
  end.

Lemma u64_u64 a : u64 (u64 a) = u64 a.
Proof. apply u64_small, u64_range. Qed.

Lemma records_block set block :
  records set (count_block (A:=A) (M:=M) block) (fun _ fs => block_gave set block (Ok tt) fs)
    (fun fs => block_gave set block (Err IDX_OK) fs).
Proof.
  unfold count_block. eapply records_bind; [apply records_decoding|intros l Hl; by left|].
  intros b l [-> Hb].
  eapply records_bind; [apply records_transactions; split_and!; by cbn| |].
  { intros l Hl. right. by exists b. }
  intros s l (es & Hes & -> & V1 & V2 & V3 & V4 & V5). cbn [app].
  unfold no_sums, block_sums_of in V1, V2, V3, V4, V5.
  cbn [votes sol_balances token_balances sol_transfers token_transfers] in V1, V2, V3, V4, V5.
  rewrite Z.add_0_l in V1, V2, V3, V4, V5. rewrite V1, V2, V3, V4, V5.
  assert (u64 (u64 (size (transactions b) - u64 (size (transactions b) - size (survivors 0 (transactions b))))) =
          u64 (size (survivors 0 (transactions b)))) as Hkept.
  { rewrite u64_u64. unfold u64. rewrite Zminus_mod_idemp_r. f_equal. lia. }
  eapply records_bind; [by apply records_tallied|done|intros [] l ->].
  do 4 (eapply records_bind; [apply records_tallied, u64_u64|done|intros [] l ->]).
  eapply records_impl; [apply records_tallied, u64_u64| |done].
  intros [] l ->. exists b, es. split_and!; [done|done|]. unfold block_totals. reflexivity.
Qed.

(** ** Properties *)

(** The registries and the counters of a tally are what [hist] says. *)
Definition tally_tells (t : idx_tally M) (hist : list fact) : Prop :=
  (forall a, idx_pool_registry_get (tally_pools t) a = Pool.describe (address_key a) (pool_history hist)) /\
  (forall mint, idx_token_registry_get (tally_tokens t) mint = Token.describe (mint_key mint) (token_history hist)) /\
  (forall pool iv bucket, idx_bar_registry_get (tally_bars t) pool iv bucket =
     Bar.describe (bar_key pool iv bucket) (bar_history hist)) /\
  (forall c, counted c (counts t) = u64 (total c hist)).

Lemma tallies_tell t hist : tallies t hist -> tally_tells t hist.
Proof.
  intros []. split_and!; [| | |done].
  - intros a. rewrite pool_get_view by done. apply pools_tell0.
  - intros m. rewrite token_get_view by done. apply tokens_tell0.
  - intros p iv b. rewrite bar_get_view by done. apply bars_tell0.
Qed.

Lemma new_tally_tallies set : tallies (new_tally set) [].
Proof.
  destruct (token_init_registry_ok (M:=M)) as [Ht Hvt], (bar_init_registry_ok (M:=M)) as [Hb Hvb].
  split; cbn [tally_pools tally_tokens tally_bars counts]; try done.
  - apply pool_init_registry_ok.
  - apply init_describes.
  - intros k. unfold new_tally. cbn [tally_tokens]. by rewrite Hvt, lookup_empty.
  - intros k. unfold new_tally. cbn [tally_bars]. by rewrite Hvb, lookup_empty.
  - by destruct c as [| | | | | |[]| | | |[]| | |].
Qed.

Lemma count_blocks_tallies set blocks t h hist :
  quotes t = set -> tallies t hist ->
  let '(rs, t') := count_blocks (A:=A) blocks t h in
  exists fss, Forall2 (fun x fs => block_gave set x.1 x.2 fs) (zip blocks.*1 rs) fss /\
    length rs = length blocks /\ tallies t' (hist ++ concat fss).
Proof.
  revert t h hist. induction blocks as [|[block a] blocks IH]; intros t h hist Hq Ht; cbn [count_blocks].
  { exists []. rewrite app_nil_r. split_and!; [constructor|done|done]. }
  pose proof (records_block set block t (a, h) hist Hq Ht) as Hb.
  destruct (count_block block (t, (a, h))) as [r [t1 [a1 h1]]]. destruct Hb as (Hq1 & fs & Ht1 & Hfs).
  specialize (IH t1 h1 _ Hq1 Ht1). destruct (count_blocks blocks t1 h1) as [rs t2].
  destruct IH as (fss & Hfss & Hl & Ht2). exists (fs :: fss). cbn [concat]. rewrite app_assoc. split_and!; [|cbn; lia|done].
  cbn [fmap list_fmap zip_with]. constructor; [|done]. by destruct r as [[]|e].
Qed.

(** C3. The tally of main.c is the history of its blocks.  Over any run of blocks, whatever
    their documents and through any failure of memory, a block that succeeds leaves
    exactly this: for each transaction that is not a vote, in order, its token
    balances, then its swap rows (a price counted, the pool observed, a bar for each
    priced and timed swap of a pool, the row counted by venue or as a route), then
    the creations and metadata of its instructions; and its totals.  A block whose
    document does not decode leaves nothing.  One that fails in a transaction leaves
    exactly what the transactions before it record, the first part of what that
    transaction does, nothing of the transactions after it and no totals.  The pool,
    token and bar registries describe the whole history and every counter is its sum. *)
Theorem consumer_history set blocks h :
  let '(rs, t) := count_blocks (A:=A) blocks (new_tally (M:=M) set) h in
  exists fss, Forall2 (fun x fs => block_gave set x.1 x.2 fs) (zip blocks.*1 rs) fss /\
    length rs = length blocks /\ tally_tells t (concat fss).
Proof.
  pose proof (count_blocks_tallies set blocks (new_tally set) h [] eq_refl (new_tally_tallies set)) as Hc.
  destruct (count_blocks _ _ _) as [rs t]. destruct Hc as (fss & H1 & H2 & H3). exists fss.
  split_and!; [done|done|]. by apply tallies_tell.
Qed.
End recorded.

(** ** Witness *)

(** A block with one transaction: a transfer of 1000 lamports that also leaves a token
    account with 5 units. *)
Definition paying_transaction : json :=
  JObj [(lit "transaction", JObj [
           (lit "signatures", JArr [sample_signature]);
           (lit "message", JObj [
              (lit "header", JObj [(lit "numRequiredSignatures", JUint 1);
                                   (lit "numReadonlySignedAccounts", JUint 0);
                                   (lit "numReadonlyUnsignedAccounts", JUint 1)]);
              (lit "recentBlockhash", sample_key);
              (lit "accountKeys", JArr [sample_key; sample_key]);
              (lit "instructions", JArr [JObj [(lit "programIdIndex", JUint 1);
                                               (lit "accounts", JArr [JUint 0; JUint 1]);
                                               (lit "data", JStr (lit "3Bxs4ffTu9T19DNF"))]])])]);
        (lit "meta", JObj [(lit "err", JNull); (lit "fee", JUint 5000);
           (lit "preBalances", JArr [JUint 9000; JUint 1]); (lit "postBalances", JArr [JUint 4000; JUint 1]);
           (lit "postTokenBalances", JArr [JObj [(lit "accountIndex", JUint 1); (lit "mint", sample_key);
              (lit "owner", sample_key); 
              (lit "uiTokenAmount", JObj [(lit "amount", JStr (lit "5")); (lit "decimals", JUint 6)])]])])].

Definition paying_block : json :=
  JObj [(lit "blockhash", sample_key); (lit "parentSlot", JUint 41); (lit "transactions", JArr [paying_transaction])].

Definition paying_raw : idx_raw_block := RawBlock 42 (Some paying_block) 100 IDX_BLOCK_FROM_SUBSCRIPTION.

Lemma consumer_history_witness :
  let blocks := [(paying_raw, page_arena); (paying_raw, page_arena)] in
  let '(rs, t) := count_blocks blocks (new_tally (M:=idx_map ptr) []) [false] in
  rs = [Err IDX_ERR_NO_MEMORY; Ok tt] /\
  exists fss, Forall2 (fun x fs => block_gave (A:=idx_arena * sys) [] x.1 x.2 fs) (zip blocks.*1 rs) fss /\
    total CTransactions (concat fss) mod 2 ^ 64 = 1 /\ total CSolTransfers (concat fss) mod 2 ^ 64 = 1.
Proof.
  intros blocks. pose proof (consumer_history (M:=idx_map ptr) [] blocks [false]) as Hc.
  assert (let '(rs, t) := count_blocks blocks (new_tally (M:=idx_map ptr) []) [false] in
          (rs, c_transactions (counts t), c_sol_transfers (counts t)) = ([Err IDX_ERR_NO_MEMORY; Ok tt], 1, 1)) as Hr
    by (vm_compute; reflexivity).
  destruct (count_blocks _ _ _) as [rs t]. injection Hr as Hrs H1 H2. destruct Hc as (fss & Hfs & _ & _ & _ & _ & Hk).
  split; [done|]. exists fss. split; [done|]. split.
  - pose proof (Hk CTransactions) as Hk1. cbn [counted] in Hk1. rewrite H1 in Hk1. by symmetry.
  - pose proof (Hk CSolTransfers) as Hk1. cbn [counted] in Hk1. rewrite H2 in Hk1. by symmetry.
Defined.
