(* ===== verification/Main.v ===== *)
(** * main.c: the command

    Start-up in the order of [main], what it does with the outcome of the run, the
    progress line's numbers and the release of the tally.  Writing the messages, the
    signal handlers and the reporter's thread and clock are not modelled: the run
    itself is that of Pipeline.v with the handler of Consumer.v. *)

From S2P Require Import Prelude Base58 Types Decimal Map PtrMap Gaps SlotCursor Arena VenueTypes Price Token Pool Bar Config.
From S2P Require Import Processor Pipeline Balance Consumer.
#[local] Open Scope Z_scope.

(** ** The progress line *)

(** [%lld] *)
Definition signed_dec (n : Z) : bytes := if n <? 0 then 45 :: dec (- n) else dec n.

(** src/src/main.c:199-206 [format_lag]: given [time(NULL)]. *)
Definition format_lag (out_size : Z) (now : Z) (time : option Z) : bytes :=
  match time with
  | None => printed out_size (lit "unknown")
  | Some t => printed out_size (signed_dec (now - t) ++ lit " s")
  end.

(** src/src/main.c:243-247 [report_progress] *)
Definition slots_behind (last_indexed tip_slot : Z) : Z :=
  if negb (last_indexed =? IDX_SLOT_NONE) && (last_indexed <? tip_slot) then u64 (tip_slot - last_indexed) else 0.

(** src/src/main.c:264-290 [run_reporter]: one tick; [elapsed] says whether the interval
    has passed, and the blocks and transactions of the line are those since the last. *)
Record reporter := Reporter { last_blocks : Z; last_transactions : Z }.

Definition reporter_tick (elapsed : bool) (blocks_now transactions_now tip_slot : Z) (r : reporter)
    : option (Z * Z) * reporter :=
  if negb elapsed then (None, r)
  else
    ((if tip_slot =? IDX_SLOT_NONE then None
      else Some (u64 (blocks_now - last_blocks r), u64 (transactions_now - last_transactions r))),
     Reporter blocks_now transactions_now).

(** src/src/main.c:551-559 [main]: the pool rows of the summary. *)
Definition pool_venues : list idx_venue :=
  [IDX_VENUE_PUMP_CURVE; IDX_VENUE_PUMP_AMM; IDX_VENUE_RAYDIUM_AMM_V4; IDX_VENUE_RAYDIUM_CLMM; IDX_VENUE_RAYDIUM_CPMM;
   IDX_VENUE_JUPITER].
Definition pool_swaps_total (k : counters) : Z :=
  foldl (fun total v => if counted (CSwaps v) k =? 0 then total else u64 (total + counted (CSwaps v) k)) 0 pool_venues.

(** ** Start-up *)

Inductive exit_code := EXIT_SUCCESS | EXIT_FAILURE.

(** What the process starts with: the arguments, the configuration's sources, the
    disk of the cursor, the allocations of the validation and those after it. *)
Record process := Process {
  argv : list bytes;
  files : file_system;
  environment : bytes -> option bytes;
  state_disk : disk;
  state_read : read_env;
  validation_heap : heap;
  process_heap : heap
}.

Section main.
Context {M : Type} `{PtrMapOps M}.

(** How far [main] got. *)
Inductive started :=
  | BadConfiguration (e : idx_status)
  | Usage
  | Invalid (e : idx_status)
  | NoCursor (e : idx_status)
  | NoQuotes (e : idx_status)
  | NoPipeline (e : idx_status)
  | Ready (cfg : idx_config) (cur : idx_slot_cursor) (tally : idx_tally M) (p : idx_pipeline) (h : heap).

(** src/src/main.c:486-504 [main]: the tally and the pipeline. *)
Definition start_pipeline (cfg : idx_config) (cur : idx_slot_cursor) (h : heap) : started :=
  let '(r, set, h) := idx_quote_set_parse (Some (quote_mints cfg)) h in
  match r with
  | Err e => NoQuotes e
  | Ok _ =>
      let '(p, h) := idx_pipeline_open idx_pipeline_options_init (Some cfg) (Some cur) true h in
      match p with
      | Err e => NoPipeline e
      | Ok p => Ready cfg cur (new_tally (default [] set)) p h
      end
  end.

(** src/src/main.c:445-478 [main] *)
Definition start (env : process) : started :=
  let '(r, cfg) := idx_config_load (argv env) (files env) (environment env) in
  match r with
  | Err e => BadConfiguration e
  | Ok _ =>
      if help cfg then Usage
      else
        match idx_config_validate cfg (validation_heap env) with
        | Err e => Invalid e
        | Ok _ =>
            let '(r, cur) := idx_slot_cursor_open (state_disk env) (Some (state_file cfg)) (cfg_start_slot cfg) (state_read env) in
            match r with
            | Err e => NoCursor e
            | Ok _ => start_pipeline cfg cur (process_heap env)
            end
        end
  end.

(** src/src/main.c:625-631 [main]: the code returned, given how the run ended. *)
Definition exit_of (s : started) (ran : result unit) : exit_code :=
  match s with
  | Usage => EXIT_SUCCESS
  | Ready _ _ _ _ _ => match ran with Ok _ => EXIT_SUCCESS | Err _ => EXIT_FAILURE end
  | _ => EXIT_FAILURE
  end.

(** src/src/main.c:621-624 [main]: the documents freed with the pipeline, then the
    records of the three registries. *)
Definition tear_down (p : idx_pipeline) (t : idx_tally M) : list Z * list (option ptr) * list (option ptr) * list (option ptr) :=
  (idx_pipeline_close p, (idx_pool_registry_free (tally_pools t)).2, (idx_token_registry_free (tally_tokens t)).2,
   (idx_bar_registry_free (tally_bars t)).2).
End main.

(** ** The quote set is parsed without memory *)

(** A short text is decoded in scratch from the stack. *)
Lemma pubkey_decode_pure text h :
  size text <= IDX_BASE58_STACK_SCRATCH ->
  idx_pubkey_from_base58 (Some text) true h = ((idx_pubkey_from_base58 (Some text) true []).1, h).
Proof.
  intros Hs. unfold idx_pubkey_from_base58, from_base58, idx_base58_decode_exact, idx_base58_decode, scratch_acquire,
    idx_base58_decoded_max. cbn [negb]. by rewrite (proj2 (Z.leb_le (size text) _) Hs).
Qed.

Lemma add_entry_pure set token h :
  size token < IDX_PUBKEY_STR_MAX -> add_entry set token h = ((add_entry set token []).1, h).
Proof.
  intros Hs. unfold add_entry. destruct (List.find _ _) as [[[name kind] text]|] eqn:Ef.
  - assert (size text <= IDX_BASE58_STACK_SCRATCH) as Ht.
    { apply find_some in Ef as [Hin _]. revert name kind text Hin.
      enough (Forall (fun q => size q.2 <= IDX_BASE58_STACK_SCRATCH) k_named_quotes) as Hf.
      { intros name kind text Hin. rewrite Forall_forall in Hf. apply (Hf (name, kind, text)). by apply list_elem_of_In. }
      repeat (apply Forall_cons; split; [vm_compute; discriminate|]). constructor. }
    rewrite (pubkey_decode_pure text h), (pubkey_decode_pure text []) by done. cbn [fst].
    destruct (idx_pubkey_from_base58 _ _ _).1 as [mint|e]; [|done]. by destruct (add_quote set mint kind).
  - assert (size token <= IDX_BASE58_STACK_SCRATCH) as Ht by (unfold IDX_PUBKEY_STR_MAX, IDX_BASE58_STACK_SCRATCH in *; lia).
    rewrite (pubkey_decode_pure token h), (pubkey_decode_pure token []) by done. cbn [fst].
    destruct (idx_pubkey_from_base58 _ _ _).1 as [mint|e]; [|done]. by destruct (add_quote set mint IDX_QUOTE_OTHER).
Qed.

Lemma add_all_pure tokens set h : add_all tokens set h = ((add_all tokens set []).1, h).
Proof.
  revert set h. induction tokens as [|token tokens IH]; intros set h; cbn [add_all]; [done|].
  destruct (Z.leb_spec IDX_PUBKEY_STR_MAX (size token)) as [|Ht]; [done|].
  rewrite (add_entry_pure set token h Ht), (add_entry_pure set token [] Ht). cbn [fst].
  destruct (add_entry set token []).1 as [[[]|e] set']; cbn [fst]; [|done]. apply IH.
Qed.

Lemma quote_set_parse_pure spec h :
  idx_quote_set_parse (Some spec) h = ((idx_quote_set_parse (Some spec) []).1, h).
Proof.
  unfold idx_quote_set_parse. rewrite !parse_loop_spec by done. rewrite add_all_pure.
  destruct (add_all (fields spec) [] []) as [[r set] h']. done.
Qed.

Lemma validated_quotes cfg h h' :
  idx_config_validate cfg h = Ok tt -> exists set, idx_quote_set_parse (Some (quote_mints cfg)) h' = (Ok tt, Some set, h') /\ set_ok set.
Proof.
  unfold idx_config_validate. do 8 (case_match; [done|]). rewrite (quote_set_parse_pure _ h), (quote_set_parse_pure _ h').
  unfold idx_quote_set_parse. rewrite parse_loop_spec by done.
  pose proof (add_all_ok (fields (quote_mints cfg)) [] []) as Ha.
  destruct (add_all _ _ _) as [[[[]|e] set] h1]; cbn; [|done]. intros _. exists set. split; [done|].
  apply Ha. split; [by vm_compute|]. intros i j a b Hi. by rewrite lookup_nil in Hi.
Qed.

(** ** Properties *)

Section properties.
Context {A M : Type} {arena_ops : ArenaOps A} {map_ops : PtrMapOps M} {map_spec : PtrMapSpec M}.

(** What a start that succeeded was given. *)
Definition accepted (env : process) (cfg : idx_config) (cur : idx_slot_cursor) : Prop :=
  idx_config_load (argv env) (files env) (environment env) = (Ok tt, cfg) /\ help cfg = false /\
  idx_config_validate cfg (validation_heap env) = Ok tt /\
  idx_slot_cursor_open (state_disk env) (Some (state_file cfg)) (cfg_start_slot cfg) (state_read env) = (Ok tt, cur).

Lemma start_accepted env cfg cur :
  accepted env cfg cur -> start (M:=M) env = start_pipeline cfg cur (process_heap env).
Proof. intros (Hl & Hh & Hv & Hc). unfold start. by rewrite Hl, Hh, Hv, Hc. Qed.

(** The pipeline opens when there is memory, a socket to subscribe on and room for the
    subscription's text. *)
Lemma pipeline_opens opt cfg cur :
  config_ok cfg -> wss_url cfg <> [] -> size (subscribe_text cfg) < IDX_PIPELINE_PARAMS_MAX ->
  exists p, idx_pipeline_open opt (Some cfg) (Some cur) true [] = (Ok p, []).
Proof.
  intros Hcfg Hw Hs. unfold idx_pipeline_open. cbn [negb]. unfold streq. rewrite bool_decide_false by done. cbn [malloc negb].
  unfold idx_config_block_subscribe_params. rewrite (proj2 (Z.leb_gt _ (size (subscribe_text cfg))) Hs).
  assert (forall d b, d = 0 \/ 2 <= d <= IDX_CONFIG_MAX_QUEUE_DEPTH -> exists r, Ring.idx_ring_new (Some (d, b)) [] = (Ok r, [])) as Hring.
  { intros d b Hd. unfold Ring.idx_ring_new. set (d' := if negb (d =? 0) then d else Ring.IDX_RING_DEFAULT_DEPTH).
    assert (2 <= d' <= IDX_CONFIG_MAX_QUEUE_DEPTH) as Hd'.
    { unfold d'. destruct (Z.eqb_spec d 0); cbn [negb]; [by vm_compute|lia]. }
    rewrite (proj2 (Z.ltb_ge d' 2)) by lia. cbn [malloc negb]. unfold calloc.
    rewrite (proj2 (Z.ltb_ge SIZE_MAX (d' * 48))) by (unfold SIZE_MAX, IDX_CONFIG_MAX_QUEUE_DEPTH in *; lia).
    cbn [malloc negb]. by eexists. }
  set (depth := if negb (queue_depth cfg =? 0) then queue_depth cfg else Ring.idx_ring_options_init.1).
  destruct (Hring depth Ring.idx_ring_options_init.2) as [r1 Hr1].
  { unfold depth. destruct (ok_queue _ Hcfg) as [->|Hq]; [right; by vm_compute|].
    destruct (Z.eqb_spec (queue_depth cfg) 0); cbn [negb]; [lia|by right]. }
  rewrite Hr1. destruct (Hring 4 true ltac:(right; by vm_compute)) as [r2 Hr2]. rewrite Hr2. cbn. by eexists.
Qed.

(** C30. Start-up.  Once the configuration is loaded and validated and the cursor opened,
    parsing the quote mints again cannot fail and gives the set the validation
    accepted, whatever the allocator does; with memory the pipeline opens exactly
    when there is a socket URL and the subscription's text fits, so a validated
    configuration without one stops there.  The command exits with success only for
    the usage text or a run that ended well. *)
Theorem main_start_exact env :
  (forall e, start (M:=M) env <> NoQuotes e) /\
  (forall cfg cur, accepted env cfg cur -> process_heap env = [] ->
     if bool_decide (wss_url cfg <> []) && (size (subscribe_text cfg) <? IDX_PIPELINE_PARAMS_MAX)
     then exists set p h, start env = Ready cfg cur (new_tally (M:=M) set) p h /\ set_ok set /\
            idx_quote_set_parse (Some (quote_mints cfg)) [] = (Ok tt, Some set, [])
     else exists e, start (M:=M) env = NoPipeline e) /\
  (forall ran, exit_of (start (M:=M) env) ran = EXIT_SUCCESS <->
     start (M:=M) env = Usage \/ (exists cfg cur t p h, start (M:=M) env = Ready cfg cur t p h) /\ ran = Ok tt).
Proof.
  split_and!.
  - intros e. unfold start. destruct (idx_config_load _ _ _) as [[[]|] cfg]; [|done]. destruct (help cfg); [done|].
    destruct (idx_config_validate cfg _) as [[]|] eqn:Ev; [|done].
    destruct (idx_slot_cursor_open _ _ _ _) as [[[]|] cur]; [|done]. unfold start_pipeline.
    destruct (validated_quotes cfg _ (process_heap env) Ev) as (set & -> & _).
    destruct (idx_pipeline_open _ _ _ _ _) as [[] h]; done.
  - intros cfg cur Ha Hh. rewrite (start_accepted env cfg cur Ha), Hh. unfold start_pipeline.
    pose proof (config_well_formed (argv env) (files env) (environment env)) as Hcfg.
    destruct Ha as (Hl & _ & Hv & _). rewrite Hl in Hcfg. cbn [snd] in Hcfg.
    destruct (validated_quotes cfg _ [] Hv) as (set & Hq & Hs). rewrite Hq.
    case_bool_decide as Hw; cbn [andb]; [destruct (Z.ltb_spec (size (subscribe_text cfg)) IDX_PIPELINE_PARAMS_MAX) as [Hp|Hp]|].
    + destruct (pipeline_opens idx_pipeline_options_init cfg cur Hcfg Hw Hp) as [p ->]. by exists set, p, [].
    + unfold idx_pipeline_open. cbn [negb]. destruct (streq _ _); [by eexists|]. cbn [malloc negb].
      unfold idx_config_block_subscribe_params. rewrite (proj2 (Z.leb_le IDX_PIPELINE_PARAMS_MAX _)) by done. by eexists.
    + unfold idx_pipeline_open. cbn [negb]. unfold streq. rewrite bool_decide_true by (by destruct (wss_url cfg)). by eexists.
  - intros ran. unfold exit_of. destruct (start env) as [| | | | | |cfg cur t p h]; split;
      try (intros [?|[(? & ? & ? & ? & ? & ?) _]]; done); try done; try (by left).
    + destruct ran as [[]|]; [|done]. intros _. right. split; [by exists cfg, cur, t, p, h|done].
    + by intros [?|[_ ->]].
Qed.

(** At exit every record of the three registries is freed once: whatever blocks were
    handled and whatever failed, the destructors pass over each pool and each token
    made, and each bar not freed before, exactly once. *)
Theorem main_frees_records set blocks h p :
  let '(_, t) := count_blocks (A:=A) blocks (new_tally (M:=M) set) h in
  let '(docs, pool_ptrs, token_ptrs, bar_ptrs) := tear_down p t in
  docs = idx_pipeline_close p /\
  pool_ptrs ≡ₚ map Some (seq 0 (length (pools (tally_pools t)))) /\
  token_ptrs ≡ₚ map Some (seq 0 (length (tokens (tally_tokens t)))) /\
  bar_ptrs ≡ₚ map Some (filter (fun b => b ∉ Bar.freed (tally_bars t)) (seq 0 (length (bars (tally_bars t))))).
Proof.
  pose proof (count_blocks_tallies set blocks (new_tally set) h [] eq_refl (new_tally_tallies set)) as Hc.
  destruct (count_blocks _ _ _) as [rs t]. destruct Hc as (fss & _ & _ & [Hp _ Ht _ Hb _ _ _]). unfold tear_down. split_and!; [done| | |].
  - apply (reg_values_all pool_key), Hp.
  - apply (reg_values_all token_key), Ht.
  - apply (reg_values record_key), Hb.
Qed.
End properties.

(** ** Witnesses *)

(** A start with both URLs on the command line and nothing else. *)
Definition first_start : process :=
  Process [lit "--rpc-url"; lit "http://rpc"; lit "--wss-url"; lit "ws://rpc"] (fun _ => None) (fun _ => None) ∅
    (ReadEnv true false) [] [].

Definition first_config : idx_config :=
  (idx_config_load (argv first_start) (files first_start) (environment first_start)).2.
Definition first_cursor : idx_slot_cursor :=
  (idx_slot_cursor_open ∅ (Some (state_file first_config)) (cfg_start_slot first_config) (ReadEnv true false)).2.

Lemma first_accepted : accepted first_start first_config first_cursor.
Proof. split_and!; vm_compute; reflexivity. Qed.

Lemma main_start_exact_witness :
  exists set p h, start first_start = Ready first_config first_cursor (new_tally (M:=Map.idx_map ptr) set) p h /\
    exit_of (start (M:=Map.idx_map ptr) first_start) (Ok tt) = EXIT_SUCCESS.
Proof.
  destruct (main_start_exact (M:=Map.idx_map ptr) first_start) as (_ & Hs & Hx).
  specialize (Hs first_config first_cursor first_accepted eq_refl).
  rewrite bool_decide_true in Hs by (by vm_compute). cbn [andb] in Hs.
  assert ((size (subscribe_text first_config) <? IDX_PIPELINE_PARAMS_MAX) = true) as Hp by (vm_compute; reflexivity).
  rewrite Hp in Hs. destruct Hs as (set & p & h & E & _ & _). exists set, p, h. split; [exact E|].
  apply Hx. right. split; [|done]. eauto 6.
Defined.

Lemma main_frees_records_witness :
  forall p,
  let '(_, t) := count_blocks [(paying_raw, page_arena)] (new_tally (M:=Map.idx_map ptr) []) [] in
  let '(_, _, token_ptrs, _) := tear_down p t in token_ptrs ≡ₚ [Some 0%nat].
Proof.
  intros p. pose proof (main_frees_records (M:=Map.idx_map ptr) [] [(paying_raw, page_arena)] [] p) as Hf.
  assert (length (tokens (tally_tokens (count_blocks [(paying_raw, page_arena)] (new_tally (M:=Map.idx_map ptr) []) []).2)) = 1%nat)
    as Hl by (vm_compute; reflexivity).
  destruct (count_blocks _ _ _) as [rs t]. cbn [snd] in Hl. rewrite Hl in Hf.
  destruct (tear_down p t) as [[[docs pools] toks] bs]. apply Hf.
Defined.
