(* ===== verification/Diagnostics.v ===== *)
(** * error.c and log.c: the error record and the log

    The rest of the development uses only the status an error carries; this file
    models the record itself, the process-wide level and sink, and the line a message
    becomes.  Formatting a message ([vsnprintf]) and the clock are arguments; the
    mutex only orders the writes. *)

From S2P Require Import Prelude Decimal Config.
#[local] Open Scope Z_scope.

(** ** error.c *)

(** src/src/error.c:7-35 [idx_status_str] *)
Definition idx_status_str (status : idx_status) : bytes :=
  match status with
  | IDX_OK => lit "ok"
  | IDX_ERR_INVALID_ARG => lit "invalid argument"
  | IDX_ERR_NO_MEMORY => lit "out of memory"
  | IDX_ERR_IO => lit "I/O error"
  | IDX_ERR_PARSE => lit "parse error"
  | IDX_ERR_NOT_FOUND => lit "not found"
  | IDX_ERR_RANGE => lit "value out of range"
  | IDX_ERR_INTERNAL => lit "internal error"
  | IDX_ERR_NETWORK => lit "network error"
  | IDX_ERR_TIMEOUT => lit "timed out"
  | IDX_ERR_CLOSED => lit "connection closed"
  | IDX_ERR_REMOTE => lit "remote error"
  end.

(** src/include/error.h:37-37 [IDX_ERROR_MSG_MAX] *)
Definition IDX_ERROR_MSG_MAX : Z := 256.

(** src/include/error.h:39-44 [idx_error] *)
Record idx_error := Error {
  err_status : idx_status;
  err_file : option bytes;
  err_line : Z;
  err_message : bytes
}.

(** src/src/error.c:37-45 [idx_error_clear] *)
Definition idx_error_clear (err : option idx_error) : option idx_error := (fun _ => Error IDX_OK None 0 []) <$> err.

(** src/src/error.c:47-71 [idx_error_setf]: given what the format expands to, [None] when
    that fails. *)
Definition idx_error_setf (err : option idx_error) (status : idx_status) (file : bytes) (line : Z)
    (formatted : option bytes) : idx_status * option idx_error :=
  let status := match status with IDX_OK => IDX_ERR_INTERNAL | s => s end in
  (status, (fun _ => Error status (Some file) line
     (printed IDX_ERROR_MSG_MAX (default (idx_status_str status) formatted))) <$> err).

(** ** log.c *)

(** src/src/log.c:11-12 [g_log_sink]: the sink, standard error until one is given, and
    [g_log_level]. *)
Record log_state (F : Type) := Log { g_log_sink : option F; g_log_level : idx_log_level }.
Arguments Log {F}.
Arguments g_log_sink {F}.
Arguments g_log_level {F}.

(** src/src/log.c:19-26 [idx_log_init] *)
Definition idx_log_init {F} (sink : option F) (level : idx_log_level) (s : log_state F) : log_state F :=
  Log (match sink with Some f => Some f | None => g_log_sink s end) level.

(** src/src/log.c:28-32 [idx_log_set_level] *)
Definition idx_log_set_level {F} (level : idx_log_level) (s : log_state F) : log_state F := Log (g_log_sink s) level.

(** src/src/log.c:34-39 [idx_log_get_level] *)
Definition idx_log_get_level {F} (s : log_state F) : idx_log_level := g_log_level s.

Definition level_number (l : idx_log_level) : Z :=
  match l with IDX_LOG_ERROR => 0 | IDX_LOG_WARN => 1 | IDX_LOG_INFO => 2 | IDX_LOG_DEBUG => 3 | IDX_LOG_TRACE => 4 end.

(** src/src/log.c:95-98 [basename_of] *)
Fixpoint basename_of (path : bytes) : bytes :=
  match path with
  | [] => []
  | c :: path' => if existsb (Z.eqb 47) path' then basename_of path' else if c =? 47 then path' else path
  end.

(** [%-5s] *)
Definition padded (l : bytes) : bytes := l ++ replicate (5 - length l) 32.

(** src/src/log.c:100-120 [idx_log_write]: the sink and the line, given the time stamp. *)
Definition idx_log_write {F} (stderr : F) (timestamp : bytes) (level : idx_log_level) (file : bytes) (line : Z)
    (formatted : option bytes) (s : log_state F) : F * bytes :=
  let message := printed 1024 (default (lit "<malformed log message>") formatted) in
  (default stderr (g_log_sink s),
   timestamp ++ [32] ++ padded (idx_log_level_name level) ++ [32] ++ basename_of file ++ [58] ++ dec line ++
   lit ": " ++ message ++ [10]).

(** src/include/log.h:44-49 [IDX_LOG] *)
Definition IDX_LOG {F} (stderr : F) (timestamp : bytes) (level : idx_log_level) (file : bytes) (line : Z)
    (formatted : option bytes) (s : log_state F) : list (F * bytes) :=
  if level_number level <=? level_number (idx_log_get_level s)
  then [idx_log_write stderr timestamp level file line formatted s] else [].

(** ** What they guarantee *)

Lemma status_str_inj s s' : idx_status_str s = idx_status_str s' -> s = s'.
Proof. destruct s, s'; try done; intros E; vm_compute in E; discriminate. Qed.

(** A failure never reports success, its message fits the record with the NUL, and a
    caller that passed no record gets the same status. *)
Theorem error_setf_reports err status file line formatted :
  let '(s, err') := idx_error_setf err status file line formatted in
  s <> IDX_OK /\ (status <> IDX_OK -> s = status) /\ s = (idx_error_setf None status file line formatted).1 /\
  (is_Some err -> exists e, err' = Some e /\ err_status e = s /\ size (err_message e) < IDX_ERROR_MSG_MAX /\
     (formatted = None -> err_message e = idx_status_str s)).
Proof.
  unfold idx_error_setf. split_and!; [by destruct status|by destruct status|done|].
  intros [e ->]. eexists. split; [reflexivity|]. split; [reflexivity|]. cbn [err_message]. split.
  - unfold printed, size. rewrite length_take. unfold IDX_ERROR_MSG_MAX. lia.
  - intros ->. by destruct status.
Qed.

(** The last component: what follows the last slash, which has none. *)
Theorem basename_exact path :
  (exists dir, path = dir ++ basename_of path /\ (dir = [] \/ last dir = Some 47)) /\ 47 ∉ basename_of path.
Proof.
  induction path as [|c path [(dir & Hd & Hl) Hn]]; cbn [basename_of].
  { split; [by exists []; auto|apply not_elem_of_nil]. }
  destruct (existsb (Z.eqb 47) path) eqn:E.
  - split; [|done]. exists (c :: dir). split; [cbn; by f_equal|]. right.
    destruct dir as [|d dir]; [|destruct Hl as [|Hl]; [done|exact Hl]].
    destruct Hn. apply existsb_exists in E as (x & Hx & Ex%Z.eqb_eq). subst x. cbn [app] in Hd. rewrite <- Hd. by apply list_elem_of_In.
  - assert (47 ∉ path) as Hp.
    { intros Hin. apply not_true_iff_false in E. apply E, existsb_exists. exists 47. split; [by apply list_elem_of_In|done]. }
    destruct (Z.eqb_spec c 47) as [->|Hc].
    + split; [|done]. exists [47]. split; [done|by right].
    + split; [by exists []; auto|]. by apply not_elem_of_cons.
Qed.

(** A message is written exactly when its level is at or above the threshold, to the
    sink installed last or else to standard error; raising the level keeps the sink. *)
Theorem log_threshold {F} (stderr : F) timestamp level file line formatted sink level' s :
  let s' := idx_log_set_level level' (idx_log_init sink level s) in
  IDX_LOG stderr timestamp level file line formatted s' =
    (if level_number level <=? level_number level'
     then [idx_log_write stderr timestamp level file line formatted s'] else []) /\
  (idx_log_write stderr timestamp level file line formatted s').1 =
    match sink with Some f => f | None => default stderr (g_log_sink s) end.
Proof. split; [done|]. by destruct sink. Qed.

Lemma error_setf_reports_witness :
  exists e, (idx_error_setf (Some (Error IDX_OK None 0 [])) IDX_OK (lit "a.c") 3 None).2 = Some e /\
    err_status e = IDX_ERR_INTERNAL /\ err_message e = lit "internal error".
Proof.
  pose proof (error_setf_reports (Some (Error IDX_OK None 0 [])) IDX_OK (lit "a.c") 3 None) as He.
  destruct (idx_error_setf _ _ _ _ _) as [s err'] eqn:Ef. destruct He as (_ & _ & Hs & Hr).
  destruct (Hr ltac:(by eexists)) as (e & -> & Hst & _ & Hm). exists e.
  cbn in Hs. subst s. rewrite (Hm eq_refl). done.
Defined.
