(* ===== verification/Ws.v ===== *)
(** * ws.c: the WebSocket client

    Every function of the file over libcurl's answers: a connection attempt is given how
    its calls go, a send or a receive the list of what [curl_ws_send] or [curl_ws_recv]
    return, each [CURLE_AGAIN] with what [poll] says and the time left.  A call that is
    still waiting when the list ends returns [None].  The guards on null pointers are
    excluded by the types. *)

From S2P Require Import Prelude Bytes.
#[local] Open Scope Z_scope.

(** src/src/ws.c:12-12 [IDX_WS_DEFAULT_CONNECT_TIMEOUT_MS] *)
Definition IDX_WS_DEFAULT_CONNECT_TIMEOUT_MS : Z := 15000.
(** src/src/ws.c:20-20 [IDX_WS_DEFAULT_MAX_MESSAGE] *)
Definition IDX_WS_DEFAULT_MAX_MESSAGE : Z := 64 * 1024 * 1024.
(** src/src/ws.c:21-21 [IDX_WS_DEFAULT_INITIAL_BUFFER] *)
Definition IDX_WS_DEFAULT_INITIAL_BUFFER : Z := 16 * 1024 * 1024.
(** src/src/ws.c:28-28 [IDX_WS_CHUNK] *)
Definition IDX_WS_CHUNK : Z := 512 * 1024.

(** src/include/ws.h:26-42 [idx_ws_options] *)
Record idx_ws_options := WsOptions {
  ws_url : option bytes;
  connect_timeout_ms : Z;
  max_message_bytes : Z;
  initial_buffer_bytes : Z;
  verify_tls : bool
}.

(** src/include/ws.h:47-53 [idx_ws_stats] *)
Record idx_ws_stats := WsStats {
  messages_received : Z;
  bytes_received : Z;
  fragments_received : Z;
  pings_received : Z;
  largest_message : Z
}.

(** src/src/ws.c:30-40 [idx_ws]: without the handle and the scratch of curl. *)
Record idx_ws := Ws {
  ws_message : idx_buffer;
  max_message : Z;
  ws_stats : idx_ws_stats;
  ws_closed : bool;
  message_delivered : bool
}.

(** src/src/ws.c:45-54 [idx_ws_options_init] *)
Definition idx_ws_options_init : idx_ws_options :=
  WsOptions None IDX_WS_DEFAULT_CONNECT_TIMEOUT_MS IDX_WS_DEFAULT_MAX_MESSAGE IDX_WS_DEFAULT_INITIAL_BUFFER true.

(** ** Connecting *)

(** How the calls of a connection attempt go. *)
Record connect_env := ConnectEnv { global_init_ok : bool; easy_init_ok : bool; perform_ok : bool }.

(** What a connection holds, and the options curl is given. *)
Inductive held := WsHandle | WsChunk | WsBuffer | CurlHandle.
Record curl_settings := CurlSettings { set_url : bytes; set_timeout : Z; set_verify_peer : Z; set_verify_host : Z }.
Inductive ws_action := Acquired (x : held) | Released (x : held) | Performed (s : curl_settings) | SentClose.

#[export] Instance held_eq_dec : EqDecision held.
Proof. solve_decision. Defined.

(** src/src/ws.c:62-74 [ensure_curl_global]: [initialized] is its static flag. *)
Definition ensure_curl_global (env : connect_env) (initialized : bool) : result unit * bool :=
  if initialized then (Ok tt, true)
  else if global_init_ok env then (Ok tt, true) else (IDX_FAIL IDX_ERR_INTERNAL, false).

(** src/src/ws.c:118-130 [idx_ws_connect]: the options set on the handle. *)
Definition settings_of (options : idx_ws_options) (url : bytes) : curl_settings :=
  CurlSettings url
    (if 0 <? connect_timeout_ms options then connect_timeout_ms options else IDX_WS_DEFAULT_CONNECT_TIMEOUT_MS)
    (if verify_tls options then 1 else 0) (if verify_tls options then 2 else 0).

(** src/src/ws.c:76-154 [idx_ws_connect] *)
Definition idx_ws_connect (options : idx_ws_options) (env : connect_env) (initialized : bool) (h : heap)
    : result idx_ws * list ws_action * bool * heap :=
  match ws_url options with
  | None => (IDX_FAIL IDX_ERR_INVALID_ARG, [], initialized, h)
  | Some url =>
      let '(global, initialized) := ensure_curl_global env initialized in
      match global with
      | Err e => (Err e, [], initialized, h)
      | Ok _ =>
          let '(ok, h) := malloc h in
          if negb ok then (IDX_FAIL IDX_ERR_NO_MEMORY, [], initialized, h)
          else
            let max := if 0 <? max_message_bytes options then max_message_bytes options else IDX_WS_DEFAULT_MAX_MESSAGE in
            let '(ok, h) := malloc h in
            if negb ok then (IDX_FAIL IDX_ERR_NO_MEMORY, [Acquired WsHandle; Released WsHandle], initialized, h)
            else
              let initial := if 0 <? initial_buffer_bytes options then initial_buffer_bytes options
                             else IDX_WS_DEFAULT_INITIAL_BUFFER in
              let '(reserved, buffer, h) := idx_buffer_reserve (Some idx_buffer_init) initial h in
              match reserved, buffer with
              | Ok _, Some buffer =>
                  let acquired := [Acquired WsHandle; Acquired WsChunk; Acquired WsBuffer] in
                  let freed := [Released WsBuffer; Released WsChunk; Released WsHandle] in
                  if negb (easy_init_ok env) then (IDX_FAIL IDX_ERR_INTERNAL, acquired ++ freed, initialized, h)
                  else
                    let acquired := acquired ++ [Acquired CurlHandle; Performed (settings_of options url)] in
                    if negb (perform_ok env)
                    then (IDX_FAIL IDX_ERR_NETWORK, acquired ++ [Released CurlHandle] ++ freed, initialized, h)
                    else (Ok (Ws buffer max (WsStats 0 0 0 0 0) false false), acquired, initialized, h)
              | _, _ =>
                  (Err IDX_ERR_NO_MEMORY,
                   [Acquired WsHandle; Acquired WsChunk; Released WsChunk; Released WsHandle], initialized, h)
              end
      end
  end.

(** src/src/ws.c:156-171 [idx_ws_close] *)
Definition idx_ws_close (ws : idx_ws) : list ws_action :=
  (if negb (ws_closed ws) then [SentClose] else []) ++
  [Released CurlHandle; Released WsBuffer; Released WsChunk; Released WsHandle].

(** ** Waiting *)

(** What [poll] on the socket answers. *)
Inductive polled := PollReady | PollTimedOut | PollInterrupted | PollFailed | NoSocket.

(** src/src/ws.c:206-238 [wait_ready] *)
Definition wait_ready (p : polled) : result unit :=
  match p with
  | NoSocket => IDX_FAIL IDX_ERR_NETWORK
  | PollInterrupted => Ok tt
  | PollFailed => IDX_FAIL IDX_ERR_NETWORK
  | PollTimedOut => Err IDX_ERR_TIMEOUT
  | PollReady => Ok tt
  end.

(** ** Sending *)

Inductive send_event := SendAgain (p : polled) | SendFailed | SendOk (sent : nat).

(** src/src/ws.c:181-202 [idx_ws_send_text]: the loop; with the pieces curl took and
    the answers left. *)
Fixpoint send_loop (events : list send_event) (text : bytes) (total : nat)
    : option (result unit * list bytes * list send_event) :=
  if negb (total <? length text)%nat then Some (Ok tt, [], events)
  else
    match events with
    | [] => None
    | SendAgain p :: events' =>
        match wait_ready p with
        | Err IDX_ERR_TIMEOUT => Some (IDX_FAIL IDX_ERR_TIMEOUT, [], events')
        | Err e => Some (Err e, [], events')
        | Ok _ => send_loop events' text total
        end
    | SendFailed :: events' => Some (IDX_FAIL IDX_ERR_NETWORK, [], events')
    | SendOk sent :: events' =>
        '(r, pieces, rest) ← send_loop events' text (total + sent);
        Some (r, take sent (drop total text) :: pieces, rest)
    end.

(** src/src/ws.c:173-203 [idx_ws_send_text] *)
Definition idx_ws_send_text (ws : idx_ws) (text : idx_slice) (events : list send_event)
    : option (result unit * list bytes * list send_event) :=
  if ws_closed ws then Some (IDX_FAIL IDX_ERR_CLOSED, [], events)
  else send_loop events (slice_bytes text) 0.

(** ** Receiving *)

(** A frame, or a piece of one, as [curl_ws_recv] hands it over. *)
Record ws_frame := Frame {
  is_close : bool;
  is_ping : bool;
  is_pong : bool;
  is_cont : bool;
  payload : bytes;
  bytesleft : Z
}.

(** What a [curl_ws_recv] answers; [remaining] is the time left to the deadline. *)
Inductive recv_event :=
  | RecvAgain (remaining : Z) (p : polled)
  | RecvGotNothing
  | RecvFailed
  | RecvNoMeta
  | RecvFrame (f : ws_frame).

Definition set_closed (ws : idx_ws) : idx_ws :=
  Ws (ws_message ws) (max_message ws) (ws_stats ws) true (message_delivered ws).

(** src/src/ws.c:321-331 [idx_ws_recv]: a payload joins the message. *)
Definition take_payload (ws : idx_ws) (data : bytes) (h : heap) : result unit * idx_ws * heap :=
  if size data =? 0 then (Ok tt, ws, h)
  else if max_message ws <? u64 (size (buf_data (ws_message ws)) + size data)
  then (IDX_FAIL IDX_ERR_RANGE, set_closed ws, h)
  else
    let '(r, b, h) := idx_buffer_append (Some (ws_message ws)) (Some data) (size data) h in
    match r with
    | Err e => (Err e, Ws (default (ws_message ws) b) (max_message ws) (ws_stats ws) (ws_closed ws) (message_delivered ws), h)
    | Ok _ =>
        let s := ws_stats ws in
        (Ok tt, Ws (default (ws_message ws) b) (max_message ws)
           (WsStats (messages_received s) (u64 (bytes_received s + size data)) (u64 (fragments_received s + 1))
              (pings_received s) (largest_message s)) (ws_closed ws) (message_delivered ws), h)
    end.

(** src/src/ws.c:338-343 [idx_ws_recv]: the message is complete. *)
Definition deliver (ws : idx_ws) : idx_ws :=
  let s := ws_stats ws in
  let len := size (buf_data (ws_message ws)) in
  Ws (ws_message ws) (max_message ws)
    (WsStats (u64 (messages_received s + 1)) (bytes_received s) (fragments_received s) (pings_received s)
       (if largest_message s <? len then len else largest_message s)) (ws_closed ws) true.

Definition count_ping (ws : idx_ws) : idx_ws :=
  let s := ws_stats ws in
  Ws (ws_message ws) (max_message ws)
    (WsStats (messages_received s) (bytes_received s) (fragments_received s) (u64 (pings_received s + 1)) (largest_message s))
    (ws_closed ws) (message_delivered ws).

(** src/src/ws.c:303-345 [idx_ws_recv]: a frame; [None] goes on. *)
Definition take_frame (ws : idx_ws) (f : ws_frame) (h : heap) : option (result idx_slice) * idx_ws * heap :=
  if is_close f then (Some (IDX_FAIL IDX_ERR_CLOSED), set_closed ws, h)
  else if is_ping f then (None, count_ping ws, h)
  else if is_pong f then (None, ws, h)
  else
    let '(r, ws, h) := take_payload ws (payload f) h in
    match r with
    | Err e => (Some (Err e), ws, h)
    | Ok _ =>
        if (bytesleft f =? 0) && negb (is_cont f)
        then (Some (Ok (idx_buffer_slice (Some (ws_message ws)))), deliver ws, h)
        else (None, ws, h)
    end.

(** src/src/ws.c:270-345 [idx_ws_recv]: one turn of the loop; [None] goes on. *)
Definition recv_turn (ws : idx_ws) (e : recv_event) (h : heap) : option (result idx_slice) * idx_ws * heap :=
  match e with
  | RecvAgain remaining p =>
      if remaining <=? 0 then (Some (Err IDX_ERR_TIMEOUT), ws, h)
      else
        match wait_ready p with
        | Err s => (Some (Err s), ws, h)
        | Ok _ => (None, ws, h)
        end
  | RecvGotNothing => (Some (IDX_FAIL IDX_ERR_CLOSED), set_closed ws, h)
  | RecvFailed => (Some (IDX_FAIL IDX_ERR_NETWORK), ws, h)
  | RecvNoMeta => (Some (IDX_FAIL IDX_ERR_INTERNAL), ws, h)
  | RecvFrame f => take_frame ws f h
  end.

(** src/src/ws.c:269-346 [idx_ws_recv]: the loop. *)
Fixpoint recv_loop (events : list recv_event) (ws : idx_ws) (h : heap)
    : option (result idx_slice * idx_ws * list recv_event * heap) :=
  match events with
  | [] => None
  | e :: events' =>
      match recv_turn ws e h with
      | (Some r, ws', h') => Some (r, ws', events', h')
      | (None, ws', h') => recv_loop events' ws' h'
      end
  end.

(** src/src/ws.c:246-347 [idx_ws_recv] *)
Definition idx_ws_recv (ws : idx_ws) (events : list recv_event) (h : heap)
    : option (result idx_slice * idx_ws * list recv_event * heap) :=
  if ws_closed ws then Some (IDX_FAIL IDX_ERR_CLOSED, ws, events, h)
  else
    recv_loop events
      (if message_delivered ws
       then Ws (default (ws_message ws) (idx_buffer_clear (Some (ws_message ws)))) (max_message ws) (ws_stats ws)
              (ws_closed ws) false
       else ws) h.

(** src/src/ws.c:349-354 [idx_ws_get_stats] *)
Definition idx_ws_get_stats (ws : idx_ws) : idx_ws_stats := ws_stats ws.

(** src/src/ws.c:356-358 [idx_ws_buffer_capacity] *)
Definition idx_ws_buffer_capacity (ws : option idx_ws) : Z :=
  match ws with Some ws => buf_capacity (ws_message ws) | None => 0 end.

(** Calls one after another on the same stream, until one is left waiting. *)
Fixpoint recvs (n : nat) (ws : idx_ws) (events : list recv_event) (h : heap)
    : option (list (result idx_slice) * idx_ws * list recv_event * heap) :=
  match n with
  | O => Some ([], ws, events, h)
  | S n' =>
      '(r, ws, events, h) ← idx_ws_recv ws events h;
      '(rs, ws, events, h) ← recvs n' ws events h;
      Some (r :: rs, ws, events, h)
  end.

(** ** What the peer sent *)

(** The data of an event and whether it ends a message; control frames have none. *)
Definition data_of (e : recv_event) : option (bytes * bool) :=
  match e with
  | RecvFrame f =>
      if is_close f || is_ping f || is_pong f then None
      else Some (payload f, (bytesleft f =? 0) && negb (is_cont f))
  | _ => None
  end.

(** The messages the data frames make up, after [partial], and what is left open. *)
Fixpoint messages (partial : bytes) (events : list recv_event) : list bytes * bytes :=
  match events with
  | [] => ([], partial)
  | e :: events' =>
      match data_of e with
      | None => messages partial events'
      | Some (d, false) => messages (partial ++ d) events'
      | Some (d, true) => let '(ms, p) := messages [] events' in ((partial ++ d) :: ms, p)
      end
  end.

Lemma messages_app p u1 u2 :
  messages p (u1 ++ u2) =
    ((messages p u1).1 ++ (messages (messages p u1).2 u2).1, (messages (messages p u1).2 u2).2).
Proof.
  revert p. induction u1 as [|e u1 IH]; intros p; cbn [messages app].
  { cbn [fst snd app]. by destruct (messages p u2). }
  destruct (data_of e) as [[d []]|]; [|apply IH|apply IH]. rewrite IH. by destruct (messages [] u1) as [ms p'].
Qed.

(** curl fills at most the chunk it is given. *)
Definition event_ok (e : recv_event) : Prop := match e with RecvFrame f => size (payload f) <= IDX_WS_CHUNK | _ => True end.

Definition total_size (l : list bytes) : Z := foldr (fun m n => size m + n) 0 l.
Definition largest (l : list bytes) : Z := foldl (fun n m => if n <? size m then size m else n) 0 l.

Lemma total_size_snoc l m : total_size (l ++ [m]) = total_size l + size m.
Proof. unfold total_size. induction l as [|x l IH]; cbn [foldr app]; lia. Qed.

Lemma ws_size_app {X} (a b : list X) : size (a ++ b) = size a + size b.
Proof. unfold size. rewrite length_app. lia. Qed.

(** The open connection has handed over [got] and holds [partial] of the next message. *)
Record holds (ws : idx_ws) (got : list bytes) (partial : bytes) : Prop := {
  holds_open : ws_closed ws = false;
  holds_partial : partial = if message_delivered ws then [] else buf_data (ws_message ws);
  holds_buffer : buffer_ok (ws_message ws);
  holds_max : size (buf_data (ws_message ws)) <= max_message ws;
  holds_room : max_message ws + IDX_WS_CHUNK < 2 ^ 64;
  holds_count : messages_received (ws_stats ws) = u64 (size got);
  holds_bytes : bytes_received (ws_stats ws) = u64 (total_size got + size partial);
  holds_largest : largest_message (ws_stats ws) = largest got
}.

Lemma size_nonneg {X} (l : list X) : 0 <= size l.
Proof. unfold size. lia. Qed.

Lemma take_payload_spec ws got partial d h :
  holds ws got partial -> message_delivered ws = false -> size d <= IDX_WS_CHUNK ->
  let '(r, ws', _) := take_payload ws d h in
  max_message ws' = max_message ws /\ message_delivered ws' = false /\
  match r with
  | Ok _ => holds ws' got (partial ++ d)
  | Err e => (e = IDX_ERR_RANGE /\ ws_closed ws' = true /\ max_message ws < size (partial ++ d)) \/
             (e = IDX_ERR_NO_MEMORY /\ holds ws' got partial)
  end.
Proof.
  intros [Ho Hp Hb Hm Hr Hc Hby Hl] Hd Hs. rewrite Hd in Hp. subst partial. unfold take_payload.
  destruct (Z.eqb_spec (size d) 0) as [E|E].
  { assert (d = []) as -> by (destruct d; [done|unfold size in E; simpl in E; lia]). rewrite app_nil_r.
    split_and!; [done|done|]. split; rewrite ?Hd; done. }
  pose proof (size_nonneg d). pose proof (size_nonneg (buf_data (ws_message ws))).
  rewrite u64_small by (unfold is_u64; lia).
  destruct (Z.ltb_spec (max_message ws) (size (buf_data (ws_message ws)) + size d)) as [Hlt|Hge].
  { split_and!; [done|done|]. left. rewrite ws_size_app. done. }
  pose proof (buffer_append_ok (ws_message ws) d h Hb) as Ha.
  destruct (idx_buffer_append _ _ _ _) as [[[[]|e] b'] h']; destruct Ha as (b1 & -> & Hb1 & Ha); cbn [default id].
  - destruct Ha as [Ha _]. split_and!; [done|done|]. split; cbn [ws_closed message_delivered ws_message max_message ws_stats
      messages_received bytes_received largest_message]; rewrite ?Hd, ?Ha, ?ws_size_app; try done.
    rewrite Hby, u64_add_l. f_equal. lia.
  - destruct Ha as [-> [[-> Hbig]|[-> _]]]; [unfold SIZE_MAX, IDX_WS_CHUNK in *; lia|]. split_and!; [done|done|]. right.
    split; [done|]. split; cbn [ws_closed message_delivered ws_message max_message ws_stats]; rewrite ?Hd; done.
Qed.

Lemma holds_deliver ws got m :
  holds ws got m -> message_delivered ws = false -> holds (deliver ws) (got ++ [m]) [].
Proof.
  intros [Ho Hp Hb Hm Hr Hc Hby Hl] Hd. rewrite Hd in Hp. subst m. split; try done.
  - cbn [deliver ws_stats messages_received]. rewrite Hc, u64_add_l, ws_size_app. done.
  - cbn [deliver ws_stats bytes_received]. rewrite Hby, total_size_snoc. f_equal. unfold size. cbn. lia.
  - cbn [deliver ws_stats largest_message]. unfold largest. rewrite foldl_app. cbn [foldl]. by rewrite Hl.
Qed.

Lemma slice_of_buffer b : buffer_ok b -> slice_bytes (idx_buffer_slice (Some b)) = buf_data b.
Proof.
  intros [Hb _]. unfold idx_buffer_slice, idx_slice_make. destruct (Z.eqb_spec (buf_capacity b) 0) as [E|E].
  - destruct (buf_data b); [|unfold size in Hb; simpl in Hb; lia]. done.
  - cbn. unfold size. by rewrite Nat2Z.id, firstn_all.
Qed.

(** One turn of the loop, on an open connection that waits for more. *)
Lemma recv_turn_spec ws got partial e h :
  holds ws got partial -> message_delivered ws = false -> event_ok e ->
  let '(r, ws', _) := recv_turn ws e h in
  max_message ws' = max_message ws /\
  match r with
  | None => exists p, messages partial [e] = ([], p) /\ holds ws' got p /\ message_delivered ws' = false
  | Some (Ok m) => messages partial [e] = ([slice_bytes m], []) /\ holds ws' (got ++ [slice_bytes m]) [] /\
      size (slice_bytes m) <= max_message ws
  | Some (Err IDX_ERR_TIMEOUT) => ws' = ws /\ messages partial [e] = ([], partial)
  | Some (Err IDX_ERR_CLOSED) | Some (Err IDX_ERR_RANGE) => ws_closed ws' = true
  | Some (Err s) => (s = IDX_ERR_NETWORK \/ s = IDX_ERR_INTERNAL \/ s = IDX_ERR_NO_MEMORY) /\ holds ws' got partial
  end.
Proof.
  intros Hh Hd He. destruct e as [remaining p| | | |f]; cbn [recv_turn messages data_of].
  - destruct (remaining <=? 0); [done|]. destruct p; cbn [wait_ready]; (split; [done|]); eauto 6.
  - done.
  - split; [done|]. cbn. auto.
  - split; [done|]. cbn. auto.
  - unfold take_frame. destruct (is_close f); cbn [orb]; [done|].
    destruct (is_ping f); cbn [orb].
    { split; [done|]. exists partial. split; [done|]. split; [|done]. by destruct Hh. }
    destruct (is_pong f); [split; [done|]; by exists partial|].
    pose proof (take_payload_spec ws got partial (payload f) h Hh Hd He) as Ht.
    destruct (take_payload ws (payload f) h) as [[[[]|s] ws1] h1]; destruct Ht as (Hm & Hd1 & Ht).
    + destruct ((bytesleft f =? 0) && negb (is_cont f)).
      * pose proof (holds_deliver _ _ _ Ht Hd1) as Hdel. pose proof (holds_partial _ _ _ Ht) as Hpart. rewrite Hd1 in Hpart.
        rewrite (slice_of_buffer _ (holds_buffer _ _ _ Ht)), <- Hpart. split; [done|]. split; [done|]. split; [done|].
        rewrite Hpart, <- Hm. apply Ht.
      * split; [done|]. by exists (partial ++ payload f).
    + split; [done|]. destruct Ht as [(-> & Hcl & _)|[-> Ht]]; [done|]. auto.
Qed.

Lemma recv_loop_spec events ws got partial h r ws' rest h' :
  recv_loop events ws h = Some (r, ws', rest, h') ->
  holds ws got partial -> message_delivered ws = false -> Forall event_ok events ->
  max_message ws' = max_message ws /\ exists used, events = used ++ rest /\
  match r with
  | Ok m => messages partial used = ([slice_bytes m], []) /\ holds ws' (got ++ [slice_bytes m]) [] /\
      size (slice_bytes m) <= max_message ws
  | Err IDX_ERR_TIMEOUT => exists p, messages partial used = ([], p) /\ holds ws' got p
  | Err IDX_ERR_CLOSED | Err IDX_ERR_RANGE => ws_closed ws' = true
  | Err s => (s = IDX_ERR_NETWORK \/ s = IDX_ERR_INTERNAL \/ s = IDX_ERR_NO_MEMORY) /\ exists p, holds ws' got p
  end.
Proof.
  revert ws partial h. induction events as [|e events IH]; intros ws partial h; cbn [recv_loop]; [done|].
  intros E Hh Hd [He Hes]%Forall_cons. pose proof (recv_turn_spec ws got partial e h Hh Hd He) as Ht.
  destruct (recv_turn ws e h) as [[[r1|] ws1] h1]; destruct Ht as [Hm Ht].
  - injection E as <- <- <- <-. split; [done|]. exists [e]. split; [done|].
    destruct r1 as [m|[]]; try (by destruct Ht as (? & ?); eauto); try done.
    destruct Ht as [-> Ht]. by exists partial.
  - destruct Ht as (p & Hp & Hh1 & Hd1). destruct (IH ws1 p h1 E Hh1 Hd1 Hes) as (Hm2 & used & -> & Hr).
    split; [congruence|]. exists (e :: used). split; [done|].
    assert (messages partial (e :: used) = messages p used) as Hmu.
    { change (e :: used) with ([e] ++ used). rewrite messages_app, Hp. cbn [fst snd app]. by destruct (messages p used). }
    rewrite Hmu, <- Hm. exact Hr.
Qed.

Lemma recv_spec ws events got partial h r ws' rest h' :
  idx_ws_recv ws events h = Some (r, ws', rest, h') -> holds ws got partial -> Forall event_ok events ->
  max_message ws' = max_message ws /\ exists used, events = used ++ rest /\
  match r with
  | Ok m => messages partial used = ([slice_bytes m], []) /\ holds ws' (got ++ [slice_bytes m]) [] /\
      size (slice_bytes m) <= max_message ws
  | Err IDX_ERR_TIMEOUT => exists p, messages partial used = ([], p) /\ holds ws' got p
  | Err IDX_ERR_CLOSED | Err IDX_ERR_RANGE => ws_closed ws' = true
  | Err s => (s = IDX_ERR_NETWORK \/ s = IDX_ERR_INTERNAL \/ s = IDX_ERR_NO_MEMORY) /\ exists p, holds ws' got p
  end.
Proof.
  intros E Hh He. unfold idx_ws_recv in E. rewrite (holds_open _ _ _ Hh) in E.
  destruct (message_delivered ws) eqn:Hd; [|by eapply recv_loop_spec].
  pose proof Hh as [Ho Hp Hb Hm Hr Hc Hby Hl]. rewrite Hd in Hp. subst partial.
  apply (recv_loop_spec _ _ got [] _ _ _ _ _) in E; [exact E| |done|done].
  cbn [idx_buffer_clear default id]. pose proof (size_nonneg (buf_data (ws_message ws))).
  split; cbn [ws_closed message_delivered ws_message max_message ws_stats]; try done.
  - unfold buffer_ok in *. change (size (buf_data (Buffer [] (buf_capacity (ws_message ws))))) with 0.
    change (buf_capacity (Buffer [] (buf_capacity (ws_message ws)))) with (buf_capacity (ws_message ws)). lia.
  - change (size (buf_data (Buffer [] (buf_capacity (ws_message ws))))) with 0. lia.
Qed.

(** The messages among the results of some calls. *)
Definition delivered_of (r : result idx_slice) : option bytes := match r with Ok m => Some (slice_bytes m) | Err _ => None end.

Definition ok_or_timeout (r : result idx_slice) : Prop := match r with Err s => s = IDX_ERR_TIMEOUT | Ok _ => True end.

Lemma recvs_spec n ws events got partial h rs ws' rest h' :
  recvs n ws events h = Some (rs, ws', rest, h') -> holds ws got partial -> Forall event_ok events ->
  Forall ok_or_timeout rs ->
  exists used p, events = used ++ rest /\ messages partial used = (omap delivered_of rs, p) /\
    holds ws' (got ++ omap delivered_of rs) p /\ max_message ws' = max_message ws /\
    Forall (fun m => size m <= max_message ws) (omap delivered_of rs).
Proof.
  revert ws events got partial h rs. induction n as [|n IH]; intros ws events got partial h rs; cbn [recvs].
  { intros [= <- <- <- <-] Hh _ _. exists [], partial. cbn. rewrite app_nil_r. auto. }
  destruct (idx_ws_recv ws events h) as [[[[r ws1] events1] h1]|] eqn:E1; [|done]. cbn [mbind option_bind].
  destruct (recvs n ws1 events1 h1) as [[[[rs1 ws2] events2] h2]|] eqn:E2; [|done]. cbn [mbind option_bind].
  intros [= <- <- <- <-] Hh He [Hr Hrs]%Forall_cons.
  destruct (recv_spec _ _ _ _ _ _ _ _ _ E1 Hh He) as (Hm & used & -> & Hres). apply Forall_app in He as [_ He].
  destruct r as [m|s].
  - destruct Hres as (Hmsg & Hh1 & Hsz).
    destruct (IH _ _ _ _ _ _ E2 Hh1 He Hrs) as (used2 & p & -> & Hmsg2 & Hh2 & Hm2 & Hf).
    exists (used ++ used2), p. rewrite messages_app, Hmsg. cbn [fst snd omap list_omap delivered_of app]. rewrite Hmsg2.
    split; [by rewrite app_assoc|]. split; [done|]. rewrite <- app_assoc in Hh2. split; [exact Hh2|]. rewrite Hm in *.
    split; [done|]. by constructor.
  - cbn in Hr. subst s. destruct Hres as (p1 & Hmsg & Hh1).
    destruct (IH _ _ _ _ _ _ E2 Hh1 He Hrs) as (used2 & p & -> & Hmsg2 & Hh2 & Hm2 & Hf).
    exists (used ++ used2), p. rewrite messages_app, Hmsg. cbn [fst snd omap list_omap delivered_of app]. rewrite Hmsg2.
    split; [by rewrite app_assoc|]. split; [done|]. split; [exact Hh2|]. rewrite Hm in *. done.
Qed.

Lemma connect_holds options env initialized h ws acts initialized' h' :
  idx_ws_connect options env initialized h = (Ok ws, acts, initialized', h') ->
  0 <= max_message_bytes options -> max_message_bytes options + IDX_WS_CHUNK < 2 ^ 64 ->
  holds ws [] [] /\ max_message ws = (if 0 <? max_message_bytes options then max_message_bytes options else IDX_WS_DEFAULT_MAX_MESSAGE).
Proof.
  intros E H0 Hmax. unfold idx_ws_connect in E. destruct (ws_url options); [|done].
  destruct (ensure_curl_global env initialized) as [[] i]; [|done].
  destruct (malloc h) as [[] h1]; [|done]. destruct (malloc h1) as [[] h2]; [|done]. cbn [negb] in E.
  set (initial := if 0 <? initial_buffer_bytes options then _ else _) in E.
  assert (0 < initial) as Hi by (unfold initial; destruct (Z.ltb_spec 0 (initial_buffer_bytes options)); [done|by vm_compute]).
  pose proof (buffer_reserve_spec idx_buffer_init initial h2 ltac:(split; by vm_compute) Hi) as Hr.
  destruct (idx_buffer_reserve _ _ _) as [[[[]|e] b] h3]; destruct Hr as (b1 & -> & Hd & Hb & _); [|done].
  destruct (easy_init_ok env); [|done]. destruct (perform_ok env); [|done]. cbn [negb] in E. injection E as <- _ _ _.
  cbn [idx_buffer_init buf_data] in Hd.
  assert (0 <= (if 0 <? max_message_bytes options then max_message_bytes options else IDX_WS_DEFAULT_MAX_MESSAGE) /\
          (if 0 <? max_message_bytes options then max_message_bytes options else IDX_WS_DEFAULT_MAX_MESSAGE) + IDX_WS_CHUNK < 2 ^ 64)
    as [Hm1 Hm2] by (destruct (0 <? max_message_bytes options); [lia|by vm_compute]).
  split; [|done]. split; cbn [ws_closed message_delivered ws_message max_message ws_stats]; rewrite ?Hd; done.
Qed.

(** ** Properties *)

(** C29. Receiving is reassembly.  On a connection just made, whatever way the peer cut its
    messages into frames and curl cut those into pieces, with control frames between
    them and any number of calls that timed out half way, the messages handed over are
    exactly those the data received makes up, in order and whole; none is longer than
    the limit; what is left of an unfinished one is kept; and the counters count the
    messages, their bytes and the largest. *)
Theorem ws_recv_exact options env initialized h ws acts initialized' h1 n events rs ws' rest h2 :
  idx_ws_connect options env initialized h = (Ok ws, acts, initialized', h1) ->
  0 <= max_message_bytes options -> max_message_bytes options + IDX_WS_CHUNK < 2 ^ 64 ->
  Forall event_ok events -> recvs n ws events h1 = Some (rs, ws', rest, h2) -> Forall ok_or_timeout rs ->
  exists used partial, events = used ++ rest /\ messages [] used = (omap delivered_of rs, partial) /\
    Forall (fun m => size m <= max_message ws) (omap delivered_of rs) /\
    partial = (if message_delivered ws' then [] else buf_data (ws_message ws')) /\
    idx_ws_get_stats ws' = WsStats (u64 (size (omap delivered_of rs)))
      (u64 (total_size (omap delivered_of rs) + size partial)) (fragments_received (ws_stats ws'))
      (pings_received (ws_stats ws')) (largest (omap delivered_of rs)).
Proof.
  intros Hc H0 Hmax He Hr Hok. destruct (connect_holds _ _ _ _ _ _ _ _ Hc H0 Hmax) as [Hh _].
  destruct (recvs_spec _ _ _ _ _ _ _ _ _ _ Hr Hh He Hok) as (used & p & -> & Hm & [Ho Hp Hb Hx Hro Hc' Hby Hl] & _ & Hf).
  cbn [app] in *. exists used, p. split; [done|]. split; [done|]. split; [done|]. split; [done|].
  unfold idx_ws_get_stats. destruct (ws_stats ws'). cbn in *. by subst.
Qed.

(** A closed connection stays closed: a call that reports [IDX_ERR_CLOSED] or
    [IDX_ERR_RANGE] has marked it, and from then on every receive and send answers
    [IDX_ERR_CLOSED] without asking curl.  Any other failure leaves it open. *)
Theorem ws_closed_final ws got partial events h r ws' rest h' text sends :
  holds ws got partial -> Forall event_ok events -> idx_ws_recv ws events h = Some (r, ws', rest, h') ->
  (ws_closed ws' = true <-> r = Err IDX_ERR_CLOSED \/ r = Err IDX_ERR_RANGE) /\
  (ws_closed ws' = true ->
     idx_ws_recv ws' rest h' = Some (Err IDX_ERR_CLOSED, ws', rest, h') /\
     idx_ws_send_text ws' text sends = Some (Err IDX_ERR_CLOSED, [], sends) /\ ~ SentClose ∈ idx_ws_close ws').
Proof.
  intros Hh He E. pose proof (recv_spec _ _ _ _ _ _ _ _ _ E Hh He) as (_ & used & _ & Hr). split.
  - destruct r as [m|s].
    + destruct Hr as (_ & Hh' & _). rewrite (holds_open _ _ _ Hh'). split; [done|by intros []].
    + destruct s; try (rewrite Hr; split; [auto|done]);
        try (destruct Hr as [[|[|]] _]; done);
        try (destruct Hr as [_ (p & Hh')]; rewrite (holds_open _ _ _ Hh'); split; [done|by intros []]).
      destruct Hr as (p & _ & Hh'). rewrite (holds_open _ _ _ Hh'). split; [done|by intros []].
  - intros Hc. unfold idx_ws_recv, idx_ws_send_text, idx_ws_close. rewrite Hc. split; [done|]. split; [done|].
    cbn [negb app]. intros Hin. repeat (apply elem_of_cons in Hin as [Hin|Hin]; [done|]). by apply not_elem_of_nil in Hin.
Qed.

(** A text that was sent went out whole and in order, whatever curl took at a time. *)
Theorem ws_send_exact ws text events pieces rest :
  idx_ws_send_text ws text events = Some (Ok tt, pieces, rest) -> concat pieces = slice_bytes text.
Proof.
  unfold idx_ws_send_text. destruct (ws_closed ws); [done|]. intros E.
  enough (forall total, send_loop events (slice_bytes text) total = Some (Ok tt, pieces, rest) ->
    concat pieces = drop total (slice_bytes text)) as Hl by (by apply (Hl 0%nat)). clear E.
  generalize (slice_bytes text) as l. intros l. revert pieces. induction events as [|e events IH]; intros pieces total; cbn [send_loop].
  - destruct (Nat.ltb_spec total (length l)) as [Hlt|Hge]; cbn [negb]; [done|]. intros [= <- _]. by rewrite drop_ge.
  - destruct (Nat.ltb_spec total (length l)) as [Hlt|Hge]; cbn [negb].
    + destruct e as [p| |sent].
      * destruct p; cbn [wait_ready]; try done; apply IH.
      * done.
      * destruct (send_loop events l (total + sent)) as [[[r ps] left_]|] eqn:E; [|done]. cbn [mbind option_bind].
        intros [= -> <- <-]. cbn [concat]. rewrite (IH _ _ E), <- drop_drop. apply take_drop.
    + intros [= <- _]. by rewrite drop_ge.
Qed.

(** What the actions acquire and release. *)
Definition still_held (acts : list ws_action) (x : held) : Z :=
  foldr (fun a n => n + (match a with
    | Acquired y => if bool_decide (x = y) then 1 else 0
    | Released y => if bool_decide (x = y) then -1 else 0
    | _ => 0 end)) 0 acts.

(** A connection attempt holds everything it made or, when it fails at any point,
    nothing; closing releases the rest.  A peer is verified unless the options say
    otherwise, and the default options do not. *)
Theorem ws_connect_releases options env initialized h :
  let '(r, acts, _, _) := idx_ws_connect options env initialized h in
  match r with
  | Ok ws => (forall x, still_held acts x = 1 /\ still_held (acts ++ idx_ws_close ws) x = 0) /\
      exists url, ws_url options = Some url /\ Performed (settings_of options url) ∈ acts
  | Err _ => forall x, still_held acts x = 0
  end /\
  (forall url, verify_tls options = true -> set_verify_peer (settings_of options url) = 1 /\ set_verify_host (settings_of options url) = 2) /\
  verify_tls idx_ws_options_init = true.
Proof.
  enough (let '(r, acts, _, _) := idx_ws_connect options env initialized h in
    match r with
    | Ok ws => (forall x, still_held acts x = 1 /\ still_held (acts ++ idx_ws_close ws) x = 0) /\
        exists url, ws_url options = Some url /\ Performed (settings_of options url) ∈ acts
    | Err _ => forall x, still_held acts x = 0
    end) as Hm.
  { destruct (idx_ws_connect _ _ _ _) as [[[r acts] i] h']. split; [exact Hm|]. split; [|done].
    intros url Hv. unfold settings_of. cbn. by rewrite Hv. }
  unfold idx_ws_connect. destruct (ws_url options) as [url|]; [|done].
  destruct (ensure_curl_global env initialized) as [[] i]; [|done].
  destruct (malloc h) as [[] h1]; [|done]. destruct (malloc h1) as [[] h2]; cbn [negb]; [|by intros []].
  destruct (idx_buffer_reserve _ _ _) as [[[|] [b|]] h3]; try by intros [].
  destruct (easy_init_ok env); cbn [negb]; [|by intros []]. destruct (perform_ok env); cbn [negb]; [|by intros []].
  split; [intros x; unfold idx_ws_close; cbn [ws_closed negb]; by destruct x|].
  exists url. split; [done|]. cbn [app]. do 4 (apply elem_of_cons; right). by apply elem_of_cons; left.
Qed.

(** ** Witnesses *)

Definition sample_options (initial : Z) : idx_ws_options := WsOptions (Some (lit "wss://node")) 0 0 initial true.
Definition good_env : connect_env := ConnectEnv true true true.

Definition data_frame (data : bytes) (bytes_left : Z) : recv_event := RecvFrame (Frame false false false false data bytes_left).

(** Two messages: one in two pieces with a ping and a time-out between, one empty; and
    the start of a third. *)
Definition sample_events : list recv_event :=
  [data_frame (lit "ab") 1; RecvFrame (Frame false true false false [] 0); RecvAgain 0 PollReady;
   RecvAgain 40 PollInterrupted; data_frame (lit "c") 0; data_frame [] 0; data_frame (lit "d") 3; RecvAgain 5 PollTimedOut].

Definition connected_ws (initial : Z) : idx_ws :=
  match idx_ws_connect (sample_options initial) good_env false [] with
  | (Ok ws, _, _, _) => ws
  | _ => Ws idx_buffer_init 0 (WsStats 0 0 0 0 0) true false
  end.

Definition received (n : nat) : list (result idx_slice) * idx_ws :=
  match recvs n (connected_ws 0) sample_events [] with
  | Some (rs, ws, _, _) => (rs, ws)
  | None => ([], connected_ws 0)
  end.

Lemma connected (initial : Z) :
  initial = 0 \/ initial = 1 ->
  exists acts, idx_ws_connect (sample_options initial) good_env false [] = (Ok (connected_ws initial), acts, true, []).
Proof. intros [-> | ->]; eexists; vm_compute; reflexivity. Qed.

Lemma ws_recv_exact_witness :
  omap delivered_of (received 4).1 = [lit "abc"; []] /\
  exists used partial, messages [] used = ([lit "abc"; []], partial) /\ partial = lit "d".
Proof.
  destruct (connected 0 (or_introl eq_refl)) as [acts Hc].
  assert (recvs 4 (connected_ws 0) sample_events [] = Some ((received 4).1, (received 4).2, [], [])) as Hr by (vm_compute; reflexivity).
  destruct (ws_recv_exact _ _ _ _ _ _ _ _ 4 sample_events (received 4).1 (received 4).2 [] [] Hc) as (used & p & _ & Hm & _ & Hp & _).
  - vm_compute. discriminate.
  - vm_compute. reflexivity.
  - unfold sample_events. repeat (apply List.Forall_cons; [vm_compute; (exact I || discriminate)|]). apply List.Forall_nil.
  - exact Hr.
  - assert ((received 4).1 = [Err IDX_ERR_TIMEOUT; Ok (Some (lit "abc")); Ok (Some []); Err IDX_ERR_TIMEOUT]) as -> by (vm_compute; reflexivity).
    repeat constructor.
  - split; [vm_compute; reflexivity|]. exists used, p. split; [rewrite Hm; vm_compute; reflexivity|].
    rewrite Hp. vm_compute. reflexivity.
Defined.

Lemma ws_closed_final_witness :
  exists ws, (idx_ws_recv (connected_ws 0) [RecvGotNothing] [] = Some (Err IDX_ERR_CLOSED, ws, [], [])) /\
    idx_ws_send_text ws (Some (lit "x")) [SendOk 1] = Some (Err IDX_ERR_CLOSED, [], [SendOk 1]).
Proof.
  eexists. split; [vm_compute; reflexivity|].
  destruct (connected 0 (or_introl eq_refl)) as [acts Hc].
  destruct (connect_holds _ _ _ _ _ _ _ _ Hc ltac:(vm_compute; discriminate) ltac:(vm_compute; reflexivity)) as [Hh _].
  destruct (ws_closed_final (connected_ws 0) [] [] [RecvGotNothing] [] (Err IDX_ERR_CLOSED) (set_closed (connected_ws 0)) [] []
    (Some (lit "x")) [SendOk 1] Hh) as (_ & Hf).
  - apply Forall_cons. split; [exact I|constructor].
  - vm_compute. reflexivity.
  - destruct Hf as (_ & Hs & _); [vm_compute; reflexivity|]. exact Hs.
Defined.

Lemma ws_send_exact_witness :
  exists pieces, idx_ws_send_text (connected_ws 0) (Some (lit "hello")) [SendOk 2; SendAgain PollReady; SendOk 3] = Some (Ok tt, pieces, [])
    /\ concat pieces = lit "hello".
Proof.
  eexists. split; [vm_compute; reflexivity|].
  apply (ws_send_exact (connected_ws 0) (Some (lit "hello")) [SendOk 2; SendAgain PollReady; SendOk 3] _ []). vm_compute. reflexivity.
Defined.

(** A piece the buffer had no memory for is gone, and the connection stays open: a caller
    that went on would be handed the message without it. *)
Lemma ws_memory_hole :
  let long := replicate 65 120 in
  exists ws, idx_ws_recv (connected_ws 1) [data_frame long 1; data_frame (lit "y") 0] [false] =
      Some (Err IDX_ERR_NO_MEMORY, ws, [data_frame (lit "y") 0], []) /\ ws_closed ws = false /\
    exists ws', idx_ws_recv ws [data_frame (lit "y") 0] [] = Some (Ok (Some (lit "y")), ws', [], []).
Proof. eexists. split; [vm_compute; reflexivity|]. split; [reflexivity|]. eexists. vm_compute. reflexivity. Qed.
