(* ===== verification/Pubsub.v ===== *)
(** * pubsub.c: subscriptions over the WebSocket

    Every function of the file.  An operation is a computation over the client and the
    answers of the world: the clock's readings, how connection attempts go, what curl
    answers to sends and receives, and the allocator; it returns [None] when it asks
    for more than the world has answered, that is, while it is still waiting.  Four
    fields of the world are history only, read by no operation: the texts given to the
    connection and the documents it has sent since it was made, and how many request
    ids and handles were ever used.  The parser yyjson is an argument.  Sleeping and
    null guards are not modelled. *)

From S2P Require Import Prelude Bytes Vec Json Decimal Ws.
#[local] Open Scope Z_scope.

(** src/src/pubsub.c:11-11 [IDX_PUBSUB_DEFAULT_BACKOFF_INITIAL_MS] *)
Definition IDX_PUBSUB_DEFAULT_BACKOFF_INITIAL_MS : Z := 500.
(** src/src/pubsub.c:12-12 [IDX_PUBSUB_DEFAULT_BACKOFF_MAX_MS] *)
Definition IDX_PUBSUB_DEFAULT_BACKOFF_MAX_MS : Z := 30000.
(** src/src/pubsub.c:13-13 [IDX_PUBSUB_DEFAULT_IDLE_TIMEOUT_MS] *)
Definition IDX_PUBSUB_DEFAULT_IDLE_TIMEOUT_MS : Z := 60000.

(** src/src/pubsub.c:15-23 [subscription] *)
Record subscription := Subscription {
  handle : Z;
  request_id : Z;
  server_id : Z;
  method : bytes;
  unsubscribe_method : option bytes;
  params : option bytes;
  confirmed : bool
}.

(** src/include/pubsub.h:29-45 [idx_pubsub_options] *)
Record idx_pubsub_options := PubsubOptions {
  po_url : option bytes;
  reconnect_initial_ms : Z;
  reconnect_max_ms : Z;
  idle_timeout_ms : Z;
  po_max_message_bytes : Z;
  po_verify_tls : bool
}.

(** src/include/pubsub.h:50-58 [idx_pubsub_stats] *)
Record idx_pubsub_stats := PubsubStats {
  reconnects : Z;
  notifications : Z;
  subscribe_failures : Z;
  unmatched : Z;
  connected : bool
}.

(** src/src/pubsub.c:25-40 [idx_pubsub] *)
Record idx_pubsub := Pubsub {
  ps_options : idx_pubsub_options;
  url : bytes;
  ps_ws : option idx_ws;
  subscriptions : idx_vec subscription;
  next_handle : Z;
  next_request_id : Z;
  backoff_ms : Z;
  last_message_ms : Z;
  ps_stats : idx_pubsub_stats;
  rng_state : Z
}.

(** src/include/pubsub.h:60-73 [idx_pubsub_message] *)
Record idx_pubsub_message := PubsubMessage { msg_subscription : Z; msg_result : idx_json_val; msg_raw : idx_slice }.

Definition sizeof_subscription : Z := 56.

(** src/src/pubsub.c:48-58 [idx_pubsub_options_init] *)
Definition idx_pubsub_options_init : idx_pubsub_options :=
  PubsubOptions None IDX_PUBSUB_DEFAULT_BACKOFF_INITIAL_MS IDX_PUBSUB_DEFAULT_BACKOFF_MAX_MS
    IDX_PUBSUB_DEFAULT_IDLE_TIMEOUT_MS 0 true.

(** ** Fields *)

Definition set_ws (ws : option idx_ws) (p : idx_pubsub) : idx_pubsub :=
  Pubsub (ps_options p) (url p) ws (subscriptions p) (next_handle p) (next_request_id p) (backoff_ms p)
    (last_message_ms p) (ps_stats p) (rng_state p).
Definition set_subscriptions (v : idx_vec subscription) (p : idx_pubsub) : idx_pubsub :=
  Pubsub (ps_options p) (url p) (ps_ws p) v (next_handle p) (next_request_id p) (backoff_ms p)
    (last_message_ms p) (ps_stats p) (rng_state p).
Definition set_next_request (n : Z) (p : idx_pubsub) : idx_pubsub :=
  Pubsub (ps_options p) (url p) (ps_ws p) (subscriptions p) (next_handle p) n (backoff_ms p)
    (last_message_ms p) (ps_stats p) (rng_state p).
Definition set_next_handle (n : Z) (p : idx_pubsub) : idx_pubsub :=
  Pubsub (ps_options p) (url p) (ps_ws p) (subscriptions p) n (next_request_id p) (backoff_ms p)
    (last_message_ms p) (ps_stats p) (rng_state p).
Definition set_backoff (n rng : Z) (p : idx_pubsub) : idx_pubsub :=
  Pubsub (ps_options p) (url p) (ps_ws p) (subscriptions p) (next_handle p) (next_request_id p) n
    (last_message_ms p) (ps_stats p) rng.
Definition set_last_message (n : Z) (p : idx_pubsub) : idx_pubsub :=
  Pubsub (ps_options p) (url p) (ps_ws p) (subscriptions p) (next_handle p) (next_request_id p) (backoff_ms p)
    n (ps_stats p) (rng_state p).
Definition set_stats (s : idx_pubsub_stats) (p : idx_pubsub) : idx_pubsub :=
  Pubsub (ps_options p) (url p) (ps_ws p) (subscriptions p) (next_handle p) (next_request_id p) (backoff_ms p)
    (last_message_ms p) s (rng_state p).

Definition set_connected (b : bool) (s : idx_pubsub_stats) : idx_pubsub_stats :=
  PubsubStats (reconnects s) (notifications s) (subscribe_failures s) (unmatched s) b.

Definition entries (p : idx_pubsub) : list subscription := vec_data (subscriptions p).
Definition set_entries (l : list subscription) (p : idx_pubsub) : idx_pubsub :=
  set_subscriptions (Vec l (vec_capacity (subscriptions p)) (elem_size (subscriptions p))) p.

(** src/src/pubsub.c:61-68 [next_random] *)
Definition next_random (x : Z) : Z :=
  let x := Z.lxor x (u32 (Z.shiftl x 13)) in
  let x := Z.lxor x (Z.shiftr x 17) in
  Z.lxor x (u32 (Z.shiftl x 5)).

(** src/src/pubsub.c:309-320 [next_backoff]: the delay and the client. *)
Definition next_backoff (p : idx_pubsub) : Z * idx_pubsub :=
  let current := backoff_ms p in
  let rng := next_random (rng_state p) in
  let jittered := rng mod u32 (current / 2 + 1) + current / 2 in
  (jittered,
   set_backoff (if backoff_ms p <? reconnect_max_ms (ps_options p) / 2 then backoff_ms p * 2
                else reconnect_max_ms (ps_options p)) rng p).

(** ** The world *)

Record world := World {
  ps : idx_pubsub;
  w_heap : heap;
  clock : list Z;
  connects : list (connect_env * bool);
  sends : list send_event;
  receives : list recv_event;
  outgoing : list bytes;
  heard : list json;
  asked : nat;
  made : nat
}.

Definition op (X : Type) : Type := world -> option (X * world).

#[local] Instance op_ret : MRet op := fun X x w => Some (x, w).
#[local] Instance op_bind : MBind op := fun X Y f m w =>
  match m w with Some (x, w') => f x w' | None => None end.

Definition the : op idx_pubsub := fun w => Some (ps w, w).

Definition with_ps (p : idx_pubsub) (w : world) : world :=
  World p (w_heap w) (clock w) (connects w) (sends w) (receives w) (outgoing w) (heard w) (asked w) (made w).

Definition update (f : idx_pubsub -> idx_pubsub) : op unit := fun w => Some (tt, with_ps (f (ps w)) w).

(** src/src/pubsub.c:42-46 [monotonic_ms] *)
Definition monotonic_ms : op Z := fun w =>
  match clock w with
  | [] => None
  | t :: l => Some (t, World (ps w) (w_heap w) l (connects w) (sends w) (receives w) (outgoing w) (heard w) (asked w) (made w))
  end.

(** How many readings of the clock are left. *)
Definition readings : op nat := fun w => Some (length (clock w), w).

(** A call of the allocator's client. *)
Definition on_heap {X} (f : heap -> X * heap) : op X := fun w =>
  let '(x, h) := f (w_heap w) in
  Some (x, World (ps w) h (clock w) (connects w) (sends w) (receives w) (outgoing w) (heard w) (asked w) (made w)).

(** [pubsub->next_request_id++] and [pubsub->next_handle++] *)
Definition take_request_id : op Z := fun w =>
  let id := next_request_id (ps w) in
  Some (id, World (set_next_request (u64 (id + 1)) (ps w)) (w_heap w) (clock w) (connects w) (sends w) (receives w)
              (outgoing w) (heard w) (S (asked w)) (made w)).
Definition take_handle : op Z := fun w =>
  let id := next_handle (ps w) in
  Some (id, World (set_next_handle (u64 (id + 1)) (ps w)) (w_heap w) (clock w) (connects w) (sends w) (receives w)
              (outgoing w) (heard w) (asked w) (S (made w))).

(** [idx_ws_send_text(pubsub->ws, text)] *)
Definition send_text (text : idx_slice) : op (result unit) := fun w =>
  match ps_ws (ps w) with
  | None => Some (IDX_FAIL IDX_ERR_INVALID_ARG, w)
  | Some ws =>
      '(r, _, rest) ← idx_ws_send_text ws text (sends w);
      Some (r, World (ps w) (w_heap w) (clock w) (connects w) rest (receives w) (outgoing w ++ [slice_bytes text]) (heard w)
                 (asked w) (made w))
  end.

(** [idx_ws_recv(pubsub->ws, remaining)] *)
Definition recv : op (result idx_slice) := fun w =>
  match ps_ws (ps w) with
  | None => Some (IDX_FAIL IDX_ERR_INVALID_ARG, w)
  | Some ws =>
      '(r, ws, rest, h) ← idx_ws_recv ws (receives w) (w_heap w);
      Some (r, World (set_ws (Some ws) (ps w)) h (clock w) (connects w) (sends w) rest (outgoing w) (heard w) (asked w) (made w))
  end.

(** The connection is new, or gone: its history starts again. *)
Definition new_history : op unit := fun w =>
  Some (tt, World (ps w) (w_heap w) (clock w) (connects w) (sends w) (receives w) [] [] (asked w) (made w)).
Definition hear (doc : json) : op unit := fun w =>
  Some (tt, World (ps w) (w_heap w) (clock w) (connects w) (sends w) (receives w) (outgoing w) (heard w ++ [doc]) (asked w) (made w)).

(** ** The registry *)

(** src/src/pubsub.c:84-105 [send_subscribe]: for the entry at [i]. *)
Definition send_subscribe (i : nat) : op (result unit) :=
  p ← the;
  match idx_vec_at (Some (subscriptions p)) i with
  | None => fun _ => None
  | Some e =>
      id ← take_request_id;
      _ ← update (fun p => set_entries (<[i := Subscription (handle e) id 0 (method e) (unsubscribe_method e) (params e) false]> (entries p)) p);
      '(status, request) ← on_heap (fun h =>
         let '(r, b, h) := idx_json_write_rpc_request id (Some (method e)) (params e) (Some idx_buffer_init) h in ((r, b), h));
      match status with
      | Err s => mret (Err s)
      | Ok _ => send_text (idx_buffer_slice request)
      end
  end.

Definition unconfirm (e : subscription) : subscription :=
  Subscription (handle e) (request_id e) 0 (method e) (unsubscribe_method e) (params e) false.

(** src/src/pubsub.c:107-119 [drop_connection] *)
Definition drop_connection : op unit :=
  _ ← update (fun p => set_entries (map unconfirm (entries p)) (set_stats (set_connected false (ps_stats p)) (set_ws None p)));
  new_history.

(** src/src/pubsub.c:136-146 [establish]: the loop over the registry, from entry [i] on. *)
Fixpoint resubscribe (n i : nat) : op (result unit) :=
  match n with
  | O => mret (Ok tt)
  | S n' =>
      r ← send_subscribe i;
      match r with
      | Err s => (_ ← drop_connection; mret (Err s))
      | Ok _ => resubscribe n' (S i)
      end
  end.

(** [idx_ws_connect(&ws_options, &pubsub->ws)] *)
Definition connect : op (result unit) := fun w =>
  match connects w with
  | [] => None
  | (env, initialized) :: l =>
      let p := ps w in
      let options := WsOptions (Some (url p)) IDX_WS_DEFAULT_CONNECT_TIMEOUT_MS
        (if 0 <? po_max_message_bytes (ps_options p) then po_max_message_bytes (ps_options p) else IDX_WS_DEFAULT_MAX_MESSAGE)
        IDX_WS_DEFAULT_INITIAL_BUFFER (po_verify_tls (ps_options p)) in
      let '(r, _, _, h) := idx_ws_connect options env initialized (w_heap w) in
      let p := match r with Ok ws => set_ws (Some ws) p | Err _ => p end in
      Some (_ ← r; Ok tt,
            World p h (clock w) l (sends w) (receives w) (outgoing w) (heard w) (asked w) (made w))
  end.

(** src/src/pubsub.c:121-147 [establish] *)
Definition establish : op (result unit) :=
  r ← connect;
  match r with
  | Err s => mret (Err s)
  | Ok _ =>
      _ ← new_history;
      t ← monotonic_ms;
      _ ← update (fun p => set_backoff (reconnect_initial_ms (ps_options p)) (rng_state p)
                             (set_last_message t (set_stats (set_connected true (ps_stats p)) p)));
      p ← the;
      resubscribe (length (entries p)) 0
  end.

(** src/src/pubsub.c:221-227 [idx_pubsub_subscribe]: the copies of the three texts. *)
Definition copy_texts (unsub prm : option bytes) (h : heap) : bool * heap :=
  let '(ok1, h) := malloc h in
  let '(ok2, h) := match prm with Some _ => malloc h | None => (true, h) end in
  let '(ok3, h) := match unsub with Some _ => malloc h | None => (true, h) end in
  (ok1 && ok2 && ok3, h).

Definition blank_subscription : subscription := Subscription 0 0 0 [] None None false.

(** src/src/pubsub.c:209-253 [idx_pubsub_subscribe] *)
Definition idx_pubsub_subscribe (mth : bytes) (unsub prm : option bytes) : op (result Z) :=
  hd ← take_handle;
  copied ← on_heap (copy_texts unsub prm);
  if negb copied then mret (IDX_FAIL IDX_ERR_NO_MEMORY)
  else
    p ← the;
    '(pushed, v) ← on_heap (fun h =>
       let '(r, v, h) := idx_vec_push blank_subscription (Some (subscriptions p))
                           (Some (Subscription hd 0 0 mth unsub prm false)) h in ((r, v), h));
    _ ← update (fun p => set_subscriptions (default (subscriptions p) v) p);
    match pushed with
    | Err s => mret (Err s)
    | Ok _ =>
        p ← the;
        _ ← (match ps_ws p with
             | None => mret tt
             | Some _ =>
                 r ← send_subscribe (length (entries p) - 1);
                 match r with Err _ => drop_connection | Ok _ => mret tt end
             end);
        mret (Ok hd)
    end.

(** The first entry of a predicate, with its place. *)
Fixpoint find_entry (f : subscription -> bool) (i : nat) (l : list subscription) : option (nat * subscription) :=
  match l with
  | [] => None
  | e :: l' => if f e then Some (i, e) else find_entry f (S i) l'
  end.

(** src/src/pubsub.c:274-291 [idx_pubsub_unsubscribe]: telling the server. *)
Definition send_unsubscribe (e : subscription) : op unit :=
  p ← the;
  match ps_ws p, unsubscribe_method e with
  | Some _, Some mth =>
      if confirmed e then
        id ← take_request_id;
        '(status, request) ← on_heap (fun h =>
           let '(r, b, h) := idx_json_write_rpc_request id (Some mth) (Some ([91] ++ dec (server_id e) ++ [93])) (Some idx_buffer_init) h in
           ((r, b), h));
        match status with
        | Ok _ => (_ ← send_text (idx_buffer_slice request); mret tt)
        | Err _ => mret tt
        end
      else mret tt
  | _, _ => mret tt
  end.

(** src/src/pubsub.c:294-300 [idx_pubsub_unsubscribe]: the last entry into the hole. *)
Definition remove_entry (i : nat) (l : list subscription) : list subscription :=
  let count := length l in
  take (count - 1) (if (i =? count - 1)%nat then l else <[i := default blank_subscription (l !! (count - 1)%nat)]> l).

(** src/src/pubsub.c:255-306 [idx_pubsub_unsubscribe] *)
Definition idx_pubsub_unsubscribe (hd : Z) : op (result unit) :=
  p ← the;
  match find_entry (fun e => handle e =? hd) 0 (entries p) with
  | None => mret (IDX_FAIL IDX_ERR_NOT_FOUND)
  | Some (i, e) =>
      _ ← send_unsubscribe e;
      _ ← update (fun p => set_entries (remove_entry i (entries p)) p);
      mret (Ok tt)
  end.

(** ** Messages *)

(** src/src/pubsub.c:329-337 [find_by_request] *)
Definition find_by_request (p : idx_pubsub) (id : Z) : option (nat * subscription) :=
  find_entry (fun e => negb (confirmed e) && (request_id e =? id)) 0 (entries p).

(** src/src/pubsub.c:339-347 [find_by_server_id] *)
Definition find_by_server_id (p : idx_pubsub) (id : Z) : option (nat * subscription) :=
  find_entry (fun e => confirmed e && (server_id e =? id)) 0 (entries p).

Definition count_failure (s : idx_pubsub_stats) : idx_pubsub_stats :=
  PubsubStats (reconnects s) (notifications s) (u64 (subscribe_failures s + 1)) (unmatched s) (connected s).
Definition count_unmatched (s : idx_pubsub_stats) : idx_pubsub_stats :=
  PubsubStats (reconnects s) (notifications s) (subscribe_failures s) (u64 (unmatched s + 1)) (connected s).
Definition count_notification (s : idx_pubsub_stats) : idx_pubsub_stats :=
  PubsubStats (reconnects s) (u64 (notifications s + 1)) (subscribe_failures s) (unmatched s) (connected s).
Definition count_reconnect (s : idx_pubsub_stats) : idx_pubsub_stats :=
  PubsubStats (u64 (reconnects s + 1)) (notifications s) (subscribe_failures s) (unmatched s) (connected s).

Definition confirm (sid : Z) (e : subscription) : subscription :=
  Subscription (handle e) (request_id e) sid (method e) (unsubscribe_method e) (params e) true.

(** An error object that is present and not null. *)
Definition has_error (root : idx_json_val) : bool :=
  let e := idx_json_get root (lit "error") in idx_json_is_present e && negb (idx_json_is_null e).

(** src/src/pubsub.c:363-391 [dispatch]: a response. *)
Definition on_response (root : idx_json_val) (id : Z) : op (result idx_pubsub_message) :=
  if has_error root then
    (_ ← update (fun p => set_stats (count_failure (ps_stats p)) p); mret (IDX_FAIL IDX_ERR_REMOTE))
  else
    p ← the;
    _ ← (match find_by_request p id, idx_json_opt_u64 root (lit "result") with
         | Some (i, e), Some sid => update (fun p => set_entries (<[i := confirm sid e]> (entries p)) p)
         | _, _ => mret tt
         end);
    mret (Err IDX_ERR_NOT_FOUND).

(** src/src/pubsub.c:394-416 [dispatch]: anything else. *)
Definition on_notification (root : idx_json_val) (raw : idx_slice) : op (result idx_pubsub_message) :=
  let prm := idx_json_get root (lit "params") in
  match idx_json_opt_u64 prm (lit "subscription") with
  | None => mret (Err IDX_ERR_NOT_FOUND)
  | Some sid =>
      p ← the;
      match find_by_server_id p sid with
      | None => (_ ← update (fun p => set_stats (count_unmatched (ps_stats p)) p); mret (Err IDX_ERR_NOT_FOUND))
      | Some (_, e) =>
          _ ← update (fun p => set_stats (count_notification (ps_stats p)) p);
          mret (Ok (PubsubMessage (handle e) (idx_json_get prm (lit "result")) raw))
      end
  end.

Section client.
Context (yyjson_read_opts : bytes -> option json).

(** src/src/pubsub.c:354-417 [dispatch] *)
Definition dispatch (raw : idx_slice) : op (result idx_pubsub_message) :=
  parsed ← on_heap (idx_json_parse yyjson_read_opts raw);
  match parsed with
  | Err s => mret (Err s)
  | Ok doc =>
      _ ← hear doc;
      match idx_json_opt_u64 (Some doc) (lit "id") with
      | Some id => on_response (Some doc) id
      | None => on_notification (Some doc) raw
      end
  end.

(** src/src/pubsub.c:435-454 [idx_pubsub_poll]: reconnecting; [Some] is the answer of the
    poll, [None] goes on. *)
Definition poll_disconnected (remaining : Z) : op (option (result idx_pubsub_message)) :=
  p ← the;
  let '(delay, p') := next_backoff p in
  _ ← update (fun _ => p');
  if remaining <? delay then mret (Some (Err IDX_ERR_TIMEOUT))
  else
    r ← establish;
    match r with
    | Err _ => mret None
    | Ok _ => (_ ← update (fun p => set_stats (count_reconnect (ps_stats p)) p); mret None)
    end.

(** src/src/pubsub.c:456-488 [idx_pubsub_poll]: receiving. *)
Definition poll_connected : op (option (result idx_pubsub_message)) :=
  status ← recv;
  match status with
  | Err IDX_ERR_TIMEOUT =>
      p ← the;
      let idle := idle_timeout_ms (ps_options p) in
      if idle <=? 0 then mret (Some (Err IDX_ERR_TIMEOUT))
      else
        t ← monotonic_ms;
        if idle <? t - last_message_ms p then (_ ← drop_connection; mret None)
        else mret (Some (Err IDX_ERR_TIMEOUT))
  | Err IDX_ERR_CLOSED | Err IDX_ERR_NETWORK => (_ ← drop_connection; mret None)
  | Err s => mret (Some (Err s))
  | Ok raw =>
      t ← monotonic_ms;
      _ ← update (set_last_message t);
      r ← dispatch raw;
      match r with
      | Ok m => mret (Some (Ok m))
      | Err IDX_ERR_REMOTE => mret (Some (Err IDX_ERR_REMOTE))
      | Err _ => mret None
      end
  end.

(** src/src/pubsub.c:429-489 [idx_pubsub_poll]: the loop; every turn reads the clock, so
    its readings bound the turns. *)
Fixpoint poll_loop (fuel : nat) (deadline : Z) : op (result idx_pubsub_message) :=
  match fuel with
  | O => fun _ => None
  | S fuel' =>
      t ← monotonic_ms;
      if deadline - t <=? 0 then mret (Err IDX_ERR_TIMEOUT)
      else
        p ← the;
        r ← (match ps_ws p with None => poll_disconnected (deadline - t) | Some _ => poll_connected end);
        match r with
        | Some r => mret r
        | None => poll_loop fuel' deadline
        end
  end.

(** src/src/pubsub.c:419-490 [idx_pubsub_poll] *)
Definition idx_pubsub_poll (timeout_ms : Z) : op (result idx_pubsub_message) :=
  t ← monotonic_ms;
  fuel ← readings;
  poll_loop (S fuel) (t + timeout_ms).
End client.

(** ** Opening and closing *)

(** src/src/pubsub.c:170-176 [idx_pubsub_open]: the options used. *)
Definition open_options (o : idx_pubsub_options) : idx_pubsub_options :=
  let initial := if reconnect_initial_ms o <=? 0 then IDX_PUBSUB_DEFAULT_BACKOFF_INITIAL_MS else reconnect_initial_ms o in
  PubsubOptions (po_url o) initial (if reconnect_max_ms o <? initial then initial else reconnect_max_ms o)
    (idle_timeout_ms o) (po_max_message_bytes o) (po_verify_tls o).

(** What the world answers to a client that is to be opened. *)
Definition first_world (p : idx_pubsub) (h : heap) (times : list Z) (links : list (connect_env * bool))
    (snd_ : list send_event) (rcv : list recv_event) : world := World p h times links snd_ rcv [] [] 0 0.

(** src/src/pubsub.c:149-194 [idx_pubsub_open] *)
Definition idx_pubsub_open (options : idx_pubsub_options) (h : heap) (times : list Z) (links : list (connect_env * bool))
    (snd_ : list send_event) (rcv : list recv_event) : option (result unit * world) :=
  let nothing h := first_world (Pubsub options [] None (idx_vec_init sizeof_subscription) 1 1 0 0 (PubsubStats 0 0 0 0 false) 0)
                     h times links snd_ rcv in
  match po_url options with
  | None => Some (IDX_FAIL IDX_ERR_INVALID_ARG, nothing h)
  | Some u =>
      let '(ok, h) := malloc h in
      if negb ok then Some (IDX_FAIL IDX_ERR_NO_MEMORY, nothing h)
      else
        let '(ok, h) := malloc h in
        if negb ok then Some (IDX_FAIL IDX_ERR_NO_MEMORY, nothing h)
        else
          match times with
          | [] => None
          | t :: times =>
              let o := open_options options in
              establish (first_world (Pubsub o u None (idx_vec_init sizeof_subscription) 1 1 (reconnect_initial_ms o) 0
                (PubsubStats 0 0 0 0 false) (Z.lor (u32 t) 1)) h times links snd_ rcv)
          end
  end.

(** src/src/pubsub.c:196-207 [idx_pubsub_close]: what is still connected and registered. *)
Definition idx_pubsub_close (p : idx_pubsub) : list ws_action * list subscription :=
  (match ps_ws p with Some ws => idx_ws_close ws | None => [] end, entries p).

(** src/src/pubsub.c:502-507 [idx_pubsub_get_stats] *)
Definition idx_pubsub_get_stats (p : idx_pubsub) : idx_pubsub_stats := ps_stats p.
