(* ===== verification/PubsubRun.v ===== *)
(** * The runs of a PubSub client

    The invariant of pubsub.c over any sequence of calls and any answers of the world,
    failures of memory included, and what it gives the caller: a notification handed
    over belongs to a subscription whose own request, sent on this connection, the
    server answered with the id the notification carries. *)

From S2P Require Import Prelude Bytes Vec Json Decimal Ws Pubsub.
#[local] Open Scope Z_scope.
#[local] Existing Instances op_ret op_bind.

(** ** Writing with any heap *)

(** Whatever the allocator does, a writer that succeeds has appended [l]. *)
Definition may_write (w : writer) (l : bytes) : Prop :=
  forall b h, buffer_ok b ->
    let '(r, b', _) := w (Some b) h in
    exists b1, b' = Some b1 /\ buffer_ok b1 /\ (r = Ok tt -> buf_data b1 = buf_data b ++ l).

Lemma may_lit l : may_write (append_lit l) l.
Proof.
  intros b h Hb. unfold append_lit. pose proof (buffer_append_ok b l h Hb) as Ha.
  destruct (idx_buffer_append _ _ _ _) as [[[[]|s] b'] h']; destruct Ha as (b1 & -> & Hb1 & Ha); exists b1.
  - by destruct Ha.
  - by split_and!.
Qed.

Lemma may_nil : may_write (fun b h => (Ok tt, b, h)) [].
Proof. intros b h Hb. exists b. by rewrite app_nil_r. Qed.

Lemma may_then w1 w2 l1 l2 : may_write w1 l1 -> may_write w2 l2 -> may_write (w1 +> w2) (l1 ++ l2).
Proof.
  intros H1 H2 b h Hb. unfold then_write. specialize (H1 b h Hb).
  destruct (w1 (Some b) h) as [[[[]|s] b'] h']; destruct H1 as (b1 & -> & Hb1 & Hd1); [|by exists b1; split_and!].
  specialize (H2 b1 h' Hb1). destruct (w2 (Some b1) h') as [[r b2'] h2]. destruct H2 as (b2 & -> & Hb2 & Hd2).
  exists b2. split; [done|]. split; [done|]. intros Hr. rewrite Hd2, Hd1 by done. by rewrite app_assoc.
Qed.

Lemma may_chars text : may_write (write_chars text) (text ≫= escape).
Proof.
  induction text as [|c text IH]; [apply may_nil|]. rewrite bind_cons. cbn [write_chars].
  apply may_then; [apply may_lit|exact IH].
Qed.

Lemma may_escaped text : may_write (idx_json_write_escaped text) (json_token (slice_bytes text)).
Proof.
  intros b h Hb. unfold idx_json_write_escaped, json_token.
  refine (may_then _ _ _ _ (may_lit _) (may_then _ _ _ _ (may_chars _) (may_lit _)) b h Hb).
Qed.

(** A C string. *)
Definition c_string (l : bytes) : Prop := Forall (fun c => c <> 0) l.

Lemma may_request id mth prm :
  is_u64 id -> c_string mth -> c_string (default [] prm) ->
  may_write (idx_json_write_rpc_request id (Some mth) prm) (request_text id mth prm).
Proof.
  intros Hid Hm Hp b h Hb. unfold idx_json_write_rpc_request. fold (request_prefix id).
  rewrite (proj2 (Z.leb_gt 64 (size (request_prefix id)))) by (pose proof (request_prefix_size id Hid); lia).
  rewrite slice_from_no_nul by done.
  match goal with |- context [?w (Some b) h] => assert (may_write w (request_text id mth prm)) as Hw end; [|by apply Hw].
  unfold request_text. apply may_then; [apply may_lit|]. apply may_then; [apply may_escaped|].
  apply may_then; [|apply may_lit]. destruct prm as [p|]; [|apply may_nil].
  unfold request_params. rewrite (strlen_no_nul p), take_ge by done.
  change ([44; 34] ++ lit "params" ++ [34; 58] ++ p) with (([44; 34] ++ lit "params" ++ [34; 58]) ++ p).
  apply may_then; apply may_lit.
Qed.

Lemma request_written id mth prm h :
  is_u64 id -> c_string mth -> c_string (default [] prm) ->
  let '(r, b, _) := idx_json_write_rpc_request id (Some mth) prm (Some idx_buffer_init) h in
  r = Ok tt -> slice_bytes (idx_buffer_slice b) = request_text id mth prm.
Proof.
  intros Hid Hm Hp. pose proof (may_request id mth prm Hid Hm Hp idx_buffer_init h ltac:(split; by vm_compute)) as Hw.
  destruct (idx_json_write_rpc_request _ _ _ _ _) as [[r b] h']. destruct Hw as (b1 & -> & Hb1 & Hd). intros Hr.
  rewrite slice_of_buffer by done. by rewrite Hd.
Qed.

(** ** The invariant *)

Definition text_ok (e : subscription) : Prop := c_string (method e) /\ c_string (default [] (params e)).

(** The ids have not run out. *)
Definition ids_left (n : nat) : Prop := Z.of_nat n < 2 ^ 64 - 1.

(** Connected or not: the handles are distinct, the delays in their bounds, the ids counted. *)
Record registered (p : idx_pubsub) (a m : nat) : Prop := {
  reg_requests : next_request_id p = u64 (1 + Z.of_nat a);
  reg_next_handle : next_handle p = u64 (1 + Z.of_nat m);
  reg_handles : ids_left m -> NoDup (map handle (entries p)) /\ Forall (fun e => 1 <= handle e <= Z.of_nat m) (entries p);
  reg_texts : Forall text_ok (entries p);
  reg_vec : vec_ok (subscriptions p);
  reg_backoff : reconnect_initial_ms (ps_options p) <= backoff_ms p <= reconnect_max_ms (ps_options p);
  reg_initial : 0 < reconnect_initial_ms (ps_options p) /\ reconnect_max_ms (ps_options p) < 2 ^ 31
}.

(** The request id and the server's id of a response that grants a subscription. *)
Definition answer_of (doc : json) : option (Z * Z) :=
  match idx_json_opt_u64 (Some doc) (lit "id") with
  | Some id => if has_error (Some doc) then None else pair id <$> idx_json_opt_u64 (Some doc) (lit "result")
  | None => None
  end.

(** The entry's request went out on this connection, and when it is confirmed the server
    answered it. *)
Definition entry_live (a : nat) (out : list bytes) (docs : list json) (e : subscription) : Prop :=
  1 <= request_id e <= Z.of_nat a /\ request_text (request_id e) (method e) (params e) ∈ out /\
  (confirmed e = true -> (request_id e, server_id e) ∈ omap answer_of docs).

Definition live (l : list subscription) (a : nat) (out : list bytes) (docs : list json) : Prop :=
  ids_left a -> NoDup (map request_id l) /\ Forall (entry_live a out docs) l.

Definition idle_entry (e : subscription) : Prop := confirmed e = false /\ server_id e = 0.

(** Between two calls. *)
Definition client_ok (w : world) : Prop :=
  registered (ps w) (asked w) (made w) /\
  match ps_ws (ps w) with
  | Some _ => connected (ps_stats (ps w)) = true /\ live (entries (ps w)) (asked w) (outgoing w) (heard w)
  | None => connected (ps_stats (ps w)) = false /\ Forall idle_entry (entries (ps w)) /\ outgoing w = [] /\ heard w = []
  end.

(** What an operation does to a world in [P]. *)
Definition runs {X} (m : op X) (P : world -> Prop) (Q : X -> world -> Prop) : Prop :=
  forall w, P w -> match m w with Some (x, w') => Q x w' | None => True end.

Lemma runs_ret {X} (x : X) (P : world -> Prop) (Q : X -> world -> Prop) : (forall w, P w -> Q x w) -> runs (op_ret _ x) P Q.
Proof. intros Hq w Hp. by apply Hq. Qed.

Lemma runs_bind {X Y} (m : op X) (f : X -> op Y) (P : world -> Prop) (Q : X -> world -> Prop) (R : Y -> world -> Prop) :
  runs m P Q -> (forall x, runs (f x) (Q x) R) -> runs (op_bind _ _ f m) P R.
Proof.
  intros Hm Hf w Hp. unfold op_bind. specialize (Hm w Hp). destruct (m w) as [[x w']|]; [|done]. by apply Hf.
Qed.

Lemma runs_impl {X} (m : op X) (P P' : world -> Prop) (Q Q' : X -> world -> Prop) :
  runs m P Q -> (forall w, P' w -> P w) -> (forall x w, Q x w -> Q' x w) -> runs m P' Q'.
Proof. intros Hm Hp Hq w Hw. specialize (Hm w (Hp w Hw)). destruct (m w) as [[x w']|]; [by apply Hq|done]. Qed.

Lemma runs_the (P : world -> Prop) : runs the P (fun p w => p = ps w /\ P w).
Proof. intros w Hw. done. Qed.

Lemma live_mono l a a' out out' docs docs' :
  live l a out docs -> (a <= a')%nat -> out ⊆ out' -> docs `prefix_of` docs' -> live l a' out' docs'.
Proof.
  intros Hl Ha Ho [ds ->] Hi. destruct (Hl ltac:(unfold ids_left in *; lia)) as [Hn Hf]. split; [done|].
  apply (Forall_impl _ _ _ Hf). intros e (H1 & H2 & H3). split; [lia|]. split; [by apply Ho|].
  intros Hc. rewrite omap_app. apply elem_of_app. left. by apply H3.
Qed.

(** What of an entry the caller gave. *)
Definition shape (e : subscription) : Z * bytes * option bytes := (handle e, method e, params e).

Lemma Forall_shape (P : subscription -> Prop) l l' :
  map shape l = map shape l' -> (forall e e', shape e = shape e' -> P e -> P e') -> Forall P l -> Forall P l'.
Proof.
  intros E HP. revert l' E. induction l as [|e l IH]; intros [|e' l'] E; try done.
  injection E as E1 E2 E3 E4. intros [H1 H2]%Forall_cons. apply Forall_cons. split; [|by apply IH].
  apply (HP e); [|done]. unfold shape. by rewrite E1, E2, E3.
Qed.

Lemma shape_handles l l' : map shape l = map shape l' -> map handle l = map handle l'.
Proof.
  revert l'. induction l as [|e l IH]; intros [|e' l'] E; try done. injection E as E1 _ _ E2. cbn. by rewrite E1, (IH l').
Qed.

Lemma registered_fields p p' a m :
  registered p a m -> next_request_id p' = next_request_id p -> next_handle p' = next_handle p ->
  map shape (entries p) = map shape (entries p') -> vec_capacity (subscriptions p') = vec_capacity (subscriptions p) ->
  elem_size (subscriptions p') = elem_size (subscriptions p) -> ps_options p' = ps_options p ->
  reconnect_initial_ms (ps_options p) <= backoff_ms p' <= reconnect_max_ms (ps_options p) -> registered p' a m.
Proof.
  intros [R1 R2 R3 R4 R5 R6 R7] E1 E2 E3 E6 E7 E8 Hb. split; rewrite ?E8; try congruence; try done.
  - intros Hm. destruct (R3 Hm) as [Hn Hf]. rewrite <- (shape_handles _ _ E3). split; [done|].
    apply (Forall_shape _ _ _ E3); [|exact Hf]. by intros e e' [= -> _ _].
  - apply (Forall_shape _ _ _ E3); [|exact R4]. unfold text_ok. by intros e e' [= _ -> ->].
  - destruct R5 as (V1 & V2 & V3). unfold vec_ok. rewrite E6, E7. split; [done|]. split; [|done].
    apply (f_equal length) in E3. rewrite !length_map in E3. unfold entries in E3. unfold size in *. by rewrite <- E3.
Qed.

(** ** The operations keep it *)

(** The part of the world after the loop over the registry has passed [n] entries. *)
Definition resent (n : nat) (w : world) : Prop :=
  registered (ps w) (asked w) (made w) /\ is_Some (ps_ws (ps w)) /\ connected (ps_stats (ps w)) = true /\
  live (take n (entries (ps w))) (asked w) (outgoing w) (heard w).

(** Only good for dropping. *)
Definition broken (w : world) : Prop := registered (ps w) (asked w) (made w).

Lemma registered_asked p a m :
  registered p a m -> registered (set_next_request (u64 (next_request_id p + 1)) p) (S a) m.
Proof.
  intros [R1 R2 R3 R4 R5 R6 R7]. split; try done. cbn [set_next_request next_request_id]. rewrite R1, u64_add_l.
  f_equal. lia.
Qed.

Lemma shape_insert i l e e' : l !! i = Some e -> shape e' = shape e -> map shape l = map shape (<[i := e']> l).
Proof.
  intros Hi He. apply list_eq. intros j. rewrite !list_lookup_fmap. destruct (decide (i = j)) as [<-|Hj].
  - rewrite Hi, list_lookup_insert_eq by (by eapply lookup_lt_Some). cbn. by rewrite He.
  - by rewrite list_lookup_insert_ne.
Qed.

Lemma registered_entries p a m l :
  registered p a m -> map shape (entries p) = map shape l -> registered (set_entries l p) a m.
Proof. intros Hr He. apply (registered_fields p); try done. apply Hr. Qed.

Lemma take_insert_last {X} i (l : list X) x : (i < length l)%nat -> take (S i) (<[i := x]> l) = take i l ++ [x].
Proof.
  intros Hi. rewrite (take_S_r _ _ x) by (by apply list_lookup_insert_eq). by rewrite take_insert_ge.
Qed.

Lemma live_extend l a out docs e :
  live l a out docs -> request_id e = u64 (1 + Z.of_nat a) -> confirmed e = false ->
  live (l ++ [e]) (S a) (out ++ [request_text (request_id e) (method e) (params e)]) docs.
Proof.
  intros Hl He Hc Hi. unfold ids_left in Hi. rewrite u64_small in He by (unfold is_u64; lia).
  destruct (live_mono l a (S a) out (out ++ [request_text (request_id e) (method e) (params e)]) docs docs Hl ltac:(lia)
    ltac:(set_solver) ltac:(done) Hi) as [_ Hf].
  destruct (Hl ltac:(unfold ids_left; lia)) as [Hn Hf0]. split.
  - rewrite map_app. apply NoDup_app. split; [done|]. split; [|apply NoDup_singleton].
    intros x Hx Hy. apply list_elem_of_singleton in Hy. subst x. apply list_elem_of_fmap in Hx as (e0 & E0 & H0).
    rewrite Forall_forall in Hf0. destruct (Hf0 e0 H0) as [Hb _]. lia.
  - apply Forall_app. split; [done|]. apply Forall_singleton. split; [lia|]. split; [set_solver|by rewrite Hc].
Qed.

Lemma send_subscribe_runs i :
  runs (send_subscribe i) (fun w => resent i w /\ (i < length (entries (ps w)))%nat)
    (fun r w => broken w /\ (r = Ok tt -> resent (S i) w /\ (i < length (entries (ps w)))%nat)).
Proof.
  intros w ((Hr & Hws & Hc & Hl) & Hi). destruct (lookup_lt_is_Some_2 _ _ Hi) as [e He].
  unfold send_subscribe, mbind, op_bind, the, idx_vec_at. fold (entries (ps w)).
  rewrite (proj2 (Nat.leb_gt _ _)) by exact Hi. rewrite He. unfold take_request_id, update, with_ps, on_heap, mret, op_ret.
  cbn [w_heap ps]. set (id := next_request_id (ps w)). set (e' := Subscription (handle e) id _ _ _ _ _).
  set (p1 := set_entries _ _).
  assert (registered p1 (S (asked w)) (made w)) as Hr1.
  { apply registered_entries; [by apply registered_asked|]. by apply (shape_insert _ _ e). }
  assert (text_ok e) as [Ht1 Ht2] by (eapply Forall_lookup_1; [apply Hr|exact He]).
  assert (is_u64 id) as Hid by (unfold id; rewrite (reg_requests _ _ _ Hr); apply u64_range).
  pose proof (request_written id (method e) (params e) (w_heap w) Hid Ht1 Ht2) as Hw.
  destruct (idx_json_write_rpc_request _ _ _ _ _) as [[[[]|s] b] h]; [|by split].
  specialize (Hw eq_refl). cbn [clock connects sends receives outgoing heard asked made]. unfold send_text.
  cbn [ps sends outgoing]. change (ps_ws p1) with (ps_ws (ps w)). destruct Hws as [ws Hws]. rewrite Hws.
  destruct (idx_ws_send_text _ _ _) as [[[r pieces] rest]|]; [|done]. cbn [mbind option_bind].
  split; [exact Hr1|]. intros ->. split; [|change (entries _) with (<[i := e']> (entries (ps w))); by rewrite length_insert].
  split; [exact Hr1|]. split; [by exists ws|]. split; [exact Hc|]. cbn [ps asked outgoing heard].
  change (entries p1) with (<[i := e']> (entries (ps w))). rewrite take_insert_last, Hw by done.
  change (request_text id (method e) (params e)) with (request_text (request_id e') (method e') (params e')).
  apply live_extend; [done| |done]. apply Hr.
Qed.

Lemma send_subscribe_length i w r w' :
  send_subscribe i w = Some (r, w') -> length (entries (ps w')) = length (entries (ps w)).
Proof.
  unfold send_subscribe, mbind, op_bind, the. destruct (idx_vec_at _ _) as [e|]; [|done].
  unfold take_request_id, update, with_ps, on_heap, mret, op_ret, send_text. cbn [w_heap ps].
  destruct (idx_json_write_rpc_request _ _ _ _ _) as [[[[]|s] b] h]; cbn [ps sends outgoing].
  - destruct (ps_ws _) as [ws|].
    + destruct (idx_ws_send_text _ _ _) as [[[r' pieces] rest]|]; [|done]. cbn [mbind option_bind]. intros [= _ <-].
      apply length_insert.
    + intros [= _ <-]. apply length_insert.
  - intros [= _ <-]. apply length_insert.
Qed.

Lemma drop_runs : runs drop_connection broken (fun _ w => client_ok w).
Proof.
  intros w Hb. unfold drop_connection, mbind, op_bind, update, with_ps, new_history. split.
  - apply (registered_fields (ps w)); try done; [|apply Hb].
    cbn [ps entries set_entries set_subscriptions subscriptions vec_data]. by rewrite map_map.
  - cbn [ps set_entries set_subscriptions set_stats set_ws ps_ws]. split_and!; [done| |done|done].
    cbn [entries subscriptions vec_data set_subscriptions]. apply Forall_forall. intros e He.
    apply list_elem_of_In, in_map_iff in He as (e0 & <- & _). done.
Qed.

Lemma resubscribe_runs n i :
  runs (resubscribe n i) (fun w => resent i w /\ (i + n = length (entries (ps w)))%nat) (fun _ w => client_ok w).
Proof.
  revert i. induction n as [|n IH]; intros i; cbn [resubscribe].
  { apply runs_ret. intros w [(Hr & [ws Hws] & Hc & Hl) Hi]. split; [done|]. rewrite Hws. split; [done|].
    by rewrite take_ge in Hl by lia. }
  assert (runs (send_subscribe i) (fun w => resent i w /\ (i + S n = length (entries (ps w)))%nat)
    (fun r w => broken w /\ (r = Ok tt -> resent (S i) w /\ (S i + n = length (entries (ps w)))%nat))) as Hs.
  { intros w [Hres Hi]. assert (i < length (entries (ps w)))%nat as Hlt by lia.
    pose proof (send_subscribe_runs i w (conj Hres Hlt)) as H.
    pose proof (fun r w' => send_subscribe_length i w r w') as Hlen.
    destruct (send_subscribe i w) as [[r w']|] eqn:E; [|done]. specialize (Hlen r w' eq_refl). destruct H as [H1 H2].
    split; [done|]. intros ->. split; [by apply H2|]. lia. }
  eapply runs_bind; [exact Hs|]. intros [[]|s]; cbn beta.
  - eapply runs_impl; [apply (IH (S i))| |done]. intros w [_ H]. by apply H.
  - eapply runs_bind; [eapply runs_impl; [apply drop_runs|by intros w [H _]|by intros x w H]|].
    intros []. by apply runs_ret.
Qed.

Definition disconnected (w : world) : Prop := client_ok w /\ ps_ws (ps w) = None.

Lemma establish_runs : runs establish disconnected (fun _ w => client_ok w).
Proof.
  intros w [[Hr Hs] Hws]. rewrite Hws in Hs. destruct Hs as (Hc & Hidle & Hout & Hheard).
  unfold establish, mbind, op_bind, connect. destruct (connects w) as [|[env initialized] links]; [done|].
  destruct (idx_ws_connect _ _ _ _) as [[[[ws|s] acts] i] h]; cbn [mbind IDX_TRY].
  2: { unfold mret, op_ret. split; [exact Hr|]. cbn [ps]. rewrite Hws. done. }
  unfold new_history, monotonic_ms. cbn [ps clock]. destruct (clock w) as [|t times]; [done|].
  unfold update, with_ps, the. cbn [ps]. set (p1 := set_backoff _ _ _).
  match goal with |- match resubscribe _ _ ?w0 with _ => _ end => pose proof (resubscribe_runs (length (entries p1)) 0 w0) as Hrun end.
  apply Hrun. split; [|done]. split; [|split; [by exists ws|]; split; [done|intros _; split; constructor]].
  cbn [ps asked made]. apply (registered_fields (ps w)); try done. cbn [p1 set_backoff backoff_ms].
  destruct (reg_backoff _ _ _ Hr), (reg_initial _ _ _ Hr). change (ps_options _) with (ps_options (ps w)). lia.
Qed.

(** ** Subscribing *)

Lemma registered_handle p a m : registered p a m -> registered (set_next_handle (u64 (next_handle p + 1)) p) a (S m).
Proof.
  intros [R1 R2 R3 R4 R5 R6 R7]. split; try done.
  - cbn [set_next_handle next_handle]. rewrite R2, u64_add_l. f_equal. lia.
  - intros Hm. destruct (R3 ltac:(unfold ids_left in *; lia)) as [Hn Hf]. split; [done|].
    apply (Forall_impl _ _ _ Hf). cbn beta. intros e He. lia.
Qed.

Lemma registered_push p a m v hd mth unsub prm :
  registered p a (S m) -> (ids_left m -> Forall (fun e => 1 <= handle e <= Z.of_nat m) (entries p)) ->
  hd = u64 (1 + Z.of_nat m) -> vec_ok v -> vec_data v = entries p ++ [Subscription hd 0 0 mth unsub prm false] ->
  c_string mth -> c_string (default [] prm) -> registered (set_subscriptions v p) a (S m).
Proof.
  intros [R1 R2 R3 R4 R5 R6 R7] Hold Hhd Hv Hd Hm Hp. split; try done.
  - intros Hi. change (entries (set_subscriptions v p)) with (vec_data v). rewrite Hd.
    assert (ids_left m) as Hi' by (unfold ids_left in *; lia). destruct (R3 Hi) as [Hn Hf]. specialize (Hold Hi').
    unfold ids_left in Hi'. rewrite u64_small in Hhd by (unfold is_u64; lia). split.
    + rewrite map_app. apply NoDup_app. split; [done|]. split; [|apply NoDup_singleton].
      intros x Hx Hy. apply list_elem_of_singleton in Hy. subst x. apply list_elem_of_fmap in Hx as (e & E & He).
      rewrite Forall_forall in Hold. specialize (Hold e He). cbn in E. lia.
    + apply Forall_app. split; [done|]. apply Forall_singleton. cbn. lia.
  - change (entries (set_subscriptions v p)) with (vec_data v). rewrite Hd. apply Forall_app. split; [done|].
    by apply Forall_singleton.
Qed.

Lemma subscribe_runs mth unsub prm :
  c_string mth -> c_string (default [] prm) -> runs (idx_pubsub_subscribe mth unsub prm) client_ok (fun _ w => client_ok w).
Proof.
  intros Hm Hp w [Hr Hs]. unfold idx_pubsub_subscribe, mbind, op_bind, take_handle, on_heap. cbn [w_heap].
  destruct (copy_texts unsub prm (w_heap w)) as [[] h1]; cbn [negb]; unfold mret, op_ret; cbn [ps].
  2: { split; [by apply registered_handle|exact Hs]. }
  unfold the. cbn [ps w_heap]. set (p1 := set_next_handle _ _).
  pose proof (registered_handle _ _ _ Hr) as Hr1. fold p1 in Hr1.
  pose proof (vec_push_ok blank_subscription (subscriptions p1) (Subscription (next_handle (ps w)) 0 0 mth unsub prm false) h1
    (reg_vec _ _ _ Hr1)) as Hv.
  destruct (idx_vec_push _ _ _ _) as [[[[]|s] v'] h2]; destruct Hv as (v & -> & Hv & Hd); unfold update, with_ps; cbn [ps default id].
  2: { destruct Hd as [-> _]. split; [|exact Hs]. cbn [ps asked made]. by destruct p1. }
  set (p2 := set_subscriptions v p1).
  assert (registered p2 (asked w) (S (made w))) as Hr2.
  { apply (registered_push p1 _ _ v (next_handle (ps w)) mth unsub prm); try done; [|apply Hr].
    intros Hi. apply (reg_handles _ _ _ Hr), Hi. }
  change (ps_ws p2) with (ps_ws (ps w)). destruct (ps_ws (ps w)) as [ws|] eqn:Ews.
  - destruct Hs as [Hc Hl]. cbn [clock connects sends receives outgoing heard asked made].
    match goal with |- context [send_subscribe _ ?w0] => set (w2 := w0) end.
    assert (resent (length (entries p2) - 1) w2 /\ (length (entries p2) - 1 < length (entries (ps w2)))%nat) as Hres.
    { assert (entries p2 = entries (ps w) ++ [Subscription (next_handle (ps w)) 0 0 mth unsub prm false]) as Hent by exact Hd.
      rewrite Hent, length_app. cbn [length]. rewrite Nat.add_sub. split; [|cbn [w2 ps]; rewrite Hent, length_app; cbn; lia].
      split; [exact Hr2|]. split; [by exists ws|]. split; [exact Hc|]. cbn [w2 ps asked outgoing heard].
      by rewrite Hent, take_app_length. }
    pose proof (send_subscribe_runs _ w2 Hres) as Hsend. pose proof (send_subscribe_length (length (entries p2) - 1) w2) as Hlen.
    destruct (send_subscribe _ w2) as [[[[]|s] w3]|]; [| |done].
    + destruct Hsend as [_ H]. destruct (H eq_refl) as [(H1 & [ws' H2] & H3 & H4) H5]. split; [exact H1|]. rewrite H2.
      split; [exact H3|]. specialize (Hlen _ _ eq_refl). change (ps w2) with p2 in Hlen. by rewrite take_ge in H4 by lia.
    + destruct Hsend as [H _]. pose proof (drop_runs w3 H) as Hd3. by destruct (drop_connection w3) as [[[] w4]|].
  - destruct Hs as (Hc & Hidle & Ho & Hh). split; [exact Hr2|]. cbn [ps outgoing heard].
    change (ps_ws p2) with (ps_ws (ps w)). rewrite Ews. split_and!; [done| |done|done].
    change (entries p2) with (vec_data v). rewrite Hd. apply Forall_app. split; [exact Hidle|]. by apply Forall_singleton.
Qed.

(** ** Unsubscribing *)

Lemma find_entry_spec f k l :
  match find_entry f k l with
  | Some (i, e) => exists j, i = (k + j)%nat /\ l !! j = Some e /\ f e = true
  | None => forall e, e ∈ l -> f e = false
  end.
Proof.
  revert k. induction l as [|e l IH]; intros k; cbn [find_entry]; [by intros e ?%not_elem_of_nil|].
  destruct (f e) eqn:E; [exists 0%nat; split; [lia|done]|]. specialize (IH (S k)).
  destruct (find_entry f (S k) l) as [[i e']|].
  - destruct IH as (j & -> & Hj & Hf). exists (S j). split; [lia|done].
  - intros e' [->|He]%elem_of_cons; [done|by apply IH].
Qed.

(** The rest of the entries, in some order. *)
Lemma remove_entry_perm i l : (i < length l)%nat -> remove_entry i l ≡ₚ delete i l.
Proof.
  intros Hi. unfold remove_entry. destruct l as [|x l] using rev_ind; [cbn in Hi; lia|]. clear IHl.
  rewrite length_app in *. cbn [length] in *. replace (length l + 1 - 1)%nat with (length l) by lia.
  destruct (Nat.eqb_spec i (length l)) as [->|Hne].
  - by rewrite take_app_length, delete_middle, app_nil_r.
  - rewrite lookup_app_r, Nat.sub_diag by lia. cbn [lookup list_lookup default]. rewrite insert_app_l by lia.
    rewrite take_app_le by (rewrite length_insert; lia). rewrite take_ge by (rewrite length_insert; lia).
    rewrite insert_take_drop by lia. rewrite (delete_take_drop (l ++ [x])).
    rewrite take_app_le, drop_app_le by lia. cbn [id]. apply Permutation_app_head.
    apply Permutation_cons_append.
Qed.

Lemma registered_without p a m e l :
  registered p a m -> entries p ≡ₚ e :: l -> registered (set_entries l p) a m.
Proof.
  intros [R1 R2 R3 R4 R5 R6 R7] Hl. split; try done; cbn [set_entries set_subscriptions entries subscriptions vec_data].
  - intros Hi. destruct (R3 Hi) as [Hn Hf]. rewrite (Permutation_map handle Hl) in Hn. rewrite Hl in Hf.
    apply NoDup_cons in Hn as [_ Hn]. apply Forall_cons in Hf as [_ Hf]. done.
  - rewrite Hl in R4. by apply Forall_cons in R4 as [_ R4].
  - destruct R5 as (V1 & V2 & V3). split; [done|]. split; [|done]. cbn [vec_data vec_capacity].
    apply Permutation_length in Hl. unfold entries, size in *. cbn [length] in Hl. lia.
Qed.

Lemma live_without l e l' a out docs : live l a out docs -> l ≡ₚ e :: l' -> live l' a out docs.
Proof.
  intros Hl E Hi. destruct (Hl Hi) as [Hn Hf]. rewrite (Permutation_map request_id E) in Hn. rewrite E in Hf.
  apply NoDup_cons in Hn as [_ Hn]. by apply Forall_cons in Hf as [_ Hf].
Qed.

Lemma send_unsubscribe_runs e w :
  client_ok w ->
  match send_unsubscribe e w with
  | Some (_, w') => client_ok w' /\ subscriptions (ps w') = subscriptions (ps w)
  | None => True
  end.
Proof.
  intros [Hr Hs]. unfold send_unsubscribe, mbind, op_bind, the.
  destruct (ps_ws (ps w)) as [ws|] eqn:Ews; [|by split; [split; [|rewrite Ews]|]].
  destruct (unsubscribe_method e) as [mth|]; [|by split; [split; [|rewrite Ews]|]].
  destruct (confirmed e); [|by split; [split; [|rewrite Ews]|]]. destruct Hs as [Hc Hl].
  unfold take_request_id, on_heap. cbn [ps w_heap].
  pose proof (registered_asked _ _ _ Hr) as Hr1. set (p1 := set_next_request _ _) in *.
  destruct (idx_json_write_rpc_request _ _ _ _ _) as [[[[]|s] b] h]; unfold mret, op_ret.
  - unfold send_text. cbn [ps sends outgoing]. change (ps_ws p1) with (ps_ws (ps w)). rewrite Ews.
    destruct (idx_ws_send_text _ _ _) as [[[r pieces] rest]|]; [|done]. cbn [mbind option_bind]. split; [|done].
    split; [exact Hr1|]. cbn [ps asked outgoing heard]. change (ps_ws p1) with (ps_ws (ps w)). rewrite Ews. split; [exact Hc|].
    eapply live_mono; [exact Hl|cbn [asked]; lia|cbn [outgoing]; set_solver|done].
  - split; [|done]. split; [exact Hr1|]. cbn [ps asked outgoing heard]. change (ps_ws p1) with (ps_ws (ps w)). rewrite Ews.
    split; [exact Hc|]. eapply live_mono; [exact Hl|cbn [asked]; lia|done|done].
Qed.

Lemma unsubscribe_runs hd : runs (idx_pubsub_unsubscribe hd) client_ok (fun _ w => client_ok w).
Proof.
  intros w Hw. unfold idx_pubsub_unsubscribe, mbind, op_bind, the.
  pose proof (find_entry_spec (fun e => handle e =? hd) 0 (entries (ps w))) as Hf.
  destruct (find_entry _ _ _) as [[i e]|]; [|exact Hw]. destruct Hf as (j & -> & Hj & _). cbn [Nat.add].
  pose proof (send_unsubscribe_runs e w Hw) as Hs. destruct (send_unsubscribe e w) as [[[] w1]|]; [|done].
  destruct Hs as [[Hr1 Hc1] Hsub]. unfold update, with_ps, mret, op_ret.
  assert (entries (ps w1) ≡ₚ e :: remove_entry j (entries (ps w1))) as Hp.
  { assert (entries (ps w1) !! j = Some e) as Hj1 by (unfold entries; by rewrite Hsub).
    rewrite remove_entry_perm by (by eapply lookup_lt_Some). by apply delete_Permutation. }
  split; [by eapply registered_without|]. cbn [ps set_entries set_subscriptions ps_ws].
  destruct (ps_ws (ps w1)).
  - destruct Hc1 as [Hc1 Hl1]. split; [exact Hc1|]. by eapply live_without.
  - destruct Hc1 as (Hc1 & Hi1 & Ho1 & Hh1). split_and!; [exact Hc1| |exact Ho1|exact Hh1].
    rewrite Hp in Hi1. by apply Forall_cons in Hi1 as [_ Hi1].
Qed.

(** ** Polling *)

(** The message is a notification of a subscription the server granted on this connection. *)
Definition routed (yyjson : bytes -> option json) (m : idx_pubsub_message) (w : world) : Prop :=
  exists doc e, last (heard w) = Some doc /\ yyjson (slice_bytes (msg_raw m)) = Some doc /\
    idx_json_opt_u64 (idx_json_get (Some doc) (lit "params")) (lit "subscription") = Some (server_id e) /\
    msg_result m = idx_json_get (idx_json_get (Some doc) (lit "params")) (lit "result") /\
    e ∈ entries (ps w) /\ handle e = msg_subscription m /\ confirmed e = true /\
    (ids_left (asked w) -> (request_id e, server_id e) ∈ omap answer_of (heard w) /\
       request_text (request_id e) (method e) (params e) ∈ outgoing w).

(** The client is connected. *)
Definition linked (w : world) : Prop := client_ok w /\ is_Some (ps_ws (ps w)).

Lemma client_ok_stats w s :
  client_ok w -> connected s = connected (ps_stats (ps w)) -> client_ok (with_ps (set_stats s (ps w)) w).
Proof.
  intros [Hr Hs] Hc. split; [by apply (registered_fields (ps w)); try done; apply Hr|].
  cbn [with_ps ps set_stats ps_ws ps_stats asked outgoing heard]. rewrite Hc. exact Hs.
Qed.

(** The client has just heard [doc]. *)
Definition after_hearing (doc : json) (w : world) : Prop := linked w /\ last (heard w) = Some doc.

Lemma requests_insert i l e e' : l !! i = Some e -> request_id e' = request_id e -> map request_id (<[i := e']> l) = map request_id l.
Proof.
  intros Hi He. apply list_eq. intros j. rewrite !list_lookup_fmap. destruct (decide (i = j)) as [<-|Hj].
  - rewrite Hi, list_lookup_insert_eq by (by eapply lookup_lt_Some). cbn. by rewrite He.
  - by rewrite list_lookup_insert_ne.
Qed.

Lemma on_response_runs doc id :
  idx_json_opt_u64 (Some doc) (lit "id") = Some id ->
  runs (on_response (Some doc) id) (after_hearing doc) (fun r w => linked w /\ exists s, r = Err s).
Proof.
  intros Hid w [[Hw Hws] Hlast]. unfold on_response. destruct (has_error (Some doc)) eqn:He; unfold mbind, op_bind, mret, op_ret.
  { unfold update. split; [|by eexists]. split; [by apply client_ok_stats|exact Hws]. }
  unfold the. pose proof (find_entry_spec (fun e => negb (confirmed e) && (request_id e =? id)) 0 (entries (ps w))) as Hf.
  unfold find_by_request. destruct (find_entry _ _ _) as [[i e]|]; [|split; [by split|by eexists]].
  destruct Hf as (j & -> & Hj & Hfe). cbn [Nat.add].
  destruct (idx_json_opt_u64 (Some doc) (lit "result")) as [sid|] eqn:Hsid; [|split; [by split|by eexists]].
  apply andb_true_iff in Hfe as [Hc Hid2%Z.eqb_eq]. subst id. unfold update. split; [|by eexists]. split; [|exact Hws].
  destruct Hw as [Hr Hs]. split.
  - apply registered_entries; [exact Hr|]. by apply (shape_insert _ _ e).
  - cbn [with_ps ps set_entries set_subscriptions ps_ws asked outgoing heard]. destruct (ps_ws (ps w)); [|by destruct Hws].
    destruct Hs as [Hcon Hl]. split; [exact Hcon|]. cbn [entries subscriptions vec_data].
    intros Hi. destruct (Hl Hi) as [Hn Hf]. split.
    + change (NoDup (map request_id (<[j:=confirm sid e]> (entries (ps w))))). by rewrite (requests_insert j _ e).
    + change (Forall (entry_live (asked w) (outgoing w) (heard w)) (<[j:=confirm sid e]> (entries (ps w)))).
      apply Forall_insert; [exact Hf|]. destruct (Forall_lookup_1 _ _ _ _ Hf Hj) as (H1 & H2 & _).
      split; [exact H1|]. split; [exact H2|]. intros _. apply list_elem_of_omap. exists doc. split.
      * rewrite last_lookup in Hlast. by eapply list_elem_of_lookup_2.
      * unfold answer_of. by rewrite Hid, He, Hsid.
Qed.

Lemma on_notification_runs yyjson doc raw :
  yyjson (slice_bytes raw) = Some doc ->
  runs (on_notification (Some doc) raw) (after_hearing doc)
    (fun r w => linked w /\ match r with Ok m => routed yyjson m w | Err _ => True end).
Proof.
  intros Hdoc w [[Hw Hws] Hlast]. unfold on_notification.
  destruct (idx_json_opt_u64 _ _) as [sid|] eqn:Hsid; unfold mbind, op_bind, mret, op_ret; [|by split].
  unfold the, find_by_server_id.
  pose proof (find_entry_spec (fun e => confirmed e && (server_id e =? sid)) 0 (entries (ps w))) as Hf.
  destruct (find_entry _ _ _) as [[i e]|].
  - destruct Hf as (j & -> & Hj & [Hc Hs2%Z.eqb_eq]%andb_true_iff). subst sid. unfold update. split.
    + split; [by apply client_ok_stats|exact Hws].
    + exists doc, e. cbn [with_ps heard ps asked outgoing msg_raw msg_result msg_subscription].
      split_and!; try done; [by eapply list_elem_of_lookup_2|]. intros Hi. destruct Hw as [_ Hs].
      destruct (ps_ws (ps w)); [|by destruct Hws]. destruct Hs as [_ Hl]. destruct (Hl Hi) as [_ Hfl].
      destruct (Forall_lookup_1 _ _ _ _ Hfl Hj) as (_ & H2 & H3). split; [by apply H3|done].
  - unfold update. split; [|done]. split; [by apply client_ok_stats|exact Hws].
Qed.

Lemma linked_heap w h : linked w -> linked (World (ps w) h (clock w) (connects w) (sends w) (receives w) (outgoing w) (heard w) (asked w) (made w)).
Proof. done. Qed.

Lemma linked_hears doc w : linked w -> match hear doc w with Some (_, w') => after_hearing doc w' | None => True end.
Proof.
  intros [[Hr Hs] Hws]. split; [split; [|exact Hws]; split; [exact Hr|]|by apply last_snoc].
  cbn [ps asked outgoing heard]. destruct (ps_ws (ps w)); [|by destruct Hws]. destruct Hs as [Hc Hl]. split; [exact Hc|].
  eapply live_mono; [exact Hl|done|done|by apply prefix_app_r].
Qed.

(** What a poll answers. *)
Definition answered (yyjson : bytes -> option json) (r : result idx_pubsub_message) (w : world) : Prop :=
  match r with
  | Ok m => routed yyjson m w
  | Err s => s <> IDX_ERR_CLOSED /\ s <> IDX_ERR_NETWORK
  end.

Lemma dispatch_runs yyjson raw :
  runs (dispatch yyjson raw) linked (fun r w => linked w /\ match r with Ok m => routed yyjson m w | Err _ => True end).
Proof.
  intros w Hw. unfold dispatch, mbind, op_bind, on_heap, idx_json_parse.
  destruct (yyjson (slice_bytes raw)) as [doc|] eqn:Hdoc; [|by split].
  destruct (malloc (w_heap w)) as [[] h]; [|by split]. cbn [mret op_ret].
  pose proof (linked_hears doc _ (linked_heap w h Hw)) as Hh.
  destruct (hear doc _) as [[[] w1]|]; [|done].
  destruct (idx_json_opt_u64 (Some doc) (lit "id")) as [id|] eqn:Hid.
  - pose proof (on_response_runs doc id Hid w1 Hh) as H. destruct (on_response _ _ w1) as [[r w2]|]; [|done].
    destruct H as [H [s ->]]. done.
  - exact (on_notification_runs yyjson doc raw Hdoc w1 Hh).
Qed.

Lemma recv_runs : runs recv linked (fun _ w => linked w).
Proof.
  intros w [[Hr Hs] [ws Hws]]. rewrite Hws in Hs. unfold recv. rewrite Hws.
  destruct (idx_ws_recv _ _ _) as [[[[r ws'] rest] h]|]; [|done]. cbn [mbind option_bind].
  split; [|by exists ws']. split; [|exact Hs]. by apply (registered_fields (ps w)); try done; apply Hr.
Qed.

Lemma linked_message t : runs (update (set_last_message t)) linked (fun _ w => linked w).
Proof.
  intros w [[Hr Hs] Hws]. split; [|exact Hws]. split; [|exact Hs].
  by apply (registered_fields (ps w)); try done; apply Hr.
Qed.

Lemma monotonic_runs (P : world -> Prop) :
  (forall w l, P w -> P (World (ps w) (w_heap w) l (connects w) (sends w) (receives w) (outgoing w) (heard w) (asked w) (made w))) ->
  runs monotonic_ms P (fun _ w => P w).
Proof. intros HP w Hw. unfold monotonic_ms. destruct (clock w) as [|t l]; [done|]. by apply HP. Qed.

(** What one turn of the polling loop leaves. *)
Definition turned (yyjson : bytes -> option json) (r : option (result idx_pubsub_message)) (w : world) : Prop :=
  client_ok w /\ match r with Some r => answered yyjson r w | None => True end.

Lemma dropped_runs yyjson : runs (_ ← drop_connection; mret None) linked (turned yyjson).
Proof.
  eapply runs_bind; [eapply runs_impl; [apply drop_runs|by intros w [[H _] _]|by intros x w H]|].
  intros []. by apply runs_ret.
Qed.

Lemma poll_connected_runs yyjson : runs (poll_connected yyjson) linked (turned yyjson).
Proof.
  assert (forall s, s <> IDX_ERR_CLOSED -> s <> IDX_ERR_NETWORK ->
    runs (mret (Some (Err s)) : op _) linked (turned yyjson)) as Herr.
  { intros s H1 H2. by apply runs_ret; intros w [H _]. }
  unfold poll_connected. eapply runs_bind; [apply recv_runs|]. intros [raw|s]; cbn beta.
  - eapply runs_bind; [by apply monotonic_runs|]. intros t. cbn beta. eapply runs_bind; [apply linked_message|]. intros []. cbn beta.
    eapply runs_bind; [apply dispatch_runs|]. intros [m|s]; cbn beta; [by apply runs_ret; intros w [[H _] Hm]|].
    destruct s; try (by apply runs_ret; intros w [[H _] _]).
  - destruct s; try (by apply Herr); try apply dropped_runs.
    eapply runs_bind; [apply runs_the|]. intros p. cbn beta. destruct (_ <=? 0).
    { by apply runs_ret; intros w (_ & H & _). }
    eapply runs_bind; [eapply runs_impl; [by apply (monotonic_runs linked)|by intros w [_ H]|by intros x w H]|].
    intros t. cbn beta. destruct (_ <? _); [apply dropped_runs|]. by apply Herr.
Qed.

(** ** Backing off *)

Lemma jittered_bounds p :
  1 <= backoff_ms p < 2 ^ 31 ->
  let '(delay, _) := next_backoff p in backoff_ms p / 2 <= delay <= backoff_ms p.
Proof.
  intros Hb. unfold next_backoff, u32. assert (2 * (backoff_ms p / 2) <= backoff_ms p /\ 0 <= backoff_ms p / 2) as [H1 H2].
  { split; [apply Z.mul_div_le; lia|apply Z.div_pos; lia]. }
  rewrite (Z.mod_small (backoff_ms p / 2 + 1)) by lia.
  pose proof (Z.mod_pos_bound (next_random (rng_state p)) (backoff_ms p / 2 + 1)). lia.
Qed.

Lemma next_backoff_registered p a m : registered p a m -> registered (next_backoff p).2 a m.
Proof.
  intros Hr. pose proof (reg_backoff _ _ _ Hr). pose proof (reg_initial _ _ _ Hr).
  apply (registered_fields p); try done. unfold next_backoff. cbn [snd set_backoff backoff_ms].
  pose proof (Z.mul_div_le (reconnect_max_ms (ps_options p)) 2).
  destruct (Z.ltb_spec (backoff_ms p) (reconnect_max_ms (ps_options p) / 2)); lia.
Qed.

Lemma poll_disconnected_runs yyjson remaining : runs (poll_disconnected remaining) disconnected (turned yyjson).
Proof.
  intros w [[Hr Hs] Hws]. unfold poll_disconnected, mbind, op_bind, the.
  pose proof (next_backoff_registered _ _ _ Hr) as Hr1.
  destruct (next_backoff (ps w)) as [delay p1] eqn:E. unfold update, with_ps.
  assert (ps_ws p1 = None /\ ps_stats p1 = ps_stats (ps w) /\ entries p1 = entries (ps w)) as (W1 & W2 & W3).
  { unfold next_backoff in E. injection E as _ <-. done. }
  set (w1 := World p1 (w_heap w) (clock w) (connects w) (sends w) (receives w) (outgoing w) (heard w) (asked w) (made w)).
  assert (disconnected w1) as Hw1.
  { split; [|exact W1]. split; [exact Hr1|]. cbn [w1 ps outgoing heard]. rewrite W1, W2, W3. by rewrite Hws in Hs. }
  destruct (remaining <? delay); [split; [apply Hw1|done]|]. cbn beta. change (World p1 _ _ _ _ _ _ _ _ _) with w1.
  pose proof (establish_runs w1 Hw1) as He. destruct (establish w1) as [[[[]|s] w2]|]; [| |done]; [|by split].
  cbn [mret op_ret]. split; [|done]. by apply client_ok_stats.
Qed.

Lemma poll_loop_runs yyjson fuel deadline :
  runs (poll_loop yyjson fuel deadline) client_ok (fun r w => client_ok w /\ answered yyjson r w).
Proof.
  induction fuel as [|fuel IH]; [done|]. cbn [poll_loop]. eapply runs_bind; [by apply monotonic_runs|]. intros t. cbn beta.
  destruct (_ <=? 0); [by apply runs_ret|]. eapply runs_bind; [apply runs_the|]. intros p. cbn beta.
  eapply (runs_bind _ _ _ (turned yyjson)).
  - destruct (ps_ws p) as [ws|] eqn:Ews.
    + eapply runs_impl; [apply poll_connected_runs| |done]. intros w [-> Hw]. split; [done|]. by exists ws.
    + eapply runs_impl; [apply poll_disconnected_runs| |done]. by intros w [-> Hw].
  - intros [r|]; [by apply runs_ret|]. eapply runs_impl; [exact IH| |done]. by intros w [H _].
Qed.

Lemma poll_runs yyjson timeout :
  runs (idx_pubsub_poll yyjson timeout) client_ok (fun r w => client_ok w /\ answered yyjson r w).
Proof.
  unfold idx_pubsub_poll. eapply runs_bind; [by apply monotonic_runs|]. intros t. cbn beta.
  eapply runs_bind; [|intros fuel; apply poll_loop_runs]. by intros w Hw.
Qed.

(** ** A client's life *)

(** A C [int]. *)
Definition is_int (z : Z) : Prop := - 2 ^ 31 <= z < 2 ^ 31.

Lemma open_options_bounds o :
  is_int (reconnect_initial_ms o) -> is_int (reconnect_max_ms o) ->
  0 < reconnect_initial_ms (open_options o) <= reconnect_max_ms (open_options o) /\ reconnect_max_ms (open_options o) < 2 ^ 31.
Proof.
  unfold is_int, open_options, IDX_PUBSUB_DEFAULT_BACKOFF_INITIAL_MS. cbn [reconnect_initial_ms reconnect_max_ms]. intros Hi Hm.
  destruct (Z.leb_spec (reconnect_initial_ms o) 0) as [H|H].
  - destruct (Z.ltb_spec (reconnect_max_ms o) 500); lia.
  - destruct (Z.ltb_spec (reconnect_max_ms o) (reconnect_initial_ms o)); lia.
Qed.

Lemma pubsub_open_ok options h times links snd_ rcv w :
  is_int (reconnect_initial_ms options) -> is_int (reconnect_max_ms options) ->
  idx_pubsub_open options h times links snd_ rcv = Some (Ok tt, w) -> client_ok w.
Proof.
  intros Hi Hm. destruct (open_options_bounds options Hi Hm) as [Hb1 Hb2]. unfold idx_pubsub_open. destruct (po_url options) as [u|]; [|done].
  destruct (malloc h) as [[] h1]; [|done]. cbn [negb]. destruct (malloc h1) as [[] h2]; [|done]. cbn [negb].
  destruct times as [|t times]; [done|]. set (w0 := first_world _ _ _ _ _ _).
  assert (disconnected w0) as Hw0.
  { split; [|done]. split.
    - split; cbn [w0 first_world ps asked made next_request_id next_handle ps_options backoff_ms]; try done.
      + intros _. split; constructor.
      + split; [apply Z.le_refl|exact (proj2 Hb1)].
      + split; [exact (proj1 Hb1)|exact Hb2].
    - by split_and!. }
  intros Ho. pose proof (establish_runs w0 Hw0) as He. by rewrite Ho in He.
Qed.

(** What a caller may do with an open client; the texts of a subscription are C strings. *)
Inductive call :=
  | Subscribe (mth : bytes) (unsub prm : option bytes)
  | Unsubscribe (hd : Z)
  | Poll (timeout_ms : Z).

Definition call_ok (c : call) : Prop :=
  match c with Subscribe mth _ prm => c_string mth /\ c_string (default [] prm) | _ => True end.

Inductive reply := Subscribed (r : result Z) | Unsubscribed (r : result unit) | Polled (r : result idx_pubsub_message).

Definition perform (yyjson : bytes -> option json) (c : call) : op reply :=
  match c with
  | Subscribe mth unsub prm => (r ← idx_pubsub_subscribe mth unsub prm; mret (Subscribed r))
  | Unsubscribe hd => (r ← idx_pubsub_unsubscribe hd; mret (Unsubscribed r))
  | Poll timeout => (r ← idx_pubsub_poll yyjson timeout; mret (Polled r))
  end.

Fixpoint perform_all (yyjson : bytes -> option json) (l : list call) : op (list reply) :=
  match l with
  | [] => mret []
  | c :: l' => (r ← perform yyjson c; rs ← perform_all yyjson l'; mret (r :: rs))
  end.

Lemma perform_runs yyjson c :
  call_ok c ->
  runs (perform yyjson c) client_ok
    (fun r w => client_ok w /\ match r with Polled r => answered yyjson r w | _ => True end).
Proof.
  intros Hc. destruct c as [mth unsub prm|hd|timeout]; cbn [perform].
  - destruct Hc as [H1 H2]. eapply runs_bind; [by apply subscribe_runs|]. intros r. by apply runs_ret.
  - eapply runs_bind; [by apply unsubscribe_runs|]. intros r. by apply runs_ret.
  - eapply runs_bind; [by apply poll_runs|]. intros r. by apply runs_ret.
Qed.

Lemma perform_all_runs yyjson l : Forall call_ok l -> runs (perform_all yyjson l) client_ok (fun _ w => client_ok w).
Proof.
  induction 1 as [|c l Hc Hl IH]; cbn [perform_all]; [by apply runs_ret|].
  eapply runs_bind; [by apply perform_runs|]. intros r. cbn beta.
  eapply runs_bind; [eapply runs_impl; [exact IH|by intros w [H _]|done]|]. intros rs. by apply runs_ret.
Qed.

(** C4. Whatever the network, the server and the allocator do, and whatever the caller has
    asked before: a client that is connected has told this connection of every subscription
    it holds, under request ids of their own, and one it counts as confirmed was granted in
    an answer of this connection; a client that is not connected counts none as confirmed.
    The handles stay distinct.  And when the next poll hands over a message, it is the
    document last heard, carrying the server's id of the subscription it is reported for,
    which the server gave in answer to that subscription's own request on the same
    connection; a lost connection is never what the poll answers. *)
Theorem pubsub_history yyjson options h times links snd_ rcv w0 calls replies w timeout r w' :
  is_int (reconnect_initial_ms options) -> is_int (reconnect_max_ms options) ->
  idx_pubsub_open options h times links snd_ rcv = Some (Ok tt, w0) ->
  Forall call_ok calls -> perform_all yyjson calls w0 = Some (replies, w) ->
  idx_pubsub_poll yyjson timeout w = Some (r, w') ->
  client_ok w /\ client_ok w' /\
  match r with
  | Ok m => routed yyjson m w'
  | Err s => s <> IDX_ERR_CLOSED /\ s <> IDX_ERR_NETWORK
  end.
Proof.
  intros Hi Hm Ho Hc Hp Hpoll. pose proof (pubsub_open_ok _ _ _ _ _ _ _ Hi Hm Ho) as H0.
  pose proof (perform_all_runs yyjson calls Hc w0 H0) as H1. rewrite Hp in H1. split; [exact H1|].
  pose proof (poll_runs yyjson timeout w H1) as H2. by rewrite Hpoll in H2.
Qed.

(** [n] attempts in a row. *)
Definition attempts (n : nat) (p : idx_pubsub) : idx_pubsub := Nat.iter n (fun p => (next_backoff p).2) p.

Lemma attempts_registered n p a m : registered p a m -> registered (attempts n p) a m /\ ps_options (attempts n p) = ps_options p.
Proof.
  intros Hr. induction n as [|n [IH1 IH2]]; [done|]. cbn [attempts Nat.iter]. split; [by apply next_backoff_registered|].
  rewrite <- IH2. done.
Qed.

Lemma attempts_grow n p a m :
  registered p a m -> Z.min (backoff_ms p * 2 ^ Z.of_nat n) (reconnect_max_ms (ps_options p)) <= backoff_ms (attempts n p).
Proof.
  intros Hr. induction n as [|n IH]; [cbn; lia|]. destruct (attempts_registered n p a m Hr) as [Hn Ho].
  pose proof (reg_backoff _ _ _ Hr). pose proof (reg_initial _ _ _ Hr).
  change (attempts (S n) p) with (next_backoff (attempts n p)).2. unfold next_backoff. cbn [snd set_backoff backoff_ms]. rewrite Ho.
  rewrite Nat2Z.inj_succ, Z.pow_succ_r by lia.
  destruct (Z.ltb_spec (backoff_ms (attempts n p)) (reconnect_max_ms (ps_options p) / 2)); lia.
Qed.

(** The waits of a client that cannot connect: the n-th is at least half and at most the
    whole of a bound that doubles with every attempt until it is the configured maximum, at
    which it stays. *)
Theorem pubsub_backoff yyjson options h times links snd_ rcv w0 calls replies w n :
  is_int (reconnect_initial_ms options) -> is_int (reconnect_max_ms options) ->
  idx_pubsub_open options h times links snd_ rcv = Some (Ok tt, w0) ->
  Forall call_ok calls -> perform_all yyjson calls w0 = Some (replies, w) ->
  let p := attempts n (ps w) in
  let max := reconnect_max_ms (ps_options (ps w)) in
  let '(delay, p') := next_backoff p in
  Z.min (backoff_ms (ps w) * 2 ^ Z.of_nat n) max <= backoff_ms p <= max /\
  backoff_ms p / 2 <= delay <= backoff_ms p /\
  backoff_ms p <= backoff_ms p' <= Z.min (2 * backoff_ms p + 1) max.
Proof.
  intros Hi Hm Ho Hc Hp. pose proof (pubsub_open_ok _ _ _ _ _ _ _ Hi Hm Ho) as H0.
  pose proof (perform_all_runs yyjson calls Hc w0 H0) as H1. rewrite Hp in H1. destruct H1 as [Hr _].
  cbn zeta. destruct (attempts_registered n _ _ _ Hr) as [Hn He]. pose proof (attempts_grow n _ _ _ Hr).
  pose proof (reg_backoff _ _ _ Hn) as Hb. pose proof (reg_initial _ _ _ Hn). rewrite He in *.
  pose proof (jittered_bounds (attempts n (ps w)) ltac:(lia)) as Hj.
  pose proof (Z.div_mod (reconnect_max_ms (ps_options (ps w))) 2 ltac:(lia)).
  pose proof (Z.mod_pos_bound (reconnect_max_ms (ps_options (ps w))) 2 ltac:(lia)).
  unfold next_backoff in *. cbn [set_backoff backoff_ms]. rewrite He.
  split; [lia|]. split; [exact Hj|].
  destruct (Z.ltb_spec (backoff_ms (attempts n (ps w))) (reconnect_max_ms (ps_options (ps w)) / 2)); lia.
Qed.

(** ** Witnesses *)

Definition pair_text (key : bytes) (v : bytes) : bytes := json_token key ++ [58] ++ v.
Definition object_text (a b : bytes) : bytes := [123] ++ a ++ [44] ++ b ++ [125].

(** [{id: i, result: n}], and a notification of subscription 24. *)
Definition granted_text (i n : Z) : bytes := object_text (pair_text (lit "id") (dec i)) (pair_text (lit "result") (dec n)).
Definition granted_doc (i n : Z) : json := JObj [(lit "id", JUint i); (lit "result", JUint n)].
Definition notified_text : bytes :=
  [123] ++ pair_text (lit "params") (object_text (pair_text (lit "subscription") (dec 24)) (pair_text (lit "result") (dec 5))) ++ [125].
Definition notified_doc : json := JObj [(lit "params", JObj [(lit "subscription", JUint 24); (lit "result", JUint 5)])].

(** A parser of the texts of the witness. *)
Definition small_parser (text : bytes) : option json :=
  if bool_decide (text = granted_text 1 9) then Some (granted_doc 1 9)
  else if bool_decide (text = granted_text 2 24) then Some (granted_doc 2 24)
  else if bool_decide (text = notified_text) then Some notified_doc
  else None.

(** A subscription is granted as 9, the connection is lost, the next one grants it as 24. *)
Definition first_options : idx_pubsub_options := PubsubOptions (Some (lit "wss://node")) 500 30000 60000 0 true.
Definition first_calls : list call := [Subscribe (lit "blockSubscribe") (Some (lit "blockUnsubscribe")) (Some (lit "[]")); Poll 1000].
Definition first_times : list Z := map Z.of_nat (seq 7 30).
Definition first_links : list (connect_env * bool) := [(good_env, false); (good_env, true)].
Definition first_events : list recv_event :=
  [data_frame (granted_text 1 9) 0; RecvGotNothing; RecvAgain 0 PollReady;
   data_frame (granted_text 2 24) 0; data_frame notified_text 0].
Definition first_open : option (result unit * world) :=
  idx_pubsub_open first_options [] first_times first_links [SendOk 200; SendOk 200] first_events.
Definition closed_world : world :=
  first_world (Pubsub first_options [] None (idx_vec_init 1) 0 0 0 0 (PubsubStats 0 0 0 0 false) 0) [] [] [] [] [].
Definition opened : world := match first_open with Some (_, w) => w | None => closed_world end.
Definition after_calls : list reply * world := default ([], opened) (perform_all small_parser first_calls opened).
Definition last_poll : result idx_pubsub_message * world := default (Err IDX_ERR_INTERNAL, opened) (idx_pubsub_poll small_parser 100 after_calls.2).


Lemma first_opened :
  idx_pubsub_open first_options [] first_times first_links [SendOk 200; SendOk 200] first_events = Some (Ok tt, opened).
Proof. vm_compute. reflexivity. Qed.

Lemma first_called : perform_all small_parser first_calls opened = Some (after_calls.1, after_calls.2).
Proof. vm_compute. reflexivity. Qed.

Lemma last_polled : idx_pubsub_poll small_parser 100 after_calls.2 = Some (last_poll.1, last_poll.2).
Proof. vm_compute. reflexivity. Qed.

Lemma first_options_int : is_int (reconnect_initial_ms first_options) /\ is_int (reconnect_max_ms first_options).
Proof. by vm_compute. Qed.

Lemma first_calls_ok : Forall call_ok first_calls.
Proof.
  apply List.Forall_cons; [|by apply List.Forall_cons, List.Forall_nil]. split; apply (bool_decide_unpack _); vm_compute; exact I.
Qed.

Lemma pubsub_history_witness :
  after_calls.1 = [Subscribed (Ok 1); Polled (Err IDX_ERR_TIMEOUT)] /\
  match last_poll.1 with
  | Ok m => msg_subscription m = 1 /\ routed small_parser m last_poll.2
  | Err _ => False
  end.
Proof.
  pose proof (pubsub_history small_parser first_options [] first_times first_links [SendOk 200; SendOk 200] first_events
    opened first_calls after_calls.1 after_calls.2 100 last_poll.1 last_poll.2
    (proj1 first_options_int) (proj2 first_options_int) first_opened first_calls_ok first_called last_polled) as (_ & _ & Hr).
  split; [vm_compute; reflexivity|].
  assert (exists m, last_poll.1 = Ok m /\ msg_subscription m = 1) as (m & E & Hm) by (eexists; split; vm_compute; reflexivity).
  rewrite E in Hr |- *. split; [exact Hm|exact Hr].
Defined.

Lemma pubsub_backoff_witness :
  let p := attempts 3 (ps after_calls.2) in
  backoff_ms p = 4000 /\ 2000 <= (next_backoff p).1 <= 4000 /\ backoff_ms (next_backoff p).2 <= 8001.
Proof.
  pose proof (pubsub_backoff small_parser first_options [] first_times first_links [SendOk 200; SendOk 200] first_events
    opened first_calls after_calls.1 after_calls.2 3
    (proj1 first_options_int) (proj2 first_options_int) first_opened first_calls_ok first_called) as H.
  cbn zeta in *. assert (backoff_ms (attempts 3 (ps after_calls.2)) = 4000) as E by (vm_compute; reflexivity).
  destruct (next_backoff _) as [delay p']. destruct H as (_ & H2 & H3). rewrite E in H2, H3.
  split; [exact E|]. split; [exact H2|]. etransitivity; [apply H3|]. apply Z.le_min_l.
Defined.

(** An error that answers a request the caller no longer waits for, as when an unsubscribe
    is refused, is answered like a rejected subscription. *)
Example refusal_is_rejection :
  let refused := JObj [(lit "id", JUint 7); (lit "error", JObj [])] in
  exists w', on_response (Some refused) 7 opened = Some (Err IDX_ERR_REMOTE, w') /\
    entries (ps opened) = [] /\ subscribe_failures (ps_stats (ps w')) = 1.
Proof. eexists. split; [vm_compute; reflexivity|]. split; vm_compute; reflexivity. Qed.

(** A message the parser refuses is dropped, and the poll goes on as if it had consumed it. *)
Example unparsed_is_dropped :
  exists w', poll_connected small_parser (World (ps opened) [] [7] [] [] [data_frame (lit "{") 0] [] [] 0 0) = Some (None, w') /\
    ps_stats (ps w') = ps_stats (ps opened).
Proof. eexists. split; [vm_compute; reflexivity|]. vm_compute. reflexivity. Qed.
