(* ===== verification/Live.v ===== *)
(** * pipeline.c on pubsub.c: following the tip with the real client

    [Pipeline] receives whatever its turns bring.  Here the turns are the polls of the
    client of [Pubsub]: the subscription is opened, polled and torn down as pipeline.c
    does, and what the pipeline hands to its ring is traced back to what the server
    granted. *)

From S2P Require Import Prelude Bytes Vec Json Decimal Config Ring Pipeline Ws Pubsub PubsubRun.
#[local] Open Scope Z_scope.
#[local] Existing Instances op_ret op_bind.

(** ** The loop *)

Section Live.
Context (cfg : idx_config) (floor : Z) (node_of : idx_json_val -> Z) (yyjson_read_opts : bytes -> option json).
Context (poll_timeout_ms : Z).

(** src/src/pipeline.c:509-513 [open_subscription]: the options of the client. *)
Definition client_options : idx_pubsub_options :=
  let o := Pubsub.idx_pubsub_options_init in
  PubsubOptions (Some (wss_url cfg)) (reconnect_initial_ms o) (reconnect_max_ms o) (idle_timeout_ms o)
    (po_max_message_bytes o) (po_verify_tls o).

(** src/src/pipeline.c:505-526 [open_subscription]: with the client; a client that could
    not subscribe is closed. *)
Definition open_client (mth : bytes) (unsub : option bytes) (prm : bytes) (h : heap) (times : list Z)
    (links : list (connect_env * bool)) (snd_ : list send_event) (rcv : list recv_event)
    : option (Prelude.result Z * Pubsub.world) :=
  '(r, w) ← idx_pubsub_open client_options h times links snd_ rcv;
  match r with
  | Err e => Some (Err e, w)
  | Ok _ => idx_pubsub_subscribe mth unsub (Some prm) w
  end.

(** What the pipeline reads before a poll and what its ring answers after it: the two
    stop flags, and the outcome of publishing. *)
Definition tick : Type := bool * bool * Prelude.result unit.

(** The message of a poll; its document is named by the number of the poll. *)
Definition message_of (n : nat) (m : idx_pubsub_message) : message :=
  Message (Some (Z.of_nat n)) (msg_result m) (size (slice_bytes (msg_raw m))).

(** src/src/pipeline.c:550-553 [run_subscription]: a poll, as a turn of the receive loop. *)
Definition live_turn (k : tick) (n : nat) : op turn :=
  r ← idx_pubsub_poll yyjson_read_opts poll_timeout_ms;
  p ← the;
  mret (Turn k.1 (match r with Ok m => Ok (message_of n m) | Err e => Err e end)
          (Pubsub.reconnects (ps_stats p)) (Err IDX_ERR_INTERNAL) k.2).

(** src/src/pipeline.c:549-618 [run_subscription]: the loop. *)
Fixpoint follow (ticks : list tick) (n : nat) (r : receiver) (o : outbox)
    : op (Prelude.result unit * receiver * outbox) :=
  match ticks with
  | [] => fun _ => None
  | k :: ticks' =>
      if stop_requested k.1.1 k.1.2 then mret (Ok tt, r, o)
      else
        t ← live_turn k n;
        match subscription_turn cfg floor node_of t r o with
        | (Leave status, r, o) => mret (status, r, o)
        | (Continue, r, o) => follow ticks' (S n) r o
        end
  end.

(** src/src/pipeline.c:528-536 [close_subscription]: with the client. *)
Definition close_client (hd : Z) (status : Prelude.result unit) (stopping : bool) : op (list ws_action * list subscription) :=
  _ ← (match status with
       | Ok _ => (_ ← idx_pubsub_unsubscribe hd; mret tt)
       | Err _ => if stopping then (_ ← idx_pubsub_unsubscribe hd; mret tt) else mret tt
       end);
  p ← the;
  mret (idx_pubsub_close p).

(** The turns alone, each with the client after it; a stop ends them. *)
Fixpoint watch (ticks : list tick) (n : nat) : op (list (turn * Pubsub.world)) :=
  match ticks with
  | [] => mret []
  | k :: ticks' =>
      if stop_requested k.1.1 k.1.2
      then fun w => Some ([(Turn k.1 (Err IDX_ERR_TIMEOUT) 0 (Err IDX_ERR_INTERNAL) k.2, w)], w)
      else
        t ← live_turn k n;
        w ← (fun w => Some (w, w));
        ts ← watch ticks' (S n);
        mret ((t, w) :: ts)
  end.

(** The loop is the receive loop of Pipeline.v over the polls of the client. *)
Lemma follow_receives ticks n r o w st r' o' w' :
  follow ticks n r o w = Some ((st, r', o'), w') ->
  exists k ts, watch (take k ticks) n w = Some (ts, w') /\
    receive (subscription_turn cfg floor node_of) ts.*1 r o = Some (st, r', o').
Proof.
  revert n r o w. induction ticks as [|k ticks IH]; intros n r o w; cbn [follow]; [done|].
  destruct (stop_requested _ _) eqn:Es.
  { intros [= <- <- <- <-]. exists 1%nat. cbn [take watch]. rewrite Es. eexists. split; [reflexivity|].
    cbn [fmap list_fmap fst receive flags]. by rewrite Es. }
  unfold mbind, op_bind. destruct (live_turn k n w) as [[t w1]|] eqn:Et; [|done].
  assert (flags t = k.1) as Ef.
  { unfold live_turn, mbind, op_bind, the in Et. destruct (idx_pubsub_poll _ _ _) as [[p w2]|]; [|done]. by injection Et as <- _. }
  destruct (subscription_turn cfg floor node_of t r o) as [[[|s] r1] o1] eqn:E.
  - intros Hf. destruct (IH _ _ _ _ Hf) as (k' & ts & Hw & Hr). exists (S k'), ((t, w1) :: ts).
    cbn [take watch]. rewrite Es. unfold mbind, op_bind. rewrite Et, Hw. split; [done|].
    cbn [fmap list_fmap fst receive]. rewrite Ef, Es, E. exact Hr.
  - intros [= <- <- <- <-]. exists 1%nat, [(t, w1)]. cbn [take watch]. rewrite Es. unfold mbind, op_bind. rewrite Et.
    split; [done|]. cbn [fmap list_fmap fst receive]. by rewrite Ef, Es, E.
Qed.
End Live.

(** ** What is subscribed to stays so *)

(** The subscriptions the caller made. *)
Definition holding (S : list (Z * bytes * option bytes)) (w : Pubsub.world) : Prop := map shape (entries (ps w)) = S.

Definition keeps {X} (m : op X) : Prop := forall S, runs m (holding S) (fun _ => holding S).

Lemma keeps_ret {X} (x : X) : keeps (op_ret _ x).
Proof. by intros S w Hw. Qed.

Lemma keeps_bind {X Y} (m : op X) (f : X -> op Y) : keeps m -> (forall x, keeps (f x)) -> keeps (op_bind _ _ f m).
Proof. intros Hm Hf S. eapply runs_bind; [apply Hm|]. intros x. apply Hf. Qed.

(** An operation that leaves the registry alone. *)
Lemma keeps_entries {X} (m : op X) :
  (forall w x w', m w = Some (x, w') -> entries (ps w') = entries (ps w)) -> keeps m.
Proof. intros Hm S w Hw. destruct (m w) as [[x w']|] eqn:E; [|done]. unfold holding. by rewrite (Hm _ _ _ E). Qed.

Lemma keeps_update f : (forall p, map shape (entries (f p)) = map shape (entries p)) -> keeps (update f).
Proof. intros Hf S w Hw. unfold update, holding, with_ps. cbn [ps]. by rewrite Hf. Qed.

Lemma keeps_the : keeps the.
Proof. by apply keeps_entries; intros w x w' [= _ <-]. Qed.

Lemma keeps_heap {X} (f : heap -> X * heap) : keeps (on_heap f).
Proof. apply keeps_entries. intros w x w'. unfold on_heap. destruct (f (w_heap w)) as [y h]. by intros [= _ <-]. Qed.

Lemma keeps_monotonic : keeps monotonic_ms.
Proof. apply keeps_entries. intros w x w'. unfold monotonic_ms. destruct (clock w); [done|]. by intros [= _ <-]. Qed.

Lemma keeps_history : keeps new_history.
Proof. by apply keeps_entries; intros w x w' [= _ <-]. Qed.

Lemma keeps_hear doc : keeps (hear doc).
Proof. by apply keeps_entries; intros w x w' [= _ <-]. Qed.

Lemma keeps_readings : keeps readings.
Proof. by apply keeps_entries; intros w x w' [= _ <-]. Qed.

Lemma keeps_recv : keeps recv.
Proof.
  apply keeps_entries. intros w x w'. unfold recv. destruct (ps_ws (ps w)) as [ws|]; [|by intros [= _ <-]].
  destruct (idx_ws_recv _ _ _) as [[[[r ws'] rest] h]|]; [|done]. cbn [mbind option_bind]. by intros [= _ <-].
Qed.

Lemma keeps_connect : keeps connect.
Proof.
  apply keeps_entries. intros w x w'. unfold connect. destruct (connects w) as [|[env i] l]; [done|].
  destruct (idx_ws_connect _ _ _ _) as [[[[ws|s] a] i'] h]; by intros [= _ <-].
Qed.

Create HintDb keeps.
#[local] Hint Resolve keeps_ret keeps_the keeps_heap keeps_monotonic keeps_history keeps_hear keeps_readings keeps_recv
  keeps_connect : keeps.

Ltac keeps_step :=
  match goal with
  | |- keeps (op_bind _ _ _ _) => apply keeps_bind; [|intros ?; cbn beta]
  | |- keeps (mbind _ _) => apply keeps_bind; [|intros ?; cbn beta]
  | |- keeps (update _) => apply keeps_update; intros ?; try reflexivity
  | |- keeps (match ?x with _ => _ end) => destruct x
  | |- keeps _ => solve [eauto with keeps]
  end.

Lemma keeps_drop : keeps drop_connection.
Proof. unfold drop_connection. repeat keeps_step. cbn [entries set_entries set_subscriptions subscriptions vec_data]. by rewrite map_map. Qed.

Lemma keeps_send_subscribe i : keeps (send_subscribe i).
Proof.
  intros S w Hw. unfold send_subscribe, mbind, op_bind, the. destruct (idx_vec_at _ _) as [e|] eqn:He; [|done].
  assert (entries (ps w) !! i = Some e) as Hi.
  { unfold idx_vec_at in He. by destruct (length (vec_data (subscriptions (ps w))) <=? i)%nat. }
  assert (map shape (<[i := Subscription (handle e) (next_request_id (ps w)) 0 (method e) (unsubscribe_method e) (params e) false]>
    (entries (ps w))) = S) as HS by (rewrite <- (shape_insert i _ e); done).
  unfold take_request_id, update, with_ps, on_heap, mret, op_ret, send_text. cbn [w_heap ps].
  destruct (idx_json_write_rpc_request _ _ _ _ _) as [[[[]|s] b] h]; cbn [ps sends outgoing]; [|exact HS].
  destruct (ps_ws _) as [ws|]; [|exact HS].
  destruct (idx_ws_send_text _ _ _) as [[[r pieces] rest]|]; [|done]. cbn [mbind option_bind]. exact HS.
Qed.

#[local] Hint Resolve keeps_drop keeps_send_subscribe : keeps.

Lemma keeps_resubscribe n i : keeps (resubscribe n i).
Proof. revert i. induction n as [|n IH]; intros i; cbn [resubscribe]; repeat (apply IH || keeps_step). Qed.

#[local] Hint Resolve keeps_resubscribe : keeps.

Lemma keeps_establish : keeps establish.
Proof. unfold establish. repeat keeps_step. Qed.

#[local] Hint Resolve keeps_establish : keeps.

Lemma keeps_response root id : keeps (on_response root id).
Proof.
  unfold on_response. destruct (has_error root); [repeat keeps_step|]. intros S w Hw.
  unfold mbind, op_bind, the, mret, op_ret, find_by_request.
  pose proof (find_entry_spec (fun e => negb (confirmed e) && (request_id e =? id)) 0 (entries (ps w))) as Hf.
  destruct (find_entry _ _ _) as [[i e]|]; [|exact Hw]. destruct Hf as (j & -> & Hj & _).
  destruct (idx_json_opt_u64 root (lit "result")) as [sid|]; [|exact Hw].
  unfold update, with_ps, holding. cbn [ps]. change (map shape (<[(0 + j)%nat := confirm sid e]> (entries (ps w))) = S).
  rewrite <- (shape_insert _ _ e); done.
Qed.

Lemma keeps_notification root raw : keeps (on_notification root raw).
Proof. unfold on_notification. repeat keeps_step. Qed.

#[local] Hint Resolve keeps_response keeps_notification : keeps.

Lemma keeps_dispatch yyjson raw : keeps (dispatch yyjson raw).
Proof. unfold dispatch. repeat keeps_step. Qed.

#[local] Hint Resolve keeps_dispatch : keeps.

Lemma keeps_poll_connected yyjson : keeps (poll_connected yyjson).
Proof. unfold poll_connected. repeat keeps_step. Qed.

Lemma keeps_poll_disconnected remaining : keeps (poll_disconnected remaining).
Proof.
  intros S w Hw. unfold poll_disconnected, mbind, op_bind, the. destruct (next_backoff (ps w)) as [delay p1] eqn:E.
  assert (entries p1 = entries (ps w)) as Ee by (unfold next_backoff in E; by injection E as _ <-).
  assert (holding S (with_ps p1 w)) as H1 by (unfold holding, with_ps; cbn [ps]; by rewrite Ee).
  unfold update. fold (with_ps p1 w). destruct (remaining <? delay); [exact H1|].
  pose proof (keeps_establish S _ H1) as H2. destruct (establish (with_ps p1 w)) as [[[[]|s] w2]|]; done.
Qed.

#[local] Hint Resolve keeps_poll_connected keeps_poll_disconnected : keeps.

Lemma keeps_poll_loop yyjson fuel deadline : keeps (poll_loop yyjson fuel deadline).
Proof. induction fuel as [|fuel IH]; cbn [poll_loop]; [done|]. repeat (apply IH || keeps_step). Qed.

Lemma keeps_poll yyjson timeout : keeps (idx_pubsub_poll yyjson timeout).
Proof. unfold idx_pubsub_poll. repeat (apply keeps_poll_loop || keeps_step). Qed.

(** ** What reaches the ring *)

(** The client holds the one subscription [hd]. *)
Definition subscribed (hd : Z) (mth prm : bytes) (w : Pubsub.world) : Prop :=
  client_ok w /\ holding [(hd, mth, Some prm)] w.

Lemma open_holds options h times links snd_ rcv w :
  idx_pubsub_open options h times links snd_ rcv = Some (Ok tt, w) -> holding [] w.
Proof.
  unfold idx_pubsub_open. destruct (po_url options) as [u|]; [|done].
  destruct (malloc h) as [[] h1]; [|done]. cbn [negb]. destruct (malloc h1) as [[] h2]; [|done]. cbn [negb].
  destruct times as [|t times]; [done|]. set (w0 := first_world _ _ _ _ _ _). intros Ho.
  pose proof (keeps_establish [] w0 eq_refl) as H. by rewrite Ho in H.
Qed.

(** Subscribing a client that holds nothing, when it succeeds. *)
Lemma subscribe_holds mth unsub prm w r w' :
  client_ok w -> holding [] w -> idx_pubsub_subscribe mth unsub (Some prm) w = Some (Ok r, w') ->
  holding [(r, mth, Some prm)] w'.
Proof.
  intros [Hr _] Hw. unfold idx_pubsub_subscribe, mbind, op_bind, take_handle, on_heap. cbn [w_heap].
  destruct (copy_texts unsub (Some prm) (w_heap w)) as [[] h1]; cbn [negb]; [|done]. unfold the, mret, op_ret. cbn [ps w_heap].
  set (p1 := set_next_handle _ _).
  pose proof (vec_push_ok blank_subscription (subscriptions p1) (Subscription (next_handle (ps w)) 0 0 mth unsub (Some prm) false) h1
    (reg_vec _ _ _ Hr)) as Hv.
  destruct (idx_vec_push _ _ _ _) as [[[[]|s] v'] h2]; [|done]. destruct Hv as (v & -> & _ & Hd). unfold update, with_ps. cbn [ps default id].
  change (vec_data (subscriptions p1)) with (entries (ps w)) in Hd. apply map_eq_nil in Hw. rewrite Hw in Hd.
  set (S := [(next_handle (ps w), mth, Some prm)]).
  match goal with |- match ?m ?w0 with _ => _ end = _ -> _ =>
    assert (holding S w0) as H2; [unfold holding; cbn [ps]; change (entries _) with (vec_data v); by rewrite Hd|];
    assert (keeps m) as Hk; [|pose proof (Hk S w0 H2) as H3; destruct (m w0) as [[[] w3]|]; [by intros [= <- <-]|done]]
  end.
  destruct (ps_ws _); [|apply keeps_ret].
  apply keeps_bind; [apply keeps_send_subscribe|]. intros [[]|s]; [apply keeps_ret|apply keeps_drop].
Qed.

(** The message of a turn is what the client last heard: the result of a notification under
    an id which the server gave, on the same connection, in answer to the request of this
    method and these parameters. *)
Definition granted (mth prm : bytes) (yyjson : bytes -> option json) (x : turn * Pubsub.world) : Prop :=
  match poll x.1 with
  | Ok m =>
      exists raw doc sid, last (heard x.2) = Some doc /\ yyjson raw = Some doc /\ m_length m = size raw /\
        idx_json_opt_u64 (idx_json_get (Some doc) (lit "params")) (lit "subscription") = Some sid /\
        m_result m = idx_json_get (idx_json_get (Some doc) (lit "params")) (lit "result") /\
        (ids_left (asked x.2) -> exists id, (id, sid) ∈ omap answer_of (heard x.2) /\
           request_text id mth (Some prm) ∈ outgoing x.2)
  | Err s => s <> IDX_ERR_CLOSED /\ s <> IDX_ERR_NETWORK
  end.

Lemma routed_granted hd mth prm yyjson m n w fl rc ft pb :
  holding [(hd, mth, Some prm)] w -> routed yyjson m w -> granted mth prm yyjson (Turn fl (Ok (message_of n m)) rc ft pb, w).
Proof.
  intros Hw (doc & e & H1 & H2 & H3 & H4 & H5 & _ & _ & H8). exists (slice_bytes (msg_raw m)), doc, (server_id e).
  split_and!; try done. intros Hi. exists (request_id e). cbn [snd]. destruct (H8 Hi) as [Ha Hb]. split; [exact Ha|].
  assert (shape e ∈ map shape (entries (ps w))) as Hs by (apply list_elem_of_fmap; by exists e).
  rewrite Hw in Hs. apply list_elem_of_singleton in Hs. unfold shape in Hs. injection Hs as _ E1 E2. by rewrite E1, E2 in Hb.
Qed.

Lemma live_turn_runs yyjson timeout hd mth prm k n :
  runs (live_turn yyjson timeout k n) (subscribed hd mth prm)
    (fun t w => subscribed hd mth prm w /\ granted mth prm yyjson (t, w)).
Proof.
  intros w [Hok Hh]. unfold live_turn, mbind, op_bind, the, mret, op_ret.
  pose proof (poll_runs yyjson timeout w Hok) as Hp. pose proof (keeps_poll yyjson timeout _ w Hh) as Hk.
  destruct (idx_pubsub_poll _ _ _) as [[[m|s] w1]|]; [| |done]; destruct Hp as [H1 H2]; (split; [by split|]); [|exact H2].
  by eapply routed_granted.
Qed.

Lemma watch_runs yyjson timeout hd mth prm ticks n :
  runs (watch yyjson timeout ticks n) (subscribed hd mth prm)
    (fun ts _ => Forall (granted mth prm yyjson) ts).
Proof.
  revert n. induction ticks as [|k ticks IH]; intros n; cbn [watch]; [intros w Hw; constructor|].
  destruct (stop_requested _ _); [intros w Hw; by repeat constructor|].
  eapply runs_bind; [apply live_turn_runs|]. intros t. cbn beta. intros w [Hw Ht]. unfold mbind, op_bind.
  specialize (IH (S n) w Hw). destruct (watch _ _ _ _ _) as [[ts w']|]; [|done]. by constructor.
Qed.

Lemma open_client_subscribed cfg mth unsub prm h times links snd_ rcv hd w :
  c_string mth -> c_string prm ->
  open_client cfg mth unsub prm h times links snd_ rcv = Some (Ok hd, w) -> subscribed hd mth prm w.
Proof.
  intros Hm Hp. unfold open_client. destruct (idx_pubsub_open _ _ _ _ _ _) as [[[[]|e] w0]|] eqn:Eo; cbn [mbind option_bind]; try done.
  intros Hs. assert (client_ok w0) as Hok by (eapply (pubsub_open_ok (client_options cfg)); [by vm_compute|by vm_compute|exact Eo]).
  pose proof (subscribe_runs mth unsub (Some prm) Hm Hp w0 Hok) as Hr. rewrite Hs in Hr.
  split; [exact Hr|]. by eapply subscribe_holds; [exact Hok|by eapply open_holds|].
Qed.

(** C19. From the server to the ring.  Whatever the network, the server and the allocator do
    while the tip is followed over blockSubscribe: the entries published are, in order, the
    blocks of the notifications polled whose slots the run is to index, every other
    document being freed; and every one of those notifications came under an id the server
    gave, on the same connection, in answer to the request for blockSubscribe with the
    parameters of the configuration.  A lost connection never ends the loop. *)
Theorem live_blocks_granted cfg floor node_of yyjson timeout h times links snd_ rcv hd w ticks r status r' o' w' :
  c_string (subscribe_text cfg) ->
  open_client cfg (lit "blockSubscribe") (Some (lit "blockUnsubscribe")) (subscribe_text cfg) h times links snd_ rcv = Some (Ok hd, w) ->
  follow cfg floor node_of yyjson timeout ticks 0 r (Outbox [] []) w = Some ((status, r', o'), w') ->
  exists k ts used rest, watch yyjson timeout (take k ticks) 0 w = Some (ts, w') /\ ts.*1 = used ++ rest /\
    sent o' = omap (wanted cfg floor node_of) used /\ docs (sent o') ++ freed o' ≡ₚ used ≫= message_doc /\
    Forall (granted (lit "blockSubscribe") (subscribe_text cfg) yyjson) ts /\
    left_because cfg sub_slot status used rest.
Proof.
  intros Hp Ho Hf. apply open_client_subscribed in Ho; [|by apply (bool_decide_unpack _); vm_compute|done].
  apply follow_receives in Hf as (k & ts & Hw & Hr).
  apply (receive_does _ _ _ _ _ _ _ _ _ _ _ (subscription_does cfg floor node_of)) in Hr as (used & rest & E & Hs & Hfr & Hl).
  exists k, ts, used, rest. cbn [sent freed app] in Hs, Hfr. split_and!; try done.
  - rewrite Hs, Hfr. apply wanted_docs.
  - pose proof (watch_runs yyjson timeout _ _ _ (take k ticks) 0 w Ho) as H. by rewrite Hw in H.
Qed.

(** Following that ended well leaves no subscription behind. *)
Lemma close_client_empties hd mth prm stopping w :
  subscribed hd mth prm w ->
  match close_client hd (Ok tt) stopping w with Some ((_, remaining), _) => remaining = [] | None => True end.
Proof.
  intros [Hok Hh]. unfold close_client, idx_pubsub_unsubscribe, mbind, op_bind, the.
  apply map_eq_cons in Hh as (e & l & He & E & ->%map_eq_nil). unfold shape in E. injection E as Eh _ _.
  rewrite He. cbn [find_entry]. rewrite Eh, Z.eqb_refl.
  pose proof (send_unsubscribe_runs e w Hok) as Hs. destruct (send_unsubscribe e w) as [[[] w1]|]; [|done].
  destruct Hs as [_ Hs]. unfold update, mret, op_ret, with_ps, idx_pubsub_close. cbn [ps set_entries set_subscriptions entries subscriptions vec_data].
  unfold entries in *. by rewrite Hs, He.
Qed.

(** ** Witness *)

Definition wrapped (text : bytes) : bytes := [123] ++ text ++ [125].

(** A notification of subscription 24: the block of slot 12. *)
Definition block_text : bytes :=
  wrapped (pair_text (lit "params") (object_text (pair_text (lit "subscription") (dec 24))
    (pair_text (lit "result") (object_text (pair_text (lit "context") (wrapped (pair_text (lit "slot") (dec 12))))
      (pair_text (lit "value") (object_text (pair_text (lit "err") (lit "null")) (pair_text (lit "block") (wrapped [])))))))).
Definition block_doc : json :=
  JObj [(lit "params", JObj [(lit "subscription", JUint 24); (lit "result", notification 12)])].

Definition live_parser (text : bytes) : option json :=
  if bool_decide (text = granted_text 1 24) then Some (granted_doc 1 24)
  else if bool_decide (text = block_text) then Some block_doc
  else None.

Definition live_events : list recv_event := [data_frame (granted_text 1 24) 0; data_frame block_text 0].

Definition live_client : Prelude.result Z * Pubsub.world :=
  default (Err IDX_ERR_INTERNAL, closed_world)
    (open_client with_rpc (lit "blockSubscribe") (Some (lit "blockUnsubscribe")) (subscribe_text with_rpc) [] first_times
       [(good_env, false)] [SendOk 400] live_events).

Definition live_ticks : list tick := [(false, false, Ok tt); (true, false, Ok tt)].

Definition live_end : Prelude.result unit * receiver * outbox * Pubsub.world :=
  default (Err IDX_ERR_INTERNAL, idle_receiver, Outbox [] [], closed_world)
    (follow with_rpc 0 (fun _ => 3) live_parser 1000 live_ticks 0 idle_receiver (Outbox [] []) live_client.2).

Lemma live_blocks_granted_witness :
  exists ts, map slot (sent live_end.1.2) = [12] /\
    Forall (granted (lit "blockSubscribe") (subscribe_text with_rpc) live_parser) ts /\
    sent live_end.1.2 = omap (wanted with_rpc 0 (fun _ => 3)) ts.*1.
Proof.
  assert (c_string (subscribe_text with_rpc)) as Hc by (apply (bool_decide_unpack _); vm_compute; exact I).
  assert (open_client with_rpc (lit "blockSubscribe") (Some (lit "blockUnsubscribe")) (subscribe_text with_rpc) [] first_times
    [(good_env, false)] [SendOk 400] live_events = Some (Ok 1, live_client.2)) as Ho by (vm_compute; reflexivity).
  assert (follow with_rpc 0 (fun _ => 3) live_parser 1000 live_ticks 0 idle_receiver (Outbox [] []) live_client.2 =
    Some ((Ok tt, live_end.1.1.2, live_end.1.2), live_end.2)) as Hf by (vm_compute; reflexivity).
  destruct (live_blocks_granted with_rpc 0 (fun _ => 3) live_parser 1000 [] first_times [(good_env, false)] [SendOk 400]
    live_events 1 live_client.2 live_ticks idle_receiver (Ok tt) live_end.1.1.2 live_end.1.2 live_end.2 Hc Ho Hf)
    as (k & ts & used & rest & _ & E & Hs & _ & Hg & Hl).
  assert (sent live_end.1.2 = [RingEntry 0 12 (Some 0) 3 0 (size block_text)]) as Es by (vm_compute; reflexivity).
  assert (Forall (granted (lit "blockSubscribe") (subscribe_text with_rpc) live_parser) (take (length used) ts)) as Hg'
    by (by apply Forall_take).
  exists (take (length used) ts). split; [by rewrite Es|]. split; [exact Hg'|]. rewrite Hs. f_equal.
  rewrite <- (take_app_length used rest), <- E at 1. by rewrite fmap_take.
Defined.
